(* ===== verification/_CoqProject ===== *)
-Q . S2P
Prelude.v
Text.v
RateLimit.v
SharedLimit.v
ChallengeStore.v
Revocation.v
AuthService.v
Errors.v
ContextTypes.v
ChangeBucket.v
ChangeFeed.v
FeedBackends.v
Changes.v
ChangesKey.v
Subscriptions.v
Hints.v
ClientIp.v
ReadGate.v
ChangesHttp.v
Webhook.v
PageCursors.v
EventReceipts.v
KeyAttestations.v
SqlTx.v
SqliteStore.v
SqlitePublish.v
SqliteInvariants.v
SqliteLifecycle.v
SqliteReach.v
SqliteReads.v
SqliteTheorems.v
SqliteListing.v
SqliteLog.v
SqliteSweep.v
StoreExample.v
PublishReply.v
Playground.v
Handlers.v
KeylessPublish.v
PublishHandler.v
PublishTheorems.v
PublishSqlite.v
PublishExample.v
ReadHandlers.v
ReadTheorems.v
LifecycleHandler.v
HandlerExample.v
Jwks.v
KeylessToken.v
HttpForms.v
KeylessMint.v
MintExample.v
Config.v
Startup.v
Validate.v
ValidateTheorems.v
Retention.v
StartupExample.v
LogHandlers.v
LogTheorems.v
Witness.v
LogSqlite.v
LogExample.v
SubscriptionHandlers.v
SubscriptionExample.v
AdminHandlers.v
AdminTheorems.v
AdminAudit.v
AdminExample.v
AuthHandlers.v
Router.v
MetaHandlers.v
MemoryStore.v
PgTx.v
PgStore.v
PgSerial.v
PgParity.v
PgReads.v
Search.v
PgExample.v
