(* ===== verification/Prelude.v ===== *)
(** * A verification library for acdp-registry-rs

    acdp-registry-rs is a registry server: agents authenticate by signing a
    challenge with a DID key, publish signed contexts that supersede one another,
    retract and republish them; consumers retrieve, search and list them, follow a
    change feed or subscribe to it, and audit a transparency log. This library
    models the parts that carry the registry's own logic and proves what makes them
    correct. Code of other crates (the [acdp] SDK, [ring], [jsonwebtoken], [sqlx],
    [reqwest], [axum], [tower-http]) is a parameter: a class or an argument, with
    the documented behaviour it is relied on for as a named law, and a concrete
    instance in the examples that discharges it.

    ** The parts and the files

    A file models one component and requires the ones it calls. Paths are below
    [src/crates/].

    Shared: [Prelude] has results and the [?] operator, machine integers with their
    saturation and widths, timestamps, byte strings, the tactics and the hint
    database; [Text] the string operations of the standard library the code uses
    (trimming, splitting, number parsing); [ContextTypes] bodies, requests, statuses
    and the retrieval rule; [Errors] [acdp-registry-types/src/error.rs], the error
    type with its wire codes, statuses, bodies and headers.

    Authentication: [ChallengeStore], [Revocation] and [AuthService] are
    [acdp-registry-auth/src/]: nonces and the index of issued and revoked tokens in
    their three backends, the validator, the poller of peers' revocations, and the
    service over the two stores' classes. [AuthHandlers] are the three endpoints
    with the challenge limiter of [state.rs].

    Rate limits and addresses: [RateLimit] ([acdp-registry-core/src/rate_limit.rs]),
    [SharedLimit] (the trait, the Postgres backend, the layered limiter and the
    [/auth/*] middleware), [ClientIp] (addresses, CIDR blocks, [X-Forwarded-For]).

    Reading: [ReadGate] ([read_token.rs], [read_gate.rs], [tenant_trust.rs] and the
    tenant resolution of [handlers/context.rs]); [PageCursors]
    ([acdp-registry-store/src/cursor.rs] and keyset pagination); [ReadHandlers] with
    [ReadTheorems]: retrieve, body, search with its refill, lineage, current.

    The context store: [SqlTx] is a transaction whose every statement, commit and
    reply may fail. [SqliteStore] is [acdp-registry-sqlite/src/store.rs] and
    [keyless.rs]: the tables, publishing, lifecycle events, idempotency records,
    attestations, the receipt sweep and the reads; [EventReceipts] and
    [KeyAttestations] are the rules of [acdp-registry-store/src/] it applies.
    [SqlitePublish] and [SqliteLifecycle] say what each transaction does,
    [SqliteInvariants] states what a store keeps, [SqliteReach] that every reachable
    one has it; [SqliteReads], [SqliteListing] (with the default methods
    of the store trait), [SqliteLog], [SqliteSweep] and [SqliteTheorems] are the
    theorems, [StoreExample] a concrete store.

    The Postgres store: [PgTx] is the engine, programs of statements that run under
    READ COMMITTED with row locks, advisory locks and unique keys, interleaved
    statement by statement; [PgStore] is the write side of
    [acdp-registry-pg/src/store.rs], [keyless.rs] and [changes.rs] as such programs,
    [PgSerial] shows that their runs are serial, [PgParity] that a serial run does
    what the SQLite store does; [PgReads] is its read side. [Search] is the search
    of both stores with [acdp-registry-store/src/fulltext.rs]. [PgExample] runs them.

    The in-memory store: [MemoryStore] is [acdp-registry-server/src/memory_ext.rs] around
    the SDK's store, which is a class.

    The change feed: [ChangeBucket] and [ChangeFeed] ([acdp-registry-store/src/]:
    which rows a commit appends, how a row is served, which rows a query selects;
    the abstract feed [AFeed] and the class [FeedContract]), [FeedBackends] (memory,
    SQLite and Postgres, each discharging it), [Changes] and [ChangesHttp]
    ([handlers/changes.rs]), [ChangesKey] (cursors and sealed secrets),
    [Subscriptions] (the rows and the lease protocol of the workers), [Hints]
    ([hints.rs]), [SubscriptionHandlers]
    ([handlers/subscriptions.rs], [callback.rs]).

    Writing: [Handlers] is the monad of a handler and the SDK's server as an
    interface, [PublishReply] the answer; [PublishHandler], [PublishTheorems] and
    [PublishSqlite] are [POST /contexts], [Playground] its pinned keys,
    [KeylessPublish] publishing under an attested key, [LifecycleHandler]
    retraction and republication, [Webhook] the delivery queue.

    Keyless keys: [Jwks] (the issuers' key cache), [KeylessToken] (the token checks),
    [KeylessMint] ([handlers/keyless.rs] and [keyless/mint.rs]).

    The transparency log: [LogHandlers] and [LogTheorems] ([handlers/log.rs],
    [log.rs]), [Witness] ([witness.rs]), [LogSqlite] (their SQLite side).

    Configuration and startup: [Config] (every section and its defaults), [Startup]
    (receipt keys, the DID document, the changes key), [Validate] and
    [ValidateTheorems] ([validate_config] and [build_capabilities] of
    [acdp-registry-server/src/main.rs]), [Retention] (its pruning pass).

    Around the handlers: [HttpForms] (extractors and [Accept-Encoding]),
    [AdminHandlers], [AdminTheorems] and [AdminAudit] ([handlers/admin.rs]),
    [MetaHandlers] ([handlers/meta.rs], [/metrics]), [Router] (the routes and layers
    of [acdp-registry-core/src/lib.rs]).

    The files named [...Example] instantiate every parameter with a small concrete
    function, run the definitions by [vm_compute] and hold the witnesses.

    How they meet: a request passes the router's layers, the read gate and the
    extractors; its handler resolves tenant and requester, charges a limiter, calls
    the SDK's server, which calls the store, and announces what it did to the hint
    worker and the webhook. A commit of the store appends feed rows and a log leaf
    in its transaction; [evaluate_changes] reads the feed for [GET /changes], and the
    hint worker calls the same function as the subscription's owner. The auth
    service takes a nonce from a [ChallengeStore] and records tokens in a
    [RevocationStore], which the gate consults.

    ** How the code is modelled

    Operations are functions from a state to a result and a new state, with the
    code's guards and early returns in its order. [Result] is [result], an error is a
    value. Integers are [Z] with the code's saturating, checked and truncating
    conversions written out; clocks and random draws are arguments, instants in
    nanoseconds, feed and subscription columns in milliseconds. A lock that may be
    poisoned is a flag of the state.

    A handler is a value of [H]: at every [await] other requests may change the
    shared store (any change that keeps an invariant the theorem names) or the
    future may be dropped, a panic is an outcome, and announcements are an ordered
    list of effects. Theorems about handlers quantify over all awaits. A blocking
    call runs to its end even when its request is dropped, as [spawn_blocking] does.

    A database call is told by its environment whether it fails before or after
    taking effect, so lost replies are covered; SQLite's [BEGIN IMMEDIATE] makes a
    write transaction one function of the tables, while the two reads of [get] and of
    an audit's lineage may see two states. Concurrent workers are step relations ([LeaseSys]). Refusals of
    [validate_config] are constructors instead of sentences, one for each [bail!].

    Fuel: the scan loop of [GET /changes] runs at most [REFILL_MAX_SCANS] times, the
    search refill [SEARCH_REFILL_MAX_PAGES] and a hint pass [MAX_BATCHES_PER_PASS]
    times in the code itself; the fuel of the model is these constants. Clients that
    follow cursors ([walk], the listing and search walks), the sweep and the pruning
    loop are given fuel, and their theorems prove that one page more than what is
    left is enough. The other loops are structural.

    ** What the theorems show

    - Authentication: a token is issued only for a live nonce of the requesting
      agent with a verified signature, a nonce is redeemed at most once on every
      backend, an agent revokes its own tokens only, a revoked token stays rejected
      (but for the last fraction of a second of its window), and a flood of
      challenges is bounded.
    - Publishing: an accepted publish is proven and charged, happens whole or not at
      all, is answered again for its idempotency key, and supersedes only a
      predecessor of the caller; every reachable store is well formed, its log only
      grows, its lineages are chains; keyless publishes rest on a standing
      attestation, and an attestation is minted only for a verified token that was not
      exchanged before, key and listing, under keys the issuer served recently. A
      webhook posts each delivery it takes at least once, in order.
    - Reading: a read is served only as whom its credential authenticates, in a
      tenant that is vouched for, and shows what the retrieval rule allows; search,
      listing and batch disclosure agree with retrieval; a served context is
      consistent although it is read in two steps.
    - Change feed, hints and subscriptions: every backend refines one append-only
      log; a page is exactly what matches between its cursors and following them
      reads the retained feed once; retention keeps its window; one worker at a time
      holds a subscription, which only its owner reads or removes.
    - Log: every answer describes one append-only log, whatever is appended
      meanwhile, and only verified cosignatures are served.
    - Administration and startup: a takedown is the registry's own and an admin's,
      a reload never brings unusable pins into force, the audit reports the store
      (and takes a retracted old version for a second tip); an accepted
      configuration honours the profiles it advertises and leaves no open door.
    - Transport: wire codes and statuses agree, internal errors reveal nothing, and
      no response leaves the router without its cache, media type and id headers.
    - Postgres: however its transactions interleave, every committed one did what it
      would have done alone, at its commit, so that lineages never fork and the log has
      no gap or double; after the calls listed below the tables are those the SQLite
      store would hold after the same calls in that order; and reads of tables with the
      same data answer what SQLite's answer, up to JSONB, collation and the order of
      rows of equal keys.
    - Memory: what the in-memory store keeps beside the SDK's (receipts, index, feed)
      stays in step with its contexts, and a keyless publish rests on its index.
    - Search: following the cursors of a search finds exactly what may be disclosed and
      matches, on SQLite, and on Postgres where the two full-text engines agree and
      instants are whole milliseconds.

    ** What is not modelled

    The full-text engines themselves (a parameter), the loop of the Postgres receipt
    sweep, its health check and pool, the SDK's in-memory store, the SDK's server
    behind its interface, the merging of configuration files and the environment (the
    configuration library's), the command line, listeners, TLS and signals, the HTTP
    clients, metric counters and logs, migrations, and the parity and smoke test
    suites. Texts that other crates' [Display] implementations produce are parameters
    or abbreviated; no theorem depends on them.

    The theorems that compare Postgres with SQLite have these limits: clocks are whole
    milliseconds (the two databases round differently below); a keyless gate reads the state of its
    statement, not of the commit, so keyless successors are left out of the refinement
    (not of the serial runs); writes of one statement outside a transaction
    (idempotency records, their eviction, tenants) are programs of their own and are
    not refined; text order is the database's collation, a parameter. A search walk
    asks about one instant: the clock that decides what has expired stands still, that
    of the cursors runs. *)

From Corelib Require Export ssreflect.
From Stdlib Require Export ZArith Lia.
From stdpp Require Export base list gmap strings fin_maps sorting.

#[global] Open Scope general_if_scope.
#[export] Set SsrOldRewriteGoalsOrder.

(** ** Results *)

(** Rust's [Result<T, E>]. *)
Inductive result (T E : Type) : Type :=
  | Ok (value : T)
  | Err (error : E).

Arguments Ok {T E} value.
Arguments Err {T E} error.

(** The [?] operator: the first error ends the computation. *)
Definition and_then {T U E : Type} (r : result T E) (k : T → result U E) : result U E :=
  match r with
  | Ok v => k v
  | Err e => Err e
  end.

Definition map_err {T E F : Type} (f : E → F) (r : result T E) : result T F :=
  match r with
  | Ok v => Ok v
  | Err e => Err (f e)
  end.

Definition ok_or {T E : Type} (o : option T) (e : E) : result T E :=
  match o with
  | Some v => Ok v
  | None => Err e
  end.

Definition is_ok {T E : Type} (r : result T E) : bool :=
  match r with Ok _ => true | Err _ => false end.

Lemma ok_or_ok {T E : Type} (o : option T) (e : E) v : ok_or o e = Ok v → o = Some v.
Proof. destruct o; simpl; congruence. Qed.

Lemma map_err_ok {T E F : Type} (f : E → F) (r : result T E) v : map_err f r = Ok v → r = Ok v.
Proof. destruct r; simpl; congruence. Qed.

Declare Scope registry_scope.
Delimit Scope registry_scope with registry.

Notation "'let?' x := c 'in' k" := (and_then c (λ x, k))
  (at level 10, x name, k at level 200) : registry_scope.
Notation "'let?' ' p := c 'in' k" := (and_then c (λ p, k))
  (at level 10, p strict pattern, k at level 200) : registry_scope.

(** [collect::<Result<Vec<_>, _>>] over a map: the first error ends it. *)
Fixpoint collect_ok {A B E : Type} (f : A → result B E) (l : list A) : result (list B) E :=
  match l with
  | [] => Ok []
  | a :: l => and_then (f a) (λ b, and_then (collect_ok f l) (λ r, Ok (b :: r)))
  end.

Lemma collect_ok_Forall2 {A B E : Type} (f : A → result B E) l :
  (∀ a, a ∈ l → is_ok (f a) = true) → ∃ k, collect_ok f l = Ok k ∧ Forall2 (λ a b, f a = Ok b) l k.
Proof.
  induction l as [|a l IH]; intros Hok; [by exists []|]. cbn.
  pose proof (Hok a ltac:(set_solver)) as Ha. destruct (f a) as [b|] eqn:Hb; [|done].
  destruct IH as (k & -> & Hk); [set_solver|]. by exists (b :: k); split; [|constructor].
Qed.

(** ** Machine integers

    A [w]-bit unsigned integer is a [Z] in [0, 2^w); the saturating
    operations are the ones the sources use. *)

Definition u8_max : Z := 255.
Definition u32_max : Z := 4294967295.
Definition u64_max : Z := 18446744073709551615.
Definition usize_max : Z := u64_max.
Definition i64_min : Z := -9223372036854775808.
Definition i64_max : Z := 9223372036854775807.

Definition u32_saturating_add (a b : Z) : Z := Z.min u32_max (a + b).
Definition u32_saturating_sub (a b : Z) : Z := Z.max 0 (a - b).
Definition usize_saturating_mul (a b : Z) : Z := Z.min usize_max (a * b).
Definition i64_saturating_sub (a b : Z) : Z := Z.max i64_min (Z.min i64_max (a - b)).
Definition i64_saturating_add (a b : Z) : Z := Z.max i64_min (Z.min i64_max (a + b)).
Definition i64_saturating_mul (a b : Z) : Z := Z.max i64_min (Z.min i64_max (a * b)).
Definition u64_saturating_mul (a b : Z) : Z := Z.min u64_max (a * b).

(** ** Time

    An [Instant] and a [DateTime<Utc>] are nanoseconds on their clock, a
    [Duration] is a non-negative number of nanoseconds. *)

Definition ns_per_ms : Z := 1000000.
Definition ns_per_sec : Z := 1000000000.

(** [Instant::duration_since]: saturates to zero when the argument is later. *)
Definition duration_since (now earlier : Z) : Z := Z.max 0 (now - earlier).

(** [DateTime::timestamp] and [DateTime::timestamp_millis]: whole seconds and
    milliseconds, rounded towards minus infinity. *)
Definition timestamp (t : Z) : Z := t / ns_per_sec.
Definition timestamp_millis (t : Z) : Z := t / ns_per_ms.
Definition seconds (s : Z) : Z := s * ns_per_sec.

(** ** Bytes

    A [&[u8]] is a list of [Z] in [0, 256). A Rust string is its UTF-8 bytes;
    the characters of a [string] are those bytes. *)

Definition byte_of (c : Ascii.ascii) : Z := Z.of_N (Ascii.N_of_ascii c).
Definition char_of (b : Z) : Ascii.ascii := Ascii.ascii_of_N (Z.to_N b).
Definition as_bytes (s : string) : list Z := map byte_of (String.list_ascii_of_string s).
Definition from_bytes (l : list Z) : string := String.string_of_list_ascii (map char_of l).

Definition is_byte (b : Z) : Prop := (0 ≤ b < 256)%Z.

#[export] Instance is_byte_dec b : Decision (is_byte b) := _.

(** [Ord] on byte slices: lexicographic. *)
Fixpoint bytes_ltb (a b : list Z) : bool :=
  match a, b with
  | _, [] => false
  | [], _ :: _ => true
  | x :: a', y :: b' => (x <? y)%Z || ((x =? y)%Z && bytes_ltb a' b')
  end.

Definition bytes_leb (a b : list Z) : bool := negb (bytes_ltb b a).

(** [str::starts_with]. *)
Definition starts_with (s p : string) : bool := bool_decide (as_bytes p `prefix_of` as_bytes s).

(** [to_be_bytes] and [from_be_bytes] of an [8n]-bit integer. *)
Fixpoint to_be_bytes (n : nat) (v : Z) : list Z :=
  match n with
  | O => []
  | S n' => to_be_bytes n' (v / 256) ++ [v mod 256]%Z
  end.

Definition from_be_bytes (l : list Z) : Z := fold_left (λ acc b, acc * 256 + b)%Z l 0%Z.

Lemma byte_of_is_byte c : is_byte (byte_of c).
Proof.
  unfold is_byte, byte_of. pose proof (Ascii.N_ascii_bounded c).
  change 256%Z with (Z.of_N 256). lia.
Qed.

Lemma char_of_byte_of c : char_of (byte_of c) = c.
Proof. by rewrite /char_of /byte_of N2Z.id Ascii.ascii_N_embedding. Qed.

Lemma byte_of_char_of b : is_byte b → byte_of (char_of b) = b.
Proof.
  unfold is_byte, byte_of, char_of. intros [H0 H1].
  rewrite Ascii.N_ascii_embedding; [change 256%N with (Z.to_N 256); lia|lia].
Qed.

Lemma as_bytes_is_byte s : Forall is_byte (as_bytes s).
Proof. apply Forall_map, Forall_true. intros c. apply byte_of_is_byte. Qed.

Lemma from_bytes_as_bytes s : from_bytes (as_bytes s) = s.
Proof.
  rewrite /from_bytes /as_bytes map_map.
  rewrite (map_ext _ id); [|apply char_of_byte_of].
  by rewrite map_id String.string_of_list_ascii_of_string.
Qed.

Lemma as_bytes_from_bytes l : Forall is_byte l → as_bytes (from_bytes l) = l.
Proof.
  intros Hl. rewrite /from_bytes /as_bytes String.list_ascii_of_string_of_list_ascii map_map.
  induction Hl as [|b l Hb Hl IH]; [done|]. simpl. by rewrite IH byte_of_char_of.
Qed.

#[export] Instance as_bytes_inj : Inj (=) (=) as_bytes.
Proof. intros s t H. by rewrite -(from_bytes_as_bytes s) -(from_bytes_as_bytes t) H. Qed.

Lemma length_to_be_bytes n v : length (to_be_bytes n v) = n.
Proof. revert v. induction n as [|n IH]; intros v; [done|]. simpl. rewrite length_app IH /=. lia. Qed.

Lemma to_be_bytes_is_byte n v : Forall is_byte (to_be_bytes n v).
Proof.
  revert v. induction n as [|n IH]; intros v; [done|]. simpl.
  apply Forall_app. split; [apply IH|]. repeat constructor; unfold is_byte.
  all: pose proof (Z.mod_pos_bound v 256); lia.
Qed.

Lemma from_be_bytes_to_be_bytes n v :
  (0 ≤ v < 256 ^ Z.of_nat n)%Z → from_be_bytes (to_be_bytes n v) = v.
Proof.
  revert v. induction n as [|n IH]; intros v Hv; [simpl in *; unfold from_be_bytes; simpl; lia|].
  rewrite /from_be_bytes /= fold_left_app. fold (from_be_bytes (to_be_bytes n (v / 256))).
  rewrite IH.
  - simpl. pose proof (Z.div_mod v 256). lia.
  - rewrite Nat2Z.inj_succ Z.pow_succ_r in Hv; [|lia].
    split; [apply Z.div_pos; lia|apply Z.div_lt_upper_bound; lia].
Qed.

Lemma from_be_bytes_snoc l b : from_be_bytes (l ++ [b]) = (from_be_bytes l * 256 + b)%Z.
Proof. by rewrite /from_be_bytes fold_left_app. Qed.

Lemma to_be_bytes_from_be_bytes l :
  Forall is_byte l → to_be_bytes (length l) (from_be_bytes l) = l.
Proof.
  induction l as [|b l IH] using rev_ind; intros Hl; [done|].
  apply Forall_app in Hl as [Hl Hb]. apply Forall_cons in Hb as [Hb _]. unfold is_byte in Hb.
  rewrite length_app Nat.add_1_r from_be_bytes_snoc. simpl.
  rewrite Z.div_add_l; [|lia]. rewrite Z.div_small; [|lia]. rewrite Z.add_0_r IH //.
  rewrite Z.add_comm Z_mod_plus_full Z.mod_small; [done|lia].
Qed.

Lemma from_be_bytes_cons x l :
  from_be_bytes (x :: l) = (x * 256 ^ Z.of_nat (length l) + from_be_bytes l)%Z.
Proof.
  induction l as [|b l IH] using rev_ind; [unfold from_be_bytes; simpl; lia|].
  rewrite app_comm_cons !from_be_bytes_snoc IH length_app. simpl length.
  rewrite Nat2Z.inj_add Z.pow_add_r; [lia|lia|lia].
Qed.

Lemma from_be_bytes_bounds l :
  Forall is_byte l → (0 ≤ from_be_bytes l < 256 ^ Z.of_nat (length l))%Z.
Proof.
  induction 1 as [|x l Hx Hl IH]; [unfold from_be_bytes; simpl; lia|].
  rewrite from_be_bytes_cons. simpl length. rewrite Nat2Z.inj_succ Z.pow_succ_r; [|lia].
  unfold is_byte in Hx. nia.
Qed.

Lemma filter_true {A} (l : list A) : List.filter (λ _, true) l = l.
Proof. induction l; cbn; congruence. Qed.

(** ** Strings *)

(** [str::split(c)]: always at least one piece. *)
Fixpoint split_char (c : Ascii.ascii) (s : string) : list string :=
  match s with
  | EmptyString => [""]
  | String.String c' s =>
    if bool_decide (c' = c) then "" :: split_char c s
    else match split_char c s with
         | p :: ps => String.String c' p :: ps
         | [] => [String.String c' ""]
         end
  end.

(** [str::strip_prefix]. *)
Fixpoint strip_prefix (p s : string) : option string :=
  match p, s with
  | EmptyString, _ => Some s
  | String.String a p, String.String b s => if bool_decide (a = b) then strip_prefix p s else None
  | _, _ => None
  end.

(** [str::trim] on the ASCII white space. *)
Definition is_ascii_space (c : Ascii.ascii) : bool :=
  let n := Ascii.N_of_ascii c in ((n =? 32)%N || ((9 <=? n)%N && (n <=? 13)%N))%bool.

Fixpoint trim_start (s : string) : string :=
  match s with
  | String.String c s' => if is_ascii_space c then trim_start s' else s
  | EmptyString => EmptyString
  end.

Fixpoint trim_end (s : string) : string :=
  match s with
  | EmptyString => EmptyString
  | String.String c s' =>
    match trim_end s' with
    | EmptyString => if is_ascii_space c then EmptyString else String.String c EmptyString
    | t => String.String c t
    end
  end.

Definition trim (s : string) : string := trim_end (trim_start s).

(** ** Lists *)

(** [to_ascii_lowercase]. *)
Definition ascii_lower (c : Ascii.ascii) : Ascii.ascii :=
  let n := Ascii.N_of_ascii c in
  if ((65 <=? n)%N && (n <=? 90)%N)%bool then Ascii.ascii_of_N (n + 32) else c.

Fixpoint to_ascii_lowercase (s : string) : string :=
  match s with
  | EmptyString => EmptyString
  | String.String c s => String.String (ascii_lower c) (to_ascii_lowercase s)
  end.

(** [Vec::is_empty]. *)
Definition is_empty {A} (l : list A) : bool := match l with [] => true | _ => false end.

(** [Iterator::take_while]. *)
Fixpoint take_while {A} (f : A → bool) (l : list A) : list A :=
  match l with
  | x :: l => if f x then x :: take_while f l else []
  | [] => []
  end.

Lemma take_while_prefix {A} (f : A → bool) l : take_while f l `prefix_of` l.
Proof.
  induction l as [|x l IH]; simpl; [done|].
  destruct (f x); [by apply prefix_cons|apply prefix_nil].
Qed.

Lemma take_while_map {A B} (f : B → bool) (g : A → B) l :
  take_while f (map g l) = map g (take_while (λ x, f (g x)) l).
Proof. induction l as [|x l IH]; simpl; [done|]. destruct (f (g x)); simpl; congruence. Qed.

Lemma last_map {A B} (g : A → B) l : last (map g l) = g <$> last l.
Proof. apply fmap_last. Qed.

Lemma take_map {A B} (g : A → B) n l : take n (map g l) = map g (take n l).
Proof. symmetry. apply fmap_take. Qed.

Lemma filter_iff_in {A} (P Q : A → Prop) `{∀ x, Decision (P x), ∀ x, Decision (Q x)} (l : list A) :
  (∀ x, x ∈ l → P x ↔ Q x) → filter P l = filter Q l.
Proof.
  induction l as [|x l IH]; intros Hl; [done|].
  rewrite !filter_cons IH; [|set_solver].
  by rewrite (decide_ext _ (Q x)); [|apply Hl; set_solver].
Qed.

(** Sorting two lists that correspond by orders that correspond. *)
Section sort_both.
Context {A B : Type} (R : A → A → Prop) (S : B → B → Prop) `{!RelDecision R} `{!RelDecision S}.
Context (T : A → B → Prop) (HRS : ∀ a b a' b', T a b → T a' b' → R a a' ↔ S b b').

Lemma list_merge_Forall2 l1 k1 : Forall2 T l1 k1 → ∀ l2 k2, Forall2 T l2 k2 →
  Forall2 T (list_merge R l1 l2) (list_merge S k1 k2).
Proof using HRS.
  induction 1 as [|a b l1 k1 Hab Hl IH1]; intros l2 k2 H2; [by rewrite !list_merge_nil_l|].
  induction H2 as [|a' b' l2 k2 Hab' Hl2 IH2]; [rewrite !list_merge_nil_r; by constructor|].
  rewrite !list_merge_cons. specialize (HRS _ _ _ _ Hab Hab'). case_decide; case_decide; try tauto.
  - constructor; [done|]. apply IH1. by constructor.
  - by constructor.
Qed.

Lemma merge_sort_Forall2 l k : Forall2 T l k → Forall2 T (merge_sort R l) (merge_sort S k).
Proof using HRS.
  unfold merge_sort. assert (Forall2 (option_Forall2 (Forall2 T)) [] []) as Hst by constructor.
  revert Hst. generalize (@nil (option (list A))) as st. generalize (@nil (option (list B))) as st'.
  intros st' st Hst Hl. revert st st' Hst. induction Hl as [|a b l k Hab _ IH]; intros st st' Hst; simpl.
  - induction Hst as [|o o' st st' Ho _ IH]; simpl; [constructor|].
    destruct Ho; [by apply list_merge_Forall2|done].
  - apply IH. clear IH. assert (Forall2 T [a] [b]) as Hone by (by repeat constructor).
    generalize dependent [a]. generalize dependent [b]. induction Hst as [|o o' st st' Ho Hst IH]; intros x y Hxy; simpl.
    + by repeat constructor.
    + destruct Ho; constructor; try done; try by constructor.
      apply IH. by apply list_merge_Forall2.
Qed.
End sort_both.

Lemma filter_all {A} (P : A → Prop) `{∀ x, Decision (P x)} (l : list A) :
  (∀ x, x ∈ l → P x) → filter P l = l.
Proof.
  induction l as [|x l IH]; intros Hl; [done|].
  rewrite filter_cons_True; [f_equal; apply IH|apply Hl]; set_solver.
Qed.

Lemma filter_none {A} (P : A → Prop) `{∀ x, Decision (P x)} (l : list A) :
  (∀ x, x ∈ l → ¬ P x) → filter P l = [].
Proof.
  induction l as [|x l IH]; intros Hl; [done|].
  rewrite filter_cons_False; [apply IH|apply Hl]; set_solver.
Qed.

Lemma map_map_filter {A B} (g : A → B) (P : B → Prop) (Q : A → Prop)
    `{∀ x, Decision (P x), ∀ x, Decision (Q x)} (l : list A) :
  (∀ x, x ∈ l → P (g x) ↔ Q x) → filter P (map g l) = map g (filter Q l).
Proof.
  induction l as [|x l IH]; intros Hl; [done|]. simpl.
  rewrite !filter_cons IH; [|set_solver].
  rewrite (decide_ext _ (Q x)); [|apply Hl; set_solver]. by destruct (decide (Q x)).
Qed.

(** ** Reachability of a step relation *)

Inductive rtc_steps {S : Type} (step : S → S → Prop) : S → S → Prop :=
  | rtc_steps_refl s : rtc_steps step s s
  | rtc_steps_step s1 s2 s3 : step s1 s2 → rtc_steps step s2 s3 → rtc_steps step s1 s3.

Lemma rtc_steps_trans {S : Type} (step : S → S → Prop) s1 s2 s3 :
  rtc_steps step s1 s2 → rtc_steps step s2 s3 → rtc_steps step s1 s3.
Proof. intros H1 H2. induction H1 as [|a b c Hs _ IH]; [done|]. eapply rtc_steps_step; [exact Hs|by apply IH]. Qed.

(** An invariant of every step is an invariant of every reachable state. *)
Lemma rtc_steps_invariant {S : Type} (step : S → S → Prop) (I : S → Prop) :
  (∀ s s', I s → step s s' → I s') →
  ∀ s s', rtc_steps step s s' → I s → I s'.
Proof. intros Hstep s s' Hr. induction Hr; eauto. Qed.

(** ** Automation *)

Create HintDb registry discriminated.

(** Split every boolean conjunction, disjunction and comparison into
    propositions. *)
Ltac bool_to_prop :=
  repeat match goal with
    | H : _ && _ = true |- _ => apply andb_true_iff in H; destruct H
    | H : _ && _ = false |- _ => apply andb_false_iff in H
    | H : _ || _ = true |- _ => apply orb_true_iff in H
    | H : _ || _ = false |- _ => apply orb_false_iff in H; destruct H
    | H : negb _ = true |- _ => apply negb_true_iff in H
    | H : negb _ = false |- _ => apply negb_false_iff in H
    | H : (_ <=? _)%Z = true |- _ => apply Z.leb_le in H
    | H : (_ <=? _)%Z = false |- _ => apply Z.leb_gt in H
    | H : (_ <? _)%Z = true |- _ => apply Z.ltb_lt in H
    | H : (_ <? _)%Z = false |- _ => apply Z.ltb_ge in H
    | H : (_ =? _)%Z = true |- _ => apply Z.eqb_eq in H
    | H : (_ =? _)%Z = false |- _ => apply Z.eqb_neq in H
    | H : bool_decide _ = true |- _ => apply bool_decide_eq_true in H
    | H : bool_decide _ = false |- _ => apply bool_decide_eq_false in H
    end.

(** Case analysis on the first conditional of the goal. *)
Ltac case_if :=
  match goal with
  | |- context [if ?b then _ else _] => destruct b eqn:?; bool_to_prop
  end.

(** Case analysis on every conditional of the goal and the hypotheses. *)
Ltac case_ifs :=
  repeat match goal with
    | |- context [if ?b then _ else _] => destruct b eqn:?; bool_to_prop
    | H : context [if ?b then _ else _] |- _ => destruct b eqn:?; bool_to_prop
    end.

(** Case analysis on every [let?] of a hypothesis that says the whole
    computation succeeded. *)
Ltac inv_ok :=
  repeat match goal with
    | H : and_then ?c _ = Ok _ |- _ => destruct c eqn:?; simpl in H; [|discriminate H]
    | H : Ok _ = Ok _ |- _ => injection H as H; subst
    | H : Err _ = Ok _ |- _ => discriminate H
    | H : Ok _ = Err _ |- _ => discriminate H
    end.
