(* ===== verification/Text.v ===== *)
(** * Text

    The parts of Rust's string and integer formatting the sources use, shared by
    the components: decimal printing and parsing at a fixed width, [splitn], and
    the lemmas on separators that make a printed text readable back. *)

From stdpp Require Import pretty.
From S2P Require Import Prelude.

Definition colon : Ascii.ascii := Ascii.ascii_of_nat 58.
Definition comma : Ascii.ascii := Ascii.ascii_of_nat 44.

Notation chars := String.list_ascii_of_string.

Lemma chars_app s t : chars (s +:+ t) = chars s ++ chars t.
Proof. induction s; simpl; [done|by f_equal]. Qed.

Lemma chars_inj s t : chars s = chars t → s = t.
Proof.
  intros Heq. rewrite -(String.string_of_list_ascii_of_string s) Heq.
  apply String.string_of_list_ascii_of_string.
Qed.

Lemma split_first_eq {A} (c : A) l l' r r' :
  c ∉ l → c ∉ l' → l ++ c :: r = l' ++ c :: r' → l = l' ∧ r = r'.
Proof.
  revert l'. induction l as [|x l IH]; intros [|x' l'] Hl Hl' Heq; simpl in *; simplify_eq.
  - done.
  - by destruct Hl'; left.
  - by destruct Hl; left.
  - destruct (IH l') as [-> ->]; [by intros ?; destruct Hl; right|by intros ?; destruct Hl'; right|done|done].
Qed.

Lemma split_last_eq {A} (c : A) l l' r r' :
  c ∉ r → c ∉ r' → l ++ c :: r = l' ++ c :: r' → l = l' ∧ r = r'.
Proof.
  intros Hr Hr' Heq. apply (f_equal reverse) in Heq.
  rewrite !reverse_app !reverse_cons -!app_assoc /= in Heq.
  apply split_first_eq in Heq as [H1 H2]; [|by rewrite elem_of_reverse..].
  apply (inj reverse) in H1. apply (inj reverse) in H2. done.
Qed.

(** What a printed integer is made of. *)
Definition number_chars : list Ascii.ascii := chars "-0123456789".

Lemma pretty_N_char_in x : pretty_N_char x ∈ number_chars.
Proof.
  destruct x as [|p]; [by vm_compute; set_solver|].
  do 4 (destruct p as [p|p|]; try by vm_compute; set_solver).
Qed.

Lemma pretty_N_chars (x : N) : Forall (λ c, c ∈ number_chars) (chars (pretty x)).
Proof.
  assert (∀ x s, Forall (λ c, c ∈ number_chars) (chars s) →
            Forall (λ c, c ∈ number_chars) (chars (pretty_N_go x s))) as Hgo.
  { clear x. intros x. induction (N.lt_wf_0 x) as [x _ IH]. intros s Hs.
    destruct (decide (x = 0%N)) as [->|Hx]; [by rewrite pretty_N_go_0|].
    rewrite pretty_N_go_step; [|lia]. apply IH; [apply N.div_lt; lia|]. simpl.
    constructor; [apply pretty_N_char_in|done]. }
  unfold pretty, pretty_N. case_decide; [repeat constructor; vm_compute; set_solver|].
  by apply Hgo; constructor.
Qed.

Lemma pretty_Z_chars (z : Z) : Forall (λ c, c ∈ number_chars) (chars (pretty z)).
Proof.
  destruct z; [apply (pretty_N_chars 0)|apply pretty_N_chars|].
  change (Forall (λ c, c ∈ number_chars) (chars ("-" +:+ pretty (N.pos p)))). rewrite chars_app.
  apply Forall_app. split; [|apply pretty_N_chars]. repeat constructor.
Qed.

Lemma pretty_Z_without (c : Ascii.ascii) (z : Z) : c ∉ number_chars → c ∉ chars (pretty z).
Proof.
  intros Hc Hin. pose proof (pretty_Z_chars z) as Hall. rewrite Forall_forall in Hall.
  by apply Hc, Hall.
Qed.

Lemma pretty_Z_colon (z : Z) : colon ∉ chars (pretty z).
Proof. apply pretty_Z_without. vm_compute. set_solver. Qed.

Lemma split_char_not_nil c s : split_char c s ≠ [].
Proof. destruct s as [|a s]; simpl; [done|]. case_bool_decide; [done|]. by case_match. Qed.

Lemma split_char_app c s t :
  split_char c (s +:+ String.String c t) = split_char c s ++ split_char c t.
Proof.
  induction s as [|a s IH].
  - change (split_char c ("" +:+ String.String c t))
      with (if bool_decide (c = c) then "" :: split_char c t
            else match split_char c t with
                 | p :: ps => String.String c p :: ps
                 | [] => [String.String c ""]
                 end).
    by rewrite bool_decide_true.
  - change (String.String a s +:+ String.String c t)
      with (String.String a (s +:+ String.String c t)).
    cbn [split_char]. rewrite IH. case_bool_decide; [done|].
    pose proof (split_char_not_nil c s). by destruct (split_char c s).
Qed.

Lemma append_assoc (s t u : string) : s +:+ (t +:+ u) = (s +:+ t) +:+ u.
Proof. induction s as [|c s IH]; [done|]. exact (f_equal (String.String c) IH). Qed.

Lemma concat_snoc sep l s :
  l ≠ [] → String.concat sep (l ++ [s]) = String.concat sep l +:+ sep +:+ s.
Proof.
  induction l as [|x l IH]; intros Hl; [done|]. destruct l as [|y l]; [done|].
  change (String.concat sep ((x :: y :: l) ++ [s]))
    with (x +:+ sep +:+ String.concat sep ((y :: l) ++ [s])).
  change (String.concat sep (x :: y :: l)) with (x +:+ sep +:+ String.concat sep (y :: l)).
  rewrite IH; [|done]. by rewrite -!append_assoc.
Qed.

(** [char::to_digit]. *)
Definition to_digit (radix b : Z) : option Z :=
  let d := if ((48 <=? b) && (b <=? 57))%Z then Some (b - 48)%Z
           else if ((97 <=? b) && (b <=? 102))%Z then Some (b - 87)%Z
           else if ((65 <=? b) && (b <=? 70))%Z then Some (b - 55)%Z
           else None in
  match d with
  | Some d => if (d <? radix)%Z then Some d else None
  | None => None
  end.

(** ** [u64::from_str] *)

Inductive IntErrorKind : Type := IE_Empty | IE_InvalidDigit | IE_PosOverflow | IE_NegOverflow.

(** The digit loop: a bad digit is seen before the overflow it would cause. *)
Fixpoint parse_digits (acc : Z) (l : list Z) : result Z IntErrorKind :=
  match l with
  | [] => Ok acc
  | b :: l =>
      match to_digit 10 b with
      | None => Err IE_InvalidDigit
      | Some d =>
          if (u64_max <? acc * 10)%Z then Err IE_PosOverflow
          else if (u64_max <? acc * 10 + d)%Z then Err IE_PosOverflow
          else parse_digits (acc * 10 + d) l
      end
  end.

Definition parse_u64 (s : string) : result Z IntErrorKind :=
  match as_bytes s with
  | [] => Err IE_Empty
  | [b] => if ((b =? 43) || (b =? 45))%Z then Err IE_InvalidDigit else parse_digits 0 [b]
  | b :: l => if (b =? 43)%Z then parse_digits 0 l else parse_digits 0 (b :: l)
  end.

Lemma to_digit_nonneg radix b d : to_digit radix b = Some d → (0 ≤ d)%Z.
Proof.
  unfold to_digit. destruct (Z.leb_spec 48 b), (Z.leb_spec b 57), (Z.leb_spec 97 b), (Z.leb_spec b 102),
    (Z.leb_spec 65 b), (Z.leb_spec b 70); simpl; try done; case_match; try done; intros [= <-]; lia.
Qed.

Lemma parse_digits_u64 l : ∀ acc n, (0 ≤ acc ≤ u64_max)%Z → parse_digits acc l = Ok n → (0 ≤ n ≤ u64_max)%Z.
Proof.
  induction l as [|b l IH]; intros acc n Hacc; simpl; [by intros [= <-]|].
  destruct (to_digit 10 b) as [d|] eqn:Hd; [|done]. apply to_digit_nonneg in Hd.
  destruct (Z.ltb_spec u64_max (acc * 10)); [done|].
  destruct (Z.ltb_spec u64_max (acc * 10 + d)); [done|]. apply IH. lia.
Qed.

(** A parsed [u64] is one. *)
Lemma parse_u64_range s n : parse_u64 s = Ok n → (0 ≤ n ≤ u64_max)%Z.
Proof.
  assert (0 ≤ 0 ≤ u64_max)%Z as H0 by (unfold u64_max; lia). unfold parse_u64.
  destruct (as_bytes s) as [|b [|c l]]; [done|..].
  - case_match; [done|]. by apply parse_digits_u64.
  - case_match; by apply parse_digits_u64.
Qed.

(** [chars().count()] of UTF-8 text: the bytes that start a character. *)
Definition chars_count (s : string) : Z :=
  Z.of_nat (length (List.filter (λ b, negb ((128 <=? b) && (b <? 192))%Z) (as_bytes s))).

(** ** [i64::from_str]

    The digits are accumulated away from zero on the side of the sign, so
    [i64::MIN] parses. *)

Definition is_i64 (z : Z) : bool := ((i64_min <=? z) && (z <=? i64_max))%Z.

Fixpoint parse_i64_digits (sign acc : Z) (l : list Z) : result Z IntErrorKind :=
  match l with
  | [] => Ok acc
  | b :: l =>
      match to_digit 10 b with
      | None => Err IE_InvalidDigit
      | Some d =>
          if is_i64 (acc * 10) && is_i64 (acc * 10 + sign * d) then
            parse_i64_digits sign (acc * 10 + sign * d) l
          else Err (if (0 <? sign)%Z then IE_PosOverflow else IE_NegOverflow)
      end
  end%Z.

Definition parse_i64 (s : string) : result Z IntErrorKind :=
  match as_bytes s with
  | [] => Err IE_Empty
  | [b] => if ((b =? 43) || (b =? 45))%Z then Err IE_InvalidDigit else parse_i64_digits 1 0 [b]
  | b :: l => if (b =? 43)%Z then parse_i64_digits 1 0 l
              else if (b =? 45)%Z then parse_i64_digits (-1) 0 l
              else parse_i64_digits 1 0 (b :: l)
  end.

(** [str::split_once] and [str::splitn] at a character. *)
Fixpoint split_at_char (c : Ascii.ascii) (s : string) : option (string * string) :=
  match s with
  | EmptyString => None
  | String.String c' s =>
      if bool_decide (c' = c) then Some ("", s)
      else match split_at_char c s with
           | Some (a, b) => Some (String.String c' a, b)
           | None => None
           end
  end.

Fixpoint splitn (n : nat) (c : Ascii.ascii) (s : string) : list string :=
  match n with
  | O => []
  | S O => [s]
  | S n => match split_at_char c s with
           | Some (a, b) => a :: splitn n c b
           | None => [s]
           end
  end.

(** *** Printed integers are read back *)

Lemma as_bytes_cons c s : as_bytes (String.String c s) = byte_of c :: as_bytes s.
Proof. done. Qed.

Lemma pretty_digit x : (x < 10)%N → to_digit 10 (byte_of (pretty_N_char x)) = Some (Z.of_N x).
Proof.
  intros Hx. destruct x as [|p]; [done|]. do 4 (destruct p as [p|p|]; try done; try lia).
Qed.

Lemma pretty_digit_not_sign x :
  (x < 10)%N → byte_of (pretty_N_char x) ≠ 43%Z ∧ byte_of (pretty_N_char x) ≠ 45%Z.
Proof. intros Hx. destruct x as [|p]; [done|]. do 4 (destruct p as [p|p|]; try done; try lia). Qed.

Lemma parse_pretty_N_go sign (x : N) : ∀ s,
  (sign = 1 ∨ sign = -1)%Z → is_i64 (sign * Z.of_N x) = true →
  parse_i64_digits sign 0 (as_bytes (pretty_N_go x s)) =
  parse_i64_digits sign (sign * Z.of_N x) (as_bytes s).
Proof.
  induction (N.lt_wf_0 x) as [x _ IH]. intros s Hsign Hx.
  destruct (decide (x = 0%N)) as [->|Hx0]; [by rewrite pretty_N_go_0 Z.mul_0_r|].
  assert (Z.of_N x = Z.of_N (x / 10) * 10 + Z.of_N (x mod 10))%Z as Hdm
    by (rewrite N2Z.inj_div N2Z.inj_mod; pose proof (Z.div_mod (Z.of_N x) 10); lia).
  assert (x mod 10 < 10)%N by (apply N.mod_lt; lia).
  unfold is_i64 in Hx. bool_to_prop. unfold i64_min, i64_max in *.
  assert (is_i64 (sign * Z.of_N (x / 10)) = true ∧ is_i64 (sign * Z.of_N (x / 10) * 10) = true
          ∧ is_i64 (sign * Z.of_N x) = true) as (Hq & Hq10 & Hx').
  { unfold is_i64, i64_min, i64_max. rewrite !andb_true_iff !Z.leb_le.
    pose proof (N2Z.is_nonneg (x / 10)). pose proof (N2Z.is_nonneg (x mod 10)).
    revert Hdm. generalize dependent (Z.of_N (x / 10)). generalize dependent (Z.of_N (x mod 10)).
    destruct Hsign as [->| ->]; intros; lia. }
  rewrite pretty_N_go_step; [|lia]. rewrite IH; [|apply N.div_lt; lia|done|done].
  rewrite as_bytes_cons. cbn [parse_i64_digits]. rewrite pretty_digit; [|done].
  rewrite (_ : sign * Z.of_N (x / 10) * 10 + sign * Z.of_N (x mod 10) = sign * Z.of_N x)%Z; [|lia].
  by rewrite Hq10 Hx'.
Qed.

(** The first byte of a printed natural number is a digit. *)
Lemma pretty_N_head (x : N) :
  ∃ b l, as_bytes (pretty x) = b :: l ∧ b ≠ 43%Z ∧ b ≠ 45%Z.
Proof.
  unfold pretty, pretty_N. case_decide as Hx; [by eexists _, _|].
  assert (∀ y s, y ≠ 0%N → ∃ b l, as_bytes (pretty_N_go y s) = b :: l ∧ b ≠ 43%Z ∧ b ≠ 45%Z)
    as Hgo; [|by apply Hgo].
  clear. intros y. induction (N.lt_wf_0 y) as [y _ IH]. intros s Hy.
  rewrite pretty_N_go_step; [|lia].
  destruct (decide (y / 10 = 0)%N) as [->|Hq].
  - rewrite pretty_N_go_0 as_bytes_cons. do 2 eexists. split; [done|].
    apply pretty_digit_not_sign, N.mod_lt. lia.
  - apply IH; [apply N.div_lt; lia|done].
Qed.

Lemma parse_pretty_N sign (x : N) :
  (sign = 1 ∨ sign = -1)%Z → is_i64 (sign * Z.of_N x) = true →
  parse_i64_digits sign 0 (as_bytes (pretty x)) = Ok (sign * Z.of_N x)%Z.
Proof.
  intros Hsign Hx. unfold pretty, pretty_N. case_decide as Hx0.
  - subst. destruct Hsign as [->| ->]; reflexivity.
  - by rewrite parse_pretty_N_go.
Qed.

(** [i64]'s [Display] and [FromStr] are inverse. *)
Lemma parse_i64_pretty (z : Z) : is_i64 z = true → parse_i64 (pretty z) = Ok z.
Proof.
  intros Hz. assert (0 ≤ z ∨ z < 0)%Z as [Hs|Hs] by lia.
  - assert (pretty z = pretty (Z.to_N z)) as -> by (by destruct z).
    destruct (pretty_N_head (Z.to_N z)) as (b & l & Hbl & Hp & Hm).
    pose proof (parse_pretty_N 1 (Z.to_N z)) as Hparse.
    rewrite Z2N.id in Hparse; [|done]. rewrite Z.mul_1_l in Hparse.
    specialize (Hparse (or_introl eq_refl) Hz). unfold parse_i64.
    rewrite Hbl in Hparse |- *. apply Z.eqb_neq in Hp, Hm. rewrite Hp Hm /=. by destruct l.
  - assert (pretty z = "-" +:+ pretty (Z.to_N (-z))) as -> by (by destruct z).
    pose proof (parse_pretty_N (-1) (Z.to_N (-z))) as Hparse.
    rewrite Z2N.id in Hparse; [|lia].
    rewrite (_ : -1 * - z = z)%Z in Hparse; [|lia]. specialize (Hparse (or_intror eq_refl) Hz).
    destruct (pretty_N_head (Z.to_N (-z))) as (b & l & Hbl & _ & _).
    unfold parse_i64.
    change ("-" +:+ pretty (Z.to_N (-z))) with (String.String (Ascii.ascii_of_nat 45) (pretty (Z.to_N (-z)))).
    rewrite as_bytes_cons Hbl. rewrite Hbl in Hparse. exact Hparse.
Qed.

Lemma split_at_char_app c s t :
  c ∉ chars s → split_at_char c (s +:+ String.String c t) = Some (s, t).
Proof.
  induction s as [|a s IH]; intros Hc.
  - change ("" +:+ String.String c t) with (String.String c t). simpl. by rewrite bool_decide_true.
  - change (String.String a s +:+ String.String c t)
      with (String.String a (s +:+ String.String c t)).
    cbn [split_at_char]. simpl in Hc. rewrite not_elem_of_cons in Hc. destruct Hc as [Hac Hc].
    rewrite bool_decide_false; [|congruence]. by rewrite IH.
Qed.

Lemma length_splitn n c s : length (splitn n c s) ≤ n.
Proof.
  revert s. induction n as [|n IH]; intros s; [simpl; lia|].
  destruct n as [|n]; [simpl; lia|]. cbn [splitn].
  destruct (split_at_char c s) as [[a b]|]; simpl; [|lia]. specialize (IH b). simpl in IH. lia.
Qed.

(** ** Hexadecimal digits, lower case *)

Definition hex_digit (d : Z) : Ascii.ascii := char_of (if (d <? 10)%Z then d + 48 else d + 87)%Z.

(** [hex::encode]. *)
Definition hex_encode (l : list Z) : string :=
  String.string_of_list_ascii (flat_map (λ b, [hex_digit (b / 16); hex_digit (b mod 16)]) l).

Lemma hex_digit_inj a b : (0 ≤ a < 16)%Z → (0 ≤ b < 16)%Z → hex_digit a = hex_digit b → a = b.
Proof.
  intros Ha Hb Heq. apply (f_equal byte_of) in Heq. unfold hex_digit in Heq.
  rewrite !byte_of_char_of in Heq; [|unfold is_byte; case_match; lia..].
  destruct (a <? 10)%Z eqn:Ea, (b <? 10)%Z eqn:Eb; bool_to_prop; lia.
Qed.

Lemma hex_encode_inj l k :
  Forall is_byte l → Forall is_byte k → hex_encode l = hex_encode k → l = k.
Proof.
  intros Hl Hk Heq. apply (f_equal chars) in Heq. unfold hex_encode in Heq.
  rewrite !String.list_ascii_of_string_of_list_ascii in Heq. revert k Hk Heq.
  induction Hl as [|b l Hb Hl IH]; intros [|c k] Hk Heq; simpl in Heq; try done.
  apply Forall_cons_1 in Hk as [Hc Hk]. injection Heq as H1 H2 H3. unfold is_byte in *.
  apply hex_digit_inj in H1; [|by (split; [apply Z.div_pos; lia|apply Z.div_lt_upper_bound; lia])..].
  apply hex_digit_inj in H2; [|by apply Z.mod_pos_bound..].
  f_equal; [|by apply IH]. pose proof (Z.div_mod b 16). pose proof (Z.div_mod c 16). lia.
Qed.
