(* ===== verification/RateLimit.v ===== *)
(** * Fixed-window rate limiting
    (crates/acdp-registry-core/src/rate_limit.rs)

    The in-process limiter: a fixed window per agent and one global window,
    pruned as it grows, and the guard that charges a publish when it ends. *)

From S2P Require Import Prelude.

Open Scope Z_scope.

(** ** The limiter *)

(** [const WINDOW: Duration = Duration::from_secs(60)]. *)
Definition WINDOW : Z := 60 * ns_per_sec.

(** [const PRUNE_AT: usize = 4096]. *)
Definition PRUNE_AT : Z := 4096.

(** Seconds a rejected client should wait. *)
Definition retry_after_secs (elapsed : Z) : Z :=
  Z.max (Z.max 0 (WINDOW - elapsed) / ns_per_sec) 1.

Record Bucket : Type := mkBucket {
  window_start : Z;
  count : Z
}.

Record AgentRateLimiter : Type := mkLimiter {
  limit : Z;
  buckets : gmap string Bucket;
  prune_threshold : Z;
  global_limit : Z;
  global : Bucket
}.

Definition set_buckets (l : AgentRateLimiter) (m : gmap string Bucket) : AgentRateLimiter :=
  mkLimiter (limit l) m (prune_threshold l) (global_limit l) (global l).

Definition set_global (l : AgentRateLimiter) (b : Bucket) : AgentRateLimiter :=
  mkLimiter (limit l) (buckets l) (prune_threshold l) (global_limit l) b.

Definition with_global_ceiling (limit_per_minute global_limit_per_minute now : Z) :
    AgentRateLimiter :=
  {| limit := limit_per_minute;
     buckets := ∅;
     prune_threshold := PRUNE_AT;
     global_limit := global_limit_per_minute;
     global := mkBucket now 0 |}.

Definition AgentRateLimiter_new (limit_per_minute now : Z) : AgentRateLimiter :=
  with_global_ceiling limit_per_minute u32_max now.

Definition check_global_at (l : AgentRateLimiter) (now : Z) :
    result unit Z * AgentRateLimiter :=
  if global_limit l =? u32_max then (Ok tt, l)
  else
    let b := global l in
    let b := if WINDOW <=? duration_since now (window_start b)
             then mkBucket now 0 else b in
    if global_limit l <=? count b then
      (Err (retry_after_secs (duration_since now (window_start b))), set_global l b)
    else (Ok tt, set_global l (mkBucket (window_start b) (count b + 1))).

Definition peek_at (l : AgentRateLimiter) (agent_id : string) (now : Z) : result unit Z :=
  match buckets l !! agent_id with
  | None => Ok tt
  | Some bucket =>
    if WINDOW <=? duration_since now (window_start bucket) then Ok tt
    else if limit l <=? count bucket then
      Err (retry_after_secs (duration_since now (window_start bucket)))
    else Ok tt
  end.

(** [map.retain(|_, b| now.duration_since(b.window_start) < WINDOW)]. *)
Definition retain_live (now : Z) (m : gmap string Bucket) : gmap string Bucket :=
  filter (λ kb, duration_since now (window_start kb.2) < WINDOW) m.

Definition prune_if_due (l : AgentRateLimiter) (now : Z) : AgentRateLimiter :=
  if Z.of_nat (size (buckets l)) <? prune_threshold l then l
  else
    let m := retain_live now (buckets l) in
    {| limit := limit l;
       buckets := m;
       prune_threshold := Z.max (usize_saturating_mul (Z.of_nat (size m)) 2) PRUNE_AT;
       global_limit := global_limit l;
       global := global l |}.

(** [entry(agent_id).or_insert(fresh)] followed by the window rollover: the
    bucket a charge at [now] lands in, given the stored one (if any). *)
Definition rolled (stored : option Bucket) (now : Z) : Bucket :=
  let bucket := default (mkBucket now 0) stored in
  if WINDOW <=? duration_since now (window_start bucket) then mkBucket now 0 else bucket.

Definition record_at (l : AgentRateLimiter) (agent_id : string) (now : Z) : AgentRateLimiter :=
  let l := prune_if_due l now in
  let bucket := rolled (buckets l !! agent_id) now in
  set_buckets l (<[agent_id := mkBucket (window_start bucket)
                                 (u32_saturating_add (count bucket) 1)]> (buckets l)).

Definition check_at (l : AgentRateLimiter) (agent_id : string) (now : Z) :
    result unit Z * AgentRateLimiter :=
  let l := prune_if_due l now in
  let bucket := rolled (buckets l !! agent_id) now in
  if limit l <=? count bucket then
    (Err (retry_after_secs (duration_since now (window_start bucket))),
     set_buckets l (<[agent_id := bucket]> (buckets l)))
  else
    (Ok tt,
     set_buckets l (<[agent_id := mkBucket (window_start bucket) (count bucket + 1)]>
                      (buckets l))).

(** ** The publish charge guard *)

(** [PublishCharge]: charges one publish when dropped, once armed. *)
Record PublishCharge : Type := mkCharge {
  charge_limiter : option AgentRateLimiter;
  charge_agent_id : string;
  armed : bool
}.

Definition PublishCharge_new (limiter : option AgentRateLimiter) (agent_id : string) :
    PublishCharge :=
  mkCharge limiter agent_id false.

Definition PublishCharge_arm (c : PublishCharge) : PublishCharge :=
  mkCharge (charge_limiter c) (charge_agent_id c) true.

(** [Drop::drop]: the limiter shared through the [Arc], after the guard is
    dropped at [now]. *)
Definition PublishCharge_drop (c : PublishCharge) (now : Z) : option AgentRateLimiter :=
  if negb (armed c) then charge_limiter c
  else match charge_limiter c with
       | Some limiter => Some (record_at limiter (charge_agent_id c) now)
       | None => None
       end.

(** ** Runs *)

(** A sequence of [check] calls by several agents, with the decision each one
    got. *)
Fixpoint run_checks (l : AgentRateLimiter) (reqs : list (string * Z)) :
    list (string * Z * result unit Z) * AgentRateLimiter :=
  match reqs with
  | [] => ([], l)
  | (a, t) :: rest =>
    let '(d, l1) := check_at l a t in
    let '(ds, l2) := run_checks l1 rest in
    ((a, t, d) :: ds, l2)
  end.

(** A sequence of [check_global] calls. *)
Fixpoint run_global (l : AgentRateLimiter) (ts : list Z) :
    list (Z * result unit Z) * AgentRateLimiter :=
  match ts with
  | [] => ([], l)
  | t :: rest =>
    let '(d, l1) := check_global_at l t in
    let '(ds, l2) := run_global l1 rest in
    ((t, d) :: ds, l2)
  end.

(** A sequence of [record] calls. *)
Fixpoint run_records (l : AgentRateLimiter) (reqs : list (string * Z)) : AgentRateLimiter :=
  match reqs with
  | [] => l
  | (a, t) :: rest => run_records (record_at l a t) rest
  end.

(** The clock never runs backwards. *)
Fixpoint ascending (t0 : Z) (ts : list Z) : Prop :=
  match ts with
  | [] => True
  | t :: rest => t0 <= t ∧ ascending t rest
  end.

(** ** The abstract limiter: one bucket, one key, never pruned *)

(** One charge against a single stored bucket. *)
Definition hit (lim : Z) (stored : option Bucket) (now : Z) : result unit Z * Bucket :=
  let b := rolled stored now in
  if lim <=? count b
  then (Err (retry_after_secs (duration_since now (window_start b))), b)
  else (Ok tt, mkBucket (window_start b) (count b + 1)).

Fixpoint hits (lim : Z) (stored : option Bucket) (ts : list Z) : list (Z * result unit Z) :=
  match ts with
  | [] => []
  | t :: rest => let '(d, b) := hit lim stored t in (t, d) :: hits lim (Some b) rest
  end.

(** The times and the decisions of one agent. *)
Definition times_of (a : string) (reqs : list (string * Z)) : list Z :=
  (filter (λ r, r.1 = a) reqs).*2.

Definition decisions_of (a : string) (ds : list (string * Z * result unit Z)) :
    list (Z * result unit Z) :=
  (λ d, (d.1.2, d.2)) <$> filter (λ d, d.1.1 = a) ds.

(** How many requests with a time in [lo, hi) were admitted. *)
Definition admitted_in (lo hi : Z) (ds : list (Z * result unit Z)) : Z :=
  Z.of_nat (length (filter (λ d, is_ok d.2 = true ∧ lo <= d.1 < hi) ds)).

(** ** Lemmas *)

Lemma retry_after_secs_bounds elapsed :
  0 <= elapsed → 1 <= retry_after_secs elapsed <= 60.
Proof.
  intros ?. unfold retry_after_secs, WINDOW, ns_per_sec in *.
  assert (Z.max 0 (60 * 1000000000 - elapsed) / 1000000000 <= 60); [|lia].
  apply Z.div_le_upper_bound; lia.
Qed.

(** Whether a stored bucket's window has passed at [now]. *)
Definition expired (b : Bucket) (now : Z) : Prop :=
  WINDOW <= duration_since now (window_start b).

#[export] Instance expired_dec b now : Decision (expired b now).
Proof. unfold expired. apply _. Defined.

Lemma expired_mono b t t' : expired b t → t <= t' → expired b t'.
Proof. unfold expired, duration_since, WINDOW, ns_per_sec. lia. Qed.

Lemma rolled_expired b now : expired b now → rolled (Some b) now = mkBucket now 0.
Proof. unfold expired, rolled. simpl. intros ?. case_if; [done|lia]. Qed.

Lemma rolled_none now : rolled None now = mkBucket now 0.
Proof. unfold rolled. simpl. by destruct (_ <=? _). Qed.

Lemma rolled_live b now : ¬ expired b now → rolled (Some b) now = b.
Proof. unfold expired, rolled. simpl. intros ?. case_if; [lia|done]. Qed.

(** A pruned slot is as good as an expired one. *)
Definition same_slot (now : Z) (pruned full : option Bucket) : Prop :=
  pruned = full ∨ (pruned = None ∧ ∃ b, full = Some b ∧ expired b now).

Lemma same_slot_rolled now t p f :
  same_slot now p f → now <= t → rolled p t = rolled f t.
Proof.
  intros [-> | (-> & b & -> & Hb)] Ht; [done|].
  rewrite rolled_none rolled_expired //. eauto using expired_mono.
Qed.

Lemma same_slot_mono now t p f : same_slot now p f → now <= t → same_slot t p f.
Proof.
  intros [?|(? & b & ? & ?)] ?; [by left|right].
  eauto using expired_mono.
Qed.

Lemma retain_live_lookup now m (a : string) :
  retain_live now m !! a =
    match m !! a with
    | Some b => if decide (expired b now) then None else Some b
    | None => None
    end.
Proof.
  unfold retain_live. destruct (m !! a) as [b|] eqn:E.
  - case_decide as Hd; unfold expired in Hd.
    + apply map_lookup_filter_None. right. intros b' Hb'. simplify_eq/=. lia.
    + apply map_lookup_filter_Some. split; [done|]. simpl. lia.
  - apply map_lookup_filter_None. by left.
Qed.

Lemma prune_if_due_slot l now a :
  same_slot now (buckets (prune_if_due l now) !! a) (buckets l !! a).
Proof.
  unfold prune_if_due. case_if; [by left|]. simpl.
  rewrite retain_live_lookup. destruct (buckets l !! a) as [b|]; [|by left].
  case_decide; [right; eauto|by left].
Qed.

Lemma prune_if_due_limit l now : limit (prune_if_due l now) = limit l.
Proof. unfold prune_if_due. by case_if. Qed.

#[export] Hint Rewrite prune_if_due_limit : registry.

(** One check, seen through the abstract limiter. *)
Lemma check_at_hit l a now :
  fst (check_at l a now) = fst (hit (limit l) (buckets l !! a) now) ∧
  buckets (snd (check_at l a now)) !! a = Some (snd (hit (limit l) (buckets l !! a) now)).
Proof.
  unfold check_at, hit. autorewrite with registry.
  rewrite (same_slot_rolled now now _ (buckets l !! a));
    [|apply prune_if_due_slot|lia].
  case_if; simpl; by rewrite lookup_insert_eq.
Qed.

Lemma check_at_other l a a' now :
  a ≠ a' → same_slot now (buckets (snd (check_at l a now)) !! a') (buckets l !! a').
Proof.
  intros ?. unfold check_at. case_if; simpl; rewrite lookup_insert_ne //;
    apply prune_if_due_slot.
Qed.

Lemma check_at_limit l a now : limit (snd (check_at l a now)) = limit l.
Proof. unfold check_at. case_if; simpl; by autorewrite with registry. Qed.

Lemma hit_same_slot lim now t p f :
  same_slot now p f → now <= t → hit lim p t = hit lim f t.
Proof. intros. unfold hit. by rewrite (same_slot_rolled now t p f). Qed.

Lemma run_checks_slot l reqs a t0 full :
  ascending t0 reqs.*2 →
  same_slot t0 (buckets l !! a) full →
  decisions_of a (fst (run_checks l reqs)) = hits (limit l) full (times_of a reqs).
Proof.
  revert l t0 full. induction reqs as [|[a' t] reqs IH]; intros l t0 full; [done|].
  intros [Ht Hasc] Hslot. simpl in Ht, Hasc.
  simpl. destruct (check_at l a' t) as [d l1] eqn:Hc.
  destruct (run_checks l1 reqs) as [ds l2] eqn:Hr. simpl.
  unfold decisions_of, times_of. rewrite !filter_cons /=.
  destruct (decide (a' = a)) as [->|Hne].
  - destruct (check_at_hit l a t) as [Hd Hb]. rewrite Hc /= in Hd Hb.
    rewrite (hit_same_slot _ t0 t _ full) // in Hd.
    rewrite (hit_same_slot _ t0 t _ full) // in Hb.
    simpl. destruct (hit (limit l) full t) as [d' b] eqn:Hh. simpl in *. subst d'.
    f_equal. pose proof (check_at_limit l a t) as Hl. rewrite Hc /= in Hl. rewrite <- Hl.
    specialize (IH l1 t (Some b) Hasc). rewrite Hr in IH. apply IH. by left.
  - pose proof (check_at_limit l a' t) as Hl. rewrite Hc /= in Hl. rewrite <- Hl.
    specialize (IH l1 t full Hasc). rewrite Hr in IH. apply IH.
    pose proof (check_at_other l a' a t Hne) as Ho. rewrite Hc /= in Ho.
    apply (same_slot_mono t0 t) in Hslot; [|done].
    destruct Ho as [->|(Ho & b & Hb & Hex)]; [done|].
    right. split; [done|]. destruct Hslot as [Hs|(Hs & ?)]; [|congruence].
    exists b. by rewrite <- Hs.
Qed.

(** The budget left to one bucket for the requests in [x, x + WINDOW), when
    the clock has already reached [x]. *)
Definition budget (lim x : Z) (stored : option Bucket) : Z :=
  match stored with
  | None => lim
  | Some b => if x <=? window_start b then lim - count b else (lim - count b) + lim
  end.

Definition counted (lim : Z) (stored : option Bucket) : Prop :=
  match stored with None => True | Some b => 0 <= count b <= lim end.

Lemma hit_counted lim stored t :
  0 <= lim → counted lim stored → counted lim (Some (snd (hit lim stored t))).
Proof.
  intros Hl Hc. unfold hit, rolled. destruct stored as [b|]; simpl in *;
    repeat case_if; simpl in *; lia.
Qed.

Lemma budget_nonneg lim x stored : 0 <= lim → counted lim stored → 0 <= budget lim x stored.
Proof. destruct stored; simpl; [|done]. intros. case_if; lia. Qed.

(** A request inside the interval spends one unit of the budget when it is
    admitted, and never increases it. *)
Lemma hit_budget lim x stored t :
  0 <= lim → counted lim stored → x <= t < x + WINDOW →
  budget lim x (Some (snd (hit lim stored t))) +
    (if is_ok (fst (hit lim stored t)) then 1 else 0) <= budget lim x stored.
Proof.
  intros Hl Hc Ht. unfold hit, rolled, duration_since, WINDOW, ns_per_sec in *.
  destruct stored as [b|]; simpl in *; repeat case_if; simpl in *; repeat case_if; lia.
Qed.

Lemma admitted_in_cons lo hi t d ds :
  admitted_in lo hi ((t, d) :: ds) =
    (if is_ok d && (lo <=? t) && (t <? hi) then 1 else 0) + admitted_in lo hi ds.
Proof.
  unfold admitted_in. rewrite filter_cons /=.
  case_decide as Hd; destruct (is_ok d); simpl in *; repeat case_if; simpl; try lia; naive_solver lia.
Qed.

Lemma admitted_in_past lo hi lim stored ts t0 :
  hi <= t0 → ascending t0 ts → admitted_in lo hi (hits lim stored ts) = 0.
Proof.
  revert stored t0. induction ts as [|t ts IH]; intros stored t0 Hhi; [done|].
  intros [Ht Hasc]. simpl. destruct (hit lim stored t) as [d b].
  rewrite admitted_in_cons (IH (Some b) t); [|lia|done].
  rewrite (proj2 (Z.ltb_ge t hi)); [|lia]. by rewrite andb_false_r.
Qed.

Lemma hits_within_budget lim x stored ts t0 :
  0 <= lim → counted lim stored → x <= t0 → ascending t0 ts →
  admitted_in x (x + WINDOW) (hits lim stored ts) <= budget lim x stored.
Proof.
  intros Hl. revert stored t0. induction ts as [|t ts IH]; intros stored t0 Hc Hx Hasc.
  { by apply budget_nonneg. }
  destruct Hasc as [Ht Hasc]. destruct (decide (t < x + WINDOW)) as [Hlt|Hge].
  - pose proof (hit_budget lim x stored t Hl Hc ltac:(lia)) as Hb.
    pose proof (hit_counted lim stored t Hl Hc) as Hc'.
    simpl. destruct (hit lim stored t) as [d b]. simpl in Hb, Hc'.
    specialize (IH (Some b) t Hc' ltac:(lia) Hasc). simpl in IH, Hb. rewrite admitted_in_cons.
    destruct (is_ok d); simpl in *; repeat case_if; lia.
  - rewrite (admitted_in_past _ _ _ _ _ t); [by apply budget_nonneg|lia|split; [lia|done]].
Qed.

(** The clock may start before the interval. *)
Lemma hits_two_windows lim x stored ts t0 :
  0 <= lim → counted lim stored → ascending t0 ts →
  admitted_in x (x + WINDOW) (hits lim stored ts) <= 2 * lim.
Proof.
  intros Hl. revert stored t0. induction ts as [|t ts IH]; intros stored t0 Hc Hasc.
  { unfold admitted_in. simpl. lia. }
  destruct (decide (x <= t)) as [Hle|Hgt].
  - etrans; [apply (hits_within_budget lim x _ _ t); try done|].
    { split; [lia|]. apply Hasc. }
    unfold budget, counted in *. destruct stored; [case_if|]; lia.
  - simpl. pose proof (hit_counted lim stored t Hl Hc) as Hc'.
    destruct (hit lim stored t) as [d b]. rewrite admitted_in_cons.
    rewrite (proj2 (Z.leb_gt x t)); [|lia]. rewrite andb_false_r /=.
    apply (IH (Some b) t); [done|apply Hasc].
Qed.

Lemma ascending_weaken t0 t1 ts : t0 <= t1 → ascending t1 ts → ascending t0 ts.
Proof. destruct ts; simpl; [done|]. intuition lia. Qed.

Lemma times_of_ascending a reqs t0 : ascending t0 reqs.*2 → ascending t0 (times_of a reqs).
Proof.
  revert t0. induction reqs as [|[a' t] reqs IH]; intros t0; [done|].
  intros [Ht Hasc]. unfold times_of. rewrite filter_cons /=.
  case_decide; simpl in *.
  - split; [done|]. by apply IH.
  - apply (ascending_weaken t0 t); [done|]. by apply IH.
Qed.

(** The invariant of a limiter: counts stay in [u32], and the map never
    outgrows the threshold that triggers the next prune. *)
Record limiter_wf (l : AgentRateLimiter) : Prop := {
  wf_limit : 0 <= limit l <= u32_max;
  wf_counts : ∀ a b, buckets l !! a = Some b → 0 <= count b <= u32_max;
  wf_threshold : PRUNE_AT <= prune_threshold l;
  wf_size : Z.of_nat (size (buckets l)) <= prune_threshold l;
  wf_global : 0 <= global_limit l <= u32_max ∧ 0 <= count (global l) <= global_limit l
}.

Lemma size_insert_le (m : gmap string Bucket) a b :
  Z.of_nat (size (<[a := b]> m)) <= Z.of_nat (size m) + 1.
Proof.
  destruct (m !! a) eqn:E.
  - rewrite map_size_insert_Some; [lia|by eauto].
  - rewrite map_size_insert_None //. lia.
Qed.

Lemma retain_live_size now m : (size (retain_live now m) <= size m)%nat.
Proof. apply map_subseteq_size, map_filter_subseteq. Qed.

(** After [prune_if_due] there is room for one more key. *)
Lemma prune_if_due_wf l now :
  limiter_wf l → Z.of_nat (size (buckets l)) < usize_max →
  limiter_wf (prune_if_due l now) ∧
  Z.of_nat (size (buckets (prune_if_due l now))) + 1 <= prune_threshold (prune_if_due l now).
Proof.
  intros [Hlim Hcnt Hthr Hsz Hg] Hmax. unfold prune_if_due. case_if.
  { split; [by constructor|lia]. }
  pose proof (retain_live_size now (buckets l)) as Hr.
  split; [constructor|]; simpl; try done;
    try (unfold usize_saturating_mul, PRUNE_AT, usize_max, u64_max in *; lia).
  intros a b Hb. unfold retain_live in Hb. apply map_lookup_filter_Some in Hb as [Hb _]. eauto.
Qed.

Lemma rolled_count_range stored now :
  (∀ b, stored = Some b → 0 <= count b <= u32_max) → 0 <= count (rolled stored now) <= u32_max.
Proof.
  intros H. unfold rolled, u32_max in *. destruct stored as [b|]; simpl; case_if; simpl; try lia.
  by apply H.
Qed.

Lemma insert_wf l a b :
  limiter_wf l → Z.of_nat (size (buckets l)) + 1 <= prune_threshold l →
  0 <= count b <= u32_max → limiter_wf (set_buckets l (<[a := b]> (buckets l))).
Proof.
  intros [Hlim Hcnt Hthr Hsz Hg] Hroom Hb. constructor; simpl; try done.
  - intros a' b'. rewrite lookup_insert. case_decide; [intros ?; by simplify_eq|eauto].
  - pose proof (size_insert_le (buckets l) a b). lia.
Qed.

Lemma with_global_ceiling_wf lim glim now :
  0 <= lim <= u32_max → 0 <= glim <= u32_max → limiter_wf (with_global_ceiling lim glim now).
Proof.
  intros Hl Hg. constructor; simpl; unfold PRUNE_AT; done || lia.
Qed.

Lemma check_global_at_hit l now :
  global_limit l ≠ u32_max →
  check_global_at l now =
    (fst (hit (global_limit l) (Some (global l)) now),
     set_global l (snd (hit (global_limit l) (Some (global l)) now))).
Proof.
  intros Hne. unfold check_global_at, hit, rolled. simpl.
  rewrite (proj2 (Z.eqb_neq _ _)) //. by repeat case_if.
Qed.

Lemma run_global_hits l ts :
  global_limit l ≠ u32_max →
  fst (run_global l ts) = hits (global_limit l) (Some (global l)) ts.
Proof.
  revert l. induction ts as [|t ts IH]; intros l Hne; [done|].
  simpl. rewrite check_global_at_hit //.
  destruct (hit (global_limit l) (Some (global l)) t) as [d b]. simpl.
  specialize (IH (set_global l b) Hne). simpl in IH.
  destruct (run_global (set_global l b) ts). simpl in *. by f_equal.
Qed.

(** ** Theorems: the in-process limiter *)

(** Pruning and the other agents' traffic are invisible. On a clock that
    never runs backwards, the decisions one agent receives from [check] are
    exactly those of a single bucket of its own that is never pruned: the
    amortised map cleanup never resets or extends a budget, and no agent can
    spend or reset another's. *)
Theorem check_refines_own_bucket (l : AgentRateLimiter) (reqs : list (string * Z))
    (a : string) (t0 : Z) :
  ascending t0 reqs.*2 →
  decisions_of a (fst (run_checks l reqs)) = hits (limit l) (buckets l !! a) (times_of a reqs).
Proof. intros Hasc. apply (run_checks_slot l reqs a t0); [done|by left]. Qed.

Lemma check_refines_own_bucket_witness :
  decisions_of "a" (fst (run_checks (AgentRateLimiter_new 1 0)
    [("a", 0); ("b", 1); ("a", 2); ("a", 60000000002)])) =
  [(0, Ok tt); (2, Err 59); (60000000002, Ok tt)].
Proof.
  rewrite (check_refines_own_bucket _ _ "a" 0); [vm_compute; reflexivity|].
  vm_compute. repeat split; discriminate.
Defined.

(** The admission bound. Starting from a fresh limiter, in every interval
    of one window's length [check] admits at most twice the per-agent limit
    for an agent, whatever the agents' interleaving and however often the map
    is pruned (the two windows are the one the interval starts in and the next). *)
Theorem check_admits_at_most_two_limits (lim glim start : Z) (reqs : list (string * Z))
    (a : string) (x : Z) :
  0 <= lim →
  ascending start reqs.*2 →
  admitted_in x (x + WINDOW)
    (decisions_of a (fst (run_checks (with_global_ceiling lim glim start) reqs))) <= 2 * lim.
Proof.
  intros Hl Hasc.
  rewrite (run_checks_slot _ _ _ start None); [|done|by left].
  apply (hits_two_windows _ _ _ _ start); [done|done|by apply times_of_ascending].
Qed.

(** The bound is reached: one unit at the end of a window, one at the start of
    the next. *)
Lemma check_admits_at_most_two_limits_witness :
  admitted_in 59999999999 (59999999999 + WINDOW)
    (decisions_of "a" (fst (run_checks (with_global_ceiling 1 u32_max 0)
      [("b", 0); ("a", 59999999999); ("a", 60000000000); ("a", 119999999999)]))) <= 2 * 1 ∧
  is_ok (fst (check_at (with_global_ceiling 1 u32_max 0) "a" 59999999999)) = true.
Proof.
  split; [|vm_compute; reflexivity].
  apply (check_admits_at_most_two_limits 1 u32_max 0); [lia|].
  vm_compute. repeat split; discriminate.
Defined.

(** [peek] answers what [check] would answer. The read-only half that runs
    on an unverified [agent_id] gives, on every state and at every time, the
    decision and the [Retry-After] of the charging half. *)
Theorem peek_agrees_with_check (l : AgentRateLimiter) (a : string) (now : Z) :
  0 < limit l →
  peek_at l a now = fst (check_at l a now).
Proof.
  intros Hl. rewrite (proj1 (check_at_hit l a now)). unfold peek_at, hit.
  destruct (buckets l !! a) as [b|].
  - unfold rolled. simpl. repeat case_if; simpl in *; try done; lia.
  - rewrite rolled_none. simpl. case_if; [lia|done].
Qed.

Lemma peek_agrees_with_check_witness :
  peek_at (record_at (AgentRateLimiter_new 1 0) "a" 5) "a" 7000000005 = Err 53 ∧
  fst (check_at (record_at (AgentRateLimiter_new 1 0) "a" 5) "a" 7000000005) = Err 53.
Proof.
  split; [vm_compute; reflexivity|].
  rewrite <- (peek_agrees_with_check (record_at (AgentRateLimiter_new 1 0) "a" 5) "a");
    [vm_compute; reflexivity|vm_compute; reflexivity].
Defined.

(** The invariant of the limiter. Every operation keeps each count inside
    [u32] (so [count += 1] never overflows), keeps the prune threshold at or
    above its floor, and keeps the number of tracked keys within the
    threshold, while fewer than [usize::MAX] keys are tracked. *)
Theorem limiter_operations_preserve_wf (l : AgentRateLimiter) (a : string) (now : Z) :
  limiter_wf l →
  Z.of_nat (size (buckets l)) < usize_max →
  limiter_wf (record_at l a now) ∧
  limiter_wf (snd (check_at l a now)) ∧
  limiter_wf (snd (check_global_at l now)).
Proof.
  intros Hwf Hmax. destruct (prune_if_due_wf l now Hwf Hmax) as [Hp Hroom].
  assert (Hc : 0 <= count (rolled (buckets (prune_if_due l now) !! a) now) <= u32_max).
  { apply rolled_count_range. intros b Hb. exact (wf_counts _ Hp _ _ Hb). }
  split; [|split].
  - unfold record_at. apply insert_wf; [done|done|]. simpl.
    unfold u32_saturating_add, u32_max in *. lia.
  - unfold check_at. pose proof (wf_limit _ Hp). case_if; simpl; apply insert_wf; simpl; try done; lia.
  - destruct Hwf as [? ? ? ? [? ?]]. unfold check_global_at.
    case_if; [by constructor|]. repeat case_if; constructor; simpl in *; try done; lia.
Qed.

Lemma limiter_operations_preserve_wf_witness :
  limiter_wf (record_at (AgentRateLimiter_new 10 0) "a" 1).
Proof.
  refine (proj1 (limiter_operations_preserve_wf (AgentRateLimiter_new 10 0) "a" 1 _ _));
    [|vm_compute; reflexivity].
  apply with_global_ceiling_wf; unfold u32_max; lia.
Defined.

(** The global ceiling. A fresh limiter with a ceiling below [u32::MAX]
    admits, in every interval of one window's length, at most twice the
    ceiling through [check_global]. *)
Theorem global_admits_at_most_two_limits (lim glim start : Z) (ts : list Z) (x : Z) :
  0 <= glim < u32_max →
  ascending start ts →
  admitted_in x (x + WINDOW) (fst (run_global (with_global_ceiling lim glim start) ts))
    <= 2 * glim.
Proof.
  intros Hg Hasc. rewrite run_global_hits; [|simpl; lia].
  apply (hits_two_windows _ _ _ _ start); simpl; [lia|lia|done].
Qed.

Lemma global_admits_at_most_two_limits_witness :
  admitted_in 0 (0 + WINDOW) (fst (run_global (with_global_ceiling 5 1 0) [1; 2; 3])) <= 2 * 1.
Proof.
  apply (global_admits_at_most_two_limits 5 1 0); [unfold u32_max; lia|simpl; lia].
Defined.

(** [Retry-After] is bounded and almost exact. A refused client is told to
    wait between 1 and 60 seconds, and one second after that wait its bucket
    (whose window did not start in the future) has rolled over: with a positive
    limit and no charge in between it is admitted. (The seconds are rounded down, so the wait itself may end up to
    a second before the window does.) *)
Theorem retry_after_is_sufficient (l : AgentRateLimiter) (a : string) (now r : Z) :
  0 < limit l →
  (∀ b, buckets l !! a = Some b → window_start b <= now) →
  peek_at l a now = Err r →
  1 <= r <= 60 ∧ ∀ later, now + seconds (r + 1) <= later → peek_at l a later = Ok tt.
Proof.
  intros Hl. unfold peek_at. destruct (buckets l !! a) as [b|]; [|done].
  intros Hpast. specialize (Hpast b eq_refl).
  repeat case_if; try done. intros [= <-]. split.
  { apply retry_after_secs_bounds. unfold duration_since. lia. }
  intros later Hlater. case_if; [done|]. exfalso.
  unfold retry_after_secs, seconds, duration_since, WINDOW, ns_per_sec in *.
  pose proof (Z.mod_pos_bound (Z.max 0 (60 * 1000000000 - Z.max 0 (now - window_start b)))
    1000000000 ltac:(lia)) as Hm.
  pose proof (Z.div_mod (Z.max 0 (60 * 1000000000 - Z.max 0 (now - window_start b)))
    1000000000 ltac:(lia)) as Hd. lia.
Qed.

Lemma retry_after_is_sufficient_witness :
  peek_at (record_at (AgentRateLimiter_new 1 0) "a" 500000000) "a" 1000000000 = Err 59 ∧
  peek_at (record_at (AgentRateLimiter_new 1 0) "a" 500000000) "a"
    (1000000000 + seconds 60) = Ok tt.
Proof.
  split; [vm_compute; reflexivity|].
  refine (proj2 (retry_after_is_sufficient
    (record_at (AgentRateLimiter_new 1 0) "a" 500000000) "a" 1000000000 59 _ _ _) _ _);
    [vm_compute; reflexivity| |vm_compute; reflexivity|vm_compute; discriminate].
  intros b Hb. vm_compute in Hb. injection Hb as <-. vm_compute. discriminate.
Defined.
