(* ===== verification/SharedLimit.v ===== *)
(** * The `/auth/*` limiter backends and middleware
    (crates/acdp-registry-store/src/rate_limit.rs,
    crates/acdp-registry-pg/src/rate_limit.rs,
    crates/acdp-registry-core/src/rate_limit_shared.rs and lib.rs)

    [SharedRateLimitBackend] is the trait: the in-process limiter, the
    Postgres backend and the layered composition are its instances, and the
    middleware is written against it. *)

From S2P Require Import Prelude RateLimit.

Open Scope Z_scope.

(** ** The trait *)

Inductive SharedLimitScope : Type := PerIp | Global.

Definition scope_label (s : SharedLimitScope) : string :=
  match s with
  | PerIp => "auth_per_ip"
  | Global => "auth_global"
  end.

Inductive LimitDecision : Type :=
  | Allow
  | Deny (retry_after_seconds : Z)
  | Unavailable.

(** The database's side of one check: the statement ran at the database's
    epoch second and its row came back, or no row came back (an error or a
    timeout), in which case the statement may still have taken effect. *)
Inductive DbReply : Type :=
  | Answered (now_epoch : Z)
  | Lost (effect : option Z).

(** What one check reads of the environment: the process' monotonic clock,
    its wall clock in epoch seconds, and the database's side. *)
Record Env : Type := mkEnv {
  mono : Z;
  epoch_secs : Z;
  db : DbReply
}.

Class SharedRateLimitBackend (B : Type) := {
  backend_check : B → Env → SharedLimitScope → string → LimitDecision * B;
  backend_name : B → string
}.

(** The laws the middleware's clients rely on: a denial never tells the client
    to retry at once, and a decisive backend always decides. *)
Class DenialsWait (B : Type) `{SharedRateLimitBackend B} :=
  denial_waits : ∀ b env s k r b',
    backend_check b env s k = (Deny r, b') → 1 <= r <= 60.

Class Decisive (B : Type) `{SharedRateLimitBackend B} :=
  decisive : ∀ b env s k, fst (backend_check b env s k) ≠ Unavailable.

(** ** The in-process backend *)

Definition AgentRateLimiter_check (l : AgentRateLimiter) (env : Env)
    (scope : SharedLimitScope) (key : string) : LimitDecision * AgentRateLimiter :=
  let '(outcome, l') :=
    match scope with
    | Global => check_global_at l (mono env)
    | PerIp => check_at l key (mono env)
    end in
  match outcome with
  | Ok _ => (Allow, l')
  | Err retry_after_seconds => (Deny retry_after_seconds, l')
  end.

#[export] Instance memory_backend : SharedRateLimitBackend AgentRateLimiter := {|
  backend_check := AgentRateLimiter_check;
  backend_name _ := "memory"
|}.

(** ** The Postgres backend *)

Definition WINDOW_SECS : Z := 60.
Definition WARN_EVERY_SECS : Z := 60.
Definition MAX_LIMIT : Z := 2147483646.

(** A row of [rate_limit_windows]: the primary key is (scope, bucket_key). *)
Record WindowRow : Type := mkWindowRow {
  row_window_start : Z;
  row_hits : Z
}.

Record PgRateLimitBackend : Type := mkPg {
  rate_limit_windows : gmap (string * string) WindowRow;
  per_ip_limit : Z;
  pg_global_limit : Z;
  last_warn_epoch : Z
}.

(** [CHECK_SQL]: the upsert, and the [hits] and [window_start] it returns. *)
Definition CHECK_SQL (table : gmap (string * string) WindowRow) (scope key : string)
    (window_secs clamp now_epoch : Z) : WindowRow * gmap (string * string) WindowRow :=
  let excluded := now_epoch / window_secs * window_secs in
  let row :=
    match table !! (scope, key) with
    | None => mkWindowRow excluded 1
    | Some b =>
      mkWindowRow (Z.max (row_window_start b) excluded)
        (if row_window_start b <? excluded then 1 else Z.min (row_hits b + 1) clamp)
    end in
  (row, <[(scope, key) := row]> table).

Definition decide_hits (hits limit window_start now_epoch : Z) : LimitDecision :=
  if hits <=? limit then Allow
  else Deny (Z.min WINDOW_SECS (Z.max 1 (window_start + WINDOW_SECS - now_epoch))).

(** [run]: the limit and key of the scope, then one statement. *)
Definition pg_run (b : PgRateLimitBackend) (scope : SharedLimitScope) (key : string)
    (now_epoch : Z) : LimitDecision * PgRateLimitBackend :=
  let '(limit, key) :=
    match scope with
    | PerIp => (per_ip_limit b, key)
    | Global => (pg_global_limit b, "")
    end in
  let limit := Z.min limit MAX_LIMIT in
  let '(row, table) :=
    CHECK_SQL (rate_limit_windows b) (scope_label scope) key WINDOW_SECS (limit + 1) now_epoch in
  (decide_hits (row_hits row) limit (row_window_start row) now_epoch,
   mkPg table (per_ip_limit b) (pg_global_limit b) (last_warn_epoch b)).

Definition pg_note_unavailable (b : PgRateLimitBackend) (now : Z) : PgRateLimitBackend :=
  let last := last_warn_epoch b in
  let due := (last =? i64_min) || (WARN_EVERY_SECS <=? i64_saturating_sub now last) in
  if due then mkPg (rate_limit_windows b) (per_ip_limit b) (pg_global_limit b) now else b.

Definition pg_check (b : PgRateLimitBackend) (env : Env) (scope : SharedLimitScope)
    (key : string) : LimitDecision * PgRateLimitBackend :=
  match db env with
  | Answered now_epoch => pg_run b scope key now_epoch
  | Lost effect =>
    let b' := match effect with
              | Some now_epoch => snd (pg_run b scope key now_epoch)
              | None => b
              end in
    (Unavailable, pg_note_unavailable b' (epoch_secs env))
  end.

#[export] Instance postgres_backend : SharedRateLimitBackend PgRateLimitBackend := {|
  backend_check := pg_check;
  backend_name _ := "postgres"
|}.

(** [prune_older_than]: the surviving table and the number of deleted rows. *)
Definition prune_older_than (b : PgRateLimitBackend) (max_age_secs now_epoch : Z) :
    Z * PgRateLimitBackend :=
  let keep := filter (λ kr, now_epoch - max_age_secs <= row_window_start kr.2)
                (rate_limit_windows b) in
  (Z.of_nat (size (rate_limit_windows b)) - Z.of_nat (size keep),
   mkPg keep (per_ip_limit b) (pg_global_limit b) (last_warn_epoch b)).

(** ** The layered backend *)

Inductive UnavailablePosture : Type := PostureAllow | PostureDeny.

Definition UNAVAILABLE_RETRY_AFTER_SECS : Z := 5.

Record LayeredRateLimiter (B : Type) : Type := mkLayered {
  l1 : AgentRateLimiter;
  l2 : B;
  on_unavailable : UnavailablePosture;
  last_warn : Z
}.

Arguments mkLayered {B}.
Arguments l1 {B}.
Arguments l2 {B}.
Arguments on_unavailable {B}.
Arguments last_warn {B}.

(** [note_unavailable]: the epoch second of the last [warn!], 0 = never. *)
Definition note_unavailable (last now : Z) : Z :=
  if (last =? 0) || (WARN_EVERY_SECS <=? Z.max 0 (now - last)) then now else last.

Definition layered_check {B : Type} `{SharedRateLimitBackend B} (b : LayeredRateLimiter B)
    (env : Env) (scope : SharedLimitScope) (key : string) :
    LimitDecision * LayeredRateLimiter B :=
  let '(first, l1') := backend_check (l1 b) env scope key in
  match first with
  | Deny r => (Deny r, mkLayered l1' (l2 b) (on_unavailable b) (last_warn b))
  | _ =>
    let '(answer, l2') := backend_check (l2 b) env scope key in
    match answer with
    | Allow => (Allow, mkLayered l1' l2' (on_unavailable b) (last_warn b))
    | Deny r => (Deny r, mkLayered l1' l2' (on_unavailable b) (last_warn b))
    | Unavailable =>
      (match on_unavailable b with
       | PostureAllow => Allow
       | PostureDeny => Deny UNAVAILABLE_RETRY_AFTER_SECS
       end,
       mkLayered l1' l2' (on_unavailable b) (note_unavailable (last_warn b) (epoch_secs env)))
    end
  end.

#[export] Instance layered_backend {B : Type} `{SharedRateLimitBackend B} :
    SharedRateLimitBackend (LayeredRateLimiter B) := {|
  backend_check := layered_check;
  backend_name _ := "layered"
|}.

(** ** The middleware *)

Record RateLimitConfig : Type := mkRateLimitConfig {
  per_ip_per_minute : Z;
  global_per_minute : Z
}.

(** [charge_auth_limit]: [Some retry_after] is the 429 to return. *)
Definition charge_auth_limit {B : Type} `{SharedRateLimitBackend B} (b : B) (env : Env)
    (scope : SharedLimitScope) (key : string) : option Z * B :=
  let '(d, b') := backend_check b env scope key in
  match d with
  | Allow => (None, b')
  | Deny r => (Some r, b')
  | Unavailable => (None, b')
  end.

(** [auth_rate_limit], for a request whose client address is [ip]: the global
    ceiling first, then the per-IP budget. [None] runs the handler. *)
Definition auth_rate_limit {B : Type} `{SharedRateLimitBackend B} (backend : option B)
    (rl : RateLimitConfig) (env : Env) (ip : string) : option Z * option B :=
  match backend with
  | None => (None, None)
  | Some b =>
    let '(denied, b) :=
      if 0 <? global_per_minute rl then charge_auth_limit b env Global "" else (None, b) in
    match denied with
    | Some r => (Some r, Some b)
    | None =>
      let '(denied, b) :=
        if 0 <? per_ip_per_minute rl then charge_auth_limit b env PerIp ip else (None, b) in
      (denied, Some b)
    end
  end.

(** ** Runs *)

(** Requests against one backend, with each request's environment. *)
Definition Request : Type := (Env * SharedLimitScope * string)%type.

Fixpoint run_backend {B : Type} `{SharedRateLimitBackend B} (b : B) (reqs : list Request) :
    list LimitDecision * B :=
  match reqs with
  | [] => ([], b)
  | (env, s, k) :: rest =>
    let '(d, b1) := backend_check b env s k in
    let '(ds, b2) := run_backend b1 rest in
    (d :: ds, b2)
  end.

(** The row a request is counted in, and its limit. *)
Definition row_key (s : SharedLimitScope) (k : string) : string * string :=
  (scope_label s, match s with PerIp => k | Global => "" end).

Definition row_limit (b : PgRateLimitBackend) (s : SharedLimitScope) : Z :=
  Z.min (match s with PerIp => per_ip_limit b | Global => pg_global_limit b end) MAX_LIMIT.

(** The window a request was counted in: that of its row, after it. *)
Definition window_of (b : PgRateLimitBackend) (s : SharedLimitScope) (k : string) : option Z :=
  row_window_start <$> rate_limit_windows b !! row_key s k.

(** How many requests counted in the row of [s] and [k] a run admits into
    window [w]. *)
Fixpoint allowed_in_window (s : SharedLimitScope) (k : string) (w : Z)
    (b : PgRateLimitBackend) (reqs : list Request) : Z :=
  match reqs with
  | [] => 0
  | (env, s', k') :: rest =>
    let '(d, b1) := pg_check b env s' k' in
    (match d with
     | Allow =>
       if bool_decide (row_key s' k' = row_key s k) && bool_decide (window_of b1 s k = Some w)
       then 1 else 0
     | _ => 0
     end) + allowed_in_window s k w b1 rest
  end.

(** Requests through the middleware; [true] means the handler ran. *)
Fixpoint run_middleware {B : Type} `{SharedRateLimitBackend B} (b : B) (rl : RateLimitConfig)
    (reqs : list (Env * string)) : list bool * B :=
  match reqs with
  | [] => ([], b)
  | (env, ip) :: rest =>
    let '(denied, b1) := auth_rate_limit (Some b) rl env ip in
    let '(ds, b2) := run_middleware (default b b1) rl rest in
    (match denied with None => true | Some _ => false end :: ds, b2)
  end.

(** A backend that counts the checks it receives (the statements that reach
    the database). *)
Record Counted (B : Type) : Type := mkCounted { counted_inner : B; statements : Z }.
Arguments mkCounted {B}.
Arguments counted_inner {B}.
Arguments statements {B}.

#[export] Instance counted_backend {B : Type} `{SharedRateLimitBackend B} :
    SharedRateLimitBackend (Counted B) := {|
  backend_check b env s k :=
    let '(d, i) := backend_check (counted_inner b) env s k in
    (d, mkCounted i (statements b + 1));
  backend_name b := backend_name (counted_inner b)
|}.

(** ** The laws of the instances *)

#[export] Instance EqDecision_scope : EqDecision SharedLimitScope.
Proof. solve_decision. Defined.

Lemma check_at_deny_bounds l a now r l' : check_at l a now = (Err r, l') → 1 <= r <= 60.
Proof.
  unfold check_at. case_if; intros [= <- <-]; try done.
  apply retry_after_secs_bounds. unfold duration_since. lia.
Qed.

Lemma check_global_deny_bounds l now r l' : check_global_at l now = (Err r, l') → 1 <= r <= 60.
Proof.
  unfold check_global_at. repeat case_if; intros Heq; try discriminate Heq;
    injection Heq as <- <-; apply retry_after_secs_bounds; unfold duration_since; lia.
Qed.

#[export] Instance memory_denials_wait : DenialsWait AgentRateLimiter.
Proof.
  intros l env s k r l'. simpl. unfold AgentRateLimiter_check.
  destruct s.
  - destruct (check_at l k (mono env)) as [[?|r'] ?] eqn:E; intros [= <- <-].
    by eapply check_at_deny_bounds.
  - destruct (check_global_at l (mono env)) as [[?|r'] ?] eqn:E; intros [= <- <-].
    by eapply check_global_deny_bounds.
Qed.

#[export] Instance memory_decisive : Decisive AgentRateLimiter.
Proof.
  intros l env s k. simpl. unfold AgentRateLimiter_check.
  by destruct s; [destruct (check_at l k (mono env)) as [[|] ?]
                 |destruct (check_global_at l (mono env)) as [[|] ?]].
Qed.

Lemma pg_run_deny_bounds b s k now r b' : pg_run b s k now = (Deny r, b') → 1 <= r <= 60.
Proof.
  unfold pg_run, decide_hits, WINDOW_SECS.
  destruct (match s with PerIp => _ | Global => _ end) as [lim key].
  destruct (CHECK_SQL _ _ _ _ _ _) as [row table].
  case_if; intros [= <- <-]. lia.
Qed.

#[export] Instance postgres_denials_wait : DenialsWait PgRateLimitBackend.
Proof.
  intros b env s k r b'. simpl. unfold pg_check. destruct (db env); [|done].
  apply pg_run_deny_bounds.
Qed.

#[export] Instance layered_denials_wait {B} `{DenialsWait B} : DenialsWait (LayeredRateLimiter B).
Proof.
  intros b env s k r b'. simpl. unfold layered_check.
  destruct (backend_check (l1 b) env s k) as [d l1'] eqn:E1.
  destruct d; [|intros [= <- <-]; by eapply (denial_waits (B := AgentRateLimiter))|].
  all: destruct (backend_check (l2 b) env s k) as [[|r2|] l2'] eqn:E2; try done.
  all: try (intros [= <- <-]; by eapply (denial_waits (B := B))).
  all: destruct (on_unavailable b); intros [= <- <-]; unfold UNAVAILABLE_RETRY_AFTER_SECS; lia.
Qed.

#[export] Instance layered_decisive {B} `{SharedRateLimitBackend B} :
  Decisive (LayeredRateLimiter B).
Proof.
  intros b env s k. simpl. unfold layered_check.
  destruct (backend_check (l1 b) env s k) as [[|r|] l1']; [|done|].
  all: destruct (backend_check (l2 b) env s k) as [[|r2|] l2']; try done.
  all: by destruct (on_unavailable b).
Qed.

(** ** Lemmas: the Postgres window *)

(** What window [w] of a row may still admit. *)
Definition window_budget (lim w : Z) (row : option WindowRow) : Z :=
  match row with
  | None => lim
  | Some r =>
    if row_window_start r <? w then lim
    else if w <? row_window_start r then 0
    else Z.max 0 (lim - row_hits r)
  end.

Lemma window_budget_nonneg lim w row : 0 <= lim → 0 <= window_budget lim w row.
Proof. intros. unfold window_budget. destruct row; repeat case_if; lia. Qed.

(** One statement on the row it counts in. *)
Lemma pg_run_budget b s k now w :
  0 <= row_limit b s →
  let row := rate_limit_windows b !! row_key s k in
  let '(d, b1) := pg_run b s k now in
  row_limit b1 s = row_limit b s ∧
  (match d with
   | Allow => if bool_decide (window_of b1 s k = Some w) then 1 else 0
   | _ => 0
   end) + window_budget (row_limit b s) w (rate_limit_windows b1 !! row_key s k)
  <= window_budget (row_limit b s) w row.
Proof.
  intros Hl. unfold pg_run.
  assert (E : (match s with PerIp => (per_ip_limit b, k) | Global => (pg_global_limit b, "") end)
    = (match s with PerIp => per_ip_limit b | Global => pg_global_limit b end, snd (row_key s k)))
    by by destruct s.
  rewrite E. clear E. simpl. change (Z.min (match s with PerIp => per_ip_limit b
    | Global => pg_global_limit b end) MAX_LIMIT) with (row_limit b s).
  fold (row_key s k). split; [done|].
  unfold window_of. simpl. rewrite lookup_insert_eq /=.
  set (e := now / WINDOW_SECS * WINDOW_SECS).
  unfold decide_hits. generalize dependent (row_limit b s). intros L HL.
  destruct (rate_limit_windows b !! row_key s k) as [[ws h]|]; simpl;
    repeat (case_if; simpl in *); bool_to_prop; simplify_eq; lia.
Qed.

(** One statement on another row. *)
Lemma pg_run_other b s' k' now s k :
  row_key s' k' ≠ row_key s k →
  rate_limit_windows (snd (pg_run b s' k' now)) !! row_key s k =
    rate_limit_windows b !! row_key s k ∧
  row_limit (snd (pg_run b s' k' now)) s = row_limit b s.
Proof.
  intros Hne. unfold pg_run. destruct s'; simpl; (split; [|done]);
    rewrite lookup_insert_ne //.
Qed.

Lemma pg_note_unavailable_same b now s k :
  rate_limit_windows (pg_note_unavailable b now) !! row_key s k =
    rate_limit_windows b !! row_key s k ∧
  row_limit (pg_note_unavailable b now) s = row_limit b s.
Proof. unfold pg_note_unavailable. by case_if. Qed.

Lemma pg_run_step b s' k' now s k w :
  0 <= row_limit b s →
  let '(d, b1) := pg_run b s' k' now in
  row_limit b1 s = row_limit b s ∧
  (match d with
   | Allow =>
     if bool_decide (row_key s' k' = row_key s k) && bool_decide (window_of b1 s k = Some w)
     then 1 else 0
   | _ => 0
   end) + window_budget (row_limit b s) w (rate_limit_windows b1 !! row_key s k)
  <= window_budget (row_limit b s) w (rate_limit_windows b !! row_key s k).
Proof.
  intros Hl. destruct (decide (row_key s' k' = row_key s k)) as [Heq|Hne].
  - assert (s' = s) as -> by (unfold row_key in Heq; destruct s', s; simpl in Heq; congruence).
    rewrite bool_decide_true //=.
    assert (pg_run b s k' now = pg_run b s k now) as ->.
    { unfold row_key in Heq. destruct s; simpl in Heq; [|done]. by simplify_eq. }
    by apply pg_run_budget.
  - destruct (pg_run_other b s' k' now s k Hne) as [H1 H2].
    rewrite bool_decide_false //.
    destruct (pg_run b s' k' now) as [d b1]. simpl in *. rewrite H1 H2. split; [done|].
    destruct d; simpl; lia.
Qed.

Lemma pg_check_step b env s' k' s k w :
  0 <= row_limit b s →
  let '(d, b1) := pg_check b env s' k' in
  row_limit b1 s = row_limit b s ∧
  (match d with
   | Allow =>
     if bool_decide (row_key s' k' = row_key s k) && bool_decide (window_of b1 s k = Some w)
     then 1 else 0
   | _ => 0
   end) + window_budget (row_limit b s) w (rate_limit_windows b1 !! row_key s k)
  <= window_budget (row_limit b s) w (rate_limit_windows b !! row_key s k).
Proof.
  intros Hl. unfold pg_check. destruct (db env) as [now|[now|]].
  - by apply pg_run_step.
  - pose proof (pg_run_step b s' k' now s k w Hl) as Hs.
    destruct (pg_run b s' k' now) as [d b1]. simpl.
    destruct (pg_note_unavailable_same b1 (epoch_secs env) s k) as [-> ->].
    destruct Hs as [-> Hs]. split; [done|].
    destruct d; try destruct (_ && _) in Hs; lia.
  - destruct (pg_note_unavailable_same b (epoch_secs env) s k) as [-> ->]. split; [done|]. lia.
Qed.

Lemma allowed_within_budget s k w b reqs :
  0 <= row_limit b s →
  allowed_in_window s k w b reqs
    <= window_budget (row_limit b s) w (rate_limit_windows b !! row_key s k).
Proof.
  revert b. induction reqs as [|[[env s'] k'] reqs IH]; intros b Hl; simpl.
  { by apply window_budget_nonneg. }
  pose proof (pg_check_step b env s' k' s k w Hl) as Hs.
  destruct (pg_check b env s' k') as [d b1]. destruct Hs as [Hlim Hs].
  specialize (IH b1 ltac:(by rewrite Hlim)). rewrite Hlim in IH. lia.
Qed.

(** ** Theorems *)

(** The shared window is exact across replicas. Whatever order the
    statements of all replicas reach the row in, whatever their (possibly
    stale) clocks, and even when replies are lost after taking effect, the
    Postgres backend admits at most [limit] requests into each 60-second
    window of a row that does not exist yet. *)
Theorem pg_admits_at_most_limit_per_window (b : PgRateLimitBackend) (s : SharedLimitScope)
    (k : string) (w : Z) (reqs : list Request) :
  0 <= row_limit b s →
  rate_limit_windows b !! row_key s k = None →
  allowed_in_window s k w b reqs <= row_limit b s.
Proof.
  intros Hl Hnone. pose proof (allowed_within_budget s k w b reqs Hl) as H.
  by rewrite Hnone in H.
Qed.

(** A stale straddler ([59] after [60]) is counted into the newer window. *)
Lemma pg_admits_at_most_limit_per_window_witness :
  let b := mkPg ∅ 2 100 0 in
  let at_ t := (mkEnv 0 0 (Answered t), PerIp, "10.0.0.1") in
  allowed_in_window PerIp "10.0.0.1" 60 b [at_ 60; at_ 59; at_ 61; at_ 62] <= 2 ∧
  allowed_in_window PerIp "10.0.0.1" 60 b [at_ 60; at_ 59; at_ 61; at_ 62] = 2.
Proof.
  split; [|vm_compute; reflexivity].
  apply (pg_admits_at_most_limit_per_window (mkPg ∅ 2 100 0) PerIp "10.0.0.1" 60);
    vm_compute; [discriminate|reflexivity].
Defined.

Lemma layered_check_l1 {B} `{SharedRateLimitBackend B} (b : LayeredRateLimiter B) env s k :
  l1 (snd (layered_check b env s k)) = snd (backend_check (l1 b) env s k) ∧
  (fst (layered_check b env s k) = Allow → fst (backend_check (l1 b) env s k) = Allow) ∧
  (fst (backend_check (l1 b) env s k) ≠ Allow → l2 (snd (layered_check b env s k)) = l2 b).
Proof.
  unfold layered_check. pose proof (decisive (l1 b) env s k) as Hd.
  destruct (backend_check (l1 b) env s k) as [[|r|] l1']; simpl in *; [|by naive_solver|done].
  destruct (backend_check (l2 b) env s k) as [[|r2|] l2']; simpl; naive_solver.
Qed.

(** The layered limiter only tightens. Over any run, with any shared
    backend, any posture and any failures of that backend, a request the
    layered limiter admits is one the in-process limiter alone would have
    admitted, and the in-process layer ends in the state it would have
    reached alone. *)
Theorem layered_only_tightens {B : Type} `{SharedRateLimitBackend B}
    (b : LayeredRateLimiter B) (reqs : list Request) :
  Forall2 (λ d alone, d = Allow → alone = Allow)
    (fst (run_backend b reqs)) (fst (run_backend (l1 b) reqs)) ∧
  l1 (snd (run_backend b reqs)) = snd (run_backend (l1 b) reqs).
Proof.
  revert b. induction reqs as [|[[env s] k] reqs IH]; intros b; simpl; [by split|].
  destruct (layered_check_l1 b env s k) as (Hl1 & Hallow & _).
  change (backend_check b env s k) with (layered_check b env s k).
  destruct (layered_check b env s k) as [d b1].
  change (AgentRateLimiter_check (l1 b) env s k) with (backend_check (l1 b) env s k).
  destruct (backend_check (l1 b) env s k) as [d1 m1]. simpl in *. subst m1.
  destruct (IH b1) as [IH1 IH2].
  destruct (run_backend b1 reqs), (run_backend (l1 b1) reqs). simpl in *. by repeat constructor.
Qed.

Lemma memory_per_ip_global l env k :
  global (snd (AgentRateLimiter_check l env PerIp k)) = global l ∧
  global_limit (snd (AgentRateLimiter_check l env PerIp k)) = global_limit l.
Proof.
  unfold AgentRateLimiter_check, check_at, prune_if_due.
  by repeat case_if.
Qed.

Lemma memory_global_hit l env k :
  global_limit l ≠ u32_max →
  AgentRateLimiter_check l env Global k =
    (match fst (hit (global_limit l) (Some (global l)) (mono env)) with
     | Ok _ => Allow | Err r => Deny r end,
     set_global l (snd (hit (global_limit l) (Some (global l)) (mono env)))).
Proof.
  intros Hne. unfold AgentRateLimiter_check. rewrite check_global_at_hit //.
  by destruct (fst (hit _ _ _)).
Qed.

(** One charge through the layered limiter costs at most one statement. *)
Lemma layered_counted_statements {B} `{SharedRateLimitBackend B}
    (b : LayeredRateLimiter (Counted B)) env s k :
  statements (l2 (snd (layered_check b env s k))) <= statements (l2 b) + 1.
Proof.
  unfold layered_check. destruct (backend_check (l1 b) env s k) as [[|r|] l1']; simpl; [|lia|].
  all: destruct (backend_check (counted_inner (l2 b)) env s k) as [[|r2|] i]; simpl; lia.
Qed.

Lemma charge_auth_limit_eq {B} `{SharedRateLimitBackend B} (b : B) env s k :
  charge_auth_limit b env s k =
    (match fst (backend_check b env s k) with Deny r => Some r | _ => None end,
     snd (backend_check b env s k)).
Proof. unfold charge_auth_limit. by destruct (backend_check b env s k) as [[|r|] b']. Qed.

Lemma charge_auth_limit_state {B} `{SharedRateLimitBackend B} (b : B) env s k :
  snd (charge_auth_limit b env s k) = snd (backend_check b env s k).
Proof. by rewrite charge_auth_limit_eq. Qed.

Section statement_bound.
Context {B : Type} `{SharedRateLimitBackend B}.
Context (rl : RateLimitConfig) (Hrl : 0 < global_per_minute rl).

Lemma per_ip_charge_step (b : LayeredRateLimiter (Counted B)) env ip :
  let b' := snd (if 0 <? per_ip_per_minute rl then charge_auth_limit b env PerIp ip
                 else (None, b)) in
  global (l1 b') = global (l1 b) ∧ global_limit (l1 b') = global_limit (l1 b) ∧
  statements (l2 b') <= statements (l2 b) + 1.
Proof.
  simpl. case_if; [|repeat split; simpl; lia].
  rewrite charge_auth_limit_state. simpl.
  destruct (layered_check_l1 b env PerIp ip) as (-> & _). simpl.
  destruct (memory_per_ip_global (l1 b) env ip) as [-> ->].
  split; [done|]. split; [done|]. apply layered_counted_statements.
Qed.

Lemma middleware_step (b : LayeredRateLimiter (Counted B)) env ip :
  global_limit (l1 b) ≠ u32_max →
  let h := hit (global_limit (l1 b)) (Some (global (l1 b))) (mono env) in
  let b' := default b (snd (auth_rate_limit (Some b) rl env ip)) in
  global (l1 b') = snd h ∧ global_limit (l1 b') = global_limit (l1 b) ∧
  statements (l2 b') <= statements (l2 b) + (if is_ok (fst h) then 2 else 0).
Proof.
  intros Hne. simpl. unfold auth_rate_limit.
  rewrite (proj2 (Z.ltb_lt _ _) Hrl).
  rewrite (charge_auth_limit_eq b env Global ""). simpl.
  destruct (layered_check_l1 b env Global "") as (Hl1 & Hallow & Hl2).
  pose proof (layered_counted_statements b env Global "") as Hst.
  pose proof (decisive b env Global "") as Hdec.
  pose proof (memory_global_hit (l1 b) env "" Hne) as Hhit.
  simpl in Hl1, Hallow, Hl2, Hdec. rewrite Hhit in Hl1, Hallow, Hl2. simpl in *.
  destruct (hit (global_limit (l1 b)) (Some (global (l1 b))) (mono env)) as [[[]|r] gb];
    simpl in *; destruct (layered_check b env Global "") as [d b1]; simpl in *.
  - pose proof (per_ip_charge_step b1 env ip) as Hip. simpl in Hip.
    destruct d; [|rewrite Hl1; repeat split; simpl; lia|done].
    destruct (if 0 <? per_ip_per_minute rl then _ else _) as [d2 b2]; simpl in *.
    destruct Hip as (-> & -> & ?). rewrite Hl1. repeat split; simpl; lia.
  - destruct d; [by discriminate Hallow| |done].
    rewrite Hl1. rewrite Hl2 //. repeat split; simpl; lia.
Qed.

Lemma middleware_statements (b : LayeredRateLimiter (Counted B)) reqs x t0 :
  global_limit (l1 b) ≠ u32_max →
  ascending t0 (mono ∘ fst <$> reqs) →
  Forall (λ r, x <= mono r.1 < x + WINDOW) reqs →
  statements (l2 (snd (run_middleware b rl reqs))) <=
    statements (l2 b) + 2 * admitted_in x (x + WINDOW)
      (hits (global_limit (l1 b)) (Some (global (l1 b))) (mono ∘ fst <$> reqs)).
Proof.
  revert b t0. induction reqs as [|[env ip] reqs IH]; intros b t0 Hne Hasc Hin.
  { unfold admitted_in. simpl. lia. }
  inversion_clear Hin as [|?? Hx Hin']. destruct Hasc as [Ht Hasc].
  pose proof (middleware_step b env ip Hne) as Hstep.
  cbn [run_middleware fmap list_fmap hits]. simpl in Hx.
  change ((mono ∘ fst) (env, ip)) with (mono env) in *.
  destruct (auth_rate_limit (Some b) rl env ip) as [denied b1] eqn:Ea.
  simpl in Hstep. destruct Hstep as (Hg & Hgl & Hst).
  specialize (IH (default b b1) (mono env) ltac:(by rewrite Hgl) Hasc Hin').
  rewrite Hg Hgl in IH.
  destruct (hit (global_limit (l1 b)) (Some (global (l1 b))) (mono env)) as [d gb].
  rewrite admitted_in_cons. simpl in *.
  destruct (run_middleware (default b b1) rl reqs) as [ds b2]. simpl in *.
  rewrite (proj2 (Z.leb_le _ _)) ?(proj2 (Z.ltb_lt _ _)); try lia.
  destruct (is_ok d); simpl; lia.
Qed.

End statement_bound.

(** A flood cannot flood the database. With a positive global budget, the
    requests the middleware handles in any interval of one window's length
    cost at most [4 * global_per_minute] statements on the shared backend (two
    per admission of the in-process global bucket, which admits at most twice
    its limit in such an interval), however many requests and source
    addresses there are. *)
Theorem middleware_bounds_shared_statements {B : Type} `{SharedRateLimitBackend B}
    (rl : RateLimitConfig) (shared : Counted B) (posture : UnavailablePosture)
    (start x : Z) (reqs : list (Env * string)) :
  0 < global_per_minute rl < u32_max →
  ascending start (mono ∘ fst <$> reqs) →
  Forall (λ r, x <= mono r.1 < x + WINDOW) reqs →
  let first := with_global_ceiling (per_ip_per_minute rl) (global_per_minute rl) start in
  statements (l2 (snd (run_middleware (mkLayered first shared posture 0) rl reqs)))
    <= statements shared + 4 * global_per_minute rl.
Proof.
  intros Hg Hasc Hin first.
  etrans; [apply (middleware_statements rl ltac:(lia) _ _ x start); simpl; [lia|done|done]|]. simpl.
  assert (admitted_in x (x + WINDOW) (hits (global_per_minute rl) (Some (mkBucket start 0))
    (mono ∘ fst <$> reqs)) <= 2 * global_per_minute rl); [|lia].
  apply (hits_two_windows _ _ _ _ start); simpl; [lia|lia|done].
Qed.

Lemma middleware_bounds_shared_statements_witness :
  let rl := mkRateLimitConfig 5 1 in
  let env t := mkEnv t 0 (Lost None) in
  let b := mkLayered (with_global_ceiling 5 1 0) (mkCounted (mkPg ∅ 5 1 0) 0) PostureAllow 0 in
  statements (l2 (snd (run_middleware b rl
    [(env 1, "a"); (env 2, "b"); (env 3, "c")]))) <= 0 + 4 * 1.
Proof.
  apply (middleware_bounds_shared_statements (mkRateLimitConfig 5 1)
    (mkCounted (mkPg ∅ 5 1 0) 0) PostureAllow 0 0).
  - simpl. unfold u32_max. lia.
  - simpl. lia.
  - repeat constructor; simpl; unfold WINDOW, ns_per_sec; lia.
Defined.
