(* ===== verification/ChallengeStore.v ===== *)
(** * Challenge nonces
    (crates/acdp-registry-auth/src/challenge_store.rs, lib.rs)

    The [ChallengeStore] trait as a class, its in-memory, SQLite and Postgres
    implementations, and the contract the auth service relies on: a nonce is
    redeemed at most once. *)

From stdpp Require Import pretty.
From S2P Require Import Prelude.

Open Scope Z_scope.

(** ** Errors *)

Inductive AuthError : Type :=
  | AE_Config (m : string)
  | AE_Storage (m : string)
  | ChallengeUnknown (m : string)
  | ChallengeExpired
  | ChallengeReplay (m : string)
  | Resolution (m : string)
  | ResolutionUnreachable (m : string)
  | KeyIdMalformed (m : string)
  | KeyIdMismatch
  | KeyNotAssertion
  | UnsupportedDidMethod (m : string)
  | AlgorithmNotSupported (m : string)
  | SignatureInvalid (m : string)
  | TokenInvalid (m : string)
  | AE_Internal (m : string).

(** ** The trait *)

Record ChallengeRecord : Type := mkChallenge {
  ch_nonce : string;
  ch_agent_id : string;
  ch_expires_at : Z
}.

(** A statement sent to a database may fail, before or after taking effect. *)
Record SqlxError : Type := mkSqlxError {
  db_code : option string;
  db_message : string;
  is_database : bool
}.

Inductive DbOutcome : Type :=
  | DbOk
  | DbFail (e : SqlxError) (took_effect : bool).

(** What one call reads of its environment. *)
Record CallEnv : Type := mkCallEnv {
  now_utc : Z;
  outcome : DbOutcome
}.

Class ChallengeStore (S : Type) := {
  put : S → CallEnv → ChallengeRecord → result unit AuthError * S;
  take : S → CallEnv → string → result (option ChallengeRecord) AuthError * S;
  evict_expired : S → CallEnv → Z → result unit AuthError * S
}.

(** ** In memory *)

(** A [Mutex<HashMap>]; the lock is poisoned once a holder has panicked. *)
Record InMemoryChallengeStore : Type := mkMemChallenges {
  poisoned : bool;
  inner : gmap string ChallengeRecord
}.

Definition lock_poisoned : AuthError := AE_Internal "lock poisoned".

Definition mem_put (s : InMemoryChallengeStore) (env : CallEnv) (record : ChallengeRecord) :
    result unit AuthError * InMemoryChallengeStore :=
  if poisoned s then (Err lock_poisoned, s)
  else if bool_decide (is_Some (inner s !! ch_nonce record)) then
    (Err (ChallengeReplay "duplicate nonce"), s)
  else (Ok tt, mkMemChallenges false (<[ch_nonce record := record]> (inner s))).

Definition mem_take (s : InMemoryChallengeStore) (env : CallEnv) (nonce : string) :
    result (option ChallengeRecord) AuthError * InMemoryChallengeStore :=
  if poisoned s then (Err lock_poisoned, s)
  else
    let rec := inner s !! nonce in
    let s' := mkMemChallenges false (delete nonce (inner s)) in
    match rec with
    | Some r => if ch_expires_at r <=? now_utc env then (Ok None, s') else (Ok (Some r), s')
    | None => (Ok None, s')
    end.

Definition mem_evict_expired (s : InMemoryChallengeStore) (env : CallEnv) (now : Z) :
    result unit AuthError * InMemoryChallengeStore :=
  if poisoned s then (Err lock_poisoned, s)
  else (Ok tt, mkMemChallenges false (filter (λ kr, now < ch_expires_at kr.2) (inner s))).

#[export] Instance memory_challenges : ChallengeStore InMemoryChallengeStore := {|
  put := mem_put; take := mem_take; evict_expired := mem_evict_expired |}.

(** ** The SQL backends *)

(** Substring search, for [map_insert_err]. *)
Fixpoint contains_str (needle s : string) : bool :=
  String.prefix needle s ||
  match s with
  | EmptyString => false
  | String.String _ s' => contains_str needle s'
  end.

Definition map_insert_err (e : SqlxError) : AuthError :=
  if is_database e &&
     (bool_decide (db_code e = Some "23505") || bool_decide (db_code e = Some "2067") ||
      contains_str "unique constraint" (to_ascii_lowercase (db_message e)))
  then ChallengeReplay "duplicate nonce"
  else AE_Storage (db_message e).

(** What a database answers to an insert that violates the primary key. *)
Definition unique_violation (code : string) : SqlxError :=
  mkSqlxError (Some code) "UNIQUE constraint failed: auth_challenges.nonce" true.

(** The [auth_challenges] table, keyed by nonce. [column_time] is what a
    stored timestamp reads back as: SQLite keeps the RFC 3339 text, Postgres'
    [timestamptz] keeps microseconds. *)
Record SqlChallenges : Type := mkSqlChallenges {
  auth_challenges : gmap string (string * Z)
}.

Definition sqlite_time (t : Z) : Z := t.
Definition pg_time (t : Z) : Z := t / 1000 * 1000.

Section sql.
Context (column_time : Z → Z) (violation_code : string).

Definition sql_insert (t : gmap string (string * Z)) (record : ChallengeRecord) :
    gmap string (string * Z) :=
  <[ch_nonce record := (ch_agent_id record, column_time (ch_expires_at record))]> t.

(** [INSERT INTO auth_challenges ...]. *)
Definition sql_put (s : SqlChallenges) (env : CallEnv) (record : ChallengeRecord) :
    result unit AuthError * SqlChallenges :=
  let t := auth_challenges s in
  match t !! ch_nonce record with
  | Some _ =>
    (Err (map_insert_err (match outcome env with
                          | DbOk => unique_violation violation_code
                          | DbFail e _ => e
                          end)), s)
  | None =>
    match outcome env with
    | DbOk => (Ok tt, mkSqlChallenges (sql_insert t record))
    | DbFail e took_effect =>
      (Err (map_insert_err e),
       mkSqlChallenges (if took_effect then sql_insert t record else t))
    end
  end.

(** [DELETE FROM auth_challenges WHERE nonce = ? RETURNING agent_id, expires_at]. *)
Definition sql_take (s : SqlChallenges) (env : CallEnv) (nonce : string) :
    result (option ChallengeRecord) AuthError * SqlChallenges :=
  let t := auth_challenges s in
  match outcome env with
  | DbFail e took_effect =>
    (Err (AE_Storage (db_message e)), mkSqlChallenges (if took_effect then delete nonce t else t))
  | DbOk =>
    let s' := mkSqlChallenges (delete nonce t) in
    match t !! nonce with
    | None => (Ok None, s')
    | Some (agent_id, expires_at) =>
      if (expires_at <=? now_utc env) || bool_decide (agent_id = "") then (Ok None, s')
      else (Ok (Some (mkChallenge nonce agent_id expires_at)), s')
    end
  end.

(** [DELETE FROM auth_challenges WHERE expires_at <= ?]. *)
Definition sql_evict_expired (s : SqlChallenges) (env : CallEnv) (now : Z) :
    result unit AuthError * SqlChallenges :=
  let kept := filter (λ kr, column_time now < kr.2.2) (auth_challenges s) in
  match outcome env with
  | DbOk => (Ok tt, mkSqlChallenges kept)
  | DbFail e took_effect =>
    (Err (AE_Storage (db_message e)),
     mkSqlChallenges (if took_effect then kept else auth_challenges s))
  end.

End sql.

Record SqliteChallengeStore : Type := mkSqliteChallenges { sqlite_pool : SqlChallenges }.
Record PgChallengeStore : Type := mkPgChallenges { pg_pool : SqlChallenges }.

Definition sqlite_put (s : SqliteChallengeStore) (env : CallEnv) (r : ChallengeRecord) :=
  let '(o, p) := sql_put sqlite_time "2067" (sqlite_pool s) env r in (o, mkSqliteChallenges p).
Definition sqlite_take (s : SqliteChallengeStore) (env : CallEnv) (nonce : string) :=
  let '(o, p) := sql_take (sqlite_pool s) env nonce in (o, mkSqliteChallenges p).
Definition sqlite_evict_expired (s : SqliteChallengeStore) (env : CallEnv) (now : Z) :=
  let '(o, p) := sql_evict_expired sqlite_time (sqlite_pool s) env now in
  (o, mkSqliteChallenges p).

Definition pg_put (s : PgChallengeStore) (env : CallEnv) (r : ChallengeRecord) :=
  let '(o, p) := sql_put pg_time "23505" (pg_pool s) env r in (o, mkPgChallenges p).
Definition pg_take (s : PgChallengeStore) (env : CallEnv) (nonce : string) :=
  let '(o, p) := sql_take (pg_pool s) env nonce in (o, mkPgChallenges p).
Definition pg_evict_expired (s : PgChallengeStore) (env : CallEnv) (now : Z) :=
  let '(o, p) := sql_evict_expired pg_time (pg_pool s) env now in (o, mkPgChallenges p).

#[export] Instance sqlite_challenges : ChallengeStore SqliteChallengeStore := {|
  put := sqlite_put; take := sqlite_take; evict_expired := sqlite_evict_expired |}.
#[export] Instance pg_challenges : ChallengeStore PgChallengeStore := {|
  put := pg_put; take := pg_take; evict_expired := pg_evict_expired |}.

(** ** The contract *)

(** What every backend promises, over the nonces it holds (with their agent
    and their stored expiry). A database error may leave the statement's
    effect either way; nothing else is left open. *)
Class ChallengeContract (S : Type) `{ChallengeStore S} := {
  holds : S → gmap string (string * Z);
  take_spec : ∀ s env n r s', take s env n = (r, s') →
    match r with
    | Ok o => holds s' = delete n (holds s) ∧
        ∀ rec, o = Some rec →
          ch_nonce rec = n ∧ holds s !! n = Some (ch_agent_id rec, ch_expires_at rec) ∧
          now_utc env < ch_expires_at rec
    | Err _ => holds s' = holds s ∨ holds s' = delete n (holds s)
    end;
  put_spec : ∀ s env rec r s', put s env rec = (r, s') →
    match r with
    | Ok _ => holds s !! ch_nonce rec = None ∧ ∃ e,
        holds s' = <[ch_nonce rec := (ch_agent_id rec, e)]> (holds s) ∧
        e <= ch_expires_at rec ∧ timestamp e = timestamp (ch_expires_at rec)
    | Err _ => holds s' = holds s ∨
        holds s !! ch_nonce rec = None ∧ ∃ e,
          holds s' = <[ch_nonce rec := (ch_agent_id rec, e)]> (holds s)
    end;
  evict_spec : ∀ s env now r s', evict_expired s env now = (r, s') →
    holds s' ⊆ holds s ∧
    ∀ n a e, holds s !! n = Some (a, e) → now < e → holds s' !! n = Some (a, e)
}.

(** A run of calls, and the number of times a nonce was redeemed and put. *)
Inductive ChallengeOp : Type :=
  | OpPut (rec : ChallengeRecord)
  | OpTake (nonce : string)
  | OpEvict (now : Z).

Fixpoint redemptions {S : Type} `{ChallengeStore S} (n : string) (s : S)
    (ops : list (CallEnv * ChallengeOp)) : nat :=
  match ops with
  | [] => 0
  | (env, OpPut rec) :: rest => redemptions n (snd (put s env rec)) rest
  | (env, OpEvict now) :: rest => redemptions n (snd (evict_expired s env now)) rest
  | (env, OpTake n') :: rest =>
    let '(r, s') := take s env n' in
    (match r with
     | Ok (Some _) => if bool_decide (n' = n) then 1 else 0
     | _ => 0
     end + redemptions n s' rest)%nat
  end.

Fixpoint puts (n : string) (ops : list (CallEnv * ChallengeOp)) : nat :=
  match ops with
  | [] => 0
  | (_, OpPut rec) :: rest =>
    ((if bool_decide (ch_nonce rec = n) then 1 else 0) + puts n rest)%nat
  | _ :: rest => puts n rest
  end.

(** ** The backends meet the contract *)

Definition view (r : ChallengeRecord) : string * Z := (ch_agent_id r, ch_expires_at r).

(** A record is stored under its own nonce. *)
Definition keyed (m : gmap string ChallengeRecord) : Prop :=
  ∀ n r, m !! n = Some r → ch_nonce r = n.

Lemma mem_put_keyed s env rec :
  keyed (inner s) → keyed (inner (snd (mem_put s env rec))).
Proof.
  intros Hk. unfold mem_put. repeat case_if; simpl; try done.
  intros n r. rewrite lookup_insert. case_decide; [intros ?; by simplify_eq|apply Hk].
Qed.

(** The in-memory store holds its map; every operation keeps it keyed, so the
    contract is stated on the keyed stores. *)
Record KeyedMemory : Type := mkKeyed { mem : InMemoryChallengeStore; mem_keyed : keyed (inner mem) }.

Lemma mem_take_keyed s env n : keyed (inner s) → keyed (inner (snd (mem_take s env n))).
Proof.
  intros Hk. unfold mem_take. case_if; [done|].
  assert (keyed (delete n (inner s))).
  { intros n' r Hr. apply lookup_delete_Some in Hr as [_ Hr]. by apply Hk. }
  destruct (inner s !! n); [case_if|]; done.
Qed.

Lemma mem_evict_keyed s env now : keyed (inner s) → keyed (inner (snd (mem_evict_expired s env now))).
Proof.
  intros Hk. unfold mem_evict_expired. case_if; [done|]. simpl.
  intros n r Hr. apply map_lookup_filter_Some in Hr as [Hr _]. by apply Hk.
Qed.

#[export] Instance keyed_memory : ChallengeStore KeyedMemory := {|
  put s env r := (fst (mem_put (mem s) env r),
                  mkKeyed _ (mem_put_keyed (mem s) env r (mem_keyed s)));
  take s env n := (fst (mem_take (mem s) env n),
                   mkKeyed _ (mem_take_keyed (mem s) env n (mem_keyed s)));
  evict_expired s env now := (fst (mem_evict_expired (mem s) env now),
                   mkKeyed _ (mem_evict_keyed (mem s) env now (mem_keyed s)))
|}.

#[export] Program Instance memory_contract : ChallengeContract KeyedMemory := {|
  holds s := view <$> inner (mem s)
|}.
Next Obligation.
  intros [s Hk] env n r s' Heq. injection Heq as <- <-. simpl.
  unfold mem_take. case_if; simpl; [by left|].
  destruct (inner s !! n) as [rec|] eqn:E; [case_if|]; simpl; rewrite fmap_delete;
    (split; [done|]); intros rec' [= <-].
  rewrite lookup_fmap E. split; [by apply (Hk n)|]. by split.
Qed.
Next Obligation.
  intros [s Hk] env rec r s' Heq. injection Heq as <- <-. simpl.
  unfold mem_put. destruct (poisoned s); [by left|]. case_bool_decide; [by left|]. simpl.
  split.
  - rewrite lookup_fmap. destruct (inner s !! ch_nonce rec) eqn:E; [|done].
    exfalso. eauto.
  - exists (ch_expires_at rec). rewrite fmap_insert. split; [done|]. split; [lia|done].
Qed.
Next Obligation.
  intros [s Hk] env now r s' Heq. injection Heq as <- <-. simpl.
  unfold mem_evict_expired. case_if; simpl; [done|]. split.
  - apply map_fmap_mono, map_filter_subseteq.
  - intros n a e. rewrite !lookup_fmap.
    destruct (inner s !! n) as [rec|] eqn:E; [|done]. simpl. intros [= <- <-] Hlt.
    rewrite (map_lookup_filter_Some_2 _ _ n rec) //.
Qed.

Lemma pg_time_le t : pg_time t <= t.
Proof. unfold pg_time. pose proof (Z.mul_div_le t 1000). lia. Qed.

Lemma pg_time_timestamp t : timestamp (pg_time t) = timestamp t.
Proof.
  unfold timestamp, pg_time, ns_per_sec.
  change 1000000000 with (1000 * 1000000). rewrite -!Z.div_div; try lia.
  by rewrite Z.div_mul.
Qed.

(** A faithful column: reads back at most the stored time, in its second. *)
Definition faithful_column (column_time : Z → Z) : Prop :=
  ∀ t, column_time t <= t ∧ timestamp (column_time t) = timestamp t.

Section sql_contract.
Context (column_time : Z → Z) (violation_code : string).
Context (Hcol : faithful_column column_time).

Lemma sql_take_spec s env n r s' :
  sql_take s env n = (r, s') →
  match r with
  | Ok o => auth_challenges s' = delete n (auth_challenges s) ∧
      ∀ rec, o = Some rec →
        ch_nonce rec = n ∧ auth_challenges s !! n = Some (ch_agent_id rec, ch_expires_at rec) ∧
        now_utc env < ch_expires_at rec
  | Err _ => auth_challenges s' = auth_challenges s ∨
             auth_challenges s' = delete n (auth_challenges s)
  end.
Proof.
  unfold sql_take. destruct (outcome env) as [|e [|]]; [|intros [= <- <-]; simpl; tauto..].
  destruct (auth_challenges s !! n) as [[a e]|] eqn:E; [case_if|]; intros [= <- <-]; simpl;
    (split; [done|]); intros rec' [= <-]. simpl. by split.
Qed.

Lemma sql_put_spec s env rec r s' :
  sql_put column_time violation_code s env rec = (r, s') →
  match r with
  | Ok _ => auth_challenges s !! ch_nonce rec = None ∧ ∃ e,
      auth_challenges s' = <[ch_nonce rec := (ch_agent_id rec, e)]> (auth_challenges s) ∧
      e <= ch_expires_at rec ∧ timestamp e = timestamp (ch_expires_at rec)
  | Err _ => auth_challenges s' = auth_challenges s ∨
      auth_challenges s !! ch_nonce rec = None ∧ ∃ e,
        auth_challenges s' = <[ch_nonce rec := (ch_agent_id rec, e)]> (auth_challenges s)
  end.
Proof.
  unfold sql_put. destruct (auth_challenges s !! ch_nonce rec) as [[a e]|] eqn:E.
  { intros [= <- <-]. by left. }
  destruct (outcome env) as [|e took]; intros [= <- <-]; simpl.
  - split; [done|]. eexists. split; [done|]. apply Hcol.
  - destruct took; simpl; [right|by left]. eauto.
Qed.

Lemma sql_evict_spec s env now r s' :
  sql_evict_expired column_time s env now = (r, s') →
  auth_challenges s' ⊆ auth_challenges s ∧
  ∀ n a e, auth_challenges s !! n = Some (a, e) → now < e →
    auth_challenges s' !! n = Some (a, e).
Proof.
  unfold sql_evict_expired. intros Heq.
  assert (auth_challenges s' = auth_challenges s ∨ auth_challenges s' =
    filter (λ kr, column_time now < kr.2.2) (auth_challenges s)) as [->| ->].
  { destruct (outcome env) as [|e []]; injection Heq as <- <-; simpl; tauto. }
  { done. }
  split; [apply map_filter_subseteq|]. intros n a e Hn Hlt.
  apply map_lookup_filter_Some_2; [done|]. simpl. pose proof (proj1 (Hcol now)). lia.
Qed.
End sql_contract.

Lemma sqlite_time_faithful : faithful_column sqlite_time.
Proof. intros t. unfold sqlite_time. split; [lia|done]. Qed.

Lemma pg_time_faithful : faithful_column pg_time.
Proof. intros t. split; [apply pg_time_le|apply pg_time_timestamp]. Qed.

#[export] Program Instance sqlite_contract : ChallengeContract SqliteChallengeStore := {|
  holds s := auth_challenges (sqlite_pool s)
|}.
Next Obligation.
  intros s env n r s'. simpl. unfold sqlite_take.
  destruct (sql_take _ env n) as [o p] eqn:E. intros [= <- <-]. exact (sql_take_spec _ _ _ _ _ E).
Qed.
Next Obligation.
  intros s env rec r s'. simpl. unfold sqlite_put.
  destruct (sql_put _ _ _ env rec) as [o p] eqn:E. intros [= <- <-].
  exact (sql_put_spec _ _ sqlite_time_faithful _ _ _ _ _ E).
Qed.
Next Obligation.
  intros s env now r s'. simpl. unfold sqlite_evict_expired.
  destruct (sql_evict_expired _ _ env now) as [o p] eqn:E. intros [= <- <-].
  exact (sql_evict_spec _ sqlite_time_faithful _ _ _ _ _ E).
Qed.

#[export] Program Instance pg_contract : ChallengeContract PgChallengeStore := {|
  holds s := auth_challenges (pg_pool s)
|}.
Next Obligation.
  intros s env n r s'. simpl. unfold pg_take.
  destruct (sql_take _ env n) as [o p] eqn:E. intros [= <- <-]. exact (sql_take_spec _ _ _ _ _ E).
Qed.
Next Obligation.
  intros s env rec r s'. simpl. unfold pg_put.
  destruct (sql_put _ _ _ env rec) as [o p] eqn:E. intros [= <- <-].
  exact (sql_put_spec _ _ pg_time_faithful _ _ _ _ _ E).
Qed.
Next Obligation.
  intros s env now r s'. simpl. unfold pg_evict_expired.
  destruct (sql_evict_expired _ _ env now) as [o p] eqn:E. intros [= <- <-].
  exact (sql_evict_spec _ pg_time_faithful _ _ _ _ _ E).
Qed.

(** ** Theorems *)

Lemma redemptions_bound {S} `{ChallengeContract S} n ops : ∀ s : S,
  (redemptions n s ops <= (if bool_decide (is_Some (holds s !! n)) then 1 else 0) + puts n ops)%nat.
Proof.
  induction ops as [|[env [rec|n'|now]] ops IH]; intros s; cbn [redemptions puts]; [lia| | |].
  - destruct (put s env rec) as [r s'] eqn:E. pose proof (put_spec s env rec r s' E) as Hs.
    specialize (IH s'). simpl.
    assert (holds s' = holds s ∨
            ∃ v, holds s' = <[ch_nonce rec := v]> (holds s)) as [Hh|[v Hh]].
    { destruct r; [destruct Hs as (_ & e & -> & _); eauto|].
      destruct Hs as [->|(_ & e & ->)]; eauto. }
    + rewrite Hh in IH. case_ifs; lia.
    + rewrite Hh lookup_insert in IH.
      destruct (decide (ch_nonce rec = n)) as [->|Hne].
      * rewrite (bool_decide_true (n = n)) //. case_ifs; lia.
      * case_ifs; lia.
  - destruct (take s env n') as [r s'] eqn:E. pose proof (take_spec s env n' r s' E) as Hs.
    specialize (IH s').
    destruct (decide (n' = n)) as [->|Hne].
    + destruct r as [[rec|]|e]; rewrite ?(bool_decide_true (n = n)) //.
      * destruct Hs as [Hh Hrec]. destruct (Hrec rec eq_refl) as (_ & Hn & _).
        rewrite Hh lookup_delete_eq in IH. rewrite bool_decide_true; [|by rewrite Hn; eauto].
        rewrite bool_decide_false in IH; [|by intros [??]]. lia.
      * destruct Hs as [Hh _]. rewrite Hh lookup_delete_eq in IH.
        rewrite bool_decide_false in IH; [|by intros [??]]. lia.
      * destruct Hs as [Hh|Hh]; rewrite Hh in IH; [lia|]. rewrite lookup_delete_eq in IH.
        rewrite bool_decide_false in IH; [|by intros [??]]. lia.
    + rewrite (bool_decide_false (n' = n)) //.
      assert (holds s' !! n = holds s !! n) as Hn.
      { destruct r as [o|]; [destruct Hs as [-> _]|destruct Hs as [->| ->]];
          rewrite ?lookup_delete_ne //. }
      rewrite Hn in IH. destruct r as [[?|]|]; lia.
  - destruct (evict_expired s env now) as [r s'] eqn:E.
    destruct (evict_spec s env now r s' E) as [Hsub _]. specialize (IH s'). simpl.
    assert (is_Some (holds s' !! n) → is_Some (holds s !! n)).
    { intros [v Hv]. exists v. by eapply lookup_weaken. }
    case_ifs; try lia; tauto.
Qed.

(** C19: a nonce is redeemed at most once per issuance, on every backend.
    Over any run of [put], [take] and [evict_expired] calls, in any order and
    with any database failures in between, the number of times a nonce is
    redeemed is at most the number of times it was put, plus one if the store
    already held it: no interleaving of token requests replays a challenge. *)
Theorem nonce_redeemed_at_most_once {S : Type} `{ChallengeContract S} (n : string) (s : S)
    (ops : list (CallEnv * ChallengeOp)) :
  (redemptions n s ops
    <= (if bool_decide (is_Some (holds s !! n)) then 1 else 0) + puts n ops)%nat.
Proof. apply redemptions_bound. Qed.

(** Two racing redemptions on Postgres: one wins. *)
Example nonce_race :
  let env := mkCallEnv 5 DbOk in
  redemptions "n" (mkPgChallenges (mkSqlChallenges ∅))
    [(env, OpPut (mkChallenge "n" "did:web:a" 1000000000)); (env, OpTake "n"); (env, OpTake "n")]
  = 1%nat.
Proof. vm_compute. reflexivity. Qed.
