(* ===== verification/Revocation.v ===== *)
(** * Token revocation
    (crates/acdp-registry-auth/src/revocation_store.rs, jwt.rs,
    revocation_poller.rs)

    The revocation index in its three backends, the validator that consults
    it, and the poller that feeds it from peer registries. *)

From S2P Require Import Prelude ChallengeStore.

Open Scope Z_scope.

(** ** The store *)

(** The instant at which a tombstone stops being needed. *)
Definition tombstone_cutoff (now leeway_seconds : Z) : Z := now - seconds leeway_seconds.

Record RevocationRecord : Type := mkRevocation {
  rv_jti : string;
  rv_agent_did : string;
  rv_expires_at : Z
}.

Class RevocationStore (S : Type) := {
  record_issued : S → CallEnv → RevocationRecord → result unit AuthError * S;
  revoke : S → CallEnv → RevocationRecord → result unit AuthError * S;
  is_revoked : S → CallEnv → string → Z → result bool AuthError;
  owner_of : S → CallEnv → string → result (option string) AuthError;
  rev_evict_expired : S → CallEnv → Z → result unit AuthError * S;
  get_revocation_cursor : S → CallEnv → string → result (option Z) AuthError;
  set_revocation_cursor : S → CallEnv → string → Z → result unit AuthError * S
}.

(** *** In memory *)

Record InMemoryEntry : Type := mkEntry { entry_record : RevocationRecord; entry_revoked : bool }.

Record InMemoryRevocationStore : Type := mkMemRevocations {
  rev_poisoned : bool;
  rev_inner : gmap string InMemoryEntry;
  cursors_poisoned : bool;
  cursors : gmap string Z
}.

Definition set_inner (s : InMemoryRevocationStore) (m : gmap string InMemoryEntry) :
    InMemoryRevocationStore :=
  mkMemRevocations (rev_poisoned s) m (cursors_poisoned s) (cursors s).

Definition mem_record_issued (s : InMemoryRevocationStore) (env : CallEnv)
    (record : RevocationRecord) : result unit AuthError * InMemoryRevocationStore :=
  if rev_poisoned s then (Err lock_poisoned, s)
  else
    let entry := default (mkEntry record false) (rev_inner s !! rv_jti record) in
    let entry := if negb (entry_revoked entry) then mkEntry record (entry_revoked entry)
                 else entry in
    (Ok tt, set_inner s (<[rv_jti record := entry]> (rev_inner s))).

Definition mem_revoke (s : InMemoryRevocationStore) (env : CallEnv)
    (record : RevocationRecord) : result unit AuthError * InMemoryRevocationStore :=
  if rev_poisoned s then (Err lock_poisoned, s)
  else
    let entry := match rev_inner s !! rv_jti record with
                 | Some e => mkEntry (entry_record e) true
                 | None => mkEntry record true
                 end in
    (Ok tt, set_inner s (<[rv_jti record := entry]> (rev_inner s))).

Definition mem_is_revoked (s : InMemoryRevocationStore) (env : CallEnv) (jti : string)
    (cutoff : Z) : result bool AuthError :=
  if rev_poisoned s then Err lock_poisoned
  else Ok (match rev_inner s !! jti with
           | Some e => entry_revoked e && (cutoff <? rv_expires_at (entry_record e))
           | None => false
           end).

Definition mem_owner_of (s : InMemoryRevocationStore) (env : CallEnv) (jti : string) :
    result (option string) AuthError :=
  if rev_poisoned s then Err lock_poisoned
  else Ok ((λ e, rv_agent_did (entry_record e)) <$> rev_inner s !! jti).

Definition mem_rev_evict_expired (s : InMemoryRevocationStore) (env : CallEnv) (cutoff : Z) :
    result unit AuthError * InMemoryRevocationStore :=
  if rev_poisoned s then (Err lock_poisoned, s)
  else (Ok tt, set_inner s
          (filter (λ ke, cutoff < rv_expires_at (entry_record ke.2)) (rev_inner s))).

Definition cursor_lock_poisoned : AuthError := AE_Internal "cursor lock poisoned".

Definition mem_get_cursor (s : InMemoryRevocationStore) (env : CallEnv) (issuer : string) :
    result (option Z) AuthError :=
  if cursors_poisoned s then Err cursor_lock_poisoned else Ok (cursors s !! issuer).

Definition mem_set_cursor (s : InMemoryRevocationStore) (env : CallEnv) (issuer : string)
    (cursor_ms : Z) : result unit AuthError * InMemoryRevocationStore :=
  if cursors_poisoned s then (Err cursor_lock_poisoned, s)
  else (Ok tt, mkMemRevocations (rev_poisoned s) (rev_inner s) false
                 (<[issuer := cursor_ms]> (cursors s))).

#[export] Instance memory_revocations : RevocationStore InMemoryRevocationStore := {|
  record_issued := mem_record_issued; revoke := mem_revoke; is_revoked := mem_is_revoked;
  owner_of := mem_owner_of; rev_evict_expired := mem_rev_evict_expired;
  get_revocation_cursor := mem_get_cursor; set_revocation_cursor := mem_set_cursor |}.

(** *** SQL *)

Record IssuedRow : Type := mkIssuedRow {
  it_agent_did : string;
  it_expires_at : Z;
  it_revoked : bool
}.

(** The [issued_tokens] and [auth_revocation_poll_cursors] tables. *)
Record SqlRevocations : Type := mkSqlRevocations {
  issued_tokens : gmap string IssuedRow;
  poll_cursors : gmap string Z
}.

(** A statement's new state is kept when the statement took effect. *)
Definition sql_exec {T : Type} (env : CallEnv) (before after : T) : result unit AuthError * T :=
  match outcome env with
  | DbOk => (Ok tt, after)
  | DbFail e took_effect => (Err (AE_Storage (db_message e)), if took_effect then after else before)
  end.

Definition sql_query {T : Type} (env : CallEnv) (answer : T) : result T AuthError :=
  match outcome env with
  | DbOk => Ok answer
  | DbFail e _ => Err (AE_Storage (db_message e))
  end.

Section sql_revocations.
Context (column_time : Z → Z).

(** [INSERT ... VALUES (?, ?, ?, 0) ON CONFLICT(jti) DO NOTHING]. *)
Definition sql_record_issued (s : SqlRevocations) (env : CallEnv) (r : RevocationRecord) :
    result unit AuthError * SqlRevocations :=
  let after :=
    match issued_tokens s !! rv_jti r with
    | Some _ => issued_tokens s
    | None => <[rv_jti r := mkIssuedRow (rv_agent_did r) (column_time (rv_expires_at r)) false]>
                (issued_tokens s)
    end in
  sql_exec env s (mkSqlRevocations after (poll_cursors s)).

(** [INSERT ... VALUES (?, ?, ?, 1) ON CONFLICT(jti) DO UPDATE SET revoked = 1]. *)
Definition sql_revoke (s : SqlRevocations) (env : CallEnv) (r : RevocationRecord) :
    result unit AuthError * SqlRevocations :=
  let row :=
    match issued_tokens s !! rv_jti r with
    | Some row => mkIssuedRow (it_agent_did row) (it_expires_at row) true
    | None => mkIssuedRow (rv_agent_did r) (column_time (rv_expires_at r)) true
    end in
  sql_exec env s (mkSqlRevocations (<[rv_jti r := row]> (issued_tokens s)) (poll_cursors s)).

(** [SELECT expires_at FROM issued_tokens WHERE jti = ? AND revoked = 1]. *)
Definition sql_is_revoked (s : SqlRevocations) (env : CallEnv) (jti : string) (cutoff : Z) :
    result bool AuthError :=
  sql_query env
    match issued_tokens s !! jti with
    | Some row => if it_revoked row then cutoff <? it_expires_at row else false
    | None => false
    end.

Definition sql_owner_of (s : SqlRevocations) (env : CallEnv) (jti : string) :
    result (option string) AuthError :=
  sql_query env (it_agent_did <$> issued_tokens s !! jti).

(** [DELETE FROM issued_tokens WHERE expires_at <= ?]. *)
Definition sql_rev_evict_expired (s : SqlRevocations) (env : CallEnv) (cutoff : Z) :
    result unit AuthError * SqlRevocations :=
  sql_exec env s
    (mkSqlRevocations (filter (λ kr, column_time cutoff < it_expires_at kr.2) (issued_tokens s))
       (poll_cursors s)).

Definition sql_get_cursor (s : SqlRevocations) (env : CallEnv) (issuer : string) :
    result (option Z) AuthError :=
  sql_query env (poll_cursors s !! issuer).

Definition sql_set_cursor (s : SqlRevocations) (env : CallEnv) (issuer : string) (cursor_ms : Z) :
    result unit AuthError * SqlRevocations :=
  sql_exec env s (mkSqlRevocations (issued_tokens s) (<[issuer := cursor_ms]> (poll_cursors s))).

End sql_revocations.

Record SqliteRevocationStore : Type := mkSqliteRev { sqlite_rev : SqlRevocations }.
Record PgRevocationStore : Type := mkPgRev { pg_rev : SqlRevocations }.

#[export] Instance sqlite_revocations : RevocationStore SqliteRevocationStore := {|
  record_issued s env r :=
    let '(o, p) := sql_record_issued sqlite_time (sqlite_rev s) env r in (o, mkSqliteRev p);
  revoke s env r := let '(o, p) := sql_revoke sqlite_time (sqlite_rev s) env r in (o, mkSqliteRev p);
  is_revoked s := sql_is_revoked (sqlite_rev s);
  owner_of s := sql_owner_of (sqlite_rev s);
  rev_evict_expired s env c :=
    let '(o, p) := sql_rev_evict_expired sqlite_time (sqlite_rev s) env c in (o, mkSqliteRev p);
  get_revocation_cursor s := sql_get_cursor (sqlite_rev s);
  set_revocation_cursor s env i c :=
    let '(o, p) := sql_set_cursor (sqlite_rev s) env i c in (o, mkSqliteRev p) |}.

#[export] Instance pg_revocations : RevocationStore PgRevocationStore := {|
  record_issued s env r :=
    let '(o, p) := sql_record_issued pg_time (pg_rev s) env r in (o, mkPgRev p);
  revoke s env r := let '(o, p) := sql_revoke pg_time (pg_rev s) env r in (o, mkPgRev p);
  is_revoked s := sql_is_revoked (pg_rev s);
  owner_of s := sql_owner_of (pg_rev s);
  rev_evict_expired s env c :=
    let '(o, p) := sql_rev_evict_expired pg_time (pg_rev s) env c in (o, mkPgRev p);
  get_revocation_cursor s := sql_get_cursor (pg_rev s);
  set_revocation_cursor s env i c :=
    let '(o, p) := sql_set_cursor (pg_rev s) env i c in (o, mkPgRev p) |}.

(** ** The validator *)

Record AcdpClaims : Type := mkAcdpClaims { cl_registry : string; cl_key_id : string }.

Record BearerClaims : Type := mkClaims {
  cl_iss : string;
  cl_sub : string;
  cl_aud : string;
  cl_jti : string;
  cl_iat : Z;
  cl_exp : Z;
  cl_acdp : AcdpClaims;
  cl_tenant : option string
}.

Inductive Algorithm : Type := HS256 | EdDSA.

(** The options [JwtSigner::validate] sets on the decoder. *)
Record Validation : Type := mkValidation {
  v_algorithm : Algorithm;
  v_issuer : string;
  v_audience : string;
  v_required_spec_claims : list string;
  v_validate_exp : bool;
  v_leeway : Z
}.

(** The signing material is kept as its algorithm and key id; the keys belong
    to the encoder and the decoder. *)
Record JwtSigner : Type := mkSigner {
  material_algorithm : Algorithm;
  material_kid : string;
  issuer : string;
  registry_authority : string;
  leeway_seconds : Z;
  with_revocations : bool
}.

Definition leeway_of (s : JwtSigner) : Z := leeway_seconds s.

Section validator.
(** [jsonwebtoken::decode]: the token's claims at an epoch second, or an error
    message. *)
Context (jwt_decode : Validation → Z → string → result BearerClaims string).
Context {S : Type} `{RevocationStore S}.

Definition JwtSigner_validation (s : JwtSigner) : Validation :=
  {| v_algorithm := material_algorithm s;
     v_issuer := issuer s;
     v_audience := registry_authority s;
     v_required_spec_claims := ["exp"; "iss"; "aud"];
     v_validate_exp := true;
     v_leeway := leeway_seconds s |}.

(** [JwtSigner::validate] at the store's [env] and the wall clock in it. *)
Definition JwtSigner_validate (s : JwtSigner) (store : S) (env : CallEnv) (token : string) :
    result BearerClaims AuthError :=
  and_then (map_err TokenInvalid
              (jwt_decode (JwtSigner_validation s) (timestamp (now_utc env)) token))
    (λ claims,
      if negb (bool_decide (cl_registry (cl_acdp claims) = registry_authority s)) then
        Err (TokenInvalid ("wrong registry: claim '" +:+ cl_registry (cl_acdp claims) +:+
                           "' vs '" +:+ registry_authority s +:+ "'"))
      else if with_revocations s then
        let cutoff := tombstone_cutoff (now_utc env) (leeway_seconds s) in
        and_then (is_revoked store env (cl_jti claims) cutoff)
          (λ revoked : bool,
            if revoked then
              Err (TokenInvalid ("token jti '" +:+ cl_jti claims +:+ "' has been revoked"))
            else Ok claims)
      else Ok claims).

End validator.

(** ** The poller *)

Record FeedEntry : Type := mkFeedEntry {
  fe_jti : string;
  fe_sub : string;
  fe_iss : string;
  fe_exp : Z;
  fe_revoked_at_ms : Z
}.

Record RevocationFeedConfig : Type := mkFeedConfig { cfg_issuer : string; poll_seconds : Z }.

Section poller.
(** [Utc.timestamp_opt(secs, 0).single()]: the instant of an epoch second, when
    the calendar can represent it. *)
Context (timestamp_opt : Z → option Z).
Context {S : Type} `{RevocationStore S}.

(** [apply_entries], one environment per entry: true when no entry failed. *)
Fixpoint apply_entries (entries : list (CallEnv * FeedEntry)) (store : S)
    (cfg : RevocationFeedConfig) : bool * S :=
  match entries with
  | [] => (true, store)
  | (env, e) :: rest =>
    if negb (bool_decide (fe_iss e = "")) && negb (bool_decide (fe_iss e = cfg_issuer cfg)) then
      apply_entries rest store cfg
    else
      match timestamp_opt (fe_exp e) with
      | None => apply_entries rest store cfg
      | Some expires_at =>
        let '(r, store') := revoke store env (mkRevocation (fe_jti e) (fe_sub e) expires_at) in
        let '(all_succeeded, store'') := apply_entries rest store' cfg in
        (is_ok r && all_succeeded, store'')
      end
  end.

(** What a fetch brings back: a page and its next cursor, or a failure. *)
Inductive Fetch : Type :=
  | Fetched (entries : list (CallEnv * FeedEntry)) (next : option Z)
  | FetchFailed (why : string).

(** The poller's cursor at startup. *)
Definition initial_cursor (store : S) (env : CallEnv) (cfg : RevocationFeedConfig) : Z :=
  match get_revocation_cursor store env (cfg_issuer cfg) with
  | Ok (Some c) => c
  | Ok None => 0
  | Err _ => 0
  end.

(** One turn of [poll_loop]; [env] is the environment of the cursor write. *)
Definition poll_once (cfg : RevocationFeedConfig) (env : CallEnv) (fetch : Fetch)
    (cursor : Z) (store : S) : Z * S :=
  match fetch with
  | FetchFailed _ => (cursor, store)
  | Fetched entries next =>
    let '(all_succeeded, store) := apply_entries entries store cfg in
    if all_succeeded then
      match next with
      | Some c => (c, snd (set_revocation_cursor store env (cfg_issuer cfg) c))
      | None => (cursor, store)
      end
    else (cursor, store)
  end.

Fixpoint poll_loop (cfg : RevocationFeedConfig) (turns : list (CallEnv * Fetch)) (cursor : Z)
    (store : S) : Z * S :=
  match turns with
  | [] => (cursor, store)
  | (env, fetch) :: rest =>
    let '(cursor, store) := poll_once cfg env fetch cursor store in
    poll_loop cfg rest cursor store
  end.
End poller.

(** ** The contract *)

Class RevocationContract (S : Type) `{RevocationStore S} := {
  rows : S → gmap string IssuedRow;
  record_issued_spec : ∀ s env r o s', record_issued s env r = (o, s') →
    (∀ j row, rows s !! j = Some row → it_revoked row = true → rows s' !! j = Some row) ∧
    (∀ j, j ≠ rv_jti r → rows s' !! j = rows s !! j) ∧
    (o = Ok tt → ∃ row, rows s' !! rv_jti r = Some row ∧
       (rows s !! rv_jti r = None →
        it_agent_did row = rv_agent_did r ∧ it_revoked row = false ∧
        timestamp (it_expires_at row) = timestamp (rv_expires_at r)));
  revoke_spec : ∀ s env r o s', revoke s env r = (o, s') →
    (∀ j row, rows s !! j = Some row → it_revoked row = true → rows s' !! j = Some row) ∧
    (∀ j, j ≠ rv_jti r → rows s' !! j = rows s !! j) ∧
    (o = Ok tt → ∃ row, rows s' !! rv_jti r = Some row ∧ it_revoked row = true ∧
       (∀ old, rows s !! rv_jti r = Some old →
          it_agent_did row = it_agent_did old ∧ it_expires_at row = it_expires_at old));
  is_revoked_spec : ∀ s env j cutoff b, is_revoked s env j cutoff = Ok b →
    b = match rows s !! j with
        | Some row => it_revoked row && (cutoff <? it_expires_at row)
        | None => false
        end;
  owner_of_spec : ∀ s env j o, owner_of s env j = Ok o → o = it_agent_did <$> rows s !! j;
  rev_evict_spec : ∀ s env cutoff o s', rev_evict_expired s env cutoff = (o, s') →
    rows s' ⊆ rows s ∧
    ∀ j row, rows s !! j = Some row → cutoff < it_expires_at row → rows s' !! j = Some row;
  set_cursor_spec : ∀ s env i c, rows (snd (set_revocation_cursor s env i c)) = rows s
}.

Definition entry_row (e : InMemoryEntry) : IssuedRow :=
  mkIssuedRow (rv_agent_did (entry_record e)) (rv_expires_at (entry_record e)) (entry_revoked e).

#[export] Program Instance mem_revocation_contract : RevocationContract InMemoryRevocationStore := {|
  rows s := entry_row <$> rev_inner s
|}.
Next Obligation.
  intros s env r o s' Heq. unfold record_issued, memory_revocations, mem_record_issued in Heq.
  destruct (rev_poisoned s); injection Heq as <- <-; [done|]. simpl.
  split; [|split].
  - intros j row. rewrite !lookup_fmap lookup_insert. case_decide as Hj; [subst j|done].
    destruct (rev_inner s !! rv_jti r) as [e|]; [|done]. simpl. intros [= <-]. simpl.
    intros ->. done.
  - intros j Hj. by rewrite !lookup_fmap lookup_insert_ne.
  - intros _. rewrite lookup_fmap lookup_insert_eq. simpl. eexists. split; [done|].
    rewrite lookup_fmap. by destruct (rev_inner s !! rv_jti r).
Qed.
Next Obligation.
  intros s env r o s' Heq. unfold revoke, memory_revocations, mem_revoke in Heq.
  destruct (rev_poisoned s); injection Heq as <- <-; [done|]. simpl.
  split; [|split].
  - intros j row. rewrite !lookup_fmap lookup_insert. case_decide as Hj; [subst j|done].
    destruct (rev_inner s !! rv_jti r) as [e|]; [|done]. simpl. intros [= <-]. simpl.
    unfold entry_row. simpl. by intros ->.
  - intros j Hj. by rewrite !lookup_fmap lookup_insert_ne.
  - intros _. rewrite lookup_fmap lookup_insert_eq. simpl. eexists. split; [done|].
    rewrite lookup_fmap. destruct (rev_inner s !! rv_jti r) as [e|]; simpl; (split; [done|]);
      intros old [= <-]. done.
Qed.
Next Obligation.
  intros s env j cutoff b. simpl. unfold mem_is_revoked. destruct (rev_poisoned s); [done|].
  intros [= <-]. rewrite lookup_fmap. by destruct (rev_inner s !! j).
Qed.
Next Obligation.
  intros s env j o. simpl. unfold mem_owner_of. destruct (rev_poisoned s); [done|].
  intros [= <-]. rewrite lookup_fmap. by destruct (rev_inner s !! j).
Qed.
Next Obligation.
  intros s env cutoff o s' Heq.
  unfold rev_evict_expired, memory_revocations, mem_rev_evict_expired in Heq.
  destruct (rev_poisoned s); injection Heq as <- <-; [done|]. simpl. split.
  - apply map_fmap_mono, map_filter_subseteq.
  - intros j row. rewrite !lookup_fmap. destruct (rev_inner s !! j) as [e|] eqn:E; [|done].
    intros [= <-] Hlt. rewrite (map_lookup_filter_Some_2 _ _ j e) //.
Qed.
Next Obligation.
  intros s env i c. simpl. unfold mem_set_cursor. by destruct (cursors_poisoned s).
Qed.

Section sql_revocation_contract.
Context (column_time : Z → Z) (Hcol : faithful_column column_time).

Lemma sql_record_issued_spec s env r o s' :
  sql_record_issued column_time s env r = (o, s') →
  (∀ j row, issued_tokens s !! j = Some row → it_revoked row = true →
     issued_tokens s' !! j = Some row) ∧
  (∀ j, j ≠ rv_jti r → issued_tokens s' !! j = issued_tokens s !! j) ∧
  (o = Ok tt → ∃ row, issued_tokens s' !! rv_jti r = Some row ∧
     (issued_tokens s !! rv_jti r = None →
      it_agent_did row = rv_agent_did r ∧ it_revoked row = false ∧
      timestamp (it_expires_at row) = timestamp (rv_expires_at r))).
Proof.
  unfold sql_record_issued, sql_exec.
  destruct (issued_tokens s !! rv_jti r) as [row|] eqn:E.
  { destruct (outcome env) as [|e []]; intros [= <- <-]; simpl; naive_solver. }
  assert (Hne : ∀ j row, issued_tokens s !! j = Some row → rv_jti r ≠ j) by (intros; congruence).
  destruct (outcome env) as [|e []]; intros [= <- <-]; simpl; try done;
    (split; [intros j row Hj _; rewrite lookup_insert_ne //; by eapply Hne|]);
    (split; [intros j Hj; by rewrite lookup_insert_ne|]); try done.
  intros _. rewrite lookup_insert_eq. eexists. split; [done|]. intros _. simpl.
  split; [done|]. split; [done|]. apply Hcol.
Qed.

Lemma sql_revoke_spec s env r o s' :
  sql_revoke column_time s env r = (o, s') →
  (∀ j row, issued_tokens s !! j = Some row → it_revoked row = true →
     issued_tokens s' !! j = Some row) ∧
  (∀ j, j ≠ rv_jti r → issued_tokens s' !! j = issued_tokens s !! j) ∧
  (o = Ok tt → ∃ row, issued_tokens s' !! rv_jti r = Some row ∧ it_revoked row = true ∧
     (∀ old, issued_tokens s !! rv_jti r = Some old →
        it_agent_did row = it_agent_did old ∧ it_expires_at row = it_expires_at old)).
Proof.
  unfold sql_revoke, sql_exec. set (row' := match _ with Some _ => _ | None => _ end).
  assert (Hrow : ∀ row, issued_tokens s !! rv_jti r = Some row → it_revoked row = true →
    row' = row).
  { intros row Hr Hrev. unfold row'. rewrite Hr. destruct row. simpl in *. by subst. }
  assert (Hpres : ∀ j row, issued_tokens s !! j = Some row → it_revoked row = true →
    <[rv_jti r := row']> (issued_tokens s) !! j = Some row).
  { intros j row Hj Hrev. rewrite lookup_insert. case_decide; [|done]. subst j.
    f_equal. by apply Hrow. }
  destruct (outcome env) as [|e []]; intros [= <- <-]; simpl; try done;
    (split; [done|]); (split; [intros j Hj; by rewrite lookup_insert_ne|]); try done.
  intros _. rewrite lookup_insert_eq. exists row'. split; [done|].
  unfold row'. destruct (issued_tokens s !! rv_jti r); simpl; naive_solver.
Qed.

Lemma sql_is_revoked_spec s env j cutoff b :
  sql_is_revoked s env j cutoff = Ok b →
  b = match issued_tokens s !! j with
      | Some row => it_revoked row && (cutoff <? it_expires_at row)
      | None => false
      end.
Proof.
  unfold sql_is_revoked, sql_query. destruct (outcome env); [|done]. intros [= <-].
  destruct (issued_tokens s !! j) as [[? ? []]|]; done.
Qed.

Lemma sql_owner_of_spec s env j o :
  sql_owner_of s env j = Ok o → o = it_agent_did <$> issued_tokens s !! j.
Proof. unfold sql_owner_of, sql_query. destruct (outcome env); [|done]. by intros [= <-]. Qed.

Lemma sql_rev_evict_spec s env cutoff o s' :
  sql_rev_evict_expired column_time s env cutoff = (o, s') →
  issued_tokens s' ⊆ issued_tokens s ∧
  ∀ j row, issued_tokens s !! j = Some row → cutoff < it_expires_at row →
    issued_tokens s' !! j = Some row.
Proof.
  unfold sql_rev_evict_expired, sql_exec. intros Heq.
  assert (issued_tokens s' = issued_tokens s ∨ issued_tokens s' =
    filter (λ kr, column_time cutoff < it_expires_at kr.2) (issued_tokens s)) as [->| ->].
  { destruct (outcome env) as [|e []]; injection Heq as <- <-; simpl; tauto. }
  { done. }
  split; [apply map_filter_subseteq|]. intros j row Hj Hlt.
  apply map_lookup_filter_Some_2; [done|]. simpl. pose proof (proj1 (Hcol cutoff)). lia.
Qed.

Lemma sql_set_cursor_spec s env i c :
  issued_tokens (snd (sql_set_cursor s env i c)) = issued_tokens s.
Proof. unfold sql_set_cursor, sql_exec. by destruct (outcome env) as [|e []]. Qed.
End sql_revocation_contract.

(** The two SQL stores wrap the same tables: peel the wrapper off, then use
    the table's lemma. *)
Ltac peel lem :=
  intros; simpl in *;
  repeat match goal with
    | H : (let '(o, p) := ?c in _) = (_, _) |- _ =>
      destruct c eqn:?; injection H as <- <-; simpl
    end;
  first [ eapply lem; eassumption
        | eapply lem; [apply sqlite_time_faithful|eassumption]
        | eapply lem; [apply pg_time_faithful|eassumption] ].

#[export] Program Instance sqlite_revocation_contract : RevocationContract SqliteRevocationStore := {|
  rows s := issued_tokens (sqlite_rev s)
|}.
Next Obligation. peel sql_record_issued_spec. Qed.
Next Obligation. peel sql_revoke_spec. Qed.
Next Obligation. peel sql_is_revoked_spec. Qed.
Next Obligation. peel sql_owner_of_spec. Qed.
Next Obligation. peel sql_rev_evict_spec. Qed.
Next Obligation.
  intros s env i c. simpl. rewrite -(sql_set_cursor_spec (sqlite_rev s) env i c).
  by destruct (sql_set_cursor _ env i c).
Qed.

#[export] Program Instance pg_revocation_contract : RevocationContract PgRevocationStore := {|
  rows s := issued_tokens (pg_rev s)
|}.
Next Obligation. peel sql_record_issued_spec. Qed.
Next Obligation. peel sql_revoke_spec. Qed.
Next Obligation. peel sql_is_revoked_spec. Qed.
Next Obligation. peel sql_owner_of_spec. Qed.
Next Obligation. peel sql_rev_evict_spec. Qed.
Next Obligation.
  intros s env i c. simpl. rewrite -(sql_set_cursor_spec (pg_rev s) env i c).
  by destruct (sql_set_cursor _ env i c).
Qed.

(** ** Theorems *)

(** The store operations a running registry performs. *)
Inductive RevOp : Type :=
  | RevIssued (r : RevocationRecord)
  | RevRevoke (r : RevocationRecord)
  | RevEvict (cutoff : Z)
  | RevCursor (i : string) (c : Z).

Definition rev_step {S : Type} `{RevocationStore S} (s : S) (env : CallEnv) (op : RevOp) : S :=
  match op with
  | RevIssued r => snd (record_issued s env r)
  | RevRevoke r => snd (revoke s env r)
  | RevEvict cutoff => snd (rev_evict_expired s env cutoff)
  | RevCursor i c => snd (set_revocation_cursor s env i c)
  end.

Fixpoint rev_run {S : Type} `{RevocationStore S} (s : S) (ops : list (CallEnv * RevOp)) : S :=
  match ops with
  | [] => s
  | (env, op) :: rest => rev_run (rev_step s env op) rest
  end.

(** Every eviction of the run used a cutoff no later than [latest]. *)
Definition evictions_before (latest : Z) (ops : list (CallEnv * RevOp)) : Prop :=
  Forall (λ o, match o.2 with RevEvict cutoff => cutoff <= latest | _ => True end) ops.

Section revocation_theorems.
Context {S : Type} `{RevocationContract S}.

Lemma rev_step_keeps (s : S) env op j row latest :
  rows s !! j = Some row → it_revoked row = true → latest < it_expires_at row →
  match op with RevEvict cutoff => cutoff <= latest | _ => True end →
  rows (rev_step s env op) !! j = Some row.
Proof.
  intros Hj Hrev Hlt Hop. destruct op as [r|r|cutoff|i c]; simpl.
  - destruct (record_issued s env r) as [o s'] eqn:E.
    by apply (proj1 (record_issued_spec s env r o s' E)).
  - destruct (revoke s env r) as [o s'] eqn:E. by apply (proj1 (revoke_spec s env r o s' E)).
  - destruct (rev_evict_expired s env cutoff) as [o s'] eqn:E.
    apply (proj2 (rev_evict_spec s env cutoff o s' E)); [done|lia].
  - by rewrite set_cursor_spec.
Qed.

Lemma rev_run_keeps (s : S) ops j row latest :
  rows s !! j = Some row → it_revoked row = true → latest < it_expires_at row →
  evictions_before latest ops → rows (rev_run s ops) !! j = Some row.
Proof.
  revert s. induction ops as [|[env op] ops IH]; intros s Hj Hrev Hlt Hops; [done|].
  inversion_clear Hops as [|?? Hop Hops']. simpl. apply IH; try done.
  by eapply rev_step_keeps.
Qed.

Lemma validate_ok_inv decode signer (s : S) env token c :
  JwtSigner_validate decode signer s env token = Ok c →
  decode (JwtSigner_validation signer) (timestamp (now_utc env)) token = Ok c ∧
  cl_registry (cl_acdp c) = registry_authority signer ∧
  (with_revocations signer = true →
   is_revoked s env (cl_jti c) (tombstone_cutoff (now_utc env) (leeway_seconds signer)) = Ok false).
Proof.
  unfold JwtSigner_validate.
  destruct (decode _ _ token) as [claims|e]; simpl; [|done].
  case_bool_decide as Hreg; simpl; [|done].
  destruct (with_revocations signer); [|intros [= <-]; by repeat split].
  destruct (is_revoked s env _ _) as [[]|e] eqn:E; simpl; try done.
  intros [= <-]. by repeat split.
Qed.

Lemma revoked_row_rejects
    (decode : Validation → Z → string → result BearerClaims string)
    (signer : JwtSigner) (s : S) (ops : list (CallEnv * RevOp)) (env : CallEnv)
    (token : string) (jti : string) (row : IssuedRow) (c : BearerClaims) :
  (∀ v now t claims, decode v now t = Ok claims → v_validate_exp v = true →
     now <= cl_exp claims + v_leeway v) →
  with_revocations signer = true →
  rows s !! jti = Some row → it_revoked row = true →
  evictions_before (tombstone_cutoff (now_utc env) (leeway_seconds signer)) ops →
  JwtSigner_validate decode signer (rev_run s ops) env token = Ok c →
  cl_jti c = jti → cl_exp c = timestamp (it_expires_at row) →
  timestamp (now_utc env) = cl_exp c + leeway_seconds signer.
Proof.
  intros Hdec Hwith Hrow Hrev Hops Hval Hjti Hexp.
  destruct (validate_ok_inv _ _ _ _ _ _ Hval) as (Hd & _ & Hr).
  specialize (Hr Hwith). apply Hdec in Hd; [|done]. simpl in Hd. rewrite Hjti in Hr.
  destruct (decide (tombstone_cutoff (now_utc env) (leeway_seconds signer) < it_expires_at row))
    as [Hlt|Hge].
  - apply is_revoked_spec in Hr. erewrite rev_run_keeps in Hr; try done.
    rewrite Hrev (proj2 (Z.ltb_lt _ _)) // in Hr.
  - apply Z.le_antisymm; [done|]. rewrite Hexp.
    unfold tombstone_cutoff, seconds, timestamp, ns_per_sec in *.
    rewrite -Z.div_add; [|lia]. apply Z.div_le_mono; lia.
Qed.

(** A revoked token stays revoked. Let the index hold a revoked row for a
    token, with the token's expiry second. After any further issuances,
    revocations, cursor writes and evictions (each eviction at a cutoff
    [tombstone_cutoff] gave at or before the present), a validator that
    rejects tokens more than [leeway] seconds past [exp] and shares the index
    accepts the token at no time except, at most, within the single last
    second of its acceptance window. *)
Theorem revoked_token_stays_rejected
    (decode : Validation → Z → string → result BearerClaims string)
    (signer : JwtSigner) (s : S) (ops : list (CallEnv * RevOp)) (env : CallEnv)
    (token : string) (jti : string) (row : IssuedRow) (c : BearerClaims) :
  (∀ v now t claims, decode v now t = Ok claims → v_validate_exp v = true →
     now <= cl_exp claims + v_leeway v) →
  with_revocations signer = true →
  rows s !! jti = Some row → it_revoked row = true →
  evictions_before (tombstone_cutoff (now_utc env) (leeway_seconds signer)) ops →
  JwtSigner_validate decode signer (rev_run s ops) env token = Ok c →
  cl_jti c = jti → cl_exp c = timestamp (it_expires_at row) →
  timestamp (now_utc env) = cl_exp c + leeway_seconds signer.
Proof. apply revoked_row_rejects. Qed.

End revocation_theorems.

(** A decoder for the examples: one token, accepted until [leeway] seconds
    past its expiry, as the decoder's documentation says. *)
Definition example_claims : BearerClaims :=
  mkClaims "iss" "did:web:a" "reg" "j1" 0 100 (mkAcdpClaims "reg" "did:web:a#k") None.

Definition example_decode (v : Validation) (now : Z) (t : string) : result BearerClaims string :=
  if bool_decide (t = "tok") && (now <=? cl_exp example_claims + v_leeway v)
  then Ok example_claims else Err "ExpiredSignature".

Definition example_signer : JwtSigner := mkSigner HS256 "hs256-default" "iss" "reg" 60 true.

Definition example_env (now : Z) : CallEnv := mkCallEnv now DbOk.

(** The token's row: issued with expiry 100.3 s, then revoked. *)
Definition example_store : PgRevocationStore :=
  let r := mkRevocation "j1" "did:web:a" 100300000000 in
  snd (revoke (snd (record_issued (mkPgRev (mkSqlRevocations ∅ ∅)) (example_env 1) r))
         (example_env 2) r).

Lemma revoked_token_stays_rejected_witness :
  JwtSigner_validate example_decode example_signer
    (rev_run example_store
       [(example_env 3, RevEvict (tombstone_cutoff 160500000000 60))])
    (example_env 160500000000) "tok" = Ok example_claims ∧
  timestamp 160500000000 = 100 + 60.
Proof.
  split; [vm_compute; reflexivity|].
  apply (revoked_token_stays_rejected example_decode example_signer example_store
    [(example_env 3, RevEvict (tombstone_cutoff 160500000000 60))]
    (example_env 160500000000) "tok" "j1" (mkIssuedRow "did:web:a" 100300000000 true)
    example_claims).
  - intros v now t claims. unfold example_decode. case_if; [|done]. intros [= <-] _. lia.
  - reflexivity.
  - vm_compute. reflexivity.
  - reflexivity.
  - repeat constructor. vm_compute. discriminate.
  - vm_compute. reflexivity.
  - reflexivity.
  - vm_compute. reflexivity.
Defined.

(** The last second. The acceptance window is counted in whole seconds
    and the tombstone's in nanoseconds, so the two ends differ: with a decoder
    that behaves as documented there is a token, revoked through its own row
    and never evicted, that is rejected half a second before its row's expiry
    plus the leeway and accepted again 200 ms after it. *)
Theorem revoked_token_accepted_in_last_second :
  ∃ before after,
    before < after ∧
    is_ok (JwtSigner_validate example_decode example_signer example_store
             (example_env before) "tok") = false ∧
    JwtSigner_validate example_decode example_signer example_store
      (example_env after) "tok" = Ok example_claims.
Proof. exists 159800000000, 160500000000. split; [done|]. by vm_compute. Qed.

Section poller_theorems.
Context {S : Type} `{RevocationContract S}.
Context (timestamp_opt : Z → option Z) (cfg : RevocationFeedConfig).

(** An entry the peer is authoritative for and that names a calendar time. *)
Definition applicable (e : FeedEntry) : Prop :=
  (fe_iss e = "" ∨ fe_iss e = cfg_issuer cfg) ∧ is_Some (timestamp_opt (fe_exp e)).

Definition revoked_in (s : S) (j : string) : Prop :=
  ∃ row, rows s !! j = Some row ∧ it_revoked row = true.

Lemma revoke_keeps_revoked (s : S) env r j :
  revoked_in s j → revoked_in (snd (revoke s env r)) j.
Proof.
  intros (row & Hj & Hrev). destruct (revoke s env r) as [o s'] eqn:E.
  exists row. split; [|done]. by apply (proj1 (revoke_spec s env r o s' E)).
Qed.

Lemma apply_entries_keeps entries (s : S) j :
  revoked_in s j → revoked_in (snd (apply_entries timestamp_opt entries s cfg)) j.
Proof.
  revert s. induction entries as [|[env e] entries IH]; intros s Hj; simpl; [done|].
  case_if; [by apply IH|]. destruct (timestamp_opt (fe_exp e)); [|by apply IH].
  pose proof (revoke_keeps_revoked s env (mkRevocation (fe_jti e) (fe_sub e) z) j Hj) as Hk.
  destruct (revoke s env _) as [o s']. simpl in Hk. specialize (IH s' Hk).
  by destruct (apply_entries timestamp_opt entries s' cfg).
Qed.

Lemma apply_entries_all entries (s s' : S) :
  apply_entries timestamp_opt entries s cfg = (true, s') →
  Forall (λ p, applicable p.2 → revoked_in s' (fe_jti p.2)) entries.
Proof.
  revert s. induction entries as [|[env e] entries IH]; intros s; simpl; [done|].
  case_if.
  { intros Heq. constructor; [|by eapply IH]. simpl. intros [[?|?] _]; tauto. }
  destruct (timestamp_opt (fe_exp e)) as [z|] eqn:Et.
  2: { intros Heq'. constructor; [|by eapply IH]. simpl. intros [_ [? ?]]. congruence. }
  destruct (revoke s env _) as [o s1] eqn:Er.
  pose proof (apply_entries_keeps entries s1) as Hk.
  destruct (apply_entries timestamp_opt entries s1 cfg) as [b s2] eqn:Ea. simpl in Hk.
  intros [= Hb <-]. apply andb_true_iff in Hb as [Ho ->].
  constructor; [|by eapply IH]. intros _. simpl. apply Hk.
  destruct o as [[]|]; [|done].
  destruct (proj2 (proj2 (revoke_spec s env _ _ s1 Er)) eq_refl) as (row & ? & ? & _).
  by exists row.
Qed.

(** The poller never skips a revocation. When a turn moves the cursor,
    every entry of the fetched page that the peer is authoritative for (and
    whose expiry is a calendar time) is revoked in the local index; and no
    turn, successful or not, un-revokes anything. *)
Theorem poll_advances_only_past_applied (env : CallEnv) (fetch : Fetch) (cursor : Z) (s : S) :
  (∀ j, revoked_in s j →
     revoked_in (snd (poll_once timestamp_opt cfg env fetch cursor s)) j) ∧
  (fst (poll_once timestamp_opt cfg env fetch cursor s) ≠ cursor →
   ∃ entries next, fetch = Fetched entries (Some next) ∧
     Forall (λ p, applicable p.2 →
       revoked_in (snd (poll_once timestamp_opt cfg env fetch cursor s)) (fe_jti p.2)) entries).
Proof.
  unfold poll_once. destruct fetch as [entries next|why]; [|by split].
  pose proof (apply_entries_keeps entries s) as Hk.
  pose proof (apply_entries_all entries s) as Hall.
  destruct (apply_entries timestamp_opt entries s cfg) as [ok s1]. simpl in Hk.
  assert (Hset : ∀ c j, revoked_in (snd (set_revocation_cursor s1 env (cfg_issuer cfg) c)) j
    ↔ revoked_in s1 j) by (intros; unfold revoked_in; by rewrite set_cursor_spec).
  destruct ok; [destruct next as [c|]|]; simpl; (split; [try done|]); try done.
  - intros j Hj. apply Hset. by apply Hk.
  - intros _. exists entries, c. split; [done|].
    eapply Forall_impl; [by apply Hall|]. intros p Hp Happ. apply Hset. by apply Hp.
Qed.
End poller_theorems.
