(* ===== verification/AuthService.v ===== *)
(** * DID challenge-response authentication
    (crates/acdp-registry-auth/src/service.rs, jwt.rs, lib.rs,
    crates/acdp-registry-types/src/auth.rs) *)

From stdpp Require Import pretty.
From S2P Require Import Prelude Text ChallengeStore Revocation.

Open Scope Z_scope.
Open Scope registry_scope.

(** ** Strings *)

Definition has_prefix (p s : string) : bool := String.prefix p s.

Definition hash_sign : Ascii.ascii := Ascii.ascii_of_nat 35.

(** ** Wire types *)

Record AuthChallenge : Type := mkAuthChallenge {
  ac_nonce : string;
  ac_registry_authority : string;
  ac_expires_at : Z;
  ac_signing_input : string
}.

(** [AuthChallenge::signing_input]. *)
Definition signing_input (nonce agent_id authority : string) (expires_at : Z) : string :=
  "acdp-registry-auth:v1:" +:+ nonce +:+ ":" +:+ agent_id +:+ ":" +:+ authority +:+ ":" +:+
  pretty expires_at.

Record TokenRequest : Type := mkTokenRequest {
  tr_agent_id : string;
  tr_key_id : string;
  tr_nonce : string;
  tr_expires_at : Z;
  tr_algorithm : string;
  tr_signature : string
}.

Record TokenResponse : Type := mkTokenResponse {
  tp_token : string;
  tp_token_type : string;
  tp_expires_at : Z
}.

(** ** The service *)

Record TenantAgentBinding : Type := mkBinding { tb_agent_did : string; tb_tenant_id : string }.

Record AuthConfig : Type := mkAuthConfig {
  challenge_ttl_seconds : Z;
  token_ttl_seconds : Z;
  did_methods : list string;
  tenant_agents : list TenantAgentBinding
}.

Definition CHALLENGE_DID_PREFIXES : list string := ["did:web:"; "did:key:"].
Definition CHALLENGE_AGENT_ID_MIN_BYTES : Z := 9.
Definition CHALLENGE_AGENT_ID_MAX_BYTES : Z := 2048.

Definition str_len (s : string) : Z := Z.of_nat (String.length s).

Definition tenant_for_agent (bindings : list TenantAgentBinding) (agent_did : string) :
    option string :=
  match list_find (λ b, tb_agent_did b = agent_did) bindings with
  | Some (_, b) => Some (tb_tenant_id b)
  | None => None
  end.

Definition extract_bearer (value : string) : option string :=
  match strip_prefix "Bearer " value with
  | Some t => Some (trim t)
  | None => trim <$> strip_prefix "bearer " value
  end.

Inductive DidKeyMaterial : Type :=
  | Ed25519 (bytes : list Z)
  | EcdsaP256 (bytes : list Z).

Inductive ResolveError : Type :=
  | KeyResolutionUnreachable (m : string)
  | OtherResolveError (m : string).

(** The operations of the [acdp] SDK and of [jsonwebtoken] the service calls. *)
Record Sdk : Type := mkSdk {
  DidDocument : Type;
  VerificationMethod : Type;
  resolve_with_fragment : string → string → result DidDocument ResolveError;
  find_by_fragment : DidDocument → string → option VerificationMethod;
  is_assertion_method : DidDocument → string → bool;
  declared_algorithm : VerificationMethod → option string;
  ed25519_public_key_bytes : VerificationMethod → result (list Z) string;
  ecdsa_p256_public_key_sec1 : VerificationMethod → result (list Z) string;
  resolve_did_key : string → result DidKeyMaterial string;
  material_algorithm_name : DidKeyMaterial → string;
  verify_ed25519 : list Z → string → string → result unit string;
  verify_ecdsa_p256 : list Z → string → string → result unit string;
  jwt_encode : Algorithm → string → BearerClaims → result string string
}.

Record AuthService (C R : Type) : Type := mkService {
  config : AuthConfig;
  challenges : C;
  signer : JwtSigner;
  authority : string;
  revocations : option R
}.

Arguments mkService {C R}.
Arguments config {C R}.
Arguments challenges {C R}.
Arguments signer {C R}.
Arguments authority {C R}.
Arguments revocations {C R}.

Definition set_challenges {C R} (s : AuthService C R) (c : C) : AuthService C R :=
  mkService (config s) c (signer s) (authority s) (revocations s).

Definition set_revocations {C R} (s : AuthService C R) (r : option R) : AuthService C R :=
  mkService (config s) (challenges s) (signer s) (authority s) r.

Section service.
Context (sdk : Sdk).
Context {C R : Type} `{ChallengeStore C} `{RevocationStore R}.

(** [JwtSigner::sign]. *)
Definition JwtSigner_sign (s : JwtSigner) (claims : BearerClaims) : result string AuthError :=
  map_err (λ e, AE_Internal ("jwt sign: " +:+ e))
    (jwt_encode sdk (material_algorithm s) (material_kid s) claims).

(** [issue_challenge]: [nonce] is the encoded random bytes, [now] the clock
    the expiry is taken from, [env] the environment of the store's [put]. *)
Definition issue_challenge (s : AuthService C R) (agent_id nonce : string) (now : Z)
    (env : CallEnv) : result AuthChallenge AuthError * AuthService C R :=
  if negb (existsb (λ p, has_prefix p agent_id) CHALLENGE_DID_PREFIXES) ||
     (str_len agent_id <? CHALLENGE_AGENT_ID_MIN_BYTES) ||
     (CHALLENGE_AGENT_ID_MAX_BYTES <? str_len agent_id)
  then (Err (UnsupportedDidMethod agent_id), s)
  else
    let expires_at := now + seconds (challenge_ttl_seconds (config s)) in
    let input := signing_input nonce agent_id (authority s) (timestamp expires_at) in
    let '(r, c) := put (challenges s) env (mkChallenge nonce agent_id expires_at) in
    (let? _ := r in
     Ok (mkAuthChallenge nonce (authority s) (timestamp expires_at) input),
     set_challenges s c).

(** Step 5 of [issue_token] for a [did:web] key. *)
Definition did_web_key (req : TokenRequest) (did_portion fragment : string) :
    result (list Z) AuthError :=
  let? doc := map_err (λ e, match e with
                            | KeyResolutionUnreachable m => ResolutionUnreachable m
                            | OtherResolveError m => Resolution m
                            end)
                (resolve_with_fragment sdk did_portion fragment) in
  let? vm := ok_or (find_by_fragment sdk doc fragment)
               (KeyIdMalformed ("fragment '" +:+ fragment +:+ "' not in DID doc")) in
  if negb (is_assertion_method sdk doc (tr_key_id req)) then Err KeyNotAssertion
  else
    let? _ := match declared_algorithm sdk vm with
              | Some declared =>
                if negb (bool_decide (declared = tr_algorithm req)) then
                  Err (AlgorithmNotSupported
                         ("request algorithm '" +:+ tr_algorithm req +:+
                          "' does not match verification method type (declared '" +:+
                          declared +:+ "')"))
                else Ok tt
              | None => Ok tt
              end in
    if bool_decide (tr_algorithm req = "ed25519") then
      map_err (λ e, Resolution ("key decode: " +:+ e)) (ed25519_public_key_bytes sdk vm)
    else if bool_decide (tr_algorithm req = "ecdsa-p256") then
      map_err (λ e, Resolution ("key decode: " +:+ e)) (ecdsa_p256_public_key_sec1 sdk vm)
    else Err (AlgorithmNotSupported (tr_algorithm req)).

(** Step 5 of [issue_token] for a [did:key] key. *)
Definition did_key_key (cfg : AuthConfig) (req : TokenRequest) (did_portion fragment : string) :
    result (list Z) AuthError :=
  if negb (bool_decide ("did:key" ∈ did_methods cfg)) then
    Err (UnsupportedDidMethod did_portion)
  else
    let msi := default "" (strip_prefix "did:key:" did_portion) in
    if negb (bool_decide (fragment = msi)) then
      Err (KeyIdMalformed ("did:key fragment '" +:+ fragment +:+
                           "' does not match method-specific id '" +:+ msi +:+ "'"))
    else
      let? material := map_err Resolution (resolve_did_key sdk did_portion) in
      if negb (bool_decide (material_algorithm_name sdk material = tr_algorithm req)) then
        Err (AlgorithmNotSupported
               ("request algorithm '" +:+ tr_algorithm req +:+
                "' does not match did:key algorithm '" +:+
                material_algorithm_name sdk material +:+ "'"))
      else Ok (match material with Ed25519 b => b | EcdsaP256 b => b end).

(** The signature check of [issue_token]. *)
Definition verify_signature (req : TokenRequest) (pub_bytes : list Z) (input : string) :
    result unit AuthError :=
  if bool_decide (tr_algorithm req = "ed25519") then
    if negb (Z.of_nat (length pub_bytes) =? 32) then
      Err (Resolution ("ed25519 key must be 32 bytes, got " +:+
                       pretty (Z.of_nat (length pub_bytes))))
    else map_err SignatureInvalid (verify_ed25519 sdk pub_bytes (tr_signature req) input)
  else if bool_decide (tr_algorithm req = "ecdsa-p256") then
    map_err SignatureInvalid (verify_ecdsa_p256 sdk pub_bytes (tr_signature req) input)
  else Err (AlgorithmNotSupported (tr_algorithm req)).

(** Steps 2 to 5 of [issue_token]: the challenge bindings, the expiry, the
    algorithm, the key and the signature. *)
Definition verify_request (cfg : AuthConfig) (auth : string) (rec : ChallengeRecord)
    (req : TokenRequest) (now : Z) : result unit AuthError :=
  if negb (bool_decide (ch_agent_id rec = tr_agent_id req)) then
    Err (ChallengeUnknown "challenge agent_id mismatch")
  else if negb (timestamp (ch_expires_at rec) =? tr_expires_at req) then
    Err (ChallengeUnknown "challenge expires_at mismatch")
  else if tr_expires_at req <? timestamp now then Err ChallengeExpired
  else if negb (bool_decide (tr_algorithm req = "ed25519")) &&
          negb (bool_decide (tr_algorithm req = "ecdsa-p256"))
  then Err (AlgorithmNotSupported (tr_algorithm req))
  else
    let pieces := split_char hash_sign (tr_key_id req) in
    let? did_portion :=
      match pieces with
      | p :: _ => if bool_decide (p = "") then Err (KeyIdMalformed (tr_key_id req)) else Ok p
      | [] => Err (KeyIdMalformed (tr_key_id req))
      end in
    if negb (bool_decide (did_portion = tr_agent_id req)) then Err KeyIdMismatch
    else
      let? fragment := ok_or (pieces !! 1%nat) (KeyIdMalformed (tr_key_id req)) in
      let? pub_bytes :=
        if has_prefix "did:web:" did_portion then did_web_key req did_portion fragment
        else if has_prefix "did:key:" did_portion then did_key_key cfg req did_portion fragment
        else Err (UnsupportedDidMethod did_portion) in
      verify_signature req pub_bytes
        (signing_input (tr_nonce req) (tr_agent_id req) auth (tr_expires_at req)).

(** The claims minted for a verified request. *)
Definition minted_claims (s : AuthService C R) (req : TokenRequest) (now : Z) (jti : string) :
    BearerClaims :=
  {| cl_iss := issuer (signer s);
     cl_sub := tr_agent_id req;
     cl_aud := authority s;
     cl_jti := jti;
     cl_iat := timestamp now;
     cl_exp := timestamp (now + seconds (token_ttl_seconds (config s)));
     cl_acdp := mkAcdpClaims (authority s) (tr_key_id req);
     cl_tenant := tenant_for_agent (tenant_agents (config s)) (tr_agent_id req) |}.

(** What one [issue_token] call reads: the environments of its two store
    calls, its clock, and the fresh token id. *)
Record TokenEnv : Type := mkTokenEnv {
  take_env : CallEnv;
  token_now : Z;
  fresh_jti : string;
  record_env : CallEnv
}.

Definition issue_token (s : AuthService C R) (req : TokenRequest) (env : TokenEnv) :
    result TokenResponse AuthError * AuthService C R :=
  let '(taken, c) := take (challenges s) (take_env env) (tr_nonce req) in
  let s := set_challenges s c in
  let now := token_now env in
  match (let? o := taken in
         let? rec := ok_or o (ChallengeUnknown (tr_nonce req)) in
         let? _ := verify_request (config s) (authority s) rec req now in
         JwtSigner_sign (signer s) (minted_claims s req now (fresh_jti env))) with
  | Err e => (Err e, s)
  | Ok token =>
    let exp := now + seconds (token_ttl_seconds (config s)) in
    let response := mkTokenResponse token "Bearer" (timestamp exp) in
    match revocations s with
    | None => (Ok response, s)
    | Some rev =>
      let '(r, rev) := record_issued rev (record_env env)
                         (mkRevocation (fresh_jti env) (tr_agent_id req) exp) in
      (let? _ := r in Ok response, set_revocations s (Some rev))
    end
  end.

(** The first [await] of [revoke_token]: the owner of the token's row, who must be
    the caller. *)
Definition revoke_owner (s : AuthService C R) (jti caller_did : string) (read_env : CallEnv) :
    result string AuthError :=
  match revocations s with
  | None => Err (AE_Internal "token revocation is not configured on this registry")
  | Some rev =>
    let? o := owner_of rev read_env jti in
    let? owner := ok_or o (TokenInvalid ("no record for jti '" +:+ jti +:+ "'")) in
    if negb (bool_decide (owner = caller_did)) then
      Err (TokenInvalid "may only revoke tokens issued to the calling DID")
    else Ok owner
  end.

(** The second: the tombstone, under the owner that was read. *)
Definition revoke_row (s : AuthService C R) (jti owner : string) (write_env : CallEnv) :
    result unit AuthError * AuthService C R :=
  match revocations s with
  | None => (Err (AE_Internal "token revocation is not configured on this registry"), s)
  | Some rev =>
    let '(r, rev) := revoke rev write_env
      (mkRevocation jti owner (now_utc write_env + seconds (token_ttl_seconds (config s)))) in
    (r, set_revocations s (Some rev))
  end.

(** [revoke_token] with nothing in between. *)
Definition revoke_token (s : AuthService C R) (jti caller_did : string)
    (read_env write_env : CallEnv) : result unit AuthError * AuthService C R :=
  match revoke_owner s jti caller_did read_env with
  | Err e => (Err e, s)
  | Ok owner => revoke_row s jti owner write_env
  end.
End service.

(** ** Lemmas *)

Section service_theorems.
Context (sdk : Sdk).
Context {C R : Type} `{ChallengeContract C} `{RevocationContract R}.

Notation Service := (AuthService C R).

(** The signature of a request over a text holds under a key. *)
Definition signed_under (req : TokenRequest) (key : list Z) (input : string) : Prop :=
  (tr_algorithm req = "ed25519" ∧ length key = 32%nat ∧
     verify_ed25519 sdk key (tr_signature req) input = Ok tt) ∨
  (tr_algorithm req = "ecdsa-p256" ∧
     verify_ecdsa_p256 sdk key (tr_signature req) input = Ok tt).

(** The keys an agent's DID gives a request: a [did:web] agent's document, as
    resolved, has a verification method under the fragment, listed for
    assertion and declared for no other algorithm, and the key is that
    method's for the request's algorithm; a [did:key] agent (where the registry
    accepts the method) is its own key, of the request's algorithm. *)
Inductive agent_key (cfg : AuthConfig) (req : TokenRequest) (fragment : string) (key : list Z) :
    Prop :=
  | agent_key_web doc vm :
      has_prefix "did:web:" (tr_agent_id req) = true →
      resolve_with_fragment sdk (tr_agent_id req) fragment = Ok doc →
      find_by_fragment sdk doc fragment = Some vm →
      is_assertion_method sdk doc (tr_key_id req) = true →
      (∀ declared, declared_algorithm sdk vm = Some declared → declared = tr_algorithm req) →
      (tr_algorithm req = "ed25519" ∧ ed25519_public_key_bytes sdk vm = Ok key ∨
       tr_algorithm req = "ecdsa-p256" ∧ ecdsa_p256_public_key_sec1 sdk vm = Ok key) →
      agent_key cfg req fragment key
  | agent_key_self material :
      "did:key" ∈ did_methods cfg →
      strip_prefix "did:key:" (tr_agent_id req) = Some fragment →
      resolve_did_key sdk (tr_agent_id req) = Ok material →
      material_algorithm_name sdk material = tr_algorithm req →
      (material = Ed25519 key ∨ material = EcdsaP256 key) →
      agent_key cfg req fragment key.

(** What a verified request has established. *)
Record verified (cfg : AuthConfig) (auth : string) (rec : ChallengeRecord)
    (req : TokenRequest) (now : Z) : Prop := {
  ver_agent : ch_agent_id rec = tr_agent_id req;
  ver_expiry : timestamp (ch_expires_at rec) = tr_expires_at req;
  ver_live : timestamp now <= tr_expires_at req;
  ver_algorithm : tr_algorithm req = "ed25519" ∨ tr_algorithm req = "ecdsa-p256";
  ver_signature : ∃ fragment rest key,
    split_char hash_sign (tr_key_id req) = tr_agent_id req :: fragment :: rest ∧
    agent_key cfg req fragment key ∧
    signed_under req key
      (signing_input (tr_nonce req) (tr_agent_id req) auth (tr_expires_at req))
}.

Lemma has_prefix_strip p : ∀ s, has_prefix p s = true → ∃ t, strip_prefix p s = Some t.
Proof.
  unfold has_prefix. induction p as [|a p IH]; intros s; [by eexists|].
  destruct s as [|b s]; [done|]. simpl. destruct (Ascii.ascii_dec a b) as [->|]; [|done].
  rewrite bool_decide_eq_true_2 //. apply IH.
Qed.

Lemma did_web_key_ok cfg req fragment key :
  has_prefix "did:web:" (tr_agent_id req) = true →
  did_web_key sdk req (tr_agent_id req) fragment = Ok key → agent_key cfg req fragment key.
Proof.
  intros Hweb. unfold did_web_key.
  destruct (resolve_with_fragment sdk _ _) as [doc|] eqn:Hdoc; [|done]. simpl.
  destruct (find_by_fragment sdk doc fragment) as [vm|] eqn:Hvm; [|done]. simpl.
  destruct (is_assertion_method sdk doc _) eqn:Has; [|done]. simpl. intros Hok.
  assert (∀ declared, declared_algorithm sdk vm = Some declared → declared = tr_algorithm req)
    as Hdecl.
  { intros declared Hd. rewrite Hd in Hok. by destruct (bool_decide (declared = _)) eqn:E; bool_to_prop. }
  destruct (match declared_algorithm sdk vm with Some _ => _ | None => _ end); [simpl in Hok|done].
  eapply agent_key_web; [done..|].
  case_bool_decide; [left; by apply map_err_ok in Hok|].
  case_bool_decide; [right; by apply map_err_ok in Hok|done].
Qed.

Lemma did_key_key_ok cfg req fragment key :
  has_prefix "did:key:" (tr_agent_id req) = true →
  did_key_key sdk cfg req (tr_agent_id req) fragment = Ok key → agent_key cfg req fragment key.
Proof.
  intros Hkey. unfold did_key_key.
  destruct (bool_decide ("did:key" ∈ did_methods cfg)) eqn:Hm; [|done]. bool_to_prop.
  cbv beta iota zeta delta [negb].
  destruct (strip_prefix "did:key:" (tr_agent_id req)) as [msi|] eqn:Hs; simpl.
  2: { by destruct (has_prefix_strip _ _ Hkey) as [t Ht]; rewrite Ht in Hs. }
  destruct (bool_decide (fragment = msi)) eqn:Hf; [|done]. bool_to_prop. subst msi. simpl.
  destruct (resolve_did_key sdk _) as [material|] eqn:Hr; [|done]. simpl.
  destruct (bool_decide (_ = tr_algorithm req)) eqn:Ha; [|done]. bool_to_prop. simpl.
  intros [= <-]. eapply agent_key_self; [done..|]. destruct material; eauto.
Qed.

Lemma verify_signature_ok req key input :
  verify_signature sdk req key input = Ok tt → signed_under req key input.
Proof.
  unfold verify_signature. case_bool_decide; [|case_bool_decide; [|done]].
  - case_if; [done|]. intros Hv%map_err_ok. left. split; [done|]. split; [lia|done].
  - intros Hv%map_err_ok. by right.
Qed.

Lemma verify_request_ok cfg auth rec req now :
  verify_request sdk cfg auth rec req now = Ok tt → verified cfg auth rec req now.
Proof.
  unfold verify_request.
  case_bool_decide as Ha; simpl; [|done].
  destruct (_ =? _) eqn:He; simpl; [|done]. destruct (_ <? _) eqn:Hl; [done|]. bool_to_prop.
  destruct (negb _ && negb _) eqn:Halg; [done|].
  assert (tr_algorithm req = "ed25519" ∨ tr_algorithm req = "ecdsa-p256") as Halg'.
  { bool_to_prop. destruct Halg as [Halg|Halg]; bool_to_prop; tauto. }
  clear Halg. intros Hok.
  destruct (split_char hash_sign (tr_key_id req)) as [|p rest] eqn:Hsplit; [done|].
  simpl in Hok. case_bool_decide; [done|]. simpl in Hok.
  destruct (bool_decide (p = tr_agent_id req)) eqn:Hp; simpl in Hok; [|done]. bool_to_prop. subst p.
  destruct rest as [|fragment rest]; [done|]. simpl in Hok.
  destruct (if has_prefix _ _ then _ else _) as [key|] eqn:Hkey; simpl in Hok; [|done].
  split; try done. exists fragment, rest, key.
  split; [done|]. split; [|by apply verify_signature_ok].
  destruct (has_prefix "did:web:" _) eqn:Hw; [by apply did_web_key_ok|].
  destruct (has_prefix "did:key:" _) eqn:Hk; [by apply did_key_key_ok|done].
Qed.

Lemma issue_token_ok (s : Service) req env resp s' :
  issue_token sdk s req env = (Ok resp, s') →
  ∃ rec c token,
    take (challenges s) (take_env env) (tr_nonce req) = (Ok (Some rec), c) ∧
    verified (config s) (authority s) rec req (token_now env) ∧
    jwt_encode sdk (material_algorithm (signer s)) (material_kid (signer s))
      (minted_claims s req (token_now env) (fresh_jti env)) = Ok token ∧
    resp = mkTokenResponse token "Bearer"
             (timestamp (token_now env + seconds (token_ttl_seconds (config s)))) ∧
    challenges s' = c ∧ config s' = config s ∧ signer s' = signer s ∧ authority s' = authority s ∧
    match revocations s with
    | None => revocations s' = None
    | Some rev => ∃ rev', revocations s' = Some rev' ∧
        record_issued rev (record_env env) (mkRevocation (fresh_jti env) (tr_agent_id req)
          (token_now env + seconds (token_ttl_seconds (config s)))) = (Ok tt, rev')
    end.
Proof.
  unfold issue_token.
  destruct (take (challenges s) (take_env env) (tr_nonce req)) as [taken c] eqn:Et.
  destruct taken as [[rec|]|]; simpl; try done.
  destruct (verify_request sdk _ _ rec req _) as [[]|] eqn:Ev; simpl; try done.
  destruct (JwtSigner_sign sdk _ _) as [token|] eqn:Es; simpl; [|done].
  apply map_err_ok in Es. apply verify_request_ok in Ev.
  intros Heq. exists rec, c, token. do 3 (split; [done|]).
  simpl in Heq. destruct (revocations s) as [rev|] eqn:Hr.
  - destruct (record_issued rev _ _) as [[[]|e] rev'] eqn:Er; simpl in Heq; [|done].
    injection Heq as <- <-. simpl. do 5 (split; [done|]). eauto.
  - injection Heq as <- <-. by simpl.
Qed.

(** Whatever the outcome, the challenge store is the one after the [take]. *)
Lemma issue_token_challenges (s : Service) req env :
  challenges (snd (issue_token sdk s req env)) =
    snd (take (challenges s) (take_env env) (tr_nonce req)).
Proof.
  unfold issue_token. destruct (take _ _ _) as [taken c]. simpl.
  destruct (and_then taken _); [|done]. destruct (revocations s); [|done].
  by destruct (record_issued _ _ _).
Qed.

Lemma issue_token_unheld (s : Service) req env :
  holds (challenges s) !! tr_nonce req = None → is_ok (fst (issue_token sdk s req env)) = false.
Proof.
  intros Hn. destruct (issue_token sdk s req env) as [[resp|e] s'] eqn:E; [|done]. exfalso.
  apply issue_token_ok in E as (rec & c & token & Ht & _).
  pose proof (take_spec _ _ _ _ _ Ht) as [_ Hrec].
  destruct (Hrec rec eq_refl) as (_ & Hh & _). congruence.
Qed.

(** ** Theorems *)

(** C1: no token without a proof. Whenever [issue_token] answers a token, the
    store held the request's nonce, bound to the same agent and to the expiry
    second the request repeats, and neither had expired; the algorithm is one
    of the two supported ones; the [key_id] is a fragment of the agent's own
    DID; and the signature over exactly this registry's challenge text verified
    under the key that DID gives for the fragment: for [did:web] the key of the
    method found there in the agent's resolved document, listed for assertion
    and not declared for another algorithm, for [did:key] (an accepted method)
    the key the DID itself encodes. The nonce is gone afterwards. *)
Theorem issue_token_sound (s : Service) (req : TokenRequest) (env : TokenEnv)
    (resp : TokenResponse) (s' : Service) :
  issue_token sdk s req env = (Ok resp, s') →
  ∃ rec,
    holds (challenges s) !! tr_nonce req = Some (ch_agent_id rec, ch_expires_at rec) ∧
    now_utc (take_env env) < ch_expires_at rec ∧
    verified (config s) (authority s) rec req (token_now env) ∧
    holds (challenges s') !! tr_nonce req = None.
Proof.
  intros E. apply issue_token_ok in E as (rec & c & token & Ht & Hv & _ & _ & Hc & _).
  pose proof (take_spec _ _ _ _ _ Ht) as [Hh Hrec].
  destruct (Hrec rec eq_refl) as (_ & Hheld & Hlive). exists rec.
  rewrite Hc Hh lookup_delete_eq. done.
Qed.

(** A nonce is burnt by its first use. Once a token request has consumed
    its nonce, whether or not it got a token, no later request for that nonce
    gets one, under any agent, key or signature. *)
Theorem nonce_burnt_by_first_use (s : Service) (req req' : TokenRequest) (env env' : TokenEnv) :
  is_ok (fst (take (challenges s) (take_env env) (tr_nonce req))) = true →
  tr_nonce req' = tr_nonce req →
  is_ok (fst (issue_token sdk (snd (issue_token sdk s req env)) req' env')) = false.
Proof.
  intros Hok Heq. apply issue_token_unheld. rewrite issue_token_challenges Heq.
  destruct (take (challenges s) (take_env env) (tr_nonce req)) as [[o|] c] eqn:Et; [|done].
  destruct (take_spec _ _ _ _ _ Et) as [Hh _]. simpl. by rewrite Hh lookup_delete_eq.
Qed.

Lemma revoke_owner_ok (s : Service) jti caller renv owner :
  revoke_owner s jti caller renv = Ok owner →
  owner = caller ∧ ∃ rev row, revocations s = Some rev ∧ rows rev !! jti = Some row ∧ it_agent_did row = caller.
Proof.
  unfold revoke_owner. destruct (revocations s) as [rev|]; [|done].
  destruct (owner_of rev renv jti) as [o|e] eqn:Eo; [|done]. apply owner_of_spec in Eo. subst o. simpl.
  destruct (rows rev !! jti) as [row|] eqn:Er; [|done]. simpl.
  destruct (bool_decide (it_agent_did row = caller)) eqn:Hown; [|done]. bool_to_prop. intros [= <-].
  split; [done|]. by exists rev, row.
Qed.

(** A row's writing touches no other row; once it succeeds the row is revoked, with the owner
    and expiry it had. *)
Lemma revoke_row_spec (s : Service) jti owner wenv r s' rev :
  revocations s = Some rev → revoke_row s jti owner wenv = (r, s') →
  ∃ rev', revocations s' = Some rev' ∧ (∀ j, j ≠ jti → rows rev' !! j = rows rev !! j) ∧
    (r = Ok tt → ∃ row', rows rev' !! jti = Some row' ∧ it_revoked row' = true ∧
       ∀ row, rows rev !! jti = Some row →
         it_agent_did row' = it_agent_did row ∧ it_expires_at row' = it_expires_at row).
Proof.
  intros Hrev. unfold revoke_row. rewrite Hrev.
  destruct (revoke rev wenv _) as [r0 rev'] eqn:Ev. intros [= <- <-]. exists rev'. split; [done|].
  destruct (revoke_spec _ _ _ _ _ Ev) as (_ & Hother & Hok). by split.
Qed.

(** Only the owner revokes. [revoke_token] succeeds only for the DID the
    token's row names, and then that row is revoked and keeps its owner and
    expiry; in every other case no row changes at all. *)
Theorem revoke_token_owner_only (s : Service) (jti caller : string) (renv wenv : CallEnv)
    (rev : R) :
  revocations s = Some rev →
  let '(r, s') := revoke_token s jti caller renv wenv in
  match rows rev !! jti with
  | Some row =>
    if bool_decide (it_agent_did row = caller) then
      r = Ok tt → ∃ rev' row', revocations s' = Some rev' ∧ rows rev' !! jti = Some row' ∧
        it_revoked row' = true ∧ it_agent_did row' = caller ∧
        it_expires_at row' = it_expires_at row
    else is_ok r = false ∧ s' = s
  | None => is_ok r = false ∧ s' = s
  end.
Proof.
  intros Hrev. unfold revoke_token.
  destruct (revoke_owner s jti caller renv) as [owner|e] eqn:Eo.
  2: { destruct (rows rev !! jti); [case_bool_decide|]; done. }
  apply revoke_owner_ok in Eo as (-> & rev0 & row & Hrev0 & Hrow & Hown).
  rewrite Hrev in Hrev0. injection Hrev0 as <-. rewrite Hrow bool_decide_eq_true_2 //.
  destruct (revoke_row s jti caller wenv) as [r s'] eqn:Ev.
  destruct (revoke_row_spec _ _ _ _ _ _ rev Hrev Ev) as (rev' & Hrev' & _ & Hok). intros ->.
  destruct (Hok eq_refl) as (row' & Hrow' & Hrevd & Hold). destruct (Hold row Hrow) as [Ha He].
  exists rev', row'. rewrite Ha He. done.
Qed.

(** C18: issue, revoke, never accepted again. A token issued under a fresh id
    and then revoked by its agent is not accepted by the registry's validator
    at any later time, whatever else happens to the index in between, except
    at most within the last second of its acceptance window. *)
Theorem issued_then_revoked_is_rejected
    (decode : Validation → Z → string → result BearerClaims string)
    (s s1 s2 : Service) (req : TokenRequest) (env : TokenEnv) (resp : TokenResponse)
    (rev rev2 : R) (renv wenv venv : CallEnv) (ops : list (CallEnv * RevOp)) (c : BearerClaims) :
  (∀ v now t claims, decode v now t = Ok claims → v_validate_exp v = true →
     now <= cl_exp claims + v_leeway v) →
  with_revocations (signer s) = true →
  revocations s = Some rev → rows rev !! fresh_jti env = None →
  issue_token sdk s req env = (Ok resp, s1) →
  revoke_token s1 (fresh_jti env) (tr_agent_id req) renv wenv = (Ok tt, s2) →
  revocations s2 = Some rev2 →
  evictions_before (tombstone_cutoff (now_utc venv) (leeway_seconds (signer s))) ops →
  JwtSigner_validate decode (signer s) (rev_run rev2 ops) venv (tp_token resp) = Ok c →
  c = minted_claims s req (token_now env) (fresh_jti env) →
  timestamp (now_utc venv) = tp_expires_at resp + leeway_seconds (signer s).
Proof.
  intros Hdec Hwith Hrev Hfresh Hissue Hrevoke Hrev2 Hops Hval Hc.
  apply issue_token_ok in Hissue
    as (rec & ch & token & _ & _ & _ & -> & _ & _ & _ & _ & Hrec).
  rewrite Hrev in Hrec. destruct Hrec as (rev1 & Hrev1 & Hri).
  destruct (record_issued_spec _ _ _ _ _ Hri) as (_ & _ & Hrow).
  destruct (Hrow eq_refl) as (row & Hrow1 & Hnew). simpl in *.
  destruct (Hnew Hfresh) as (Hag & _ & Hts). clear Hrow Hnew.
  unfold revoke_token in Hrevoke.
  destruct (revoke_owner s1 _ _ renv) as [owner|]; [|done].
  destruct (revoke_row_spec _ _ _ _ _ _ rev1 Hrev1 Hrevoke) as (rev2' & Hrev2' & _ & Hok).
  rewrite Hrev2 in Hrev2'. injection Hrev2' as <-.
  destruct (Hok eq_refl) as (row' & Hrow' & Hrevd & Hold). simpl in *.
  destruct (Hold row Hrow1) as [_ He].
  rewrite -Hts -He.
  assert (Hexp : cl_exp c = timestamp (it_expires_at row')) by (subst c; simpl; by rewrite He).
  rewrite -Hexp.
  eapply (revoked_row_rejects decode (signer s) rev2 ops venv token (fresh_jti env) row' c);
    try done. by subst c.
Qed.
End service_theorems.

(** ** The challenge text binds its fields *)

(** A signature answers one challenge only. At one registry, challenge
    texts built from nonces without a colon (base64url has none) coincide only
    when the nonce, the agent and the expiry all coincide, although agent DIDs
    and the authority contain the separator themselves. *)
Theorem signing_input_injective (authority n n' a a' : string) (e e' : Z) :
  colon ∉ chars n → colon ∉ chars n' →
  signing_input n a authority e = signing_input n' a' authority e' →
  n = n' ∧ a = a' ∧ e = e'.
Proof.
  intros Hn Hn' Heq. unfold signing_input in Heq. apply (f_equal chars) in Heq.
  rewrite !chars_app in Heq. apply (inj (app _)) in Heq.
  change (chars ":") with [colon] in Heq. simpl in Heq.
  apply split_first_eq in Heq as [Hnn Heq]; [|done..].
  assert (∀ x, chars x ++ colon :: chars authority ++ colon :: chars (pretty e) =
    (chars x ++ colon :: chars authority) ++ colon :: chars (pretty e)) as Hassoc
    by (intros; by rewrite -app_assoc).
  assert (∀ x, chars x ++ colon :: chars authority ++ colon :: chars (pretty e') =
    (chars x ++ colon :: chars authority) ++ colon :: chars (pretty e')) as Hassoc'
    by (intros; by rewrite -app_assoc).
  rewrite Hassoc Hassoc' in Heq.
  apply split_last_eq in Heq as [Ha He]; [|apply pretty_Z_colon..].
  apply (inj (λ l, l ++ colon :: chars authority)) in Ha.
  split; [by apply chars_inj|]. split; [by apply chars_inj|].
  apply (inj pretty). by apply chars_inj.
Qed.

Lemma signing_input_injective_witness :
  signing_input "Ab_-9" "did:web:x.org:agents" "reg.test:8443" 100 ≠
  signing_input "Ab_-9" "did:web:x.org" "reg.test:8443" 100.
Proof.
  intros Heq.
  destruct (signing_input_injective "reg.test:8443" "Ab_-9" "Ab_-9"
    "did:web:x.org:agents" "did:web:x.org" 100 100) as (_ & Ha & _);
    [vm_compute; set_solver|vm_compute; set_solver|exact Heq|discriminate Ha].
Defined.

(** ** Witnesses *)

Module Example.
(** An SDK for the examples: one [did:web] document, whose key verifies a
    signature that repeats the signed text. *)
Definition sdk : Sdk := {|
  DidDocument := unit;
  VerificationMethod := unit;
  resolve_with_fragment _ _ := Ok tt;
  find_by_fragment _ f := if bool_decide (f = "k1") then Some tt else None;
  is_assertion_method _ _ := true;
  declared_algorithm _ := Some "ed25519";
  ed25519_public_key_bytes _ := Ok (replicate 32 7);
  ecdsa_p256_public_key_sec1 _ := Err "not a P-256 key";
  resolve_did_key _ := Err "no did:key here";
  material_algorithm_name m := match m with Ed25519 _ => "ed25519" | EcdsaP256 _ => "ecdsa-p256" end;
  verify_ed25519 _ sig input := if bool_decide (sig = input) then Ok tt else Err "bad signature";
  verify_ecdsa_p256 _ _ _ := Err "bad signature";
  jwt_encode _ _ _ := Ok "tok"
|}.

Definition cfg : AuthConfig := mkAuthConfig 60 99 ["did:web"] [mkBinding "did:web:a" "acme"].

Definition service0 : AuthService PgChallengeStore PgRevocationStore :=
  mkService cfg (mkPgChallenges (mkSqlChallenges ∅)) example_signer "reg"
    (Some (mkPgRev (mkSqlRevocations ∅ ∅))).

(** After [issue_challenge] for [did:web:a] at 1 s. *)
Definition service1 := snd (issue_challenge service0 "did:web:a" "nonce" 1000000000 (example_env 1)).

Definition req : TokenRequest :=
  mkTokenRequest "did:web:a" "did:web:a#k1" "nonce" 61 "ed25519"
    (signing_input "nonce" "did:web:a" "reg" 61).

Definition tenv : TokenEnv :=
  mkTokenEnv (example_env 1200000000) 1300000000 "j1" (example_env 1400000000).

Definition service2 := snd (issue_token sdk service1 req tenv).
Definition resp : TokenResponse := mkTokenResponse "tok" "Bearer" 100.
Definition service3 :=
  snd (revoke_token service2 "j1" "did:web:a" (example_env 2000000000) (example_env 2000000001)).
Definition index3 : PgRevocationStore :=
  default (mkPgRev (mkSqlRevocations ∅ ∅)) (revocations service3).

(** The claims [issue_token] minted, as the decoder returns them. *)
Definition decode (v : Validation) (now : Z) (t : string) : result BearerClaims string :=
  if now <=? 100 + v_leeway v then Ok (minted_claims service1 req 1300000000 "j1") else Err "expired".
End Example.

Lemma issue_token_sound_witness :
  issue_token Example.sdk Example.service1 Example.req Example.tenv =
    (Ok Example.resp, Example.service2) ∧
  ∃ rec, holds (challenges Example.service1) !! "nonce" =
    Some (ch_agent_id rec, ch_expires_at rec).
Proof.
  assert (Hok : issue_token Example.sdk Example.service1 Example.req Example.tenv =
    (Ok Example.resp, Example.service2)) by (vm_compute; reflexivity).
  split; [exact Hok|].
  destruct (issue_token_sound Example.sdk Example.service1 Example.req Example.tenv Example.resp
    Example.service2 Hok) as (rec & Hrec & _). exists rec. exact Hrec.
Defined.

Lemma nonce_burnt_by_first_use_witness :
  is_ok (fst (issue_token Example.sdk (snd (issue_token Example.sdk Example.service1
    Example.req Example.tenv)) Example.req Example.tenv)) = false.
Proof.
  apply (nonce_burnt_by_first_use Example.sdk Example.service1 Example.req Example.req
    Example.tenv Example.tenv); vm_compute; reflexivity.
Defined.

Lemma revoke_token_owner_only_witness :
  is_ok (fst (revoke_token Example.service2 "j1" "did:web:mallory"
    (example_env 5) (example_env 6))) = false.
Proof.
  pose proof (revoke_token_owner_only Example.service2 "j1" "did:web:mallory"
    (example_env 5) (example_env 6)
    (default (mkPgRev (mkSqlRevocations ∅ ∅)) (revocations Example.service2))
    ltac:(vm_compute; reflexivity)) as Hown.
  vm_compute in Hown. vm_compute. exact (proj1 Hown).
Defined.

Lemma issued_then_revoked_is_rejected_witness :
  timestamp 160500000000 = tp_expires_at Example.resp + 60.
Proof.
  apply (issued_then_revoked_is_rejected Example.sdk Example.decode Example.service1
    Example.service2 Example.service3 Example.req Example.tenv Example.resp
    (mkPgRev (mkSqlRevocations ∅ ∅)) Example.index3 (example_env 2000000000)
    (example_env 2000000001) (example_env 160500000000) []
    (minted_claims Example.service1 Example.req 1300000000 "j1")).
  - intros v now t claims. unfold Example.decode. case_if; [|done]. intros [= <-] _.
    assert (cl_exp (minted_claims Example.service1 Example.req 1300000000 "j1") = 100) as ->
      by (vm_compute; reflexivity). lia.
  - reflexivity.
  - vm_compute. reflexivity.
  - reflexivity.
  - vm_compute. reflexivity.
  - vm_compute. reflexivity.
  - vm_compute. reflexivity.
  - constructor.
  - vm_compute. reflexivity.
  - reflexivity.
Defined.
