(* ===== verification/Errors.v ===== *)
(** * Errors and their HTTP projection

    The registry's error type ([acdp-registry-types/src/error.rs]), the
    conversion of auth-layer errors into it ([acdp-registry-auth/src/lib.rs]) and
    the response both become. [AcdpError] belongs to the [acdp] crate: its
    constructors here are the variants the registry names, and [AcdpOther]
    stands for the variants only the catch-all arms see. The text [Display]
    prints for such an error is a parameter. *)

From S2P Require Import Prelude ChallengeStore.

(** Why a supersession was refused ([acdp::error::SupersessionReason]). *)
Inductive SupersessionReason : Type :=
  | SR_NotFound
  | SR_LineageMismatch
  | SR_VersionMismatch
  | SR_AlreadySuperseded
  | SR_CrossRegistrySupersessionUnsupported
  | SR_LineageWalkFailed
  | SR_RevocationTypeMismatch
  | SR_Other.

Inductive AcdpError : Type :=
  | SchemaViolation (m : string)
  | InvalidBody (m : string)
  | MissingField (m : string)
  | PayloadTooLarge (m : string)
  | EmbeddedTooLarge (m : string)
  | Canonicalization (m : string)
  | HashMismatch (stored recomputed : string)
  | RemoteHashMismatch (m : string)
  | DataRefHashMismatch (m : string)
  | UnsupportedAlgorithm (m : string)
  | KeyNotAuthorized (m : string)
  | KeyResolution (m : string)
  | KeyResolutionUnreachable (m : string)
  | InvalidSignature (m : string)
  | ImmutableField (m : string)
  | InvalidLifecycleTransition (m : string)
  | InvalidLogProof (m : string)
  | InvalidWitnessCosignature (m : string)
  | NotImplemented (m : string)
  | DuplicatePublish (m : string)
  | SupersededTarget (reason : SupersessionReason) (message : string)
  | NotFound (m : string)
  | NotAuthorized (m : string)
  | InvalidCursor (m : string)
  | CursorExpired
  | AcdpRateLimited (retry_after : option Z)
  | CrossRegistryResolutionFailed (m : string)
  | Serialization (m : string)
  | RegistryInternal (m : string)
  | AcdpOther (m : string).

Inductive RegistryError : Type :=
  | RE_Acdp (e : AcdpError)
  | RE_Storage (m : string)
  | RE_Config (m : string)
  | RE_AuthChallenge (m : string)
  | RE_AuthToken (m : string)
  | RE_Jwt (m : string)
  | RE_RateLimited (retry_after_seconds : Z)
  | RE_WebhookDelivery (m : string)
  | RE_FieldViolation (field message : string)
  | RE_WithReason (inner : AcdpError) (reason : string)
  | RE_Internal (m : string).

Definition acdp_wire_code (err : AcdpError) : string :=
  match err with
  | SchemaViolation _ | InvalidBody _ | MissingField _ => "schema_violation"
  | PayloadTooLarge _ => "payload_too_large"
  | EmbeddedTooLarge _ => "embedded_too_large"
  | Canonicalization _ => "hash_mismatch"
  | HashMismatch _ _ | RemoteHashMismatch _ => "hash_mismatch"
  | DataRefHashMismatch _ => "data_ref_hash_mismatch"
  | UnsupportedAlgorithm _ => "unsupported_algorithm"
  | KeyNotAuthorized _ => "key_not_authorized"
  | KeyResolution _ => "key_resolution_failed"
  | KeyResolutionUnreachable _ => "key_resolution_unreachable"
  | InvalidSignature _ => "invalid_signature"
  | ImmutableField _ => "immutable_field"
  | InvalidLifecycleTransition _ => "invalid_lifecycle_transition"
  | InvalidLogProof _ => "invalid_log_proof"
  | InvalidWitnessCosignature _ => "invalid_witness_cosignature"
  | NotImplemented _ => "not_implemented"
  | DuplicatePublish _ => "duplicate_publish"
  | SupersededTarget _ _ => "superseded_target"
  | NotFound _ => "not_found"
  | NotAuthorized _ => "not_authorized"
  | InvalidCursor _ => "invalid_cursor"
  | CursorExpired => "cursor_expired"
  | AcdpRateLimited _ => "rate_limited"
  | CrossRegistryResolutionFailed _ => "cross_registry_resolution_failed"
  | _ => "internal_error"
  end.

Definition http_status_for_acdp (err : AcdpError) : Z :=
  match err with
  | SchemaViolation _ | InvalidBody _ | MissingField _ | Canonicalization _
  | HashMismatch _ _ | RemoteHashMismatch _ | DataRefHashMismatch _
  | UnsupportedAlgorithm _ | KeyResolution _ | InvalidSignature _
  | InvalidCursor _ | CursorExpired | ImmutableField _ => 400
  | PayloadTooLarge _ | EmbeddedTooLarge _ => 413
  | KeyNotAuthorized _ | NotAuthorized _ => 403
  | NotFound _ => 404
  | DuplicatePublish _ | InvalidLifecycleTransition _ => 409
  | SupersededTarget reason _ =>
      match reason with
      | SR_VersionMismatch | SR_AlreadySuperseded => 409
      | _ => 400
      end
  | AcdpRateLimited _ => 429
  | KeyResolutionUnreachable _ | CrossRegistryResolutionFailed _ => 502
  | InvalidLogProof _ => 502
  | InvalidWitnessCosignature _ => 502
  | NotImplemented _ => 501
  | _ => 500
  end.

Definition wire_code (err : RegistryError) : string :=
  match err with
  | RE_Acdp e => acdp_wire_code e
  | RE_WithReason inner _ => acdp_wire_code inner
  | RE_Storage _ => "internal_error"
  | RE_Config _ => "internal_error"
  | RE_AuthChallenge _ | RE_AuthToken _ | RE_Jwt _ => "not_authorized"
  | RE_RateLimited _ => "rate_limited"
  | RE_FieldViolation _ _ => "schema_violation"
  | RE_WebhookDelivery _ | RE_Internal _ => "internal_error"
  end.

Definition http_status (err : RegistryError) : Z :=
  match err with
  | RE_Acdp e => http_status_for_acdp e
  | RE_WithReason inner _ => http_status_for_acdp inner
  | RE_AuthChallenge _ | RE_AuthToken _ | RE_Jwt _ => 403
  | RE_RateLimited _ => 429
  | RE_FieldViolation _ _ => 400
  | RE_Storage _ | RE_WebhookDelivery _ | RE_Internal _ | RE_Config _ => 500
  end.

Definition from_cross_registry (err : AcdpError) : RegistryError :=
  match err with
  | SchemaViolation m | Serialization m => RE_Acdp (CrossRegistryResolutionFailed m)
  | other => RE_Acdp other
  end.

(** [From<AuthError> for RegistryError]. *)
Definition from_auth_error (e : AuthError) : RegistryError :=
  match e with
  | AE_Config m => RE_Config m
  | AE_Storage m => RE_Storage m
  | ChallengeUnknown m => RE_AuthChallenge m
  | ChallengeReplay m => RE_AuthChallenge m
  | ChallengeExpired => RE_AuthChallenge "expired"
  | Resolution m => RE_AuthChallenge m
  | ResolutionUnreachable m => RE_Acdp (KeyResolutionUnreachable m)
  | KeyIdMalformed m => RE_AuthChallenge ("key_id: " +:+ m)
  | KeyIdMismatch => RE_AuthChallenge "key_id does not bind to agent_id"
  | KeyNotAssertion => RE_AuthChallenge "key is not an assertionMethod"
  | UnsupportedDidMethod m => RE_AuthChallenge ("unsupported DID method: " +:+ m)
  | AlgorithmNotSupported m => RE_AuthChallenge ("unsupported algorithm: " +:+ m)
  | SignatureInvalid m => RE_AuthChallenge ("signature: " +:+ m)
  | TokenInvalid m => RE_AuthToken m
  | AE_Internal m => RE_Internal m
  end.

(** The one member a [details] object carries. *)
Inductive ErrorDetails : Type :=
  | DetailSupersession (reason : SupersessionReason)
  | DetailField (field : string)
  | DetailReason (reason : string).

Record WireErrorBody : Type := mkWireError {
  we_code : string;
  we_message : string;
  we_details : option ErrorDetails
}.

(** What [into_response] sends: the status, the body and [Retry-After]. *)
Record ErrorResponse : Type := mkErrorResponse {
  er_status : Z;
  er_body : WireErrorBody;
  er_content_type : string;
  er_retry_after : option Z
}.

Definition DEFAULT_RETRY_AFTER_SECONDS : Z := 60.

(** The delay of an SDK rate limit in seconds: whole seconds, rounded up, at
    least one, saturating in [u64]. *)
Definition retry_after_of (d : Z) : Z :=
  Z.max (Z.min u64_max (d / ns_per_sec + (if (0 <? d mod ns_per_sec)%Z then 1 else 0))) 1.

Section display.
(** [Display] of the SDK's errors. *)
Context (acdp_display : AcdpError → string) (decimal : Z → string).

(** [Display for RegistryError] ([thiserror]). *)
Definition display (err : RegistryError) : string :=
  match err with
  | RE_Acdp e => acdp_display e
  | RE_Storage m => "storage error: " +:+ m
  | RE_Config m => "config error: " +:+ m
  | RE_AuthChallenge m => "auth challenge: " +:+ m
  | RE_AuthToken m => "auth token: " +:+ m
  | RE_Jwt m => "jwt error: " +:+ m
  | RE_RateLimited n => "rate limited; retry after " +:+ decimal n +:+ "s"
  | RE_WebhookDelivery m => "webhook delivery error: " +:+ m
  | RE_FieldViolation _ message => message
  | RE_WithReason inner _ => acdp_display inner
  | RE_Internal m => "internal error: " +:+ m
  end.

Definition wire_message_and_details (err : RegistryError) : string * option ErrorDetails :=
  if bool_decide (wire_code err = "internal_error") then ("internal error", None)
  else
    match err with
    | RE_Acdp (SupersededTarget reason message) => (message, Some (DetailSupersession reason))
    | RE_FieldViolation field message => (message, Some (DetailField field))
    | RE_WithReason inner reason => (acdp_display inner, Some (DetailReason reason))
    | _ => (display err, None)
    end.

(** [From<&RegistryError> for WireError]. *)
Definition wire_error (err : RegistryError) : WireErrorBody :=
  let '(message, details) := wire_message_and_details err in
  mkWireError (wire_code err) message details.

Definition into_response (err : RegistryError) : ErrorResponse :=
  let retry_after :=
    match err with
    | RE_RateLimited retry_after_seconds => Some retry_after_seconds
    | RE_Acdp (AcdpRateLimited retry_after) =>
        Some (match retry_after with
              | Some d => retry_after_of d
              | None => DEFAULT_RETRY_AFTER_SECONDS
              end)
    | _ => None
    end in
  mkErrorResponse (http_status err) (wire_error err) "application/acdp+json" retry_after.

(** ** Properties *)

Lemma acdp_code_status e1 e2 :
  acdp_wire_code e1 = acdp_wire_code e2 →
  acdp_wire_code e1 ≠ "superseded_target" →
  http_status_for_acdp e1 = http_status_for_acdp e2.
Proof. destruct e1, e2; simpl; congruence. Qed.

(** Each error behaves on the wire like one SDK error. *)
Definition wire_class (err : RegistryError) : AcdpError :=
  match err with
  | RE_Acdp e | RE_WithReason e _ => e
  | RE_AuthChallenge _ | RE_AuthToken _ | RE_Jwt _ => NotAuthorized ""
  | RE_RateLimited _ => AcdpRateLimited None
  | RE_FieldViolation _ _ => SchemaViolation ""
  | _ => RegistryInternal ""
  end.

Lemma wire_class_code err : wire_code err = acdp_wire_code (wire_class err).
Proof. by destruct err. Qed.

Lemma wire_class_status err : http_status err = http_status_for_acdp (wire_class err).
Proof. by destruct err. Qed.

(** A client can key its handling off the wire code alone: two errors
    answered with the same code, [superseded_target] apart, are answered with
    the same HTTP status; and [internal_error] is exactly status 500. *)
Theorem wire_code_determines_status (err1 err2 : RegistryError) :
  (wire_code err1 = wire_code err2 →
   wire_code err1 ≠ "superseded_target" →
   http_status err1 = http_status err2) ∧
  (wire_code err1 = "internal_error" ↔ http_status err1 = 500%Z).
Proof.
  rewrite !wire_class_code !wire_class_status. split; [apply acdp_code_status|].
  destruct (wire_class err1) as [| | | | | | | | | | | | | | | | | | | |[] ?| | | | | | | | |];
    simpl; split; congruence.
Qed.

(** Nothing about an internal failure reaches the client: every
    [internal_error] response has one and the same body, without details, and
    no [Retry-After]. *)
Theorem internal_errors_leak_nothing (err : RegistryError) :
  http_status err = 500%Z →
  into_response err =
    mkErrorResponse 500 (mkWireError "internal_error" "internal error" None)
      "application/acdp+json" None.
Proof.
  intros Hs. assert (Hc : wire_code err = "internal_error").
  { revert Hs. rewrite wire_class_code wire_class_status.
    destruct (wire_class err) as [| | | | | | | | | | | | | | | | | | | |[] ?| | | | | | | | |];
      simpl; congruence. }
  rewrite /into_response /wire_error /wire_message_and_details Hs Hc bool_decide_true; [|done].
  destruct err as [[]| | | | | | | | | |]; simpl in *; congruence.
Qed.

(** Every 429 the limiters and the SDK raise carries [Retry-After], of at
    least one second when the limiter's own value is, and covers the whole
    delay the SDK asked for. *)
Theorem too_many_requests_carries_retry_after (err : RegistryError) :
  (∀ n, err = RE_RateLimited n → 1 ≤ n)%Z →
  (∀ e r, err ≠ RE_WithReason e r) →
  http_status err = 429%Z →
  ∃ secs, er_retry_after (into_response err) = Some secs ∧ (1 ≤ secs)%Z ∧
    ∀ d, err = RE_Acdp (AcdpRateLimited (Some d)) → (d ≤ u64_max * ns_per_sec)%Z →
      (d ≤ seconds secs)%Z.
Proof.
  intros Hn Hr Hs.
  destruct err as [[| | | | | | | | | | | | | | | | | | | |[]| | | | |[d|]| | | |]
                  | | | | | |n| | |e r|]; simpl in *; try discriminate.
  - exists (retry_after_of d). split_and!; [done|unfold retry_after_of; lia|].
    intros ? [= <-] Hd. unfold seconds, retry_after_of, ns_per_sec, u64_max in *.
    pose proof (Z.div_mod d 1000000000). pose proof (Z.mod_pos_bound d 1000000000).
    destruct (0 <? d mod 1000000000)%Z eqn:E; bool_to_prop; nia.
  - by exists DEFAULT_RETRY_AFTER_SECONDS.
  - exists n. split_and!; [done|by apply Hn|done].
  - by destruct (Hr e r).
Qed.
End display.

Lemma internal_errors_leak_nothing_witness :
  into_response (λ _, "secret") (λ _, "") (RE_Storage "password=hunter2") =
    mkErrorResponse 500 (mkWireError "internal_error" "internal error" None)
      "application/acdp+json" None.
Proof.
  apply (internal_errors_leak_nothing (λ _, "secret") (λ _, "") (RE_Storage "password=hunter2")).
  reflexivity.
Defined.

Lemma too_many_requests_carries_retry_after_witness :
  ∃ secs,
    er_retry_after (into_response (λ _, "") (λ _, "")
      (RE_Acdp (AcdpRateLimited (Some 1500000000)))) = Some secs ∧ (1 ≤ secs)%Z ∧
    ∀ d, RE_Acdp (AcdpRateLimited (Some 1500000000)) = RE_Acdp (AcdpRateLimited (Some d)) →
      (d ≤ u64_max * ns_per_sec)%Z → (d ≤ seconds secs)%Z.
Proof.
  apply (too_many_requests_carries_retry_after (λ _, "") (λ _, "")
           (RE_Acdp (AcdpRateLimited (Some 1500000000)))); [discriminate|discriminate|reflexivity].
Defined.
