(* ===== verification/ContextTypes.v ===== *)
(** * Contexts: the shared data

    The types of the [acdp] crate the context stores work on, with the members the
    registry reads, and the pure functions on them: the status projection and the
    row helpers of [acdp-registry-sqlite/src/store.rs],
    [reconcile_retraction] of [acdp-registry-store/src/lifecycle.rs] and the
    retrieval rule [retrieve_visible] of [acdp-registry-store/src/lib.rs]. *)

From S2P Require Import Prelude Errors.

(** [serde_json::Value]. *)
Inductive Value : Type :=
  | VNull
  | VBool (b : bool)
  | VNumber (text : string)
  | VString (s : string)
  | VArray (items : list Value)
  | VObject (members : list (string * Value)).

(** [Value::get] with a string key. *)
Definition value_get (v : Value) (key : string) : option Value :=
  match v with
  | VObject members => (λ p, p.2.2) <$> list_find (λ m, m.1 = key) members
  | _ => None
  end.

(** [acdp::types::primitives]. *)
Inductive ContextType : Type :=
  | DataSnapshot
  | Analysis
  | Prediction
  | Alert
  | CtKeyRevocation
  | CtCustom (t : string).

Inductive Visibility : Type := Public | Restricted | Private.

Inductive Status : Type :=
  | Active
  | SupersededStatus
  | Expired
  | Retracted
  | OtherStatus (s : string).

#[export] Instance ContextType_eq_dec : EqDecision ContextType.
Proof. solve_decision. Defined.

#[export] Instance Visibility_eq_dec : EqDecision Visibility.
Proof. solve_decision. Defined.

#[export] Instance Status_eq_dec : EqDecision Status.
Proof. solve_decision. Defined.

Record Signature : Type := mkSignature {
  sig_algorithm : string;
  sig_key_id : string;
  sig_value : string
}.

(** The members of [acdp::types::body::Body] the registry reads.
    [body_is_key_revocation] is what [ContextType::is_key_revocation] says of its
    type; times are nanoseconds. *)
Record Body : Type := mkBody {
  body_ctx_id : string;
  body_lineage_id : string;
  body_agent_id : string;
  body_is_key_revocation : bool;
  body_metadata : option Value;
  body_origin_registry : string;
  body_created_at : Z;
  body_context_type : ContextType;
  body_version : Z;
  body_supersedes : option string;
  body_contributors : list string;
  body_visibility : Visibility;
  body_audience : option (list string);
  body_expires_at : option Z;
  body_content_hash : string;
  body_signature : Signature;
  body_title : string;
  body_description : option string;
  body_summary : option string;
  body_domain : option string;
  body_tags : option (list string);
  body_derived_from : list string;
  body_schema_uri : option string;
  (** [DataPeriod]: its start and end. *)
  body_data_period : option (Z * Z)
}.

(** A body of the given identity with every other member at a default, for
    examples. *)
Definition example_body (ctx lineage agent : string) (revocation : bool) (metadata : option Value) :
    Body :=
  mkBody ctx lineage agent revocation metadata "reg.test" 0
    (if revocation then CtKeyRevocation else DataSnapshot) 1 None [] Public None None
    "sha256:00" (mkSignature "ed25519" "did:web:a#key-1" "AA") "" None None None None [] None None.

(** ** Wire forms *)

Definition context_type_str (t : ContextType) : string :=
  match t with
  | DataSnapshot => "data_snapshot"
  | Analysis => "analysis"
  | Prediction => "prediction"
  | Alert => "alert"
  | CtKeyRevocation => "key-revocation"
  | CtCustom s => s
  end.

Definition visibility_str (v : Visibility) : string :=
  match v with
  | Public => "public"
  | Restricted => "restricted"
  | Private => "private"
  end.

(** [Status::as_str]. *)
Definition status_str (s : Status) : string :=
  match s with
  | Active => "active"
  | SupersededStatus => "superseded"
  | Expired => "expired"
  | Retracted => "retracted"
  | OtherStatus s => s
  end.

Definition parse_status (s : string) : Status :=
  if bool_decide (s = "active") then Active
  else if bool_decide (s = "superseded") then SupersededStatus
  else if bool_decide (s = "expired") then Expired
  else if bool_decide (s = "retracted") then Retracted
  else OtherStatus s.

(** [key_attestations::stored_status]. *)
Definition stored_status (status : string) (retracted : bool) : Status :=
  if retracted then Retracted else parse_status status.

Definition project_status_inline (stored : Status) (expires_at : option Z) (now : Z) : Status :=
  match stored with
  | Active => match expires_at with
              | Some exp => if (exp <=? now)%Z then Expired else Active
              | None => Active
              end
  | other => other
  end.

(** [retrieve_visible]. *)
Definition retrieve_visible (body : Body) (requester : option string) (public_arm_open : bool) :
    bool :=
  match body_visibility body with
  | Public => public_arm_open || bool_decide (is_Some requester)
  | Restricted | Private =>
      match requester with
      | None => false
      | Some r =>
          bool_decide (r = body_agent_id body)
          || match body_audience body with
             | Some a => bool_decide (r ∈ a)
             | None => false
             end
      end
  end.

(** ** Publish requests *)

(** The [key_attestation] reference of a request. *)
Record KeyAttestationRef : Type := mkAttestationRef {
  ref_ctx_id : string;
  ref_content_hash : string
}.

(** The members of [PublishRequest] the registry reads. *)
Record PublishRequest : Type := mkRequest {
  req_agent_id : string;
  req_version : Z;
  req_supersedes : option string;
  req_lineage_id : option string;
  req_content_hash : string;
  req_context_type : ContextType;
  req_signature : Signature;
  req_key_attestation : option KeyAttestationRef;
  req_contributors : list string;
  req_visibility : Visibility;
  req_audience : option (list string);
  req_expires_at : option Z;
  req_metadata : option Value;
  req_anchors : option Value;
  req_acdp_version : option string;
  req_derived_from : list string
}.

(** The [acdp] crate's construction of a stored body. [draw] stands for the random
    bits of a new context id. *)
Class PublishSdk : Type := {
  (** Request, context id, lineage id, authority, [created_at]. *)
  from_publish_request : PublishRequest → string → string → string → Z → Body;
  (** Authority, [supersedes], the lineage's first context, the draw. *)
  assign_identifiers : string → option string → option string → Z → result (string * string) AcdpError;
  (** The lineage a first version founds. *)
  lineage_of : string → string
}.

(** What the crate documents: a body is the request's members under the assigned
    identifiers; a first version founds the lineage of its own id, a successor joins
    the lineage of the first version it is given; and lineage ids, being digests, do
    not collide. *)
Class PublishSdkLaws `{PublishSdk} : Prop := {
  built_ctx_id r c l a t : body_ctx_id (from_publish_request r c l a t) = c;
  built_lineage_id r c l a t : body_lineage_id (from_publish_request r c l a t) = l;
  built_agent_id r c l a t : body_agent_id (from_publish_request r c l a t) = req_agent_id r;
  built_version r c l a t : body_version (from_publish_request r c l a t) = req_version r;
  built_supersedes r c l a t : body_supersedes (from_publish_request r c l a t) = req_supersedes r;
  built_contributors r c l a t :
    body_contributors (from_publish_request r c l a t) = req_contributors r;
  built_created_at r c l a t : body_created_at (from_publish_request r c l a t) = t;
  built_content_hash r c l a t :
    body_content_hash (from_publish_request r c l a t) = req_content_hash r;
  assigned_first a d c l : assign_identifiers a None None d = Ok (c, l) → l = lineage_of c;
  assigned_successor a p f d c l :
    assign_identifiers a (Some p) (Some f) d = Ok (c, l) → l = lineage_of f;
  (** A successor of no known lineage is refused. *)
  assigned_orphan a p d : is_ok (assign_identifiers a (Some p) None d) = false;
  #[global] lineage_of_inj :: Inj (=) (=) lineage_of
}.
