(* ===== verification/ChangeBucket.v ===== *)
(** * Bucket filters of the change feed

    [acdp-registry-store/src/change_bucket.rs]: a bucket is a prefix of a row's
    stored hash, and [Bucket::range] turns the prefix into the half-open range
    the SQL backends scan. The hash itself ([bucket], SHA-256) and the grammar
    check ([WatchFilter::validate_buckets]) belong to the [acdp] crate and are
    parameters; [bucket_grammar] is the documented grammar. *)

From S2P Require Import Prelude Errors.

(** [BUCKET_HASH_LEN]: the digits of a whole SHA-256 digest. *)
Definition BUCKET_HASH_LEN : nat := 64.

(** [acdp::types::change::MAX_CHANGE_BUCKET_LENGTH], the schema maximum. *)
Definition MAX_CHANGE_BUCKET_LENGTH : Z := 16.

(** A lowercase hex digit, as its byte. *)
Definition is_hex (b : Z) : Prop := (48 ≤ b ≤ 57 ∨ 97 ≤ b ≤ 102)%Z.

#[export] Instance is_hex_dec b : Decision (is_hex b) := _.

Definition hex_string (s : string) : Prop := Forall is_hex (as_bytes s).

#[export] Instance hex_string_dec s : Decision (hex_string s).
Proof. unfold hex_string. apply _. Defined.

(** The struct [Bucket(String)]. *)
Record HashBucket : Type := mkBucket { bucket_digits : string }.

#[export] Instance HashBucket_eq_dec : EqDecision HashBucket.
Proof. solve_decision. Defined.

(** What [Bucket::parse] guarantees: one to sixteen lowercase hex digits. *)
Definition bucket_wf (b : HashBucket) : Prop :=
  hex_string (bucket_digits b) ∧
  (1 ≤ length (as_bytes (bucket_digits b)) ≤ Z.to_nat MAX_CHANGE_BUCKET_LENGTH)%nat.

Section parse.
(** [WatchFilter::new().lineage_bucket(raw).validate_buckets(Some(max))]. *)
Context (validate_buckets : string → Z → result unit AcdpError).

(** [Bucket::parse]. *)
Definition bucket_parse (raw : string) (max_len : Z) : result HashBucket AcdpError :=
  and_then (validate_buckets raw (Z.min max_len MAX_CHANGE_BUCKET_LENGTH))
    (λ _, Ok (mkBucket raw)).

(** The SDK's grammar: one to [max] lowercase hex digits. *)
Definition bucket_grammar : Prop := ∀ raw max,
  validate_buckets raw max = Ok tt →
  hex_string raw ∧ (1 ≤ Z.of_nat (length (as_bytes raw)) ≤ max)%Z.

Lemma bucket_parse_wf raw max_len b :
  bucket_grammar → bucket_parse raw max_len = Ok b → bucket_digits b = raw ∧ bucket_wf b.
Proof.
  intros Hg Hp. unfold bucket_parse in Hp.
  destruct (validate_buckets _ _) as [[]|] eqn:Hv; simplify_eq/=.
  apply Hg in Hv as [Hh [H1 H2]]. repeat split; simpl; [done|lia|].
  unfold MAX_CHANGE_BUCKET_LENGTH in *. lia.
Qed.
End parse.

(** [Bucket::contains]. *)
Definition contains (b : HashBucket) (hash : string) : bool := starts_with hash (bucket_digits b).

(** The loop of [Bucket::range], from the last digit: an [f] becomes [0] and
    carries, any other digit is incremented ([9] to [a]) and ends the loop. *)
Fixpoint range_carry (rev_digits : list Z) : option (list Z) :=
  match rev_digits with
  | [] => None
  | d :: ds =>
      if (d =? 102)%Z then option_map (cons 48%Z) (range_carry ds)
      else Some ((if (d =? 57)%Z then 97%Z else (d + 1)%Z) :: ds)
  end.

(** [Bucket::range]. *)
Definition range (b : HashBucket) : string * option string :=
  (bucket_digits b,
   option_map (λ up, from_bytes (rev up)) (range_carry (rev (as_bytes (bucket_digits b))))).

(** The range test of the SQL backends: [col >= lower AND col < upper]. *)
Definition in_range (r : string * option string) (hash : string) : bool :=
  bytes_leb (as_bytes r.1) (as_bytes hash) &&
  match r.2 with
  | Some upper => bytes_ltb (as_bytes hash) (as_bytes upper)
  | None => true
  end.

(** ** The range is the prefix *)

(** The same increment, read from the first digit. *)
Fixpoint hex_succ (digits : list Z) : option (list Z) :=
  match digits with
  | [] => None
  | d :: ds =>
      match hex_succ ds with
      | Some up => Some (d :: up)
      | None =>
          if (d =? 102)%Z then None
          else Some ((if (d =? 57)%Z then 97%Z else (d + 1)%Z) :: replicate (length ds) 48%Z)
      end
  end.

Lemma range_carry_app l d :
  range_carry (l ++ [d]) =
    match range_carry l with
    | Some up => Some (up ++ [d])
    | None =>
        if (d =? 102)%Z then None
        else Some (replicate (length l) 48%Z ++ [if (d =? 57)%Z then 97%Z else (d + 1)%Z])
    end.
Proof.
  induction l as [|x l IH]; simpl; [by destruct (d =? 102)%Z|].
  destruct (x =? 102)%Z; [|done].
  rewrite IH. destruct (range_carry l); simpl; [done|]. by destruct (d =? 102)%Z.
Qed.

Lemma rev_replicate {A} n (x : A) : rev (replicate n x) = replicate n x.
Proof.
  induction n as [|n IH]; [done|]. simpl. rewrite IH -replicate_cons_app. done.
Qed.

Lemma range_carry_hex_succ l : option_map (@rev Z) (range_carry (rev l)) = hex_succ l.
Proof.
  induction l as [|d l IH]; [done|]. simpl. rewrite range_carry_app -IH.
  destruct (range_carry (rev l)) as [up|]; simpl; [by rewrite rev_app_distr|].
  destruct (d =? 102)%Z; [done|]. simpl.
  by rewrite rev_app_distr /= rev_replicate length_rev.
Qed.

Lemma hex_succ_hex l up : Forall is_hex l → hex_succ l = Some up → Forall is_hex up.
Proof.
  intros Hl. revert up. induction Hl as [|d l Hd Hl IH]; intros up H; simpl in H; [done|].
  destruct (hex_succ l) as [up'|]; simplify_eq; [by constructor; auto|].
  destruct (d =? 102)%Z eqn:E1; simplify_eq. constructor.
  - unfold is_hex in *. destruct (d =? 57)%Z eqn:E2; bool_to_prop; lia.
  - apply Forall_replicate. unfold is_hex. lia.
Qed.

Lemma is_hex_is_byte b : is_hex b → is_byte b.
Proof. unfold is_hex, is_byte. lia. Qed.

(** Nothing of the same length is below a string of zeros. *)
Lemma not_below_zeros h n :
  Forall is_hex h → (n ≤ length h)%nat → bytes_ltb h (replicate n 48%Z) = false.
Proof.
  revert n. induction h as [|c h IH]; intros [|n] Hh Hn; simpl in *; try done; [lia|].
  apply Forall_cons in Hh as [Hc Hh]. rewrite IH; [|done|lia].
  assert (¬ (c < 48)%Z) by (unfold is_hex in Hc; lia).
  destruct (c <? 48)%Z eqn:E; bool_to_prop; [lia|]. by rewrite andb_false_r.
Qed.

Lemma hex_range_prefix p h :
  Forall is_hex p → Forall is_hex h → (length p ≤ length h)%nat →
  bool_decide (p `prefix_of` h) =
    negb (bytes_ltb h p) &&
    match hex_succ p with Some up => bytes_ltb h up | None => true end.
Proof.
  revert h. induction p as [|d p IH]; intros h Hp Hh Hlen.
  { rewrite bool_decide_true; [by destruct h|apply prefix_nil]. }
  destruct h as [|c h]; [simpl in Hlen; lia|].
  apply Forall_cons in Hp as [Hd Hp], Hh as [Hc Hh]. simpl in Hlen.
  specialize (IH h Hp Hh ltac:(lia)).
  destruct (decide (c = d)) as [->|Hne].
  - rewrite (bool_decide_ext _ (p `prefix_of` h));
      [|split; [apply prefix_cons_inv_2|apply prefix_cons]].
    rewrite IH. simpl. rewrite Z.ltb_irrefl Z.eqb_refl /=.
    destruct (hex_succ p) as [up|]; simpl; [by rewrite Z.ltb_irrefl Z.eqb_refl|].
    destruct (d =? 102)%Z eqn:E; simpl; [done|].
    rewrite (_ : (d <? _)%Z = true); [by rewrite andb_true_r|].
    unfold is_hex in Hd. apply Z.ltb_lt. destruct (d =? 57)%Z eqn:E2; bool_to_prop; lia.
  - rewrite bool_decide_false; [|by intros ?%prefix_cons_inv_1].
    simpl. rewrite (_ : (c =? d)%Z = false); [|by apply Z.eqb_neq]. rewrite orb_false_r.
    destruct (c <? d)%Z eqn:Hcd; bool_to_prop; simpl; [done|].
    destruct (hex_succ p) as [up|]; simpl.
    + rewrite (_ : (c =? d)%Z = false); [|by apply Z.eqb_neq].
      rewrite (_ : (c <? d)%Z = false); [done|by apply Z.ltb_ge].
    + unfold is_hex in Hc, Hd. destruct (d =? 102)%Z eqn:E; bool_to_prop; [lia|].
      rewrite not_below_zeros; [|done|lia]. rewrite andb_false_r orb_false_r. symmetry.
      apply Z.ltb_ge. destruct (d =? 57)%Z eqn:E2; bool_to_prop; lia.
Qed.

Lemma range_contains b hash :
  bucket_wf b → hex_string hash → length (as_bytes hash) = BUCKET_HASH_LEN →
  in_range (range b) hash = contains b hash.
Proof.
  intros [Hb Hlen] Hh Hhl. unfold contains, starts_with.
  assert (Hle : (length (as_bytes (bucket_digits b)) ≤ length (as_bytes hash))%nat).
  { rewrite Hhl. unfold BUCKET_HASH_LEN, MAX_CHANGE_BUCKET_LENGTH in *. lia. }
  rewrite (hex_range_prefix _ _ Hb Hh Hle) /in_range /bytes_leb /=. f_equal.
  rewrite -range_carry_hex_succ.
  destruct (range_carry _) as [up|] eqn:Hc; simpl; [|done].
  rewrite as_bytes_from_bytes; [done|].
  eapply Forall_impl; [|apply is_hex_is_byte].
  apply (hex_succ_hex (as_bytes (bucket_digits b))); [done|].
  by rewrite -range_carry_hex_succ Hc.
Qed.

#[export] Hint Rewrite range_contains using done : registry.

(** [Bucket::range] selects exactly the bucket: for every bucket the
    grammar admits and every stored hash (64 lowercase hex digits), the hash is
    at or above the lower bound and below the upper bound, bytewise, if and
    only if it starts with the bucket's digits; the bounds are again lowercase
    hex of the bucket's own width. *)
Theorem bucket_range_is_prefix_test (b : HashBucket) (hash : string) :
  bucket_wf b → hex_string hash → length (as_bytes hash) = BUCKET_HASH_LEN →
  in_range (range b) hash = contains b hash ∧
  ∀ upper, (range b).2 = Some upper →
    hex_string upper ∧ length (as_bytes upper) = length (as_bytes (bucket_digits b)).
Proof.
  intros Hb Hh Hl. split; [by apply range_contains|].
  intros upper Hu. destruct Hb as [Hb _]. unfold range in Hu. simpl in Hu.
  destruct (range_carry _) as [up|] eqn:Hc; simplify_eq/=.
  assert (Hs : hex_succ (as_bytes (bucket_digits b)) = Some (rev up)).
  { by rewrite -range_carry_hex_succ Hc. }
  assert (Hx : Forall is_hex (rev up)) by exact (hex_succ_hex _ _ Hb Hs).
  unfold hex_string. rewrite as_bytes_from_bytes;
    [|exact (Forall_impl _ _ _ Hx is_hex_is_byte)].
  split; [done|]. clear Hc Hx Hb Hh Hl. revert Hs. generalize (rev up). clear.
  induction (as_bytes (bucket_digits b)) as [|d l IH]; intros u; simpl; [done|].
  destruct (hex_succ l) as [u'|] eqn:E.
  - intros [= <-]. simpl. by rewrite (IH u').
  - destruct (d =? 102)%Z; [done|]. intros [= <-]. simpl. by rewrite length_replicate.
Qed.

Lemma bucket_range_is_prefix_test_witness :
  in_range (range (mkBucket "1f")) "1f54677c32bda0fce357ac477603794f48739d9e1590b5ad5fa7ee48801432de" =
    contains (mkBucket "1f") "1f54677c32bda0fce357ac477603794f48739d9e1590b5ad5fa7ee48801432de" ∧
  ∀ upper, (range (mkBucket "1f")).2 = Some upper →
    hex_string upper ∧ length (as_bytes upper) = 2.
Proof.
  apply (bucket_range_is_prefix_test (mkBucket "1f")
           "1f54677c32bda0fce357ac477603794f48739d9e1590b5ad5fa7ee48801432de").
  - split; [|vm_compute; lia]. apply (bool_decide_unpack _). vm_compute. exact I.
  - apply (bool_decide_unpack _). vm_compute. exact I.
  - reflexivity.
Defined.

Example range_carries : range (mkBucket "a9f") = ("a9f", Some "aa0").
Proof. reflexivity. Qed.

Example range_unbounded : range (mkBucket "ff") = ("ff", None).
Proof. reflexivity. Qed.
