(* ===== verification/ChangeFeed.v ===== *)
(** * The change feed: rows, queries and pages

    [acdp-registry-store/src/changes.rs]: the shapes every backend shares and
    the rules that decide which rows a publish or a lifecycle event appends.
    What belongs to the [acdp] crate, [serde_json] and [sha2] (parsers,
    constructors of the served entry, the digest) is the class [ChangeSdk].

    The second half is the abstract feed [AFeed], an append-only log with a
    pruning mark, and the interface [FeedContract] by which a backend
    implements it. *)

From stdpp Require Import pretty.
From S2P Require Import Prelude Errors ContextTypes ChangeBucket.

Open Scope registry_scope.

(** [acdp::types::change::ChangeKind] and its wire form. *)
Inductive ChangeKind : Type := Lifecycle | Superseded | KeyRevocation.

#[export] Instance ChangeKind_eq_dec : EqDecision ChangeKind.
Proof. solve_decision. Defined.

Definition kind_as_str (k : ChangeKind) : string :=
  match k with
  | Lifecycle => "lifecycle"
  | Superseded => "superseded"
  | KeyRevocation => "key_revocation"
  end.

Definition kind_parse (s : string) : option ChangeKind :=
  if bool_decide (s = "lifecycle") then Some Lifecycle
  else if bool_decide (s = "superseded") then Some Superseded
  else if bool_decide (s = "key_revocation") then Some KeyRevocation
  else None.

Lemma kind_parse_as_str k : kind_parse (kind_as_str k) = Some k.
Proof. by destruct k. Qed.

#[export] Instance kind_as_str_inj : Inj (=) (=) kind_as_str.
Proof. intros k1 k2 H. by apply (inj Some); rewrite -!kind_parse_as_str H. Qed.

(** [FeedFingerprint], eight bytes. *)
Definition FeedFingerprint : Type := list Z.

Definition FEED_ORIGIN_FP : FeedFingerprint := replicate 8 0%Z.

(** The parts of the [acdp] crate, [sha2] and [serde_json] the feed calls. An
    id is kept as its string. *)
Class ChangeSdk : Type := {
  LifecycleEvent : Type;
  EventReceipt : Type;
  RegistryReceipt : Type;
  Change : Type;
  bucket : string → nat → string;
  sha256 : list Z → list Z;
  agent_did_parse : string → result string AcdpError;
  lineage_id_parse : string → result string AcdpError;
  ctx_id_parse : string → result string AcdpError;
  event_from_value : Value → result LifecycleEvent AcdpError;
  event_to_value : LifecycleEvent → result Value string;
  event_receipt_from_value : Value → result EventReceipt AcdpError;
  registry_receipt_from_value : Value → result RegistryReceipt AcdpError;
  change_lifecycle : Z → string → string → Value → EventReceipt → result Change AcdpError;
  change_superseded : Z → string → string → RegistryReceipt → result Change AcdpError;
  change_key_revocation : Z → string → RegistryReceipt → result Change AcdpError;
  change_lineage_id : Change → string;
  change_agent_id : Change → string;
  sdk_display : AcdpError → string
}.

Record FeedAppend : Type := mkAppend {
  fa_kind : ChangeKind;
  fa_ctx_id : string;
  fa_lineage_id : string;
  fa_agent_id : string;
  fa_superseded_by : option string;
  fa_event : option Value;
  fa_receipt : Value;
  fa_lineage_hash : string;
  fa_agent_hash : string
}.

Record FeedRow : Type := mkRow {
  seq : Z;
  row_kind : ChangeKind;
  row_ctx_id : string;
  row_lineage_id : string;
  row_agent_id : string;
  row_superseded_by : option string;
  row_event : option Value;
  row_receipt : Value;
  appended_at_ms : Z;
  row_lineage_hash : string;
  row_agent_hash : string
}.

(** The row an append becomes at position [n], at [now_ms]. *)
Definition row_of_append (n now_ms : Z) (a : FeedAppend) : FeedRow :=
  mkRow n (fa_kind a) (fa_ctx_id a) (fa_lineage_id a) (fa_agent_id a) (fa_superseded_by a)
    (fa_event a) (fa_receipt a) now_ms (fa_lineage_hash a) (fa_agent_hash a).

(** The superseded predecessor of a publish. *)
Record Predecessor : Type := mkPredecessor { pred_ctx_id : string; pred_agent_id : string }.

Section rules.
Context `{ChangeSdk}.

Definition bucket_hash (value : string) : string := bucket value BUCKET_HASH_LEN.

(** [FeedAppend::derive]. *)
Definition derive_append (kind : ChangeKind) (ctx_id lineage_id agent_id : string)
    (superseded_by : option string) (event : option Value) (receipt : Value) : FeedAppend :=
  mkAppend kind ctx_id lineage_id agent_id superseded_by event receipt
    (bucket_hash lineage_id) (bucket_hash agent_id).

Definition feed_fingerprint (s appended_ms : Z) (kind : ChangeKind) (ctx_id : string) :
    FeedFingerprint :=
  take 8 (sha256 (as_bytes "acdp-registry/changes-fp/v1" ++ [0%Z] ++ to_be_bytes 8 s ++
    to_be_bytes 8 (appended_ms mod 2 ^ 64) ++ as_bytes (kind_as_str kind) ++ [0%Z] ++
    as_bytes ctx_id)).

(** [FeedRow::fingerprint]. *)
Definition fingerprint (r : FeedRow) : FeedFingerprint :=
  feed_fingerprint (seq r) (appended_at_ms r) (row_kind r) (row_ctx_id r).

(** [FeedRow::from_columns]: [seq] is the stored [i64], [kind] the stored text. *)
Definition from_columns (s : Z) (kind ctx_id lineage_id agent_id : string)
    (superseded_by : option string) (event : option Value) (receipt : Value) (at_ms : Z)
    (lineage_hash agent_hash : string) : result FeedRow AcdpError :=
  if (s <? 0)%Z then
    Err (RegistryInternal ("stored change seq " +:+ pretty s +:+ " is negative"))
  else
    match kind_parse kind with
    | None => Err (RegistryInternal ("stored change " +:+ pretty s +:+ " has a bad kind"))
    | Some k => Ok (mkRow s k ctx_id lineage_id agent_id superseded_by event receipt at_ms
                      lineage_hash agent_hash)
    end.

(** The error a stored row that no longer parses becomes. *)
Definition corrupt (r : FeedRow) (e : AcdpError) : AcdpError :=
  RegistryInternal
    ("stored change " +:+ pretty (seq r) +:+ " is malformed: " +:+ sdk_display e).

(** [FeedRow::to_change]. *)
Definition to_change (r : FeedRow) : result Change AcdpError :=
  let? agent := map_err (corrupt r) (agent_did_parse (row_agent_id r)) in
  match row_kind r with
  | Lifecycle =>
      let? raw := ok_or (row_event r)
        (corrupt r (RegistryInternal "lifecycle entry without an event")) in
      let? event := map_err (corrupt r) (event_from_value raw) in
      let? event := map_err (λ e, corrupt r (RegistryInternal e)) (event_to_value event) in
      let? receipt := map_err (corrupt r) (event_receipt_from_value (row_receipt r)) in
      let? lineage := map_err (corrupt r) (lineage_id_parse (row_lineage_id r)) in
      map_err (corrupt r) (change_lifecycle (seq r) lineage agent event receipt)
  | Superseded =>
      let? ctx := map_err (corrupt r) (ctx_id_parse (row_ctx_id r)) in
      let? receipt := map_err (corrupt r) (registry_receipt_from_value (row_receipt r)) in
      map_err (corrupt r) (change_superseded (seq r) ctx agent receipt)
  | KeyRevocation =>
      let? receipt := map_err (corrupt r) (registry_receipt_from_value (row_receipt r)) in
      map_err (corrupt r) (change_key_revocation (seq r) agent receipt)
  end.

(** The closure [bucketed] of [check_servable]. *)
Definition bucketed (a : FeedAppend) (member served column hash : string) :
    result unit AcdpError :=
  if negb (bool_decide (served = column)) || negb (bool_decide (hash = bucket_hash served)) then
    Err (RegistryInternal (kind_as_str (fa_kind a) +:+ " row for " +:+ fa_ctx_id a +:+
           " would serve " +:+ member +:+ " " +:+ served +:+ " but bucket " +:+ column +:+
           " (RFC-ACDP-0018 6.1)"))
  else Ok tt.

Definition check_servable (a : FeedAppend) : result unit AcdpError :=
  let? change := to_change (row_of_append 1 0 a) in
  let? _ := bucketed a "lineage_id" (change_lineage_id change) (fa_lineage_id a)
              (fa_lineage_hash a) in
  bucketed a "agent_id" (change_agent_id change) (fa_agent_id a) (fa_agent_hash a).

Definition lifecycle_append (event : LifecycleEvent) (body : Body) (receipt : option Value) :
    result (option FeedAppend) AcdpError :=
  match receipt with
  | None => Ok None
  | Some receipt =>
      let? event := map_err (λ e, RegistryInternal ("encode lifecycle event: " +:+ e))
                      (event_to_value event) in
      let append := derive_append Lifecycle (body_ctx_id body) (body_lineage_id body)
                      (body_agent_id body) None (Some event) receipt in
      let? _ := check_servable append in
      Ok (Some append)
  end.

Definition revoked_key_controller (body : Body) : result string AcdpError :=
  match body_metadata body ≫= λ m, value_get m "revoked_key_controller" with
  | None | Some VNull => Ok (body_agent_id body)
  | Some (VString s) => agent_did_parse s
  | Some _ => Err (SchemaViolation "metadata.revoked_key_controller must be a DID string")
  end.

(** [check_servable] on each row in turn. *)
Fixpoint check_all_servable (l : list FeedAppend) : result unit AcdpError :=
  match l with
  | [] => Ok tt
  | a :: l => let? _ := check_servable a in check_all_servable l
  end.

Definition feed_appends_for_publish (body : Body) (receipt : option Value)
    (predecessor : option Predecessor) : result (list FeedAppend) AcdpError :=
  match receipt with
  | None => Ok []
  | Some receipt =>
      let superseded :=
        match predecessor with
        | Some prev =>
            [derive_append Superseded (pred_ctx_id prev) (body_lineage_id body)
               (pred_agent_id prev) (Some (body_ctx_id body)) None receipt]
        | None => []
        end in
      let? out :=
        (if body_is_key_revocation body then
           let? controller := revoked_key_controller body in
           Ok (superseded ++
                 [derive_append KeyRevocation (body_ctx_id body) (body_lineage_id body)
                    controller None None receipt])
         else Ok superseded) in
      let? _ := check_all_servable out in
      Ok out
  end.
End rules.

(** ** Queries *)

Record FeedQuery : Type := mkQuery {
  after : Z;
  ctx_ids : list string;
  lineage_ids : list string;
  agent_ids : list string;
  revocation_agents : list string;
  lineage_buckets : list HashBucket;
  agent_buckets : list HashBucket;
  kinds : list ChangeKind;
  scan_limit : Z
}.

(** [FeedQuery { after, ..q }]. *)
Definition query_after (n : Z) (q : FeedQuery) : FeedQuery :=
  mkQuery n (ctx_ids q) (lineage_ids q) (agent_ids q) (revocation_agents q)
    (lineage_buckets q) (agent_buckets q) (kinds q) (scan_limit q).

(** [FeedQuery::limit]. *)
Definition limit (q : FeedQuery) : Z := Z.max (scan_limit q) 1.

(** [FeedQuery::has_id_clause]. *)
Definition has_id_clause (q : FeedQuery) : bool :=
  negb (is_empty (ctx_ids q) && is_empty (lineage_ids q) && is_empty (agent_ids q) &&
        is_empty (revocation_agents q) && is_empty (lineage_buckets q) &&
        is_empty (agent_buckets q)).

Definition has (l : list string) (v : string) : bool := existsb (λ x, bool_decide (x = v)) l.

(** [FeedQuery::matches]. *)
Definition matches (q : FeedQuery) (row : FeedRow) : bool :=
  let id_ok :=
    negb (has_id_clause q)
    || has (ctx_ids q) (row_ctx_id row)
    || has (lineage_ids q) (row_lineage_id row)
    || has (agent_ids q) (row_agent_id row)
    || (bool_decide (row_kind row = KeyRevocation) && has (revocation_agents q) (row_agent_id row))
    || existsb (λ b, contains b (row_lineage_hash row)) (lineage_buckets q)
    || existsb (λ b, contains b (row_agent_hash row)) (agent_buckets q) in
  let kind_ok := is_empty (kinds q) || bool_decide (row_kind row ∈ kinds q) in
  id_ok && kind_ok.

Record FeedHead : Type := mkHead {
  head : Z;
  head_fp : option FeedFingerprint;
  pruned_through : Z;
  pruned_through_fp : option FeedFingerprint
}.

(** [FeedHead::from_snapshot]. *)
Definition from_snapshot (top : option (Z * FeedFingerprint)) (pruned : Z)
    (pruned_fp : option FeedFingerprint) : FeedHead :=
  let '(h, fp) :=
    match top with
    | Some (s, fp) =>
        if (pruned <? s)%Z then (s, Some fp)
        else if (pruned =? 0)%Z then (0%Z, Some FEED_ORIGIN_FP)
        else (pruned, pruned_fp)
    | None => if (pruned =? 0)%Z then (0%Z, Some FEED_ORIGIN_FP) else (pruned, pruned_fp)
    end in
  mkHead h fp pruned pruned_fp.

Record FeedPage : Type := mkPage {
  rows : list FeedRow;
  last_scanned : Z;
  reached_head : bool;
  page_head : Z;
  page_head_fp : option FeedFingerprint;
  page_pruned_through : Z;
  page_pruned_through_fp : option FeedFingerprint
}.

(** [FeedPage::from_scan]. *)
Definition from_scan (query : FeedQuery) (rs : list FeedRow) (h : FeedHead) : FeedPage :=
  let reached := (Z.of_nat (length rs) <? limit query)%Z in
  let scanned :=
    match last rs with
    | Some r => if negb reached then seq r else Z.max (head h) (after query)
    | None => Z.max (head h) (after query)
    end in
  mkPage rs scanned reached (head h) (head_fp h) (pruned_through h) (pruned_through_fp h).

(** ** The abstract feed

    Every row ever appended, in order, and the mark up to which retention has
    deleted them. *)

Record AFeed : Type := mkAFeed {
  log : list FeedRow;
  mark : Z;
  mark_fp : option FeedFingerprint
}.

Definition empty_feed : AFeed := mkAFeed [] 0 None.

(** Strictly increasing positions. *)
Definition seq_lt (r1 r2 : FeedRow) : Prop := (seq r1 < seq r2)%Z.

(** A stored hash: 64 lowercase hex digits. *)
Definition hash_wf (h : string) : Prop :=
  hex_string h ∧ length (as_bytes h) = BUCKET_HASH_LEN.

Definition row_wf (r : FeedRow) : Prop :=
  (0 < seq r ≤ i64_max)%Z ∧ hash_wf (row_lineage_hash r) ∧ hash_wf (row_agent_hash r).

Definition live (a : AFeed) : list FeedRow := filter (λ r, (mark a < seq r)%Z) (log a).

(** The last position ever assigned. *)
Definition top (a : AFeed) : Z := match last (log a) with Some r => seq r | None => 0 end.

(** The rows of the log in the half-open interval [(lo, hi]] that satisfy [P]. *)
Definition between (a : AFeed) (lo hi : Z) (P : FeedRow → bool) : list FeedRow :=
  filter (λ r, (lo < seq r ≤ hi)%Z ∧ P r = true) (log a).

Section abstract.
Context `{ChangeSdk}.

Record afeed_wf (a : AFeed) : Prop := {
  wf_sorted : StronglySorted seq_lt (log a);
  wf_rows : Forall row_wf (log a);
  wf_mark : mark a = 0%Z ∨ ∃ r, r ∈ log a ∧ seq r = mark a;
  wf_mark_fp : ∀ fp, mark_fp a = Some fp → ∃ r, r ∈ log a ∧ seq r = mark a ∧ fingerprint r = fp
}.

Definition a_head (a : AFeed) : FeedHead :=
  from_snapshot ((λ r, (seq r, fingerprint r)) <$> last (live a)) (mark a) (mark_fp a).

Definition a_rows (a : AFeed) (q : FeedQuery) : list FeedRow :=
  take (Z.to_nat (limit q)) (filter (λ r, (after q < seq r)%Z ∧ matches q r = true) (live a)).

Definition a_page (a : AFeed) (q : FeedQuery) : FeedPage := from_scan q (a_rows a q) (a_head a).

Definition a_append (a : AFeed) (new : list FeedRow) : AFeed :=
  mkAFeed (log a ++ new) (mark a) (mark_fp a).

(** The rows one prune deletes. *)
Definition prunable (a : AFeed) (older_than_ms batch : Z) : list FeedRow :=
  take_while (λ r, (appended_at_ms r <? older_than_ms)%Z)
    (take (Z.to_nat (Z.max batch 1)) (live a)).

Definition a_prune (a : AFeed) (older_than_ms batch : Z) : AFeed :=
  match last (prunable a older_than_ms batch) with
  | Some r => mkAFeed (log a) (seq r) (Some (fingerprint r))
  | None => a
  end.
End abstract.

(** How the feed may change between two calls: rows are appended at the end,
    and the mark moves up only to a recorded fingerprint. *)
Definition evolves (a a' : AFeed) : Prop :=
  log a `prefix_of` log a' ∧
  (mark a' = mark a ∧ mark_fp a' = mark_fp a ∨ (mark a < mark a')%Z ∧ is_Some (mark_fp a')).

#[export] Instance evolves_preorder : PreOrder evolves.
Proof.
  split; [intros a; split; [done|by left]|].
  intros a b c [H1 H2] [H3 H4]. split; [by etrans|].
  destruct H2 as [[Hm2 Hf2]|[Hm2 Hf2]], H4 as [[Hm4 Hf4]|[Hm4 Hf4]].
  - left. by rewrite Hm4 Hf4.
  - right. split; [lia|done].
  - right. split; [lia|by rewrite Hf4].
  - right. split; [lia|done].
Qed.

Lemma evolves_mark a a' : evolves a a' → (mark a ≤ mark a')%Z.
Proof. intros [_ [[H _]|[H _]]]; lia. Qed.

(** *** Sorted lists of rows *)

Lemma sorted_filter (P : FeedRow → Prop) `{∀ r, Decision (P r)} l :
  StronglySorted seq_lt l → StronglySorted seq_lt (filter P l).
Proof.
  induction 1 as [|r l Hl IH Hr]; [constructor|].
  rewrite filter_cons. destruct (decide (P r)); [|done].
  constructor; [done|]. rewrite Forall_forall in Hr. apply Forall_forall.
  intros x [_ Hx]%list_elem_of_filter. auto.
Qed.

Lemma sorted_app_inv l1 l2 :
  StronglySorted seq_lt (l1 ++ l2) →
  StronglySorted seq_lt l1 ∧ StronglySorted seq_lt l2 ∧
  ∀ x y, x ∈ l1 → y ∈ l2 → (seq x < seq y)%Z.
Proof.
  induction l1 as [|r l1 IH]; simpl; intros Hs.
  { split_and!; [constructor|done|]. intros x y Hx. by apply not_elem_of_nil in Hx. }
  apply StronglySorted_inv in Hs as [Hs Hr]. destruct (IH Hs) as (H1 & H2 & H12).
  rewrite Forall_forall in Hr. split_and!; [|done|].
  - constructor; [done|]. apply Forall_forall. intros x Hx. apply Hr. set_solver.
  - intros x y [->|Hx]%elem_of_cons Hy; [apply Hr; set_solver|eauto].
Qed.

Lemma last_app_inv {A} (l : list A) x : last l = Some x → ∃ l', l = l' ++ [x].
Proof. intros Hl. apply last_Some in Hl. done. Qed.

Lemma sorted_le_last l r x :
  StronglySorted seq_lt l → last l = Some r → x ∈ l → (seq x ≤ seq r)%Z.
Proof.
  intros Hs [l' ->]%last_app_inv Hx. apply sorted_app_inv in Hs as (_ & _ & Hlt).
  apply elem_of_app in Hx as [Hx|Hx%list_elem_of_singleton]; [|by subst].
  apply Z.lt_le_incl, Hlt; set_solver.
Qed.

Lemma sorted_seq_inj l x y :
  StronglySorted seq_lt l → x ∈ l → y ∈ l → seq x = seq y → x = y.
Proof.
  induction 1 as [|r l Hl IH Hr]; intros Hx Hy Hxy; [by apply not_elem_of_nil in Hx|].
  rewrite Forall_forall in Hr. unfold seq_lt in Hr.
  apply elem_of_cons in Hx as [->|Hx], Hy as [->|Hy]; [done| | |by apply IH].
  - apply Hr in Hy. lia.
  - apply Hr in Hx. lia.
Qed.

(** A prefix of a sorted list is cut at a position. *)
Lemma sorted_take_cut n l r :
  StronglySorted seq_lt l → last (take n l) = Some r →
  take n l = filter (λ x, (seq x ≤ seq r)%Z) l.
Proof.
  intros Hs Hr. pose proof (take_drop n l) as Hl. rewrite -{2}Hl filter_app.
  rewrite -{1}Hl in Hs. apply sorted_app_inv in Hs as (H1 & _ & H12).
  apply last_app_inv in Hr as Hr'. destruct Hr' as [l' Hl'].
  rewrite filter_all; [|].
  - rewrite (filter_none _ (drop n l)); [by rewrite app_nil_r|].
    intros x Hx Hle. assert (seq r < seq x)%Z; [|lia].
    apply H12; [rewrite Hl'; set_solver|done].
  - intros x Hx. by eapply sorted_le_last.
Qed.

(** *** The feed's own lemmas *)

Section afeed_lemmas.
Context `{ChangeSdk}.
Implicit Types (a : AFeed) (q : FeedQuery).

Lemma elem_of_live a r : r ∈ live a ↔ r ∈ log a ∧ (mark a < seq r)%Z.
Proof. unfold live. rewrite list_elem_of_filter. tauto. Qed.

Lemma live_sorted a : afeed_wf a → StronglySorted seq_lt (live a).
Proof. intros Hwf. by apply sorted_filter, wf_sorted. Qed.

Lemma top_elem a r : afeed_wf a → r ∈ log a → (0 < seq r ≤ top a)%Z.
Proof.
  intros Hwf Hr. destruct (proj1 (Forall_forall _ _) (wf_rows a Hwf) r Hr) as [Hpos _].
  split; [lia|]. unfold top. destruct (last (log a)) as [l|] eqn:Hl.
  - by eapply sorted_le_last; [apply wf_sorted|..].
  - apply last_None in Hl. rewrite Hl in Hr. by apply not_elem_of_nil in Hr.
Qed.

Lemma top_nonneg a : afeed_wf a → (0 ≤ top a)%Z.
Proof.
  intros Hwf. unfold top. destruct (last (log a)) as [r|] eqn:Hl; [|done].
  assert (r ∈ log a) as Hr by (apply last_Some_elem_of in Hl; done).
  apply (top_elem a) in Hr as [? _]; [lia|done].
Qed.

Lemma mark_le_top a : afeed_wf a → (0 ≤ mark a ≤ top a)%Z.
Proof.
  intros Hwf. pose proof (top_nonneg a Hwf).
  destruct (wf_mark a Hwf) as [->|(r & Hr & <-)]; [lia|].
  pose proof (top_elem a r Hwf Hr). lia.
Qed.

Lemma last_live_None a : afeed_wf a → last (live a) = None → mark a = top a.
Proof.
  intros Hwf Hl. pose proof (mark_le_top a Hwf) as Hm. apply last_None in Hl.
  unfold top in *. destruct (last (log a)) as [r|] eqn:Hr; [|lia].
  destruct (decide (mark a < seq r)%Z); [|lia].
  assert (Hin : r ∈ live a).
  { apply elem_of_live. split; [|done]. by apply last_Some_elem_of in Hr. }
  rewrite Hl in Hin. by apply not_elem_of_nil in Hin.
Qed.

Lemma last_live_Some a r : afeed_wf a → last (live a) = Some r → last (log a) = Some r.
Proof.
  intros Hwf Hl. assert (Hin : r ∈ live a) by (by apply last_Some_elem_of in Hl).
  apply elem_of_live in Hin as Hin'. destruct Hin' as [Hlog Hm].
  destruct (last (log a)) as [t|] eqn:Ht; [|apply last_None in Ht; rewrite Ht in Hlog;
    by apply not_elem_of_nil in Hlog].
  assert (Htl : t ∈ log a) by (by apply last_Some_elem_of in Ht).
  assert (Hrt : (seq r ≤ seq t)%Z).
  { by eapply sorted_le_last; [apply wf_sorted|..]. }
  assert (Htr : (seq t ≤ seq r)%Z).
  { eapply sorted_le_last; [by apply live_sorted|done|]. apply elem_of_live. split; [done|lia]. }
  f_equal. by eapply sorted_seq_inj; [by apply wf_sorted|..]; [done|done|lia].
Qed.

(** The head is the last position ever assigned. *)
Lemma a_head_top a : afeed_wf a → head (a_head a) = top a.
Proof.
  intros Hwf. unfold a_head, from_snapshot. destruct (last (live a)) as [r|] eqn:Hl; simpl.
  - assert (r ∈ live a) as [_ Hm]%elem_of_live by (by apply last_Some_elem_of in Hl).
    rewrite (proj2 (Z.ltb_lt _ _) Hm) /=. unfold top. by rewrite (last_live_Some a r).
  - apply last_live_None in Hl; [|done]. destruct (mark a =? 0)%Z eqn:E; bool_to_prop; simpl; lia.
Qed.

Lemma a_head_pruned a :
  pruned_through (a_head a) = mark a ∧ pruned_through_fp (a_head a) = mark_fp a.
Proof. unfold a_head, from_snapshot. by case_match. Qed.

(** The head's fingerprint is that of the last row, or the origin's. *)
Lemma a_head_fp a fp :
  afeed_wf a → head_fp (a_head a) = Some fp →
  (top a = 0%Z ∧ fp = FEED_ORIGIN_FP) ∨
  ∃ r, last (log a) = Some r ∧ seq r = top a ∧ fingerprint r = fp.
Proof.
  intros Hwf. unfold a_head, from_snapshot. destruct (last (live a)) as [r|] eqn:Hl; simpl.
  - assert (r ∈ live a) as [_ Hm]%elem_of_live by (by apply last_Some_elem_of in Hl).
    rewrite (proj2 (Z.ltb_lt _ _) Hm) /=. intros [= <-]. right. exists r.
    pose proof (last_live_Some a r Hwf Hl) as Hr. unfold top. by rewrite Hr.
  - apply last_live_None in Hl; [|done].
    destruct (mark a =? 0)%Z eqn:E; bool_to_prop; simpl; intros Hfp.
    { left. simplify_eq. split; [lia|done]. }
    right. destruct (wf_mark_fp a Hwf fp Hfp) as (r & Hr & Hs & Hf).
    unfold top in *. destruct (last (log a)) as [t|] eqn:Ht; [|lia].
    assert (t = r) as ->; [|by exists r; split_and!].
    eapply sorted_seq_inj; [by apply wf_sorted|by apply last_Some_elem_of in Ht|done|lia].
Qed.

(** A page holds the matching rows up to the position it scanned through. *)
Lemma a_page_rows a q :
  afeed_wf a → (0 ≤ after q)%Z →
  let p := a_page a q in
  rows p = between a (Z.max (after q) (mark a)) (last_scanned p) (matches q) ∧
  (after q ≤ last_scanned p ≤ Z.max (top a) (after q))%Z ∧
  page_head p = top a ∧ page_pruned_through p = mark a ∧
  page_pruned_through_fp p = mark_fp a ∧ page_head_fp p = head_fp (a_head a) ∧
  (if reached_head p then last_scanned p = Z.max (top a) (after q)
   else ∃ r, last (rows p) = Some r ∧ seq r = last_scanned p).
Proof.
  intros Hwf Hafter. destruct (a_head_pruned a) as [Hp Hpf].
  set (L := filter (λ r, (after q < seq r)%Z ∧ matches q r = true) (live a)).
  assert (HL : StronglySorted seq_lt L) by (by apply sorted_filter, live_sorted).
  assert (HLin : ∀ r, r ∈ L → (after q < seq r ≤ top a)%Z).
  { intros r [[Hr _] [Hr' _]%elem_of_live]%list_elem_of_filter.
    pose proof (top_elem a r Hwf Hr'). lia. }
  assert (Hbetween : ∀ hi, filter (λ r, (seq r ≤ hi)%Z) L =
                           between a (Z.max (after q) (mark a)) hi (matches q)).
  { intros hi. unfold L, between, live. rewrite !list_filter_filter.
    apply filter_iff_in. intros r _. rewrite !Z.max_lub_lt_iff. tauto. }
  simpl. rewrite (a_head_top a Hwf) Hp Hpf. unfold a_rows. fold L.
  set (n := Z.to_nat (limit q)). assert (Hn : Z.of_nat n = limit q) by (unfold n, limit; lia).
  destruct (Z.of_nat (length (take n L)) <? limit q)%Z eqn:Hlt; bool_to_prop; simpl.
  - assert (Hall : take n L = L).
    { apply take_ge. rewrite length_take in Hlt. lia. }
    assert (Hls : match last (take n L) with Some _ | None => Z.max (top a) (after q) end =
                  Z.max (top a) (after q)) by (by destruct (last (take n L))).
    rewrite Hls -Hbetween Hall filter_all; [split_and!; try done; lia|].
    intros r Hr%HLin. lia.
  - destruct (last (take n L)) as [r|] eqn:Hr.
    + assert (r ∈ L) as HrL.
      { eapply elem_of_subseteq; [|by apply last_Some_elem_of]. apply subseteq_take. }
      pose proof (HLin r HrL). rewrite -Hbetween.
      split_and!; [by apply sorted_take_cut|lia|lia|done..|by exists r].
    + apply last_None in Hr. rewrite Hr /= in Hlt. unfold limit in Hlt. lia.
Qed.
End afeed_lemmas.

(** *** Appending and pruning *)

Definition append_wf (x : FeedAppend) : Prop :=
  hash_wf (fa_lineage_hash x) ∧ hash_wf (fa_agent_hash x).

(** The append a row stores. *)
Definition append_of_row (r : FeedRow) : FeedAppend :=
  mkAppend (row_kind r) (row_ctx_id r) (row_lineage_id r) (row_agent_id r) (row_superseded_by r)
    (row_event r) (row_receipt r) (row_lineage_hash r) (row_agent_hash r).

Lemma append_of_row_of_append n t x : append_of_row (row_of_append n t x) = x.
Proof. by destruct x. Qed.

Section afeed_ops.
Context `{ChangeSdk}.
Implicit Types (a : AFeed).

Lemma empty_feed_wf : afeed_wf empty_feed.
Proof. by split; [constructor|constructor|left|]. Qed.

Lemma sorted_snoc l r :
  StronglySorted seq_lt l → (∀ x, x ∈ l → seq_lt x r) → StronglySorted seq_lt (l ++ [r]).
Proof.
  induction 1 as [|x l Hl IH Hx]; intros Hr; simpl; [by repeat constructor|].
  constructor; [apply IH; set_solver|]. apply Forall_app. split; [done|].
  repeat constructor. apply Hr. set_solver.
Qed.

Lemma a_append_wf a r :
  afeed_wf a → (top a < seq r)%Z → row_wf r → afeed_wf (a_append a [r]).
Proof.
  intros Hwf Hr Hrow. split; simpl.
  - apply sorted_snoc; [by apply wf_sorted|]. intros x Hx.
    pose proof (top_elem a x Hwf Hx). unfold seq_lt. lia.
  - apply Forall_app. split; [by apply wf_rows|by constructor].
  - destruct (wf_mark a Hwf) as [?|(x & Hx & ?)]; [by left|right].
    exists x. split; [set_solver|done].
  - intros fp Hfp. destruct (wf_mark_fp a Hwf fp Hfp) as (x & Hx & ?).
    exists x. split; [set_solver|done].
Qed.

Lemma top_append a r : top (a_append a [r]) = seq r.
Proof. unfold top. simpl. by rewrite last_snoc. Qed.

Lemma live_append a r :
  afeed_wf a → (top a < seq r)%Z → live (a_append a [r]) = live a ++ [r].
Proof.
  intros Hwf Hr. unfold live. simpl. rewrite filter_app. f_equal.
  rewrite filter_cons_True; [done|]. pose proof (mark_le_top a Hwf). lia.
Qed.

Lemma prunable_prefix a cut b : prunable a cut b `prefix_of` live a.
Proof.
  unfold prunable. etrans; [apply take_while_prefix|]. apply prefix_take.
Qed.

Lemma prunable_last a cut b r :
  last (prunable a cut b) = Some r → r ∈ log a ∧ (mark a < seq r)%Z.
Proof.
  intros Hl%last_Some_elem_of. apply elem_of_live.
  destruct (prunable_prefix a cut b) as [k ->]. set_solver.
Qed.

Lemma a_prune_wf a cut b : afeed_wf a → afeed_wf (a_prune a cut b).
Proof.
  intros Hwf. unfold a_prune. destruct (last _) as [r|] eqn:Hl; [|done].
  apply prunable_last in Hl as [Hr Hm]. split; simpl.
  - by apply wf_sorted.
  - by apply wf_rows.
  - right. by exists r.
  - intros fp [= <-]. by exists r.
Qed.

Lemma a_prune_evolves a cut b : evolves a (a_prune a cut b).
Proof.
  unfold a_prune. destruct (last _) as [r|] eqn:Hl; [|done].
  apply prunable_last in Hl as [_ Hm]. split; simpl; [done|]. right. by split.
Qed.

Lemma a_append_evolves a new : evolves a (a_append a new).
Proof. split; simpl; [by apply prefix_app_r|by left]. Qed.

(** Moving the mark up drops the rows at or below it. *)
Lemma live_mark a n fp :
  (mark a ≤ n)%Z → live (mkAFeed (log a) n fp) = filter (λ x, (n < seq x)%Z) (live a).
Proof.
  intros Hn. unfold live. simpl. rewrite list_filter_filter. apply filter_iff_in. intros x _.
  split; [intros; split; lia|tauto].
Qed.

(** The rows a prune deletes are those up to the last of them. *)
Lemma prunable_cut a cut b r :
  afeed_wf a → last (prunable a cut b) = Some r →
  filter (λ x, (seq x ≤ seq r)%Z) (live a) = prunable a cut b.
Proof.
  intros Hwf Hl. destruct (prunable_prefix a cut b) as [k Hk].
  assert (Ht : take (length (prunable a cut b)) (live a) = prunable a cut b).
  { rewrite Hk. apply take_app_length. }
  rewrite -(sorted_take_cut (length (prunable a cut b))); [done|by apply live_sorted|].
  by rewrite Ht.
Qed.

(** What is left after a prune: the rows after the ones it deleted. *)
Lemma live_prune a cut b :
  afeed_wf a → live (a_prune a cut b) = drop (length (prunable a cut b)) (live a).
Proof.
  intros Hwf. destruct (prunable_prefix a cut b) as [k Hk].
  rewrite Hk drop_app_length. unfold a_prune.
  destruct (last (prunable a cut b)) as [r|] eqn:Hl.
  2:{ apply last_None in Hl. rewrite Hl in Hk. by rewrite Hk. }
  pose proof (live_sorted a Hwf) as Hs. rewrite Hk in Hs.
  apply sorted_app_inv in Hs as (Hs1 & _ & H12).
  assert (Hr : r ∈ prunable a cut b) by (by apply last_Some_elem_of).
  rewrite live_mark; [|apply prunable_last in Hl as [_ ?]; lia].
  rewrite Hk filter_app (filter_none _ (prunable a cut b)); simpl.
  - apply filter_all. intros x Hx. by apply H12.
  - intros x Hx. pose proof (sorted_le_last _ _ _ Hs1 Hl Hx). lia.
Qed.
End afeed_ops.

(** ** The interface of a backend *)

(** A query a handler builds: [u64] and [u32] members in range, buckets
    parsed. *)
Record query_wf (q : FeedQuery) : Prop := {
  qwf_after : (0 ≤ after q ≤ u64_max)%Z;
  qwf_limit : (0 ≤ scan_limit q ≤ u32_max)%Z;
  qwf_lineage : Forall bucket_wf (lineage_buckets q);
  qwf_agent : Forall bucket_wf (agent_buckets q)
}.

(** The feed operations of [ExtendedRegistryStore]. [Env] is what the backend
    draws while it appends: its clock and, on Postgres, identity values. The
    append is the one inside [commit_publish] and [commit_lifecycle_event]. *)
Class ChangeFeed (S Env : Type) : Type := {
  changes_head : S → result FeedHead AcdpError;
  changes_page : S → FeedQuery → result FeedPage AcdpError;
  prune_changes : S → Z → Z → result Z AcdpError * S;
  feed_append : S → Env → list FeedAppend → S
}.

(** What a backend promises: it holds an abstract feed, answers as that feed
    does, prunes as it does, and appends its rows at the end, in order. *)
Class FeedContract (S Env : Type) `{ChangeSdk} `{!ChangeFeed S Env} : Type := {
  feed_rep : S → AFeed → Prop;
  append_room : S → Env → list FeedAppend → Prop;
  rep_wf s a : feed_rep s a → afeed_wf a;
  rep_head s a : feed_rep s a → changes_head s = Ok (a_head a);
  rep_page s a q : feed_rep s a → query_wf q → changes_page s q = Ok (a_page a q);
  rep_prune s a cut b :
    feed_rep s a →
    ∃ s', prune_changes s cut b = (Ok (Z.of_nat (length (prunable a cut b))), s') ∧
          feed_rep s' (a_prune a cut b);
  rep_append s a env l :
    feed_rep s a → append_room s env l → Forall append_wf l →
    ∃ new, feed_rep (feed_append s env l) (a_append a new) ∧ map append_of_row new = l
}.

(** *** Runs of a backend *)

Section runs.
Context {S Env : Type} `{FeedContract S Env}.

(** One commit or one retention pass, with the rows it appends. *)
Inductive feed_step : S → list FeedAppend → S → Prop :=
  | step_append s env l :
      append_room s env l → Forall append_wf l → feed_step s l (feed_append s env l)
  | step_prune s cut b r s' : prune_changes s cut b = (r, s') → feed_step s [] s'.

Inductive feed_steps : S → list FeedAppend → S → Prop :=
  | steps_refl s : feed_steps s [] s
  | steps_step s1 l1 s2 l2 s3 :
      feed_step s1 l1 s2 → feed_steps s2 l2 s3 → feed_steps s1 (l1 ++ l2) s3.

Lemma feed_step_refines s l s' a :
  feed_step s l s' → feed_rep s a →
  ∃ a' new, feed_rep s' a' ∧ evolves a a' ∧ log a' = log a ++ new ∧ map append_of_row new = l.
Proof.
  intros [s0 env l0 Hroom Hl|s0 cut b r s0' Hp] Hrep.
  - destruct (rep_append s0 a env l0 Hrep Hroom Hl) as (new & Hnew & Hmap).
    exists (a_append a new), new. split_and!; [done|apply a_append_evolves|done|done].
  - destruct (rep_prune s0 a cut b Hrep) as (s1 & Hp' & Hrep').
    rewrite Hp' in Hp. simplify_eq. exists (a_prune a cut b), [].
    split_and!; [done|apply a_prune_evolves| |done].
    unfold a_prune. case_match; by rewrite app_nil_r.
Qed.

(** Every run keeps an abstract feed, to which it only appends. *)
Lemma feed_steps_refine s l s' a :
  feed_steps s l s' → feed_rep s a →
  ∃ a' new, feed_rep s' a' ∧ evolves a a' ∧ log a' = log a ++ new ∧ map append_of_row new = l.
Proof.
  intros Hs. revert a. induction Hs as [s|s1 l1 s2 l2 s3 H12 H23 IH]; intros a Hrep.
  { exists a, []. by rewrite app_nil_r. }
  destruct (feed_step_refines _ _ _ _ H12 Hrep) as (a2 & new1 & Hrep2 & He12 & Hlog1 & Hm1).
  destruct (IH _ Hrep2) as (a3 & new2 & Hrep3 & He23 & Hlog2 & Hm2).
  exists a3, (new1 ++ new2). split_and!; [done|by etrans| |].
  - by rewrite Hlog2 Hlog1 app_assoc.
  - by rewrite map_app Hm1 Hm2.
Qed.
End runs.

(** *** What a commit appends *)

Section appended.
Context `{ChangeSdk}.

(** The query that watches one bucket of one member. *)
Definition watch_lineage_bucket (n : Z) (b : HashBucket) : FeedQuery :=
  mkQuery n [] [] [] [] [b] [] [] 1.

Definition watch_agent_bucket (n : Z) (b : HashBucket) : FeedQuery :=
  mkQuery n [] [] [] [] [] [b] [] 1.

Lemma bucketed_ok a member served column hash :
  bucketed a member served column hash = Ok tt → served = column ∧ hash = bucket_hash served.
Proof.
  unfold bucketed. destruct (negb _ || _) eqn:E; [done|]. bool_to_prop. done.
Qed.

(** A row that passed the check is served under the ids its hashes are over. *)
Lemma check_servable_ok a :
  check_servable a = Ok tt →
  ∃ c, to_change (row_of_append 1 0 a) = Ok c ∧
       fa_lineage_hash a = bucket_hash (change_lineage_id c) ∧
       fa_agent_hash a = bucket_hash (change_agent_id c).
Proof.
  unfold check_servable. destruct (to_change _) as [c|]; simpl; [|done].
  destruct (bucketed a "lineage_id" _ _ _) as [[]|] eqn:H1; simpl; [|done]. intros H2.
  apply bucketed_ok in H1 as [_ H1], H2 as [_ H2]. by exists c.
Qed.

Lemma check_all_servable_ok l x : check_all_servable l = Ok tt → x ∈ l → check_servable x = Ok tt.
Proof.
  induction l as [|a l IH]; simpl; intros Hl Hx; [by apply not_elem_of_nil in Hx|].
  destruct (check_servable a) as [[]|] eqn:Ha; simpl in Hl; [|done].
  apply elem_of_cons in Hx as [->|Hx]; [done|by apply IH].
Qed.

Lemma watch_bucket_matches n b s t a c :
  check_servable a = Ok tt → to_change (row_of_append 1 0 a) = Ok c →
  matches (watch_lineage_bucket n b) (row_of_append s t a) =
    contains b (bucket_hash (change_lineage_id c)) ∧
  matches (watch_agent_bucket n b) (row_of_append s t a) =
    contains b (bucket_hash (change_agent_id c)).
Proof.
  intros Ha Hc. destruct (check_servable_ok a Ha) as (c' & Hc' & Hl & Hg).
  rewrite Hc' in Hc. simplify_eq. unfold matches. simpl. rewrite Hl Hg.
  rewrite !andb_false_r. split; by destruct (contains b _).
Qed.

(** The rows a publish appends are the ones of RFC-ACDP-0018 (a
    [superseded] row for the predecessor, then a [key_revocation] row for a
    revocation, nothing without a receipt), each can be served, and each lies
    in the bucket of the ids it is served with: a consumer that watches the
    bucket of a served [lineage_id] or [agent_id] receives the row. *)
Theorem published_rows_sit_in_served_buckets (body : Body) (receipt : option Value)
    (predecessor : option Predecessor) (l : list FeedAppend) :
  feed_appends_for_publish body receipt predecessor = Ok l →
  map fa_kind l =
    (if receipt then
       (if predecessor then [Superseded] else []) ++
       (if body_is_key_revocation body then [KeyRevocation] else [])
     else []) ∧
  ∀ x, x ∈ l →
    ∃ c, to_change (row_of_append 1 0 x) = Ok c ∧
      ∀ n b s t,
        matches (watch_lineage_bucket n b) (row_of_append s t x) =
          contains b (bucket_hash (change_lineage_id c)) ∧
        matches (watch_agent_bucket n b) (row_of_append s t x) =
          contains b (bucket_hash (change_agent_id c)).
Proof.
  unfold feed_appends_for_publish. destruct receipt as [receipt|]; intros Hl.
  2:{ simplify_eq. split; [done|]. intros x Hx. by apply not_elem_of_nil in Hx. }
  set (sup := match predecessor with Some _ => _ | None => _ end) in Hl.
  assert (Hsup : map fa_kind sup = if predecessor then [Superseded] else [])
    by (unfold sup; by destruct predecessor).
  destruct (if body_is_key_revocation body then _ else _) as [out|] eqn:Hout; simpl in Hl; [|done].
  destruct (check_all_servable out) as [[]|] eqn:Hck; simpl in Hl; [|done]. simplify_eq. split.
  - destruct (body_is_key_revocation body).
    + destruct (revoked_key_controller body); simpl in Hout; [|done]. simplify_eq.
      by rewrite map_app Hsup.
    + simplify_eq. by rewrite Hsup app_nil_r.
  - intros x Hx. pose proof (check_all_servable_ok l x Hck Hx) as Hs.
    destruct (check_servable_ok x Hs) as (c & Hc & _). exists c. split; [done|].
    intros n b s t. by apply watch_bucket_matches.
Qed.
End appended.

(** *** What a later feed still says about an earlier one *)

Section evolution.
Context `{ChangeSdk}.
Implicit Types (a : AFeed).

Lemma evolves_elem a a' r : evolves a a' → r ∈ log a → r ∈ log a'.
Proof. intros [[k ->] _] Hr. set_solver. Qed.

Lemma evolves_top a a' : afeed_wf a → afeed_wf a' → evolves a a' → (top a ≤ top a')%Z.
Proof.
  intros Hwf Hwf' He. unfold top at 1. destruct (last (log a)) as [r|] eqn:Hl.
  - apply last_Some_elem_of in Hl. apply (top_elem a' r Hwf'). by eapply evolves_elem.
  - by apply top_nonneg.
Qed.

(** Below the earlier top, both logs hold the same rows. *)
Lemma evolves_below a a' r :
  afeed_wf a → afeed_wf a' → evolves a a' → r ∈ log a' → (seq r ≤ top a)%Z → r ∈ log a.
Proof.
  intros Hwf Hwf' [[k Hk] _] Hr Hle. rewrite Hk in Hr. apply elem_of_app in Hr as [Hr|Hr]; [done|].
  exfalso. pose proof (wf_sorted a' Hwf') as Hs. rewrite Hk in Hs.
  apply sorted_app_inv in Hs as (_ & _ & H12). unfold top in Hle.
  destruct (last (log a)) as [t|] eqn:Ht.
  - apply last_Some_elem_of in Ht. pose proof (H12 t r Ht Hr). lia.
  - assert (r ∈ log a') as Hr' by (rewrite Hk; set_solver).
    apply (top_elem a' r Hwf') in Hr'. lia.
Qed.

Lemma between_evolves a a' lo hi P :
  afeed_wf a → afeed_wf a' → evolves a a' → (hi ≤ top a)%Z →
  between a lo hi P = between a' lo hi P.
Proof.
  intros Hwf Hwf' He Hhi. destruct He as [[k Hk] Hm]. unfold between. rewrite Hk filter_app.
  rewrite (filter_none _ k); [by rewrite app_nil_r|].
  intros r Hr [[_ Hle] _]. pose proof (wf_sorted a' Hwf') as Hs. rewrite Hk in Hs.
  apply sorted_app_inv in Hs as (_ & _ & H12). unfold top in Hhi.
  destruct (last (log a)) as [t|] eqn:Ht.
  - apply last_Some_elem_of in Ht. pose proof (H12 t r Ht Hr). lia.
  - assert (r ∈ log a') as Hr' by (rewrite Hk; set_solver).
    apply (top_elem a' r Hwf') in Hr'. lia.
Qed.

Lemma between_empty a lo hi P : (hi ≤ lo)%Z → between a lo hi P = [].
Proof. intros Hle. apply filter_none. intros r _ [? _]. lia. Qed.

(** Consecutive intervals join. *)
Lemma between_app a lo mid hi P :
  afeed_wf a → (lo ≤ mid ≤ hi)%Z →
  between a lo mid P ++ between a mid hi P = between a lo hi P.
Proof.
  intros Hwf Hmid. unfold between. pose proof (wf_sorted a Hwf) as Hs.
  induction Hs as [|r l Hl IH Hr]; [done|]. rewrite !filter_cons.
  destruct (decide ((lo < seq r ≤ hi)%Z ∧ P r = true)) as [[Hin HP]|Hout].
  - destruct (decide (seq r ≤ mid)%Z).
    + rewrite decide_True; [|split; [lia|done]]. rewrite decide_False; [|intros [? _]; lia].
      simpl. by rewrite IH.
    + rewrite decide_False; [|intros [? _]; lia]. rewrite decide_True; [|split; [lia|done]].
      rewrite -IH filter_none; [done|]. rewrite Forall_forall in Hr. unfold seq_lt in Hr.
      intros x Hx [? _]. apply Hr in Hx. lia.
  - rewrite decide_False; [|intros [? ?]; apply Hout; split; [lia|done]].
    rewrite decide_False; [|intros [? ?]; apply Hout; split; [lia|done]]. done.
Qed.

Lemma between_filter a lo hi P Q :
  filter (λ r, Q r = true) (between a lo hi P) = between a lo hi (λ r, P r && Q r).
Proof.
  unfold between. rewrite list_filter_filter. apply filter_iff_in. intros r _.
  rewrite andb_true_iff. tauto.
Qed.

(** A prefix of an interval is the interval up to its last row. *)
Lemma between_cut a lo hi P front rest r :
  afeed_wf a → between a lo hi P = front ++ rest → last front = Some r →
  front = between a lo (seq r) P ∧ (lo < seq r ≤ hi)%Z.
Proof.
  intros Hwf Hb Hl.
  assert (Hs : StronglySorted seq_lt (between a lo hi P)) by (by apply sorted_filter, wf_sorted).
  assert (Hin : r ∈ between a lo hi P).
  { rewrite Hb. apply last_Some_elem_of in Hl. set_solver. }
  apply list_elem_of_filter in Hin as [[Hr _] _]. split; [|done].
  assert (Ht : take (length front) (between a lo hi P) = front).
  { rewrite Hb. apply take_app_length. }
  pose proof (sorted_take_cut (length front) _ r Hs) as Hcut. rewrite Ht in Hcut.
  rewrite (Hcut Hl) /between list_filter_filter. apply filter_iff_in. intros x _.
  split; [intros [? [[? ?] ?]]; split; [lia|done]|intros [[? ?] ?]; split_and!; [lia|lia|lia|done]].
Qed.

(** The head's fingerprint while the last row is live, and after it went. *)
Lemma a_head_fp_live a r :
  afeed_wf a → last (log a) = Some r →
  head_fp (a_head a) = if (mark a <? seq r)%Z then Some (fingerprint r) else mark_fp a.
Proof.
  intros Hwf Hl. unfold a_head, from_snapshot.
  assert (Hr : r ∈ log a) by (by apply last_Some_elem_of).
  pose proof (top_elem a r Hwf Hr) as Hpos.
  destruct (last (live a)) as [t|] eqn:Ht; simpl.
  - apply last_live_Some in Ht as Ht'; [|done]. rewrite Hl in Ht'. simplify_eq.
    assert (t ∈ live a) as [_ Hm]%elem_of_live by (by apply last_Some_elem_of).
    by rewrite (proj2 (Z.ltb_lt _ _) Hm).
  - apply last_live_None in Ht; [|done]. unfold top in Ht. rewrite Hl in Ht.
    rewrite Ht Z.ltb_irrefl (proj2 (Z.eqb_neq _ _)); [done|lia].
Qed.

(** A mark on the row a cursor was issued at carries that row's fingerprint. *)
Lemma mark_fp_issued a0 a r fp :
  afeed_wf a0 → afeed_wf a → evolves a0 a → last (log a0) = Some r → mark a = seq r →
  head_fp (a_head a0) = Some fp → mark_fp a = Some fp.
Proof.
  intros Hwf0 Hwf He Hl Hm Hfp. rewrite (a_head_fp_live a0 r) // in Hfp.
  assert (Hr : r ∈ log a0) by (by apply last_Some_elem_of).
  destruct (proj2 He) as [[Hm' Hf']|[Hm' [fp' Hf']]].
  - rewrite Hf'. by rewrite -Hm' Hm Z.ltb_irrefl in Hfp.
  - destruct (wf_mark_fp a Hwf fp' Hf') as (x & Hx & Hsx & <-).
    assert (x = r) as ->.
    { eapply sorted_seq_inj; [by apply wf_sorted|done|by eapply evolves_elem|lia]. }
    rewrite Hm in Hm'. by rewrite (proj2 (Z.ltb_lt _ _) Hm') -Hf' in Hfp.
Qed.

(** The page that looks a single row up. *)
Lemma a_rows_single a q r :
  afeed_wf a → r ∈ live a → limit q = 1%Z → after q = (seq r - 1)%Z →
  (∀ x, matches q x = true) → a_rows a q = [r].
Proof.
  intros Hwf Hr Hlim Hafter Hm. unfold a_rows. rewrite Hlim.
  set (L := filter _ (live a)).
  assert (HL : StronglySorted seq_lt L) by (by apply sorted_filter, live_sorted).
  assert (HrL : r ∈ L) by (apply list_elem_of_filter; split; [split; [lia|done]|done]).
  destruct L as [|x L'] eqn:E; [by apply not_elem_of_nil in HrL|].
  assert (Hx : (seq r ≤ seq x)%Z).
  { assert (x ∈ L) as [[? _] _]%list_elem_of_filter by (rewrite E; set_solver). lia. }
  simpl. f_equal. apply elem_of_cons in HrL as [->|HrL]; [done|].
  apply StronglySorted_inv in HL as [_ HL]. rewrite Forall_forall in HL.
  apply HL in HrL. unfold seq_lt in HrL. lia.
Qed.
End evolution.
