(* ===== verification/FeedBackends.v ===== *)
(** * The three change feed backends

    The feed of the memory store ([acdp-registry-server/src/memory_ext.rs], a
    vector under a mutex) and the SQL tables of [acdp-registry-sqlite/src/changes.rs]
    and [acdp-registry-pg/src/changes.rs]. Each is an instance of [ChangeFeed]
    and implements the abstract feed ([FeedContract]).

    A table is the list of its rows in primary key order, so [ORDER BY seq
    LIMIT n] is [take n]. A transaction that fails leaves the tables as they
    were. *)

From stdpp Require Import pretty.
From S2P Require Import Prelude Errors ContextTypes ChangeBucket ChangeFeed.

Open Scope registry_scope.

(** ** Memory *)

Section memory.
Context `{ChangeSdk}.

Record Feed : Type := mkFeed {
  feed_rows : list FeedRow;
  last_seq : Z;
  feed_pruned : Z;
  feed_pruned_fp : option FeedFingerprint
}.

(** The feed under the wrapper's mutex, which is poisoned once a holder
    panicked. *)
Record MemoryFeed : Type := mkMemoryFeed { feed_poisoned : bool; feed : Feed }.

Definition lock_error : AcdpError := RegistryInternal "event receipt map lock poisoned".

(** One turn of the loop of [Feed::push]. *)
Definition push_one (now_ms : Z) (f : Feed) (a : FeedAppend) : Feed :=
  mkFeed (feed_rows f ++ [row_of_append (last_seq f + 1) now_ms a]) (last_seq f + 1)
    (feed_pruned f) (feed_pruned_fp f).

(** [Feed::push]. *)
Definition push (now_ms : Z) (appends : list FeedAppend) (f : Feed) : Feed :=
  fold_left (push_one now_ms) appends f.

(** [Feed::head]. *)
Definition feed_head (f : Feed) : FeedHead :=
  from_snapshot ((λ r, (seq r, fingerprint r)) <$> last (feed_rows f))
    (feed_pruned f) (feed_pruned_fp f).

(** [slice::partition_point] on a slice the predicate partitions. *)
Definition partition_point {A} (f : A → bool) (l : list A) : nat := length (take_while f l).

Definition mem_changes_page (s : MemoryFeed) (query : FeedQuery) : result FeedPage AcdpError :=
  if feed_poisoned s then Err lock_error
  else
    let f := feed s in
    let start := partition_point (λ r, (seq r <=? after query)%Z) (feed_rows f) in
    let rs := take (Z.to_nat (limit query))
                (filter (λ r, matches query r = true) (drop start (feed_rows f))) in
    Ok (from_scan query rs (feed_head f)).

Definition mem_changes_head (s : MemoryFeed) : result FeedHead AcdpError :=
  if feed_poisoned s then Err lock_error else Ok (feed_head (feed s)).

Definition mem_prune_changes (s : MemoryFeed) (older_than_ms batch : Z) :
    result Z AcdpError * MemoryFeed :=
  if feed_poisoned s then (Err lock_error, s)
  else
    let f := feed s in
    let n := length (take_while (λ r, (appended_at_ms r <? older_than_ms)%Z)
                       (take (Z.to_nat (Z.max batch 1)) (feed_rows f))) in
    let '(pruned, fp) :=
      match (if (0 <? n)%nat then feed_rows f !! (n - 1)%nat else None) with
      | Some r =>
          if (feed_pruned f <=? seq r)%Z then (seq r, Some (fingerprint r))
          else (feed_pruned f, feed_pruned_fp f)
      | None => (feed_pruned f, feed_pruned_fp f)
      end in
    (Ok (Z.of_nat n), mkMemoryFeed false (mkFeed (drop n (feed_rows f)) (last_seq f) pruned fp)).

Definition mem_feed_append (s : MemoryFeed) (now_ms : Z) (l : list FeedAppend) : MemoryFeed :=
  if feed_poisoned s then s else mkMemoryFeed false (push now_ms l (feed s)).

#[export] Instance memory_change_feed : ChangeFeed MemoryFeed Z := {
  changes_head := mem_changes_head;
  changes_page := mem_changes_page;
  prune_changes := mem_prune_changes;
  feed_append := mem_feed_append
}.

Record mem_rep (s : MemoryFeed) (a : AFeed) : Prop := {
  mr_wf : afeed_wf a;
  mr_lock : feed_poisoned s = false;
  mr_rows : feed_rows (feed s) = live a;
  mr_last : last_seq (feed s) = top a;
  mr_pruned : feed_pruned (feed s) = mark a;
  mr_fp : feed_pruned_fp (feed s) = mark_fp a
}.

(** The rows past [partition_point] are the rows with a greater position. *)
Lemma drop_partition_point l n :
  StronglySorted seq_lt l →
  drop (partition_point (λ r, (seq r <=? n)%Z) l) l = filter (λ r, (n < seq r)%Z) l.
Proof.
  unfold partition_point. induction 1 as [|r l Hl IH Hr]; [done|]. simpl.
  destruct (seq r <=? n)%Z eqn:E; bool_to_prop; simpl.
  - rewrite filter_cons_False; [done|lia].
  - rewrite filter_all; [done|]. rewrite Forall_forall in Hr. unfold seq_lt in Hr.
    intros x [->|Hx]%elem_of_cons; [lia|]. apply Hr in Hx. lia.
Qed.

Lemma mem_rep_head s a : mem_rep s a → mem_changes_head s = Ok (a_head a).
Proof.
  intros [Hwf Hl Hr _ Hp Hf]. unfold mem_changes_head, feed_head, a_head.
  by rewrite Hl Hr Hp Hf.
Qed.

Lemma mem_rep_page s a q : mem_rep s a → query_wf q → mem_changes_page s q = Ok (a_page a q).
Proof.
  intros [Hwf Hl Hr _ Hp Hf] _. unfold mem_changes_page, feed_head, a_page, a_rows.
  rewrite Hl Hr Hp Hf drop_partition_point; [|by apply live_sorted].
  rewrite list_filter_filter. do 3 f_equal. apply filter_iff_in. tauto.
Qed.

Lemma prunable_last_lookup a cut b r :
  last (prunable a cut b) = Some r →
  (0 < length (prunable a cut b))%nat ∧ live a !! (length (prunable a cut b) - 1)%nat = Some r.
Proof.
  intros Hl. apply last_app_inv in Hl as Hl'. destruct Hl' as [l' Hl'].
  destruct (prunable_prefix a cut b) as [k Hk]. rewrite Hk Hl' length_app /=.
  split; [lia|]. rewrite lookup_app_l; [|rewrite length_app /=; lia].
  rewrite lookup_app_r; [|lia]. by replace (length l' + 1 - 1 - length l') with 0 by lia.
Qed.

Lemma mem_rep_prune s a cut b :
  mem_rep s a →
  ∃ s', mem_prune_changes s cut b = (Ok (Z.of_nat (length (prunable a cut b))), s') ∧
        mem_rep s' (a_prune a cut b).
Proof.
  intros [Hwf Hl Hr Hs Hp Hf]. unfold mem_prune_changes. rewrite Hl Hr Hp Hf.
  fold (prunable a cut b). pose proof (live_prune a cut b Hwf) as Hlive.
  pose proof (a_prune_wf a cut b Hwf) as Hwf'. unfold a_prune in *.
  destruct (last (prunable a cut b)) as [r|] eqn:Hlast.
  - apply prunable_last_lookup in Hlast as Hlk. destruct Hlk as [Hn Hlk].
    rewrite (proj2 (Nat.ltb_lt _ _) Hn) Hlk.
    apply prunable_last in Hlast as [_ Hm].
    rewrite (proj2 (Z.leb_le _ _)); [|lia]. eexists. split; [done|]. by split.
  - apply last_None in Hlast. rewrite Hlast /=. eexists. split; [done|]. by split.
Qed.

Lemma mem_rep_push_one now s a x :
  mem_rep s a → (top a + 1 ≤ i64_max)%Z → append_wf x →
  let r := row_of_append (top a + 1) now x in
  mem_rep (mkMemoryFeed false (push_one now (feed s) x)) (a_append a [r]).
Proof.
  intros [Hwf Hl Hr Hs Hp Hf] Hroom [Hx1 Hx2] r.
  pose proof (top_nonneg a Hwf) as Ht.
  split; simpl; try done.
  - apply a_append_wf; [done|simpl; lia|]. split_and!; simpl; [lia|lia|done..].
  - rewrite live_append; [|done|simpl; lia]. by rewrite Hr Hs.
  - rewrite top_append. simpl. by rewrite Hs.
Qed.

Lemma a_append_assoc a l1 l2 : a_append (a_append a l1) l2 = a_append a (l1 ++ l2).
Proof. unfold a_append. simpl. by rewrite app_assoc. Qed.

Lemma a_append_nil a : a_append a [] = a.
Proof. destruct a. unfold a_append. simpl. by rewrite app_nil_r. Qed.

Lemma mem_rep_append s a now l :
  mem_rep s a → (last_seq (feed s) + Z.of_nat (length l) ≤ i64_max)%Z → Forall append_wf l →
  ∃ new, mem_rep (mem_feed_append s now l) (a_append a new) ∧ map append_of_row new = l.
Proof.
  intros Hrep Hroom Hl. unfold mem_feed_append. rewrite (mr_lock s a Hrep).
  assert (Hrep' : mem_rep (mkMemoryFeed false (feed s)) a) by (by destruct Hrep; split).
  rewrite (mr_last s a Hrep) in Hroom. clear Hrep. revert a Hrep' Hroom.
  generalize (feed s). induction Hl as [|x l Hx Hl IH]; intros f a Hrep Hroom.
  { exists []. by rewrite a_append_nil. }
  simpl in Hroom. simpl.
  pose proof (mem_rep_push_one now _ a x Hrep ltac:(lia) Hx) as Hrep1. simpl in Hrep1.
  destruct (IH _ _ Hrep1) as (new & Hnew & Hmap); [rewrite top_append /=; lia|].
  exists (row_of_append (top a + 1) now x :: new). rewrite a_append_assoc in Hnew.
  split; [done|]. simpl. by rewrite Hmap append_of_row_of_append.
Qed.

#[export] Instance memory_feed_contract : FeedContract MemoryFeed Z := {
  feed_rep := mem_rep;
  append_room s _ l := (last_seq (feed s) + Z.of_nat (length l) ≤ i64_max)%Z;
  rep_wf := mr_wf;
  rep_head := mem_rep_head;
  rep_page := mem_rep_page;
  rep_prune := mem_rep_prune;
  rep_append := mem_rep_append
}.
End memory.

(** ** The SQL tables *)

(** One row of [changes]; [Cell] is how a JSON column is stored. *)
Record ChangesRow (Cell : Type) : Type := mkChangesRow {
  col_seq : Z;
  col_kind : string;
  col_ctx_id : string;
  col_lineage_id : string;
  col_agent_id : string;
  col_superseded_by : option string;
  col_event : option Cell;
  col_receipt : Cell;
  col_appended_at_ms : Z;
  col_lineage_hash : string;
  col_agent_hash : string
}.

Arguments mkChangesRow {Cell}.
Arguments col_seq {Cell}.
Arguments col_kind {Cell}.
Arguments col_ctx_id {Cell}.
Arguments col_lineage_id {Cell}.
Arguments col_agent_id {Cell}.
Arguments col_superseded_by {Cell}.
Arguments col_event {Cell}.
Arguments col_receipt {Cell}.
Arguments col_appended_at_ms {Cell}.
Arguments col_lineage_hash {Cell}.
Arguments col_agent_hash {Cell}.

(** The tables [changes] and [changes_meta], the last identity value drawn, and
    whether the database answers. *)
Record ChangesDb (Cell : Type) : Type := mkChangesDb {
  db_reachable : bool;
  changes : list (ChangesRow Cell);
  identity : Z;
  meta_pruned_through : Z;
  meta_pruned_through_fp : option (list Z)
}.

Arguments mkChangesDb {Cell}.
Arguments db_reachable {Cell}.
Arguments changes {Cell}.
Arguments identity {Cell}.
Arguments meta_pruned_through {Cell}.
Arguments meta_pruned_through_fp {Cell}.

(** A text column of [changes]. *)
Inductive Column : Type := ColCtxId | ColLineageId | ColAgentId | ColLineageHash | ColAgentHash.

Definition column {Cell} (c : Column) (r : ChangesRow Cell) : string :=
  match c with
  | ColCtxId => col_ctx_id r
  | ColLineageId => col_lineage_id r
  | ColAgentId => col_agent_id r
  | ColLineageHash => col_lineage_hash r
  | ColAgentHash => col_agent_hash r
  end.

(** [i64::try_from(n).unwrap_or(i64::MAX)] of a [u64]. *)
Definition i64_or_max (n : Z) : Z := if (n <=? i64_max)%Z then n else i64_max.

Section sql.
Context `{ChangeSdk} {Cell : Type}.
Context (to_cell : Value → Cell) (from_cell : Cell → result Value AcdpError).

Definition changes_err (what : string) : AcdpError := RegistryInternal ("changes " +:+ what).

(** *** The queries the two crates build *)

(** One arm of the id clause. *)
Definition Arm : Type := ChangesRow Cell → bool.

Definition arm_in (c : Column) (ids : list string) : Arm := λ r, has ids (column c r).

Definition arm_revocation (ids : list string) : Arm :=
  λ r, bool_decide (col_kind r = "key_revocation") && has ids (col_agent_id r).

Definition arm_bucket (c : Column) (b : HashBucket) : Arm := λ r, in_range (range b) (column c r).

(** SQLite's [page_query]: the arms in the order the builder pushes them. *)
Definition sqlite_arms (q : FeedQuery) : list Arm :=
  (let arms := [(ColCtxId, ctx_ids q); (ColLineageId, lineage_ids q); (ColAgentId, agent_ids q)] in
   flat_map (λ p, if is_empty p.2 then [] else [arm_in p.1 p.2]) arms) ++
  (if is_empty (revocation_agents q) then [] else [arm_revocation (revocation_agents q)]) ++
  (let buckets := [(ColLineageHash, lineage_buckets q); (ColAgentHash, agent_buckets q)] in
   flat_map (λ p, map (arm_bucket p.1) p.2) buckets).

Definition sqlite_where (q : FeedQuery) (r : ChangesRow Cell) : bool :=
  let arms := [ctx_ids q; lineage_ids q; agent_ids q] in
  let id_clause :=
    existsb (λ ids, negb (is_empty ids)) arms
    || negb (is_empty (revocation_agents q))
    || existsb (λ l, negb (is_empty l)) [lineage_buckets q; agent_buckets q] in
  (i64_or_max (after q) <? col_seq r)%Z
  && (if id_clause then existsb (λ arm, arm r) (sqlite_arms q) else true)
  && (if is_empty (kinds q) then true
      else existsb (λ k, bool_decide (kind_as_str k = col_kind r)) (kinds q)).

(** Postgres's [page]: the id arms as (column, ids, revocation only). *)
Definition pg_ors (q : FeedQuery) : list (Column * list string * bool) :=
  map (λ '(c, ids), (c, ids, false))
    (filter (λ p, is_empty p.2 = false)
       [(ColCtxId, ctx_ids q); (ColLineageId, lineage_ids q); (ColAgentId, agent_ids q)]) ++
  (if is_empty (revocation_agents q) then [] else [(ColAgentId, revocation_agents q, true)]).

Definition pg_buckets (q : FeedQuery) : list (Column * HashBucket) :=
  map (λ b, (ColLineageHash, b)) (lineage_buckets q) ++
  map (λ b, (ColAgentHash, b)) (agent_buckets q).

Definition pg_where (q : FeedQuery) (r : ChangesRow Cell) : bool :=
  let ors := pg_ors q in
  let buckets := pg_buckets q in
  (i64_or_max (after q) <? col_seq r)%Z
  && (if negb (is_empty ors) || negb (is_empty buckets) then
        existsb (λ p : Column * list string * bool,
                   let '(c, ids, revocation_only) := p in
                   (if revocation_only then bool_decide (col_kind r = "key_revocation") else true)
                   && has ids (column c r)) ors
        || existsb (λ '(c, b), in_range (range b) (column c r)) buckets
      else true)
  && (if is_empty (kinds q) then true else has (map kind_as_str (kinds q)) (col_kind r)).

(** *** Reading *)

(** [fingerprint_columns]. *)
Definition fingerprint_columns (s appended_ms : Z) (kind ctx_id : string) :
    result (Z * FeedFingerprint) AcdpError :=
  match kind_parse kind with
  | None => Err (RegistryInternal ("stored change " +:+ pretty s +:+ " has a bad kind"))
  | Some k =>
      if (s <? 0)%Z then
        Err (RegistryInternal ("stored change seq " +:+ pretty s +:+ " is negative"))
      else Ok (s, feed_fingerprint s appended_ms k ctx_id)
  end.

(** [FeedFingerprint::try_from(fp).ok()]. *)
Definition usable_fp (fp : option (list Z)) : option FeedFingerprint :=
  fp ≫= λ b, if (length b =? 8)%nat then Some b else None.

(** [read_head]. *)
Definition read_head (db : ChangesDb Cell) : result FeedHead AcdpError :=
  let? top :=
    match last (changes db) return result (option (Z * FeedFingerprint)) AcdpError with
    | None => Ok None
    | Some r =>
        let? t := fingerprint_columns (col_seq r) (col_appended_at_ms r) (col_kind r)
                    (col_ctx_id r) in
        Ok (Some t)
    end in
  Ok (from_snapshot top (Z.max (meta_pruned_through db) 0)
        (usable_fp (meta_pruned_through_fp db))).

(** [row_to_feed]. *)
Definition row_to_feed (r : ChangesRow Cell) : result FeedRow AcdpError :=
  let? event :=
    match col_event r return result (option Value) AcdpError with
    | None => Ok None
    | Some c => let? v := from_cell c in Ok (Some v)
    end in
  let? receipt := from_cell (col_receipt r) in
  from_columns (col_seq r) (col_kind r) (col_ctx_id r) (col_lineage_id r) (col_agent_id r)
    (col_superseded_by r) event receipt (col_appended_at_ms r) (col_lineage_hash r)
    (col_agent_hash r).

(** [collect::<Result<Vec<_>, _>>]. *)
Fixpoint collect_rows (l : list (ChangesRow Cell)) : result (list FeedRow) AcdpError :=
  match l with
  | [] => Ok []
  | r :: l => let? x := row_to_feed r in let? xs := collect_rows l in Ok (x :: xs)
  end.

Definition sql_changes_head (db : ChangesDb Cell) : result FeedHead AcdpError :=
  if db_reachable db then read_head db else Err (changes_err "begin").

(** [page], with the backend's [WHERE] clause. *)
Definition sql_changes_page (where_clause : FeedQuery → ChangesRow Cell → bool)
    (db : ChangesDb Cell) (q : FeedQuery) : result FeedPage AcdpError :=
  if db_reachable db then
    let? h := read_head db in
    let? rs := collect_rows (take (Z.to_nat (limit q))
                 (filter (λ r, where_clause q r = true) (changes db))) in
    Ok (from_scan q rs h)
  else Err (changes_err "begin").

(** *** Writing *)

(** The columns [INSERT INTO changes] binds, at the drawn [seq]. *)
Definition insert_row (s now_ms : Z) (a : FeedAppend) : ChangesRow Cell :=
  mkChangesRow s (kind_as_str (fa_kind a)) (fa_ctx_id a) (fa_lineage_id a) (fa_agent_id a)
    (fa_superseded_by a) (to_cell <$> fa_event a) (to_cell (fa_receipt a)) now_ms
    (fa_lineage_hash a) (fa_agent_hash a).

(** [insert]: the identity column draws a value above every earlier one, by
    [gap] more than the next (values of rolled back transactions). *)
Definition changes_insert (db : ChangesDb Cell) (gap now_ms : Z) (a : FeedAppend) : ChangesDb Cell :=
  let s := (identity db + 1 + gap)%Z in
  mkChangesDb (db_reachable db) (changes db ++ [insert_row s now_ms a]) s
    (meta_pruned_through db) (meta_pruned_through_fp db).

(** [boundary_fp]. *)
Definition boundary_fp (db : ChangesDb Cell) (s : Z) : result FeedFingerprint AcdpError :=
  match list_find (λ r, col_seq r = s) (changes db) with
  | None => Err (changes_err "prune boundary")
  | Some (_, r) =>
      let? t := fingerprint_columns s (col_appended_at_ms r) (col_kind r) (col_ctx_id r) in
      Ok t.2
  end.

(** [prune]. *)
Definition sql_prune_changes (db : ChangesDb Cell) (older_than_ms batch : Z) :
    result Z AcdpError * ChangesDb Cell :=
  if db_reachable db then
    let oldest := map (λ r, (col_seq r, col_appended_at_ms r))
                    (take (Z.to_nat (Z.max batch 1)) (changes db)) in
    match last (map fst (take_while (λ '(_, at_ms), (at_ms <? older_than_ms)%Z) oldest)) with
    | None => (Ok 0%Z, db)
    | Some lst =>
        match boundary_fp db lst with
        | Err e => (Err e, db)
        | Ok boundary =>
            let deleted := filter (λ r, (col_seq r ≤ lst)%Z) (changes db) in
            let kept := filter (λ r, ¬ (col_seq r ≤ lst)%Z) (changes db) in
            (Ok (Z.of_nat (length deleted)),
             mkChangesDb (db_reachable db) kept (identity db)
               (Z.max (meta_pruned_through db) lst)
               (if (meta_pruned_through db <=? lst)%Z then Some boundary
                else meta_pruned_through_fp db))
        end
    end
  else (Err (changes_err "begin"), db).
End sql.

(** ** The SQL filters are [FeedQuery::matches] *)

Section sql_filters.
Context {Cell : Type} (to_cell : Value → Cell).

(** A feed row as the table stores it. *)
Definition encode_row (r : FeedRow) : ChangesRow Cell :=
  insert_row to_cell (seq r) (appended_at_ms r) (append_of_row r).

Lemma i64_or_max_lt q r : row_wf r → (i64_or_max (after q) <? seq r)%Z = (after q <? seq r)%Z.
Proof.
  intros [Hr _]. unfold i64_or_max. destruct (after q <=? i64_max)%Z eqn:E; bool_to_prop; [done|].
  rewrite (proj2 (Z.ltb_ge _ _)); [|lia]. symmetry. apply Z.ltb_ge. lia.
Qed.

Lemma kind_column_eq k k' : bool_decide (kind_as_str k = kind_as_str k') = bool_decide (k = k').
Proof. apply bool_decide_ext. split; [apply (inj kind_as_str)|by intros ->]. Qed.

Lemma kinds_clause (ks : list ChangeKind) k :
  existsb (λ x, bool_decide (kind_as_str x = kind_as_str k)) ks = bool_decide (k ∈ ks).
Proof.
  induction ks as [|x ks IH]; [done|]. simpl. rewrite IH kind_column_eq.
  rewrite (bool_decide_ext (k ∈ x :: ks) (x = k ∨ k ∈ ks)); [|set_solver].
  by rewrite bool_decide_or.
Qed.

Lemma kind_is_empty_or (ks : list ChangeKind) k :
  (if is_empty ks then true else bool_decide (k ∈ ks)) = is_empty ks || bool_decide (k ∈ ks).
Proof. by destruct ks. Qed.

Lemma existsb_ranges (bs : list HashBucket) h :
  Forall bucket_wf bs → hash_wf h →
  existsb (λ b, in_range (range b) h) bs = existsb (λ b, contains b h) bs.
Proof.
  intros Hbs [Hh Hl]. induction Hbs as [|b bs Hb Hbs IH]; [done|]. simpl.
  by rewrite range_contains // IH.
Qed.

Lemma existsb_map {A B} (f : B → bool) (g : A → B) l :
  existsb f (map g l) = existsb (λ x, f (g x)) l.
Proof. induction l as [|x l IH]; [done|]. simpl. by rewrite IH. Qed.

Lemma existsb_flat_map {A B} (f : B → bool) (g : A → list B) l :
  existsb f (flat_map g l) = existsb (λ x, existsb f (g x)) l.
Proof. induction l as [|x l IH]; [done|]. simpl. by rewrite existsb_app IH. Qed.

(** The id clause both builders produce. *)
Lemma sqlite_arms_sat (q : FeedQuery) (r : FeedRow) :
  query_wf q → row_wf r →
  existsb (λ arm, arm (encode_row r)) (sqlite_arms q) =
    has (ctx_ids q) (row_ctx_id r) || has (lineage_ids q) (row_lineage_id r)
    || has (agent_ids q) (row_agent_id r)
    || (bool_decide (row_kind r = KeyRevocation) && has (revocation_agents q) (row_agent_id r))
    || existsb (λ b, contains b (row_lineage_hash r)) (lineage_buckets q)
    || existsb (λ b, contains b (row_agent_hash r)) (agent_buckets q).
Proof.
  intros [_ _ Hl Ha] (_ & Hrl & Hra).
  rewrite -(existsb_ranges _ _ Hl Hrl) -(existsb_ranges _ _ Ha Hra).
  unfold sqlite_arms. rewrite existsb_app existsb_flat_map existsb_app
    existsb_flat_map.
  assert (Hone : ∀ c ids, existsb (λ arm : Arm (Cell:=Cell), arm (encode_row r))
              (if is_empty ids then [] else [arm_in c ids]) = has ids (column c (encode_row r))).
  { intros c [|i ids]; [done|]. simpl. by rewrite orb_false_r. }
  assert (Hrev : existsb (λ arm : Arm (Cell:=Cell), arm (encode_row r))
              (if is_empty (revocation_agents q) then []
               else [arm_revocation (revocation_agents q)]) =
            bool_decide (row_kind r = KeyRevocation) &&
            has (revocation_agents q) (row_agent_id r)).
  { rewrite -(kind_column_eq _ KeyRevocation). destruct (revocation_agents q); simpl.
    - by rewrite andb_false_r.
    - by rewrite orb_false_r. }
  rewrite Hrev. cbn [existsb fst snd]. rewrite !Hone !existsb_map. simpl.
  by rewrite !orb_false_r !orb_assoc.
Qed.
Lemma pg_arms_sat (q : FeedQuery) (r : FeedRow) :
  query_wf q → row_wf r →
  existsb (λ p : Column * list string * bool,
             let '(c, ids, revocation_only) := p in
             (if revocation_only then bool_decide (col_kind (encode_row r) = "key_revocation")
              else true) && has ids (column c (encode_row r))) (pg_ors q)
  || existsb (λ '(c, b), in_range (range b) (column c (encode_row r))) (pg_buckets q) =
    existsb (λ arm, arm (encode_row r)) (sqlite_arms q).
Proof.
  intros Hq Hr. unfold pg_ors, pg_buckets, sqlite_arms.
  rewrite existsb_app [in RHS]existsb_app existsb_app [in RHS]existsb_app !existsb_flat_map
    !existsb_map.
  rewrite -orb_assoc. f_equal.
  - destruct (ctx_ids q), (lineage_ids q), (agent_ids q); simpl; by rewrite ?orb_false_r.
  - f_equal.
    + destruct (revocation_agents q); simpl; by rewrite ?orb_false_r.
    + simpl. by rewrite !existsb_map !orb_false_r.
Qed.

(** Whether the builders emit an id clause at all. *)
Lemma sqlite_id_clause (q : FeedQuery) :
  existsb (λ ids, negb (is_empty ids)) [ctx_ids q; lineage_ids q; agent_ids q]
  || negb (is_empty (revocation_agents q))
  || existsb (λ l, negb (is_empty l)) [lineage_buckets q; agent_buckets q] = has_id_clause q.
Proof.
  unfold has_id_clause. simpl.
  destruct (is_empty (ctx_ids q)), (is_empty (lineage_ids q)), (is_empty (agent_ids q)),
    (is_empty (revocation_agents q)), (is_empty (lineage_buckets q)),
    (is_empty (agent_buckets q)); done.
Qed.

Lemma pg_id_clause (q : FeedQuery) :
  negb (is_empty (pg_ors q)) || negb (is_empty (pg_buckets q)) = has_id_clause q.
Proof.
  unfold has_id_clause, pg_ors, pg_buckets.
  by destruct (ctx_ids q), (lineage_ids q), (agent_ids q), (revocation_agents q),
    (lineage_buckets q), (agent_buckets q).
Qed.

Lemma sqlite_where_matches (q : FeedQuery) (r : FeedRow) :
  query_wf q → row_wf r →
  sqlite_where q (encode_row r) = (after q <? seq r)%Z && matches q r.
Proof.
  intros Hq Hr. unfold sqlite_where. rewrite sqlite_id_clause sqlite_arms_sat //.
  simpl. rewrite i64_or_max_lt // kinds_clause kind_is_empty_or /matches.
  rewrite -andb_assoc. f_equal. f_equal. by destruct (has_id_clause q).
Qed.

Lemma pg_where_matches (q : FeedQuery) (r : FeedRow) :
  query_wf q → row_wf r →
  pg_where q (encode_row r) = (after q <? seq r)%Z && matches q r.
Proof.
  intros Hq Hr. unfold pg_where. rewrite pg_id_clause pg_arms_sat // sqlite_arms_sat //.
  simpl. rewrite i64_or_max_lt // /has existsb_map kinds_clause kind_is_empty_or /matches.
  rewrite -andb_assoc. f_equal. f_equal. by destruct (has_id_clause q).
Qed.
End sql_filters.

(** ** The SQL tables implement the feed *)

Section sql_contract.
Context `{ChangeSdk} {Cell : Type}.
Context (to_cell : Value → Cell) (from_cell : Cell → result Value AcdpError).
Context (where_clause : FeedQuery → ChangesRow Cell → bool).

(** A SHA-256 digest has 32 bytes. *)
Context (Hsha : ∀ m, length (sha256 m) = 32).
(** A JSON column gives back the value that was stored. *)
Context (Hcell : ∀ v, from_cell (to_cell v) = Ok v).
Context (Hwhere : ∀ q r, query_wf q → row_wf r →
           where_clause q (encode_row to_cell r) = (after q <? seq r)%Z && matches q r).

Record sql_rep (db : ChangesDb Cell) (a : AFeed) : Prop := {
  sr_wf : afeed_wf a;
  sr_up : db_reachable db = true;
  sr_rows : changes db = map (encode_row to_cell) (live a);
  sr_identity : (top a ≤ identity db)%Z;
  sr_pruned : meta_pruned_through db = mark a;
  sr_fp : meta_pruned_through_fp db = mark_fp a
}.

Lemma live_wf a r : afeed_wf a → r ∈ live a → row_wf r.
Proof.
  intros Hwf [Hr _]%elem_of_live. by apply (proj1 (Forall_forall _ _) (wf_rows a Hwf)).
Qed.

Lemma fingerprint_columns_encode r :
  row_wf r →
  fingerprint_columns (seq r) (appended_at_ms r) (kind_as_str (row_kind r)) (row_ctx_id r) =
    Ok (seq r, fingerprint r).
Proof.
  intros [Hr _]. unfold fingerprint_columns. rewrite kind_parse_as_str.
  by rewrite (proj2 (Z.ltb_ge _ _)); [|lia].
Qed.

Lemma length_fingerprint r : length (fingerprint r) = 8.
Proof. unfold fingerprint, feed_fingerprint. rewrite length_take Hsha. done. Qed.

Lemma sql_read_head db a : sql_rep db a → read_head db = Ok (a_head a).
Proof.
  intros [Hwf Hup Hrows _ Hp Hf]. unfold read_head, a_head.
  rewrite Hrows last_map Hp Hf Z.max_l; [|by apply mark_le_top].
  assert (Hfp : usable_fp (mark_fp a) = mark_fp a).
  { destruct (mark_fp a) as [fp|] eqn:E; [|done].
    destruct (wf_mark_fp a Hwf fp E) as (r & _ & _ & <-). simpl. by rewrite length_fingerprint. }
  rewrite Hfp. destruct (last (live a)) as [r|] eqn:Hl; simpl; [|done].
  rewrite fingerprint_columns_encode //. eapply live_wf; [done|]. by apply last_Some_elem_of.
Qed.

Lemma row_to_feed_encode r : row_wf r → row_to_feed from_cell (encode_row to_cell r) = Ok r.
Proof.
  intros [Hr _]. unfold row_to_feed. simpl. destruct r as [s k c l g sb ev rc t lh ah]; simpl in *.
  assert (Hev : match to_cell <$> ev with
            | Some c => and_then (from_cell c) (λ v, Ok (Some v))
            | None => Ok None
            end = (Ok ev : result (option Value) AcdpError)).
  { destruct ev; simpl; [by rewrite Hcell|done]. }
  rewrite Hev /= Hcell /= /from_columns (proj2 (Z.ltb_ge _ _)); [|lia].
  by rewrite kind_parse_as_str.
Qed.

Lemma collect_rows_encode l :
  Forall row_wf l → collect_rows from_cell (map (encode_row to_cell) l) = Ok l.
Proof.
  induction 1 as [|r l Hr Hl IH]; [done|]. cbn [map collect_rows].
  by rewrite row_to_feed_encode // /= IH.
Qed.

Lemma sql_rep_head db a : sql_rep db a → sql_changes_head db = Ok (a_head a).
Proof. intros Hrep. unfold sql_changes_head. by rewrite (sr_up db a Hrep) (sql_read_head db a). Qed.

Lemma sql_rep_page db a q :
  sql_rep db a → query_wf q → sql_changes_page from_cell where_clause db q = Ok (a_page a q).
Proof.
  intros Hrep Hq. unfold sql_changes_page.
  rewrite (sr_up db a Hrep) (sql_read_head db a Hrep) (sr_rows db a Hrep) /=.
  pose proof (sr_wf db a Hrep) as Hwf.
  rewrite (map_map_filter (encode_row to_cell) _
             (λ r, (after q < seq r)%Z ∧ matches q r = true)).
  2:{ intros r Hr%live_wf; [|done]. rewrite Hwhere // andb_true_iff Z.ltb_lt. done. }
  rewrite take_map collect_rows_encode //.
  apply Forall_take, Forall_forall. intros r [_ Hr]%list_elem_of_filter. by eapply live_wf.
Qed.
(** The last position a prune's scan selects. *)
Lemma sql_prune_last db a cut b :
  sql_rep db a →
  last (map fst (take_while (λ '(_, at_ms), (at_ms <? cut)%Z)
          (map (λ r, (col_seq r, col_appended_at_ms r))
             (take (Z.to_nat (Z.max b 1)) (changes db))))) =
    seq <$> last (prunable a cut b).
Proof.
  intros Hrep. rewrite (sr_rows db a Hrep) take_map map_map take_while_map map_map last_map.
  done.
Qed.

Lemma sql_boundary_fp db a r :
  sql_rep db a → r ∈ live a → boundary_fp db (seq r) = Ok (fingerprint r).
Proof.
  intros Hrep Hr. pose proof (sr_wf db a Hrep) as Hwf. unfold boundary_fp.
  rewrite (sr_rows db a Hrep).
  destruct (list_find _ _) as [[i x]|] eqn:Hf.
  - apply list_find_Some in Hf as (Hi & Hs & _).
    apply list_lookup_fmap_Some in Hi as (r' & Hx & Hr'%list_elem_of_lookup_2).
    subst x. simpl in *. assert (r' = r) as ->.
    { by eapply sorted_seq_inj; [by apply live_sorted|..]. }
    rewrite fingerprint_columns_encode //. by eapply live_wf.
  - apply list_find_None in Hf. rewrite Forall_forall in Hf.
    destruct (Hf (encode_row to_cell r)); [|done]. by apply (list_elem_of_fmap_2 (encode_row to_cell)).
Qed.

Lemma sql_rep_prune db a cut b :
  sql_rep db a →
  ∃ db', sql_prune_changes db cut b = (Ok (Z.of_nat (length (prunable a cut b))), db') ∧
         sql_rep db' (a_prune a cut b).
Proof.
  intros Hrep. pose proof (a_prune_wf a cut b (sr_wf db a Hrep)) as Hwf'.
  unfold sql_prune_changes. rewrite (sr_up db a Hrep) (sql_prune_last db a cut b Hrep).
  unfold a_prune in *. destruct (last (prunable a cut b)) as [r|] eqn:Hl; simpl.
  2:{ apply last_None in Hl. rewrite Hl. by exists db. }
  apply prunable_last in Hl as Hr. destruct Hr as [Hr Hm].
  rewrite (sql_boundary_fp db a r Hrep); [|by apply elem_of_live].
  destruct Hrep as [Hwf Hup Hrows Hid Hp Hf].
  rewrite Hrows (map_map_filter _ _ (λ x, (seq x ≤ seq r)%Z)); [|done].
  rewrite length_map (prunable_cut a cut b r) //. eexists. split; [done|].
  split; simpl; [done|done| |done|lia|by rewrite Hp (proj2 (Z.leb_le _ _)); [|lia]].
  rewrite live_mark; [|lia]. apply map_map_filter. intros x _. simpl. lia.
Qed.

(** One insert, at the position the identity column draws. *)
Lemma sql_rep_insert db a gap now x :
  sql_rep db a → (0 ≤ gap)%Z → (identity db + 1 + gap ≤ i64_max)%Z → append_wf x →
  sql_rep (changes_insert to_cell db gap now x)
    (a_append a [row_of_append (identity db + 1 + gap) now x]).
Proof.
  intros [Hwf Hup Hrows Hid Hp Hf] Hgap Hroom [Hx1 Hx2].
  pose proof (top_nonneg a Hwf) as Ht.
  assert (Hlt : (top a < seq (row_of_append (identity db + 1 + gap) now x))%Z) by (simpl; lia).
  split; try done.
  - apply a_append_wf; [done|done|]. split_and!; simpl; [lia|lia|done..].
  - rewrite live_append // map_app. unfold encode_row at 2. simpl.
    by rewrite Hrows append_of_row_of_append.
  - rewrite top_append. simpl. lia.
Qed.
End sql_contract.

(** *** SQLite *)

Section sqlite.
Context `{ChangeSdk} {Text : Type}.
(** JSON text, with [Value::to_string] and [serde_json::from_str]. *)
Context (json_text : Value → Text) (json_parse : Text → result Value AcdpError).

(** [append_lifecycle] and [append_publish] insert their rows in order, at the
    transaction's clock; [AUTOINCREMENT] draws the next position. *)
Definition sqlite_feed_append (db : ChangesDb Text) (now_ms : Z) (l : list FeedAppend) :
    ChangesDb Text :=
  fold_left (λ db a, changes_insert json_text db 0 now_ms a) l db.

Definition sqlite_changes_page : ChangesDb Text → FeedQuery → result FeedPage AcdpError :=
  sql_changes_page json_parse sqlite_where.

Definition sqlite_change_feed : ChangeFeed (ChangesDb Text) Z := {|
  changes_head := sql_changes_head;
  changes_page := sqlite_changes_page;
  prune_changes := sql_prune_changes;
  feed_append := sqlite_feed_append
|}.

Context (Hsha : ∀ m, length (sha256 m) = 32)
        (Hjson : ∀ v, json_parse (json_text v) = Ok v).

Lemma sqlite_rep_append db a now l :
  sql_rep json_text db a → (identity db + Z.of_nat (length l) ≤ i64_max)%Z →
  Forall append_wf l →
  ∃ new, sql_rep json_text (sqlite_feed_append db now l) (a_append a new) ∧
         map append_of_row new = l.
Proof.
  intros Hrep Hroom Hl. revert db a Hrep Hroom.
  induction Hl as [|x l Hx Hl IH]; intros db a Hrep Hroom.
  { exists []. by rewrite a_append_nil. }
  simpl in Hroom.
  pose proof (sql_rep_insert json_text db a 0 now x Hrep ltac:(lia) ltac:(lia) Hx) as Hrep1.
  destruct (IH _ _ Hrep1) as (new & Hnew & Hmap); [simpl; lia|].
  rewrite a_append_assoc in Hnew. eexists. split; [exact Hnew|].
  simpl. by rewrite Hmap append_of_row_of_append.
Qed.

Definition sqlite_feed_contract : @FeedContract _ _ _ sqlite_change_feed :=
  @Build_FeedContract _ _ _ sqlite_change_feed (sql_rep json_text)
    (λ db _ l, (identity db + Z.of_nat (length l) ≤ i64_max)%Z)
    (sr_wf json_text) (sql_rep_head json_text Hsha)
    (sql_rep_page json_text json_parse sqlite_where Hsha Hjson (sqlite_where_matches json_text))
    (sql_rep_prune json_text) sqlite_rep_append.
End sqlite.

(** *** Postgres *)

Section postgres.
Context `{ChangeSdk} {Jsonb : Type}.
(** A JSONB column and what it reads back as. *)
Context (to_jsonb : Value → Jsonb) (from_jsonb : Jsonb → result Value AcdpError).

(** [insert_all]: under the advisory lock, one row after the other, each with
    the identity value it draws and the database clock it reads. *)
Fixpoint insert_all (db : ChangesDb Jsonb) (draws : list (Z * Z)) (appends : list FeedAppend) :
    ChangesDb Jsonb :=
  match appends, draws with
  | a :: appends, (gap, now_ms) :: draws =>
      insert_all (changes_insert to_jsonb db gap now_ms a) draws appends
  | _, _ => db
  end.

Definition pg_changes_page : ChangesDb Jsonb → FeedQuery → result FeedPage AcdpError :=
  sql_changes_page from_jsonb pg_where.

(** Postgres's [prune] runs the statements of SQLite's, after locking the
    marker row. *)
Definition pg_prune_changes : ChangesDb Jsonb → Z → Z → result Z AcdpError * ChangesDb Jsonb :=
  sql_prune_changes.

(** Postgres's [head]: the same two reads in one snapshot. *)
Definition pg_changes_head : ChangesDb Jsonb → result FeedHead AcdpError := sql_changes_head.

Definition pg_change_feed : ChangeFeed (ChangesDb Jsonb) (list (Z * Z)) := {|
  changes_head := pg_changes_head;
  changes_page := pg_changes_page;
  prune_changes := pg_prune_changes;
  feed_append := insert_all
|}.

Context (Hsha : ∀ m, length (sha256 m) = 32)
        (Hjson : ∀ v, from_jsonb (to_jsonb v) = Ok v).

(** One draw per row, and positions left. *)
Fixpoint draws_room (n : Z) (draws : list (Z * Z)) (l : list FeedAppend) : Prop :=
  match l, draws with
  | _ :: l, (gap, _) :: draws =>
      (0 ≤ gap)%Z ∧ (n + 1 + gap ≤ i64_max)%Z ∧ draws_room (n + 1 + gap) draws l
  | [], [] => True
  | _, _ => False
  end.

Lemma pg_rep_append db a draws l :
  sql_rep to_jsonb db a → draws_room (identity db) draws l → Forall append_wf l →
  ∃ new, sql_rep to_jsonb (insert_all db draws l) (a_append a new) ∧ map append_of_row new = l.
Proof.
  intros Hrep Hroom Hl. revert db a draws Hrep Hroom.
  induction Hl as [|x l Hx Hl IH]; intros db a draws Hrep Hroom.
  { exists []. rewrite a_append_nil. by destruct draws. }
  destruct draws as [|[gap now] draws]; [done|]. destruct Hroom as (Hgap & Hmax & Hroom).
  pose proof (sql_rep_insert to_jsonb db a gap now x Hrep Hgap Hmax Hx) as Hrep1.
  destruct (IH _ _ draws Hrep1 Hroom) as (new & Hnew & Hmap).
  rewrite a_append_assoc in Hnew. eexists. split; [exact Hnew|].
  simpl. by rewrite Hmap append_of_row_of_append.
Qed.

Definition pg_feed_contract : @FeedContract _ _ _ pg_change_feed :=
  @Build_FeedContract _ _ _ pg_change_feed (sql_rep to_jsonb)
    (λ db draws l, draws_room (identity db) draws l)
    (sr_wf to_jsonb) (sql_rep_head to_jsonb Hsha)
    (sql_rep_page to_jsonb from_jsonb pg_where Hsha Hjson (pg_where_matches to_jsonb))
    (sql_rep_prune to_jsonb) pg_rep_append.
End postgres.

(** ** Properties *)

Section properties.
Context `{ChangeSdk}.

(** After appending [l] to a backend that stood for [a], its head and its pages are
    those of a feed whose log is [a]'s with the rows of [l] behind it. *)
Definition serves_log (head_now : result FeedHead AcdpError)
    (page : FeedQuery → result FeedPage AcdpError) (a : AFeed) (l : list FeedAppend) : Prop :=
  ∃ a' new,
    log a' = log a ++ new ∧ map append_of_row new = l ∧ (mark a ≤ mark a')%Z ∧
    afeed_wf a' ∧ head_now = Ok (a_head a') ∧ ∀ q, query_wf q → page q = Ok (a_page a' q).

Lemma feed_run_serves_log {S Env : Type} `{!ChangeFeed S Env} `{!FeedContract S Env}
    (s s' : S) (a : AFeed) (l : list FeedAppend) :
  feed_rep s a → feed_steps s l s' → serves_log (changes_head s') (changes_page s') a l.
Proof.
  intros Hrep Hs. destruct (feed_steps_refine s l s' a Hs Hrep) as (a' & new & Hrep' & He & Hl & Hm).
  exists a', new. split_and!; [done|done|by apply evolves_mark|by eapply rep_wf|by apply rep_head|].
  intros q Hq. by apply rep_page.
Qed.

(** C39: whatever the commits and retention passes the memory, SQLite or Postgres
    feed goes through, it is one append-only log: the rows of earlier commits stay,
    in place and unchanged, the new rows follow in commit order, the pruning mark
    only rises, and every head and page the backend then serves is the one the
    abstract feed serves. The JSON columns give back the values they were written with,
    which JSONB does for values in its normal form: one member per key, in its order. *)
Theorem feed_run_refines_log
    {Text : Type} (json_text : Value → Text) (json_parse : Text → result Value AcdpError)
    {Jsonb : Type} (to_jsonb : Value → Jsonb) (from_jsonb : Jsonb → result Value AcdpError)
    (Hsha : ∀ m, length (sha256 m) = 32)
    (Htext : ∀ v, json_parse (json_text v) = Ok v)
    (Hjsonb : ∀ v, from_jsonb (to_jsonb v) = Ok v) :
  (∀ mem mem' a l, mem_rep mem a → feed_steps (H0 := memory_feed_contract) mem l mem' →
     serves_log (mem_changes_head mem') (mem_changes_page mem') a l) ∧
  (∀ db db' a l, sql_rep json_text db a →
     feed_steps (H0 := sqlite_feed_contract json_text json_parse Hsha Htext) db l db' →
     serves_log (sql_changes_head db') (sqlite_changes_page json_parse db') a l) ∧
  (∀ db db' a l, sql_rep to_jsonb db a →
     feed_steps (H0 := pg_feed_contract to_jsonb from_jsonb Hsha Hjsonb) db l db' →
     serves_log (pg_changes_head db') (pg_changes_page from_jsonb db') a l).
Proof.
  split_and!; intros s s' a l Hrep Hs.
  - exact (feed_run_serves_log s s' a l Hrep Hs).
  - exact (@feed_run_serves_log _ _ (sqlite_change_feed json_text json_parse)
             (sqlite_feed_contract json_text json_parse Hsha Htext) s s' a l Hrep Hs).
  - exact (@feed_run_serves_log _ _ (pg_change_feed to_jsonb from_jsonb)
             (pg_feed_contract to_jsonb from_jsonb Hsha Hjsonb) s s' a l Hrep Hs).
Qed.

(** The SQL filters, with their index ranges, their clamped cursor and
    their text kinds, select exactly the rows [FeedQuery::matches] does: on
    stores that hold the same feed the three backends answer every query with
    the same page. *)
Theorem feed_backends_agree
    {Text : Type} (json_text : Value → Text) (json_parse : Text → result Value AcdpError)
    {Jsonb : Type} (to_jsonb : Value → Jsonb) (from_jsonb : Jsonb → result Value AcdpError)
    (mem : MemoryFeed) (sqlite : ChangesDb Text) (pg : ChangesDb Jsonb)
    (a : AFeed) (q : FeedQuery) :
  (∀ m, length (sha256 m) = 32) →
  (∀ v, json_parse (json_text v) = Ok v) → (∀ v, from_jsonb (to_jsonb v) = Ok v) →
  mem_rep mem a → sql_rep json_text sqlite a → sql_rep to_jsonb pg a → query_wf q →
  mem_changes_page mem q = Ok (a_page a q) ∧
  sqlite_changes_page json_parse sqlite q = mem_changes_page mem q ∧
  pg_changes_page from_jsonb pg q = mem_changes_page mem q.
Proof.
  intros Hsha Hj Hjb Hm Hs Hp Hq. rewrite (mem_rep_page mem a q Hm Hq). split; [done|]. split.
  - exact (sql_rep_page json_text json_parse sqlite_where Hsha Hj
             (sqlite_where_matches json_text) sqlite a q Hs Hq).
  - exact (sql_rep_page to_jsonb from_jsonb pg_where Hsha Hjb
             (pg_where_matches to_jsonb) pg a q Hp Hq).
Qed.
End properties.

(** ** A concrete feed *)

Module FeedExample.

(** A small SDK: ids are their own parse, receipts and events are their JSON,
    the bucket of every id is [0], and an entry is its position and ids. *)
Definition toy_sdk : ChangeSdk := {|
  LifecycleEvent := Value;
  EventReceipt := Value;
  RegistryReceipt := Value;
  Change := Z * string * string;
  bucket := λ _ n, from_bytes (replicate n 48%Z);
  sha256 := λ m, take 32 (map (λ b, (b mod 256)%Z) (rev m) ++ replicate 32 0%Z);
  agent_did_parse := Ok;
  lineage_id_parse := Ok;
  ctx_id_parse := Ok;
  event_from_value := Ok;
  event_to_value := Ok;
  event_receipt_from_value := Ok;
  registry_receipt_from_value := Ok;
  change_lifecycle := λ n lineage agent _ _, Ok (n, lineage, agent);
  change_superseded := λ n _ agent r,
    Ok (n, match r with VString lineage => lineage | _ => "" end, agent);
  change_key_revocation := λ n agent r,
    Ok (n, match r with VString lineage => lineage | _ => "" end, agent);
  change_lineage_id := λ c, c.1.2;
  change_agent_id := λ c, c.2;
  sdk_display := λ _, ""
|}.

#[local] Existing Instance toy_sdk.

Definition revocation : Body := example_body "ctx-1" "lin-1" "did:web:a" true None.

(** The rows the publish of a key revocation appends. *)
Definition revocation_rows : list FeedAppend :=
  match feed_appends_for_publish revocation (Some (VString "lin-1")) None with
  | Ok l => l
  | Err _ => []
  end.

Example revocation_rows_kind : map fa_kind revocation_rows = [KeyRevocation].
Proof. reflexivity. Qed.

Definition append1 : FeedAppend :=
  derive_append KeyRevocation "ctx-1" "lin-1" "did:web:a" None None (VString "lin-1").

Example revocation_rows_append1 : revocation_rows = [append1].
Proof. reflexivity. Qed.

Lemma append1_wf : append_wf append1.
Proof.
  split; split; try reflexivity; apply (bool_decide_unpack _); vm_compute; exact I.
Qed.

Definition mem0 : MemoryFeed := mkMemoryFeed false (mkFeed [] 0 0 None).

Definition db0 : ChangesDb Value := mkChangesDb true [] 0 0 None.

Lemma mem0_rep : mem_rep mem0 empty_feed.
Proof. by split; [apply empty_feed_wf|..]. Qed.

Lemma db0_rep : sql_rep id db0 empty_feed.
Proof. by split; [apply empty_feed_wf|..]. Qed.

Lemma toy_sha256_bytes (m : list Z) : length (sha256 m) = 32 ∧ Forall is_byte (sha256 m).
Proof.
  change (sha256 m) with (take 32 (map (λ b, (b mod 256)%Z) (rev m) ++ replicate 32 0%Z)).
  rewrite length_take length_app length_replicate. split; [lia|].
  apply Forall_take, Forall_app. split; [|apply Forall_replicate; split; lia].
  apply Forall_map, Forall_true. intros b. apply Z.mod_pos_bound. lia.
Qed.

Definition feed1 : AFeed := a_append empty_feed [row_of_append 1 5 append1].

(** The query without a filter, from the start. *)
Definition query0 : FeedQuery := mkQuery 0 [] [] [] [] [] [] [] 10.

Lemma query0_wf : query_wf query0.
Proof. split; simpl; [unfold u64_max; lia|unfold u32_max; lia|constructor|constructor]. Qed.

Lemma feed_backends_agree_witness :
  let mem := mkMemoryFeed false (push_one 5 (feed mem0) append1) in
  let db := changes_insert id db0 0 5 append1 in
  mem_changes_page mem query0 = Ok (a_page feed1 query0) ∧
  sqlite_changes_page Ok db query0 = mem_changes_page mem query0 ∧
  pg_changes_page Ok db query0 = mem_changes_page mem query0.
Proof.
  apply (feed_backends_agree id Ok id Ok _ _ _ feed1).
  - intros m. apply toy_sha256_bytes.
  - reflexivity.
  - reflexivity.
  - exact (mem_rep_push_one 5 mem0 empty_feed append1 mem0_rep ltac:(vm_compute; discriminate)
             append1_wf).
  - exact (sql_rep_insert id db0 empty_feed 0 5 append1 db0_rep ltac:(lia)
             ltac:(vm_compute; discriminate) append1_wf).
  - exact (sql_rep_insert id db0 empty_feed 0 5 append1 db0_rep ltac:(lia)
             ltac:(vm_compute; discriminate) append1_wf).
  - apply query0_wf.
Defined.

(** Each backend from its empty feed, through one commit and a retention pass that
    deletes its row. *)
Lemma revocation_run {S Env : Type} `{!ChangeFeed S Env} `{!FeedContract S Env} (s : S) (env : Env) :
  append_room s env revocation_rows →
  feed_steps s revocation_rows (prune_changes (feed_append s env revocation_rows) 9 1).2.
Proof.
  intros Hroom. rewrite -{1}(app_nil_r revocation_rows). eapply steps_step.
  - apply (step_append s env revocation_rows); [done|].
    rewrite revocation_rows_append1. constructor; [apply append1_wf|constructor].
  - rewrite -(app_nil_r (@nil FeedAppend)). eapply steps_step; [|apply steps_refl].
    eapply (step_prune _ 9 1). apply surjective_pairing.
Qed.

Lemma toy_sha256_length (m : list Z) : length (sha256 m) = 32.
Proof. apply toy_sha256_bytes. Qed.

Lemma feed_run_refines_log_witness :
  let mem := (mem_prune_changes (mem_feed_append mem0 5 revocation_rows) 9 1).2 in
  let db := (sql_prune_changes (sqlite_feed_append id db0 5 revocation_rows) 9 1).2 in
  let pg := (pg_prune_changes (insert_all id db0 [(3, 5)]%Z revocation_rows) 9 1).2 in
  serves_log (mem_changes_head mem) (mem_changes_page mem) empty_feed revocation_rows ∧
  serves_log (sql_changes_head db) (sqlite_changes_page Ok db) empty_feed revocation_rows ∧
  serves_log (pg_changes_head pg) (pg_changes_page Ok pg) empty_feed revocation_rows.
Proof.
  destruct (feed_run_refines_log id Ok id Ok toy_sha256_length (λ _, eq_refl) (λ _, eq_refl))
    as (Hmem & Hdb & Hpg).
  split_and!.
  - apply (Hmem mem0 _ empty_feed revocation_rows mem0_rep).
    apply (@revocation_run _ _ memory_change_feed memory_feed_contract mem0 5%Z).
    vm_compute. discriminate.
  - apply (Hdb db0 _ empty_feed revocation_rows db0_rep).
    apply (@revocation_run _ _ (sqlite_change_feed id Ok)
             (sqlite_feed_contract id Ok toy_sha256_length (λ _, eq_refl)) db0 5%Z).
    vm_compute. discriminate.
  - apply (Hpg db0 _ empty_feed revocation_rows db0_rep).
    apply (@revocation_run _ _ (pg_change_feed id Ok)
             (pg_feed_contract id Ok toy_sha256_length (λ _, eq_refl)) db0 [(3, 5)]%Z).
    split; [lia|]. split; [vm_compute; discriminate|exact I].
Defined.

Lemma published_rows_sit_in_served_buckets_witness :
  map fa_kind [append1] = [KeyRevocation] ∧
  ∀ x, x ∈ [append1] →
    ∃ c, to_change (row_of_append 1 0 x) = Ok c ∧
      ∀ n b s t,
        matches (watch_lineage_bucket n b) (row_of_append s t x) =
          contains b (bucket_hash (change_lineage_id c)) ∧
        matches (watch_agent_bucket n b) (row_of_append s t x) =
          contains b (bucket_hash (change_agent_id c)).
Proof.
  apply (published_rows_sit_in_served_buckets revocation (Some (VString "lin-1")) None [append1]).
  reflexivity.
Defined.

End FeedExample.
