(* ===== verification/Changes.v ===== *)
(** * [GET /changes]

    [acdp-registry-core/src/handlers/changes.rs]: where a request starts
    reading, the anchor check of a cursor, the refill loop over hidden entries
    and the page bounds.

    The handler awaits the store several times; other requests run in between.
    [store_at i] is the store its [i]-th call finds: 0 the head, 1 the anchor's
    page, 2 and 3 the watched contexts and their producers, [4 + 2k] and
    [5 + 2k] the page and the visibility of the [k]-th scan. *)

From S2P Require Import Prelude Errors ContextTypes ChangeBucket ChangeFeed.

Open Scope registry_scope.

Definition REFILL_MAX_SCANS : nat := 6.
Definition MIN_SCAN_ROWS : Z := 100.
Definition MAX_PAGE_BYTES : Z := 1048576.
Definition DEFAULT_LIMIT : Z := 100.

Record CursorAnchor : Type := mkAnchor { anchor_seq : Z; anchor_fp : FeedFingerprint }.

Record DecodedCursor : Type := mkDecoded { cursor_pos : Z; cursor_anchor : CursorAnchor }.

Inductive CursorError : Type := CE_Invalid | CE_UnknownKey | CE_Stale.

(** The cursor codec of [ChangesKey]. *)
Class CursorCodec (Key : Type) : Type := {
  encode_cursor : Key → Z → CursorAnchor → string;
  decode_cursor : Key → string → result DecodedCursor CursorError
}.

Inductive Since : Type :=
  | Oldest
  | SinceHead
  | Cursor (c : DecodedCursor)
  | Position (p : Z).

(** [acdp::types::change::WatchFilter]. *)
Record WatchFilter : Type := mkFilter {
  w_ctx_id : list string;
  w_lineage_id : list string;
  w_agent_id : list string;
  w_kind : list ChangeKind;
  w_lineage_bucket : list string;
  w_agent_bucket : list string
}.

Record ChangesRequest : Type := mkRequest {
  req_since : Since;
  req_limit : Z;
  req_filter : WatchFilter
}.

Record ChangesResponse `{ChangeSdk} : Type := mkResponse {
  resp_changes : list Change;
  next_cursor : string;
  has_more : bool
}.

Definition anchor_at (s : Z) (fp : option FeedFingerprint) : CursorAnchor :=
  match fp with
  | Some fp => mkAnchor s fp
  | None => mkAnchor 0 FEED_ORIGIN_FP
  end.

Definition visibility_subject (row : FeedRow) : option string :=
  match row_kind row with
  | Lifecycle => Some (row_ctx_id row)
  | Superseded => Some (default "" (row_superseded_by row))
  | KeyRevocation => None
  end.

(** [Vec::dedup]: consecutive repeats. *)
Fixpoint dedup (l : list string) : list string :=
  match l with
  | x :: (y :: _) as t => if bool_decide (x = y) then dedup t else x :: dedup t
  | l => l
  end.

(** The store's reads besides the feed, and what the handler uses of
    [serde_json] and the SDK. A store call may fail. *)
Class ChangesStore (S : Type) : Type := {
  visible_ctx_ids : S → list string → option string → option string → bool →
                    result (gset string) AcdpError;
  producers_of : S → list string → result (gmap string string) AcdpError
}.

Class ChangesWire `{ChangeSdk} : Type := {
  (** [json_len] of an entry, and of a response without entries. *)
  json_len_change : Change → result Z RegistryError;
  json_len_envelope : string → result Z RegistryError;
  (** [ChangesResponse::validate]. *)
  response_validate : ChangesResponse → result unit AcdpError;
  (** [AcdpError]'s [Display]. *)
  error_display : AcdpError → string;
  validate_buckets : string → Z → result unit AcdpError
}.

(** The members of [AppState] the handler reads. *)
Record AppState (Key : Type) : Type := mkAppState {
  st_key : Key;
  anonymous_public_reads : bool;
  changes_min_scan_rows : Z;
  changes_max_page_bytes : Z
}.

Arguments mkAppState {Key}.
Arguments st_key {Key}.
Arguments anonymous_public_reads {Key}.
Arguments changes_min_scan_rows {Key}.
Arguments changes_max_page_bytes {Key}.

Section handler.
Context {S Env Key : Type} `{ChangeSdk} `{!ChangeFeed S Env} `{!ChangesStore S}.
Context `{!ChangesWire} `{!CursorCodec Key}.

Definition acdp {T} : result T AcdpError → result T RegistryError := map_err RE_Acdp.

Definition head_cursor (key : Key) (h : FeedHead) : string :=
  encode_cursor key (head h) (anchor_at (head h) (head_fp h)).

(** [FeedQuery { after, scan_limit: 1, ..default }]. *)
Definition row_query (n : Z) : FeedQuery := mkQuery n [] [] [] [] [] [] [] 1.

Definition anchor_holds (store : S) (start : FeedHead) (anchor : CursorAnchor) :
    result bool AcdpError :=
  if (head start <? anchor_seq anchor)%Z then Ok false
  else
    let? stored :=
      (if (anchor_seq anchor =? 0)%Z then Ok (Some FEED_ORIGIN_FP)
       else if (anchor_seq anchor =? head start)%Z then Ok (head_fp start)
       else
         let? page := changes_page store (row_query (anchor_seq anchor - 1)) in
         Ok (if (anchor_seq anchor =? page_pruned_through page)%Z then page_pruned_through_fp page
             else if (anchor_seq anchor <? page_pruned_through page)%Z then None
             else
               match rows page with
               | r :: _ => if (seq r =? anchor_seq anchor)%Z then Some (fingerprint r) else None
               | [] => None
               end)) in
    Ok (bool_decide (stored = Some (anchor_fp anchor))).

(** [buckets]. *)
Fixpoint buckets (values : list string) : result (list HashBucket) RegistryError :=
  match values with
  | [] => Ok []
  | b :: values =>
      let? x := acdp (bucket_parse validate_buckets b MAX_CHANGE_BUCKET_LENGTH) in
      let? xs := buckets values in
      Ok (x :: xs)
  end.

(** The producers whose key revocations a [ctx_id] watch also matches. *)
Definition watched_producers (state : AppState Key) (store_at : nat → S)
    (requester tenant : option string) (watched : list string) :
    result (list string) RegistryError :=
  if is_empty watched then Ok []
  else
    let? visible := acdp (visible_ctx_ids (store_at 2) watched requester tenant
                            (anonymous_public_reads state)) in
    let visible := filter (λ c, c ∈ visible) watched in
    if is_empty visible then Ok []
    else
      let? producers := acdp (producers_of (store_at 3) visible) in
      Ok (dedup (merge_sort String.le (map snd (map_to_list producers)))).

(** The loop variables. *)
Record Scan : Type := mkScan {
  pos : Z;
  served : list Change;
  body_len : Z;
  capped : bool;
  scan_head : Z;
  scan_head_fp : option FeedFingerprint;
  scanned : Z
}.

(** The handler's inner loop over one page. The boolean is [break 'scan]. *)
Fixpoint serve_rows (target max_bytes : Z) (visible : gset string) (rs : list FeedRow)
    (st : Scan) : result (bool * Scan) RegistryError :=
  match rs with
  | [] => Ok (false, st)
  | row :: rest =>
      if (Z.of_nat (length (served st)) =? target)%Z then Ok (true, st)
      else if (match visibility_subject row with
               | None => true
               | Some id => bool_decide (id ∈ visible)
               end) then
        let? change := acdp (to_change row) in
        let? size := json_len_change change in
        if negb (is_empty (served st)) && (max_bytes <? body_len st + 1 + size)%Z then
          Ok (true, mkScan (pos st) (served st) (body_len st) true (scan_head st)
                      (scan_head_fp st) (scanned st))
        else
          serve_rows target max_bytes visible rest
            (mkScan (seq row) (served st ++ [change])
               (body_len st + size + (if is_empty (served st) then 0 else 1))%Z
               (capped st) (scan_head st) (scan_head_fp st) (scanned st))
      else
        serve_rows target max_bytes visible rest
          (mkScan (seq row) (served st) (body_len st) (capped st) (scan_head st)
             (scan_head_fp st) (scanned st))
  end.

(** The ids one page asks the visibility of. *)
Definition page_subjects (rs : list FeedRow) : list string :=
  filter (λ s, s ≠ "") (omap visibility_subject rs).

(** [pos = pos.max(page.last_scanned)]. *)
Definition advance (page : FeedPage) (st : Scan) : Scan :=
  mkScan (Z.max (pos st) (last_scanned page)) (served st) (body_len st) (capped st)
    (scan_head st) (scan_head_fp st) (scanned st).

(** The loop ['scan], with [fuel] turns left; [k] counts them from 0. *)
Fixpoint scan_loop (state : AppState Key) (store_at : nat → S) (requester tenant : option string)
    (base : FeedQuery) (target : Z) (check_expiry : bool) (fuel k : nat) (st : Scan) :
    result Scan RegistryError :=
  match fuel with
  | O => Ok st
  | Datatypes.S fuel =>
      let? page := acdp (changes_page (store_at (4 + 2 * k)) (query_after (pos st) base)) in
      let '(h, fp) :=
        if (scan_head st <=? page_head page)%Z then (page_head page, page_head_fp page)
        else (scan_head st, scan_head_fp st) in
      if check_expiry && (pos st <? page_pruned_through page)%Z then Err (RE_Acdp CursorExpired)
      else
        let subjects := page_subjects (rows page) in
        let? visible :=
          (if is_empty subjects then Ok ∅
           else acdp (visible_ctx_ids (store_at (5 + 2 * k)) subjects requester tenant
                        (anonymous_public_reads state))) in
        let? r := serve_rows target (changes_max_page_bytes state) visible (rows page)
                    (mkScan (pos st) (served st) (body_len st) (capped st) h fp
                       (scanned st + Z.of_nat (length (rows page)))) in
        let '(broke, st) := (r : bool * Scan) in
        if broke then Ok st
        else
          let st := advance page st in
          if reached_head page || (Z.of_nat (length (served st)) =? target)%Z then Ok st
          else scan_loop state store_at requester tenant base target check_expiry fuel
                 (Datatypes.S k) st
  end.

(** The position a request starts at, [None] for [since=head]. *)
Definition start_position (store_at : nat → S) (start : FeedHead) (since : Since) :
    result (option Z) RegistryError :=
  match since with
  | SinceHead => Ok None
  | Oldest => Ok (Some (pruned_through start))
  | Position p =>
      if (head start <? p)%Z || (p <? pruned_through start)%Z then Err (RE_Acdp CursorExpired)
      else Ok (Some p)
  | Cursor c =>
      if (head start <? cursor_pos c)%Z || (cursor_pos c <? pruned_through start)%Z then
        Err (RE_Acdp CursorExpired)
      else
        let? holds := acdp (anchor_holds (store_at 1) start (cursor_anchor c)) in
        if negb holds then Err (RE_Acdp CursorExpired) else Ok (Some (cursor_pos c))
  end.

(** The query the scans share. *)
Definition base_query (state : AppState Key) (store_at : nat → S)
    (requester tenant : option string) (req : ChangesRequest) (p : Z) :
    result FeedQuery RegistryError :=
  let watched := w_ctx_id (req_filter req) in
  let? revocation := watched_producers state store_at requester tenant watched in
  let? lineage := buckets (w_lineage_bucket (req_filter req)) in
  let? agent := buckets (w_agent_bucket (req_filter req)) in
  Ok (mkQuery p watched (w_lineage_id (req_filter req)) (w_agent_id (req_filter req))
        revocation lineage agent (w_kind (req_filter req))
        (Z.max (Z.min (req_limit req) u32_max) (changes_min_scan_rows state))).

(** [check_expiry]. *)
Definition is_checked (since : Since) : bool :=
  match since with Cursor _ | Position _ => true | _ => false end.

Definition evaluate_changes (state : AppState Key) (store_at : nat → S)
    (requester tenant : option string) (req : ChangesRequest) :
    result (ChangesResponse * Z) RegistryError :=
  let key := st_key state in
  let? start := acdp (changes_head (store_at 0)) in
  let? p := start_position store_at start (req_since req) in
  match p with
  | None => Ok (mkResponse _ [] (head_cursor key start) false, 0%Z)
  | Some p =>
      let? base := base_query state store_at requester tenant req p in
      let target := req_limit req in
      let? body := json_len_envelope (head_cursor key start) in
      let? st := scan_loop state store_at requester tenant base target (is_checked (req_since req))
                   REFILL_MAX_SCANS 0
                   (mkScan p [] body false (head start) (head_fp start) 0) in
      let resp := mkResponse _ (served st)
                    (encode_cursor key (pos st) (anchor_at (scan_head st) (scan_head_fp st)))
                    (pos st <? scan_head st)%Z in
      let? _ := map_err (λ e, RE_Internal ("changes response failed its own schema: " +:+ error_display e))
                  (response_validate resp) in
      Ok (resp, scanned st)
  end.
End handler.

(** ** What a page serves *)

Section serving.
Context {S Env Key : Type} `{Hsdk : ChangeSdk} `{!ChangeFeed S Env} `{!FeedContract S Env}.
Context `{!ChangesStore S} `{!ChangesWire} `{!CursorCodec Key}.
Implicit Types (st : Scan).

(** What the requester may see, for the length of the request. *)
Context (state : AppState Key) (requester tenant : option string) (may_see : string → bool).

(** The stores one request finds: each holds a feed, later ones evolve from
    earlier ones, every stored row can be served, what is sent can be
    measured (at whatever length), and visibility is answered. *)
Record request_world (store_at : nat → S) (a_at : nat → AFeed) : Prop := {
  rw_rep i : feed_rep (store_at i) (a_at i);
  rw_evolves i j : i ≤ j → evolves (a_at i) (a_at j);
  rw_servable i r : r ∈ log (a_at i) → ∃ c, to_change r = Ok c;
  rw_sizes i r c : r ∈ log (a_at i) → to_change r = Ok c → ∃ n, json_len_change c = Ok n;
  rw_envelope c : ∃ n, json_len_envelope c = Ok n;
  rw_visible i ids : ∃ X,
    visible_ctx_ids (store_at i) ids requester tenant (anonymous_public_reads state) = Ok X ∧
    ∀ id, id ∈ X ↔ id ∈ ids ∧ may_see id = true
}.

(** Whether the requester may see a row's entry. *)
Definition row_visible (r : FeedRow) : bool :=
  match visibility_subject r with
  | None => true
  | Some id => negb (bool_decide (id = "")) && may_see id
  end.

(** The entries of rows. *)
Definition entries : list FeedRow → list Change → Prop := Forall2 (λ r c, to_change r = Ok c).

Lemma entries_exist rs : (∀ r, r ∈ rs → ∃ c, to_change r = Ok c) → ∃ cs, entries rs cs.
Proof.
  induction rs as [|r rs IH]; intros Hc; [by exists []; constructor|].
  destruct (Hc r) as [c Hr]; [set_solver|]. destruct IH as [cs Hcs]; [intros; apply Hc; set_solver|].
  exists (c :: cs). by constructor.
Qed.

Definition subject_in (X : gset string) (r : FeedRow) : bool :=
  match visibility_subject r with None => true | Some id => bool_decide (id ∈ X) end.

Lemma serve_rows_spec target max_bytes X rs st :
  (∀ r, r ∈ rs → ∃ c n, to_change r = Ok c ∧ json_len_change c = Ok n) →
  ∃ broke st' front rest new,
    serve_rows target max_bytes X rs st = Ok (broke, st') ∧
    rs = front ++ rest ∧ entries (filter (λ r, subject_in X r = true) front) new ∧
    served st' = served st ++ new ∧
    pos st' = match last front with Some r => seq r | None => pos st end ∧
    scan_head st' = scan_head st ∧ scan_head_fp st' = scan_head_fp st ∧
    (if broke then rest ≠ [] else rest = []) ∧
    (served st = [] → target ≠ 0%Z → rs ≠ [] → front ≠ []).
Proof.
  intros Hc. revert st. induction rs as [|r rs IH]; intros st.
  { exists false, st, [], [], []. split_and!; try done; [constructor|by rewrite app_nil_r]. }
  assert (Hc' : ∀ x, x ∈ rs → ∃ c n, to_change x = Ok c ∧ json_len_change c = Ok n)
    by (intros; apply Hc; set_solver).
  simpl. fold (subject_in X r).
  destruct (_ =? target)%Z eqn:Ht; bool_to_prop.
  { exists true, st, [], (r :: rs), []. split_and!; try done; [constructor|by rewrite app_nil_r|].
    intros Hs Hz. rewrite Hs in Ht. simpl in Ht. lia. }
  destruct (subject_in X r) eqn:HX.
  - destruct (Hc r) as (c & n & Hrc & Hcn); [set_solver|].
    rewrite Hrc /= Hcn /=. destruct (negb _ && _) eqn:Hcap.
    { exists true. eexists _, [], (r :: rs), []. split; [done|]. simpl.
      split_and!; try done; [constructor|by rewrite app_nil_r|]. intros Hs. rewrite Hs in Hcap. done. }
    destruct (IH Hc'
      (mkScan (seq r) (served st ++ [c])
         (body_len st + n + (if is_empty (served st) then 0 else 1))%Z
         (capped st) (scan_head st) (scan_head_fp st) (scanned st)))
      as (broke & st' & front & rest & new & Hs & Hrs & He & Hsv & Hp & Hh & Hf & Hb & _).
    exists broke, st', (r :: front), rest, (c :: new). split; [done|]. simpl in *.
    rewrite Hrs filter_cons_True; [|done]. split_and!; try done.
    + by constructor.
    + by rewrite Hsv -app_assoc.
    + rewrite Hp last_cons. by destruct (last front).
  - destruct (IH Hc'
      (mkScan (seq r) (served st) (body_len st) (capped st) (scan_head st) (scan_head_fp st)
         (scanned st)))
      as (broke & st' & front & rest & new & Hs & Hrs & He & Hsv & Hp & Hh & Hf & Hb & _).
    exists broke, st', (r :: front), rest, new. split; [done|]. simpl in *.
    rewrite Hrs filter_cons_False; [|by rewrite HX]. split_and!; try done.
    rewrite Hp last_cons. by destruct (last front).
Qed.

(** The set the store answers decides the rows of the page as [row_visible]. *)
Lemma subject_in_visible rs X r :
  (∀ id, id ∈ X ↔ id ∈ page_subjects rs ∧ may_see id = true) → r ∈ rs →
  subject_in X r = row_visible r.
Proof.
  intros HX Hr. unfold subject_in, row_visible.
  destruct (visibility_subject r) as [id|] eqn:Hid; [|done].
  apply Bool.eq_true_iff_eq. rewrite bool_decide_eq_true HX andb_true_iff negb_true_iff bool_decide_eq_false.
  unfold page_subjects. rewrite list_elem_of_filter. split; [tauto|].
  intros [? ?]. split_and!; try done. by apply list_elem_of_omap; exists r.
Qed.

(** A time after the last store call of a request. *)
Definition request_end : nat := 4 + 2 * REFILL_MAX_SCANS.

(** The rows of the feed [a] a request with query [base] is served between
    two positions. *)
Definition due (base : FeedQuery) (a : AFeed) (lo hi : Z) : list FeedRow :=
  between a lo hi (λ r, matches base r && row_visible r).

(** What holds after some scans: [i] is the last store read, [a] the feed at
    the end of the request. *)
Record scan_inv (base : FeedQuery) (a_i a : AFeed) (p0 : Z) (st : Scan) : Prop := {
  si_pos : (p0 ≤ pos st ≤ top a_i)%Z;
  si_head : scan_head st = top a_i;
  si_head_fp : scan_head_fp st = head_fp (a_head a_i);
  si_served : entries (due base a p0 (pos st)) (served st)
}.

(** The fields of a query the scans share. *)
Definition base_wf (base : FeedQuery) : Prop :=
  (0 ≤ scan_limit base ≤ u32_max)%Z ∧ Forall bucket_wf (lineage_buckets base) ∧
  Forall bucket_wf (agent_buckets base).

Lemma top_le_u64 a : afeed_wf a → (top a ≤ u64_max)%Z.
Proof.
  intros Hwf. unfold top. destruct (last (log a)) as [r|] eqn:Hl; [|done].
  apply last_Some_elem_of in Hl.
  destruct (proj1 (Forall_forall _ _) (wf_rows a Hwf) r Hl) as [? _].
  unfold i64_max, u64_max in *. lia.
Qed.

Lemma base_query_wf base a n :
  base_wf base → afeed_wf a → (0 ≤ n ≤ top a)%Z → query_wf (query_after n base).
Proof.
  intros (H1 & H2 & H3) Hwf Hn. pose proof (top_le_u64 a Hwf). split; simpl; try done; lia.
Qed.

(** The rows of one page and the entries served from a prefix of it. *)
Lemma due_extend base a_k a p0 p p' front rest new old :
  afeed_wf a_k → afeed_wf a → evolves a_k a → (p0 ≤ p)%Z →
  between a_k p p' (matches base) = front ++ rest → (p' ≤ top a_k)%Z →
  entries (due base a p0 p) old →
  entries (filter (λ r, row_visible r = true) front) new →
  (∀ r, last front = Some r → entries (due base a p0 (seq r)) (old ++ new)) ∧
  (rest = [] → (p ≤ p')%Z → entries (due base a p0 p') (old ++ new)).
Proof.
  intros Hk Ha He Hp Hb Htop Hold Hnew.
  assert (Hext : ∀ q, (p ≤ q ≤ top a_k)%Z → front = between a_k p q (matches base) →
            entries (due base a p0 q) (old ++ new)).
  { intros q Hq Hf. unfold due. rewrite -(between_app a p0 p q); [|done|lia].
    apply Forall2_app; [done|]. rewrite Hf between_filter in Hnew.
    by rewrite (between_evolves a_k a p q) in Hnew; [|done|done|done|lia]. }
  split.
  - intros r Hr. destruct (between_cut a_k p p' (matches base) front rest r Hk Hb Hr) as [Hf Hle].
    apply Hext; [lia|done].
  - intros -> Hpp. apply Hext; [lia|]. by rewrite Hb app_nil_r.
Qed.

(** One turn of the loop over the page it read. *)
Lemma page_served base a_k a p0 target max_bytes X st :
  afeed_wf a_k → afeed_wf a → evolves a_k a → base_wf base →
  (0 ≤ p0)%Z → (mark a_k ≤ pos st)%Z → scan_inv base a_k a p0 st →
  let page := a_page a_k (query_after (pos st) base) in
  (∀ r, r ∈ rows page → ∃ c n, to_change r = Ok c ∧ json_len_change c = Ok n) →
  (∀ r, r ∈ rows page → subject_in X r = row_visible r) →
  ∃ broke st',
    serve_rows target max_bytes X (rows page) st = Ok (broke, st') ∧
    let st2 := if broke then st' else advance page st' in
    scan_inv base a_k a p0 st2 ∧ (pos st ≤ pos st2)%Z ∧
    (served st = [] → target ≠ 0%Z → (pos st < pos st2)%Z ∨ pos st2 = top a_k) ∧
    (broke = false → if reached_head page then pos st2 = top a_k else (pos st < pos st2)%Z).
Proof.
  intros Hk Ha He Hbase Hp0 Hmark [Hpos Hh Hfp Hserved] page Hc HX.
  destruct (a_page_rows a_k (query_after (pos st) base) Hk) as
    (Hrows & Hls & _ & _ & _ & _ & Hreach); [simpl; lia|].
  change (after (query_after (pos st) base)) with (pos st) in Hrows, Hls, Hreach.
  fold page in Hrows, Hls, Hreach.
  rewrite Z.max_l in Hrows; [|done].
  change (matches (query_after (pos st) base)) with (matches base) in Hrows.
  destruct (serve_rows_spec target max_bytes X (rows page) st Hc) as
    (broke & st' & front & rest & new & Hs & Hfr & Hnew & Hsv & Hpos' & Hh' & Hfp' & Hb & Hprog).
  exists broke, st'. split; [done|].
  assert (Hnew' : entries (filter (λ r, row_visible r = true) front) new).
  { rewrite (filter_iff_in _ (λ r, subject_in X r = true)); [done|].
    intros r Hr. rewrite HX; [done|]. rewrite Hfr. set_solver. }
  rewrite Hfr in Hrows. symmetry in Hrows.
  destruct (due_extend base a_k a p0 (pos st) (last_scanned page) front rest new (served st))
    as [Hcut Hfull]; [done|done|done|lia|done|lia|done|done|].
  assert (Hfront : ∀ r, last front = Some r → (pos st < seq r ≤ last_scanned page)%Z).
  { intros r Hr. by destruct (between_cut a_k _ _ _ front rest r Hk Hrows Hr). }
  destruct broke; simpl.
  - destruct (last front) as [r|] eqn:Hl.
    + pose proof (Hfront r eq_refl). rewrite Hpos'. split_and!; [|lia|lia|done].
      split; [rewrite Hpos'; lia|by rewrite Hh'|by rewrite Hfp'|].
      rewrite Hpos' Hsv. by apply Hcut.
    + apply last_None in Hl. subst front. apply Forall2_nil_inv_l in Hnew'. subst new.
      rewrite app_nil_r in Hsv. rewrite Hpos'. split_and!; [|lia| |done].
      * split; [rewrite Hpos'; lia|by rewrite Hh'|by rewrite Hfp'|by rewrite Hpos' Hsv].
      * intros Hs0 Ht. destruct (Hprog Hs0 Ht); [|done]. rewrite Hfr. simpl. done.
  - subst rest. rewrite app_nil_r in Hfr.
    assert (Hmax : Z.max (pos st') (last_scanned page) = last_scanned page).
    { rewrite Hpos'. destruct (last front) as [r|] eqn:Hl; [|lia].
      pose proof (Hfront r eq_refl). lia. }
    assert (Hadv : if reached_head page then last_scanned page = top a_k
                   else (pos st < last_scanned page)%Z).
    { revert Hreach. destruct (reached_head page); [intros Hreach; lia|].
      intros (r & Hr & Hsr).
      rewrite Hfr in Hr. pose proof (Hfront r Hr). lia. }
    rewrite Hmax. split_and!; [|lia| |done].
    + split; cbn [advance pos scan_head scan_head_fp served]; rewrite ?Hmax;
        [lia|by rewrite Hh'|by rewrite Hfp'|].
      rewrite Hsv. apply Hfull; [done|lia].
    + intros _ _. revert Hadv. destruct (reached_head page); [by right|by left].
Qed.

Section world.
Context (store_at : nat → S) (a_at : nat → AFeed) (Hworld : request_world store_at a_at).

Lemma world_wf i : afeed_wf (a_at i).
Proof. exact (rep_wf _ _ (rw_rep _ _ Hworld i)). Qed.

Lemma world_top i j : i ≤ j → (top (a_at i) ≤ top (a_at j))%Z.
Proof.
  intros Hij. apply evolves_top; [apply world_wf|apply world_wf|].
  by apply (rw_evolves _ _ Hworld).
Qed.

Lemma world_mark i j : i ≤ j → (mark (a_at i) ≤ mark (a_at j))%Z.
Proof. intros Hij. by apply evolves_mark, (rw_evolves _ _ Hworld). Qed.

(** The set the [k]-th scan asks for decides its page. *)
Lemma world_visible i rs :
  ∃ X,
    (if is_empty (page_subjects rs) then Ok ∅
     else acdp (visible_ctx_ids (store_at i) (page_subjects rs) requester tenant
                  (anonymous_public_reads state))) = Ok X ∧
    ∀ r, r ∈ rs → subject_in X r = row_visible r.
Proof.
  destruct (page_subjects rs) as [|x l] eqn:Hs; simpl.
  - exists ∅. split; [done|]. intros r Hr. apply (subject_in_visible rs); [|done].
    rewrite Hs. set_solver.
  - destruct (rw_visible _ _ Hworld i (page_subjects rs)) as (X & HX & Hin).
    exists X. rewrite -Hs HX. split; [done|]. intros r Hr. by apply (subject_in_visible rs).
Qed.

Lemma page_rows_in_log a q r : afeed_wf a → (0 ≤ after q)%Z → r ∈ rows (a_page a q) → r ∈ log a.
Proof.
  intros Hwf Hq Hr. destruct (a_page_rows a q Hwf Hq) as [Hrows _]. rewrite Hrows in Hr.
  by apply list_elem_of_filter in Hr as [_ ?].
Qed.

Lemma scan_loop_spec base target check p0 N :
  base_wf base → (0 ≤ p0)%Z → target ≠ 0%Z → (check = true ∨ mark (a_at N) ≤ p0)%Z →
  ∀ fuel k i st,
    i ≤ 4 + 2 * k → 4 + 2 * (k + fuel) ≤ N → scan_inv base (a_at i) (a_at N) p0 st →
    (∃ st' j,
       scan_loop state store_at requester tenant base target check fuel k st = Ok st' ∧
       i ≤ j ≤ N ∧ scan_inv base (a_at j) (a_at N) p0 st' ∧ (pos st ≤ pos st')%Z ∧
       (fuel ≠ 0 → served st = [] → (pos st < pos st')%Z ∨ pos st' = top (a_at j))) ∨
    (check = true ∧ (p0 < mark (a_at N))%Z ∧
     scan_loop state store_at requester tenant base target check fuel k st =
       Err (RE_Acdp CursorExpired)).
Proof.
  intros Hbase Hp0 Htarget Hcheck fuel.
  induction fuel as [|fuel IH]; intros k i st Hi HN Hinv.
  { left. exists st, i. split_and!; try done; lia. }
  set (m := 4 + 2 * k). assert (Him : i ≤ m) by (unfold m; lia).
  assert (HmN : m ≤ N) by (unfold m; lia).
  pose proof (world_wf m) as Hwm. pose proof (world_wf N) as HwN.
  pose proof (world_top i m Him) as Htop.
  destruct Hinv as [Hpos Hh Hfp Hserved].
  cbn [scan_loop]. fold m.
  rewrite (rep_page _ _ _ (rw_rep _ _ Hworld m)); [|by apply (base_query_wf _ (a_at m)); [..|lia]].
  cbn [acdp map_err and_then].
  set (page := a_page (a_at m) (query_after (pos st) base)).
  destruct (a_page_rows (a_at m) (query_after (pos st) base) Hwm) as
    (_ & _ & Hph & Hpp & _ & Hpfp & _); [simpl; lia|]. fold page in Hph, Hpp, Hpfp.
  rewrite Hph Hpp Hpfp Hh (proj2 (Z.leb_le _ _) Htop).
  destruct (check && (pos st <? mark (a_at m))%Z) eqn:Hexp; bool_to_prop.
  { right. pose proof (world_mark m N HmN). split_and!; try done; lia. }
  assert (Hmark : (mark (a_at m) ≤ pos st)%Z).
  { destruct Hcheck as [Hc|Hc].
    - rewrite Hc in Hexp. destruct Hexp; bool_to_prop; [done|lia].
    - pose proof (world_mark m N HmN). lia. }
  destruct (world_visible (5 + 2 * k) (rows page)) as (X & HX & Hvis).
  rewrite HX. cbn [and_then].
  set (st1 := mkScan _ _ _ _ _ _ _).
  destruct (page_served base (a_at m) (a_at N) p0 target (changes_max_page_bytes state) X st1)
    as (broke & st' & Hs & Hinv' & Hmono & Hprog & Hreach); try done.
  { by apply (rw_evolves _ _ Hworld). }
  { split; simpl; [lia|done|done|done]. }
  { intros r Hr. apply page_rows_in_log in Hr; [|done|simpl; lia].
    destruct (rw_servable _ _ Hworld m r Hr) as [c Hc].
    destruct (rw_sizes _ _ Hworld m r c Hr Hc) as [n Hn]. by exists c, n. }
  change (pos st1) with (pos st) in *. change (served st1) with (served st) in *.
  fold page in Hs, Hinv', Hmono, Hprog, Hreach. rewrite Hs. cbn [and_then].
  destruct broke.
  { left. exists st', m. split_and!; try done; try lia. intros _ Hs0. by apply Hprog. }
  specialize (Hreach eq_refl).
  destruct (reached_head page || _) eqn:Hstop.
  { left. exists (advance page st'), m. split_and!; try done; try lia.
    intros _ Hs0. by apply Hprog. }
  apply orb_false_iff in Hstop as [Hr _]. rewrite Hr in Hreach.
  destruct (IH (Datatypes.S k) m (advance page st')) as
    [(st2 & j & Hl & Hj & Hinv2 & Hmono2 & _)|(? & ? & ?)]; [lia|lia|done| |].
  - left. exists st2, j. split_and!; try done; try lia.
  - by right.
Qed.

Lemma buckets_wf l bs :
  bucket_grammar validate_buckets → buckets l = Ok bs → Forall bucket_wf bs.
Proof.
  intros Hg. revert bs. induction l as [|x l IH]; intros bs Hb; simpl in Hb.
  { by simplify_eq. }
  destruct (bucket_parse _ _ _) as [b|] eqn:Hx; simpl in Hb; [|done].
  destruct (buckets l) as [bs'|]; simpl in Hb; [|done]. simplify_eq.
  constructor; [|by apply IH]. by apply bucket_parse_wf in Hx as [_ ?].
Qed.

Lemma base_query_base_wf req p base :
  bucket_grammar validate_buckets → (0 ≤ changes_min_scan_rows state ≤ u32_max)%Z →
  base_query state store_at requester tenant req p = Ok base → base_wf base.
Proof.
  intros Hg Hmin Hb. unfold base_query in Hb.
  destruct (watched_producers _ _ _ _ _); simpl in Hb; [|done].
  destruct (buckets (w_lineage_bucket _)) eqn:H1; simpl in Hb; [|done].
  destruct (buckets (w_agent_bucket _)) eqn:H2; simpl in Hb; [|done]. simplify_eq.
  split_and!; simpl; [unfold u32_max in *; lia|unfold u32_max in *; lia| |];
    by eapply buckets_wf.
Qed.

(** The start of a request lies in the feed it reads. *)
Lemma start_position_bounds since p :
  start_position store_at (a_head (a_at 0)) since = Ok (Some p) →
  (mark (a_at 0) ≤ p ≤ top (a_at 0))%Z.
Proof.
  pose proof (world_wf 0) as Hwf. pose proof (mark_le_top _ Hwf) as Hm.
  destruct (a_head_pruned (a_at 0)) as [Hp _].
  unfold start_position. rewrite Hp (a_head_top _ Hwf).
  destruct since as [| |c|q]; intros Hs; simplify_eq; [lia| |].
  - destruct (_ || _) eqn:E in Hs; [done|]. bool_to_prop.
    destruct (anchor_holds _ _ _) as [[|]|]; simpl in Hs; simplify_eq. lia.
  - destruct (_ || _) eqn:E in Hs; [done|]. bool_to_prop. simplify_eq. lia.
Qed.

(** What is answered of a page that was read: the page, where the SDK finds it valid. *)
Definition answered (resp : ChangesResponse) (n : Z) : result (ChangesResponse * Z) RegistryError :=
  match response_validate resp with
  | Ok _ => Ok (resp, n)
  | Err e => Err (RE_Internal ("changes response failed its own schema: " +:+ error_display e))
  end.

Lemma evaluate_changes_spec req p0 base :
  bucket_grammar validate_buckets → (0 ≤ changes_min_scan_rows state ≤ u32_max)%Z →
  (0 < req_limit req)%Z →
  start_position store_at (a_head (a_at 0)) (req_since req) = Ok (Some p0) →
  base_query state store_at requester tenant req p0 = Ok base →
  (is_checked (req_since req) = true ∨ mark (a_at request_end) ≤ p0)%Z →
  (∃ resp n p j,
     evaluate_changes state store_at requester tenant req = answered resp n ∧
     next_cursor resp =
       encode_cursor (st_key state) p (anchor_at (top (a_at j)) (head_fp (a_head (a_at j)))) ∧
     j ≤ request_end ∧ (p0 ≤ p ≤ top (a_at j))%Z ∧
     entries (due base (a_at request_end) p0 p) (resp_changes resp) ∧
     (if has_more resp then p0 < p else p = top (a_at j))%Z) ∨
  (is_checked (req_since req) = true ∧ (p0 < mark (a_at request_end))%Z ∧
   evaluate_changes state store_at requester tenant req = Err (RE_Acdp CursorExpired)).
Proof.
  intros Hg Hmin Hlim Hstart Hb Hcheck.
  pose proof (world_wf 0) as Hwf. apply start_position_bounds in Hstart as Hp0.
  pose proof (mark_le_top _ Hwf) as Hm0.
  unfold evaluate_changes. rewrite (rep_head _ _ (rw_rep _ _ Hworld 0)).
  cbn [acdp map_err and_then]. rewrite Hstart. cbn [and_then]. rewrite Hb. cbn [and_then].
  destruct (rw_envelope _ _ Hworld (head_cursor (st_key state) (a_head (a_at 0)))) as [len Hlen].
  rewrite Hlen. cbn [and_then].
  set (st0 := mkScan _ _ _ _ _ _ _).
  destruct (scan_loop_spec base (req_limit req) (is_checked (req_since req)) p0 request_end
              (base_query_base_wf req p0 base Hg Hmin Hb) ltac:(lia) ltac:(lia) Hcheck
              REFILL_MAX_SCANS 0 0 st0) as
    [(st' & j & Hl & Hj & Hinv & Hmono & Hprog)|(Hc & Hlt & Hl)].
  - lia.
  - unfold request_end, REFILL_MAX_SCANS. lia.
  - split; simpl; [lia|by apply a_head_top|done|].
    unfold due. rewrite between_empty; [constructor|lia].
  - left. rewrite Hl. cbn [and_then]. destruct Hinv as [Hpos Hh Hfp Hserved].
    set (resp := mkResponse _ _ _ _). exists resp, (scanned st'), (pos st'), j.
    split; [unfold answered; by destruct (response_validate resp)|]. subst resp. cbn [next_cursor resp_changes has_more].
    rewrite Hh Hfp. split_and!; try done; try lia.
    destruct (pos st' <? top (a_at j))%Z eqn:E; bool_to_prop; [|lia].
    destruct Hprog; [done|done|simpl in *; lia|lia].
  - right. by rewrite Hl.
Qed.
End world.
End serving.

(** ** Cursors across the feed's life *)

Section anchors.
Context {S Env : Type} `{Hsdk : ChangeSdk} `{!ChangeFeed S Env} `{!FeedContract S Env}.

Lemma row_query_wf n : (0 ≤ n ≤ u64_max)%Z → query_wf (row_query n).
Proof. intros Hn. split; simpl; [done|unfold u32_max; lia|constructor|constructor]. Qed.

(** A cursor issued on [a0] still holds on every later feed that has not
    pruned its anchor: [a] gave the head, [a1] the anchor's page. *)
Lemma anchor_holds_issued store a0 a a1 :
  feed_rep store a1 → afeed_wf a0 → afeed_wf a → evolves a0 a → evolves a a1 →
  (mark a1 ≤ top a0)%Z →
  anchor_holds store (a_head a) (anchor_at (top a0) (head_fp (a_head a0))) = Ok true.
Proof.
  intros Hrep Hwf0 Hwf He He1 Hmark. pose proof (rep_wf _ _ Hrep) as Hwf1.
  pose proof (evolves_top a0 a Hwf0 Hwf He) as Htop. pose proof (top_nonneg a0 Hwf0) as Ht0.
  assert (Horigin : anchor_holds store (a_head a) (mkAnchor 0 FEED_ORIGIN_FP) = Ok true).
  { unfold anchor_holds. cbn [anchor_seq anchor_fp].
    rewrite (a_head_top a Hwf) (proj2 (Z.ltb_ge _ _)); [|lia].
    rewrite Z.eqb_refl. cbn [and_then]. by rewrite bool_decide_true. }
  destruct (head_fp (a_head a0)) as [fp|] eqn:Hfp; [|done].
  destruct (a_head_fp a0 fp Hwf0 Hfp) as [[Ht ->]|(r & Hl & Hs & Hr)]; simpl.
  { by rewrite Ht. }
  assert (Hr0 : r ∈ log a0) by (by apply last_Some_elem_of).
  pose proof (top_elem a0 r Hwf0 Hr0) as Hpos.
  unfold anchor_holds. cbn [anchor_seq anchor_fp].
  rewrite (a_head_top a Hwf) (proj2 (Z.ltb_ge _ _)); [|lia].
  rewrite (proj2 (Z.eqb_neq _ _)); [|lia].
  destruct (top a0 =? top a)%Z eqn:Heq; bool_to_prop.
  - cbn [and_then]. rewrite bool_decide_true; [done|].
    assert (Hla : last (log a) = Some r).
    { destruct (last (log a)) as [t|] eqn:Ht; [|unfold top in Heq; rewrite Hl Ht in Heq; lia].
      f_equal. eapply sorted_seq_inj; [by apply (wf_sorted a)|by apply last_Some_elem_of| |].
      - by eapply evolves_elem.
      - unfold top in Heq. rewrite Hl Ht in Heq. lia. }
    rewrite (a_head_fp_live a r) //. destruct (mark a <? seq r)%Z eqn:Em; bool_to_prop.
    + by rewrite Hr.
    + pose proof (mark_le_top a Hwf). eapply (mark_fp_issued a0); [done..|lia|done].
  - pose proof (top_le_u64 a0 Hwf0).
    rewrite (rep_page _ _ _ Hrep); [|apply row_query_wf; lia]. cbn [and_then].
    destruct (a_page_rows a1 (row_query (top a0 - 1)) Hwf1) as
      (_ & _ & _ & Hp & Hpf & _ & _); [simpl; lia|].
    rewrite Hp Hpf. destruct (top a0 =? mark a1)%Z eqn:Em; bool_to_prop.
    + rewrite bool_decide_true; [done|].
      eapply (mark_fp_issued a0); [done|done|by etrans|done|lia|done].
    + rewrite (proj2 (Z.ltb_ge _ _)); [|lia].
      assert (Hrows : rows (a_page a1 (row_query (top a0 - 1))) = [r]).
      { apply (a_rows_single a1 _ r); [done| |done|simpl; lia|done].
        apply elem_of_live. split; [|lia]. eapply evolves_elem; [|done]. by etrans. }
      rewrite Hrows Hs Z.eqb_refl bool_decide_true; [done|by rewrite Hr].
Qed.
End anchors.

(** ** Reading the whole feed *)

Section walking.
Context {S Env Key : Type} `{Hsdk : ChangeSdk} `{!ChangeFeed S Env} `{!FeedContract S Env}.
Context `{!ChangesStore S} `{!ChangesWire} `{!CursorCodec Key}.
Context (state : AppState Key) (requester tenant : option string) (may_see : string → bool).
Context (max_len : Z) (filters : WatchFilter).

(** A consumer that follows [next_cursor] while [has_more], at most [fuel]
    pages. *)
Fixpoint walk (store : S) (fuel : nat) (since : Since) : result (list Change) RegistryError :=
  match fuel with
  | O => Err (RE_Internal "page budget")
  | Datatypes.S fuel =>
      let? r := evaluate_changes state (λ _, store) requester tenant
                  (mkRequest since max_len filters) in
      if has_more r.1 then
        match decode_cursor (st_key state) (next_cursor r.1) with
        | Ok c => let? more := walk store fuel (Cursor c) in Ok (resp_changes r.1 ++ more)
        | Err _ => Err (RE_Acdp (InvalidCursor ""))
        end
      else Ok (resp_changes r.1)
  end.

(** Values a cursor can carry. *)
Definition cursor_values (p : Z) (anchor : CursorAnchor) : Prop :=
  (0 ≤ p ≤ u64_max)%Z ∧ (0 ≤ anchor_seq anchor ≤ u64_max)%Z ∧
  length (anchor_fp anchor) = 8 ∧ Forall is_byte (anchor_fp anchor).

(** A digest is 32 bytes. *)
Definition digest_wf : Prop := ∀ m, length (sha256 m) = 32 ∧ Forall is_byte (sha256 m).

Definition codec_roundtrip : Prop := ∀ p anchor,
  cursor_values p anchor →
  decode_cursor (st_key state) (encode_cursor (st_key state) p anchor) = Ok (mkDecoded p anchor).

Lemma fingerprint_bytes r : digest_wf → length (fingerprint r) = 8 ∧ Forall is_byte (fingerprint r).
Proof.
  intros Hd. unfold fingerprint, feed_fingerprint.
  match goal with |- context [sha256 ?m] => destruct (Hd m) as [Hl Hb] end.
  split; [by rewrite length_take Hl|by apply Forall_take].
Qed.

Lemma issued_cursor_values a p :
  digest_wf → afeed_wf a → (0 ≤ p ≤ top a)%Z →
  cursor_values p (anchor_at (top a) (head_fp (a_head a))).
Proof.
  intros Hd Hwf Hp. pose proof (top_le_u64 a Hwf). pose proof (top_nonneg a Hwf).
  assert (Ho : length FEED_ORIGIN_FP = 8 ∧ Forall is_byte FEED_ORIGIN_FP).
  { split; [done|]. by repeat constructor. }
  unfold cursor_values. destruct (head_fp (a_head a)) as [fp|] eqn:Hfp; simpl.
  - assert (length fp = 8 ∧ Forall is_byte fp) as [? ?].
    { destruct (a_head_fp a fp Hwf Hfp) as [[_ ->]|(r & _ & _ & <-)]; [done|].
      by apply fingerprint_bytes. }
    split_and!; try done; lia.
  - destruct Ho. split_and!; try done; unfold u64_max in *; lia.
Qed.

Lemma base_query_after store_at since p p' base :
  base_query state store_at requester tenant (mkRequest since max_len filters) p = Ok base →
  ∀ since', base_query state store_at requester tenant (mkRequest since' max_len filters) p' =
    Ok (query_after p' base).
Proof.
  unfold base_query. simpl. intros Hb since'.
  destruct (watched_producers _ _ _ _ _); simpl in *; [|done].
  destruct (buckets (w_lineage_bucket _)); simpl in *; [|done].
  destruct (buckets (w_agent_bucket _)); simpl in *; [|done]. by simplify_eq.
Qed.

(** How a walk that has collected [cs] ends: with them, or at the page the SDK refused. *)
Definition walked (store : S) (fuel : nat) (since : Since) (cs : list Change) : Prop :=
  walk store fuel since = Ok cs ∨
  ∃ before page after cursor more e,
    cs = before ++ page ++ after ∧
    response_validate (mkResponse _ page cursor more) = Err e ∧
    walk store fuel since = Err (RE_Internal ("changes response failed its own schema: " +:+ error_display e)).

Lemma walk_spec store a :
  request_world state requester tenant may_see (λ _, store) (λ _, a) →
  digest_wf → codec_roundtrip → bucket_grammar validate_buckets →
  (0 ≤ changes_min_scan_rows state ≤ u32_max)%Z → (0 < max_len)%Z →
  ∀ fuel since p base,
    start_position (λ _, store) (a_head a) since = Ok (Some p) →
    base_query state (λ _, store) requester tenant (mkRequest since max_len filters) p = Ok base →
    (∃ cs, entries (due may_see base a p (top a)) cs) →
    (top a - p < Z.of_nat fuel)%Z →
    ∃ cs, walked store fuel since cs ∧ entries (due may_see base a p (top a)) cs.
Proof.
  intros Hw Hd Hcodec Hg Hmin Hlim fuel.
  pose proof (world_wf state requester tenant may_see _ _ Hw 0) as Hwf. simpl in Hwf.
  induction fuel as [|fuel IH]; intros since p base Hstart Hb [all Hall] Hfuel.
  { pose proof (start_position_bounds state requester tenant may_see _ _ Hw _ _ Hstart) as Hp.
    simpl in Hp. lia. }
  pose proof (start_position_bounds state requester tenant may_see _ _ Hw _ _ Hstart) as Hp.
  pose proof (mark_le_top a Hwf) as Hm. simpl in Hp.
  destruct (evaluate_changes_spec state requester tenant may_see _ _ Hw
              (mkRequest since max_len filters) p base) as
    [(resp & n & p' & j & He & Hc & _ & Hp' & Hent & Hmore)|(_ & Hlt & _)]; try done.
  { right. lia. }
  2:{ lia. }
  unfold walked. cbn [walk]. rewrite He. unfold answered.
  assert (∃ rest, entries (due may_see base a p' (top a)) rest) as [rest Hrest].
  { unfold due in Hall. rewrite -(between_app a p p' (top a)) in Hall; [|done|lia].
    apply Forall2_app_inv_l in Hall as (x & y & _ & Hy & _). by exists y. }
  assert (Hjoin : ∀ more, entries (due may_see base a p' (top a)) more →
            entries (due may_see base a p (top a)) (resp_changes resp ++ more)).
  { intros more Hmore'. unfold due. rewrite -(between_app a p p' (top a)); [|done|lia].
    by apply Forall2_app. }
  destruct (response_validate resp) as [u|e] eqn:Hv; cbn [and_then fst].
  2:{ exists (resp_changes resp ++ rest). split; [|by apply Hjoin]. right.
      destruct resp as [page cursor more]. by exists [], page, rest, cursor, more, e. }
  destruct (has_more resp).
  - rewrite Hc Hcodec; [|apply issued_cursor_values; [done|done|lia]].
    destruct (IH (Cursor (mkDecoded p' (anchor_at (top a) (head_fp (a_head a))))) p'
                (query_after p' base)) as (cs & Hcs & Hent').
    { unfold start_position. destruct (a_head_pruned a) as [-> _].
      rewrite (a_head_top a Hwf). cbn [cursor_pos cursor_anchor].
      rewrite (proj2 (Z.ltb_ge _ _)); [|lia]. rewrite (proj2 (Z.ltb_ge _ _)); [|lia].
      simpl orb. cbv iota. rewrite (anchor_holds_issued store a a a); try done; [|lia].
      exact (rw_rep _ _ _ _ _ _ Hw 0). }
    { by apply base_query_after with since p. }
    { by exists rest. }
    { lia. }
    exists (resp_changes resp ++ cs). split; [|by apply Hjoin].
    destruct Hcs as [->|(before & page & after & cursor & more & e & -> & Hbad & ->)]; cbn [and_then]; [by left|].
    right. exists (resp_changes resp ++ before), page, after, cursor, more, e. by rewrite -app_assoc.
  - exists (resp_changes resp). split; [by left|]. by rewrite -Hmore.
Qed.
End walking.

(** ** Page bounds *)

Section bounds.
Context {S Env Key : Type} `{Hsdk : ChangeSdk} `{!ChangeFeed S Env}.
Context `{!ChangesStore S} `{!ChangesWire} `{!CursorCodec Key}.

(** The serialized length of entries, commas included. *)
Fixpoint entries_len (cs : list Change) : Z :=
  match cs with
  | [] => 0%Z
  | c :: cs =>
      (match json_len_change c with Ok n => n | Err _ => 0%Z end) +
      (if is_empty cs then 0%Z else 1%Z) + entries_len cs
  end%Z.

Lemma entries_len_snoc cs c n :
  json_len_change c = Ok n →
  entries_len (cs ++ [c]) = (entries_len cs + n + (if is_empty cs then 0 else 1))%Z.
Proof.
  intros Hn. induction cs as [|x cs IH]; simpl; [rewrite Hn; lia|].
  rewrite IH. destruct cs; simpl; lia.
Qed.

(** The running size is the served size; a page of two or more entries is
    within the bound. *)
Record size_inv (env_len target max_bytes : Z) (st : Scan) : Prop := {
  sz_body : body_len st = (env_len + entries_len (served st))%Z;
  sz_count : (Z.of_nat (length (served st)) ≤ target)%Z;
  sz_bytes : (2 ≤ length (served st))%nat → (body_len st ≤ max_bytes)%Z
}.

Lemma serve_rows_size env_len target max_bytes X rs st broke st' :
  size_inv env_len target max_bytes st →
  serve_rows target max_bytes X rs st = Ok (broke, st') →
  size_inv env_len target max_bytes st'.
Proof.
  revert st. induction rs as [|r rs IH]; intros st Hinv Hs; simpl in Hs; [by simplify_eq|].
  destruct (_ =? target)%Z eqn:Ht; bool_to_prop; [by simplify_eq|].
  destruct (match visibility_subject r with Some _ => _ | None => _ end).
  - destruct (to_change r) as [c|]; simpl in Hs; [|done].
    destruct (json_len_change c) as [n|] eqn:Hn; simpl in Hs; [|done].
    destruct (negb _ && _) eqn:Hcap in Hs.
    { simplify_eq. by destruct Hinv. }
    eapply IH; [|exact Hs]. destruct Hinv as [Hb Hc Hm]. split; simpl.
    + rewrite (entries_len_snoc _ _ n Hn) Hb. lia.
    + rewrite length_app /=. lia.
    + rewrite length_app /=. intros Hlen. destruct (served st) as [|y l]; simpl in *; [lia|].
      bool_to_prop. lia.
  - eapply IH; [|exact Hs]. by destruct Hinv; split.
Qed.

Lemma scan_loop_size (state : AppState Key) (store_at : nat → S) requester tenant base target
    check env_len fuel k st st' :
  size_inv env_len target (changes_max_page_bytes state) st →
  scan_loop state store_at requester tenant base target check fuel k st = Ok st' →
  size_inv env_len target (changes_max_page_bytes state) st'.
Proof.
  revert k st. induction fuel as [|fuel IH]; intros k st Hinv Hs; cbn [scan_loop] in Hs.
  { by simplify_eq. }
  destruct (changes_page _ _) as [page|]; cbn [acdp map_err and_then] in Hs; [|done].
  destruct (if (scan_head st <=? page_head page)%Z then _ else _) as [h fp].
  destruct (check && _); [done|].
  destruct (if is_empty (page_subjects (rows page)) then _ else _) as [X|];
    cbn [and_then] in Hs; [|done].
  destruct (serve_rows _ _ _ _ _) as [[broke st1]|] eqn:Hr; cbn [and_then] in Hs; [|done].
  apply (serve_rows_size env_len) in Hr; [|by destruct Hinv; split].
  destruct broke; [by simplify_eq|].
  destruct (reached_head page || _); [simplify_eq; by destruct Hr; split|].
  eapply IH; [|exact Hs]. by destruct Hr; split.
Qed.

(** A page never holds more entries than the request's limit, and never
    serializes to more than the byte bound unless it is a single entry; the
    size the handler counts is the size it sends. *)
Theorem changes_page_within_bounds (state : AppState Key) (store_at : nat → S)
    (requester tenant : option string) (req : ChangesRequest) (resp : ChangesResponse)
    (n env_len : Z) :
  (0 ≤ req_limit req)%Z →
  (∀ start, changes_head (store_at 0) = Ok start →
     json_len_envelope (head_cursor (st_key state) start) = Ok env_len) →
  evaluate_changes state store_at requester tenant req = Ok (resp, n) →
  (Z.of_nat (length (resp_changes resp)) ≤ req_limit req)%Z ∧
  ((2 ≤ length (resp_changes resp))%nat →
   env_len + entries_len (resp_changes resp) ≤ changes_max_page_bytes state)%Z.
Proof.
  intros Hlim Henv He. unfold evaluate_changes in He.
  destruct (changes_head (store_at 0)) as [start|]; cbn [acdp map_err and_then] in He; [|done].
  specialize (Henv start eq_refl).
  destruct (start_position _ _ _) as [[p|]|]; cbn [and_then] in He;
    [|simplify_eq; simpl; split; [lia|intros; lia]|done].
  destruct (base_query _ _ _ _ _ _) as [base|]; cbn [and_then] in He; [|done].
  rewrite Henv in He. cbn [and_then] in He.
  destruct (scan_loop _ _ _ _ _ _ _ _ _ _) as [st|] eqn:Hl; cbn [and_then] in He; [|done].
  destruct (response_validate _); cbn [map_err and_then] in He; [|done]. simplify_eq. simpl.
  apply (scan_loop_size _ _ _ _ _ _ _ env_len) in Hl; [|split; simpl; [lia|lia|intros; lia]].
  destruct Hl as [Hb Hc Hm]. split; [done|]. intros H2. rewrite -Hb. by apply Hm.
Qed.
End bounds.

(** ** Properties of the endpoint *)

Section endpoint.
Context {S Env Key : Type} `{Hsdk : ChangeSdk} `{!ChangeFeed S Env} `{!FeedContract S Env}.
Context `{!ChangesStore S} `{!ChangesWire} `{!CursorCodec Key}.


(** C40: a consumer that follows the cursors reads the whole feed: on a feed at
    rest, starting from the oldest entry and asking again while [has_more],
    it stops after at most one page per position and has received the entry
    of every retained, matching, visible row exactly once, in feed order; unless the SDK
    refuses one of the pages of those entries, at whose 500 the walk ends. *)
Theorem walk_reads_whole_feed (state : AppState Key) (requester tenant : option string)
    (may_see : string → bool) (max_len : Z) (filters : WatchFilter)
    (store : S) (a : AFeed) (base : FeedQuery) (fuel : nat) :
  request_world state requester tenant may_see (λ _, store) (λ _, a) →
  digest_wf → codec_roundtrip state → bucket_grammar validate_buckets →
  (0 ≤ changes_min_scan_rows state ≤ u32_max)%Z → (0 < max_len)%Z →
  base_query state (λ _, store) requester tenant (mkRequest Oldest max_len filters) (mark a) =
    Ok base →
  (top a - mark a < Z.of_nat fuel)%Z →
  ∃ cs,
    entries (filter (λ r, matches base r = true ∧ row_visible may_see r = true) (live a)) cs ∧
    (walk state requester tenant max_len filters store fuel Oldest = Ok cs ∨
     ∃ before page after cursor more e,
       cs = before ++ page ++ after ∧
       response_validate (mkResponse _ page cursor more) = Err e ∧
       walk state requester tenant max_len filters store fuel Oldest =
         Err (RE_Internal ("changes response failed its own schema: " +:+ error_display e))).
Proof.
  intros Hw Hd Hc Hg Hmin Hlim Hb Hfuel.
  destruct (walk_spec state requester tenant may_see max_len filters store a Hw Hd Hc Hg
              Hmin Hlim fuel Oldest (mark a) base) as (cs & Hcs & Hent); [|done| |done|].
  { simpl. by destruct (a_head_pruned a) as [-> _]. }
  { eapply entries_exist. intros r Hr. apply list_elem_of_filter in Hr as [_ Hr].
    exact (rw_servable _ _ _ _ _ _ Hw 0 r Hr). }
  exists cs. split; [|exact Hcs]. revert Hent. unfold due, between, live.
  rewrite list_filter_filter.
  rewrite (filter_iff_in _ (λ r, (matches base r = true ∧ row_visible may_see r = true) ∧
                                 (mark a < seq r)%Z) (log a)); [done|].
  intros r Hr. pose proof (world_wf state requester tenant may_see _ _ Hw 0) as Hwf.
  pose proof (top_elem a r Hwf Hr). rewrite andb_true_iff. intuition lia.
Qed.

(** A cursor outlives everything but retention. A cursor issued at the feed
    [a0] for a position of it is accepted, at that position, on every later
    feed that has not pruned past the position, whatever was appended or
    pruned in between; once retention passed the position, it is answered
    with [cursor_expired]. *)
Theorem cursor_valid_until_pruned (store_at : nat → S) (a0 : AFeed) (a_at : nat → AFeed) (p : Z) :
  afeed_wf a0 → (∀ i, feed_rep (store_at i) (a_at i)) →
  evolves a0 (a_at 0) → evolves (a_at 0) (a_at 1) → (0 ≤ p ≤ top a0)%Z →
  let cursor := mkDecoded p (anchor_at (top a0) (head_fp (a_head a0))) in
  ((mark (a_at 1%nat) ≤ p)%Z →
   start_position store_at (a_head (a_at 0)) (Cursor cursor) = Ok (Some p)) ∧
  ((p < mark (a_at 0%nat))%Z →
   start_position store_at (a_head (a_at 0)) (Cursor cursor) = Err (RE_Acdp CursorExpired)).
Proof.
  intros Hwf0 Hrep He0 He1 Hp cursor. pose proof (rep_wf _ _ (Hrep 0)) as Hwf.
  pose proof (evolves_top _ _ Hwf0 Hwf He0). pose proof (evolves_mark _ _ He1).
  unfold start_position. destruct (a_head_pruned (a_at 0)) as [-> _].
  rewrite (a_head_top _ Hwf). unfold cursor. cbn [cursor_pos cursor_anchor].
  rewrite (proj2 (Z.ltb_ge (top (a_at 0)) p)); [|lia]. split; intros Hm.
  - rewrite (proj2 (Z.ltb_ge _ _)); [|lia]. simpl orb. cbv iota.
    by rewrite (anchor_holds_issued (store_at 1) a0 (a_at 0) (a_at 1)); [..|lia].
  - by rewrite (proj2 (Z.ltb_lt _ _) Hm).
Qed.

(** A reset of the sequence expires cursors. A cursor whose anchor is not
    at the origin is refused with [cursor_expired] by every feed that does
    not hold, at the anchor's position, a row with the anchor's fingerprint,
    even when the feed has since grown past the cursor's position. *)
Theorem reset_cursor_is_refused (store_at : nat → S) (a_at : nat → AFeed) (c : DecodedCursor) :
  (∀ i, feed_rep (store_at i) (a_at i)) → evolves (a_at 0) (a_at 1) →
  (0 < anchor_seq (cursor_anchor c) ≤ u64_max)%Z →
  (∀ r, r ∈ log (a_at 1) → seq r = anchor_seq (cursor_anchor c) →
     fingerprint r ≠ anchor_fp (cursor_anchor c)) →
  start_position store_at (a_head (a_at 0)) (Cursor c) = Err (RE_Acdp CursorExpired).
Proof.
  intros Hrep He Hs Hno. pose proof (rep_wf _ _ (Hrep 0)) as Hwf0.
  pose proof (rep_wf _ _ (Hrep 1)) as Hwf1. unfold start_position.
  destruct (_ || _); [done|]. set (an := cursor_anchor c) in *.
  assert (Hf : anchor_holds (store_at 1) (a_head (a_at 0)) an = Ok false); [|by rewrite Hf].
  unfold anchor_holds. rewrite (a_head_top _ Hwf0).
  destruct (top (a_at 0%nat) <? anchor_seq an)%Z eqn:E1; bool_to_prop; [done|].
  rewrite (proj2 (Z.eqb_neq _ _)); [|lia].
  destruct (anchor_seq an =? top (a_at 0%nat))%Z eqn:E2; bool_to_prop; cbn [and_then].
  - rewrite bool_decide_false; [done|]. intros Hfp.
    destruct (a_head_fp _ _ Hwf0 Hfp) as [[? _]|(r & Hl & Hsr & Hr)]; [lia|].
    apply (Hno r); [|lia|done]. eapply evolves_elem; [done|]. by apply last_Some_elem_of.
  - rewrite (rep_page _ _ _ (Hrep 1)); [|apply row_query_wf; lia]. cbn [and_then].
    destruct (a_page_rows (a_at 1) (row_query (anchor_seq an - 1)) Hwf1) as
      (Hrows & _ & _ & Hp & Hpf & _); [simpl; lia|].
    rewrite Hp Hpf bool_decide_false; [done|]. intros Hfp.
    destruct (anchor_seq an =? mark (a_at 1%nat))%Z eqn:E3; bool_to_prop.
    { destruct (wf_mark_fp _ Hwf1 _ Hfp) as (r & Hr & Hsr & Hrf). apply (Hno r); [done|lia|done]. }
    destruct (anchor_seq an <? mark (a_at 1%nat))%Z; [done|].
    destruct (rows (a_page _ _)) as [|r l] eqn:Hr; [done|].
    destruct (seq r =? anchor_seq an)%Z eqn:E5; bool_to_prop; [|done]. simplify_eq.
    apply (Hno r); [|done|done].
    assert (r ∈ r :: l) as Hin by set_solver. rewrite Hrows in Hin.
    by apply list_elem_of_filter in Hin as [_ ?].
Qed.
End endpoint.
