(* ===== verification/ChangesKey.v ===== *)
(** * Cursors and sealed secrets

    [acdp-registry-core/src/changes_key.rs] and the constant-time comparison
    of [secure_compare.rs]: the byte layout of a [/changes] cursor, its decoding
    with the three ways it can fail, and the seal of subscription secrets.
    AES-256-GCM, HMAC-SHA-256, HKDF and base64 ([ring], [base64]) are the class
    [ChangesCrypto]; [CryptoLaws] is what their documentation promises. *)

From S2P Require Import Prelude Errors ContextTypes ChangeBucket ChangeFeed FeedBackends Changes.

Open Scope registry_scope.

(** ** [secure_compare] *)

(** [ct_fold]: the XOR fold over pairs of bytes. *)
Definition ct_fold (pairs : list (Z * Z)) : Z :=
  fold_left (λ diff p, Z.lor diff (Z.lxor p.1 p.2)) pairs 0%Z.

Definition ct_eq (a b : list Z) : bool :=
  if negb (length a =? length b)%nat then false else (ct_fold (zip a b) =? 0)%Z.

Lemma ct_fold_zero pairs acc :
  fold_left (λ diff p, Z.lor diff (Z.lxor p.1 p.2)) pairs acc = 0%Z ↔
  acc = 0%Z ∧ Forall (λ p, p.1 = p.2) pairs.
Proof.
  revert acc. induction pairs as [|[x y] l IH]; intros acc; simpl.
  { split; [by intros ->|by intros [-> _]]. }
  rewrite IH Z.lor_eq_0_iff Z.lxor_eq_0_iff Forall_cons /=. tauto.
Qed.

Lemma ct_eq_spec a b : ct_eq a b = bool_decide (a = b).
Proof.
  unfold ct_eq, ct_fold. destruct (length a =? length b)%nat eqn:Hl; simpl.
  - apply Nat.eqb_eq in Hl. apply Bool.eq_true_iff_eq.
    rewrite Z.eqb_eq bool_decide_eq_true ct_fold_zero.
    split; [intros [_ Hf]|intros ->; split; [done|]].
    + revert b Hl Hf. induction a as [|x a IH]; intros [|y b] Hl Hf; simplify_eq/=; [done|].
      apply Forall_cons in Hf as [Hxy Hf]. simpl in Hxy. by rewrite Hxy (IH b).
    + clear. induction b; simpl; constructor; done.
  - apply Nat.eqb_neq in Hl. rewrite bool_decide_false; [done|]. by intros ->.
Qed.

(** ** Key material *)

Definition CHANGES_KEY_LEN : nat := 32.
Definition NONCE_LEN : nat := 12.
Definition CURSOR_VERSION : Z := 2.
Definition TAG_LEN : nat := 16.
Definition SEQ_LEN : nat := 8.
Definition FP_LEN : nat := 8.
Definition EPOCH_LEN : nat := 4.
Definition KID_LEN : nat := 4.
Definition HEADER_LEN : nat := 2 + KID_LEN.
Definition PLAIN_LEN : nat := SEQ_LEN + SEQ_LEN + FP_LEN + EPOCH_LEN.
Definition CURSOR_LEN : nat := HEADER_LEN + NONCE_LEN + PLAIN_LEN + TAG_LEN.
Definition CURSOR_AAD : list Z := as_bytes "acdp-registry/changes-cursor/v2".
Definition V1_VERSION : Z := 1.
Definition V1_HEADER_LEN : nat := 2.
Definition V1_CURSOR_LEN : nat := V1_HEADER_LEN + NONCE_LEN + SEQ_LEN + TAG_LEN.
Definition V1_CURSOR_AAD : list Z := as_bytes "acdp-registry/changes-cursor/v1".
Definition SECRET_AAD : list Z := as_bytes "acdp-registry/subscription-secret/v1|".
Definition HKDF_SALT : list Z := as_bytes "acdp-registry/changes/v1".
Definition INFO_CURSOR_AEAD : list Z := as_bytes "acdp-registry/changes/cursor-aead/v1".
Definition INFO_CURSOR_NONCE : list Z := as_bytes "acdp-registry/changes/cursor-nonce/v1".
Definition INFO_SECRET : list Z := as_bytes "acdp-registry/changes/subscription-secret/v1".
Definition INFO_CURSOR_KID : list Z := as_bytes "acdp-registry/changes/cursor-kid/v1".

Class ChangesCrypto : Type := {
  AeadKey : Type;
  HmacKey : Type;
  Prk : Type;
  hkdf_extract : list Z → list Z → Prk;
  hkdf_expand : Prk → list Z → list Z;
  aead_key : list Z → AeadKey;
  hmac_key : list Z → HmacKey;
  (** Ciphertext followed by the tag. *)
  aead_seal : AeadKey → list Z → list Z → list Z → list Z;
  aead_open : AeadKey → list Z → list Z → list Z → option (list Z);
  hmac_sign : HmacKey → list Z → list Z;
  b64url_encode : list Z → string;
  b64url_decode : string → option (list Z);
  from_utf8 : list Z → option string
}.

Class CryptoLaws `{ChangesCrypto} : Prop := {
  expand_bytes prk info :
    length (hkdf_expand prk info) = 32 ∧ Forall is_byte (hkdf_expand prk info);
  open_seal k n aad p : Forall is_byte p → aead_open k n aad (aead_seal k n aad p) = Some p;
  (** A ciphertext opens only if it is the seal of what it opens to. *)
  open_only_seal k n aad c p :
    aead_open k n aad c = Some p → c = aead_seal k n aad p ∧ Forall is_byte p;
  seal_bytes k n aad p :
    Forall is_byte p →
    length (aead_seal k n aad p) = length p + TAG_LEN ∧ Forall is_byte (aead_seal k n aad p);
  hmac_bytes k m : length (hmac_sign k m) = 32 ∧ Forall is_byte (hmac_sign k m);
  b64_roundtrip l : Forall is_byte l → b64url_decode (b64url_encode l) = Some l
}.

Inductive ChangesKeyError : Type := CK_Length (n : nat) | CK_AllZero.

Inductive SealError : Type := SE_UnknownKey | SE_Corrupt | SE_Rng.

Section keys.
Context `{ChangesCrypto}.

Record ChangesKey : Type := mkChangesKey {
  key_id : Z;
  kid : list Z;
  epoch : Z;
  cursor_key : AeadKey;
  nonce_key : HmacKey;
  secret_key : AeadKey
}.

Definition from_master (master : list Z) (id : Z) : result ChangesKey ChangesKeyError :=
  if negb (length master =? CHANGES_KEY_LEN)%nat then Err (CK_Length (length master))
  else if forallb (λ b, (b =? 0)%Z) master then Err CK_AllZero
  else
    let prk := hkdf_extract HKDF_SALT master in
    Ok (mkChangesKey id (take KID_LEN (hkdf_expand prk INFO_CURSOR_KID)) 0
          (aead_key (hkdf_expand prk INFO_CURSOR_AEAD))
          (hmac_key (hkdf_expand prk INFO_CURSOR_NONCE))
          (aead_key (hkdf_expand prk INFO_SECRET))).

Definition with_epoch (k : ChangesKey) (e : Z) : ChangesKey :=
  mkChangesKey (key_id k) (kid k) e (cursor_key k) (nonce_key k) (secret_key k).

Definition header (k : ChangesKey) : list Z := [CURSOR_VERSION; key_id k] ++ kid k.

Definition cursor_nonce (k : ChangesKey) (version : Z) (plain : list Z) : list Z :=
  take NONCE_LEN
    (hmac_sign (nonce_key k) ((if (version =? V1_VERSION)%Z then [] else [version]) ++ plain)).

Definition cursor_aad (label hdr : list Z) : list Z := label ++ hdr.

(** The plaintext of a cursor. *)
Definition cursor_plain (k : ChangesKey) (p : Z) (anchor : CursorAnchor) : list Z :=
  to_be_bytes SEQ_LEN p ++ to_be_bytes SEQ_LEN (anchor_seq anchor) ++ anchor_fp anchor ++
  to_be_bytes EPOCH_LEN (epoch k).

(** The bytes [encode_cursor] encodes. *)
Definition cursor_raw (k : ChangesKey) (p : Z) (anchor : CursorAnchor) : list Z :=
  let body := cursor_plain k p anchor in
  let nonce := cursor_nonce k CURSOR_VERSION body in
  header k ++ nonce ++ aead_seal (cursor_key k) nonce (cursor_aad CURSOR_AAD (header k)) body.

(** [encode_cursor]. *)
Definition key_encode_cursor (k : ChangesKey) (p : Z) (anchor : CursorAnchor) : string :=
  b64url_encode (cursor_raw k p anchor).

(** What the opened plaintext of a version 2 cursor says. *)
Definition read_plain (k : ChangesKey) (plain : list Z) : result DecodedCursor CursorError :=
  let word i := from_be_bytes (take SEQ_LEN (drop i plain)) in
  let fp := take FP_LEN (drop (2 * SEQ_LEN) plain) in
  if negb (from_be_bytes (drop (2 * SEQ_LEN + FP_LEN) plain) =? epoch k)%Z then Err CE_Stale
  else Ok (mkDecoded (word 0) (mkAnchor (word SEQ_LEN) fp)).

(** [decode_cursor]. *)
Definition key_decode_cursor (k : ChangesKey) (cursor : string) :
    result DecodedCursor CursorError :=
  let? raw := ok_or (b64url_decode cursor) CE_Invalid in
  let? shape :=
    match raw with
    | v :: _ =>
        if (v =? CURSOR_VERSION)%Z && (length raw =? CURSOR_LEN)%nat then
          Ok (CURSOR_AAD, PLAIN_LEN, HEADER_LEN)
        else if (v =? V1_VERSION)%Z && (length raw =? V1_CURSOR_LEN)%nat then
          Ok (V1_CURSOR_AAD, SEQ_LEN, V1_HEADER_LEN)
        else Err CE_Invalid
    | [] => Err CE_Invalid
    end in
  let '(aad_label, plain_len, header_len) := (shape : list Z * nat * nat) in
  if negb (nth 1 raw 0 =? key_id k)%Z
     || ((header_len =? HEADER_LEN)%nat &&
         negb (bool_decide (take (HEADER_LEN - 2) (drop 2 raw) = kid k))) then
    Err CE_UnknownKey
  else
    let hdr := take header_len raw in
    let rest := drop header_len raw in
    let nonce := take NONCE_LEN rest in
    let sealed := drop NONCE_LEN rest in
    let? plain := ok_or (aead_open (cursor_key k) nonce (cursor_aad aad_label hdr) sealed)
                    CE_Invalid in
    if negb (length plain =? plain_len)%nat
       || negb (ct_eq (cursor_nonce k (nth 0 hdr 0%Z) plain) nonce) then Err CE_Invalid
    else if (nth 0 hdr 0 =? V1_VERSION)%Z then Err CE_Stale
    else read_plain k plain.

#[export] Instance changes_key_codec : CursorCodec ChangesKey := {
  encode_cursor := key_encode_cursor;
  decode_cursor := key_decode_cursor
}.

Definition secret_aad (subscription_id : string) : list Z :=
  SECRET_AAD ++ as_bytes subscription_id.

(** [seal_secret], with the nonce the RNG gave, if it did. *)
Definition seal_secret (k : ChangesKey) (rng : option (list Z)) (subscription_id secret : string) :
    result (list Z) SealError :=
  let? nonce := ok_or rng SE_Rng in
  Ok (nonce ++ aead_seal (secret_key k) nonce (secret_aad subscription_id) (as_bytes secret)).

Definition open_secret (k : ChangesKey) (subscription_id : string) (id : Z) (sealed : list Z) :
    result string SealError :=
  if negb (id =? key_id k)%Z then Err SE_UnknownKey
  else if (length sealed <? NONCE_LEN + TAG_LEN)%nat then Err SE_Corrupt
  else
    let nonce := take NONCE_LEN sealed in
    let ct := drop NONCE_LEN sealed in
    let? plain := ok_or (aead_open (secret_key k) nonce (secret_aad subscription_id) ct)
                    SE_Corrupt in
    ok_or (from_utf8 plain) SE_Corrupt.
End keys.

(** ** Properties *)

Section key_lemmas.
Context `{CryptoLaws}.
Implicit Types (k : ChangesKey) (anchor : CursorAnchor).

(** Machine integers and byte arrays of their width. *)
Record key_wf k : Prop := {
  kw_id : is_byte (key_id k);
  kw_kid : length (kid k) = KID_LEN ∧ Forall is_byte (kid k);
  kw_epoch : (0 ≤ epoch k ≤ u32_max)%Z
}.

Lemma from_master_wf master id k :
  is_byte id → from_master master id = Ok k → key_wf k.
Proof.
  intros Hid Hm. unfold from_master in Hm. destruct (negb _); [done|].
  destruct (forallb _ _); [done|]. simplify_eq.
  destruct (expand_bytes (hkdf_extract HKDF_SALT master) INFO_CURSOR_KID) as [Hl Hb].
  split; simpl; [done| |unfold u32_max; lia].
  split; [by rewrite length_take Hl|by apply Forall_take].
Qed.

Lemma header_shape k :
  key_wf k → length (header k) = HEADER_LEN ∧ Forall is_byte (header k).
Proof.
  intros [Hid [Hl Hb] _]. unfold header. rewrite length_app Hl. split; [done|].
  repeat constructor; [done..|by apply Hid|by apply Hid|done].
Qed.

Lemma nonce_shape k v plain :
  length (cursor_nonce k v plain) = NONCE_LEN ∧ Forall is_byte (cursor_nonce k v plain).
Proof.
  unfold cursor_nonce. match goal with |- context [hmac_sign ?a ?b] => destruct (hmac_bytes a b) as [Hl Hb] end.
  split; [by rewrite length_take Hl|by apply Forall_take].
Qed.

Lemma plain_shape k p anchor :
  cursor_values p anchor →
  length (cursor_plain k p anchor) = PLAIN_LEN ∧ Forall is_byte (cursor_plain k p anchor).
Proof.
  intros (_ & _ & Hl & Hb). unfold cursor_plain.
  rewrite length_app length_to_be_bytes length_app length_to_be_bytes length_app Hl
    length_to_be_bytes. split; [done|].
  apply Forall_app. split; [apply to_be_bytes_is_byte|].
  apply Forall_app. split; [apply to_be_bytes_is_byte|].
  apply Forall_app. split; [done|apply to_be_bytes_is_byte].
Qed.

Lemma read_plain_cursor_plain k k' p anchor :
  (0 ≤ epoch k ≤ u32_max)%Z → cursor_values p anchor →
  read_plain k' (cursor_plain k p anchor) =
    if (epoch k =? epoch k')%Z then Ok (mkDecoded p anchor) else Err CE_Stale.
Proof.
  intros He (Hp & Hs & Hl & _). unfold read_plain, cursor_plain.
  set (P := to_be_bytes SEQ_LEN p). set (A := to_be_bytes SEQ_LEN (anchor_seq anchor)).
  set (E := to_be_bytes EPOCH_LEN (epoch k)).
  assert (HP : length P = SEQ_LEN) by apply length_to_be_bytes.
  assert (HA : length A = SEQ_LEN) by apply length_to_be_bytes.
  assert (Hd1 : drop SEQ_LEN (P ++ A ++ anchor_fp anchor ++ E) = A ++ anchor_fp anchor ++ E)
    by (by rewrite -HP drop_app_length).
  assert (Hd2 : drop (2 * SEQ_LEN) (P ++ A ++ anchor_fp anchor ++ E) = anchor_fp anchor ++ E).
  { change (2 * SEQ_LEN) with (SEQ_LEN + SEQ_LEN). rewrite -drop_drop Hd1.
    by rewrite -HA drop_app_length. }
  assert (Hd3 : drop (2 * SEQ_LEN + FP_LEN) (P ++ A ++ anchor_fp anchor ++ E) = E).
  { rewrite -drop_drop Hd2. change FP_LEN with 8. by rewrite -Hl drop_app_length. }
  rewrite Hd1 Hd2 Hd3 drop_0. unfold E. rewrite from_be_bytes_to_be_bytes;
    [|change (256 ^ Z.of_nat EPOCH_LEN)%Z with (u32_max + 1)%Z; lia].
  destruct (epoch k =? epoch k')%Z; simpl negb; cbv iota; [|done]. do 2 f_equal.
  - rewrite -{1}HP take_app_length. unfold P. apply from_be_bytes_to_be_bytes.
    change (256 ^ Z.of_nat SEQ_LEN)%Z with (u64_max + 1)%Z. lia.
  - destruct anchor as [sq fp]. cbn [anchor_seq anchor_fp] in *. f_equal.
    + rewrite -{1}HA take_app_length. unfold A. apply from_be_bytes_to_be_bytes.
      change (256 ^ Z.of_nat SEQ_LEN)%Z with (u64_max + 1)%Z. lia.
    + change FP_LEN with 8. by rewrite -Hl take_app_length.
Qed.

(** What decoding a version 2 cursor with the decoder's own header gives. *)
Lemma decode_raw k k' p anchor :
  key_wf k → cursor_values p anchor →
  key_id k' = key_id k → kid k' = kid k → cursor_key k' = cursor_key k →
  nonce_key k' = nonce_key k →
  key_decode_cursor k' (key_encode_cursor k p anchor) = read_plain k' (cursor_plain k p anchor).
Proof.
  intros Hk Hv Hid Hkid Hck Hnk. unfold key_decode_cursor, key_encode_cursor, cursor_raw.
  set (body := cursor_plain k p anchor). set (nonce := cursor_nonce k CURSOR_VERSION body).
  set (sealed := aead_seal _ _ _ _).
  destruct (header_shape k Hk) as [Hhl Hhb]. destruct (nonce_shape k CURSOR_VERSION body) as [Hnl Hnb].
  fold nonce in Hnl, Hnb. destruct (plain_shape k p anchor Hv) as [Hpl Hpb]. fold body in Hpl, Hpb.
  destruct (seal_bytes (cursor_key k) nonce (cursor_aad CURSOR_AAD (header k)) body Hpb) as [Hsl Hsb].
  fold sealed in Hsl, Hsb.
  rewrite b64_roundtrip; [|by apply Forall_app; split; [|apply Forall_app]]. cbn [ok_or and_then].
  assert (Hlen : length (header k ++ nonce ++ sealed) = CURSOR_LEN).
  { by rewrite length_app Hhl length_app Hnl Hsl Hpl. }
  assert (Hcons : header k ++ nonce ++ sealed =
                  CURSOR_VERSION :: (key_id k :: kid k) ++ nonce ++ sealed) by done.
  assert (Hkl : length (kid k) = HEADER_LEN - 2) by apply (kw_kid k Hk).
  rewrite {1}Hcons. rewrite Hlen Z.eqb_refl Nat.eqb_refl. cbn [andb and_then].
  rewrite Nat.eqb_refl. change (nth 1 (header k ++ nonce ++ sealed) 0%Z) with (key_id k).
  change (drop 2 (header k ++ nonce ++ sealed)) with (kid k ++ nonce ++ sealed).
  rewrite -Hkl take_app_length Hid Z.eqb_refl Hkid bool_decide_true; [|done]. cbn [negb orb andb].
  rewrite -Hhl take_app_length drop_app_length -Hnl take_app_length drop_app_length.
  change (nth 0 (header k) 0%Z) with CURSOR_VERSION.
  rewrite Hck open_seal; [|done]. cbn [ok_or and_then]. rewrite Hpl Nat.eqb_refl.
  unfold cursor_nonce. rewrite Hnk. fold (cursor_nonce k CURSOR_VERSION body) nonce.
  rewrite ct_eq_spec bool_decide_true; [|done]. done.
Qed.

(** A plaintext of the right length is the plaintext of what it says. *)
Lemma cursor_plain_read k plain d :
  length plain = PLAIN_LEN → Forall is_byte plain → read_plain k plain = Ok d →
  plain = cursor_plain k (cursor_pos d) (cursor_anchor d).
Proof.
  intros Hl Hb Hr. unfold read_plain in Hr.
  destruct (negb _) eqn:He in Hr; [done|]. bool_to_prop. simplify_eq.
  unfold cursor_plain. cbn [cursor_pos cursor_anchor anchor_seq anchor_fp]. rewrite -He drop_0.
  assert (Hword : ∀ n l, Forall is_byte l → (n ≤ length l)%nat →
            to_be_bytes n (from_be_bytes (take n l)) = take n l).
  { intros n l Hbl Hnl. rewrite -{1}(length_take_le l n Hnl).
    apply to_be_bytes_from_be_bytes. by apply Forall_take. }
  rewrite Hword; [|done|rewrite Hl; unfold PLAIN_LEN, SEQ_LEN; lia].
  rewrite Hword; [|by apply Forall_drop|rewrite length_drop Hl; unfold PLAIN_LEN, SEQ_LEN; lia].
  assert (Hlast : length (drop (2 * SEQ_LEN + FP_LEN) plain) = EPOCH_LEN).
  { rewrite length_drop Hl. done. }
  rewrite -{1}Hlast to_be_bytes_from_be_bytes; [|by apply Forall_drop].
  change (drop 16 plain) with (drop (SEQ_LEN + SEQ_LEN) plain).
  change (2 * SEQ_LEN + FP_LEN) with (SEQ_LEN + SEQ_LEN + FP_LEN).
  rewrite -(drop_drop _ FP_LEN (SEQ_LEN + SEQ_LEN)) take_drop -drop_drop !take_drop. done.
Qed.

Lemma key_codec_roundtrip k p anchor :
  key_wf k → cursor_values p anchor →
  key_decode_cursor k (key_encode_cursor k p anchor) = Ok (mkDecoded p anchor).
Proof.
  intros Hk Hv. rewrite (decode_raw k k); try done.
  rewrite read_plain_cursor_plain; [by rewrite Z.eqb_refl|by apply kw_epoch|done].
Qed.

(** Cursors round trip: a cursor decodes, under the key and epoch that
    issued it, to the position and anchor it was issued for. *)
Theorem cursor_roundtrip k p anchor :
  key_wf k → cursor_values p anchor →
  key_decode_cursor k (key_encode_cursor k p anchor) = Ok (mkDecoded p anchor).
Proof. intros Hk Hv. by apply key_codec_roundtrip. Qed.

(** A cursor that decodes was issued here: its bytes are, one for one, the
    bytes this key issues for the decoded position and anchor in this epoch.
    No version 1 cursor, other epoch, altered header, nonce, ciphertext or
    tag decodes. *)
Theorem decoded_cursor_was_issued k c d :
  key_wf k → key_decode_cursor k c = Ok d →
  b64url_decode c = Some (cursor_raw k (cursor_pos d) (cursor_anchor d)).
Proof.
  intros Hk Hd. unfold key_decode_cursor in Hd.
  destruct (b64url_decode c) as [raw|]; cbn [ok_or and_then] in Hd; [|done]. f_equal.
  destruct raw as [|v raw]; [done|].
  destruct ((v =? CURSOR_VERSION)%Z && _) eqn:Hshape; cbn [and_then] in Hd.
  2:{ destruct ((v =? V1_VERSION)%Z && _) eqn:H1; cbn [and_then] in Hd; [|done]. bool_to_prop.
      subst v. destruct (negb _ || _); [done|].
      destruct (aead_open _ _ _ _); cbn [ok_or and_then] in Hd; [|done].
      by destruct (negb _ || _). }
  apply andb_true_iff in Hshape as [Hv Hlen]. apply Z.eqb_eq in Hv. apply Nat.eqb_eq in Hlen. subst v.
  destruct (negb _ || _) eqn:Hkey in Hd; [done|].
  apply orb_false_iff in Hkey as [Hid Hkid]. apply negb_false_iff, Z.eqb_eq in Hid.
  rewrite Nat.eqb_refl andb_true_l in Hkid. apply negb_false_iff, bool_decide_eq_true in Hkid.
  destruct raw as [|i raw]; [done|]. simpl nth in Hid. subst i.
  change (drop 2 (CURSOR_VERSION :: key_id k :: raw)) with raw in Hkid.
  assert (Hh : take HEADER_LEN (CURSOR_VERSION :: key_id k :: raw) = header k).
  { unfold header. rewrite -Hkid. done. }
  rewrite Hh in Hd.
  set (rest := drop HEADER_LEN (CURSOR_VERSION :: key_id k :: raw)) in *.
  assert (Hraw : CURSOR_VERSION :: key_id k :: raw = header k ++ rest).
  { unfold rest. rewrite -Hh. symmetry. apply take_drop. }
  rewrite Hraw. destruct (aead_open _ _ _ _) as [plain|] eqn:Ho; cbn [ok_or and_then] in Hd; [|done].
  apply open_only_seal in Ho as [Hsealed Hb].
  destruct (negb _ || _) eqn:Hn in Hd; [done|]. apply orb_false_iff in Hn as [Hpl Hnonce].
  apply negb_false_iff, Nat.eqb_eq in Hpl.
  rewrite ct_eq_spec in Hnonce. apply negb_false_iff, bool_decide_eq_true in Hnonce.
  change (nth 0 (header k) 0%Z) with CURSOR_VERSION in *.
  simpl Z.eqb in Hd. cbv iota in Hd.
  apply cursor_plain_read in Hd; [|done|done]. unfold cursor_raw. rewrite -Hd Hnonce. f_equal.
  by rewrite -{1}(take_drop NONCE_LEN rest) Hsealed.
Qed.

(** Cursors of another epoch or key expire rather than fail as forged: a
    cursor presented after the epoch was raised is [Stale], one issued under
    another key id or another master key is [UnknownKey]; both are answered
    with [cursor_expired]. *)
Theorem foreign_cursor_expires k k' p anchor :
  key_wf k → cursor_values p anchor →
  (∀ e, e ≠ epoch k →
     key_decode_cursor (with_epoch k e) (key_encode_cursor k p anchor) = Err CE_Stale) ∧
  (key_id k' ≠ key_id k ∨ kid k' ≠ kid k →
     key_decode_cursor k' (key_encode_cursor k p anchor) = Err CE_UnknownKey).
Proof.
  intros Hk Hv. split.
  - intros e He. rewrite (decode_raw k (with_epoch k e)) //.
    rewrite read_plain_cursor_plain; [|by apply kw_epoch|done].
    by rewrite (proj2 (Z.eqb_neq _ _)); [|by simpl; apply not_eq_sym].
  - intros Hne. unfold key_decode_cursor, key_encode_cursor.
    destruct (header_shape k Hk) as [Hhl Hhb].
    destruct (plain_shape k p anchor Hv) as [Hpl Hpb].
    destruct (nonce_shape k CURSOR_VERSION (cursor_plain k p anchor)) as [Hnl Hnb].
    destruct (seal_bytes (cursor_key k) (cursor_nonce k CURSOR_VERSION (cursor_plain k p anchor))
                (cursor_aad CURSOR_AAD (header k)) _ Hpb) as [Hsl Hsb].
    assert (Hlen : length (cursor_raw k p anchor) = CURSOR_LEN).
    { unfold cursor_raw. by rewrite length_app Hhl length_app Hnl Hsl Hpl. }
    rewrite b64_roundtrip.
    2:{ unfold cursor_raw. by apply Forall_app; split; [|apply Forall_app]. }
    cbn [ok_or and_then].
    assert (Hkl : length (kid k) = HEADER_LEN - 2) by apply (kw_kid k Hk).
    unfold cursor_raw in *. unfold header at 1 in Hlen. unfold header at 1 3.
    cbn [app] in *. rewrite Hlen Z.eqb_refl Nat.eqb_refl. cbn [andb and_then].
    simpl nth. simpl drop. rewrite Nat.eqb_refl -Hkl take_app_length andb_true_l.
    destruct (key_id k =? key_id k')%Z eqn:Hid; simpl negb; [|done].
    apply Z.eqb_eq in Hid. destruct Hne as [?|Hne]; [congruence|].
    by rewrite bool_decide_false; [|congruence].
Qed.

(** A sealed subscription secret opens, for the subscription it was sealed
    for and under the key id stored beside it, to the secret; under any other
    key id it is refused as [UnknownKey]. *)
Theorem sealed_secret_opens k nonce subscription_id secret sealed :
  length nonce = NONCE_LEN → from_utf8 (as_bytes secret) = Some secret →
  seal_secret k (Some nonce) subscription_id secret = Ok sealed →
  open_secret k subscription_id (key_id k) sealed = Ok secret ∧
  ∀ id, id ≠ key_id k → open_secret k subscription_id id sealed = Err SE_UnknownKey.
Proof.
  intros Hn Hu Hs. unfold seal_secret in Hs. cbn [ok_or and_then] in Hs. simplify_eq.
  pose proof (as_bytes_is_byte secret) as Hb.
  destruct (seal_bytes (secret_key k) nonce (secret_aad subscription_id) _ Hb) as [Hl _].
  unfold open_secret. split.
  - rewrite Z.eqb_refl length_app Hl Hn. simpl negb. cbv iota.
    rewrite (proj2 (Nat.ltb_ge _ _)); [|unfold TAG_LEN; lia].
    rewrite -Hn take_app_length drop_app_length open_seal // /=. by rewrite Hu.
  - intros id Hid. by rewrite (proj2 (Z.eqb_neq _ _) Hid).
Qed.
End key_lemmas.

(** ** Concrete keys and requests *)

Module ChangesExample.

Import FeedExample.

#[local] Existing Instance toy_sdk.

(** A transparent stand-in: the tag is sixteen zeros, text is its bytes. *)
Definition toy_crypto : ChangesCrypto := {|
  AeadKey := unit;
  HmacKey := unit;
  Prk := unit;
  hkdf_extract := λ _ _, tt;
  hkdf_expand := λ _ _, replicate 32 1%Z;
  aead_key := λ _, tt;
  hmac_key := λ _, tt;
  aead_seal := λ _ _ _ p, p ++ replicate TAG_LEN 0%Z;
  aead_open := λ _ _ _ c,
    let m := length c - TAG_LEN in
    if bool_decide (drop m c = replicate TAG_LEN 0%Z ∧ Forall is_byte (take m c)) then
      Some (take m c)
    else None;
  hmac_sign := λ _ _, replicate 32 7%Z;
  b64url_encode := from_bytes;
  b64url_decode := λ s, Some (as_bytes s);
  from_utf8 := λ b, Some (from_bytes b)
|}.

#[local] Existing Instance toy_crypto.

#[local] Instance toy_laws : CryptoLaws.
Proof.
  split.
  - intros prk info. split; [done|]. apply Forall_replicate. split; lia.
  - intros [] n aad p Hp. cbn -[replicate length TAG_LEN drop take bool_decide Nat.sub]. rewrite length_app length_replicate Nat.add_sub.
    rewrite drop_app_length take_app_length. by rewrite bool_decide_true.
  - intros [] n aad c p Ho. cbn -[replicate length TAG_LEN drop take bool_decide Nat.sub] in Ho. case_bool_decide as Hd; [|done]. simplify_eq.
    destruct Hd as [Hd Hb]. split; [|done].
    cbn -[replicate TAG_LEN]. by rewrite -Hd take_drop.
  - intros [] n aad p Hp. cbn -[replicate length TAG_LEN drop take bool_decide Nat.sub]. rewrite length_app length_replicate. split; [done|].
    apply Forall_app. split; [done|]. apply Forall_replicate. split; lia.
  - intros [] m. split; [done|]. apply Forall_replicate. split; lia.
  - intros l Hl. simpl. by rewrite as_bytes_from_bytes.
Qed.

Definition toy_key : ChangesKey := mkChangesKey 3 [1; 1; 1; 1]%Z 5 tt tt tt.

Lemma toy_key_wf : key_wf toy_key.
Proof.
  split; simpl; [split; lia| |unfold u32_max; lia].
  split; [done|]. repeat constructor; lia.
Qed.

Definition toy_anchor : CursorAnchor := mkAnchor 9 (replicate 8 165%Z).

Lemma toy_values : cursor_values 7 toy_anchor.
Proof.
  unfold cursor_values, u64_max. simpl. split_and!; try lia.
  repeat constructor; lia.
Qed.

Lemma cursor_roundtrip_witness :
  key_decode_cursor toy_key (key_encode_cursor toy_key 7 toy_anchor) = Ok (mkDecoded 7 toy_anchor).
Proof. exact (cursor_roundtrip toy_key 7 toy_anchor toy_key_wf toy_values). Defined.

Lemma decoded_cursor_was_issued_witness :
  b64url_decode (key_encode_cursor toy_key 7 toy_anchor) = Some (cursor_raw toy_key 7 toy_anchor).
Proof.
  apply (decoded_cursor_was_issued toy_key _ (mkDecoded 7 toy_anchor) toy_key_wf).
  vm_compute. reflexivity.
Defined.

Lemma foreign_cursor_expires_witness :
  (∀ e, e ≠ 5%Z →
     key_decode_cursor (with_epoch toy_key e) (key_encode_cursor toy_key 7 toy_anchor) =
       Err CE_Stale) ∧
  (3%Z ≠ 3%Z ∨ [1; 2; 1; 1]%Z ≠ [1; 1; 1; 1]%Z →
     key_decode_cursor (mkChangesKey 3 [1; 2; 1; 1]%Z 5 tt tt tt)
       (key_encode_cursor toy_key 7 toy_anchor) = Err CE_UnknownKey).
Proof.
  exact (foreign_cursor_expires toy_key (mkChangesKey 3 [1; 2; 1; 1]%Z 5 tt tt tt) 7 toy_anchor
           toy_key_wf toy_values).
Defined.

Lemma sealed_secret_opens_witness :
  let sealed := replicate 12 4%Z ++ as_bytes "s3cret" ++ replicate TAG_LEN 0%Z in
  open_secret toy_key "sub-1" 3 sealed = Ok "s3cret" ∧
  ∀ id, id ≠ 3%Z → open_secret toy_key "sub-1" id sealed = Err SE_UnknownKey.
Proof.
  apply (sealed_secret_opens toy_key (replicate 12 4%Z) "sub-1" "s3cret");
    [reflexivity|reflexivity|reflexivity].
Defined.

(** The memory store with the one row of [feed1]; everyone sees everything. *)
Definition mem1 : MemoryFeed := mkMemoryFeed false (push_one 5 (feed mem0) append1).

Lemma mem1_rep : mem_rep mem1 feed1.
Proof.
  exact (mem_rep_push_one 5 mem0 empty_feed append1 mem0_rep ltac:(vm_compute; discriminate)
           append1_wf).
Qed.

#[local] Instance toy_store : ChangesStore MemoryFeed := {
  visible_ctx_ids := λ _ ids _ _ _, Ok (list_to_set ids);
  producers_of := λ _ _, Ok ∅
}.

#[local] Instance toy_wire : ChangesWire := {
  json_len_change := λ '(_, lin, who), Ok (70 + Z.of_nat (length (as_bytes lin) + length (as_bytes who)))%Z;
  json_len_envelope := λ cursor, Ok (46 + Z.of_nat (length (as_bytes cursor)))%Z;
  response_validate := λ resp,
    if bool_decide (length (resp_changes resp) ≤ 1000) && negb (bool_decide (next_cursor resp = ""))
    then Ok tt else Err (SchemaViolation "changes");
  error_display := λ _, "schema violation";
  validate_buckets := λ raw max,
    if bool_decide (hex_string raw ∧ (1 ≤ Z.of_nat (length (as_bytes raw)) ≤ max)%Z) then Ok tt
    else Err (SchemaViolation "bucket")
}.

Lemma toy_grammar : bucket_grammar validate_buckets.
Proof. intros raw max. simpl. by case_bool_decide. Qed.

Definition toy_state : AppState ChangesKey :=
  mkAppState toy_key true MIN_SCAN_ROWS MAX_PAGE_BYTES.

Definition toy_sees : string → bool := λ _, true.


Definition no_filter : WatchFilter := mkFilter [] [] [] [] [] [].

Lemma toy_codec : codec_roundtrip toy_state.
Proof. intros p anchor Hv. exact (key_codec_roundtrip toy_key p anchor toy_key_wf Hv). Qed.

(** The query a request without filters scans with. *)
Definition open_query : FeedQuery := mkQuery 0 [] [] [] [] [] [] [] 100.


(** A second row, and a walk with one entry a page. *)
Definition mem2 : MemoryFeed := mkMemoryFeed false (push_one 7 (feed mem1) append1).
Definition feed2 : AFeed := a_append feed1 [row_of_append 2 7 append1].

Lemma fed2_rep : mem_rep mem2 feed2.
Proof.
  exact (mem_rep_push_one 7 mem1 feed1 append1 mem1_rep ltac:(vm_compute; discriminate) append1_wf).
Qed.

Lemma toy_world2 : request_world toy_state None None toy_sees (λ _, mem2) (λ _, feed2).
Proof.
  split.
  - intros _. apply fed2_rep.
  - done.
  - intros _ r Hr. cbn in Hr. rewrite !elem_of_cons in Hr.
    destruct Hr as [->|[->|Hr]]; [by eexists..|by apply elem_of_nil in Hr].
  - intros _ r [[n lin] who] _ _. by eexists.
  - intros c. by eexists.
  - intros _ ids. eexists. split; [done|]. intros id. rewrite elem_of_list_to_set /toy_sees. naive_solver.
Qed.

Lemma walk_reads_whole_feed_witness :
  ∃ cs,
    walk toy_state None None 1 no_filter mem2 3 Oldest = Ok cs ∧ length cs = 2 ∧
    entries (filter (λ r, matches open_query r = true ∧ row_visible toy_sees r = true) (live feed2))
      cs.
Proof.
  destruct (@walk_reads_whole_feed MemoryFeed Z ChangesKey toy_sdk memory_change_feed
           memory_feed_contract toy_store toy_wire changes_key_codec
           toy_state None None toy_sees 1 no_filter mem2 feed2 open_query 3)
    as (cs & Hent & [Hw|(before & page & after & cursor & more & e & _ & _ & Hw)]).
  - exact toy_world2.
  - exact toy_sha256_bytes.
  - exact toy_codec.
  - exact toy_grammar.
  - unfold u32_max. simpl. unfold MIN_SCAN_ROWS. lia.
  - lia.
  - reflexivity.
  - vm_compute. reflexivity.
  - exists cs. split; [exact Hw|]. split; [|exact Hent]. vm_compute in Hw. injection Hw as <-. reflexivity.
  - vm_compute in Hw. discriminate Hw.
Defined.

(** The walk of [feed1] is its one entry. *)
Example walk_of_feed1 :
  walk toy_state None None 10 no_filter mem1 2 Oldest = Ok [(1%Z, "lin-1", "did:web:a")].
Proof. vm_compute. reflexivity. Qed.

Lemma cursor_valid_until_pruned_witness :
  let cursor := mkDecoded 0 (anchor_at (top feed1) (head_fp (a_head feed1))) in
  ((mark feed1 ≤ 0)%Z →
   start_position (λ _, mem1) (a_head feed1) (Cursor cursor) = Ok (Some 0%Z)) ∧
  ((0 < mark feed1)%Z →
   start_position (λ _, mem1) (a_head feed1) (Cursor cursor) = Err (RE_Acdp CursorExpired)).
Proof.
  apply (@cursor_valid_until_pruned MemoryFeed Z toy_sdk memory_change_feed
           memory_feed_contract (λ _, mem1) feed1 (λ _, feed1) 0).
  - apply (mr_wf mem1), mem1_rep.
  - intros _. apply mem1_rep.
  - reflexivity.
  - reflexivity.
  - split; [lia|]. vm_compute. discriminate.
Defined.

(** A cursor of an earlier life of the feed, whose row 1 had another context. *)
Definition old_cursor : DecodedCursor := mkDecoded 1 (mkAnchor 1 (replicate 8 9%Z)).

Lemma reset_cursor_is_refused_witness :
  start_position (λ _, mem1) (a_head feed1) (Cursor old_cursor) = Err (RE_Acdp CursorExpired).
Proof.
  apply (@reset_cursor_is_refused MemoryFeed Z toy_sdk memory_change_feed
           memory_feed_contract (λ _, mem1) (λ _, feed1) old_cursor).
  - intros _. apply mem1_rep.
  - reflexivity.
  - split; [reflexivity|]. vm_compute. discriminate.
  - intros r Hr _. apply list_elem_of_singleton in Hr. subst r. vm_compute. discriminate.
Defined.

Lemma changes_page_within_bounds_witness :
  let resp := mkResponse toy_sdk [(1%Z, "lin-1", "did:web:a")]
                (key_encode_cursor toy_key 1 (anchor_at 1 (head_fp (a_head feed1)))) false in
  (Z.of_nat (length (resp_changes resp)) ≤ 10)%Z ∧
  ((2 ≤ length (resp_changes resp))%nat →
   108 + entries_len (resp_changes resp) ≤ changes_max_page_bytes toy_state)%Z.
Proof.
  apply (@changes_page_within_bounds MemoryFeed Z ChangesKey toy_sdk memory_change_feed
           toy_store toy_wire changes_key_codec toy_state (λ _, mem1) None None
           (mkRequest Oldest 10 no_filter) _ 1 108).
  - simpl. lia.
  - intros start. vm_compute. intros [= <-]. reflexivity.
  - vm_compute. reflexivity.
Defined.

End ChangesExample.
