(* ===== verification/Subscriptions.v ===== *)
(** * Change-hint subscriptions: the store

    [acdp-registry-store/src/subscriptions.rs] and the three backends:
    [acdp-registry-server/src/memory_ext.rs], [acdp-registry-sqlite/src/subscriptions.rs]
    and [acdp-registry-pg/src/subscriptions.rs]. The rows are a map by
    [subscription_id] (a hash map, or a table with that primary key); the
    backends differ in how they store the integers and treat a duplicate id ([Dialect]). Each operation is
    one critical section or one transaction. *)

From S2P Require Import Prelude Errors ContextTypes ChangeBucket ChangeFeed FeedBackends Changes.

Open Scope registry_scope.

Inductive SubscriptionStatus : Type := Active | Disabled.

#[export] Instance SubscriptionStatus_eq_dec : EqDecision SubscriptionStatus.
Proof. solve_decision. Defined.

Definition status_str (s : SubscriptionStatus) : string :=
  match s with Active => "active" | Disabled => "disabled" end.

Definition parse_status (s : string) : result SubscriptionStatus AcdpError :=
  if bool_decide (s = "active") then Ok Active
  else if bool_decide (s = "disabled") then Ok Disabled
  else Err (RegistryInternal ("stored subscription status '" +:+ s +:+ "' is unknown")).

Record NewSubscription : Type := mkNewSubscription {
  ns_id : string;
  ns_owner : string;
  ns_tenant : option string;
  ns_filter : WatchFilter;
  ns_callback_url : string;
  ns_secret_ct : list Z;
  ns_secret_key_id : Z;
  ns_created_at_ms : Z;
  ns_last_hinted_seq : Z
}.

Record SubscriptionRecord : Type := mkSubscription {
  subscription_id : string;
  owner_did : string;
  tenant_id : option string;
  sub_filter : WatchFilter;
  callback_url : string;
  secret_ct : list Z;
  secret_key_id : Z;
  status : SubscriptionStatus;
  created_at_ms : Z;
  last_hinted_seq : Z;
  next_attempt_at_ms : Z;
  failing_since_ms : option Z;
  attempts : Z;
  lease_until_ms : option Z
}.

Inductive CreateSubscriptionOutcome : Type := Created | LimitReached.

Record SubscriptionProgress : Type := mkProgress {
  pr_last_hinted_seq : Z;
  pr_status : SubscriptionStatus;
  pr_next_attempt_at_ms : Z;
  pr_failing_since_ms : option Z;
  pr_attempts : Z
}.

(** [SubscriptionProgress::healthy]. *)
Definition healthy (s next : Z) : SubscriptionProgress := mkProgress s Active next None 0.

(** [SubscriptionProgress::disabled]. *)
Definition disabled (sub : SubscriptionRecord) (now_ms : Z) : SubscriptionProgress :=
  mkProgress (last_hinted_seq sub) Disabled now_ms
    (Some (default now_ms (failing_since_ms sub))) (attempts sub).

Record SubscriptionCounts : Type := mkCounts {
  cnt_active : Z;
  cnt_disabled : Z;
  oldest_due_at_ms : option Z
}.

(** How a backend stores [last_hinted_seq] and [attempts], and whether an insert
    under an id that exists is refused (a primary key) or replaces the row (a map). *)
Record Dialect : Type := mkDialect {
  store_seq : Z → Z;
  store_attempts : Z → Z;
  primary_key : bool
}.

Definition i32_max : Z := 2147483647.

Definition memory_dialect : Dialect := mkDialect id id false.
Definition sqlite_dialect : Dialect := mkDialect i64_or_max id true.
Definition pg_dialect : Dialect :=
  mkDialect i64_or_max (λ n, if (n <=? i32_max)%Z then n else i32_max) true.

(** The rows, and whether the lock or the database answers. *)
Record SubStore : Type := mkSubStore {
  sub_reachable : bool;
  subs : gmap string SubscriptionRecord
}.

Definition sub_err : AcdpError := RegistryInternal "subscriptions".

Section store.
Context (d : Dialect).

(** The row a new subscription becomes. *)
Definition new_row (new : NewSubscription) : SubscriptionRecord :=
  mkSubscription (ns_id new) (ns_owner new) (ns_tenant new) (ns_filter new) (ns_callback_url new)
    (ns_secret_ct new) (ns_secret_key_id new) Active (ns_created_at_ms new)
    (store_seq d (ns_last_hinted_seq new)) (ns_created_at_ms new) None 0 None.

(** [COUNT] of the owner's rows. *)
Definition owned_count (owner : string) (m : gmap string SubscriptionRecord) : nat :=
  size (filter (λ p, owner_did p.2 = owner) m).

Definition create_subscription (s : SubStore) (new : NewSubscription) (max_per_owner : Z) :
    result CreateSubscriptionOutcome AcdpError * SubStore :=
  if negb (sub_reachable s) then (Err sub_err, s)
  else if (max_per_owner <=? Z.of_nat (owned_count (ns_owner new) (subs s)))%Z then
    (Ok LimitReached, s)
  else if primary_key d && bool_decide (is_Some (subs s !! ns_id new)) then (Err sub_err, s)
  else (Ok Created, mkSubStore true (<[ns_id new := new_row new]> (subs s))).

Definition get_subscription (s : SubStore) (owner id : string) :
    result (option SubscriptionRecord) AcdpError :=
  if negb (sub_reachable s) then Err sub_err
  else
    Ok (match subs s !! id with
        | Some r => if bool_decide (owner_did r = owner) then Some r else None
        | None => None
        end).

Definition delete_subscription (s : SubStore) (owner id : string) :
    result bool AcdpError * SubStore :=
  if negb (sub_reachable s) then (Err sub_err, s)
  else
    match subs s !! id with
    | Some r =>
        if bool_decide (owner_did r = owner) then
          (Ok true, mkSubStore true (delete id (subs s)))
        else (Ok false, s)
    | None => (Ok false, s)
    end.

(** The filter of [claim_due_subscriptions]. *)
Definition is_due (now_ms feed_head : Z) (r : SubscriptionRecord) : bool :=
  bool_decide (status r = Active)
  && (next_attempt_at_ms r <=? now_ms)%Z
  && (match lease_until_ms r with None => true | Some l => (l <? now_ms)%Z end)
  && (last_hinted_seq r <? store_seq d feed_head)%Z.

Definition with_lease (l : option Z) (r : SubscriptionRecord) : SubscriptionRecord :=
  mkSubscription (subscription_id r) (owner_did r) (tenant_id r) (sub_filter r) (callback_url r)
    (secret_ct r) (secret_key_id r) (status r) (created_at_ms r) (last_hinted_seq r)
    (next_attempt_at_ms r) (failing_since_ms r) (attempts r) l.

Definition due_le (r1 r2 : SubscriptionRecord) : Prop :=
  (next_attempt_at_ms r1 ≤ next_attempt_at_ms r2)%Z.

#[export] Instance due_le_dec r1 r2 : Decision (due_le r1 r2).
Proof. unfold due_le. apply _. Defined.

(** Each row written back under its id. *)
Definition write_rows (l : list SubscriptionRecord) (m : gmap string SubscriptionRecord) :
    gmap string SubscriptionRecord :=
  foldr (λ r m, <[subscription_id r := r]> m) m l.

(** The rows one claim takes; [iter] is the order the map is walked in. *)
Definition claimable (iter : list string) (m : gmap string SubscriptionRecord)
    (now_ms feed_head lim : Z) : list SubscriptionRecord :=
  take (Z.to_nat lim)
    (merge_sort due_le
       (filter (λ r, is_due now_ms feed_head r = true) (omap (λ id, m !! id) iter))).

Definition claim_due_subscriptions (iter : list string) (s : SubStore)
    (now_ms feed_head lease lim : Z) :
    result (list SubscriptionRecord) AcdpError * SubStore :=
  if negb (sub_reachable s) then (Err sub_err, s)
  else
    let claimed := map (with_lease (Some lease)) (claimable iter (subs s) now_ms feed_head lim) in
    (Ok claimed,
     mkSubStore true (write_rows claimed (subs s))).

(** The row after an attempt. *)
Definition finished_row (p : SubscriptionProgress) (r : SubscriptionRecord) : SubscriptionRecord :=
  mkSubscription (subscription_id r) (owner_did r) (tenant_id r) (sub_filter r) (callback_url r)
    (secret_ct r) (secret_key_id r) (pr_status p) (created_at_ms r)
    (store_seq d (pr_last_hinted_seq p)) (pr_next_attempt_at_ms p) (pr_failing_since_ms p)
    (store_attempts d (pr_attempts p)) None.

Definition finish_subscription_attempt (s : SubStore) (id : string) (lease : Z)
    (p : SubscriptionProgress) : result bool AcdpError * SubStore :=
  if negb (sub_reachable s) then (Err sub_err, s)
  else
    match subs s !! id with
    | Some r =>
        if bool_decide (lease_until_ms r = Some lease) then
          (Ok true, mkSubStore true (<[id := finished_row p r]> (subs s)))
        else (Ok false, s)
    | None => (Ok false, s)
    end.

(** One row of the loop of [subscription_counts]. *)
Definition count_row (feed_head : Z) (out : SubscriptionCounts) (r : SubscriptionRecord) :
    SubscriptionCounts :=
  match status r with
  | Active =>
      mkCounts (cnt_active out + 1) (cnt_disabled out)
        (if (last_hinted_seq r <? store_seq d feed_head)%Z then
           Some (match oldest_due_at_ms out with
                 | None => next_attempt_at_ms r
                 | Some o => Z.min o (next_attempt_at_ms r)
                 end)
         else oldest_due_at_ms out)
  | Disabled => mkCounts (cnt_active out) (cnt_disabled out + 1) (oldest_due_at_ms out)
  end.

Definition subscription_counts (s : SubStore) (feed_head : Z) :
    result SubscriptionCounts AcdpError :=
  if negb (sub_reachable s) then Err sub_err
  else Ok (fold_left (count_row feed_head) (map snd (map_to_list (subs s))) (mkCounts 0 0 None)).
End store.

(** ** Leases *)

(** How long a claim is held ([hints.rs]). *)
Definition LEASE_MS : Z := 60000.

(** Rows sit under their own id. *)
Definition keyed (m : gmap string SubscriptionRecord) : Prop :=
  ∀ id r, m !! id = Some r → subscription_id r = id.

Section claims.
Context (d : Dialect).

(** The rows a claim chooses from. *)
Definition due_rows (iter : list string) (m : gmap string SubscriptionRecord) (now h : Z) :
    list SubscriptionRecord :=
  filter (λ r, is_due d now h r = true) (omap (λ id, m !! id) iter).

Lemma due_rows_elem iter m now h r :
  keyed m → r ∈ due_rows iter m now h →
  subscription_id r ∈ iter ∧ m !! subscription_id r = Some r ∧ is_due d now h r = true.
Proof.
  intros Hk [Hdue Hr]%list_elem_of_filter.
  apply list_elem_of_omap in Hr as (id & Hin & Hid). by rewrite (Hk id r Hid).
Qed.

Lemma due_rows_NoDup iter m now h :
  NoDup iter → keyed m → NoDup (map subscription_id (due_rows iter m now h)).
Proof.
  intros Hn Hk. induction Hn as [|i iter Hi Hn IH]; [constructor|].
  unfold due_rows in *. simpl. destruct (m !! i) as [r|] eqn:Hr; [|done].
  rewrite filter_cons. destruct (decide _) as [Hd|Hd]; [|done]. simpl. constructor; [|done].
  rewrite (Hk i r Hr). intros (x & Hx & Hin)%list_elem_of_fmap. apply Hi. subst i.
  by apply due_rows_elem in Hin as [? _].
Qed.

Lemma claimable_elem iter m now h lim r :
  keyed m → r ∈ claimable d iter m now h lim →
  m !! subscription_id r = Some r ∧ is_due d now h r = true.
Proof.
  intros Hk Hr. apply subseteq_take in Hr.
  rewrite (merge_sort_Permutation due_le (due_rows iter m now h)) in Hr.
  by apply due_rows_elem in Hr as [_ ?].
Qed.

Lemma claimable_NoDup iter m now h lim :
  NoDup iter → keyed m → NoDup (map subscription_id (claimable d iter m now h lim)).
Proof.
  intros Hn Hk. unfold claimable. rewrite -take_map.
  eapply sublist_NoDup; [|apply sublist_take].
  rewrite (Permutation_map subscription_id
             (merge_sort_Permutation due_le (due_rows iter m now h))).
  by apply due_rows_NoDup.
Qed.

(** What a claim leaves in the map. *)
Lemma claim_lookup l m id :
  NoDup (map subscription_id l) →
  write_rows l m !! id =
    match list_find (λ r, subscription_id r = id) l with
    | Some (_, r) => Some r
    | None => m !! id
    end.
Proof.
  induction l as [|r l IH]; intros Hn; [done|]. simpl in *. apply NoDup_cons in Hn as [Hr Hn].
  case_decide as Hd.
  - subst id. by rewrite lookup_insert_eq.
  - rewrite lookup_insert_ne // IH //. by destruct (list_find _ l) as [[]|].
Qed.

(** A row a claim returned is leased; every other row is as it was. *)
Lemma claim_spec iter s now h lease lim claimed s' :
  NoDup iter → keyed (subs s) →
  claim_due_subscriptions d iter s now h lease lim = (Ok claimed, s') →
  NoDup (map subscription_id claimed) ∧ keyed (subs s') ∧
  (∀ r', r' ∈ claimed →
     ∃ r, subs s !! subscription_id r' = Some r ∧ is_due d now h r = true ∧
          r' = with_lease (Some lease) r ∧ subs s' !! subscription_id r' = Some r') ∧
  (∀ id, id ∉ map subscription_id claimed → subs s' !! id = subs s !! id).
Proof.
  intros Hn Hk Hc. unfold claim_due_subscriptions in Hc. destruct (negb _); [done|]. simplify_eq.
  set (l := claimable d iter (subs s) now h lim).
  assert (Hids : map subscription_id (map (with_lease (Some lease)) l) = map subscription_id l).
  { by rewrite map_map. }
  assert (Hnd : NoDup (map subscription_id (map (with_lease (Some lease)) l))).
  { rewrite Hids. by apply claimable_NoDup. }
  assert (Hin : ∀ r', r' ∈ map (with_lease (Some lease)) l →
            write_rows (map (with_lease (Some lease)) l) (subs s) !! subscription_id r' = Some r').
  { intros r' Hr'. rewrite claim_lookup //.
    destruct (list_find _ _) as [[i x]|] eqn:Hf.
    - apply list_find_Some in Hf as (Hi & Hx & _). f_equal.
      apply list_elem_of_lookup in Hr' as [j Hj].
      assert (i = j) as ->; [|congruence].
      eapply (NoDup_lookup _ _ _ (subscription_id r') Hnd);
        apply list_lookup_fmap_Some; eauto.
    - apply list_find_None in Hf. rewrite Forall_forall in Hf. by destruct (Hf r'). }
  simpl. split_and!; [done| | |].
  - intros id r. rewrite claim_lookup //. destruct (list_find _ _) as [[i x]|] eqn:Hf.
    + apply list_find_Some in Hf as (_ & Hx & _). by intros [= <-].
    + apply Hk.
  - intros r' Hr'. pose proof (Hin r' Hr') as Hs'.
    apply list_elem_of_fmap in Hr' as (r & -> & Hr).
    apply claimable_elem in Hr as [Hm Hdue]; [|done]. by exists r.
  - intros id Hid. rewrite claim_lookup //. destruct (list_find _ _) as [[i x]|] eqn:Hf; [|done].
    apply list_find_Some in Hf as (Hi & Hx & _). destruct Hid. subst id.
    apply list_elem_of_fmap. exists x. split; [done|]. by eapply list_elem_of_lookup_2.
Qed.

(** ** The workers

    The store, the clock the workers read, and the attempts in flight: each a
    subscription id with the lease it was claimed under. *)

Record LeaseSys : Type := mkLeaseSys {
  ls_store : SubStore;
  ls_clock : Z;
  ls_out : list (string * Z)
}.

Definition attempt_of (r : SubscriptionRecord) (lease : Z) : string * Z :=
  (subscription_id r, lease).

(** What may happen: time passes; a subscription is created under a fresh id or
    deleted; a worker of any replica claims a batch; an attempt finishes; an
    attempt is abandoned (it overran, or its worker died). *)
Inductive lease_step : LeaseSys → LeaseSys → Prop :=
  | ls_tick s t t' out : (t ≤ t')%Z → lease_step (mkLeaseSys s t out) (mkLeaseSys s t' out)
  | ls_create s t out new max r s' :
      subs s !! ns_id new = None → (∀ l, (ns_id new, l) ∉ out) →
      create_subscription d s new max = (r, s') →
      lease_step (mkLeaseSys s t out) (mkLeaseSys s' t out)
  | ls_delete s t out owner id r s' :
      delete_subscription s owner id = (r, s') →
      lease_step (mkLeaseSys s t out) (mkLeaseSys s' t out)
  | ls_claim s t out iter h lim claimed s' :
      NoDup iter →
      claim_due_subscriptions d iter s t h (t + LEASE_MS) lim = (Ok claimed, s') →
      lease_step (mkLeaseSys s t out)
        (mkLeaseSys s' t (out ++ map (λ r, attempt_of r (t + LEASE_MS)) claimed))
  | ls_finish s t out1 out2 id l p r s' :
      finish_subscription_attempt d s id l p = (r, s') →
      lease_step (mkLeaseSys s t (out1 ++ (id, l) :: out2)) (mkLeaseSys s' t (out1 ++ out2))
  | ls_abandon s t out1 out2 a :
      lease_step (mkLeaseSys s t (out1 ++ a :: out2)) (mkLeaseSys s t (out1 ++ out2)).

Record lease_inv (sys : LeaseSys) : Prop := {
  li_keyed : keyed (subs (ls_store sys));
  li_NoDup : NoDup (ls_out sys);
  (** An attempt whose lease has not lapsed holds the row, if it is there. *)
  li_holds id l :
    (id, l) ∈ ls_out sys → (ls_clock sys ≤ l)%Z →
    match subs (ls_store sys) !! id with
    | Some r => lease_until_ms r = Some l
    | None => True
    end;
  li_one id l1 l2 :
    (id, l1) ∈ ls_out sys → (id, l2) ∈ ls_out sys →
    (ls_clock sys ≤ l1)%Z → (ls_clock sys ≤ l2)%Z → l1 = l2
}.

(** Dropping an attempt, or moving the clock, keeps the invariant. *)
Lemma lease_inv_weaken s t t' out out' :
  lease_inv (mkLeaseSys s t out) → (t ≤ t')%Z → NoDup out' → out' ⊆ out →
  lease_inv (mkLeaseSys s t' out').
Proof.
  intros [Hk Hn Hh Ho] Ht Hn' Hsub. split; simpl in *; [done|done| |].
  - intros id l Hin Hl. apply Hh; [by apply Hsub|lia].
  - intros id l1 l2 H1 H2 Hl1 Hl2. apply (Ho id); [by apply Hsub|by apply Hsub|lia|lia].
Qed.

Lemma NoDup_drop_middle {A} (l1 l2 : list A) x :
  NoDup (l1 ++ x :: l2) → NoDup (l1 ++ l2) ∧ x ∉ l1 ++ l2 ∧ l1 ++ l2 ⊆ l1 ++ x :: l2.
Proof.
  intros Hn. rewrite -Permutation_middle in Hn. apply NoDup_cons in Hn as [Hx Hn].
  split_and!; [done|done|]. intros y Hy. set_solver.
Qed.

(** Changing rows other than by a claim: each row keeps its lease, goes, or is
    new. *)
Lemma lease_inv_rows s s' t out :
  lease_inv (mkLeaseSys s t out) → keyed (subs s') →
  (∀ id l r', (id, l) ∈ out → subs s' !! id = Some r' → (t ≤ l)%Z →
     ∃ r, subs s !! id = Some r ∧ lease_until_ms r' = lease_until_ms r) →
  lease_inv (mkLeaseSys s' t out).
Proof.
  intros [Hk Hn Hh Ho] Hk' Hrows. split; simpl in *; [done|done| |done].
  intros id l Hin Hl. destruct (subs s' !! id) as [r'|] eqn:Hr'; [|done].
  destruct (Hrows id l r' Hin Hr' Hl) as (r & Hr & ->). specialize (Hh id l Hin Hl).
  by rewrite Hr in Hh.
Qed.

Lemma keyed_insert m id r : keyed m → subscription_id r = id → keyed (<[id := r]> m).
Proof.
  intros Hk Hr i x. rewrite lookup_insert. case_decide; [intros [= <-]; congruence|apply Hk].
Qed.

Lemma keyed_delete m id : keyed m → keyed (delete id m).
Proof. intros Hk i x [_ Hx]%lookup_delete_Some. by apply Hk. Qed.

Lemma lease_inv_claim s t out iter h lim claimed s' :
  lease_inv (mkLeaseSys s t out) → NoDup iter →
  claim_due_subscriptions d iter s t h (t + LEASE_MS) lim = (Ok claimed, s') →
  lease_inv (mkLeaseSys s' t (out ++ map (λ r, attempt_of r (t + LEASE_MS)) claimed)).
Proof.
  intros [Hk Hn Hh Ho] Hit Hc. simpl in *.
  destruct (claim_spec iter s t h (t + LEASE_MS) lim claimed s' Hit Hk Hc) as (Hnd & Hk' & Hin & Hout).
  set (new := map _ claimed).
  assert (Hnew : ∀ id l, (id, l) ∈ new → l = (t + LEASE_MS)%Z ∧ id ∈ map subscription_id claimed).
  { intros id l (r & Heq & Hr)%list_elem_of_fmap. unfold attempt_of in Heq. simplify_eq.
    split; [done|]. apply list_elem_of_fmap. by exists r. }
  assert (Hold : ∀ id l, (id, l) ∈ out → (t ≤ l)%Z → id ∉ map subscription_id claimed).
  { intros id l Hil Hl (r' & -> & Hr')%list_elem_of_fmap.
    destruct (Hin r' Hr') as (r & Hr & Hdue & _). specialize (Hh _ _ Hil Hl). rewrite Hr in Hh.
    unfold is_due in Hdue. rewrite Hh in Hdue. bool_to_prop. lia. }
  assert (Hpos : (t ≤ t + LEASE_MS)%Z) by (unfold LEASE_MS; lia).
  split; simpl.
  - done.
  - apply NoDup_app. split_and!; [done| |].
    + intros [id l] Hil Hil'. destruct (Hnew id l Hil') as [-> Hid]. by destruct (Hold id _ Hil Hpos).
    + unfold new. rewrite (_ : map _ claimed = map (λ id, (id, (t + LEASE_MS)%Z)) (map subscription_id claimed)).
      * apply NoDup_fmap_2; [|done]. intros x y [= ?]. done.
      * by rewrite map_map.
  - intros id l Hil Hl. apply elem_of_app in Hil as [Hil|Hil].
    + rewrite Hout; [exact (Hh id l Hil Hl)|exact (Hold id l Hil Hl)].
    + destruct (Hnew id l Hil) as [-> Hid]. apply list_elem_of_fmap in Hid as (r' & -> & Hr').
      destruct (Hin r' Hr') as (r & _ & _ & -> & ->). done.
  - intros id l1 l2 H1 H2 Hl1 Hl2. apply elem_of_app in H1 as [H1|H1], H2 as [H2|H2].
    + exact (Ho id l1 l2 H1 H2 Hl1 Hl2).
    + destruct (Hnew id l2 H2) as [_ Hid]. by destruct (Hold id l1 H1 Hl1).
    + destruct (Hnew id l1 H1) as [_ Hid]. by destruct (Hold id l2 H2 Hl2).
    + by destruct (Hnew id l1 H1) as [-> _], (Hnew id l2 H2) as [-> _].
Qed.

Lemma lease_inv_finish s t out1 out2 id l p r s' :
  lease_inv (mkLeaseSys s t (out1 ++ (id, l) :: out2)) →
  finish_subscription_attempt d s id l p = (r, s') →
  lease_inv (mkLeaseSys s' t (out1 ++ out2)).
Proof.
  intros Hinv Hf. pose proof (li_NoDup _ Hinv) as Hn. simpl in Hn.
  apply NoDup_drop_middle in Hn as (Hn & Hx & Hsub).
  pose proof (lease_inv_weaken _ _ t _ _ Hinv ltac:(lia) Hn Hsub) as Hinv'.
  unfold finish_subscription_attempt in Hf. destruct (negb _); [by simplify_eq|].
  destruct (subs s !! id) as [row|] eqn:Hr; [|by simplify_eq].
  case_bool_decide as Hl; simplify_eq; [|done].
  pose proof (li_keyed _ Hinv) as Hk. simpl in Hk.
  apply (lease_inv_rows s); [done| |].
  { apply keyed_insert; [done|exact (Hk id row Hr)]. }
  simpl. intros i l' r' Hin Hr' Hl'. rewrite lookup_insert in Hr'. case_decide as Hi; [|by exists r'].
  subst i. pose proof (li_holds _ Hinv' id l' Hin Hl') as Hh. simpl in Hh. rewrite Hr in Hh.
  rewrite Hl in Hh. simplify_eq. by destruct Hx.
Qed.

Lemma lease_step_inv sys sys' : lease_inv sys → lease_step sys sys' → lease_inv sys'.
Proof.
  intros Hinv Hstep. revert Hinv.
  destruct Hstep as [s t t' out Ht|s t out new max r s' Hnone Hfresh Hc|s t out owner id r s' Hd
              |s t out iter h lim claimed s' Hit Hc|s t out1 out2 id l p r s' Hf|s t out1 out2 a];
    intros Hinv.
  - exact (lease_inv_weaken _ _ _ _ _ Hinv Ht (li_NoDup _ Hinv) (reflexivity _)).
  - unfold create_subscription in Hc. destruct (negb _); [by simplify_eq|].
    destruct (_ <=? _)%Z; [by simplify_eq|]. destruct (primary_key d && _); simplify_eq; [done|].
    apply (lease_inv_rows s); [done|by apply keyed_insert; [apply Hinv|]|].
    simpl. intros i l r' Hin Hr' _. rewrite lookup_insert in Hr'. case_decide as Hi; [|by exists r'].
    subst i. by destruct (Hfresh l).
  - unfold delete_subscription in Hd. destruct (negb _); [by simplify_eq|].
    destruct (subs s !! id); [|by simplify_eq]. case_bool_decide; simplify_eq; [|done].
    apply (lease_inv_rows s); [done|by apply keyed_delete, Hinv|].
    simpl. intros i l r' _ [_ Hr']%lookup_delete_Some _. by exists r'.
  - by eapply lease_inv_claim.
  - by eapply lease_inv_finish.
  - pose proof (li_NoDup _ Hinv) as Hn. simpl in Hn.
    apply NoDup_drop_middle in Hn as (Hn & _ & Hsub).
    exact (lease_inv_weaken _ _ t _ _ Hinv ltac:(lia) Hn Hsub).
Qed.
End claims.

(** ** Properties *)

Lemma owned_count_insert o id r (m : gmap string SubscriptionRecord) :
  owned_count o (<[id := r]> m) ≤
    owned_count o m + (if bool_decide (owner_did r = o) then 1 else 0).
Proof.
  unfold owned_count. case_bool_decide as Ho.
  - rewrite map_filter_insert_True; [|done]. rewrite map_size_insert.
    destruct (filter _ m !! id); simpl; lia.
  - rewrite map_filter_insert_False; [|done]. rewrite map_filter_delete map_size_delete.
    destruct (filter _ m !! id); simpl; lia.
Qed.

(** Two replicas never work on one subscription at a time. However many
    workers claim, finish, overrun and die, in any interleaving with creates
    and deletes, on every backend: no two attempts in flight have the same
    subscription and lease, at most one of them has an unlapsed lease, and at
    most one of them could still write its outcome. *)
Theorem attempts_are_exclusive (d : Dialect) (sys0 sys : LeaseSys) :
  keyed (subs (ls_store sys0)) → ls_out sys0 = [] → rtc_steps (lease_step d) sys0 sys →
  NoDup (ls_out sys) ∧
  ∀ id l1 l2, (id, l1) ∈ ls_out sys → (id, l2) ∈ ls_out sys →
    ((ls_clock sys ≤ l1)%Z → (ls_clock sys ≤ l2)%Z → l1 = l2) ∧
    (∀ p1 p2 s1 s2,
       finish_subscription_attempt d (ls_store sys) id l1 p1 = (Ok true, s1) →
       finish_subscription_attempt d (ls_store sys) id l2 p2 = (Ok true, s2) → l1 = l2).
Proof.
  intros Hk Hout Hsteps.
  assert (Hinv : lease_inv sys).
  { eapply (rtc_steps_invariant (lease_step d) lease_inv); [apply lease_step_inv|done|].
    split; rewrite ?Hout; [done|apply NoDup_nil_2| |].
    - intros id l Hin. by apply not_elem_of_nil in Hin.
    - intros id l1 l2 Hin. by apply not_elem_of_nil in Hin. }
  split; [apply Hinv|]. intros id l1 l2 H1 H2. split; [by apply (li_one _ Hinv id)|].
  intros p1 p2 s1 s2 Hf1 Hf2. unfold finish_subscription_attempt in *.
  destruct (negb _); [done|]. destruct (subs (ls_store sys) !! id) as [r|]; [|done].
  case_bool_decide as E1; [|done]. case_bool_decide as E2; congruence.
Qed.

(** Subscriptions belong to their owner: to anyone else a subscription is
    indistinguishable from one that does not exist, and creating never takes
    any owner above the limit. *)
Theorem subscriptions_are_owner_scoped (d : Dialect) (s : SubStore) (max : Z) :
  sub_reachable s = true → (∀ o, Z.of_nat (owned_count o (subs s)) ≤ max)%Z →
  (∀ owner id r, subs s !! id = Some r → owner_did r ≠ owner →
     get_subscription s owner id = Ok None ∧ delete_subscription s owner id = (Ok false, s)) ∧
  (∀ new r s', create_subscription d s new max = (r, s') →
     (r = Ok Created ∧ subs s' = <[ns_id new := new_row d new]> (subs s) ∨
      r = Ok LimitReached ∧ s' = s ∨
      r = Err sub_err ∧ s' = s ∧ is_Some (subs s !! ns_id new)) ∧
     ∀ o, (Z.of_nat (owned_count o (subs s')) ≤ max)%Z).
Proof.
  intros Hup Hmax. split.
  - intros owner id r Hr Ho. unfold get_subscription, delete_subscription.
    by rewrite Hup Hr bool_decide_false.
  - intros new r s' Hc. unfold create_subscription in Hc. rewrite Hup in Hc. simpl in Hc.
    destruct (_ <=? _)%Z eqn:E; bool_to_prop; simplify_eq; [by split; [right; left|]|].
    destruct (primary_key d && _) eqn:Epk; simplify_eq.
    { apply andb_true_iff in Epk as [_ Epk%bool_decide_eq_true]. split; [|done]. by right; right. }
    split; [by left|]. intros o. simpl.
    pose proof (owned_count_insert o (ns_id new) (new_row d new) (subs s)).
    specialize (Hmax o). case_bool_decide as Ho; simpl in *; [subst o|]; lia.
Qed.

(** *** A concrete run *)

Module LeaseExample.

Definition filter0 : WatchFilter := mkFilter [] [] [] [] [] [].

Definition row1 : SubscriptionRecord :=
  mkSubscription "sub-1" "did:web:o" None filter0 "https://o.example/hook" [] 1 Active 0 0 0 None 0
    None.

Definition store1 : SubStore := mkSubStore true {[ "sub-1" := row1 ]}.

Definition sys1 : LeaseSys := mkLeaseSys store1 10 [].

Definition claimed1 : SubStore := (claim_due_subscriptions pg_dialect ["sub-1"] store1 10 5 60010 32).2.

(** One claim at time 10, and a second after the lease lapsed. *)
Definition sys2 : LeaseSys :=
  mkLeaseSys (claim_due_subscriptions pg_dialect ["sub-1"] claimed1 60011 5 120011 32).2 60011
    [("sub-1", 60010%Z); ("sub-1", 120011%Z)].

Lemma store1_keyed : keyed (subs store1).
Proof. intros id r Hr. simpl in Hr. apply lookup_singleton_Some in Hr as [<- <-]. reflexivity. Qed.

Lemma attempts_are_exclusive_witness :
  NoDup (ls_out sys2) ∧
  ∀ id l1 l2, (id, l1) ∈ ls_out sys2 → (id, l2) ∈ ls_out sys2 →
    ((ls_clock sys2 ≤ l1)%Z → (ls_clock sys2 ≤ l2)%Z → l1 = l2) ∧
    (∀ p1 p2 s1 s2,
       finish_subscription_attempt pg_dialect (ls_store sys2) id l1 p1 = (Ok true, s1) →
       finish_subscription_attempt pg_dialect (ls_store sys2) id l2 p2 = (Ok true, s2) → l1 = l2).
Proof.
  apply (attempts_are_exclusive pg_dialect sys1 sys2).
  - apply store1_keyed.
  - reflexivity.
  - eapply rtc_steps_step.
    { apply (ls_claim pg_dialect store1 10 [] ["sub-1"] 5 32 [with_lease (Some 60010%Z) row1] claimed1).
      - repeat constructor. set_solver.
      - vm_compute. reflexivity. }
    eapply rtc_steps_step.
    { apply (ls_tick pg_dialect claimed1 10 60011). lia. }
    eapply rtc_steps_step.
    { apply (ls_claim pg_dialect claimed1 60011 [("sub-1", 60010%Z)] ["sub-1"] 5 32
               [with_lease (Some 120011%Z) row1] (ls_store sys2)).
      - repeat constructor. set_solver.
      - vm_compute. reflexivity. }
    apply rtc_steps_refl.
Defined.

Lemma subscriptions_are_owner_scoped_witness :
  (∀ owner id r, subs store1 !! id = Some r → owner_did r ≠ owner →
     get_subscription store1 owner id = Ok None ∧
     delete_subscription store1 owner id = (Ok false, store1)) ∧
  (∀ new r s', create_subscription pg_dialect store1 new 5 = (r, s') →
     (r = Ok Created ∧ subs s' = <[ns_id new := new_row pg_dialect new]> (subs store1) ∨
      r = Ok LimitReached ∧ s' = store1 ∨
      r = Err sub_err ∧ s' = store1 ∧ is_Some (subs store1 !! ns_id new)) ∧
     ∀ o, (Z.of_nat (owned_count o (subs s')) ≤ 5)%Z).
Proof.
  apply (subscriptions_are_owner_scoped pg_dialect store1 5).
  - reflexivity.
  - intros o. pose proof (owned_count_insert o "sub-1" row1 ∅) as Hle.
    assert (owned_count o ∅ = 0) as H0.
    { unfold owned_count. rewrite map_filter_empty. apply map_size_empty. }
    rewrite H0 in Hle.
    change (subs store1) with (<["sub-1" := row1]> (∅ : gmap string SubscriptionRecord)).
    revert Hle. case_bool_decide; lia.
Defined.

End LeaseExample.
