(* ===== verification/Hints.v ===== *)
(** * Change hints: one attempt and its retries

    [acdp-registry-core/src/hints.rs]: what one claimed subscription's turn
    decides, the retry schedule and the pass totals. The HTTP delivery, the
    serialization of the hint and its HMAC are inputs of the turn; the feed is
    read through the same [evaluate_changes] as [GET /changes]. *)

From S2P Require Import Prelude Errors ContextTypes ChangeBucket ChangeFeed FeedBackends Changes ChangesKey.
From S2P Require Import Subscriptions.

Open Scope registry_scope.

Definition CLAIM_BATCH : Z := 32.
Definition MAX_BATCHES_PER_PASS : nat := 64.
Definition ATTEMPT_TIMEOUT_MS : Z := 20000.
Definition RETRY_BASE_MS : Z := 60000.
Definition RETRY_CAP_MS : Z := 3600000.
Definition DISABLE_AFTER_MS : Z := 72 * 3600000.
Definition MAX_IN_FLIGHT : Z := 16.
Definition HINT_MIN_INTERVAL_MS : Z := 1000.

(** The compile-time assertion: a batch's rounds fit inside the lease. *)
Example batch_fits_lease :
  ((CLAIM_BATCH + MAX_IN_FLIGHT - 1) / MAX_IN_FLIGHT * ATTEMPT_TIMEOUT_MS < LEASE_MS)%Z.
Proof. reflexivity. Qed.

Definition retry_delay_ms (n : Z) : Z :=
  let shift := Z.min (u32_saturating_sub n 1) 16 in
  Z.min (Z.shiftl RETRY_BASE_MS shift) RETRY_CAP_MS.

Inductive Delivery : Type :=
  | DeliveryDelivered
  | DeliveryFailed (why : string)
  | DeliveryRefused (why : string).

Inductive HintOutcome : Type :=
  | HO_Delivered
  | HO_NothingVisible
  | HO_Failed
  | HO_SsrfRefused
  | HO_UnknownKey
  | HO_Disabled
  | HO_LeaseLost
  | HO_Error.

Record PassStats : Type := mkPassStats {
  ps_claimed : Z;
  ps_delivered : Z;
  ps_nothing_visible : Z;
  ps_failed : Z;
  ps_ssrf_refused : Z;
  ps_unknown_key : Z;
  ps_disabled : Z;
  ps_lease_lost : Z;
  ps_errors : Z
}.

(** [PassStats::add]. *)
Definition stats_add (s : PassStats) (o : HintOutcome) : PassStats :=
  let hit k := match k, o with
              | HO_Delivered, HO_Delivered | HO_NothingVisible, HO_NothingVisible
              | HO_Failed, HO_Failed | HO_SsrfRefused, HO_SsrfRefused
              | HO_UnknownKey, HO_UnknownKey | HO_Disabled, HO_Disabled
              | HO_LeaseLost, HO_LeaseLost | HO_Error, HO_Error => 1%Z
              | _, _ => 0%Z
              end in
  mkPassStats (ps_claimed s + 1) (ps_delivered s + hit HO_Delivered)
    (ps_nothing_visible s + hit HO_NothingVisible) (ps_failed s + hit HO_Failed)
    (ps_ssrf_refused s + hit HO_SsrfRefused) (ps_unknown_key s + hit HO_UnknownKey)
    (ps_disabled s + hit HO_Disabled) (ps_lease_lost s + hit HO_LeaseLost)
    (ps_errors s + hit HO_Error).

Definition failed_long_enough (since now_ms : Z) : bool := (DISABLE_AFTER_MS <=? now_ms - since)%Z.

Definition retry_or_disable (sub : SubscriptionRecord) (now_ms : Z) : SubscriptionProgress :=
  let failing_since := default now_ms (failing_since_ms sub) in
  let n := u32_saturating_add (attempts sub) 1 in
  if failed_long_enough failing_since now_ms then disabled sub now_ms
  else mkProgress (last_hinted_seq sub) Active (now_ms + retry_delay_ms n)%Z (Some failing_since) n.

(** [rsplit_once(':')], on bytes. *)
Fixpoint rsplit_colon (l : list Z) : option (list Z * list Z) :=
  match l with
  | [] => None
  | b :: l =>
      match rsplit_colon l with
      | Some (host, port) => Some (b :: host, port)
      | None => if (b =? 58)%Z then Some ([], l) else None
      end
  end.

Definition hint_authority (authority : string) : string :=
  match rsplit_colon (as_bytes authority) with
  | Some (host, port) =>
      if forallb (λ b, negb (b =? 58)%Z) host && forallb (λ b, (48 <=? b)%Z && (b <=? 57)%Z) port
      then from_bytes host else authority
  | None => authority
  end.

(** What the turn uses of the SDK. *)
Class HintSdk : Type := {
  (** [ChangeHint::new] and its serialization. *)
  hint_body : string → string → string → result (list Z) RegistryError;
  sign_hint : string → Z → list Z → string
}.

Section turn.
Context {S Env : Type} `{Hsdk : ChangeSdk} `{!ChangeFeed S Env} `{!ChangesStore S} `{!ChangesWire}.
Context `{!ChangesCrypto} `{!HintSdk}.

(** What a turn finds and is told: the stores its head read and its (up to two)
    evaluations see, the clock readings, the network. *)
Record HintEnv : Type := mkHintEnv {
  he_head : S;
  he_first : nat → S;
  he_again : nat → S;
  he_now : Z;
  he_sign_now : Z;
  he_done : Z;
  he_deliver : string → list Z → string → Delivery
}.

(** The configuration a turn reads. *)
Record HintConfig : Type := mkHintConfig { require_tenant : bool; authority : string }.

(** The progress of a failed attempt, with the outcome it reports. *)
Definition failed_turn (sub : SubscriptionRecord) (now_ms : Z) (o : HintOutcome) :
    SubscriptionProgress * HintOutcome :=
  let p := retry_or_disable sub now_ms in
  (p, if bool_decide (pr_status p = Disabled) then HO_Disabled else o).

(** The evaluation: from the row's position, or from the oldest retained entry
    when that was pruned. *)
Definition hint_evaluate (state : AppState ChangesKey) (env : HintEnv) (owner : string)
    (sub : SubscriptionRecord) : result ChangesResponse RegistryError :=
  let req since := mkRequest since 1 (sub_filter sub) in
  match evaluate_changes state (he_first env) (Some owner) (tenant_id sub)
          (req (Position (last_hinted_seq sub))) with
  | Ok (resp, _) => Ok resp
  | Err (RE_Acdp CursorExpired) =>
      let? r := evaluate_changes state (he_again env) (Some owner) (tenant_id sub) (req Oldest) in
      Ok r.1
  | Err e => Err e
  end.

(** [hint_one] up to its final write: the progress, the outcome, and the body and
    signature it handed to [deliver], if it got that far. *)
Definition hint_decision (state : AppState ChangesKey) (cfg : HintConfig) (env : HintEnv)
    (sub : SubscriptionRecord) :
    result (SubscriptionProgress * HintOutcome * option (list Z * string)) RegistryError :=
  let key := st_key state in
  match agent_did_parse (owner_did sub) with
  | Err _ => Ok (disabled sub (he_now env), HO_Disabled, None)
  | Ok owner =>
      if require_tenant cfg && bool_decide (tenant_id sub = None) then
        Ok (disabled sub (he_now env), HO_Disabled, None)
      else
        let? feed := acdp (changes_head (he_head env)) in
        let? resp := hint_evaluate state env owner sub in
        if is_empty (resp_changes resp) then
          let? c := map_err (λ _, RE_Internal "hint worker: its own cursor does not decode")
                      (key_decode_cursor key (next_cursor resp)) in
          Ok (healthy (cursor_pos c) (he_now env), HO_NothingVisible, None)
        else
          match open_secret key (subscription_id sub) (secret_key_id sub) (secret_ct sub) with
          | Err SE_UnknownKey => Ok (failed_turn sub (he_now env) HO_UnknownKey, None)
          | Err _ => Ok (disabled sub (he_now env), HO_Disabled, None)
          | Ok secret =>
              let? body := hint_body (subscription_id sub) (hint_authority (authority cfg))
                             (head_cursor key feed) in
              let signature := sign_hint secret (he_sign_now env / 1000)%Z body in
              match he_deliver env (callback_url sub) body signature with
              | DeliveryDelivered =>
                  Ok (healthy (head feed) (he_done env + HINT_MIN_INTERVAL_MS)%Z, HO_Delivered,
                      Some (body, signature))
              | DeliveryFailed _ =>
                  Ok (failed_turn sub (he_done env) HO_Failed, Some (body, signature))
              | DeliveryRefused _ =>
                  Ok (failed_turn sub (he_done env) HO_SsrfRefused, Some (body, signature))
              end
          end
  end.

(** [hint_one]: the decision, written back under the row's lease. *)
Definition hint_one (d : Dialect) (state : AppState ChangesKey) (cfg : HintConfig) (env : HintEnv)
    (store : SubStore) (sub : SubscriptionRecord) : result HintOutcome RegistryError * SubStore :=
  let lease := default (he_now env + LEASE_MS)%Z (lease_until_ms sub) in
  match hint_decision state cfg env sub with
  | Err e => (Err e, store)
  | Ok (p, o, _) =>
      match finish_subscription_attempt d store (subscription_id sub) lease p with
      | (Ok true, store') => (Ok o, store')
      | (Ok false, store') => (Ok HO_LeaseLost, store')
      | (Err e, store') => (Err (RE_Acdp e), store')
      end
  end.
(** What becomes of a spawned turn: it runs to its end, or it is cut off (by
    [ATTEMPT_TIMEOUT] or a panic), before or after its write landed. *)
Inductive TurnFate : Type :=
  | Ran (env : HintEnv)
  | CutOff (env : HintEnv) (landed : bool).

(** One spawned task of a batch, and its outcome. *)
Definition run_turn (d : Dialect) (state : AppState ChangesKey) (cfg : HintConfig)
    (fate : SubscriptionRecord → TurnFate) (acc : PassStats * SubStore)
    (sub : SubscriptionRecord) : PassStats * SubStore :=
  let '(stats, store) := acc in
  match fate sub with
  | Ran env =>
      let '(r, store') := hint_one d state cfg env store sub in
      (stats_add stats (match r with Ok o => o | Err _ => HO_Error end), store')
  | CutOff env landed =>
      (stats_add stats HO_Error,
       if landed then (hint_one d state cfg env store sub).2 else store)
  end.

(** One round of the pass: whether it was told to stop, the feed it reads, the
    clock, the order the rows come in, the tasks' fates and the order they end in. *)
Record BatchEnv : Type := mkBatchEnv {
  be_stop : bool;
  be_feed : S;
  be_now : Z;
  be_iter : list string;
  be_fate : SubscriptionRecord → TurnFate;
  be_ends : list SubscriptionRecord → list SubscriptionRecord
}.

Fixpoint hint_batches (fuel : nat) (d : Dialect) (state : AppState ChangesKey) (cfg : HintConfig)
    (env : nat → BatchEnv) (i : nat) (stats : PassStats) (store : SubStore) :
    result PassStats RegistryError * SubStore :=
  match fuel with
  | O => (Ok stats, store)
  | Datatypes.S fuel =>
      let b := env i in
      if be_stop b then (Ok stats, store)
      else
        match acdp (changes_head (be_feed b)) with
        | Err e => (Err e, store)
        | Ok feed =>
            match claim_due_subscriptions d (be_iter b) store (be_now b) (head feed)
                    (be_now b + LEASE_MS) CLAIM_BATCH with
            | (Err e, store) => (Err (RE_Acdp e), store)
            | (Ok claimed, store) =>
                let '(stats, store) :=
                  fold_left (run_turn d state cfg (be_fate b)) (be_ends b claimed) (stats, store) in
                if (Z.of_nat (length claimed) <? CLAIM_BATCH)%Z then (Ok stats, store)
                else hint_batches fuel d state cfg env (Datatypes.S i) stats store
            end
        end
  end.

(** [run_hint_pass_with]; [None] is a registry with no [changes] key. *)
Definition run_hint_pass_with (d : Dialect) (state : option (AppState ChangesKey))
    (cfg : HintConfig) (env : nat → BatchEnv) (store : SubStore) :
    result PassStats RegistryError * SubStore :=
  match state with
  | None => (Ok (mkPassStats 0 0 0 0 0 0 0 0 0), store)
  | Some state =>
      hint_batches MAX_BATCHES_PER_PASS d state cfg env 0 (mkPassStats 0 0 0 0 0 0 0 0 0) store
  end.
End turn.

(** ** What a turn's position means *)

Section positions.
Context {S Env : Type} `{Hsdk : ChangeSdk} `{!ChangeFeed S Env} `{!FeedContract S Env}.
Context `{!ChangesStore S} `{!ChangesWire} `{!ChangesCrypto} `{!CryptoLaws} `{!HintSdk}.
Context (state : AppState ChangesKey).

(** The deployment: keys, grammar, sizes. *)
Record deployment : Prop := {
  dp_key : key_wf (st_key state);
  dp_digest : digest_wf;
  dp_grammar : bucket_grammar validate_buckets;
  dp_rows : (0 ≤ changes_min_scan_rows state ≤ u32_max)%Z
}.

(** A successful evaluation from a position served what was due from there. *)
Lemma evaluate_ok_inv requester tenant may_see store_at a_at req resp n :
  deployment → request_world state requester tenant may_see store_at a_at →
  (0 < req_limit req)%Z → req_since req ≠ SinceHead →
  (is_checked (req_since req) = true ∨ mark (a_at request_end) ≤ mark (a_at 0%nat))%Z →
  evaluate_changes state store_at requester tenant req = Ok (resp, n) →
  ∃ p0 base p,
    start_position store_at (a_head (a_at 0)) (req_since req) = Ok (Some p0) ∧
    base_query state store_at requester tenant req p0 = Ok base ∧
    (p0 ≤ p)%Z ∧ entries (due may_see base (a_at request_end) p0 p) (resp_changes resp) ∧
    key_decode_cursor (st_key state) (next_cursor resp) = Ok (mkDecoded p
      (cursor_anchor (match key_decode_cursor (st_key state) (next_cursor resp) with
                      | Ok c => c | Err _ => mkDecoded 0 (mkAnchor 0 []) end))).
Proof.
  intros Hdp Hw Hlim Hsince Hcheck He.
  pose proof (world_wf state requester tenant may_see _ _ Hw) as Hwf.
  assert (Hhead : changes_head (store_at 0) = Ok (a_head (a_at 0)))
    by exact (rep_head _ _ (rw_rep _ _ _ _ _ _ Hw 0)).
  destruct (start_position store_at (a_head (a_at 0)) (req_since req)) as [[p0|]|e] eqn:Hstart.
  2:{ destruct (req_since req); simpl in Hstart; [done|done| |].
      - destruct (_ || _) in Hstart; [done|].
        destruct (anchor_holds _ _ _) as [[|]|]; simpl in Hstart; done.
      - destruct (_ || _) in Hstart; done. }
  2:{ unfold evaluate_changes in He. rewrite Hhead in He. cbn [acdp map_err and_then] in He.
      by rewrite Hstart in He. }
  destruct (base_query state store_at requester tenant req p0) as [base|e] eqn:Hb.
  2:{ unfold evaluate_changes in He. rewrite Hhead in He. cbn [acdp map_err and_then] in He.
      rewrite Hstart in He. cbn [and_then] in He. by rewrite Hb in He. }
  pose proof (start_position_bounds state requester tenant may_see _ _ Hw _ _ Hstart) as Hp0.
  destruct (evaluate_changes_spec state requester tenant may_see _ _ Hw req p0 base
              (dp_grammar Hdp) (dp_rows Hdp) Hlim Hstart Hb) as
    [(resp' & n' & p & j & He' & Hc & _ & Hp & Hent & _)|(_ & _ & He')].
  - destruct Hcheck as [?|?]; [by left|right; lia].
  - rewrite He in He'. unfold answered in He'. destruct (response_validate resp'); [|done].
    injection He' as <- <-. exists p0, base, p. split_and!; [done|done|lia|done|].
    pose proof (mark_le_top _ (Hwf 0)) as Hm.
    rewrite Hc. change (encode_cursor (st_key state)) with (key_encode_cursor (st_key state)).
    rewrite (key_codec_roundtrip _ p); [done|apply (dp_key Hdp)|].
    apply issued_cursor_values; [apply (dp_digest Hdp)|apply Hwf|lia].
  - by rewrite He in He'.
Qed.

(** A failed turn keeps the position, and reports a failure. *)
Lemma failed_turn_keeps sub now o (P Q : Prop) :
  o ≠ HO_Delivered → o ≠ HO_NothingVisible →
  match (failed_turn sub now o).2 with
  | HO_Delivered => P
  | HO_NothingVisible => Q
  | _ => pr_last_hinted_seq (failed_turn sub now o).1 = last_hinted_seq sub
  end.
Proof.
  intros. unfold failed_turn, retry_or_disable.
  destruct (failed_long_enough _ _); simpl; [done|]. by destruct o.
Qed.

(** The world a turn runs in: its owner's view of the feed at each of its reads. *)
Record turn_world (env : HintEnv) (owner : string) (tenant : option string)
    (may_see : string → bool) (a_head_at : AFeed) (a_first a_again : nat → AFeed) : Prop := {
  tw_head : feed_rep (he_head env) a_head_at;
  tw_first : request_world state (Some owner) tenant may_see (he_first env) a_first;
  tw_again : request_world state (Some owner) tenant may_see (he_again env) a_again;
  tw_steady : (mark (a_again request_end) ≤ mark (a_again 0%nat))%Z
}.

(** Where a turn looked, and with which query: from its position, or, that being
    pruned, from the oldest retained entry. *)
Inductive looked (env : HintEnv) (owner : string) (sub : SubscriptionRecord)
    (a_first a_again : nat → AFeed) : AFeed → FeedQuery → Z → Prop :=
  | looked_first base :
      base_query state (he_first env) (Some owner) (tenant_id sub)
        (mkRequest (Position (last_hinted_seq sub)) 1 (sub_filter sub)) (last_hinted_seq sub)
        = Ok base →
      looked env owner sub a_first a_again (a_first request_end) base (last_hinted_seq sub)
  | looked_again base :
      evaluate_changes state (he_first env) (Some owner) (tenant_id sub)
        (mkRequest (Position (last_hinted_seq sub)) 1 (sub_filter sub)) =
        Err (RE_Acdp CursorExpired) →
      base_query state (he_again env) (Some owner) (tenant_id sub)
        (mkRequest Oldest 1 (sub_filter sub)) (mark (a_again 0%nat)) = Ok base →
      looked env owner sub a_first a_again (a_again request_end) base (mark (a_again 0%nat)).

(** What [hint_evaluate] answers is what was due where it looked. *)
Lemma hint_evaluate_inv env owner sub may_see a0 a_first a_again resp :
  deployment → turn_world env owner (tenant_id sub) may_see a0 a_first a_again →
  hint_evaluate state env owner sub = Ok resp →
  ∃ a base p0 p c,
    looked env owner sub a_first a_again a base p0 ∧ (p0 ≤ p)%Z ∧
    entries (due may_see base a p0 p) (resp_changes resp) ∧
    key_decode_cursor (st_key state) (next_cursor resp) = Ok c ∧ cursor_pos c = p.
Proof.
  intros Hdp [Hh Hw1 Hw2 Hsteady]. unfold hint_evaluate. cbv zeta beta.
  destruct (evaluate_changes state (he_first env) (Some owner) (tenant_id sub)
              (mkRequest (Position (last_hinted_seq sub)) 1 (sub_filter sub)))
    as [[r1 n1]|e1] eqn:He1.
  - intros Heq. injection Heq as <-.
    apply (evaluate_ok_inv _ _ _ _ _ _ _ _ Hdp Hw1) in He1 as
      (p0 & base & p & Hs & Hb & Hp & Hent & Hdec); [|done|done|by left].
    simpl in Hs. destruct (_ || _) in Hs; [done|]. injection Hs as <-.
    do 5 eexists. split_and!; [by apply looked_first|done|done|by rewrite Hdec|done].
  - destruct e1 as [[]| | | | | | | | | |]; try discriminate.
    destruct (evaluate_changes state (he_again env) (Some owner) (tenant_id sub)
                (mkRequest Oldest 1 (sub_filter sub))) as [[r2 n2]|e2] eqn:He2;
      cbn [and_then]; [|discriminate].
    intros Heq. injection Heq as <-.
    apply (evaluate_ok_inv _ _ _ _ _ _ _ _ Hdp Hw2) in He2 as
      (p0 & base & p & Hs & Hb & Hp & Hent & Hdec); [|done|done|by right].
    cbn [req_since start_position] in Hs. rewrite (proj1 (a_head_pruned _)) in Hs.
    injection Hs as <-.
    do 5 eexists. split_and!; [by apply looked_again|done|done|by rewrite Hdec|done].
Qed.

(** What a subscription's new position means. A hint handed to delivery always
    follows a change its owner may see and had not been hinted of, and carries the
    cursor of the head read before looking; a delivered one moves the row to exactly
    that head, so nothing appended later is skipped. A row that advanced without a
    hint advanced over nothing its owner was due. Every other end keeps the position. *)
Theorem hint_position_skips_nothing (cfg : HintConfig) (env : HintEnv)
    (sub : SubscriptionRecord) (owner : string) (may_see : string → bool)
    (a0 : AFeed) (a_first a_again : nat → AFeed)
    (p : SubscriptionProgress) (o : HintOutcome) (sent : option (list Z * string)) :
  deployment → agent_did_parse (owner_did sub) = Ok owner →
  turn_world env owner (tenant_id sub) may_see a0 a_first a_again →
  hint_decision state cfg env sub = Ok (p, o, sent) →
  (∀ body sig, sent = Some (body, sig) →
     hint_body (subscription_id sub) (hint_authority (authority cfg))
       (head_cursor (st_key state) (a_head a0)) = Ok body ∧
     ∃ a base p0 p1, looked env owner sub a_first a_again a base p0 ∧
       due may_see base a p0 p1 ≠ []) ∧
  match o with
  | HO_Delivered => pr_last_hinted_seq p = top a0 ∧ sent ≠ None
  | HO_NothingVisible =>
      sent = None ∧ ∃ a base p0, looked env owner sub a_first a_again a base p0 ∧
        (p0 ≤ pr_last_hinted_seq p)%Z ∧
        due may_see base a p0 (pr_last_hinted_seq p) = []
  | _ => pr_last_hinted_seq p = last_hinted_seq sub
  end.
Proof.
  intros Hdp Hown Hw. unfold hint_decision. rewrite Hown.
  destruct (require_tenant cfg && _); [intros [= <- <- <-]; by split|].
  rewrite (rep_head _ _ (tw_head _ _ _ _ _ _ _ Hw)). cbn [acdp map_err and_then].
  destruct (hint_evaluate state env owner sub) as [resp|] eqn:Hev; cbn [and_then]; [|discriminate].
  destruct (hint_evaluate_inv _ _ _ _ _ _ _ _ Hdp Hw Hev) as
    (a & base & p0 & p1 & c & Hlook & Hle & Hent & Hdec & Hpos).
  destruct (resp_changes resp) as [|ch l] eqn:Hch; cbn [is_empty].
  - rewrite Hdec. cbn [map_err and_then]. intros [= <- <- <-]. split; [done|].
    split; [done|]. exists a, base, p0. simpl. rewrite Hpos. split_and!; [done|done|].
    by apply Forall2_nil_inv_r in Hent.
  - assert (due may_see base a p0 p1 ≠ []) as Hdue by (intros Hd; rewrite Hd in Hent; inversion Hent).
    destruct (open_secret _ _ _ _) as [secret|[]]; try (intros [= <- <- <-]; by split).
    + destruct (hint_body _ _ _) as [body|] eqn:Hbody; cbn [and_then]; [|discriminate].
      destruct (he_deliver _ _ _ _); intros [= <- <- <-].
      all: split; [intros ?? [= <- <-]; split; [done|by exists a, base, p0, p1]|].
      * split; [|done]. simpl. apply a_head_top. by eapply rep_wf, tw_head.
      * by apply failed_turn_keeps.
      * by apply failed_turn_keeps.
    + intros [= <- <- <-]. split; [done|]. by apply failed_turn_keeps.
Qed.
End positions.

(** ** The retry schedule *)

Lemma retry_delay_bounds n : (RETRY_BASE_MS ≤ retry_delay_ms n ≤ RETRY_CAP_MS)%Z.
Proof.
  unfold retry_delay_ms, u32_saturating_sub, RETRY_BASE_MS, RETRY_CAP_MS.
  rewrite Z.shiftl_mul_pow2; [|lia].
  assert (0 < 2 ^ Z.min (Z.max 0 (n - 1)) 16)%Z by (apply Z.pow_pos_nonneg; lia). lia.
Qed.

(** The delays after the first [k] failures, added up. *)
Fixpoint delays (k : nat) : Z :=
  match k with O => 0 | S k => delays k + retry_delay_ms (Z.of_nat (S k)) end%Z.

Lemma delays_mono k k' : k ≤ k' → (delays k ≤ delays k')%Z.
Proof.
  induction 1 as [|m Hm IH]; [done|]. etrans; [exact IH|].
  change (delays (S m)) with (delays m + retry_delay_ms (Z.of_nat (S m)))%Z.
  pose proof (retry_delay_bounds (Z.of_nat (S m))). unfold RETRY_BASE_MS in *. lia.
Qed.

(** How a backend keeps small numbers. *)
Definition keeps_small (d : Dialect) : Prop :=
  (∀ n, (n ≤ i32_max)%Z → store_attempts d n = n) ∧ (∀ n, (n ≤ i64_max)%Z → store_seq d n = n).

Lemma dialects_keep_small :
  Forall keeps_small [memory_dialect; sqlite_dialect; pg_dialect].
Proof.
  repeat constructor; simpl; unfold i64_or_max; try done; intros n Hn;
    try (case_match; bool_to_prop; lia).
Qed.

Section schedule.
Context (d : Dialect) (Hd : keeps_small d).

(** A row failing over and over: [failing_run r0 t0 n t r] when [r0]'s first
    failure was written at [t0], its [n]-th, the last, at [t], and left [r]. Every
    attempt but the first was claimed once it was due. *)
Inductive failing_run (r0 : SubscriptionRecord) (t0 : Z) : nat → Z → SubscriptionRecord → Prop :=
  | fr_first :
      status r0 = Active → failing_since_ms r0 = None → attempts r0 = 0%Z →
      failing_run r0 t0 1 t0 (finished_row d (retry_or_disable r0 t0) r0)
  | fr_next n t r claimed_at feed_head t' :
      failing_run r0 t0 n t r → is_due d claimed_at feed_head r = true → (claimed_at ≤ t')%Z →
      failing_run r0 t0 (S n) t' (finished_row d (retry_or_disable r t') r).

Record failing_inv (r0 : SubscriptionRecord) (t0 : Z) (n : nat) (t : Z) (r : SubscriptionRecord) :
    Prop := {
  fi_active : status r = Active →
    failing_since_ms r = Some t0 ∧ (t - t0 < DISABLE_AFTER_MS)%Z ∧ attempts r = Z.of_nat n ∧
    next_attempt_at_ms r = (t + retry_delay_ms (Z.of_nat n))%Z;
  fi_disabled : status r = Disabled → (DISABLE_AFTER_MS ≤ t - t0)%Z;
  fi_elapsed : (delays (pred n) ≤ t - t0)%Z;
  fi_count : n ≠ O ∧ n ≤ 78;
  fi_position : last_hinted_seq r = last_hinted_seq r0
}.

(** A run still active is short of 72 hours, so has under 78 failures. *)
Lemma failing_inv_short r0 t0 n t r :
  failing_inv r0 t0 n t r → status r = Active → n ≤ 77.
Proof.
  intros Hi Ha. destruct (decide (n ≤ 77)) as [|Hn]; [done|].
  assert (delays 77 ≤ delays (pred n))%Z by (apply delays_mono; lia).
  assert (DISABLE_AFTER_MS ≤ delays 77)%Z by (vm_compute; discriminate).
  pose proof (fi_elapsed _ _ _ _ _ Hi). destruct (fi_active _ _ _ _ _ Hi Ha) as (_ & ? & _). lia.
Qed.

Lemma failing_run_inv r0 t0 n t r :
  (last_hinted_seq r0 ≤ i64_max)%Z → failing_run r0 t0 n t r → failing_inv r0 t0 n t r.
Proof.
  intros Hp. destruct Hd as [Hatt Hseq].
  induction 1 as [Ha Hf Hn|n t r tc h t' Hrun IH Hdue Hc].
  - unfold retry_or_disable. rewrite Hf Hn. cbn [default from_option id].
    assert (failed_long_enough t0 t0 = false) as ->.
    { unfold failed_long_enough. rewrite Z.sub_diag. reflexivity. }
    split; simpl; [|done|lia|lia|by apply Hseq].
    intros _. split_and!; [done|rewrite Z.sub_diag; reflexivity|by apply Hatt|done].
  - unfold is_due in Hdue. rewrite !andb_true_iff in Hdue. destruct Hdue as [[[Ha Hnext] _] _].
    apply bool_decide_eq_true in Ha. apply Z.leb_le in Hnext. pose proof (failing_inv_short _ _ _ _ _ IH Ha) as Hshort.
    destruct (fi_active _ _ _ _ _ IH Ha) as (Hf & Hlt & Hn & Hna).
    assert (Hel : (delays n ≤ t' - t0)%Z).
    { pose proof (fi_elapsed _ _ _ _ _ IH). pose proof (fi_count _ _ _ _ _ IH) as [? _].
      destruct n as [|m]; [done|]. cbn [delays]. simpl pred in *. lia. }
    pose proof (fi_position _ _ _ _ _ IH) as Hpos.
    unfold retry_or_disable. rewrite Hf Hn Hpos. cbn [default from_option id].
    assert (Hsn : u32_saturating_add (Z.of_nat n) 1 = Z.of_nat (S n)).
    { unfold u32_saturating_add, u32_max. lia. }
    rewrite Hsn. destruct (failed_long_enough t0 t') eqn:Hlong; unfold failed_long_enough in Hlong;
      bool_to_prop.
    + split; simpl; [done|lia|lia|lia|by rewrite Hpos; apply Hseq].
    + split; simpl; [|done|lia|lia|by apply Hseq].
      intros _. split_and!; [done|lia|apply Hatt; unfold i32_max; lia|done].
Qed.

(** The life of a failing subscription. While it stays active its failures are
    counted from the first, each retry waits one to sixty minutes more, never less
    than the one before, and it has failed under 72 hours and at most 77 times; it is
    disabled only once 72 hours have passed since the first failure, and by the 78th
    failure at the latest. Its position never moves. *)
Theorem failing_subscription_schedule (r0 r : SubscriptionRecord) (t0 t : Z) (n : nat) :
  (last_hinted_seq r0 ≤ i64_max)%Z → failing_run r0 t0 n t r →
  n ≤ 78 ∧ last_hinted_seq r = last_hinted_seq r0 ∧
  match status r with
  | Active =>
      failing_since_ms r = Some t0 ∧ attempts r = Z.of_nat n ∧ n ≤ 77 ∧
      (t - t0 < DISABLE_AFTER_MS)%Z ∧
      (t + RETRY_BASE_MS ≤ next_attempt_at_ms r ≤ t + RETRY_CAP_MS)%Z ∧
      next_attempt_at_ms r = (t + Z.min (RETRY_BASE_MS * 2 ^ Z.of_nat (Nat.min (pred n) 16)) RETRY_CAP_MS)%Z
  | Disabled => (DISABLE_AFTER_MS ≤ t - t0)%Z
  end.
Proof.
  intros Hp Hrun. pose proof (failing_run_inv _ _ _ _ _ Hp Hrun) as Hi.
  split_and!; [apply (fi_count _ _ _ _ _ Hi)|apply (fi_position _ _ _ _ _ Hi)|].
  destruct (status r) eqn:Hs; [|exact (fi_disabled _ _ _ _ _ Hi Hs)].
  destruct (fi_active _ _ _ _ _ Hi Hs) as (Hf & Hlt & Hn & Hna).
  pose proof (failing_inv_short _ _ _ _ _ Hi Hs). pose proof (retry_delay_bounds (Z.of_nat n)).
  pose proof (fi_count _ _ _ _ _ Hi) as [Hn0 _].
  split_and!; [done|done|done|done|lia|lia|]. rewrite Hna. unfold retry_delay_ms, u32_saturating_sub.
  rewrite Z.shiftl_mul_pow2; [|lia]. do 3 f_equal. lia.
Qed.
End schedule.

(** ** A whole pass *)

(** What a subscription is, apart from its delivery state. *)
Definition identity (r : SubscriptionRecord) :=
  (subscription_id r, owner_did r, tenant_id r, sub_filter r, callback_url r, secret_ct r,
   secret_key_id r, created_at_ms r).

(** From [m] to [m']: no row comes, goes or changes what it is, and the rows
    [P] holds of are untouched. *)
Definition rows_kept (P : string → SubscriptionRecord → Prop)
    (m m' : gmap string SubscriptionRecord) : Prop :=
  ∀ id, identity <$> m' !! id = identity <$> m !! id ∧
    ∀ r, m !! id = Some r → P id r → m' !! id = Some r.

Lemma rows_kept_refl P m : rows_kept P m m.
Proof. done. Qed.

Lemma rows_kept_trans P m1 m2 m3 : rows_kept P m1 m2 → rows_kept P m2 m3 → rows_kept P m1 m3.
Proof.
  intros H1 H2 id. destruct (H1 id) as [E1 K1], (H2 id) as [E2 K2]. split; [congruence|].
  intros r Hr HP. apply K2; [by apply K1|done].
Qed.

Lemma rows_kept_insert P m id r r' :
  m !! id = Some r → identity r' = identity r → ¬ P id r → rows_kept P m (<[id := r']> m).
Proof.
  intros Hr Hi HP i. rewrite lookup_insert. case_decide as Hd; [subst i|done].
  rewrite Hr. split; [by simpl; rewrite Hi|]. intros ? [= <-] ?. done.
Qed.

(** Every claimed turn is counted once. *)
Definition accounted (s : PassStats) : Prop :=
  ps_claimed s = (ps_delivered s + ps_nothing_visible s + ps_failed s + ps_ssrf_refused s +
    ps_unknown_key s + ps_disabled s + ps_lease_lost s + ps_errors s)%Z.

Lemma stats_add_accounted s o :
  accounted s → accounted (stats_add s o) ∧ ps_claimed (stats_add s o) = (ps_claimed s + 1)%Z.
Proof. unfold accounted. destruct s, o; simpl; lia. Qed.

Section pass.
Context {S Env : Type} `{Hsdk : ChangeSdk} `{!ChangeFeed S Env} `{!ChangesStore S} `{!ChangesWire}.
Context `{!ChangesCrypto} `{!HintSdk}.
Context (d : Dialect) (state : AppState ChangesKey) (cfg : HintConfig).

(** A turn writes its own row only. *)
Lemma hint_one_rows (env : HintEnv) store sub :
  rows_kept (λ id _, id ≠ subscription_id sub) (subs store)
    (subs (hint_one d state cfg env store sub).2).
Proof.
  unfold hint_one. destruct (hint_decision _ _ _ _) as [[[p o] sent]|]; [|done].
  unfold finish_subscription_attempt. destruct (negb _); [done|].
  destruct (subs store !! _) as [r|] eqn:Hr; [|done]. case_bool_decide; [|done].
  apply (rows_kept_insert _ _ _ r); [done|done|]. intros Hn. by apply Hn.
Qed.

Lemma run_turn_spec fate stats store sub stats' store' :
  run_turn d state cfg fate (stats, store) sub = (stats', store') → accounted stats →
  accounted stats' ∧ ps_claimed stats' = (ps_claimed stats + 1)%Z ∧
  rows_kept (λ id _, id ≠ subscription_id sub) (subs store) (subs store').
Proof.
  unfold run_turn. intros Hrun Ha. destruct (fate sub) as [env|env landed].
  - pose proof (hint_one_rows env store sub) as Hrows.
    destruct (hint_one _ _ _ _ _ _) as [r s1]. injection Hrun as <- <-.
    split_and!; [by apply stats_add_accounted|by apply stats_add_accounted|exact Hrows].
  - injection Hrun as <- <-.
    split_and!; [by apply stats_add_accounted|by apply stats_add_accounted|].
    destruct landed; [apply hint_one_rows|done].
Qed.

Lemma run_turns_spec fate l stats store stats' store' :
  fold_left (run_turn d state cfg fate) l (stats, store) = (stats', store') → accounted stats →
  accounted stats' ∧ ps_claimed stats' = (ps_claimed stats + Z.of_nat (length l))%Z ∧
  rows_kept (λ id _, id ∉ map subscription_id l) (subs store) (subs store').
Proof.
  revert stats store. induction l as [|sub l IH]; intros stats store; cbn [fold_left].
  { intros [= <- <-] Ha. split; [done|]. split; [simpl; lia|done]. }
  destruct (run_turn d state cfg fate (stats, store) sub) as [s1 st1] eqn:Hrt.
  intros Hf Ha. destruct (run_turn_spec _ _ _ _ _ _ Hrt Ha) as (Ha1 & Hc1 & Hk1).
  destruct (IH _ _ Hf Ha1) as (Ha2 & Hc2 & Hk2). split_and!; [done|simpl; lia|].
  eapply rows_kept_trans; intros id; [destruct (Hk1 id) as [E K]|destruct (Hk2 id) as [E K]];
    (split; [exact E|]); intros r Hr Hin; apply (K r Hr); set_solver.
Qed.

(** The claim only touches active rows, and only their lease. *)
Lemma claim_rows iter s now h lease lim claimed s' :
  NoDup iter → keyed (subs s) →
  claim_due_subscriptions d iter s now h lease lim = (Ok claimed, s') →
  keyed (subs s') ∧ (Z.of_nat (length claimed) ≤ Z.max 0 lim)%Z ∧
  rows_kept (λ _ r, status r = Disabled) (subs s) (subs s') ∧
  (∀ id r, subs s !! id = Some r → status r = Disabled → id ∉ map subscription_id claimed).
Proof.
  intros Hn Hk Hc. destruct (claim_spec _ _ _ _ _ _ _ _ _ Hn Hk Hc) as (Hnd & Hk' & Hin & Hout).
  assert (Hact : ∀ id r, subs s !! id = Some r → status r = Disabled →
                   id ∉ map subscription_id claimed).
  { intros id r Hr Hs (r' & -> & Hr')%list_elem_of_fmap.
    destruct (Hin r' Hr') as (x & Hx & Hdue & _). simplify_eq.
    unfold is_due in Hdue. by rewrite Hs in Hdue. }
  split_and!; [done| | |done].
  - unfold claim_due_subscriptions in Hc. destruct (negb _); [done|]. injection Hc as <- _.
    unfold claimable. rewrite length_map length_take. lia.
  - intros id. destruct (decide (id ∈ map subscription_id claimed)) as [Hi|Hi].
    + pose proof Hi as Hi'. apply list_elem_of_fmap in Hi' as (r' & -> & Hr').
      destruct (Hin r' Hr') as (x & Hx & _ & -> & ->). rewrite Hx. split; [done|].
      intros r [= <-] Hs. by destruct (Hact _ _ Hx Hs).
    + by rewrite Hout.
Qed.

Lemma rows_kept_keyed P m m' : rows_kept P m m' → keyed m → keyed m'.
Proof.
  intros Hkept Hk id r Hr. destruct (Hkept id) as [E _]. rewrite Hr in E.
  destruct (m !! id) as [x|] eqn:Hx; [|done]. simpl in E.
  assert (subscription_id r = subscription_id x) as -> by (unfold identity in E; congruence).
  by apply Hk.
Qed.

(** Rounds that end and read as the code's do. *)
Definition fair_rounds (env : nat → @BatchEnv S) : Prop :=
  ∀ i, NoDup (be_iter (env i)) ∧ ∀ l, be_ends (env i) l ≡ₚ l.

Lemma hint_batches_spec env fuel i stats store r store' :
  fair_rounds env → keyed (subs store) → accounted stats →
  hint_batches fuel d state cfg env i stats store = (r, store') →
  rows_kept (λ _ r, status r = Disabled) (subs store) (subs store') ∧
  ∀ s, r = Ok s → accounted s ∧
    (ps_claimed stats ≤ ps_claimed s ≤ ps_claimed stats + CLAIM_BATCH * Z.of_nat fuel)%Z.
Proof.
  intros Hfair. revert i stats store.
  induction fuel as [|fuel IH]; intros i stats store Hk Ha; cbn [hint_batches].
  { intros [= <- <-]. split; [done|]. intros s [= <-]. split; [done|lia]. }
  destruct (be_stop (env i)).
  { intros [= <- <-]. split; [done|]. intros s [= <-]. split; [done|]. unfold CLAIM_BATCH. lia. }
  destruct (acdp _) as [feed|e]; [|by intros [= <- <-]].
  destruct (claim_due_subscriptions _ _ _ _ _ _ _) as [[claimed|e] s1] eqn:Hc.
  2:{ intros [= <- <-]. split; [|done]. revert Hc. unfold claim_due_subscriptions.
      by destruct (negb _); [intros [= _ <-]|]. }
  destruct (Hfair i) as [Hit Hends].
  destruct (claim_rows _ _ _ _ _ _ _ _ Hit Hk Hc) as (Hk1 & Hlen & Hkept & Hact).
  destruct (fold_left _ _ _) as [st2 s2] eqn:Hf.
  destruct (run_turns_spec _ _ _ _ _ _ Hf Ha) as (Ha2 & Hc2 & Hk2).
  rewrite (Permutation_length (Hends claimed)) in Hc2.
  assert (Hkept2 : rows_kept (λ _ r, status r = Disabled) (subs store) (subs s2)).
  { intros id. destruct (Hkept id) as [E1 K1], (Hk2 id) as [E2 K2]. split; [congruence|].
    intros row Hrow Hs. apply K2; [by apply K1|]. rewrite (Hends claimed). by apply (Hact id row). }
  unfold CLAIM_BATCH in *. destruct (_ <? _)%Z.
  - intros [= <- <-]. split; [done|]. intros s [= <-]. split; [done|lia].
  - intros Hb. destruct (IH (Datatypes.S i) st2 s2) as [Hrows Hst]; [|done|done|].
    { by eapply rows_kept_keyed. }
    split; [by eapply rows_kept_trans|]. intros s Hs. destruct (Hst s Hs) as [? ?]. split; [done|lia].
Qed.
End pass.

(** A delivery pass is bounded and accounts for every row it claims: it claims at
    most 32 rows 64 times, its totals add up to the rows claimed, it neither creates
    nor deletes a subscription nor changes whose it is, what it watches or where it
    delivers, and it leaves disabled subscriptions exactly as they were. *)
Theorem hint_pass_accounts {S Env : Type} `{Hsdk : ChangeSdk} `{!ChangeFeed S Env}
    `{!ChangesStore S} `{!ChangesWire} `{!ChangesCrypto} `{!HintSdk}
    (d : Dialect) (state : option (AppState ChangesKey)) (cfg : HintConfig)
    (env : nat → @BatchEnv S) (store store' : SubStore) (r : result PassStats RegistryError) :
  fair_rounds env → keyed (subs store) →
  run_hint_pass_with d state cfg env store = (r, store') →
  (∀ s, r = Ok s → accounted s ∧ (0 ≤ ps_claimed s ≤ 2048)%Z) ∧
  ∀ id, identity <$> subs store' !! id = identity <$> subs store !! id ∧
    ∀ row, subs store !! id = Some row → status row = Disabled → subs store' !! id = Some row.
Proof.
  intros Hfair Hk. unfold run_hint_pass_with. destruct state as [state|].
  - intros Hb. apply hint_batches_spec in Hb as [Hrows Hst]; [|done|done|reflexivity].
    split; [|exact Hrows]. intros s Hs. destruct (Hst s Hs) as [Ha Hc]. split; [done|].
    simpl in Hc. unfold CLAIM_BATCH, MAX_BATCHES_PER_PASS in Hc. lia.
  - intros [= <- <-]. split; [|done]. intros s [= <-]. split; [reflexivity|]. simpl. lia.
Qed.

Module HintExample.

Import FeedExample ChangesExample.

#[local] Existing Instance toy_sdk.
#[local] Existing Instance toy_crypto.
#[local] Existing Instance toy_laws.
#[local] Existing Instance toy_store.
#[local] Existing Instance toy_wire.

#[local] Instance toy_hint : HintSdk := {
  hint_body := λ _ _ cursor, Ok (as_bytes cursor);
  sign_hint := λ _ _ _, "v1=sig"
}.

Lemma toy_world_as requester tenant :
  request_world toy_state requester tenant toy_sees (λ _, mem1) (λ _, feed1).
Proof.
  split.
  - intros _. apply mem1_rep.
  - done.
  - intros _ r Hr. apply list_elem_of_singleton in Hr. subst r. by eexists.
  - intros _ r [[n lin] who] _ _. by eexists.
  - intros c. by eexists.
  - intros _ ids. eexists. split; [done|]. intros id. rewrite elem_of_list_to_set /toy_sees.
    naive_solver.
Qed.

Definition sealed1 : list Z := replicate 12 4%Z ++ as_bytes "s3cret" ++ replicate TAG_LEN 0%Z.

(** A subscription that has seen nothing of [feed1]. *)
Definition sub1 : SubscriptionRecord :=
  mkSubscription "sub-1" "did:web:o" None no_filter "https://o.example/hook" sealed1 3 Active 0 0 0
    None 0 None.

Definition env1 : HintEnv :=
  mkHintEnv mem1 (λ _, mem1) (λ _, mem1) 10 11 12 (λ _ _ _, DeliveryDelivered).

Definition cfg1 : HintConfig := mkHintConfig false "reg.example:8443".

Lemma toy_deployment : deployment toy_state.
Proof.
  split; [exact toy_key_wf|exact toy_sha256_bytes|exact toy_grammar|].
  unfold u32_max. simpl. unfold MIN_SCAN_ROWS. lia.
Qed.

Lemma env1_world : turn_world toy_state env1 "did:web:o" None toy_sees feed1 (λ _, feed1) (λ _, feed1).
Proof. split; [apply mem1_rep|apply toy_world_as|apply toy_world_as|reflexivity]. Qed.

Example turn1 :
  hint_decision toy_state cfg1 env1 sub1 =
    Ok (healthy 1 1012, HO_Delivered,
        Some (as_bytes (head_cursor toy_key (a_head feed1)), "v1=sig")).
Proof. vm_compute. reflexivity. Qed.

Lemma hint_position_skips_nothing_witness :
  (∀ body sig, Some (as_bytes (head_cursor toy_key (a_head feed1)), "v1=sig") = Some (body, sig) →
     hint_body "sub-1" (hint_authority (authority cfg1)) (head_cursor toy_key (a_head feed1)) =
       Ok body ∧
     ∃ a base p0 p1,
       looked toy_state env1 "did:web:o" sub1 (λ _, feed1) (λ _, feed1) a base p0 ∧
       due toy_sees base a p0 p1 ≠ []) ∧
  pr_last_hinted_seq (healthy 1 1012) = top feed1 ∧
  Some (as_bytes (head_cursor toy_key (a_head feed1)), "v1=sig") ≠ None.
Proof.
  apply (@hint_position_skips_nothing MemoryFeed Z toy_sdk memory_change_feed memory_feed_contract
           toy_store toy_wire toy_crypto toy_laws toy_hint toy_state cfg1 env1 sub1 "did:web:o"
           toy_sees feed1 (λ _, feed1) (λ _, feed1) (healthy 1 1012) HO_Delivered).
  - exact toy_deployment.
  - reflexivity.
  - exact env1_world.
  - vm_compute. reflexivity.
Defined.

Lemma memory_keeps_small : keeps_small memory_dialect.
Proof. split; done. Qed.

(** The row after its failures at 100 and at 60200. *)
Definition failed_once : SubscriptionRecord :=
  finished_row memory_dialect (retry_or_disable sub1 100) sub1.
Definition failed_twice : SubscriptionRecord :=
  finished_row memory_dialect (retry_or_disable failed_once 60200) failed_once.

Lemma failing_subscription_schedule_witness :
  2 ≤ 78 ∧ last_hinted_seq failed_twice = 0%Z ∧
  failing_since_ms failed_twice = Some 100%Z ∧ attempts failed_twice = 2%Z ∧ 2 ≤ 77 ∧
  (60200 - 100 < DISABLE_AFTER_MS)%Z ∧
  (60200 + RETRY_BASE_MS ≤ next_attempt_at_ms failed_twice ≤ 60200 + RETRY_CAP_MS)%Z ∧
  next_attempt_at_ms failed_twice =
    (60200 + Z.min (RETRY_BASE_MS * 2 ^ Z.of_nat (Nat.min (pred 2) 16)) RETRY_CAP_MS)%Z.
Proof.
  apply (failing_subscription_schedule memory_dialect memory_keeps_small sub1 failed_twice
           100 60200 2).
  - vm_compute. discriminate.
  - apply (fr_next memory_dialect sub1 100 1 100 failed_once 60150 1 60200).
    + apply fr_first; reflexivity.
    + vm_compute. reflexivity.
    + lia.
Defined.

(** A pass over [sub1] and a disabled row. *)
Definition sub2 : SubscriptionRecord :=
  mkSubscription "sub-2" "did:web:p" None no_filter "https://p.example/hook" [] 3 Disabled 0 0 0
    None 0 None.

Definition two_subs : SubStore := mkSubStore true {[ "sub-1" := sub1; "sub-2" := sub2 ]}.

Definition rounds1 : nat → BatchEnv :=
  λ _, mkBatchEnv false mem1 10 ["sub-2"; "sub-1"] (λ _, Ran env1) id.

Definition after1 : SubStore :=
  mkSubStore true
    (<["sub-1" := finished_row memory_dialect (healthy 1 1012) sub1]> (subs two_subs)).

Lemma rounds1_fair : fair_rounds rounds1.
Proof.
  intros i. split; [|done]. repeat constructor; rewrite ?list_elem_of_singleton; [done|].
  apply not_elem_of_nil.
Qed.

Lemma two_subs_keyed : keyed (subs two_subs).
Proof.
  intros id r. cbn [subs two_subs]. rewrite lookup_insert. case_decide as Hd.
  - subst id. by intros [= <-].
  - intros [<- <-]%lookup_singleton_Some. done.
Qed.

Lemma hint_pass_accounts_witness :
  (∀ s, Ok (E := RegistryError) (mkPassStats 1 1 0 0 0 0 0 0 0) = Ok s →
     accounted s ∧ (0 ≤ ps_claimed s ≤ 2048)%Z) ∧
  ∀ id, identity <$> subs after1 !! id = identity <$> subs two_subs !! id ∧
    ∀ row, subs two_subs !! id = Some row → status row = Disabled → subs after1 !! id = Some row.
Proof.
  apply (@hint_pass_accounts MemoryFeed Z toy_sdk memory_change_feed toy_store toy_wire toy_crypto
           toy_hint memory_dialect (Some toy_state) cfg1 rounds1 two_subs after1).
  - exact rounds1_fair.
  - exact two_subs_keyed.
  - vm_compute. reflexivity.
Defined.

End HintExample.
