(* ===== verification/ClientIp.v ===== *)
(** * The client's address behind proxies

    The second half of [acdp-registry-core/src/rate_limit.rs], [client_ip] of
    [state.rs] and [tenant_header_trusted] of [tenant_trust.rs]: CIDR blocks, the
    walk over [X-Forwarded-For], and the address the limiters key on. Addresses
    are their octets; the standard library's address parser is written out. *)

From stdpp Require Import pretty.
From S2P Require Import Prelude Text.

Open Scope registry_scope.

Inductive IpAddr : Type :=
  | V4 (octets : list Z)
  | V6 (octets : list Z).

#[export] Instance IpAddr_eq_dec : EqDecision IpAddr.
Proof. solve_decision. Defined.

Definition ip_wf (ip : IpAddr) : Prop :=
  match ip with
  | V4 o => length o = 4 ∧ Forall is_byte o
  | V6 o => length o = 16 ∧ Forall is_byte o
  end.

(** [IpAddr::to_canonical]: an IPv4-mapped IPv6 address is the IPv4 address. *)
Definition canonical_ip (ip : IpAddr) : IpAddr :=
  match ip with
  | V4 _ => ip
  | V6 o => if bool_decide (take 12 o = replicate 10 0%Z ++ [255; 255]%Z) then V4 (drop 12 o) else ip
  end.

(** ** Parsing addresses

    The parser of [core::net]: each reader takes a prefix of the bytes, or fails
    and takes nothing. *)

Definition reader (A : Type) : Type := list Z → option (A * list Z).

Definition read_given_char (c : Z) : reader unit := λ l,
  match l with
  | b :: l => if (b =? c)%Z then Some (tt, l) else None
  | [] => None
  end.

(** The digits at the front: their value and how many there are. *)
Fixpoint read_digits (radix acc : Z) (count : nat) (l : list Z) : Z * nat * list Z :=
  match l with
  | b :: l' =>
      match to_digit radix b with
      | Some d => read_digits radix (acc * radix + d)%Z (S count) l'
      | None => (acc, count, l)
      end
  | [] => (acc, count, [])
  end.

(** [read_number]: [None] digits means bounded by [max] alone. *)
Definition read_number (radix : Z) (max_digits : option nat) (allow_zero_prefix : bool) (max : Z) :
    reader Z := λ l,
  let '(v, count, rest) := read_digits radix 0 0 l in
  if (match max_digits with Some m => (m <? count)%nat | None => false end)
     || (max <? v)%Z || (count =? 0)%nat
     || (negb allow_zero_prefix && bool_decide (head l = Some 48%Z) && (1 <? count)%nat)
  then None else Some (v, rest).

Definition read_separator {A} (sep : Z) (index : nat) (inner : reader A) : reader A := λ l,
  match index with
  | O => inner l
  | S _ => match read_given_char sep l with Some (_, l) => inner l | None => None end
  end.

(** [n] groups from index [i] on. *)
Fixpoint read_groups4 (n i : nat) : reader (list Z) := λ l,
  match n with
  | O => Some ([], l)
  | S n =>
      match read_separator 46 i (read_number 10 (Some 3) false u8_max) l with
      | Some (g, l) =>
          match read_groups4 n (S i) l with
          | Some (gs, l) => Some (g :: gs, l)
          | None => None
          end
      | None => None
      end
  end.

Definition read_ipv4_addr : reader (list Z) := read_groups4 4 0.

Definition u16_octets (g : Z) : list Z := [g / 256; g mod 256]%Z.

(** [read_groups] of the IPv6 reader: the octets read, and whether they end in an
    embedded IPv4 address. *)
Fixpoint read_groups6 (left i : nat) (l : list Z) : list Z * bool * list Z :=
  match left with
  | O => ([], false, l)
  | S left' =>
      match (if (1 <? left)%nat then read_separator 58 i read_ipv4_addr l else None) with
      | Some (v4, l) => (v4, true, l)
      | None =>
          match read_separator 58 i (read_number 16 (Some 4) true 65535) l with
          | Some (g, l) =>
              let '(rest, v4, l) := read_groups6 left' (S i) l in (u16_octets g ++ rest, v4, l)
          | None => ([], false, l)
          end
      end
  end.

Definition read_ipv6_addr : reader (list Z) := λ l,
  let '(head, head_ipv4, rest) := read_groups6 8 0 l in
  if (length head =? 16)%nat then Some (head, rest)
  else if head_ipv4 then None
  else
    match read_given_char 58 rest with
    | Some (_, rest) =>
        match read_given_char 58 rest with
        | Some (_, rest) =>
            let '(tail, _, rest) := read_groups6 (8 - (length head / 2 + 1)) 0 rest in
            Some (head ++ replicate (16 - length head - length tail) 0%Z ++ tail, rest)
        | None => None
        end
    | None => None
    end.

(** [str::parse::<IpAddr>]: the whole text. *)
Definition parse_ip (s : string) : option IpAddr :=
  let l := as_bytes s in
  match read_ipv4_addr l with
  | Some (o, rest) => if is_empty rest then Some (V4 o) else None
  | None =>
      match read_ipv6_addr l with
      | Some (o, rest) => if is_empty rest then Some (V6 o) else None
      | None => None
      end
  end.

Definition read_port (l : list Z) : option (list Z) :=
  match read_given_char 58 l with
  | Some (_, l) => snd <$> read_number 10 None true 65535 l
  | None => None
  end.

(** The address of [str::parse::<SocketAddr>]. *)
Definition parse_socket_ip (s : string) : option IpAddr :=
  let l := as_bytes s in
  match (match read_ipv4_addr l with
         | Some (o, rest) => (λ rest, (V4 o, rest)) <$> read_port rest
         | None => None
         end) with
  | Some (ip, rest) => if is_empty rest then Some ip else None
  | None =>
      match read_given_char 91 l with
      | Some (_, l) =>
          match read_ipv6_addr l with
          | Some (o, rest) =>
              let rest := match read_given_char 37 rest with
                          | Some (_, r) => default rest (snd <$> read_number 10 None true u32_max r)
                          | None => rest
                          end in
              match read_given_char 93 rest with
              | Some (_, rest) =>
                  match read_port rest with
                  | Some rest => if is_empty rest then Some (V6 o) else None
                  | None => None
                  end
              | None => None
              end
          | None => None
          end
      | None => None
      end
  end.

(** ** CIDR blocks *)

Record Cidr : Type := mkCidr { cidr_base : IpAddr; prefix_len : Z }.

(** [u8::from_str], an optional plus sign and decimal digits. *)
Definition parse_u8 (s : string) : option Z :=
  let l := as_bytes s in
  let digits := match l with
                | b :: (_ :: _) => if (b =? 43)%Z then tail l else l
                | _ => l
                end in
  match read_number 10 None true u8_max digits with
  | Some (n, rest) => if is_empty rest then Some n else None
  | None => None
  end.

(** [str::split_once('/')]. *)
Definition split_once_slash (s : string) : string * option string :=
  match split_char (Ascii.ascii_of_nat 47) s with
  | a :: (p :: ps) => (a, Some (String.concat "/" (p :: ps)))
  | _ => (s, None)
  end.

Definition cidr_parse (s : string) : result Cidr string :=
  let s := trim s in
  let '(addr_part, prefix_part) := split_once_slash s in
  let? base := ok_or (parse_ip addr_part) ("invalid IP in CIDR '" +:+ s +:+ "'") in
  let max := match base with V4 _ => 32 | V6 _ => 128 end%Z in
  let? len := match prefix_part with
              | Some p => ok_or (parse_u8 p) ("invalid prefix in CIDR '" +:+ s +:+ "'")
              | None => Ok max
              end in
  if (max <? len)%Z then Err ("prefix /" +:+ pretty len +:+ " out of range for CIDR '" +:+ s +:+ "'")
  else Ok (mkCidr base len).

(** The loop of [masked_eq] with [bits] left; [mask] is [!(0xFFu8 >> take)]. *)
Fixpoint masked_eq (a b : list Z) (bits : Z) : bool :=
  match a, b with
  | x :: a, y :: b =>
      if (bits =? 0)%Z then true
      else
        let take := Z.min bits 8 in
        let mask := if (take =? 8)%Z then 255%Z else (255 - Z.shiftr 255 take)%Z in
        if negb (Z.land x mask =? Z.land y mask)%Z then false
        else masked_eq a b (bits - take)
  | _, _ => true
  end.

Definition cidr_contains (c : Cidr) (ip : IpAddr) : bool :=
  match cidr_base c, ip with
  | V4 b, V4 o => masked_eq b o (prefix_len c)
  | V6 b, V6 o => masked_eq b o (prefix_len c)
  | _, _ => false
  end.

Definition TrustedProxies : Type := list Cidr.

Fixpoint proxies_parse (entries : list string) : result TrustedProxies string :=
  match entries with
  | [] => Ok []
  | e :: entries =>
      let? c := cidr_parse e in
      let? cs := proxies_parse entries in
      Ok (c :: cs)
  end.

Definition proxies_parse_lossy (entries : list string) : TrustedProxies :=
  omap (λ e, match cidr_parse e with Ok c => Some c | Err _ => None end) entries.

Definition proxies_contain (t : TrustedProxies) (ip : IpAddr) : bool :=
  existsb (λ c, cidr_contains c ip) t.

(** ** Resolving the client *)

Inductive ForwardedHeaderTrust : Type := FH_AnyPeer | FH_TrustedProxies.

Definition parse_hop (hop : string) : option IpAddr :=
  let hop := trim hop in
  match parse_ip hop with
  | Some ip => Some (canonical_ip ip)
  | None => canonical_ip <$> parse_socket_ip hop
  end.

(** The right-to-left walk. *)
Fixpoint walk_hops (peer : IpAddr) (trusted : TrustedProxies) (hops : list (option IpAddr)) :
    IpAddr :=
  match hops with
  | [] => peer
  | Some ip :: hops => if proxies_contain trusted ip then walk_hops peer trusted hops else ip
  | None :: _ => peer
  end.

(** The edge's own trailing hops, then the walk. *)
Fixpoint skip_hops (peer : IpAddr) (trusted : TrustedProxies) (skip : nat)
    (hops : list (option IpAddr)) : IpAddr :=
  match skip with
  | O => walk_hops peer trusted hops
  | S skip =>
      match hops with
      | Some _ :: hops => skip_hops peer trusted skip hops
      | _ => peer
      end
  end.

Definition resolve_client_ip_skipping (peer : IpAddr) (xff : option string)
    (trusted : TrustedProxies) (mode : ForwardedHeaderTrust) (skip_rightmost : nat) : IpAddr :=
  let peer_trusted := match mode with
                      | FH_AnyPeer => true
                      | FH_TrustedProxies => negb (is_empty trusted) && proxies_contain trusted peer
                      end in
  if negb peer_trusted then peer
  else
    match xff with
    | None => peer
    | Some xff => skip_hops peer trusted skip_rightmost (map parse_hop (rev (split_char comma xff)))
    end.

Definition resolve_client_ip (peer : IpAddr) (xff : option string) (trusted : TrustedProxies)
    (mode : ForwardedHeaderTrust) : IpAddr :=
  resolve_client_ip_skipping peer xff trusted mode 0.

Definition client_ip (peer : IpAddr) (xff : option string) (trusted : TrustedProxies) : IpAddr :=
  resolve_client_ip peer xff trusted FH_TrustedProxies.

(** The policy of [AppStateInner::client_ip]. *)
Record ForwardedPolicy : Type := mkForwardedPolicy {
  trusted_proxies : TrustedProxies;
  forwarded_header_trust : ForwardedHeaderTrust;
  forwarded_skip_rightmost : nat
}.

(** [AppStateInner::client_ip]: [lines] are the header's lines, [None] one that is
    not visible ASCII. *)
Definition state_client_ip (p : ForwardedPolicy) (peer : option IpAddr)
    (lines : list (option string)) : IpAddr :=
  let peer := default (V4 [0; 0; 0; 0]%Z) peer in
  let xff := match mapM id lines with
             | Some [] | None => None
             | Some l => Some (String.concat "," l)
             end in
  resolve_client_ip_skipping peer xff (trusted_proxies p) (forwarded_header_trust p)
    (forwarded_skip_rightmost p).

Inductive TenantHeaderTrust : Type := TH_None | TH_TrustedProxies | TH_AnyPeer.

Definition tenant_header_trusted (mode : TenantHeaderTrust) (peer : option IpAddr)
    (proxies : TrustedProxies) : bool :=
  match mode with
  | TH_None => false
  | TH_AnyPeer => true
  | TH_TrustedProxies =>
      match peer with
      | Some ip => proxies_contain proxies (canonical_ip ip)
      | None => false
      end
  end.

Definition str_ip (s : string) : IpAddr := default (V4 []) (parse_ip s).

Example parse_v4 : parse_ip "10.1.2.3" = Some (V4 [10; 1; 2; 3]%Z).
Proof. vm_compute. reflexivity. Qed.

Example parse_mapped :
  canonical_ip <$> parse_ip "::ffff:10.1.2.3" = Some (V4 [10; 1; 2; 3]%Z).
Proof. vm_compute. reflexivity. Qed.

Example parse_v6 :
  parse_ip "2001:db8::1" = Some (V6 [32; 1; 13; 184; 0; 0; 0; 0; 0; 0; 0; 0; 0; 0; 0; 1]%Z).
Proof. vm_compute. reflexivity. Qed.

Example parse_rejects : map parse_ip ["01.2.3.4"; "1.2.3"; "1.2.3.4 "; "::1%3"; "1::2::3"] = replicate 5 None.
Proof. vm_compute. reflexivity. Qed.

Example parse_hop_ports :
  map parse_hop [" 10.1.2.3:80"; "[::1%4]:443"; "10.1.2.3:99999"] =
    [Some (V4 [10; 1; 2; 3]%Z); parse_ip "::1"; None].
Proof. vm_compute. reflexivity. Qed.

(** ** Lemmas: masks are prefixes *)

Definition top_mask (take : Z) : Z :=
  if (take =? 8)%Z then 255%Z else (255 - Z.shiftr 255 take)%Z.

(** Masking a byte keeps exactly its top bits. *)
Lemma top_mask_div x take :
  is_byte x → (1 ≤ take ≤ 8)%Z →
  Z.land x (top_mask take) = (x / 2 ^ (8 - take) * 2 ^ (8 - take))%Z.
Proof.
  intros Hx Ht.
  assert (Hall : forallb (λ t, forallb (λ x, (Z.land x (top_mask t) =?
            x / 2 ^ (8 - t) * 2 ^ (8 - t))%Z) (map Z.of_nat (List.seq 0 256)))
            (map Z.of_nat (List.seq 1 8)) = true) by (vm_compute; reflexivity).
  rewrite forallb_forall in Hall. specialize (Hall take).
  rewrite forallb_forall in Hall. apply Z.eqb_eq, Hall; apply in_map_iff.
  - exists (Z.to_nat take). rewrite in_seq. lia.
  - exists (Z.to_nat x). rewrite in_seq. unfold is_byte in Hx. lia.
Qed.

Lemma pow256 n : (256 ^ Z.of_nat n = 2 ^ (8 * Z.of_nat n))%Z.
Proof. rewrite Z.pow_mul_r; [done|lia|lia]. Qed.

(** The bits above [k] of a number made of a byte and the [m] bytes below it. *)
Lemma high_bits_low x r m k :
  (0 ≤ r < 2 ^ (8 * Z.of_nat m))%Z → (0 ≤ k ≤ 8 * Z.of_nat m)%Z →
  ((x * 2 ^ (8 * Z.of_nat m) + r) / 2 ^ k = x * 2 ^ (8 * Z.of_nat m - k) + r / 2 ^ k)%Z ∧
  (0 ≤ r / 2 ^ k < 2 ^ (8 * Z.of_nat m - k))%Z.
Proof.
  intros Hr Hk. assert (Hp : (0 < 2 ^ k)%Z) by (apply Z.pow_pos_nonneg; lia).
  assert (He : (2 ^ (8 * Z.of_nat m) = 2 ^ (8 * Z.of_nat m - k) * 2 ^ k)%Z).
  { rewrite -Z.pow_add_r; [f_equal; lia|lia|lia]. }
  rewrite He Z.mul_assoc Z.div_add_l; [|lia]. split; [done|].
  rewrite He in Hr. split; [apply Z.div_pos; lia|apply Z.div_lt_upper_bound; lia].
Qed.

Lemma high_bits_high x r m k :
  (0 ≤ r < 2 ^ (8 * Z.of_nat m))%Z → (0 ≤ k)%Z →
  ((x * 2 ^ (8 * Z.of_nat m) + r) / 2 ^ (8 * Z.of_nat m + k) = x / 2 ^ k)%Z.
Proof.
  intros Hr Hk. assert (Hp : (0 < 2 ^ (8 * Z.of_nat m))%Z) by (apply Z.pow_pos_nonneg; lia).
  assert (Hp' : (0 < 2 ^ k)%Z) by (apply Z.pow_pos_nonneg; lia).
  rewrite Z.pow_add_r; [|lia|lia]. rewrite -Z.div_div; [|lia|lia].
  rewrite Z.div_add_l; [|lia]. rewrite (Z.div_small r); [|lia]. by rewrite Z.add_0_r.
Qed.

(** [masked_eq] compares the top [bits] bits. *)
Lemma masked_eq_spec a b bits :
  length a = length b → Forall is_byte a → Forall is_byte b →
  (0 ≤ bits ≤ 8 * Z.of_nat (length a))%Z →
  masked_eq a b bits = true ↔
  (from_be_bytes a / 2 ^ (8 * Z.of_nat (length a) - bits) =
   from_be_bytes b / 2 ^ (8 * Z.of_nat (length a) - bits))%Z.
Proof.
  intros Hlen Ha. revert b bits Hlen. induction Ha as [|x a Hx Ha IH]; intros b bits Hlen Hb Hbits.
  { destruct b; done. }
  destruct Hb as [|y b Hy Hb]; [done|]. injection Hlen as Hlen.
  pose proof (from_be_bytes_bounds a Ha) as Hra. pose proof (from_be_bytes_bounds b Hb) as Hrb.
  cbn [masked_eq]. rewrite !from_be_bytes_cons -Hlen. rewrite -Hlen in Hrb.
  set (m := length a) in *. rewrite pow256 in Hra, Hrb |- *.
  simpl length in Hbits |- *. fold m in Hbits |- *. unfold is_byte in Hx, Hy.
  destruct (bits =? 0)%Z eqn:E0; bool_to_prop.
  { subst bits. replace (8 * Z.of_nat (S m) - 0)%Z with (8 * Z.of_nat m + 8)%Z by lia.
    rewrite !high_bits_high; [|lia..]. rewrite !Z.div_small; [done|lia|lia]. }
  change (if (Z.min bits 8 =? 8)%Z then 255%Z else (255 - Z.shiftr 255 (Z.min bits 8))%Z)
    with (top_mask (Z.min bits 8)).
  rewrite !top_mask_div; [|unfold is_byte; lia..].
  destruct (decide (8 ≤ bits)%Z) as [H8|H8].
  - rewrite Z.min_r; [|lia]. change (2 ^ (8 - 8))%Z with 1%Z. rewrite !Z.div_1_r !Z.mul_1_r.
    replace (8 * Z.of_nat (S m) - bits)%Z with (8 * Z.of_nat m - (bits - 8))%Z by lia.
    destruct (high_bits_low x _ m (8 * Z.of_nat m - (bits - 8)) Hra) as [-> Hba]; [lia|].
    destruct (high_bits_low y _ m (8 * Z.of_nat m - (bits - 8)) Hrb) as [-> Hbb]; [lia|].
    specialize (IH b (bits - 8)%Z Hlen Hb). destruct (x =? y)%Z eqn:Exy; simpl; bool_to_prop.
    + subst y. rewrite IH; [|lia]. lia.
    + split; [done|]. intros Heq. exfalso. apply Exy.
      set (M := (2 ^ (8 * Z.of_nat m - (8 * Z.of_nat m - (bits - 8))))%Z) in *. nia.
  - rewrite Z.min_l; [|lia].
    replace (8 * Z.of_nat (S m) - bits)%Z with (8 * Z.of_nat m + (8 - bits))%Z by lia.
    rewrite !high_bits_high; [|lia..].
    assert (0 < 2 ^ (8 - bits))%Z by (apply Z.pow_pos_nonneg; lia).
    replace (bits - bits)%Z with 0%Z by lia.
    assert (masked_eq a b 0 = true) as -> by (by destruct a, b).
    destruct (_ =? _)%Z eqn:Exy; simpl; bool_to_prop; nia.
Qed.

(** ** Lemmas: the walk *)

Lemma mapM_id_Some {A} (l : list A) : mapM id (map Some l) = Some l.
Proof. apply mapM_Some. induction l; constructor; done. Qed.

(** Whether the walk ends inside [hops]: at a hop that is not a trusted proxy, or
    at one it cannot read. *)
Definition ends_walk (trusted : TrustedProxies) (hop : option IpAddr) : bool :=
  match hop with Some ip => negb (proxies_contain trusted ip) | None => true end.

Definition walk_ends (trusted : TrustedProxies) (skip : nat) (hops : list (option IpAddr)) : bool :=
  existsb (λ h, bool_decide (h = None)) (take skip hops)
  || existsb (ends_walk trusted) (drop skip hops).

Lemma walk_hops_app peer trusted l1 l2 :
  existsb (ends_walk trusted) l1 = true →
  walk_hops peer trusted (l1 ++ l2) = walk_hops peer trusted l1.
Proof.
  induction l1 as [|[ip|] l1 IH]; simpl; [done| |done].
  destruct (proxies_contain trusted ip); simpl; [|done]. apply IH.
Qed.

Lemma skip_hops_app peer trusted skip l1 l2 :
  walk_ends trusted skip l1 = true →
  skip_hops peer trusted skip (l1 ++ l2) = skip_hops peer trusted skip l1.
Proof.
  revert l1. induction skip as [|skip IH]; intros l1; unfold walk_ends.
  - rewrite drop_0 take_0. simpl. apply walk_hops_app.
  - destruct l1 as [|[ip|] l1]; simpl; [done| |done]. apply IH.
Qed.

(** The answer is the peer, or a readable hop that is not a trusted proxy. *)
Lemma skip_hops_result peer trusted skip hops :
  let ip := skip_hops peer trusted skip hops in
  ip = peer ∨ Some ip ∈ hops ∧ proxies_contain trusted ip = false.
Proof.
  simpl. revert hops. induction skip as [|skip IH]; intros hops.
  - induction hops as [|[ip|] hops IHh]; simpl; [by left| |by left].
    destruct (proxies_contain trusted ip) eqn:Ht; [|right; split; [left|done]].
    destruct IHh as [?|[Hin Hc]]; [by left|]. right. split; [by right|done].
  - destruct hops as [|[ip|] hops]; simpl; [by left| |by left].
    destruct (IH hops) as [?|[Hin Hc]]; [by left|]. right. split; [by right|done].
Qed.

(** ** Properties *)

(** The network part of an address: its top [len] bits. *)
Definition network (len : Z) (o : list Z) : Z :=
  Z.shiftr (from_be_bytes o) (8 * Z.of_nat (length o) - len).

Definition cidr_wf (c : Cidr) : Prop :=
  ip_wf (cidr_base c) ∧
  (0 ≤ prefix_len c ≤ match cidr_base c with V4 _ => 32 | V6 _ => 128 end)%Z.

(** A CIDR block contains exactly the addresses of its family whose top
    [prefix_len] bits are the block's: the byte-wise masked comparison is equality of
    the addresses' network numbers. *)
Theorem cidr_contains_is_prefix_equality (c : Cidr) (ip : IpAddr) :
  cidr_wf c → ip_wf ip →
  cidr_contains c ip = true ↔
  match cidr_base c, ip with
  | V4 b, V4 o | V6 b, V6 o => network (prefix_len c) b = network (prefix_len c) o
  | _, _ => False
  end.
Proof.
  intros [Hb Hl] Hip. unfold cidr_contains, network.
  destruct (cidr_base c) as [b|b], ip as [o|o]; simpl in Hb, Hip; try done;
    destruct Hb as [Hlb Hbb], Hip as [Hlo Hbo];
    rewrite masked_eq_spec; try done; rewrite ?Hlb ?Hlo //=; try lia;
    rewrite !Z.shiftr_div_pow2; done || lia.
Qed.

(** A client cannot choose the address it is limited under. With the peer not a
    listed proxy the header is ignored; otherwise, once the hops the trusted proxies
    appended settle the walk, whatever stands to their left, in the same line or in
    lines before, changes nothing; and the answer is always the peer or a hop that is
    not a trusted proxy. *)
Theorem forged_hops_change_nothing (p : ForwardedPolicy) (peer : IpAddr) (seen : string) :
  let resolve xff := resolve_client_ip_skipping peer (Some xff) (trusted_proxies p)
                       (forwarded_header_trust p) (forwarded_skip_rightmost p) in
  (forwarded_header_trust p = FH_TrustedProxies → proxies_contain (trusted_proxies p) peer = false →
   ∀ lines, state_client_ip p (Some peer) lines = peer) ∧
  (walk_ends (trusted_proxies p) (forwarded_skip_rightmost p)
     (map parse_hop (rev (split_char comma seen))) = true →
   (∀ forged, resolve (forged +:+ "," +:+ seen) = resolve seen) ∧
   (∀ lines, state_client_ip p (Some peer) (map Some lines ++ [Some seen]) = resolve seen)) ∧
  (∀ xff, resolve xff = peer ∨
     proxies_contain (trusted_proxies p) (resolve xff) = false ∧
     ∃ hop, hop ∈ split_char comma xff ∧ parse_hop hop = Some (resolve xff)).
Proof.
  intros resolve. split_and!.
  - intros Hm Ht lines. unfold state_client_ip, resolve_client_ip_skipping. simpl.
    by rewrite Hm Ht andb_false_r.
  - intros Hend.
    assert (Hforged : ∀ forged, resolve (forged +:+ "," +:+ seen) = resolve seen).
    { intros forged. unfold resolve, resolve_client_ip_skipping. destruct (negb _); [done|].
      change ("," +:+ seen) with (String.String comma seen).
      rewrite split_char_app rev_app_distr map_app. by apply skip_hops_app. }
    split; [done|]. intros lines. unfold state_client_ip.
    rewrite -(map_app Some lines [seen]) mapM_id_Some. cbn [default].
    destruct lines as [|l lines]; [done|].
    change (match (l :: lines) ++ [seen] with [] => None
            | _ :: _ as l => Some (String.concat "," l) end)
      with (Some (String.concat "," ((l :: lines) ++ [seen]))).
    rewrite concat_snoc; [|done]. apply Hforged.
  - intros xff. unfold resolve, resolve_client_ip_skipping. destruct (negb _); [by left|].
    destruct (skip_hops_result peer (trusted_proxies p) (forwarded_skip_rightmost p)
                (map parse_hop (rev (split_char comma xff)))) as [Hp|[Hin Hc]]; [by left|].
    right. split; [done|]. apply list_elem_of_fmap in Hin as (hop & Hhop & Hin).
    exists hop. split; [|done]. by apply list_elem_of_In, in_rev, list_elem_of_In.
Qed.

(** *** Concrete addresses *)

Module ClientIpExample.

Definition ten8 : Cidr := mkCidr (V4 [10; 0; 0; 0]%Z) 8.

Example ten8_parses : cidr_parse " 10.0.0.0/8" = Ok ten8.
Proof. vm_compute. reflexivity. Qed.

Lemma cidr_contains_is_prefix_equality_witness :
  cidr_contains ten8 (V4 [10; 1; 2; 3]%Z) = true ↔
  network 8 [10; 0; 0; 0]%Z = network 8 [10; 1; 2; 3]%Z.
Proof.
  apply (cidr_contains_is_prefix_equality ten8 (V4 [10; 1; 2; 3]%Z)).
  - split; [|simpl; lia]. split; [reflexivity|]. repeat constructor; unfold is_byte; lia.
  - split; [reflexivity|]. repeat constructor; unfold is_byte; lia.
Defined.

(** One proxy at 10.0.0.1 that appends the address it was called from. *)
Definition policy1 : ForwardedPolicy := mkForwardedPolicy [ten8] FH_TrustedProxies 0.

Example forged_prefix :
  state_client_ip policy1 (parse_ip "10.0.0.1") [Some "1.1.1.1"; Some "203.0.113.9, 10.0.0.7"] =
    V4 [203; 0; 113; 9]%Z.
Proof. vm_compute. reflexivity. Qed.

(** A garbled hop of the trusted proxies ends the walk at the peer. *)
Example garbled_hop :
  state_client_ip policy1 (parse_ip "10.0.0.1") [Some "1.1.1.1, unknown, 10.0.0.7"] =
    V4 [10; 0; 0; 1]%Z.
Proof. vm_compute. reflexivity. Qed.

Lemma forged_hops_change_nothing_witness :
  state_client_ip policy1 (Some (V4 [10; 0; 0; 1]%Z))
    (map Some ["1.1.1.1"; "10.9.9.9, junk"] ++ [Some "203.0.113.9, 10.0.0.7"]) =
    V4 [203; 0; 113; 9]%Z.
Proof.
  destruct (forged_hops_change_nothing policy1 (V4 [10; 0; 0; 1]%Z) "203.0.113.9, 10.0.0.7")
    as (_ & Hends & _).
  apply Hends. vm_compute. reflexivity.
Defined.

End ClientIpExample.
