(* ===== verification/ReadGate.v ===== *)
(** * Reading: credentials, the gate and tenants

    [acdp-registry-auth/src/read_token.rs], [acdp-registry-core/src/read_gate.rs]
    and the tenant resolution of [acdp-registry-core/src/handlers/context.rs]: who
    a read is from, what it is charged to, and which tenant it is scoped to.
    SHA-256 and base64 ([sha2], [base64]) are the class [ReadTokenCrypto]; the JWT
    decoder is a parameter, as in [Revocation]. *)

From stdpp Require Import pretty.
From S2P Require Import Prelude Text RateLimit ChallengeStore Revocation AuthService Errors ContextTypes ChangesKey ClientIp.

Open Scope registry_scope.

Class ReadTokenCrypto : Type := {
  digest : list Z → list Z;
  url_safe_no_pad_decode : string → option (list Z)
}.

(** ** Static read tokens *)

Definition READ_TOKEN_PREFIX : string := "acdp_rt_".
Definition TOKEN_BYTES : nat := 32.
Definition TOKEN_BODY_LEN : nat := 43.

Definition is_read_token (token : string) : bool := starts_with token READ_TOKEN_PREFIX.

Definition is_lower_hex (b : Z) : bool := ((48 <=? b) && (b <=? 57) || (97 <=? b) && (b <=? 102))%Z.

(** [chunks(2)] of an even number of digits, as bytes. *)
Fixpoint hex_pairs (l : list Z) : option (list Z) :=
  match l with
  | hi :: lo :: l =>
      match to_digit 16 hi, to_digit 16 lo, hex_pairs l with
      | Some hi, Some lo, Some bs => Some ((hi * 16 + lo)%Z :: bs)
      | _, _, _ => None
      end
  | _ => Some []
  end.

Definition parse_sha256_hex (s : string) : option (list Z) :=
  let l := as_bytes s in
  if negb (length l =? 64)%nat || negb (forallb is_lower_hex l) then None else hex_pairs l.

Inductive ReadTokenError : Type := RT_Malformed | RT_Unknown | RT_Expired.

Definition read_token_error_display (e : ReadTokenError) : string :=
  match e with
  | RT_Malformed => "malformed read token"
  | RT_Unknown => "unknown read token"
  | RT_Expired => "expired read token"
  end.

Record StaticReadPrincipal : Type := mkStaticPrincipal {
  sp_did : string;
  sp_tenant : option string;
  sp_token_id : string
}.

(** A configured [[auth.read_tokens]] entry. *)
Record ReadTokenEntry : Type := mkReadTokenEntry {
  rte_id : string;
  rte_did : string;
  rte_sha256 : string;
  rte_expires_at : option Z;
  rte_tenant : option string;
  rte_operator_administered : bool
}.

Record TokenEntry : Type := mkTokenEntry {
  te_hash : list Z;
  te_expires_at : option Z;
  te_principal : StaticReadPrincipal
}.

Definition ReadTokens : Type := list TokenEntry.

(** [ReadTokens::from_config]. *)
Definition read_tokens_from_config (bindings : list TenantAgentBinding)
    (read_tokens : list ReadTokenEntry) : ReadTokens :=
  omap (λ e,
    match parse_sha256_hex (rte_sha256 e) with
    | Some hash =>
        Some (mkTokenEntry hash (rte_expires_at e)
                (mkStaticPrincipal (rte_did e)
                   (match rte_tenant e with
                    | Some t => Some t
                    | None => tenant_for_agent bindings (rte_did e)
                    end) (rte_id e)))
    | None => None
    end) read_tokens.

Definition ct_eq_32 (a b : list Z) : bool := (ct_fold (zip a b) =? 0)%Z.

(** The fold that never stops early: the last entry that matches. *)
Definition find_entry (tokens : ReadTokens) (dig : list Z) : option TokenEntry :=
  fold_left (λ found e, if ct_eq_32 (te_hash e) dig then Some e else found) tokens None.

(** [ReadTokens::validate]. *)
Definition read_tokens_validate `{!ReadTokenCrypto} (tokens : ReadTokens) (token : string) (now : Z) :
    result StaticReadPrincipal ReadTokenError :=
  let? body := ok_or (strip_prefix READ_TOKEN_PREFIX token) RT_Malformed in
  if negb (String.length body =? TOKEN_BODY_LEN)%nat
     || (match url_safe_no_pad_decode body with
         | Some b => negb (length b =? TOKEN_BYTES)%nat
         | None => true
         end)
  then Err RT_Malformed
  else
    let? entry := ok_or (find_entry tokens (digest (as_bytes token))) RT_Unknown in
    if (match te_expires_at entry with Some t => (t <=? now)%Z | None => false end)
    then Err RT_Expired else Ok (te_principal entry).

(** ** The gate *)

Inductive ReadPrincipal : Type :=
  | Anonymous
  | Did (did : string) (tenant : option string).

Definition requester (p : ReadPrincipal) : option string :=
  match p with Anonymous => None | Did d _ => Some d end.

Definition tenant_claim (p : ReadPrincipal) : option string :=
  match p with Anonymous => None | Did _ t => t end.

(** [Ipv4Addr] and [Ipv6Addr]'s [Display]. *)
Definition display_v4 (o : list Z) : string := String.concat "." (map pretty o).

Fixpoint hex_u16 (fuel : nat) (v : Z) : string :=
  match fuel with
  | O => ""
  | S fuel =>
      (if (v <? 16)%Z then "" else hex_u16 fuel (v / 16)) +:+
      String.String (hex_digit (v mod 16)) ""
  end.

Fixpoint segments (o : list Z) : list Z :=
  match o with hi :: lo :: o => (hi * 256 + lo)%Z :: segments o | _ => [] end.

(** The first longest run of zero segments: its start and length. *)
Fixpoint longest_zeros (i : nat) (cur best : nat * nat) (l : list Z) : nat * nat :=
  match l with
  | [] => best
  | s :: l =>
      if (s =? 0)%Z then
        let cur := if (cur.2 =? 0)%nat then (i, 1%nat) else (cur.1, S cur.2) in
        longest_zeros (S i) cur (if (best.2 <? cur.2)%nat then cur else best) l
      else longest_zeros (S i) (0%nat, 0%nat) best l
  end.

Definition fmt_subslice (l : list Z) : string := String.concat ":" (map (hex_u16 4) l).

Definition display_v6 (o : list Z) : string :=
  match canonical_ip (V6 o) with
  | V4 v4 => "::ffff:" +:+ display_v4 v4
  | V6 _ =>
      let segs := segments o in
      let '(start, len) := longest_zeros 0 (0%nat, 0%nat) (0%nat, 0%nat) segs in
      if (1 <? len)%nat then
        fmt_subslice (firstn start segs) +:+ "::" +:+ fmt_subslice (drop (start + len) segs)
      else fmt_subslice segs
  end.

Definition read_bucket_key (ip : IpAddr) : string :=
  match canonical_ip ip with
  | V4 v4 => "ip:" +:+ display_v4 v4
  | V6 v6 =>
      let net := Z.land (from_be_bytes v6) (2 ^ 128 - 2 ^ 64) in
      "ip:" +:+ display_v6 (to_be_bytes 16 net) +:+ "/64"
  end.

Example bucket_keys :
  map read_bucket_key (omap parse_ip ["203.0.113.9"; "::ffff:203.0.113.9"; "2001:db8:1:2:3::9"]) =
    ["ip:203.0.113.9"; "ip:203.0.113.9"; "ip:2001:db8:1:2::/64"].
Proof. vm_compute. reflexivity. Qed.

(** The parts of a request the gate and the tenant resolution read: the method,
    the decoded names of the query's parameters, the peer, and the values of three
    headers ([None] where a value is not visible ASCII). *)
Record ReadRequest : Type := mkReadRequest {
  rq_is_read : bool;
  rq_query_names : list string;
  rq_peer : option IpAddr;
  rq_authorization : list (option string);
  rq_forwarded_for : list (option string);
  rq_tenant_id : option (option string)
}.

(** ASCII case-insensitive comparison. *)
Definition to_lower (b : Z) : Z := if ((65 <=? b) && (b <=? 90))%Z then (b + 32)%Z else b.

Definition eq_ignore_ascii_case (s t : string) : bool :=
  bool_decide (map to_lower (as_bytes s) = map to_lower (as_bytes t)).

Definition query_names_access_token (names : list string) : bool :=
  existsb (λ k, eq_ignore_ascii_case k "access_token") names.

Section gate.
Context `{!ReadTokenCrypto}.
Context (jwt_decode : Validation → Z → string → result BearerClaims string).
Context {R : Type} `{!RevocationStore R}.
(** [AcdpError]'s [Display], for the bodies of refusals. *)
Context (acdp_display : AcdpError → string).

(** The members of [AppState] the gate reads; the two limiters are its state. *)
Record GateState : Type := mkGateState {
  auth_enabled : bool;
  auth_require_tenant : bool;
  auth_bindings : list TenantAgentBinding;
  gate_tokens : ReadTokens;
  gate_signer : JwtSigner;
  gate_revocations : R;
  gate_forwarded : ForwardedPolicy;
  tenant_header_trust : TenantHeaderTrust;
  tenant_trusted_proxies : TrustedProxies
}.

Record Limiters : Type := mkLimiters {
  read_anonymous_limiter : option AgentRateLimiter;
  read_principal_limiter : option AgentRateLimiter
}.

(** What a request reads from its surroundings: the revocation store's call and the
    wall clock in it, and the monotonic clock of the limiters. *)
Record GateEnv : Type := mkGateEnv { ge_call : CallEnv; ge_instant : Z }.

(** The token of the request's only [Authorization] header, if it has one. *)
Definition sole_bearer (authorization : list (option string)) : option string :=
  match authorization with
  | [Some v] => extract_bearer v
  | _ => None
  end.

Definition validate_bearer_claims (st : GateState) (env : GateEnv) (token : string) :
    result BearerClaims AuthError :=
  JwtSigner_validate jwt_decode (gate_signer st) (gate_revocations st) (ge_call env) token.

(** [resolve]. *)
Definition gate_resolve (st : GateState) (env : GateEnv) (authorization : list (option string)) :
    result ReadPrincipal RegistryError :=
  if negb (auth_enabled st) then Ok Anonymous
  else
    match authorization with
    | [] => Ok Anonymous
    | _ :: _ :: _ => Err (RE_Acdp (SchemaViolation "more than one Authorization header"))
    | [value] =>
        match (match value with Some v => extract_bearer v | None => None end) with
        | None => Ok Anonymous
        | Some token =>
            if is_read_token token then
              let? p := map_err (λ e, RE_AuthToken (read_token_error_display e))
                          (read_tokens_validate (gate_tokens st) token (now_utc (ge_call env))) in
              Ok (Did (sp_did p) (sp_tenant p))
            else
              let? claims := map_err from_auth_error (validate_bearer_claims st env token) in
              Ok (Did (cl_sub claims) (cl_tenant claims))
        end
    end.

(** [charge]: the 429, if the key is over budget, and the limiter after it. *)
Definition gate_charge (limiter : option AgentRateLimiter) (key : string) (now : Z) :
    option ErrorResponse * option AgentRateLimiter :=
  match limiter with
  | None => (None, None)
  | Some l =>
      match check_at l key now with
      | (Ok _, l) => (None, Some l)
      | (Err retry, l) => (Some (into_response acdp_display pretty (RE_RateLimited retry)), Some l)
      end
  end.

(** What becomes of a request: answered by the gate, or run by the handler, with
    the principal the gate resolved for a read. *)
Inductive GateAnswer : Type :=
  | GateRefused (r : ErrorResponse)
  | GatePassed
  | GateHandled (p : ReadPrincipal).

Definition bearer_static_active (st : GateState) : bool :=
  auth_enabled st && negb (is_empty (gate_tokens st)).

Definition anonymous_key (st : GateState) (req : ReadRequest) : string :=
  read_bucket_key (state_client_ip (gate_forwarded st) (rq_peer req) (rq_forwarded_for req)).

Definition read_gate (st : GateState) (env : GateEnv) (lim : Limiters) (req : ReadRequest) :
    GateAnswer * Limiters :=
  let charge_anonymous k :=
    let '(limited, l) := gate_charge (read_anonymous_limiter lim) (anonymous_key st req)
                           (ge_instant env) in
    (k limited : GateAnswer, mkLimiters l (read_principal_limiter lim)) in
  if negb (rq_is_read req) then (GatePassed, lim)
  else if bearer_static_active st && query_names_access_token (rq_query_names req) then
    (GateRefused (into_response acdp_display pretty (RE_Acdp (SchemaViolation
       "access_token is not accepted in the query; send Authorization: Bearer"))), lim)
  else
    match gate_resolve st env (rq_authorization req) with
    | Err refusal =>
        charge_anonymous (λ limited, GateRefused (default (into_response acdp_display pretty refusal) limited))
    | Ok (Did d t) =>
        let '(limited, l) := gate_charge (read_principal_limiter lim) ("did:" +:+ d)
                               (ge_instant env) in
        (match limited with Some r => GateRefused r | None => GateHandled (Did d t) end,
         mkLimiters (read_anonymous_limiter lim) l)
    | Ok Anonymous =>
        charge_anonymous (λ limited,
          match limited with Some r => GateRefused r | None => GateHandled Anonymous end)
    end.

(** ** Tenants *)

Definition RESERVED_TENANT : string := "default".

Definition tenant_from_headers (value : option (option string)) : option string :=
  match value with
  | Some (Some v) => let t := trim v in if bool_decide (t = "") then None else Some t
  | _ => None
  end.

Definition reject_reserved_tenant (tenant : option string) : result unit RegistryError :=
  if bool_decide (tenant = Some RESERVED_TENANT) then
    Err (RE_Acdp (SchemaViolation
      "'default' is a reserved tenant sentinel and cannot be asserted via X-Tenant-Id or a token claim"))
  else Ok tt.

Definition mode_as_str (mode : TenantHeaderTrust) : string :=
  match mode with
  | TH_None => "none"
  | TH_TrustedProxies => "trusted_proxies"
  | TH_AnyPeer => "any_peer"
  end.

Definition quote : string := String.String (Ascii.ascii_of_nat 34) "".

Definition untrusted_header_error (mode : string) : RegistryError :=
  RE_AuthChallenge ("X-Tenant-Id is not trusted from this peer (auth.tenant_header_trust = " +:+
    quote +:+ mode +:+ quote +:+ "); use a tenant-bound token or send the request through the declared gateway").

Definition unbound_header_tenant (st : GateState) (header : option string) (peer : option IpAddr) :
    result (option string) RegistryError :=
  match header with
  | None => Ok None
  | Some h =>
      if tenant_header_trusted (tenant_header_trust st) peer (tenant_trusted_proxies st) then
        Ok (Some h)
      else Err (untrusted_header_error (mode_as_str (tenant_header_trust st)))
  end.

Definition reconcile_tenant_sources (claim header : option string) :
    result (option string) RegistryError :=
  match claim, header with
  | Some c, Some h =>
      if negb (bool_decide (c = h)) then
        Err (RE_AuthChallenge "X-Tenant-Id does not match the tenant the token was issued under")
      else Ok (Some c)
  | Some c, None => Ok (Some c)
  | None, h => Ok h
  end.

(** The body [tenant_with_claim] and [tenant_for_publish] share; [denied] is the
    text of the strict refusal. *)
Definition tenant_resolution (denied : string) (st : GateState) (req : ReadRequest)
    (authoritative : option string) : result (option string) RegistryError :=
  let header_tenant := tenant_from_headers (rq_tenant_id req) in
  let? _ := reject_reserved_tenant header_tenant in
  if negb (auth_enabled st) then unbound_header_tenant st header_tenant (rq_peer req)
  else
    let? resolved := match authoritative with
                     | Some c => reconcile_tenant_sources (Some c) header_tenant
                     | None => unbound_header_tenant st header_tenant (rq_peer req)
                     end in
    if auth_require_tenant st && bool_decide (resolved = None) then Err (RE_AuthChallenge denied)
    else
      let? _ := reject_reserved_tenant resolved in
      Ok resolved.

Definition tenant_with_claim : GateState → ReadRequest → option string →
    result (option string) RegistryError :=
  tenant_resolution "this registry requires a tenant scope: use a tenant-bound token, or send X-Tenant-Id through the declared gateway".

Definition tenant_for_principal (st : GateState) (req : ReadRequest) (p : ReadPrincipal) :
    result (option string) RegistryError :=
  tenant_with_claim st req (tenant_claim p).

(** The claim of the first [Authorization] value, when it is a valid bearer. *)
Definition bearer_tenant_claim (st : GateState) (env : GateEnv) (req : ReadRequest) : option string :=
  match rq_authorization req with
  | Some v :: _ =>
      match extract_bearer v with
      | Some token =>
          match validate_bearer_claims st env token with
          | Ok claims => cl_tenant claims
          | Err _ => None
          end
      | None => None
      end
  | _ => None
  end.

Definition tenant_for_request (st : GateState) (env : GateEnv) (req : ReadRequest) :
    result (option string) RegistryError :=
  tenant_with_claim st req (bearer_tenant_claim st env req).

Definition tenant_for_publish (st : GateState) (env : GateEnv) (req : ReadRequest)
    (agent_id : string) : result (option string) RegistryError :=
  tenant_resolution "this registry requires a tenant scope: publish with a tenant-bound agent or token"
    st req
    (match bearer_tenant_claim st env req with
     | Some t => Some t
     | None => tenant_for_agent (auth_bindings st) agent_id
     end).
End gate.

(** ** Lemmas *)

Lemma find_entry_Some tokens dig e :
  find_entry tokens dig = Some e → e ∈ tokens ∧ ct_eq_32 (te_hash e) dig = true.
Proof.
  unfold find_entry. induction tokens as [|x l IH] using rev_ind; [done|].
  rewrite fold_left_app. simpl. destruct (ct_eq_32 (te_hash x) dig) eqn:Hx.
  - intros [= <-]. split; [set_solver|done].
  - intros Hf. destruct (IH Hf) as [? ?]. split; [set_solver|done].
Qed.

Lemma hex_pairs_length l :
  (∀ h, hex_pairs l = Some h → length h = Nat.div2 (length l)) ∧
  ∀ x h, hex_pairs (x :: l) = Some h → length h = Nat.div2 (S (length l)).
Proof.
  induction l as [|y l [IH0 IH1]]; [by split; intros; simplify_eq/=|].
  split; [intros h; apply IH1|]. intros x h. cbn [hex_pairs].
  repeat case_match; try done. intros [= <-]. simpl. by rewrite IH0.
Qed.

Lemma parse_sha256_hex_length s h : parse_sha256_hex s = Some h → length h = 32%nat.
Proof.
  unfold parse_sha256_hex. destruct (_ || _) eqn:E; [done|]. intros Hh.
  apply orb_false_iff in E as [E _]. apply negb_false_iff, Nat.eqb_eq in E.
  by rewrite (proj1 (hex_pairs_length _) _ Hh) E.
Qed.

Lemma ct_eq_32_eq a b : length a = length b → ct_eq_32 a b = true → a = b.
Proof.
  intros Hl He. assert (ct_eq a b = true) as Hc.
  { unfold ct_eq. by rewrite (proj2 (Nat.eqb_eq _ _) Hl). }
  rewrite ct_eq_spec in Hc. by apply bool_decide_eq_true in Hc.
Qed.

Section properties.
Context `{!ReadTokenCrypto}.

(** A token that validates is the one a configured entry has the hash of, and the
    entry has not expired. *)
Definition token_entry_for (bindings : list TenantAgentBinding) (entries : list ReadTokenEntry)
    (token : string) (now : Z) (d : string) (t : option string) : Prop :=
  ∃ e, e ∈ entries ∧ rte_did e = d ∧
    parse_sha256_hex (rte_sha256 e) = Some (digest (as_bytes token)) ∧
    (∀ x, rte_expires_at e = Some x → (now < x)%Z) ∧
    t = match rte_tenant e with Some t => Some t | None => tenant_for_agent bindings d end.

Lemma read_tokens_validate_ok bindings entries token now p :
  (∀ m, length (digest m) = 32%nat) →
  read_tokens_validate (read_tokens_from_config bindings entries) token now = Ok p →
  token_entry_for bindings entries token now (sp_did p) (sp_tenant p).
Proof.
  intros Hdig. unfold read_tokens_validate. destruct (strip_prefix _ _); simpl; [|done].
  destruct (_ || _); [done|].
  destruct (find_entry _ _) as [e|] eqn:Hf; simpl; [|done].
  destruct (match te_expires_at e with Some t => _ | None => _ end) eqn:He; [done|]. intros [= <-].
  apply find_entry_Some in Hf as [Hin Hct].
  apply list_elem_of_omap in Hin as (c & Hc & Hce).
  destruct (parse_sha256_hex (rte_sha256 c)) as [h|] eqn:Hh; [|done]. injection Hce as <-.
  apply ct_eq_32_eq in Hct; [|by rewrite Hdig; apply (parse_sha256_hex_length _ _ Hh)].
  simpl in *. exists c. split_and!; try done; [by rewrite Hh Hct|].
  intros x Hx. rewrite Hx in He. by apply Z.leb_gt in He.
Qed.

Context (jwt_decode : Validation → Z → string → result BearerClaims string).
Context {R : Type} `{!RevocationStore R} (acdp_display : AcdpError → string).

(** Who a request is from, by its headers alone. *)
Definition authenticates (st : GateState (R := R)) (env : GateEnv) (entries : list ReadTokenEntry)
    (req : ReadRequest) (p : ReadPrincipal) : Prop :=
  match p with
  | Anonymous =>
      auth_enabled st = true →
      (length (rq_authorization req) ≤ 1)%nat ∧ sole_bearer (rq_authorization req) = None
  | Did d t =>
      auth_enabled st = true ∧
      ∃ token, sole_bearer (rq_authorization req) = Some token ∧
        (if is_read_token token then
           token_entry_for (auth_bindings st) entries token (now_utc (ge_call env)) d t
         else
           ∃ claims, validate_bearer_claims jwt_decode st env token = Ok claims ∧
             cl_sub claims = d ∧ cl_tenant claims = t)
  end.

Lemma gate_resolve_ok st env entries req p :
  (∀ m, length (digest m) = 32%nat) →
  gate_tokens st = read_tokens_from_config (auth_bindings st) entries →
  gate_resolve jwt_decode st env (rq_authorization req) = Ok p →
  authenticates st env entries req p.
Proof.
  intros Hdig Htok. unfold gate_resolve. destruct (auth_enabled st) eqn:Hen; simpl.
  2:{ intros [= <-]. simpl. by rewrite Hen. }
  destruct (rq_authorization req) as [|v [|]] eqn:Hauth; simpl; [| |done].
  { intros [= <-]. simpl. rewrite Hauth. split; [simpl; lia|done]. }
  destruct v as [v|]; simpl.
  2:{ intros [= <-]. simpl. rewrite Hauth. split; [simpl; lia|done]. }
  destruct (extract_bearer v) as [token|] eqn:Hb.
  2:{ intros [= <-]. simpl. rewrite Hauth. split; [simpl; lia|done]. }
  destruct (is_read_token token) eqn:Hrt.
  - destruct (read_tokens_validate _ _ _) as [sp|] eqn:Hv; simpl; [|done]. intros [= <-].
    simpl. rewrite Hauth. split; [done|]. exists token. split; [done|]. rewrite Hrt.
    apply read_tokens_validate_ok; [done|]. by rewrite -Htok.
  - destruct (validate_bearer_claims _ _ _ _) as [cl|] eqn:Hv; simpl; [|done]. intros [= <-].
    simpl. rewrite Hauth. split; [done|]. exists token. split; [done|]. rewrite Hrt. by exists cl.
Qed.

(** The limiter a request with this principal is charged to, and its key. *)
Definition charged (st : GateState (R := R)) (env : GateEnv) (req : ReadRequest) (p : ReadPrincipal)
    (lim lim' : Limiters) : Prop :=
  match p with
  | Anonymous =>
      gate_charge acdp_display (read_anonymous_limiter lim) (anonymous_key st req) (ge_instant env) =
        (None, read_anonymous_limiter lim') ∧
      read_principal_limiter lim' = read_principal_limiter lim
  | Did d _ =>
      gate_charge acdp_display (read_principal_limiter lim) ("did:" +:+ d) (ge_instant env) =
        (None, read_principal_limiter lim') ∧
      read_anonymous_limiter lim' = read_anonymous_limiter lim
  end.

(** C21: a read reaches its handler only as whom its one credential authenticates: as a
    DID only with a configured, unexpired token of that DID or a JWT this registry's
    validator accepts for it, anonymously only when it carries no bearer at all; and
    only after its own budget, and no other, was charged. A bearer that fails never
    falls back to anonymous: it is refused, and charged to the anonymous budget. *)
Theorem read_gate_never_downgrades (st : GateState) (env : GateEnv)
    (entries : list ReadTokenEntry) (lim lim' : Limiters) (req : ReadRequest) (ans : GateAnswer) :
  (∀ m, length (digest m) = 32%nat) →
  gate_tokens st = read_tokens_from_config (auth_bindings st) entries →
  read_gate jwt_decode acdp_display st env lim req = (ans, lim') →
  rq_is_read req = true →
  match ans with
  | GateHandled p => authenticates st env entries req p ∧ charged st env req p lim lim'
  | GatePassed => False
  | GateRefused r =>
      ∀ e, gate_resolve jwt_decode st env (rq_authorization req) = Err e →
        bearer_static_active st && query_names_access_token (rq_query_names req) = false →
        let c := gate_charge acdp_display (read_anonymous_limiter lim) (anonymous_key st req)
                   (ge_instant env) in
        read_anonymous_limiter lim' = c.2 ∧ r = default (into_response acdp_display pretty e) c.1
  end.
Proof.
  intros Hdig Htok Hg Hread. unfold read_gate in Hg. rewrite Hread in Hg. cbn [negb] in Hg.
  destruct (bearer_static_active st && _) eqn:Hq; [injection Hg as <- <-; intros e ? ?; congruence|].
  destruct (gate_resolve jwt_decode st env (rq_authorization req)) as [[|d t]|e] eqn:Hr.
  - pose proof (gate_resolve_ok _ _ _ _ _ Hdig Htok Hr) as Ha.
    destruct (gate_charge _ _ _ _) as [[r|] l] eqn:Hc; injection Hg as <- <-; [done|].
    by split; [|split].
  - pose proof (gate_resolve_ok _ _ _ _ _ Hdig Htok Hr) as Ha.
    destruct (gate_charge _ _ _ _) as [[r|] l] eqn:Hc; injection Hg as <- <-; [done|].
    by split; [|split].
  - destruct (gate_charge _ _ _ _) as [limited l] eqn:Hc. injection Hg as <- <-.
    by intros e' [= <-] _.
Qed.

(** Where a resolved tenant [r] comes from, for the authority [a] the credential (or
    the binding of the producer) gives. *)
Definition vouched (st : GateState (R := R)) (req : ReadRequest) (a r : option string) : Prop :=
  let header := tenant_from_headers (rq_tenant_id req) in
  (header = None ∨ header = r) ∧ r ≠ Some RESERVED_TENANT ∧
  match r with
  | None => auth_enabled st = true → a = None ∧ auth_require_tenant st = false
  | Some t =>
      auth_enabled st = true ∧ a = Some t ∨
      header = Some t ∧
      tenant_header_trusted (tenant_header_trust st) (rq_peer req) (tenant_trusted_proxies st) = true ∧
      (auth_enabled st = true → a = None)
  end.

Lemma reject_reserved_ok r u : reject_reserved_tenant r = Ok u → r ≠ Some RESERVED_TENANT.
Proof. unfold reject_reserved_tenant. by case_bool_decide. Qed.

Lemma unbound_header_ok (st : GateState (R := R)) h peer r :
  unbound_header_tenant st h peer = Ok r →
  r = h ∧ (h ≠ None →
    tenant_header_trusted (tenant_header_trust st) peer (tenant_trusted_proxies st) = true).
Proof.
  unfold unbound_header_tenant. destruct h as [h|]; [|by intros [= <-]].
  destruct (tenant_header_trusted _ _ _); [by intros [= <-]|done].
Qed.

Lemma tenant_resolution_vouched denied st req a r :
  tenant_resolution denied st req a = Ok r → vouched st req a r.
Proof.
  unfold tenant_resolution, vouched. set (h := tenant_from_headers _).
  destruct (reject_reserved_tenant h) as [u|] eqn:Hres; cbn [and_then]; [|done].
  apply reject_reserved_ok in Hres. destruct (auth_enabled st); cbn [negb].
  2:{ intros [-> Htr]%unbound_header_ok. split_and!; [by right|done|].
      destruct h; [|done]. right. split_and!; [done|by apply Htr|done]. }
  intros Hok.
  destruct (match a with Some c => _ | None => _ end) as [res|] eqn:Ha; cbn [and_then] in Hok; [|done].
  destruct (auth_require_tenant st && _) eqn:Hstrict; [done|].
  destruct (reject_reserved_tenant res) eqn:Hr2; cbn [and_then] in Hok; [|done].
  apply reject_reserved_ok in Hr2. injection Hok as <-.
  destruct a as [c|].
  - unfold reconcile_tenant_sources in Ha. destruct h as [h'|]; [|injection Ha as <-; tauto].
    destruct (bool_decide (c = h')) eqn:Hch; simpl in Ha; [|discriminate].
    apply bool_decide_eq_true in Hch. injection Ha as <-. subst c. tauto.
  - apply unbound_header_ok in Ha as [-> Htr]. split_and!; [by right|done|].
    destruct h; [right; split_and!; [done|by apply Htr|done]|].
    intros _. split; [done|]. rewrite bool_decide_true in Hstrict; [|done].
    by rewrite andb_true_r in Hstrict.
Qed.

(** C22: a request's tenant always has a voucher. A read's tenant is the one its
    credential binds, a publish's the one its bearer or its producer's binding
    gives; only without those is it the [X-Tenant-Id] header, and only from a peer
    the operator declared. A header that disagrees, or that nobody vouches for, is
    refused and never ignored; [default] is never a tenant; and under
    [require_tenant] no authenticated deployment serves an unscoped request. *)
Theorem tenant_scope_is_vouched (st : GateState) (env : GateEnv) (req : ReadRequest) :
  (∀ p r, tenant_for_principal st req p = Ok r → vouched st req (tenant_claim p) r) ∧
  (∀ r, tenant_for_request jwt_decode st env req = Ok r →
     vouched st req (bearer_tenant_claim jwt_decode st env req) r) ∧
  (∀ agent r, tenant_for_publish jwt_decode st env req agent = Ok r →
     vouched st req
       (match bearer_tenant_claim jwt_decode st env req with
        | Some t => Some t
        | None => tenant_for_agent (auth_bindings st) agent
        end) r).
Proof. split_and!; intros *; apply tenant_resolution_vouched. Qed.
End properties.

(** *** Concrete requests *)

Module ReadGateExample.

(** Every token hashes to zeros and decodes to zeros. *)
#[local] Instance zero_crypto : ReadTokenCrypto := {
  digest := λ _, replicate 32 0%Z;
  url_safe_no_pad_decode := λ _, Some (replicate 32 0%Z)
}.

Definition zeros (n : nat) : string := from_bytes (replicate n 48%Z).

Definition entry1 : ReadTokenEntry := mkReadTokenEntry "t1" "did:web:a" (zeros 64) (Some 900%Z) None true.
Definition bindings1 : list TenantAgentBinding := [mkBinding "did:web:a" "acme"].

Definition no_jwt : Validation → Z → string → result BearerClaims string := λ _ _ _, Err "none".
Definition no_display : AcdpError → string := λ _, "".

Definition gate1 : GateState :=
  mkGateState true true bindings1 (read_tokens_from_config bindings1 [entry1])
    example_signer (mkMemRevocations false ∅ false ∅)
    (mkForwardedPolicy [] FH_TrustedProxies 0) TH_None [].

Definition genv1 : GateEnv := mkGateEnv (mkCallEnv 500 DbOk) 7.

Definition token1 : string := READ_TOKEN_PREFIX +:+ zeros 43.

Definition read1 (tenant : option (option string)) : ReadRequest :=
  mkReadRequest true [] (parse_ip "203.0.113.9") [Some ("Bearer " +:+ token1)] [] tenant.

Definition limiters1 : Limiters := mkLimiters (Some (AgentRateLimiter_new 5 0)) None.

Lemma read_gate_never_downgrades_witness :
  authenticates no_jwt gate1 genv1 [entry1] (read1 None) (Did "did:web:a" (Some "acme")) ∧
  charged no_display gate1 genv1 (read1 None) (Did "did:web:a" (Some "acme")) limiters1 limiters1.
Proof.
  apply (read_gate_never_downgrades no_jwt no_display gate1 genv1 [entry1] limiters1 limiters1
           (read1 None) (GateHandled (Did "did:web:a" (Some "acme")))).
  - reflexivity.
  - reflexivity.
  - vm_compute. reflexivity.
  - reflexivity.
Defined.

(** The same token after its expiry is refused, not served anonymously. *)
Example expired_token_refused :
  gate_resolve no_jwt gate1 (mkGateEnv (mkCallEnv 900 DbOk) 7) (rq_authorization (read1 None)) =
    Err (RE_AuthToken "expired read token").
Proof. vm_compute. reflexivity. Qed.

(** The header must agree with the binding. *)
Example tenant_header_disagrees :
  map (λ h, is_ok (tenant_for_principal gate1 (read1 h) (Did "did:web:a" (Some "acme"))))
    [None; Some (Some " acme"); Some (Some "other"); Some (Some "default")] =
    [true; true; false; false].
Proof. vm_compute. reflexivity. Qed.

Lemma tenant_scope_is_vouched_witness :
  vouched gate1 (read1 None) (Some "acme") (Some "acme").
Proof.
  destruct (tenant_scope_is_vouched no_jwt gate1 genv1 (read1 None)) as (Hp & _ & _).
  apply (Hp (Did "did:web:a" (Some "acme"))). vm_compute. reflexivity.
Defined.

End ReadGateExample.
