(* ===== verification/ChangesHttp.v ===== *)
(** * [GET /changes]: the request

    The query parser and the handler around [evaluate_changes] of
    [acdp-registry-core/src/handlers/changes.rs]. The decoded query pairs
    ([url::form_urlencoded::parse]) are an input; the SDK's filter rules are the
    class [QuerySdk]. *)

From stdpp Require Import pretty.
From S2P Require Import Prelude Text RateLimit ChallengeStore Revocation AuthService Errors ContextTypes ChangeBucket.
From S2P Require Import ChangeFeed FeedBackends Changes ChangesKey ClientIp ReadGate.

Open Scope registry_scope.

Class QuerySdk : Type := {
  (** [ChangeKind::parse]. *)
  change_kind_parse : string → result ChangeKind AcdpError;
  (** [WatchFilter::validate] against a number of values. *)
  filter_validate : WatchFilter → Z → result unit AcdpError;
  MAX_CURSOR_LEN : Z
}.

(** ** Parsing *)

Definition schema (m : string) : RegistryError := RE_Acdp (SchemaViolation m).

Definition limit_violation (max : Z) (raw : string) : RegistryError :=
  RE_FieldViolation "limit"
    ("limit must be a positive integer, at most limits.max_changes_page " +:+ pretty max +:+
     " is served (got '" +:+ raw +:+ "') (RFC-ACDP-0018 §5.1)").

Definition not_a_cursor : RegistryError :=
  RE_Acdp (InvalidCursor "since is not a cursor this registry issued").

Section request.
Context `{Hsdk : ChangeSdk} `{!ChangesWire} `{!ChangesCrypto} `{!QuerySdk}.

Definition parse_bucket (field raw : string) (max_bucket_len : option Z) :
    result string RegistryError :=
  match max_bucket_len with
  | None =>
      Err (RE_FieldViolation field
        ("bucket filters are not supported: limits.max_change_bucket_length is not advertised, so " +:+
         field +:+ " is refused (RFC-ACDP-0018 §6.1)"))
  | Some max =>
      match bucket_parse validate_buckets raw max with
      | Ok b => Ok (bucket_digits b)
      | Err (SchemaViolation m) => Err (RE_FieldViolation field (field +:+ ": " +:+ m))
      | Err e => Err (RE_FieldViolation field (field +:+ ": " +:+ sdk_display e))
      end
  end.

(** The loop's variables. *)
Record RawRequest : Type := mkRaw {
  raw_since : option string;
  raw_limit : option string;
  raw_filter : WatchFilter
}.

(** One parameter of the query. *)
Definition take_pair (max_bucket_len : option Z) (r : RawRequest) (k v : string) :
    result RawRequest RegistryError :=
  let f := raw_filter r in
  let with_filter f := mkRaw (raw_since r) (raw_limit r) f in
  let twice := schema ("query parameter '" +:+ k +:+ "' given more than once") in
  if bool_decide (k = "since") then
    match raw_since r with
    | Some _ => Err twice
    | None => Ok (mkRaw (Some v) (raw_limit r) f)
    end
  else if bool_decide (k = "limit") then
    match raw_limit r with
    | Some _ => Err twice
    | None => Ok (mkRaw (raw_since r) (Some v) f)
    end
  else if bool_decide (k = "ctx_id") then
    let? x := acdp (ctx_id_parse v) in
    Ok (with_filter (mkFilter (w_ctx_id f ++ [x]) (w_lineage_id f) (w_agent_id f) (w_kind f)
                       (w_lineage_bucket f) (w_agent_bucket f)))
  else if bool_decide (k = "lineage_id") then
    let? x := acdp (lineage_id_parse v) in
    Ok (with_filter (mkFilter (w_ctx_id f) (w_lineage_id f ++ [x]) (w_agent_id f) (w_kind f)
                       (w_lineage_bucket f) (w_agent_bucket f)))
  else if bool_decide (k = "agent_id") then
    let? x := acdp (agent_did_parse v) in
    Ok (with_filter (mkFilter (w_ctx_id f) (w_lineage_id f) (w_agent_id f ++ [x]) (w_kind f)
                       (w_lineage_bucket f) (w_agent_bucket f)))
  else if bool_decide (k = "kind") then
    let? x := acdp (change_kind_parse v) in
    Ok (with_filter (mkFilter (w_ctx_id f) (w_lineage_id f) (w_agent_id f) (w_kind f ++ [x])
                       (w_lineage_bucket f) (w_agent_bucket f)))
  else if bool_decide (k = "lineage_bucket") then
    let? x := parse_bucket "lineage_bucket" v max_bucket_len in
    Ok (with_filter (mkFilter (w_ctx_id f) (w_lineage_id f) (w_agent_id f) (w_kind f)
                       (w_lineage_bucket f ++ [x]) (w_agent_bucket f)))
  else if bool_decide (k = "agent_bucket") then
    let? x := parse_bucket "agent_bucket" v max_bucket_len in
    Ok (with_filter (mkFilter (w_ctx_id f) (w_lineage_id f) (w_agent_id f) (w_kind f)
                       (w_lineage_bucket f) (w_agent_bucket f ++ [x])))
  else Ok r.

Fixpoint take_pairs (max_bucket_len : option Z) (r : RawRequest) (pairs : list (string * string)) :
    result RawRequest RegistryError :=
  match pairs with
  | [] => Ok r
  | (k, v) :: pairs =>
      let? r := take_pair max_bucket_len r k v in
      take_pairs max_bucket_len r pairs
  end.

Definition raw_start : RawRequest := mkRaw None None (mkFilter [] [] [] [] [] []).

(** The [limit] parameter. *)
Definition parse_limit (max_changes_page : Z) (raw : option string) : result Z RegistryError :=
  match raw with
  | None => Ok (Z.min DEFAULT_LIMIT max_changes_page)
  | Some raw =>
      match parse_u64 raw with
      | Ok n => if (1 <=? n)%Z then Ok (Z.min n max_changes_page)
                else Err (limit_violation max_changes_page raw)
      | Err IE_PosOverflow => Ok max_changes_page
      | Err _ => Err (limit_violation max_changes_page raw)
      end
  end.

(** The [since] parameter. *)
Definition parse_since (key : ChangesKey) (raw : option string) : result Since RegistryError :=
  match raw with
  | None => Ok Oldest
  | Some c =>
      if bool_decide (c = "head") then Ok SinceHead
      else if bool_decide (c = "") || (MAX_CURSOR_LEN <? chars_count c)%Z then Err not_a_cursor
      else
        match key_decode_cursor key c with
        | Ok cursor => Ok (Cursor cursor)
        | Err CE_Invalid => Err not_a_cursor
        | Err (CE_UnknownKey | CE_Stale) => Err (RE_Acdp CursorExpired)
        end
  end.

Definition parse_request (pairs : list (string * string)) (key : ChangesKey)
    (max_change_filters max_changes_page : Z) (max_bucket_len : option Z) :
    result ChangesRequest RegistryError :=
  let? r := take_pairs max_bucket_len raw_start pairs in
  let? _ := acdp (filter_validate (raw_filter r) max_change_filters) in
  let? limit := parse_limit max_changes_page (raw_limit r) in
  let? since := parse_since key (raw_since r) in
  Ok (mkRequest since limit (raw_filter r)).
End request.

(** ** The handler *)

Section handler.
Context {S Env : Type} `{Hsdk : ChangeSdk} `{!ChangeFeed S Env} `{!ChangesStore S} `{!ChangesWire}.
Context `{!ChangesCrypto} `{!QuerySdk} {R : Type} `{!RevocationStore R}.

(** [[changes]] limits, and the advertised bucket length. *)
Record ChangesLimits : Type := mkChangesLimits {
  max_change_filters : Z;
  max_changes_page : Z;
  max_change_bucket_length : option Z
}.

(** [serve]; [state] is [None] without a [changes] key. *)
Definition changes_serve (state : option (AppState ChangesKey)) (cfg : ChangesLimits)
    (gate : GateState (R := R)) (store_at : nat → S) (req : ReadRequest) (principal : ReadPrincipal)
    (pairs : list (string * string)) : result (ChangesResponse * Z) RegistryError :=
  let? state := ok_or state (RE_Acdp (NotImplemented
    "this registry does not advertise acdp-registry-changes (RFC-ACDP-0018: GET /changes is not implemented)")) in
  let? rq := parse_request pairs (st_key state) (max_change_filters cfg) (max_changes_page cfg)
               (max_change_bucket_length cfg) in
  if bool_decide (requester principal = None) && negb (anonymous_public_reads state) then
    Err (RE_Acdp (NotAuthorized
      "anonymous /changes requires authentication (registry caps: anonymous_public_reads=false)"))
  else
    let? tenant := tenant_for_principal gate req principal in
    evaluate_changes state store_at (requester principal) tenant rq.
End handler.

(** ** What a parsed request promises *)

Section properties.
Context `{Hsdk : ChangeSdk} `{!ChangesWire} `{!ChangesCrypto} `{!QuerySdk}.

(** A bucket value the registry advertises. *)
Definition bucket_allowed (max_bucket_len : option Z) (x : string) : Prop :=
  ∃ m, max_bucket_len = Some m ∧ hex_string x ∧ (1 ≤ Z.of_nat (length (as_bytes x)) ≤ m)%Z.

Lemma parse_bucket_allowed field raw mb x :
  bucket_grammar validate_buckets → parse_bucket field raw mb = Ok x → bucket_allowed mb x.
Proof.
  intros Hg. unfold parse_bucket. destruct mb as [m|]; [|done].
  unfold bucket_parse.
  destruct (validate_buckets raw _) as [[]|e] eqn:Hv; simpl; [|by destruct e].
  intros [= <-]. destruct (Hg _ _ Hv) as [Hh Hl]. exists m. simpl. split_and!; [done|done|lia|lia].
Qed.

(** What one parameter may change. *)
Record pair_taken (mb : option Z) (k v : string) (r r' : RawRequest) : Prop := {
  pt_since : if bool_decide (k = "since") then raw_since r = None ∧ raw_since r' = Some v
             else raw_since r' = raw_since r;
  pt_limit : if bool_decide (k = "limit") then raw_limit r = None ∧ raw_limit r' = Some v
             else raw_limit r' = raw_limit r;
  pt_buckets x :
    x ∈ w_lineage_bucket (raw_filter r') ++ w_agent_bucket (raw_filter r') →
    x ∈ w_lineage_bucket (raw_filter r) ++ w_agent_bucket (raw_filter r) ∨ bucket_allowed mb x
}.

Lemma take_pair_ok mb r k v r' :
  bucket_grammar validate_buckets → take_pair mb r k v = Ok r' → pair_taken mb k v r r'.
Proof.
  intros Hg. unfold take_pair.
  assert (Hb : ∀ f x, parse_bucket f v mb = Ok x → bucket_allowed mb x)
    by (intros; by eapply parse_bucket_allowed).
  repeat (match goal with |- context [bool_decide (k = ?s)] => destruct (decide (k = s)) as [->|] end;
          [rewrite bool_decide_true //|rewrite bool_decide_false //]).
  all: try (destruct (raw_since r) eqn:?; [discriminate|]).
  all: try (destruct (raw_limit r) eqn:?; [discriminate|]).
  all: try (match goal with |- context [acdp ?e] => destruct e; simpl; [|discriminate] end).
  all: try (match goal with |- context [parse_bucket ?f ?w ?m] =>
              destruct (parse_bucket f w m) eqn:?; simpl; [|discriminate] end).
  all: intros [= <-]; split; cbn [raw_since raw_limit raw_filter];
    try (case_bool_decide; done).
  all: intros x; cbn [w_lineage_bucket w_agent_bucket]; rewrite ?elem_of_app ?list_elem_of_singleton.
  all: naive_solver.
Qed.

(** The values given for a parameter. *)
Definition values_of (k : string) (pairs : list (string * string)) : list string :=
  map snd (filter (λ p, p.1 = k) pairs).

Lemma take_pairs_ok mb r pairs r' :
  bucket_grammar validate_buckets → take_pairs mb r pairs = Ok r' →
  (∀ k old new, (k = "since" ∧ old = raw_since r ∧ new = raw_since r' ∨
                 k = "limit" ∧ old = raw_limit r ∧ new = raw_limit r') →
     option_list old ++ values_of k pairs = option_list new) ∧
  (∀ x, x ∈ w_lineage_bucket (raw_filter r') ++ w_agent_bucket (raw_filter r') →
     x ∈ w_lineage_bucket (raw_filter r) ++ w_agent_bucket (raw_filter r) ∨ bucket_allowed mb x).
Proof.
  intros Hg. revert r. induction pairs as [|[k v] pairs IH]; intros r; cbn [take_pairs].
  { intros [= <-]. split; [|tauto].
    intros k old new [(_ & -> & ->)|(_ & -> & ->)]; by rewrite app_nil_r. }
  destruct (take_pair mb r k v) as [r1|] eqn:Ht1; cbn [and_then]; [|discriminate]. intros Ht2.
  destruct (take_pair_ok _ _ _ _ _ Hg Ht1) as [Hs Hl Hb]. destruct (IH r1 Ht2) as [IHv IHb].
  split; [|intros x Hx; destruct (IHb x Hx) as [Hx1|]; [by apply Hb|by right]].
  intros k' old new Hk. unfold values_of. rewrite filter_cons. simpl.
  destruct Hk as [(-> & -> & ->)|(-> & -> & ->)].
  - rewrite -(IHv "since" (raw_since r1) (raw_since r')); [|by left].
    revert Hs. clear Hl. case_bool_decide as Hk; [intros [-> ->]; by rewrite decide_True|].
    intros ->. by rewrite decide_False.
  - rewrite -(IHv "limit" (raw_limit r1) (raw_limit r')); [|by right].
    revert Hl. clear Hs. case_bool_decide as Hk; [intros [-> ->]; by rewrite decide_True|].
    intros ->. by rewrite decide_False.
Qed.

Lemma parse_limit_bounds max raw n :
  (1 ≤ max)%Z → parse_limit max raw = Ok n → (1 ≤ n ≤ max)%Z.
Proof.
  intros Hmax. unfold parse_limit, DEFAULT_LIMIT. destruct raw as [raw|]; [|intros [= <-]; lia].
  destruct (parse_u64 raw) as [k|[]]; try discriminate; [|intros [= <-]; lia].
  destruct (1 <=? k)%Z eqn:E; [|discriminate]. bool_to_prop. intros [= <-]. lia.
Qed.

(** What a request the parser lets through is: [since] and [limit] were each given
    at most once and mean their value, the limit is between 1 and the advertised
    page size, the filter passed the SDK's rules for the advertised number of values,
    a bucket value is only there when buckets are advertised and is lowercase hex of
    an advertised length, and a cursor is one this registry's key decodes. *)
Theorem parsed_request_keeps_the_limits (pairs : list (string * string)) (key : ChangesKey)
    (max_filters max_page : Z) (max_bucket_len : option Z) (rq : ChangesRequest) :
  bucket_grammar validate_buckets → (1 ≤ max_page)%Z →
  parse_request pairs key max_filters max_page max_bucket_len = Ok rq →
  ∃ since limit,
    values_of "since" pairs = option_list since ∧ parse_since key since = Ok (req_since rq) ∧
    values_of "limit" pairs = option_list limit ∧ parse_limit max_page limit = Ok (req_limit rq) ∧
    (1 ≤ req_limit rq ≤ max_page)%Z ∧
    filter_validate (req_filter rq) max_filters = Ok tt ∧
    Forall (bucket_allowed max_bucket_len)
      (w_lineage_bucket (req_filter rq) ++ w_agent_bucket (req_filter rq)) ∧
    match req_since rq with
    | Cursor c => ∃ raw, since = Some raw ∧ key_decode_cursor key raw = Ok c
    | Position _ => False
    | Oldest => since = None
    | SinceHead => since = Some "head"
    end.
Proof.
  intros Hg Hmax. unfold parse_request.
  destruct (take_pairs _ _ _) as [r|] eqn:Hp; cbn [and_then]; [|discriminate].
  destruct (filter_validate _ _) as [[]|] eqn:Hf; cbn [acdp map_err and_then]; [|discriminate].
  destruct (parse_limit _ _) as [n|] eqn:Hl; cbn [and_then]; [|discriminate].
  destruct (parse_since _ _) as [s|] eqn:Hs; cbn [and_then]; [|discriminate]. intros [= <-].
  destruct (take_pairs_ok _ _ _ _ Hg Hp) as [Hv Hb].
  exists (raw_since r), (raw_limit r). cbn [req_since req_limit req_filter].
  split; [by rewrite -(Hv "since" None (raw_since r)); [|left]|]. split; [done|].
  split; [by rewrite -(Hv "limit" None (raw_limit r)); [|right]|]. split; [done|].
  pose proof (parse_limit_bounds _ _ _ Hmax Hl). split; [done|]. split; [done|]. split.
  { apply Forall_forall. intros x Hx. destruct (Hb x Hx) as [Hn|]; [|done].
    by apply not_elem_of_nil in Hn. }
  revert Hs. clear. unfold parse_since. destruct (raw_since r) as [c|]; [|by intros [= <-]].
  case_bool_decide; [subst; by intros [= <-]|].
  destruct (_ || _); [discriminate|].
  destruct (key_decode_cursor key c) as [d|[]] eqn:Hd; try discriminate.
  intros [= <-]. by exists c.
Qed.

(** Reading on: the cursor a page ended with, given back as [since], is parsed to
    the position and anchor it was issued with, whatever filters, limit and unknown
    parameters stand beside it. *)
Theorem served_cursor_resumes (key : ChangesKey) `{!CryptoLaws} (pos : Z) (anchor : CursorAnchor)
    (pairs : list (string * string)) (max_filters max_page : Z) (max_bucket_len : option Z)
    (rq : ChangesRequest) :
  bucket_grammar validate_buckets → key_wf key → cursor_values pos anchor →
  let c := key_encode_cursor key pos anchor in
  c ≠ "head" → c ≠ "" → (chars_count c ≤ MAX_CURSOR_LEN)%Z → ("since", c) ∈ pairs →
  parse_request pairs key max_filters max_page max_bucket_len = Ok rq →
  req_since rq = Cursor (mkDecoded pos anchor).
Proof.
  intros Hg Hk Hv c Hh He Hlen Hin. unfold parse_request.
  destruct (take_pairs _ _ _) as [r|] eqn:Hp; cbn [and_then]; [|discriminate].
  destruct (filter_validate _ _); cbn [acdp map_err and_then]; [|discriminate].
  destruct (parse_limit _ _); cbn [and_then]; [|discriminate].
  destruct (take_pairs_ok _ _ _ _ Hg Hp) as [Hvals _].
  specialize (Hvals "since" None (raw_since r) ltac:(by left)). simpl in Hvals.
  assert (Hc : c ∈ option_list (raw_since r)).
  { rewrite -Hvals. apply list_elem_of_fmap. exists ("since", c). split; [done|].
    by apply list_elem_of_filter. }
  destruct (raw_since r) as [c'|]; [|by apply not_elem_of_nil in Hc].
  apply list_elem_of_singleton in Hc. subst c'.
  unfold parse_since. rewrite (bool_decide_false (c = "head")) // (bool_decide_false (c = "")) //.
  rewrite (proj2 (Z.ltb_ge _ _) Hlen). cbn [orb].
  unfold c. rewrite (key_codec_roundtrip key pos); [|done|done]. cbn [and_then].
  by intros [= <-].
Qed.
End properties.

(** Every [/changes] answer is scoped: it comes from [evaluate_changes] run as the
    principal the gate resolved, in a tenant somebody vouched for, on a request that
    parsed; an anonymous reader gets one only where anonymous public reads are on;
    and a malformed request is refused alike for everyone, before who asks matters. *)
Theorem changes_answers_are_scoped {S Env : Type} `{Hsdk : ChangeSdk} `{!ChangeFeed S Env}
    `{!ChangesStore S} `{!ChangesWire} `{!ChangesCrypto} `{!QuerySdk} {R : Type}
    (state : AppState ChangesKey) (cfg : ChangesLimits) (gate : GateState (R := R))
    (store_at : nat → S) (req : ReadRequest) (pairs : list (string * string)) :
  let parsed := parse_request pairs (st_key state) (max_change_filters cfg) (max_changes_page cfg)
                  (max_change_bucket_length cfg) in
  (∀ e, parsed = Err e →
     ∀ principal, changes_serve (Some state) cfg gate store_at req principal pairs = Err e) ∧
  (∀ principal resp n,
     changes_serve (Some state) cfg gate store_at req principal pairs = Ok (resp, n) →
     ∃ rq tenant,
       parsed = Ok rq ∧ (principal = Anonymous → anonymous_public_reads state = true) ∧
       vouched gate req (tenant_claim principal) tenant ∧
       evaluate_changes state store_at (requester principal) tenant rq = Ok (resp, n)).
Proof.
  intros parsed. unfold changes_serve. cbn [ok_or and_then]. fold parsed.
  split; [by intros e ->|]. intros principal resp n.
  destruct parsed as [rq|]; cbn [and_then]; [|discriminate].
  destruct (bool_decide _ && _) eqn:Hanon; [discriminate|].
  destruct (tenant_for_principal gate req principal) as [tenant|] eqn:Ht; cbn [and_then];
    [|discriminate].
  intros He. exists rq, tenant. split_and!; [done| |by eapply tenant_resolution_vouched|done].
  intros ->. rewrite bool_decide_true in Hanon; [|done]. by apply negb_false_iff in Hanon.
Qed.

(** *** Concrete requests *)

Module ChangesHttpExample.

Import FeedExample ChangesExample ReadGateExample.

#[local] Existing Instance toy_sdk.
#[local] Existing Instance toy_crypto.
#[local] Existing Instance toy_laws.
#[local] Existing Instance toy_store.
#[local] Existing Instance toy_wire.

#[local] Instance toy_query : QuerySdk := {
  change_kind_parse := λ s, ok_or (kind_parse s) (SchemaViolation "unknown kind");
  filter_validate := λ _ _, Ok tt;
  MAX_CURSOR_LEN := 512
}.

Example limits :
  map (λ s, parse_limit 50 (Some s)) ["7"; "+7"; "99"; "99999999999999999999999"] =
    [Ok 7; Ok 7; Ok 50; Ok 50]%Z ∧
  map (λ s, is_ok (parse_limit 50 (Some s))) ["0"; ""; "-1"; "1e3"; "+"] = replicate 5 false.
Proof. vm_compute. split; reflexivity. Qed.

Definition pairs1 : list (string * string) :=
  [("since", key_encode_cursor toy_key 7 toy_anchor); ("agent_bucket", "0a"); ("x", "y")].

Definition rq1 : ChangesRequest :=
  mkRequest (Cursor (mkDecoded 7 toy_anchor)) 50 (mkFilter [] [] [] [] [] ["0a"]).

Lemma parsed_request_keeps_the_limits_witness :
  ∃ since limit,
    values_of "since" pairs1 = option_list since ∧ parse_since toy_key since = Ok (req_since rq1) ∧
    values_of "limit" pairs1 = option_list limit ∧ parse_limit 50 limit = Ok (req_limit rq1) ∧
    (1 ≤ req_limit rq1 ≤ 50)%Z ∧ filter_validate (req_filter rq1) 9 = Ok tt ∧
    Forall (bucket_allowed (Some 4%Z))
      (w_lineage_bucket (req_filter rq1) ++ w_agent_bucket (req_filter rq1)) ∧
    ∃ raw, since = Some raw ∧ key_decode_cursor toy_key raw = Ok (mkDecoded 7 toy_anchor).
Proof.
  apply (parsed_request_keeps_the_limits pairs1 toy_key 9 50 (Some 4%Z) rq1).
  - exact toy_grammar.
  - lia.
  - vm_compute. reflexivity.
Defined.

Lemma served_cursor_resumes_witness : req_since rq1 = Cursor (mkDecoded 7 toy_anchor).
Proof.
  apply (served_cursor_resumes toy_key 7 toy_anchor pairs1 9 50 (Some 4%Z) rq1).
  - exact toy_grammar.
  - exact toy_key_wf.
  - exact toy_values.
  - vm_compute. discriminate.
  - vm_compute. discriminate.
  - vm_compute. discriminate.
  - left.
  - vm_compute. reflexivity.
Defined.

End ChangesHttpExample.
