(* ===== verification/Webhook.v ===== *)
(** * Webhooks

    [acdp-registry-webhook/src/lib.rs] and [acdp-registry-types/src/event.rs]: the
    events, the bounded queue the handlers write to without waiting, and the worker
    that signs and posts them one after the other. HMAC, the JSON text of an
    envelope and the SSRF policy are the class [WebhookSdk]; what the receiver
    answers is an input of each delivery. *)

From stdpp Require Import pretty.
From S2P Require Import Prelude Text ContextTypes.

Open Scope registry_scope.

(** ** Events *)

Inductive WebhookEvent : Type :=
  | ContextPublished (registry_authority registry_base_url ctx_id lineage_id agent_id context_type
                      visibility : string) (version created_at : Z) (derived_from : list string)
                     (run_id key_fingerprint : option string) (registry_receipt : option Value)
  | ContextRetrieved (registry_authority ctx_id : string) (requester_did : option string) (at_ : Z)
  | ContextRetracted (registry_authority ctx_id lineage_id actor event_id : string)
                     (reason : option string) (at_ : Z)
  | ContextRepublished (registry_authority ctx_id lineage_id actor event_id : string)
                       (reason : option string) (at_ : Z)
  | SearchExecuted (registry_authority : string) (query : option string) (result_count : nat)
                   (requester_did : option string) (at_ : Z).

(** [WebhookEvent::name]. *)
Definition event_name (e : WebhookEvent) : string :=
  match e with
  | ContextPublished _ _ _ _ _ _ _ _ _ _ _ _ _ => "context.published"
  | ContextRetrieved _ _ _ _ => "context.retrieved"
  | ContextRetracted _ _ _ _ _ _ _ => "context.retracted"
  | ContextRepublished _ _ _ _ _ _ _ => "context.republished"
  | SearchExecuted _ _ _ _ _ => "search.executed"
  end.

Definition WEBHOOK_SCHEMA_VERSION : string := "1.0".

Inductive WebhookError : Type := WE_Closed | WE_Encode (m : string) | WE_Config (m : string).

Record WebhookConfig : Type := mkWebhookConfig {
  wh_enabled : bool;
  wh_url : string;
  wh_secret : string;
  wh_timeout_seconds : Z;
  wh_max_retries : Z;
  wh_queue_capacity : nat
}.

Record Delivery : Type := mkDelivery {
  d_event_id : string;
  d_event : WebhookEvent;
  d_tenant_id : option string
}.

(** What the crate takes from others: HMAC-SHA-256 of a key and a message, the JSON
    text of a [WireEnvelope] (event id, schema version, event), and the check of a
    URL. *)
Class WebhookSdk : Type := {
  hmac_sha256 : list Z → list Z → list Z;
  envelope_json : string → string → WebhookEvent → result (list Z) string;
  check_url : string → result unit string
}.

(** ** The emitter *)

(** The bounded [mpsc] channel: what is queued, and whether its worker is gone. *)
Record Emitter : Type := mkEmitter {
  em_capacity : nat;
  em_queue : list Delivery;
  em_closed : bool
}.

Definition spawn (config : WebhookConfig) : Emitter :=
  mkEmitter (Nat.max (wh_queue_capacity config) 1) [] false.

Definition try_spawn `{!WebhookSdk} (config : WebhookConfig) : result Emitter WebhookError :=
  let active := wh_enabled config && negb (bool_decide (wh_url config = "")) in
  let? _ := (if active
             then map_err (λ e, WE_Config ("webhook.url '" +:+ wh_url config +:+
                                           "' rejected by SSRF policy: " +:+ e))
                    (check_url (wh_url config))
             else Ok tt) in
  if active && bool_decide (trim (wh_secret config) = "") then
    Err (WE_Config ("webhook.secret must be non-empty when webhook.enabled and webhook.url are set; " +:+
                    "HMAC over an empty key accepts every signature"))
  else Ok (spawn config).

Definition queue_status (em : Emitter) : nat * nat :=
  let available := em_capacity em - length (em_queue em) in
  (em_capacity em - available, em_capacity em).

(** [emit_with_tenant]: [try_send], which never waits. *)
Definition emit_with_tenant (em : Emitter) (event : WebhookEvent) (tenant_id : option string)
    (uuid : string) : Emitter :=
  if em_closed em then em
  else if (em_capacity em <=? length (em_queue em))%nat then em
  else mkEmitter (em_capacity em) (em_queue em ++ [mkDelivery uuid event tenant_id]) (em_closed em).

Definition emit (em : Emitter) (event : WebhookEvent) (uuid : string) : Emitter :=
  emit_with_tenant em event None uuid.

(** ** Signatures *)

Section sign.
Context `{!WebhookSdk}.

Definition sign (secret : string) (body : list Z) : string :=
  "sha256=" +:+ hex_encode (hmac_sha256 (as_bytes secret) body).

Definition sign_with_timestamp (secret : string) (timestamp : Z) (body : list Z) : string :=
  "sha256=" +:+ hex_encode (hmac_sha256 (as_bytes secret) (as_bytes (pretty timestamp) ++ as_bytes "." ++ body)).
End sign.

(** ** The worker *)

Definition TIMESTAMP_HEADER : string := "X-ACDP-Timestamp".
Definition TIMESTAMPED_SIGNATURE_HEADER : string := "X-ACDP-Signature-Timestamped".

Record Post : Type := mkPost {
  post_url : string;
  post_headers : list (string * string);
  post_body : list Z
}.

Inductive Reply : Type := Responded (status : Z) | TransportError.

Definition is_success (status : Z) : bool := ((200 <=? status) && (status <? 300))%Z.
Definition is_client_error (status : Z) : bool := ((400 <=? status) && (status <? 500))%Z.

(** Whether a reply ends the loop, whatever retries are left. *)
Definition is_final (r : Reply) : bool :=
  match r with
  | Responded s => is_success s || (is_client_error s && negb (s =? 429)%Z)
  | TransportError => false
  end.

(** The loop of [deliver]: the posts sent, the waits between them in milliseconds,
    and whether it has returned. [replies n] answers attempt [n]. *)
Fixpoint deliver_loop (max_retries : Z) (post : Post) (replies : Z → Reply) (fuel : nat)
    (attempt backoff : Z) : list Post * list Z * bool :=
  match fuel with
  | O => ([], [], false)
  | S fuel =>
      let attempt := (attempt + 1)%Z in
      if is_final (replies attempt) then ([post], [], true)
      else if (max_retries <=? attempt)%Z then ([post], [], true)
      else
        let '(posts, sleeps, returned) :=
          deliver_loop max_retries post replies fuel attempt (Z.min (backoff * 2) 15000) in
        (post :: posts, backoff :: sleeps, returned)
  end.

Section worker.
Context `{!WebhookSdk}.

Definition post_of (config : WebhookConfig) (delivery : Delivery) (body : list Z) (sent_at : Z) : Post :=
  let sig := sign (wh_secret config) body in
  let sig_ts := sign_with_timestamp (wh_secret config) sent_at body in
  mkPost (wh_url config)
    ([("Content-Type", "application/json"); ("X-ACDP-Signature", sig);
      ("X-ACDP-Event", event_name (d_event delivery)); ("X-ACDP-Event-Id", d_event_id delivery);
      (TIMESTAMP_HEADER, pretty sent_at); (TIMESTAMPED_SIGNATURE_HEADER, sig_ts)]
     ++ match d_tenant_id delivery with
        | Some tenant => [("X-Tenant-Id", tenant)]
        | None => []
        end) body.

Definition deliver_fuel (config : WebhookConfig) : nat := S (Z.to_nat (wh_max_retries config)).

(** [deliver], with the waits it takes. *)
Definition deliver (config : WebhookConfig) (delivery : Delivery) (sent_at : Z) (replies : Z → Reply) :
    result (list Post * list Z * bool) WebhookError :=
  let? body := map_err WE_Encode
                 (envelope_json (d_event_id delivery) WEBHOOK_SCHEMA_VERSION (d_event delivery)) in
  Ok (deliver_loop (wh_max_retries config) (post_of config delivery body sent_at) replies
        (deliver_fuel config) 0 250).

(** One turn of the worker on a queue that is not empty: the delivery it has taken
    and the posts it made for it. *)
Definition worker_turn (config : WebhookConfig) (em : Emitter) (sent_at : Z) (replies : Z → Reply) :
    option (Delivery * list Post * Emitter) :=
  match em_queue em with
  | [] => None
  | delivery :: rest =>
      let em := mkEmitter (em_capacity em) rest (em_closed em) in
      if negb (wh_enabled config) || bool_decide (wh_url config = "") then Some (delivery, [], em)
      else
        match deliver config delivery sent_at replies with
        | Ok (posts, _, _) => Some (delivery, posts, em)
        | Err _ => Some (delivery, [], em)
        end
  end.

(** ** Runs: emissions of handlers and turns of the worker, in any order *)

Inductive WebhookStep : Type :=
  | SEmit (event : WebhookEvent) (tenant_id : option string) (uuid : string)
  | STurn (sent_at : Z) (replies : Z → Reply).

Fixpoint webhook_run (config : WebhookConfig) (steps : list WebhookStep) (em : Emitter) :
    list (Delivery * list Post) * Emitter :=
  match steps with
  | [] => ([], em)
  | SEmit event tenant uuid :: steps =>
      webhook_run config steps (emit_with_tenant em event tenant uuid)
  | STurn sent_at replies :: steps =>
      match worker_turn config em sent_at replies with
      | None => webhook_run config steps em
      | Some (delivery, posts, em) =>
          let '(handled, em) := webhook_run config steps em in
          ((delivery, posts) :: handled, em)
      end
  end.

Fixpoint emissions (steps : list WebhookStep) : list Delivery :=
  match steps with
  | [] => []
  | SEmit event tenant uuid :: steps => mkDelivery uuid event tenant :: emissions steps
  | STurn _ _ :: steps => emissions steps
  end.
End worker.

(** ** Lemmas *)

(** The backoff before retry [i]. *)
Definition backoff_at (i : nat) : Z := Z.min (250 * 2 ^ Z.of_nat i) 15000.

Lemma backoff_at_S i : backoff_at (S i) = Z.min (backoff_at i * 2) 15000.
Proof. unfold backoff_at. rewrite Nat2Z.inj_succ Z.pow_succ_r; lia. Qed.

(** The attempts a delivery makes: up to the first final reply, and no more than the
    limit, but always one. *)
Definition attempts_ok (max_retries : Z) (replies : Z → Reply) (n : nat) : Prop :=
  (1 ≤ n)%nat ∧ (Z.of_nat n ≤ Z.max 1 max_retries)%Z ∧
  (∀ i, (1 ≤ i < Z.of_nat n)%Z → is_final (replies i) = false) ∧
  (is_final (replies (Z.of_nat n)) = true ∨ Z.of_nat n = Z.max 1 max_retries).

Lemma deliver_loop_spec max_retries post replies : ∀ fuel (done : nat),
  (max_retries - Z.of_nat done < Z.of_nat fuel)%Z → (0 < fuel)%nat →
  (Z.of_nat done < Z.max 1 max_retries)%Z →
  (∀ i, (1 ≤ i ≤ Z.of_nat done)%Z → is_final (replies i) = false) →
  ∃ n, attempts_ok max_retries replies (done + n) ∧ (1 ≤ n)%nat ∧
    deliver_loop max_retries post replies fuel (Z.of_nat done) (backoff_at done) =
      (replicate n post, map backoff_at (List.seq done (n - 1)), true).
Proof.
  induction fuel as [|fuel IH]; intros k Hfuel Hpos Hk Hbefore; [lia|]. cbn [deliver_loop].
  destruct (is_final (replies (Z.of_nat k + 1)%Z)) eqn:Hf.
  { exists 1%nat. split_and!; [split_and!|done|done]; [lia|lia| |left].
    - intros i Hi. apply Hbefore. lia.
    - rewrite (_ : Z.of_nat (k + 1) = Z.of_nat k + 1)%Z; [done|lia]. }
  assert (∀ i, (1 ≤ i ≤ Z.of_nat (S k))%Z → is_final (replies i) = false) as Hbefore'.
  { intros i Hi. destruct (decide (i = Z.of_nat k + 1)%Z) as [->|]; [done|]. apply Hbefore. lia. }
  destruct (max_retries <=? Z.of_nat k + 1)%Z eqn:Hm; bool_to_prop.
  { exists 1%nat. split_and!; [split_and!|done|done]; [lia|lia| |right; lia].
    intros i Hi. apply Hbefore'. lia. }
  rewrite (_ : Z.of_nat k + 1 = Z.of_nat (S k))%Z; [|lia]. rewrite -backoff_at_S.
  destruct (IH (S k)) as (n & Hok & Hn & Heq); [lia..|done|].
  exists (S n). rewrite -Nat.add_succ_comm. split; [done|]. split; [lia|]. rewrite Heq /= Nat.sub_0_r.
  by destruct n as [|n]; [lia|]; rewrite /= Nat.sub_0_r.
Qed.

Lemma deliver_posts `{!WebhookSdk} config delivery sent_at replies body :
  envelope_json (d_event_id delivery) WEBHOOK_SCHEMA_VERSION (d_event delivery) = Ok body →
  ∃ n, attempts_ok (wh_max_retries config) replies n ∧
    deliver config delivery sent_at replies =
      Ok (replicate n (post_of config delivery body sent_at), map backoff_at (List.seq 0 (n - 1)), true).
Proof.
  intros Hbody. unfold deliver. rewrite Hbody. cbn [map_err and_then].
  destruct (deliver_loop_spec (wh_max_retries config) (post_of config delivery body sent_at) replies
              (deliver_fuel config) 0) as (n & Hok & _ & Heq);
    [unfold deliver_fuel; lia|unfold deliver_fuel; lia|lia|lia|].
  exists n. split; [done|]. change (Z.of_nat 0) with 0%Z in Heq. by rewrite -[250%Z]/(backoff_at 0) Heq.
Qed.

(** What a run has taken from the queue and left in it, against what was emitted. *)
Lemma webhook_run_queue `{!WebhookSdk} config steps : ∀ em handled em',
  (length (em_queue em) ≤ em_capacity em)%nat →
  webhook_run config steps em = (handled, em') →
  (length (em_queue em') ≤ em_capacity em')%nat ∧ em_capacity em' = em_capacity em ∧
  ∃ kept, kept `sublist_of` emissions steps ∧ map fst handled ++ em_queue em' = em_queue em ++ kept ∧
    (em_closed em = false → (length (em_queue em) + length (emissions steps) ≤ em_capacity em)%nat →
     kept = emissions steps).
Proof.
  induction steps as [|[event tenant uuid|sent_at replies] steps IH]; intros em handled em' Hcap Hrun;
    cbn [webhook_run emissions] in *.
  - injection Hrun as <- <-. split_and!; [done..|]. exists []. by split_and!; [constructor|rewrite app_nil_r|].
  - unfold emit_with_tenant in Hrun.
    destruct (em_closed em) eqn:Hclosed; [|destruct (_ <=? _)%nat eqn:Hfull].
    1,2: destruct (IH _ _ _ Hcap Hrun) as (? & ? & kept & Hk & Heq & _); split_and!; [done..|];
         exists kept; split_and!; [by apply sublist_cons|done|].
    { done. }
    { apply Nat.leb_le in Hfull. simpl. lia. }
    apply Nat.leb_gt in Hfull.
    apply IH in Hrun as (? & Hc & kept & Hk & Heq & Hall); [|rewrite /= length_app /=; lia].
    split_and!; [done|done|]. exists (mkDelivery uuid event tenant :: kept).
    split_and!; [by apply sublist_skip|by rewrite Heq /= -app_assoc|].
    intros _ Hfit. rewrite Hall //. rewrite /= length_app /=. simpl in Hfit. lia.
  - destruct (worker_turn config em sent_at replies) as [[[d posts] em1]|] eqn:Hturn; [|by apply IH].
    destruct (webhook_run config steps em1) as [h em2] eqn:Hrest. injection Hrun as <- <-.
    unfold worker_turn in Hturn. destruct (em_queue em) as [|d' q] eqn:Hq; [done|].
    assert (d' = d ∧ em1 = mkEmitter (em_capacity em) q (em_closed em)) as [-> ->]
      by (repeat case_match; simplify_eq/=; done).
    apply IH in Hrest as (? & ? & kept & Hk & Heq & Hall); [|simpl in *; lia].
    split_and!; [done..|]. exists kept. split_and!; [done|by rewrite /= Heq|].
    intros Hc Hfit. apply Hall; [done|]. simpl in *. lia.
Qed.

(** The turns of the worker, in order. *)
Fixpoint turns (steps : list WebhookStep) : list (Z * (Z → Reply)) :=
  match steps with
  | [] => []
  | SEmit _ _ _ :: steps => turns steps
  | STurn sent_at replies :: steps => (sent_at, replies) :: turns steps
  end.

(** What a turn posts for a delivery: nothing where the webhook is off or the envelope
    cannot be encoded, and else the one post of this delivery at this turn's time, as
    often as the turn's replies call for. *)
Definition delivered `{!WebhookSdk} (config : WebhookConfig) (taken : Delivery * list Post)
    (turn : Z * (Z → Reply)) : Prop :=
  let '(d, posts) := taken in
  let '(sent_at, replies) := turn in
  if wh_enabled config && negb (bool_decide (wh_url config = "")) then
    match envelope_json (d_event_id d) WEBHOOK_SCHEMA_VERSION (d_event d) with
    | Ok body =>
        ∃ n, attempts_ok (wh_max_retries config) replies n ∧ posts = replicate n (post_of config d body sent_at)
    | Err _ => posts = []
    end
  else posts = [].

Lemma worker_turn_delivers `{!WebhookSdk} config em sent_at replies d posts em' :
  worker_turn config em sent_at replies = Some (d, posts, em') →
  em_queue em = d :: em_queue em' ∧ delivered config (d, posts) (sent_at, replies).
Proof.
  unfold worker_turn, delivered. destruct (em_queue em) as [|d0 q]; [done|].
  destruct (wh_enabled config); cbn [negb andb orb]; [|by intros [= -> <- <-]].
  destruct (bool_decide _); cbn [negb]; [by intros [= -> <- <-]|].
  destruct (envelope_json (d_event_id d0) WEBHOOK_SCHEMA_VERSION (d_event d0)) as [body|m] eqn:Hbody.
  - destruct (deliver_posts config d0 sent_at replies body Hbody) as (n & Hok & ->).
    intros [= -> <- <-]. rewrite Hbody. split; [done|]. by exists n.
  - unfold deliver. rewrite Hbody. cbn. intros [= -> <- <-]. by rewrite Hbody.
Qed.

(** Every delivery taken is the work of one turn, in their order. *)
Lemma webhook_run_delivers `{!WebhookSdk} config steps : ∀ em handled em',
  webhook_run config steps em = (handled, em') →
  ∃ ts, ts `sublist_of` turns steps ∧ Forall2 (delivered config) handled ts.
Proof.
  induction steps as [|[event tenant uuid|sent_at replies] steps IH]; intros em handled em' Hrun;
    cbn [webhook_run turns] in *.
  - injection Hrun as <- <-. exists []. by split; constructor.
  - by apply (IH _ _ _ Hrun).
  - destruct (worker_turn config em sent_at replies) as [[[d posts] em1]|] eqn:Hturn.
    2:{ destruct (IH _ _ _ Hrun) as (ts & Hts & Hall). exists ts. split; [by apply sublist_cons|done]. }
    destruct (webhook_run config steps em1) as [h em2] eqn:Hrest. injection Hrun as <- <-.
    destruct (IH _ _ _ Hrest) as (ts & Hts & Hall). exists ((sent_at, replies) :: ts).
    split; [by apply sublist_skip|]. constructor; [|done]. by apply worker_turn_delivers in Hturn as [_ ?].
Qed.

(** With a turn for each, the worker takes all that is queued. *)
Lemma webhook_drains `{!WebhookSdk} config ts : ∀ em,
  (length (em_queue em) ≤ length ts)%nat →
  ∃ handled, map fst handled = em_queue em ∧
    webhook_run config (map (λ t, STurn t.1 t.2) ts) em = (handled, mkEmitter (em_capacity em) [] (em_closed em)).
Proof.
  induction ts as [|[sent_at replies] ts IH]; intros em Hlen; cbn [map webhook_run fst snd].
  - destruct em as [cap [|d q] closed]; [|simpl in Hlen; lia]. by exists [].
  - destruct (em_queue em) as [|d q] eqn:Hq.
    + unfold worker_turn. rewrite Hq. specialize (IH em). rewrite Hq in IH. apply IH. simpl. lia.
    + assert (∃ posts, worker_turn config em sent_at replies =
                Some (d, posts, mkEmitter (em_capacity em) q (em_closed em))) as (posts & ->).
      { unfold worker_turn. rewrite Hq. case_match; [by eexists|].
        destruct (deliver config d sent_at replies) as [[[posts ws] ret]|]; by eexists. }
      destruct (IH (mkEmitter (em_capacity em) q (em_closed em))) as (h & Hh & ->); [simpl in *; lia|].
      exists ((d, posts) :: h). split; [by rewrite /= Hh|done].
Qed.

(** C34: what a webhook delivers. Whatever the handlers emit, the worker does and the
    receiver answers, deliveries are handled in the order they were emitted, each at
    most once, the queue never exceeds its capacity, none is dropped while they all fit,
    and a worker that gets as many turns as deliveries are queued handles them all. Each
    delivery handled is the work of one turn. Where the webhook is enabled and has a URL
    and the envelope of the delivery's id and event encodes, that turn posts it at least
    once: the same post every time, of this body, the turn's time and their signatures,
    until the first of the turn's replies that is a success or a refusal other than 429,
    or until [max_retries] posts have been made (one, if it is zero), with waits that
    double from 250 ms up to 15 s; otherwise it posts nothing. *)
Theorem webhook_delivers_in_order `{!WebhookSdk} (config : WebhookConfig) (steps : list WebhookStep)
    (handled : list (Delivery * list Post)) (em : Emitter) :
  webhook_run config steps (spawn config) = (handled, em) →
  (map fst handled ++ em_queue em) `sublist_of` emissions steps ∧
  ((queue_status em).1 ≤ (queue_status em).2)%nat ∧
  ((length (emissions steps) ≤ Nat.max (wh_queue_capacity config) 1)%nat →
     map fst handled ++ em_queue em = emissions steps) ∧
  (∀ ts, (length (em_queue em) ≤ length ts)%nat →
     ∃ rest, map fst rest = em_queue em ∧
       webhook_run config (map (λ t, STurn t.1 t.2) ts) em = (rest, mkEmitter (em_capacity em) [] (em_closed em))) ∧
  (∃ ts, ts `sublist_of` turns steps ∧ Forall2 (delivered config) handled ts) ∧
  (∀ d sent_at replies body,
     envelope_json (d_event_id d) WEBHOOK_SCHEMA_VERSION (d_event d) = Ok body →
     ∃ n, attempts_ok (wh_max_retries config) replies n ∧
       deliver config d sent_at replies =
         Ok (replicate n (post_of config d body sent_at), map backoff_at (List.seq 0 (n - 1)), true)).
Proof.
  intros Hrun.
  destruct (webhook_run_queue config steps (spawn config) handled em ltac:(simpl; lia) Hrun)
    as (Hcap & _ & kept & Hk & Heq & Hall).
  split_and!.
  - by rewrite Heq.
  - unfold queue_status. simpl. lia.
  - intros Hfit. rewrite Heq /=. by apply Hall.
  - intros ts. apply webhook_drains.
  - by eapply webhook_run_delivers.
  - intros d sent_at replies body. apply deliver_posts.
Qed.

(** The text a timestamped signature covers can be read in one way only, and never is
    the body of an envelope. With a MAC that does not collide, two timestamped
    signatures under a secret agree only for the same time and the same body, and
    none is the plain signature of a JSON object. *)
Theorem timestamped_signature_binds `{!WebhookSdk} (secret : string) (t t' : Z) (body body' : list Z) :
  (∀ k m m', hmac_sha256 k m = hmac_sha256 k m' → m = m') →
  (∀ k m, Forall is_byte (hmac_sha256 k m)) →
  (sign_with_timestamp secret t body = sign_with_timestamp secret t' body' → t = t' ∧ body = body') ∧
  (List.hd_error body' = Some 123%Z → sign_with_timestamp secret t body ≠ sign secret body').
Proof.
  intros Hinj Hbytes.
  assert (∀ m m', "sha256=" +:+ hex_encode (hmac_sha256 (as_bytes secret) m) =
                  "sha256=" +:+ hex_encode (hmac_sha256 (as_bytes secret) m') → m = m') as Hmac.
  { intros m m' Heq. apply (f_equal chars) in Heq. rewrite !chars_app in Heq.
    apply app_inv_head in Heq. apply chars_inj, hex_encode_inj in Heq; [by apply Hinj in Heq|done..]. }
  assert (∀ z : Z, 46%Z ∉ as_bytes (pretty z)) as Hdot.
  { intros z Hin. apply list_elem_of_fmap in Hin as (c & Hc & Hin).
    apply (f_equal char_of) in Hc. rewrite char_of_byte_of in Hc. subst c.
    revert Hin. apply pretty_Z_without. vm_compute. set_solver. }
  split.
  - intros Heq%Hmac. apply (split_first_eq 46%Z) in Heq as [Ht ->]; [|apply Hdot..]. split; [|done].
    apply (f_equal from_bytes) in Ht. rewrite !from_bytes_as_bytes in Ht. by apply (inj (pretty (A:=Z))) in Ht.
  - intros Hhd Heq%Hmac. rewrite -Heq in Hhd.
    pose proof (pretty_Z_chars t) as Hc. destruct (pretty t) as [|c s] eqn:Hp; [done|].
    simpl in Hhd, Hc. injection Hhd as Hb. apply Forall_cons_1 in Hc as [Hc _].
    apply (f_equal char_of) in Hb. rewrite char_of_byte_of in Hb. subst c.
    revert Hc. vm_compute. set_solver.
Qed.

(** ** A run *)

Module WebhookExample.
(** A MAC that shows its message, and envelopes that show their event's id. *)
#[local] Instance plain_sdk : WebhookSdk := {|
  hmac_sha256 k m := map (λ b, b mod 256)%Z m;
  envelope_json id v e := Ok (123%Z :: as_bytes id);
  check_url u := Ok tt
|}.

Definition config0 : WebhookConfig := mkWebhookConfig true "https://cp.test/hook" "s" 5 3 1.
Definition event0 : WebhookEvent := SearchExecuted "reg.test" (Some "q") 0 None 0.

(** Three events, the second of which finds the queue full; the receiver fails twice
    and then answers 200. *)
Definition steps0 : list WebhookStep :=
  [SEmit event0 None "e1"; SEmit event0 (Some "t") "e2";
   STurn 7 (λ n, if (n <? 3)%Z then Responded 500 else Responded 200); SEmit event0 None "e3"].

Example steps0_run :
  let '(handled, em) := webhook_run config0 steps0 (spawn config0) in
  map (λ h : Delivery * list Post, (d_event_id h.1, length h.2)) handled = [("e1", 3%nat)] ∧
  map d_event_id (em_queue em) = ["e3"].
Proof. vm_compute. done. Qed.

Lemma webhook_delivers_in_order_witness :
  let run := webhook_run config0 steps0 (spawn config0) in
  (map fst run.1 ++ em_queue run.2) `sublist_of` emissions steps0 ∧
  ∃ d posts n, run.1 = [(d, posts)] ∧ posts = replicate n (post_of config0 d (123%Z :: as_bytes "e1") 7) ∧
    n = 3%nat.
Proof.
  intros run.
  destruct (webhook_delivers_in_order config0 steps0 run.1 run.2) as (Hsub & _ & _ & _ & (ts & Hts & Hall) & _);
    [exact (surjective_pairing run)|].
  split; [exact Hsub|].
  assert (map (λ h : Delivery * list Post, (d_event_id h.1, length h.2)) run.1 = [("e1", 3%nat)]) as Hlen
    by (vm_compute; reflexivity).
  destruct run.1 as [|[d posts] [|x l]]; [discriminate Hlen| |discriminate Hlen].
  injection Hlen as Hid Hn. apply Forall2_cons_inv_l in Hall as ([t rs] & ts' & Hd & Hnil & ->).
  apply Forall2_nil_inv_l in Hnil as ->.
  assert (t = 7%Z) as ->.
  { assert ((t, rs) ∈ turns steps0) as Hin by (apply (sublist_subseteq _ _ Hts); by apply list_elem_of_here).
    cbn [turns steps0] in Hin. apply list_elem_of_singleton in Hin. by injection Hin as -> _. }
  unfold delivered in Hd. cbn [wh_enabled wh_url config0 andb envelope_json plain_sdk] in Hd.
  rewrite bool_decide_false in Hd; [|discriminate]. cbn [negb] in Hd. destruct Hd as (n & _ & Hp).
  exists d, posts, n. split; [reflexivity|]. rewrite Hid in Hp. split; [exact Hp|].
  rewrite Hp length_replicate in Hn. exact Hn.
Defined.
End WebhookExample.
