(* ===== verification/PageCursors.v ===== *)
(** * Pagination cursors

    [acdp-registry-store/src/cursor.rs], the codec of the keyset cursors every
    store backend hands out: a mint time, the [created_at] of the last row of the
    page and its context id. Base64 and UTF-8 decoding ([base64], [String]) are the
    class [CursorText]; chrono's [from_timestamp_millis] is an argument of the
    decoder. The clock is an argument in nanoseconds. *)

From stdpp Require Import pretty.
From S2P Require Import Prelude Text Errors.

Open Scope registry_scope.

Class CursorText : Type := {
  b64_encode : list Z → string;
  b64_decode : string → option (list Z);
  utf8_decode : list Z → option string
}.

(** What [base64] and [String::from_utf8] document: decoding inverts encoding, and
    the bytes of a string are valid text. *)
Class CursorTextLaws `{CursorText} : Prop := {
  b64_inverse l : Forall is_byte l → b64_decode (b64_encode l) = Some l;
  utf8_inverse s : utf8_decode (as_bytes s) = Some s
}.

Definition CURSOR_TTL_SECS : Z := 3600.
Definition CURSOR_MALFORMED : string := "malformed".

(** Closes a branch that answers [InvalidCursor]. *)
Ltac refuse :=
  split; [by right|split; [done|]];
  intros (? & ? & ? & ? & ? & ? & ? & ? & ? & ? & ? & ? & ?);
  simplify_eq;
  repeat match goal with
    | A : ?x = ?y, B : ?x = ?z |- _ => rewrite A in B; simplify_eq
    end.

Section codec.
Context `{CursorText}.

(** The plain text of a cursor. *)
Definition cursor_text (mint_ms created_at_ms : Z) (ctx_id : string) : string :=
  pretty mint_ms +:+ String.String colon (pretty created_at_ms +:+ String.String colon ctx_id).

Definition encode_cursor (now created_at_ms : Z) (ctx_id : string) : string :=
  b64_encode (as_bytes (cursor_text (timestamp_millis now) created_at_ms ctx_id)).

Definition malformed : AcdpError := InvalidCursor CURSOR_MALFORMED.

Definition decode_cursor (from_timestamp_millis : Z → option Z) (now : Z) (s : string) :
    result (option (Z * string)) AcdpError :=
  let? bytes := ok_or (b64_decode s) malformed in
  let? decoded := ok_or (utf8_decode bytes) malformed in
  let parts := splitn 3 colon decoded in
  let mint := default "" (parts !! 0%nat) in
  let? anchor := ok_or (parts !! 1%nat) malformed in
  let? ctx_id := ok_or (parts !! 2%nat) malformed in
  let? mint_ms := map_err (λ _, malformed) (parse_i64 mint) in
  let? anchor_ms := map_err (λ _, malformed) (parse_i64 anchor) in
  if (CURSOR_TTL_SECS * 1000 <? i64_saturating_sub (timestamp_millis now) mint_ms)%Z
  then Err CursorExpired
  else
    let? anchor_ts := ok_or (from_timestamp_millis anchor_ms) malformed in
    Ok (Some (anchor_ts, ctx_id)).

Lemma cursor_text_parts mint anchor ctx :
  splitn 3 colon (cursor_text mint anchor ctx) = [pretty mint; pretty anchor; ctx].
Proof.
  unfold cursor_text. cbn [splitn].
  do 2 (rewrite split_at_char_app; [|apply pretty_Z_colon]). done.
Qed.

(** Decoding the text of a cursor, whoever minted it. *)
Lemma decode_cursor_text `{!CursorTextLaws} from_ms now mint anchor ctx :
  is_i64 mint = true → is_i64 anchor = true →
  decode_cursor from_ms now (b64_encode (as_bytes (cursor_text mint anchor ctx))) =
  if (CURSOR_TTL_SECS * 1000 <? i64_saturating_sub (timestamp_millis now) mint)%Z
  then Err CursorExpired
  else let? t := ok_or (from_ms anchor) malformed in Ok (Some (t, ctx)).
Proof.
  intros Hm Ha. unfold decode_cursor.
  rewrite b64_inverse; [|apply as_bytes_is_byte]. cbn [ok_or and_then].
  rewrite utf8_inverse. cbn [ok_or and_then]. rewrite cursor_text_parts /=.
  by rewrite !parse_i64_pretty.
Qed.

(** A page's cursor leads back to the row it was made from for one hour and
    not a millisecond longer. Whatever the context id is, colons included, a cursor
    minted at one time and decoded at a later one gives the row's time and id
    when at most 3600 whole seconds lie between the two clock readings, and the
    expiry error, never a wrong position, from then on. *)
Theorem cursor_roundtrip_for_one_hour `{!CursorTextLaws} (from_ms : Z → option Z)
    (minted now created_at_ms t : Z) (ctx : string) :
  is_i64 (timestamp_millis minted) = true → is_i64 (timestamp_millis now) = true →
  is_i64 created_at_ms = true → from_ms created_at_ms = Some t →
  (timestamp_millis minted ≤ timestamp_millis now)%Z →
  (timestamp_millis now ≤ timestamp_millis minted + 3600000 →
     decode_cursor from_ms now (encode_cursor minted created_at_ms ctx) = Ok (Some (t, ctx)))%Z ∧
  (timestamp_millis minted + 3600000 < timestamp_millis now →
     decode_cursor from_ms now (encode_cursor minted created_at_ms ctx) = Err CursorExpired)%Z.
Proof.
  intros Hm Hn Hc Ht Hle. unfold encode_cursor. rewrite decode_cursor_text; [|done..].
  rewrite Ht /=. unfold CURSOR_TTL_SECS, i64_saturating_sub.
  unfold is_i64, i64_min, i64_max in *. bool_to_prop.
  split; intros Hd; case_if; done || lia.
Qed.

(** The two ways a cursor can be refused are kept apart and neither says more
    than its name. A decoded cursor always names a position; every refusal is
    [CursorExpired] or the one [InvalidCursor] payload, and [CursorExpired] is
    answered exactly for a well-formed cursor whose mint time is more than an hour
    back, so the expiry of a cursor depends on nothing but its mint time. *)
Theorem cursor_refusals_are_two (from_ms : Z → option Z) (now : Z) (s : string) :
  match decode_cursor from_ms now s with
  | Ok (Some _) => True
  | Ok None => False
  | Err e =>
      (e = CursorExpired ∨ e = InvalidCursor "malformed") ∧
      (e = CursorExpired ↔
         ∃ bytes text mint anchor ctx mint_ms anchor_ms,
           b64_decode s = Some bytes ∧ utf8_decode bytes = Some text ∧
           splitn 3 colon text = [mint; anchor; ctx] ∧
           parse_i64 mint = Ok mint_ms ∧ parse_i64 anchor = Ok anchor_ms ∧
           (3600000 < i64_saturating_sub (timestamp_millis now) mint_ms)%Z)
  end.
Proof.
  unfold decode_cursor.
  destruct (b64_decode s) as [bytes|] eqn:Hb; [|refuse]. cbn [ok_or and_then].
  destruct (utf8_decode bytes) as [text|] eqn:Hu; [|refuse]. cbn [ok_or and_then].
  pose proof (length_splitn 3 colon text) as Hlen.
  destruct (splitn 3 colon text) as [|mint [|anchor [|ctx [|x l]]]] eqn:Hs;
    [refuse..| |simpl in Hlen; lia].
  change (([mint; anchor; ctx] !! 1%nat)) with (Some anchor).
  change (([mint; anchor; ctx] !! 2%nat)) with (Some ctx). cbn [ok_or and_then].
  change (default "" ([mint; anchor; ctx] !! 0%nat)) with mint.
  destruct (parse_i64 mint) as [mint_ms|] eqn:Hm; [|refuse]. cbn [map_err and_then].
  destruct (parse_i64 anchor) as [anchor_ms|] eqn:Ha; [|refuse]. cbn [map_err and_then].
  destruct (_ <? _)%Z eqn:Hexp; bool_to_prop.
  - split; [by left|]. split; [intros _|done].
    exists bytes, text, mint, anchor, ctx, mint_ms, anchor_ms. by unfold CURSOR_TTL_SECS in Hexp.
  - destruct (from_ms anchor_ms); [done|]. cbn [ok_or and_then]. refuse.
    unfold CURSOR_TTL_SECS in Hexp. lia.
Qed.
End codec.

(** ** A concrete codec *)

Module CursorExample.

#[export] Instance plain_text : CursorText := {|
  b64_encode := from_bytes;
  b64_decode s := Some (as_bytes s);
  utf8_decode l := Some (from_bytes l)
|}.

#[export] Instance plain_text_laws : CursorTextLaws.
Proof.
  constructor.
  - intros l Hl. simpl. by rewrite as_bytes_from_bytes.
  - intros s. simpl. by rewrite from_bytes_as_bytes.
Qed.

(** chrono's range, about 262,000 years around the epoch. *)
Definition chrono_from_millis (ms : Z) : option Z :=
  if ((-8334601228800000 <=? ms) && (ms <=? 8210266876799999))%Z then Some (ms * ns_per_ms)%Z
  else None.

Definition noon : Z := 1700000000000 * ns_per_ms.

Lemma cursor_roundtrip_for_one_hour_witness :
  decode_cursor chrono_from_millis (noon + 3600000 * ns_per_ms)%Z
    (encode_cursor noon 1700000123456 "acdp://reg/ctx-1") =
    Ok (Some (1700000123456 * ns_per_ms, "acdp://reg/ctx-1")%Z) ∧
  decode_cursor chrono_from_millis (noon + 3600001 * ns_per_ms)%Z
    (encode_cursor noon 1700000123456 "acdp://reg/ctx-1") = Err CursorExpired.
Proof.
  split.
  - apply (proj1 (cursor_roundtrip_for_one_hour chrono_from_millis noon
      (noon + 3600000 * ns_per_ms) 1700000123456 (1700000123456 * ns_per_ms)
      "acdp://reg/ctx-1" eq_refl eq_refl eq_refl eq_refl ltac:(by vm_compute))). by vm_compute.
  - apply (proj2 (cursor_roundtrip_for_one_hour chrono_from_millis noon
      (noon + 3600001 * ns_per_ms) 1700000123456 (1700000123456 * ns_per_ms)
      "acdp://reg/ctx-1" eq_refl eq_refl eq_refl eq_refl ltac:(by vm_compute))). by vm_compute.
Defined.

(** The arms of [decode_cursor] on texts no encoder produced. *)
Example decode_cursor_arms :
  map (decode_cursor chrono_from_millis noon)
    ["abc"; "123:456"; "notanint:456:c"; pretty 1700000000000%Z +:+ ":notanint:c";
     pretty 1700000000000%Z +:+ ":" +:+ pretty i64_max +:+ ":c"; "1:2:c";
     "+1700000000000:-7:a:b:c"] =
  [Err malformed; Err malformed; Err malformed; Err malformed; Err malformed;
   Err CursorExpired; Ok (Some (-7 * ns_per_ms, "a:b:c")%Z)].
Proof. vm_compute. reflexivity. Qed.

End CursorExample.

(** ** Keyset pagination

    The scheme of the stores' listings ([list_contexts], [list_key_attestations], the
    receipt sweep): the rows that pass a filter, in the order of a key, from after
    the key of the last row served, one more than the limit to see whether there is
    a next page. The lemmas here are about any rows with distinct keys. *)

Section keyset.
Context {R K : Type} (key : R → K) (lt : K → K → Prop).
Context `{!StrictOrder lt} `{!RelDecision lt} `{!TrichotomyT lt}.

Definition key_order (a b : R) : Prop := ¬ lt (key b) (key a).

#[export] Instance key_order_dec : RelDecision key_order.
Proof using RelDecision0. unfold key_order. intros a b. apply _. Defined.

Lemma key_total a b : lt a b ∨ a = b ∨ lt b a.
Proof using TrichotomyT0. destruct (trichotomyT lt a b) as [[|]|]; auto. Qed.

#[export] Instance key_order_trans : Transitive key_order.
Proof using StrictOrder0 TrichotomyT0.
  intros a b c Hab Hbc Hca. unfold key_order in *.
  destruct (key_total (key b) (key a)) as [?|[Heq|Hlt]]; [done|by rewrite Heq in Hbc|].
  destruct (key_total (key c) (key b)) as [?|[Heq|Hlt']]; [done|by rewrite Heq in Hca; apply Hab|].
  exact (irreflexivity lt _ (transitivity Hca (transitivity Hlt Hlt'))).
Qed.

#[export] Instance key_order_total : Total key_order.
Proof using StrictOrder0 TrichotomyT0.
  intros a b. unfold key_order. destruct (key_total (key a) (key b)) as [Hlt|[->|Hlt]].
  - left. intros Hgt. exact (irreflexivity lt _ (transitivity Hlt Hgt)).
  - left. apply irreflexivity, _.
  - right. intros Hgt. exact (irreflexivity lt _ (transitivity Hlt Hgt)).
Qed.

Definition after (anchor : option K) (r : R) : Prop :=
  match anchor with None => True | Some k => lt k (key r) end.

#[export] Instance after_dec anchor r : Decision (after anchor r).
Proof using RelDecision0. unfold after. destruct anchor; apply _. Defined.

(** [ORDER BY key LIMIT limit + 1], in pages of [limit] rows. *)
Definition keyset_rows (limit : nat) (anchor : option K) (rows : list R) : list R :=
  take (S limit) (merge_sort key_order (filter (after anchor) rows)).

Definition keyset_page (limit : nat) (anchor : option K) (rows : list R) : list R * option K :=
  let found := keyset_rows limit anchor rows in
  let items := take limit found in
  (items, if (limit <? length found)%nat then key <$> last items else None).

(** Page after page; page [i] is read from [stores i]. *)
Fixpoint keyset_walk (fuel limit i : nat) (stores : nat → list R) (anchor : option K) :
    option (list R) :=
  match fuel with
  | 0 => None
  | S fuel =>
      let '(items, next) := keyset_page limit anchor (stores i) in
      match next with
      | None => Some items
      | Some k => (app items) <$> keyset_walk fuel limit (S i) stores (Some k)
      end
  end.

Definition lt_rows (a b : R) : Prop := lt (key a) (key b).

(** Rows in order, with distinct keys, are strictly in order. *)
Lemma sorted_strict l :
  NoDup (map key l) → StronglySorted key_order l → StronglySorted lt_rows l.
Proof using StrictOrder0 TrichotomyT0.
  induction l as [|a l IH]; intros Hnd Hs; [constructor|].
  cbn in Hnd. apply NoDup_cons in Hnd as [Hn Hnd]. apply StronglySorted_inv in Hs as [Hs Ha].
  constructor; [by apply IH|]. rewrite Forall_forall in Ha. apply Forall_forall. intros b Hb.
  destruct (key_total (key a) (key b)) as [?|[Heq|Hgt]]; [done| |by destruct (Ha b Hb)].
  destruct Hn. rewrite Heq. by apply list_elem_of_fmap_2.
Qed.

Lemma NoDup_map_filter (P : R → Prop) `{∀ x, Decision (P x)} l :
  NoDup (map key l) → NoDup (map key (filter P l)).
Proof using.
  induction l as [|x l IH]; [done|]. cbn [map]. intros [Hn Hd]%NoDup_cons. rewrite filter_cons.
  case_decide; [|by apply IH]. cbn. constructor; [|by apply IH].
  intros (y & Hy & [_ Hin]%list_elem_of_filter)%list_elem_of_fmap. apply Hn. rewrite Hy.
  by apply list_elem_of_fmap_2.
Qed.

Lemma sorted_all rows anchor :
  NoDup (map key rows) → StronglySorted lt_rows (merge_sort key_order (filter (after anchor) rows)).
Proof using StrictOrder0 TrichotomyT0.
  intros Hnd. apply sorted_strict; [|apply StronglySorted_merge_sort; apply _].
  rewrite (merge_sort_Permutation key_order). by apply NoDup_map_filter.
Qed.

Lemma last_app_cut {A} (l : list A) n x :
  last (take n l) = Some x → ∃ l1, take n l = l1 ++ [x].
Proof.
  destruct (take n l) as [|y l' _] using rev_ind; [done|]. rewrite last_snoc. intros [= ->]. by exists l'.
Qed.

(** What a page holds. *)
Lemma keyset_page_spec limit anchor rows items next :
  NoDup (map key rows) → keyset_page limit anchor rows = (items, next) →
  StronglySorted lt_rows items ∧
  (∀ r, r ∈ items → r ∈ rows ∧ after anchor r) ∧
  match next with
  | None => (0 < limit)%nat → ∀ r, r ∈ rows → after anchor r → r ∈ items
  | Some k =>
      (∃ x, x ∈ items ∧ key x = k) ∧ (∀ r, r ∈ items → ¬ lt k (key r)) ∧
      (∀ r, r ∈ rows → after anchor r → ¬ lt k (key r) → r ∈ items) ∧ length items = limit
  end.
Proof using StrictOrder0 TrichotomyT0.
  intros Hnd. unfold keyset_page, keyset_rows. intros [= <- <-].
  pose proof (sorted_all rows anchor Hnd) as Hs.
  assert (∀ r, r ∈ merge_sort key_order (filter (after anchor) rows) ↔ after anchor r ∧ r ∈ rows) as Hmem
    by (intros r; by rewrite (merge_sort_Permutation key_order) list_elem_of_filter).
  set (l := merge_sort key_order _) in *. rewrite take_take length_take.
  rewrite (_ : limit `min` S limit = limit); [|lia].
  assert (l = take limit l ++ drop limit l) as Hcut by by rewrite take_drop.
  rewrite Hcut in Hs. apply StronglySorted_app in Hs as (Hcross & Hs1 & _).
  split; [done|]. split.
  { intros r Hr. apply and_comm, Hmem. rewrite Hcut. set_solver. }
  destruct (limit <? S limit `min` length l)%nat eqn:Hmore.
  - apply Nat.ltb_lt in Hmore. destruct (last (take limit l)) as [x|] eqn:Hlast; cbn.
    + destruct (last_app_cut _ _ _ Hlast) as (l1 & Hl1).
      split; [exists x; split; [rewrite Hl1; set_solver|done]|]. split; [|split].
      * intros r Hr. rewrite Hl1 in Hr, Hs1. apply elem_of_app in Hr as [Hr|Hr%list_elem_of_singleton].
        -- apply StronglySorted_app in Hs1 as (Hx & _ & _). intros Hlt.
           exact (irreflexivity lt _ (transitivity Hlt (Hx r x Hr ltac:(set_solver)))).
        -- subst. apply irreflexivity, _.
      * intros r Hr Ha Hle. assert (r ∈ l) as Hin by by apply Hmem.
        rewrite Hcut in Hin. apply elem_of_app in Hin as [|Hin]; [done|]. destruct Hle.
        apply (Hcross x r); [rewrite Hl1; set_solver|done].
      * rewrite length_take. lia.
    + intros Hpos. apply last_None in Hlast. apply (f_equal length) in Hlast. rewrite length_take in Hlast.
      cbn in Hlast. lia.
  - apply Nat.ltb_ge in Hmore. intros _ r Hr Ha. rewrite take_ge; [by apply Hmem|lia].
Qed.

(** A finished walk over stores that change between its pages: what it lists is in
    order and without repetition, and holds every key that was there throughout. *)
Lemma keyset_walk_complete fuel limit stores : ∀ i anchor out,
  (0 < limit)%nat → (∀ j, NoDup (map key (stores j))) →
  keyset_walk fuel limit i stores anchor = Some out →
  StronglySorted lt_rows out ∧
  (∀ r, r ∈ out → after anchor r ∧ ∃ j, r ∈ stores j) ∧
  (∀ k, (∀ j, (i ≤ j)%nat → k ∈ map key (stores j)) →
        match anchor with None => True | Some a => lt a k end → k ∈ map key out).
Proof using StrictOrder0 TrichotomyT0 RelDecision0.
  induction fuel as [|fuel IH]; intros i anchor out Hpos Hnd Hw; [done|]. cbn [keyset_walk] in Hw.
  destruct (keyset_page limit anchor (stores i)) as [items next] eqn:Hp.
  destruct (keyset_page_spec _ _ _ _ _ (Hnd i) Hp) as (Hs & Hin & Hnext).
  destruct next as [k|].
  - apply fmap_Some in Hw as (rest & Hr & ->).
    destruct (IH (S i) (Some k) rest Hpos Hnd Hr) as (Hs' & Hin' & Hall').
    destruct Hnext as ((x & Hx & Hxk) & Hle & Hcov & _).
    assert (∀ a b, a ∈ items → b ∈ rest → lt_rows a b) as Hcross.
    { intros a b Ha Hb. destruct (Hin' b Hb) as [Hkb _]. pose proof (Hle a Ha) as Hak. cbn in Hkb.
      unfold lt_rows. destruct (key_total (key a) k) as [?|[Heq|?]]; [by etransitivity|by rewrite Heq|done]. }
    split; [by apply StronglySorted_app_2|]. split.
    + intros r [Hr'|Hr']%elem_of_app; [destruct (Hin r Hr'); eauto|].
      destruct (Hin' r Hr') as [Hk Hj]. split; [|done]. destruct anchor as [a|]; [|done]. cbn in *.
      destruct (Hin x Hx) as [_ Hax]. cbn in Hax. rewrite Hxk in Hax. by etransitivity.
    + intros k' Hst Ha. rewrite map_app. apply elem_of_app.
      destruct (decide (lt k k')) as [Hlt|Hge].
      * right. apply Hall'; [intros j Hj; apply Hst; lia|done].
      * left. destruct (proj1 (list_elem_of_fmap _ _ _) (Hst i (le_n i))) as (r & -> & Hri).
        apply list_elem_of_fmap_2, Hcov; [done|by destruct anchor|done].
  - injection Hw as <-. split; [done|]. split; [intros r Hr; destruct (Hin r Hr); eauto|].
    intros k Hst Ha. destruct (proj1 (list_elem_of_fmap _ _ _) (Hst i (le_n i))) as (r & -> & Hri).
    apply list_elem_of_fmap_2, Hnext; [done|done|by destruct anchor].
Qed.

(** On a store that stays as it is, the walk ends. *)
Lemma keyset_walk_ends rows limit stores : ∀ fuel i anchor,
  (0 < limit)%nat → NoDup (map key rows) → (∀ j, stores j = rows) →
  (length (filter (after anchor) rows) < fuel)%nat →
  is_Some (keyset_walk fuel limit i stores anchor).
Proof using StrictOrder0 TrichotomyT0.
  induction fuel as [|fuel IH]; intros i anchor Hpos Hnd Hst Hf; [lia|]. cbn [keyset_walk]. rewrite Hst.
  destruct (keyset_page limit anchor rows) as [items next] eqn:Hp.
  destruct (keyset_page_spec _ _ _ _ _ Hnd Hp) as (Hs & Hin & Hnext).
  destruct next as [k|]; [|by eexists]. destruct Hnext as ((x & Hx & Hxk) & _ & _ & _).
  destruct (Hin x Hx) as [Hxr Hxa].
  destruct (IH (S i) (Some k) Hpos Hnd Hst) as (out & ->); [|by eexists].
  eapply Nat.lt_le_trans; [|apply Nat.lt_succ_r, Hf].
  assert (filter (after (Some k)) rows = filter (after (Some k)) (filter (after anchor) rows)) as ->.
  { rewrite list_filter_filter. apply list_filter_iff. intros r. cbn. split; [|by intros [? _]].
    intros Hk. split; [done|]. destruct anchor as [a|]; [|done]. cbn in *. subst k. by etransitivity. }
  assert (x ∈ filter (after anchor) rows) as Hxf by by apply list_elem_of_filter.
  clear -Hxf Hxk StrictOrder0. induction (filter (after anchor) rows) as [|y l IHl]; [by apply elem_of_nil in Hxf|].
  rewrite filter_cons. case_decide as Hy; cbn.
  - apply elem_of_cons in Hxf as [->|Hxf]; [|by apply -> Nat.succ_lt_mono; apply IHl].
    cbn in Hy. rewrite -Hxk in Hy. by destruct (irreflexivity lt _ Hy).
  - apply Nat.lt_succ_r, length_filter.
Qed.
End keyset.
