(* ===== verification/EventReceipts.v ===== *)
(** * Event receipts and lifecycle state

    [acdp-registry-store/src/event_receipts.rs] and [lifecycle.rs]: the slots in
    which a context's lifecycle events keep their receipts, the clock rule for
    [accepted_at], the plan a lifecycle commit or the startup sweep writes, and the
    rule by which a read serves the receipts. The [acdp] crate's event and receipt
    accessors, [trunc_ms] and [retraction_state] are the class [EventSdk]; a minter
    is an argument. *)

From Stdlib Require Import Ascii.
From S2P Require Import Prelude Errors ContextTypes ChangeBucket ChangeFeed.

Open Scope registry_scope.

(** [acdp::types::lifecycle::LifecycleEventType]. *)
Inductive LifecycleEventType : Type :=
  | RetractedEvent
  | RepublishedEvent
  | OtherEvent (t : string).

Class EventSdk `{ChangeSdk} : Type := {
  #[global] LifecycleEvent_eq_dec :: EqDecision LifecycleEvent;
  event_id : LifecycleEvent → string;
  event_ctx_id : LifecycleEvent → string;
  event_type : LifecycleEvent → LifecycleEventType;
  receipt_event_id : EventReceipt → string;
  receipt_ctx_id : EventReceipt → string;
  receipt_index : EventReceipt → Z;
  accepted_at : EventReceipt → Z;
  event_receipt_to_value : EventReceipt → result Value string;
  (** [acdp::time::trunc_ms]. *)
  trunc_ms : Z → Z;
  retraction_state : list LifecycleEvent → bool
}.

(** What the crate documents: times are cut to whole milliseconds, a receipt
    carries such a time, a written receipt is read back, and the last retraction or
    republication decides whether a context is retracted. *)
Class EventSdkLaws `{EventSdk} : Prop := {
  trunc_ms_spec t : trunc_ms t = (t / ns_per_ms * ns_per_ms)%Z;
  accepted_at_canonical r : trunc_ms (accepted_at r) = accepted_at r;
  receipt_value_inverse r v :
    event_receipt_to_value r = Ok v → event_receipt_from_value v = Ok r;
  retraction_state_nil : retraction_state [] = false;
  retraction_state_snoc l e :
    retraction_state (l ++ [e]) =
    match event_type e with
    | RetractedEvent => true
    | RepublishedEvent => false
    | OtherEvent _ => retraction_state l
    end
}.

Section receipts.
Context `{EventSdk}.

(** [RegistryState] and [FullContext] of the [acdp] crate. *)
Record RegistryState : Type := mkState {
  st_status : Status;
  st_lifecycle_events : option (list LifecycleEvent);
  st_event_receipts : option (list EventReceipt)
}.

Record FullContext : Type := mkFullContext {
  fc_body : Body;
  fc_state : RegistryState;
  fc_registry_receipt : option Value
}.

(** [EventReceiptMinter::mint]: context, event, position, acceptance time. *)
Definition Minter : Type := string → Value → Z → Z → result EventReceipt AcdpError.

Inductive StoredReceipt : Type :=
  | RNull
  | RValid (r : EventReceipt)
  | RCorrupt.

(** An event with its slot. *)
Notation Slot := (LifecycleEvent * StoredReceipt)%type.

(** [StoredReceipt::decode]. *)
Definition decode_receipt (value : option Value) (event : LifecycleEvent) (index : Z) :
    StoredReceipt :=
  match value with
  | None => RNull
  | Some value =>
      match event_receipt_from_value value with
      | Ok r =>
          if bool_decide (receipt_event_id r = event_id event) && (receipt_index r =? index)%Z
             && bool_decide (receipt_ctx_id r = event_ctx_id event)
          then RValid r else RCorrupt
      | Err _ => RCorrupt
      end
  end.

(** [StoredReceipt::into_option]. *)
Definition into_option (s : StoredReceipt) : option EventReceipt :=
  match s with
  | RValid r => Some r
  | RNull | RCorrupt => None
  end.

Definition ceil_ms (dt : Z) : Z :=
  let t := trunc_ms dt in if (t =? dt)%Z then t else (t + ns_per_ms)%Z.

Definition clamp_accepted_at (now created_at : Z) (prev : option Z) : Z :=
  let at_ := Z.max (trunc_ms now) (ceil_ms created_at) in
  match prev with
  | Some prev => Z.max at_ prev
  | None => at_
  end.

Record ReceiptPlan : Type := mkPlan {
  plan_fills : list (nat * EventReceipt);
  plan_new : EventReceipt;
  plan_hole : bool
}.

(** The loop of [has_hole]. *)
Fixpoint has_hole_from (seen_null : bool) (prior : list StoredReceipt) : bool :=
  match prior with
  | [] => false
  | RCorrupt :: _ => true
  | RNull :: prior => has_hole_from true prior
  | RValid _ :: prior => if seen_null then true else has_hole_from seen_null prior
  end.

Definition has_hole (prior : list StoredReceipt) : bool := has_hole_from false prior.

Definition slots_have_hole (prior : list Slot) : bool := has_hole (map snd prior).

(** [Iterator::max] over the receipted slots. *)
Definition latest_accepted_at (prior : list Slot) : option Z :=
  fold_left (λ m t, Some (match m with Some m => Z.max m t | None => t end))
    (omap (λ s : Slot, match s.2 with RValid r => Some (accepted_at r) | _ => None end) prior) None.

Definition event_value (event : LifecycleEvent) : result Value AcdpError :=
  map_err (λ e, RegistryInternal ("encode lifecycle event: " +:+ e)) (event_to_value event).

Definition receipt_value (receipt : EventReceipt) : result Value AcdpError :=
  map_err (λ e, RegistryInternal ("encode event receipt: " +:+ e)) (event_receipt_to_value receipt).

(** The loop of [fill_nulls] from position [i]. *)
Fixpoint fill_nulls_from (mint : Minter) (ctx_id : string) (created_at now : Z) (i : nat)
    (prior : list Slot) (prev : option Z) :
    result (list (nat * EventReceipt) * option Z) AcdpError :=
  match prior with
  | [] => Ok ([], prev)
  | (event, slot) :: prior =>
      match slot with
      | RNull =>
          let at_ := clamp_accepted_at now created_at prev in
          let? value := event_value event in
          let? r := mint ctx_id value (Z.of_nat i) at_ in
          let? '(fills, prev) :=
            fill_nulls_from mint ctx_id created_at now (S i) prior (Some (accepted_at r)) in
          Ok ((i, r) :: fills, prev)
      | _ => fill_nulls_from mint ctx_id created_at now (S i) prior prev
      end
  end.

Definition fill_nulls (mint : Minter) (ctx_id : string) (created_at : Z) (prior : list Slot)
    (now : Z) (prev : option Z) : result (list (nat * EventReceipt) * option Z) AcdpError :=
  fill_nulls_from mint ctx_id created_at now 0 prior prev.

Definition plan_event_receipts (mint : Minter) (ctx_id : string) (created_at : Z)
    (prior : list Slot) (new_event : LifecycleEvent) (now : Z) : result ReceiptPlan AcdpError :=
  let hole := slots_have_hole prior in
  let prev := latest_accepted_at prior in
  let? '(fills, prev) :=
    (if hole then Ok ([], prev) else fill_nulls mint ctx_id created_at prior now prev) in
  let at_ := clamp_accepted_at now created_at prev in
  let? value := event_value new_event in
  let? new := mint ctx_id value (Z.of_nat (length prior)) at_ in
  Ok (mkPlan fills new hole).

Inductive BackfillPlan : Type :=
  | BComplete
  | BFill (fills : list (nat * EventReceipt))
  | BHole.

Definition plan_backfill (mint : Minter) (ctx_id : string) (created_at : Z) (prior : list Slot)
    (now : Z) : result BackfillPlan AcdpError :=
  if slots_have_hole prior then Ok BHole
  else
    let? '(fills, _) := fill_nulls mint ctx_id created_at prior now (latest_accepted_at prior) in
    Ok (if is_empty fills then BComplete else BFill fills).

Record SweepReport : Type := mkReport {
  contexts_filled : Z;
  receipts_filled : Z;
  contexts_skipped : Z
}.

Definition record_filled (receipts : nat) (r : SweepReport) : SweepReport :=
  mkReport (contexts_filled r + 1) (receipts_filled r + Z.of_nat receipts) (contexts_skipped r).

Definition record_skipped (r : SweepReport) : SweepReport :=
  mkReport (contexts_filled r) (receipts_filled r) (contexts_skipped r + 1).

(** What the planned fills make of the slots: [slots[i].1 = Valid(r)]. *)
Definition fill_slots (fills : list (nat * EventReceipt)) (slots : list Slot) : list Slot :=
  fold_left (λ slots f, alter (λ s : Slot, (s.1, RValid f.2)) f.1 slots) fills slots.

Definition attach_event_receipts (receipts : list (option EventReceipt)) (minting : bool)
    (ctx : FullContext) : FullContext :=
  if negb minting then ctx
  else
    let st := fc_state ctx in
    let events := match st_lifecycle_events st with Some l => length l | None => 0 end in
    let complete :=
      (length receipts =? events)%nat && forallb (λ r, bool_decide (is_Some r)) receipts in
    let served :=
      if (events =? 0)%nat || negb complete then None else Some (omap id receipts) in
    mkFullContext (fc_body ctx) (mkState (st_status st) (st_lifecycle_events st) served)
      (fc_registry_receipt ctx).

(** [reconcile_retraction]. *)
Definition reconcile_retraction (status : Status) (events : list LifecycleEvent) : Status :=
  if bool_decide (status = Retracted) || retraction_state events then Retracted else status.

(** What the trait promises of a minter: the receipt it signs is for the event,
    the context, the position and the time it was given. *)
Definition minter_signs (mint : Minter) : Prop :=
  ∀ ctx e v i at_ r,
    event_to_value e = Ok v → mint ctx v i at_ = Ok r →
    receipt_event_id r = event_id e ∧ receipt_ctx_id r = ctx ∧
    receipt_index r = i ∧ accepted_at r = trunc_ms at_.

(** The receipts a list of slots holds. *)
Definition held (slots : list Slot) : list EventReceipt := omap (λ s, into_option s.2) slots.

(** A receipt that belongs in slot [i] of [ctx_id]. *)
Definition bound_at (ctx_id : string) (i : nat) (s : Slot) : Prop :=
  match s.2 with
  | RValid r => receipt_event_id r = event_id s.1 ∧ receipt_ctx_id r = ctx_id ∧
                receipt_index r = Z.of_nat i
  | _ => True
  end.

(** The invariant of a context's slots: every receipt belongs where it is, none
    is earlier than the context or than the receipt before it. *)
Record slots_ok (ctx_id : string) (created_at : Z) (slots : list Slot) : Prop := {
  slots_bound i s : slots !! i = Some s → bound_at ctx_id i s;
  slots_ordered : StronglySorted Z.le (map accepted_at (held slots));
  slots_after_creation : Forall (λ r, (created_at ≤ accepted_at r)%Z) (held slots)
}.

Section laws.
Context `{!EventSdkLaws}.

Lemma trunc_ms_le t : (trunc_ms t ≤ t)%Z.
Proof. rewrite trunc_ms_spec /ns_per_ms. pose proof (Z.mul_div_le t 1000000). lia. Qed.

Lemma trunc_ms_idem t : trunc_ms (trunc_ms t) = trunc_ms t.
Proof. rewrite !trunc_ms_spec /ns_per_ms. rewrite Z.div_mul; [done|lia]. Qed.

Lemma trunc_ms_aligned k : trunc_ms (k * ns_per_ms) = (k * ns_per_ms)%Z.
Proof. rewrite trunc_ms_spec /ns_per_ms Z.div_mul; [done|lia]. Qed.

Lemma ceil_ms_spec t : (t ≤ ceil_ms t < t + ns_per_ms)%Z ∧ trunc_ms (ceil_ms t) = ceil_ms t.
Proof.
  unfold ceil_ms. pose proof (trunc_ms_le t). pose proof (trunc_ms_spec t) as Hs.
  assert (t < trunc_ms t + ns_per_ms)%Z.
  { rewrite Hs /ns_per_ms. pose proof (Z.mod_pos_bound t 1000000).
    pose proof (Z.div_mod t 1000000). lia. }
  case_if; [split; [unfold ns_per_ms; lia|apply trunc_ms_idem]|].
  split; [lia|].
  rewrite (_ : trunc_ms t + ns_per_ms = (t / ns_per_ms + 1) * ns_per_ms)%Z; [|lia].
  apply trunc_ms_aligned.
Qed.

Lemma trunc_ms_max a b :
  trunc_ms a = a → trunc_ms b = b → trunc_ms (Z.max a b) = Z.max a b.
Proof. intros. by destruct (Z.max_spec a b) as [[_ ->]|[_ ->]]. Qed.

(** The chosen time is a whole millisecond, and not before the clock reading, the
    context or the last receipt. *)
Lemma clamp_spec now created prev :
  (∀ t, prev = Some t → trunc_ms t = t) →
  let c := clamp_accepted_at now created prev in
  trunc_ms c = c ∧ (trunc_ms now ≤ c)%Z ∧ (created ≤ c)%Z ∧ (∀ t, prev = Some t → (t ≤ c)%Z).
Proof.
  intros Hp. destruct (ceil_ms_spec created) as [Hc Hca]. pose proof (trunc_ms_idem now) as Hn.
  unfold clamp_accepted_at. cbv zeta. destruct prev as [t|]; [specialize (Hp t eq_refl)|clear Hp].
  - split; [|split; [lia|split; [lia|intros ? [= <-]; lia]]].
    by apply trunc_ms_max; [apply trunc_ms_max|].
  - split; [|split; [lia|split; [lia|done]]].
    by apply trunc_ms_max.
Qed.

(** A hole-free list of slots is its receipts followed by its empty slots. *)
Lemma no_hole_shape slots :
  slots_have_hole slots = false →
  ∃ vs ns, slots = vs ++ ns ∧ Forall (λ s, ∃ r, s.2 = RValid r) vs ∧ Forall (λ s, s.2 = RNull) ns.
Proof.
  assert (∀ l, has_hole_from true (map snd l) = false → Forall (λ s : Slot, s.2 = RNull) l) as Hn.
  { induction l as [|[e [|r|]] l IH]; simpl; intros Hl; [done| |done|done].
    constructor; [done|by apply IH]. }
  unfold slots_have_hole, has_hole.
  induction slots as [|[e [|r|]] l IH]; simpl; intros Hl.
  - by exists [], [].
  - exists [], ((e, RNull) :: l). split; [done|]. split; [done|]. constructor; [done|by apply Hn].
  - destruct (IH Hl) as (vs & ns & -> & Hv & Hnl). exists ((e, RValid r) :: vs), ns.
    split; [done|]. split; [|done]. constructor; [by exists r|done].
  - done.
Qed.

Lemma held_app l k : held (l ++ k) = held l ++ held k.
Proof. unfold held. by rewrite omap_app. Qed.

Lemma held_nulls ns : Forall (λ s : Slot, s.2 = RNull) ns → held ns = [].
Proof. induction 1 as [|[e s] l Hs _ IH]; [done|]. simpl in Hs. subst. done. Qed.

Lemma accepted_times slots :
  omap (λ s : Slot, match s.2 with RValid r => Some (accepted_at r) | _ => None end) slots =
  map accepted_at (held slots).
Proof.
  induction slots as [|[e s] l IH]; [done|].
  destruct s; [exact IH| |exact IH]. exact (f_equal (cons (accepted_at r)) IH).
Qed.

(** [latest_accepted_at] is the largest time held. *)
Lemma latest_accepted_at_spec slots :
  match latest_accepted_at slots with
  | Some t => (∃ r, r ∈ held slots ∧ accepted_at r = t) ∧ Forall (λ r, (accepted_at r ≤ t)%Z) (held slots)
  | None => held slots = []
  end.
Proof.
  unfold latest_accepted_at. rewrite accepted_times.
  induction (held slots) as [|r l IH] using rev_ind; [done|].
  rewrite map_app fold_left_app /=. destruct (fold_left _ _ _) as [m|].
  - destruct IH as [(r' & Hr' & <-) Hle]. split.
    + destruct (Z.max_spec (accepted_at r') (accepted_at r)) as [[_ ->]|[_ ->]];
        [exists r|exists r']; set_solver.
    + apply Forall_app. split; [|by constructor; [lia|]].
      eapply Forall_impl; [exact Hle|]. simpl. lia.
  - subst. simpl. split; [exists r; set_solver|by constructor].
Qed.

Lemma fill_nulls_from_skip mint ctx created now i vs ns prev :
  Forall (λ s : Slot, ∃ r, s.2 = RValid r) vs →
  fill_nulls_from mint ctx created now i (vs ++ ns) prev =
  fill_nulls_from mint ctx created now (i + length vs) ns prev.
Proof.
  intros Hv. revert i. induction Hv as [|[e s] vs [r Hr] _ IH]; intros i; simpl in *.
  - by rewrite Nat.add_0_r.
  - subst. rewrite IH. f_equal. lia.
Qed.

Lemma event_value_ok e v : event_value e = Ok v → event_to_value e = Ok v.
Proof. unfold event_value. destruct (event_to_value e); simpl; congruence. Qed.

(** What is minted for a run of empty slots starting at position [i]. *)
Lemma fill_nulls_from_minted mint ctx created now ns : ∀ i prev fills prev',
  minter_signs mint → Forall (λ s : Slot, s.2 = RNull) ns →
  (∀ t, prev = Some t → trunc_ms t = t) →
  fill_nulls_from mint ctx created now i ns prev = Ok (fills, prev') →
  ∃ rs, fills = zip (List.seq i (length ns)) rs ∧ length rs = length ns ∧
    (∀ j s r, ns !! j = Some s → rs !! j = Some r → bound_at ctx (i + j) (s.1, RValid r)) ∧
    StronglySorted Z.le (map accepted_at rs) ∧
    Forall (λ r, trunc_ms now ≤ accepted_at r ∧ created ≤ accepted_at r ∧
                 ∀ t, prev = Some t → t ≤ accepted_at r)%Z rs ∧
    Forall (λ r, ∃ t, prev' = Some t ∧ (accepted_at r ≤ t)%Z) rs ∧
    (∀ t, prev = Some t → ∃ t', prev' = Some t' ∧ (t ≤ t')%Z) ∧
    (∀ t, prev' = Some t → trunc_ms t = t).
Proof.
  induction ns as [|[e s] ns IH]; intros i prev fills prev' Hm Hn Hp Hfill; simpl in Hfill.
  - inv_ok. simplify_eq. exists []. repeat split; try done; [constructor|naive_solver lia].
  - apply Forall_cons in Hn as [Hs Hn]. simpl in Hs. subst.
    destruct (event_value e) as [v|] eqn:Hv; [|done]. simpl in Hfill.
    destruct (mint _ _ _ _) as [r|] eqn:Hr; [|done]. simpl in Hfill.
    destruct (fill_nulls_from _ _ _ _ _ _ _) as [[fills0 prev0]|] eqn:Hf; [|done].
    simpl in Hfill. injection Hfill as <- <-.
    destruct (Hm _ _ _ _ _ _ (event_value_ok _ _ Hv) Hr) as (Hid & Hctx & Hix & Hat).
    destruct (clamp_spec now created prev Hp) as (Hca & Hcn & Hcc & Hcp). rewrite Hca in Hat.
    destruct (IH (S i) (Some (accepted_at r)) fills0 prev0) as
      (rs & -> & Hlen & Hb & Hsort & Hlow & Hhigh & Hmono & Hcan); [done|done| |done|].
    { intros t [= <-]. apply accepted_at_canonical. }
    destruct (Hmono _ eq_refl) as (t' & Ht' & Hle').
    exists (r :: rs). split; [done|]. split; [simpl; lia|]. split; [|split; [|split; [|split; [|split]]]].
    + intros [|j] s0 r0 Hs0 Hr0; simpl in *; simplify_eq/=.
      * rewrite Nat.add_0_r. split; [done|]. split; [done|]. done.
      * rewrite (_ : i + S j = S i + j); [|lia]. eauto.
    + simpl. constructor; [done|]. apply Forall_map. eapply Forall_impl; [exact Hlow|].
      simpl. intros r0 (_ & _ & Hge). by apply Hge.
    + constructor; [rewrite Hat; done|]. eapply Forall_impl; [exact Hlow|]. simpl.
      intros r0 (Hge1 & Hge2 & Hge3). split; [done|]. split; [done|]. intros t Ht.
      specialize (Hge3 _ eq_refl). specialize (Hcp _ Ht). lia.
    + constructor; [by eauto|done].
    + intros t Ht. exists t'. split; [done|]. specialize (Hcp _ Ht). lia.
    + done.
Qed.

Lemma fill_slots_nulls ns : ∀ vs rs,
  length rs = length ns →
  fill_slots (zip (List.seq (length vs) (length ns)) rs) (vs ++ ns) =
  vs ++ zip_with (λ (s : Slot) r, (s.1, RValid r)) ns rs.
Proof.
  induction ns as [|s ns IH]; intros vs [|r rs] Hlen; simplify_eq/=; [done|].
  unfold fill_slots in *. simpl.
  rewrite alter_app_r_alt; [|lia]. rewrite Nat.sub_diag /=.
  specialize (IH (vs ++ [(s.1, RValid r)]) rs). rewrite length_app Nat.add_1_r in IH.
  rewrite -!app_assoc in IH. by apply IH.
Qed.

Lemma held_filled ns : ∀ rs,
  length rs = length ns → held (zip_with (λ (s : Slot) r, (s.1, RValid r)) ns rs) = rs.
Proof.
  induction ns as [|s ns IH]; intros [|r rs] Hlen; simplify_eq/=; [done|].
  change (r :: held (zip_with (λ (s : Slot) r, (s.1, RValid r)) ns rs) = r :: rs).
  by rewrite IH.
Qed.

Lemma StronglySorted_app_le (l k : list Z) :
  StronglySorted Z.le l → StronglySorted Z.le k →
  (∀ x y, x ∈ l → y ∈ k → (x ≤ y)%Z) → StronglySorted Z.le (l ++ k).
Proof.
  induction 1 as [|x l Hl IH Hx]; intros Hk Hxy; simpl; [done|].
  constructor; [apply IH; set_solver|]. apply Forall_app. split; [done|].
  apply Forall_forall. intros y Hy. apply Hxy; set_solver.
Qed.

Definition all_receipted (slots : list Slot) : Prop := Forall (λ s : Slot, ∃ r, s.2 = RValid r) slots.

(** Filling a hole-free list completes it and keeps its invariant. *)
Lemma fill_nulls_complete mint ctx created slots now fills prev' :
  minter_signs mint → slots_ok ctx created slots → slots_have_hole slots = false →
  fill_nulls mint ctx created slots now (latest_accepted_at slots) = Ok (fills, prev') →
  let filled := fill_slots fills slots in
  slots_ok ctx created filled ∧ all_receipted filled ∧ map fst filled = map fst slots ∧
  (∀ i e r, slots !! i = Some (e, RValid r) → filled !! i = Some (e, RValid r)) ∧
  Forall (λ f, trunc_ms now ≤ accepted_at f.2)%Z fills ∧
  (fills = [] → filled = slots) ∧
  Forall (λ r, ∃ t, prev' = Some t ∧ (accepted_at r ≤ t)%Z) (held filled) ∧
  (∀ t, prev' = Some t → trunc_ms t = t).
Proof.
  intros Hm [Hb Ho Hc] Hh Hfill.
  destruct (no_hole_shape _ Hh) as (vs & ns & -> & Hv & Hn).
  pose proof (latest_accepted_at_spec (vs ++ ns)) as Hlast.
  rewrite held_app (held_nulls ns) // app_nil_r in Ho, Hc, Hlast.
  unfold fill_nulls in Hfill. rewrite fill_nulls_from_skip // Nat.add_0_l in Hfill.
  destruct (fill_nulls_from_minted mint ctx created now ns (length vs)
              (latest_accepted_at (vs ++ ns)) fills prev')
    as (rs & -> & Hlen & Hbr & Hsort & Hlow & Hhigh & Hmono & Hcan); [done|done| |done|].
  { intros t Ht. rewrite Ht in Hlast. destruct Hlast as [(r & _ & <-) _].
    apply accepted_at_canonical. }
  rewrite fill_slots_nulls; [|done]. cbv zeta.
  set (zs := zip_with _ ns rs).
  assert (held (vs ++ zs) = held vs ++ rs) as Hheld by (by rewrite held_app held_filled).
  assert (∀ r, r ∈ held vs → ∃ t, latest_accepted_at (vs ++ ns) = Some t ∧ (accepted_at r ≤ t)%Z)
    as Hvs.
  { intros r Hr. destruct (latest_accepted_at (vs ++ ns)) as [t|];
      [|rewrite Hlast in Hr; by apply elem_of_nil in Hr].
    exists t. split; [done|]. destruct Hlast as [_ Hall]. by rewrite Forall_forall in Hall; apply Hall. }
  split; [|split; [|split; [|split; [|split; [|split; [|split]]]]]].
  - split.
    + intros i s Hs. apply lookup_app_Some in Hs as [Hs|[Hge Hs]].
      * apply Hb. by apply lookup_app_l_Some.
      * subst zs. apply lookup_zip_with_Some in Hs as (s0 & r & -> & Hs0 & Hr).
        specialize (Hbr _ _ _ Hs0 Hr). by rewrite (_ : length vs + (i - length vs) = i) in Hbr; [|lia].
    + rewrite Hheld map_app. apply StronglySorted_app_le; [done|done|].
      intros x y Hx Hy. apply list_elem_of_fmap in Hx as (r & -> & Hr).
      apply list_elem_of_fmap in Hy as (r' & -> & Hr').
      destruct (Hvs r Hr) as (t & Ht & Hle). rewrite Forall_forall in Hlow.
      destruct (Hlow r' Hr') as (_ & _ & Hge). specialize (Hge t Ht). lia.
    + rewrite Hheld. apply Forall_app. split; [done|]. eapply Forall_impl; [exact Hlow|]. naive_solver.
  - apply Forall_app. split; [done|]. subst zs. clear -Hlen.
    revert rs Hlen. induction ns as [|s ns IH]; intros [|r rs] Hlen; simplify_eq/=; constructor;
      [by exists r|by apply IH].
  - rewrite !map_app. f_equal. subst zs. clear -Hlen.
    revert rs Hlen. induction ns as [|s ns IH]; intros [|r rs] Hlen; simplify_eq/=; [done|].
    f_equal. by apply IH.
  - intros i e r Hi. apply lookup_app_Some in Hi as [Hi|[_ Hi]]; [by apply lookup_app_l_Some|].
    rewrite Forall_lookup in Hn. by specialize (Hn _ _ Hi).
  - apply Forall_forall. intros [j r] Hjr. apply elem_of_zip_r in Hjr.
    rewrite Forall_forall in Hlow. by destruct (Hlow r Hjr).
  - intros Hnil. destruct ns as [|s ns]; [by subst zs; rewrite zip_with_nil_l|].
    destruct rs; simplify_eq/=.
  - rewrite Hheld. apply Forall_app. split; [|done]. apply Forall_forall. intros r Hr.
    destruct (Hvs r Hr) as (t & Ht & Hle). destruct (Hmono t Ht) as (t' & Ht' & Hle').
    exists t'. split; [done|lia].
  - done.
Qed.

(** Appending one more receipted slot at the end. *)
Lemma slots_ok_snoc ctx created slots e r :
  slots_ok ctx created slots → bound_at ctx (length slots) (e, RValid r) →
  (created ≤ accepted_at r)%Z → Forall (λ r', (accepted_at r' ≤ accepted_at r)%Z) (held slots) →
  slots_ok ctx created (slots ++ [(e, RValid r)]).
Proof.
  intros [Hb Ho Hc] Hbr Hcr Hle.
  assert (held (slots ++ [(e, RValid r)]) = held slots ++ [r]) as Hheld by by rewrite held_app.
  split.
  - intros i s Hs. apply lookup_app_Some in Hs as [Hs|[Hge Hs]]; [by apply Hb|].
    apply list_lookup_singleton_Some in Hs as [Hi <-].
    by rewrite (_ : i = length slots); [|lia].
  - rewrite Hheld map_app. apply StronglySorted_app_le; [done|repeat constructor|].
    intros x y Hx Hy. apply list_elem_of_fmap in Hx as (r' & -> & Hr').
    apply list_elem_of_singleton in Hy as ->. rewrite Forall_forall in Hle. by apply Hle.
  - rewrite Hheld. apply Forall_app. by split; [|constructor].
Qed.

Lemma all_receipted_no_hole slots : all_receipted slots → slots_have_hole slots = false.
Proof.
  unfold slots_have_hole, has_hole. induction 1 as [|[e s] l [r Hr] _ IH]; [done|].
  simpl in *. by subst.
Qed.

(** The slots after a planned append. *)
Definition appended (prior : list Slot) (event : LifecycleEvent) (plan : ReceiptPlan) : list Slot :=
  fill_slots (plan_fills plan) prior ++ [(event, RValid (plan_new plan))].

(** A plan keeps the invariant; without a hole it completes the list, with one it
    touches no existing slot. *)
Lemma plan_event_receipts_ok mint ctx created prior event now plan :
  minter_signs mint → slots_ok ctx created prior →
  plan_event_receipts mint ctx created prior event now = Ok plan →
  slots_ok ctx created (appended prior event plan) ∧
  map fst (appended prior event plan) = map fst prior ++ [event] ∧
  (∀ i e r, prior !! i = Some (e, RValid r) → appended prior event plan !! i = Some (e, RValid r)) ∧
  (trunc_ms now ≤ accepted_at (plan_new plan))%Z ∧
  plan_hole plan = slots_have_hole prior ∧
  (if plan_hole plan then plan_fills plan = []
   else all_receipted (appended prior event plan)).
Proof.
  intros Hm Hok Hplan. unfold plan_event_receipts in Hplan.
  destruct (slots_have_hole prior) eqn:Hh.
  - cbn [and_then] in Hplan.
    destruct (event_value event) as [v|] eqn:Hv; [|done]. cbn [and_then] in Hplan.
    destruct (mint _ _ _ _) as [r|] eqn:Hr; [|done]. cbn [and_then] in Hplan.
    injection Hplan as <-. unfold appended, fill_slots. cbn [plan_fills plan_new plan_hole fold_left].
    destruct (Hm _ _ _ _ _ _ (event_value_ok _ _ Hv) Hr) as (Hid & Hctx & Hix & Hat).
    pose proof (latest_accepted_at_spec prior) as Hlast.
    destruct (clamp_spec now created (latest_accepted_at prior)) as (Hca & Hcn & Hcc & Hcp).
    { intros t Ht. rewrite Ht in Hlast. destruct Hlast as [(r' & _ & <-) _].
      apply accepted_at_canonical. }
    rewrite Hca in Hat. rewrite -Hat in Hcn, Hcc, Hcp.
    split; [|split; [by rewrite map_app|split; [by intros; apply lookup_app_l_Some|done]]].
    apply slots_ok_snoc; [done|done|done|]. apply Forall_forall. intros r' Hr'.
    destruct (latest_accepted_at prior) as [t|]; [|rewrite Hlast in Hr'; by apply elem_of_nil in Hr'].
    destruct Hlast as [_ Hall]. rewrite Forall_forall in Hall. specialize (Hall _ Hr').
    specialize (Hcp _ eq_refl). lia.
  - destruct (fill_nulls _ _ _ _ _ _) as [[fills prev']|] eqn:Hf; [|done]. cbn [and_then] in Hplan.
    destruct (event_value event) as [v|] eqn:Hv; [|done]. cbn [and_then] in Hplan.
    destruct (mint _ _ _ _) as [r|] eqn:Hr; [|done]. cbn [and_then] in Hplan.
    injection Hplan as <-. unfold appended. cbn [plan_fills plan_new plan_hole].
    destruct (Hm _ _ _ _ _ _ (event_value_ok _ _ Hv) Hr) as (Hid & Hctx & Hix & Hat).
    destruct (fill_nulls_complete mint ctx created prior now fills prev')
      as (Hok' & Hall & Hfst & Hkeep & _ & _ & Hbound & Hcan); [done..|].
    destruct (clamp_spec now created prev' Hcan) as (Hca & Hcn & Hcc & Hcp).
    rewrite Hca in Hat. rewrite -Hat in Hcn, Hcc, Hcp.
    assert (length (fill_slots fills prior) = length prior) as Hlen.
    { rewrite -(length_map fst) Hfst length_map. done. }
    split; [|split; [by rewrite map_app Hfst|split; [by intros; apply lookup_app_l_Some, Hkeep|]]].
    + apply slots_ok_snoc; [done|by rewrite Hlen|done|].
      eapply Forall_impl; [exact Hbound|]. simpl. intros r' (t & Ht & Hle).
      specialize (Hcp _ Ht). lia.
    + split; [done|]. split; [done|]. apply Forall_app. split; [done|].
      constructor; [by exists r|done].
Qed.

(** ** Histories *)

(** What can happen to a context's slots: an event accepted while receipts are
    minted, one accepted while they are not, and a fill of the startup sweep, each
    at whatever the clock then reads. *)
Inductive slot_step (mint : Minter) (ctx : string) (created : Z) : list Slot → list Slot → Prop :=
  | step_minted slots event now plan :
      plan_event_receipts mint ctx created slots event now = Ok plan →
      slot_step mint ctx created slots (appended slots event plan)
  | step_unminted slots event :
      slot_step mint ctx created slots (slots ++ [(event, RNull)])
  | step_sweep slots now fills :
      plan_backfill mint ctx created slots now = Ok (BFill fills) →
      slot_step mint ctx created slots (fill_slots fills slots).

Lemma no_hole_snoc_null slots e :
  slots_have_hole slots = false → slots_have_hole (slots ++ [(e, RNull)]) = false.
Proof.
  unfold slots_have_hole, has_hole. rewrite map_app. generalize false at 1 3 as b.
  induction slots as [|[e' [|r|]] l IH]; intros b Hl; simpl in *; [done|by apply IH| |done].
  destruct b; [done|by apply IH].
Qed.

Lemma slots_ok_snoc_null ctx created slots e :
  slots_ok ctx created slots → slots_ok ctx created (slots ++ [(e, RNull)]).
Proof.
  intros [Hb Ho Hc].
  assert (held (slots ++ [(e, RNull)]) = held slots) as Hheld by (rewrite held_app /=; apply app_nil_r).
  split; [|by rewrite Hheld..]. intros i s Hs.
  apply lookup_app_Some in Hs as [Hs|[_ Hs]]; [by apply Hb|].
  by apply list_lookup_singleton_Some in Hs as [_ <-].
Qed.

Lemma plan_backfill_ok mint ctx created slots now fills :
  minter_signs mint → slots_ok ctx created slots →
  plan_backfill mint ctx created slots now = Ok (BFill fills) →
  slots_ok ctx created (fill_slots fills slots) ∧ all_receipted (fill_slots fills slots) ∧
  map fst (fill_slots fills slots) = map fst slots.
Proof.
  intros Hm Hok Hp. unfold plan_backfill in Hp. destruct (slots_have_hole slots) eqn:Hh; [done|].
  destruct (fill_nulls _ _ _ _ _ _) as [[f prev']|] eqn:Hf; [|done]. cbn [and_then] in Hp.
  destruct (is_empty f); simplify_eq.
  destruct (fill_nulls_complete mint ctx created slots now fills prev')
    as (? & ? & ? & _); done.
Qed.

Lemma slot_step_invariant mint ctx created :
  minter_signs mint → ∀ s s',
  slots_ok ctx created s ∧ slots_have_hole s = false → slot_step mint ctx created s s' →
  slots_ok ctx created s' ∧ slots_have_hole s' = false.
Proof.
  intros Hm s s' [Hok Hh] Hstep. destruct Hstep as [slots event now plan Hp|slots event|slots now fills Hp].
  - destruct (plan_event_receipts_ok _ _ _ _ _ _ _ Hm Hok Hp) as (Hok' & _ & _ & _ & Hph & Hall).
    rewrite Hph Hh in Hall. split; [done|by apply all_receipted_no_hole].
  - split; [by apply slots_ok_snoc_null|by apply no_hole_snoc_null].
  - destruct (plan_backfill_ok _ _ _ _ _ _ Hm Hok Hp) as (? & ? & _).
    split; [done|by apply all_receipted_no_hole].
Qed.

Lemma omap_id_slots slots :
  all_receipted slots → map (λ s : Slot, into_option s.2) slots = map Some (held slots).
Proof.
  induction 1 as [|[e s] l [r Hr] _ IH]; [done|]. simpl in *. subst.
  exact (f_equal (cons (Some r)) IH).
Qed.

(** Receipts of lifecycle events are complete, in order and never backdated,
    however minting is switched on and off and whatever the clock does. In every
    history that starts with no events, each receipt is for the event, the context
    and the position of its slot, no receipt is earlier than the context or than the
    one before it, and no gap is left before a receipt; and the next event accepted
    while minting, whenever it comes, leaves every event with a receipt, so that
    the read rule serves the full array beside the events. *)
Theorem receipt_histories_are_complete (mint : Minter) (ctx : string) (created : Z)
    (slots : list Slot) :
  minter_signs mint → rtc_steps (slot_step mint ctx created) [] slots →
  slots_ok ctx created slots ∧ slots_have_hole slots = false ∧
  ∀ event now plan full,
    plan_event_receipts mint ctx created slots event now = Ok plan →
    let after := appended slots event plan in
    st_lifecycle_events (fc_state full) = Some (map fst after) →
    slots_ok ctx created after ∧ (trunc_ms now ≤ accepted_at (plan_new plan))%Z ∧
    st_event_receipts (fc_state (attach_event_receipts (map (λ s : Slot, into_option s.2) after) true full))
      = Some (held after) ∧
    length (held after) = length (map fst after).
Proof.
  intros Hm Hrun.
  assert (slots_ok ctx created slots ∧ slots_have_hole slots = false) as [Hok Hh].
  { apply (rtc_steps_invariant (slot_step mint ctx created)
             (λ s, slots_ok ctx created s ∧ slots_have_hole s = false)
             (slot_step_invariant mint ctx created Hm) [] slots Hrun).
    split; [|done]. split; [done|constructor|constructor]. }
  split; [done|]. split; [done|]. intros event now plan full Hp after Hev.
  destruct (plan_event_receipts_ok _ _ _ _ _ _ _ Hm Hok Hp) as (Hok' & Hfst & _ & Hnow & Hph & Hall).
  rewrite Hph Hh in Hall. fold after in Hok', Hall, Hfst.
  assert (length (held after) = length after) as Hlen.
  { rewrite -(length_map Some (held after)) -omap_id_slots // length_map. done. }
  split; [done|]. split; [done|]. split; [|by rewrite length_map].
  unfold attach_event_receipts. rewrite Hev omap_id_slots // !length_map Hlen Nat.eqb_refl.
  cbn [negb fc_state st_event_receipts].
  assert (length after ≠ 0%nat) as Hne by (unfold after, appended; rewrite length_app /=; lia).
  apply Nat.eqb_neq in Hne. rewrite Hne.
  assert (forallb (λ r, bool_decide (is_Some r)) (map Some (held after)) = true) as ->.
  { apply forallb_forall. intros r Hr. apply in_map_iff in Hr as (r' & <- & _).
    by apply bool_decide_eq_true. }
  cbn. f_equal. clear. induction (held after) as [|r l IH]; [done|]. exact (f_equal (cons r) IH).
Qed.
End laws.
End receipts.

Notation Slot := (LifecycleEvent * StoredReceipt)%type.

(** ** A concrete SDK *)

Module EventExample.

#[export] Instance LifecycleEventType_eq_dec : EqDecision LifecycleEventType.
Proof. solve_decision. Defined.

Record Ev : Type := mkEvent {
  ev_id : string;
  ev_ctx : string;
  ev_type : LifecycleEventType;
  ev_actor : string;
  ev_reason : option string;
  ev_key : option string
}.

(** A producer's event without a reason; the signature is left out. *)
Definition mkEv (id ctx : string) (ty : LifecycleEventType) : Ev := mkEvent id ctx ty "did:web:a" None None.

#[export] Instance Ev_eq_dec : EqDecision Ev.
Proof. solve_decision. Defined.

(** A receipt, its time in milliseconds. *)
Record Rc : Type := mkRc { rc_event : string; rc_ctx : string; rc_index : Z; rc_ms : Z }.

Fixpoint pos_value (p : positive) : Value :=
  match p with
  | xH => VNull
  | xO p => VArray [pos_value p; VBool false]
  | xI p => VArray [pos_value p; VBool true]
  end.

Fixpoint value_pos (v : Value) : option positive :=
  match v with
  | VNull => Some xH
  | VArray [v; VBool false] => xO <$> value_pos v
  | VArray [v; VBool true] => xI <$> value_pos v
  | _ => None
  end.

Definition z_value (z : Z) : Value :=
  match z with
  | Z0 => VNull
  | Zpos p => VArray [pos_value p; VBool true]
  | Zneg p => VArray [pos_value p; VBool false]
  end.

Definition value_z (v : Value) : option Z :=
  match v with
  | VNull => Some Z0
  | VArray [v; VBool true] => Zpos <$> value_pos v
  | VArray [v; VBool false] => Zneg <$> value_pos v
  | _ => None
  end.

Lemma value_pos_inverse p : value_pos (pos_value p) = Some p.
Proof. induction p as [p IH|p IH|]; simpl; [by rewrite IH|by rewrite IH|done]. Qed.

Lemma value_z_inverse z : value_z (z_value z) = Some z.
Proof. destruct z as [|p|p]; simpl; [done|by rewrite value_pos_inverse..]. Qed.

Definition opt_value (o : option string) : Value := match o with Some s => VString s | None => VNull end.

Definition value_opt (v : Value) : option string := match v with VString s => Some s | _ => None end.

Definition ev_value (e : Ev) : Value :=
  VArray [VString (ev_id e); VString (ev_ctx e);
          match ev_type e with
          | RetractedEvent => VNull
          | RepublishedEvent => VBool true
          | OtherEvent t => VString t
          end;
          VString (ev_actor e); opt_value (ev_reason e); opt_value (ev_key e)].

(** The type as a column holds it. *)
Definition type_text (t : LifecycleEventType) : string :=
  match t with
  | RetractedEvent => "retracted"
  | RepublishedEvent => "republished"
  | OtherEvent t => String "x"%char t
  end.

Definition text_type (s : string) : LifecycleEventType :=
  if bool_decide (s = "retracted") then RetractedEvent
  else if bool_decide (s = "republished") then RepublishedEvent
  else match s with String _ t => OtherEvent t | EmptyString => RetractedEvent end.

(** An event is an array of its values, or the object a row spells out. *)
Definition value_ev (v : Value) : result Ev AcdpError :=
  match value_get v "event_id", value_get v "ctx_id", value_get v "event_type", value_get v "actor" with
  | Some (VString i), Some (VString c), Some (VString t), Some (VString a) =>
      Ok (mkEvent i c (text_type t) a (value_get v "reason" ≫= value_opt) (value_get v "signature" ≫= value_opt))
  | _, _, _, _ =>
      match v with
      | VArray [VString i; VString c; t; VString a; r; k] =>
          Ok (mkEvent i c (match t with VBool _ => RepublishedEvent | VString t => OtherEvent t | _ => RetractedEvent end)
                a (value_opt r) (value_opt k))
      | _ => Err (SchemaViolation "event")
      end
  end.

Definition rc_value (r : Rc) : Value :=
  VArray [VString (rc_event r); VString (rc_ctx r); z_value (rc_index r); z_value (rc_ms r)].

Definition value_rc (v : Value) : result Rc AcdpError :=
  match v with
  | VArray [VString e; VString c; i; m] =>
      match value_z i, value_z m with
      | Some i, Some m => Ok (mkRc e c i m)
      | _, _ => Err (SchemaViolation "receipt")
      end
  | _ => Err (SchemaViolation "receipt")
  end.

(** Ids are their own parse; a registry receipt is the JSON string of its lineage,
    or an object with a [lineage] member. *)
Definition receipt_lineage (v : Value) : string :=
  match v with
  | VString s => s
  | v => match value_get v "lineage" with Some (VString s) => s | _ => "" end
  end.

#[export] Instance ledger_sdk : ChangeSdk := {|
  LifecycleEvent := Ev;
  EventReceipt := Rc;
  RegistryReceipt := Value;
  Change := Z * string * string;
  bucket := λ _ n, from_bytes (replicate n 48%Z);
  sha256 := λ m, take 32 (map (λ b, (b mod 256)%Z) (rev m) ++ replicate 32 0%Z);
  agent_did_parse := Ok;
  lineage_id_parse := Ok;
  ctx_id_parse := Ok;
  event_from_value := value_ev;
  event_to_value := λ e, Ok (ev_value e);
  event_receipt_from_value := value_rc;
  registry_receipt_from_value := Ok;
  change_lifecycle := λ n lineage agent _ _, Ok (n, lineage, agent);
  change_superseded := λ n _ agent r, Ok (n, receipt_lineage r, agent);
  change_key_revocation := λ n agent r, Ok (n, receipt_lineage r, agent);
  change_lineage_id := λ c, c.1.2;
  change_agent_id := λ c, c.2;
  sdk_display := λ _, ""
|}.

#[export] Instance ledger_events : EventSdk := {|
  LifecycleEvent_eq_dec := Ev_eq_dec;
  event_id := ev_id;
  event_ctx_id := ev_ctx;
  event_type := ev_type;
  receipt_event_id := rc_event;
  receipt_ctx_id := rc_ctx;
  receipt_index := rc_index;
  accepted_at := λ r, (rc_ms r * ns_per_ms)%Z;
  event_receipt_to_value := λ r, Ok (rc_value r);
  trunc_ms := λ t, (t / ns_per_ms * ns_per_ms)%Z;
  retraction_state := λ l,
    fold_left (λ b e, match ev_type e with
                      | RetractedEvent => true
                      | RepublishedEvent => false
                      | OtherEvent _ => b
                      end) l false
|}.

#[export] Instance ledger_events_laws : EventSdkLaws.
Proof.
  constructor.
  - done.
  - intros r. simpl. rewrite Z.div_mul; [done|unfold ns_per_ms; lia].
  - intros r v [= <-]. destruct r. simpl. by rewrite !value_z_inverse.
  - done.
  - intros l e. simpl. by rewrite fold_left_app.
Qed.

Definition ledger_mint : Minter := λ ctx v i at_,
  match value_ev v with
  | Ok e => Ok (mkRc (ev_id e) ctx i (at_ / ns_per_ms))
  | Err e => Err e
  end.

Lemma ledger_mint_signs : minter_signs ledger_mint.
Proof.
  intros ctx e v i at_ r Hv Hr. injection Hv as <-. unfold ledger_mint in Hr.
  destruct e as [id c t a rs k]. destruct t; simpl in Hr; injection Hr as <-; done.
Qed.

Definition retract1 : Ev := mkEv "e1" "ctx-1" RetractedEvent.
Definition republish1 : Ev := mkEv "e2" "ctx-1" RepublishedEvent.

(** A first event without a receipt, then one that is minted with the clock an hour
    back: both get the creation time. *)
Definition slots1 : list Slot := [(retract1, RNull)].

Lemma receipt_histories_are_complete_witness :
  slots_have_hole slots1 = false ∧
  match plan_event_receipts ledger_mint "ctx-1" 5000000001 slots1 republish1 0 with
  | Ok plan => map accepted_at (held (appended slots1 republish1 plan)) = [5001000000; 5001000000]%Z ∧
               length (held (appended slots1 republish1 plan)) = 2%nat
  | Err _ => False
  end.
Proof.
  destruct (receipt_histories_are_complete ledger_mint "ctx-1" 5000000001 slots1 ledger_mint_signs)
    as (Hok & Hh & Hnext).
  { eapply rtc_steps_step; [apply (@step_unminted ledger_sdk _ ledger_mint "ctx-1" 5000000001 [] retract1)|]. apply rtc_steps_refl. }
  split; [exact Hh|].
  destruct (plan_event_receipts ledger_mint "ctx-1" 5000000001 slots1 republish1 0) as [plan|]
    eqn:Hp; [|by vm_compute in Hp].
  destruct (Hnext republish1 0%Z plan
    (mkFullContext (example_body "ctx-1" "lin" "a" false None)
       (mkState Active (Some (map fst (appended slots1 republish1 plan))) None) None) Hp eq_refl)
    as (_ & _ & _ & Hlen).
  split; [|by rewrite Hlen; injection Hp as <-].
  by injection Hp as <-.
Defined.

End EventExample.
