(* ===== verification/KeyAttestations.v ===== *)
(** * Key attestations

    [acdp-registry-store/src/key_attestations.rs]: the index row beside an
    attestation body and the checks a publish transaction runs for a keyless
    request. The parts of [acdp::types::keyless] and [acdp::did] it calls are the
    class [KeylessSdk]. *)

From S2P Require Import Prelude Errors ContextTypes.

Open Scope registry_scope.

Inductive WorkloadIdentity : Type :=
  | Oidc (issuer subject : string)
  | Spiffe (subject : string).

#[export] Instance WorkloadIdentity_eq_dec : EqDecision WorkloadIdentity.
Proof. solve_decision. Defined.

Inductive KeylessSigner : Type :=
  | Controller
  | Keyless (identity : WorkloadIdentity) (org_wide : bool).

Inductive KeylessReason : Type :=
  | AttestationMissing
  | AttestationForeign
  | AttestationNotFound
  | AttestationMismatch
  | AttestationWithdrawn
  | OutsideAttestationWindow
  | KeylessIdentityMismatch
  | IdentityNotAuthorized
  | TokenReplayed
  | OtherReason (s : string).

(** The coordinates of [acdp::types::keyless::Jwk]. *)
Record Jwk : Type := mkJwk { jwk_x : string; jwk_y : option string }.

(** [acdp::types::keyless::KeyAttestation]; times in nanoseconds. *)
Record KeyAttestation : Type := mkKeyAttestation {
  ka_controller : string;
  ka_identity : WorkloadIdentity;
  ka_org_wide : bool;
  ka_key_id : string;
  ka_algorithm : string;
  ka_key_fingerprint : string;
  ka_not_before : Z;
  ka_not_after : Z;
  ka_token_hash : string;
  ka_public_key_jwk : Jwk
}.

Class KeylessSdk : Type := {
  KEY_ATTESTATION_TYPE : string;
  is_keyless_key_id : string → bool;
  keyless_key_id : string → string → result string AcdpError;
  may_supersede : KeylessSigner → KeylessSigner → result unit KeylessReason;
  (** [KeylessReason::error]. *)
  keyless_error : KeylessReason → string → AcdpError;
  attestation_from_body : Body → result KeyAttestation AcdpError;
  attestation_from_metadata : Value → result KeyAttestation AcdpError;
  (** [Body::key_attestation], the context it names. *)
  body_key_attestation : Body → result (option string) AcdpError;
  authority_to_did_web : string → string;
  keyless_display : AcdpError → string
}.

Record KeyAttestationIndexRow : Type := mkIndexRow {
  ir_ctx_id : string;
  ir_controller : string;
  ir_identity : WorkloadIdentity;
  ir_org_wide : bool;
  ir_key_id : string;
  ir_algorithm : string;
  ir_key_fingerprint : string;
  ir_not_before_ms : Z;
  ir_not_after_ms : Z;
  ir_token_hash : string;
  ir_created_at_ms : Z
}.

#[export] Instance KeyAttestationIndexRow_eq_dec : EqDecision KeyAttestationIndexRow.
Proof. solve_decision. Defined.

Record SuccessorAttestation : Type := mkSuccessor {
  sa_row : KeyAttestationIndexRow;
  sa_withdrawn : bool
}.

Record KeyAttestationRecord : Type := mkRecord {
  rec_ctx_id : string;
  rec_content_hash : string;
  rec_status : Status;
  rec_created_at_ms : Z;
  rec_attestation : KeyAttestation;
  rec_metadata : Value
}.

Record KeyAttestationListItem : Type := mkListItem {
  item_ctx_id : string;
  item_content_hash : string;
  item_metadata : Value
}.

Record KeyAttestationFilter : Type := mkFilter {
  filter_issuer : option string;
  filter_subject : option string
}.

Definition MAX_LIST_LIMIT : Z := 200.

(** [KeyAttestationIndexRow::new]. *)
Definition index_row_new (body : Body) (att : KeyAttestation) : KeyAttestationIndexRow :=
  mkIndexRow (body_ctx_id body) (ka_controller att) (ka_identity att) (ka_org_wide att)
    (ka_key_id att) (ka_algorithm att) (ka_key_fingerprint att)
    (timestamp_millis (ka_not_before att)) (timestamp_millis (ka_not_after att))
    (ka_token_hash att) (timestamp_millis (body_created_at body)).

Definition identity_type (r : KeyAttestationIndexRow) : string :=
  match ir_identity r with Oidc _ _ => "oidc" | Spiffe _ => "spiffe" end.

Definition issuer (r : KeyAttestationIndexRow) : option string :=
  match ir_identity r with Oidc i _ => Some i | Spiffe _ => None end.

Definition subject (r : KeyAttestationIndexRow) : string :=
  match ir_identity r with Oidc _ s | Spiffe s => s end.

Definition signer (r : KeyAttestationIndexRow) : KeylessSigner :=
  Keyless (ir_identity r) (ir_org_wide r).

Definition window_contains (r : KeyAttestationIndexRow) (t : Z) : bool :=
  let t := timestamp_millis t in ((ir_not_before_ms r <=? t) && (t <? ir_not_after_ms r))%Z.

Definition identity_from_columns (ty : string) (iss : option string) (sub : string) :
    result WorkloadIdentity AcdpError :=
  match bool_decide (ty = "oidc"), bool_decide (ty = "spiffe"), iss with
  | true, _, Some i => Ok (Oidc i sub)
  | _, true, None => Ok (Spiffe sub)
  | _, _, _ => Err (RegistryInternal
      ("key_attestations row has an inconsistent identity (type '" +:+ ty +:+ "')"))
  end.

(** [KeyAttestationFilter::matches]. *)
Definition filter_matches (f : KeyAttestationFilter) (r : KeyAttestationIndexRow) : bool :=
  (match filter_issuer f with Some i => bool_decide (issuer r = Some i) | None => true end)
  && (match filter_subject f with Some s => bool_decide (subject r = s) | None => true end).

Section checks.
Context `{KeylessSdk}.

Definition is_minted_attestation (ct : ContextType) (agent_id authority : string) : bool :=
  (match ct with CtCustom t => bool_decide (t = KEY_ATTESTATION_TYPE) | _ => false end)
  && bool_decide (agent_id = authority_to_did_web authority).

Definition index_row_for (body : Body) (authority : string) :
    result (option KeyAttestationIndexRow) AcdpError :=
  if negb (is_minted_attestation (body_context_type body) (body_agent_id body) authority)
  then Ok None
  else
    let? att := map_err (λ e, RegistryInternal ("refusing to commit key attestation '" +:+
                  body_ctx_id body +:+ "': " +:+ keyless_display e)) (attestation_from_body body) in
    Ok (Some (index_row_new body att)).

Definition token_replayed (token_hash : string) : AcdpError :=
  keyless_error TokenReplayed ("token " +:+ token_hash +:+ " was already used for an attestation").

Definition keyless_successor (req : PublishRequest) : option string :=
  if is_keyless_key_id (sig_key_id (req_signature req)) then ref_ctx_id <$> req_key_attestation req
  else None.

Definition admit_successor (req : PublishRequest) (att_ctx : string)
    (found : option SuccessorAttestation) : result SuccessorAttestation AcdpError :=
  let? found := ok_or found
    (keyless_error AttestationNotFound ("no key attestation at '" +:+ att_ctx +:+ "'")) in
  let row := sa_row found in
  let binds :=
    bool_decide (req_agent_id req = ir_controller row)
    && bool_decide (sig_algorithm (req_signature req) = ir_algorithm row)
    && bool_decide (sig_key_id (req_signature req) = ir_key_id row)
    && match keyless_key_id (ir_controller row) (ir_key_fingerprint row) with
       | Ok k => bool_decide (k = sig_key_id (req_signature req))
       | Err _ => false
       end in
  if negb binds then
    Err (keyless_error AttestationMismatch
      ("agent_id, signature.key_id or signature.algorithm differ from key attestation '" +:+
       att_ctx +:+ "'"))
  else if sa_withdrawn found then
    Err (keyless_error AttestationWithdrawn ("key attestation '" +:+ att_ctx +:+ "' was retracted"))
  else Ok found.

(** The time the message shows is left out. *)
Definition check_window (found : SuccessorAttestation) (created_at : Z) : result unit AcdpError :=
  if window_contains (sa_row found) created_at then Ok tt
  else Err (keyless_error OutsideAttestationWindow
              ("created_at is outside the window of key attestation '" +:+
               ir_ctx_id (sa_row found) +:+ "'")).

Definition predecessor_attestation (body : Body) : result (option string) AcdpError :=
  if negb (is_keyless_key_id (sig_key_id (body_signature body))) then Ok None
  else
    match body_key_attestation body with
    | Ok (Some c) => Ok (Some c)
    | Ok None => Err (RegistryInternal
        ("stored keyless body '" +:+ body_ctx_id body +:+ "' has no key_attestation"))
    | Err e => Err (RegistryInternal ("stored keyless body '" +:+ body_ctx_id body +:+
        "' has a malformed key_attestation: " +:+ keyless_display e))
    end.

Definition predecessor_signer (att : option string) (row : option KeyAttestationIndexRow) :
    result KeylessSigner AcdpError :=
  match att, row with
  | None, _ => Ok Controller
  | Some _, Some row => Ok (signer row)
  | Some att, None => Err (RegistryInternal
      ("the predecessor's key attestation '" +:+ att +:+ "' has no index row"))
  end.

Definition check_supersession (predecessor : KeylessSigner) (successor : SuccessorAttestation) :
    result unit AcdpError :=
  map_err (λ reason, keyless_error reason ("the identity of key attestation '" +:+
             ir_ctx_id (sa_row successor) +:+ "' may not supersede this predecessor"))
    (may_supersede predecessor (signer (sa_row successor))).

(** [KeyAttestationRecord::from_parts]. *)
Definition record_from_parts (ctx_id content_hash : string) (status : Status) (created_at_ms : Z)
    (body : Body) : result KeyAttestationRecord AcdpError :=
  let? metadata := ok_or (body_metadata body)
    (RegistryInternal ("key attestation '" +:+ ctx_id +:+ "' has no metadata")) in
  let? attestation :=
    map_err (λ e, RegistryInternal ("stored key attestation '" +:+ ctx_id +:+ "': " +:+
                                    keyless_display e)) (attestation_from_metadata metadata) in
  Ok (mkRecord ctx_id content_hash status created_at_ms attestation metadata).

Definition list_item (ctx_id content_hash : string) (body : Body) :
    result KeyAttestationListItem AcdpError :=
  let? metadata := ok_or (body_metadata body)
    (RegistryInternal ("key attestation '" +:+ ctx_id +:+ "' has no metadata")) in
  Ok (mkListItem ctx_id content_hash metadata).

(** What an admitted keyless request rests on. *)
Lemma admit_successor_ok req att found s :
  admit_successor req att found = Ok s →
  found = Some s ∧ sa_withdrawn s = false ∧
  req_agent_id req = ir_controller (sa_row s) ∧
  sig_key_id (req_signature req) = ir_key_id (sa_row s) ∧
  sig_algorithm (req_signature req) = ir_algorithm (sa_row s) ∧
  keyless_key_id (ir_controller (sa_row s)) (ir_key_fingerprint (sa_row s)) =
    Ok (sig_key_id (req_signature req)).
Proof.
  unfold admit_successor. destruct found as [f|]; [|done]. cbn [ok_or and_then].
  destruct (keyless_key_id _ _) as [k|] eqn:Hk; [|by rewrite andb_false_r].
  destruct (negb _) eqn:Hb; [done|]. destruct (sa_withdrawn f) eqn:Hw; [done|].
  intros [= <-]. bool_to_prop. by subst.
Qed.

Lemma index_row_for_ok body authority r :
  index_row_for body authority = Ok (Some r) →
  ir_ctx_id r = body_ctx_id body ∧ ir_created_at_ms r = timestamp_millis (body_created_at body) ∧
  body_agent_id body = authority_to_did_web authority ∧
  ∃ att, attestation_from_body body = Ok att ∧ r = index_row_new body att.
Proof.
  unfold index_row_for, is_minted_attestation. intros Hr. case_ifs; [done|].
  destruct (attestation_from_body body) as [att|]; [|done]. simpl in Hr.
  injection Hr as <-. by eauto 10.
Qed.
End checks.

(** The identity of a row is read back from its three columns. *)
Lemma identity_columns_roundtrip r :
  identity_from_columns (identity_type r) (issuer r) (subject r) = Ok (ir_identity r).
Proof. unfold identity_type, issuer, subject. by destruct (ir_identity r). Qed.
