(* ===== verification/SqlTx.v ===== *)
(** * Database transactions

    A transaction of [sqlx] as the stores use it: a sequence of statements on the
    tables, each of which the driver may fail, with an early return at the first
    error. A transaction that is dropped or rolled back leaves the tables as they
    were; one that is committed replaces them, unless the commit itself fails, and a
    commit whose reply is lost has still happened. *)

From S2P Require Import Prelude Errors.

Declare Scope tx_scope.
Delimit Scope tx_scope with tx.

(** What the driver will answer to the coming statements: [Some m] is the error
    [m], [None] lets the statement run; past the end of the list none fails. *)
Definition Faults : Type := list (option string).

Definition Tx (Db A : Type) : Type := Faults → Db → result (A * Faults * Db) AcdpError.

Section tx.
Context {Db : Type}.

Definition tx_ret {A} (a : A) : Tx Db A := λ fs db, Ok (a, fs, db).

Definition tx_bind {A B} (t : Tx Db A) (k : A → Tx Db B) : Tx Db B := λ fs db,
  match t fs db with
  | Ok (a, fs, db) => k a fs db
  | Err e => Err e
  end.

(** A computation that touches no table, with the [?] operator. *)
Definition tx_lift {A} (r : result A AcdpError) : Tx Db A := λ fs db,
  match r with
  | Ok a => Ok (a, fs, db)
  | Err e => Err e
  end.

(** One statement. [f] says what it does to the tables, or which constraint it
    breaks; [wrap] is the caller's [map_err]. *)
Definition stmt {A} (wrap : string → AcdpError) (f : Db → result (A * Db) string) : Tx Db A :=
  λ fs db,
    match fs with
    | Some m :: _ => Err (wrap m)
    | _ =>
        match f db with
        | Ok (a, db') => Ok (a, tail fs, db')
        | Err m => Err (wrap m)
        end
    end.

(** A query reads, a statement without constraints writes. *)
Definition query {A} (wrap : string → AcdpError) (f : Db → A) : Tx Db A :=
  stmt wrap (λ db, Ok (f db, db)).

Definition execute (wrap : string → AcdpError) (f : Db → Db) : Tx Db unit :=
  stmt wrap (λ db, Ok (tt, f db)).

(** How the body of a transaction ends: it commits, or it rolls back and answers
    after a read of the tables outside the transaction. *)
Inductive TxEnd (A : Type) : Type :=
  | Commit (a : A)
  | RollbackRead (k : Db → result A AcdpError).

Arguments Commit {A} a.
Arguments RollbackRead {A} k.

Definition Rollback {A} (a : A) : TxEnd A := RollbackRead (λ _, Ok a).

Inductive CommitReply : Type :=
  | CommitDone
  | CommitFailed (m : string)
  | CommitLost (m : string).

Record TxEnv : Type := mkTxEnv {
  tx_begin : option string;
  tx_faults : Faults;
  tx_commit : CommitReply;
  (** The reply to a rollback; most callers ignore it. *)
  tx_rollback : option string
}.

Definition transaction {A} (env : TxEnv) (wrap : string → AcdpError) (body : Tx Db (TxEnd A))
    (db : Db) : result A AcdpError * Db :=
  match tx_begin env with
  | Some m => (Err (RegistryInternal ("tx begin: " +:+ m)), db)
  | None =>
      match body (tx_faults env) db with
      | Err e => (Err e, db)
      | Ok (RollbackRead k, _, _) => (k db, db)
      | Ok (Commit a, _, db') =>
          match tx_commit env with
          | CommitDone => (Ok a, db')
          | CommitFailed m => (Err (wrap m), db)
          | CommitLost m => (Err (wrap m), db')
          end
      end
  end.

Lemma tx_bind_ok {A B} (t : Tx Db A) (k : A → Tx Db B) fs db x :
  tx_bind t k fs db = Ok x →
  ∃ a fs1 db1, t fs db = Ok (a, fs1, db1) ∧ k a fs1 db1 = Ok x.
Proof.
  unfold tx_bind. destruct (t fs db) as [[[a fs1] db1]|] eqn:Ht; [|done].
  intros Hk. by exists a, fs1, db1.
Qed.

Lemma tx_lift_ok {A} (r : result A AcdpError) fs db a fs' db' :
  tx_lift r fs db = Ok (a, fs', db') → r = Ok a ∧ fs' = fs ∧ db' = db.
Proof. unfold tx_lift. destruct r; [|done]. by intros [= -> -> ->]. Qed.

Lemma stmt_ok {A} wrap (f : Db → result (A * Db) string) fs db a fs' db' :
  stmt wrap f fs db = Ok (a, fs', db') → f db = Ok (a, db').
Proof.
  unfold stmt. destruct fs as [|[m|] fs]; [| done |];
    (destruct (f db) as [[b db1]|]; [|done]); by intros [= -> _ ->].
Qed.

Lemma query_ok {A} wrap (f : Db → A) fs db a fs' db' :
  query wrap f fs db = Ok (a, fs', db') → a = f db ∧ db' = db.
Proof. intros Hq. apply stmt_ok in Hq. by injection Hq as -> ->. Qed.

Lemma execute_ok wrap (f : Db → Db) fs db u fs' db' :
  execute wrap f fs db = Ok (u, fs', db') → db' = f db.
Proof. intros Hq. apply stmt_ok in Hq. by injection Hq as _ ->. Qed.

(** What a property of the tables must survive: the body, when it commits. *)
Lemma transaction_preserves {A} (I : Db → Prop) env wrap (body : Tx Db (TxEnd A)) db :
  I db →
  (∀ a fs' db', body (tx_faults env) db = Ok (Commit a, fs', db') → I db') →
  I (transaction env wrap body db).2.
Proof.
  intros Hdb Hbody. unfold transaction. destruct (tx_begin env); [done|].
  destruct (body (tx_faults env) db) as [[[[a|k] fs'] db']|] eqn:Hb; [|done|done].
  specialize (Hbody a fs' db' eq_refl). by destruct (tx_commit env).
Qed.

(** An answer other than an error comes from a commit or from a read after the
    rollback. *)
Lemma transaction_ok {A} env wrap (body : Tx Db (TxEnd A)) db a db' :
  transaction env wrap body db = (Ok a, db') →
  (∃ fs', body (tx_faults env) db = Ok (Commit a, fs', db')) ∨
  (db' = db ∧ ∃ k fs' db1, body (tx_faults env) db = Ok (RollbackRead k, fs', db1) ∧ k db = Ok a).
Proof.
  unfold transaction. destruct (tx_begin env); [done|].
  destruct (body (tx_faults env) db) as [[[[b|k] fs'] db1]|] eqn:Hb; [| |done].
  - destruct (tx_commit env); intros; simplify_eq; eauto.
  - intros [= Hk ->]. right. by eauto 10.
Qed.
End tx.

Arguments Commit {Db A} a.
Arguments RollbackRead {Db A} k.
Arguments TxEnd Db A : clear implicits.

Notation "'let*' x := c 'in' k" := (tx_bind c (λ x, k))
  (at level 10, x name, k at level 200) : tx_scope.
Notation "'let*' ' p := c 'in' k" := (tx_bind c (λ p, k))
  (at level 10, p strict pattern, k at level 200) : tx_scope.

(** Peels the steps off a body that ended well. *)
Ltac inv_tx :=
  repeat match goal with
    | Hx : tx_bind _ _ _ _ = Ok _ |- _ =>
        let a := fresh "a" in let fs := fresh "fs" in let d := fresh "db" in
        let Ht := fresh "Ht" in
        apply tx_bind_ok in Hx as (a & fs & d & Ht & Hx)
    | Hx : tx_lift _ _ _ = Ok _ |- _ => apply tx_lift_ok in Hx as (? & -> & ->)
    | Hx : query _ _ _ _ = Ok _ |- _ => apply query_ok in Hx as (-> & ->)
    | Hx : execute _ _ _ _ = Ok _ |- _ => apply execute_ok in Hx as ->
    | Hx : stmt _ _ _ _ = Ok _ |- _ => apply stmt_ok in Hx
    | Hx : tx_ret _ _ _ = Ok _ |- _ => unfold tx_ret in Hx; simplify_eq
    end.
