(* ===== verification/SqliteStore.v ===== *)
(** * The SQLite context store

    [acdp-registry-sqlite/src/store.rs] and [keyless.rs]: the tables, the publish
    and lifecycle transactions, the idempotency records, the receipt sweep and the
    reads of a context and a lineage. [BEGIN IMMEDIATE] serialises the writers, so a
    write transaction is one function of the tables (file [SqlTx]).

    JSON columns are their text. [serde_json], chrono's formatting, the leaf encoding
    and the random ids of the [acdp] crate are the class [StoreCodec] and the classes
    of the files below; [StoreCodecLaws] is what their documentation promises. The
    columns only the full-text search reads (title, description, summary, domain,
    tags) are left out. *)

From stdpp Require Import pretty.
From S2P Require Import Prelude Text Errors ContextTypes ChangeBucket ChangeFeed FeedBackends.
From S2P Require Import EventReceipts KeyAttestations SqlTx.

Open Scope registry_scope.
Open Scope tx_scope.

(** ** Tables *)

(** The columns only searches read, written with the row and never changed: [tags]
    is JSON text in SQLite and an array in Postgres. *)
Record SearchColumns (T : Type) : Type := mkSearchColumns {
  col_title : string;
  col_description : option string;
  col_summary : option string;
  col_domain : option string;
  col_tags : T
}.
Arguments mkSearchColumns {T}.
Arguments col_title {T}.
Arguments col_description {T}.
Arguments col_summary {T}.
Arguments col_domain {T}.
Arguments col_tags {T}.

Definition search_columns {T} (body : Body) (tags : T) : SearchColumns T :=
  mkSearchColumns (body_title body) (body_description body) (body_summary body) (body_domain body) tags.

Record CtxRow : Type := mkCtxRow {
  c_ctx_id : string;
  c_lineage_id : string;
  c_agent_id : string;
  c_contributors : string;
  c_origin_registry : string;
  c_created_at : string;
  c_status : string;
  c_visibility : string;
  c_context_type : string;
  c_version : Z;
  c_supersedes : option string;
  c_search : SearchColumns string;
  c_expires_at : option string;
  c_content_hash : string;
  c_body_json : string;
  c_tenant_id : string;
  c_registry_receipt : option string;
  c_retracted : Z
}.

Record EventRow : Type := mkEventRow {
  e_ctx_id : string;
  e_event_id : string;
  e_event_type : string;
  e_occurred_at : string;
  e_actor : string;
  e_reason : option string;
  e_signature : option string;
  e_tenant_id : string;
  e_receipt : option string
}.

Record IdemRow : Type := mkIdemRow {
  i_content_hash : string;
  i_response_json : string;
  i_expires_at_ms : Z
}.

Record AttRow : Type := mkAttRow {
  k_ctx_id : string;
  k_controller : string;
  k_identity_type : string;
  k_issuer : option string;
  k_subject : string;
  k_org_wide : Z;
  k_key_id : string;
  k_algorithm : string;
  k_key_fingerprint : string;
  k_not_before_ms : Z;
  k_not_after_ms : Z;
  k_token_hash : string;
  k_created_at_ms : Z
}.

Record LeafRow : Type := mkLeafRow {
  l_index : Z;
  l_ctx_id : string;
  l_json : string;
  l_hash : string
}.

(** The tables; the rows of a table in insertion order, which for
    [lifecycle_events] is the order of [seq]. *)
Record SqliteDb : Type := mkDb {
  contexts : list CtxRow;
  lifecycle_events : list EventRow;
  idempotency_records : gmap (string * string) IdemRow;
  key_attestations : list AttRow;
  log_leaves : list LeafRow;
  changes_db : ChangesDb string
}.

Definition with_contexts (f : list CtxRow → list CtxRow) (db : SqliteDb) : SqliteDb :=
  mkDb (f (contexts db)) (lifecycle_events db) (idempotency_records db) (key_attestations db)
    (log_leaves db) (changes_db db).
Definition with_events (f : list EventRow → list EventRow) (db : SqliteDb) : SqliteDb :=
  mkDb (contexts db) (f (lifecycle_events db)) (idempotency_records db) (key_attestations db)
    (log_leaves db) (changes_db db).
Definition with_idempotency (f : gmap (string * string) IdemRow → gmap (string * string) IdemRow)
    (db : SqliteDb) : SqliteDb :=
  mkDb (contexts db) (lifecycle_events db) (f (idempotency_records db)) (key_attestations db)
    (log_leaves db) (changes_db db).
Definition with_attestations (f : list AttRow → list AttRow) (db : SqliteDb) : SqliteDb :=
  mkDb (contexts db) (lifecycle_events db) (idempotency_records db) (f (key_attestations db))
    (log_leaves db) (changes_db db).
Definition with_leaves (f : list LeafRow → list LeafRow) (db : SqliteDb) : SqliteDb :=
  mkDb (contexts db) (lifecycle_events db) (idempotency_records db) (key_attestations db)
    (f (log_leaves db)) (changes_db db).
Definition with_changes (f : ChangesDb string → ChangesDb string) (db : SqliteDb) : SqliteDb :=
  mkDb (contexts db) (lifecycle_events db) (idempotency_records db) (key_attestations db)
    (log_leaves db) (f (changes_db db)).

Definition set_status (s : string) (r : CtxRow) : CtxRow :=
  mkCtxRow (c_ctx_id r) (c_lineage_id r) (c_agent_id r) (c_contributors r) (c_origin_registry r)
    (c_created_at r) s (c_visibility r) (c_context_type r) (c_version r) (c_supersedes r)
    (c_search r) (c_expires_at r) (c_content_hash r) (c_body_json r) (c_tenant_id r) (c_registry_receipt r)
    (c_retracted r).
Definition set_retracted (n : Z) (r : CtxRow) : CtxRow :=
  mkCtxRow (c_ctx_id r) (c_lineage_id r) (c_agent_id r) (c_contributors r) (c_origin_registry r)
    (c_created_at r) (c_status r) (c_visibility r) (c_context_type r) (c_version r)
    (c_supersedes r) (c_search r) (c_expires_at r) (c_content_hash r) (c_body_json r) (c_tenant_id r)
    (c_registry_receipt r) n.
Definition set_tenant (t : string) (r : CtxRow) : CtxRow :=
  mkCtxRow (c_ctx_id r) (c_lineage_id r) (c_agent_id r) (c_contributors r) (c_origin_registry r)
    (c_created_at r) (c_status r) (c_visibility r) (c_context_type r) (c_version r)
    (c_supersedes r) (c_search r) (c_expires_at r) (c_content_hash r) (c_body_json r) t
    (c_registry_receipt r) (c_retracted r).
Definition set_receipt (text : string) (r : EventRow) : EventRow :=
  mkEventRow (e_ctx_id r) (e_event_id r) (e_event_type r) (e_occurred_at r) (e_actor r)
    (e_reason r) (e_signature r) (e_tenant_id r) (Some text).

(** [UPDATE contexts ... WHERE ctx_id = ?]. *)
Definition update_ctx (ctx_id : string) (f : CtxRow → CtxRow) (db : SqliteDb) : SqliteDb :=
  with_contexts (map (λ r, if bool_decide (c_ctx_id r = ctx_id) then f r else r)) db.

(** [SELECT ... FROM contexts WHERE ctx_id = ?]. *)
Definition select_ctx (ctx_id : string) (db : SqliteDb) : option CtxRow :=
  List.find (λ r, bool_decide (c_ctx_id r = ctx_id)) (contexts db).

Definition text_leb (a b : string) : bool := bytes_leb (as_bytes a) (as_bytes b).

(** [ORDER BY version ASC, created_at ASC]. *)
Definition version_order (r1 r2 : CtxRow) : Prop :=
  (c_version r1 < c_version r2)%Z ∨
  (c_version r1 = c_version r2 ∧ text_leb (c_created_at r1) (c_created_at r2) = true).

#[export] Instance version_order_dec : RelDecision version_order.
Proof. unfold version_order. solve_decision. Defined.

Definition select_lineage (lineage_id : string) (db : SqliteDb) : list CtxRow :=
  merge_sort version_order (filter (λ r, c_lineage_id r = lineage_id) (contexts db)).

(** [SELECT ... FROM lifecycle_events WHERE ctx_id = ? ORDER BY seq ASC]. *)
Definition select_events (ctx_id : string) (db : SqliteDb) : list EventRow :=
  filter (λ r, e_ctx_id r = ctx_id) (lifecycle_events db).

(** ** Requests and answers *)

Record PublishResponse : Type := mkResponse {
  resp_ctx_id : string;
  resp_lineage_id : string;
  resp_version : Z;
  resp_created_at : Z;
  resp_status : Status;
  resp_registry_receipt : option Value
}.

Inductive PublishCommitOutcome : Type :=
  | Inserted (r : PublishResponse)
  | IdempotentReplay (r : PublishResponse).

(** The time to live is in nanoseconds. *)
Record PublishCommit : Type := mkPublishCommit {
  pc_req : PublishRequest;
  pc_authority : string;
  pc_idempotency : option (string * Z);
  pc_tenant : option string;
  pc_receipt_minter : option (Body → result Value AcdpError);
  pc_predecessor_admission : option (Body → result unit AcdpError)
}.

(** [LogLeaf]. *)
Record LogLeaf : Type := mkLogLeaf {
  leaf_ctx_id : string;
  leaf_lineage_id : string;
  leaf_origin_registry : string;
  leaf_created_at : Z;
  leaf_content_hash : string;
  leaf_key_fingerprint : string;
  leaf_receipt_hash : string
}.

Class StoreCodec `{EventSdk} : Type := {
  body_text : Body → result string string;
  body_parse : string → result Body string;
  strings_text : list string → result string string;
  strings_parse : string → result (list string) string;
  (** [Value::to_string]. *)
  value_text : Value → string;
  value_parse : string → result Value string;
  response_text : PublishResponse → result string string;
  response_parse : string → result PublishResponse string;
  rfc3339 : Z → string;
  from_timestamp_millis : Z → option Z;
  (** The columns of an event. *)
  event_type_text : LifecycleEvent → string;
  event_occurred_text : LifecycleEvent → string;
  event_actor : LifecycleEvent → string;
  event_reason : LifecycleEvent → option string;
  event_signature_text : LifecycleEvent → result (option string) string;
  (** [RegistryReceipt::preimage_hash_of_value]. *)
  receipt_preimage_hash : Value → result string AcdpError;
  (** [LogLeaf::canonical_bytes], [merkle::leaf_hash] and [encode_sha256_hex]. *)
  leaf_canonical_bytes : LogLeaf → result (list Z) AcdpError;
  merkle_leaf_hash : list Z → string;
  bytes_to_string : list Z → result string string
}.

(** [map_sqlx_err]. *)
Definition map_sqlx_err (m : string) : AcdpError := RegistryInternal ("sqlite: " +:+ m).

(** [db_err] of [keyless.rs]. *)
Definition attestations_err (what m : string) : AcdpError :=
  RegistryInternal ("key_attestations " +:+ what +:+ ": " +:+ m).

(** [db_err] of [changes.rs]. *)
Definition feed_err (what m : string) : AcdpError :=
  RegistryInternal ("changes " +:+ what +:+ ": " +:+ m).

Section store.
Context `{StoreCodec} `{PublishSdk} `{KeylessSdk}.

Record SqliteStore : Type := mkStore {
  log_enabled : bool;
  event_receipt_minter : option Minter
}.

Definition minting (st : SqliteStore) : bool := bool_decide (is_Some (event_receipt_minter st)).

(** ** Rows and values *)

Definition full_context (body : Body) (status : Status) (receipt : option Value) : FullContext :=
  mkFullContext body (mkState status None None) receipt.

Definition decode_body (text : string) : result Body AcdpError :=
  map_err (λ e, RegistryInternal ("decode body: " +:+ e)) (body_parse text).

Definition row_to_context (r : CtxRow) : result FullContext AcdpError :=
  let? body := decode_body (c_body_json r) in
  let? receipt :=
    match c_registry_receipt r with
    | None => Ok None
    | Some t => let? v := map_err (λ e, RegistryInternal ("decode receipt: " +:+ e)) (value_parse t) in
                Ok (Some v)
    end in
  let status := if negb (c_retracted r =? 0)%Z then Retracted else parse_status (c_status r) in
  Ok (full_context body status receipt).

(** [event_from_row]: the columns, back through the event schema. *)
Definition event_from_row (r : EventRow) : result LifecycleEvent AcdpError :=
  let? signature :=
    match e_signature r with
    | None => Ok []
    | Some t => let? v := map_err (λ e, RegistryInternal ("decode event signature: " +:+ e))
                            (value_parse t) in
                Ok [("signature", v)]
    end in
  event_from_value (VObject
    ([("event_id", VString (e_event_id r)); ("ctx_id", VString (e_ctx_id r));
      ("event_type", VString (e_event_type r)); ("occurred_at", VString (e_occurred_at r));
      ("actor", VString (e_actor r))]
     ++ (match e_reason r with Some s => [("reason", VString s)] | None => [] end)
     ++ signature)).

Definition slot_from_row (r : EventRow) (index : nat) : result Slot AcdpError :=
  let? event := event_from_row r in
  let value := (λ t, match value_parse t with Ok v => v | Err _ => VNull end) <$> e_receipt r in
  Ok (event, decode_receipt value event (Z.of_nat index)).

Fixpoint slots_from_rows (i : nat) (rows : list EventRow) : result (list Slot) AcdpError :=
  match rows with
  | [] => Ok []
  | r :: rows =>
      let? s := slot_from_row r i in
      let? l := slots_from_rows (S i) rows in
      Ok (s :: l)
  end.

(** The row a lifecycle commit inserts. *)
Definition event_row (event : LifecycleEvent) (signature : option string) (tenant_id : string)
    (receipt : option string) : EventRow :=
  mkEventRow (event_ctx_id event) (event_id event) (event_type_text event)
    (event_occurred_text event) (event_actor event) (event_reason event) signature tenant_id receipt.

Definition split_slots (slots : list Slot) : list LifecycleEvent * list (option EventReceipt) :=
  (map fst slots, map (λ s : Slot, into_option s.2) slots).

Definition attach_events (ctx : FullContext) (events : list LifecycleEvent)
    (receipts : list (option EventReceipt)) (minting : bool) : FullContext :=
  attach_event_receipts receipts minting
    (mkFullContext (fc_body ctx)
       (mkState (st_status (fc_state ctx)) (if is_empty events then None else Some events)
          (st_event_receipts (fc_state ctx)))
       (fc_registry_receipt ctx)).

Definition set_fc_status (s : Status) (ctx : FullContext) : FullContext :=
  mkFullContext (fc_body ctx)
    (mkState s (st_lifecycle_events (fc_state ctx)) (st_event_receipts (fc_state ctx)))
    (fc_registry_receipt ctx).

Definition project_context (ctx : FullContext) (now : Z) : FullContext :=
  set_fc_status (project_status_inline (st_status (fc_state ctx)) (body_expires_at (fc_body ctx)) now)
    ctx.

(** [index_row] of [keyless.rs]. *)
Definition index_row (r : AttRow) : result KeyAttestationIndexRow AcdpError :=
  let? identity := identity_from_columns (k_identity_type r) (k_issuer r) (k_subject r) in
  Ok (mkIndexRow (k_ctx_id r) (k_controller r) identity (negb (k_org_wide r =? 0)%Z) (k_key_id r)
        (k_algorithm r) (k_key_fingerprint r) (k_not_before_ms r) (k_not_after_ms r)
        (k_token_hash r) (k_created_at_ms r)).

(** The columns [INSERT INTO key_attestations] binds. *)
Definition att_row (r : KeyAttestationIndexRow) : AttRow :=
  mkAttRow (ir_ctx_id r) (ir_controller r) (identity_type r) (issuer r) (subject r)
    (if ir_org_wide r then 1 else 0)%Z (ir_key_id r) (ir_algorithm r) (ir_key_fingerprint r)
    (ir_not_before_ms r) (ir_not_after_ms r) (ir_token_hash r) (ir_created_at_ms r).

Definition STx : Type → Type := Tx SqliteDb.

(** ** Writing a context *)

(** The columns [insert_body] binds. *)
Definition new_row (body : Body) (status : Status) (tenant : option string)
    (receipt : option Value) (body_json contributors tags : string) : CtxRow :=
  mkCtxRow (body_ctx_id body) (body_lineage_id body) (body_agent_id body) contributors
    (body_origin_registry body) (rfc3339 (body_created_at body)) (status_str status)
    (visibility_str (body_visibility body)) (context_type_str (body_context_type body))
    (body_version body) (body_supersedes body) (search_columns body tags) (rfc3339 <$> body_expires_at body)
    (body_content_hash body) body_json (default "default" tenant) (value_text <$> receipt) 0.

(** [insert_body]: the primary key refuses a second row of one id. *)
Definition insert_body (body : Body) (status : Status) (tenant : option string)
    (receipt : option Value) : STx unit :=
  let* body_json := tx_lift (map_err (λ e, RegistryInternal ("encode body: " +:+ e)) (body_text body)) in
  let* contributors :=
    tx_lift (map_err (λ e, RegistryInternal ("encode contribs: " +:+ e))
               (strings_text (body_contributors body))) in
  let* tags :=
    tx_lift (map_err (λ e, RegistryInternal ("encode tags: " +:+ e))
               (strings_text (default [] (body_tags body)))) in
  let row := new_row body status tenant receipt body_json contributors tags in
  stmt map_sqlx_err (λ db,
    match select_ctx (body_ctx_id body) db with
    | Some _ => Err "UNIQUE constraint failed: contexts.ctx_id"
    | None => Ok (tt, with_contexts (λ l, l ++ [row]) db)
    end).

(** [put]. *)
Definition put (env : TxEnv) (body : Body) (db : SqliteDb) : result unit AcdpError * SqliteDb :=
  transaction env (λ m, RegistryInternal ("tx commit: " +:+ m))
    (let* _ := insert_body body Active None None in tx_ret (Commit tt)) db.

(** [successor] of [keyless.rs]: the index row joined to its context. *)
Definition successor (ctx_id : string) : STx (option SuccessorAttestation) :=
  let* row := query (attestations_err "read") (λ db,
    match List.find (λ k, bool_decide (k_ctx_id k = ctx_id)) (key_attestations db),
          select_ctx ctx_id db with
    | Some k, Some c => Some (k, c_retracted c)
    | _, _ => None
    end) in
  match row with
  | None => tx_ret None
  | Some (k, retracted) =>
      let* r := tx_lift (index_row k) in
      tx_ret (Some (mkSuccessor r (negb (retracted =? 0)%Z)))
  end.

Definition supersession_gate (req : PublishRequest) (predecessor : CtxRow) : STx unit :=
  match keyless_successor req with
  | None => tx_ret tt
  | Some att_ctx =>
      let* found := successor att_ctx in
      let* succ := tx_lift (admit_successor req att_ctx found) in
      let* body := tx_lift (decode_body (c_body_json predecessor)) in
      let* att := tx_lift (predecessor_attestation body) in
      let* row :=
        match att with
        | Some c => let* s := successor c in tx_ret (sa_row <$> s)
        | None => tx_ret None
        end in
      let* signer := tx_lift (predecessor_signer att row) in
      tx_lift (check_supersession signer succ)
  end.

Definition window_gate (req : PublishRequest) (created_at : Z) : STx unit :=
  match keyless_successor req with
  | None => tx_ret tt
  | Some att_ctx =>
      let* found := successor att_ctx in
      let* succ := tx_lift (admit_successor req att_ctx found) in
      tx_lift (check_window succ created_at)
  end.

(** The insert of [index_attestation]: [ON CONFLICT (token_hash) DO NOTHING], the
    primary key, and the table's checks. The count is [rows_affected]. *)
Definition insert_attestation (r : AttRow) (db : SqliteDb) : result (nat * SqliteDb) string :=
  if existsb (λ k, bool_decide (k_token_hash k = k_token_hash r)) (key_attestations db)
  then Ok (0, db)
  else if existsb (λ k, bool_decide (k_ctx_id k = k_ctx_id r)) (key_attestations db)
  then Err "UNIQUE constraint failed: key_attestations.ctx_id"
  else if negb (k_not_before_ms r <? k_not_after_ms r)%Z
  then Err "CHECK constraint failed: not_before_ms < not_after_ms"
  else Ok (1, with_attestations (λ l, l ++ [r]) db).

Definition index_attestation (body : Body) (authority : string) : STx unit :=
  let* row := tx_lift (index_row_for body authority) in
  match row with
  | None => tx_ret tt
  | Some row =>
      let* inserted := stmt (attestations_err "insert") (insert_attestation (att_row row)) in
      if (inserted =? 0)%nat then tx_lift (Err (token_replayed (ir_token_hash row))) else tx_ret tt
  end.

(** [build_leaf_record] of [acdp-registry-store/src/log.rs]. *)
Definition build_leaf_record (body : Body) (receipt : Value) : result (string * string) AcdpError :=
  let? key_fingerprint :=
    match value_get receipt "key_fingerprint" with
    | Some (VString s) => Ok s
    | _ => Err (RegistryInternal "minted receipt carries no key_fingerprint")
    end in
  let? receipt_hash := receipt_preimage_hash receipt in
  let leaf := mkLogLeaf (body_ctx_id body) (body_lineage_id body) (body_origin_registry body)
                (body_created_at body) (body_content_hash body) key_fingerprint receipt_hash in
  let? bytes := leaf_canonical_bytes leaf in
  let hash := merkle_leaf_hash bytes in
  let? leaf_json := map_err (λ e, RegistryInternal ("JCS leaf bytes are not UTF-8: " +:+ e))
                      (bytes_to_string bytes) in
  Ok (leaf_json, hash).

(** [INSERT INTO log_leaves] at position [COUNT]. *)
Definition insert_leaf (ctx_id leaf_json leaf_hash : string) (db : SqliteDb) :
    result (unit * SqliteDb) string :=
  let leaf_index := Z.of_nat (length (log_leaves db)) in
  if existsb (λ l, (l_index l =? leaf_index)%Z) (log_leaves db)
  then Err "UNIQUE constraint failed: log_leaves.leaf_index"
  else if existsb (λ l, bool_decide (l_ctx_id l = ctx_id)) (log_leaves db)
  then Err "UNIQUE constraint failed: log_leaves.ctx_id"
  else Ok (tt, with_leaves (λ l, l ++ [mkLeafRow leaf_index ctx_id leaf_json leaf_hash]) db).

(** [insert] of [changes.rs], for each row in turn. *)
Fixpoint insert_changes (now_ms : Z) (l : list FeedAppend) : STx unit :=
  match l with
  | [] => tx_ret tt
  | a :: l =>
      let* _ := execute (feed_err "append")
                  (with_changes (λ c, changes_insert value_text c 0 now_ms a)) in
      insert_changes now_ms l
  end.

Definition append_publish (body : Body) (receipt : option Value) (supersedes : option string)
    (now_ms : Z) : STx unit :=
  match receipt with
  | None => tx_ret tt
  | Some _ =>
      let* predecessor :=
        match supersedes with
        | Some prev =>
            let* agent := stmt (feed_err "predecessor") (λ db,
              match select_ctx prev db with
              | Some r => Ok (c_agent_id r, db)
              | None => Err "no rows returned by a query that expected to return at least one row"
              end) in
            tx_ret (Some (mkPredecessor prev agent))
        | None => tx_ret None
        end in
      let* rows := tx_lift (feed_appends_for_publish body receipt predecessor) in
      insert_changes now_ms rows
  end.

Definition append_lifecycle (event : LifecycleEvent) (body : Body) (receipt : option EventReceipt)
    (now_ms : Z) : STx unit :=
  let* receipt := tx_lift match receipt with
                          | Some r => let? v := receipt_value r in Ok (Some v)
                          | None => Ok None
                          end in
  let* row := tx_lift (lifecycle_append event body receipt) in
  match row with
  | Some a => insert_changes now_ms [a]
  | None => tx_ret tt
  end.

(** ** Publishing *)

Definition not_found (prev : string) : AcdpError :=
  SupersededTarget SR_NotFound ("supersedes target '" +:+ prev +:+ "' not found in this registry").

Definition duplicate_publish (key agent_id : string) : AcdpError :=
  DuplicatePublish ("Idempotency-Key '" +:+ key +:+ "' was previously used by '" +:+ agent_id +:+
                    "' with a different content_hash").

(** Step 1: an expired record of the key goes, a live one ends the publish. *)
Definition idempotency_step (req : PublishRequest) (key : string) (now : Z) :
    STx (option PublishResponse) :=
  let k := (req_agent_id req, key) in
  let* _ := execute map_sqlx_err (with_idempotency (λ m,
    match m !! k with
    | Some r => if (i_expires_at_ms r <=? timestamp_millis now)%Z then delete k m else m
    | None => m
    end)) in
  let* row := query map_sqlx_err (λ db, idempotency_records db !! k) in
  match row with
  | None => tx_ret None
  | Some row =>
      let* expires_at := tx_lift (ok_or (from_timestamp_millis (i_expires_at_ms row))
        (RegistryInternal ("expires_at_ms out of range: " +:+ pretty (i_expires_at_ms row)))) in
      if (now <? expires_at)%Z then
        if bool_decide (i_content_hash row = req_content_hash req) then
          let* response := tx_lift (map_err (λ e, RegistryInternal ("decode response: " +:+ e))
                             (response_parse (i_response_json row))) in
          tx_ret (Some response)
        else tx_lift (Err (duplicate_publish key (req_agent_id req)))
      else tx_ret None
  end.

(** Step 2: the predecessor must exist, be the caller's in the caller's tenant, and
    be the one the request continues; the answer is the lineage's first context. *)
Definition supersession_step (commit : PublishCommit) (prev : string) : STx (option string) :=
  let req := pc_req commit in
  let* row := query map_sqlx_err (select_ctx prev) in
  match row with
  | None => tx_lift (Err (not_found prev))
  | Some row =>
      let* contributors :=
        tx_lift (map_err (λ e, RegistryInternal
                   ("decode contributors for predecessor '" +:+ prev +:+ "': " +:+ e))
                   (strings_parse (c_contributors row))) in
      if (match pc_tenant commit with
          | Some t => negb (bool_decide (c_tenant_id row = t))
          | None => false
          end)
      then tx_lift (Err (not_found prev))
      else if negb (bool_decide (c_agent_id row = req_agent_id req)
                    || bool_decide (req_agent_id req ∈ contributors))
      then tx_lift (Err (not_found prev))
      else if (match req_lineage_id req with
               | Some declared => negb (bool_decide (declared = c_lineage_id row))
               | None => false
               end)
      then tx_lift (Err (SupersededTarget SR_LineageMismatch
                           ("declared lineage_id '" +:+ default EmptyString (req_lineage_id req) +:+
                            "' ≠ predecessor's '" +:+ c_lineage_id row +:+ "'")))
      else if negb (req_version req =? c_version row + 1)%Z
      then tx_lift (Err (SupersededTarget SR_VersionMismatch
                           ("version " +:+ pretty (req_version req) +:+
                            " ≠ predecessor.version + 1 (" +:+ pretty (c_version row + 1)%Z +:+ ")")))
      else if bool_decide (c_status row = "superseded")
      then tx_lift (Err (SupersededTarget SR_AlreadySuperseded
                           ("supersedes target '" +:+ prev +:+ "' has already been superseded")))
      else
        let* _ := supersession_gate req row in
        let* _ := match pc_predecessor_admission commit with
                  | Some admission =>
                      let* body := tx_lift (decode_body (c_body_json row)) in
                      tx_lift (admission body)
                  | None => tx_ret tt
                  end in
        query map_sqlx_err (λ db, c_ctx_id <$> hd_error (select_lineage (c_lineage_id row) db))
  end.

(** Step 5.5: the leaf of the transparency log. *)
Definition log_step (st : SqliteStore) (body : Body) (receipt : option Value) : STx unit :=
  if log_enabled st then
    match receipt with
    | None => tx_lift (Err (RegistryInternal
        ("transparency log is enabled but no receipt was minted for this publish — the log " +:+
         "profile's prerequisite is the receipts profile (RFC-ACDP-0012 §11) and there is no " +:+
         "degraded mode (§7.1); aborting the publish")))
    | Some receipt =>
        let* '(leaf_json, leaf_hash) := tx_lift (build_leaf_record body receipt) in
        stmt map_sqlx_err (insert_leaf (body_ctx_id body) leaf_json leaf_hash)
    end
  else tx_ret tt.

(** The read back of a key another publish has claimed, after the rollback. *)
Definition claimed_response (req : PublishRequest) (key : string) (db : SqliteDb) :
    result PublishCommitOutcome AcdpError :=
  match idempotency_records db !! (req_agent_id req, key) with
  | None => Err (RegistryInternal
      "idempotency key claimed by a concurrent publish but its record could not be read back")
  | Some row =>
      if negb (bool_decide (i_content_hash row = req_content_hash req))
      then Err (duplicate_publish key (req_agent_id req))
      else
        let? winner := map_err (λ e, RegistryInternal ("decode response: " +:+ e))
                         (response_parse (i_response_json row)) in
        Ok (IdempotentReplay winner)
  end.

(** Step 7: [INSERT ... ON CONFLICT(agent_id, key) DO NOTHING]; the answer is
    whether the key was free. *)
Definition claim_step (req : PublishRequest) (key : string) (ttl now : Z)
    (response : PublishResponse) : STx bool :=
  let k := (req_agent_id req, key) in
  let* response_json := tx_lift (map_err (λ e, RegistryInternal ("encode response: " +:+ e))
                                   (response_text response)) in
  stmt map_sqlx_err (λ db,
    match idempotency_records db !! k with
    | Some _ => Ok (false, db)
    | None =>
        Ok (true, with_idempotency
                    (insert k (mkIdemRow (req_content_hash req) response_json
                                 (timestamp_millis (now + ttl)))) db)
    end).

(** The identifiers, the body and the receipt of a publish: steps 3 and 4. *)
Definition build_step (commit : PublishCommit) (first_v1 : option string) (now draw : Z) :
    STx (Body * option Value) :=
  let req := pc_req commit in
  let* '(ctx_id, lineage_id) :=
    tx_lift (assign_identifiers (pc_authority commit) (req_supersedes req) first_v1 draw) in
  let created_at := trunc_ms now in
  let body := from_publish_request req ctx_id lineage_id (pc_authority commit) created_at in
  let* _ := window_gate req created_at in
  let* receipt :=
    tx_lift match pc_receipt_minter commit with
            | Some mint => let? v := mint body in Ok (Some v)
            | None => Ok None
            end in
  tx_ret (body, receipt).

Definition publish_response (req : PublishRequest) (body : Body) (now : Z)
    (receipt : option Value) : PublishResponse :=
  mkResponse (body_ctx_id body) (body_lineage_id body) (req_version req) (trunc_ms now) Active
    receipt.

(** Steps 3 to 7 and the feed: everything a publish writes. [now] is the clock at
    entry, [commit_ms] the clock under the write lock, [draw] the random bits of the
    new id. *)
Definition write_step (st : SqliteStore) (commit : PublishCommit) (first_v1 : option string)
    (now commit_ms draw : Z) : STx (TxEnd SqliteDb PublishCommitOutcome) :=
  let req := pc_req commit in
  let* '(body, receipt) := build_step commit first_v1 now draw in
  let* _ := insert_body body Active (pc_tenant commit) receipt in
  let* _ := index_attestation body (pc_authority commit) in
  let* _ := log_step st body receipt in
  let* _ :=
    match req_supersedes req with
    | Some prev => execute map_sqlx_err (update_ctx prev (set_status "superseded"))
    | None => tx_ret tt
    end in
  let response := publish_response req body now receipt in
  let* claimed :=
    match pc_idempotency commit with
    | Some (key, ttl) => claim_step req key ttl now response
    | None => tx_ret true
    end in
  if negb claimed then
    tx_ret (RollbackRead match pc_idempotency commit with
                         | Some (key, _) => claimed_response req key
                         | None => λ _, Ok (Inserted response)
                         end)
  else
    let* _ := append_publish body receipt (req_supersedes req) commit_ms in
    tx_ret (Commit (Inserted response)).

(** [commit_publish]. *)
Definition publish_body (st : SqliteStore) (commit : PublishCommit) (now commit_ms draw : Z) :
    STx (TxEnd SqliteDb PublishCommitOutcome) :=
  let req := pc_req commit in
  let* replay :=
    match pc_idempotency commit with
    | Some (key, _) => idempotency_step req key now
    | None => tx_ret None
    end in
  match replay with
  | Some response => tx_ret (Rollback (IdempotentReplay response))
  | None =>
      let* first_v1 :=
        match req_supersedes req with
        | Some prev => supersession_step commit prev
        | None => tx_ret None
        end in
      write_step st commit first_v1 now commit_ms draw
  end.

Definition commit_err (m : string) : AcdpError := RegistryInternal ("tx commit: " +:+ m).

Definition commit_publish (st : SqliteStore) (env : TxEnv) (commit : PublishCommit)
    (now commit_ms draw : Z) (db : SqliteDb) : result PublishCommitOutcome AcdpError * SqliteDb :=
  transaction env commit_err (publish_body st commit now commit_ms draw) db.

(** ** Lifecycle events *)

(** [UPDATE lifecycle_events SET receipt = ? WHERE ctx_id = ? AND event_id = ? AND
    receipt IS NULL], with [rows_affected]. *)
Definition fill_matches (ctx_id id : string) (r : EventRow) : bool :=
  bool_decide (e_ctx_id r = ctx_id) && bool_decide (e_event_id r = id)
  && negb (bool_decide (is_Some (e_receipt r))).

Definition update_receipt (ctx_id id text : string) (db : SqliteDb) : nat * SqliteDb :=
  (length (List.filter (fill_matches ctx_id id) (lifecycle_events db)),
   with_events (map (λ r, if fill_matches ctx_id id r then set_receipt text r else r)) db).

(** The loop over the planned fills; a fill that does not hit its one row aborts. *)
Fixpoint write_fills (what ctx_id : string) (slots : list Slot) (fills : list (nat * EventReceipt)) :
    STx unit :=
  match fills with
  | [] => tx_ret tt
  | (i, r) :: fills =>
      let* value := tx_lift (receipt_value r) in
      let* slot := tx_lift (ok_or (slots !! i) (RegistryInternal "index out of bounds")) in
      let* done := stmt map_sqlx_err (λ db,
        Ok (update_receipt ctx_id (event_id slot.1) (value_text value) db)) in
      if negb (done =? 1)%nat
      then tx_lift (Err (RegistryInternal (what +:+ " for '" +:+ event_id slot.1 +:+ "' matched " +:+
                                           pretty done +:+ " rows")))
      else write_fills what ctx_id slots fills
  end.

(** Step 4: strict alternation. *)
Definition transition_step (event : LifecycleEvent) (currently_retracted : bool) :
    result unit AcdpError :=
  match event_type event with
  | RetractedEvent =>
      if currently_retracted
      then Err (InvalidLifecycleTransition ("context '" +:+ event_ctx_id event +:+
        "' is already retracted — double retract violates the strict alternation rule (RFC-ACDP-0013 §6 step 4)"))
      else Ok tt
  | RepublishedEvent =>
      if currently_retracted then Ok tt
      else Err (InvalidLifecycleTransition ("context '" +:+ event_ctx_id event +:+
        "' is not retracted — republish requires a prior retraction (RFC-ACDP-0013 §6 step 4)"))
  | OtherEvent t => Err (SchemaViolation ("event_type '" +:+ t +:+
        "' is not registered for acceptance in 0.3.0 — only 'retracted' and 'republished' transition state " +:+
        "(RFC-ACDP-0013 §7.3)"))
  end.

(** Step 3, when the id was used for another event. *)
Definition event_id_taken (event : LifecycleEvent) : AcdpError :=
  SchemaViolation ("event_id '" +:+ event_id event +:+ "' was already appended with different content " +:+
                   "(RFC-ACDP-0013 §4: event_id MUST be unique within lifecycle_events)").

Inductive LifecycleCommitOutcome : Type :=
  | LcApplied (ctx : FullContext)
  | LcReplay (ctx : FullContext).

(** The insert of an event: [UNIQUE (ctx_id, event_id)] and the foreign key. *)
Definition insert_event (r : EventRow) (db : SqliteDb) : result (unit * SqliteDb) string :=
  if existsb (λ x, bool_decide (e_ctx_id x = e_ctx_id r) && bool_decide (e_event_id x = e_event_id r))
       (lifecycle_events db)
  then Err "UNIQUE constraint failed: lifecycle_events.ctx_id, lifecycle_events.event_id"
  else match select_ctx (e_ctx_id r) db with
       | None => Err "FOREIGN KEY constraint failed"
       | Some _ => Ok (tt, with_events (λ l, l ++ [r]) db)
       end.

Definition is_retraction (event : LifecycleEvent) : bool :=
  match event_type event with RetractedEvent => true | _ => false end.

(** Step 5: the receipts, the event, the flag and the feed row. The answer is the
    plan, when receipts are minted. *)
Definition append_event_step (st : SqliteStore) (event : LifecycleEvent) (row : CtxRow)
    (ctx : FullContext) (slots : list Slot) (now : Z) : STx (option ReceiptPlan) :=
  let* plan :=
    tx_lift match event_receipt_minter st with
            | Some m =>
                let? p := plan_event_receipts m (event_ctx_id event) (body_created_at (fc_body ctx))
                            slots event now in
                Ok (Some p)
            | None => Ok None
            end in
  let* _ := match plan with
            | Some p => write_fills "event receipt fill" (event_ctx_id event) slots (plan_fills p)
            | None => tx_ret tt
            end in
  let* receipt_json :=
    tx_lift match plan with
            | Some p => let? v := receipt_value (plan_new p) in Ok (Some (value_text v))
            | None => Ok None
            end in
  let* signature_json :=
    tx_lift (map_err (λ e, RegistryInternal ("encode signature: " +:+ e))
               (event_signature_text event)) in
  let* _ := stmt map_sqlx_err
              (insert_event (event_row event signature_json (c_tenant_id row) receipt_json)) in
  let* _ := execute map_sqlx_err
              (update_ctx (event_ctx_id event)
                 (set_retracted (if is_retraction event then 1 else 0)%Z)) in
  let* _ := append_lifecycle event (fc_body ctx) (plan_new <$> plan) (timestamp_millis now) in
  tx_ret plan.

(** [commit_lifecycle_event]; [now] is the clock under the write lock. *)
Definition lifecycle_body (st : SqliteStore) (event : LifecycleEvent) (now : Z) :
    STx (TxEnd SqliteDb LifecycleCommitOutcome) :=
  let* row := query map_sqlx_err (select_ctx (event_ctx_id event)) in
  match row with
  | None => tx_lift (Err (NotFound ("context '" +:+ event_ctx_id event +:+
                                    "' not found in this registry")))
  | Some row =>
      let* ctx := tx_lift (row_to_context row) in
      let* rows := query map_sqlx_err (select_events (event_ctx_id event)) in
      let* slots := tx_lift (slots_from_rows 0 rows) in
      match List.find (λ s : Slot, bool_decide (event_id s.1 = event_id event)) slots with
      | Some (prior, _) =>
          if bool_decide (prior = event) then
            let '(events, receipts) := split_slots slots in
            tx_ret (Rollback (LcReplay
              (project_context (attach_events ctx events receipts (minting st)) now)))
          else
            tx_lift (Err (event_id_taken event))
      | None =>
          let* _ := tx_lift (transition_step event (retraction_state (map fst slots))) in
          let* plan := append_event_step st event row ctx slots now in
          let slots :=
            match plan with
            | Some plan => appended slots event plan
            | None => slots ++ [(event, RNull)]
            end in
          let '(events, receipts) := split_slots slots in
          let ctx := attach_events ctx events receipts (minting st) in
          let status :=
            if is_retraction event then Retracted
            else project_status_inline (parse_status (c_status row))
                   (body_expires_at (fc_body ctx)) now in
          tx_ret (Commit (LcApplied (set_fc_status status ctx)))
      end
  end.

Definition commit_lifecycle_event (st : SqliteStore) (env : TxEnv) (event : LifecycleEvent)
    (now : Z) (db : SqliteDb) : result LifecycleCommitOutcome AcdpError * SqliteDb :=
  transaction env commit_err (lifecycle_body st event now) db.

(** ** The receipt sweep *)

(** [end_sweep_tx]. *)
Definition end_sweep_tx (rollback : option string) (report : SweepReport) :
    TxEnd SqliteDb SweepReport :=
  RollbackRead (λ _, match rollback with
                     | None => Ok report
                     | Some m => Err (RegistryInternal ("tx rollback: " +:+ m))
                     end).

(** [backfill_ctx]. *)
Definition backfill_body (rollback : option string) (mint : Minter) (ctx_id : string)
    (report : SweepReport) (now : Z) : STx (TxEnd SqliteDb SweepReport) :=
  let* row := query map_sqlx_err (select_ctx ctx_id) in
  match row with
  | None => tx_ret (end_sweep_tx rollback (record_skipped report))
  | Some row =>
      let* rows := query map_sqlx_err (select_events ctx_id) in
      match (let? ctx := row_to_context row in
             let? slots := slots_from_rows 0 rows in
             Ok (ctx, slots)) with
      | Err _ => tx_ret (end_sweep_tx rollback (record_skipped report))
      | Ok (ctx, slots) =>
          let* plan := tx_lift (plan_backfill mint (body_ctx_id (fc_body ctx))
                                  (body_created_at (fc_body ctx)) slots now) in
          match plan with
          | BComplete => tx_ret (end_sweep_tx rollback report)
          | BHole => tx_ret (end_sweep_tx rollback (record_skipped report))
          | BFill fills =>
              let* _ := write_fills "event receipt sweep fill" ctx_id slots fills in
              tx_ret (Commit (record_filled (length fills) report))
          end
      end
  end.

Definition backfill_ctx (env : TxEnv) (mint : Minter) (ctx_id : string) (report : SweepReport)
    (now : Z) (db : SqliteDb) : result SweepReport AcdpError * SqliteDb :=
  transaction env commit_err (backfill_body (tx_rollback env) mint ctx_id report now) db.

(** ** Reads *)

(** [get]: the row and the events are two reads, of [db] and of the tables [db']
    the events query finds. *)
Definition get (st : SqliteStore) (ctx_id : string) (now : Z) (db db' : SqliteDb) :
    result (option FullContext) AcdpError :=
  match select_ctx ctx_id db with
  | None => Ok None
  | Some row =>
      let? ctx := row_to_context row in
      let? slots := slots_from_rows 0 (select_events ctx_id db') in
      let '(events, receipts) := split_slots slots in
      let ctx := set_fc_status (reconcile_retraction (st_status (fc_state ctx)) events) ctx in
      Ok (Some (project_context (attach_events ctx events receipts (minting st)) now))
  end.

(** [events_for_lineage]: the events of the lineage's contexts, decoded in the
    order of [seq] with a position counted per context. *)
Fixpoint group_slots (rows : list EventRow) (grouped : gmap string (list Slot)) :
    result (gmap string (list Slot)) AcdpError :=
  match rows with
  | [] => Ok grouped
  | r :: rows =>
      let group := default [] (grouped !! e_ctx_id r) in
      let? slot := slot_from_row r (length group) in
      group_slots rows (<[e_ctx_id r := group ++ [slot]]> grouped)
  end.

Definition events_for_lineage (lineage_id : string) (db : SqliteDb) :
    result (gmap string (list Slot)) AcdpError :=
  group_slots
    (List.filter (λ e, existsb (λ c, bool_decide (c_ctx_id c = e_ctx_id e)
                                     && bool_decide (c_lineage_id c = lineage_id)) (contexts db))
       (lifecycle_events db)) ∅.

(** The rows of a lineage with their events. *)
Fixpoint lineage_contexts (st : SqliteStore) (now : Z) (rows : list CtxRow)
    (events_by_ctx : gmap string (list Slot)) : result (list FullContext) AcdpError :=
  match rows with
  | [] => Ok []
  | r :: rows =>
      let? ctx := row_to_context r in
      let id := body_ctx_id (fc_body ctx) in
      let ctx :=
        match events_by_ctx !! id with
        | Some slots =>
            let '(events, receipts) := split_slots slots in
            attach_events
              (set_fc_status (reconcile_retraction (st_status (fc_state ctx)) events) ctx)
              events receipts (minting st)
        | None => ctx
        end in
      let? rest := lineage_contexts st now rows (delete id events_by_ctx) in
      Ok (project_context ctx now :: rest)
  end.

Definition lineage (st : SqliteStore) (lineage_id : string) (now : Z) (db db' : SqliteDb) :
    result (list FullContext) AcdpError :=
  let? events_by_ctx := events_for_lineage lineage_id db' in
  lineage_contexts st now (select_lineage lineage_id db) events_by_ctx.

Definition serves_as_head (ctx : FullContext) : bool :=
  negb (bool_decide (st_status (fc_state ctx) = SupersededStatus)
        || bool_decide (st_status (fc_state ctx) = Retracted)).

Definition current (st : SqliteStore) (lineage_id : string) (now : Z) (db db' : SqliteDb) :
    result (option FullContext) AcdpError :=
  let? all := lineage st lineage_id now db db' in
  Ok (List.find serves_as_head (rev all)).

Definition first_version_ctx_id (lineage_id : string) (db : SqliteDb) : option string :=
  c_ctx_id <$> hd_error (select_lineage lineage_id db).

(** ** Idempotency records *)

Record IdempotencyRecord : Type := mkIdempotencyRecord {
  idem_content_hash : string;
  idem_response : PublishResponse;
  idem_expires_at : Z
}.

Definition idempotency_lookup (agent_id key : string) (db : SqliteDb) :
    result (option IdempotencyRecord) AcdpError :=
  match idempotency_records db !! (agent_id, key) with
  | None => Ok None
  | Some row =>
      let? response := map_err (λ e, RegistryInternal ("decode response: " +:+ e))
                         (response_parse (i_response_json row)) in
      let? expires_at := ok_or (from_timestamp_millis (i_expires_at_ms row))
                           (RegistryInternal ("expires_at_ms out of range: " +:+ pretty (i_expires_at_ms row))) in
      Ok (Some (mkIdempotencyRecord (i_content_hash row) response expires_at))
  end.

(** The upsert of [idempotency_record]. *)
Definition idempotency_record (agent_id key hash : string) (response : PublishResponse)
    (expires_at : Z) (db : SqliteDb) : result unit AcdpError * SqliteDb :=
  match map_err (λ e, RegistryInternal ("encode response: " +:+ e)) (response_text response) with
  | Err e => (Err e, db)
  | Ok text =>
      (Ok tt, with_idempotency
                (insert (agent_id, key) (mkIdemRow hash text (timestamp_millis expires_at))) db)
  end.

(** [idempotency_evict_inner]. *)
Definition idempotency_evict (now : Z) (db : SqliteDb) : SqliteDb :=
  with_idempotency (filter (λ kv, ¬ (i_expires_at_ms kv.2 ≤ timestamp_millis now)%Z)) db.

(** ** Tenants *)

Definition tenant_of_ctx (ctx_id : string) (db : SqliteDb) : option string :=
  c_tenant_id <$> select_ctx ctx_id db.

Definition set_tenant_of_ctx (ctx_id tenant_id : string) (db : SqliteDb) : SqliteDb :=
  if bool_decide (tenant_id = "default") then db else update_ctx ctx_id (set_tenant tenant_id) db.

(** [mark_superseded]. *)
Definition mark_superseded (ctx_id : string) (db : SqliteDb) : SqliteDb :=
  update_ctx ctx_id (set_status "superseded") db.

Definition has_lifecycle_state (db : SqliteDb) : bool :=
  negb (is_empty (lifecycle_events db)) || existsb (λ r, negb (c_retracted r =? 0)%Z) (contexts db).
End store.
