(* ===== verification/SqlitePublish.v ===== *)
(** * What a publish writes

    The analysis of [commit_publish] of the SQLite store: its checks only read, a
    committed publish has passed all of them, and its writes are one composition of
    table updates. Everything the store theorems need of the transaction is here. *)

From S2P Require Import Prelude Text Errors ContextTypes ChangeBucket ChangeFeed FeedBackends.
From S2P Require Import EventReceipts KeyAttestations SqlTx SqliteStore.

Open Scope registry_scope.

(** What [serde_json], chrono and the [acdp] crate document of the columns: what is
    written is read back, and a time read from milliseconds is that time. The bodies,
    responses and events meant are those whose instants have no more precision than the
    text they are written with; for a finer instant the first, fourth and last law ask
    more than a text of milliseconds can give. *)
Class StoreCodecLaws `{StoreCodec} : Prop := {
  body_inverse b t : body_text b = Ok t → body_parse t = Ok b;
  strings_inverse l t : strings_text l = Ok t → strings_parse t = Ok l;
  value_inverse v : value_parse (value_text v) = Ok v;
  response_inverse r t : response_text r = Ok t → response_parse t = Ok r;
  millis_inverse ms t : from_timestamp_millis ms = Some t → t = (ms * ns_per_ms)%Z;
  event_row_inverse e sig tenant rc :
    event_signature_text e = Ok sig → event_from_row (event_row e sig tenant rc) = Ok e
}.

Section publish.
Context `{StoreCodec} `{PublishSdk} `{KeylessSdk}.

(** ** Checks that only read *)

Lemma successor_reads ctx fs db a fs' db' :
  successor ctx fs db = Ok (a, fs', db') → db' = db.
Proof.
  unfold successor. intros Hs. inv_tx.
  match type of Hs with context [match ?x with Some _ => _ | None => _ end] => destruct x as [[k rt]|] end;
    inv_tx; by simplify_eq.
Qed.

Lemma supersession_gate_reads req row fs db a fs' db' :
  supersession_gate req row fs db = Ok (a, fs', db') → db' = db.
Proof.
  unfold supersession_gate. intros Hs. destruct (keyless_successor req) as [att|]; inv_tx; [|done].
  apply successor_reads in Ht as ->.
  match goal with Hx : (match ?x with Some _ => _ | None => _ end) _ _ = Ok _ |- _ => destruct x end;
    inv_tx; try done.
  match goal with Hx : successor _ _ _ = Ok _ |- _ => by apply successor_reads in Hx end.
Qed.

Lemma window_gate_ok req created fs db a fs' db' :
  window_gate req created fs db = Ok (a, fs', db') →
  db' = db ∧
  ∀ att, keyless_successor req = Some att →
    ∃ s fs1, successor att fs db = Ok (Some s, fs1, db) ∧
      admit_successor req att (Some s) = Ok s ∧ window_contains (sa_row s) created = true.
Proof.
  unfold window_gate. intros Hs. destruct (keyless_successor req) as [att|]; inv_tx; [|done].
  pose proof (successor_reads _ _ _ _ _ _ Ht) as ->. split; [done|]. intros ? [= <-].
  rename select (admit_successor _ _ _ = _) into Ha.
  pose proof (admit_successor_ok _ _ _ _ Ha) as (-> & _).
  eexists _, _. split; [exact Ht|]. split; [done|].
  rename select (check_window _ _ = _) into Hw. unfold check_window in Hw. by case_ifs.
Qed.

(** ** The idempotency key *)

(** The records without the expired one of the key. *)
Definition evict_key (req : PublishRequest) (key : string) (now : Z) (db : SqliteDb) : SqliteDb :=
  with_idempotency (λ m,
    match m !! (req_agent_id req, key) with
    | Some r => if (i_expires_at_ms r <=? timestamp_millis now)%Z
                then delete (req_agent_id req, key) m else m
    | None => m
    end) db.

Lemma evict_key_live req key now db r :
  idempotency_records (evict_key req key now db) !! (req_agent_id req, key) = Some r →
  (timestamp_millis now < i_expires_at_ms r)%Z.
Proof.
  unfold evict_key. cbn [idempotency_records with_idempotency].
  destruct (idempotency_records db !! _) as [r'|] eqn:Hr; [|by rewrite Hr].
  case_if; [by rewrite lookup_delete_eq|]. rewrite Hr. intros [= <-]. lia.
Qed.

(** A record that is still there has not expired, so without an answer the key is
    free and the later claim cannot fail. *)
Lemma idempotency_step_none `{!StoreCodecLaws} req key now fs db fs' db' :
  idempotency_step req key now fs db = Ok (None, fs', db') →
  db' = evict_key req key now db ∧
  idempotency_records db' !! (req_agent_id req, key) = None.
Proof.
  unfold idempotency_step. intros Hs. inv_tx. cbv zeta in *. fold (evict_key req key now db) in *.
  destruct (idempotency_records (evict_key req key now db) !! _) as [r|] eqn:Hr;
    [|by inv_tx].
  inv_tx. apply evict_key_live in Hr.
  match goal with Hx : ok_or _ _ = Ok ?t |- _ =>
    destruct (from_timestamp_millis _) as [t'|] eqn:Ht'; [|done]; injection Hx as -> end.
  apply millis_inverse in Ht' as ->.
  destruct (now <? _)%Z eqn:Hn; bool_to_prop.
  - case_ifs; inv_tx; done.
  - exfalso. unfold timestamp_millis, ns_per_ms in *.
    pose proof (Z.mod_pos_bound now 1000000). pose proof (Z.div_mod now 1000000). nia.
Qed.

Lemma idempotency_step_replay req key now fs db resp fs' db' :
  idempotency_step req key now fs db = Ok (Some resp, fs', db') →
  ∃ row, idempotency_records db !! (req_agent_id req, key) = Some row ∧
    (timestamp_millis now < i_expires_at_ms row)%Z ∧
    i_content_hash row = req_content_hash req ∧ response_parse (i_response_json row) = Ok resp.
Proof.
  unfold idempotency_step. intros Hs. inv_tx. cbv zeta in *. fold (evict_key req key now db) in *.
  destruct (idempotency_records (evict_key req key now db) !! _) as [r|] eqn:Hr; [|by inv_tx].
  inv_tx. pose proof (evict_key_live _ _ _ _ _ Hr) as Hlive.
  case_ifs; [|by inv_tx..]. inv_tx. simplify_eq.
  exists r. split; [|split; [done|split; [done|]]].
  - unfold evict_key in Hr. cbn in Hr. destruct (idempotency_records db !! _) as [r'|] eqn:Hr';
      [|by rewrite Hr' in Hr]. revert Hr. case_if; [by rewrite lookup_delete_eq|]. by rewrite Hr'.
  - destruct (response_parse (i_response_json r)); simpl in *; congruence.
Qed.

(** ** The predecessor *)

Lemma supersession_step_ok commit prev fs db first fs' db' :
  supersession_step commit prev fs db = Ok (first, fs', db') →
  db' = db ∧
  ∃ row cs, select_ctx prev db = Some row ∧ strings_parse (c_contributors row) = Ok cs ∧
    (∀ t, pc_tenant commit = Some t → c_tenant_id row = t) ∧
    (c_agent_id row = req_agent_id (pc_req commit) ∨ req_agent_id (pc_req commit) ∈ cs) ∧
    (∀ l, req_lineage_id (pc_req commit) = Some l → l = c_lineage_id row) ∧
    req_version (pc_req commit) = (c_version row + 1)%Z ∧ c_status row ≠ "superseded" ∧
    first = c_ctx_id <$> hd_error (select_lineage (c_lineage_id row) db).
Proof.
  unfold supersession_step. intros Hs. inv_tx.
  destruct (select_ctx prev db) as [row|] eqn:Hrow; [|by inv_tx]. inv_tx.
  rename select (map_err _ _ = Ok _) into Hcs.
  destruct (strings_parse (c_contributors row)) as [cs|] eqn:Hc; [|done]. injection Hcs as <-.
  destruct (match pc_tenant commit with Some _ => _ | None => _ end) eqn:Htn; [by inv_tx|].
  destruct (negb _) eqn:Hown in Hs; [by inv_tx|].
  destruct (match req_lineage_id _ with Some _ => _ | None => _ end) eqn:Hl; [by inv_tx|].
  destruct (negb _) eqn:Hv in Hs; [by inv_tx|].
  destruct (bool_decide _) eqn:Hst in Hs; [by inv_tx|].
  inv_tx. rename select (supersession_gate _ _ _ _ = _) into Hg.
  apply supersession_gate_reads in Hg as ->.
  match goal with Hx : context [pc_predecessor_admission commit] |- _ => rename Hx into Had end.
  match type of Had with _ = Ok (_, _, ?d) => assert (d = db) as -> end.
  { destruct (pc_predecessor_admission commit); by inv_tx. }
  split; [done|]. exists row, cs. bool_to_prop.
  split; [done|]. split; [done|]. split; [|split; [|split; [|done]]].
  - intros t Ht0. rewrite Ht0 in Htn. by bool_to_prop.
  - rewrite !bool_decide_eq_true in Hown. done.
  - intros l Hl0. rewrite Hl0 in Hl. by bool_to_prop.
Qed.

(** ** The writes *)

Lemma insert_body_ok body status tenant receipt fs db u fs' db' :
  insert_body body status tenant receipt fs db = Ok (u, fs', db') →
  ∃ bj cj tj, body_text body = Ok bj ∧ strings_text (body_contributors body) = Ok cj ∧
    strings_text (default [] (body_tags body)) = Ok tj ∧
    select_ctx (body_ctx_id body) db = None ∧
    db' = with_contexts (λ l, l ++ [new_row body status tenant receipt bj cj tj]) db.
Proof.
  unfold insert_body. intros Hs. inv_tx. cbv zeta in Hs. inv_tx.
  destruct (body_text body) as [bj|] eqn:Hb; [|done].
  destruct (strings_text (body_contributors body)) as [cj|] eqn:Hc; [|done].
  destruct (strings_text (default [] (body_tags body))) as [tj|] eqn:Ht; [|done]. simpl in *. simplify_eq.
  destruct (select_ctx (body_ctx_id body) db) eqn:Hf; [done|]. simplify_eq. by eauto 10.
Qed.

Lemma build_step_ok commit first now draw fs db body receipt fs' db' :
  build_step commit first now draw fs db = Ok ((body, receipt), fs', db') →
  db' = db ∧
  (∃ ctx lin,
     assign_identifiers (pc_authority commit) (req_supersedes (pc_req commit)) first draw =
       Ok (ctx, lin) ∧
     body = from_publish_request (pc_req commit) ctx lin (pc_authority commit) (trunc_ms now)) ∧
  (∀ att, keyless_successor (pc_req commit) = Some att →
    ∃ s fs0 fs1, successor att fs0 db = Ok (Some s, fs1, db) ∧
      admit_successor (pc_req commit) att (Some s) = Ok s ∧
      window_contains (sa_row s) (trunc_ms now) = true) ∧
  match pc_receipt_minter commit with
  | Some mint => ∃ v, mint body = Ok v ∧ receipt = Some v
  | None => receipt = None
  end.
Proof.
  unfold build_step. intros Hs. inv_tx.
  match goal with a : (string * string)%type |- _ => destruct a as [ctx lin] end.
  cbv zeta in Hs. inv_tx.
  rename select (window_gate _ _ _ _ = _) into Hw. apply window_gate_ok in Hw as [-> Hw].
  split; [done|]. split; [by eauto|]. split.
  - intros att Hatt. destruct (Hw att Hatt) as (s & fs1 & Hs1 & Ha & Hwin). by eauto 10.
  - destruct (pc_receipt_minter commit) as [mint|]; [|by simplify_eq].
    match goal with Hx : and_then (mint ?b) _ = _ |- _ => destruct (mint b) as [v|] eqn:Hm; [|done] end.
    simpl in *. simplify_eq. by eauto.
Qed.

(** What a publish adds to each table. *)
Definition add_attestation (att : option KeyAttestationIndexRow) : SqliteDb → SqliteDb :=
  with_attestations (λ l, l ++ match att with Some r => [att_row r] | None => [] end).

Definition add_leaf (ctx_id : string) (leaf : option (string * string)) : SqliteDb → SqliteDb :=
  with_leaves (λ l, l ++ match leaf with
                         | Some (json, hash) => [mkLeafRow (Z.of_nat (length l)) ctx_id json hash]
                         | None => []
                         end).

Definition supersede (prev : option string) (l : list CtxRow) : list CtxRow :=
  match prev with
  | Some p => map (λ r, if bool_decide (c_ctx_id r = p) then set_status "superseded" r else r) l
  | None => l
  end.

Definition add_claim (agent : string) (claim : option (string * IdemRow)) : SqliteDb → SqliteDb :=
  with_idempotency (λ m, match claim with
                         | Some (key, r) => <[(agent, key) := r]> m
                         | None => m
                         end).

Definition add_changes (now_ms : Z) (rows : list FeedAppend) : SqliteDb → SqliteDb :=
  with_changes (λ c, sqlite_feed_append value_text c now_ms rows).

Lemma existsb_decide_false {A B} `{EqDecision B} (f : A → B) (b : B) (l : list A) :
  existsb (λ x, bool_decide (f x = b)) l = false → ∀ x, x ∈ l → f x ≠ b.
Proof.
  intros Hf x Hx Heq. rewrite -not_true_iff_false existsb_exists in Hf. apply Hf.
  exists x. split; [by apply list_elem_of_In|by apply bool_decide_eq_true].
Qed.

Lemma index_attestation_ok body authority fs db u fs' db' :
  index_attestation body authority fs db = Ok (u, fs', db') →
  ∃ att, index_row_for body authority = Ok att ∧ db' = add_attestation att db ∧
    ∀ row, att = Some row →
      (∀ k, k ∈ key_attestations db → k_token_hash k ≠ ir_token_hash row ∧ k_ctx_id k ≠ ir_ctx_id row) ∧
      (ir_not_before_ms row < ir_not_after_ms row)%Z.
Proof.
  unfold index_attestation. intros Hs. inv_tx.
  match goal with Hx : index_row_for _ _ = Ok ?r |- _ => exists r; destruct r as [row|] end.
  - inv_tx. rename select (insert_attestation _ _ = Ok _) into Hins. unfold insert_attestation in Hins.
    cbn [att_row k_not_before_ms k_not_after_ms k_token_hash k_ctx_id] in Hins.
    destruct (existsb _ _) eqn:Htok in Hins; [simplify_eq; by inv_tx|].
    destruct (existsb _ _) eqn:Hctx in Hins; [done|].
    destruct (negb _) eqn:Hwin in Hins; [done|]. simplify_eq. bool_to_prop.
    cbn [Nat.eqb] in Hs. inv_tx. split; [done|]. split; [done|]. intros ? [= <-].
    split; [|done]. intros k Hk. by split; [eapply existsb_decide_false in Htok|eapply existsb_decide_false in Hctx].
  - inv_tx. split; [done|]. split; [|done]. unfold add_attestation, with_attestations.
    rewrite app_nil_r. by destruct db'.
Qed.

Lemma log_step_ok st body receipt fs db u fs' db' :
  log_step st body receipt fs db = Ok (u, fs', db') →
  ∃ leaf, db' = add_leaf (body_ctx_id body) leaf db ∧
    if log_enabled st
    then ∃ v json hash, receipt = Some v ∧ leaf = Some (json, hash) ∧
           build_leaf_record body v = Ok (json, hash) ∧
           ∀ l, l ∈ log_leaves db → l_ctx_id l ≠ body_ctx_id body
    else leaf = None.
Proof.
  unfold log_step. intros Hs. destruct (log_enabled st).
  - destruct receipt as [v|]; [|by inv_tx]. inv_tx.
    match goal with a : (string * string)%type |- _ => destruct a as [lj lh] end. inv_tx.
    unfold insert_leaf in Hs.
    destruct (existsb _ _) eqn:Hix in Hs; [done|].
    destruct (existsb _ _) eqn:Hctx in Hs; [done|]. simplify_eq.
    exists (Some (lj, lh)). split; [done|]. exists v, lj, lh. repeat split; try done.
    by apply existsb_decide_false.
  - inv_tx. exists None. split; [|done]. unfold add_leaf, with_leaves.
    rewrite app_nil_r. by destruct db'.
Qed.

Lemma insert_changes_ok now_ms rows : ∀ fs db u fs' db',
  insert_changes now_ms rows fs db = Ok (u, fs', db') →
  db' = add_changes now_ms rows db.
Proof.
  induction rows as [|a rows IH]; intros fs db u fs' db' Hs; simpl in Hs; inv_tx.
  - match goal with |- ?d = _ => by destruct d end.
  - apply IH in Hs as ->. by destruct db.
Qed.

Lemma append_publish_ok body receipt supersedes now_ms fs db u fs' db' :
  append_publish body receipt supersedes now_ms fs db = Ok (u, fs', db') →
  ∃ pred rows, feed_appends_for_publish body receipt pred = Ok rows ∧
    (receipt ≠ None →
     match supersedes with
     | Some prev => ∃ r, select_ctx prev db = Some r ∧ pred = Some (mkPredecessor prev (c_agent_id r))
     | None => pred = None
     end) ∧
    db' = add_changes now_ms rows db.
Proof.
  unfold append_publish. intros Hs. destruct receipt as [v|].
  - destruct supersedes as [prev|]; inv_tx.
    + destruct (select_ctx prev db) as [r|] eqn:Hr; [|done]. simplify_eq.
      rename select (feed_appends_for_publish _ _ _ = _) into Hf.
      apply insert_changes_ok in Hs. eexists _, _. split; [exact Hf|]. split; [|done]. by eauto.
    + rename select (feed_appends_for_publish _ _ _ = _) into Hf.
      apply insert_changes_ok in Hs. eexists _, _. by split; [exact Hf|].
  - inv_tx. exists None, []. split; [done|]. split; [done|]. by destruct db'.
Qed.

(** With the key free the claim succeeds. *)
Lemma claim_ok commit now response fs db claimed fs' db' :
  (match pc_idempotency commit with
   | Some (key, ttl) => claim_step (pc_req commit) key ttl now response
   | None => tx_ret true
   end) fs db = Ok (claimed, fs', db') →
  (∀ key ttl, pc_idempotency commit = Some (key, ttl) →
     idempotency_records db !! (req_agent_id (pc_req commit), key) = None) →
  ∃ claim, claimed = true ∧ db' = add_claim (req_agent_id (pc_req commit)) claim db ∧
    match pc_idempotency commit with
    | Some (key, ttl) => ∃ text, response_text response = Ok text ∧
        claim = Some (key, mkIdemRow (req_content_hash (pc_req commit)) text
                             (timestamp_millis (now + ttl)))
    | None => claim = None
    end.
Proof.
  intros Hs Hfree. destruct (pc_idempotency commit) as [[key ttl]|].
  - unfold claim_step in Hs. inv_tx. cbv zeta in Hs. rewrite (Hfree key ttl eq_refl) in Hs.
    destruct (response_text response) as [t|] eqn:Ht0; [|done]. simpl in *. simplify_eq.
    eexists (Some (key, _)). by eauto 10.
  - inv_tx. exists None. split; [done|]. split; [by destruct db'|done].
Qed.

(** ** A committed publish *)

(** The tables after a publish, from what it adds to each of them. *)
Record PublishEffect : Type := mkEffect {
  pe_body : Body;
  pe_receipt : option Value;
  pe_row : CtxRow;
  pe_attestation : option KeyAttestationIndexRow;
  pe_leaf : option (string * string);
  pe_idem : option (string * IdemRow);
  pe_rows : list FeedAppend
}.

Definition apply_effect (req : PublishRequest) (commit_ms : Z) (e : PublishEffect) (db : SqliteDb) :
    SqliteDb :=
  add_changes commit_ms (pe_rows e)
    (add_claim (req_agent_id req) (pe_idem e)
       (with_contexts (supersede (req_supersedes req))
          (add_leaf (body_ctx_id (pe_body e)) (pe_leaf e)
             (add_attestation (pe_attestation e)
                (with_contexts (λ l, l ++ [pe_row e]) db))))).

(** The checks on what a publish adds, against the tables [db] it writes to. *)
Record effect_ok (st : SqliteStore) (commit : PublishCommit) (first : option string) (now draw : Z)
    (db : SqliteDb) (e : PublishEffect) : Prop := {
  eo_built : ∃ ctx lin,
    assign_identifiers (pc_authority commit) (req_supersedes (pc_req commit)) first draw =
      Ok (ctx, lin) ∧
    pe_body e = from_publish_request (pc_req commit) ctx lin (pc_authority commit) (trunc_ms now);
  eo_receipt : match pc_receipt_minter commit with
               | Some mint => ∃ v, mint (pe_body e) = Ok v ∧ pe_receipt e = Some v
               | None => pe_receipt e = None
               end;
  eo_row : ∃ bj cj tj, body_text (pe_body e) = Ok bj ∧
    strings_text (body_contributors (pe_body e)) = Ok cj ∧
    strings_text (default [] (body_tags (pe_body e))) = Ok tj ∧
    pe_row e = new_row (pe_body e) Active (pc_tenant commit) (pe_receipt e) bj cj tj;
  eo_fresh : select_ctx (body_ctx_id (pe_body e)) db = None;
  eo_attestation : index_row_for (pe_body e) (pc_authority commit) = Ok (pe_attestation e) ∧
    ∀ row, pe_attestation e = Some row →
      (∀ k, k ∈ key_attestations db → k_token_hash k ≠ ir_token_hash row ∧ k_ctx_id k ≠ ir_ctx_id row) ∧
      (ir_not_before_ms row < ir_not_after_ms row)%Z;
  eo_leaf : if log_enabled st
            then ∃ v json hash, pe_receipt e = Some v ∧ pe_leaf e = Some (json, hash) ∧
                   build_leaf_record (pe_body e) v = Ok (json, hash) ∧
                   ∀ l, l ∈ log_leaves db → l_ctx_id l ≠ body_ctx_id (pe_body e)
            else pe_leaf e = None;
  eo_idem : match pc_idempotency commit with
            | Some (key, ttl) => ∃ text,
                response_text (publish_response (pc_req commit) (pe_body e) now (pe_receipt e)) = Ok text ∧
                pe_idem e = Some (key, mkIdemRow (req_content_hash (pc_req commit)) text
                                         (timestamp_millis (now + ttl)))
            | None => pe_idem e = None
            end;
  eo_free key ttl : pc_idempotency commit = Some (key, ttl) →
    idempotency_records db !! (req_agent_id (pc_req commit), key) = None;
  eo_keyless : ∀ att, keyless_successor (pc_req commit) = Some att →
    ∃ s fs0 fs1, successor att fs0 db = Ok (Some s, fs1, db) ∧
      admit_successor (pc_req commit) att (Some s) = Ok s ∧
      window_contains (sa_row s) (trunc_ms now) = true;
  eo_feed : ∃ pred, feed_appends_for_publish (pe_body e) (pe_receipt e) pred = Ok (pe_rows e) ∧
    (pe_receipt e ≠ None →
     match req_supersedes (pc_req commit) with
     | Some prev => ∃ r, List.find (λ r, bool_decide (c_ctx_id r = prev))
                           (supersede (Some prev) (contexts db ++ [pe_row e])) = Some r ∧
                         pred = Some (mkPredecessor prev (c_agent_id r))
     | None => pred = None
     end)
}.

(** What the writing half does when the idempotency key is free: it commits, and
    the tables are those of an effect that passed its checks. *)
Lemma write_step_ok st commit first now ms draw fs db out fs' db' :
  write_step st commit first now ms draw fs db = Ok (out, fs', db') →
  (∀ key ttl, pc_idempotency commit = Some (key, ttl) →
     idempotency_records db !! (req_agent_id (pc_req commit), key) = None) →
  ∃ e, out = Commit (Inserted (publish_response (pc_req commit) (pe_body e) now (pe_receipt e))) ∧
    db' = apply_effect (pc_req commit) ms e db ∧ effect_ok st commit first now draw db e.
Proof.
  unfold write_step. intros Hs Hfree.
  apply tx_bind_ok in Hs as ([body receipt] & fs1 & db1 & Hbuild & Hs).
  apply build_step_ok in Hbuild as (-> & Hbuilt & Hkl & Hrc). cbv zeta in Hs.
  apply tx_bind_ok in Hs as (u1 & fs2 & db2 & Hins & Hs).
  apply insert_body_ok in Hins as (bj & cj & tj & Hbj & Hcj & Htj & Hfresh & ->).
  apply tx_bind_ok in Hs as (u2 & fs3 & db3 & Hatt & Hs).
  apply tx_bind_ok in Hs as (u3 & fs4 & db4 & Hlog & Hs).
  apply tx_bind_ok in Hs as (u4 & fs5 & db5 & Hsup & Hs).
  apply tx_bind_ok in Hs as (claimed & fs6 & db6 & Hclaim & Hs).
  apply index_attestation_ok in Hatt as (att & Hix & -> & Hattok).
  apply log_step_ok in Hlog as (leaf & -> & Hleaf).
  match type of Hsup with _ fs4 ?d = _ =>
    assert (db5 = with_contexts (supersede (req_supersedes (pc_req commit))) d) as -> end.
  { destruct (req_supersedes (pc_req commit)) as [prev|]; inv_tx; [done|by destruct db]. }
  apply claim_ok in Hclaim as (claim & -> & -> & Hclaim); [|exact Hfree].
  cbn [negb] in Hs. apply tx_bind_ok in Hs as (u7 & fs7 & db7 & Happ & Hs). inv_tx.
  apply append_publish_ok in Happ as (pred & rows & Hrows & Hpred & ->).
  eexists (mkEffect body receipt _ att leaf claim rows). split; [done|]. split; [done|].
  split; cbn [pe_body pe_receipt pe_row pe_attestation pe_leaf pe_idem pe_rows]; try done.
  - by exists bj, cj, tj.
  - exists pred. split; [done|]. intros Hr. specialize (Hpred Hr).
    by destruct (req_supersedes (pc_req commit)).
Qed.

(** The tables step 1 leaves. *)
Definition after_lookup (commit : PublishCommit) (now : Z) (db : SqliteDb) : SqliteDb :=
  match pc_idempotency commit with
  | Some (key, _) => evict_key (pc_req commit) key now db
  | None => db
  end.

(** What step 2 has established of the predecessor. *)
Definition predecessor_ok (commit : PublishCommit) (first : option string) (db : SqliteDb) : Prop :=
  match req_supersedes (pc_req commit) with
  | None => first = None
  | Some prev =>
      ∃ row cs, select_ctx prev db = Some row ∧ strings_parse (c_contributors row) = Ok cs ∧
        (∀ t, pc_tenant commit = Some t → c_tenant_id row = t) ∧
        (c_agent_id row = req_agent_id (pc_req commit) ∨ req_agent_id (pc_req commit) ∈ cs) ∧
        (∀ l, req_lineage_id (pc_req commit) = Some l → l = c_lineage_id row) ∧
        req_version (pc_req commit) = (c_version row + 1)%Z ∧ c_status row ≠ "superseded" ∧
        first = c_ctx_id <$> hd_error (select_lineage (c_lineage_id row) db)
  end.

(** The answer recorded under the request's key. *)
Definition replays (commit : PublishCommit) (now : Z) (db : SqliteDb) (resp : PublishResponse) : Prop :=
  ∃ key ttl row, pc_idempotency commit = Some (key, ttl) ∧
    idempotency_records db !! (req_agent_id (pc_req commit), key) = Some row ∧
    (timestamp_millis now < i_expires_at_ms row)%Z ∧
    i_content_hash row = req_content_hash (pc_req commit) ∧
    response_parse (i_response_json row) = Ok resp.

(** A publish that is not refused either answers from the record of its key, writing
    nothing, or commits an effect that passed every check. *)
Lemma publish_body_ok `{!StoreCodecLaws} st commit now ms draw fs db out fs' db' :
  publish_body st commit now ms draw fs db = Ok (out, fs', db') →
  (∃ resp, out = Rollback (IdempotentReplay resp) ∧ replays commit now db resp) ∨
  ∃ e first,
    out = Commit (Inserted (publish_response (pc_req commit) (pe_body e) now (pe_receipt e))) ∧
    db' = apply_effect (pc_req commit) ms e (after_lookup commit now db) ∧
    effect_ok st commit first now draw (after_lookup commit now db) e ∧
    predecessor_ok commit first (after_lookup commit now db).
Proof.
  unfold publish_body. intros Hs. cbv zeta in Hs.
  apply tx_bind_ok in Hs as (replay & fs1 & db1 & Hrep & Hs).
  destruct replay as [resp|].
  - left. unfold tx_ret in Hs. exists resp. split; [by simplify_eq|].
    destruct (pc_idempotency commit) as [[key ttl]|] eqn:Hpc; [|by inv_tx].
    apply idempotency_step_replay in Hrep as (row & ? & ? & ? & ?).
    by exists key, ttl, row.
  - right.
    assert (db1 = after_lookup commit now db ∧
      ∀ key ttl, pc_idempotency commit = Some (key, ttl) →
        idempotency_records db1 !! (req_agent_id (pc_req commit), key) = None) as [-> Hfree].
    { unfold after_lookup. destruct (pc_idempotency commit) as [[key ttl]|]; [|by inv_tx].
      apply idempotency_step_none in Hrep as [-> Hnone]. split; [done|].
      by intros ? ? [= <- <-]. }
    apply tx_bind_ok in Hs as (first & fs2 & db2 & Hsup & Hs).
    assert (db2 = after_lookup commit now db ∧
            predecessor_ok commit first (after_lookup commit now db)) as [-> Hpred].
    { unfold predecessor_ok. destruct (req_supersedes (pc_req commit)) as [prev|];
        [by apply supersession_step_ok in Hsup|by inv_tx]. }
    apply write_step_ok in Hs as (e & -> & -> & Hok); [|done].
    by exists e, first.
Qed.

(** What [commit_publish] answers and leaves behind. *)
Lemma commit_publish_ok `{!StoreCodecLaws} st env commit now ms draw db out db' :
  commit_publish st env commit now ms draw db = (Ok out, db') →
  (∃ resp, out = IdempotentReplay resp ∧ db' = db ∧ replays commit now db resp) ∨
  ∃ e first,
    out = Inserted (publish_response (pc_req commit) (pe_body e) now (pe_receipt e)) ∧
    db' = apply_effect (pc_req commit) ms e (after_lookup commit now db) ∧
    effect_ok st commit first now draw (after_lookup commit now db) e ∧
    predecessor_ok commit first (after_lookup commit now db).
Proof.
  intros Hc. apply transaction_ok in Hc as [(fs' & Hb)|(-> & k & fs' & db1 & Hb & Hk)].
  - apply publish_body_ok in Hb as [(resp & Hx & _)|(e & first & Hx & Hrest)]; [done|].
    injection Hx as ->. right. by exists e, first.
  - apply publish_body_ok in Hb as [(resp & Hx & Hr)|(e & first & Hx & _)]; [|done].
    injection Hx as ->. injection Hk as <-. left. by exists resp.
Qed.

(** The tables after [commit_publish], whatever it answers. *)
Lemma commit_publish_state `{!StoreCodecLaws} st env commit now ms draw db :
  let db' := (commit_publish st env commit now ms draw db).2 in
  db' = db ∨
  ∃ e first, db' = apply_effect (pc_req commit) ms e (after_lookup commit now db) ∧
    effect_ok st commit first now draw (after_lookup commit now db) e ∧
    predecessor_ok commit first (after_lookup commit now db).
Proof.
  unfold commit_publish. cbv zeta.
  apply (transaction_preserves (λ d, d = db ∨ ∃ e first,
    d = apply_effect (pc_req commit) ms e (after_lookup commit now db) ∧
    effect_ok st commit first now draw (after_lookup commit now db) e ∧
    predecessor_ok commit first (after_lookup commit now db))); [by left|].
  intros out fs' db' Hb. apply publish_body_ok in Hb as [(resp & Hx & _)|(e & first & Hx & Hrest)];
    [done|]. right. by exists e, first.
Qed.
End publish.
