(* ===== verification/SqliteInvariants.v ===== *)
(** * The invariant of the context store

    What the tables of the SQLite store always satisfy, and that every operation of
    the server keeps it: lineages are chains of versions without a fork, a row is
    superseded exactly when it has a successor, the retraction flag agrees with the
    events, receipts are complete up to the last ones, the log is dense and a token
    has minted one attestation. *)

From S2P Require Import Prelude Text Errors ContextTypes ChangeBucket ChangeFeed FeedBackends.
From S2P Require Import EventReceipts KeyAttestations SqlTx SqliteStore SqlitePublish.

Open Scope registry_scope.

Lemma NoDup_snoc {A} (l : list A) x : NoDup l → x ∉ l → NoDup (l ++ [x]).
Proof. intros. apply NoDup_app. split; [done|]. split; [set_solver|apply NoDup_singleton]. Qed.

(** ** Lineages *)

Section lineages.
Context `{StoreCodec} `{PublishSdk}.

(** The rows a store can have accepted, oldest first: a first version founds its
    own lineage; a successor continues a row that has no successor yet, in that
    row's lineage, with the next version, by its producer or a contributor. *)
Inductive published : list CtxRow → Prop :=
  | published_nil : published []
  | published_first l r :
      published l → c_ctx_id r ∉ map c_ctx_id l →
      c_supersedes r = None → c_lineage_id r = lineage_of (c_ctx_id r) →
      published (l ++ [r])
  | published_next l r q cs :
      published l → c_ctx_id r ∉ map c_ctx_id l → q ∈ l →
      c_supersedes r = Some (c_ctx_id q) → c_lineage_id r = c_lineage_id q →
      c_version r = (c_version q + 1)%Z →
      strings_parse (c_contributors q) = Ok cs →
      (c_agent_id q = c_agent_id r ∨ c_agent_id r ∈ cs) →
      (∀ s, s ∈ l → c_supersedes s ≠ Some (c_ctx_id q)) →
      published (l ++ [r]).

Lemma published_ids l : published l → NoDup (map c_ctx_id l).
Proof.
  induction 1 as [|l r _ IH Hr _ _|l r q cs _ IH Hr _ _ _ _ _ _ _]; [constructor|..];
    rewrite map_app; apply NoDup_app; (split; [done|]); split;
    [set_solver|apply NoDup_singleton|set_solver|apply NoDup_singleton].
Qed.

Lemma published_same_id l r s :
  published l → r ∈ l → s ∈ l → c_ctx_id r = c_ctx_id s → r = s.
Proof.
  intros Hp Hr Hs Heq. apply published_ids in Hp.
  apply list_elem_of_lookup in Hr as [i Hi]. apply list_elem_of_lookup in Hs as [j Hj].
  assert (i = j) as <-; [|congruence].
  eapply NoDup_lookup; [exact Hp| |]; rewrite list_lookup_fmap; [by rewrite Hi|by rewrite Hj /= Heq].
Qed.

Lemma published_successor l r p :
  published l → r ∈ l → c_supersedes r = Some p →
  ∃ q, q ∈ l ∧ c_ctx_id q = p ∧ c_lineage_id q = c_lineage_id r ∧
    c_version r = (c_version q + 1)%Z ∧
    ∃ cs, strings_parse (c_contributors q) = Ok cs ∧ (c_agent_id q = c_agent_id r ∨ c_agent_id r ∈ cs).
Proof.
  induction 1 as [|l s _ IH _ Hs _|l s q cs _ IH _ Hq Hs Hl Hv Hcs Hown _]; intros Hr Hp;
    [by apply elem_of_nil in Hr|..].
  - apply elem_of_app in Hr as [Hr|Hr%list_elem_of_singleton]; [|congruence].
    destruct (IH Hr Hp) as (q & ? & ?). exists q. set_solver.
  - apply elem_of_app in Hr as [Hr|Hr%list_elem_of_singleton].
    + destruct (IH Hr Hp) as (q' & ? & ?). exists q'. set_solver.
    + subst. exists q. simplify_eq. split; [set_solver|]. by eauto 10.
Qed.

Lemma published_one_successor l r s p :
  published l → r ∈ l → s ∈ l → c_supersedes r = Some p → c_supersedes s = Some p → r = s.
Proof.
  induction 1 as [|l t _ IH _ Ht _|l t q cs _ IH _ Hq Ht _ _ _ _ Hno]; intros Hr Hs Hrp Hsp;
    [by apply elem_of_nil in Hr|..];
    apply elem_of_app in Hr as [Hr|Hr%list_elem_of_singleton];
    apply elem_of_app in Hs as [Hs|Hs%list_elem_of_singleton]; subst;
    try done; try congruence; try (by apply IH); exfalso.
  - apply (Hno r Hr). congruence.
  - apply (Hno s Hs). congruence.
Qed.

(** The founder of a row's lineage. *)
Lemma published_root `{!PublishSdkLaws} l r :
  published l → r ∈ l →
  ∃ f, f ∈ l ∧ c_supersedes f = None ∧ c_lineage_id f = c_lineage_id r ∧
    c_lineage_id r = lineage_of (c_ctx_id f) ∧
    (c_version f ≤ c_version r)%Z ∧ (c_version r = c_version f → r = f).
Proof.
  intros Hp. revert r.
  induction Hp as [|l s _ IH _ Hs Hl|l s q cs _ IH _ Hq Hs Hl Hv _ _ _]; intros r Hr;
    [by apply elem_of_nil in Hr|..].
  - apply elem_of_app in Hr as [Hr|Hr%list_elem_of_singleton].
    + destruct (IH _ Hr) as (f & ? & ?). exists f. set_solver.
    + subst. exists s. split; [set_solver|]. split; [done|]. split; [done|]. split; [done|].
      split; [lia|done].
  - apply elem_of_app in Hr as [Hr|Hr%list_elem_of_singleton].
    + destruct (IH _ Hr) as (f & ? & ?). exists f. set_solver.
    + subst. destruct (IH _ Hq) as (f & Hf & Hfs & Hfl & Hflo & Hfv & _). exists f.
      split; [set_solver|]. rewrite Hl. split; [done|]. split; [done|]. split; [done|]. lia.
Qed.

Lemma published_one_root `{!PublishSdkLaws} l f g :
  published l → f ∈ l → g ∈ l → c_supersedes f = None → c_supersedes g = None →
  c_lineage_id f = c_lineage_id g → f = g.
Proof.
  intros Hp Hf Hg Hfs Hgs Heq. apply (published_same_id l); [done..|].
  destruct (published_root l f Hp Hf) as (f' & Hf' & _ & _ & Hfl & _).
  assert (∀ r, r ∈ l → c_supersedes r = None → c_lineage_id r = lineage_of (c_ctx_id r)) as Hown.
  { clear -Hp. induction Hp as [|l s _ IH _ Hs Hl|l s q cs _ IH _ _ Hs _ _ _ _ _]; intros r Hr Hrs;
      [by apply elem_of_nil in Hr|..];
      (apply elem_of_app in Hr as [Hr|Hr%list_elem_of_singleton]; [by apply IH|]); subst; congruence. }
  apply (inj lineage_of). by rewrite -!Hown.
Qed.

(** Within a lineage a version names one row. *)
Lemma published_version `{!PublishSdkLaws} l : published l → ∀ n r s,
  r ∈ l → s ∈ l → c_lineage_id r = c_lineage_id s → c_version r = c_version s →
  (∀ f, f ∈ l → c_supersedes f = None → c_lineage_id f = c_lineage_id r →
        (c_version r - c_version f ≤ Z.of_nat n)%Z) → r = s.
Proof.
  intros Hp n. induction n as [|n IH]; intros r s Hr Hs Hl Hv Hn;
    destruct (published_root l r Hp Hr) as (f & Hf & Hfs & Hfl & Hfo & Hfv & Hfe);
    destruct (published_root l s Hp Hs) as (g & Hg & Hgs & Hgl & Hgo & Hgv & Hge);
    assert (f = g) as <- by (apply (published_one_root l); congruence);
    specialize (Hn f Hf Hfs Hfl) as Hn'.
  - rewrite Hfe; [|lia]. rewrite Hge; [done|lia].
  - destruct (decide (c_version r = c_version f)) as [He|Hne].
    { rewrite Hfe //. rewrite Hge; [done|lia]. }
    destruct (c_supersedes r) as [p|] eqn:Hrp; 
      [|destruct Hne; f_equal; apply (published_one_root l); congruence].
    destruct (c_supersedes s) as [p'|] eqn:Hsp;
      [|destruct Hne; rewrite Hv; f_equal; apply (published_one_root l); congruence].
    destruct (published_successor l r p Hp Hr Hrp) as (q & Hq & Hqp & Hql & Hqv & _).
    destruct (published_successor l s p' Hp Hs Hsp) as (q' & Hq' & Hqp' & Hql' & Hqv' & _).
    assert (q = q') as <-.
    { apply IH; [done|done|congruence|lia|]. intros h Hh Hhs Hhl.
      specialize (Hn h Hh Hhs ltac:(congruence)). lia. }
    apply (published_one_successor l r s p); congruence.
Qed.

Lemma published_version_unique `{!PublishSdkLaws} l r s :
  published l → r ∈ l → s ∈ l → c_lineage_id r = c_lineage_id s → c_version r = c_version s → r = s.
Proof.
  intros Hp Hr Hs Hl Hv.
  destruct (published_root l r Hp Hr) as (f & Hf & Hfs & Hfl & Hfo & Hfv & _).
  apply (published_version l Hp (Z.to_nat (c_version r - c_version f))); [done..|].
  intros g Hg Hgs Hgl. rewrite (published_one_root l g f); [lia|congruence..].
Qed.

(** Every row but the newest of its lineage has a successor. *)
Lemma published_continued `{!PublishSdkLaws} l : published l → ∀ n r s,
  r ∈ l → s ∈ l → c_lineage_id r = c_lineage_id s → (c_version r < c_version s)%Z →
  (c_version s - c_version r ≤ Z.of_nat n)%Z →
  ∃ t, t ∈ l ∧ c_supersedes t = Some (c_ctx_id r).
Proof.
  intros Hp n. induction n as [|n IH]; intros r s Hr Hs Hl Hlt Hn; [lia|].
  destruct (c_supersedes s) as [p|] eqn:Hsp.
  - destruct (published_successor l s p Hp Hs Hsp) as (q & Hq & Hqp & Hql & Hqv & _).
    destruct (decide (c_version q = c_version r)) as [He|Hne].
    + exists s. split; [done|]. rewrite (published_version_unique l r q); congruence.
    + apply (IH r q); [done|done|congruence|lia|lia].
  - destruct (published_root l r Hp Hr) as (f & Hf & Hfs & Hfl & Hfo & Hfv & _).
    assert (s = f) as -> by (apply (published_one_root l); congruence). lia.
Qed.

(** The columns a lineage depends on. *)
Definition core (r : CtxRow) :
    string * string * string * string * Z * option string * string * string * string *
    (string * option string * SearchColumns string) :=
  (c_ctx_id r, c_lineage_id r, c_agent_id r, c_contributors r, c_version r, c_supersedes r,
   c_body_json r, c_created_at r, c_visibility r, (c_context_type r, c_expires_at r, c_search r)).

Lemma published_core l l' : published l → map core l' = map core l → published l'.
Proof.
  intros Hp. revert l'. induction Hp as [|l r Hp IH Hr Hs Hl|l r q cs Hp IH Hr Hq Hs Hl Hv Hcs Hown Hno];
    intros l' Heq.
  - destruct l'; [constructor|done].
  - rewrite map_app in Heq. destruct l' as [|r' l' _] using rev_ind; [by destruct l|].
    rewrite map_app in Heq. apply app_inj_tail in Heq as [Hl' Hr']. unfold core in Hr'. simplify_eq.
    assert (map c_ctx_id l' = map c_ctx_id l) as Hids.
    { apply (f_equal (map (λ t, t.1.1.1.1.1.1.1.1.1))) in Hl'. by rewrite !map_map in Hl'. }
    apply published_first; [by apply IH|by rewrite Hids; congruence|congruence|congruence].
  - rewrite map_app in Heq. destruct l' as [|r' l' _] using rev_ind; [by destruct l|].
    rewrite map_app in Heq. apply app_inj_tail in Heq as [Hl' Hr']. unfold core in Hr'. simplify_eq.
    assert (map c_ctx_id l' = map c_ctx_id l) as Hids.
    { apply (f_equal (map (λ t, t.1.1.1.1.1.1.1.1.1))) in Hl'. by rewrite !map_map in Hl'. }
    assert (∀ x, x ∈ l → ∃ y, y ∈ l' ∧ core y = core x) as Hfor.
    { intros x Hx. assert (core x ∈ map core l') as (y & Hy & Hyl)%list_elem_of_fmap
        by (rewrite Hl'; by apply list_elem_of_fmap_2). by exists y. }
    assert (∀ y, y ∈ l' → ∃ x, x ∈ l ∧ core y = core x) as Hback.
    { intros y Hy. assert (core y ∈ map core l) as (x & Hx & Hxl)%list_elem_of_fmap
        by (rewrite -Hl'; by apply list_elem_of_fmap_2). by exists x. }
    destruct (Hfor q Hq) as (q' & Hq' & Hcore). unfold core in Hcore. simplify_eq.
    apply (published_next l' r' q' cs);
      [by apply IH|rewrite Hids; congruence|done|congruence|congruence|congruence|congruence|..].
    + destruct Hown; [left|right]; congruence.
    + intros s Hs'. destruct (Hback s Hs') as (x & Hx & Hcx). unfold core in Hcx. simplify_eq.
      specialize (Hno x Hx). congruence.
Qed.
End lineages.

(** ** Byte order *)

Lemma bytes_ltb_irrefl a : bytes_ltb a a = false.
Proof. induction a as [|x a IH]; [done|]. simpl. by rewrite Z.ltb_irrefl Z.eqb_refl IH. Qed.

Lemma bytes_ltb_trans a : ∀ b c, bytes_ltb a b = true → bytes_ltb b c = true → bytes_ltb a c = true.
Proof.
  induction a as [|x a IH]; intros [|y b] [|z c]; simpl; try done.
  rewrite !orb_true_iff !andb_true_iff !Z.ltb_lt !Z.eqb_eq.
  intros [Hxy|[-> Hab]] [Hyz|[-> Hbc]]; [left; lia|left; lia|left; lia|right].
  split; [done|by eapply IH].
Qed.

Lemma bytes_ltb_total a : ∀ b, bytes_ltb a b = true ∨ a = b ∨ bytes_ltb b a = true.
Proof.
  induction a as [|x a IH]; intros [|y b]; simpl; [by auto..|].
  rewrite !orb_true_iff !andb_true_iff !Z.ltb_lt !Z.eqb_eq.
  destruct (Z.lt_total x y) as [Hlt|[->|Hlt]]; [by auto| |by auto].
  destruct (IH b) as [?|[->|?]]; by auto.
Qed.

Lemma bytes_leb_spec a b : bytes_leb a b = true ↔ a = b ∨ bytes_ltb a b = true.
Proof.
  unfold bytes_leb. rewrite negb_true_iff. split.
  - intros Hba. destruct (bytes_ltb_total a b) as [?|[?|?]]; [by auto..|congruence].
  - intros [->|Hab]; [apply bytes_ltb_irrefl|].
    destruct (bytes_ltb b a) eqn:Hba; [|done].
    pose proof (bytes_ltb_trans _ _ _ Hab Hba) as Haa. by rewrite bytes_ltb_irrefl in Haa.
Qed.

#[export] Instance version_order_trans : Transitive version_order.
Proof.
  intros x y z. unfold version_order, text_leb. rewrite !bytes_leb_spec.
  intros [Hxy|[Hxy [Ha|Ha]]] [Hyz|[Hyz [Hb|Hb]]]; try (left; lia); right; (split; [lia|]).
  - left. congruence.
  - right. congruence.
  - right. congruence.
  - right. by eapply bytes_ltb_trans.
Qed.

#[export] Instance version_order_total : Total version_order.
Proof.
  intros x y. unfold version_order, text_leb. rewrite !bytes_leb_spec.
  destruct (Z.lt_total (c_version x) (c_version y)) as [?|[Heq|?]]; [by auto| |by auto].
  destruct (bytes_ltb_total (as_bytes (c_created_at x)) (as_bytes (c_created_at y))) as [?|[?|?]];
    rewrite Heq; intuition.
Qed.

Lemma elem_of_select_lineage lin db r :
  r ∈ select_lineage lin db ↔ c_lineage_id r = lin ∧ r ∈ contexts db.
Proof.
  unfold select_lineage. rewrite merge_sort_Permutation list_elem_of_filter. done.
Qed.

(** The first row of a lineage by version is its founder. *)
Lemma select_lineage_head `{StoreCodec} `{PublishSdk} `{!PublishSdkLaws} db q h :
  published (contexts db) → q ∈ contexts db →
  hd_error (select_lineage (c_lineage_id q) db) = Some h →
  c_lineage_id q = lineage_of (c_ctx_id h).
Proof.
  intros Hp Hq Hh.
  assert (h ∈ select_lineage (c_lineage_id q) db) as [Hl Hin]%elem_of_select_lineage.
  { destruct (select_lineage _ db); [done|]. injection Hh as ->. set_solver. }
  destruct (published_root _ q Hp Hq) as (f & Hf & Hfs & Hfl & Hfo & Hfv & _).
  assert (f ∈ select_lineage (c_lineage_id q) db) as Hfin by by apply elem_of_select_lineage.
  assert (version_order h f) as Hle.
  { pose proof (StronglySorted_merge_sort version_order
      (filter (λ r, c_lineage_id r = c_lineage_id q) (contexts db))) as Hsort.
    fold (select_lineage (c_lineage_id q) db) in Hsort.
    destruct (select_lineage (c_lineage_id q) db) as [|x l]; [done|]. injection Hh as ->.
    apply elem_of_cons in Hfin as [->|Hfin]; [by destruct (version_order_total h h)|].
    apply StronglySorted_inv in Hsort as [_ Hall]. rewrite Forall_forall in Hall. by apply Hall. }
  destruct (published_root _ h Hp Hin) as (g & Hg & Hgs & Hgl & Hgo & Hgv & Hge).
  assert (g = f) as -> by (apply (published_one_root (contexts db)); congruence).
  rewrite Hfo. f_equal. rewrite Hge; [done|]. destruct Hle as [?|[? _]]; lia.
Qed.

(** ** The invariant *)

Section invariant.
Context `{StoreCodec} `{PublishSdk} `{KeylessSdk}.

(** The columns of a row are those of the body it stores. *)
Record decodes (r : CtxRow) (b : Body) : Prop := {
  dec_body : body_parse (c_body_json r) = Ok b;
  dec_ctx_id : body_ctx_id b = c_ctx_id r;
  dec_lineage_id : body_lineage_id b = c_lineage_id r;
  dec_agent_id : body_agent_id b = c_agent_id r;
  dec_version : body_version b = c_version r;
  dec_supersedes : body_supersedes b = c_supersedes r;
  dec_contributors : strings_parse (c_contributors r) = Ok (body_contributors b);
  dec_receipt t : c_registry_receipt r = Some t → ∃ v, value_parse t = Ok v;
  dec_created_at : c_created_at r = rfc3339 (body_created_at b);
  dec_aligned : trunc_ms (body_created_at b) = body_created_at b;
  dec_visibility : c_visibility r = visibility_str (body_visibility b);
  dec_context_type : c_context_type r = context_type_str (body_context_type b);
  dec_expires_at : c_expires_at r = rfc3339 <$> body_expires_at b;
  dec_search : ∃ tags, strings_parse tags = Ok (default [] (body_tags b)) ∧ c_search r = search_columns b tags
}.

(** Retractions and republications take turns, a retraction first. *)
Definition alternates (events : list LifecycleEvent) : Prop :=
  ∀ i e, events !! i = Some e → event_type e = if Nat.even i then RetractedEvent else RepublishedEvent.

(** The slots of a context and the flag of its row. *)
Record history_ok (db : SqliteDb) (r : CtxRow) (b : Body) (slots : list Slot) : Prop := {
  hi_slots : slots_from_rows 0 (select_events (c_ctx_id r) db) = Ok slots;
  hi_ok : slots_ok (c_ctx_id r) (body_created_at b) slots;
  hi_hole : slots_have_hole slots = false;
  hi_flag : negb (c_retracted r =? 0)%Z = retraction_state (map fst slots);
  hi_alternates : alternates (map fst slots)
}.

Record store_wf (db : SqliteDb) : Prop := {
  wf_published : published (contexts db);
  wf_status r : r ∈ contexts db →
    (c_status r = "superseded" ∧ ∃ s, s ∈ contexts db ∧ c_supersedes s = Some (c_ctx_id r)) ∨
    (c_status r = "active" ∧ ∀ s, s ∈ contexts db → c_supersedes s ≠ Some (c_ctx_id r));
  wf_rows r : r ∈ contexts db → ∃ b slots, decodes r b ∧ history_ok db r b slots;
  wf_event_rows e : e ∈ lifecycle_events db →
    (∃ ev sig tenant rc, event_signature_text ev = Ok sig ∧ e = event_row ev sig tenant rc) ∧
    ∃ r, r ∈ contexts db ∧ c_ctx_id r = e_ctx_id e;
  wf_event_ids : NoDup (map (λ e, (e_ctx_id e, e_event_id e)) (lifecycle_events db));
  wf_leaf_index i l : log_leaves db !! i = Some l → l_index l = Z.of_nat i;
  wf_leaf_ids : NoDup (map l_ctx_id (log_leaves db));
  wf_leaf_ctx l : l ∈ log_leaves db → ∃ r, r ∈ contexts db ∧ c_ctx_id r = l_ctx_id l;
  wf_tokens : NoDup (map k_token_hash (key_attestations db));
  wf_attested : NoDup (map k_ctx_id (key_attestations db));
  wf_att_rows k : k ∈ key_attestations db →
    (∃ row, k = att_row row ∧ (ir_not_before_ms row < ir_not_after_ms row)%Z) ∧
    ∃ r, r ∈ contexts db ∧ c_ctx_id r = k_ctx_id k
}.

Definition empty_db (changes : ChangesDb string) : SqliteDb := mkDb [] [] ∅ [] [] changes.

Lemma empty_db_wf c : store_wf (empty_db c).
Proof.
  split; cbn;
    first [apply published_nil | apply NoDup_nil_2 | by intros ? ?%elem_of_nil | done].
Qed.

Lemma select_ctx_Some id db r :
  select_ctx id db = Some r → r ∈ contexts db ∧ c_ctx_id r = id.
Proof.
  intros Hf. apply List.find_some in Hf as [Hin Hid].
  split; [by apply list_elem_of_In|by apply bool_decide_eq_true in Hid].
Qed.

Lemma select_ctx_None id db : select_ctx id db = None ↔ id ∉ map c_ctx_id (contexts db).
Proof.
  unfold select_ctx. split.
  - intros Hf Hin. apply list_elem_of_fmap in Hin as (r & -> & Hr).
    pose proof (List.find_none _ _ Hf r) as Hn. rewrite -list_elem_of_In in Hn. specialize (Hn Hr).
    by apply bool_decide_eq_false in Hn.
  - intros Hn. destruct (List.find _ _) as [r|] eqn:Hf; [|done]. exfalso.
    apply List.find_some in Hf as [Hin Hid]. apply bool_decide_eq_true in Hid. subst.
    apply Hn, list_elem_of_fmap_2. by apply list_elem_of_In.
Qed.

Lemma select_ctx_unique db r :
  published (contexts db) → r ∈ contexts db → select_ctx (c_ctx_id r) db = Some r.
Proof.
  intros Hp Hr. destruct (select_ctx (c_ctx_id r) db) as [s|] eqn:Hs.
  - apply select_ctx_Some in Hs as [Hs Hid]. f_equal. by apply (published_same_id (contexts db)).
  - apply select_ctx_None in Hs. destruct Hs. by apply list_elem_of_fmap_2.
Qed.

(** What marking the predecessor does to the rows. *)
Lemma elem_of_supersede prev l r :
  r ∈ supersede prev l ↔
  ∃ r0, r0 ∈ l ∧ r = if bool_decide (prev = Some (c_ctx_id r0)) then set_status "superseded" r0 else r0.
Proof.
  destruct prev as [p|]; simpl.
  - rewrite list_elem_of_fmap. split.
    + intros (r0 & -> & Hr0). exists r0. split; [done|]. repeat case_bool_decide; congruence.
    + intros (r0 & Hr0 & ->). exists r0. split; [|done]. repeat case_bool_decide; congruence.
  - split; [intros; by exists r|]. by intros (r0 & ? & ->).
Qed.

Lemma core_supersede prev l : map core (supersede prev l) = map core l.
Proof.
  destruct prev as [p|]; [|done]. simpl. rewrite map_map. apply map_ext. intros r.
  by case_bool_decide.
Qed.

Lemma superseders prev l x :
  (∃ s, s ∈ supersede prev l ∧ c_supersedes s = x) ↔ (∃ s, s ∈ l ∧ c_supersedes s = x).
Proof.
  split.
  - intros (s & (s0 & Hs0 & ->)%elem_of_supersede & Hx). exists s0. split; [done|].
    by revert Hx; case_bool_decide.
  - intros (s0 & Hs0 & Hx).
    exists (if bool_decide (prev = Some (c_ctx_id s0)) then set_status "superseded" s0 else s0).
    split; [by apply elem_of_supersede; exists s0|]. by case_bool_decide.
Qed.

Lemma supersede_keeps_ids prev l id :
  (∃ r, r ∈ l ∧ c_ctx_id r = id) → ∃ r, r ∈ supersede prev l ∧ c_ctx_id r = id.
Proof.
  intros (r0 & Hr0 & Hid).
  exists (if bool_decide (prev = Some (c_ctx_id r0)) then set_status "superseded" r0 else r0).
  split; [by apply elem_of_supersede; exists r0|]. by case_bool_decide.
Qed.

(** A row whose status alone has changed. *)
Lemma decodes_set_status s r b : decodes r b → decodes (set_status s r) b.
Proof. intros []. by split. Qed.

Lemma history_set_status db s r b slots :
  history_ok db r b slots → history_ok db (set_status s r) b slots.
Proof. intros []. by split. Qed.

Lemma no_events db id :
  store_wf db → id ∉ map c_ctx_id (contexts db) → select_events id db = [].
Proof.
  intros Hwf Hid. unfold select_events. apply filter_none. intros x Hx Heq.
  destruct (wf_event_rows _ Hwf x Hx) as [_ (r & Hr & Hrid)]. apply Hid.
  rewrite -Heq -Hrid. by apply list_elem_of_fmap_2.
Qed.

Lemma slots_ok_nil ctx created : slots_ok ctx created [].
Proof. split; [done|constructor|constructor]. Qed.

(** ** Publishing *)

Section publishing.
Context `{!StoreCodecLaws} `{!PublishSdkLaws} `{!EventSdkLaws}.
Context (st : SqliteStore) (commit : PublishCommit) (first : option string) (now ms draw : Z).
Context (db : SqliteDb) (e : PublishEffect).
Context (Hwf : store_wf db) (Hok : effect_ok st commit first now draw db e).
Context (Hpred : predecessor_ok commit first db).

(** The new row, from the request. *)
Lemma effect_row :
  c_ctx_id (pe_row e) = body_ctx_id (pe_body e) ∧
  c_lineage_id (pe_row e) = body_lineage_id (pe_body e) ∧
  c_agent_id (pe_row e) = req_agent_id (pc_req commit) ∧
  c_version (pe_row e) = req_version (pc_req commit) ∧
  c_supersedes (pe_row e) = req_supersedes (pc_req commit) ∧
  c_status (pe_row e) = "active" ∧ c_retracted (pe_row e) = 0%Z ∧
  c_tenant_id (pe_row e) = default "default" (pc_tenant commit) ∧
  c_registry_receipt (pe_row e) = value_text <$> pe_receipt e ∧
  decodes (pe_row e) (pe_body e).
Proof.
  destruct (eo_row _ _ _ _ _ _ _ Hok) as (bj & cj & tj & Hbj & Hcj & Htj & ->).
  destruct (eo_built _ _ _ _ _ _ _ Hok) as (ctx & lin & _ & Hb).
  cbn. repeat split; try (rewrite Hb; apply built_agent_id || apply built_version || apply built_supersedes).
  - by apply body_inverse.
  - cbn. by apply strings_inverse.
  - cbn. intros t Ht. destruct (pe_receipt e) as [v|]; [|done]. injection Ht as <-. exists v.
    apply value_inverse.
  - cbn. rewrite Hb built_created_at. apply trunc_ms_idem.
  - exists tj. split; [by apply strings_inverse|done].
Qed.

Lemma effect_ids :
  c_ctx_id (pe_row e) ∉ map c_ctx_id (contexts db).
Proof.
  destruct effect_row as (-> & _). apply select_ctx_None. apply (eo_fresh _ _ _ _ _ _ _ Hok).
Qed.

Lemma effect_published : published (contexts db ++ [pe_row e]).
Proof.
  destruct effect_row as (Hid & Hlin & Hag & Hver & Hsup & _).
  destruct (eo_built _ _ _ _ _ _ _ Hok) as (ctx & lin & Hassign & Hb).
  pose proof effect_ids as Hfresh. unfold predecessor_ok in Hpred.
  destruct (req_supersedes (pc_req commit)) as [prev|].
  - destruct Hpred as (q & cs & Hq & Hcs & _ & Hown & _ & Hv & Hst & Hfirst).
    apply select_ctx_Some in Hq as [Hq Hqid].
    assert (c_lineage_id (pe_row e) = c_lineage_id q) as Hl.
    { rewrite Hlin Hb built_lineage_id. destruct first as [f|].
      - apply assigned_successor in Hassign as ->.
        destruct (hd_error _) as [h|] eqn:Hh; [|done]. injection Hfirst as ->.
        symmetry. by eapply select_lineage_head; [apply wf_published|..].
      - pose proof (assigned_orphan (pc_authority commit) prev draw) as Ho. by rewrite Hassign in Ho. }
    eapply published_next; [by apply wf_published|done|exact Hq|congruence|done|congruence|exact Hcs|..].
    + rewrite Hag. destruct Hown; by auto.
    + destruct (wf_status _ Hwf q Hq) as [[Hs _]|[_ Hno]]; [done|]. exact Hno.
  - subst first. apply published_first; [by apply wf_published|done|done|].
    apply assigned_first in Hassign. by rewrite Hlin Hid Hb built_lineage_id built_ctx_id.
Qed.

Lemma effect_not_own_predecessor : req_supersedes (pc_req commit) ≠ Some (c_ctx_id (pe_row e)).
Proof.
  intros Heq. pose proof Hpred as Hp. unfold predecessor_ok in Hp. rewrite Heq in Hp.
  destruct Hp as (q & cs & [Hq Hqid]%select_ctx_Some & _). apply effect_ids.
  rewrite -Hqid. by apply list_elem_of_fmap_2.
Qed.

Lemma effect_status r :
  let l := contexts db ++ [pe_row e] in
  r ∈ supersede (req_supersedes (pc_req commit)) l →
  (c_status r = "superseded" ∧ ∃ s, s ∈ l ∧ c_supersedes s = Some (c_ctx_id r)) ∨
  (c_status r = "active" ∧ ∀ s, s ∈ l → c_supersedes s ≠ Some (c_ctx_id r)).
Proof.
  intros l (r0 & Hr0 & ->)%elem_of_supersede.
  destruct effect_row as (_ & _ & _ & _ & Hsup & Hst & _).
  destruct (bool_decide _) eqn:Hb; bool_to_prop.
  { left. split; [done|]. exists (pe_row e). split; [set_solver|]. by rewrite Hsup Hb. }
  apply elem_of_app in Hr0 as [Hr0|Hr0%list_elem_of_singleton].
  - destruct (wf_status _ Hwf r0 Hr0) as [[Hs (s & Hin & Hss)]|[Hs Hno]].
    + left. split; [done|]. exists s. set_solver.
    + right. split; [done|].
      intros s [Hin|Hin%list_elem_of_singleton]%elem_of_app; [by apply Hno|subst; congruence].
  - subst. right. split; [done|].
    intros s [Hin|Hin%list_elem_of_singleton]%elem_of_app Hss; [|subst; congruence].
    destruct (published_successor _ s _ (wf_published _ Hwf) Hin Hss) as (q & Hq & Hqid & _).
    apply effect_ids. rewrite -Hqid. by apply list_elem_of_fmap_2.
Qed.

Lemma effect_rows r :
  r ∈ supersede (req_supersedes (pc_req commit)) (contexts db ++ [pe_row e]) →
  ∃ b slots, decodes r b ∧ history_ok (apply_effect (pc_req commit) ms e db) r b slots.
Proof.
  intros (r0 & Hr0 & ->)%elem_of_supersede.
  assert (∃ b slots, decodes r0 b ∧ history_ok (apply_effect (pc_req commit) ms e db) r0 b slots)
    as (b & slots & Hd & Hh).
  { apply elem_of_app in Hr0 as [Hr0|Hr0%list_elem_of_singleton].
    - destruct (wf_rows _ Hwf r0 Hr0) as (b & slots & Hd & [? ? ? ? ?]). by exists b, slots.
    - subst. destruct effect_row as (_ & _ & _ & _ & _ & _ & Hrt & _ & _ & Hd).
      exists (pe_body e), []. split; [done|]. split.
      + change (lifecycle_events _) with (lifecycle_events db).
        pose proof (no_events db _ Hwf effect_ids) as Hno. unfold select_events in *.
        cbn. by rewrite Hno.
      + apply slots_ok_nil.
      + done.
      + by rewrite Hrt retraction_state_nil.
      + by intros i x. }
  exists b, slots. case_bool_decide; [|done].
  split; [by apply decodes_set_status|by apply history_set_status].
Qed.

Lemma effect_wf : store_wf (apply_effect (pc_req commit) ms e db).
Proof.
  pose proof effect_row as (Hid & _).
  split; cbn [contexts lifecycle_events key_attestations log_leaves apply_effect add_changes add_claim
              add_leaf add_attestation with_changes with_idempotency with_contexts with_leaves
              with_attestations].
  - eapply published_core; [exact effect_published|apply core_supersede].
  - intros r Hr. destruct (effect_status r Hr) as [[? Hs]|[? Hno]]; [left|right]; (split; [done|]).
    + by apply superseders.
    + intros s Hs Hss. destruct (proj1 (superseders (req_supersedes (pc_req commit))
        (contexts db ++ [pe_row e]) (Some (c_ctx_id r))) (ex_intro _ s (conj Hs Hss))) as (s0 & ? & ?).
      by eapply Hno.
  - apply effect_rows.
  - intros x Hx. destruct (wf_event_rows _ Hwf x Hx) as [? (r & Hr & Hrid)]. split; [done|].
    apply supersede_keeps_ids. exists r. set_solver.
  - by apply wf_event_ids.
  - intros i l Hl. destruct (pe_leaf e) as [[json hash]|]; [|rewrite app_nil_r in Hl; by apply (wf_leaf_index _ Hwf)].
    apply lookup_app_Some in Hl as [Hl|[Hge Hl]]; [by apply (wf_leaf_index _ Hwf)|].
    apply list_lookup_singleton_Some in Hl as [Hi <-]. cbn. f_equal. lia.
  - pose proof (eo_leaf _ _ _ _ _ _ _ Hok) as Hleaf. rewrite map_app.
    destruct (log_enabled st); [|rewrite Hleaf app_nil_r; by apply wf_leaf_ids].
    destruct Hleaf as (v & json & hash & _ & -> & _ & Hnew). apply NoDup_snoc; [by apply wf_leaf_ids|].
    intros (l & Hl & Hin)%list_elem_of_fmap. by apply (Hnew l).
  - intros l [Hl|Hl]%elem_of_app; apply supersede_keeps_ids.
    + destruct (wf_leaf_ctx _ Hwf l Hl) as (r & Hr & Hrid). exists r. set_solver.
    + destruct (pe_leaf e) as [[json hash]|]; [|by apply elem_of_nil in Hl].
      apply list_elem_of_singleton in Hl as ->. exists (pe_row e). split; [set_solver|done].
  - destruct (eo_attestation _ _ _ _ _ _ _ Hok) as [_ Hatt]. rewrite map_app.
    destruct (pe_attestation e) as [row|]; [|rewrite app_nil_r; by apply wf_tokens].
    apply NoDup_snoc; [by apply wf_tokens|]. intros (k & Hk & Hin)%list_elem_of_fmap.
    destruct (Hatt row eq_refl) as [Hn _]. destruct (Hn k Hin). simpl in Hk. congruence.
  - destruct (eo_attestation _ _ _ _ _ _ _ Hok) as [_ Hatt]. rewrite map_app.
    destruct (pe_attestation e) as [row|]; [|rewrite app_nil_r; by apply wf_attested].
    apply NoDup_snoc; [by apply wf_attested|]. intros (k & Hk & Hin)%list_elem_of_fmap.
    destruct (Hatt row eq_refl) as [Hn _]. destruct (Hn k Hin). simpl in Hk. congruence.
  - destruct (eo_attestation _ _ _ _ _ _ _ Hok) as [Hix Hatt].
    intros k [Hk|Hk]%elem_of_app.
    + destruct (wf_att_rows _ Hwf k Hk) as [? (r & Hr & Hrid)]. split; [done|].
      apply supersede_keeps_ids. exists r. set_solver.
    + destruct (pe_attestation e) as [row|]; [|by apply elem_of_nil in Hk].
      apply list_elem_of_singleton in Hk as ->. split; [exists row; split; [done|by destruct (Hatt row eq_refl)]|].
      apply supersede_keeps_ids. exists (pe_row e). split; [set_solver|].
      apply index_row_for_ok in Hix as (Hix & _). by rewrite Hid -Hix.
Qed.
End publishing.
End invariant.
