(* ===== verification/SqliteLifecycle.v ===== *)
(** * What lifecycle commits and the sweep write

    The analysis of [commit_lifecycle_event] and [backfill_ctx] of the SQLite store:
    the rows an update of a receipt changes are the slot it is meant for, a commit
    appends one event to the context's history and sets its flag, and both keep the
    invariant of [SqliteInvariants]. *)

From S2P Require Import Prelude Text Errors ContextTypes ChangeBucket ChangeFeed FeedBackends.
From S2P Require Import EventReceipts KeyAttestations SqlTx SqliteStore SqlitePublish SqliteInvariants.

Open Scope registry_scope.

Section lifecycle.
Context `{StoreCodec} `{PublishSdk} `{KeylessSdk}.

(** ** Slots, position by position *)

Lemma slots_from_rows_spec rows : ∀ i slots,
  slots_from_rows i rows = Ok slots ↔
  length slots = length rows ∧
  ∀ j r, rows !! j = Some r → ∃ s, slots !! j = Some s ∧ slot_from_row r (i + j) = Ok s.
Proof.
  induction rows as [|r rows IH]; intros i slots; simpl.
  - split; [intros [= <-]; done|]. intros [Hl _]. by apply nil_length_inv in Hl as ->.
  - split.
    + destruct (slot_from_row r i) as [s|] eqn:Hs; [|done]. simpl.
      destruct (slots_from_rows (S i) rows) as [l|] eqn:Hl; [|done]. intros [= <-].
      apply IH in Hl as [Hlen Hl]. split; [simpl; lia|]. intros [|j] r' Hr'; simpl in *.
      * simplify_eq. exists s. by rewrite Nat.add_0_r.
      * rewrite Nat.add_succ_r. by apply Hl.
    + intros [Hlen Hall]. destruct slots as [|s slots]; [done|]. simpl in Hlen.
      destruct (Hall 0 r eq_refl) as (s0 & [= <-] & Hs). rewrite Nat.add_0_r in Hs. rewrite Hs /=.
      rewrite (proj2 (IH (S i) slots)); [done|]. split; [lia|]. intros j r' Hr'.
      destruct (Hall (S j) r' Hr') as (s1 & Hs1 & Hsl). exists s1. split; [done|].
      by rewrite Nat.add_succ_r in Hsl.
Qed.

Lemma slots_from_rows_snoc rows slots r s :
  slots_from_rows 0 rows = Ok slots → slot_from_row r (length slots) = Ok s →
  slots_from_rows 0 (rows ++ [r]) = Ok (slots ++ [s]).
Proof.
  rewrite !slots_from_rows_spec. intros [Hlen Hall] Hs. split; [rewrite !length_app /=; lia|].
  intros j r' Hr'. apply lookup_app_Some in Hr' as [Hr'|[Hge Hr']].
  - destruct (Hall j r' Hr') as (s' & Hs' & Hf). exists s'. split; [by apply lookup_app_l_Some|done].
  - apply list_lookup_singleton_Some in Hr' as [Hj <-].
    exists s. rewrite lookup_app_r; [|lia]. rewrite Hlen Hj. split; [done|].
    rewrite (_ : 0 + j = length slots); [done|lia].
Qed.

(** A row as [commit_lifecycle_event] writes it. *)
Definition written (e : EventRow) (ev : LifecycleEvent) : Prop :=
  ∃ sig tenant rc, event_signature_text ev = Ok sig ∧ e = event_row ev sig tenant rc.

Section laws.
Context `{!StoreCodecLaws} `{!PublishSdkLaws} `{!EventSdkLaws}.

Lemma slot_of_written e ev i :
  written e ev →
  slot_from_row e i =
  Ok (ev, decode_receipt ((λ t, match value_parse t with Ok v => v | Err _ => VNull end) <$> e_receipt e)
            ev (Z.of_nat i)) ∧
  e_ctx_id e = event_ctx_id ev ∧ e_event_id e = event_id ev.
Proof.
  intros (sig & tenant & rc & Hsig & ->). unfold slot_from_row.
  rewrite event_row_inverse; [|done]. done.
Qed.

Lemma decode_null v ev i : decode_receipt v ev i = RNull ↔ v = None.
Proof.
  unfold decode_receipt. destruct v as [v|]; [|done].
  destruct (event_receipt_from_value v); [|done]. by case_if.
Qed.

(** The text of a receipt bound to its slot decodes to it. *)
Lemma decode_written ctx i ev r v :
  event_ctx_id ev = ctx → bound_at ctx i (ev, RValid r) → receipt_value r = Ok v →
  decode_receipt (Some match value_parse (value_text v) with Ok v => v | Err _ => VNull end) ev
    (Z.of_nat i) = RValid r.
Proof.
  intros Hctx (Hid & Hc & Hix) Hv. rewrite value_inverse. unfold receipt_value in Hv.
  destruct (event_receipt_to_value r) as [v'|] eqn:Hr; [|done]. injection Hv as ->.
  simpl in *. rewrite (receipt_value_inverse r v Hr).
  rewrite bool_decide_true //= Hix Z.eqb_refl /= bool_decide_true //. congruence.
Qed.

Lemma set_receipt_written e ev text : written e ev → written (set_receipt text e) ev.
Proof. intros (sig & tenant & rc & Hsig & ->). by exists sig, tenant, (Some text). Qed.

Lemma elem_of_select_events ctx db e :
  e ∈ select_events ctx db ↔ e_ctx_id e = ctx ∧ e ∈ lifecycle_events db.
Proof. unfold select_events. by rewrite list_elem_of_filter. Qed.

(** The event ids of one context are distinct. *)
Lemma select_events_ids ctx db :
  NoDup (map (λ e, (e_ctx_id e, e_event_id e)) (lifecycle_events db)) →
  NoDup (map e_event_id (select_events ctx db)).
Proof.
  unfold select_events. induction (lifecycle_events db) as [|e l IH]; [constructor|]. simpl.
  intros [Hn Hd]%NoDup_cons. rewrite filter_cons. case_decide as Hc; [|by apply IH].
  simpl. constructor; [|by apply IH].
  intros (x & Hx & Hin)%list_elem_of_fmap. apply list_elem_of_filter in Hin as [Hxc Hin].
  apply Hn, list_elem_of_fmap. exists x. by rewrite Hx Hc Hxc.
Qed.

Lemma filter_map_keeps {A} (P : A → Prop) `{∀ x, Decision (P x)} (f : A → A) l :
  (∀ x, P (f x) ↔ P x) → filter P (map f l) = map f (filter P l).
Proof.
  intros Hf. induction l as [|x l IH]; [done|]. simpl. rewrite !filter_cons IH.
  specialize (Hf x). repeat case_decide; by intuition.
Qed.

(** [UPDATE ... SET receipt] on the rows of a context. *)
Definition fill_rows (ctx id text : string) : list EventRow → list EventRow :=
  map (λ r, if fill_matches ctx id r then set_receipt text r else r).

Lemma fill_rows_select ctx ctx' id text db n db' :
  update_receipt ctx id text db = (n, db') →
  select_events ctx' db' = fill_rows ctx id text (select_events ctx' db).
Proof.
  intros [= _ <-]. unfold select_events. cbn. unfold fill_rows. apply filter_map_keeps.
  intros x. by destruct (fill_matches ctx id x).
Qed.

Lemma fill_rows_other ctx ctx' id text rows :
  ctx' ≠ ctx → (∀ e, e ∈ rows → e_ctx_id e = ctx') → fill_rows ctx id text rows = rows.
Proof.
  intros Hne Hc. unfold fill_rows. rewrite -{2}(map_id rows). apply map_ext_in.
  intros e He%list_elem_of_In. unfold fill_matches. rewrite (Hc e He). by rewrite bool_decide_false.
Qed.

(** When an update hits a row, it fills exactly the slot of that event. *)
Lemma fill_rows_slot ctx i s r v rows slots :
  (∀ e, e ∈ rows → e_ctx_id e = ctx ∧ ∃ ev, written e ev) → NoDup (map e_event_id rows) →
  slots_from_rows 0 rows = Ok slots → slots !! i = Some s →
  bound_at ctx i (s.1, RValid r) → receipt_value r = Ok v →
  List.filter (fill_matches ctx (event_id s.1)) rows ≠ [] →
  slots_from_rows 0 (fill_rows ctx (event_id s.1) (value_text v) rows) =
  Ok (alter (λ x : Slot, (x.1, RValid r)) i slots).
Proof.
  intros Hrows Hnd Hslots Hi Hb Hv Hhit. rewrite slots_from_rows_spec in Hslots.
  destruct Hslots as [Hlen Hall].
  destruct (rows !! i) as [e|] eqn:He; [|apply lookup_ge_None in He; apply lookup_lt_Some in Hi; lia].
  destruct (Hall i e He) as (s' & Hs' & Hfe). rewrite Hi in Hs'. injection Hs' as <-.
  destruct (Hrows e) as [Hec (ev & Hw)]; [by eapply list_elem_of_lookup_2|].
  destruct (slot_of_written e ev i Hw) as (Hsl & Hctx & Hid).
  simpl in Hfe. rewrite Hsl in Hfe. injection Hfe as <-. simpl in *.
  (* the row that is hit is row [i] *)
  assert (∀ j e', rows !! j = Some e' → e_event_id e' = event_id ev → j = i) as Huniq.
  { intros j e' Hj Hid'. eapply NoDup_lookup; [exact Hnd|rewrite list_lookup_fmap Hj /=; done|].
    rewrite list_lookup_fmap He /=. congruence. }
  assert (fill_matches ctx (event_id ev) e = true) as Hme.
  { destruct (List.filter _ rows) as [|e' l] eqn:Hf; [done|].
    assert (In e' (List.filter (fill_matches ctx (event_id ev)) rows)) as Hin by (rewrite Hf; by left).
    apply filter_In in Hin as [Hin Hm]. apply list_elem_of_In, list_elem_of_lookup in Hin as [j Hj].
    assert (e_event_id e' = event_id ev) as Hid' by (unfold fill_matches in Hm; by bool_to_prop).
    pose proof (Huniq j e' Hj Hid') as ->. rewrite He in Hj. by injection Hj as ->. }
  apply slots_from_rows_spec. unfold fill_rows. rewrite length_alter length_map. split; [done|].
  intros j e0 Hj. rewrite list_lookup_fmap in Hj.
  destruct (rows !! j) as [ej|] eqn:Hrj; [|done]. injection Hj as <-.
  destruct (Hall j ej Hrj) as (sj & Hsj & Hfj).
  destruct (decide (j = i)) as [->|Hne].
  - rewrite Hrj in He. injection He as ->. rewrite Hme. exists (ev, RValid r).
    rewrite list_lookup_alter_eq Hi. split; [done|].
    rewrite Nat.add_0_l. destruct (slot_of_written _ _ i (set_receipt_written _ _ (value_text v) Hw)) as (-> & _).
    cbn [e_receipt set_receipt fmap option_fmap option_map].
    rewrite (decode_written ctx i ev r v); [done|congruence|done|done].
  - exists sj. rewrite list_lookup_alter_ne //. split; [done|].
    destruct (fill_matches ctx (event_id ev) ej) eqn:Hm; [|done]. destruct Hne.
    unfold fill_matches in Hm. bool_to_prop. by eapply Huniq.
Qed.

(** ** Fills *)

(** The tables of two stores that differ in receipts of events only. *)
Record receipts_only (db db' : SqliteDb) : Prop := {
  ro_contexts : contexts db' = contexts db;
  ro_idempotency : idempotency_records db' = idempotency_records db;
  ro_attestations : key_attestations db' = key_attestations db;
  ro_leaves : log_leaves db' = log_leaves db;
  ro_changes : changes_db db' = changes_db db;
  ro_ids : map (λ e, (e_ctx_id e, e_event_id e)) (lifecycle_events db') =
           map (λ e, (e_ctx_id e, e_event_id e)) (lifecycle_events db);
  ro_written e' : e' ∈ lifecycle_events db' →
    ∃ e, e ∈ lifecycle_events db ∧ e_ctx_id e' = e_ctx_id e ∧ ∀ ev, written e ev → written e' ev
}.

Lemma receipts_only_refl db : receipts_only db db.
Proof. split; try done. intros e' He'. by exists e'. Qed.

Lemma receipts_only_trans db1 db2 db3 :
  receipts_only db1 db2 → receipts_only db2 db3 → receipts_only db1 db3.
Proof.
  intros [Ha1 Hb1 Hc1 Hd1 He1 Hf1 Hg1] [Ha2 Hb2 Hc2 Hd2 He2 Hf2 Hg2]. split; try congruence.
  intros e3 (e2 & Hin2 & Heq2 & Hw2)%Hg2. destruct (Hg1 e2 Hin2) as (e1 & Hin1 & Heq1 & Hw1).
  exists e1. split; [done|]. split; [congruence|]. eauto.
Qed.

Lemma update_receipt_only ctx id text db n db' :
  update_receipt ctx id text db = (n, db') → receipts_only db db'.
Proof.
  intros [= _ <-]. split; try done.
  - cbn. rewrite map_map. apply map_ext. intros e. by case_if.
  - cbn. intros e' (e & -> & He)%list_elem_of_fmap. exists e. split; [done|].
    case_if; [|done]. split; [done|]. intros ev. apply set_receipt_written.
Qed.

(** The rows of every event are in the form they were written in. *)
Definition events_wf (db : SqliteDb) : Prop :=
  (∀ e, e ∈ lifecycle_events db → ∃ ev, written e ev) ∧
  NoDup (map (λ e, (e_ctx_id e, e_event_id e)) (lifecycle_events db)).

Lemma events_wf_only db db' : events_wf db → receipts_only db db' → events_wf db'.
Proof.
  intros [Hw Hnd] Hro. split; [|by rewrite (ro_ids _ _ Hro)].
  intros e' (e & He & _ & Hwe)%(ro_written _ _ Hro). destruct (Hw e He) as (ev & Hev). eauto.
Qed.

Lemma update_receipt_slot ctx i s r v db n db' slots :
  events_wf db → slots_from_rows 0 (select_events ctx db) = Ok slots → slots !! i = Some s →
  bound_at ctx i (s.1, RValid r) → receipt_value r = Ok v →
  update_receipt ctx (event_id s.1) (value_text v) db = (n, db') → n = 1%nat →
  slots_from_rows 0 (select_events ctx db') = Ok (alter (λ x : Slot, (x.1, RValid r)) i slots).
Proof.
  intros [Hw Hnd] Hsl Hi Hb Hv Hu Hn. rewrite (fill_rows_select _ _ _ _ _ _ _ Hu).
  apply (fill_rows_slot ctx i s r v); try done.
  - intros e [Hc He]%elem_of_select_events. by eauto.
  - by apply select_events_ids.
  - injection Hu as Hcount _. rewrite Hn in Hcount. intros Hnone.
    assert (List.filter (fill_matches ctx (event_id s.1)) (lifecycle_events db) = []) as Hnil;
      [|by rewrite Hnil in Hcount].
    destruct (List.filter _ (lifecycle_events db)) as [|e l] eqn:Hf; [done|]. exfalso.
    assert (In e (List.filter (fill_matches ctx (event_id s.1)) (lifecycle_events db))) as Hin
      by (rewrite Hf; by left).
    apply filter_In in Hin as [Hin Hm].
    assert (In e (List.filter (fill_matches ctx (event_id s.1)) (select_events ctx db))) as Hin'.
    { apply filter_In. split; [|done]. apply list_elem_of_In, elem_of_select_events.
      split; [|by apply list_elem_of_In]. unfold fill_matches in Hm. by bool_to_prop. }
    by rewrite Hnone in Hin'.
Qed.

(** Writing the planned receipts fills the planned slots and nothing else. *)
Lemma write_fills_ok what ctx slots0 fills : ∀ fs db u fs' db' slots,
  events_wf db → slots_from_rows 0 (select_events ctx db) = Ok slots →
  map fst slots = map fst slots0 →
  Forall (λ f : nat * EventReceipt,
    ∀ s, slots0 !! f.1 = Some s → bound_at ctx f.1 (s.1, RValid f.2)) fills →
  write_fills what ctx slots0 fills fs db = Ok (u, fs', db') →
  receipts_only db db' ∧ slots_from_rows 0 (select_events ctx db') = Ok (fill_slots fills slots) ∧
  ∀ ctx', ctx' ≠ ctx → select_events ctx' db' = select_events ctx' db.
Proof.
  induction fills as [|[i r] fills IH]; intros fs db u fs' db' slots Hwf Hsl Hfst Hb Hw; simpl in Hw.
  { inv_tx. split; [apply receipts_only_refl|done]. }
  apply Forall_cons in Hb as [Hbi Hb]. inv_tx.
  match goal with Hx : ok_or (slots0 !! i) _ = Ok ?s |- _ => rename s into s0; rename Hx into Hs0 end.
  apply ok_or_ok in Hs0 as Hi.
  match goal with Hx : Ok ?x = Ok (?n, ?d) |- _ =>
    assert (x = (n, d)) as Hu by congruence; clear Hx; rename n into hits; rename d into db1 end.
  destruct (negb _) eqn:Hn in Hw; [by inv_tx|]. bool_to_prop. apply Nat.eqb_eq in Hn.
  assert (∃ s, slots !! i = Some s ∧ s.1 = s0.1) as (s & Hs & Hse).
  { assert (map fst slots !! i = Some s0.1) as Hm by (rewrite Hfst list_lookup_fmap Hi; done).
    rewrite list_lookup_fmap in Hm. destruct (slots !! i) as [s|]; [|done].
    injection Hm as Hm. by exists s. }
  simpl in Hbi. specialize (Hbi s0 Hi). rewrite -Hse in Hbi, Hu.
  pose proof (update_receipt_only _ _ _ _ _ _ Hu) as Hro.
  destruct (IH fs2 db1 u fs' db' (alter (λ x : Slot, (x.1, RValid r)) i slots)) as (Hro' & Hsl' & Hoth).
  - by eapply events_wf_only.
  - by eapply update_receipt_slot.
  - rewrite -Hfst. clear. revert i. induction slots as [|x l IH]; intros [|i]; simpl; try done.
    f_equal. apply IH.
  - done.
  - done.
  - split; [by eapply receipts_only_trans|]. split; [done|]. intros ctx' Hne. rewrite Hoth //.
    rewrite (fill_rows_select _ _ _ _ _ _ _ Hu). apply (fill_rows_other _ ctx'); [done|].
    by intros e [? _]%elem_of_select_events.
Qed.

(** The planned receipts are for the slots they name. *)
Lemma fills_bound mint ctx created now prior : ∀ i prev fills prev',
  minter_signs mint → fill_nulls_from mint ctx created now i prior prev = Ok (fills, prev') →
  Forall (λ f : nat * EventReceipt, i ≤ f.1 ∧
    ∀ s, prior !! (f.1 - i) = Some s → bound_at ctx f.1 (s.1, RValid f.2)) fills.
Proof.
  induction prior as [|[e s] prior IH]; intros i prev fills prev' Hm Hf; simpl in Hf.
  { injection Hf as <- _. constructor. }
  assert (∀ fills', Forall (λ f : nat * EventReceipt, S i ≤ f.1 ∧
    ∀ s, prior !! (f.1 - S i) = Some s → bound_at ctx f.1 (s.1, RValid f.2)) fills' →
    Forall (λ f : nat * EventReceipt, i ≤ f.1 ∧
      ∀ x, ((e, s) :: prior) !! (f.1 - i) = Some x → bound_at ctx f.1 (x.1, RValid f.2)) fills') as Hlift.
  { intros fills' Hall. eapply Forall_impl; [exact Hall|]. intros [j r] [Hj Hx]. simpl in *.
    split; [lia|]. intros x. rewrite (_ : j - i = S (j - S i)); [|lia]. apply Hx. }
  destruct s as [|r|]; [|by apply Hlift, (IH _ prev _ prev')..].
  destruct (event_value e) as [v|] eqn:Hv; [|done]. simpl in Hf.
  destruct (mint _ _ _ _) as [r|] eqn:Hr; [|done]. simpl in Hf.
  destruct (fill_nulls_from _ _ _ _ _ _ _) as [[fills0 prev0]|] eqn:Hf0; [|done].
  injection Hf as <- <-. constructor.
  - split; [done|]. simpl. rewrite Nat.sub_diag. intros x [= <-].
    destruct (Hm _ _ _ _ _ _ (event_value_ok _ _ Hv) Hr) as (? & ? & ? & _). done.
  - by eapply Hlift, IH.
Qed.

Lemma plan_fills_bound mint ctx created prior event now plan :
  minter_signs mint → plan_event_receipts mint ctx created prior event now = Ok plan →
  Forall (λ f : nat * EventReceipt,
    ∀ s, prior !! f.1 = Some s → bound_at ctx f.1 (s.1, RValid f.2)) (plan_fills plan).
Proof.
  intros Hm Hp. unfold plan_event_receipts in Hp.
  destruct (slots_have_hole prior); inv_ok; [constructor|].
  match goal with Hx : fill_nulls _ _ _ _ _ _ = Ok ?p |- _ => destruct p as [fills prev]; rename Hx into Hf end.
  simpl in Hp. inv_ok. simpl.
  eapply Forall_impl; [by eapply fills_bound|]. simpl. intros [j r] [_ Hx] s. simpl in *.
  rewrite Nat.sub_0_r in Hx. apply Hx.
Qed.

Lemma backfill_bound mint ctx created slots now fills :
  minter_signs mint → plan_backfill mint ctx created slots now = Ok (BFill fills) →
  Forall (λ f : nat * EventReceipt,
    ∀ s, slots !! f.1 = Some s → bound_at ctx f.1 (s.1, RValid f.2)) fills.
Proof.
  intros Hm Hp. unfold plan_backfill in Hp. destruct (slots_have_hole slots); [done|].
  destruct (fill_nulls _ _ _ _ _ _) as [[f prev]|] eqn:Hf; [|done]. cbn [and_then] in Hp.
  destruct (is_empty f); simplify_eq.
  eapply Forall_impl; [by eapply fills_bound|]. simpl. intros [j r] [_ Hx] s. simpl in *.
  rewrite Nat.sub_0_r in Hx. apply Hx.
Qed.

Lemma plan_new_bound mint ctx created prior event now plan :
  minter_signs mint → plan_event_receipts mint ctx created prior event now = Ok plan →
  bound_at ctx (length prior) (event, RValid (plan_new plan)).
Proof.
  intros Hm Hp. unfold plan_event_receipts in Hp.
  destruct (if slots_have_hole prior then _ else _) as [[fills prev]|]; [|done]. simpl in Hp.
  destruct (event_value event) as [v|] eqn:Hv; [|done]. simpl in Hp.
  destruct (mint _ _ _ _) as [r|] eqn:Hr; [|done]. simpl in Hp. injection Hp as <-.
  by destruct (Hm _ _ _ _ _ _ (event_value_ok _ _ Hv) Hr) as (? & ? & ? & _).
Qed.

(** ** The commit of an event *)

(** The slots after an event, with or without a receipt. *)
Definition next_slots (slots : list Slot) (event : LifecycleEvent) (plan : option ReceiptPlan) :
    list Slot :=
  match plan with
  | Some p => appended slots event p
  | None => slots ++ [(event, RNull)]
  end.

(** The plan a store makes. *)
Definition planned (st : SqliteStore) (event : LifecycleEvent) (created now : Z)
    (slots : list Slot) (plan : option ReceiptPlan) : Prop :=
  match event_receipt_minter st with
  | Some m => ∃ p, plan = Some p ∧
      plan_event_receipts m (event_ctx_id event) created slots event now = Ok p
  | None => plan = None
  end.

Definition minters_sign (st : SqliteStore) : Prop :=
  ∀ m, event_receipt_minter st = Some m → minter_signs m.

Lemma write_planned st event created now slots plan fs db u fs' db' :
  minters_sign st → planned st event created now slots plan → events_wf db →
  slots_from_rows 0 (select_events (event_ctx_id event) db) = Ok slots →
  (match plan with
   | Some p => write_fills "event receipt fill" (event_ctx_id event) slots (plan_fills p)
   | None => tx_ret tt
   end) fs db = Ok (u, fs', db') →
  receipts_only db db' ∧
  slots_from_rows 0 (select_events (event_ctx_id event) db') =
    Ok (match plan with Some p => fill_slots (plan_fills p) slots | None => slots end) ∧
  ∀ ctx', ctx' ≠ event_ctx_id event → select_events ctx' db' = select_events ctx' db.
Proof.
  intros Hm Hp Hwf Hsl Hw. unfold planned in Hp.
  destruct (event_receipt_minter st) as [m|] eqn:Hmin; [destruct Hp as (p & -> & Hp)|subst plan].
  - eapply write_fills_ok; [done|done|done| |exact Hw].
    by eapply plan_fills_bound; [apply Hm|].
  - inv_tx. by split; [apply receipts_only_refl|].
Qed.

Lemma length_fill_slots fills slots : length (fill_slots fills slots) = length slots.
Proof.
  unfold fill_slots. revert slots. induction fills as [|f fills IH]; intros slots; [done|].
  simpl. by rewrite IH length_alter.
Qed.

(** The slot of the row an event is written to. *)
Lemma new_slot st event created now slots plan sig tenant text :
  minters_sign st → planned st event created now slots plan →
  event_signature_text event = Ok sig →
  match plan with
  | Some p => ∃ v, receipt_value (plan_new p) = Ok v ∧ text = Some (value_text v)
  | None => text = None
  end →
  slot_from_row (event_row event sig tenant text) (length slots) =
  Ok (event, match plan with Some p => RValid (plan_new p) | None => RNull end).
Proof.
  intros Hm Hp Hsig Htext.
  assert (written (event_row event sig tenant text) event) as Hw by (by exists sig, tenant, text).
  destruct (slot_of_written _ _ (length slots) Hw) as (-> & _). do 2 f_equal.
  unfold planned in Hp.
  destruct (event_receipt_minter st) as [m|] eqn:Hmin; [destruct Hp as (p & -> & Hp)|subst plan].
  - destruct Htext as (v & Hv & ->). eapply decode_written; [done| |done].
    by eapply plan_new_bound; [apply Hm|].
  - by subst text.
Qed.

Lemma append_lifecycle_ok event body receipt now_ms fs db u fs' db' :
  append_lifecycle event body receipt now_ms fs db = Ok (u, fs', db') →
  ∃ value row, match receipt with
               | Some r => ∃ v, receipt_value r = Ok v ∧ value = Some v
               | None => value = None
               end ∧ lifecycle_append event body value = Ok row ∧
    db' = add_changes now_ms (match row with Some a => [a] | None => [] end) db.
Proof.
  unfold append_lifecycle. intros Hs. inv_tx.
  match goal with Hx : lifecycle_append _ _ ?v = Ok ?r |- _ => exists v, r; rename Hx into Hrow; rename r into row end.
  split; [|split; [done|]].
  - destruct receipt as [r|]; inv_ok; [|done]. by eauto.
  - destruct row as [a0|]; [by apply insert_changes_ok in Hs|]. inv_tx.
    match goal with |- ?d = _ => by destruct d end.
Qed.

(** What a committed event leaves: [db1] is the store with the planned receipts
    written, [ev] the row of the event, [feed] its row in the feed. *)
Record event_effect (st : SqliteStore) (event : LifecycleEvent) (row : CtxRow) (body : Body)
    (now : Z) (slots : list Slot) (plan : option ReceiptPlan) (db db1 : SqliteDb) (ev : EventRow)
    (feed : list FeedAppend) : Prop := {
  ee_planned : planned st event (body_created_at body) now slots plan;
  ee_receipts : receipts_only db db1;
  ee_slots : slots_from_rows 0 (select_events (event_ctx_id event) db1 ++ [ev]) =
             Ok (next_slots slots event plan);
  ee_others ctx' : ctx' ≠ event_ctx_id event → select_events ctx' db1 = select_events ctx' db;
  ee_row : written ev event;
  ee_tenant : e_tenant_id ev = c_tenant_id row;
  ee_new e : e ∈ lifecycle_events db1 → (e_ctx_id e, e_event_id e) ≠ (e_ctx_id ev, e_event_id ev);
  ee_feed : ∃ value frow,
    match plan with
    | Some p => ∃ v, receipt_value (plan_new p) = Ok v ∧ value = Some v
    | None => value = None
    end ∧ lifecycle_append event body value = Ok frow ∧
    feed = match frow with Some a => [a] | None => [] end
}.

Definition apply_event (event : LifecycleEvent) (now_ms : Z) (ev : EventRow)
    (feed : list FeedAppend) (db1 : SqliteDb) : SqliteDb :=
  add_changes now_ms feed
    (update_ctx (event_ctx_id event) (set_retracted (if is_retraction event then 1 else 0)%Z)
       (with_events (λ l, l ++ [ev]) db1)).

Lemma insert_event_ok r db u db' :
  insert_event r db = Ok (u, db') →
  db' = with_events (λ l, l ++ [r]) db ∧
  ∀ e, e ∈ lifecycle_events db → (e_ctx_id e, e_event_id e) ≠ (e_ctx_id r, e_event_id r).
Proof.
  unfold insert_event. destruct (existsb _ _) eqn:Hex; [done|].
  destruct (select_ctx _ _); [|done]. intros [= _ <-]. split; [done|]. intros e He [= Hc Hi].
  rewrite -not_true_iff_false existsb_exists in Hex. apply Hex. exists e.
  split; [by apply list_elem_of_In|]. by rewrite !bool_decide_true.
Qed.

Lemma append_event_step_ok st event row ctx slots now fs db plan fs' db' :
  minters_sign st → events_wf db →
  slots_from_rows 0 (select_events (event_ctx_id event) db) = Ok slots →
  append_event_step st event row ctx slots now fs db = Ok (plan, fs', db') →
  ∃ db1 ev feed,
    event_effect st event row (fc_body ctx) now slots plan db db1 ev feed ∧
    db' = apply_event event (timestamp_millis now) ev feed db1.
Proof.
  intros Hm Hwf Hsl Hs. unfold append_event_step in Hs.
  apply tx_bind_ok in Hs as (plan0 & fs1 & db0 & Hplan & Hs). apply tx_lift_ok in Hplan as (Hplan & -> & ->).
  assert (planned st event (body_created_at (fc_body ctx)) now slots plan0) as Hpl.
  { unfold planned. destruct (event_receipt_minter st) as [m|]; [|by injection Hplan as <-].
    destruct (plan_event_receipts _ _ _ _ _ _) as [p|] eqn:Hp; [|done]. injection Hplan as <-. by exists p. }
  apply tx_bind_ok in Hs as (u1 & fs2 & db1 & Hfill & Hs).
  destruct (write_planned _ _ _ _ _ _ _ _ _ _ _ Hm Hpl Hwf Hsl Hfill) as (Hro & Hsl1 & Hoth).
  inv_tx. match goal with Hx : insert_event _ _ = Ok _ |- _ => apply insert_event_ok in Hx as [-> Hnew] end.
  match goal with Hx : append_lifecycle _ _ _ _ _ _ = Ok _ |- _ =>
    apply append_lifecycle_ok in Hx as (value & frow & Hvalue & Hfrow & ->) end.
  rename select (map_err _ (event_signature_text event) = Ok _) into Hsig. apply map_err_ok in Hsig.
  match goal with Hx : (match ?p with Some _ => _ | None => _ end) = Ok ?t |- _ =>
    rename t into text; rename p into plan; rename Hx into Htext end.
  eexists db1, _, _. split; [|done].
  split; [done|done| |done|by eexists _, _, _|done|exact Hnew|].
  - assert (match plan with
            | Some p => ∃ v, receipt_value (plan_new p) = Ok v ∧ text = Some (value_text v)
            | None => text = None
            end) as Ht.
    { destruct plan as [p|]; [|by injection Htext]. inv_ok. by eauto. }
    transitivity (Ok (E := AcdpError) (match plan with Some p => fill_slots (plan_fills p) slots | None => slots end
      ++ [(event, match plan with Some p => RValid (plan_new p) | None => RNull end)]));
      [|by destruct plan].
    apply slots_from_rows_snoc; [done|].
    rewrite (_ : length _ = length slots); [by eapply new_slot|].
    destruct plan; [apply length_fill_slots|done].
  - exists value, frow. split; [by destruct plan|done].
Qed.

(** How a lifecycle request that is not refused ends: the event is on record
    already, with the same content, or it is new and the commit appends it. *)
Lemma lifecycle_body_ok st event now fs db out fs' db' :
  minters_sign st → events_wf db →
  lifecycle_body st event now fs db = Ok (out, fs', db') →
  ∃ row ctx slots,
    select_ctx (event_ctx_id event) db = Some row ∧ row_to_context row = Ok ctx ∧
    slots_from_rows 0 (select_events (event_ctx_id event) db) = Ok slots ∧
    ((∃ s, s ∈ slots ∧ s.1 = event ∧
        out = Rollback (LcReplay (project_context
          (attach_events ctx (map fst slots) (map (λ s : Slot, into_option s.2) slots) (minting st)) now)))
     ∨
     (Forall (λ s : Slot, event_id s.1 ≠ event_id event) slots ∧
      transition_step event (retraction_state (map fst slots)) = Ok tt ∧
      ∃ plan db1 ev feed,
        event_effect st event row (fc_body ctx) now slots plan db db1 ev feed ∧
        db' = apply_event event (timestamp_millis now) ev feed db1 ∧
        ∃ served, out = Commit (LcApplied served) ∧
          st_lifecycle_events (fc_state served) = Some (map fst (next_slots slots event plan)) ∧
          st_status (fc_state served) =
            if is_retraction event then Retracted
            else project_status_inline (parse_status (c_status row))
                   (body_expires_at (fc_body ctx)) now)).
Proof.
  intros Hm Hwf Hs. unfold lifecycle_body in Hs. inv_tx.
  destruct (select_ctx (event_ctx_id event) db) as [row|] eqn:Hrow; [|by inv_tx]. inv_tx.
  rename select (row_to_context row = Ok _) into Hctx.
  rename select (slots_from_rows _ _ = Ok _) into Hsl.
  match type of Hctx with _ = Ok ?c => rename c into ctx end.
  match type of Hsl with _ = Ok ?c => rename c into slots end.
  exists row, ctx, slots. split; [done|]. split; [done|]. split; [done|].
  destruct (List.find _ slots) as [[prior rc]|] eqn:Hfind.
  - left. case_bool_decide as Heq; [|by inv_tx]. unfold split_slots in Hs. inv_tx.
    apply List.find_some in Hfind as [Hin _]. exists (event, rc).
    by split; [apply list_elem_of_In|].
  - right. split.
    { apply Forall_forall. intros s Hin%list_elem_of_In Hid.
      pose proof (List.find_none _ _ Hfind s Hin) as Hn. by apply bool_decide_eq_false in Hn. }
    inv_tx. rename select (transition_step _ _ = Ok _) into Htr.
    match type of Htr with _ = Ok ?u => destruct u end. split; [done|].
    rename select (append_event_step _ _ _ _ _ _ _ _ = Ok _) into Happ.
    apply append_event_step_ok in Happ as (dbf & ev & feed & Heff & ->); [|done..].
    match type of Heff with event_effect _ _ _ _ _ _ ?p _ _ _ _ => rename p into plan end.
    cbv zeta in Hs. fold (next_slots slots event plan) in Hs. unfold split_slots in Hs. inv_tx.
    exists plan, dbf, ev, feed. split; [done|]. split; [done|]. eexists. split; [done|].
    assert (next_slots slots event plan ≠ []) as Hne
      by (unfold next_slots, appended; destruct plan; by intros [_ ?]%app_nil).
    unfold attach_events, attach_event_receipts. split.
    + destruct (minting st); cbn [negb set_fc_status fc_state st_lifecycle_events];
        by destruct (next_slots slots event plan).
    + by destruct (minting st).
Qed.
End laws.
End lifecycle.
