(* ===== verification/SqliteReach.v ===== *)
(** * The reachable stores

    Every operation of the server that writes the SQLite tables keeps the invariant
    of [SqliteInvariants]; [store_step] is the relation of those operations, with
    every fault the driver may inject, and its reachable stores are the ones the
    theorems on reads are about. *)

From S2P Require Import Prelude Text Errors ContextTypes ChangeBucket ChangeFeed FeedBackends.
From S2P Require Import EventReceipts KeyAttestations SqlTx SqliteStore SqlitePublish SqliteInvariants.
From S2P Require Import SqliteLifecycle.

Open Scope registry_scope.

Section reach.
Context `{StoreCodec} `{PublishSdk} `{KeylessSdk}.

Lemma store_events_wf db : store_wf db → events_wf db.
Proof.
  intros Hwf. split; [|by apply wf_event_ids].
  intros e He. destruct (wf_event_rows _ Hwf e He) as [(ev & sig & tenant & rc & Hw) _].
  by exists ev, sig, tenant, rc.
Qed.

(** ** Updates that keep the columns of a row *)

(** What [UPDATE contexts] may change outside a publish. *)
Definition keeps_row (f : CtxRow → CtxRow) : Prop :=
  ∀ r, core (f r) = core r ∧ c_status (f r) = c_status r ∧
       c_registry_receipt (f r) = c_registry_receipt r.

Lemma keeps_row_id : keeps_row id.
Proof. done. Qed.

Lemma keeps_ids f r :
  keeps_row f → c_ctx_id (f r) = c_ctx_id r ∧ c_supersedes (f r) = c_supersedes r.
Proof. intros Hf. destruct (Hf r) as ([=] & _). done. Qed.

Lemma decodes_keeps f r b : keeps_row f → decodes r b → decodes (f r) b.
Proof.
  intros Hf [? ? ? ? ? ? ? Hrc ? ? ? ? ? Hsc]. destruct (Hf r) as ([=] & _ & Hr). split; try congruence.
  - intros t Ht. eapply Hrc. congruence.
  - destruct Hsc as (tags & Htags & Hs). exists tags. split; [done|congruence].
Qed.

(** A store whose rows were updated so, and whose events still tell a history of
    each row. *)
Lemma store_wf_update f db db' :
  keeps_row f → store_wf db → contexts db' = map f (contexts db) →
  key_attestations db' = key_attestations db → log_leaves db' = log_leaves db →
  (∀ r b slots, r ∈ contexts db → decodes r b → history_ok db r b slots →
     ∃ slots', history_ok db' (f r) b slots') →
  (∀ e, e ∈ lifecycle_events db' →
     (∃ ev, written e ev) ∧ ∃ r, r ∈ contexts db ∧ c_ctx_id r = e_ctx_id e) →
  NoDup (map (λ e, (e_ctx_id e, e_event_id e)) (lifecycle_events db')) →
  store_wf db'.
Proof.
  intros Hf Hwf Hctx Hatt Hlog Hhist Hev Hnd.
  assert (∀ r, c_ctx_id (f r) = c_ctx_id r ∧ c_supersedes (f r) = c_supersedes r) as Hcols
    by (intros; by apply keeps_ids).
  assert (∀ id, (∃ r, r ∈ contexts db ∧ c_ctx_id r = id) → ∃ r, r ∈ contexts db' ∧ c_ctx_id r = id) as Hids.
  { intros id (r & Hr & <-). exists (f r). rewrite Hctx.
    split; [by apply list_elem_of_fmap_2|apply Hcols]. }
  split.
  - eapply published_core; [by apply (wf_published _ Hwf)|]. rewrite Hctx map_map.
    apply map_ext. intros r. apply Hf.
  - rewrite Hctx. intros ? (r & -> & Hr)%list_elem_of_fmap.
    destruct (Hf r) as (_ & -> & _). rewrite (proj1 (Hcols r)).
    destruct (wf_status _ Hwf r Hr) as [[? (s & Hs & Hss)]|[? Hno]]; [left|right]; (split; [done|]).
    + exists (f s). split; [by apply list_elem_of_fmap_2|]. by rewrite (proj2 (Hcols s)).
    + intros ? (s & -> & Hs)%list_elem_of_fmap. rewrite (proj2 (Hcols s)). by apply Hno.
  - rewrite Hctx. intros ? (r & -> & Hr)%list_elem_of_fmap.
    destruct (wf_rows _ Hwf r Hr) as (b & slots & Hd & Hh).
    destruct (Hhist r b slots Hr Hd Hh) as (slots' & Hh'). exists b, slots'.
    split; [by apply decodes_keeps|done].
  - intros e He. destruct (Hev e He) as [(ev & sig & tenant & rc & ? & ?) Hr].
    split; [by exists ev, sig, tenant, rc|]. by apply Hids.
  - done.
  - rewrite Hlog. by apply wf_leaf_index.
  - rewrite Hlog. by apply wf_leaf_ids.
  - rewrite Hlog. intros l Hl. by apply Hids, (wf_leaf_ctx _ Hwf).
  - rewrite Hatt. by apply wf_tokens.
  - rewrite Hatt. by apply wf_attested.
  - rewrite Hatt. intros k Hk. destruct (wf_att_rows _ Hwf k Hk) as [? Hr].
    split; [done|]. by apply Hids.
Qed.

(** An update of rows alone that keeps the retraction flag. *)
Lemma store_wf_columns f db db' :
  keeps_row f → (∀ r, c_retracted (f r) = c_retracted r) → store_wf db →
  contexts db' = map f (contexts db) → lifecycle_events db' = lifecycle_events db →
  key_attestations db' = key_attestations db → log_leaves db' = log_leaves db → store_wf db'.
Proof.
  intros Hf Hret Hwf Hctx Hevs Hatt Hlog. eapply (store_wf_update f); try done.
  - intros r b slots Hr Hd [Hsl Hok Hh Hfl Halt]. exists slots.
    destruct (keeps_ids f r Hf) as [Hid _]. split; rewrite ?Hid ?Hret //.
    unfold select_events in *. by rewrite Hevs.
  - rewrite Hevs. intros e He. destruct (wf_event_rows _ Hwf e He) as [(ev & sig & t & rc & ?) ?].
    split; [by exists ev, sig, t, rc|done].
  - rewrite Hevs. by apply wf_event_ids.
Qed.

Lemma update_ctx_keeps id f : keeps_row f →
  keeps_row (λ r, if bool_decide (c_ctx_id r = id) then f r else r).
Proof. intros Hf r. by case_bool_decide. Qed.

Lemma set_tenant_keeps t : keeps_row (set_tenant t).
Proof. done. Qed.

Lemma set_retracted_keeps n : keeps_row (set_retracted n).
Proof. done. Qed.

Lemma store_wf_tenant id t db : store_wf db → store_wf (set_tenant_of_ctx id t db).
Proof.
  intros Hwf. unfold set_tenant_of_ctx. case_bool_decide; [done|].
  eapply store_wf_columns; [by apply (update_ctx_keeps id), (set_tenant_keeps t)| |exact Hwf|done..].
  intros r. cbn. by case_bool_decide.
Qed.

(** The invariant does not mention the idempotency records and the feed. *)
Lemma store_wf_tables db db' :
  store_wf db → contexts db' = contexts db → lifecycle_events db' = lifecycle_events db →
  key_attestations db' = key_attestations db → log_leaves db' = log_leaves db → store_wf db'.
Proof.
  intros Hwf Hctx. eapply (store_wf_columns id); [apply keeps_row_id|done|done|].
  by rewrite Hctx map_id.
Qed.

Section laws.
Context `{!StoreCodecLaws} `{!PublishSdkLaws} `{!EventSdkLaws}.

(** ** Lifecycle commits *)

Lemma alternates_state events :
  alternates events → retraction_state events = Nat.odd (length events).
Proof.
  induction events as [|e l IH] using rev_ind; intros Ha; [apply retraction_state_nil|].
  rewrite retraction_state_snoc length_app Nat.add_1_r Nat.odd_succ.
  assert (alternates l) as Hl by (intros i x Hi; by apply Ha, lookup_app_l_Some).
  rewrite (Ha (length l) e); [by destruct (Nat.even (length l))|].
  by apply list_lookup_middle.
Qed.

(** An event that passes the transition check keeps the alternation. *)
Lemma alternates_snoc events e :
  alternates events → transition_step e (retraction_state events) = Ok tt → alternates (events ++ [e]).
Proof.
  intros Ha Ht i x Hx. apply lookup_app_Some in Hx as [Hx|[Hge Hx]]; [by apply Ha|].
  apply list_lookup_singleton_Some in Hx as [Hi <-].
  rewrite (_ : i = length events); [|lia]. rewrite (alternates_state _ Ha) in Ht.
  unfold transition_step in Ht. rewrite -Nat.negb_odd.
  destruct (event_type e), (Nat.odd (length events)); done.
Qed.

Lemma transition_flag e b :
  transition_step e b = Ok tt →
  ∀ events, negb ((if is_retraction e then 1 else 0) =? 0)%Z = retraction_state (events ++ [e]).
Proof.
  intros Ht events. rewrite retraction_state_snoc. unfold transition_step, is_retraction in *.
  by destruct (event_type e), b.
Qed.

Lemma next_slots_ok st event created now slots plan :
  minters_sign st → planned st event created now slots plan →
  slots_ok (event_ctx_id event) created slots → slots_have_hole slots = false →
  slots_ok (event_ctx_id event) created (next_slots slots event plan) ∧
  slots_have_hole (next_slots slots event plan) = false ∧
  map fst (next_slots slots event plan) = map fst slots ++ [event].
Proof.
  intros Hm Hp Hok Hh. unfold planned in Hp.
  destruct (event_receipt_minter st) as [m|] eqn:Hmin; [destruct Hp as (p & -> & Hp)|subst plan].
  - destruct (plan_event_receipts_ok _ _ _ _ _ _ _ (Hm m Hmin) Hok Hp)
      as (Hok' & Hfst & _ & _ & Hph & Hall).
    rewrite Hph Hh in Hall. split; [done|]. split; [by apply all_receipted_no_hole|done].
  - split; [by apply slots_ok_snoc_null|]. split; [by apply no_hole_snoc_null|by rewrite map_app].
Qed.

(** What the events query finds after an event was committed. *)
Lemma select_events_apply event now_ms ev feed db1 ctx :
  written ev event →
  select_events ctx (apply_event event now_ms ev feed db1) =
  select_events ctx db1 ++ if bool_decide (event_ctx_id event = ctx) then [ev] else [].
Proof.
  intros (sig & tenant & rc & _ & ->). unfold select_events. cbn. rewrite filter_app. f_equal.
  rewrite filter_cons filter_nil. cbn. by case_decide; case_bool_decide.
Qed.

Lemma apply_event_wf st event row body now ms slots plan db db1 ev feed :
  minters_sign st → store_wf db → select_ctx (event_ctx_id event) db = Some row →
  decodes row body → slots_from_rows 0 (select_events (event_ctx_id event) db) = Ok slots →
  transition_step event (retraction_state (map fst slots)) = Ok tt →
  event_effect st event row body now slots plan db db1 ev feed →
  store_wf (apply_event event ms ev feed db1).
Proof.
  intros Hm Hwf Hrow Hbody Hsl Htr Heff. destruct Heff as [Hpl Hro Hslots Hoth Hw _ Hnew _].
  apply select_ctx_Some in Hrow as [Hrow Hrid].
  destruct (slot_of_written _ _ 0 Hw) as (_ & Hevc & _).
  eapply (store_wf_update (λ r, if bool_decide (c_ctx_id r = event_ctx_id event)
            then set_retracted (if is_retraction event then 1 else 0)%Z r else r) db);
    [by apply update_ctx_keeps, set_retracted_keeps|done|cbn; by rewrite (ro_contexts _ _ Hro)
    |cbn; apply (ro_attestations _ _ Hro)|cbn; apply (ro_leaves _ _ Hro)| | |].
  - intros r b slots0 Hr Hd [Hs0 Hok Hh Hfl Halt].
    destruct (bool_decide _) eqn:Hb; bool_to_prop.
    + assert (r = row) as -> by (apply (published_same_id _ _ _ (wf_published _ Hwf)); congruence).
      rewrite Hrid in Hs0, Hok. rewrite Hsl in Hs0. injection Hs0 as <-.
      assert (b = body) as -> by (destruct Hd, Hbody; congruence).
      destruct (next_slots_ok _ _ _ _ _ _ Hm Hpl Hok Hh) as (Hok' & Hh' & Hfst).
      exists (next_slots slots event plan).
      split; cbn [c_ctx_id set_retracted c_retracted]; rewrite ?Hrid ?Hfst //.
      * by rewrite select_events_apply // bool_decide_true.
      * by eapply transition_flag.
      * by apply alternates_snoc.
    + exists slots0. split; try done. by rewrite select_events_apply // bool_decide_false // app_nil_r Hoth.
  - cbn. intros e [He|He%list_elem_of_singleton]%elem_of_app.
    + destruct (ro_written _ _ Hro e He) as (e0 & He0 & -> & Hwe).
      destruct (wf_event_rows _ Hwf e0 He0) as [(ev0 & sig & t & rc & ?) ?]. split; [|done].
      exists ev0. apply Hwe. by exists sig, t, rc.
    + subst. split; [by exists event|]. exists row. by rewrite Hevc.
  - cbn. rewrite map_app. apply NoDup_snoc; [rewrite (ro_ids _ _ Hro); by apply wf_event_ids|].
    intros (e & He & Hin)%list_elem_of_fmap. by apply (Hnew e).
Qed.

Lemma row_to_context_decodes row body ctx :
  decodes row body → row_to_context row = Ok ctx → fc_body ctx = body.
Proof.
  intros Hd Hc. unfold row_to_context, decode_body in Hc. rewrite (dec_body _ _ Hd) in Hc.
  cbn [map_err and_then] in Hc. destruct (match c_registry_receipt row with Some _ => _ | None => _ end);
    [|done]. cbn [and_then] in Hc. by injection Hc as <-.
Qed.

Lemma commit_lifecycle_event_wf st env event now db :
  minters_sign st → store_wf db → store_wf (commit_lifecycle_event st env event now db).2.
Proof.
  intros Hm Hwf. unfold commit_lifecycle_event. apply transaction_preserves; [done|].
  intros out fs' db' Hb. apply lifecycle_body_ok in Hb; [|done|by apply store_events_wf].
  destruct Hb as (row & ctx & slots & Hrow & Hctx & Hsl & [(s & _ & _ & Hx)|Hc]); [done|].
  destruct Hc as (_ & Htr & plan & db1 & ev & feed & Heff & -> & _).
  destruct (wf_rows _ Hwf row) as (b & slots0 & Hd & _); [by apply select_ctx_Some in Hrow as [? _]|].
  rewrite (row_to_context_decodes _ _ _ Hd Hctx) in Heff.
  by eapply apply_event_wf.
Qed.

(** ** The sweep *)

Lemma backfill_body_ok rollback mint ctx_id report now fs db out fs' db' :
  minter_signs mint → store_wf db →
  backfill_body rollback mint ctx_id report now fs db = Ok (Commit out, fs', db') →
  ∃ row b slots fills,
    select_ctx ctx_id db = Some row ∧ decodes row b ∧ history_ok db row b slots ∧
    plan_backfill mint ctx_id (body_created_at b) slots now = Ok (BFill fills) ∧
    out = record_filled (length fills) report ∧ receipts_only db db' ∧
    slots_from_rows 0 (select_events ctx_id db') = Ok (fill_slots fills slots) ∧
    ∀ ctx', ctx' ≠ ctx_id → select_events ctx' db' = select_events ctx' db.
Proof.
  intros Hm Hwf Hs. unfold backfill_body in Hs. inv_tx.
  destruct (select_ctx ctx_id db) as [row|] eqn:Hrow; [|by inv_tx]. inv_tx.
  apply select_ctx_Some in Hrow as Hrow'. destruct Hrow' as [Hin Hid].
  destruct (wf_rows _ Hwf row Hin) as (b & slots & Hd & Hh).
  pose proof (hi_slots _ _ _ _ Hh) as Hsl. rewrite Hid in Hsl. rewrite Hsl in Hs.
  destruct (row_to_context row) as [ctx|] eqn:Hctx; [|by inv_tx]. cbn [and_then] in Hs. inv_tx.
  rename select (plan_backfill _ _ _ _ _ = Ok _) into Hp.
  rewrite (row_to_context_decodes _ _ _ Hd Hctx) (dec_ctx_id _ _ Hd) Hid in Hp.
  match type of Hp with _ = Ok ?p => destruct p as [|fills|]; [by inv_tx| |by inv_tx] end. inv_tx.
  exists row, b, slots, fills. split; [done|]. split; [done|]. split; [done|]. split; [done|].
  split; [done|].
  rename select (write_fills _ _ _ _ _ _ = Ok _) into Hw.
  eapply write_fills_ok; [by apply store_events_wf|done|done| |exact Hw].
  by eapply backfill_bound.
Qed.

Lemma backfill_ctx_wf env mint ctx_id report now db :
  minter_signs mint → store_wf db → store_wf (backfill_ctx env mint ctx_id report now db).2.
Proof.
  intros Hm Hwf. unfold backfill_ctx. apply transaction_preserves; [done|].
  intros out fs' db' (row & b & slots & fills & Hrow & Hd & Hh & Hp & _ & Hro & Hsl & Hoth)%backfill_body_ok;
    [|done..].
  apply select_ctx_Some in Hrow as [Hrow Hrid].
  destruct Hh as [Hs0 Hok Hh Hfl Halt]. rewrite Hrid in Hok.
  destruct (plan_backfill_ok _ _ _ _ _ _ Hm Hok Hp) as (Hok' & Hall & Hfst).
  eapply (store_wf_update id db);
    [apply keeps_row_id|done|by rewrite map_id (ro_contexts _ _ Hro)|apply (ro_attestations _ _ Hro)
    |apply (ro_leaves _ _ Hro)| | |rewrite (ro_ids _ _ Hro); by apply wf_event_ids].
  - intros r b' slots' Hr Hd' [Hs0' Hok0 Hh0 Hfl0 Halt0].
    destruct (decide (c_ctx_id r = ctx_id)) as [Hc|Hc].
    + assert (r = row) as -> by (apply (published_same_id _ _ _ (wf_published _ Hwf)); congruence).
      assert (b' = b) as -> by (destruct Hd, Hd'; congruence).
      exists (fill_slots fills slots). split; cbn; rewrite ?Hrid ?Hfst //. by apply all_receipted_no_hole.
    + exists slots'. split; try done. cbn. by rewrite Hoth.
  - intros e (e0 & He0 & -> & Hwe)%(ro_written _ _ Hro).
    destruct (wf_event_rows _ Hwf e0 He0) as [(ev0 & sig & t & rc & ?) ?]. split; [|done].
    exists ev0. apply Hwe. by exists sig, t, rc.
Qed.

(** ** Publishing *)

Lemma after_lookup_wf commit now db : store_wf db → store_wf (after_lookup commit now db).
Proof.
  intros Hwf. unfold after_lookup. destruct (pc_idempotency commit) as [[key ttl]|]; [|done].
  by eapply store_wf_tables; [exact Hwf|..].
Qed.

Lemma commit_publish_wf st env commit now ms draw db :
  store_wf db → store_wf (commit_publish st env commit now ms draw db).2.
Proof.
  intros Hwf.
  destruct (commit_publish_state st env commit now ms draw db) as [->|(e & first & -> & Hok & Hpred)];
    [done|].
  by eapply effect_wf; [apply after_lookup_wf|..].
Qed.

(** ** Steps *)

(** What the server does to the tables when its clock reads [t]. The clock under the
    write lock, the draws and the driver's faults are arbitrary in each step; the
    configuration may change from step to step, as it does over a restart. The
    playground's publish, which writes without a transaction, is not a step. *)
Inductive store_step (t : Z) (db : SqliteDb) : SqliteDb → Prop :=
  | step_publish st env commit ms draw :
      store_step t db (commit_publish st env commit t ms draw db).2
  | step_lifecycle st env event :
      minters_sign st → store_step t db (commit_lifecycle_event st env event t db).2
  | step_backfill env mint ctx_id report :
      minter_signs mint → store_step t db (backfill_ctx env mint ctx_id report t db).2
  | step_evict : store_step t db (idempotency_evict t db)
  | step_tenant ctx_id tenant_id : store_step t db (set_tenant_of_ctx ctx_id tenant_id db)
  | step_prune older_than_ms batch :
      store_step t db (with_changes (λ c, (sql_prune_changes c older_than_ms batch).2) db).

Lemma store_step_wf t db db' : store_wf db → store_step t db db' → store_wf db'.
Proof.
  intros Hwf [st env commit ms draw|st env event Hm|env mint ctx_id report Hm
             | |ctx_id tenant|older batch].
  - by apply commit_publish_wf.
  - by apply commit_lifecycle_event_wf.
  - by apply backfill_ctx_wf.
  - by eapply store_wf_tables.
  - by apply store_wf_tenant.
  - by eapply store_wf_tables.
Qed.

(** Any number of steps, at clock readings that satisfy [P]. *)
Definition store_run (P : Z → Prop) : SqliteDb → SqliteDb → Prop :=
  rtc_steps (λ db db', ∃ t, P t ∧ store_step t db db').

Lemma store_run_wf P db db' : store_run P db db' → store_wf db → store_wf db'.
Proof.
  intros Hrun. apply (rtc_steps_invariant (λ db db', ∃ t, P t ∧ store_step t db db') store_wf); [|done].
  intros s s' Hwf (t & _ & Hst). by eapply store_step_wf.
Qed.

(** The stores a server can be in, from tables without rows. *)
Definition reachable (db : SqliteDb) : Prop := ∃ c, store_run (λ _, True) (empty_db c) db.

Lemma reachable_wf db : reachable db → store_wf db.
Proof. intros [c Hrun]. eapply store_run_wf; [exact Hrun|apply empty_db_wf]. Qed.
End laws.
End reach.
