(* ===== verification/SqliteReads.v ===== *)
(** * What the SQLite store serves

    [get], [lineage] and [current] on the stores a server can reach. The row and the
    events of a context are two reads without a common snapshot, so the theorems are
    about a store and a later one; what is served agrees with itself all the same,
    and without a write in between it is the lineage's one head. *)

From S2P Require Import Prelude Text Errors ContextTypes ChangeBucket ChangeFeed FeedBackends.
From S2P Require Import EventReceipts KeyAttestations SqlTx SqliteStore SqlitePublish SqliteInvariants.
From S2P Require Import SqliteLifecycle SqliteReach.

Open Scope registry_scope.

Section reads.
Context `{StoreCodec} `{PublishSdk} `{KeylessSdk}.
Context `{!StoreCodecLaws} `{!PublishSdkLaws} `{!EventSdkLaws}.

(** ** One context *)

(** The answer for a decoded row and the slots found. *)
Definition serve (st : SqliteStore) (now : Z) (ctx : FullContext) (slots : list Slot) : FullContext :=
  project_context
    (attach_events
       (set_fc_status (reconcile_retraction (st_status (fc_state ctx)) (map fst slots)) ctx)
       (map fst slots) (map (λ s : Slot, into_option s.2) slots) (minting st)) now.

(** The status column with the flag. *)
Definition row_status (r : CtxRow) : Status :=
  if negb (c_retracted r =? 0)%Z then Retracted else parse_status (c_status r).

Lemma row_to_context_ok r b :
  decodes r b → ∃ receipt, row_to_context r = Ok (full_context b (row_status r) receipt).
Proof.
  intros Hd. unfold row_to_context, decode_body. rewrite (dec_body _ _ Hd). cbn [map_err and_then].
  destruct (c_registry_receipt r) as [t|] eqn:Hrc; [|by exists None].
  destruct (dec_receipt _ _ Hd t Hrc) as (v & Hv). rewrite Hv. by exists (Some v).
Qed.

Lemma serve_body st now ctx slots : fc_body (serve st now ctx slots) = fc_body ctx.
Proof. unfold serve, attach_events, attach_event_receipts. by destruct (minting st). Qed.

Lemma serve_receipt st now ctx slots :
  fc_registry_receipt (serve st now ctx slots) = fc_registry_receipt ctx.
Proof. unfold serve, attach_events, attach_event_receipts. by destruct (minting st). Qed.

Lemma serve_events st now ctx slots :
  st_lifecycle_events (fc_state (serve st now ctx slots)) =
  if is_empty (map fst slots) then None else Some (map fst slots).
Proof. unfold serve, attach_events, attach_event_receipts. by destruct (minting st). Qed.

Lemma serve_status st now ctx slots :
  st_status (fc_state (serve st now ctx slots)) =
  project_status_inline (reconcile_retraction (st_status (fc_state ctx)) (map fst slots))
    (body_expires_at (fc_body ctx)) now.
Proof. unfold serve, attach_events, attach_event_receipts. by destruct (minting st). Qed.

(** Receipts are served for every event or not at all. *)
Lemma serve_receipts st now b status receipt slots rs :
  st_event_receipts (fc_state (serve st now (full_context b status receipt) slots)) = Some rs →
  length rs = length slots.
Proof.
  unfold serve, attach_events, attach_event_receipts. destruct (minting st); cbn; [|done].
  destruct slots as [|s slots]; cbn; [done|]. rewrite !length_map Nat.eqb_refl. cbn.
  destruct (_ && _) eqn:Hall; cbn; [|done]. intros [= <-].
  destruct s as [e s]. cbn in *. apply andb_true_iff in Hall as [Hs Hall].
  rewrite bool_decide_eq_true in Hs. destruct Hs as [r ->]. cbn. f_equal.
  induction slots as [|[e' s'] slots IH]; [done|]. cbn in *. apply andb_true_iff in Hall as [Hs' Hall].
  rewrite bool_decide_eq_true in Hs'. destruct Hs' as [r' ->]. cbn. f_equal. by apply IH.
Qed.

Lemma serve_no_events st now b status receipt :
  serve st now (full_context b status receipt) [] = project_context (full_context b status receipt) now.
Proof.
  unfold serve, reconcile_retraction. cbn [map]. rewrite retraction_state_nil orb_false_r.
  destruct (bool_decide _) eqn:Hb; bool_to_prop; cbn in *; subst;
    unfold attach_events, attach_event_receipts; by destruct (minting st).
Qed.

(** The events of any id can be read, whether it has a row or not. *)
Lemma events_readable db id :
  store_wf db →
  ∃ slots, slots_from_rows 0 (select_events id db) = Ok slots ∧ alternates (map fst slots) ∧
    ∀ r, r ∈ contexts db → c_ctx_id r = id →
      negb (c_retracted r =? 0)%Z = retraction_state (map fst slots).
Proof.
  intros Hwf. destruct (select_ctx id db) as [r|] eqn:Hr.
  - apply select_ctx_Some in Hr as [Hr <-]. destruct (wf_rows _ Hwf r Hr) as (b & slots & _ & Hh).
    exists slots. split; [apply Hh|]. split; [apply Hh|]. intros r' Hr' Hid.
    rewrite (published_same_id _ r' r (wf_published _ Hwf) Hr' Hr Hid). apply Hh.
  - apply select_ctx_None in Hr. exists []. rewrite no_events //. split; [done|].
    split; [by intros i e|]. intros r Hr' <-. destruct Hr. by apply list_elem_of_fmap_2.
Qed.

(** [get] answers with the row it found and the events it found. *)
Lemma get_serves st id now db db' :
  store_wf db → store_wf db' →
  match select_ctx id db with
  | None => get st id now db db' = Ok None
  | Some r => ∃ b receipt slots, decodes r b ∧
      row_to_context r = Ok (full_context b (row_status r) receipt) ∧
      slots_from_rows 0 (select_events id db') = Ok slots ∧ alternates (map fst slots) ∧
      get st id now db db' = Ok (Some (serve st now (full_context b (row_status r) receipt) slots))
  end.
Proof.
  intros Hwf Hwf'. unfold get. destruct (select_ctx id db) as [r|] eqn:Hr; [|done].
  apply select_ctx_Some in Hr as [Hr Hid]. destruct (wf_rows _ Hwf r Hr) as (b & _ & Hd & _).
  destruct (row_to_context_ok r b Hd) as (receipt & Hc).
  destruct (events_readable db' id Hwf') as (slots & Hsl & Halt & _).
  exists b, receipt, slots. rewrite Hc Hsl. done.
Qed.

(** ** Grouping the events of a lineage *)

(** [grouped] holds the slots of the rows read so far. *)
Definition groups (rows : list EventRow) (grouped : gmap string (list Slot)) : Prop :=
  ∀ c, slots_from_rows 0 (filter (λ e, e_ctx_id e = c) rows) = Ok (default [] (grouped !! c)) ∧
       grouped !! c ≠ Some [].

Lemma group_slots_spec rows : ∀ pre grouped,
  Forall (λ e, ∃ ev, written e ev) rows → groups pre grouped →
  ∃ g, group_slots rows grouped = Ok g ∧ groups (pre ++ rows) g.
Proof.
  induction rows as [|e rows IH]; intros pre grouped Hw Hg; cbn.
  { exists grouped. by rewrite app_nil_r. }
  apply Forall_cons in Hw as [(ev & Hev) Hw].
  destruct (Hg (e_ctx_id e)) as [Hsl _].
  destruct (slot_of_written e ev (length (default [] (grouped !! e_ctx_id e))) Hev) as (Hs & _).
  rewrite Hs. cbn [and_then].
  set (s := (ev, _)) in *. set (group := default [] (grouped !! e_ctx_id e)) in *.
  destruct (IH (pre ++ [e]) (<[e_ctx_id e := group ++ [s]]> grouped)) as (g & Hgs & Hgg); [done| |].
  - intros c. rewrite filter_app filter_cons filter_nil. destruct (Hg c) as [Hc Hne].
    destruct (decide (e_ctx_id e = c)) as [<-|Hdiff].
    + rewrite lookup_insert_eq. split; [|by intros [= [_ ?]%app_nil]].
      by apply slots_from_rows_snoc.
    + by rewrite lookup_insert_ne // app_nil_r.
  - exists g. split; [done|]. by rewrite -app_assoc in Hgg.
Qed.

(** The events of the contexts of a lineage, all of them. *)
Lemma filter_lineage_events db lin r :
  published (contexts db) → r ∈ contexts db → c_lineage_id r = lin →
  filter (λ e, e_ctx_id e = c_ctx_id r)
    (List.filter (λ e, existsb (λ c, bool_decide (c_ctx_id c = e_ctx_id e)
                                     && bool_decide (c_lineage_id c = lin)) (contexts db))
       (lifecycle_events db)) = select_events (c_ctx_id r) db.
Proof.
  intros Hp Hr Hl. unfold select_events. induction (lifecycle_events db) as [|e l IH]; [done|]. cbn [List.filter].
  destruct (existsb _ _) eqn:Hex; [by rewrite !filter_cons IH|].
  rewrite filter_cons_False; [done|]. intros Hc.
  rewrite -not_true_iff_false existsb_exists in Hex. apply Hex. exists r.
  split; [by apply list_elem_of_In|]. by rewrite !bool_decide_true.
Qed.

(** Rows stay, with their identity. *)
Definition grows (db db' : SqliteDb) : Prop :=
  ∀ r, r ∈ contexts db → ∃ r', r' ∈ contexts db' ∧ core r' = core r.

#[export] Instance grows_preorder : PreOrder grows.
Proof.
  split; [by intros db r Hr; exists r|]. intros d1 d2 d3 H12 H23 r Hr.
  destruct (H12 r Hr) as (r2 & Hr2 & Hc2). destruct (H23 r2 Hr2) as (r3 & Hr3 & Hc3).
  exists r3. split; [done|congruence].
Qed.

Lemma grows_map f db db' : keeps_row f → contexts db' = map f (contexts db) → grows db db'.
Proof.
  intros Hf Hc r Hr. exists (f r). rewrite Hc. split; [by apply list_elem_of_fmap_2|apply Hf].
Qed.

Lemma grows_same db db' : contexts db' = contexts db → grows db db'.
Proof. intros Hc. eapply (grows_map id); [apply keeps_row_id|by rewrite map_id]. Qed.

Lemma store_step_grows t db db' : store_wf db → store_step t db db' → grows db db'.
Proof.
  intros Hwf [st env commit ms draw|st env event Hm|env mint ctx_id report Hm
             | |ctx_id tenant|older batch]; [| | |by apply grows_same| |by apply grows_same].
  - destruct (commit_publish_state st env commit t ms draw db) as [->|(e & first & -> & _)]; [done|].
    intros r Hr. cbn. assert (contexts (after_lookup commit t db) = contexts db) as ->
      by (unfold after_lookup; by destruct (pc_idempotency commit) as [[? ?]|]).
    assert (core r ∈ map core (supersede (req_supersedes (pc_req commit)) (contexts db ++ [pe_row e])))
      as (r' & Hr' & Hin)%list_elem_of_fmap; [|by exists r'].
    rewrite core_supersede. apply list_elem_of_fmap_2. set_solver.
  - apply (transaction_preserves (grows db)); [done|]. intros out fs' db1 Hb.
    apply lifecycle_body_ok in Hb as (row & ctx & slots & _ & _ & _ & [(s & _ & _ & ?)|Hc]);
      [done| |done|by apply store_events_wf].
    destruct Hc as (_ & _ & plan & db2 & ev & feed & Heff & -> & _).
    eapply grows_map; [by apply (update_ctx_keeps (event_ctx_id event)), set_retracted_keeps|].
    cbn. by rewrite (ro_contexts _ _ (ee_receipts _ _ _ _ _ _ _ _ _ _ _ Heff)).
  - apply (transaction_preserves (grows db)); [done|].
    intros out fs' db1 (row & b & slots & fills & _ & _ & _ & _ & _ & Hro & _)%backfill_body_ok; [|done..].
    apply grows_same, Hro.
  - unfold set_tenant_of_ctx. case_bool_decide; [done|].
    by eapply grows_map; [apply (update_ctx_keeps ctx_id), (set_tenant_keeps tenant)|].
Qed.

Lemma store_run_grows P db db' : store_wf db → store_run P db db' → grows db db'.
Proof.
  intros Hwf Hrun. induction Hrun as [|d1 d2 d3 (t & _ & Hst) _ IH]; [done|].
  etrans; [by eapply store_step_grows|]. apply IH. by eapply store_step_wf.
Qed.

(** ** A lineage *)

(** A row as it is served from the events of [db']. *)
Definition served_row (st : SqliteStore) (now : Z) (db' : SqliteDb) (r : CtxRow) (full : FullContext) :
    Prop :=
  ∃ b receipt slots, decodes r b ∧
    slots_from_rows 0 (select_events (c_ctx_id r) db') = Ok slots ∧
    row_to_context r = Ok (full_context b (row_status r) receipt) ∧
    full = serve st now (full_context b (row_status r) receipt) slots.

Lemma lineage_contexts_ok st now db' rows : ∀ grouped,
  NoDup (map c_ctx_id rows) → (∀ r, r ∈ rows → ∃ b, decodes r b) →
  (∀ r, r ∈ rows →
     slots_from_rows 0 (select_events (c_ctx_id r) db') = Ok (default [] (grouped !! c_ctx_id r))) →
  ∃ all, lineage_contexts st now rows grouped = Ok all ∧ Forall2 (served_row st now db') rows all.
Proof.
  induction rows as [|r rows IH]; intros grouped Hnd Hdec Hsl; cbn; [by exists []|].
  apply NoDup_cons in Hnd as [Hn Hnd].
  destruct (Hdec r) as (b & Hd); [set_solver|]. destruct (row_to_context_ok r b Hd) as (receipt & Hc).
  rewrite Hc. cbn [and_then full_context fc_body]. rewrite (dec_ctx_id _ _ Hd).
  destruct (IH (delete (c_ctx_id r) grouped)) as (all & -> & Hall); [done|set_solver| |].
  { intros r' Hr'. rewrite lookup_delete_ne; [|intros Heq; apply Hn; rewrite Heq; by apply list_elem_of_fmap_2].
    apply Hsl. set_solver. }
  eexists. cbn [and_then]. split; [done|]. constructor; [|done].
  exists b, receipt, (default [] (grouped !! c_ctx_id r)).
  split; [done|]. split; [apply Hsl; set_solver|]. split; [done|].
  destruct (grouped !! c_ctx_id r) as [slots|]; [done|]. cbn [default]. by rewrite serve_no_events.
Qed.

Lemma select_lineage_ids lin db :
  published (contexts db) → NoDup (map c_ctx_id (select_lineage lin db)).
Proof.
  intros Hp%published_ids. unfold select_lineage.
  rewrite (merge_sort_Permutation version_order).
  induction (contexts db) as [|r l IH]; [constructor|]. cbn in Hp. apply NoDup_cons in Hp as [Hn Hnd].
  rewrite filter_cons. case_decide; [|by apply IH]. cbn. constructor; [|by apply IH].
  intros (x & Hx & [_ Hin]%list_elem_of_filter)%list_elem_of_fmap. apply Hn. rewrite Hx.
  by apply list_elem_of_fmap_2.
Qed.

Lemma lineage_serves st lin now db db' :
  store_wf db → store_wf db' → grows db db' →
  ∃ all, lineage st lin now db db' = Ok all ∧ Forall2 (served_row st now db') (select_lineage lin db) all.
Proof.
  intros Hwf Hwf' Hgrow. unfold lineage, events_for_lineage.
  set (rows := List.filter _ _).
  assert (groups [] ∅) as Hg0 by (intros c; by rewrite lookup_empty).
  destruct (group_slots_spec rows [] ∅) as (g & -> & Hg); [|done|].
  { apply Forall_forall. intros e He. apply (proj1 (store_events_wf _ Hwf')).
    apply list_elem_of_In, filter_In in He as [He _]. by apply list_elem_of_In. }
  cbn [and_then]. apply lineage_contexts_ok; [by apply select_lineage_ids, wf_published|..].
  - intros r [_ Hr]%elem_of_select_lineage. destruct (wf_rows _ Hwf r Hr) as (b & _ & Hd & _). by exists b.
  - intros r [Hl Hr]%elem_of_select_lineage. destruct (Hgrow r Hr) as (r' & Hr' & Hcore).
    injection Hcore as Hid Hlin _ _ _ _ _ _ _ _ _ _. rewrite -Hid. destruct (Hg (c_ctx_id r')) as [<- _].
    subst rows. rewrite filter_lineage_events; [done|by apply wf_published|done|congruence].
Qed.

(** The newest version of a lineage: the only row that is not superseded. *)
Lemma lineage_head db r :
  store_wf db → r ∈ contexts db →
  ∃ older h, select_lineage (c_lineage_id r) db = older ++ [h] ∧ c_status h = "active" ∧
    Forall (λ s, c_status s = "superseded" ∧ (c_version s < c_version h)%Z) older.
Proof.
  intros Hwf Hr. pose proof (wf_published _ Hwf) as Hp.
  pose proof (StronglySorted_merge_sort version_order
    (filter (λ x, c_lineage_id x = c_lineage_id r) (contexts db))) as Hsort.
  fold (select_lineage (c_lineage_id r) db) in Hsort.
  pose proof (select_lineage_ids (c_lineage_id r) db Hp) as Hnd.
  assert (r ∈ select_lineage (c_lineage_id r) db) as Hin by by apply elem_of_select_lineage.
  assert (∀ x, x ∈ select_lineage (c_lineage_id r) db →
    c_lineage_id x = c_lineage_id r ∧ x ∈ contexts db) as Hmem by (intros x; apply elem_of_select_lineage).
  assert (∀ x, c_lineage_id x = c_lineage_id r → x ∈ contexts db →
    x ∈ select_lineage (c_lineage_id r) db) as Hmem' by (intros x ? ?; by apply elem_of_select_lineage).
  destruct (select_lineage (c_lineage_id r) db) as [|h older _] using rev_ind; [by apply elem_of_nil in Hin|].
  destruct (Hmem h) as [Hhl Hh]; [set_solver|].
  assert (∀ s, s ∈ older → (c_version s < c_version h)%Z) as Hlt.
  { intros s Hs. destruct (Hmem s) as [Hsl Hsc]; [set_solver|].
    assert (version_order s h) as Hvo.
    { apply StronglySorted_app in Hsort as (Hx & _ & _). apply Hx; [done|set_solver]. }
    assert (c_version s ≠ c_version h) as Hne.
    { intros Heq. assert (s = h) as -> by (apply (published_version_unique (contexts db)); congruence).
      rewrite map_app in Hnd. apply NoDup_app in Hnd as (_ & Hno & _).
      apply (Hno (c_ctx_id h)); [by apply list_elem_of_fmap_2|set_solver]. }
    destruct Hvo as [?|[? _]]; lia. }
  exists older, h. split; [done|]. split.
  - destruct (wf_status _ Hwf h Hh) as [[_ (t & Ht & Hts)]|[? _]]; [|done]. exfalso.
    destruct (published_successor _ t _ Hp Ht Hts) as (q & Hq & Hqid & Hql & Hqv & _).
    assert (q = h) as -> by (apply (published_same_id (contexts db)); congruence).
    assert (t ∈ older ++ [h]) as Hto by (apply Hmem'; congruence).
    apply elem_of_app in Hto as [Hto%Hlt| ->%list_elem_of_singleton]; lia.
  - apply Forall_forall. intros s Hs. split; [|by apply Hlt].
    destruct (Hmem s) as [Hsl Hsc]; [set_solver|].
    destruct (published_continued _ Hp (Z.to_nat (c_version h - c_version s)) s h) as (t & Ht & Hts);
      [done|done|congruence|by apply Hlt|specialize (Hlt s Hs); lia|].
    destruct (wf_status _ Hwf s Hsc) as [[? _]|[_ Hno]]; [done|]. by apply Hno in Hts.
Qed.

(** A row is served as a head exactly when it is neither superseded nor retracted. *)
Lemma served_head st now db r full :
  store_wf db → r ∈ contexts db → served_row st now db r full →
  serves_as_head full = bool_decide (c_status r = "active") && (c_retracted r =? 0)%Z.
Proof.
  intros Hwf Hr (b & receipt & slots & Hd & Hsl & _ & ->). unfold serves_as_head.
  rewrite serve_status. cbn [fc_state full_context st_status fc_body].
  destruct (events_readable db (c_ctx_id r) Hwf) as (slots0 & Hsl0 & _ & Hflag).
  rewrite Hsl in Hsl0. injection Hsl0 as <-. specialize (Hflag r Hr eq_refl).
  unfold reconcile_retraction, row_status. rewrite -Hflag.
  destruct (c_retracted r =? 0)%Z eqn:Hz; cbn [negb].
  - destruct (wf_status _ Hwf r Hr) as [[-> _]|[-> _]]; [done|].
    change (parse_status "active") with Active. rewrite (bool_decide_false (Active = Retracted)) //.
    cbn [orb project_status_inline]. destruct (body_expires_at b); by case_ifs.
  - by rewrite andb_false_r orb_true_r.
Qed.

(** The head of a lineage. In every reachable store each lineage has exactly one
    row that is not superseded, its newest version; [current] answers with that
    context, as [get] would serve it, unless it is retracted, and then with none: an
    older version never comes back as the head. *)
Theorem current_is_the_newest_version (st : SqliteStore) (now : Z) (db : SqliteDb) (r : CtxRow) :
  reachable db → r ∈ contexts db →
  ∃ h, h ∈ contexts db ∧ c_lineage_id h = c_lineage_id r ∧ c_status h = "active" ∧
    (∀ s, s ∈ contexts db → c_lineage_id s = c_lineage_id r → s ≠ h →
       c_status s = "superseded" ∧ (c_version s < c_version h)%Z) ∧
    if (c_retracted h =? 0)%Z
    then ∃ full, current st (c_lineage_id r) now db db = Ok (Some full) ∧
           get st (c_ctx_id h) now db db = Ok (Some full) ∧
           body_ctx_id (fc_body full) = c_ctx_id h ∧ body_version (fc_body full) = c_version h
    else current st (c_lineage_id r) now db db = Ok None.
Proof.
  intros Hreach Hr. pose proof (reachable_wf _ Hreach) as Hwf.
  destruct (lineage_head db r Hwf Hr) as (older & h & Hsel & Hst & Hold).
  assert (∀ x, x ∈ older ++ [h] ↔ c_lineage_id x = c_lineage_id r ∧ x ∈ contexts db) as Hmem
    by (intros x; rewrite -Hsel; apply elem_of_select_lineage).
  destruct (proj1 (Hmem h)) as [Hhl Hh]; [set_solver|].
  exists h. split; [done|]. split; [done|]. split; [done|]. split.
  { intros s Hs Hsl Hne. rewrite Forall_forall in Hold. apply Hold.
    assert (s ∈ older ++ [h]) as [?|?%list_elem_of_singleton]%elem_of_app by by apply Hmem. done. done. }
  destruct (lineage_serves st (c_lineage_id r) now db db Hwf Hwf) as (all & Hlin & Hall); [done|].
  rewrite Hsel in Hall. apply Forall2_app_inv_l in Hall as (all' & last & Hall' & Hlast & ->).
  apply Forall2_cons_inv_l in Hlast as (full & nil & Hfull & Hnil & ->).
  apply Forall2_nil_inv_l in Hnil as ->.
  pose proof (served_head st now db h full Hwf Hh Hfull) as Hhead.
  rewrite Hst bool_decide_true // andb_true_l in Hhead.
  assert (List.find serves_as_head (rev all') = None) as Hnone.
  { destruct (List.find _ _) as [x|] eqn:Hf; [|done]. exfalso.
    apply List.find_some in Hf as [Hx%in_rev%list_elem_of_In Hserves].
    apply list_elem_of_lookup in Hx as [i Hi].
    destruct (Forall2_lookup_r _ _ _ _ _ Hall' Hi) as (s & Hs & Hsx).
    apply list_elem_of_lookup_2 in Hs. rewrite Forall_forall in Hold.
    destruct (proj1 (Hmem s)) as [_ Hsc]; [set_solver|].
    rewrite (served_head st now db s x Hwf Hsc Hsx) in Hserves. by destruct (Hold s Hs) as [Hss _]; rewrite Hss in Hserves. }
  assert (current st (c_lineage_id r) now db db =
          Ok (if serves_as_head full then Some full else None)) as Hcur.
  { unfold current. rewrite Hlin. cbn [and_then]. rewrite rev_app_distr. cbn [rev app List.find].
    destruct (serves_as_head full); [done|]. by rewrite Hnone. }
  rewrite Hcur Hhead. destruct (c_retracted h =? 0)%Z; [|done]. exists full. split; [done|].
  destruct Hfull as (b & receipt & slots & Hd & Hsl & Hc & ->).
  pose proof (get_serves st (c_ctx_id h) now db db Hwf Hwf) as Hget.
  rewrite (select_ctx_unique db h (wf_published _ Hwf) Hh) in Hget.
  destruct Hget as (b' & receipt' & slots' & Hd' & Hc' & Hsl' & _ & ->).
  rewrite Hsl in Hsl'. injection Hsl' as <-. rewrite Hc in Hc'. injection Hc' as <- <-.
  split; [done|]. rewrite serve_body. split; [apply Hd|apply Hd].
Qed.

(** C20: what a read serves agrees with itself, torn or not. [get] reads the row
    from one store and the events from a later one, with any steps in between; it
    still answers for the id asked for, serves the whole alternating history, serves
    receipts for all of it or none, and never serves another status than
    [Retracted] beside a history that ends in a retraction. When nothing is written
    in between, it serves [Retracted] exactly then. *)
Theorem served_context_is_consistent (st : SqliteStore) (id : string) (now : Z) (db db' : SqliteDb) :
  reachable db → store_run (λ _, True) db db' →
  ∃ answer, get st id now db db' = Ok answer ∧
    match answer with
    | None => id ∉ map c_ctx_id (contexts db)
    | Some full =>
        let events := default [] (st_lifecycle_events (fc_state full)) in
        body_ctx_id (fc_body full) = id ∧
        events = default [] (match slots_from_rows 0 (select_events id db') with
                             | Ok slots => Some (map fst slots)
                             | Err _ => None
                             end) ∧
        length events = length (select_events id db') ∧
        alternates events ∧
        (∀ rs, st_event_receipts (fc_state full) = Some rs → length rs = length events) ∧
        (retraction_state events = true → st_status (fc_state full) = Retracted) ∧
        (db' = db → st_status (fc_state full) = Retracted → retraction_state events = true)
    end.
Proof.
  intros Hreach Hrun. pose proof (reachable_wf _ Hreach) as Hwf.
  pose proof (store_run_wf _ _ _ Hrun Hwf) as Hwf'.
  pose proof (get_serves st id now db db' Hwf Hwf') as Hget.
  destruct (select_ctx id db) as [r|] eqn:Hsel;
    [|exists None; split; [done|by apply select_ctx_None]].
  destruct Hget as (b & receipt & slots & Hd & Hc & Hsl & Halt & Hget). eexists (Some _). split; [exact Hget|].
  cbv zeta. rewrite serve_events serve_status serve_body.
  apply select_ctx_Some in Hsel as [Hr Hid].
  assert (default [] (if is_empty (map fst slots) then None else Some (map fst slots)) = map fst slots)
    as -> by by destruct slots.
  rewrite Hsl. cbn [fc_body full_context fc_state st_status default].
  split; [rewrite (dec_ctx_id _ _ Hd); done|]. split; [done|].
  split; [rewrite length_map; by apply slots_from_rows_spec in Hsl as [-> _]|]. split; [done|].
  split; [intros rs Hrs; rewrite length_map; by eapply serve_receipts|]. split.
  - intros Hret. unfold reconcile_retraction. by rewrite Hret orb_true_r.
  - intros -> Hst. destruct (events_readable db id Hwf) as (slots0 & Hsl0 & _ & Hflag).
    rewrite Hsl in Hsl0. injection Hsl0 as <-. rewrite -(Hflag r Hr Hid).
    unfold reconcile_retraction, row_status in Hst. rewrite -(Hflag r Hr Hid) in Hst.
    destruct (negb (c_retracted r =? 0)%Z); [done|].
    destruct (wf_status _ Hwf r Hr) as [[Hs _]|[Hs _]]; rewrite Hs in Hst; [done|].
    change (parse_status "active") with Active in Hst.
    rewrite (bool_decide_false (Active = Retracted)) // in Hst.
    cbn [orb project_status_inline] in Hst. destruct (body_expires_at b); by case_ifs.
Qed.
End reads.
