(* ===== verification/SqliteTheorems.v ===== *)
(** * Publishing: the properties

    What the SQLite store promises a publisher: a publish happens whole or not at
    all and is served as it was sent, a retry under its key repeats the first answer,
    a predecessor is superseded by its own people only and is hidden from everyone
    else, and a keyless publish rests on an attestation that stands at that moment. *)

From S2P Require Import Prelude Text Errors ContextTypes ChangeBucket ChangeFeed FeedBackends.
From S2P Require Import EventReceipts KeyAttestations SqlTx SqliteStore SqlitePublish SqliteInvariants.
From S2P Require Import SqliteLifecycle SqliteReach SqliteReads.

Open Scope registry_scope.

Section theorems.
Context `{StoreCodec} `{PublishSdk} `{KeylessSdk}.
Context `{!StoreCodecLaws} `{!PublishSdkLaws} `{!EventSdkLaws}.

(** C7: every store the server can reach is well formed, under any sequence of
    publishes, lifecycle events, sweeps, evictions and prunes, with any clock, any
    failure of the driver and any reconfiguration between them: a lineage is a chain of
    consecutive versions without a fork, published by the predecessor's own people; a
    row is superseded exactly when it has a successor; every row decodes to the body
    it names; retractions and republications of a context alternate and its flag is
    their last word; no receipt is out of place; the log is dense with one leaf per
    context; and no token has minted two attestations. *)
Theorem reachable_stores_are_well_formed (db : SqliteDb) : reachable db → store_wf db.
Proof. apply reachable_wf. Qed.

(** ** Idempotency *)

Definition with_rows (f : list CtxRow → list CtxRow) {A} (r : result (A * Faults * SqliteDb) AcdpError) :
    result (A * Faults * SqliteDb) AcdpError :=
  match r with
  | Ok (a, fs, db) => Ok (a, fs, with_contexts f db)
  | Err e => Err e
  end.

(** The idempotency step does not look at the contexts. *)
Lemma idempotency_step_rows f req key now fs db :
  idempotency_step req key now fs (with_contexts f db) =
  with_rows f (idempotency_step req key now fs db).
Proof.
  unfold idempotency_step, query, execute, stmt, tx_bind, tx_lift, tx_ret.
  destruct fs as [|[m|] fs]; cbn; [|done|];
    [|destruct fs as [|[m|] fs]; cbn; [|done|]];
    (destruct (match idempotency_records db !! _ with Some _ => _ | None => _ end !! _) as [row|]; [|done]);
    (destruct (from_timestamp_millis _); cbn; [|done]);
    (destruct (now <? _)%Z; [|done]); (case_bool_decide; [|done]); by destruct (response_parse _).
Qed.

(** A live record is not lost to any step at a time before it expires. *)
Lemma record_kept t db db' k row :
  store_wf db → store_step t db db' → idempotency_records db !! k = Some row →
  (timestamp_millis t < i_expires_at_ms row)%Z → idempotency_records db' !! k = Some row.
Proof.
  intros Hwf Hstep Hrow Hlive.
  destruct Hstep as [st env commit ms draw|st env event Hm|env mint ctx_id report Hm| |ctx_id tenant|older batch].
  - destruct (commit_publish_state st env commit t ms draw db) as [->|(e & first & -> & Hok & _)]; [done|].
    pose proof (eo_free _ _ _ _ _ _ _ Hok) as Hfree. pose proof (eo_idem _ _ _ _ _ _ _ Hok) as Hidem.
    assert (idempotency_records (after_lookup commit t db) !! k = Some row) as Hkept.
    { unfold after_lookup. destruct (pc_idempotency commit) as [[key ttl]|]; [|done].
      unfold evict_key. cbn [idempotency_records with_idempotency].
      destruct (idempotency_records db !! (req_agent_id (pc_req commit), key)) as [r|] eqn:Hr; [|done].
      case_if; [|done].
      rewrite lookup_delete_ne; [done|]. intros Hk. assert (r = row) as <- by congruence. lia. }
    cbn. destruct (pc_idempotency commit) as [[key ttl]|] eqn:Hpc; [|by rewrite Hidem].
    destruct Hidem as (text & _ & ->). rewrite lookup_insert_ne; [done|].
    intros <-. specialize (Hfree key ttl eq_refl). congruence.
  - apply (transaction_preserves (λ d, idempotency_records d !! k = Some row)); [done|].
    intros out fs' db1 Hb. apply lifecycle_body_ok in Hb as (r & ctx & slots & _ & _ & _ & [(s & _ & _ & ?)|Hc]);
      [done| |done|by apply store_events_wf].
    destruct Hc as (_ & _ & plan & db2 & ev & feed & Heff & -> & _). cbn.
    by rewrite (ro_idempotency _ _ (ee_receipts _ _ _ _ _ _ _ _ _ _ _ Heff)).
  - apply (transaction_preserves (λ d, idempotency_records d !! k = Some row)); [done|].
    intros out fs' db1 (r & b & slots & fills & _ & _ & _ & _ & _ & Hro & _)%backfill_body_ok; [|done..].
    by rewrite (ro_idempotency _ _ Hro).
  - cbn. apply map_lookup_filter_Some. split; [done|]. cbn. lia.
  - unfold set_tenant_of_ctx. by case_bool_decide.
  - done.
Qed.

Lemma record_kept_run T k row db db' :
  store_wf db → store_run (λ t, (timestamp_millis t < T)%Z) db db' →
  idempotency_records db !! k = Some row → i_expires_at_ms row = T →
  idempotency_records db' !! k = Some row.
Proof.
  intros Hwf Hrun. revert Hwf. induction Hrun as [|d1 d2 d3 (t & Ht & Hst) _ IH]; [done|].
  intros Hwf Hrow HT. apply IH; [by eapply store_step_wf|by eapply record_kept; [..|rewrite HT]|done].
Qed.

(** With a live record of its key, a publish ends in step 1. *)
Lemma publish_with_live_record st env commit key ttl now ms draw db row :
  pc_idempotency commit = Some (key, ttl) →
  idempotency_records db !! (req_agent_id (pc_req commit), key) = Some row →
  (timestamp_millis now < i_expires_at_ms row)%Z →
  let same := bool_decide (i_content_hash row = req_content_hash (pc_req commit)) in
  let '(answer, db') := commit_publish st env commit now ms draw db in
  db' = db ∧
  match answer with
  | Ok (IdempotentReplay r) => same = true ∧ response_parse (i_response_json row) = Ok r
  | Ok (Inserted _) => False
  | Err e => (∃ m, e = RegistryInternal m) ∨
             same = false ∧ e = duplicate_publish key (req_agent_id (pc_req commit))
  end ∧
  (tx_begin env = None → tx_faults env = [] →
   is_Some (from_timestamp_millis (i_expires_at_ms row)) →
   ∀ r, response_parse (i_response_json row) = Ok r →
   answer = if same then Ok (IdempotentReplay r)
            else Err (duplicate_publish key (req_agent_id (pc_req commit)))).
Proof.
  intros Hpc Hrow Hlive same. unfold commit_publish, transaction.
  destruct (tx_begin env) as [m|]; [split; [done|]; split; [by left; eauto|done]|].
  assert (∀ exp, from_timestamp_millis (i_expires_at_ms row) = Some exp → (now <? exp)%Z = true) as Hexp.
  { intros exp ->%millis_inverse. apply Z.ltb_lt. unfold timestamp_millis, ns_per_ms in *.
    pose proof (Z.mod_pos_bound now 1000000). pose proof (Z.div_mod now 1000000). nia. }
  unfold publish_body. rewrite Hpc. unfold idempotency_step, query, execute, stmt, tx_bind, tx_lift, tx_ret.
  assert ((if (i_expires_at_ms row <=? timestamp_millis now)%Z
           then delete (req_agent_id (pc_req commit), key) (idempotency_records db)
           else idempotency_records db) = idempotency_records db) as Hev
    by (rewrite (proj2 (Z.leb_gt _ _)); [done|lia]).
  destruct (tx_faults env) as [|[m|] fs]; [|split; [done|]; split; [by left; eauto|done]|];
    [|destruct fs as [|[m|] fs]; [|split; [done|]; split; [by left; eauto|done]|]];
    cbn; rewrite Hrow Hev Hrow;
    (destruct (from_timestamp_millis _) as [exp|] eqn:Hf; cbn;
      [rewrite (Hexp exp eq_refl)|split; [done|]; split; [by left; eauto|by intros _ _ [? ?]]]);
    subst same; (destruct (bool_decide _) eqn:Hsame; cbn);
    try (split; [done|]; split; [by right|done]);
    (destruct (response_parse _) as [r|] eqn:Hr; cbn; (split; [done|]);
      [split; [done|by intros _ _ _ ? [= <-]]|split; [by left; eauto|done]]).
Qed.

(** The record a publish under a key leaves. *)
Lemma inserted_record st env commit key ttl now ms draw db db1 resp :
  pc_idempotency commit = Some (key, ttl) →
  commit_publish st env commit now ms draw db = (Ok (Inserted resp), db1) →
  ∃ text, response_parse text = Ok resp ∧
    idempotency_records db1 !! (req_agent_id (pc_req commit), key) =
      Some (mkIdemRow (req_content_hash (pc_req commit)) text (timestamp_millis (now + ttl))).
Proof.
  intros Hpc Hpub.
  apply commit_publish_ok in Hpub as [(r & ? & _)|(e & first & Hresp & -> & Hok & _)]; [done|].
  injection Hresp as Hresp. pose proof (eo_idem _ _ _ _ _ _ _ Hok) as Hidem. rewrite Hpc in Hidem.
  destruct Hidem as (text & Htext & Hclaim). exists text.
  apply response_inverse in Htext. rewrite -Hresp in Htext. split; [done|]. cbn. rewrite Hclaim. apply lookup_insert_eq.
Qed.

(** C6: a retry repeats the answer of the first publish. Once a publish under an
    idempotency key has been answered, then until the key expires, and whatever else
    the server does in the meantime, a publish of the same agent under that key
    writes nothing: with the same content hash it is answered with the very same
    response, with another one it is refused as a duplicate, and the only other
    outcome is an internal error. *)
Theorem retry_repeats_the_first_answer (st st' : SqliteStore) (env env' : TxEnv)
    (commit commit' : PublishCommit) (key : string) (ttl ttl' now now' ms ms' draw draw' : Z)
    (db db1 db2 : SqliteDb) (resp : PublishResponse) :
  reachable db → pc_idempotency commit = Some (key, ttl) →
  commit_publish st env commit now ms draw db = (Ok (Inserted resp), db1) →
  let expiry := timestamp_millis (now + ttl) in
  store_run (λ t, (timestamp_millis t < expiry)%Z) db1 db2 →
  pc_idempotency commit' = Some (key, ttl') →
  req_agent_id (pc_req commit') = req_agent_id (pc_req commit) →
  (timestamp_millis now' < expiry)%Z →
  let same := bool_decide (req_content_hash (pc_req commit) = req_content_hash (pc_req commit')) in
  let '(answer, db3) := commit_publish st' env' commit' now' ms' draw' db2 in
  db3 = db2 ∧
  match answer with
  | Ok (IdempotentReplay r) => same = true ∧ r = resp
  | Ok (Inserted _) => False
  | Err e => (∃ m, e = RegistryInternal m) ∨
             same = false ∧ e = duplicate_publish key (req_agent_id (pc_req commit))
  end ∧
  (tx_begin env' = None → tx_faults env' = [] → is_Some (from_timestamp_millis expiry) →
   answer = if same then Ok (IdempotentReplay resp)
            else Err (duplicate_publish key (req_agent_id (pc_req commit)))).
Proof.
  intros Hreach Hpc Hpub expiry Hrun Hpc' Hagent Hnow same. pose proof (reachable_wf _ Hreach) as Hwf.
  assert (store_wf db1) as Hwf1.
  { change db1 with (Ok (E := AcdpError) (Inserted resp), db1).2. rewrite -Hpub. by apply commit_publish_wf. }
  destruct (inserted_record _ _ _ _ _ _ _ _ _ _ _ Hpc Hpub) as (text & Htext & Hclaim).
  assert (idempotency_records db2 !! (req_agent_id (pc_req commit'), key) =
          Some (mkIdemRow (req_content_hash (pc_req commit)) text expiry)) as Hrow.
  { eapply record_kept_run; [exact Hwf1|exact Hrun| |done]. by rewrite Hagent. }
  pose proof (publish_with_live_record st' env' commit' key ttl' now' ms' draw' db2 _ Hpc' Hrow Hnow) as Hlive.
  cbn [i_content_hash i_response_json i_expires_at_ms] in Hlive. fold same in Hlive. rewrite Hagent in Hlive.
  destruct (commit_publish st' env' commit' now' ms' draw' db2) as [answer db3].
  destruct Hlive as (-> & Hans & Hclean). split; [done|]. split; [|by eauto].
  destruct answer as [[r|r]|]; [done| |done]. destruct Hans as [? Hr]. split; [done|congruence].
Qed.

(** ** What a publish leaves *)

Lemma after_lookup_tables commit now db :
  contexts (after_lookup commit now db) = contexts db ∧
  lifecycle_events (after_lookup commit now db) = lifecycle_events db ∧
  key_attestations (after_lookup commit now db) = key_attestations db ∧
  log_leaves (after_lookup commit now db) = log_leaves db ∧
  changes_db (after_lookup commit now db) = changes_db db.
Proof. unfold after_lookup. by destruct (pc_idempotency commit) as [[key ttl]|]. Qed.

(** The new context is read back from the tables of its effect. *)
Lemma published_is_served st st' commit first now now' ms draw db e :
  store_wf db → effect_ok st commit first now draw (after_lookup commit now db) e →
  predecessor_ok commit first (after_lookup commit now db) →
  let db' := apply_effect (pc_req commit) ms e (after_lookup commit now db) in
  get st' (body_ctx_id (pe_body e)) now' db' db' =
  Ok (Some (full_context (pe_body e) (project_status_inline Active (body_expires_at (pe_body e)) now')
              (pe_receipt e))).
Proof.
  intros Hwf Hok Hpred db'.
  pose proof (after_lookup_wf commit now db Hwf) as Hwf0.
  assert (store_wf db') as Hwf' by by eapply effect_wf.
  destruct (effect_row st commit first now draw _ e Hok)
    as (Hid & _ & _ & _ & Hsup & Hst & Hret & _ & Hrc & Hd).
  pose proof (effect_ids st commit first now draw _ e Hok) as Hfresh.
  pose proof (effect_not_own_predecessor st commit first now draw _ e Hok Hpred) as Hnot.
  assert (pe_row e ∈ contexts db') as Hin.
  { apply elem_of_supersede. exists (pe_row e). split; [set_solver|]. by rewrite bool_decide_false. }
  pose proof (get_serves st' (body_ctx_id (pe_body e)) now' db' db' Hwf' Hwf') as Hget.
  rewrite -Hid (select_ctx_unique db' (pe_row e) (wf_published _ Hwf') Hin) in Hget.
  destruct Hget as (b & receipt & slots & Hd' & Hc & Hsl & _ & Hget). rewrite -Hid Hget.
  assert (b = pe_body e) as -> by (destruct Hd, Hd'; congruence).
  change (select_events (c_ctx_id (pe_row e)) db')
    with (select_events (c_ctx_id (pe_row e)) (after_lookup commit now db)) in Hsl.
  rewrite (no_events _ _ Hwf0 Hfresh) in Hsl. injection Hsl as <-. rewrite serve_no_events.
  assert (receipt = pe_receipt e) as ->; [|unfold row_status; by rewrite Hret Hst].
  unfold row_to_context, decode_body in Hc. rewrite (dec_body _ _ Hd) Hrc in Hc.
  destruct (pe_receipt e) as [v|]; cbn in Hc; [rewrite value_inverse in Hc|]; cbn in Hc; by injection Hc.
Qed.

(** The context a publish supersedes, with its producer, from the tables before it. *)
Definition replaced (commit : PublishCommit) (db : SqliteDb) : option Predecessor :=
  match req_supersedes (pc_req commit) with
  | Some prev => (λ r, mkPredecessor prev (c_agent_id r)) <$> select_ctx prev db
  | None => None
  end.

Lemma find_supersede p l l' r :
  List.find (λ r, bool_decide (c_ctx_id r = p)) l = Some r →
  List.find (λ r, bool_decide (c_ctx_id r = p)) (supersede (Some p) (l ++ l')) = Some (set_status "superseded" r).
Proof.
  intros Hf. unfold supersede. rewrite map_app. induction l as [|x l IH]; [done|]. cbn in Hf |- *.
  destruct (decide (c_ctx_id x = p)) as [Hx|Hx].
  - rewrite bool_decide_true // in Hf. injection Hf as ->. rewrite (bool_decide_true _ Hx). cbn.
    by rewrite bool_decide_true.
  - rewrite bool_decide_false // in Hf. rewrite (bool_decide_false _ Hx). cbn. rewrite bool_decide_false //. by apply IH.
Qed.

(** The feed rows of a publish are derived from the predecessor it found. *)
Lemma effect_feed st commit first now draw db e :
  effect_ok st commit first now draw (after_lookup commit now db) e →
  predecessor_ok commit first (after_lookup commit now db) →
  feed_appends_for_publish (pe_body e) (pe_receipt e) (replaced commit db) = Ok (pe_rows e).
Proof.
  intros Hok Hpred. destruct (eo_feed _ _ _ _ _ _ _ Hok) as (pred & Hrows & Hp).
  destruct (pe_receipt e) as [v|] eqn:Hr; [|exact Hrows]. specialize (Hp ltac:(done)).
  destruct (after_lookup_tables commit now db) as (Hcx & _).
  unfold replaced, predecessor_ok in *. destruct (req_supersedes (pc_req commit)) as [prev|]; [|by subst].
  destruct Hpred as (row & cs & Hsel & _). destruct Hp as (r & Hfind & ->).
  unfold select_ctx in *. rewrite (find_supersede _ _ _ row Hsel) in Hfind. injection Hfind as <-.
  rewrite Hcx in Hsel. by rewrite Hsel.
Qed.

(** Nobody else's idempotency record is touched. *)
Lemma effect_other_records st commit first now ms draw db e k :
  effect_ok st commit first now draw (after_lookup commit now db) e →
  (∀ key ttl, pc_idempotency commit = Some (key, ttl) → k ≠ (req_agent_id (pc_req commit), key)) →
  idempotency_records (apply_effect (pc_req commit) ms e (after_lookup commit now db)) !! k =
    idempotency_records db !! k.
Proof.
  intros Hok Hk. pose proof (eo_idem _ _ _ _ _ _ _ Hok) as Hidem. cbn. unfold after_lookup.
  destruct (pc_idempotency commit) as [[key ttl]|]; [|by rewrite Hidem].
  destruct Hidem as (text & _ & ->). specialize (Hk key ttl eq_refl).
  rewrite lookup_insert_ne; [|congruence]. cbn. repeat case_match; try done. by rewrite lookup_delete_ne.
Qed.

(** C3: a publish happens whole or not at all. When it is answered as inserted, the
    context is there to be read, as the request built it and with the receipt of the
    answer, active until its expiry and without events; the contexts are those before,
    with the predecessor marked superseded and one row more, and so every other row is as it was; no event is
    added; the attestation index has gained the row of this body where it has one, and
    nothing else; the log, when kept, has one new leaf at its end, of this body and
    receipt; the feed has exactly the rows derived from this body, its receipt and the
    context it superseded, at the time under the write lock; the key's record holds the
    answer, its hash and its expiry, and every other record is as it was. A refusal
    leaves every table as it was, unless it is the commit itself whose reply was
    lost; a replay always does. *)
Theorem publish_is_whole (st st' : SqliteStore) (env : TxEnv) (commit : PublishCommit)
    (now now' ms draw : Z) (db : SqliteDb) :
  reachable db →
  let '(answer, db') := commit_publish st env commit now ms draw db in
  match answer with
  | Err _ => db' = db ∨ ∃ m, tx_commit env = CommitLost m
  | Ok (IdempotentReplay _) => db' = db
  | Ok (Inserted resp) =>
      ∃ body row index rows,
        body = from_publish_request (pc_req commit) (resp_ctx_id resp) (resp_lineage_id resp)
                 (pc_authority commit) (trunc_ms now) ∧
        get st' (resp_ctx_id resp) now' db' db' =
          Ok (Some (full_context body (project_status_inline Active (body_expires_at body) now')
                      (resp_registry_receipt resp))) ∧
        (∀ r, r ∈ contexts db → req_supersedes (pc_req commit) ≠ Some (c_ctx_id r) → r ∈ contexts db') ∧
        length (contexts db') = S (length (contexts db)) ∧
        c_ctx_id row = resp_ctx_id resp ∧
        contexts db' = supersede (req_supersedes (pc_req commit)) (contexts db ++ [row]) ∧
        lifecycle_events db' = lifecycle_events db ∧
        index_row_for body (pc_authority commit) = Ok index ∧
        key_attestations db' = key_attestations db ++ match index with Some r => [att_row r] | None => [] end ∧
        (if log_enabled st
         then ∃ v l, log_leaves db' = log_leaves db ++ [l] ∧ l_ctx_id l = resp_ctx_id resp ∧
                l_index l = Z.of_nat (length (log_leaves db)) ∧
                resp_registry_receipt resp = Some v ∧
                build_leaf_record body v = Ok (l_json l, l_hash l)
         else log_leaves db' = log_leaves db) ∧
        feed_appends_for_publish body (resp_registry_receipt resp) (replaced commit db) = Ok rows ∧
        changes_db db' = sqlite_feed_append value_text (changes_db db) ms rows ∧
        (∀ key ttl, pc_idempotency commit = Some (key, ttl) →
           ∃ row, idempotency_records db' !! (req_agent_id (pc_req commit), key) = Some row ∧
             response_parse (i_response_json row) = Ok resp ∧
             i_content_hash row = req_content_hash (pc_req commit) ∧
             i_expires_at_ms row = timestamp_millis (now + ttl)) ∧
        (∀ k, (∀ key ttl, pc_idempotency commit = Some (key, ttl) → k ≠ (req_agent_id (pc_req commit), key)) →
           idempotency_records db' !! k = idempotency_records db !! k)
  end.
Proof.
  intros Hreach. pose proof (reachable_wf _ Hreach) as Hwf.
  destruct (commit_publish st env commit now ms draw db) as [answer db'] eqn:Hpub.
  destruct answer as [[resp|resp]|err].
  - apply commit_publish_ok in Hpub as [(r & ? & _)|(e & first & Hresp & -> & Hok & Hpred)]; [done|].
    injection Hresp as ->.
    destruct (after_lookup_tables commit now db) as (Hcx & Hev & Hat & Hlv & Hch).
    destruct (eo_built _ _ _ _ _ _ _ Hok) as (ctx & lin & _ & Hbody).
    destruct (effect_row st commit first now draw _ e Hok) as (Hid & _).
    cbn [resp_ctx_id resp_lineage_id resp_registry_receipt publish_response].
    exists (pe_body e), (pe_row e), (pe_attestation e), (pe_rows e).
    split; [rewrite Hbody built_ctx_id built_lineage_id; done|]. split; [by eapply published_is_served|].
    split_and!.
    + intros r Hr Hne. cbn. apply elem_of_supersede. exists r. rewrite Hcx.
      split; [set_solver|]. by rewrite bool_decide_false.
    + cbn. rewrite -(length_map core) core_supersede length_map length_app Hcx /=. lia.
    + done.
    + cbn. by rewrite Hcx.
    + done.
    + by destruct (eo_attestation _ _ _ _ _ _ _ Hok).
    + cbn. by rewrite Hat.
    + pose proof (eo_leaf _ _ _ _ _ _ _ Hok) as Hleaf. cbn. rewrite Hlv.
      destruct (log_enabled st); [|by rewrite Hleaf app_nil_r].
      destruct Hleaf as (v & json & hash & Hrc & -> & Hbuild & _). by exists v; eexists.
    + by eapply effect_feed.
    + cbn. by rewrite Hch.
    + intros key ttl Hkey. pose proof (eo_idem _ _ _ _ _ _ _ Hok) as Hidem. rewrite Hkey in Hidem.
      destruct Hidem as (text & Htext & Hcl). cbn. rewrite Hcl. eexists.
      split; [apply lookup_insert_eq|]. split; [by apply response_inverse|done].
    + intros k. by eapply effect_other_records.
  - apply commit_publish_ok in Hpub as [(r & _ & -> & _)|(e & first & ? & _)]; done.
  - unfold commit_publish, transaction in Hpub. destruct (tx_begin env); [left; congruence|].
    destruct (publish_body _ _ _ _ _ _ _) as [[[[a|k] fs'] db1]|]; [|left; congruence..].
    destruct (tx_commit env) as [|m|m] eqn:Hc; [done|left; congruence|right; by exists m].
Qed.

(** ** Predecessors *)

(** Who may supersede a row: its producer and its contributors, in its tenant. *)
Definition may_continue (commit : PublishCommit) (row : CtxRow) (body : Body) : Prop :=
  (∀ t, pc_tenant commit = Some t → c_tenant_id row = t) ∧
  (c_agent_id row = req_agent_id (pc_req commit) ∨
   req_agent_id (pc_req commit) ∈ body_contributors body).

(** Step 2 on a predecessor the caller may not continue: the same answer as on one
    that does not exist. *)
Lemma foreign_supersession commit prev row body fs db db0 :
  select_ctx prev db = Some row → decodes row body → ¬ may_continue commit row body →
  select_ctx prev db0 = None →
  ∃ e, supersession_step commit prev fs db = Err e ∧ supersession_step commit prev fs db0 = Err e.
Proof.
  intros Hrow Hd Hno Hnone. unfold supersession_step, query, stmt, tx_bind, tx_lift.
  destruct fs as [|[m|] fs]; [|by eexists|]; rewrite Hrow Hnone (dec_contributors _ _ Hd); cbn [map_err];
    (destruct (match pc_tenant commit with Some _ => _ | None => _ end) eqn:Htn; [by eexists|]);
    (destruct (negb _) eqn:Hown; [by eexists|]);
    exfalso; apply Hno; bool_to_prop; (split; [intros t Ht; rewrite Ht in Htn; by bool_to_prop|]);
    by rewrite !bool_decide_eq_true in Hown.
Qed.

(** C4: a predecessor is nobody else's business. A publish that succeeds over a
    predecessor comes from its producer or a contributor, in its tenant when tenants
    are enforced, and takes over its lineage at the next version; for everyone else
    the store behaves as if the context did not exist: the answer is the one it gives
    with the row taken out, and nothing is written. *)
Theorem predecessors_are_hidden_from_others (st : SqliteStore) (env : TxEnv) (commit : PublishCommit)
    (prev : string) (now ms draw : Z) (db : SqliteDb) :
  reachable db → req_supersedes (pc_req commit) = Some prev →
  (∀ resp db', commit_publish st env commit now ms draw db = (Ok (Inserted resp), db') →
     ∃ row body, select_ctx prev db = Some row ∧ decodes row body ∧ may_continue commit row body ∧
       c_status row = "active" ∧ resp_lineage_id resp = c_lineage_id row ∧
       resp_version resp = (c_version row + 1)%Z ∧
       select_ctx prev db' = Some (set_status "superseded" row)) ∧
  (∀ row body, select_ctx prev db = Some row → decodes row body → ¬ may_continue commit row body →
     let without := with_contexts (filter (λ r, c_ctx_id r ≠ prev)) db in
     commit_publish st env commit now ms draw db =
       ((commit_publish st env commit now ms draw without).1, db) ∧
     (commit_publish st env commit now ms draw without).2 = without).
Proof.
  intros Hreach Hsup. pose proof (reachable_wf _ Hreach) as Hwf. split.
  - intros resp db' Hpub. assert (store_wf db') as Hwf'.
    { change db' with (Ok (E := AcdpError) (Inserted resp), db').2. rewrite -Hpub. by apply commit_publish_wf. }
    apply commit_publish_ok in Hpub as [(r & ? & _)|(e & first & Hresp & -> & Hok & Hpred)]; [done|].
    injection Hresp as ->. pose proof (after_lookup_wf commit now db Hwf) as Hwf0.
    pose proof (effect_published st commit first now draw _ e Hwf0 Hok Hpred) as Hpubl.
    destruct (effect_row st commit first now draw _ e Hok) as (_ & Hlin & _ & _ & Hs & _).
    unfold predecessor_ok in Hpred. rewrite Hsup in Hpred.
    destruct Hpred as (row & cs & Hrow & Hcs & Htn & Hown & _ & Hv & Hst & _).
    destruct (after_lookup_tables commit now db) as (Hcx & _).
    assert (select_ctx prev db = Some row) as Hrow' by (unfold select_ctx in *; by rewrite -Hcx).
    apply select_ctx_Some in Hrow' as Hmem. destruct Hmem as [Hin Hid].
    destruct (wf_rows _ Hwf row Hin) as (body & _ & Hd & _). exists row, body.
    split; [done|]. split; [done|]. rewrite (dec_contributors _ _ Hd) in Hcs. injection Hcs as <-.
    split; [done|]. destruct (wf_status _ Hwf row Hin) as [[? _]|[Hact _]]; [done|]. split; [done|].
    cbn [publish_response resp_lineage_id resp_version]. split; [|split; [done|]].
    + rewrite -Hlin. destruct (published_successor _ (pe_row e) prev Hpubl) as (q & Hq & Hqid & Hql & _);
        [set_solver|congruence|]. rewrite -Hql. f_equal.
      apply (published_same_id _ _ _ Hpubl); [done|rewrite Hcx; set_solver|congruence].
    + rewrite -Hid. change (c_ctx_id row) with (c_ctx_id (set_status "superseded" row)).
      apply select_ctx_unique; [by apply wf_published|]. cbn. apply elem_of_supersede. exists row.
      rewrite Hcx Hsup Hid bool_decide_true //. split; [set_solver|done].
  - intros row body Hrow Hd Hno without. unfold commit_publish, transaction.
    destruct (tx_begin env) as [m|]; [done|]. unfold publish_body, tx_bind. rewrite Hsup.
    assert (∀ d : SqliteDb, contexts d = contexts db →
      select_ctx prev d = Some row ∧ select_ctx prev (with_contexts (filter (λ r, c_ctx_id r ≠ prev)) d) = None)
      as Hsel.
    { intros d Hc. split; [unfold select_ctx in *; by rewrite Hc|]. apply select_ctx_None. cbn.
      by intros (r & -> & [? _]%list_elem_of_filter)%list_elem_of_fmap. }
    destruct (pc_idempotency commit) as [[key ttl]|]; cycle 1.
    { unfold tx_ret. destruct (Hsel db eq_refl) as [? ?].
      by destruct (foreign_supersession commit prev row body (tx_faults env) db without)
        as (e & -> & ->). }
    subst without. rewrite idempotency_step_rows.
    destruct (idempotency_step (pc_req commit) key now (tx_faults env) db)
      as [[[replay fs1] d1]|] eqn:Hidem; [|done]. cbn [with_rows].
    destruct replay as [resp|]; [done|].
    apply idempotency_step_none in Hidem as [-> _].
    destruct (Hsel (evict_key (pc_req commit) key now db) eq_refl) as [? ?].
    by destruct (foreign_supersession commit prev row body fs1 (evict_key (pc_req commit) key now db)
      (with_contexts (filter (λ r, c_ctx_id r ≠ prev)) (evict_key (pc_req commit) key now db)))
      as (e & -> & ->).
Qed.

(** ** Keyless publishing *)

Lemma successor_ok att fs db s fs' :
  successor att fs db = Ok (Some s, fs', db) →
  ∃ k c, k ∈ key_attestations db ∧ k_ctx_id k = att ∧ select_ctx att db = Some c ∧
    index_row k = Ok (sa_row s) ∧ sa_withdrawn s = negb (c_retracted c =? 0)%Z.
Proof.
  unfold successor. intros Hs. inv_tx.
  destruct (List.find _ (key_attestations db)) as [k|] eqn:Hk; [|by inv_tx].
  destruct (select_ctx att db) as [c|] eqn:Hc; [|by inv_tx]. inv_tx.
  apply List.find_some in Hk as [Hk Hid]. apply bool_decide_eq_true in Hid.
  exists k, c. split; [by apply list_elem_of_In|]. by simplify_eq.
Qed.

(** C24: a publish signed with an attested key rests on a standing attestation. When a
    request whose signature uses a keyless key and that names an attestation is
    inserted, the store holds that attestation at that moment: minted by one token
    that minted no other, for this agent, this key and this algorithm, not retracted,
    and valid at the new context's [created_at]; the key id is the one derived from
    the attested fingerprint. *)
Theorem keyless_publish_is_attested (st : SqliteStore) (env : TxEnv) (commit : PublishCommit)
    (att : string) (now ms draw : Z) (db db' : SqliteDb) (resp : PublishResponse) :
  reachable db → keyless_successor (pc_req commit) = Some att →
  commit_publish st env commit now ms draw db = (Ok (Inserted resp), db') →
  ∃ k c row, k ∈ key_attestations db ∧ k = att_row row ∧ ir_ctx_id row = att ∧
    c ∈ contexts db ∧ c_ctx_id c = att ∧ c_retracted c = 0%Z ∧
    (∀ k', k' ∈ key_attestations db → k_token_hash k' = k_token_hash k → k' = k) ∧
    req_agent_id (pc_req commit) = ir_controller row ∧
    sig_key_id (req_signature (pc_req commit)) = ir_key_id row ∧
    sig_algorithm (req_signature (pc_req commit)) = ir_algorithm row ∧
    keyless_key_id (ir_controller row) (ir_key_fingerprint row) =
      Ok (sig_key_id (req_signature (pc_req commit))) ∧
    (ir_not_before_ms row ≤ timestamp_millis (resp_created_at resp) < ir_not_after_ms row)%Z.
Proof.
  intros Hreach Hatt Hpub. pose proof (reachable_wf _ Hreach) as Hwf.
  apply commit_publish_ok in Hpub as [(r & ? & _)|(e & first & Hresp & -> & Hok & _)]; [done|].
  injection Hresp as ->. destruct (after_lookup_tables commit now db) as (Hcx & _ & Hka & _).
  destruct (eo_keyless _ _ _ _ _ _ _ Hok att Hatt) as (s & fs0 & fs1 & Hs & Hadm & Hwin).
  apply successor_ok in Hs as (k & c & Hk & Hkid & Hc & Hix & Hwd).
  apply admit_successor_ok in Hadm as (_ & Hnw & Hag & Hkey & Halg & Hder).
  rewrite Hka in Hk. apply select_ctx_Some in Hc as [Hc Hcid]. rewrite Hcx in Hc.
  destruct (wf_att_rows _ Hwf k Hk) as [(row & -> & _) _].
  assert (sa_row s = row) as Hsrow.
  { unfold index_row in Hix. cbn in Hix. rewrite identity_columns_roundtrip in Hix. cbn in Hix.
    injection Hix as <-. destruct row as [? ? ? org]. by destruct org. }
  rewrite Hsrow in Hag, Hkey, Halg, Hder, Hwin.
  exists (att_row row), c, row. split; [done|]. split; [done|]. split; [done|]. split; [done|].
  split; [done|]. split.
  { rewrite Hwd in Hnw. bool_to_prop. done. }
  split.
  { intros k' Hk' Htok. pose proof (wf_tokens _ Hwf) as Hnd.
    apply list_elem_of_lookup in Hk as [i Hi]. apply list_elem_of_lookup in Hk' as [j Hj].
    assert (i = j) as <-; [|congruence].
    eapply NoDup_lookup; [exact Hnd|rewrite list_lookup_fmap Hi; done|by rewrite list_lookup_fmap Hj /= Htok]. }
  split; [done|]. split; [done|]. split; [done|]. split; [done|].
  cbn [publish_response resp_created_at]. unfold window_contains in Hwin. bool_to_prop. lia.
Qed.
End theorems.
