(* ===== verification/SqliteListing.v ===== *)
(** * Listings, disclosure and the log of the SQLite store

    The reads of [acdp-registry-sqlite/src/store.rs] and [keyless.rs] that go over
    many rows: [list_contexts] and the listing of key attestations with their keyset
    cursors, the disclosure predicate they push into SQL, the batch lookups, the
    transparency log and the loop of the receipt sweep. *)

From S2P Require Import Prelude Text Errors ContextTypes ChangeBucket ChangeFeed FeedBackends ReadGate PageCursors EventReceipts KeyAttestations SqlTx SqliteStore SqlitePublish SqliteInvariants SqliteLifecycle SqliteReach SqliteReads.

Open Scope registry_scope.

(** ** The default methods of the store trait

    [ExtendedRegistryStore] of [acdp-registry-store/src/lib.rs]: the batch reads a
    backend gets when it does not override them, one [get] or [tenant_of_ctx] per id.
    The SQL backends override them with one query; [SqliteListing] shows that the
    answers are the same. *)

Section defaults.
(** The required methods; [parse] is [CtxId::parse] and [body_of] the body of what
    [get] answers. *)
Context {Ctx : Type} (body_of : Ctx → Body).
Context (parse : string → result string AcdpError).
Context (get : string → result (option Ctx) AcdpError).
Context (tenant_of_ctx : string → result (option string) AcdpError).

Fixpoint default_tenants_of_ctxs (ctx_ids : list string) : result (gmap string string) AcdpError :=
  match ctx_ids with
  | [] => Ok ∅
  | id :: ids =>
      let? t := tenant_of_ctx id in
      let? out := default_tenants_of_ctxs ids in
      Ok (match t with Some t => <[id := t]> out | None => out end)
  end.

Fixpoint default_producers_of (ctx_ids : list string) : result (gmap string string) AcdpError :=
  match ctx_ids with
  | [] => Ok ∅
  | id :: ids =>
      match parse id with
      | Err _ => default_producers_of ids
      | Ok parsed =>
          let? ctx := get parsed in
          let? out := default_producers_of ids in
          Ok (match ctx with Some ctx => <[id := body_agent_id (body_of ctx)]> out | None => out end)
      end
  end.

(** One id of [visible_ctx_ids]. *)
Definition default_visible (id : string) (requester tenant : option string)
    (public_arm_open : bool) : result bool AcdpError :=
  match parse id with
  | Err _ => Ok false
  | Ok parsed =>
      let? ctx := get parsed in
      match ctx with
      | None => Ok false
      | Some ctx =>
          if negb (retrieve_visible (body_of ctx) requester public_arm_open) then Ok false
          else
            match tenant with
            | None => Ok true
            | Some want =>
                let? stored := tenant_of_ctx id in
                Ok (bool_decide (default RESERVED_TENANT stored = want))
            end
      end
  end.

Fixpoint default_visible_ctx_ids (ctx_ids : list string) (requester tenant : option string)
    (public_arm_open : bool) : result (gset string) AcdpError :=
  match ctx_ids with
  | [] => Ok ∅
  | id :: ids =>
      let? visible := default_visible id requester tenant public_arm_open in
      let? out := default_visible_ctx_ids ids requester tenant public_arm_open in
      Ok (if visible then {[id]} ∪ out else out)
  end.

(** The ids the loop keeps are those its test keeps. *)
Lemma default_visible_ctx_ids_spec (P : string → bool) ids requester tenant open :
  (∀ id, default_visible id requester tenant open = Ok (P id)) →
  default_visible_ctx_ids ids requester tenant open = Ok (list_to_set (List.filter P ids)).
Proof.
  intros HP. induction ids as [|id ids IH]; [done|]. cbn. rewrite HP IH. cbn. by destruct (P id).
Qed.

Lemma default_producers_of_spec (f : string → option string) ids :
  (∀ id, match parse id with
         | Err _ => f id = None
         | Ok p => ∃ c, get p = Ok c ∧ f id = body_agent_id ∘ body_of <$> c
         end) →
  ∃ m, default_producers_of ids = Ok m ∧ ∀ id, m !! id = if bool_decide (id ∈ ids) then f id else None.
Proof.
  intros Hf. induction ids as [|id ids (m & Hm & Hlk)]; [by exists ∅|]. cbn. specialize (Hf id).
  assert (∀ k, k ≠ id → bool_decide (k ∈ id :: ids) = bool_decide (k ∈ ids)) as Hother.
  { intros k Hk. apply bool_decide_ext. set_solver. }
  destruct (parse id) as [p|].
  - destruct Hf as (c & Hg & Hfid). rewrite Hg Hm. cbn. eexists. split; [done|]. intros k.
    destruct (decide (k = id)) as [->|Hk].
    + rewrite (bool_decide_true (id ∈ id :: ids)); [|set_solver]. rewrite Hfid.
      destruct c as [c|]; [by rewrite lookup_insert_eq|]. rewrite Hlk Hfid. by destruct (bool_decide _).
    + rewrite Hother // -Hlk. destruct c; [by rewrite lookup_insert_ne|done].
  - exists m. split; [done|]. intros k. rewrite Hlk. destruct (decide (k = id)) as [->|Hk].
    + rewrite Hf. by repeat case_bool_decide.
    + by rewrite Hother.
Qed.
End defaults.

(** [ORDER BY created_at DESC, ctx_id ASC], on text. *)
Definition text_ltb (a b : string) : bool := bytes_ltb (as_bytes a) (as_bytes b).

Lemma text_ltb_irrefl a : text_ltb a a = false.
Proof. apply bytes_ltb_irrefl. Qed.

Lemma text_ltb_trans a b c : text_ltb a b = true → text_ltb b c = true → text_ltb a c = true.
Proof. apply bytes_ltb_trans. Qed.

Lemma text_ltb_total a b : text_ltb a b = true ∨ a = b ∨ text_ltb b a = true.
Proof.
  destruct (bytes_ltb_total (as_bytes a) (as_bytes b)) as [?|[Heq|?]]; [by auto| |by auto].
  apply (inj as_bytes) in Heq. by auto.
Qed.

(** A key of a listing: a sort column, newest first, and the id, in the order [ilt]
    of the column's text. *)
Section newest_first.
Context {T : Type} (tlt : T → T → bool) (ilt : string → string → bool).
Context (tlt_irrefl : ∀ a, tlt a a = false) (ilt_irrefl : ∀ a, ilt a a = false).
Context (tlt_trans : ∀ a b c, tlt a b = true → tlt b c = true → tlt a c = true).
Context (ilt_trans : ∀ a b c, ilt a b = true → ilt b c = true → ilt a c = true).
Context (tlt_total : ∀ a b, tlt a b = true ∨ a = b ∨ tlt b a = true).
Context (ilt_total : ∀ a b, ilt a b = true ∨ a = b ∨ ilt b a = true).

Definition newest_by (a b : T * string) : Prop :=
  tlt b.1 a.1 = true ∨ (a.1 = b.1 ∧ ilt a.2 b.2 = true).

Lemma newest_by_strict : StrictOrder newest_by.
Proof.
  split.
  - intros a [Ha|[_ Ha]]; [by rewrite tlt_irrefl in Ha|by rewrite ilt_irrefl in Ha].
  - intros a b c [Hab|[Hab Hab']] [Hbc|[Hbc Hbc']].
    + left. by eapply tlt_trans.
    + left. congruence.
    + left. congruence.
    + right. split; [congruence|]. by eapply ilt_trans.
Qed.

Lemma newest_by_total a b : newest_by a b ∨ a = b ∨ newest_by b a.
Proof.
  unfold newest_by. destruct a as [t1 c1], b as [t2 c2]. cbn.
  destruct (tlt_total t1 t2) as [?|[->|?]]; [by auto| |by auto].
  destruct (ilt_total c1 c2) as [?|[->|?]]; by auto.
Qed.
End newest_first.

Notation newest_first tlt := (newest_by tlt text_ltb).

#[export] Instance newest_by_dec {T} `{EqDecision T} (tlt : T → T → bool) (ilt : string → string → bool) :
  RelDecision (newest_by tlt ilt).
Proof. intros a b. unfold newest_by. apply _. Defined.

Definition newest_by_trichotomy {T} `{EqDecision T} (tlt : T → T → bool) (ilt : string → string → bool)
  (tot : ∀ a b, tlt a b = true ∨ a = b ∨ tlt b a = true)
  (itot : ∀ a b, ilt a b = true ∨ a = b ∨ ilt b a = true) : TrichotomyT (newest_by tlt ilt).
Proof.
  intros a b. destruct (decide (newest_by tlt ilt a b)); [by left; left|].
  destruct (decide (a = b)); [by left; right|]. right.
  by destruct (newest_by_total tlt ilt tot itot a b) as [?|[?|?]].
Defined.

Lemma ms_ltb_trans a b c : (a <? b)%Z = true → (b <? c)%Z = true → (a <? c)%Z = true.
Proof. rewrite !Z.ltb_lt. lia. Qed.

Lemma ms_ltb_total a b : (a <? b)%Z = true ∨ a = b ∨ (b <? a)%Z = true.
Proof. rewrite !Z.ltb_lt. lia. Qed.

#[export] Instance text_newest_first : StrictOrder (newest_first text_ltb).
Proof. apply newest_by_strict; (apply text_ltb_irrefl || apply text_ltb_trans). Qed.

#[export] Instance text_trichotomy : TrichotomyT (newest_first text_ltb) :=
  newest_by_trichotomy _ _ text_ltb_total text_ltb_total.

#[export] Instance ms_newest_first : StrictOrder (newest_first Z.ltb).
Proof. apply newest_by_strict; [apply Z.ltb_irrefl|apply text_ltb_irrefl|apply ms_ltb_trans|apply text_ltb_trans]. Qed.

#[export] Instance ms_trichotomy : TrichotomyT (newest_first Z.ltb) :=
  newest_by_trichotomy _ _ ms_ltb_total text_ltb_total.

Record Page (T : Type) : Type := mkPage { page_items : list T; page_next_cursor : option string }.
Arguments mkPage {T}.
Arguments page_items {T}.
Arguments page_next_cursor {T}.

(** A client that follows the cursors: [page i] answers its call number [i]. [None] is
    a walk that has not ended yet. *)
Fixpoint page_walk {T} (fuel : nat) (page : nat → option string → result (Page T) AcdpError) (i : nat)
    (cursor : option string) : option (result (list T) AcdpError) :=
  match fuel with
  | 0 => None
  | S fuel =>
      match page i cursor with
      | Err e => Some (Err e)
      | Ok found =>
          match page_next_cursor found with
          | None => Some (Ok (page_items found))
          | Some c =>
              match page_walk fuel page (S i) (Some c) with
              | Some (Ok rest) => Some (Ok (page_items found ++ rest))
              | other => other
              end
          end
      end
  end.

Lemma page_walk_ext {T} fuel (page page' : nat → option string → result (Page T) AcdpError) :
  (∀ i c, page i c = page' i c) → ∀ i c, page_walk fuel page i c = page_walk fuel page' i c.
Proof.
  intros Hp. induction fuel as [|fuel IH]; intros i c; simpl; [done|]. rewrite Hp.
  destruct (page' i c); [|done]. destruct (page_next_cursor _); [|done]. by rewrite IH.
Qed.

(** [acdp::pagination::try_paginate_rows]: rows, limit, decoding, the filter on
    decoded items and the cursor of an item. *)
Class PaginateSdk : Type :=
  try_paginate_rows : ∀ {R T : Type},
    list R → nat → (R → result T AcdpError) → (T → bool) → (T → string) →
    result (list T * option string) AcdpError.

(** Its documentation: at most [limit] rows are decoded and filtered, another page
    exists when there were more rows, and its cursor is that of the last row
    decoded, filtered out or not. *)
Class PaginateSdkLaws `{PaginateSdk} : Prop :=
  paginate_rows_spec : ∀ R T (rows : list R) limit decode (keep : T → bool) cur,
    try_paginate_rows rows limit decode keep cur =
    let? all := collect_ok decode (take limit rows) in
    Ok (List.filter keep all,
        if (limit <? length rows)%nat then cur <$> last all else None).

(** [limit.clamp(1, max)]. *)
Definition clamp_limit (max limit : Z) : nat := Z.to_nat (Z.max 1 (Z.min max limit)).

(** ** Scans

    The queries that page through contexts with a cursor: the rows that pass the WHERE
    clause after the anchor, one more than the limit, decoded and filtered by
    [try_paginate_rows]. *)

Section scan.
Context `{StoreCodec} `{CursorText} `{PaginateSdk}.
Context {R K : Type} (key : R → K) (lt : K → K → Prop).
Context `{!StrictOrder lt} `{!RelDecision lt} `{!TrichotomyT lt}.
Context (anchor_key : Z * string → K) (decode : R → result FullContext AcdpError) (keep : FullContext → bool).

Definition decode_anchor (now : Z) (cursor : option string) :
    result (option (Z * string)) AcdpError :=
  match cursor with
  | None => Ok None
  | Some c => decode_cursor from_timestamp_millis now c
  end.

Definition ctx_cursor (now : Z) (ctx : FullContext) : string :=
  encode_cursor now (timestamp_millis (body_created_at (fc_body ctx))) (body_ctx_id (fc_body ctx)).

Definition scan_page (limit : nat) (cursor : option string) (now : Z) (rows : list R) :
    result (list FullContext * option string) AcdpError :=
  let? anchor := decode_anchor now cursor in
  try_paginate_rows (keyset_rows key lt limit (anchor_key <$> anchor) rows) limit decode keep (ctx_cursor now).

(** Its pages, followed to the end; page [i] is asked for at [clock i], of the rows
    [rows i]. *)
Definition scan_walk (fuel limit : nat) (clock : nat → Z) (rows : nat → list R) (i : nat)
    (cursor : option string) : option (result (list FullContext) AcdpError) :=
  page_walk fuel (λ i c, let? page := scan_page limit c (clock i) (rows i) in Ok (mkPage page.1 page.2)) i cursor.

(** What the clock and the times of the rows must allow: they fit chrono's range and
    the cursor's integers. *)
Definition representable (t : Z) : Prop :=
  is_i64 (timestamp_millis t) = true ∧ from_timestamp_millis (timestamp_millis t) = Some t.

(** The next page is asked for in time: within the hour a cursor lives. *)
Definition in_time (clock : nat → Z) : Prop :=
  ∀ i, is_i64 (timestamp_millis (clock i)) = true ∧
       (timestamp_millis (clock i) ≤ timestamp_millis (clock (S i)) ≤ timestamp_millis (clock i) + 3600000)%Z.

(** A row decodes to a context whose cursor names the row. *)
Definition row_readable (r : R) : Prop :=
  ∃ ctx, decode r = Ok ctx ∧ representable (body_created_at (fc_body ctx)) ∧
    anchor_key (body_created_at (fc_body ctx), body_ctx_id (fc_body ctx)) = key r.

Section laws.
Context `{!CursorTextLaws} `{!PaginateSdkLaws}.

Lemma decode_anchor_encoded clock i t ctx :
  in_time clock → representable t →
  decode_anchor (clock (S i)) (Some (encode_cursor (clock i) (timestamp_millis t) ctx)) = Ok (Some (t, ctx)).
Proof.
  intros Hc [Ht Hf]. destruct (Hc i) as [Hi Hle]. cbn. unfold encode_cursor.
  rewrite decode_cursor_text; [|done|done]. rewrite Hf. cbn [ok_or and_then].
  destruct (Hc (S i)) as [Hi' _].
  unfold CURSOR_TTL_SECS, i64_saturating_sub, is_i64, i64_min, i64_max in *. bool_to_prop.
  case_if; [lia|done].
Qed.

Lemma readable_decodes r : row_readable r → is_ok (decode r) = true.
Proof. by intros (ctx & -> & _). Qed.

(** A page is a page of rows, decoded and filtered. *)
Lemma scan_page_keyset limit cursor now rows anchor :
  (∀ r, r ∈ rows → is_ok (decode r) = true) → decode_anchor now cursor = Ok anchor →
  let '(items, next) := keyset_page key lt limit (anchor_key <$> anchor) rows in
  ∃ full, scan_page limit cursor now rows =
      Ok (List.filter keep full, match next with None => None | Some _ => ctx_cursor now <$> last full end) ∧
    Forall2 (λ r c, decode r = Ok c) items full.
Proof.
  intros Hread Hanchor. unfold keyset_page. cbv zeta. set (found := keyset_rows _ _ _ _ _).
  assert (∀ r, r ∈ take limit found → is_ok (decode r) = true) as Hok.
  { intros r Hr. apply subseteq_take in Hr. subst found. unfold keyset_rows in Hr. apply subseteq_take in Hr.
    rewrite (merge_sort_Permutation (key_order key lt)) in Hr. apply list_elem_of_filter in Hr as [_ Hr].
    by apply Hread. }
  destruct (collect_ok_Forall2 decode _ Hok) as (full & Hfull & Hall).
  exists full. split; [|done]. unfold scan_page. rewrite Hanchor. cbn [and_then].
  fold found. rewrite paginate_rows_spec Hfull. cbn [and_then].
  destruct (_ <? length found)%nat eqn:Hmore; [|done]. do 2 f_equal.
  destruct (last (take limit found)) as [x|] eqn:Hlast; [done|].
  apply last_None in Hlast. rewrite Hlast in Hall. by apply Forall2_nil_inv_l in Hall as ->.
Qed.

(** The walk over cursors is the walk over keys. *)
Lemma scan_walk_keyset fuel limit clock rows : ∀ i cursor anchor,
  (∀ j, NoDup (map key (rows j))) → (∀ j r, r ∈ rows j → row_readable r) → in_time clock →
  decode_anchor (clock i) cursor = Ok anchor →
  match keyset_walk key lt fuel limit i rows (anchor_key <$> anchor) with
  | None => scan_walk fuel limit clock rows i cursor = None
  | Some out => ∃ full, scan_walk fuel limit clock rows i cursor = Some (Ok (List.filter keep full)) ∧
      Forall2 (λ r c, decode r = Ok c) out full
  end.
Proof.
  induction fuel as [|fuel IH]; intros i cursor anchor Hnd Hread Hclock Hanchor; [done|].
  unfold scan_walk in *. cbn [keyset_walk page_walk].
  pose proof (scan_page_keyset limit cursor (clock i) (rows i) anchor (λ r Hr, readable_decodes r (Hread i r Hr)) Hanchor) as Hpage.
  destruct (keyset_page _ _ _ _ _) as [items next] eqn:Hkp.
  destruct Hpage as (full & -> & Hall). cbn [and_then page_next_cursor page_items fst snd]. destruct next as [k|]; [|by eauto].
  destruct (keyset_page_spec _ _ _ _ _ _ _ (Hnd i) Hkp) as (_ & Hin & _).
  unfold keyset_page in Hkp. injection Hkp as Hitems Hnext.
  destruct (_ <? _)%nat in Hnext; [|done]. rewrite Hitems in Hnext.
  destruct (last items) as [x|] eqn:Hlast; [|done]. injection Hnext as <-.
  apply last_Some in Hlast as [items' Heq]. rewrite Heq in Hall Hin.
  destruct (proj1 (Forall2_app_inv_l _ _ _ _) Hall) as (full' & lastf & _ & Hlast & Hfull).
  apply Forall2_cons_inv_l in Hlast as (c & nil & Hc & Hnil & ->). apply Forall2_nil_inv_l in Hnil as ->.
  assert (last full = Some c) as -> by (rewrite Hfull; apply last_snoc). cbn [fmap option_fmap option_map].
  destruct (Hin x) as [Hx _]; [set_solver|].
  destruct (Hread i x Hx) as (c' & Hc' & Hrep & Hkey). rewrite Hc in Hc'. injection Hc' as <-.
  specialize (IH (S i) _ _ Hnd Hread Hclock
    (decode_anchor_encoded clock i (body_created_at (fc_body c)) (body_ctx_id (fc_body c)) Hclock Hrep)).
  cbn [fmap option_fmap option_map] in IH. rewrite Hkey in IH. fold (ctx_cursor (clock i) c) in IH.
  destruct (keyset_walk _ _ _ _ _ _ (Some _)) as [rest|]; [|by rewrite IH].
  destruct IH as (restf & -> & Hrest). cbn. exists (full ++ restf).
  split; [by rewrite List.filter_app|]. rewrite Heq. by apply Forall2_app.
Qed.

(** A scan of rows at rest ends, with the whole of them in order. *)
Lemma scan_ends fuel limit clock rows :
  (0 < limit)%nat → NoDup (map key rows) → (∀ r, r ∈ rows → row_readable r) → in_time clock →
  (length rows < fuel)%nat →
  ∃ out full, scan_walk fuel limit clock (λ _, rows) 0 None = Some (Ok (List.filter keep full)) ∧
    out ≡ₚ rows ∧ StronglySorted (λ r s, lt (key r) (key s)) out ∧ Forall2 (λ r c, decode r = Ok c) out full.
Proof.
  intros Hpos Hnd Hread Hclock Hfuel.
  pose proof (scan_walk_keyset fuel limit clock (λ _, rows) 0 None None (λ _, Hnd) (λ _, Hread) Hclock eq_refl) as Hks.
  cbn [fmap option_fmap option_map] in Hks.
  destruct (keyset_walk_ends key lt rows limit (λ _, rows) fuel 0 None Hpos Hnd (λ _, eq_refl)) as (out & Hout).
  { rewrite filter_all; [done|]. done. }
  rewrite Hout in Hks. destruct Hks as (full & Hw & Hall). exists out, full. split; [done|].
  destruct (keyset_walk_complete key lt _ _ _ _ _ _ Hpos (λ _, Hnd) Hout) as (Hsort & Hsrc & Hcov).
  split; [|by split]. symmetry. apply NoDup_Permutation.
  - by eapply NoDup_fmap_1.
  - eapply (NoDup_fmap_1 key). clear -Hsort StrictOrder0. induction Hsort as [|r l _ IH Hlt]; [constructor|].
    cbn. constructor; [|done]. intros (s & Hs & Hin)%list_elem_of_fmap. rewrite Forall_forall in Hlt.
    specialize (Hlt s Hin). unfold lt_rows in Hlt. rewrite Hs in Hlt. by apply irreflexivity in Hlt; [|apply _].
  - intros r. split; [|intros Hr; by destruct (Hsrc r Hr) as [_ (_ & ?)]].
    intros Hr. assert (key r ∈ map key out) as (s & Hks & Hs)%list_elem_of_fmap
      by (apply Hcov; [intros; by apply list_elem_of_fmap_2|done]).
    assert (r = s) as ->; [|done]. destruct (Hsrc s Hs) as [_ (_ & Hsr)].
    apply list_elem_of_lookup in Hr as [i Hi]. apply list_elem_of_lookup in Hsr as [j Hj].
    assert (i = j) as <-; [|congruence]. eapply NoDup_lookup; [exact Hnd| |]; rewrite list_lookup_fmap; [by rewrite Hi|].
    by rewrite Hj /= Hks.
Qed.
End laws.
End scan.

Section listing.
Context `{StoreCodec} `{PublishSdk} `{KeylessSdk} `{CursorText} `{PaginateSdk}.

(** ** Disclosure *)

(** [json_each(body_json, '$.audience')]: the audience of the stored document. *)
Definition audience_values (body_json : string) : list string :=
  match body_parse body_json with
  | Ok b => default [] (body_audience b)
  | Err _ => []
  end.

Definition is_some {A} (o : option A) : bool := match o with Some _ => true | None => false end.

(** [agent_id = ?] and [value = ?] with a bound that may be NULL. *)
Definition sql_eq (column : string) (bound : option string) : bool :=
  match bound with Some b => bool_decide (column = b) | None => false end.

Definition LIST_VISIBILITY_SQLITE (req : option string) (anon : bool) (r : CtxRow) : bool :=
  (bool_decide (c_visibility r = "public") && (is_some req || anon))
  || (is_some req && (sql_eq (c_agent_id r) req
                      || existsb (λ v, sql_eq v req) (audience_values (c_body_json r)))).

Definition SEARCH_VISIBILITY_SQLITE (req : option string) (anon : bool) (r : CtxRow) : bool :=
  (bool_decide (c_visibility r = "public") && (is_some req || anon))
  || (bool_decide (c_visibility r = "restricted") && is_some req
      && (sql_eq (c_agent_id r) req || existsb (λ v, sql_eq v req) (audience_values (c_body_json r))))
  || (bool_decide (c_visibility r = "private") && is_some req && sql_eq (c_agent_id r) req).

Definition in_tenant (tenant : option string) (r : CtxRow) : bool :=
  match tenant with Some t => bool_decide (c_tenant_id r = t) | None => true end.

Definition VISIBLE_CTX_IDS_CHUNK : nat := 900.

(** [slice::chunks]. *)
Fixpoint chunks (fuel n : nat) (l : list string) : list (list string) :=
  match fuel, l with
  | S fuel, _ :: _ => take n l :: chunks fuel n (drop n l)
  | _, _ => []
  end.

(** [visible_ctx_ids]: one query per chunk. *)
Definition visible_ctx_ids (ctx_ids : list string) (requester tenant : option string)
    (public_arm_open : bool) (db : SqliteDb) : gset string :=
  ⋃ (map (λ chunk, list_to_set (map c_ctx_id
             (List.filter (λ r, bool_decide (c_ctx_id r ∈ chunk)
                                && LIST_VISIBILITY_SQLITE requester public_arm_open r
                                && in_tenant tenant r) (contexts db))))
         (chunks (length ctx_ids) VISIBLE_CTX_IDS_CHUNK ctx_ids)).

Definition producers_of (ctx_ids : list string) (db : SqliteDb) : gmap string string :=
  fold_left (λ out chunk,
    fold_left (λ out r, <[c_ctx_id r := c_agent_id r]> out)
      (List.filter (λ r, bool_decide (c_ctx_id r ∈ chunk)) (contexts db)) out)
    (chunks (length ctx_ids) VISIBLE_CTX_IDS_CHUNK ctx_ids) ∅.

Definition tenants_of_ctxs (ctx_ids : list string) (db : SqliteDb) : gmap string string :=
  if is_empty ctx_ids then ∅
  else list_to_map (map (λ r, (c_ctx_id r, c_tenant_id r))
         (List.filter (λ r, bool_decide (c_ctx_id r ∈ ctx_ids)) (contexts db))).

(** ** Listing contexts *)

Definition created_key (r : CtxRow) : string * string := (c_created_at r, c_ctx_id r).

Definition visible_rows (requester tenant : option string) (public_arm_open : bool) (db : SqliteDb) :
    list CtxRow :=
  List.filter (λ r, LIST_VISIBILITY_SQLITE requester public_arm_open r && in_tenant tenant r)
    (contexts db).

(** [list_contexts]; [now] is the clock of the two cursor calls. *)
Definition list_contexts (limit : Z) (cursor requester tenant : option string)
    (public_arm_open : bool) (now : Z) (db : SqliteDb) : result (Page FullContext) AcdpError :=
  let limit := clamp_limit 200 limit in
  let? anchor := decode_anchor now cursor in
  let rows := keyset_rows created_key (newest_first text_ltb) limit
                ((λ a : Z * string, (rfc3339 a.1, a.2)) <$> anchor)
                (visible_rows requester tenant public_arm_open db) in
  let? page := try_paginate_rows rows limit row_to_context (λ _, true)
                 (ctx_cursor now) in
  Ok (mkPage page.1 page.2).

(** ** Key attestations *)

(** [record] of [keyless.rs]. *)
Definition attestation_record (ctx_id : string) (db : SqliteDb) :
    result (option KeyAttestationRecord) AcdpError :=
  match List.find (λ k, bool_decide (k_ctx_id k = ctx_id)) (key_attestations db),
        select_ctx ctx_id db with
  | Some k, Some c =>
      let? body := decode_body (c_body_json c) in
      let? r := record_from_parts ctx_id (c_content_hash c)
                  (stored_status (c_status c) (negb (c_retracted c =? 0)%Z)) (k_created_at_ms k) body in
      Ok (Some r)
  | _, _ => Ok None
  end.

Definition token_seen (token_hash : string) (db : SqliteDb) : bool :=
  (0 <? Z.of_nat (length (List.filter (λ k, bool_decide (k_token_hash k = token_hash))
                            (key_attestations db))))%Z.

Definition att_key (k : AttRow) : Z * string := (k_created_at_ms k, k_ctx_id k).

(** The join of the listing, with the WHERE clause on the index columns. *)
Definition attestation_rows (controller : string) (f : KeyAttestationFilter) (db : SqliteDb) :
    list AttRow :=
  List.filter (λ k, is_some (select_ctx (k_ctx_id k) db)
                    && bool_decide (k_controller k = controller)
                    && (match filter_issuer f with
                        | Some i => match k_issuer k with Some x => bool_decide (x = i) | None => false end
                        | None => true
                        end)
                    && (match filter_subject f with
                        | Some s => bool_decide (k_subject k = s)
                        | None => true
                        end))
    (key_attestations db).

Definition attestation_item (db : SqliteDb) (k : AttRow) : result KeyAttestationListItem AcdpError :=
  let? c := ok_or (select_ctx (k_ctx_id k) db) (RegistryInternal "no joined row") in
  let? body := decode_body (c_body_json c) in
  list_item (k_ctx_id k) (c_content_hash c) body.

(** [list] of [keyless.rs]. *)
Definition list_key_attestations (controller : string) (f : KeyAttestationFilter)
    (cursor : option string) (limit now : Z) (db : SqliteDb) :
    result (Page KeyAttestationListItem) AcdpError :=
  let limit := clamp_limit MAX_LIST_LIMIT limit in
  let? anchor := decode_anchor now cursor in
  let rows := keyset_rows att_key (newest_first Z.ltb) limit
                ((λ a : Z * string, (timestamp_millis a.1, a.2)) <$> anchor)
                (attestation_rows controller f db) in
  let? items := collect_ok (attestation_item db) (take limit rows) in
  Ok (mkPage items
        (if (limit <? length rows)%nat
         then (λ k, encode_cursor now (k_created_at_ms k) (k_ctx_id k)) <$> last (take limit rows)
         else None)).

(** ** Walking the pages *)

(** A client that lists contexts; page [i] is asked for at [clock i], of the store
    [stores i]. *)
Definition list_walk (fuel : nat) (limit : Z) (requester tenant : option string) (open : bool)
    (clock : nat → Z) (stores : nat → SqliteDb) (i : nat) (cursor : option string) :
    option (result (list FullContext) AcdpError) :=
  page_walk fuel (λ i c, list_contexts limit c requester tenant open (clock i) (stores i)) i cursor.

Section laws.
Context `{!StoreCodecLaws} `{!PublishSdkLaws} `{!EventSdkLaws} `{!CursorTextLaws} `{!PaginateSdkLaws}.

Lemma visible_rows_sub requester tenant open db r :
  r ∈ visible_rows requester tenant open db → r ∈ contexts db.
Proof. unfold visible_rows. rewrite list_elem_of_In filter_In -list_elem_of_In. by intros [? _]. Qed.

Lemma NoDup_map_List_filter {A B} (f : A → B) (P : A → bool) l :
  NoDup (map f l) → NoDup (map f (List.filter P l)).
Proof.
  induction l as [|x l IH]; [done|]. cbn. intros [Hn Hd]%NoDup_cons. destruct (P x); [|by apply IH].
  cbn. constructor; [|by apply IH]. intros (y & Hy & Hin)%list_elem_of_fmap. apply Hn. rewrite Hy.
  apply list_elem_of_fmap_2, list_elem_of_In. apply list_elem_of_In, filter_In in Hin as [? _]. done.
Qed.

Lemma created_keys_unique requester tenant open db :
  store_wf db → NoDup (map created_key (visible_rows requester tenant open db)).
Proof.
  intros Hwf. apply NoDup_map_List_filter. pose proof (published_ids _ (wf_published _ Hwf)) as Hnd.
  apply (NoDup_fmap_1 snd). change (NoDup (snd <$> (created_key <$> contexts db))).
  by rewrite -list_fmap_compose.
Qed.

Definition times_ok (db : SqliteDb) : Prop :=
  ∀ r b, r ∈ contexts db → decodes r b → representable (body_created_at b).

Definition text_anchor (a : Z * string) : string * string := (rfc3339 a.1, a.2).

Lemma listed_readable requester tenant open db r :
  store_wf db → times_ok db → r ∈ visible_rows requester tenant open db →
  row_readable created_key text_anchor row_to_context r.
Proof.
  intros Hwf Hts Hr%visible_rows_sub. destruct (wf_rows _ Hwf r Hr) as (b & _ & Hd & _).
  destruct (row_to_context_ok r b Hd) as (rc & Hc). eexists. split; [exact Hc|]. cbn.
  split; [by eapply Hts|]. unfold text_anchor, created_key. cbn. by rewrite (dec_ctx_id _ _ Hd) (dec_created_at _ _ Hd).
Qed.

Lemma list_contexts_scan limit cursor requester tenant open now db :
  list_contexts limit cursor requester tenant open now db =
  let? page := scan_page created_key (newest_first text_ltb) text_anchor row_to_context (λ _, true)
                 (clamp_limit 200 limit) cursor now (visible_rows requester tenant open db) in
  Ok (mkPage page.1 page.2).
Proof. unfold list_contexts, scan_page. by destruct (decode_anchor _ _). Qed.

Lemma listed_decodes requester tenant open db r :
  store_wf db → r ∈ visible_rows requester tenant open db → is_ok (row_to_context r) = true.
Proof.
  intros Hwf Hr%visible_rows_sub. destruct (wf_rows _ Hwf r Hr) as (b & _ & Hd & _).
  by destruct (row_to_context_ok r b Hd) as (rc & ->).
Qed.

(** A listing is a scan. *)
Lemma list_walk_scan fuel limit requester tenant open clock stores i cursor :
  list_walk fuel limit requester tenant open clock stores i cursor =
  scan_walk created_key (newest_first text_ltb) text_anchor row_to_context (λ _, true) fuel (clamp_limit 200 limit) clock
    (λ j, visible_rows requester tenant open (stores j)) i cursor.
Proof. apply page_walk_ext. intros j c. apply list_contexts_scan. Qed.

Lemma clamp_limit_pos max limit : (1 ≤ max)%Z → (0 < clamp_limit max limit)%nat.
Proof. unfold clamp_limit. lia. Qed.

(** Rows of one id, in stores the server moves through, have one key. *)
Lemma stores_reachable stores :
  reachable (stores 0) → (∀ j, store_run (λ _, True) (stores j) (stores (S j))) →
  (∀ j, store_wf (stores j)) ∧
  ∀ i j r s, r ∈ contexts (stores i) → s ∈ contexts (stores j) → c_ctx_id r = c_ctx_id s →
    created_key r = created_key s.
Proof.
  intros Hreach Hruns.
  assert (∀ j, store_wf (stores j)) as Hwf.
  { induction j as [|j IH]; [by apply reachable_wf|by eapply store_run_wf]. }
  split; [done|].
  assert (∀ n i, grows (stores i) (stores (n + i))) as Hgrow.
  { induction n as [|n IH]; intros i; [done|]. etrans; [apply IH|]. by eapply store_run_grows. }
  assert (∀ i j r s, i ≤ j → r ∈ contexts (stores i) → s ∈ contexts (stores j) →
    c_ctx_id r = c_ctx_id s → created_key r = created_key s) as Hle.
  { intros i j r s Hij Hr Hs Hid. rewrite (_ : j = (j - i) + i) in Hs; [|lia].
    destruct (Hgrow (j - i) i r Hr) as (r' & Hr' & Hcore). injection Hcore as Hid' _ _ _ _ _ _ Hcr _ _ _ _.
    assert (r' = s) as -> by (apply (published_same_id _ _ _ (wf_published _ (Hwf (j - i + i)))); congruence).
    unfold created_key. congruence. }
  intros i j r s Hr Hs Hid. destruct (Nat.le_ge_cases i j); [by eapply Hle|].
  symmetry. by eapply Hle.
Qed.

Lemma listed_once rows :
  StronglySorted (lt_rows created_key (newest_first text_ltb)) rows →
  (∀ r s, r ∈ rows → s ∈ rows → c_ctx_id r = c_ctx_id s → created_key r = created_key s) →
  NoDup (map c_ctx_id rows).
Proof.
  induction 1 as [|r l _ IH Hlt]; intros Hkey; [constructor|]. cbn. constructor; [|apply IH; set_solver].
  intros (s & Hs & Hin)%list_elem_of_fmap. rewrite Forall_forall in Hlt. specialize (Hlt s Hin).
  unfold lt_rows in Hlt. rewrite (Hkey r s) in Hlt; [|set_solver|set_solver|done].
  by apply irreflexivity in Hlt; [|apply _].
Qed.

(** A listing misses nothing and repeats nothing, whatever is published while it
    is read. Following the cursors of [list_contexts] page by page, each within the
    hour its cursor lives, on stores the server moves between the pages, a walk that
    ends has listed no context twice, only contexts the requester may retrieve in
    that tenant, and every context that was visible to the requester throughout. *)
Theorem listing_misses_nothing (fuel : nat) (limit : Z) (requester tenant : option string)
    (open : bool) (clock : nat → Z) (stores : nat → SqliteDb) (full : list FullContext) :
  reachable (stores 0) → (∀ j, store_run (λ _, True) (stores j) (stores (S j))) →
  (∀ j, times_ok (stores j)) → in_time clock →
  list_walk fuel limit requester tenant open clock stores 0 None = Some (Ok full) →
  NoDup (map (λ c, body_ctx_id (fc_body c)) full) ∧
  (∀ c, c ∈ full → ∃ j r, r ∈ visible_rows requester tenant open (stores j) ∧ row_to_context r = Ok c) ∧
  (∀ id, (∀ j, id ∈ map c_ctx_id (visible_rows requester tenant open (stores j))) →
         id ∈ map (λ c, body_ctx_id (fc_body c)) full).
Proof.
  intros Hreach Hruns Hts Hclock Hwalk.
  destruct (stores_reachable stores Hreach Hruns) as [Hwf Hkeep].
  rewrite list_walk_scan in Hwalk.
  pose proof (scan_walk_keyset created_key (newest_first text_ltb) text_anchor row_to_context (λ _, true) fuel
    (clamp_limit 200 limit) clock (λ j, visible_rows requester tenant open (stores j)) 0 None None
    (λ j, created_keys_unique _ _ _ _ (Hwf j)) (λ j r, listed_readable _ _ _ _ r (Hwf j) (Hts j)) Hclock eq_refl) as Hks.
  cbn [fmap option_fmap option_map] in Hks.
  destruct (keyset_walk _ _ _ _ _ _ None) as [rows|] eqn:Hrows; [|congruence].
  destruct Hks as (full' & Hw & Hall). rewrite filter_true Hwalk in Hw. injection Hw as <-.
  destruct (keyset_walk_complete created_key (newest_first text_ltb) _ _ _ _ _ _
    (clamp_limit_pos 200 limit ltac:(lia)) (λ j, created_keys_unique _ _ _ _ (Hwf j)) Hrows)
    as (Hsort & Hsrc & Hcov).
  assert (∀ r c, r ∈ rows → row_to_context r = Ok c → body_ctx_id (fc_body c) = c_ctx_id r) as Hids.
  { intros r c Hr Hc. destruct (Hsrc r Hr) as [_ (j & Hj%visible_rows_sub)].
    destruct (wf_rows _ (Hwf j) r Hj) as (b & _ & Hd & _).
    rewrite (row_to_context_decodes _ _ _ Hd Hc). apply Hd. }
  assert (map (λ c, body_ctx_id (fc_body c)) full = map c_ctx_id rows) as Heq.
  { clear -Hall Hids. induction Hall as [|r c rows full Hrc _ IH]; [done|]. cbn.
    rewrite (Hids r c ltac:(set_solver) Hrc) IH; [done|set_solver]. }
  rewrite Heq. split; [|split].
  - apply listed_once; [done|]. intros r s Hr Hs. destruct (Hsrc r Hr) as [_ (i & Hi%visible_rows_sub)].
    destruct (Hsrc s Hs) as [_ (j & Hj%visible_rows_sub)]. by apply (Hkeep i j).
  - intros c Hc. apply list_elem_of_lookup in Hc as [i Hi].
    destruct (Forall2_lookup_r _ _ _ _ _ Hall Hi) as (r & Hr & Hrc). apply list_elem_of_lookup_2 in Hr.
    destruct (Hsrc r Hr) as [_ (j & Hj)]. by exists j, r.
  - intros id Hid. destruct (proj1 (list_elem_of_fmap _ _ _) (Hid 0)) as (r0 & -> & Hr0).
    assert (created_key r0 ∈ map created_key rows) as (r & Hr & Hin)%list_elem_of_fmap.
    { apply Hcov; [|done]. intros j _. destruct (proj1 (list_elem_of_fmap _ _ _) (Hid j)) as (rj & Hrj & Hinj).
      rewrite (Hkeep 0 j r0 rj); [by apply list_elem_of_fmap_2|by eapply visible_rows_sub..|done]. }
    injection Hr as _ ->. by apply list_elem_of_fmap_2.
Qed.

(** A listing of a store at rest ends, with the whole of it. With one page more than
    there are rows as its bound, the walk answers without an error, and what it has
    listed is the rows the requester may see, newest first. *)
Theorem listing_ends (fuel : nat) (limit : Z) (requester tenant : option string)
    (open : bool) (clock : nat → Z) (db : SqliteDb) :
  reachable db → times_ok db → in_time clock → (length (contexts db) < fuel)%nat →
  ∃ rows full, list_walk fuel limit requester tenant open clock (λ _, db) 0 None = Some (Ok full) ∧
    rows ≡ₚ visible_rows requester tenant open db ∧
    StronglySorted (λ r s, newest_first text_ltb (created_key r) (created_key s)) rows ∧
    Forall2 (λ r c, row_to_context r = Ok c) rows full.
Proof.
  intros Hreach Hts Hclock Hfuel. pose proof (reachable_wf _ Hreach) as Hwf. rewrite list_walk_scan.
  destruct (scan_ends created_key (newest_first text_ltb) text_anchor row_to_context (λ _, true) fuel
    (clamp_limit 200 limit) clock (visible_rows requester tenant open db)) as (rows & full & Hw & Hperm & Hsort & Hall).
  - by apply clamp_limit_pos.
  - by apply created_keys_unique.
  - intros r. by apply listed_readable.
  - done.
  - eapply Nat.le_lt_trans; [apply filter_length_le|exact Hfuel].
  - rewrite filter_true in Hw. by exists rows, full.
Qed.

(** ** Disclosure agrees with retrieval *)

Lemma list_visibility_retrieves r b req anon :
  decodes r b → LIST_VISIBILITY_SQLITE req anon r = retrieve_visible b req anon.
Proof.
  intros Hd. unfold LIST_VISIBILITY_SQLITE, retrieve_visible, audience_values.
  rewrite (dec_body _ _ Hd) (dec_visibility _ _ Hd) -(dec_agent_id _ _ Hd).
  destruct req as [q|]; cbn [is_some sql_eq andb orb].
  - assert (existsb (λ v, bool_decide (v = q)) (default [] (body_audience b)) =
            match body_audience b with Some a => bool_decide (q ∈ a) | None => false end) as ->.
    { destruct (body_audience b) as [a|]; [|done]. cbn. clear. induction a as [|x a IH]; [done|]. cbn.
      rewrite IH. repeat case_bool_decide; try done; set_solver. }
    rewrite (bool_decide_ext (body_agent_id b = q) (q = body_agent_id b)); [|done].
    destruct (body_visibility b); cbn; try done. by rewrite orb_true_r.
  - destruct (body_visibility b); cbn; [|done|done]. by rewrite orb_false_r.
Qed.

(** What search may show, retrieval may. *)
Lemma search_visibility_lists req anon r :
  SEARCH_VISIBILITY_SQLITE req anon r = true → LIST_VISIBILITY_SQLITE req anon r = true.
Proof.
  unfold SEARCH_VISIBILITY_SQLITE, LIST_VISIBILITY_SQLITE.
  destruct (bool_decide (c_visibility r = "public")), (is_some req), anon, (sql_eq (c_agent_id r) req);
    cbn; try done; rewrite ?andb_false_r ?orb_false_r; try done;
    by intros [_ ->]%andb_true_iff || by intros [[_ ->]%andb_true_iff|[_ ?]%andb_true_iff]%orb_true_iff.
Qed.

Lemma concat_chunks n l : ∀ fuel, (0 < n)%nat → (length l ≤ fuel)%nat → concat (chunks fuel n l) = l.
Proof.
  intros fuel Hn. revert l. induction fuel as [|fuel IH]; intros [|x l] Hf; cbn [chunks concat]; try done;
    cbn in Hf; [lia|]. rewrite IH; [by rewrite take_drop|]. rewrite length_drop. cbn. lia.
Qed.

Lemma elem_of_chunks id ids :
  (∃ c, c ∈ chunks (length ids) VISIBLE_CTX_IDS_CHUNK ids ∧ id ∈ c) ↔ id ∈ ids.
Proof.
  transitivity (id ∈ concat (chunks (length ids) VISIBLE_CTX_IDS_CHUNK ids));
    [|rewrite concat_chunks; [done|unfold VISIBLE_CTX_IDS_CHUNK; lia|done]].
  rewrite list_elem_of_In in_concat. by setoid_rewrite list_elem_of_In.
Qed.

Lemma elem_of_visible_ctx_ids id ids requester tenant open db :
  id ∈ visible_ctx_ids ids requester tenant open db ↔
  id ∈ ids ∧ ∃ r, r ∈ contexts db ∧ c_ctx_id r = id ∧
    LIST_VISIBILITY_SQLITE requester open r = true ∧ in_tenant tenant r = true.
Proof.
  unfold visible_ctx_ids. rewrite elem_of_union_list. setoid_rewrite list_elem_of_fmap. split.
  - intros (X & (c & -> & Hc) & Hin). rewrite elem_of_list_to_set list_elem_of_fmap in Hin.
    destruct Hin as (r & -> & Hr). apply list_elem_of_In, filter_In in Hr as [Hr Hcond].
    apply andb_true_iff in Hcond as [[Hcc Hv]%andb_true_iff Ht]. apply bool_decide_eq_true in Hcc.
    split; [apply elem_of_chunks; by exists c|]. exists r. split; [by apply list_elem_of_In|done].
  - intros [Hid (r & Hr & <- & Hv & Ht)]. apply elem_of_chunks in Hid as (c & Hc & Hin).
    eexists. split; [by exists c|]. rewrite elem_of_list_to_set list_elem_of_fmap. exists r. split; [done|].
    apply list_elem_of_In, filter_In. split; [by apply list_elem_of_In|].
    by rewrite Hv Ht bool_decide_true.
Qed.

(** The batch read of tenants agrees with the single one. *)
Lemma tenants_of_ctxs_lookup ids db id :
  published (contexts db) → id ∈ ids → tenants_of_ctxs ids db !! id = tenant_of_ctx id db.
Proof.
  intros Hp Hid. unfold tenants_of_ctxs. destruct ids as [|i ids]; [by apply elem_of_nil in Hid|].
  cbn [is_empty]. set (rows := List.filter _ (contexts db)).
  assert (∀ r, r ∈ rows ↔ r ∈ contexts db ∧ c_ctx_id r ∈ i :: ids) as Hrows.
  { intros r. unfold rows. rewrite list_elem_of_In filter_In -list_elem_of_In. by rewrite bool_decide_eq_true. }
  destruct (list_to_map _ !! id) as [t|] eqn:Hl.
  - apply elem_of_list_to_map_2, list_elem_of_fmap in Hl as (r & [= -> ->] & Hr).
    apply Hrows in Hr as [Hr _]. unfold tenant_of_ctx. by rewrite (select_ctx_unique db r Hp Hr).
  - apply not_elem_of_list_to_map_2 in Hl. unfold tenant_of_ctx.
    destruct (select_ctx id db) as [r|] eqn:Hs; [|done]. apply select_ctx_Some in Hs as [Hr Hrid].
    destruct Hl. rewrite -list_fmap_compose. apply list_elem_of_fmap. exists r.
    split; [by subst|]. apply Hrows. by subst.
Qed.

(** C23: the batch reads of the SQL store disclose what single retrievals would. On
    every reachable store, the one query behind [visible_ctx_ids], for any number of
    ids and however they fall into chunks, answers the same set as the default
    method of the trait, which retrieves every id, applies the retrieval rule to its
    body and compares its tenant; the search predicate never shows a row that this
    rule hides. [parse] is the crate's check of an id, which stored ids pass. *)
Theorem batch_disclosure_is_retrieval (st : SqliteStore) (parse : string → result string AcdpError)
    (ids : list string) (requester tenant : option string) (open : bool) (now : Z) (db : SqliteDb) :
  reachable db →
  (∀ id p, parse id = Ok p → p = id) →
  (∀ r, r ∈ contexts db → is_ok (parse (c_ctx_id r)) = true) →
  default_visible_ctx_ids fc_body parse (λ id, get st id now db db) (λ id, Ok (tenant_of_ctx id db))
    ids requester tenant open = Ok (visible_ctx_ids ids requester tenant open db) ∧
  (∀ r b, r ∈ contexts db → decodes r b → SEARCH_VISIBILITY_SQLITE requester open r = true →
     retrieve_visible b requester open = true).
Proof.
  intros Hreach Hparse Hstored. pose proof (reachable_wf _ Hreach) as Hwf. split; cycle 1.
  { intros r b _ Hd Hs. rewrite -(list_visibility_retrieves r b); [|done]. by apply search_visibility_lists. }
  set (P := λ id, match select_ctx id db with
                  | Some r => LIST_VISIBILITY_SQLITE requester open r && in_tenant tenant r
                  | None => false
                  end).
  rewrite (default_visible_ctx_ids_spec _ _ _ _ P).
  - f_equal. apply set_eq. intros id. rewrite elem_of_list_to_set elem_of_visible_ctx_ids.
    rewrite list_elem_of_In filter_In -list_elem_of_In. apply and_iff_compat_l. unfold P. split.
    + destruct (select_ctx id db) as [r|] eqn:Hr; [|done]. intros [Hv Ht]%andb_true_iff.
      apply select_ctx_Some in Hr as [Hr Hid]. by exists r.
    + intros (r & Hr & <- & Hv & Ht). rewrite (select_ctx_unique db r (wf_published _ Hwf) Hr).
      by rewrite Hv Ht.
  - intros id. unfold default_visible, P. destruct (parse id) as [p|] eqn:Hp.
    + apply Hparse in Hp as ->. pose proof (get_serves st id now db db Hwf Hwf) as Hget.
      destruct (select_ctx id db) as [r|] eqn:Hr; [|by rewrite Hget].
      destruct Hget as (b & receipt & slots & Hd & _ & _ & _ & ->). cbn [and_then]. rewrite serve_body.
      cbn [full_context fc_body]. rewrite (list_visibility_retrieves r b); [|done].
      destruct (retrieve_visible b requester open); cbn; [|done].
      unfold in_tenant, tenant_of_ctx. rewrite Hr. by destruct tenant.
    + destruct (select_ctx id db) as [r|] eqn:Hr; [|done]. exfalso.
      apply select_ctx_Some in Hr as [Hr <-]. specialize (Hstored r Hr). by rewrite Hp in Hstored.
Qed.
End laws.
End listing.
