(* ===== verification/SqliteSweep.v ===== *)
(** * The receipt sweep of the SQLite store

    [backfill_event_receipts] of [acdp-registry-sqlite/src/store.rs]: keyset pages
    over the contexts that still have an event without a receipt, each filled in a
    transaction of its own. The loop ends whatever happens, and when nothing fails it
    leaves no event without a receipt. *)

From S2P Require Import Prelude Text Errors ContextTypes ChangeBucket ChangeFeed FeedBackends PageCursors.
From S2P Require Import EventReceipts KeyAttestations SqlTx SqliteStore SqlitePublish SqliteInvariants.
From S2P Require Import SqliteLifecycle SqliteReach SqliteReads SqliteListing.

Open Scope registry_scope.

Section sweep.
Context `{StoreCodec} `{PublishSdk} `{KeylessSdk}.

Definition SWEEP_BATCH : nat := 200.

(** The contexts with an event whose receipt is NULL. *)
Definition null_ids (db : SqliteDb) : gset string :=
  list_to_set (map e_ctx_id (filter (λ e, e_receipt e = None) (lifecycle_events db))).

Definition text_order (a b : string) : Prop := text_leb a b = true.

#[export] Instance text_order_dec : RelDecision text_order.
Proof. intros a b. unfold text_order. apply _. Defined.

Definition pending (after : string) (db : SqliteDb) : gset string :=
  filter (λ c, text_ltb after c = true) (null_ids db).

(** [SELECT DISTINCT ctx_id ... AND ctx_id > ? ORDER BY ctx_id ASC LIMIT ?]. *)
Definition sweep_ids (after : string) (db : SqliteDb) : list string :=
  take SWEEP_BATCH (merge_sort text_order (elements (pending after db))).

(** The transactions of one page; the driver's behaviour and the clock may differ
    from one to the next. *)
Fixpoint sweep_batch (envs : string → TxEnv) (clock : string → Z) (mint : Minter)
    (ids : list string) (report : SweepReport) (db : SqliteDb) :
    result SweepReport AcdpError * SqliteDb :=
  match ids with
  | [] => (Ok report, db)
  | id :: ids =>
      match backfill_ctx (envs id) mint id report (clock id) db with
      | (Err e, db) => (Err e, db)
      | (Ok report, db) => sweep_batch envs clock mint ids report db
      end
  end.

(** The loop; [faults i] fails the query of page [i]. *)
Fixpoint sweep_loop (fuel : nat) (envs : string → TxEnv) (clock : string → Z) (mint : Minter)
    (faults : nat → option string) (i : nat) (after : string) (report : SweepReport)
    (db : SqliteDb) : option (result SweepReport AcdpError * SqliteDb) :=
  match fuel with
  | 0 => None
  | S fuel =>
      match faults i with
      | Some m => Some (Err (map_sqlx_err m), db)
      | None =>
          let ids := sweep_ids after db in
          match last ids with
          | None => Some (Ok report, db)
          | Some l =>
              match sweep_batch envs clock mint ids report db with
              | (Err e, db) => Some (Err e, db)
              | (Ok report, db) => sweep_loop fuel envs clock mint faults (S i) l report db
              end
          end
      end
  end.

Definition backfill_event_receipts (fuel : nat) (st : SqliteStore) (envs : string → TxEnv)
    (clock : string → Z) (faults : nat → option string) (db : SqliteDb) :
    option (result SweepReport AcdpError * SqliteDb) :=
  match event_receipt_minter st with
  | None => Some (Ok (mkReport 0 0 0), db)
  | Some mint => sweep_loop fuel envs clock mint faults 0 EmptyString (mkReport 0 0 0) db
  end.

Section laws.
Context `{!StoreCodecLaws} `{!PublishSdkLaws} `{!EventSdkLaws}.

Lemma elem_of_null_ids c db :
  c ∈ null_ids db ↔ ∃ e, e ∈ lifecycle_events db ∧ e_ctx_id e = c ∧ e_receipt e = None.
Proof.
  unfold null_ids. rewrite elem_of_list_to_set list_elem_of_fmap. split.
  - intros (e & -> & [He Hin]%list_elem_of_filter). by exists e.
  - intros (e & Hin & <- & He). exists e. split; [done|]. by apply list_elem_of_filter.
Qed.

(** ** Receipts are only ever added *)

Lemma update_receipt_nulls ctx id text db n db' :
  update_receipt ctx id text db = (n, db') → null_ids db' ⊆ null_ids db.
Proof.
  intros [= _ <-] c. rewrite !elem_of_null_ids. cbn.
  intros (e & (e0 & -> & He0)%list_elem_of_fmap & Hc & Hn). exists e0.
  destruct (fill_matches ctx id e0); by cbn in *.
Qed.

Lemma write_fills_nulls what ctx slots fills : ∀ fs db u fs' db',
  write_fills what ctx slots fills fs db = Ok (u, fs', db') → null_ids db' ⊆ null_ids db.
Proof.
  induction fills as [|[i r] fills IH]; intros fs db u fs' db' Hw; simpl in Hw; inv_tx; [done|].
  match goal with Hx : Ok ?x = Ok (?n, ?d) |- _ =>
    assert (x = (n, d)) as Hu by congruence; clear Hx end.
  destruct (negb _) in Hw; [by inv_tx|]. etransitivity; [by eapply IH|by eapply update_receipt_nulls].
Qed.

Lemma backfill_ctx_nulls env mint c report now db :
  null_ids (backfill_ctx env mint c report now db).2 ⊆ null_ids db.
Proof.
  unfold backfill_ctx. apply (transaction_preserves (λ d, null_ids d ⊆ null_ids db)); [done|].
  intros out fs' db' Hb. unfold backfill_body in Hb. inv_tx.
  destruct (select_ctx c db) as [row|]; [|by inv_tx]. inv_tx.
  destruct (and_then (row_to_context row) _) as [[ctx slots]|]; [|by inv_tx]. inv_tx.
  match goal with Hx : plan_backfill _ _ _ _ _ = Ok ?p |- _ => destruct p as [|fills|] end; inv_tx; try done.
  match goal with Hx : write_fills _ _ _ _ _ _ = Ok _ |- _ => by apply write_fills_nulls in Hx end.
Qed.

Lemma sweep_batch_nulls envs clock mint ids : ∀ report db r db',
  sweep_batch envs clock mint ids report db = (r, db') → null_ids db' ⊆ null_ids db.
Proof.
  induction ids as [|id ids IH]; intros report db r db' Hs; cbn in Hs; [by simplify_eq|].
  pose proof (backfill_ctx_nulls (envs id) mint id report (clock id) db) as Hb.
  destruct (backfill_ctx _ _ _ _ _ _) as [[rep|e] d]; cbn in Hb; [|by simplify_eq].
  etransitivity; [by eapply IH|done].
Qed.

Lemma elem_of_sweep_ids c after db : c ∈ sweep_ids after db → text_ltb after c = true ∧ c ∈ null_ids db.
Proof.
  unfold sweep_ids. intros Hc%subseteq_take.
  rewrite (merge_sort_Permutation text_order) elem_of_elements in Hc.
  unfold pending in Hc. by apply elem_of_filter in Hc.
Qed.

(** What is left after a page is less than before it. *)
Lemma pending_shrinks after l db db' :
  l ∈ sweep_ids after db → null_ids db' ⊆ null_ids db →
  (size (pending l db') < size (pending after db))%nat.
Proof.
  intros [Hal Hl]%elem_of_sweep_ids Hsub. apply subset_size. split.
  - intros c. unfold pending. rewrite !elem_of_filter. intros [Hlc Hc]. split; [|by apply Hsub].
    by eapply text_ltb_trans.
  - intros Hback. assert (l ∈ pending l db') as Hx.
    { apply Hback. unfold pending. by apply elem_of_filter. }
    unfold pending in Hx. apply elem_of_filter in Hx as [Hx _]. by rewrite text_ltb_irrefl in Hx.
Qed.

Lemma sweep_loop_ends envs clock mint faults : ∀ fuel i after report db,
  (size (pending after db) < fuel)%nat →
  is_Some (sweep_loop fuel envs clock mint faults i after report db).
Proof.
  induction fuel as [|fuel IH]; intros i after report db Hf; [lia|]. cbn [sweep_loop].
  destruct (faults i); [by eexists|].
  destruct (last (sweep_ids after db)) as [l|] eqn:Hlast; [|by eexists].
  destruct (sweep_batch envs clock mint (sweep_ids after db) report db) as [[rep|e] db'] eqn:Hb; [|by eexists].
  apply IH. apply sweep_batch_nulls in Hb. apply last_Some in Hlast as [ids' Hids].
  eapply Nat.lt_le_trans; [eapply (pending_shrinks after l db db'); [rewrite Hids; set_solver|done]|lia].
Qed.

(** ** A context, filled *)

Context (mint : Minter) (Hsigns : minter_signs mint).
Context (Hmints : ∀ ctx e v i at_, event_to_value e = Ok v → is_ok (mint ctx v i at_) = true).
Context (Hevents : ∀ e, is_ok (event_to_value e) = true).
Context (Hreceipts : ∀ r, is_ok (event_receipt_to_value r) = true).

Lemma event_value_total e : ∃ v, event_value e = Ok v.
Proof. unfold event_value. specialize (Hevents e). destruct (event_to_value e); [by eexists|done]. Qed.

Lemma receipt_value_total r : ∃ v, receipt_value r = Ok v.
Proof. unfold receipt_value. specialize (Hreceipts r). destruct (event_receipt_to_value r); [by eexists|done]. Qed.

Lemma fill_nulls_total ctx created now prior : ∀ i prev,
  ∃ fills prev', fill_nulls_from mint ctx created now i prior prev = Ok (fills, prev') ∧
    NoDup (map fst fills) ∧
    Forall (λ f : nat * EventReceipt, i ≤ f.1 ∧ ∃ e, prior !! (f.1 - i) = Some (e, RNull)) fills.
Proof.
  induction prior as [|[e s] prior IH]; intros i prev; cbn.
  { eexists [], prev. split; [done|]. split; constructor. }
  assert (∀ fills, Forall (λ f : nat * EventReceipt, S i ≤ f.1 ∧ ∃ e, prior !! (f.1 - S i) = Some (e, RNull)) fills →
    Forall (λ f : nat * EventReceipt, i ≤ f.1 ∧ ∃ x, ((e, s) :: prior) !! (f.1 - i) = Some (x, RNull)) fills) as Hlift.
  { intros fills Hall. eapply Forall_impl; [exact Hall|]. intros [j r] [Hj Hx]. cbn in *.
    split; [lia|]. by rewrite (_ : j - i = S (j - S i)); [|lia]. }
  destruct s as [|r|]; cycle 1.
  1,2: destruct (IH (S i) prev) as (fills & prev' & -> & Hnd & Hall); exists fills, prev'; by eauto.
  destruct (event_value_total e) as (v & Hv). rewrite Hv. cbn.
  pose proof (Hmints ctx e v (Z.of_nat i) (clamp_accepted_at now created prev) (event_value_ok _ _ Hv)) as Hr.
  destruct (mint ctx v _ _) as [r|]; [|done]. cbn.
  destruct (IH (S i) (Some (accepted_at r))) as (fills & prev' & -> & Hnd & Hall). cbn.
  eexists _, _. split; [done|]. split.
  - cbn. constructor; [|done]. intros (f & Hf & Hin)%list_elem_of_fmap. rewrite Forall_forall in Hall.
    destruct (Hall f Hin). lia.
  - constructor; [|by apply Hlift]. cbn. split; [done|]. rewrite Nat.sub_diag. by exists e.
Qed.

(** Exactly one row answers to the update of an empty slot. *)
Lemma update_hits ctx i ev slots db :
  events_wf db → slots_from_rows 0 (select_events ctx db) = Ok slots →
  slots !! i = Some (ev, RNull) →
  length (List.filter (fill_matches ctx (event_id ev)) (lifecycle_events db)) = 1.
Proof.
  intros [Hw Hnd] Hsl Hi. apply slots_from_rows_spec in Hsl as [Hlen Hall].
  destruct (select_events ctx db !! i) as [e|] eqn:He;
    [|apply lookup_ge_None in He; apply lookup_lt_Some in Hi; lia].
  destruct (Hall i e He) as (s & Hs & Hfe). rewrite Hi in Hs. injection Hs as <-.
  apply list_elem_of_lookup_2, elem_of_select_events in He as [Hc Hin].
  destruct (Hw e Hin) as (ev' & Hwe). destruct (slot_of_written e ev' (0 + i) Hwe) as (Hsl & _ & Hid).
  rewrite Hsl in Hfe. injection Hfe as -> Hnull. apply decode_null in Hnull.
  assert (e_receipt e = None) as Hnone by (by destruct (e_receipt e)).
  assert (fill_matches ctx (event_id ev) e = true) as Hm.
  { unfold fill_matches. rewrite Hnone Hc Hid. rewrite !(bool_decide_true (_ = _)) //. }
  apply (NoDup_map_List_filter _ (fill_matches ctx (event_id ev))) in Hnd.
  assert (In e (List.filter (fill_matches ctx (event_id ev)) (lifecycle_events db))) as Hf
    by (apply filter_In; split; [by apply list_elem_of_In|done]).
  assert (∀ x, In x (List.filter (fill_matches ctx (event_id ev)) (lifecycle_events db)) →
    (e_ctx_id x, e_event_id x) = (ctx, event_id ev)) as Hkey.
  { intros x [_ Hx]%filter_In. unfold fill_matches in Hx. bool_to_prop. congruence. }
  destruct (List.filter _ _) as [|x [|y l]]; [done|done|]. exfalso. cbn in Hnd.
  apply NoDup_cons in Hnd as [Hn _]. apply Hn. rewrite (Hkey x (or_introl eq_refl)).
  rewrite -(Hkey y); [set_solver|cbn; auto].
Qed.

Lemma write_fills_total what ctx slots0 fills : ∀ db slots,
  events_wf db → slots_from_rows 0 (select_events ctx db) = Ok slots →
  map fst slots = map fst slots0 →
  Forall (λ f : nat * EventReceipt,
    ∀ s, slots0 !! f.1 = Some s → bound_at ctx f.1 (s.1, RValid f.2)) fills →
  NoDup (map fst fills) → Forall (λ f : nat * EventReceipt, ∃ e, slots !! f.1 = Some (e, RNull)) fills →
  ∃ db', write_fills what ctx slots0 fills [] db = Ok (tt, [], db').
Proof.
  induction fills as [|[i r] fills IH]; intros db slots Hwf Hsl Hfst Hb Hnd Hnull; [by eexists|].
  apply Forall_cons in Hb as [Hbi Hb]. apply Forall_cons in Hnull as [(ev & Hi) Hnull].
  cbn in Hnd. apply NoDup_cons in Hnd as [Hn Hnd]. cbn in Hi, Hbi.
  destruct (slots0 !! i) as [s0|] eqn:Hs0; cycle 1.
  { apply (f_equal (λ l, l !! i)) in Hfst. rewrite !list_lookup_fmap Hs0 Hi in Hfst. done. }
  assert (s0.1 = ev) as Hse.
  { apply (f_equal (λ l, l !! i)) in Hfst. rewrite !list_lookup_fmap Hs0 Hi in Hfst. by injection Hfst. }
  destruct (receipt_value_total r) as (v & Hv).
  cbn [write_fills]. unfold tx_bind at 1, tx_lift at 1. rewrite Hv. cbn [tx_lift].
  unfold tx_bind at 1, tx_lift at 1. rewrite Hs0. cbn [ok_or]. unfold tx_bind at 1, stmt at 1.
  destruct (update_receipt ctx (event_id s0.1) (value_text v) db) as [n db1] eqn:Hu.
  assert (n = 1) as ->.
  { unfold update_receipt in Hu. injection Hu as <- _. rewrite Hse. by eapply update_hits. }
  cbn [tail Nat.eqb negb].
  pose proof (update_receipt_only _ _ _ _ _ _ Hu) as Hro. rewrite Hse in Hu.
  eapply (IH db1 (alter (λ x : Slot, (x.1, RValid r)) i slots)); [by eapply events_wf_only| | |done|done|].
  - eapply (update_receipt_slot ctx i (ev, RNull) r v db 1 db1 slots); try done.
    cbn. rewrite -Hse. by apply Hbi.
  - rewrite -Hfst. clear. revert i. induction slots as [|x l IH]; intros [|i]; cbn; try done.
    f_equal. apply IH.
  - rewrite Forall_forall in Hnull. apply Forall_forall. intros f Hf.
    destruct (Hnull f Hf) as (e & He). exists e. rewrite list_lookup_alter_ne; [done|].
    intros ->. apply Hn. by apply list_elem_of_fmap_2.
Qed.

(** A slot is empty exactly when its row has no receipt. *)
Lemma null_slots ctx db slots :
  events_wf db → slots_from_rows 0 (select_events ctx db) = Ok slots →
  (∃ e, (e, RNull) ∈ slots) ↔ ctx ∈ null_ids db.
Proof.
  intros [Hw _] Hsl. apply slots_from_rows_spec in Hsl as [Hlen Hall]. rewrite elem_of_null_ids.
  assert (∀ i e, select_events ctx db !! i = Some e →
    ∃ ev s, slots !! i = Some (ev, s) ∧ (s = RNull ↔ e_receipt e = None)) as Hrow.
  { intros i e He. destruct (Hall i e He) as (s & Hs & Hfe).
    apply list_elem_of_lookup_2, elem_of_select_events in He as [_ Hin].
    destruct (Hw e Hin) as (ev & Hwe). destruct (slot_of_written e ev (0 + i) Hwe) as (Hsl & _).
    rewrite Hsl in Hfe. injection Hfe as <-. eexists _, _. split; [exact Hs|].
    rewrite decode_null. by destruct (e_receipt e). }
  split.
  - intros (ev & [i Hi]%list_elem_of_lookup).
    destruct (select_events ctx db !! i) as [e|] eqn:He;
      [|apply lookup_ge_None in He; apply lookup_lt_Some in Hi; lia].
    destruct (Hrow i e He) as (ev' & s & Hs & Hn). rewrite Hi in Hs. injection Hs as <- <-.
    apply list_elem_of_lookup_2, elem_of_select_events in He as [Hc Hin]. exists e. naive_solver.
  - intros (e & Hin & Hc & Hn). assert (e ∈ select_events ctx db) as [i Hi]%list_elem_of_lookup
      by by apply elem_of_select_events.
    destruct (Hrow i e Hi) as (ev & s & Hs & Hnull). exists ev.
    apply Hnull in Hn as ->. by eapply list_elem_of_lookup_2.
Qed.

(** The driver does what it is told. *)
Definition no_fault (env : TxEnv) : Prop :=
  tx_begin env = None ∧ tx_faults env = [] ∧ tx_commit env = CommitDone ∧ tx_rollback env = None.

Lemma backfill_ctx_fills env c report now db row :
  no_fault env → store_wf db → select_ctx c db = Some row →
  ∃ report' db', backfill_ctx env mint c report now db = (Ok report', db') ∧
    contexts_skipped report' = contexts_skipped report ∧
    store_wf db' ∧ receipts_only db db' ∧ c ∉ null_ids db'.
Proof.
  intros (Hbegin & Hf & Hcommit & Hrb) Hwf Hrow.
  apply select_ctx_Some in Hrow as Hmem. destruct Hmem as [Hin Hid].
  destruct (wf_rows _ Hwf row Hin) as (b & slots & Hd & Hh). destruct Hh as [Hsl Hok Hhole _ _].
  rewrite Hid in Hsl, Hok. destruct (row_to_context_ok row b Hd) as (rc & Hctx).
  destruct (fill_nulls_total c (body_created_at b) now slots 0 (latest_accepted_at slots))
    as (fills & prev' & Hfill & Hnd & Hnull).
  assert (plan_backfill mint c (body_created_at b) slots now =
          Ok (if is_empty fills then BComplete else BFill fills)) as Hplan.
  { unfold plan_backfill, fill_nulls. by rewrite Hhole Hfill. }
  pose proof (backfill_ctx_wf env mint c report now db Hsigns Hwf) as Hwf'.
  unfold backfill_ctx, transaction in *. rewrite Hbegin Hf in Hwf' |- *.
  unfold backfill_body, query, stmt, tx_bind, tx_lift in *. rewrite Hrow in Hwf' |- *. cbn [tail] in *.
  rewrite Hctx Hsl in Hwf' |- *. cbn [and_then fc_body full_context] in *.
  rewrite (dec_ctx_id _ _ Hd) Hid Hplan in Hwf' |- *.
  destruct fills as [|f fills]; cbn [is_empty] in *.
  - unfold end_sweep_tx, tx_ret in *. cbn in *. rewrite Hrb. eexists _, _. split; [done|]. split; [done|].
    split; [done|]. split; [apply receipts_only_refl|].
    rewrite -(null_slots c db slots); [|by apply store_events_wf|done]. intros (e & He).
    destruct (fill_nulls_complete mint c (body_created_at b) slots now [] prev') as (_ & Hall & _);
      [done..|]. cbn in Hall. unfold all_receipted in Hall. rewrite Forall_forall in Hall.
    destruct (Hall _ He) as [? ?]. done.
  - pose proof (backfill_bound mint c _ slots now _ Hsigns Hplan) as Hb.
    destruct (write_fills_total "event receipt sweep fill" c slots (f :: fills) db slots) as (db' & Hw);
      [by apply store_events_wf|done|done|done|done| |].
    { eapply Forall_impl; [exact Hnull|]. cbn. intros g [_ Hg]. by rewrite Nat.sub_0_r in Hg. }
    rewrite Hw in Hwf' |- *. unfold tx_ret in *. rewrite Hcommit in Hwf' |- *. cbn [snd] in Hwf'.
    eexists _, db'. split; [done|]. split; [done|]. split; [done|].
    destruct (write_fills_ok "event receipt sweep fill" c slots (f :: fills) [] db tt [] db' slots) as (Hro & Hsl' & _);
      [by apply store_events_wf|done|done|done|done|].
    split; [done|]. rewrite -(null_slots c db' _ ltac:(by apply store_events_wf) Hsl').
    intros (e & He). destruct (plan_backfill_ok mint c (body_created_at b) slots now (f :: fills))
      as (_ & Hall & _); [done|done|done|].
    unfold all_receipted in Hall. rewrite Forall_forall in Hall. destruct (Hall _ He) as [? ?]. done.
Qed.

Lemma sweep_batch_fills envs clock ids : ∀ report db,
  (∀ c, no_fault (envs c)) → store_wf db → (∀ c, c ∈ ids → is_Some (select_ctx c db)) →
  ∃ report' db', sweep_batch envs clock mint ids report db = (Ok report', db') ∧
    contexts_skipped report' = contexts_skipped report ∧
    store_wf db' ∧ receipts_only db db' ∧ ∀ c, c ∈ ids → c ∉ null_ids db'.
Proof.
  induction ids as [|id ids IH]; intros report db Henv Hwf Hrows; cbn.
  { eexists _, _. split; [done|]. split; [done|]. split; [done|]. split; [apply receipts_only_refl|].
    by intros c ?%elem_of_nil. }
  destruct (Hrows id) as [row Hrow]; [set_solver|].
  destruct (backfill_ctx_fills (envs id) id report (clock id) db row (Henv id) Hwf Hrow)
    as (rep1 & db1 & Hb & Hskip1 & Hwf1 & Hro1 & Hn1). rewrite Hb.
  destruct (IH rep1 db1 Henv Hwf1) as (rep2 & db2 & Hs & Hskip2 & Hwf2 & Hro2 & Hn2).
  { intros c Hc. unfold select_ctx. rewrite (ro_contexts _ _ Hro1). apply Hrows. set_solver. }
  eexists _, _. split; [exact Hs|]. split; [congruence|]. split; [done|].
  split; [by eapply receipts_only_trans|]. intros c [->|Hc]%elem_of_cons; [|by apply Hn2].
  intros Hc. apply Hn1. by eapply sweep_batch_nulls in Hs; apply Hs.
Qed.

(** Every pending context below the last one of a page is on the page. *)
Lemma sweep_page_covers after l db c :
  last (sweep_ids after db) = Some l → c ∈ null_ids db → text_ltb after c = true →
  text_ltb l c = false → c ∈ sweep_ids after db.
Proof.
  intros Hlast Hc Hac Hlc. unfold sweep_ids in *.
  assert (c ∈ merge_sort text_order (elements (pending after db))) as Hin.
  { rewrite (merge_sort_Permutation text_order) elem_of_elements. unfold pending. by apply elem_of_filter. }
  assert (NoDup (merge_sort text_order (elements (pending after db)))) as Hnd
    by (rewrite (merge_sort_Permutation text_order); apply NoDup_elements).
  assert (StronglySorted text_order (merge_sort text_order (elements (pending after db)))) as Hs.
  { apply StronglySorted_merge_sort.
    - intros x y z. unfold text_order, text_leb. rewrite !bytes_leb_spec.
      intros [Hxy|Hxy] [Hyz|Hyz]; [left; congruence|right; congruence|right; congruence|right].
      by eapply bytes_ltb_trans.
    - intros x y. unfold text_order, text_leb. rewrite !bytes_leb_spec.
      destruct (bytes_ltb_total (as_bytes x) (as_bytes y)) as [?|[?|?]]; auto. }
  set (L := merge_sort text_order _) in *. rewrite -(take_drop SWEEP_BATCH L) in Hin, Hnd, Hs.
  apply elem_of_app in Hin as [|Hin]; [done|]. exfalso.
  apply last_Some in Hlast as [l' Hl']. apply StronglySorted_app in Hs as (Hcross & _ & _).
  assert (l ∈ take SWEEP_BATCH L) as Hlin by (rewrite Hl'; set_solver).
  specialize (Hcross l c Hlin Hin). unfold text_order, text_leb in Hcross. rewrite bytes_leb_spec in Hcross.
  destruct Hcross as [Heq|Hlt]; [|unfold text_ltb in Hlc; congruence].
  apply (inj as_bytes) in Heq as ->. apply NoDup_app in Hnd as (_ & Hno & _). by apply (Hno c).
Qed.

Lemma sweep_loop_fills envs clock : ∀ fuel i after report db,
  (∀ c, no_fault (envs c)) → store_wf db →
  (∀ c, c ∈ null_ids db → c ≠ EmptyString → text_ltb after c = true) →
  (size (pending after db) < fuel)%nat →
  ∃ report' db', sweep_loop fuel envs clock mint (λ _, None) i after report db = Some (Ok report', db') ∧
    contexts_skipped report' = contexts_skipped report ∧ receipts_only db db' ∧
    ∀ c, c ∈ null_ids db' → c = EmptyString.
Proof.
  induction fuel as [|fuel IH]; intros i after report db Henv Hwf Hdone Hf; [lia|]. cbn [sweep_loop].
  destruct (last (sweep_ids after db)) as [l|] eqn:Hlast; cycle 1.
  { eexists _, _. split; [done|]. split; [done|]. split; [apply receipts_only_refl|]. intros c Hc.
    destruct (decide (c = EmptyString)) as [|Hne]; [done|]. exfalso.
    assert (c ∈ pending after db) as Hp by (unfold pending; apply elem_of_filter; by auto).
    apply last_None in Hlast. unfold sweep_ids in Hlast.
    assert (c ∈ merge_sort text_order (elements (pending after db))) as Hm
      by (rewrite (merge_sort_Permutation text_order); by apply elem_of_elements).
    destruct (merge_sort text_order _); [by apply elem_of_nil in Hm|done]. }
  assert (l ∈ sweep_ids after db) as Hl by (apply last_Some in Hlast as [? ->]; set_solver).
  destruct (sweep_batch_fills envs clock (sweep_ids after db) report db Henv Hwf)
    as (rep1 & db1 & Hb & Hskip1 & Hwf1 & Hro1 & Hn1).
  { intros c [_ (e & He & <- & _)%elem_of_null_ids]%elem_of_sweep_ids.
    destruct (wf_event_rows _ Hwf e He) as [_ (r & Hr & <-)].
    rewrite (select_ctx_unique db r (wf_published _ Hwf) Hr). by eexists. }
  rewrite Hb. pose proof (sweep_batch_nulls _ _ _ _ _ _ _ _ Hb) as Hsub.
  destruct (IH (S i) l rep1 db1 Henv Hwf1) as (rep2 & db2 & Hs & Hskip2 & Hro2 & Hall).
  - intros c Hc Hne. destruct (text_ltb l c) eqn:Hlc; [done|]. exfalso. apply (Hn1 c); [|done].
    apply (sweep_page_covers after l); [done|by apply Hsub|by apply Hdone; [apply Hsub|]|done].
  - pose proof (pending_shrinks after l db db1 Hl Hsub). lia.
  - eexists _, _. split; [exact Hs|]. split; [congruence|]. split; [by eapply receipts_only_trans|done].
Qed.

(** A sweep that meets no failure leaves no event without a receipt. From any
    reachable store, with a minter and codecs that do not fail and a driver that does
    not, the loop ends within one page more than there are pending contexts, skips no
    context, changes nothing but receipts that were missing, and afterwards every
    event of every context has one. *)
Theorem sweep_leaves_no_gap (st : SqliteStore) (envs : string → TxEnv) (clock : string → Z)
    (db : SqliteDb) (fuel : nat) :
  reachable db → event_receipt_minter st = Some mint → (∀ c, no_fault (envs c)) →
  (size (null_ids db) < fuel)%nat →
  ∃ report db', backfill_event_receipts fuel st envs clock (λ _, None) db = Some (Ok report, db') ∧
    contexts_skipped report = 0%Z ∧ receipts_only db db' ∧
    ∀ e, e ∈ lifecycle_events db' → e_ctx_id e ≠ EmptyString → is_Some (e_receipt e).
Proof.
  intros Hreach Hst Henv Hf. pose proof (reachable_wf _ Hreach) as Hwf.
  unfold backfill_event_receipts. rewrite Hst.
  destruct (sweep_loop_fills envs clock fuel 0 EmptyString (mkReport 0 0 0) db Henv Hwf)
    as (report & db' & Hs & Hskip & Hro & Hall).
  - intros c _ Hne. destruct c; [done|]. by vm_compute.
  - eapply Nat.le_lt_trans; [|exact Hf]. apply subseteq_size. unfold pending.
    intros c [_ Hc]%elem_of_filter. done.
  - exists report, db'. split; [done|]. split; [done|]. split; [done|]. intros e He Hne.
    destruct (e_receipt e) eqn:Hr; [by eexists|]. destruct Hne. apply Hall, elem_of_null_ids. by exists e.
Qed.
End laws.
End sweep.
