(* ===== verification/StoreExample.v ===== *)
(** * A concrete store

    The classes the SQLite store is written against, with concrete functions: columns
    are written as the bits of a generic tree, an id is drawn by counting, and an
    attestation is the metadata of its body. The theorems of [SqliteReads] and
    [SqliteTheorems] are applied to a run of this store at the end. *)

From Stdlib Require Import Ascii.
From S2P Require Import Prelude Text Errors ContextTypes ChangeBucket ChangeFeed FeedBackends.
From S2P Require Import EventReceipts KeyAttestations SqlTx SqliteStore SqlitePublish SqliteInvariants.
From S2P Require Import PageCursors SqliteLifecycle SqliteReach SqliteReads SqliteTheorems SqliteListing SqliteLog SqliteSweep.

Open Scope registry_scope.

Module StoreExample.
Import EventExample.

(** ** Text of trees *)

Notation Tree := (gen_tree (string + Z)).

Fixpoint bits (p : positive) : string :=
  match p with
  | xH => EmptyString
  | xO p => String "0"%char (bits p)
  | xI p => String "1"%char (bits p)
  end.

Fixpoint unbits (s : string) : positive :=
  match s with
  | EmptyString => xH
  | String c s => if bool_decide (c = "1"%char) then xI (unbits s) else xO (unbits s)
  end.

Lemma unbits_bits p : unbits (bits p) = p.
Proof. induction p as [p IH|p IH|]; simpl; [by rewrite IH|by rewrite IH|done]. Qed.

Definition tree_text (t : Tree) : string := bits (encode t).
Definition tree_parse (s : string) : option Tree := decode (unbits s).

Lemma tree_inverse t : tree_parse (tree_text t) = Some t.
Proof. unfold tree_parse, tree_text. rewrite unbits_bits. apply decode_encode. Qed.

Definition leaf_s (s : string) : Tree := GenLeaf (inl s).
Definition leaf_z (z : Z) : Tree := GenLeaf (inr z).
Definition node_o {A} (f : A → Tree) (o : option A) : Tree :=
  match o with Some a => GenNode 1 [f a] | None => GenNode 0 [] end.
Definition node_l (l : list string) : Tree := GenNode 2 (map leaf_s l).

Definition un_s (t : Tree) : option string := match t with GenLeaf (inl s) => Some s | _ => None end.
Definition un_z (t : Tree) : option Z := match t with GenLeaf (inr z) => Some z | _ => None end.
Definition un_o {A} (f : Tree → option A) (t : Tree) : option (option A) :=
  match t with
  | GenNode 0 [] => Some None
  | GenNode 1 [t] => Some <$> f t
  | _ => None
  end.
Definition un_l (t : Tree) : option (list string) :=
  match t with GenNode 2 l => mapM un_s l | _ => None end.

Lemma un_o_inverse {A} (f : A → Tree) g o : (∀ a, g (f a) = Some a) → un_o g (node_o f o) = Some o.
Proof. intros Hg. destruct o; simpl; [by rewrite Hg|done]. Qed.

Lemma un_l_inverse l : un_l (node_l l) = Some l.
Proof. simpl. induction l as [|s l IH]; [done|]. simpl. by rewrite IH. Qed.

(** ** Values *)

Fixpoint value_tree (v : Value) : Tree :=
  match v with
  | VNull => GenNode 0 []
  | VBool true => GenNode 1 []
  | VBool false => GenNode 2 []
  | VNumber s => GenNode 3 [leaf_s s]
  | VString s => GenNode 4 [leaf_s s]
  | VArray l => GenNode 5 (map value_tree l)
  | VObject l => GenNode 6 (map (λ m, GenNode 0 [leaf_s m.1; value_tree m.2]) l)
  end.

Fixpoint tree_value (t : Tree) : Value :=
  match t with
  | GenNode 1 _ => VBool true
  | GenNode 2 _ => VBool false
  | GenNode 3 [GenLeaf (inl s)] => VNumber s
  | GenNode 4 [GenLeaf (inl s)] => VString s
  | GenNode 5 l => VArray (map tree_value l)
  | GenNode 6 l =>
      VObject (map (λ m, match m with
                         | GenNode _ [GenLeaf (inl k); v] => (k, tree_value v)
                         | _ => (EmptyString, VNull)
                         end) l)
  | _ => VNull
  end.

Lemma tree_value_inverse : ∀ v, tree_value (value_tree v) = v.
Proof.
  fix IH 1. intros [|[]|s|s|l|l]; [done|done|done|done|done|simpl; f_equal..];
    rewrite map_map; induction l as [|x l IHl]; [done| |done|]; simpl; f_equal; try exact IHl.
  - apply IH.
  - destruct x as [k v]. simpl. by rewrite IH.
Qed.

(** ** Bodies and responses *)

Definition tag_type (t : ContextType) : Tree :=
  match t with
  | DataSnapshot => leaf_z 0%Z
  | Analysis => leaf_z 1%Z
  | Prediction => leaf_z 2%Z
  | Alert => leaf_z 3%Z
  | CtKeyRevocation => leaf_z 4%Z
  | CtCustom s => leaf_s s
  end.

Definition type_tag (t : Tree) : option ContextType :=
  match t with
  | GenLeaf (inl s) => Some (CtCustom s)
  | GenLeaf (inr 0%Z) => Some DataSnapshot
  | GenLeaf (inr 1%Z) => Some Analysis
  | GenLeaf (inr 2%Z) => Some Prediction
  | GenLeaf (inr 3%Z) => Some Alert
  | GenLeaf (inr 4%Z) => Some CtKeyRevocation
  | _ => None
  end.

Definition tag_visibility (v : Visibility) : Tree :=
  leaf_z match v with Public => 0%Z | Restricted => 1%Z | Private => 2%Z end.

Definition visibility_tag (t : Tree) : option Visibility :=
  match t with
  | GenLeaf (inr 0%Z) => Some Public
  | GenLeaf (inr 1%Z) => Some Restricted
  | GenLeaf (inr 2%Z) => Some Private
  | _ => None
  end.

Definition tag_status (s : Status) : Tree :=
  match s with
  | Active => leaf_z 0%Z
  | SupersededStatus => leaf_z 1%Z
  | Expired => leaf_z 2%Z
  | Retracted => leaf_z 3%Z
  | OtherStatus s => leaf_s s
  end.

Definition status_tag (t : Tree) : option Status :=
  match t with
  | GenLeaf (inl s) => Some (OtherStatus s)
  | GenLeaf (inr 0%Z) => Some Active
  | GenLeaf (inr 1%Z) => Some SupersededStatus
  | GenLeaf (inr 2%Z) => Some Expired
  | GenLeaf (inr 3%Z) => Some Retracted
  | _ => None
  end.

Definition body_tree (b : Body) : Tree :=
  GenNode 0
    [leaf_s (body_ctx_id b); leaf_s (body_lineage_id b); leaf_s (body_agent_id b);
     leaf_z (if body_is_key_revocation b then 1 else 0)%Z; node_o value_tree (body_metadata b);
     leaf_s (body_origin_registry b); leaf_z (body_created_at b); tag_type (body_context_type b);
     leaf_z (body_version b); node_o leaf_s (body_supersedes b); node_l (body_contributors b);
     tag_visibility (body_visibility b); node_o node_l (body_audience b);
     node_o leaf_z (body_expires_at b); leaf_s (body_content_hash b);
     leaf_s (sig_algorithm (body_signature b)); leaf_s (sig_key_id (body_signature b));
     leaf_s (sig_value (body_signature b));
     leaf_s (body_title b); node_o leaf_s (body_description b); node_o leaf_s (body_summary b);
     node_o leaf_s (body_domain b); node_o node_l (body_tags b); node_l (body_derived_from b);
     node_o leaf_s (body_schema_uri b); node_o leaf_z (fst <$> body_data_period b);
     node_o leaf_z (snd <$> body_data_period b)].

Definition tree_body (t : Tree) : option Body :=
  match t with
  | GenNode _ [c; l; a; k; m; o; t; ty; v; s; cs; vi; au; ex; h; sa; sk; sv; ti; de; su; dm; tg; df; sc; ps; pf] =>
      c ← un_s c; l ← un_s l; a ← un_s a; k ← un_z k; m ← un_o (λ t, Some (tree_value t)) m;
      o ← un_s o; t ← un_z t; ty ← type_tag ty; v ← un_z v; s ← un_o un_s s; cs ← un_l cs;
      vi ← visibility_tag vi; au ← un_o un_l au; ex ← un_o un_z ex; h ← un_s h; sa ← un_s sa;
      sk ← un_s sk; sv ← un_s sv; ti ← un_s ti; de ← un_o un_s de; su ← un_o un_s su; dm ← un_o un_s dm;
      tg ← un_o un_l tg; df ← un_l df; sc ← un_o un_s sc; ps ← un_o un_z ps; pf ← un_o un_z pf;
      Some (mkBody c l a (k =? 1)%Z m o t ty v s cs vi au ex h (mkSignature sa sk sv) ti de su dm tg df sc
              (ps ≫= λ a, pair a <$> pf))
  | _ => None
  end.

Lemma type_tag_inverse t : type_tag (tag_type t) = Some t.
Proof. by destruct t. Qed.
Lemma visibility_tag_inverse t : visibility_tag (tag_visibility t) = Some t.
Proof. by destruct t. Qed.
Lemma status_tag_inverse t : status_tag (tag_status t) = Some t.
Proof. by destruct t. Qed.

Lemma tree_body_inverse b : tree_body (body_tree b) = Some b.
Proof.
  destruct b as [c l a k m o t ty v s cs vi au ex h [sa sk sv] ti de su dm tg df sc dp].
  unfold body_tree, tree_body.
  cbn [body_ctx_id body_lineage_id body_agent_id body_is_key_revocation body_metadata
       body_origin_registry body_created_at body_context_type body_version body_supersedes
       body_contributors body_visibility body_audience body_expires_at body_content_hash
       body_signature sig_algorithm sig_key_id sig_value body_title body_description body_summary
       body_domain body_tags body_derived_from body_schema_uri body_data_period
       un_s un_z leaf_s leaf_z mbind option_bind].
  rewrite (un_o_inverse value_tree); [|intros; by rewrite tree_value_inverse]. cbn [mbind option_bind].
  rewrite type_tag_inverse. cbn [mbind option_bind].
  rewrite (un_o_inverse leaf_s) //. cbn [mbind option_bind].
  rewrite un_l_inverse. cbn [mbind option_bind]. rewrite visibility_tag_inverse. cbn [mbind option_bind].
  rewrite (un_o_inverse node_l); [|apply un_l_inverse]. cbn [mbind option_bind].
  rewrite (un_o_inverse leaf_z) //. cbn [mbind option_bind un_s leaf_s].
  do 3 (rewrite (un_o_inverse leaf_s) //; cbn [mbind option_bind]).
  rewrite (un_o_inverse node_l); [|apply un_l_inverse]. cbn [mbind option_bind].
  rewrite un_l_inverse. cbn [mbind option_bind]. rewrite (un_o_inverse leaf_s) //. cbn [mbind option_bind].
  do 2 (rewrite (un_o_inverse leaf_z) //; cbn [mbind option_bind]). destruct k, dp as [[ps pf]|]; done.
Qed.

Definition response_tree (r : PublishResponse) : Tree :=
  GenNode 0 [leaf_s (resp_ctx_id r); leaf_s (resp_lineage_id r); leaf_z (resp_version r);
             leaf_z (resp_created_at r); tag_status (resp_status r);
             node_o value_tree (resp_registry_receipt r)].

Definition tree_response (t : Tree) : option PublishResponse :=
  match t with
  | GenNode _ [c; l; v; t; s; r] =>
      c ← un_s c; l ← un_s l; v ← un_z v; t ← un_z t; s ← status_tag s;
      r ← un_o (λ t, Some (tree_value t)) r; Some (mkResponse c l v t s r)
  | _ => None
  end.

Lemma tree_response_inverse r : tree_response (response_tree r) = Some r.
Proof.
  destruct r as [c l v t s rc]. unfold response_tree, tree_response.
  cbn [resp_ctx_id resp_lineage_id resp_version resp_created_at resp_status resp_registry_receipt
       un_s un_z leaf_s leaf_z mbind option_bind].
  rewrite status_tag_inverse. cbn [mbind option_bind].
  rewrite (un_o_inverse value_tree); [done|]. intros. by rewrite tree_value_inverse.
Qed.

(** ** The classes *)

Definition parse_as {A} (what : string) (f : Tree → option A) (s : string) : result A string :=
  ok_or (tree_parse s ≫= f) what.

Lemma parse_as_inverse {A} what (f : Tree → option A) t a :
  f t = Some a → parse_as what f (tree_text t) = Ok a.
Proof. intros Hf. unfold parse_as. rewrite tree_inverse. simpl. by rewrite Hf. Qed.

(** The signature of an event is the id of its key. A leaf is its context and
    receipt. An instant is written as a number of fixed width. *)
#[export] Instance ledger_codec : StoreCodec := {|
  body_text := λ b, Ok (tree_text (body_tree b));
  body_parse := parse_as "body" tree_body;
  strings_text := λ l, Ok (tree_text (node_l l));
  strings_parse := parse_as "strings" un_l;
  value_text := λ v, tree_text (value_tree v);
  value_parse := parse_as "value" (λ t, Some (tree_value t));
  response_text := λ r, Ok (tree_text (response_tree r));
  response_parse := parse_as "response" tree_response;
  rfc3339 := λ t, from_bytes (to_be_bytes 16 (t + 2 ^ 100));
  from_timestamp_millis := λ ms, Some (ms * ns_per_ms)%Z;
  event_type_text := λ e, type_text (ev_type e);
  event_occurred_text := λ e, "2026-01-01T00:00:00Z";
  event_actor := ev_actor;
  event_reason := ev_reason;
  event_signature_text := λ e, Ok ((λ k, tree_text (value_tree (VString k))) <$> ev_key e);
  receipt_preimage_hash := λ v, Ok (tree_text (value_tree v));
  leaf_canonical_bytes := λ l, Ok (as_bytes (leaf_ctx_id l));
  merkle_leaf_hash := λ b, "sha256:" +:+ tree_text (GenNode 0 (map leaf_z b));
  bytes_to_string := λ b, Ok (tree_text (GenNode 0 (map leaf_z b)))
|}.

#[export] Instance ledger_codec_laws : StoreCodecLaws.
Proof.
  constructor.
  - intros b t [= <-]. apply parse_as_inverse, tree_body_inverse.
  - intros l t [= <-]. apply parse_as_inverse, un_l_inverse.
  - intros v. apply parse_as_inverse. by rewrite tree_value_inverse.
  - intros r t [= <-]. apply parse_as_inverse, tree_response_inverse.
  - by intros ms t [= <-].
  - intros [i c t a r k] sig tenant rc [= <-]. unfold event_from_row, event_row. cbn [e_signature].
    destruct k as [k|]; cbn [fmap option_fmap option_map ev_key].
    + assert (value_parse (tree_text (GenNode 4 [leaf_s k])) = Ok (VString k)) as -> by by apply (parse_as_inverse "value" (λ t, Some (tree_value t))).
      by destruct t, r.
    + by destruct t, r.
Qed.

(** A context id is its draw, a lineage id the first context's id under a prefix. *)
#[export] Instance ledger_publish : PublishSdk := {|
  from_publish_request := λ r c l a t,
    mkBody c l (req_agent_id r) (bool_decide (req_context_type r = CtKeyRevocation)) (req_metadata r)
      a t (req_context_type r) (req_version r) (req_supersedes r) (req_contributors r)
      (req_visibility r) (req_audience r) (req_expires_at r) (req_content_hash r) (req_signature r)
      ("report " +:+ req_content_hash r) None None (Some "weather") (Some ["daily"; "rain"]) (req_derived_from r) None None;
  assign_identifiers := λ a s f draw,
    let c := "ctx" +:+ tree_text (leaf_z draw) in
    match s, f with
    | None, None => Ok (c, "lin:" +:+ c)
    | Some _, Some f => Ok (c, "lin:" +:+ f)
    | _, _ => Err (SchemaViolation "no first version")
    end;
  lineage_of := λ c, "lin:" +:+ c
|}.

#[export] Instance ledger_publish_laws : PublishSdkLaws.
Proof.
  constructor; try done.
  - by intros a d c l [= <- <-].
  - by intros a p f d c l [= <- <-].
  - intros c c' [=]. done.
Qed.

(** A key is keyless when its id starts with the byte of a hash sign; the attested
    identity and window are the metadata's two members. *)
Definition metadata_attestation (v : Value) : result KeyAttestation AcdpError :=
  match value_get v "controller", value_get v "token" with
  | Some (VString c), Some (VString t) =>
      Ok (mkKeyAttestation c (Spiffe c) false ("#" +:+ c) "ed25519" c 0 (1000 * ns_per_sec) t (mkJwk c None))
  | _, _ => Err (SchemaViolation "attestation")
  end.

#[export] Instance ledger_keyless : KeylessSdk := {|
  KEY_ATTESTATION_TYPE := "key-attestation";
  is_keyless_key_id := λ k, String.prefix "#" k;
  keyless_key_id := λ c f, Ok ("#" +:+ f);
  may_supersede := λ _ _, Ok tt;
  keyless_error := λ _ m, SchemaViolation m;
  attestation_from_body := λ b,
    match body_metadata b with Some m => metadata_attestation m | None => Err (SchemaViolation "attestation") end;
  attestation_from_metadata := metadata_attestation;
  body_key_attestation := λ b, Ok None;
  authority_to_did_web := λ a, "did:web:" +:+ a;
  keyless_display := λ _, EmptyString
|}.

(** ** A run *)

Definition ok_env : TxEnv := mkTxEnv None [] CommitDone None.

Definition request (agent : string) (version : Z) (supersedes : option string) (hash : string) :
    PublishRequest :=
  mkRequest agent version supersedes None hash DataSnapshot (mkSignature "ed25519" "k1" "AA") None
    ["did:web:c"] Public None None None None None [].

Definition receipt_of (b : Body) : result Value AcdpError :=
  Ok (VObject [("lineage", VString (body_lineage_id b)); ("key_fingerprint", VString "fp")]).

Definition commit_of (req : PublishRequest) (key : option (string * Z)) (tenant : option string) :
    PublishCommit :=
  mkPublishCommit req "reg.test" key tenant (Some receipt_of) None.

Definition store1 : SqliteStore := mkStore true (Some ledger_mint).

Definition db0 : SqliteDb := empty_db (mkChangesDb true [] 0 0 None).

Definition hour : Z := 3600 * ns_per_sec.

Definition first : PublishCommit :=
  commit_of (request "did:web:a" 1 None "h1") (Some ("key-1", hour)) (Some "t1").
Definition id1 : string := "ctx" +:+ tree_text (leaf_z 1).
Definition second : PublishCommit := commit_of (request "did:web:c" 2 (Some id1) "h2") None (Some "t1").
Definition id2 : string := "ctx" +:+ tree_text (leaf_z 2).

Definition db1 : SqliteDb := (commit_publish store1 ok_env first 5000000 5 1 db0).2.
Definition db2 : SqliteDb := (commit_publish store1 ok_env second 6000000 6 2 db1).2.
Definition db3 : SqliteDb :=
  (commit_lifecycle_event store1 ok_env (mkEv "e1" id2 RetractedEvent) 7000000 db2).2.

Example run_published :
  map c_status (contexts db3) = ["superseded"; "active"] ∧ map c_version (contexts db3) = [1; 2]%Z ∧
  map c_retracted (contexts db3) = [0; 1]%Z ∧ length (log_leaves db3) = 2 ∧
  length (changes (changes_db db3)) = 2.
Proof. vm_compute. done. Qed.

Lemma store1_signs : minters_sign store1.
Proof. intros m [= <-]. apply ledger_mint_signs. Qed.

Lemma step_publish_at (P : Z → Prop) st env commit now ms draw db :
  P now → store_run P db (commit_publish st env commit now ms draw db).2.
Proof.
  intros HP. eapply rtc_steps_step; [exists now; split; [done|apply step_publish]|apply rtc_steps_refl].
Qed.

Lemma store_run_app P db1 db2 db3 : store_run P db1 db2 → store_run P db2 db3 → store_run P db1 db3.
Proof. intros Hr. induction Hr as [|a b c Hs _ IH]; [done|]. intros Hr3. eapply rtc_steps_step; [exact Hs|by apply IH]. Qed.

Lemma reachable_run db db' : reachable db → store_run (λ _, True) db db' → reachable db'.
Proof. intros [c Hr] Hr'. exists c. by eapply store_run_app. Qed.

Lemma reachable_db0 : reachable db0.
Proof. eexists. apply rtc_steps_refl. Qed.

Lemma reachable_db1 : reachable db1.
Proof. eapply reachable_run; [apply reachable_db0|by apply step_publish_at]. Qed.

Lemma reachable_db2 : reachable db2.
Proof. eapply reachable_run; [apply reachable_db1|by apply step_publish_at]. Qed.

Lemma retract_run : store_run (λ _, True) db2 db3.
Proof.
  eapply rtc_steps_step; [|apply rtc_steps_refl]. exists 7000000%Z. split; [done|].
  apply step_lifecycle, store1_signs.
Qed.

Lemma reachable_db3 : reachable db3.
Proof. eapply reachable_run; [apply reachable_db2|apply retract_run]. Qed.

Lemma reachable_stores_are_well_formed_witness :
  reachable db3 ∧ length (contexts db3) = 2 ∧ store_wf db3.
Proof.
  split; [exact reachable_db3|]. split; [vm_compute; reflexivity|].
  exact (reachable_stores_are_well_formed db3 reachable_db3).
Defined.

(** Before the retraction the second version is the head, after it there is none. *)
Definition row_of (db : SqliteDb) (i : nat) : CtxRow :=
  default (mkCtxRow "" "" "" "" "" "" "" "" "" 0 None (mkSearchColumns "" None None None "") None "" "" "" None 0) (contexts db !! i).

Lemma row_of_elem db i : i < length (contexts db) → row_of db i ∈ contexts db.
Proof.
  intros Hi. apply lookup_lt_is_Some in Hi as [r Hr]. unfold row_of. rewrite Hr. simpl.
  by eapply list_elem_of_lookup_2.
Qed.

Lemma two_rows db h :
  length (contexts db) = 2 → h ∈ contexts db → h = row_of db 0 ∨ h = row_of db 1.
Proof.
  unfold row_of. destruct (contexts db) as [|r [|r' [|]]]; intros Hlen Hh; try done.
  apply elem_of_cons in Hh as [->|Hh%list_elem_of_singleton]; [by left|by right].
Qed.

Lemma current_is_the_newest_version_witness :
  (∃ full, current store1 (c_lineage_id (row_of db2 0)) 8000000 db2 db2 = Ok (Some full) ∧
           body_version (fc_body full) = 2%Z) ∧
  current store1 (c_lineage_id (row_of db3 0)) 8000000 db3 db3 = Ok None.
Proof.
  split.
  - destruct (current_is_the_newest_version store1 8000000 db2 (row_of db2 0) reachable_db2)
      as (h & Hh & _ & Hst & _ & Hcur); [apply row_of_elem; vm_compute; lia|].
    assert (c_status (row_of db2 0) = "superseded") as H0 by (vm_compute; reflexivity).
    apply two_rows in Hh as [->| ->]; [congruence| |vm_compute; reflexivity].
    assert ((c_retracted (row_of db2 1) =? 0)%Z = true) as Hz by (vm_compute; reflexivity).
    rewrite Hz in Hcur. destruct Hcur as (full & Hc & _ & _ & Hv). exists full. split; [exact Hc|].
    rewrite Hv. vm_compute. reflexivity.
  - destruct (current_is_the_newest_version store1 8000000 db3 (row_of db3 0) reachable_db3)
      as (h & Hh & _ & Hst & _ & Hcur); [apply row_of_elem; vm_compute; lia|].
    assert (c_status (row_of db3 0) = "superseded") as H0 by (vm_compute; reflexivity).
    apply two_rows in Hh as [->| ->]; [congruence| |vm_compute; reflexivity].
    assert ((c_retracted (row_of db3 1) =? 0)%Z = false) as Hz by (vm_compute; reflexivity).
    rewrite Hz in Hcur. exact Hcur.
Defined.

(** The row is read before the retraction, the events after it. *)
Lemma served_context_is_consistent_witness :
  c_retracted (row_of db2 1) = 0%Z ∧
  ∃ full, get store1 id2 8000000 db2 db3 = Ok (Some full) ∧ st_status (fc_state full) = Retracted.
Proof.
  split; [vm_compute; reflexivity|].
  destruct (served_context_is_consistent store1 id2 8000000 db2 db3 reachable_db2 retract_run)
    as (answer & Hget & Hans).
  assert (match get store1 id2 8000000 db2 db3 with Ok (Some _) => True | _ => False end) as Hsome
    by (vm_compute; exact I).
  destruct answer as [full|]; [|rewrite Hget in Hsome; destruct Hsome].
  exists full. split; [exact Hget|]. destruct Hans as (_ & Hev & _ & _ & _ & Hret & _). apply Hret.
  rewrite Hev. vm_compute. reflexivity.
Defined.

(** The retry comes within the hour, after another publish. *)
Lemma retry_repeats_the_first_answer_witness :
  ∃ resp, commit_publish store1 ok_env first 5000000 5 1 db0 = (Ok (Inserted resp), db1) ∧
    (commit_publish store1 ok_env first 9000000 9 3 db2).1 = Ok (IdempotentReplay resp).
Proof.
  destruct (commit_publish store1 ok_env first 5000000 5 1 db0) as [[[resp|]|] d] eqn:Hpub;
    [|vm_compute in Hpub; discriminate Hpub..].
  assert (d = db1) as -> by (unfold db1; rewrite Hpub; reflexivity).
  exists resp. split; [reflexivity|].
  pose proof (retry_repeats_the_first_answer store1 store1 ok_env ok_env first first "key-1" hour hour
    5000000 9000000 5 9 1 3 db0 db1 db2 resp reachable_db0 eq_refl Hpub) as Hretry.
  cbv zeta in Hretry. specialize (Hretry (step_publish_at (λ t, (timestamp_millis t < timestamp_millis (5000000 + hour))%Z)
    store1 ok_env second 6000000 6 2 db1 eq_refl) eq_refl eq_refl eq_refl).
  destruct (commit_publish store1 ok_env first 9000000 9 3 db2) as [answer d3].
  destruct Hretry as (_ & _ & Hclean). simpl.
  rewrite (Hclean eq_refl eq_refl (ex_intro _ _ eq_refl)). reflexivity.
Defined.

Lemma publish_is_whole_witness :
  ∃ resp full, (commit_publish store1 ok_env second 6000000 6 2 db1).1 = Ok (Inserted resp) ∧
    get store1 (resp_ctx_id resp) 7000000 db2 db2 = Ok (Some full) ∧
    length (log_leaves db2) = S (length (log_leaves db1)).
Proof.
  pose proof (publish_is_whole store1 store1 ok_env second 6000000 7000000 6 2 db1 reachable_db1) as Hwhole.
  destruct (commit_publish store1 ok_env second 6000000 6 2 db1) as [[[resp|]|] d] eqn:Hpub;
    [|vm_compute in Hpub; discriminate Hpub..].
  assert (d = db2) as -> by (unfold db2; rewrite Hpub; reflexivity).
  destruct Hwhole as (body & row & index & rows & _ & Hget & _ & _ & _ & _ & _ & _ & _ & (v & l & Hl & _) & _).
  eexists resp, _. split; [reflexivity|]. split; [exact Hget|]. rewrite Hl length_app Nat.add_1_r. reflexivity.
Defined.

(** An agent who is neither producer nor contributor, in another tenant too. *)
Definition intruder : PublishCommit :=
  commit_of (request "did:web:x" 2 (Some id1) "h3") None (Some "t2").

Lemma predecessors_are_hidden_from_others_witness :
  select_ctx id1 db1 = Some (row_of db1 0) ∧
  (commit_publish store1 ok_env intruder 6000000 6 2 db1).1 =
  (commit_publish store1 ok_env intruder 6000000 6 2
     (with_contexts (filter (λ r, c_ctx_id r ≠ id1)) db1)).1.
Proof.
  assert (select_ctx id1 db1 = Some (row_of db1 0)) as Hrow by (vm_compute; reflexivity).
  split; [exact Hrow|].
  destruct (wf_rows _ (reachable_wf _ reachable_db1) (row_of db1 0)) as (body & slots & Hd & _);
    [apply row_of_elem; vm_compute; lia|].
  destruct (predecessors_are_hidden_from_others store1 ok_env intruder id1 6000000 6 2 db1 reachable_db1
    eq_refl) as [_ Hhide].
  destruct (Hhide (row_of db1 0) body Hrow Hd) as [Heq _]; [|rewrite Heq; reflexivity].
  intros [Htenant _]. specialize (Htenant "t2" eq_refl). vm_compute in Htenant. discriminate Htenant.
Defined.

(** The registry mints an attestation for agent [w], who then publishes with it. *)
Definition mint_request : PublishRequest :=
  mkRequest "did:web:reg.test" 1 None None "h4" (CtCustom "key-attestation")
    (mkSignature "ed25519" "k1" "AA") None [] Public None None
    (Some (VObject [("controller", VString "did:web:w"); ("token", VString "tok-1")])) None None [].
Definition dbk : SqliteDb := (commit_publish store1 ok_env (commit_of mint_request None None) 5000000 5 1 db0).2.

Definition keyless_request : PublishRequest :=
  mkRequest "did:web:w" 1 None None "h5" DataSnapshot (mkSignature "ed25519" "#did:web:w" "AA")
    (Some (mkAttestationRef id1 "h4")) [] Public None None None None None [].

Lemma keyless_publish_is_attested_witness :
  ∃ resp, (commit_publish store1 ok_env (commit_of keyless_request None None) 6000000 6 2 dbk).1 =
            Ok (Inserted resp) ∧
    ∃ k, k ∈ key_attestations dbk ∧ k_ctx_id k = id1.
Proof.
  assert (reachable dbk) as Hreach
    by (eapply reachable_run; [apply reachable_db0|by apply step_publish_at]).
  destruct (commit_publish store1 ok_env (commit_of keyless_request None None) 6000000 6 2 dbk)
    as [[[resp|]|] d] eqn:Hpub; [|vm_compute in Hpub; discriminate Hpub..].
  exists resp. split; [reflexivity|].
  destruct (keyless_publish_is_attested store1 ok_env (commit_of keyless_request None None) id1
    6000000 6 2 dbk d resp Hreach eq_refl Hpub) as (k & c & row & Hk & -> & Hid & _).
  exists (att_row row). split; [exact Hk|exact Hid].
Defined.

(** ** Listings, log and sweep *)

Import CursorExample.

#[export] Instance ledger_paginate : PaginateSdk := λ R T rows limit decode keep cur,
  let? all := collect_ok decode (take limit rows) in
  Ok (List.filter keep all, if (limit <? length rows)%nat then cur <$> last all else None).

#[export] Instance ledger_paginate_laws : PaginateSdkLaws.
Proof. done. Qed.

(** Every row of a store whose stored times fit. *)
Definition rows_representable (db : SqliteDb) : bool :=
  forallb (λ r, match body_parse (c_body_json r) with
                | Ok b => is_i64 (timestamp_millis (body_created_at b))
                | Err _ => false
                end) (contexts db).

Lemma times_ok_of db : rows_representable db = true → times_ok db.
Proof.
  intros Hall r b Hr Hd. unfold rows_representable in Hall. rewrite forallb_forall in Hall.
  specialize (Hall r). rewrite -list_elem_of_In (dec_body _ _ Hd) in Hall. split; [by apply Hall|].
  pose proof (dec_aligned _ _ Hd) as Hal. cbn in Hal |- *. unfold timestamp_millis. by rewrite Hal.
Qed.

Lemma db2_times : times_ok db2.
Proof. apply times_ok_of. vm_compute. reflexivity. Qed.

Lemma db3_times : times_ok db3.
Proof. apply times_ok_of. vm_compute. reflexivity. Qed.

Lemma still_in_time : in_time (λ _, 8000000%Z).
Proof. intros i. vm_compute. done. Qed.

(** The first page is read before the retraction of the second version, the others
    after it; a page holds one row. *)
Definition moving (j : nat) : SqliteDb := match j with 0 => db2 | _ => db3 end.

Lemma listing_misses_nothing_witness :
  ∃ full, list_walk 3 1 None None true (λ _, 8000000%Z) moving 0 None = Some (Ok full) ∧
    length full = 2 ∧ id1 ∈ map (λ c, body_ctx_id (fc_body c)) full.
Proof.
  assert (match list_walk 3 1 None None true (λ _, 8000000%Z) moving 0 None with
          | Some (Ok l) => length l = 2 | _ => False end) as Hlen by (vm_compute; reflexivity).
  destruct (list_walk 3 1 None None true (λ _, 8000000%Z) moving 0 None) as [[full|]|] eqn:Hw;
    [|destruct Hlen..].
  exists full. split; [reflexivity|].
  destruct (listing_misses_nothing 3 1 None None true (λ _, 8000000%Z) moving full) as (_ & _ & Hall).
  - exact reachable_db2.
  - intros [|j]; [exact retract_run|apply rtc_steps_refl].
  - intros [|j]; [exact db2_times|exact db3_times].
  - exact still_in_time.
  - exact Hw.
  - split; [exact Hlen|]. apply Hall.
    intros [|j]; apply list_elem_of_In; vm_compute; left; reflexivity.
Defined.

Lemma listing_ends_witness :
  ∃ rows full, list_walk 3 1 None None true (λ _, 8000000%Z) (λ _, db3) 0 None = Some (Ok full) ∧
    Forall2 (λ r c, row_to_context r = Ok c) rows full ∧ length rows = 2.
Proof.
  destruct (listing_ends 3 1 None None true (λ _, 8000000%Z) db3 reachable_db3 db3_times still_in_time)
    as (rows & full & Hw & Hp & _ & Hall); [vm_compute; lia|].
  exists rows, full. split; [exact Hw|]. split; [exact Hall|]. rewrite Hp. vm_compute. reflexivity.
Defined.

Lemma batch_disclosure_is_retrieval_witness :
  visible_ctx_ids [id1; "nowhere"; id2] None (Some "t1") true db3 = {[id1; id2]} ∧
  default_visible_ctx_ids fc_body Ok (λ id, get store1 id 8000000 db3 db3)
    (λ id, Ok (tenant_of_ctx id db3)) [id1; "nowhere"; id2] None (Some "t1") true = Ok {[id1; id2]}.
Proof.
  assert (visible_ctx_ids [id1; "nowhere"; id2] None (Some "t1") true db3 = {[id1; id2]}) as Hset
    by (vm_compute; reflexivity).
  split; [exact Hset|]. rewrite -Hset.
  apply (batch_disclosure_is_retrieval store1 Ok [id1; "nowhere"; id2] None (Some "t1") true 8000000 db3).
  - exact reachable_db3.
  - intros id p [= <-]. reflexivity.
  - intros r _. reflexivity.
Defined.

Lemma log_is_append_only_witness :
  length (log_leaves db1) = 1 ∧ length (log_leaves db3) = 2 ∧
  log_leaf_hashes (λ h, Ok (as_bytes h)) 1 db3 = log_leaf_hashes (λ h, Ok (as_bytes h)) 1 db1.
Proof.
  split; [vm_compute; reflexivity|]. split; [vm_compute; reflexivity|].
  destruct (log_is_append_only (λ h, Ok (as_bytes h)) db1 db3) as (_ & Hsame & _).
  - exact reachable_db1.
  - eapply store_run_app; [|exact retract_run]. apply step_publish_at. exact I.
  - vm_compute. discriminate.
  - destruct (Hsame 1%Z) as [Heq _]; [vm_compute; split; discriminate|]. exact Heq.
Defined.

(** A retraction accepted while no receipts were minted. *)
Definition plain_store : SqliteStore := mkStore true None.
Definition db4 : SqliteDb :=
  (commit_lifecycle_event plain_store ok_env (mkEv "e1" id2 RetractedEvent) 7000000 db2).2.

Lemma receipts_only_length db db' :
  receipts_only db db' → length (lifecycle_events db') = length (lifecycle_events db).
Proof. intros Hro%ro_ids%(f_equal length). by rewrite !length_map in Hro. Qed.

Lemma sweep_leaves_no_gap_witness :
  size (null_ids db4) = 1 ∧
  ∃ report db', backfill_event_receipts 2 store1 (λ _, ok_env) (λ _, 9000000%Z) (λ _, None) db4 =
      Some (Ok report, db') ∧ contexts_skipped report = 0%Z ∧ length (lifecycle_events db') = 1.
Proof.
  split; [vm_compute; reflexivity|].
  assert (reachable db4) as Hreach.
  { eapply reachable_run; [exact reachable_db2|]. eapply rtc_steps_step; [|apply rtc_steps_refl].
    exists 7000000%Z. split; [exact I|]. apply step_lifecycle. intros m Hm. discriminate Hm. }
  destruct (sweep_leaves_no_gap ledger_mint ledger_mint_signs) with (st := store1) (envs := λ _ : string, ok_env)
    (clock := λ _ : string, 9000000%Z) (db := db4) (fuel := 2)
    as (report & db' & Hs & Hskip & Hro & _).
  - intros ctx [i c t] v n at_ [= <-]. destruct t; reflexivity.
  - intros e. reflexivity.
  - intros r. reflexivity.
  - exact Hreach.
  - reflexivity.
  - intros c. repeat split.
  - vm_compute. lia.
  - exists report, db'. split; [exact Hs|]. split; [exact Hskip|].
    rewrite (receipts_only_length _ _ Hro). vm_compute. reflexivity.
Defined.
End StoreExample.
