(* ===== verification/PublishReply.v ===== *)
(** * The reply to a publish

    [acdp-registry-core/src/publish_reply.rs]: the status, the [Location] header and
    the body of an accepted [POST /contexts]. *)

From S2P Require Import Prelude Text Errors ContextTypes SqliteStore.

Open Scope registry_scope.

(** The unreserved characters, which are kept. *)
Definition is_unreserved (b : Z) : bool :=
  ((65 <=? b) && (b <=? 90) || (97 <=? b) && (b <=? 122) || (48 <=? b) && (b <=? 57)
   || (b =? 45) || (b =? 95) || (b =? 46) || (b =? 126))%Z.

(** [b"0123456789ABCDEF"[d]]. *)
Definition upper_hex (d : Z) : Z := (if (d <? 10)%Z then d + 48 else d + 55)%Z.

Definition encode_byte (b : Z) : list Z :=
  if is_unreserved b then [b] else [37; upper_hex (Z.shiftr b 4); upper_hex (Z.land b 15)]%Z.

Definition location_for (ctx_id : string) : string :=
  from_bytes (as_bytes "/contexts/" ++ flat_map encode_byte (as_bytes ctx_id)).

Definition success_status (is_replay : bool) : Z := (if is_replay then 200 else 201)%Z.

(** [HeaderValue::from_str]: visible characters, spaces and tabs. *)
Definition header_value (s : string) : result string string :=
  if forallb (λ b, (32 <=? b)%Z && negb (b =? 127)%Z || (b =? 9)%Z) (as_bytes s)
  then Ok s else Err "failed to parse header value".

Record PublishReply : Type := mkReply {
  reply_status : Z;
  reply_location : string;
  reply_body : PublishResponse
}.

Definition publish_reply (is_replay : bool) (response : PublishResponse) :
    result PublishReply RegistryError :=
  let? location := map_err (λ e, RE_Internal ("publish Location header: " +:+ e))
                     (header_value (location_for (resp_ctx_id response))) in
  Ok (mkReply (success_status is_replay) location response).

(** ** Reading a location back *)

(** The percent-decoding of a path segment (RFC 3986), on bytes. *)
Fixpoint percent_decode (l : list Z) : option (list Z) :=
  match l with
  | [] => Some []
  | b :: rest =>
      if (b =? 37)%Z then
        match rest with
        | hi :: lo :: rest =>
            match to_digit 16 hi, to_digit 16 lo, percent_decode rest with
            | Some hi, Some lo, Some bs => Some ((hi * 16 + lo)%Z :: bs)
            | _, _, _ => None
            end
        | _ => None
        end
      else match percent_decode rest with Some bs => Some (b :: bs) | None => None end
  end.

Lemma upper_hex_digit d : (0 ≤ d < 16)%Z → to_digit 16 (upper_hex d) = Some d ∧ (32 < upper_hex d < 127)%Z.
Proof.
  intros Hd.
  assert (Forall (λ d, to_digit 16 (upper_hex d) = Some d ∧ (32 < upper_hex d < 127)%Z) (seqZ 0 16)) as Hall
    by (repeat constructor).
  rewrite Forall_forall in Hall. apply Hall, elem_of_seqZ. lia.
Qed.

Lemma byte_nibbles b : is_byte b →
  (0 ≤ Z.shiftr b 4 < 16)%Z ∧ (0 ≤ Z.land b 15 < 16)%Z ∧ (Z.shiftr b 4 * 16 + Z.land b 15 = b)%Z.
Proof.
  unfold is_byte. intros Hb. rewrite Z.shiftr_div_pow2; [|lia].
  change 15%Z with (Z.ones 4). rewrite Z.land_ones; [|lia]. change (2 ^ 4)%Z with 16%Z.
  pose proof (Z.mod_pos_bound b 16). pose proof (Z.div_mod b 16).
  assert (0 ≤ b / 16 < 16)%Z by (split; [apply Z.div_pos|apply Z.div_lt_upper_bound]; lia). lia.
Qed.

Lemma percent_decode_encode l rest :
  Forall is_byte l →
  percent_decode (flat_map encode_byte l ++ rest) =
    match percent_decode rest with Some bs => Some (l ++ bs) | None => None end.
Proof.
  induction 1 as [|b l Hb Hl IH]; simpl; [by destruct (percent_decode rest)|].
  rewrite -app_assoc. unfold encode_byte. destruct (is_unreserved b) eqn:Hu.
  - cbn [app percent_decode]. assert ((b =? 37)%Z = false) as ->.
    { apply Z.eqb_neq. intros ->. vm_compute in Hu. done. }
    rewrite IH. by destruct (percent_decode rest).
  - cbn [app percent_decode]. rewrite Z.eqb_refl.
    destruct (byte_nibbles b Hb) as (Hh & Hlo & Hsum).
    rewrite (proj1 (upper_hex_digit _ Hh)) (proj1 (upper_hex_digit _ Hlo)) IH Hsum.
    by destruct (percent_decode rest).
Qed.

Lemma encode_byte_header b : is_byte b →
  forallb (λ b, (32 <=? b)%Z && negb (b =? 127)%Z || (b =? 9)%Z) (encode_byte b) = true ∧
  Forall is_byte (encode_byte b).
Proof.
  intros Hb. unfold encode_byte. destruct (is_unreserved b) eqn:Hu.
  - split; [|by constructor]. simpl. rewrite andb_true_r.
    unfold is_unreserved in Hu. rewrite orb_true_iff andb_true_iff negb_true_iff Z.leb_le Z.eqb_neq.
    left. repeat (rewrite orb_true_iff in Hu || rewrite andb_true_iff in Hu
                  || rewrite Z.leb_le in Hu || rewrite Z.eqb_eq in Hu). lia.
  - destruct (byte_nibbles b Hb) as (Hh & Hlo & _).
    apply upper_hex_digit in Hh as [_ Hh]. apply upper_hex_digit in Hlo as [_ Hlo].
    assert (Forall is_byte [37; upper_hex (Z.shiftr b 4); upper_hex (Z.land b 15)]%Z) as Hbs
      by (repeat constructor; unfold is_byte; lia).
    split; [|done]. cbn [forallb].
    assert (∀ c, (32 < c < 127)%Z → (32 <=? c)%Z && negb (c =? 127)%Z || (c =? 9)%Z = true) as Hc.
    { intros c Hc. rewrite (proj2 (Z.leb_le 32 c)); [|lia]. rewrite (proj2 (Z.eqb_neq c 127)); [done|lia]. }
    by rewrite !Hc.
Qed.

Lemma location_bytes ctx_id :
  as_bytes (location_for ctx_id) = as_bytes "/contexts/" ++ flat_map encode_byte (as_bytes ctx_id) ∧
  header_value (location_for ctx_id) = Ok (location_for ctx_id).
Proof.
  assert (Forall is_byte (flat_map encode_byte (as_bytes ctx_id)) ∧
          forallb (λ b, (32 <=? b)%Z && negb (b =? 127)%Z || (b =? 9)%Z)
            (flat_map encode_byte (as_bytes ctx_id)) = true) as [Hb Hh].
  { induction (as_bytes_is_byte ctx_id) as [|b l Hb Hl [IH1 IH2]]; [done|]. simpl.
    destruct (encode_byte_header b Hb) as [H1 H2]. by rewrite Forall_app forallb_app H1 IH2. }
  assert (as_bytes (location_for ctx_id) =
            as_bytes "/contexts/" ++ flat_map encode_byte (as_bytes ctx_id)) as Heq.
  { unfold location_for. rewrite as_bytes_from_bytes; [done|].
    apply Forall_app. split; [apply as_bytes_is_byte|done]. }
  split; [done|]. unfold header_value. by rewrite Heq forallb_app Hh.
Qed.

(** An accepted publish always has its reply: 201 for a new context, 200 for a
    replay, and a [Location] under [/contexts/] whose one segment, with no slash of
    its own, percent-decodes to the context's id. *)
Theorem publish_reply_locates (is_replay : bool) (response : PublishResponse) :
  ∃ reply, publish_reply is_replay response = Ok reply ∧ reply_body reply = response ∧
    reply_status reply = (if is_replay then 200 else 201)%Z ∧
    ∃ segment, as_bytes (reply_location reply) = as_bytes "/contexts/" ++ segment ∧
      47%Z ∉ segment ∧ percent_decode segment = Some (as_bytes (resp_ctx_id response)).
Proof.
  destruct (location_bytes (resp_ctx_id response)) as [Hbytes Hheader].
  unfold publish_reply. rewrite Hheader. simpl. eexists. split; [done|]. simpl.
  split_and!; [done|by destruct is_replay|].
  exists (flat_map encode_byte (as_bytes (resp_ctx_id response))). split_and!; [done| |].
  - intros Hin. apply list_elem_of_In, in_flat_map in Hin as (b & Hb & Hin).
    apply list_elem_of_In in Hb, Hin. assert (is_byte b) as Hbyte.
    { pose proof (as_bytes_is_byte (resp_ctx_id response)) as Hall. rewrite Forall_forall in Hall.
      by apply Hall. }
    unfold encode_byte in Hin. destruct (is_unreserved b) eqn:Hu.
    + apply list_elem_of_singleton in Hin as <-. vm_compute in Hu. done.
    + destruct (byte_nibbles b Hbyte) as (Hh & Hlo & _).
      assert (∀ d, (0 ≤ d < 16)%Z → upper_hex d ≠ 47%Z) as Hne
        by (intros d Hd; unfold upper_hex; case_match; lia).
      apply elem_of_cons in Hin as [?|[Hx|[Hx|Hx]%elem_of_cons]%elem_of_cons]; [done|..].
      * by apply (Hne (Z.shiftr b 4)).
      * by apply (Hne (Z.land b 15)).
      * by apply not_elem_of_nil in Hx.
  - rewrite -(app_nil_r (flat_map _ _)) percent_decode_encode; [|apply as_bytes_is_byte].
    by rewrite /= app_nil_r.
Qed.

Example location_example :
  location_for "acdp://host/u-1" = "/contexts/acdp%3A%2F%2Fhost%2Fu-1".
Proof. vm_compute. reflexivity. Qed.
