(* ===== verification/Playground.v ===== *)
(** * Pinned keys

    [acdp-registry-core/src/playground.rs] and the [PlaygroundConfig] of
    [acdp-registry-types/src/config.rs]: which publishers a playground registry
    checks against a configured key, how a pin is chosen while keys are rotated, and
    what a configuration must satisfy before it takes effect. Base64 and the two
    signature schemes are the class [PinnedCrypto]. *)

From stdpp Require Import pretty.
From S2P Require Import Prelude Text Errors ContextTypes.

Open Scope registry_scope.

(** [base64]'s standard alphabet, and [acdp::crypto::verify]: key bytes, signature
    text, message. *)
Class PinnedCrypto : Type := {
  standard_decode : string → result (list Z) string;
  pin_verify_ed25519 : list Z → string → string → result unit AcdpError;
  pin_verify_ecdsa_p256 : list Z → string → string → result unit AcdpError
}.

(** [acdp::did::KEYLESS_FRAGMENT_PREFIX]. *)
Definition KEYLESS_FRAGMENT_PREFIX : string := "acdp-kl-".

Record PinnedAgentKey : Type := mkPinned {
  pin_agent_did : string;
  pin_public_key_b64 : string;
  pin_algorithm : string;
  pin_valid_from : option Z;
  pin_valid_until : option Z
}.

Definition is_valid_at (p : PinnedAgentKey) (now : Z) : bool :=
  (match pin_valid_from p with Some from => (from <=? now)%Z | None => true end)
  && (match pin_valid_until p with Some until => (now <? until)%Z | None => true end).

Record PlaygroundConfig : Type := mkPlayground {
  pg_enabled : bool;
  pg_pinned_keys : list PinnedAgentKey;
  pg_pinned_only : bool
}.

(** [Iterator::max_by_key]: the last of the elements with the largest key. *)
Definition max_by_key {A} (key : A → Z) (l : list A) : option A :=
  fold_left (λ best x, match best with
                       | None => Some x
                       | Some b => if (key b <=? key x)%Z then Some x else Some b
                       end) l None.

Definition pin_start (p : PinnedAgentKey) : Z := default i64_min (pin_valid_from p).

Definition pinned_for_at (config : PlaygroundConfig) (agent_did : string) (now : Z) :
    option PinnedAgentKey :=
  max_by_key pin_start
    (List.filter (λ p, bool_decide (pin_agent_did p = agent_did) && is_valid_at p now)
       (pg_pinned_keys config)).

Definition has_entry_for (config : PlaygroundConfig) (agent_did : string) : bool :=
  existsb (λ p, bool_decide (pin_agent_did p = agent_did)) (pg_pinned_keys config).

Inductive PinnedAlgorithm : Type := PA_Ed25519 | PA_EcdsaP256.

Definition pinned_algorithm_parse (raw : string) : option PinnedAlgorithm :=
  if bool_decide (raw = "ed25519") then Some PA_Ed25519
  else if bool_decide (raw = "ecdsa-p256") then Some PA_EcdsaP256
  else None.

Definition pinned_wire_name (a : PinnedAlgorithm) : string :=
  match a with PA_Ed25519 => "ed25519" | PA_EcdsaP256 => "ecdsa-p256" end.

Inductive PinOutcome : Type :=
  | PinSkipped
  | PinVerified (public_key_b64 algorithm : string)
  | PinUnpinned.

(** The two lower case digits of [{:02x}]. *)
Definition hex_byte (b : Z) : string := hex_encode [b].

Section playground.
Context `{!PinnedCrypto}.

Definition decode_ed25519_pinned (agent_did : string) (pinned : PinnedAgentKey) :
    result (list Z) RegistryError :=
  let? bytes := map_err (λ e, RE_Config ("pinned public_key_b64 for " +:+ agent_did +:+
                                         " is not valid base64: " +:+ e))
                  (standard_decode (pin_public_key_b64 pinned)) in
  if negb (length bytes =? 32)%nat then
    Err (RE_Config ("pinned ed25519 public_key_b64 for " +:+ agent_did +:+ " decoded to " +:+
                    pretty (length bytes) +:+ " bytes (expected 32)"))
  else Ok bytes.

Definition decode_ecdsa_p256_pinned (agent_did : string) (pinned : PinnedAgentKey) :
    result (list Z) RegistryError :=
  let? bytes := map_err (λ e, RE_Config ("pinned public_key_b64 for " +:+ agent_did +:+
                                         " is not valid base64: " +:+ e))
                  (standard_decode (pin_public_key_b64 pinned)) in
  if negb (length bytes =? 65)%nat then
    Err (RE_Config ("pinned ecdsa-p256 public_key_b64 for " +:+ agent_did +:+ " decoded to " +:+
                    pretty (length bytes) +:+ " bytes (expected 65 SEC1-uncompressed)"))
  else if negb (nth 0 bytes 0 =? 4)%Z then
    Err (RE_Config ("pinned ecdsa-p256 public_key_b64 for " +:+ agent_did +:+
                    " must start with 0x04 (SEC1 uncompressed); got 0x" +:+ hex_byte (nth 0 bytes 0%Z)))
  else Ok bytes.

Definition verify_ed25519_pinned (agent_did : string) (pinned : PinnedAgentKey) (req : PublishRequest) :
    result unit RegistryError :=
  let? bytes := decode_ed25519_pinned agent_did pinned in
  map_err RE_Acdp (pin_verify_ed25519 bytes (sig_value (req_signature req)) (req_content_hash req)).

Definition verify_ecdsa_p256_pinned (agent_did : string) (pinned : PinnedAgentKey)
    (req : PublishRequest) : result unit RegistryError :=
  let? bytes := decode_ecdsa_p256_pinned agent_did pinned in
  map_err RE_Acdp (pin_verify_ecdsa_p256 bytes (sig_value (req_signature req)) (req_content_hash req)).

(** Whether the fragment of a key id names a keyless key. *)
Definition keyless_fragment (key_id : string) : bool :=
  match split_at_char (Ascii.ascii_of_nat 35) key_id with
  | Some (_, frag) => starts_with frag KEYLESS_FRAGMENT_PREFIX
  | None => false
  end.

(** [enforce_pinned_signature]; [now] is [current_unix_seconds]. *)
Definition enforce_pinned_signature (req : PublishRequest) (config : PlaygroundConfig) (now : Z) :
    result PinOutcome RegistryError :=
  if is_empty (pg_pinned_keys config) then Ok PinSkipped
  else
    let agent_did := req_agent_id req in
    match pinned_for_at config agent_did now with
    | None =>
        if pg_pinned_only config then
          Err (RE_Acdp (KeyNotAuthorized ("agent_did '" +:+ agent_did +:+
            "' is not in playground.pinned_keys and playground.pinned_only is true")))
        else Ok PinUnpinned
    | Some pinned =>
        let key_id := sig_key_id (req_signature req) in
        if keyless_fragment key_id then
          Err (RE_Acdp (KeyResolution ("key_id '" +:+ key_id +:+
            "' is a keyless (acdp-kl-) key, which a pinned key cannot authorize and this registry does not support (RFC-ACDP-0021)")))
        else
          let? alg := ok_or (pinned_algorithm_parse (pin_algorithm pinned))
            (RE_Config ("pinned algorithm '" +:+ pin_algorithm pinned +:+ "' for " +:+ agent_did +:+
                        " is not supported (expected one of: ed25519, ecdsa-p256)")) in
          if negb (bool_decide (sig_algorithm (req_signature req) = pinned_wire_name alg)) then
            Err (RE_Acdp (KeyNotAuthorized ("signature.algorithm '" +:+
              sig_algorithm (req_signature req) +:+ "' does not match pinned algorithm '" +:+
              pinned_wire_name alg +:+ "' for " +:+ agent_did)))
          else
            let? _ := match alg with
                      | PA_Ed25519 => verify_ed25519_pinned agent_did pinned req
                      | PA_EcdsaP256 => verify_ecdsa_p256_pinned agent_did pinned req
                      end in
            Ok (PinVerified (pin_public_key_b64 pinned) (pinned_wire_name alg))
    end.

(** The checks of one entry; [display] renders the error of a decoder. *)
Definition validate_pin (display : RegistryError → string) (i : nat) (pin : PinnedAgentKey) :
    result unit string :=
  let entry := "playground.pinned_keys[" +:+ pretty i +:+ "]" in
  let did := pin_agent_did pin in
  let? alg := ok_or (pinned_algorithm_parse (pin_algorithm pin))
    (entry +:+ " (" +:+ did +:+ "): algorithm '" +:+ pin_algorithm pin +:+
     "' is not supported (expected one of: ed25519, ecdsa-p256). A publish from this agent that selects this entry is rejected at request time (HTTP 500, internal_error).") in
  let? _ := map_err (λ e, entry +:+ ": " +:+ display e)
              match alg with
              | PA_Ed25519 => decode_ed25519_pinned did pin
              | PA_EcdsaP256 => decode_ecdsa_p256_pinned did pin
              end in
  match pin_valid_from pin, pin_valid_until pin with
  | Some from, Some until =>
      if (until <=? from)%Z then
        Err (entry +:+ " (" +:+ did +:+ "): valid_from (" +:+ pretty from +:+
             ") is not before valid_until (" +:+ pretty until +:+
             "), so this entry can never be in its validity window")
      else Ok tt
  | _, _ => Ok tt
  end.

Fixpoint validate_pins (display : RegistryError → string) (i : nat) (pins : list PinnedAgentKey) :
    result unit string :=
  match pins with
  | [] => Ok tt
  | pin :: pins => let? _ := validate_pin display i pin in validate_pins display (S i) pins
  end.

(** The warning of a configuration none of whose pins is in its window. *)
Definition pin_warnings (cfg : PlaygroundConfig) (now : Z) : list string :=
  let pins := pg_pinned_keys cfg in
  if pg_enabled cfg && negb (is_empty pins) && negb (existsb (λ p, is_valid_at p now) pins) then
    let latest := match max_by_key id (omap pin_valid_until pins) with
                  | Some t => pretty t
                  | None => "none"
                  end in
    let scope := "playground.pinned_keys: no entry is currently within its validity window (" +:+
                 pretty (length pins) +:+ " entries, most recent valid_until " +:+ latest +:+ "). " in
    [if pg_pinned_only cfg
     then scope +:+ "With pinned_only=true every did:web publish is now rejected until a key is rotated in; did:key publishes and all reads are unaffected."
     else scope +:+ "With pinned_only=false publishes from these agents are now ACCEPTED WITH NO SIGNATURE CHECK — pinning is inert until a key is rotated in."]
  else [].

Definition validate_playground_config (display : RegistryError → string) (cfg : PlaygroundConfig)
    (receipt_configured : bool) (now : Z) : result (list string) string :=
  let? _ := validate_pins display 0 (pg_pinned_keys cfg) in
  if receipt_configured && pg_enabled cfg && negb (pg_pinned_only cfg) then
    Err "playground.enabled with pinned_only=false is incompatible with [receipt]: a receipts-advertising registry has no unverified publish path (RFC-ACDP-0010 §7: no degraded mode). Set playground.pinned_only=true (every publish then verifies against a playground.pinned_keys entry) or disable playground.enabled."
  else if pg_enabled cfg && pg_pinned_only cfg && is_empty (pg_pinned_keys cfg) then
    Err "playground.pinned_only=true has no effect while playground.pinned_keys is empty: this config does NOT restrict publishing — every non-did:key agent falls through to the fully unverified playground path and is accepted without a signature check. Add at least one [[playground.pinned_keys]] entry, or set playground.enabled=false."
  else Ok (pin_warnings cfg now).

(** ** Lemmas *)

Lemma max_by_key_spec {A} (key : A → Z) (l : list A) :
  match max_by_key key l with
  | None => l = []
  | Some m => m ∈ l ∧ ∀ x, x ∈ l → (key x ≤ key m)%Z
  end.
Proof.
  unfold max_by_key. induction l as [|x l IH] using rev_ind; [done|].
  rewrite fold_left_app. simpl. destruct (fold_left _ l None) as [m|].
  - destruct IH as [Hm Hle]. destruct (key m <=? key x)%Z eqn:Hk; bool_to_prop.
    + split; [set_solver|]. intros y [Hy%Hle|Hy%list_elem_of_singleton]%elem_of_app; [lia|by subst].
    + split; [set_solver|]. intros y [Hy%Hle|Hy%list_elem_of_singleton]%elem_of_app; [done|subst; lia].
  - subst. split; [set_solver|]. intros y Hy%list_elem_of_singleton. by subst.
Qed.

(** The pin in force for an agent: an entry of the configuration for this agent,
    within its window, and of those the one introduced last. *)
Definition pin_in_force (config : PlaygroundConfig) (agent_did : string) (now : Z) (p : PinnedAgentKey) :
    Prop :=
  p ∈ pg_pinned_keys config ∧ pin_agent_did p = agent_did ∧ is_valid_at p now = true ∧
  ∀ q, q ∈ pg_pinned_keys config → pin_agent_did q = agent_did → is_valid_at q now = true →
    (pin_start q ≤ pin_start p)%Z.

(** No entry for the agent is within its window. *)
Definition no_pin (config : PlaygroundConfig) (agent_did : string) (now : Z) : Prop :=
  ∀ q, q ∈ pg_pinned_keys config → pin_agent_did q = agent_did → is_valid_at q now = false.

Lemma pinned_for_at_spec config agent_did now :
  match pinned_for_at config agent_did now with
  | Some p => pin_in_force config agent_did now p
  | None => no_pin config agent_did now
  end.
Proof.
  unfold pinned_for_at.
  set (f := λ p, bool_decide (pin_agent_did p = agent_did) && is_valid_at p now).
  assert (∀ p, p ∈ List.filter f (pg_pinned_keys config) ↔
            p ∈ pg_pinned_keys config ∧ pin_agent_did p = agent_did ∧ is_valid_at p now = true) as Hin.
  { intros p. rewrite !list_elem_of_In filter_In. unfold f.
    rewrite andb_true_iff bool_decide_eq_true. done. }
  pose proof (max_by_key_spec pin_start (List.filter f (pg_pinned_keys config))) as Hmax.
  destruct (max_by_key _ _) as [p|].
  - destruct Hmax as [(Hp & Hd & Hv)%Hin Hle]. split_and!; [done..|].
    intros q Hq Hqd Hqv. by apply Hle, Hin.
  - intros q Hq Hqd. destruct (is_valid_at q now) eqn:Hv; [|done].
    assert (q ∈ List.filter f (pg_pinned_keys config)) as Habs by by apply Hin.
    rewrite Hmax in Habs. by apply not_elem_of_nil in Habs.
Qed.

(** What validation leaves of an entry. *)
Definition pin_usable (p : PinnedAgentKey) : Prop :=
  ∃ alg key, pinned_algorithm_parse (pin_algorithm p) = Some alg ∧
    match alg with
    | PA_Ed25519 => decode_ed25519_pinned (pin_agent_did p) p = Ok key
    | PA_EcdsaP256 => decode_ecdsa_p256_pinned (pin_agent_did p) p = Ok key
    end.

Lemma validate_pins_usable display pins : ∀ i u,
  validate_pins display i pins = Ok u → Forall pin_usable pins.
Proof.
  induction pins as [|p pins IH]; intros i u Hv; [constructor|]. cbn [validate_pins] in Hv. inv_ok.
  constructor; [|by eapply IH]. rename select (validate_pin _ _ _ = _) into Hp.
  unfold validate_pin in Hp. destruct (pinned_algorithm_parse (pin_algorithm p)) as [alg|] eqn:Ha;
    cbn [ok_or and_then] in Hp; [|done]. inv_ok.
  rename select (map_err _ _ = Ok _) into Hd. apply map_err_ok in Hd.
  eexists alg, _. split; [done|]. by destruct alg.
Qed.

(** What the scheme of a pin says of the request's signature over its content hash,
    under the key the pin has. *)
Definition pin_verdict (p : PinnedAgentKey) (req : PublishRequest) (v : result unit AcdpError) : Prop :=
  ∃ key, standard_decode (pin_public_key_b64 p) = Ok key ∧
    ((pin_algorithm p = "ed25519" ∧ length key = 32%nat ∧
        pin_verify_ed25519 key (sig_value (req_signature req)) (req_content_hash req) = v) ∨
     (pin_algorithm p = "ecdsa-p256" ∧ length key = 65%nat ∧
        pin_verify_ecdsa_p256 key (sig_value (req_signature req)) (req_content_hash req) = v)).

Lemma pinned_wire_name_parse raw alg : pinned_algorithm_parse raw = Some alg → pinned_wire_name alg = raw.
Proof. unfold pinned_algorithm_parse. repeat case_bool_decide; intros [= <-]; by simpl. Qed.

(** A usable pin has a verdict, and it is the one the playground acts on. *)
Lemma usable_verdict p req alg :
  pin_usable p → pinned_algorithm_parse (pin_algorithm p) = Some alg →
  ∃ v, pin_verdict p req v ∧
    match alg with
    | PA_Ed25519 => verify_ed25519_pinned (pin_agent_did p) p req
    | PA_EcdsaP256 => verify_ecdsa_p256_pinned (pin_agent_did p) p req
    end = map_err RE_Acdp v.
Proof.
  intros (alg' & key & Ha & Hkey) Halg. rewrite Halg in Ha. injection Ha as <-.
  apply pinned_wire_name_parse in Halg. unfold verify_ed25519_pinned, verify_ecdsa_p256_pinned.
  destruct alg; rewrite Hkey; cbn [and_then].
  - unfold decode_ed25519_pinned in Hkey. inv_ok.
    destruct (length _ =? 32)%nat eqn:Hl in Hkey; [|done]. apply Nat.eqb_eq in Hl. injection Hkey as ->.
    rename select (map_err _ _ = Ok _) into Hd. apply map_err_ok in Hd.
    eexists. split; [|done]. exists key. split; [done|]. by left.
  - unfold decode_ecdsa_p256_pinned in Hkey. inv_ok.
    destruct (length _ =? 65)%nat eqn:Hl in Hkey; [|done]. apply Nat.eqb_eq in Hl.
    destruct (_ =? 4)%Z in Hkey; [|done]. injection Hkey as ->.
    rename select (map_err _ _ = Ok _) into Hd. apply map_err_ok in Hd.
    eexists. split; [|done]. exists key. split; [done|]. by right.
Qed.

(** C33: a pinned publisher is who its pin says. Under a configuration that passed
    validation, with the clock at [now]: a publish is let through as verified only when
    its signature over its content hash verifies under the key of the pin in force for
    its agent (an entry for it, within its window, introduced last of those), is of the
    very algorithm the request declares and names no keyless key. It is let through as
    unpinned only when no entry for its agent is within its window and unpinned agents
    are let in, and the check is skipped only when there are no entries; neither ever
    happens where the playground is on and receipts are minted. And it is refused only
    when there is no such entry and only pinned agents are let in, or when the pin in
    force refuses it: a keyless key, another algorithm, or the very error the pinned
    scheme gives; never for a fault of the configuration. *)
Theorem pinned_publish_is_verified (display : RegistryError → string) (req : PublishRequest)
    (config : PlaygroundConfig) (receipts : bool) (loaded now : Z) (warnings : list string) :
  validate_playground_config display config receipts loaded = Ok warnings →
  let agent := req_agent_id req in
  let sig := req_signature req in
  match enforce_pinned_signature req config now with
  | Ok (PinVerified key_b64 algorithm) =>
      ∃ p, pin_in_force config agent now p ∧
        key_b64 = pin_public_key_b64 p ∧ algorithm = pin_algorithm p ∧ sig_algorithm sig = algorithm ∧
        keyless_fragment (sig_key_id sig) = false ∧ pin_verdict p req (Ok tt)
  | Ok PinUnpinned =>
      no_pin config agent now ∧ pg_pinned_only config = false ∧ (receipts = false ∨ pg_enabled config = false)
  | Ok PinSkipped => pg_pinned_keys config = [] ∧ (receipts = false ∨ pg_enabled config = false)
  | Err e =>
      ∃ a, e = RE_Acdp a ∧
        ((no_pin config agent now ∧ pg_pinned_only config = true) ∨
         ∃ p, pin_in_force config agent now p ∧
           (keyless_fragment (sig_key_id sig) = true ∨ sig_algorithm sig ≠ pin_algorithm p ∨
            pin_verdict p req (Err a)))
  end.
Proof.
  intros Hvalid agent sig. unfold validate_playground_config in Hvalid. inv_ok.
  rename select (validate_pins _ _ _ = _) into Hpins. apply validate_pins_usable in Hpins.
  assert ((pg_pinned_keys config = [] ∨ pg_pinned_only config = false) →
          receipts = false ∨ pg_enabled config = false) as Hminted.
  { destruct receipts, (pg_enabled config); auto. intros [Hk|Ho]; [rewrite Hk in Hvalid|rewrite Ho in Hvalid; done].
    by destruct (pg_pinned_only config). }
  unfold enforce_pinned_signature. fold agent sig.
  destruct (pg_pinned_keys config) as [|k ks] eqn:Hkeys; cbn [is_empty]; [by auto|].
  rewrite -Hkeys in Hpins.
  pose proof (pinned_for_at_spec config agent now) as Hpin.
  destruct (pinned_for_at config agent now) as [p|].
  2:{ destruct (pg_pinned_only config); [by eauto|]. eauto. }
  destruct (keyless_fragment _) eqn:Hk; [by eexists; split; [done|]; right; exists p; auto|].
  assert (pin_usable p) as Huse by (rewrite Forall_forall in Hpins; by apply Hpins, Hpin).
  destruct (pinned_algorithm_parse (pin_algorithm p)) as [alg|] eqn:Ha; cbn [ok_or and_then];
    [|destruct Huse as (alg & key & Halg & _); by rewrite Ha in Halg].
  destruct (usable_verdict p req alg Huse Ha) as (v & Hv & Hrun).
  rewrite (proj1 (proj2 Hpin)) in Hrun. rewrite Hrun (pinned_wire_name_parse _ _ Ha).
  case_bool_decide as Hs; cbn [negb]; [|by eexists; split; [done|]; right; exists p; auto].
  destruct v as [[]|a]; cbn [map_err and_then]; [by exists p|].
  exists a. split; [done|]. right. exists p. auto.
Qed.
End playground.

(** ** An example: a rotation *)

Module PlaygroundExample.
(** Keys are their own text; a signature is the key's text before the message. *)
#[local] Instance plain_crypto : PinnedCrypto := {|
  standard_decode s := Ok (as_bytes s);
  pin_verify_ed25519 key sig msg :=
    if bool_decide (sig = from_bytes key +:+ msg) then Ok tt else Err (InvalidSignature "bad signature");
  pin_verify_ecdsa_p256 key sig msg := Err (InvalidSignature "bad signature")
|}.

Definition old_key : string := "0123456789abcdef0123456789abcdef".
Definition new_key : string := "ABCDEFGHIJKLMNOPABCDEFGHIJKLMNOP".

Definition rotation : PlaygroundConfig :=
  mkPlayground true
    [mkPinned "did:web:x" old_key "ed25519" None (Some 200%Z);
     mkPinned "did:web:x" new_key "ed25519" (Some 150%Z) None] true.

Definition signed (key hash : string) : PublishRequest :=
  mkRequest "did:web:x" 1 None None hash DataSnapshot (mkSignature "ed25519" "did:web:x#k" (key +:+ hash))
    None [] Public None None None None None [].

Definition shown (_ : RegistryError) : string := "invalid".

Example rotation_windows :
  map (λ now, option_map pin_public_key_b64 (pinned_for_at rotation "did:web:x" now)) [120; 175; 250]%Z =
    [Some old_key; Some new_key; Some new_key].
Proof. vm_compute. reflexivity. Qed.

(** Within the overlap the older key no longer verifies, though it is still pinned. *)
Example overlap_takes_the_newest_key :
  existsb (λ p, bool_decide (pin_public_key_b64 p = old_key) && is_valid_at p 175) (pg_pinned_keys rotation) = true ∧
  enforce_pinned_signature (signed old_key "h1") rotation 175 = Err (RE_Acdp (InvalidSignature "bad signature")).
Proof. vm_compute. split; reflexivity. Qed.

Lemma pinned_publish_is_verified_witness :
  enforce_pinned_signature (signed new_key "h1") rotation 175 = Ok (PinVerified new_key "ed25519") ∧
  ∃ p, pin_in_force rotation "did:web:x" 175 p ∧ pin_public_key_b64 p = new_key.
Proof.
  assert (enforce_pinned_signature (signed new_key "h1") rotation 175 = Ok (PinVerified new_key "ed25519"))
    as He by (vm_compute; reflexivity).
  assert (validate_playground_config shown rotation true 0 = Ok (pin_warnings rotation 0)) as Hvalid
    by (vm_compute; reflexivity).
  split; [exact He|].
  pose proof (pinned_publish_is_verified shown (signed new_key "h1") rotation true 0 175
                (pin_warnings rotation 0) Hvalid) as Hok.
  cbv zeta in Hok. rewrite He in Hok. destruct Hok as (p & Hp & Hkey & _). exists p. by split.
Defined.
End PlaygroundExample.
