(* ===== verification/Handlers.v ===== *)
(** * Handlers: control flow

    What the write handlers of [acdp-registry-core/src/handlers] share: a computation
    that reads and writes the store through the server, may be answered early, may
    panic, and may be dropped at any [await] when the client goes away, with other
    requests changing the store in between. The charge of the request
    ([PublishCharge], a drop guard) is part of the state, so that it is settled
    however the computation ends.

    The SDK's server: the operations of [acdp::registry::RegistryServer] the handlers
    call, over a store of type [S]. They belong to the [acdp] crate; the handlers are
    proved against this interface. [Outside] is what a call takes from its surroundings:
    clocks, random draws, the network. A proof ([Proven]) is what
    [prove_publish_identity] and its siblings return and [commit_proven] takes. *)

From S2P Require Import Prelude Errors RateLimit Webhook ContextTypes EventReceipts SqliteStore.

Declare Scope handler_scope.
Delimit Scope handler_scope with handler.

(** A call that returns or panics. *)
Inductive Ran (T : Type) : Type := Done (v : T) | Panic (m : string).
Arguments Done {T} v.
Arguments Panic {T} m.

(** How a handler ends: with a value or an error as its answer, by a panic of its
    own task, or because its future was dropped. *)
Inductive HEnd (T : Type) : Type :=
  | HOk (v : T)
  | HErr (e : RegistryError)
  | HPanic (m : string)
  | HDropped.
Arguments HOk {T} v.
Arguments HErr {T} e.
Arguments HPanic {T} m.
Arguments HDropped {T}.

(** What a handler sets off besides its answer: the calls of [notify_hints], which
    wakes the hint worker where events are on, and of [emit_with_tenant]. *)
Inductive Effect : Type :=
  | NotifyHints
  | EmitWebhook (event : WebhookEvent) (tenant : option string).

Record HState (S : Type) : Type := mkHState {
  hs_store : S;
  hs_charge : option PublishCharge;
  hs_effects : list Effect
}.
Arguments mkHState {S}.
Arguments hs_store {S}.
Arguments hs_charge {S}.
Arguments hs_effects {S}.

(** One [await]: what other requests do to the store before the awaited call runs,
    and whether the handler's future is dropped before the call's result reaches it. *)
Record AwaitPoint (S : Type) : Type := mkAwait {
  ap_others : S → S;
  ap_dropped : bool
}.
Arguments mkAwait {S}.
Arguments ap_others {S}.
Arguments ap_dropped {S}.

(** What the others do at the handler's [n]th [await], and whether it is dropped
    there. *)
Definition others_at {S} (n : nat) (awaits : list (AwaitPoint S)) : S → S :=
  match awaits !! n with Some x => ap_others x | None => id end.

Definition dropped_at {S} (n : nat) (awaits : list (AwaitPoint S)) : bool :=
  match awaits !! n with Some x => ap_dropped x | None => false end.

Definition H (S T : Type) : Type :=
  list (AwaitPoint S) → HState S → HEnd T * list (AwaitPoint S) * HState S.

Section handler.
Context {S : Type}.

Definition with_store (s : S) (h : HState S) : HState S := mkHState s (hs_charge h) (hs_effects h).

Definition hret {T} (v : T) : H S T := λ aw h, (HOk v, aw, h).

Definition hbind {T U} (m : H S T) (k : T → H S U) : H S U := λ aw h,
  match m aw h with
  | (HOk v, aw, h) => k v aw h
  | (HErr e, aw, h) => (HErr e, aw, h)
  | (HPanic p, aw, h) => (HPanic p, aw, h)
  | (HDropped, aw, h) => (HDropped, aw, h)
  end.

(** The [?] operator on a computed result. *)
Definition hlift {T} (r : result T RegistryError) : H S T := λ aw h,
  match r with Ok v => (HOk v, aw, h) | Err e => (HErr e, aw, h) end.

(** [PublishCharge::new] and [arm]. *)
Definition hcharge (c : PublishCharge) : H S unit := λ aw h,
  (HOk tt, aw, mkHState (hs_store h) (Some c) (hs_effects h)).

Definition arm (h : HState S) : HState S :=
  mkHState (hs_store h) (PublishCharge_arm <$> hs_charge h) (hs_effects h).

Definition harm : H S unit := λ aw h, (HOk tt, aw, arm h).

Definition heffect (e : Effect) : H S unit := λ aw h,
  (HOk tt, aw, mkHState (hs_store h) (hs_charge h) (hs_effects h ++ [e])).

(** A call on the handler's own task, with no [await]. *)
Definition hsync {T} (f : HState S → Ran (result T RegistryError) * HState S) : H S T := λ aw h,
  match f h with
  | (Done (Ok v), h) => (HOk v, aw, h)
  | (Done (Err e), h) => (HErr e, aw, h)
  | (Panic m, h) => (HPanic m, aw, h)
  end.

(** [f().await?]: the call runs to its end unless the future is dropped first; [on_panic]
    says what becomes of a panic. *)
Definition hawaited {T} (on_panic : string → HEnd T)
    (f : HState S → Ran (result T RegistryError) * HState S) : H S T := λ aw h,
  let here := match aw with a :: _ => a | [] => mkAwait id false end in
  let h := with_store (ap_others here (hs_store h)) h in
  let '(r, h) := f h in
  if ap_dropped here then (HDropped, tail aw, h)
  else match r with
       | Done (Ok v) => (HOk v, tail aw, h)
       | Done (Err e) => (HErr e, tail aw, h)
       | Panic m => (on_panic m, tail aw, h)
       end.

(** [f().await?] on the handler's task, and [spawn_blocking(f).await] with a failed
    join as an internal error. *)
Definition hasync {T} (f : HState S → Ran (result T RegistryError) * HState S) : H S T :=
  hawaited HPanic f.

Definition hblocking {T} (f : HState S → Ran (result T RegistryError) * HState S) : H S T :=
  hawaited (λ m, HErr (RE_Internal ("join: " +:+ m))) f.

(** A call that only reads the store. *)
Definition reading {T} (f : S → Ran (result T AcdpError)) :
    HState S → Ran (result T RegistryError) * HState S := λ h,
  (match f (hs_store h) with
   | Done r => Done (map_err RE_Acdp r)
   | Panic m => Panic m
   end, h).

(** A call that may write it. *)
Definition writing {T} (f : S → Ran (result T AcdpError) * S) :
    HState S → Ran (result T RegistryError) * HState S := λ h,
  let '(r, s) := f (hs_store h) in
  (match r with Done r => Done (map_err RE_Acdp r) | Panic m => Panic m end, with_store s h).

(** The closure of the proven branches: prove, arm the charge, commit. *)
Definition prove_then_commit {P T} (prove : S → Ran (result P RegistryError))
    (commit : P → S → Ran (result T RegistryError) * S) :
    HState S → Ran (result T RegistryError) * HState S := λ h,
  match prove (hs_store h) with
  | Panic m => (Panic m, h)
  | Done (Err e) => (Done (Err e), h)
  | Done (Ok p) =>
      let h := arm h in
      let '(r, s) := commit p (hs_store h) in
      (r, with_store s h)
  end.

(** The limiter once the handler is gone: the guard is dropped at [now]. *)
Definition settled (limiter : option AgentRateLimiter) (now : Z) (h : HState S) : option AgentRateLimiter :=
  match hs_charge h with
  | Some c => PublishCharge_drop c now
  | None => limiter
  end.

Definition initial (s : S) : HState S := mkHState s None [].
End handler.

Notation "'let!' x := c 'in' k" := (hbind c (λ x, k))
  (at level 10, x name, k at level 200) : handler_scope.
Notation "'let!' ' p := c 'in' k" := (hbind c (λ p, k))
  (at level 10, p strict pattern, k at level 200) : handler_scope.

(** ** Reasoning about handlers *)

(** Triples over what the other requests may do at an await: [G] says it of the function
    they apply to the store. *)
Section triples.
Context {S : Type} (G : (S → S) → Prop).

Definition others_ok (aw : list (AwaitPoint S)) : Prop := Forall (λ a, G (ap_others a)) aw.

(** [m] run from a state satisfying [P], while others do what [G] allows, ends as [Q]
    says. *)
Definition gtriple {T} (P : HState S → Prop) (m : H S T) (Q : HEnd T → HState S → Prop) : Prop :=
  ∀ aw h, others_ok aw → P h → let '(r, aw', h') := m aw h in others_ok aw' ∧ Q r h'.

(** How an early end passes through a bind. *)
Definition passes {T U} (Q : HEnd U → HState S → Prop) (r : HEnd T) (h : HState S) : Prop :=
  match r with
  | HOk _ => True
  | HErr e => Q (HErr e) h
  | HPanic m => Q (HPanic m) h
  | HDropped => Q HDropped h
  end.

Lemma gtriple_bind {T U} P (m : H S T) (k : T → H S U) R Q :
  gtriple P m (λ r h, match r with HOk v => R v h | _ => passes Q r h end) →
  (∀ v, gtriple (R v) (k v) Q) → gtriple P (hbind m k) Q.
Proof.
  intros Hm Hk aw h Haw HP. specialize (Hm aw h Haw HP). unfold hbind.
  destruct (m aw h) as [[[v|e|p|] aw'] h']; destruct Hm as [Haw' Hm]; simpl in *; try done. by apply Hk.
Qed.

Lemma gtriple_ret {T} (P : HState S → Prop) (v : T) Q : (∀ h, P h → Q (HOk v) h) → gtriple P (hret v) Q.
Proof. intros HQ aw h Haw HP. split; [done|]. by apply HQ. Qed.

Lemma gtriple_lift {T} (P : HState S → Prop) (r : result T RegistryError) Q :
  (∀ h, P h → match r with Ok v => Q (HOk v) h | Err e => Q (HErr e) h end) → gtriple P (hlift r) Q.
Proof. intros HQ aw h Haw HP. specialize (HQ h HP). unfold hlift. by destruct r. Qed.

(** The [?] in front of a rest. *)
Lemma gtriple_lift_bind {T U} P (r : result T RegistryError) (k : T → H S U) Q :
  (∀ e h, r = Err e → P h → Q (HErr e) h) → (∀ v, r = Ok v → gtriple P (k v) Q) →
  gtriple P (hbind (hlift r) k) Q.
Proof.
  intros He Hk. apply (gtriple_bind _ _ _ (λ v h, r = Ok v ∧ P h)).
  - apply gtriple_lift. intros h Hh. destruct r; simpl; auto.
  - intros v aw h Haw [Hr Hh]. by apply Hk.
Qed.

Lemma gtriple_state (P : HState S → Prop) (f : HState S → HState S) Q :
  (∀ h, P h → Q (HOk tt) (f h)) → gtriple P (λ aw h, (HOk tt, aw, f h)) Q.
Proof. intros HQ aw h Haw HP. split; [done|]. by apply HQ. Qed.

Lemma gtriple_awaited {T} (P : HState S → Prop) (on_panic : string → HEnd T) f Q :
  G id →
  (∀ o h, G o → P h → let '(r, h') := f (with_store (o (hs_store h)) h) in
     Q HDropped h' ∧
     match r with
     | Done (Ok v) => Q (HOk v) h'
     | Done (Err e) => Q (HErr e) h'
     | Panic m => Q (on_panic m) h'
     end) →
  gtriple P (hawaited on_panic f) Q.
Proof.
  intros Hid Hf aw h Haw HP. unfold hawaited.
  set (here := match aw with a :: _ => a | [] => mkAwait id false end).
  assert (G (ap_others here)) as Hhere.
  { subst here. destruct aw as [|a aw]; [done|]. by apply Forall_cons_1 in Haw as [Ha _]. }
  assert (others_ok (tail aw)) as Htail by (destruct aw; [done|by apply Forall_cons_1 in Haw as [_ Haw]]).
  specialize (Hf (ap_others here) h Hhere HP). destruct (f _) as [r h'].
  destruct Hf as [Hd Hr]. destruct (ap_dropped here); [done|]. by destruct r as [[v|e]|p].
Qed.

Lemma gtriple_sync {T} (P : HState S → Prop) (f : HState S → Ran (result T RegistryError) * HState S) Q :
  (∀ h, P h → let '(r, h') := f h in
     match r with
     | Done (Ok v) => Q (HOk v) h'
     | Done (Err e) => Q (HErr e) h'
     | Panic m => Q (HPanic m) h'
     end) →
  gtriple P (hsync f) Q.
Proof.
  intros Hf aw h Haw HP. unfold hsync. specialize (Hf h HP). by destruct (f h) as [[[v|e]|p] h'].
Qed.

Lemma gtriple_weaken {T} (P P' : HState S → Prop) (m : H S T) Q Q' :
  gtriple P' m Q' → (∀ h, P h → P' h) → (∀ r h, Q' r h → Q r h) → gtriple P m Q.
Proof.
  intros Hm HP HQ aw h Haw Hh. specialize (Hm aw h Haw (HP h Hh)). destruct (m aw h) as [[r aw'] h'].
  destruct Hm. split; [done|]. by apply HQ.
Qed.
End triples.

(** ** What other requests keep *)

Section rules.
Context {S : Type} (I : S → Prop).

Definition keeps (o : S → S) : Prop := ∀ s, I s → I (o s).

(** What other requests do keeps [I]. *)
Definition others_keep (aw : list (AwaitPoint S)) : Prop := others_ok keeps aw.

Lemma others_at_keep n aw s : others_keep aw → I s → I (others_at n aw s).
Proof.
  intros Haw Hs. unfold others_at. destruct (aw !! n) as [a|] eqn:Ha; [|done].
  by apply (Forall_lookup_1 _ _ _ _ Haw Ha).
Qed.

Definition htriple {T} (P : HState S → Prop) (m : H S T) (Q : HEnd T → HState S → Prop) : Prop :=
  gtriple keeps P m Q.

Lemma htriple_bind {T U} P (m : H S T) (k : T → H S U) R Q :
  htriple P m (λ r h, match r with HOk v => R v h | _ => passes Q r h end) →
  (∀ v, htriple (R v) (k v) Q) → htriple P (hbind m k) Q.
Proof. apply gtriple_bind. Qed.

Lemma htriple_ret {T} (P : HState S → Prop) (v : T) Q : (∀ h, P h → Q (HOk v) h) → htriple P (hret v) Q.
Proof. apply gtriple_ret. Qed.

Lemma htriple_lift {T} (P : HState S → Prop) (r : result T RegistryError) Q :
  (∀ h, P h → match r with Ok v => Q (HOk v) h | Err e => Q (HErr e) h end) → htriple P (hlift r) Q.
Proof. apply gtriple_lift. Qed.

Lemma htriple_lift_bind {T U} P (r : result T RegistryError) (k : T → H S U) Q :
  (∀ e h, r = Err e → P h → Q (HErr e) h) → (∀ v, r = Ok v → htriple P (k v) Q) →
  htriple P (hbind (hlift r) k) Q.
Proof. apply gtriple_lift_bind. Qed.

Lemma htriple_state (P : HState S → Prop) (f : HState S → HState S) Q :
  (∀ h, P h → Q (HOk tt) (f h)) → htriple P (λ aw h, (HOk tt, aw, f h)) Q.
Proof. apply gtriple_state. Qed.

Lemma htriple_awaited {T} (P : HState S → Prop) (on_panic : string → HEnd T) f Q :
  (∀ o h, (∀ s, I s → I (o s)) → P h → let '(r, h') := f (with_store (o (hs_store h)) h) in
     Q HDropped h' ∧
     match r with
     | Done (Ok v) => Q (HOk v) h'
     | Done (Err e) => Q (HErr e) h'
     | Panic m => Q (on_panic m) h'
     end) →
  htriple P (hawaited on_panic f) Q.
Proof. intros Hf. apply gtriple_awaited; [by intros s|done]. Qed.

Lemma htriple_sync {T} (P : HState S → Prop) (f : HState S → Ran (result T RegistryError) * HState S) Q :
  (∀ h, P h → let '(r, h') := f h in
     match r with
     | Done (Ok v) => Q (HOk v) h'
     | Done (Err e) => Q (HErr e) h'
     | Panic m => Q (HPanic m) h'
     end) →
  htriple P (hsync f) Q.
Proof. apply gtriple_sync. Qed.

Lemma htriple_weaken {T} (P P' : HState S → Prop) (m : H S T) Q Q' :
  htriple P' m Q' → (∀ h, P h → P' h) → (∀ r h, Q' r h → Q r h) → htriple P m Q.
Proof. apply gtriple_weaken. Qed.

(** A call that only reads leaves the charge and the effects alone, and the store to
    the others. *)
Lemma htriple_reading {T} (P : HState S → Prop) (on_panic : string → HEnd T) f Q :
  (∀ h s, P h → (I (hs_store h) → I s) →
     let h' := with_store s h in
     Q HDropped h' ∧
     match f s with
     | Done (Ok v) => Q (HOk v) h'
     | Done (Err e) => Q (HErr (RE_Acdp e)) h'
     | Panic m => Q (on_panic m) h'
     end) →
  htriple P (hawaited on_panic (reading f)) Q.
Proof.
  intros Hf. apply htriple_awaited. intros o h Ho HP.
  destruct (Hf h (o (hs_store h)) HP) as [Hd Hr]; [apply Ho|]. unfold reading. simpl.
  split; [done|]. by destruct (f (o (hs_store h))) as [[v|e]|m].
Qed.
End rules.

(** ** The charge of a request *)

Section charge.
Context {S : Type} (I : S → Prop).

(** The guard of a request by [agent], armed or not. *)
Definition charge_is (limiter : option AgentRateLimiter) (agent : string) (h : HState S) (b : bool) : Prop :=
  hs_charge h = Some (mkCharge limiter agent b).

(** A state in which nothing has happened yet but what others did. *)
Definition quiet (limiter : option AgentRateLimiter) (agent : string) (h : HState S) : Prop :=
  charge_is limiter agent h false ∧ hs_effects h = [] ∧ I (hs_store h).

Lemma quiet_read limiter agent h s :
  quiet limiter agent h → (I (hs_store h) → I s) → quiet limiter agent (with_store s h).
Proof. intros (Hc & He & Hi) Hs. split_and!; [done..|by apply Hs]. Qed.

(** Prove, arm, commit: the guard is armed exactly when the proof held, and without
    one nothing is written. *)
Lemma htriple_prove_commit {P T} limiter agent (prove : S → Ran (result P RegistryError))
    (commit : P → S → Ran (result T RegistryError) * S) :
  htriple I (quiet limiter agent) (hblocking (prove_then_commit prove commit))
    (λ r h, hs_effects h = [] ∧
       ((∃ s p, I s ∧ prove s = Done (Ok p)) ∧ charge_is limiter agent h true ∨
        quiet limiter agent h ∧ ∀ v, r ≠ HOk v)).
Proof.
  apply htriple_awaited. intros o h Ho (Hc & He & Hi). unfold prove_then_commit.
  set (h0 := with_store (o (hs_store h)) h).
  assert (quiet limiter agent h0) as Hq by (split_and!; [done..|by apply Ho]).
  destruct (prove (hs_store h0)) as [[p|e]|m] eqn:Hp.
  2,3: split; (split; [done|]); by right.
  destruct (commit p (hs_store (arm h0))) as [r s]. simpl.
  assert (charge_is limiter agent (with_store s (arm h0)) true) as Ht.
  { unfold charge_is, arm, h0. simpl. by rewrite Hc. }
  destruct r as [[v|e]|m]; split; (split; [done|left; split; [by exists (hs_store h0), p; split; [apply Hq|]|done]]).
Qed.
(** A read of the store in front of a rest. *)
Lemma quiet_reading {T U} limiter agent on_panic (f : S → Ran (result T AcdpError)) (k : T → H S U) Q :
  (∀ h, quiet limiter agent h → Q HDropped h ∧ (∀ e, Q (HErr e) h) ∧ ∀ m, passes Q (on_panic m : HEnd T) h) →
  (∀ m v, on_panic m ≠ HOk v) →
  (∀ v s, I s → f s = Done (Ok v) → htriple I (quiet limiter agent) (k v) Q) →
  htriple I (quiet limiter agent) (hbind (hawaited on_panic (reading f)) k) Q.
Proof.
  intros HQ Hp Hk. apply (htriple_bind I _ _ _ (λ v h, (∃ s, I s ∧ f s = Done (Ok v)) ∧ quiet limiter agent h)).
  - apply htriple_reading. intros h s Hh Hs. simpl.
    assert (quiet limiter agent (with_store s h)) as Hq by by apply quiet_read.
    destruct (HQ _ Hq) as (Hd & He & Hm). split; [done|].
    destruct (f s) as [[v|e]|m] eqn:Hf; [by split; [exists s; split; [apply Hq|]|]|apply He|].
    specialize (Hm m). specialize (Hp m). destruct (on_panic m); [by destruct (Hp v)|done..].
  - intros v aw h Haw [(s & Hi & Hs) Hh]. by eapply Hk.
Qed.

(** The same on the handler's task: prove, arm, and commit with no [await] in between. *)
Lemma htriple_prove_arm_commit {P T} limiter agent (prove : S → Ran (result P AcdpError))
    (commit : P → S → Ran (result T RegistryError) * S) :
  htriple I (quiet limiter agent)
    (hbind (hasync (reading prove)) (λ p, hbind harm (λ _,
       hsync (λ h, let '(r, s) := commit p (hs_store h) in (r, with_store s h)))))
    (λ r h, hs_effects h = [] ∧
       ((∃ s p, I s ∧ prove s = Done (Ok p)) ∧ charge_is limiter agent h true ∨
        quiet limiter agent h ∧ ∀ v, r ≠ HOk v)).
Proof.
  apply quiet_reading.
  { intros h Hq. assert (hs_effects h = []) as He by by destruct Hq as (_ & ? & _).
    split; [by split; [|right]|]. split; intros; simpl; (split; [done|by right]). }
  { done. }
  intros proven s Hi Hp. apply (htriple_bind I _ _ _ (λ _ h, hs_effects h = [] ∧ charge_is limiter agent h true)).
  { apply htriple_state. intros h (Hc & He & _). split; [done|].
    unfold charge_is, arm in *. simpl. by rewrite Hc. }
  intros []. apply htriple_sync. intros h [He Hc]. destruct (commit _ _) as [r s'].
  destruct r as [[v|e]|m]; (split; [done|left; split; [by exists s, proven|done]]).
Qed.

(** The limiter once a request of [agent] is gone. *)
Lemma settled_charge limiter agent now (h : HState S) b :
  charge_is limiter agent h b →
  settled limiter now h = if b then (λ l, record_at l agent now) <$> limiter else limiter.
Proof. intros Hc. unfold settled. rewrite Hc. unfold PublishCharge_drop. by destruct b; destruct limiter. Qed.
End charge.

(** ** The SDK's server *)

(** The members of [CapabilitiesDocument] the handlers read. *)
Record Capabilities : Type := mkCapabilities {
  cap_acdp_version : string;
  cap_supports_idempotency_key : bool;
  cap_anonymous_public_reads : bool
}.

Class RegistryServer (S Proven Outside : Type) : Type := {
  capabilities : Capabilities;
  prove_publish_identity : Outside → PublishRequest → S → Ran (result Proven AcdpError);
  prove_publish_identity_did_key : Outside → PublishRequest → S → Ran (result Proven AcdpError);
  (** Request, public key in base64, algorithm. *)
  prove_publish_identity_pinned :
    Outside → PublishRequest → string → string → S → Ran (result Proven AcdpError);
  key_fingerprint : Proven → option string;
  (** Proof, idempotency key, tenant. *)
  commit_proven : Outside → Proven → option string → option string → S →
    Ran (result PublishCommitOutcome AcdpError) * S;
  publish_unverified_for_tests : Outside → PublishRequest → S →
    Ran (result PublishResponse AcdpError) * S
}.

Definition is_replay (o : PublishCommitOutcome) : bool :=
  match o with Inserted _ => false | IdempotentReplay _ => true end.

Definition into_response (o : PublishCommitOutcome) : PublishResponse :=
  match o with Inserted r | IdempotentReplay r => r end.

(** The store's own operations the handlers reach past the server. *)
Class HandlerStore (S : Type) : Type := {
  hs_idempotency_lookup : string → string → S → Ran (result (option IdempotencyRecord) AcdpError);
  hs_idempotency_record : string → string → string → PublishResponse → Z → S →
    Ran (result unit AcdpError) * S;
  hs_set_tenant_of_ctx : string → string → S → Ran (result unit AcdpError) * S
}.
