(* ===== verification/KeylessPublish.v ===== *)
(** * Keyless publishing

    [acdp-registry-core/src/keyless/mod.rs] and the publish side of
    [acdp-registry-core/src/handlers/keyless.rs]: a publish signed with an attested
    key is checked against its attestation before it is proven and committed, and a
    lifecycle event signed with one is refused. Validation, DID documents, JWKs and
    reasons are the SDK's, in the class [KeylessServer]. *)

From stdpp Require Import pretty.
From S2P Require Import Prelude Text Errors RateLimit ContextTypes KeyAttestations EventReceipts SqliteStore Handlers.

Open Scope registry_scope.
Open Scope handler_scope.

(** ** Refusals of [keyless/mod.rs] *)

Inductive KeylessRefusal : Type :=
  | KR_SchemaViolation (m : string)
  | KR_IssuerNotAccepted
  | KR_TokenInvalid (why : string)
  | KR_IssuerUnreachable
  | KR_AudienceMismatch
  | KR_ConfirmationMismatch.

Definition refusal_reason (r : KeylessRefusal) : option string :=
  match r with
  | KR_SchemaViolation _ => None
  | KR_IssuerNotAccepted => Some "issuer_not_accepted"
  | KR_TokenInvalid _ => Some "token_invalid"
  | KR_IssuerUnreachable => Some "issuer_unreachable"
  | KR_AudienceMismatch => Some "audience_mismatch"
  | KR_ConfirmationMismatch => Some "confirmation_mismatch"
  end.

(** [KeylessRefusal::into_error]. *)
Definition refusal_into_error (r : KeylessRefusal) : RegistryError :=
  let with_reason inner := RE_WithReason inner (default "" (refusal_reason r)) in
  match r with
  | KR_SchemaViolation m => RE_Acdp (SchemaViolation m)
  | KR_IssuerNotAccepted =>
      with_reason (KeyNotAuthorized "the workload token's issuer is not accepted by this registry")
  | KR_TokenInvalid why => with_reason (KeyNotAuthorized ("the workload token is invalid: " +:+ why))
  | KR_IssuerUnreachable =>
      with_reason (KeyResolutionUnreachable "the issuer's published keys could not be fetched; retry later")
  | KR_AudienceMismatch =>
      with_reason (KeyNotAuthorized "the workload token's aud does not contain this registry's DID")
  | KR_ConfirmationMismatch =>
      with_reason (KeyNotAuthorized "the workload token's cnf.jkt is not the thumbprint of public_key_jwk")
  end.

Class KeylessServer (S Outside : Type) : Type := {
  (** The length of the re-serialized request, and [PublishValidator]'s
      [validate_post_schema], which recomputes the content hash. *)
  request_len : PublishRequest → result Z string;
  validate_post_schema : PublishRequest → Z → result string AcdpError;
  ctx_authority : string → string;
  (** The store's index of attestations. *)
  key_attestation : string → S → Ran (result (option KeyAttestationRecord) AcdpError);
  (** [KeyAttestation::binds] and [window_contains]. *)
  att_binds : KeyAttestation → string → Signature → bool;
  att_window_contains : KeyAttestation → Z → bool;
  (** Whether the DID document of a controller, resolved with the resolver's usual
      caching, lists an identity. *)
  controller_lists : Outside → string → WorkloadIdentity → Ran (result bool AcdpError);
  (** JWK, algorithm, signature text, message. *)
  jwk_verify : Jwk → string → string → string → result unit AcdpError;
  (** [KeylessReason]: [of], [is_registry_token], [as_str] and [tag]. *)
  reason_of : AcdpError → option KeylessReason;
  is_registry_token : KeylessReason → bool;
  reason_as_str : KeylessReason → string;
  reason_tag : KeylessReason → string → string;
  kl_display : AcdpError → string;
  (** [DateTime::from_timestamp_millis]. *)
  time_from_millis : Z → option Z;
  url_safe_decode : string → result (list Z) string;
  standard_encode : list Z → string
}.

Section keyless.
Context {S Proven Outside : Type} `{!RegistryServer S Proven Outside} `{!KeylessSdk} `{!KeylessServer S Outside}.
(** [config.registry.authority]. *)
Context (authority : string).

Definition with_keyless_reason (e : AcdpError) : RegistryError :=
  match reason_of e with
  | Some r => if is_registry_token r then RE_WithReason e (reason_as_str r) else RE_Acdp e
  | None => RE_Acdp e
  end.

Definition refuse (r : KeylessReason) (message : string) : RegistryError :=
  with_keyless_reason (keyless_error r message).

Definition attestation_bytes_differ (message : string) : RegistryError :=
  RE_WithReason (KeyResolution (reason_tag AttestationMismatch message)) (reason_as_str AttestationMismatch).

Definition pinned_key_b64 (jwk : Jwk) : result string RegistryError :=
  let decode s := map_err (λ e, RE_Internal ("stored attestation JWK: " +:+ e)) (url_safe_decode s) in
  let? raw := match jwk_y jwk with
              | None => decode (jwk_x jwk)
              | Some y =>
                  let? x := decode (jwk_x jwk) in
                  let? y := decode y in
                  Ok ([4%Z] ++ x ++ y)
              end in
  Ok (standard_encode raw).

(** Steps 3 to 6, on the record the store returned; [now_ms] is the keyless clock. *)
Definition check_record (req : PublishRequest) (reference : KeyAttestationRef)
    (record : option KeyAttestationRecord) (now_ms : Z) : result KeyAttestation RegistryError :=
  let? record := ok_or record
    (refuse AttestationNotFound ("no key attestation at '" +:+ ref_ctx_id reference +:+ "'")) in
  if negb (bool_decide (rec_content_hash record = ref_content_hash reference)) then
    Err (attestation_bytes_differ ("key_attestation.content_hash " +:+ ref_content_hash reference +:+
           " is not the stored attestation's " +:+ rec_content_hash record))
  else
    let att := rec_attestation record in
    if negb (att_binds att (req_agent_id req) (req_signature req)) then
      Err (refuse AttestationMismatch
             ("agent_id, signature.key_id or signature.algorithm differ from key attestation '" +:+
              ref_ctx_id reference +:+ "'"))
    else if bool_decide (rec_status record = Retracted) then
      Err (refuse AttestationWithdrawn ("key attestation '" +:+ ref_ctx_id reference +:+ "' was retracted"))
    else
      let? now := ok_or (time_from_millis now_ms) 
                    (RE_Internal ("keyless clock out of range: " +:+ pretty now_ms)) in
      if negb (att_window_contains att now) then
        Err (refuse OutsideAttestationWindow
               ("the registry's time is outside the window of key attestation '" +:+
                ref_ctx_id reference +:+ "'"))
      else Ok att.

(** Step 8. *)
Definition check_attested_signature (req : PublishRequest) (att : KeyAttestation) (recomputed : string) :
    result unit RegistryError :=
  map_err (λ e, match e with
                | InvalidSignature _ => RE_Acdp e
                | other => RE_Acdp (InvalidSignature
                    ("the signature does not verify under the attested key: " +:+ kl_display other))
                end)
    (jwk_verify (ka_public_key_jwk att) (sig_algorithm (req_signature req))
       (sig_value (req_signature req)) recomputed).

(** [check_keyless_publish]: steps 0 to 8. *)
Definition check_keyless_publish (out : Outside) (now_ms : Z) (req : PublishRequest) :
    H S KeyAttestation :=
  let! raw_len := hlift (map_err (λ e, RE_Internal ("re-serializing the request: " +:+ e))
                           (request_len req)) in
  let! recomputed := hlift (map_err RE_Acdp (validate_post_schema req raw_len)) in
  let! reference := hlift (ok_or (req_key_attestation req)
    (refuse AttestationMissing ("signature.key_id '" +:+ sig_key_id (req_signature req) +:+
       "' is a keyless key id but the body has no key_attestation"))) in
  let! _ := hlift (if negb (bool_decide (ctx_authority (ref_ctx_id reference) = authority)) then
                     Err (refuse AttestationForeign ("key_attestation '" +:+ ref_ctx_id reference +:+
                       "' is not on this registry; publish to the registry that attested the key"))
                   else Ok tt) in
  let! record := hasync (reading (key_attestation (ref_ctx_id reference))) in
  let! att := hlift (check_record req reference record now_ms) in
  let! listed := hasync (reading (λ _, controller_lists out (ka_controller att) (ka_identity att))) in
  let! _ := hlift (if negb listed then
                     Err (refuse IdentityNotAuthorized (ka_controller att +:+
                       " no longer lists the workload identity of key attestation '" +:+
                       ref_ctx_id reference +:+ "'"))
                   else Ok tt) in
  let! _ := hlift (check_attested_signature req att recomputed) in
  hret att.

(** The proof of a keyless publish: the attested key pinned, with the attested
    fingerprint. *)
Definition prove_keyless (out : Outside) (req : PublishRequest) (pinned : string) (att : KeyAttestation)
    (s : S) : Ran (result Proven RegistryError) :=
  match prove_publish_identity_pinned out req pinned (ka_algorithm att) s with
  | Panic m => Panic m
  | Done (Err e) => Done (Err (RE_Acdp e))
  | Done (Ok proven) =>
      match key_fingerprint proven with
      | Some fp =>
          if negb (bool_decide (fp = ka_key_fingerprint att)) then
            Done (Err (RE_Internal ("the pinned fingerprint " +:+ fp +:+
              " of the attested key is not the attestation's key_fingerprint " +:+ ka_key_fingerprint att)))
          else Done (Ok proven)
      | None => Done (Ok proven)
      end
  end.

(** The commit, with the error mapped by [to_error]. *)
Definition commit_with (to_error : AcdpError → RegistryError) (out : Outside) (key tenant : option string)
    (proven : Proven) (s : S) : Ran (result (bool * PublishResponse) RegistryError) * S :=
  let '(r, s) := commit_proven out proven key tenant s in
  (match r with
   | Done (Ok o) => Done (Ok (is_replay o, into_response o))
   | Done (Err e) => Done (Err (to_error e))
   | Panic m => Panic m
   end, s).

(** [publish_keyless]. *)
Definition publish_keyless (out_check out_prove out_commit : Outside) (now_ms : Z) (req : PublishRequest)
    (key tenant : option string) : H S (bool * PublishResponse) :=
  let! attested := check_keyless_publish out_check now_ms req in
  let! pinned := hlift (pinned_key_b64 (ka_public_key_jwk attested)) in
  hblocking (prove_then_commit (prove_keyless out_prove req pinned attested)
               (commit_with with_keyless_reason out_commit key tenant)).

(** [refuse_keyless_event]; [profile] is whether the state carries a [KeylessState]. *)
Definition refuse_keyless_event (profile : bool) (key_id : option string) : result unit RegistryError :=
  if negb profile then Ok tt
  else match key_id with
       | Some k =>
           if is_keyless_key_id k then
             Err (RE_WithReason (KeyResolution ("lifecycle event signed with keyless key id '" +:+ k +:+
               "': keyless keys do not sign RFC-ACDP-0013 events in this version (RFC-ACDP-0021 §6.3)"))
               "keyless_event_unsupported")
           else Ok tt
       | None => Ok tt
       end.

(** [keyless_publish_state]. *)
Definition keyless_publish_state (profile : bool) (req : PublishRequest) : bool :=
  profile && is_keyless_key_id (sig_key_id (req_signature req)).

(** ** What a checked publish rests on *)

(** The attestation was read from a store of which [I] holds, and [out] is the outside
    its controller was asked at. *)
Record attested_by (I : S → Prop) (out : Outside) (now_ms : Z) (req : PublishRequest) (att : KeyAttestation) :
    Prop := {
  ab_reference : ∃ reference store record,
    req_key_attestation req = Some reference ∧ ctx_authority (ref_ctx_id reference) = authority ∧
    I store ∧ key_attestation (ref_ctx_id reference) store = Done (Ok (Some record)) ∧
    rec_content_hash record = ref_content_hash reference ∧ rec_status record ≠ Retracted ∧
    rec_attestation record = att;
  ab_binds : att_binds att (req_agent_id req) (req_signature req) = true;
  ab_window : ∃ now, time_from_millis now_ms = Some now ∧ att_window_contains att now = true;
  ab_listed : controller_lists out (ka_controller att) (ka_identity att) = Done (Ok true);
  ab_signature : ∃ raw_len recomputed, request_len req = Ok raw_len ∧ validate_post_schema req raw_len = Ok recomputed ∧
    jwk_verify (ka_public_key_jwk att) (sig_algorithm (req_signature req))
      (sig_value (req_signature req)) recomputed = Ok tt
}.

Lemma check_record_ok req reference record now_ms att :
  check_record req reference record now_ms = Ok att →
  ∃ r, record = Some r ∧ rec_content_hash r = ref_content_hash reference ∧ rec_status r ≠ Retracted ∧
    rec_attestation r = att ∧ att_binds att (req_agent_id req) (req_signature req) = true ∧
    ∃ now, time_from_millis now_ms = Some now ∧ att_window_contains att now = true.
Proof.
  unfold check_record. destruct record as [r|]; simpl; [|done].
  destruct (bool_decide (rec_content_hash r = _)) eqn:Hh; simpl; [|done].
  destruct (att_binds _ _ _) eqn:Hb; simpl; [|done].
  destruct (bool_decide (rec_status r = _)) eqn:Hs; simpl; [done|].
  destruct (time_from_millis now_ms) as [now|] eqn:Hn; simpl; [|done].
  destruct (att_window_contains _ _) eqn:Hw; simpl; [|done]. intros [= <-].
  apply bool_decide_eq_true in Hh. apply bool_decide_eq_false in Hs.
  exists r. split_and!; try done. by exists now.
Qed.

Lemma check_attested_signature_ok req att recomputed u :
  check_attested_signature req att recomputed = Ok u →
  jwk_verify (ka_public_key_jwk att) (sig_algorithm (req_signature req))
    (sig_value (req_signature req)) recomputed = Ok u.
Proof. apply map_err_ok. Qed.
End keyless.
