(* ===== verification/PublishHandler.v ===== *)
(** * Publishing over HTTP

    [publish] and [publish_inner] of [acdp-registry-core/src/handlers/context.rs]:
    the version gates, the publish budget, the tenant, the four ways a publisher is
    identified, and what an accepted publish sets off. *)

From stdpp Require Import pretty.
From S2P Require Import Prelude Text RateLimit ChallengeStore Revocation AuthService Errors ContextTypes ClientIp ReadGate KeyAttestations EventReceipts SqliteStore Webhook PublishReply Playground Handlers KeylessPublish.

Open Scope registry_scope.
Open Scope handler_scope.

(** [version_at_least]: exactly three numeric components. *)
Definition version_at_least (v : string) (major minor : Z) : bool :=
  match collect_ok parse_u64 (split_char (Ascii.ascii_of_nat 46) v) with
  | Ok [ma; mi; _] => (major <? ma)%Z || ((ma =? major)%Z && (minor <=? mi)%Z)
  | _ => false
  end.

Example version_at_least_examples :
  map (λ v, version_at_least v 0 5)
    ["0.4.9"; "0.5.0"; "0.10.0"; "1.0.0"; ""; "0.5"; "x.y.z"; "0.5.0-draft"; "0.5.0.1"] =
    [false; true; true; true; false; false; false; false; false].
Proof. vm_compute. reflexivity. Qed.

(** The parts of a [POST /contexts] the handler reads: what the gate reads, two more
    headers, and the body. *)
Record PublishHttp : Type := mkPublishHttp {
  ph_request : ReadRequest;
  ph_idempotency_key : option (option string);
  ph_run_id : option (option string);
  ph_body : list Z
}.

(** [is_ascii() && !is_ascii_control()]. *)
Definition is_printable_ascii (b : Z) : bool := ((32 <=? b) && (b <? 127))%Z.

Definition idempotency_key_of (http : PublishHttp) : option string :=
  match ph_idempotency_key http with
  | Some (Some s) =>
      if ((1 <=? String.length s) && (String.length s <=? 256))%nat && forallb is_printable_ascii (as_bytes s)
      then Some s else None
  | _ => None
  end.

Definition run_id_of (http : PublishHttp) : option string :=
  match ph_run_id http with
  | Some (Some s) =>
      if negb (bool_decide (s = "")) && (String.length s <=? 256)%nat then Some s else None
  | _ => None
  end.

Section publish.
Context {S Proven Outside : Type} `{!RegistryServer S Proven Outside} `{!HandlerStore S}.
Context `{!KeylessSdk} `{!KeylessServer S Outside} `{!PinnedCrypto}.
Context (jwt_decode : Validation → Z → string → result BearerClaims string).
Context {R : Type} `{!RevocationStore R}.
(** [serde_json::from_slice] for a [PublishRequest]. *)
Context (request_parse : list Z → result PublishRequest string).

(** The members of [AppState] the handler reads. *)
Record PublishState : Type := mkPublishState {
  ps_gate : GateState (R := R);
  ps_rate_limiter : option AgentRateLimiter;
  ps_playground : PlaygroundConfig;
  ps_keyless : bool;
  ps_webhook : bool;
  ps_authority : string;
  ps_base_url : string;
  ps_idempotency_ttl_seconds : Z
}.

(** The readings of clocks in the order the handler takes them, and the surroundings
    of the server's calls. *)
Record PublishEnv : Type := mkPublishEnv {
  pe_peek : Z;
  pe_gate : GateEnv;
  pe_unix_seconds : Z;
  pe_keyless_ms : Z;
  pe_lookup : Z;
  pe_record : Z;
  pe_drop : Z;
  pe_check_call : Outside;
  pe_prove_call : Outside;
  pe_commit_call : Outside
}.

Definition anchors_gate (req : PublishRequest) : result unit RegistryError :=
  match req_anchors req with
  | None => Ok tt
  | Some _ =>
      let advertised := cap_acdp_version capabilities in
      if negb (version_at_least advertised 0 5) then
        Err (RE_Acdp (SchemaViolation ("anchors requires a registry advertising acdp_version >= 0.5.0 (RFC-ACDP-0016 §10); this registry advertises '" +:+ advertised +:+ "'")))
      else
        let declared := default "0.1.0" (req_acdp_version req) in
        if negb (version_at_least declared 0 5) then
          Err (RE_Acdp (SchemaViolation ("anchors requires the publish request to declare acdp_version >= 0.5.0 (RFC-ACDP-0016 §14); this request declared '" +:+ declared +:+ "'")))
        else Ok tt
  end.

Definition key_attestation_gate (req : PublishRequest) : result unit RegistryError :=
  match req_key_attestation req with
  | None => Ok tt
  | Some _ =>
      let advertised := cap_acdp_version capabilities in
      if negb (version_at_least advertised 0 5) then
        Err (RE_Acdp (SchemaViolation ("key_attestation requires a registry advertising acdp_version >= 0.5.0 (RFC-ACDP-0021 §6.2); this registry advertises '" +:+ advertised +:+ "'")))
      else Ok tt
  end.

(** The read-only look at the publish budget of the claimed agent. *)
Definition peek_budget (st : PublishState) (agent_id : string) (now : Z) : result unit RegistryError :=
  match ps_rate_limiter st with
  | Some limiter => map_err RE_RateLimited (peek_at limiter agent_id now)
  | None => Ok tt
  end.

(** A branch's end: an answer at once, or the response of an accepted publish. *)
Inductive BranchEnd : Type :=
  | BranchReply (reply : PublishReply)
  | BranchAccepted (replayed : bool) (response : PublishResponse).

Definition accepted (m : H S (bool * PublishResponse)) : H S BranchEnd :=
  let! 'outcome := m in hret (BranchAccepted outcome.1 outcome.2).

(** [did:key]: proven offline, on the blocking pool. *)
Definition publish_did_key (env : PublishEnv) (req : PublishRequest) (key tenant : option string) :
    H S (bool * PublishResponse) :=
  hblocking (prove_then_commit
    (λ s, match prove_publish_identity_did_key (pe_prove_call env) req s with
          | Done r => Done (map_err RE_Acdp r)
          | Panic m => Panic m
          end)
    (commit_with RE_Acdp (pe_commit_call env) key tenant)).

(** A pinned publisher whose signature was verified. *)
Definition publish_pinned (env : PublishEnv) (req : PublishRequest) (public_key_b64 algorithm : string)
    (key tenant : option string) : H S (bool * PublishResponse) :=
  hblocking (prove_then_commit
    (λ s, match prove_publish_identity_pinned (pe_prove_call env) req public_key_b64 algorithm s with
          | Done r => Done (map_err RE_Acdp r)
          | Panic m => Panic m
          end)
    (commit_with RE_Acdp (pe_commit_call env) key tenant)).

(** The record an unpinned publish finds under its key: an answer, a refusal, or
    nothing that is live. *)
Definition prior_answer (req : PublishRequest) (key : string) (prior : option IdempotencyRecord) (now : Z) :
    result (option PublishResponse) RegistryError :=
  match prior with
  | Some rec =>
      if (now <? idem_expires_at rec)%Z then
        if bool_decide (idem_content_hash rec = req_content_hash req) then Ok (Some (idem_response rec))
        else Err (RE_Acdp (DuplicatePublish ("Idempotency-Key '" +:+ key +:+ "' was previously used by '" +:+
                    req_agent_id req +:+ "' with a different content_hash")))
      else Ok None
  | None => Ok None
  end.

(** The playground's unpinned path: nothing is verified, and the idempotency record is
    kept around the publish. *)
Definition publish_unpinned (st : PublishState) (env : PublishEnv) (req : PublishRequest)
    (key : option string) : H S BranchEnd :=
  let idem_key := if cap_supports_idempotency_key capabilities then key else None in
  let! prior := match idem_key with
                | Some key =>
                    let! rec := hblocking (reading (hs_idempotency_lookup (req_agent_id req) key)) in
                    hlift (prior_answer req key rec (pe_lookup env))
                | None => hret None
                end in
  match prior with
  | Some response =>
      let! _ := harm in
      let! reply := hlift (publish_reply true response) in
      hret (BranchReply reply)
  | None =>
      let! response := hblocking (writing (publish_unverified_for_tests (pe_commit_call env) req)) in
      let! _ := match idem_key with
                | Some key =>
                    hblocking (writing (hs_idempotency_record (req_agent_id req) key (req_content_hash req)
                      response (pe_record env + seconds (ps_idempotency_ttl_seconds st))%Z))
                | None => hret tt
                end in
      hret (BranchAccepted false response)
  end.

(** Production: proven through the resolver on the handler's task, which also commits. *)
Definition publish_production (env : PublishEnv) (req : PublishRequest) (key tenant : option string) :
    H S (bool * PublishResponse) :=
  let! proven := hasync (reading (prove_publish_identity (pe_prove_call env) req)) in
  let! _ := harm in
  hsync (λ h, let '(r, s) := commit_with RE_Acdp (pe_commit_call env) key tenant proven (hs_store h) in
              (r, with_store s h)).

Definition is_did_key (req : PublishRequest) : bool := starts_with (req_agent_id req) "did:key:".

Definition publish_branch (st : PublishState) (env : PublishEnv) (req : PublishRequest)
    (key tenant : option string) : H S BranchEnd :=
  if keyless_publish_state (ps_keyless st) req then
    accepted (publish_keyless (ps_authority st) (pe_check_call env) (pe_prove_call env) (pe_commit_call env)
                (pe_keyless_ms env) req key tenant)
  else if is_did_key req then accepted (publish_did_key env req key tenant)
  else if pg_enabled (ps_playground st) then
    let! pin := hlift (enforce_pinned_signature req (ps_playground st) (pe_unix_seconds env)) in
    match pin with
    | PinVerified public_key_b64 algorithm =>
        accepted (publish_pinned env req public_key_b64 algorithm key tenant)
    | _ => publish_unpinned st env req key
    end
  else accepted (publish_production env req key tenant).

(** The [key_fingerprint] a receipt carries. *)
Definition receipt_fingerprint (receipt : option Value) : option string :=
  match receipt with
  | Some v => match value_get v "key_fingerprint" with Some (VString s) => Some s | _ => None end
  | None => None
  end.

Definition published_event (st : PublishState) (req : PublishRequest) (response : PublishResponse)
    (run_id : option string) : WebhookEvent :=
  ContextPublished (ps_authority st) (ps_base_url st) (resp_ctx_id response) (resp_lineage_id response)
    (req_agent_id req) (context_type_str (req_context_type req)) (visibility_str (req_visibility req))
    (resp_version response) (resp_created_at response) (req_derived_from req) run_id
    (receipt_fingerprint (resp_registry_receipt response)) (resp_registry_receipt response).

(** What follows the branches: the playground's tenant stamp, the hints, the webhook,
    the charge and the reply. *)
Definition publish_finish (st : PublishState) (http : PublishHttp) (req : PublishRequest)
    (tenant : option string) (replayed : bool) (response : PublishResponse) : H S PublishReply :=
  let! _ := match pg_enabled (ps_playground st), tenant with
            | true, Some t => hasync (writing (hs_set_tenant_of_ctx (resp_ctx_id response) t))
            | _, _ => hret tt
            end in
  let! _ := if negb replayed then heffect NotifyHints else hret tt in
  let! _ := if ps_webhook st && negb replayed
            then heffect (EmitWebhook (published_event st req response (run_id_of http)) tenant)
            else hret tt in
  let! _ := harm in
  hlift (publish_reply replayed response).

Definition publish_inner (st : PublishState) (env : PublishEnv) (http : PublishHttp) : H S PublishReply :=
  let! req := hlift (map_err (λ e, RE_Acdp (SchemaViolation e)) (request_parse (ph_body http))) in
  let! _ := hlift (anchors_gate req) in
  let! _ := hlift (key_attestation_gate req) in
  let! _ := hlift (peek_budget st (req_agent_id req) (pe_peek env)) in
  let! _ := hcharge (PublishCharge_new (ps_rate_limiter st) (req_agent_id req)) in
  let! tenant := hlift (tenant_for_publish jwt_decode (ps_gate st) (pe_gate env) (ph_request http)
                          (req_agent_id req)) in
  let! outcome := publish_branch st env req (idempotency_key_of http) tenant in
  match outcome with
  | BranchReply reply => hret reply
  | BranchAccepted replayed response => publish_finish st http req tenant replayed response
  end.

(** [publish]: the answer, the limiter after the guard is dropped, the store, and
    what was set off. *)
Definition publish (st : PublishState) (env : PublishEnv) (http : PublishHttp)
    (awaits : list (AwaitPoint S)) (store : S) :
    HEnd PublishReply * option AgentRateLimiter * S * list Effect :=
  let '(r, _, h) := publish_inner st env http awaits (initial store) in
  (r, settled (ps_rate_limiter st) (pe_drop env) h, hs_store h, hs_effects h).
End publish.
