(* ===== verification/PublishTheorems.v ===== *)
(** * Publishing over HTTP: theorems

    Who may publish, what is charged for it and what is announced, for [publish] of
    [PublishHandler], against the interface [RegistryServer] of the SDK's server. *)

From stdpp Require Import pretty.
From S2P Require Import Prelude Text RateLimit ChallengeStore Revocation AuthService Errors ContextTypes ClientIp ReadGate KeyAttestations EventReceipts SqliteStore Webhook PublishReply Playground Handlers KeylessPublish PublishHandler.

Open Scope registry_scope.

Section publish.
Context {S Proven Outside : Type} `{!RegistryServer S Proven Outside} `{!HandlerStore S}.
Context `{!KeylessSdk} `{!KeylessServer S Outside} `{!PinnedCrypto}.
Context (jwt_decode : Validation → Z → string → result BearerClaims string).
Context {R : Type} `{!RevocationStore R}.
Context (request_parse : list Z → result PublishRequest string).
Context (I : S → Prop).

Implicit Types (st : PublishState (R := R)) (env : PublishEnv (Outside := Outside)) (req : PublishRequest).

(** Who a publisher was found to be: by an attestation, by its own DID, by a pinned
    key, or by its DID document. *)
Inductive authorised st env req : Prop :=
  | auth_keyless att pinned s p :
      keyless_publish_state (ps_keyless st) req = true →
      attested_by (ps_authority st) I (pe_check_call env) (pe_keyless_ms env) req att →
      pinned_key_b64 (ka_public_key_jwk att) = Ok pinned → I s →
      prove_keyless (pe_prove_call env) req pinned att s = Done (Ok p) → authorised st env req
  | auth_did_key s p :
      keyless_publish_state (ps_keyless st) req = false → is_did_key req = true →
      I s → prove_publish_identity_did_key (pe_prove_call env) req s = Done (Ok p) → authorised st env req
  | auth_pinned key_b64 algorithm s p :
      keyless_publish_state (ps_keyless st) req = false → is_did_key req = false →
      pg_enabled (ps_playground st) = true →
      enforce_pinned_signature req (ps_playground st) (pe_unix_seconds env) =
        Ok (PinVerified key_b64 algorithm) →
      I s → prove_publish_identity_pinned (pe_prove_call env) req key_b64 algorithm s = Done (Ok p) →
      authorised st env req
  | auth_production s p :
      keyless_publish_state (ps_keyless st) req = false → is_did_key req = false →
      pg_enabled (ps_playground st) = false →
      I s → prove_publish_identity (pe_prove_call env) req s = Done (Ok p) → authorised st env req.

(** The one way in without a proof: a playground that has no pin for the agent. *)
Definition unverified st env req : Prop :=
  keyless_publish_state (ps_keyless st) req = false ∧ is_did_key req = false ∧
  pg_enabled (ps_playground st) = true ∧
  ∃ pin, enforce_pinned_signature req (ps_playground st) (pe_unix_seconds env) = Ok pin ∧
    (pin = PinSkipped ∨ pin = PinUnpinned).

(** How a branch leaves the request. *)
Inductive branch_post st env req (r : HEnd BranchEnd) (h : HState S) : Prop :=
  | bp_proven :
      authorised st env req → charge_is (ps_rate_limiter st) (req_agent_id req) h true →
      (∀ reply, r ≠ HOk (BranchReply reply)) → branch_post st env req r h
  | bp_refused :
      quiet I (ps_rate_limiter st) (req_agent_id req) h → (∀ v, r ≠ HOk v) → branch_post st env req r h
  | bp_unverified :
      unverified st env req → charge_is (ps_rate_limiter st) (req_agent_id req) h false →
      (∀ reply, r ≠ HOk (BranchReply reply)) → branch_post st env req r h
  | bp_replayed reply :
      unverified st env req → charge_is (ps_rate_limiter st) (req_agent_id req) h true →
      r = HOk (BranchReply reply) → reply_status reply = 200%Z → branch_post st env req r h.

Notation Quiet st req := (quiet I (ps_rate_limiter st) (req_agent_id req)).

(** A refusal, a panic or a dropped request in a quiet state. *)
Lemma refused_post st env req r h :
  Quiet st req h → (∀ v, r ≠ HOk v) → hs_effects h = [] ∧ branch_post st env req r h.
Proof. intros Hq Hr. split; [by destruct Hq as (_ & ? & _)|]. by apply bp_refused. Qed.

Lemma check_keyless_spec st env req :
  htriple I (Quiet st req)
    (check_keyless_publish (ps_authority st) (pe_check_call env) (pe_keyless_ms env) req)
    (λ r h, Quiet st req h ∧
       ∀ att, r = HOk att → attested_by (ps_authority st) I (pe_check_call env) (pe_keyless_ms env) req att).
Proof.
  unfold check_keyless_publish.
  apply htriple_lift_bind; [done|]. intros raw_len Hlen. apply map_err_ok in Hlen.
  apply htriple_lift_bind; [done|]. intros recomputed Hhash. apply map_err_ok in Hhash.
  apply htriple_lift_bind; [done|]. intros reference Href. apply ok_or_ok in Href.
  apply htriple_lift_bind; [done|]. intros [] Hauth.
  destruct (bool_decide (ctx_authority _ = _)) eqn:Ha; [|done]. apply bool_decide_eq_true in Ha.
  apply quiet_reading; [done..|]. intros record s Hi Hrec.
  apply htriple_lift_bind; [done|]. intros att Hatt.
  apply quiet_reading; [done..|]. intros listed s' _ Hlisted.
  apply htriple_lift_bind; [done|]. intros [] Hl. destruct listed; [|done].
  apply htriple_lift_bind; [done|]. intros [] Hsig. apply check_attested_signature_ok in Hsig.
  apply htriple_ret. intros h Hq. split; [done|]. intros att' [= <-].
  apply check_record_ok in Hatt as (rec & -> & Hh & Hs & <- & Hb & Hw).
  constructor; [|done..|by exists raw_len, recomputed].
  by exists reference, s, rec.
Qed.

(** The end of a proven branch as the end of the branches. *)
Lemma accepted_spec st env req (m : H S (bool * PublishResponse)) (proof : Prop) :
  (proof → authorised st env req) →
  htriple I (Quiet st req) m
    (λ r h, hs_effects h = [] ∧
       (proof ∧ charge_is (ps_rate_limiter st) (req_agent_id req) h true ∨
        Quiet st req h ∧ ∀ v, r ≠ HOk v)) →
  htriple I (Quiet st req) (accepted m) (λ r h, hs_effects h = [] ∧ branch_post st env req r h).
Proof.
  intros Hproof Hm.
  apply (htriple_bind I _ _ _ (λ _ h, hs_effects h = [] ∧ proof ∧
                                  charge_is (ps_rate_limiter st) (req_agent_id req) h true)).
  - eapply htriple_weaken; [exact Hm|done|]. intros r h [He [[Hp Hc]|[Hq Hr]]].
    + destruct r; simpl; [done|..]; (split; [done|]); apply bp_proven; auto.
    + destruct r; simpl; [by destruct (Hr v)|..]; by apply refused_post.
  - intros [b resp]. apply htriple_ret. intros h (He & Hp & Hc). split; [done|].
    apply bp_proven; auto.
Qed.

Lemma publish_keyless_spec st env req key tenant :
  keyless_publish_state (ps_keyless st) req = true →
  htriple I (Quiet st req)
    (accepted (publish_keyless (ps_authority st) (pe_check_call env) (pe_prove_call env)
                 (pe_commit_call env) (pe_keyless_ms env) req key tenant))
    (λ r h, hs_effects h = [] ∧ branch_post st env req r h).
Proof.
  intros Hkl.
  apply (accepted_spec st env req _
    (∃ att pinned s p, attested_by (ps_authority st) I (pe_check_call env) (pe_keyless_ms env) req att ∧
       pinned_key_b64 (ka_public_key_jwk att) = Ok pinned ∧ I s ∧
       prove_keyless (pe_prove_call env) req pinned att s = Done (Ok p))).
  { intros (att & pinned & s & p & Hatt & Hpin & Hi & Hp). by eapply auth_keyless. }
  unfold publish_keyless.
  eapply (htriple_bind I _ _ _ (λ att h, Quiet st req h ∧ attested_by
                                  (ps_authority st) I (pe_check_call env) (pe_keyless_ms env) req att)).
  { eapply htriple_weaken; [apply check_keyless_spec|done|].
    intros r h [Hq Hok]. destruct r; simpl; auto; (split; [by destruct Hq as (_ & ? & _)|by right]). }
  intros att aw h Haw [Hq Hatt]. revert aw h Haw Hq. change (htriple I (Quiet st req)
    (hbind (hlift (pinned_key_b64 (ka_public_key_jwk att)))
       (λ pinned, hblocking (prove_then_commit (prove_keyless (pe_prove_call env) req pinned att)
          (commit_with with_keyless_reason (pe_commit_call env) key tenant))))
    (λ r h, hs_effects h = [] ∧
       ((∃ att pinned s p, attested_by (ps_authority st) I (pe_check_call env) (pe_keyless_ms env) req att ∧
           pinned_key_b64 (ka_public_key_jwk att) = Ok pinned ∧ I s ∧
           prove_keyless (pe_prove_call env) req pinned att s = Done (Ok p)) ∧
        charge_is (ps_rate_limiter st) (req_agent_id req) h true ∨ Quiet st req h ∧ ∀ v, r ≠ HOk v))).
  apply htriple_lift_bind.
  { intros e h _ Hq. split; [by destruct Hq as (_ & ? & _)|by right]. }
  intros pinned Hpin. eapply htriple_weaken; [apply htriple_prove_commit|done|].
  intros r h [He [[(s & p & Hi & Hp) Hc]|Hq]]; (split; [done|]); [left|by right].
  split; [|done]. by exists att, pinned, s, p.
Qed.

Lemma publish_production_spec st env req key tenant :
  keyless_publish_state (ps_keyless st) req = false → is_did_key req = false →
  pg_enabled (ps_playground st) = false →
  htriple I (Quiet st req) (accepted (publish_production env req key tenant))
    (λ r h, hs_effects h = [] ∧ branch_post st env req r h).
Proof.
  intros Hkl Hdk Hpg.
  apply (accepted_spec st env req _
    (∃ s p, I s ∧ prove_publish_identity (pe_prove_call env) req s = Done (Ok p))).
  { intros (s & p & Hi & Hp). by eapply auth_production. }
  apply htriple_prove_arm_commit.
Qed.

Lemma map_done {T E F} (f : E → F) (r : Ran (result T E)) v :
  match r with Done r => Done (map_err f r) | Panic m => Panic m end = Done (Ok v) → r = Done (Ok v).
Proof. destruct r as [[]|]; simpl; congruence. Qed.

Lemma publish_did_key_spec st env req key tenant :
  keyless_publish_state (ps_keyless st) req = false → is_did_key req = true →
  htriple I (Quiet st req) (accepted (publish_did_key env req key tenant))
    (λ r h, hs_effects h = [] ∧ branch_post st env req r h).
Proof.
  intros Hkl Hdk.
  eapply accepted_spec; [|apply htriple_prove_commit].
  intros (s & p & Hi & Hp%map_done). by eapply auth_did_key.
Qed.

Lemma publish_pinned_spec st env req key_b64 algorithm key tenant :
  keyless_publish_state (ps_keyless st) req = false → is_did_key req = false →
  pg_enabled (ps_playground st) = true →
  enforce_pinned_signature req (ps_playground st) (pe_unix_seconds env) =
    Ok (PinVerified key_b64 algorithm) →
  htriple I (Quiet st req) (accepted (publish_pinned env req key_b64 algorithm key tenant))
    (λ r h, hs_effects h = [] ∧ branch_post st env req r h).
Proof.
  intros Hkl Hdk Hpg Hpin.
  eapply accepted_spec; [|apply htriple_prove_commit].
  intros (s & p & Hi & Hp%map_done). by eapply auth_pinned.
Qed.

(** A write on the unpinned path leaves the guard as it is. *)
Lemma unarmed_writing {T} st req on_panic (f : S → Ran (result T AcdpError) * S) b :
  htriple I (λ h, charge_is (ps_rate_limiter st) (req_agent_id req) h b ∧ hs_effects h = [])
    (hawaited on_panic (writing f))
    (λ _ h, charge_is (ps_rate_limiter st) (req_agent_id req) h b ∧ hs_effects h = []).
Proof.
  apply htriple_awaited. intros o h _ [Hc He]. unfold writing.
  destruct (f _) as [r s]. simpl. by destruct r as [[v|e]|m].
Qed.

Lemma publish_unpinned_spec st env req key :
  unverified st env req →
  htriple I (Quiet st req) (publish_unpinned st env req key)
    (λ r h, hs_effects h = [] ∧ branch_post st env req r h).
Proof.
  intros Hun. unfold publish_unpinned.
  set (idem := if cap_supports_idempotency_key capabilities then key else None).
  apply (htriple_bind I _ _ _ (λ _ h, Quiet st req h)).
  { destruct idem as [k|]; [|by apply htriple_ret].
    apply quiet_reading; [|done|].
    { intros h Hq. split; [by apply refused_post|]. split; intros; by apply refused_post. }
    intros rec s _ _. apply htriple_lift. intros h Hq.
    destruct (prior_answer _ _ _ _); [done|]. by apply refused_post. }
  intros [response|].
  - apply (htriple_bind I _ _ _ (λ _ h, charge_is (ps_rate_limiter st) (req_agent_id req) h true ∧
                                   hs_effects h = [])).
    { apply htriple_state. intros h (Hc & He & _). unfold charge_is, arm in *. simpl. by rewrite Hc. }
    intros [].
    destruct (publish_reply_locates true response) as (reply & Hreply & _ & Hstatus & _).
    rewrite Hreply. apply (htriple_bind I _ _ _ (λ v h, v = reply ∧
        charge_is (ps_rate_limiter st) (req_agent_id req) h true ∧ hs_effects h = [])).
    { apply htriple_lift. intros h Hh. by split. }
    intros v. apply htriple_ret. intros h (-> & Hc & He). split; [done|]. by eapply bp_replayed.
  - apply (htriple_bind I _ _ _ (λ _ h, charge_is (ps_rate_limiter st) (req_agent_id req) h false ∧
                                   hs_effects h = [])).
    { eapply htriple_weaken; [apply unarmed_writing|by intros h (? & ? & _)|].
      intros r h [Hc He]. destruct r; simpl; [done|..]; (split; [done|by apply bp_unverified]). }
    intros response. apply (htriple_bind I _ _ _ (λ _ h,
      charge_is (ps_rate_limiter st) (req_agent_id req) h false ∧ hs_effects h = [])).
    { destruct idem as [k|]; [|by apply htriple_ret].
      eapply htriple_weaken; [apply (unarmed_writing st req)|by intros h Hh; exact Hh|].
      intros r h [Hc He]. destruct r; simpl; [done|..]; (split; [done|by apply bp_unverified]). }
    intros []. apply htriple_ret. intros h [Hc He]. split; [done|]. by apply bp_unverified.
Qed.

Lemma publish_branch_spec st env req key tenant :
  htriple I (Quiet st req) (publish_branch st env req key tenant)
    (λ r h, hs_effects h = [] ∧ branch_post st env req r h).
Proof.
  unfold publish_branch.
  destruct (keyless_publish_state _ _) eqn:Hkl; [by apply publish_keyless_spec|].
  destruct (is_did_key req) eqn:Hdk; [by apply publish_did_key_spec|].
  destruct (pg_enabled _) eqn:Hpg; [|by apply publish_production_spec].
  apply htriple_lift_bind; [intros e h _ Hq; by apply refused_post|]. intros pin Hpin.
  destruct pin as [|key_b64 algorithm|]; [|by apply publish_pinned_spec|];
    apply publish_unpinned_spec; (split_and!; [done..|]); by eauto.
Qed.

(** How the whole handler leaves the request: [tenant] is what was resolved for it. *)
Definition announced st (http : PublishHttp) req (tenant : option string) (reply : PublishReply) : list Effect :=
  if (reply_status reply =? 200)%Z then []
  else NotifyHints ::
       (if ps_webhook st then [EmitWebhook (published_event st req (reply_body reply) (run_id_of http)) tenant]
        else []).

Inductive publish_post st env (http : PublishHttp) req (tenant : option string) (r : HEnd PublishReply) (h : HState S) : Prop :=
  | pp_accepted reply :
      r = HOk reply → authorised st env req ∨ unverified st env req →
      charge_is (ps_rate_limiter st) (req_agent_id req) h true →
      hs_effects h = announced st http req tenant reply →
      reply_status reply = 200%Z ∨ reply_status reply = 201%Z → publish_post st env http req tenant r h
  | pp_failed b :
      (∀ reply, r ≠ HOk reply) → hs_effects h = [] →
      charge_is (ps_rate_limiter st) (req_agent_id req) h b →
      (if b then authorised st env req else unverified st env req ∨ I (hs_store h)) →
      publish_post st env http req tenant r h.

Lemma publish_finish_spec st env http req tenant replayed response (b : bool) :
  (if b then authorised st env req else unverified st env req) →
  htriple I (λ h, charge_is (ps_rate_limiter st) (req_agent_id req) h b ∧ hs_effects h = [])
    (publish_finish st http req tenant replayed response)
    (publish_post st env http req tenant).
Proof.
  intros Hb. unfold publish_finish.
  apply (htriple_bind I _ _ _ (λ _ h, charge_is (ps_rate_limiter st) (req_agent_id req) h b ∧ hs_effects h = [])).
  { destruct (pg_enabled _); [destruct tenant as [t|]|]; [|by apply htriple_ret..].
    eapply htriple_weaken; [apply (unarmed_writing st req)|by intros h Hh; exact Hh|]. intros r h [Hc He].
    destruct r; simpl; [done|..]; (eapply pp_failed; [done..|]); (destruct b; [done|by left]). }
  intros [].
  destruct (publish_reply_locates replayed response) as (reply & Hreply & Hbody & Hstatus & _).
  rewrite Hreply.
  apply (htriple_bind I _ _ _ (λ _ h, charge_is (ps_rate_limiter st) (req_agent_id req) h b ∧
           hs_effects h = (if replayed then [] else [NotifyHints]))).
  { destruct replayed; simpl; [by apply htriple_ret|]. apply htriple_state. intros h [Hc He].
    unfold charge_is in *. simpl. by rewrite He. }
  intros [].
  apply (htriple_bind I _ _ _ (λ _ h, charge_is (ps_rate_limiter st) (req_agent_id req) h b ∧
           hs_effects h = announced st http req tenant reply)).
  { unfold announced. rewrite Hstatus Hbody. destruct replayed; simpl.
    - rewrite andb_false_r. by apply htriple_ret.
    - destruct (ps_webhook st); simpl; [|by apply htriple_ret]. apply htriple_state. intros h [Hc He].
      unfold charge_is in *. simpl. by rewrite He. }
  intros [].
  apply (htriple_bind I _ _ _ (λ _ h, charge_is (ps_rate_limiter st) (req_agent_id req) h true ∧
           hs_effects h = announced st http req tenant reply)).
  { apply htriple_state. intros h [Hc He]. unfold charge_is, arm in *. simpl. by rewrite Hc. }
  intros []. apply htriple_lift. intros h [Hc He]. eapply pp_accepted; [done| |done|done|].
  - destruct b; auto.
  - rewrite Hstatus. destruct replayed; auto.
Qed.

Lemma branch_failed st env http req tenant r (r' : HEnd PublishReply) h :
  branch_post st env req r h → hs_effects h = [] → (∀ v, r ≠ HOk v) → (∀ v, r' ≠ HOk v) →
  publish_post st env http req tenant r' h.
Proof.
  intros [Ha Hc _|(Hc & _ & Hi) _|Hu Hc _|reply _ _ -> _] He Hr Hr'.
  - by apply (pp_failed _ _ _ _ _ _ _ true).
  - apply (pp_failed _ _ _ _ _ _ _ false); auto.
  - apply (pp_failed _ _ _ _ _ _ _ false); auto.
  - by destruct (Hr (BranchReply reply)).
Qed.

(** A publish that was refused before its guard existed, or while it was quiet. *)
Definition turned_away st req (r : HEnd PublishReply) (h : HState S) : Prop :=
  (∀ reply, r ≠ HOk reply) ∧ hs_effects h = [] ∧ I (hs_store h) ∧
  (hs_charge h = None ∨ charge_is (ps_rate_limiter st) (req_agent_id req) h false).

Lemma publish_inner_spec st env http req :
  request_parse (ph_body http) = Ok req →
  htriple I (λ h, hs_charge h = None ∧ hs_effects h = [] ∧ I (hs_store h))
    (publish_inner jwt_decode request_parse st env http)
    (λ r h, turned_away st req r h ∨
       ∃ tenant, tenant_for_publish jwt_decode (ps_gate st) (pe_gate env) (ph_request http)
                   (req_agent_id req) = Ok tenant ∧ publish_post st env http req tenant r h).
Proof.
  intros Hparse. unfold publish_inner. rewrite Hparse.
  set (P := λ h : HState S, hs_charge h = None ∧ hs_effects h = [] ∧ I (hs_store h)).
  assert (∀ h e, P h → turned_away st req (HErr e) h) as Haway.
  { intros h e (Hc & He & Hi). split_and!; [done..|by left]. }
  apply htriple_lift_bind; [by intros e h [=]|]. intros r' [= <-].
  do 3 (apply htriple_lift_bind; [by intros e h _ HP; left; apply Haway|intros [] _]).
  apply (htriple_bind I P _ _ (λ _ h, Quiet st req h)).
  { apply htriple_state. intros h (Hc & He & Hi). by split_and!. }
  intros []. apply htriple_lift_bind.
  { intros e h _ (Hc & He & Hi). left. split_and!; [done..|by right]. }
  intros tenant Htenant.
  apply (htriple_bind I _ _ _ (λ o h, hs_effects h = [] ∧ branch_post st env req (HOk o) h)).
  { eapply htriple_weaken; [apply publish_branch_spec|done|]. intros r h [He Hb].
    destruct r; simpl; [done|..]; right; exists tenant; (split; [done|]); by eapply branch_failed. }
  intros [reply|replayed response].
  - apply htriple_ret. intros h [He Hb]. right. exists tenant. split; [done|].
    destruct Hb as [_ _ Hr|_ Hr|_ _ Hr|reply' Hu Hc [= ->] Hs];
      [by destruct (Hr reply)|by destruct (Hr (BranchReply reply))|by destruct (Hr reply)|].
    eapply pp_accepted; [done|by right|done| |by left]. unfold announced. by rewrite Hs.
  - intros aw h Haw [He Hb].
    assert (∃ b : bool, (if b then authorised st env req else unverified st env req) ∧
              charge_is (ps_rate_limiter st) (req_agent_id req) h b) as (b & Hwho & Hc).
    { destruct Hb as [Ha Hc _|_ Hr|Hu Hc _|]; [by exists true|by destruct (Hr _ eq_refl)|by exists false|done]. }
    pose proof (publish_finish_spec st env http req tenant replayed response b Hwho aw h Haw (conj Hc He)) as Hf.
    destruct (publish_finish _ _ _ _ _ _ _ _) as [[r aw'] h']. destruct Hf as [Haw' Hf].
    split; [done|]. right. by exists tenant.
Qed.

(** C2: who publishes, and who pays. However a [POST /contexts] ends, be it an answer,
    a panic or a client that went away, and whatever other requests do meanwhile: an
    accepted publish was proven to be its agent's, by a standing attestation, its own
    [did:key], the pinned key in force or its DID document, or came through a
    playground that pins no key for the agent, which never holds for a [did:key] or an
    attested key. The agent is charged exactly once for a publish that was accepted; a failed
    one is charged to it only when it was proven, and an uncharged one, the playground
    apart, has not written to the store. *)
Theorem publish_charges_the_proven st env http req (awaits : list (AwaitPoint S)) (store : S) :
  request_parse (ph_body http) = Ok req → I store → others_keep I awaits →
  let '(answer, limiter, store', _) := publish jwt_decode request_parse st env http awaits store in
  let charged := (λ l, record_at l (req_agent_id req) (pe_drop env)) <$> ps_rate_limiter st in
  match answer with
  | HOk _ => (authorised st env req ∨ unverified st env req) ∧ limiter = charged
  | _ => limiter = charged ∧ authorised st env req ∨
         limiter = ps_rate_limiter st ∧ (unverified st env req ∨ I store')
  end.
Proof.
  intros Hparse HI Haw. unfold publish.
  pose proof (publish_inner_spec st env http req Hparse awaits (initial store) Haw (conj eq_refl (conj eq_refl HI)))
    as Hspec.
  destruct (publish_inner _ _ _ _ _ _ _) as [[r aw'] h]. destruct Hspec as [_ Hpost].
  destruct Hpost as [(Hr & _ & Hi & Hc)|(tenant & _ & Hpost)].
  - assert (settled (ps_rate_limiter st) (pe_drop env) h = ps_rate_limiter st) as Hs.
    { destruct Hc as [Hc|Hc]; [by unfold settled; rewrite Hc|by rewrite (settled_charge _ _ _ _ _ Hc)]. }
    rewrite Hs. destruct r; [by destruct (Hr v)|..]; right; auto.
  - destruct Hpost as [reply -> Hwho Hc _ _|b Hr _ Hc Hb]; rewrite (settled_charge _ _ _ _ _ Hc); [done|].
    destruct r; [by destruct (Hr v)|..]; destruct b; auto.
Qed.

End publish.

Section announce.
Context {S Proven Outside : Type} `{!RegistryServer S Proven Outside} `{!HandlerStore S}.
Context `{!KeylessSdk} `{!KeylessServer S Outside} `{!PinnedCrypto}.
Context (jwt_decode : Validation → Z → string → result BearerClaims string).
Context {R : Type} `{!RevocationStore R}.
Context (request_parse : list Z → result PublishRequest string).

(** The effects of a publish, by its answer. *)
Lemma publish_announces (st : PublishState (R := R)) (env : PublishEnv (Outside := Outside))
    (http : PublishHttp) (req : PublishRequest) (awaits : list (AwaitPoint S)) (store : S) :
  request_parse (ph_body http) = Ok req →
  let '(answer, _, _, effects) := publish jwt_decode request_parse st env http awaits store in
  match answer with
  | HOk reply =>
      (reply_status reply = 200%Z ∨ reply_status reply = 201%Z) ∧
      ∃ tenant, tenant_for_publish jwt_decode (ps_gate st) (pe_gate env) (ph_request http)
                  (req_agent_id req) = Ok tenant ∧
        effects = (if (reply_status reply =? 200)%Z then []
                   else NotifyHints ::
                        (if ps_webhook st
                         then [EmitWebhook (published_event st req (reply_body reply) (run_id_of http)) tenant]
                         else []))
  | _ => effects = []
  end.
Proof.
  intros Hparse. unfold publish.
  pose proof (publish_inner_spec jwt_decode request_parse (λ _, True) st env http req Hparse awaits
                (initial store)) as Hspec.
  destruct (publish_inner _ _ _ _ _ _ _) as [[r aw'] h].
  destruct Hspec as [_ Hpost]; [by apply Forall_true|done|].
  destruct Hpost as [(Hr & He & _)|(tenant & Htenant & [reply -> _ _ He Hs|b Hr He _ _])].
  - by destruct r; [destruct (Hr v)|..].
  - split; [done|]. by exists tenant.
  - by destruct r; [destruct (Hr v)|..].
Qed.

(** A new context is announced once, and nothing else is. The reply is 201 for a
    new context and 200 for a replay; a new one wakes the hint worker and, where a
    webhook is configured, is emitted once, with the members of the request and the
    response, under the tenant the publish was resolved to. A replay, a refusal, a
    panic and a dropped request announce nothing. *)
Theorem publish_announces_new_contexts (st : PublishState (R := R)) (env : PublishEnv (Outside := Outside))
    (http : PublishHttp) (req : PublishRequest) (awaits : list (AwaitPoint S)) (store : S) :
  request_parse (ph_body http) = Ok req →
  let '(answer, _, _, effects) := publish jwt_decode request_parse st env http awaits store in
  match answer with
  | HOk reply =>
      (reply_status reply = 200%Z ∨ reply_status reply = 201%Z) ∧
      ∃ tenant, tenant_for_publish jwt_decode (ps_gate st) (pe_gate env) (ph_request http)
                  (req_agent_id req) = Ok tenant ∧
        effects = (if (reply_status reply =? 200)%Z then []
                   else NotifyHints ::
                        (if ps_webhook st
                         then [EmitWebhook (published_event st req (reply_body reply) (run_id_of http)) tenant]
                         else []))
  | _ => effects = []
  end.
Proof. apply publish_announces. Qed.
End announce.

(** ** What was committed

    Off the playground, an accepted publish is one the server has committed, under
    the key and the tenant of the request. *)

Section commit.
Context {S Proven Outside : Type} `{!RegistryServer S Proven Outside} `{!HandlerStore S}.
Context `{!KeylessSdk} `{!KeylessServer S Outside} `{!PinnedCrypto}.
Context (jwt_decode : Validation → Z → string → result BearerClaims string).
Context {R : Type} `{!RevocationStore R}.
Context (request_parse : list Z → result PublishRequest string).

(** A proof is of the request it was made for. *)
Class ProvesRequests (request_of : Proven → PublishRequest) : Prop := {
  proves_request out req s p : prove_publish_identity out req s = Done (Ok p) → request_of p = req;
  proves_did_key out req s p : prove_publish_identity_did_key out req s = Done (Ok p) → request_of p = req;
  proves_pinned out req key alg s p :
    prove_publish_identity_pinned out req key alg s = Done (Ok p) → request_of p = req
}.

Context (request_of : Proven → PublishRequest) `{!ProvesRequests request_of} (I : S → Prop).

(** The commit behind a response. *)
Definition committed (out : Outside) (req : PublishRequest) (key tenant : option string)
    (replayed : bool) (response : PublishResponse) (s' : S) : Prop :=
  ∃ s p o, I s ∧ request_of p = req ∧ commit_proven out p key tenant s = (Done (Ok o), s') ∧
    replayed = is_replay o ∧ response = into_response o.

Lemma commit_with_ok to_error out key tenant p s v s' :
  commit_with to_error out key tenant p s = (Done (Ok v), s') →
  ∃ o, commit_proven out p key tenant s = (Done (Ok o), s') ∧ v = (is_replay o, into_response o).
Proof.
  unfold commit_with. destruct (commit_proven out p key tenant s) as [[[o|e]|m] s1]; intros [=]; subst.
  by exists o.
Qed.

Lemma prove_commit_committed env req (prove : S → Ran (result Proven RegistryError)) to_error key tenant :
  (∀ s p, prove s = Done (Ok p) → request_of p = req) →
  htriple I (λ h, I (hs_store h))
    (hblocking (prove_then_commit prove (commit_with to_error (pe_commit_call env) key tenant)))
    (λ r h, ∀ v, r = HOk v → committed (pe_commit_call env) req key tenant v.1 v.2 (hs_store h)).
Proof.
  intros Hprove. apply htriple_awaited. intros o h Ho HI. unfold prove_then_commit. cbn [hs_store with_store].
  destruct (prove (o (hs_store h))) as [[p|e]|m] eqn:Hp; [|done..].
  destruct (commit_with _ _ _ _ p (hs_store (arm _))) as [r s'] eqn:Hc. split; [done|].
  destruct r as [[v|e]|m]; [|done..]. intros v' [= <-]. apply commit_with_ok in Hc as (oc & Hc & ->).
  exists (o (hs_store h)), p, oc. split_and!; [by apply Ho|by eapply Hprove|done..].
Qed.

(** A step that keeps [I] of the store, in front of a rest. *)
Lemma keeps_reading {T U} on_panic (f : S → Ran (result T AcdpError)) (k : T → H S U) Q :
  (∀ r : HEnd T, (∀ v, r ≠ HOk v) → ∀ h, passes Q r h) → (∀ m v, on_panic m ≠ HOk v) →
  (∀ v s, f s = Done (Ok v) → htriple I (λ h, I (hs_store h)) (k v) Q) →
  htriple I (λ h, I (hs_store h)) (hbind (hawaited on_panic (reading f)) k) Q.
Proof.
  intros HQ Hp Hk. apply (htriple_bind I _ _ _ (λ v h, (∃ s, f s = Done (Ok v)) ∧ I (hs_store h))).
  - apply htriple_reading. intros h s Hh Hs. simpl. split; [by apply (HQ HDropped)|].
    destruct (f s) as [[v|e]|m] eqn:Hf; [split; [by exists s|by apply Hs]|by apply (HQ (HErr _))|].
    specialize (HQ (on_panic m) (Hp m)). destruct (on_panic m) eqn:Ho; [by destruct (Hp m v)|apply HQ..].
  - intros v aw h Haw [[s Hs] Hh]. by eapply Hk.
Qed.

Lemma publish_branch_committed (st : PublishState (R := R)) (env : PublishEnv) req key tenant :
  pg_enabled (ps_playground st) = false →
  htriple I (λ h, I (hs_store h)) (publish_branch st env req key tenant)
    (λ r h, ∀ o, r = HOk o → ∃ replayed response, o = BranchAccepted replayed response ∧
       committed (pe_commit_call env) req key tenant replayed response (hs_store h)).
Proof.
  intros Hpg. unfold publish_branch. rewrite Hpg.
  assert (∀ m, htriple I (λ h, I (hs_store h)) m
            (λ r h, ∀ v, r = HOk v → committed (pe_commit_call env) req key tenant v.1 v.2 (hs_store h)) →
          htriple I (λ h, I (hs_store h)) (accepted m)
            (λ r h, ∀ o, r = HOk o → ∃ replayed response, o = BranchAccepted replayed response ∧
               committed (pe_commit_call env) req key tenant replayed response (hs_store h))) as Hacc.
  { intros m Hm. apply (htriple_bind I _ _ _ (λ v h, committed (pe_commit_call env) req key tenant v.1 v.2 (hs_store h))).
    - eapply htriple_weaken; [exact Hm|done|]. intros r h Hr. destruct r; simpl; [by apply Hr|done..].
    - intros [b resp]. apply htriple_ret. intros h Hc o [= <-]. by exists b, resp. }
  destruct (keyless_publish_state _ _); [|destruct (is_did_key req)]; apply Hacc.
  - unfold publish_keyless.
    apply (htriple_bind I _ _ _ (λ _ h, I (hs_store h))).
    + unfold check_keyless_publish.
      do 4 (apply htriple_lift_bind; [done|intros ? _]).
      apply keeps_reading; [by intros []|done|]. intros record s _.
      apply htriple_lift_bind; [done|]. intros att _.
      apply keeps_reading; [by intros []|done|]. intros listed s' _.
      do 2 (apply htriple_lift_bind; [done|intros ? _]). by apply htriple_ret.
    + intros att. apply htriple_lift_bind; [done|]. intros pinned _. apply prove_commit_committed.
      intros s p. unfold prove_keyless.
      destruct (prove_publish_identity_pinned _ _ _ _ _) as [[p'|]|] eqn:Hp; [|done..].
      intros Hfp. assert (p' = p) as -> by (repeat case_match; congruence). by eapply proves_pinned.
  - apply prove_commit_committed. intros s p Hp%map_done. by eapply proves_did_key.
  - unfold publish_production. apply keeps_reading; [by intros []|done|]. intros proven s Hp.
    apply (htriple_bind I _ _ _ (λ _ h, I (hs_store h))); [by apply htriple_state|]. intros [].
    apply htriple_sync. intros h HI.
    destruct (commit_with _ _ _ _ _ _) as [[[v|e]|m] s'] eqn:Hc; [|done..]. intros v' [= <-].
    apply commit_with_ok in Hc as (oc & Hc & ->). exists (hs_store h), proven, oc.
    split_and!; [done|by eapply proves_request|done..].
Qed.

Lemma publish_finish_store (st : PublishState (R := R)) http req tenant replayed response aw h :
  pg_enabled (ps_playground st) = false →
  let '(r, aw', h') := publish_finish st http req tenant replayed response aw h in
  aw' = aw ∧ hs_store h' = hs_store h ∧ ∀ reply, r = HOk reply → publish_reply replayed response = Ok reply.
Proof.
  intros Hpg. unfold publish_finish. rewrite Hpg. unfold hbind, hlift, hret, harm, heffect.
  destruct replayed; simpl; rewrite ?andb_false_r /=;
    [|destruct (ps_webhook st); simpl]; destruct (publish_reply _ response); simpl;
    (split_and!; [done..|]); congruence.
Qed.

Lemma publish_committed (st : PublishState (R := R)) (env : PublishEnv) http req awaits store reply limiter store' effects :
  request_parse (ph_body http) = Ok req → pg_enabled (ps_playground st) = false →
  I store → others_keep I awaits →
  publish jwt_decode request_parse st env http awaits store = (HOk reply, limiter, store', effects) →
  ∃ tenant replayed response,
    tenant_for_publish jwt_decode (ps_gate st) (pe_gate env) (ph_request http) (req_agent_id req) = Ok tenant ∧
    committed (pe_commit_call env) req (idempotency_key_of http) tenant replayed response store' ∧
    publish_reply replayed response = Ok reply.
Proof.
  intros Hparse Hpg HI Haw. unfold publish.
  assert (htriple I (λ h, I (hs_store h)) (publish_inner jwt_decode request_parse st env http)
    (λ r h, ∀ reply, r = HOk reply → ∃ tenant replayed response,
       tenant_for_publish jwt_decode (ps_gate st) (pe_gate env) (ph_request http) (req_agent_id req) = Ok tenant ∧
       committed (pe_commit_call env) req (idempotency_key_of http) tenant replayed response (hs_store h) ∧
       publish_reply replayed response = Ok reply)) as Hspec.
  { unfold publish_inner. rewrite Hparse. apply htriple_lift_bind; [done|]. intros r' [= <-].
    do 3 (apply htriple_lift_bind; [done|intros ? _]).
    apply (htriple_bind I _ _ _ (λ _ h, I (hs_store h))); [by apply htriple_state|]. intros [].
    apply htriple_lift_bind; [done|]. intros tenant Htenant.
    eapply (htriple_bind I _ _ _ (λ o h, ∃ replayed response, o = BranchAccepted replayed response ∧
       committed (pe_commit_call env) req (idempotency_key_of http) tenant replayed response (hs_store h))).
    - eapply htriple_weaken; [by apply publish_branch_committed|done|].
      intros r h Hr. destruct r; simpl; [by apply Hr|done..].
    - intros o aw h Haw' (replayed & response & -> & Hc).
      pose proof (publish_finish_store st http req tenant replayed response aw h Hpg) as Hf.
      destruct (publish_finish _ _ _ _ _ _ _ _) as [[r aw'] h'].
      destruct Hf as (-> & Hstore & Hreply). split; [done|].
      intros reply' ->. exists tenant, replayed, response. rewrite Hstore. auto. }
  specialize (Hspec awaits (initial store) Haw HI).
  destruct (publish_inner _ _ _ _ _ _ _) as [[r aw'] h]. destruct Hspec as [_ Hok].
  intros [= -> _ <- _]. by apply Hok.
Qed.
End commit.
