(* ===== verification/PublishSqlite.v ===== *)
(** * Publishing over HTTP on the SQLite store

    The handler of [PublishHandler] composed with the store of [SqliteStore]: what a
    client that retries a [POST /contexts] is answered. The SDK's [commit_proven]
    stands between the two; what the registry relies on of it is [CommitsViaStore]. *)

From S2P Require Import Prelude Text RateLimit ChallengeStore Revocation AuthService Errors ContextTypes ClientIp ReadGate KeyAttestations EventReceipts SqlTx SqliteStore SqlitePublish SqliteInvariants SqliteReach SqliteTheorems Webhook PublishReply Playground Handlers KeylessPublish PublishHandler PublishTheorems.

Open Scope registry_scope.

(** What a commit takes from its surroundings: the driver, the clock at entry and
    under the write lock, and the random bits of the new id. *)
Record CommitCall : Type := mkCommitCall {
  cc_env : TxEnv;
  cc_now : Z;
  cc_ms : Z;
  cc_draw : Z
}.

Section over_sqlite.
Context `{StoreCodec} `{PublishSdk} `{KeylessSdk}.
Context `{!StoreCodecLaws} `{!PublishSdkLaws} `{!EventSdkLaws}.
Context {Proven Outside : Type} `{!RegistryServer SqliteDb Proven Outside} `{!HandlerStore SqliteDb}.
Context `{!KeylessServer SqliteDb Outside} `{!PinnedCrypto}.
Context (jwt_decode : Validation → Z → string → result BearerClaims string).
Context {R : Type} `{!RevocationStore R}.
Context (request_parse : list Z → result PublishRequest string).

(** [commit_proven] is one [commit_publish] of the store, for the proven request under
    the server's authority and the tenant it is given, and under the idempotency key
    when the server supports them. *)
Class CommitsViaStore (sqlite : SqliteStore) (ttl : Z) (call_of : Outside → CommitCall)
    (commit_of : Proven → PublishCommit) : Prop := {
  commits_via_store out p key tenant db :
    commit_proven out p key tenant db =
      let c := commit_of p in
      let commit := mkPublishCommit (pc_req c) (pc_authority c)
                      (if cap_supports_idempotency_key capabilities then (λ k, (k, ttl)) <$> key else None)
                      tenant (pc_receipt_minter c) (pc_predecessor_admission c) in
      let '(r, db') := commit_publish sqlite (cc_env (call_of out)) commit (cc_now (call_of out))
                         (cc_ms (call_of out)) (cc_draw (call_of out)) db in
      (Done r, db')
}.

Context (sqlite : SqliteStore) (ttl : Z) (call_of : Outside → CommitCall) (commit_of : Proven → PublishCommit).
Context `{!CommitsViaStore sqlite ttl call_of commit_of} `{!ProvesRequests (λ p, pc_req (commit_of p))}.






End over_sqlite.
