(* ===== verification/PublishExample.v ===== *)
(** * A publish over HTTP, run

    The handler on the SQLite store of [StoreExample], with a server whose proofs are
    a fixed signature text, and the witnesses of the theorems on publishing. *)

From S2P Require Import Prelude Text RateLimit ChallengeStore Revocation AuthService Errors ContextTypes ChangeFeed FeedBackends ClientIp ReadGate KeyAttestations EventReceipts SqlTx SqliteStore SqlitePublish SqliteInvariants SqliteReach SqliteTheorems StoreExample.
From S2P Require Import Webhook PublishReply Playground Handlers KeylessPublish PublishHandler PublishTheorems PublishSqlite.

Open Scope registry_scope.

Module PublishExample.
Import EventExample StoreExample.StoreExample.

Definition proof_of (req : PublishRequest) : Ran (result PublishRequest AcdpError) :=
  Done (if bool_decide (sig_value (req_signature req) = "AA") then Ok req
        else Err (InvalidSignature "bad signature")).

#[export] Instance ledger_server : RegistryServer SqliteDb PublishRequest CommitCall := {|
  capabilities := mkCapabilities "0.5.0" true true;
  prove_publish_identity _ req _ := proof_of req;
  prove_publish_identity_did_key _ req _ := proof_of req;
  prove_publish_identity_pinned _ req _ _ _ := proof_of req;
  key_fingerprint _ := None;
  commit_proven out req key tenant db :=
    let '(r, db') := commit_publish store1 (cc_env out)
                       (mkPublishCommit req "reg.test" ((λ k, (k, hour)) <$> key) tenant (Some receipt_of) None)
                       (cc_now out) (cc_ms out) (cc_draw out) db in
    (Done r, db');
  publish_unverified_for_tests _ _ db := (Done (Err (AcdpOther "no test path")), db)
|}.

#[export] Instance ledger_store : HandlerStore SqliteDb := {|
  hs_idempotency_lookup agent key db := Done (idempotency_lookup agent key db);
  hs_idempotency_record agent key hash resp exp db :=
    let '(r, db') := idempotency_record agent key hash resp exp db in (Done r, db');
  hs_set_tenant_of_ctx ctx tenant db := (Done (Ok tt), set_tenant_of_ctx ctx tenant db)
|}.

#[export] Instance ledger_keyless_server : KeylessServer SqliteDb CommitCall := {|
  request_len _ := Ok 100%Z;
  validate_post_schema req _ := Ok (req_content_hash req);
  ctx_authority _ := "reg.test";
  key_attestation _ _ := Done (Ok None);
  att_binds att agent sig := bool_decide (ka_controller att = agent ∧ ka_key_id att = sig_key_id sig);
  att_window_contains att t := ((ka_not_before att <=? t) && (t <? ka_not_after att))%Z;
  controller_lists _ _ _ := Done (Ok true);
  jwk_verify _ _ sig _ := if bool_decide (sig = "AA") then Ok tt else Err (InvalidSignature "bad signature");
  reason_of _ := None;
  is_registry_token _ := true;
  reason_as_str _ := "";
  reason_tag _ m := m;
  kl_display _ := "";
  time_from_millis z := Some (z * ns_per_ms)%Z;
  url_safe_decode s := Ok (as_bytes s);
  standard_encode l := from_bytes l
|}.

#[export] Instance ledger_pins : PinnedCrypto := {|
  standard_decode s := Ok (as_bytes s);
  pin_verify_ed25519 _ _ _ := Ok tt;
  pin_verify_ecdsa_p256 _ _ _ := Ok tt
|}.

Definition ledger_commit (req : PublishRequest) : PublishCommit :=
  mkPublishCommit req "reg.test" None None (Some receipt_of) None.

#[export] Instance ledger_commits : CommitsViaStore store1 hour (λ c, c) ledger_commit.
Proof. constructor. reflexivity. Qed.

#[export] Instance ledger_proves : ProvesRequests (λ p, pc_req (ledger_commit p)).
Proof.
  assert (∀ req p, proof_of req = Done (Ok p) → pc_req (ledger_commit p) = req) as Hp.
  { intros req p. unfold proof_of. case_bool_decide; [|done]. by intros [= ->]. }
  constructor; intros; by apply Hp.
Qed.

Definition no_jwt : Validation → Z → string → result BearerClaims string := λ _ _ _, Err "none".

(** A body's one byte says which request it is. *)
Definition parse_body (l : list Z) : result PublishRequest string :=
  match l with
  | [97%Z] => Ok (request "did:web:a" 1 None "h1")
  | [98%Z] => Ok (request "did:web:b" 1 None "h2")
  | _ => Err "expected value"
  end.

Definition gate0 : GateState (R := InMemoryRevocationStore) :=
  mkGateState true false [mkBinding "did:web:a" "t1"] []
    example_signer (mkMemRevocations false ∅ false ∅)
    (mkForwardedPolicy [] FH_TrustedProxies 0) TH_None [].

Definition state0 : PublishState :=
  mkPublishState gate0 (Some (AgentRateLimiter_new 5 0)) (mkPlayground false [] false) false true
    "reg.test" "https://reg.test" 3600.

Definition env_at (now draw : Z) : PublishEnv :=
  let call := mkCommitCall ok_env now (timestamp_millis now) draw in
  mkPublishEnv 7 (mkGateEnv (mkCallEnv now DbOk) 7) 0 0 now now 8 call call call.

Definition http_of (body : Z) : PublishHttp :=
  mkPublishHttp (mkReadRequest false [] None [] [] None) (Some (Some "key-1")) None [body].

Definition run_publish (now draw body : Z) (db : SqliteDb) :=
  publish no_jwt parse_body state0 (env_at now draw) (http_of body) [] db.

(** The first publish, and the same request again a second later. *)
Definition first_run := run_publish 5000000 1 97 db0.
Definition retry_run := run_publish 1005000000 2 97 (first_run.1.2).

Definition reply_of (r : HEnd PublishReply) : PublishReply :=
  match r with HOk reply => reply | _ => mkReply 0 "" (mkResponse "" "" 0 0 Active None) end.

Example first_and_retry :
  map (λ run : HEnd PublishReply * option AgentRateLimiter * SqliteDb * list Effect,
         (reply_status (reply_of run.1.1.1), length run.2)) [first_run; retry_run] =
    [(201%Z, 2%nat); (200%Z, 0%nat)].
Proof. vm_compute. reflexivity. Qed.

Lemma first_parses : parse_body (ph_body (http_of 97)) = Ok (request "did:web:a" 1 None "h1").
Proof. reflexivity. Qed.

(** The accepted publish was proven by its agent's DID document and charged. *)
Lemma publish_charges_the_proven_witness :
  reply_status (reply_of first_run.1.1.1) = 201%Z ∧
  first_run.1.1.2 = Some (record_at (AgentRateLimiter_new 5 0) "did:web:a" 8) ∧
  (authorised (Proven := PublishRequest) (λ _ : SqliteDb, True) state0 (env_at 5000000 1) (request "did:web:a" 1 None "h1") ∨
   unverified state0 (env_at 5000000 1) (request "did:web:a" 1 None "h1")).
Proof.
  assert (match first_run.1.1.1 with HOk r => reply_status r = 201%Z | _ => False end) as Hok
    by (vm_compute; reflexivity).
  pose proof (publish_charges_the_proven no_jwt parse_body (λ _ : SqliteDb, True) state0 (env_at 5000000 1)
                (http_of 97) (request "did:web:a" 1 None "h1") [] db0 first_parses Logic.I
                (List.Forall_nil _)) as Hthm.
  change (publish no_jwt parse_body state0 (env_at 5000000 1) (http_of 97) [] db0) with first_run in Hthm.
  destruct first_run as [[[r l] s] e]. simpl in Hok, Hthm |- *.
  destruct r as [reply|err|m|]; simpl in Hok; [|destruct Hok..].
  destruct Hthm as [Hwho ->]. split_and!; [exact Hok|reflexivity|exact Hwho].
Defined.

Lemma publish_announces_new_contexts_witness :
  ∃ reply tenant, first_run.1.1.1 = HOk reply ∧
    first_run.2 = [NotifyHints; EmitWebhook (published_event state0 (request "did:web:a" 1 None "h1")
                     (reply_body reply) None) tenant].
Proof.
  assert (match first_run.1.1.1 with HOk r => reply_status r = 201%Z | _ => False end) as Hok
    by (vm_compute; reflexivity).
  pose proof (publish_announces_new_contexts no_jwt parse_body state0 (env_at 5000000 1)
                (http_of 97) (request "did:web:a" 1 None "h1") [] db0 first_parses) as Hthm.
  change (publish no_jwt parse_body state0 (env_at 5000000 1) (http_of 97) [] db0) with first_run in Hthm.
  destruct first_run as [[[r l] s] e]. simpl in Hok, Hthm |- *.
  destruct r as [reply|err|m|]; simpl in Hok; [|destruct Hok..].
  destruct Hthm as (_ & tenant & _ & ->). rewrite Hok. exists reply, tenant. split; reflexivity.
Defined.

End PublishExample.
