(* ===== verification/ReadHandlers.v ===== *)
(** * Reading over HTTP

    [retrieve], [retrieve_body], [search], [lineage] and [current] of
    [acdp-registry-core/src/handlers/context.rs], as computations of [Handlers]: the
    tenant of the caller, the SDK's server, the tenant of what it answered, and the
    pages a filtered search walks. The SDK's server and the resolver of foreign
    contexts are the class [ReadServer]. *)

From S2P Require Import Prelude Text RateLimit ChallengeStore Revocation AuthService Errors ContextTypes ClientIp ReadGate ChangeFeed EventReceipts Webhook Handlers.

Open Scope registry_scope.
Open Scope handler_scope.

(** ** Search queries *)

Definition parse_visibility (s : string) : option Visibility :=
  if bool_decide (s = "public") then Some Public
  else if bool_decide (s = "restricted") then Some Restricted
  else if bool_decide (s = "private") then Some Private
  else None.

(** [acdp::types::search::SearchParams]. *)
Record SearchParams : Type := mkSearchParams {
  sp_q : option string;
  sp_context_type : option string;
  sp_domain : option string;
  sp_tags : option string;
  sp_agent_id : option string;
  sp_schema_uri : option string;
  sp_derived_from : option string;
  sp_created_after : option string;
  sp_created_before : option string;
  sp_data_period_start_after : option string;
  sp_data_period_end_before : option string;
  sp_expires_after : option string;
  sp_expires_before : option string;
  sp_status : option string;
  sp_limit : option Z;
  sp_cursor : option string
}.

Record SearchQuery : Type := mkSearchQuery {
  q_q : option string;
  q_context_type : option string;
  q_domain : option string;
  q_tags : option string;
  q_agent_id : option string;
  q_schema_uri : option string;
  q_derived_from : option string;
  q_created_after : option string;
  q_created_before : option string;
  q_data_period_start_after : option string;
  q_data_period_end_before : option string;
  q_expires_after : option string;
  q_expires_before : option string;
  q_status : option string;
  q_limit : option Z;
  q_cursor : option string;
  q_visibility : option string
}.

(** [SearchQuery::into_params]. *)
Definition into_params (q : SearchQuery) : SearchParams * option Visibility :=
  (mkSearchParams (q_q q) (q_context_type q) (q_domain q) (q_tags q) (q_agent_id q) (q_schema_uri q)
     (q_derived_from q) (q_created_after q) (q_created_before q) (q_data_period_start_after q)
     (q_data_period_end_before q) (q_expires_after q) (q_expires_before q) (q_status q) (q_limit q)
     (q_cursor q),
   q_visibility q ≫= parse_visibility).

Definition set_limit (limit : option Z) (p : SearchParams) : SearchParams :=
  mkSearchParams (sp_q p) (sp_context_type p) (sp_domain p) (sp_tags p) (sp_agent_id p) (sp_schema_uri p)
    (sp_derived_from p) (sp_created_after p) (sp_created_before p) (sp_data_period_start_after p)
    (sp_data_period_end_before p) (sp_expires_after p) (sp_expires_before p) (sp_status p) limit
    (sp_cursor p).

Definition set_cursor (cursor : option string) (p : SearchParams) : SearchParams :=
  mkSearchParams (sp_q p) (sp_context_type p) (sp_domain p) (sp_tags p) (sp_agent_id p) (sp_schema_uri p)
    (sp_derived_from p) (sp_created_after p) (sp_created_before p) (sp_data_period_start_after p)
    (sp_data_period_end_before p) (sp_expires_after p) (sp_expires_before p) (sp_status p) (sp_limit p)
    cursor.

(** [acdp::types::search::SearchResult]. *)
Record SearchResult : Type := mkSearchResult {
  sr_ctx_id : string;
  sr_lineage_id : string;
  sr_agent_id : string;
  sr_title : string;
  sr_summary : option string;
  sr_context_type : ContextType;
  sr_domain : option string;
  sr_created_at : Z;
  sr_status : Status;
  sr_visibility : option Visibility
}.

Record SearchResponse : Type := mkSearchResponse {
  matches : list SearchResult;
  total_estimate : option Z;
  next_cursor : option string
}.

Definition SEARCH_REFILL_MAX_PAGES : nat := 6.
Definition SEARCH_LIMIT_MAX : Z := 100.

(** ** The server *)

(** The reads of [RegistryServer] and of its store, [CtxId]'s parser, and the resolver
    of foreign contexts with what it verified. *)
Class ReadServer (S Outside Resolved : Type) `{EventSdk} : Type := {
  server_retrieve : string → option string → S → Ran (result (option FullContext) AcdpError);
  server_retrieve_body : string → option string → S → Ran (result (option Body) AcdpError);
  server_lineage : string → option string → S → Ran (result (list FullContext) AcdpError);
  server_current : string → option string → S → Ran (result (option FullContext) AcdpError);
  server_search : SearchParams → option string → S → Ran (result SearchResponse AcdpError);
  (** Parameters, requester, [public_arm_open], tenant. *)
  search_in_tenant : SearchParams → option string → bool → option string → S →
    Ran (result SearchResponse AcdpError);
  read_tenant_of_ctx : string → S → Ran (result (option string) AcdpError);
  read_tenants_of_ctxs : list string → S → Ran (result (gmap string string) AcdpError);
  ctx_id_parse : string → result string AcdpError;
  ctx_id_authority : string → string;
  resolve_foreign : Outside → string → Ran (result Resolved AcdpError);
  resolved_body : Resolved → Body;
  resolved_state : Resolved → RegistryState;
  resolved_receipt : Resolved → option Value;
  resolved_raw_body : Resolved → option Value;
  context_to_value : FullContext → result Value string
}.

(** [wire["body"] = raw] on the object a context serializes to. *)
Definition set_member (key : string) (v : Value) (wire : Value) : Value :=
  match wire with
  | VObject members =>
      VObject (if existsb (λ m, bool_decide (m.1 = key)) members
               then map (λ m, if bool_decide (m.1 = key) then (key, v) else m) members
               else members ++ [(key, v)])
  | _ => VObject [(key, v)]
  end.

Section reads.
Context {S Proven Outside Resolved : Type} `{!RegistryServer S Proven Outside}.
Context `{EventSdk} `{!ReadServer S Outside Resolved}.
Context {R : Type} `{!RevocationStore R}.

(** The members of [AppState] the handlers read. *)
Record ReadState : Type := mkReadState {
  rs_gate : GateState (R := R);
  rs_authority : string;
  rs_cross_registry : bool;
  rs_webhook : bool
}.

(** The clock of the event and the surroundings of the resolver. *)
Record ReadEnv : Type := mkReadEnv {
  re_at : Z;
  re_resolve_call : Outside
}.

Definition NotFoundContext : RegistryError := RE_Acdp (NotFound "context not found").
Definition NotFoundCurrent : RegistryError := RE_Acdp (NotFound "no current version").

(** An answer of [GET /contexts/{ctx_id}]: a context of this registry, or the wire form
    of a foreign one. *)
Inductive Retrieved : Type :=
  | LocalContext (ctx : FullContext)
  | ForeignContext (wire : Value).

(** [resolver.resolve(&parsed).await], whose error is mapped. *)
Definition resolving (out : Outside) (id : string) : HState S → Ran (result Resolved RegistryError) * HState S :=
  λ h, (match resolve_foreign out id with
        | Done r => Done (map_err from_cross_registry r)
        | Panic m => Panic m
        end, h).

Definition retrieved_event (st : ReadState) (env : ReadEnv) (ctx : FullContext) (who : option string) :
    WebhookEvent :=
  ContextRetrieved (rs_authority st) (body_ctx_id (fc_body ctx)) who (re_at env).

Definition announce_retrieved (st : ReadState) (env : ReadEnv) (ctx : FullContext) (who : option string) :
    H S unit :=
  if rs_webhook st then heffect (EmitWebhook (retrieved_event st env ctx who) None) else hret tt.

(** The branch for a context of another authority. *)
Definition retrieve_foreign (st : ReadState) (env : ReadEnv) (parsed : string) (who : option string) :
    H S Retrieved :=
  if negb (rs_cross_registry st) then
    hlift (Err (RE_Acdp (NotFound "context not found (cross-registry resolution disabled)")))
  else
    let! verified := hasync (resolving (re_resolve_call env) parsed) in
    let ctx := mkFullContext (resolved_body verified) (resolved_state verified) (resolved_receipt verified) in
    let! _ := announce_retrieved st env ctx who in
    let! wire := hlift (map_err (λ e, RE_Internal ("serialize proxied context: " +:+ e)) (context_to_value ctx)) in
    hret (ForeignContext match resolved_raw_body verified with
                         | Some raw => set_member "body" raw wire
                         | None => wire
                         end).

(** The tenant gate on one context: the stored tenant is [default] where there is none. *)
Definition tenant_gate (missing : RegistryError) (requested : option string) (ctx_id : string) : H S unit :=
  match requested with
  | None => hret tt
  | Some tenant =>
      let! stored := hasync (reading (read_tenant_of_ctx ctx_id)) in
      if bool_decide (default "default" stored = tenant) then hret tt else hlift (Err missing)
  end.

Definition retrieve (st : ReadState) (env : ReadEnv) (req : ReadRequest) (principal : ReadPrincipal)
    (ctx_id : string) : H S Retrieved :=
  let who := requester principal in
  let! parsed := hlift (map_err RE_Acdp (ctx_id_parse ctx_id)) in
  if negb (bool_decide (ctx_id_authority parsed = rs_authority st)) then retrieve_foreign st env parsed who
  else
    let! requested := hlift (tenant_for_principal (rs_gate st) req principal) in
    let! found := hblocking (reading (server_retrieve ctx_id who)) in
    let! ctx := hlift (ok_or found NotFoundContext) in
    let! _ := tenant_gate NotFoundContext requested ctx_id in
    let! _ := announce_retrieved st env ctx who in
    hret (LocalContext ctx).

Definition retrieve_body (st : ReadState) (req : ReadRequest) (principal : ReadPrincipal) (ctx_id : string) :
    H S Body :=
  let! requested := hlift (tenant_for_principal (rs_gate st) req principal) in
  let who := requester principal in
  let! _ := tenant_gate NotFoundContext requested ctx_id in
  let! found := hblocking (reading (server_retrieve_body ctx_id who)) in
  hlift (ok_or found NotFoundContext).

(** [retain] by the owners the store gives: an unowned context is dropped. *)
Definition retain_owned {A} (id_of : A → string) (requested : option string) (items : list A) : H S (list A) :=
  match requested, items with
  | Some tenant, _ :: _ =>
      let! owners := hasync (reading (read_tenants_of_ctxs (map id_of items))) in
      hret (filter (λ m, owners !! id_of m = Some tenant) items)
  | _, _ => hret items
  end.

(** One page of the scan: inside the tenant when one is asserted, behind the gate the
    SDK's [search] has of its own. *)
Definition search_page (who : option string) (params : SearchParams) (requested : option string) :
    H S SearchResponse :=
  match requested with
  | Some tenant =>
      let public_arm_open := cap_anonymous_public_reads capabilities in
      if bool_decide (who = None) && negb public_arm_open then
        hlift (Err (RE_Acdp (NotAuthorized
          "anonymous search requires authentication (registry caps: public_arm_open=false)")))
      else hasync (reading (search_in_tenant params who public_arm_open (Some tenant)))
  | None => hblocking (reading (server_search params who))
  end.

Definition retain_visible (want : option Visibility) (found : list SearchResult) : list SearchResult :=
  match want with
  | Some v => filter (λ m, sr_visibility m = Some v) found
  | None => found
  end.

(** The loop of [run_search_with_refill]; [more] is how many pages it may read after this
    one, [estimate] and [accumulated] what it holds. *)
Fixpoint refill (more : nat) (who : option string) (params : SearchParams) (want : option Visibility)
    (requested : option string) (target : nat) (accumulated : list SearchResult) (estimate : option Z)
    (cursor : option string) : H S SearchResponse :=
  let! resp := search_page who (set_cursor cursor params) requested in
  let estimate := match estimate with Some e => Some e | None => total_estimate resp end in
  let! kept := retain_owned sr_ctx_id requested (retain_visible want (matches resp)) in
  let accumulated := accumulated ++ kept in
  let post_filtered := bool_decide (is_Some requested) || bool_decide (is_Some want) in
  let answer := hret (mkSearchResponse accumulated estimate (next_cursor resp)) in
  match more with
  | Datatypes.S more =>
      if post_filtered && (length accumulated <? target)%nat && bool_decide (is_Some (next_cursor resp))
      then refill more who params want requested target accumulated estimate (next_cursor resp)
      else answer
  | O => answer
  end.

Definition clamp (v lo hi : Z) : Z := if (v <? lo)%Z then lo else if (hi <? v)%Z then hi else v.

Definition search_target (params : SearchParams) : Z := clamp (default 20%Z (sp_limit params)) 1 SEARCH_LIMIT_MAX.

Definition run_search_with_refill (who : option string) (params : SearchParams) (want : option Visibility)
    (requested : option string) : H S SearchResponse :=
  let target := search_target params in
  let params := set_limit (Some target) params in
  refill (SEARCH_REFILL_MAX_PAGES - 1) who params want requested (Z.to_nat target) [] None (sp_cursor params).

Definition search (st : ReadState) (env : ReadEnv) (req : ReadRequest) (principal : ReadPrincipal)
    (q : SearchQuery) : H S SearchResponse :=
  let who := requester principal in
  let query_text := q_q q in
  let '(params, want) := into_params q in
  let! requested := hlift (tenant_for_principal (rs_gate st) req principal) in
  let! resp := run_search_with_refill who params want requested in
  let! _ := if rs_webhook st
            then heffect (EmitWebhook (SearchExecuted (rs_authority st) query_text (length (matches resp)) who
                                         (re_at env)) None)
            else hret tt in
  hret resp.

Definition ctx_id_of (ctx : FullContext) : string := body_ctx_id (fc_body ctx).

Definition lineage (st : ReadState) (req : ReadRequest) (principal : ReadPrincipal) (lineage_id : string) :
    H S (list FullContext) :=
  let! requested := hlift (tenant_for_principal (rs_gate st) req principal) in
  let! items := hblocking (reading (server_lineage lineage_id (requester principal))) in
  retain_owned ctx_id_of requested items.

Definition current (st : ReadState) (req : ReadRequest) (principal : ReadPrincipal) (lineage_id : string) :
    H S FullContext :=
  let! requested := hlift (tenant_for_principal (rs_gate st) req principal) in
  let! found := hblocking (reading (server_current lineage_id (requester principal))) in
  let! ctx := hlift (ok_or found NotFoundCurrent) in
  let! _ := tenant_gate NotFoundCurrent requested (ctx_id_of ctx) in
  hret ctx.
End reads.
