(* ===== verification/ReadTheorems.v ===== *)
(** * Reading over HTTP: theorems

    What a scoped caller can be answered, and what following the cursors of [search]
    gives, for the handlers of [ReadHandlers]. *)

From S2P Require Import Prelude Text RateLimit ChallengeStore Revocation AuthService Errors ContextTypes ClientIp ReadGate ChangeFeed EventReceipts Webhook Handlers ReadHandlers.

Open Scope registry_scope.

Section tenants.
Context {S Proven Outside Resolved : Type} `{!RegistryServer S Proven Outside}.
Context `{EventSdk} `{!ReadServer S Outside Resolved}.
Context {R : Type} `{!RevocationStore R}.
Context (owner : string → option string).

(** The store gives a context no tenant but its owner. *)
Definition owned (s : S) : Prop :=
  (∀ id t, read_tenant_of_ctx id s = Done (Ok (Some t)) → owner id = Some t) ∧
  (∀ ids m id t, read_tenants_of_ctxs ids s = Done (Ok m) → m !! id = Some t → owner id = Some t).

Notation Owned := (λ h : HState S, owned (hs_store h)).

(** A read in front of a rest: it leaves [owned] as it was and says what it read. *)
Lemma owned_reading {T U} on_panic (f : S → Ran (result T AcdpError)) (k : T → H S U) Q :
  (∀ r : HEnd T, (∀ v, r ≠ HOk v) → ∀ h, passes Q r h) → (∀ m v, on_panic m ≠ HOk v) →
  (∀ v s, owned s → f s = Done (Ok v) → htriple owned Owned (k v) Q) →
  htriple owned Owned (hbind (hawaited on_panic (reading f)) k) Q.
Proof.
  intros HQ Hp Hk. apply (htriple_bind owned _ _ _ (λ v h, (∃ s, owned s ∧ f s = Done (Ok v)) ∧ Owned h)).
  - apply htriple_reading. intros h s Hh Hs. simpl. split; [by apply (HQ HDropped)|].
    destruct (f s) as [[v|e]|m] eqn:Hf; [|by apply (HQ (HErr _))|].
    { split; [exists s; split; [by apply Hs|done]|by apply Hs]. }
    specialize (HQ (on_panic m) (Hp m)). destruct (on_panic m) eqn:Ho; [by destruct (Hp m v)|apply HQ..].
  - intros v aw h Haw [(s & Hs & Hf) Hh]. by apply (Hk v s Hs Hf aw h Haw Hh).
Qed.

(** A triple whose postcondition speaks of answers only. *)
Definition answers {T} (m : H S T) (Q : T → Prop) : Prop :=
  htriple owned Owned m (λ r h, match r with HOk v => Q v ∧ Owned h | _ => True end).

Lemma answers_ret {T} (v : T) (Q : T → Prop) : Q v → answers (hret v) Q.
Proof. intros HQ. by apply htriple_ret. Qed.

Lemma answers_lift_bind {T U} (r : result T RegistryError) (k : T → H S U) Q :
  (∀ v, r = Ok v → answers (k v) Q) → answers (hbind (hlift r) k) Q.
Proof. intros Hk. by apply htriple_lift_bind. Qed.

Lemma answers_reading {T U} on_panic (f : S → Ran (result T AcdpError)) (k : T → H S U) Q :
  (∀ m v, on_panic m ≠ HOk v) → (∀ v s, owned s → f s = Done (Ok v) → answers (k v) Q) →
  answers (hbind (hawaited on_panic (reading f)) k) Q.
Proof.
  intros Hp Hk. apply owned_reading; [|done|done]. intros r Hr h. destruct r; [by destruct (Hr v)|done..].
Qed.

Lemma answers_bind {T U} (m : H S T) (k : T → H S U) (P : T → Prop) Q :
  answers m P → (∀ v, P v → answers (k v) Q) → answers (hbind m k) Q.
Proof.
  intros Hm Hk. apply (htriple_bind owned _ _ _ (λ v h, P v ∧ Owned h)).
  - eapply htriple_weaken; [exact Hm|done|]. by intros [] h.
  - intros v aw h Haw [Hv Hh]. by apply Hk.
Qed.

Lemma answers_effect (e : Effect) : answers (heffect e) (λ _, True).
Proof. apply htriple_state. by intros h Hh. Qed.

Lemma answers_weaken {T} (m : H S T) (P Q : T → Prop) : (∀ v, P v → Q v) → answers m P → answers m Q.
Proof.
  intros HPQ Hm. eapply htriple_weaken; [exact Hm|done|]. intros [v|e|p|] h; [|done..].
  intros [HP Hh]. auto.
Qed.

(** The last call of a handler. *)
Lemma answers_reading_last {T} on_panic (f : S → Ran (result T AcdpError)) (Q : T → Prop) :
  (∀ m v, on_panic m ≠ HOk v) → (∀ v s, owned s → f s = Done (Ok v) → Q v) →
  answers (hawaited on_panic (reading f)) Q.
Proof.
  intros Hp Hf. apply htriple_reading. intros h s Hh Hs. simpl. split; [done|].
  destruct (f s) as [[v|e]|m] eqn:Hfs; [|done|].
  - split; [|by apply Hs]. by eapply Hf; [apply Hs|].
  - specialize (Hp m). destruct (on_panic m); [by destruct (Hp v)|done..].
Qed.

Lemma tenant_gate_answers missing t id :
  t ≠ RESERVED_TENANT → answers (tenant_gate missing (Some t) id) (λ _, owner id = Some t).
Proof.
  intros Ht. apply answers_reading; [done|]. intros stored s [Hs _] Hf.
  case_bool_decide as Hd; [|by apply htriple_lift]. apply answers_ret.
  destruct stored as [t'|]; simpl in Hd; subst; [by apply (Hs _ _ Hf)|done].
Qed.

Lemma retain_owned_answers {A} (id_of : A → string) t items :
  answers (retain_owned id_of (Some t) items) (Forall (λ m, owner (id_of m) = Some t)).
Proof.
  unfold retain_owned. destruct items as [|m items]; [by apply answers_ret|].
  apply answers_reading; [done|]. intros owners s [_ Hs] Hf. apply answers_ret, Forall_forall.
  intros x [Hx _]%list_elem_of_filter. by eapply Hs.
Qed.

Lemma refill_answers more who params want t target : ∀ acc estimate cursor,
  Forall (λ m, owner (sr_ctx_id m) = Some t) acc →
  answers (refill more who params want (Some t) target acc estimate cursor)
    (λ resp, Forall (λ m, owner (sr_ctx_id m) = Some t) (matches resp)).
Proof.
  induction more as [|more IH]; intros acc estimate cursor Hacc; cbn [refill].
  all: apply (answers_bind _ _ (λ _, True));
    [unfold search_page; case_match; [by apply htriple_lift|by apply answers_reading_last]|].
  all: intros resp _; eapply answers_bind; [apply retain_owned_answers|]; intros kept Hkept.
  all: assert (Forall (λ m, owner (sr_ctx_id m) = Some t) (acc ++ kept)) as Hall by by apply Forall_app.
  - by apply answers_ret.
  - case_match; [by apply IH|by apply answers_ret].
Qed.

Lemma requested_not_reserved (gate : GateState (R := R)) req p t :
  tenant_for_principal gate req p = Ok (Some t) → t ≠ RESERVED_TENANT.
Proof. intros (_ & Hr & _)%tenant_resolution_vouched. congruence. Qed.

Lemma answers_run {T} (m : H S T) (Q : T → Prop) awaits store v :
  answers m Q → owned store → others_keep owned awaits →
  (m awaits (initial store)).1.1 = HOk v → Q v.
Proof.
  intros Hm Hs Haw. specialize (Hm awaits (initial store) Haw Hs).
  destruct (m awaits (initial store)) as [[r aw] h]. simpl. intros ->. by destruct Hm as (_ & HQ & _).
Qed.

Lemma announce_answers (st : ReadState (R := R)) (env : ReadEnv (Outside := Outside)) ctx who :
  answers (announce_retrieved st env ctx who) (λ _, True).
Proof. unfold announce_retrieved. case_match; [apply answers_effect|by apply answers_ret]. Qed.

Lemma retrieve_foreign_answers (st : ReadState (R := R)) (env : ReadEnv (Outside := Outside)) parsed who :
  answers (retrieve_foreign st env parsed who) (λ r, ∃ wire, r = ForeignContext wire).
Proof.
  unfold retrieve_foreign. case_match; [by apply htriple_lift|].
  apply (answers_bind _ _ (λ _, True)).
  { apply htriple_awaited. intros o h Ho Hh. unfold resolving. split; [done|].
    repeat case_match; try done. split; [done|by apply Ho]. }
  intros v _. eapply answers_bind; [apply announce_answers|]. intros _ _.
  apply answers_lift_bind. intros wire _. apply answers_ret. by eexists.
Qed.

(** C16: a caller scoped to a tenant is answered that tenant's contexts and no others.
    Whatever other requests do meanwhile, as long as they do not move contexts between
    tenants, every context a scoped [retrieve], [retrieve_body], [search], [lineage] or
    [current] answers belongs to the scope, also where the store has no tenant for it
    or the server ignored the tenant. (A foreign authority's context is public and
    belongs to no tenant here.) *)
Theorem reads_stay_in_their_tenant (st : ReadState (R := R)) (env : ReadEnv (Outside := Outside)) (req : ReadRequest)
    (principal : ReadPrincipal) (t : string) (awaits : list (AwaitPoint S)) (store : S)
    (Hscope : tenant_for_principal (rs_gate st) req principal = Ok (Some t))
    (Hstore : owned store) (Hothers : others_keep owned awaits) :
  (∀ id ctx, (retrieve st env req principal id awaits (initial store)).1.1 = HOk (LocalContext ctx) →
     owner id = Some t) ∧
  (∀ id body, (retrieve_body st req principal id awaits (initial store)).1.1 = HOk body →
     owner id = Some t) ∧
  (∀ q resp, (search st env req principal q awaits (initial store)).1.1 = HOk resp →
     Forall (λ m, owner (sr_ctx_id m) = Some t) (matches resp)) ∧
  (∀ id items, (lineage st req principal id awaits (initial store)).1.1 = HOk items →
     Forall (λ c, owner (ctx_id_of c) = Some t) items) ∧
  (∀ id ctx, (current st req principal id awaits (initial store)).1.1 = HOk ctx →
     owner (ctx_id_of ctx) = Some t).
Proof.
  pose proof (requested_not_reserved _ _ _ _ Hscope) as Ht.
  split_and!.
  - intros id ctx Hr. refine (answers_run _ (λ r, match r with LocalContext _ => owner id = Some t | _ => True end)
      awaits store _ _ Hstore Hothers Hr).
    unfold retrieve. apply answers_lift_bind. intros parsed _.
    case_match.
    { apply (answers_weaken _ (λ r, ∃ wire, r = ForeignContext wire)); [by intros ? [wire ->]|].
      apply retrieve_foreign_answers. }
    rewrite Hscope. apply answers_lift_bind. intros r [= <-]. apply answers_reading; [done|].
    intros found s _ _. apply answers_lift_bind. intros ctx' _.
    eapply answers_bind; [by apply tenant_gate_answers|]. intros [] Hown.
    eapply answers_bind; [apply announce_answers|intros _ _; by apply answers_ret].
  - intros id body. apply (answers_run _ (λ _, owner id = Some t)); [|done..]. unfold retrieve_body. rewrite Hscope.
    apply answers_lift_bind. intros r [= <-]. eapply answers_bind; [by apply tenant_gate_answers|].
    intros [] Hown. apply answers_reading; [done|]. intros found s _ _.
    apply htriple_lift. intros h Hh. by case_match.
  - intros q resp. apply (answers_run _ (λ resp, Forall (λ m, owner (sr_ctx_id m) = Some t) (matches resp))); [|done..]. unfold search. destruct (into_params q) as [params want].
    rewrite Hscope. apply answers_lift_bind. intros r [= <-].
    eapply answers_bind; [by apply refill_answers|]. intros resp' Hall.
    apply (answers_bind _ _ (λ _, True)); [|intros _ _; by apply answers_ret].
    case_match; [apply answers_effect|by apply answers_ret].
  - intros id items. apply (answers_run _ (Forall (λ c, owner (ctx_id_of c) = Some t))); [|done..]. unfold lineage. rewrite Hscope.
    apply answers_lift_bind. intros r [= <-]. apply answers_reading; [done|]. intros found s _ _.
    apply retain_owned_answers.
  - intros id ctx. apply (answers_run _ (λ c, owner (ctx_id_of c) = Some t)); [|done..]. unfold current. rewrite Hscope.
    apply answers_lift_bind. intros r [= <-]. apply answers_reading; [done|]. intros found s _ _.
    apply answers_lift_bind. intros ctx' _. eapply answers_bind; [by apply tenant_gate_answers|].
    intros [] Hown. by apply answers_ret.
Qed.
End tenants.

(** ** Following the cursors of a search *)

(** The two filters. *)
Lemma filter_as_bool {A} (P : A → Prop) `{!∀ x, Decision (P x)} (f : A → bool) (l : list A) :
  (∀ x, x ∈ l → P x ↔ f x = true) → filter P l = List.filter f l.
Proof.
  induction l as [|x l IH]; intros Hf; [done|]. rewrite filter_cons /=.
  pose proof (Hf x (list_elem_of_here _ _)) as Hx.
  rewrite IH; [|intros y Hy; apply Hf; by right]. destruct (f x); case_decide; naive_solver.
Qed.

Lemma filter_twice {A} (f g : A → bool) (l : list A) :
  List.filter g (List.filter f l) = List.filter (λ x, f x && g x) l.
Proof. induction l as [|x l IH]; [done|]. simpl. destruct (f x); simpl; rewrite ?IH //. Qed.

Section walk.
Context {S Proven Outside Resolved : Type} `{!RegistryServer S Proven Outside}.
Context `{EventSdk} `{!ReadServer S Outside Resolved}.

(** Every page from a cursor on, in at most [n] requests. *)
Fixpoint walk (page : option string → option SearchResponse) (n : nat) (cursor : option string) :
    option (list SearchResult) :=
  match n with
  | O => None
  | Datatypes.S n =>
      match page cursor with
      | None => None
      | Some r =>
          match next_cursor r with
          | None => Some (matches r)
          | Some c => (λ rest, matches r ++ rest) <$> walk page n (Some c)
          end
      end
  end.

Lemma walk_more page n m cursor l : (n ≤ m)%nat → walk page n cursor = Some l → walk page m cursor = Some l.
Proof.
  revert m cursor l. induction n as [|n IH]; intros [|m] cursor l Hnm; simpl; [done|done|lia|].
  destruct (page cursor) as [r|]; [|done]. destruct (next_cursor r) as [c|]; [|done].
  intros (rest & Hw & ->)%fmap_Some. rewrite (IH m (Some c) rest); [done|lia|done].
Qed.

Context (store : S) (who : option string) (params : SearchParams) (want : option Visibility).
Context (requested : option string) (owner : string → option string).

(** The store's own answer for a cursor, and its page where that is one: a cursor it
    cannot read, or that has expired, is an error. *)
Definition store_page (cursor : option string) : Ran (result SearchResponse AcdpError) :=
  let params := set_cursor cursor (set_limit (Some (search_target params)) params) in
  match requested with
  | Some tenant => search_in_tenant params who (cap_anonymous_public_reads capabilities) (Some tenant) store
  | None => server_search params who store
  end.

Definition page_of (cursor : option string) : option SearchResponse :=
  match store_page cursor with Done (Ok r) => Some r | _ => None end.

(** What the handler keeps of a page. *)
Definition kept_by_search (m : SearchResult) : bool :=
  match want with Some v => bool_decide (sr_visibility m = Some v) | None => true end &&
  match requested with Some t => bool_decide (owner (sr_ctx_id m) = Some t) | None => true end.

(** The handler's answer for a cursor, on a store nobody changes. *)
Definition answer_page (cursor : option string) : option SearchResponse :=
  match (run_search_with_refill who (set_cursor cursor params) want requested [] (initial store)).1.1 with
  | HOk resp => Some resp
  | _ => None
  end.

Notation target := (search_target params).
Notation keep := (List.filter kept_by_search).

Context (Hlimit : ∀ c r, page_of c = Some r → (length (matches r) ≤ Z.to_nat target)%nat).
Context (Howners : ∀ ids, ∃ m, read_tenants_of_ctxs ids store = Done (Ok m) ∧ ∀ id, id ∈ ids → m !! id = owner id).
Context (Hgate : who = None → cap_anonymous_public_reads capabilities = true).

(** The page a request reads is the store's; without one the request ends there. *)
Lemma page_runs c :
  let '(r, aw, h) := search_page who (set_cursor c (set_limit (Some target) params)) requested [] (initial store) in
  match page_of c with
  | Some resp => r = HOk resp ∧ aw = [] ∧ h = initial store
  | None => ∀ resp, r ≠ HOk resp
  end.
Proof.
  unfold search_page, page_of, store_page. destruct requested as [t|].
  - rewrite (_ : bool_decide (who = None) && negb (cap_anonymous_public_reads capabilities) = false).
    2:{ case_bool_decide as Hw; [|done]. by rewrite Hgate. }
    unfold hasync, hawaited, reading. simpl. by destruct (search_in_tenant _ _ _ _ _) as [[r|e]|m].
  - unfold hblocking, hawaited, reading. simpl. by destruct (server_search _ _ _) as [[r|e]|m].
Qed.

Lemma retain_runs l :
  retain_owned sr_ctx_id requested (retain_visible want l) [] (initial store) =
    (HOk (keep l), [], initial store).
Proof.
  assert (keep l = List.filter (λ m, match requested with
            | Some t => bool_decide (owner (sr_ctx_id m) = Some t) | None => true end) (retain_visible want l)) as ->.
  { unfold retain_visible, kept_by_search. destruct want as [v|]; [|done].
    rewrite (filter_as_bool _ (λ m, bool_decide (sr_visibility m = Some v))); [by rewrite filter_twice|].
    intros m _. by rewrite bool_decide_eq_true. }
  unfold retain_owned. destruct requested as [t|]; [|by rewrite filter_true].
  destruct (retain_visible want l) as [|m vis]; [done|].
  destruct (Howners (map sr_ctx_id (m :: vis))) as (o & Ho & Hown).
  unfold hbind, hasync, hawaited, reading. cbn [hs_store with_store initial ap_others id]. rewrite Ho.
  unfold hret. simpl ap_dropped. cbn [map_err]. repeat f_equal. apply filter_as_bool.
  intros x Hx. rewrite bool_decide_eq_true Hown; [done|]. apply list_elem_of_fmap. by exists x.
Qed.

(** What is left of a walk after the pages in [front]. *)
Definition resumes (n : nat) (l : list SearchResult) (resp : SearchResponse) (front : list SearchResult) : Prop :=
  match next_cursor resp with
  | None => l = front
  | Some c => ∃ n' rest, (n' < n)%nat ∧ walk page_of n' (Some c) = Some rest ∧ l = front ++ rest
  end.

Notation refilled more p := (refill more who p want requested (Z.to_nat target)).

Lemma refill_runs more p (Hp : ∀ c, set_cursor c p = set_cursor c (set_limit (Some target) params)) :
  ∀ n l acc estimate c, walk page_of n c = Some l → ∃ resp front,
  refilled more p acc estimate c [] (initial store) = (HOk resp, [], initial store) ∧
  matches resp = acc ++ keep front ∧ resumes n l resp front.
Proof.
  induction more as [|more IH]; intros [|n] l acc estimate c Hw; [done| |done|]; cbn [walk] in Hw;
    destruct (page_of c) as [r|] eqn:Hr; try done; pose proof (page_runs c) as Hrun; rewrite Hr in Hrun;
    cbn [refill]; unfold hbind at 1; rewrite Hp;
    destruct (search_page _ _ _ _ _) as [[e aw] h]; destruct Hrun as (-> & -> & ->);
    unfold hbind at 1; rewrite retain_runs; set (est := match estimate with Some _ => _ | None => _ end);
    assert (resumes (Datatypes.S n) l (mkSearchResponse (acc ++ keep (matches r)) est (next_cursor r)) (matches r)) as Hhere
      by (unfold resumes; cbn [next_cursor]; destruct (next_cursor r) as [c'|]; [|by injection Hw as ->];
          apply fmap_Some in Hw as (rest & Hw & ->); exists n, rest; split_and!; [lia|done..]).
  - by exists (mkSearchResponse (acc ++ keep (matches r)) est (next_cursor r)), (matches r).
  - destruct (_ && _ && _) eqn:Hmore;
      [|by exists (mkSearchResponse (acc ++ keep (matches r)) est (next_cursor r)), (matches r)].
    apply andb_true_iff in Hmore as [_ Hc%bool_decide_eq_true]. destruct Hc as [c' Hc]. rewrite Hc in Hw |- *.
    apply fmap_Some in Hw as (rest & Hw & ->).
    destruct (IH n rest (acc ++ keep (matches r)) est (Some c') Hw) as (resp & front & Hrun & Hm & Hres).
    exists resp, (matches r ++ front). split_and!; [done|by rewrite Hm List.filter_app app_assoc|].
    unfold resumes in *. destruct (next_cursor resp) as [c2|]; [|by subst].
    destruct Hres as (n' & rest' & Hn & Hw' & ->). exists n', rest'. split_and!; [lia|done|by rewrite app_assoc].
Qed.

(** An answer has fewer rows than two pages. *)
Lemma refill_bound more p (Hp : ∀ c, set_cursor c p = set_cursor c (set_limit (Some target) params)) :
  ∀ acc estimate c resp aw h, (length acc < Z.to_nat target)%nat →
  refilled more p acc estimate c [] (initial store) = (HOk resp, aw, h) →
  (length (matches resp) < 2 * Z.to_nat target)%nat.
Proof.
  induction more as [|more IH]; intros acc estimate c resp aw h Hacc; cbn [refill]; unfold hbind at 1; rewrite Hp;
    pose proof (page_runs c) as Hrun; destruct (search_page _ _ _ _ _) as [[e aw1] h1];
    (destruct (page_of c) as [r|] eqn:Hr; [destruct Hrun as (-> & -> & ->)|destruct e; [by destruct (Hrun v)|done..]]);
    unfold hbind at 1; rewrite retain_runs;
    (assert (length (keep (matches r)) ≤ Z.to_nat target)%nat
       by (etrans; [apply filter_length_le|by eapply Hlimit])).
  - intros [= <- _ _]. cbn [matches]. rewrite length_app. lia.
  - destruct (_ && _ && _) eqn:Hmore.
    + apply IH. by apply andb_true_iff in Hmore as [[_ Hlen%Nat.ltb_lt]%andb_true_iff _].
    + intros [= <- _ _]. cbn [matches]. rewrite length_app. lia.
Qed.

Lemma target_bounds : (1 ≤ target ≤ 100)%Z.
Proof. unfold search_target, clamp, SEARCH_LIMIT_MAX. repeat case_match; lia. Qed.

(** C25: searching page by page gives the store's walk, filtered. On a store nobody
    changes, whose pages have at most the rows asked for: where following the store's own pages from some point,
    the first page or a cursor, ends within some number of pages, following the cursors
    of [search] from there ends within as many requests and gives exactly the rows of
    that walk which have the wanted visibility and belong to the caller's tenant, in
    the store's order and each once per appearance: the cap of six pages per request
    shortens pages and never loses a row. Any answer has fewer than twice the clamped
    limit of rows. *)
Theorem search_walk_is_filtered :
  (∀ n cursor l, walk page_of n cursor = Some l → walk answer_page n cursor = Some (keep l)) ∧
  (∀ cursor resp, answer_page cursor = Some resp →
     (Z.of_nat (length (matches resp)) < 2 * target ≤ 200)%Z).
Proof.
  pose proof target_bounds as Hb. split.
  - intros n. induction (lt_wf n) as [n _ IH]. intros cursor l Hw.
    destruct (refill_runs (SEARCH_REFILL_MAX_PAGES - 1) (set_limit (Some target) (set_cursor cursor params))
      (λ _, eq_refl) n l [] None cursor Hw) as (resp & front & Hrun & Hm & Hres).
    assert (answer_page cursor = Some resp) as Hans.
    { unfold answer_page, run_search_with_refill.
      change (search_target (set_cursor cursor params)) with target. simpl sp_cursor. by rewrite Hrun. }
    destruct n as [|n]; [done|]. cbn [walk]. rewrite Hans. unfold resumes in Hres. cbn in Hm.
    destruct (next_cursor resp) as [c|]; [|by rewrite Hm Hres].
    destruct Hres as (n' & rest & Hn & Hrest & ->). apply IH in Hrest; [|done].
    rewrite (walk_more _ n' n _ (keep rest)); [|lia|done]. simpl. by rewrite Hm List.filter_app.
  - intros cursor resp. unfold answer_page, run_search_with_refill.
    change (search_target (set_cursor cursor params)) with target. simpl sp_cursor.
    destruct (refill _ _ _ _ _ _ _ _ _ _ _) as [[[r|e|m|] aw] h] eqn:Hrun; [|done..]. intros [= <-].
    apply (refill_bound _ (set_limit (Some target) (set_cursor cursor params)) (λ _, eq_refl)) in Hrun; cbn [length]; lia.
Qed.
End walk.
