(* ===== verification/LifecycleHandler.v ===== *)
(** * Lifecycle events over HTTP

    [retract], [republish], their pipeline [lifecycle_transition] and
    [caller_from_headers] of [acdp-registry-core/src/handlers/context.rs]: the profile,
    the event and its path, the budget of its actor, the tenant, the bearer, and then
    the SDK's proof and commit, with the charge armed in between. The SDK's pipeline is
    the class [LifecycleServer]. *)

From S2P Require Import Prelude Text RateLimit ChallengeStore Revocation AuthService Errors ContextTypes ChangeFeed ClientIp ReadGate Webhook EventReceipts KeyAttestations SqliteStore Handlers KeylessPublish PublishTheorems ReadHandlers.

Open Scope registry_scope.
Open Scope handler_scope.

(** [acdp::registry::LifecycleEndpoint]. *)
Inductive LifecycleEndpoint : Type := RetractEndpoint | RepublishEndpoint.

Class LifecycleServer (S LProven Outside : Type) `{StoreCodec} : Type := {
  (** Event, endpoint, requester; the first resolves the actor's DID document. *)
  prove_lifecycle_identity : Outside → LifecycleEvent → LifecycleEndpoint → option string → S →
    Ran (result LProven AcdpError);
  prove_lifecycle_identity_did_key : LifecycleEvent → LifecycleEndpoint → option string → S →
    Ran (result LProven AcdpError);
  (** The context of the outcome, be it a new event or the retry of an old one. *)
  commit_lifecycle_proven : Outside → LProven → S → Ran (result FullContext AcdpError) * S;
  json_from_slice : list Z → result Value string;
  parse_lifecycle_request : Value → result LifecycleEvent AcdpError;
  (** The key id of the event's signature, where it has one. *)
  event_key_id : LifecycleEvent → option string
}.

Section lifecycle.
Context {S Proven LProven Outside Resolved : Type} `{!RegistryServer S Proven Outside}.
Context `{StoreCodec} `{!ReadServer S Outside Resolved} `{!LifecycleServer S LProven Outside} `{!KeylessSdk}.
Context (jwt_decode : Validation → Z → string → result BearerClaims string).
Context {R : Type} `{!RevocationStore R}.

(** The members of [AppState] the handlers read. *)
Record LifecycleState : Type := mkLifecycleState {
  ls_gate : GateState (R := R);
  ls_enabled : bool;
  ls_keyless : bool;
  ls_rate_limiter : option AgentRateLimiter;
  ls_webhook : bool;
  ls_authority : string
}.

(** The clocks in the order they are read, and the surroundings of the SDK's calls. *)
Record LifecycleEnv : Type := mkLifecycleEnv {
  le_peek : Z;
  le_gate : GateEnv;
  le_at : Z;
  le_drop : Z;
  le_prove_call : Outside;
  le_commit_call : Outside
}.

(** [caller_from_headers]: a static read token authorizes no write. *)
Definition caller_from_headers (st : GateState (R := R)) (env : GateEnv) (req : ReadRequest) :
    result (option string) RegistryError :=
  if negb (auth_enabled st) then Ok None
  else
    match rq_authorization req with
    | Some v :: _ =>
        match extract_bearer v with
        | None => Ok None
        | Some token =>
            if is_read_token token then
              Err (RE_AuthToken "a bearer_static read token cannot authorize this operation")
            else
              let? claims := map_err from_auth_error (validate_bearer_claims jwt_decode st env token) in
              Ok (Some (cl_sub claims))
        end
    | _ => Ok None
    end.

Definition lifecycle_event_of_body (body : list Z) : result LifecycleEvent RegistryError :=
  let? raw := map_err (λ e, RE_Acdp (SchemaViolation e)) (json_from_slice body) in
  map_err RE_Acdp (parse_lifecycle_request raw).

Definition profile_gate (st : LifecycleState) : result unit RegistryError :=
  if ls_enabled st then Ok tt
  else Err (RE_Acdp (NotImplemented
    "this registry does not advertise acdp-registry-lifecycle (RFC-ACDP-0013 §6: lifecycle endpoints are not implemented)")).

Definition path_gate (event : LifecycleEvent) (path_ctx : string) : result unit RegistryError :=
  if bool_decide (event_ctx_id event = path_ctx) then Ok tt
  else Err (RE_Acdp (SchemaViolation ("event.ctx_id '" +:+ event_ctx_id event +:+
         "' does not match the request path ctx_id '" +:+ path_ctx +:+ "' (RFC-ACDP-0013 §6 step 2)"))).

Definition peek_actor (st : LifecycleState) (actor : string) (now : Z) : result unit RegistryError :=
  match ls_rate_limiter st with
  | Some limiter => map_err RE_RateLimited (peek_at limiter actor now)
  | None => Ok tt
  end.

Definition endpoint_of (event_type : LifecycleEventType) : LifecycleEndpoint :=
  match event_type with RetractedEvent => RetractEndpoint | _ => RepublishEndpoint end.

Definition is_did_key_actor (event : LifecycleEvent) : bool := starts_with (event_actor event) "did:key:".

Definition committing (env : LifecycleEnv) (p : LProven) (s : S) :
    Ran (result FullContext RegistryError) * S :=
  let '(r, s) := commit_lifecycle_proven (le_commit_call env) p s in
  (match r with Done r => Done (map_err RE_Acdp r) | Panic m => Panic m end, s).

(** Prove, arm, commit: on the blocking pool for a [did:key] actor, on the handler's
    task for others. *)
Definition prove_and_commit (env : LifecycleEnv) (event : LifecycleEvent) (endpoint : LifecycleEndpoint)
    (who : option string) : H S FullContext :=
  if is_did_key_actor event then
    hblocking (prove_then_commit
      (λ s, match prove_lifecycle_identity_did_key event endpoint who s with
            | Done r => Done (map_err RE_Acdp r)
            | Panic m => Panic m
            end)
      (committing env))
  else
    let! proven := hasync (reading (prove_lifecycle_identity (le_prove_call env) event endpoint who)) in
    let! _ := harm in
    hsync (λ h, let '(r, s) := committing env proven (hs_store h) in (r, with_store s h)).

Definition lifecycle_webhook (st : LifecycleState) (env : LifecycleEnv) (event : LifecycleEvent)
    (ctx : FullContext) : WebhookEvent :=
  match event_type event with
  | RetractedEvent =>
      ContextRetracted (ls_authority st) (body_ctx_id (fc_body ctx)) (body_lineage_id (fc_body ctx))
        (event_actor event) (event_id event) (event_reason event) (le_at env)
  | _ =>
      ContextRepublished (ls_authority st) (body_ctx_id (fc_body ctx)) (body_lineage_id (fc_body ctx))
        (event_actor event) (event_id event) (event_reason event) (le_at env)
  end.

(** [stored_tenant.filter(|t| t != "default")]. *)
Definition webhook_tenant (stored : option string) : option string :=
  match stored with
  | Some t => if bool_decide (t = "default") then None else Some t
  | None => None
  end.

Definition lifecycle_inner (st : LifecycleState) (env : LifecycleEnv) (req : ReadRequest) (ctx_id : string)
    (body : list Z) (event_type : LifecycleEventType) : H S FullContext :=
  let! _ := hlift (profile_gate st) in
  let! event := hlift (lifecycle_event_of_body body) in
  let! _ := hlift (refuse_keyless_event (ls_keyless st) (event_key_id event)) in
  let! path_ctx := hlift (map_err RE_Acdp (ctx_id_parse ctx_id)) in
  let! _ := hlift (path_gate event path_ctx) in
  let! _ := hlift (peek_actor st (event_actor event) (le_peek env)) in
  let! _ := hcharge (PublishCharge_new (ls_rate_limiter st) (event_actor event)) in
  let! requested := hlift (tenant_for_request jwt_decode (ls_gate st) (le_gate env) req) in
  let! stored := hasync (reading (read_tenant_of_ctx path_ctx)) in
  let! _ := match requested with
            | Some t => if bool_decide (default "default" stored = t) then hret tt
                        else hlift (Err NotFoundContext)
            | None => hret tt
            end in
  let! who := hlift (caller_from_headers (ls_gate st) (le_gate env) req) in
  let! ctx := prove_and_commit env event (endpoint_of event_type) who in
  let! _ := heffect NotifyHints in
  let! _ := if ls_webhook st
            then heffect (EmitWebhook (lifecycle_webhook st env event ctx) (webhook_tenant stored))
            else hret tt in
  hret ctx.

(** [lifecycle_transition]: the answer, the limiter after the guard is dropped, the store,
    and what was set off. *)
Definition lifecycle_transition (st : LifecycleState) (env : LifecycleEnv) (req : ReadRequest) (ctx_id : string)
    (body : list Z) (event_type : LifecycleEventType) (awaits : list (AwaitPoint S)) (store : S) :
    HEnd FullContext * option AgentRateLimiter * S * list Effect :=
  let '(r, _, h) := lifecycle_inner st env req ctx_id body event_type awaits (initial store) in
  (r, settled (ls_rate_limiter st) (le_drop env) h, hs_store h, hs_effects h).

Definition retract (st : LifecycleState) (env : LifecycleEnv) (req : ReadRequest) (ctx_id : string)
    (body : list Z) := lifecycle_transition st env req ctx_id body RetractedEvent.

Definition republish (st : LifecycleState) (env : LifecycleEnv) (req : ReadRequest) (ctx_id : string)
    (body : list Z) := lifecycle_transition st env req ctx_id body RepublishedEvent.
End lifecycle.

(** ** Lifecycle events over HTTP: theorems

    Whose event is accepted, who is charged for it and what is announced, for
    [lifecycle_transition] of [LifecycleHandler]. *)

Section lifecycle.
Context {S Proven LProven Outside Resolved : Type} `{!RegistryServer S Proven Outside}.
Context `{StoreCodec} `{!ReadServer S Outside Resolved} `{!LifecycleServer S LProven Outside} `{!KeylessSdk}.
Context (jwt_decode : Validation → Z → string → result BearerClaims string).
Context {R : Type} `{!RevocationStore R}.
Context (I : S → Prop).

Implicit Types (st : LifecycleState (R := R)) (env : LifecycleEnv (Outside := Outside)).

(** The SDK proved the event to be its actor's, for the requester the bearer names, on
    a store the others left. *)
Definition actor_proven st env (req : ReadRequest) (event : LifecycleEvent) (type : LifecycleEventType) : Prop :=
  ∃ who s p, caller_from_headers jwt_decode (ls_gate st) (le_gate env) req = Ok who ∧ I s ∧
    (if is_did_key_actor event then prove_lifecycle_identity_did_key event (endpoint_of type) who s
     else prove_lifecycle_identity (le_prove_call env) event (endpoint_of type) who s) = Done (Ok p).

(** The event passed every gate before the proof; [stored] is the tenant of its context
    in a store the others left. *)
Record cleared st env (req : ReadRequest) (ctx_id : string) (event : LifecycleEvent) (stored : option string) :
    Prop := {
  pass_profile : ls_enabled st = true;
  pass_keyed : ls_keyless st = true → ∀ k, event_key_id event = Some k → is_keyless_key_id k = false;
  pass_path : ctx_id_parse ctx_id = Ok (event_ctx_id event);
  pass_budget : ∀ l, ls_rate_limiter st = Some l → peek_at l (event_actor event) (le_peek env) = Ok tt;
  pass_tenant : ∃ requested s, tenant_for_request jwt_decode (ls_gate st) (le_gate env) req = Ok requested ∧
    I s ∧ read_tenant_of_ctx (event_ctx_id event) s = Done (Ok stored) ∧
    ∀ t, requested = Some t → default "default" stored = t
}.

Definition lifecycle_announced st env (event : LifecycleEvent) (stored : option string) (ctx : FullContext) :
    list Effect :=
  NotifyHints ::
  (if ls_webhook st then [EmitWebhook (lifecycle_webhook st env event ctx) (webhook_tenant stored)] else []).

Notation Quiet st event := (quiet I (ls_rate_limiter st) (event_actor event)).

Lemma prove_and_commit_spec st env req event type who :
  caller_from_headers jwt_decode (ls_gate st) (le_gate env) req = Ok who →
  htriple I (Quiet st event) (prove_and_commit env event (endpoint_of type) who)
    (λ r h, hs_effects h = [] ∧
       (actor_proven st env req event type ∧ charge_is (ls_rate_limiter st) (event_actor event) h true ∨
        Quiet st event h ∧ ∀ v, r ≠ HOk v)).
Proof.
  intros Hwho. unfold prove_and_commit, actor_proven. destruct (is_did_key_actor event).
  - eapply htriple_weaken; [apply htriple_prove_commit|done|].
    intros r h [He [[(s & p & Hi & Hp%map_done) Hc]|Hq]]; (split; [done|]); [left|by right].
    split; [by exists who, s, p|done].
  - eapply htriple_weaken; [apply htriple_prove_arm_commit|done|].
    intros r h [He [[(s & p & Hi & Hp) Hc]|Hq]]; (split; [done|]); [left|by right].
    split; [by exists who, s, p|done].
Qed.

(** How the pipeline leaves a request for [event]. *)
Inductive lifecycle_post st env (req : ReadRequest) (ctx_id : string) (event : LifecycleEvent)
    (type : LifecycleEventType) (r : HEnd FullContext) (h : HState S) : Prop :=
  | lp_away :
      (∀ v, r ≠ HOk v) → hs_effects h = [] → I (hs_store h) →
      hs_charge h = None ∨ charge_is (ls_rate_limiter st) (event_actor event) h false →
      lifecycle_post st env req ctx_id event type r h
  | lp_proven stored :
      cleared st env req ctx_id event stored → actor_proven st env req event type →
      charge_is (ls_rate_limiter st) (event_actor event) h true →
      hs_effects h = match r with HOk ctx => lifecycle_announced st env event stored ctx | _ => [] end →
      lifecycle_post st env req ctx_id event type r h.

Lemma quiet_away st env req ctx_id event type r h :
  Quiet st event h → (∀ v, r ≠ HOk v) → lifecycle_post st env req ctx_id event type r h.
Proof. intros (Hc & He & Hi) Hr. apply lp_away; auto. Qed.

(** From the charge on. *)
Lemma lifecycle_tail_spec st env req ctx_id event type stored :
  cleared st env req ctx_id event stored →
  htriple I (Quiet st event)
    (hbind (hlift (caller_from_headers jwt_decode (ls_gate st) (le_gate env) req)) (λ who,
     hbind (prove_and_commit env event (endpoint_of type) who) (λ ctx,
     hbind (heffect NotifyHints) (λ _,
     hbind (if ls_webhook st
            then heffect (EmitWebhook (lifecycle_webhook st env event ctx) (webhook_tenant stored))
            else hret tt) (λ _, hret ctx)))))
    (lifecycle_post st env req ctx_id event type).
Proof.
  intros Had. apply htriple_lift_bind; [intros; by apply quiet_away|]. intros who Hwho.
  apply (htriple_bind I _ _ _ (λ _ h, hs_effects h = [] ∧ actor_proven st env req event type ∧
           charge_is (ls_rate_limiter st) (event_actor event) h true)).
  { eapply htriple_weaken; [by apply prove_and_commit_spec|done|]. intros r h [He [[Hp Hc]|[Hq Hr]]].
    - destruct r; simpl; [done|..]; by eapply lp_proven.
    - destruct r; simpl; [by destruct (Hr v)|..]; by apply quiet_away. }
  intros ctx. apply (htriple_bind I _ _ _ (λ _ h, hs_effects h = [NotifyHints] ∧
    actor_proven st env req event type ∧ charge_is (ls_rate_limiter st) (event_actor event) h true)).
  { apply htriple_state. intros h (He & Hp & Hc). unfold charge_is in *. simpl. by rewrite He. }
  intros []. apply (htriple_bind I _ _ _ (λ _ h, hs_effects h = lifecycle_announced st env event stored ctx ∧
    actor_proven st env req event type ∧ charge_is (ls_rate_limiter st) (event_actor event) h true)).
  { unfold lifecycle_announced. destruct (ls_webhook st); [|by apply htriple_ret].
    apply htriple_state. intros h (He & Hp & Hc). unfold charge_is in *. simpl. by rewrite He. }
  intros []. apply htriple_ret. intros h (He & Hp & Hc). by eapply lp_proven.
Qed.

Lemma lifecycle_inner_spec st env req ctx_id body event type :
  lifecycle_event_of_body body = Ok event →
  htriple I (λ h, hs_charge h = None ∧ hs_effects h = [] ∧ I (hs_store h))
    (lifecycle_inner jwt_decode st env req ctx_id body type)
    (lifecycle_post st env req ctx_id event type).
Proof.
  intros Hev. unfold lifecycle_inner. rewrite Hev.
  set (P := λ h : HState S, hs_charge h = None ∧ hs_effects h = [] ∧ I (hs_store h)).
  assert (∀ h e, P h → lifecycle_post st env req ctx_id event type (HErr e) h) as Haway.
  { intros h e (Hc & He & Hi). apply lp_away; auto. }
  apply htriple_lift_bind; [by auto|]. intros [] Hprof.
  apply htriple_lift_bind; [by auto|]. intros ? [= <-].
  apply htriple_lift_bind; [by auto|]. intros [] Hkl.
  apply htriple_lift_bind; [by auto|]. intros path Hpath%map_err_ok.
  apply htriple_lift_bind; [by auto|]. intros [] Hgate.
  unfold path_gate in Hgate. case_bool_decide as Hctx; [|done]. subst path.
  apply htriple_lift_bind; [by auto|]. intros [] Hpeek.
  apply (htriple_bind I P _ _ (λ _ h, Quiet st event h)).
  { apply htriple_state. intros h (Hc & He & Hi). by split_and!. }
  intros []. apply htriple_lift_bind; [intros; by apply quiet_away|]. intros requested Hreq.
  apply (htriple_bind I _ _ _ (λ stored h, (∃ s, I s ∧ read_tenant_of_ctx (event_ctx_id event) s = Done (Ok stored)) ∧
                                  Quiet st event h)).
  { apply htriple_reading. intros h s Hh Hs. simpl.
    assert (Quiet st event (with_store s h)) as Hq by by apply quiet_read.
    split; [by apply quiet_away|]. destruct (read_tenant_of_ctx _ s) as [[v|e]|m] eqn:Hf; [|by apply quiet_away..].
    split; [|done]. exists s. split; [by destruct Hq as (_ & _ & ?)|done]. }
  intros stored. apply (htriple_bind I _ _ _ (λ _ h, cleared st env req ctx_id event stored ∧ Quiet st event h)).
  - intros aw h Haw [(s & Hs & Hf) Hq].
    assert ((∀ t, requested = Some t → default "default" stored = t) → cleared st env req ctx_id event stored) as Had.
    { intros Ht. constructor; [| |done| |].
      - unfold profile_gate in Hprof. by destruct (ls_enabled st).
      - unfold refuse_keyless_event in Hkl. intros Hk k Hid. rewrite Hk Hid in Hkl. simpl in Hkl.
        by destruct (is_keyless_key_id k).
      - unfold peek_actor in Hpeek. intros l Hl. rewrite Hl in Hpeek. by apply map_err_ok in Hpeek.
      - by exists requested, s. }
    destruct requested as [t|]; [case_bool_decide|]; simpl; (split; [done|]); [|by apply quiet_away|];
      (split; [apply Had; congruence|done]).
  - intros [] aw h Haw [Had Hq]. by apply (lifecycle_tail_spec st env req ctx_id event type stored Had aw h).
Qed.

(** C17: a lifecycle event is its actor's, is charged once proven, and is announced once
    accepted. However a retraction or republication ends, whatever other requests do
    meanwhile: if it is answered, the profile is on, its key is not a keyless one, the
    path names its context, its actor had budget, the caller's tenant is the context's
    and the SDK proved it; then it was charged to its actor and announced to the hint
    worker and to the webhook, to no tenant where the context is in the default one. If
    it is not answered, nothing is announced; it is charged only when it was proven
    after all gates, and an uncharged one has written nothing: whatever the others keep
    of the store, [I], still holds. *)
Theorem lifecycle_charges_the_proven st env (req : ReadRequest) (ctx_id : string) (body : list Z)
    (event : LifecycleEvent) (type : LifecycleEventType) (awaits : list (AwaitPoint S)) (store : S)
    (Hevent : lifecycle_event_of_body body = Ok event) (Hstore : I store) (Hothers : others_keep I awaits) :
  let '(r, limiter, store', effects) := lifecycle_transition jwt_decode st env req ctx_id body type awaits store in
  let charged := (λ l, record_at l (event_actor event) (le_drop env)) <$> ls_rate_limiter st in
  match r with
  | HOk ctx => ∃ stored, cleared st env req ctx_id event stored ∧ actor_proven st env req event type ∧
                 limiter = charged ∧ effects = lifecycle_announced st env event stored ctx
  | _ => effects = [] ∧
         (limiter = ls_rate_limiter st ∧ I store' ∨
          limiter = charged ∧ actor_proven st env req event type ∧ ∃ stored, cleared st env req ctx_id event stored)
  end.
Proof.
  unfold lifecycle_transition.
  pose proof (lifecycle_inner_spec st env req ctx_id body event type Hevent awaits (initial store) Hothers
                (conj eq_refl (conj eq_refl Hstore))) as Hspec.
  destruct (lifecycle_inner _ _ _ _ _ _ _ _ _) as [[r aw] h]. destruct Hspec as [_ Hpost].
  destruct Hpost as [Hr He Hi Hc|stored Had Hp Hc He].
  - assert (settled (ls_rate_limiter st) (le_drop env) h = ls_rate_limiter st) as Hset.
    { destruct Hc as [Hc|Hc]; [by unfold settled; rewrite Hc|by rewrite (settled_charge _ _ _ _ _ Hc)]. }
    destruct r; [by destruct (Hr v)|..]; (split; [done|by left]).
  - rewrite (settled_charge _ _ _ _ _ Hc). destruct r; [by exists stored|..]; (split; [done|]); right; eauto.
Qed.
End lifecycle.
