(* ===== verification/HandlerExample.v ===== *)
(** * Reads and lifecycle events over HTTP, run

    The handlers of [ReadHandlers] and [LifecycleHandler] on the SQLite store of
    [StoreExample], with one row to a page, and the witnesses of their theorems. *)

From S2P Require Import Prelude Text RateLimit ChallengeStore Revocation AuthService Errors ContextTypes ChangeFeed FeedBackends ClientIp ReadGate KeyAttestations EventReceipts SqlTx SqliteStore SqlitePublish SqliteInvariants SqliteReach SqliteTheorems SqliteListing StoreExample.
From S2P Require Import Webhook PublishReply Playground Handlers KeylessPublish PublishSqlite PublishExample ReadHandlers ReadTheorems LifecycleHandler.

Open Scope registry_scope.

Module HandlerExample.
Import EventExample StoreExample.StoreExample PublishExample.PublishExample.

Fixpoint after_id (id : string) (rows : list CtxRow) : list CtxRow :=
  match rows with
  | [] => []
  | r :: rows => if bool_decide (c_ctx_id r = id) then rows else after_id id rows
  end.

(** One row to a page; the cursor is the id of the last row served, any other text is
    refused. *)
Definition one_row (cursor tenant : option string) (db : SqliteDb) : SearchResponse :=
  let rows := List.filter (λ r, match tenant with Some t => bool_decide (c_tenant_id r = t) | None => true end)
                (contexts db) in
  let rest := match cursor with Some id => after_id id rows | None => rows end in
  mkSearchResponse (map (λ r, mkSearchResult (c_ctx_id r) (c_lineage_id r) (c_agent_id r) "" None DataSnapshot None 0
                             (parse_status (c_status r)) (parse_visibility (c_visibility r))) (firstn 1 rest))
    (Some (Z.of_nat (length rows)))
    (match rest with r :: _ :: _ => Some (c_ctx_id r) | _ => None end).

Definition one_row_page (cursor tenant : option string) (db : SqliteDb) : Ran (result SearchResponse AcdpError) :=
  Done (match cursor with
        | Some id => if bool_decide (id ∈ map c_ctx_id (contexts db)) then Ok (one_row cursor tenant db)
                     else Err (InvalidCursor "cursor")
        | None => Ok (one_row cursor tenant db)
        end).

#[export] Instance ledger_reads : ReadServer SqliteDb CommitCall unit := {|
  server_retrieve id who db := Done (get store1 id 8000000 db db);
  server_retrieve_body id who db :=
    Done (let? ctx := get store1 id 8000000 db db in Ok (fc_body <$> ctx));
  server_lineage id who db := Done (SqliteStore.lineage store1 id 8000000 db db);
  server_current id who db := Done (SqliteStore.current store1 id 8000000 db db);
  server_search p who db := one_row_page (sp_cursor p) None db;
  search_in_tenant p who open tenant db := one_row_page (sp_cursor p) tenant db;
  read_tenant_of_ctx id db := Done (Ok (tenant_of_ctx id db));
  read_tenants_of_ctxs ids db := Done (Ok (tenants_of_ctxs ids db));
  ctx_id_parse s := Ok s;
  ctx_id_authority _ := "reg.test";
  resolve_foreign _ _ := Done (Err (NotFound "no such registry"));
  resolved_body _ := example_body "" "" "" false None;
  resolved_state _ := mkState Active None None;
  resolved_receipt _ := None;
  resolved_raw_body _ := None;
  context_to_value _ := Ok VNull
|}.

Definition read_state : ReadState := mkReadState gate0 "reg.test" false true.
Definition read_env : ReadEnv (Outside := CommitCall) := mkReadEnv 8 (mkCommitCall ok_env 0 0 0).
Definition read_req : ReadRequest := mkReadRequest true [] None [] [] None.
Definition tenant_reader : ReadPrincipal := Did "did:web:a" (Some "t1").

Definition owner_of (id : string) : option string := tenant_of_ctx id db2.

Lemma published_db2 : published (contexts db2).
Proof. apply wf_published, reachable_wf, reachable_db2. Qed.

Lemma owned_db2 : owned (Outside := CommitCall) (Resolved := unit) owner_of db2.
Proof.
  split; simpl; [by intros id t [= <-]|]. intros ids m id t [= <-] Hm.
  assert (id ∈ ids) as Hid.
  { unfold tenants_of_ctxs in Hm. destruct (is_empty ids); [done|].
    apply elem_of_list_to_map_2, list_elem_of_fmap in Hm as (r & [= -> _] & Hr).
    apply list_elem_of_In, List.filter_In in Hr as [_ Hr]. by apply bool_decide_eq_true in Hr. }
  by rewrite (tenants_of_ctxs_lookup ids db2 id published_db2 Hid) in Hm.
Qed.

Definition search_all : SearchQuery :=
  mkSearchQuery None None None None None None None None None None None None None None (Some 1%Z) None None.

(** A scoped search answers its tenant's context. *)
Lemma reads_stay_in_their_tenant_witness :
  ∃ resp, (search read_state read_env read_req tenant_reader search_all [] (initial db2)).1.1 = HOk resp ∧
    map sr_ctx_id (matches resp) = [id1] ∧ Forall (λ m, owner_of (sr_ctx_id m) = Some "t1") (matches resp).
Proof.
  destruct (search read_state read_env read_req tenant_reader search_all [] (initial db2)).1.1 as [resp|e|m|] eqn:Hr;
    [|exfalso; revert Hr; vm_compute; discriminate..].
  assert (tenant_for_principal (rs_gate read_state) read_req tenant_reader = Ok (Some "t1")) as Hscope
    by (vm_compute; reflexivity).
  exists resp. split; [reflexivity|]. split.
  - revert Hr. vm_compute. by intros [= <-].
  - destruct (reads_stay_in_their_tenant owner_of read_state read_env read_req tenant_reader "t1" [] db2
                Hscope owned_db2 (List.Forall_nil _)) as (_ & _ & Hsearch & _).
    exact (Hsearch search_all resp Hr).
Defined.

(** Both versions are found, one to a request. *)
Lemma search_walk_is_filtered_witness :
  let pages := page_of (Proven := PublishRequest) (Outside := CommitCall) (Resolved := unit) db2 (Some "did:web:a")
                 (into_params search_all).1 (Some "t1") in
  pages (Some "no such cursor") = None ∧
  ∃ l, walk pages 2 None = Some l ∧ length l = 2%nat ∧
    walk (answer_page (Proven := PublishRequest) (Outside := CommitCall) (Resolved := unit) db2 (Some "did:web:a")
            (into_params search_all).1 None (Some "t1")) 2 None =
      Some (List.filter (kept_by_search None (Some "t1") owner_of) l).
Proof.
  split; [vm_compute; reflexivity|]. eexists. split; [vm_compute; reflexivity|]. split; [reflexivity|].
  apply (search_walk_is_filtered (Proven := PublishRequest) (Outside := CommitCall) (Resolved := unit) db2 (Some "did:web:a")
    (into_params search_all).1 None (Some "t1") owner_of).
  - intros c r. replace (Z.to_nat _) with 1%nat by (vm_compute; reflexivity).
    assert (length (matches (one_row c (Some "t1") db2)) ≤ 1)%nat as Hone
      by (unfold one_row; cbn [matches]; rewrite length_map; apply firstn_le_length).
    unfold page_of, store_page. cbn [search_in_tenant ledger_reads sp_cursor set_cursor]. unfold one_row_page.
    destruct c as [id|]; [destruct (bool_decide _)|]; try discriminate; intros Hr; injection Hr as <-; exact Hone.
  - intros ids. exists (tenants_of_ctxs ids db2). split; [reflexivity|]. intros id Hid.
    exact (tenants_of_ctxs_lookup ids db2 id published_db2 Hid).
  - intros Hw. discriminate.
  - vm_compute. reflexivity.
Defined.

(** A retraction of the second version by its producer. *)
#[export] Instance ledger_lifecycle : LifecycleServer SqliteDb Ev CommitCall := {|
  prove_lifecycle_identity _ event _ _ _ := Done (Ok event);
  prove_lifecycle_identity_did_key event _ _ _ := Done (Ok event);
  commit_lifecycle_proven out event db :=
    let '(r, db') := commit_lifecycle_event store1 (cc_env out) event (cc_now out) db in
    (Done (let? _ := r in
           let? ctx := get store1 (ev_ctx event) (cc_now out) db' db' in
           ok_or ctx (NotFound "context not found")), db');
  json_from_slice _ := Ok VNull;
  parse_lifecycle_request _ := Ok (mkEv "e1" id2 RetractedEvent);
  event_key_id _ := None
|}.

Definition life_state : LifecycleState :=
  mkLifecycleState gate0 true false (Some (AgentRateLimiter_new 5 0)) true "reg.test".
Definition life_env : LifecycleEnv :=
  let call := mkCommitCall ok_env 7000000 7 0 in
  mkLifecycleEnv 7 (mkGateEnv (mkCallEnv 7000000 DbOk) 7) 9 8 call call.

Definition life_run := retract no_jwt life_state life_env read_req id2 [] [] db2.

Lemma lifecycle_charges_the_proven_witness :
  ∃ ctx, life_run.1.1.1 = HOk ctx ∧ st_status (fc_state ctx) = Retracted ∧
    life_run.1.1.2 = Some (record_at (AgentRateLimiter_new 5 0) "did:web:a" 8) ∧ length life_run.2 = 2%nat.
Proof.
  assert (match life_run.1.1.1 with HOk ctx => st_status (fc_state ctx) = Retracted | _ => False end) as Hok
    by (vm_compute; reflexivity).
  pose proof (lifecycle_charges_the_proven no_jwt (λ _ : SqliteDb, True) life_state life_env read_req id2 []
                (mkEv "e1" id2 RetractedEvent) RetractedEvent [] db2 eq_refl Logic.I (List.Forall_nil _)) as Hthm.
  change (lifecycle_transition no_jwt life_state life_env read_req id2 [] RetractedEvent [] db2) with life_run in Hthm.
  destruct life_run as [[[r l] s] e]. simpl in Hok, Hthm |- *.
  destruct r as [ctx|err|m|]; simpl in Hok; [|destruct Hok..].
  destruct Hthm as (stored & _ & _ & -> & ->). exists ctx. split_and!; [reflexivity|exact Hok|reflexivity..].
Defined.
End HandlerExample.
