(* ===== verification/Jwks.v ===== *)
(** * The issuers' keys

    [acdp-registry-core/src/keyless/jwks.rs]: the published keys of the configured
    issuers, fetched over HTTP and cached, with a time to live, a stale window for
    outages, a back-off after a failed fetch and a bound on forced refetches. The
    network is an argument of every call; the parsers of URLs and documents are the
    class [JwksSdk]. A slot's lock is held across its fetch, so a call is one step. *)

From S2P Require Import Prelude Text ContextTypes.

Open Scope registry_scope.

(** ** Configuration *)

Record OidcIssuer : Type := mkOidcIssuer { oi_issuer : string; oi_jwks_uri : option string }.

Record SpiffeDomain : Type := mkSpiffeDomain {
  sd_trust_domain : string;
  sd_bundle_endpoint : string;
  sd_jwt_issuer : option string
}.

Record KeylessConfig : Type := mkKeylessConfig {
  kc_enabled : bool;
  kc_max_attestation_ttl_seconds : Z;
  kc_oidc_issuers : list OidcIssuer;
  kc_spiffe_trust_domains : list SpiffeDomain;
  kc_jwks_cache_ttl_seconds : Z;
  kc_jwks_max_stale_seconds : Z;
  kc_fetch_timeout_ms : Z;
  kc_max_fetch_bytes : Z;
  kc_rate_per_identity_per_minute : Z;
  kc_rate_per_ip_per_minute : Z
}.

Definition UNKNOWN_KID_REFETCH_MS : Z := 30000.
Definition FAILURE_BACKOFF_MS : Z := 30000.
Definition MIN_TTL_SECONDS : Z := 60.
Definition MAX_TTL_SECONDS : Z := 3600.

(** ** Keys and fetches *)

Inductive KeySource : Type := SourceOidc (issuer : string) | SourceSpiffe (domain : string).

#[export] Instance KeySource_eq_dec : EqDecision KeySource.
Proof. solve_decision. Defined.

#[export] Instance KeySource_countable : Countable KeySource.
Proof.
  apply (inj_countable' (λ s, match s with SourceOidc i => inl i | SourceSpiffe d => inr d end)
                        (λ s, match s with inl i => SourceOidc i | inr d => SourceSpiffe d end)).
  by intros [].
Defined.

Record IssuerJwk : Type := mkIssuerJwk {
  ij_kty : string;
  ij_kid : option string;
  ij_alg : option string;
  ij_use : option string;
  ij_crv : option string;
  ij_n : option string;
  ij_e : option string;
  ij_x : option string;
  ij_y : option string
}.

Definition KeySet : Type := list IssuerJwk.

Inductive Target : Type := TargetJwks (url : string) | TargetDiscovery (issuer : string).

Inductive FetchError : Type :=
  | FE_Policy
  | FE_Transport
  | FE_Status (status : Z)
  | FE_TooLarge
  | FE_BadDocument
  | FE_BadDiscovery.

Definition fetch_error_label (e : FetchError) : string :=
  match e with
  | FE_Policy => "policy_refused"
  | FE_Transport => "transport"
  | FE_Status _ => "bad_status"
  | FE_TooLarge => "too_large"
  | FE_BadDocument => "bad_document"
  | FE_BadDiscovery => "bad_discovery"
  end.

(** What a GET meets: no connection, or a response with its status, the visible
    [Cache-Control] value and its body ([None] where the stream breaks off). *)
Inductive NetReply : Type :=
  | NetFailed
  | NetResponse (status : Z) (cache_control : option string) (body : option (list Z)).

Definition Net : Type := string → NetReply.

Class JwksSdk : Type := {
  (** The outbound policy's [check_url], and whether a URL parses with scheme https. *)
  policy_check_url : string → bool;
  url_is_https : string → bool;
  (** The [issuer] and [jwks_uri] of a discovery document, the [keys] of a JWKS, and
      one key. *)
  discovery_from_slice : list Z → option (string * string);
  jwks_from_slice : list Z → option (list Value);
  issuer_jwk_from_value : Value → option IssuerJwk
}.

(** [trim_matches] and [trim_end_matches] with one character. *)
Fixpoint drop_char (c : Ascii.ascii) (l : list Ascii.ascii) : list Ascii.ascii :=
  match l with
  | x :: l' => if bool_decide (x = c) then drop_char c l' else l
  | [] => []
  end.

Definition trim_end_matches (c : Ascii.ascii) (s : string) : string :=
  String.string_of_list_ascii (rev (drop_char c (rev (String.list_ascii_of_string s)))).

Definition trim_matches (c : Ascii.ascii) (s : string) : string :=
  trim_end_matches c (String.string_of_list_ascii (drop_char c (String.list_ascii_of_string s))).

Definition slash : Ascii.ascii := Ascii.ascii_of_nat 47.
Definition dquote : Ascii.ascii := Ascii.ascii_of_nat 34.

(** The directives of [cache_control_max_age], in order. *)
Fixpoint max_age_directives (max_age : option Z) (ds : list string) : option Z :=
  match ds with
  | [] => max_age
  | d :: ds =>
      let lower := to_ascii_lowercase d in
      if bool_decide (lower = "no-store") || bool_decide (lower = "no-cache") then Some 0%Z
      else
        let max_age := match strip_prefix "max-age=" lower with
                       | Some n => match parse_u64 (trim_matches dquote n) with
                                   | Ok a => Some a
                                   | Err _ => max_age
                                   end
                       | None => max_age
                       end in
        max_age_directives max_age ds
  end.

Definition cache_control_max_age (v : string) : option Z :=
  max_age_directives None (map trim (split_char comma v)).

Example max_age_examples :
  map cache_control_max_age
    ["max-age=300"; "public, Max-Age=90, immutable"; "no-store, max-age=9"; "max-age=x"; "private"] =
    [Some 300; Some 90; Some 0; None; None]%Z.
Proof. vm_compute. reflexivity. Qed.

(** [u64::clamp] and [secs_to_ms]. *)
Definition clamp_u64 (v lo hi : Z) : Z := if (v <? lo)%Z then lo else if (hi <? v)%Z then hi else v.

Definition secs_to_ms (s : Z) : Z :=
  let ms := u64_saturating_mul s 1000 in if (ms <=? i64_max)%Z then ms else i64_max.

(** ** The cache *)

Record Entry : Type := mkEntry { en_keys : KeySet; en_fetched_at_ms : Z; en_ttl_ms : Z }.

Record SlotState : Type := mkSlotState {
  sl_entry : option Entry;
  sl_last_forced_ms : option Z;
  sl_failed_at_ms : option Z
}.

Record Slot : Type := mkSlot { slot_target : Target; slot_state : SlotState }.

Record CacheStats : Type := mkCacheStats {
  cs_fetches : Z;
  cs_fetch_failures : Z;
  cs_hits : Z;
  cs_stale_served : Z
}.

Record JwksCache : Type := mkJwksCache {
  jc_slots : gmap KeySource Slot;
  jc_max_bytes : Z;
  jc_ttl_seconds : Z;
  jc_max_stale_ms : Z;
  jc_stats : CacheStats
}.

Definition Slot_new (target : Target) : Slot := mkSlot target (mkSlotState None None None).

Definition oidc_slot (slots : gmap KeySource Slot) (o : OidcIssuer) : gmap KeySource Slot :=
  let target := match oi_jwks_uri o with
                | Some uri => TargetJwks uri
                | None => TargetDiscovery (oi_issuer o)
                end in
  <[SourceOidc (oi_issuer o) := Slot_new target]> slots.

Definition spiffe_slot (slots : gmap KeySource Slot) (d : SpiffeDomain) : gmap KeySource Slot :=
  <[SourceSpiffe (sd_trust_domain d) := Slot_new (TargetJwks (sd_bundle_endpoint d))]> slots.

Definition JwksCache_new (cfg : KeylessConfig) : JwksCache :=
  let oidc := if kc_enabled cfg then kc_oidc_issuers cfg else [] in
  let spiffe := if kc_enabled cfg then kc_spiffe_trust_domains cfg else [] in
  mkJwksCache (fold_left spiffe_slot spiffe (fold_left oidc_slot oidc ∅))
    (Z.min usize_max (kc_max_fetch_bytes cfg))
    (Z.min (kc_jwks_cache_ttl_seconds cfg) MAX_TTL_SECONDS)
    (secs_to_ms (kc_jwks_max_stale_seconds cfg)) (mkCacheStats 0 0 0 0).

Section fetch.
Context `{!JwksSdk}.

(** [JwksCache::get]. *)
Definition http_get (max_bytes : Z) (net : Net) (url : string) : result (list Z * option Z) FetchError :=
  if negb (policy_check_url url) then Err FE_Policy
  else match net url with
       | NetFailed => Err FE_Transport
       | NetResponse status cache_control body =>
           if negb ((200 <=? status) && (status <? 300))%Z then Err (FE_Status status)
           else
             let max_age := cache_control ≫= cache_control_max_age in
             match body with
             | None => Err FE_Transport
             | Some body => if (max_bytes <? Z.of_nat (length body))%Z then Err FE_TooLarge
                            else Ok (body, max_age)
             end
       end.

Definition fetch_jwks (max_bytes : Z) (net : Net) (url : string) : result (KeySet * option Z) FetchError :=
  let? got := http_get max_bytes net url in
  let? keys := ok_or (jwks_from_slice got.1) FE_BadDocument in
  Ok (omap issuer_jwk_from_value keys, got.2).

Definition fetch_discovered (max_bytes : Z) (net : Net) (issuer : string) :
    result (KeySet * option Z) FetchError :=
  let url := trim_end_matches slash issuer +:+ "/.well-known/openid-configuration" in
  let? got := http_get max_bytes net url in
  let? doc := ok_or (discovery_from_slice got.1) FE_BadDocument in
  if negb (bool_decide (doc.1 = issuer)) || negb (url_is_https doc.2) then Err FE_BadDiscovery
  else fetch_jwks max_bytes net doc.2.

Definition fetch_target (max_bytes : Z) (net : Net) (target : Target) : result (KeySet * option Z) FetchError :=
  match target with
  | TargetJwks url => fetch_jwks max_bytes net url
  | TargetDiscovery issuer => fetch_discovered max_bytes net issuer
  end.

Definition count_hit (s : CacheStats) : CacheStats :=
  mkCacheStats (cs_fetches s) (cs_fetch_failures s) (cs_hits s + 1) (cs_stale_served s).
Definition count_stale (s : CacheStats) : CacheStats :=
  mkCacheStats (cs_fetches s) (cs_fetch_failures s) (cs_hits s) (cs_stale_served s + 1).
Definition count_fetch (failed : bool) (s : CacheStats) : CacheStats :=
  mkCacheStats (cs_fetches s + 1) (cs_fetch_failures s + (if failed then 1 else 0)%Z) (cs_hits s)
    (cs_stale_served s).

Definition with_stats (f : CacheStats → CacheStats) (c : JwksCache) : JwksCache :=
  mkJwksCache (jc_slots c) (jc_max_bytes c) (jc_ttl_seconds c) (jc_max_stale_ms c) (f (jc_stats c)).

Definition with_slot (source : KeySource) (slot : Slot) (c : JwksCache) : JwksCache :=
  mkJwksCache (<[source := slot]> (jc_slots c)) (jc_max_bytes c) (jc_ttl_seconds c) (jc_max_stale_ms c)
    (jc_stats c).

(** [JwksCache::stale]: an [Err] is [IssuerUnreachable]. *)
Definition stale (c : JwksCache) (e : Entry) (now : Z) : result KeySet unit * JwksCache :=
  let until := i64_saturating_add (i64_saturating_add (en_fetched_at_ms e) (en_ttl_ms e)) (jc_max_stale_ms c) in
  if (now <? until)%Z then (Ok (en_keys e), with_stats count_stale c) else (Err tt, c).

(** [JwksCache::store]. *)
Definition entry_of (c : JwksCache) (keys : KeySet) (max_age : option Z) (now : Z) : Entry :=
  let ttl := match max_age with
             | Some m => Z.min (jc_ttl_seconds c) (clamp_u64 m MIN_TTL_SECONDS MAX_TTL_SECONDS)
             | None => jc_ttl_seconds c
             end in
  mkEntry keys now (secs_to_ms ttl).

Definition store_keys (source : KeySource) (slot : Slot) (fresh : KeySet * option Z) (now : Z) (c : JwksCache) :
    JwksCache :=
  with_slot source
    (mkSlot (slot_target slot)
       (mkSlotState (Some (entry_of c fresh.1 fresh.2 now)) (sl_last_forced_ms (slot_state slot)) None)) c.

Definition note_failed (source : KeySource) (slot : Slot) (now : Z) (c : JwksCache) : JwksCache :=
  with_slot source
    (mkSlot (slot_target slot)
       (mkSlotState (sl_entry (slot_state slot)) (sl_last_forced_ms (slot_state slot)) (Some now))) c.

(** [JwksCache::fetch], counted. *)
Definition counted_fetch (net : Net) (slot : Slot) (c : JwksCache) :
    result (KeySet * option Z) FetchError * JwksCache :=
  let got := fetch_target (jc_max_bytes c) net (slot_target slot) in
  (got, with_stats (count_fetch (negb (is_ok got))) c).

Definition within (since : option Z) (span now : Z) : bool :=
  match since with Some t => (now <? i64_saturating_add t span)%Z | None => false end.

(** [JwksCache::keys]. *)
Definition cache_keys (net : Net) (now : Z) (source : KeySource) (c : JwksCache) :
    result KeySet unit * JwksCache :=
  match jc_slots c !! source with
  | None => (Err tt, c)
  | Some slot =>
      let st := slot_state slot in
      let backing_off := within (sl_failed_at_ms st) FAILURE_BACKOFF_MS now in
      let refetch :=
        let '(got, c) := counted_fetch net slot c in
        match got with
        | Ok fresh => (Ok fresh.1, store_keys source slot fresh now c)
        | Err _ =>
            let c := note_failed source slot now c in
            match sl_entry st with
            | Some e => stale c e now
            | None => (Err tt, c)
            end
        end in
      match sl_entry st with
      | Some e =>
          if (now <? i64_saturating_add (en_fetched_at_ms e) (en_ttl_ms e))%Z then
            (Ok (en_keys e), with_stats count_hit c)
          else if backing_off then stale c e now
          else refetch
      | None => if backing_off then (Err tt, c) else refetch
      end
  end.

Definition force (now : Z) (slot : Slot) : Slot :=
  mkSlot (slot_target slot)
    (mkSlotState (sl_entry (slot_state slot)) (Some now) (sl_failed_at_ms (slot_state slot))).

(** [JwksCache::refresh_for_unknown_kid]: [Ok None] where no refetch was due. *)
Definition refresh_for_unknown_kid (net : Net) (now : Z) (source : KeySource) (c : JwksCache) :
    result (option KeySet) unit * JwksCache :=
  match jc_slots c !! source with
  | None => (Err tt, c)
  | Some slot =>
      if within (sl_last_forced_ms (slot_state slot)) UNKNOWN_KID_REFETCH_MS now then (Ok None, c)
      else
        let slot := force now slot in
        let '(got, c) := counted_fetch net slot (with_slot source slot c) in
        match got with
        | Ok fresh => (Ok (Some fresh.1), store_keys source slot fresh now c)
        | Err _ => (Err tt, note_failed source slot now c)
        end
  end.

(** A call whose future is dropped while its fetch is under way: only what it wrote
    before the fetch stays. *)
Definition keys_dropped (c : JwksCache) : JwksCache := with_stats (count_fetch false) c.

Definition refresh_dropped (now : Z) (source : KeySource) (c : JwksCache) : JwksCache :=
  match jc_slots c !! source with
  | Some slot =>
      if within (sl_last_forced_ms (slot_state slot)) UNKNOWN_KID_REFETCH_MS now then c
      else keys_dropped (with_slot source (force now slot) c)
  | None => c
  end.

(** ** Runs of the cache *)

(** The caches of [cfg] after the calls of [hist], newest first, each with its clock and
    its network. *)
Inductive cache_reach (cfg : KeylessConfig) : list (Z * Net) → JwksCache → Prop :=
  | cr_new : cache_reach cfg [] (JwksCache_new cfg)
  | cr_keys hist c source now net :
      cache_reach cfg hist c → cache_reach cfg ((now, net) :: hist) (cache_keys net now source c).2
  | cr_refresh hist c source now net :
      cache_reach cfg hist c →
      cache_reach cfg ((now, net) :: hist) (refresh_for_unknown_kid net now source c).2
  | cr_keys_dropped hist c now net :
      cache_reach cfg hist c → cache_reach cfg ((now, net) :: hist) (keys_dropped c)
  | cr_refresh_dropped hist c source now net :
      cache_reach cfg hist c → cache_reach cfg ((now, net) :: hist) (refresh_dropped now source c).

(** A fetch of [source]'s target at [at_] in [hist] gave [keys]. *)
Definition fetched_in (cfg : KeylessConfig) (hist : list (Z * Net)) (source : KeySource) (keys : KeySet) (at_ : Z) :
    Prop :=
  ∃ net slot max_age, (at_, net) ∈ hist ∧ jc_slots (JwksCache_new cfg) !! source = Some slot ∧
    fetch_target (jc_max_bytes (JwksCache_new cfg)) net (slot_target slot) = Ok (keys, max_age).

(** What holds of the cache after [hist]: its settings are the configured ones, and each
    copy is what its configured target served when it was fetched. *)
Record cache_inv (cfg : KeylessConfig) (hist : list (Z * Net)) (c : JwksCache) : Prop := {
  ci_bytes : jc_max_bytes c = jc_max_bytes (JwksCache_new cfg);
  ci_ttl : jc_ttl_seconds c = jc_ttl_seconds (JwksCache_new cfg);
  ci_stale : jc_max_stale_ms c = jc_max_stale_ms (JwksCache_new cfg);
  ci_slots source : slot_target <$> jc_slots c !! source = slot_target <$> jc_slots (JwksCache_new cfg) !! source;
  ci_entry source slot e : jc_slots c !! source = Some slot → sl_entry (slot_state slot) = Some e →
    (0 ≤ en_ttl_ms e ≤ MAX_TTL_SECONDS * 1000)%Z ∧
    fetched_in cfg hist source (en_keys e) (en_fetched_at_ms e)
}.

Lemma inv_stats cfg hist c f : cache_inv cfg hist c → cache_inv cfg hist (with_stats f c).
Proof. by intros []. Qed.

Lemma inv_later cfg hist c x : cache_inv cfg hist c → cache_inv cfg (x :: hist) c.
Proof.
  intros [? ? ? ? He]. split; [done..|]. intros source slot e Hs Hslot.
  destruct (He source slot e Hs Hslot) as (Ht & net & slot0 & age & Hin & Hrest). split; [done|].
  exists net, slot0, age. split; [by right|done].
Qed.

(** Writing a slot back with its target and a copy that is accounted for. *)
Lemma inv_slot cfg hist c source slot slot' :
  cache_inv cfg hist c → jc_slots c !! source = Some slot → slot_target slot' = slot_target slot →
  (∀ e, sl_entry (slot_state slot') = Some e → sl_entry (slot_state slot) = Some e ∨
     ((0 ≤ en_ttl_ms e ≤ MAX_TTL_SECONDS * 1000)%Z ∧ fetched_in cfg hist source (en_keys e) (en_fetched_at_ms e))) →
  cache_inv cfg hist (with_slot source slot' c).
Proof.
  intros [Hb Ht Hst Hsl He] Hs Htar Hent. split; [done..| |].
  - intros k. simpl. rewrite -Hsl. destruct (decide (k = source)) as [->|Hk].
    + by rewrite lookup_insert_eq Hs /= Htar.
    + by rewrite lookup_insert_ne.
  - intros k sl e. simpl. destruct (decide (k = source)) as [->|Hk].
    + rewrite lookup_insert_eq. intros [= <-] Hsle. destruct (Hent e Hsle) as [Hold|Hnew]; [|done].
      by apply (He source slot).
    + rewrite lookup_insert_ne; [|done]. apply He.
Qed.

Lemma secs_to_ms_small s : (0 ≤ s ≤ MAX_TTL_SECONDS)%Z → secs_to_ms s = (s * 1000)%Z.
Proof.
  unfold secs_to_ms, u64_saturating_mul, u64_max, i64_max, MAX_TTL_SECONDS. intros Hs.
  rewrite Z.min_r; [|lia]. case_match; lia.
Qed.

Context (cfg : KeylessConfig) (Httl : (0 ≤ kc_jwks_cache_ttl_seconds cfg)%Z).

Lemma entry_of_ttl hist c keys age now :
  cache_inv cfg hist c → (0 ≤ en_ttl_ms (entry_of c keys age now) ≤ MAX_TTL_SECONDS * 1000)%Z.
Proof.
  intros [_ Ht _ _ _]. unfold entry_of. simpl. rewrite Ht. simpl.
  assert (∀ s, (0 ≤ s ≤ MAX_TTL_SECONDS)%Z → (0 ≤ secs_to_ms s ≤ MAX_TTL_SECONDS * 1000)%Z) as Hms.
  { intros s Hs. rewrite secs_to_ms_small; [lia|done]. }
  apply Hms. unfold MAX_TTL_SECONDS, MIN_TTL_SECONDS, clamp_u64. repeat case_match; lia.
Qed.

(** A fetch that was just made, in the history. *)
Lemma fetched_now hist c source slot now net fresh :
  cache_inv cfg hist c → jc_slots c !! source = Some slot →
  fetch_target (jc_max_bytes c) net (slot_target slot) = Ok fresh →
  fetched_in cfg ((now, net) :: hist) source fresh.1 now.
Proof.
  intros [Hb _ _ Hsl _] Hs Hf. specialize (Hsl source). rewrite Hs in Hsl.
  symmetry in Hsl. apply fmap_Some in Hsl as (slot0 & Hs0 & Hsl).
  exists net, slot0, fresh.2. split_and!; [by left|done|]. by rewrite -Hb -Hsl Hf -surjective_pairing.
Qed.

Lemma store_keys_inv hist c source slot now net fresh :
  cache_inv cfg hist c → jc_slots c !! source = Some slot →
  fetch_target (jc_max_bytes c) net (slot_target slot) = Ok fresh →
  cache_inv cfg ((now, net) :: hist) (store_keys source slot fresh now c).
Proof.
  intros Hinv Hs Hf. eapply inv_slot; [by apply inv_later|done|done|]. simpl. intros e [= <-]. right.
  split; [by eapply entry_of_ttl|]. by eapply fetched_now.
Qed.

Lemma stale_inv hist c e now : cache_inv cfg hist c → cache_inv cfg hist (stale c e now).2.
Proof. intros Hinv. unfold stale. case_match; [by apply inv_stats|done]. Qed.

Lemma cache_keys_inv hist c source now net :
  cache_inv cfg hist c → cache_inv cfg ((now, net) :: hist) (cache_keys net now source c).2.
Proof.
  intros Hinv. pose proof (inv_later _ _ _ (now, net) Hinv) as Hlater. unfold cache_keys.
  destruct (jc_slots c !! source) as [slot|] eqn:Hs; [|done].
  assert (cache_inv cfg ((now, net) :: hist)
    (let '(got, c0) := counted_fetch net slot c in
     match got with
     | Ok fresh => (Ok fresh.1, store_keys source slot fresh now c0)
     | Err _ => match sl_entry (slot_state slot) with
                | Some e => stale (note_failed source slot now c0) e now
                | None => (Err tt, note_failed source slot now c0)
                end
     end).2) as Hfetch.
  { unfold counted_fetch. destruct (fetch_target _ _ _) as [fresh|err] eqn:Hf; simpl.
    - by apply store_keys_inv; [apply inv_stats|..].
    - assert (cache_inv cfg ((now, net) :: hist)
                (note_failed source slot now (with_stats (count_fetch true) c))) as Hn.
      { eapply inv_slot; [by apply inv_stats|done|done|]. simpl. by left. }
      destruct (sl_entry _); [by apply stale_inv|done]. }
  destruct (sl_entry (slot_state slot)) as [e|].
  - destruct (now <? _)%Z; [by apply inv_stats|]. destruct (within _ _ _); [by apply stale_inv|done].
  - by destruct (within _ _ _).
Qed.

Lemma force_inv hist c source slot now :
  cache_inv cfg hist c → jc_slots c !! source = Some slot → cache_inv cfg hist (with_slot source (force now slot) c).
Proof. intros Hinv Hs. eapply inv_slot; [done..|]. simpl. by left. Qed.

Lemma refresh_inv hist c source now net :
  cache_inv cfg hist c → cache_inv cfg ((now, net) :: hist) (refresh_for_unknown_kid net now source c).2.
Proof.
  intros Hinv. pose proof (inv_later _ _ _ (now, net) Hinv) as Hlater. unfold refresh_for_unknown_kid.
  destruct (jc_slots c !! source) as [slot|] eqn:Hs; [|done]. case_match; [done|].
  set (c1 := with_slot source (force now slot) c).
  assert (jc_slots c1 !! source = Some (force now slot)) as Hs1 by apply lookup_insert_eq.
  assert (cache_inv cfg hist c1) as Hinv1 by by apply force_inv.
  unfold counted_fetch. destruct (fetch_target _ _ _) as [fresh|err] eqn:Hf; simpl.
  - by apply store_keys_inv; [apply inv_stats|..].
  - eapply inv_slot; [by apply inv_stats, inv_later|done|done|]. simpl. by left.
Qed.

Lemma cache_reach_inv hist c : cache_reach cfg hist c → cache_inv cfg hist c.
Proof.
  induction 1 as [|hist c source now net _ IH|hist c source now net _ IH|hist c now net _ IH
                 |hist c source now net _ IH].
  - split; [done..|]. intros source slot e Hs He. exfalso.
    assert (∀ slots, (∀ k s, slots !! k = Some s → sl_entry (slot_state s) = None) →
              ∀ l k s, fold_left oidc_slot l slots !! k = Some s → sl_entry (slot_state s) = None) as Ho.
    { intros slots Hslots l. revert slots Hslots. induction l as [|o l IHl]; intros slots Hslots; [done|].
      apply IHl. intros k s. unfold oidc_slot. rewrite lookup_insert_Some. intros [[_ <-]|[_ ?]]; [done|by eapply Hslots]. }
    assert (∀ slots, (∀ k s, slots !! k = Some s → sl_entry (slot_state s) = None) →
              ∀ l k s, fold_left spiffe_slot l slots !! k = Some s → sl_entry (slot_state s) = None) as Hsp.
    { intros slots Hslots l. revert slots Hslots. induction l as [|o l IHl]; intros slots Hslots; [done|].
      apply IHl. intros k s. unfold spiffe_slot. rewrite lookup_insert_Some. intros [[_ <-]|[_ ?]]; [done|by eapply Hslots]. }
    assert (sl_entry (slot_state slot) = None) as Hn; [|congruence].
    refine (Hsp _ _ _ _ _ Hs). refine (Ho _ _ _). intros k s. by rewrite lookup_empty.
  - by apply cache_keys_inv.
  - by apply refresh_inv.
  - by apply inv_stats, inv_later.
  - unfold refresh_dropped. destruct (jc_slots c !! source) as [slot|] eqn:Hs; [|by apply inv_later].
    case_match; [by apply inv_later|]. apply inv_stats, force_inv; [by apply inv_later|done].
Qed.

Lemma secs_to_ms_nonneg s : (0 ≤ s)%Z → (0 ≤ secs_to_ms s)%Z.
Proof. unfold secs_to_ms, u64_saturating_mul, u64_max, i64_max. intros Hs. case_match; lia. Qed.

Lemma saturating_below a b now : (0 ≤ a)%Z → (0 ≤ b)%Z → (now < i64_saturating_add a b)%Z → (now < a + b)%Z.
Proof. unfold i64_saturating_add, i64_min, i64_max. lia. Qed.

Definition max_age_ms : Z := MAX_TTL_SECONDS * 1000 + secs_to_ms (kc_jwks_max_stale_seconds cfg).

Context (Hmax_stale : (0 ≤ kc_jwks_max_stale_seconds cfg)%Z).

(** What [keys] answers at [now] after [hist]. *)
Definition served_at (hist : list (Z * Net)) (source : KeySource) (keys : KeySet) (now : Z) : Prop :=
  ∃ f, fetched_in cfg hist source keys f ∧ (now < f + max_age_ms)%Z ∧
    ((∀ t net, (t, net) ∈ hist → t ≤ now)%Z → (f ≤ now)%Z).

Definition clock_nonneg (hist : list (Z * Net)) : Prop := ∀ t net, (t, net) ∈ hist → (0 ≤ t)%Z.

(** A copy that is served while fresh or in its stale window. *)
Lemma copy_is_recent hist c source slot e now until :
  cache_inv cfg hist c → jc_slots c !! source = Some slot → sl_entry (slot_state slot) = Some e →
  clock_nonneg hist → (now < until)%Z →
  until = i64_saturating_add (en_fetched_at_ms e) (en_ttl_ms e) ∨
  until = i64_saturating_add (i64_saturating_add (en_fetched_at_ms e) (en_ttl_ms e)) (jc_max_stale_ms c) →
  served_at hist source (en_keys e) now.
Proof.
  intros Hinv Hs He Hclock Hnow Huntil. destruct (ci_entry _ _ _ Hinv source slot e Hs He) as [Ht Hf].
  pose proof Hf as (net & slot0 & age & Hin & _). specialize (Hclock _ _ Hin).
  exists (en_fetched_at_ms e). split; [done|]. split; [|intros Hle; by eapply Hle].
  pose proof (secs_to_ms_nonneg _ Hmax_stale) as Hst. unfold max_age_ms.
  pose proof (ci_stale _ _ _ Hinv) as Hcst. simpl in Hcst.
  destruct Huntil as [->| ->].
  - apply saturating_below in Hnow; lia.
  - apply saturating_below in Hnow; [|unfold i64_saturating_add, i64_min, i64_max; lia|lia].
    unfold i64_saturating_add, i64_min, i64_max in Hnow. lia.
Qed.

Lemma stale_serves c e now keys :
  (stale c e now).1 = Ok keys →
  keys = en_keys e ∧
  (now < i64_saturating_add (i64_saturating_add (en_fetched_at_ms e) (en_ttl_ms e)) (jc_max_stale_ms c))%Z.
Proof. unfold stale. destruct (_ <? _)%Z eqn:Hn; [|done]. intros [= <-]. split; [done|lia]. Qed.

Lemma served_later hist source keys now net : served_at hist source keys now → served_at ((now, net) :: hist) source keys now.
Proof.
  intros (f & (n & sl & age & Hin & Hrest) & Hf & Hle). exists f. split_and!; [|done|].
  - exists n, sl, age. split; [by right|done].
  - intros Hord. apply Hle. intros t n' Hin'. apply (Hord t n'). by right.
Qed.

Lemma served_now hist c source slot now net fresh :
  cache_inv cfg hist c → jc_slots c !! source = Some slot →
  fetch_target (jc_max_bytes c) net (slot_target slot) = Ok fresh →
  served_at ((now, net) :: hist) source fresh.1 now.
Proof.
  intros Hinv Hs Hf. exists now. split; [by eapply fetched_now|].
  pose proof (secs_to_ms_nonneg _ Hmax_stale). unfold max_age_ms, MAX_TTL_SECONDS. lia.
Qed.

Lemma cache_keys_served hist c source now net keys :
  cache_inv cfg hist c → clock_nonneg hist → (cache_keys net now source c).1 = Ok keys →
  served_at ((now, net) :: hist) source keys now.
Proof.
  intros Hinv Hclock. unfold cache_keys. destruct (jc_slots c !! source) as [slot|] eqn:Hs; [|done].
  assert (∀ e c', sl_entry (slot_state slot) = Some e → jc_max_stale_ms c' = jc_max_stale_ms c →
    (stale c' e now).1 = Ok keys → served_at ((now, net) :: hist) source keys now) as Hstale.
  { intros e c' He Hc' [-> Hn]%stale_serves. rewrite Hc' in Hn. apply served_later.
    exact (copy_is_recent hist c source slot e now _ Hinv Hs He Hclock Hn (or_intror eq_refl)). }
  assert ((let '(got, c0) := counted_fetch net slot c in
     match got with
     | Ok fresh => (Ok fresh.1, store_keys source slot fresh now c0)
     | Err _ => match sl_entry (slot_state slot) with
                | Some e => stale (note_failed source slot now c0) e now
                | None => (Err tt, note_failed source slot now c0)
                end
     end).1 = Ok keys → served_at ((now, net) :: hist) source keys now) as Hfetch.
  { unfold counted_fetch. destruct (fetch_target _ _ _) as [fresh|err] eqn:Hf; simpl.
    - intros [= <-]. by eapply served_now.
    - destruct (sl_entry (slot_state slot)) as [e|] eqn:He; [|done]. by apply Hstale. }
  destruct (sl_entry (slot_state slot)) as [e|] eqn:He; [|by destruct (within _ _ _)].
  destruct (_ <? _)%Z eqn:Hn.
  - intros [= <-]. apply served_later.
    refine (copy_is_recent hist c source slot e now _ Hinv Hs He Hclock _ (or_introl eq_refl)). lia.
  - destruct (within _ _ _); [by apply Hstale|done].
Qed.

Lemma refresh_served hist c source now net keys :
  cache_inv cfg hist c → (refresh_for_unknown_kid net now source c).1 = Ok (Some keys) →
  fetched_in cfg ((now, net) :: hist) source keys now.
Proof.
  intros Hinv. unfold refresh_for_unknown_kid. destruct (jc_slots c !! source) as [slot|] eqn:Hs; [|done].
  case_match; [done|]. unfold counted_fetch. destruct (fetch_target _ _ _) as [fresh|err] eqn:Hf; [|done].
  simpl. intros [= <-]. eapply fetched_now; [by apply force_inv|apply lookup_insert_eq|done].
Qed.

(** C37: the keys a token is checked with are its issuer's and recent. After any calls of
    the cache, dropped ones included, with any network and any non-negative clock, what
    [keys] answers for a source is what the source's configured target served at one of
    these calls, or just now, less than an hour plus the configured stale window ago
    (and not in the future, if the clock did not run backwards); what a forced refetch
    answers was served just now; and a source that is not configured gives nothing. *)
Theorem jwks_answers_are_recent (hist : list (Z * Net)) (c : JwksCache) (source : KeySource) (now : Z) (net : Net)
    (Hreach : cache_reach cfg hist c) (Hclock : clock_nonneg hist) :
  (∀ keys, (cache_keys net now source c).1 = Ok keys → served_at ((now, net) :: hist) source keys now) ∧
  (∀ keys, (refresh_for_unknown_kid net now source c).1 = Ok (Some keys) →
     fetched_in cfg ((now, net) :: hist) source keys now) ∧
  (jc_slots (JwksCache_new cfg) !! source = None →
     cache_keys net now source c = (Err tt, c) ∧ refresh_for_unknown_kid net now source c = (Err tt, c)).
Proof.
  pose proof (cache_reach_inv _ _ Hreach) as Hinv. split_and!.
  - intros keys. by apply cache_keys_served.
  - intros keys. by eapply refresh_served.
  - intros Hnone. pose proof (ci_slots _ _ _ Hinv source) as Hsl. rewrite Hnone in Hsl.
    apply fmap_None in Hsl. unfold cache_keys, refresh_for_unknown_kid. by rewrite Hsl.
Qed.
End fetch.

(** ** Outages *)

Section outage.
Context `{!JwksSdk} (source : KeySource).

Definition run_keys (calls : list (Z * Net)) (c : JwksCache) : JwksCache :=
  fold_left (λ c call, (cache_keys call.2 call.1 source c).2) calls c.

(** One lookup of an issuer that does not answer. *)
Lemma cache_keys_dead c slot now net err :
  jc_slots c !! source = Some slot → fetch_target (jc_max_bytes c) net (slot_target slot) = Err err →
  let c' := (cache_keys net now source c).2 in
  jc_max_bytes c' = jc_max_bytes c ∧
  (jc_slots c' = jc_slots c ∧ cs_fetches (jc_stats c') = cs_fetches (jc_stats c) ∨
   within (sl_failed_at_ms (slot_state slot)) FAILURE_BACKOFF_MS now = false ∧
   cs_fetches (jc_stats c') = (cs_fetches (jc_stats c) + 1)%Z ∧
   ∃ slot', jc_slots c' !! source = Some slot' ∧ slot_target slot' = slot_target slot ∧
     sl_failed_at_ms (slot_state slot') = Some now).
Proof.
  intros Hs Hf. unfold cache_keys, counted_fetch. rewrite Hs Hf. simpl.
  assert (∀ c e, jc_max_bytes (stale c e now).2 = jc_max_bytes c ∧ jc_slots (stale c e now).2 = jc_slots c ∧
            cs_fetches (jc_stats (stale c e now).2) = cs_fetches (jc_stats c)) as Hstale.
  { intros c0 e. unfold stale. by case_match. }
  assert (∃ slot', jc_slots (note_failed source slot now (with_stats (count_fetch true) c)) !! source = Some slot' ∧
            slot_target slot' = slot_target slot ∧ sl_failed_at_ms (slot_state slot') = Some now) as Hnew.
  { eexists. split; [apply lookup_insert_eq|done]. }
  destruct (sl_entry (slot_state slot)) as [e|].
  - destruct (now <? _)%Z; [by split; [|left]|]. destruct (within _ _ _).
    + destruct (Hstale c e) as (? & ? & ?). by split; [|left].
    + destruct (Hstale (note_failed source slot now (with_stats (count_fetch true) c)) e) as (Hb & Hsl & Hn).
      split; [done|]. right. rewrite Hn Hsl. done.
  - destruct (within _ _ _); [by split; [|left]|]. split; [done|]. by right.
Qed.

Lemma not_within f span now :
  (now < i64_max)%Z → within (Some f) span now = false → (f + span ≤ now)%Z.
Proof. unfold within, i64_saturating_add, i64_min, i64_max. lia. Qed.

Context (target : Target) (max_bytes : Z).

Definition dead (calls : list (Z * Net)) : Prop :=
  Forall (λ call, ∃ err, fetch_target max_bytes call.2 target = Err err) calls.

(** Calls in order of their times, the first not before [from], the last at [until]. *)
Fixpoint ordered_within (from until : Z) (calls : list (Z * Net)) : Prop :=
  match calls with
  | [] => True
  | call :: calls => (from ≤ call.1 ≤ until)%Z ∧ ordered_within call.1 until calls
  end.

Lemma ordered_earlier from from' until calls :
  (from' ≤ from)%Z → ordered_within from until calls → ordered_within from' until calls.
Proof. destruct calls as [|call calls]; [done|]. simpl. intros ? [? ?]. split; [lia|done]. Qed.

Lemma dead_after_failure until calls : ∀ c slot f,
  jc_slots c !! source = Some slot → slot_target slot = target → jc_max_bytes c = max_bytes →
  sl_failed_at_ms (slot_state slot) = Some f → (f ≤ until < i64_max)%Z → dead calls → ordered_within f until calls →
  (cs_fetches (jc_stats (run_keys calls c)) ≤ cs_fetches (jc_stats c) + (until - f) / FAILURE_BACKOFF_MS)%Z.
Proof.
  induction calls as [|[now net] calls IH]; intros c slot f Hs Ht Hb Hf Hu Hdead Hord.
  { simpl. assert (0 ≤ (until - f) / FAILURE_BACKOFF_MS)%Z by (apply Z.div_pos; unfold FAILURE_BACKOFF_MS; lia). lia. }
  apply Forall_cons in Hdead as [[err Herr] Hdead]. simpl in Herr, Hord. destruct Hord as [Hnow Hord].
  rewrite -Ht -Hb in Herr. destruct (cache_keys_dead c slot now net err Hs Herr) as [Hb' [[Hsl Hn]|Hfetch]];
    simpl in *.
  - rewrite -Hn. apply (IH _ slot); [by rewrite Hsl|done|congruence|done..|]. eapply ordered_earlier; [|done]. lia.
  - destruct Hfetch as (Hwithin & Hn & slot' & Hs' & Ht' & Hf'). rewrite Hf in Hwithin.
    apply not_within in Hwithin; [|lia]. etrans; [apply (IH _ slot' now); try done; [congruence..|lia]|].
    rewrite Hn. assert ((until - now) / FAILURE_BACKOFF_MS + 1 ≤ (until - f) / FAILURE_BACKOFF_MS)%Z; [|lia].
    rewrite -Z.div_add; [|done]. apply Z.div_le_mono; unfold FAILURE_BACKOFF_MS in *; lia.
Qed.

(** An outage costs one fetch per back-off window: however many lookups
    arrive, whether a stale copy answers them or none does, an issuer that cannot be
    reached is fetched at most once per thirty seconds of the outage and once more. *)
Theorem outage_costs_one_fetch_per_window (from until : Z) (calls : list (Z * Net)) (c : JwksCache) (slot : Slot) :
  jc_slots c !! source = Some slot → slot_target slot = target → jc_max_bytes c = max_bytes →
  (from ≤ until < i64_max)%Z → dead calls → ordered_within from until calls →
  (cs_fetches (jc_stats (run_keys calls c)) ≤
     cs_fetches (jc_stats c) + (until - from) / FAILURE_BACKOFF_MS + 1)%Z.
Proof.
  intros Hs Ht Hb Hu Hdead. revert c slot from Hs Ht Hb Hu.
  induction calls as [|[now net] calls IH]; intros c slot from Hs Ht Hb Hu Hord.
  { simpl. assert (0 ≤ (until - from) / FAILURE_BACKOFF_MS)%Z by (apply Z.div_pos; unfold FAILURE_BACKOFF_MS; lia). lia. }
  apply Forall_cons in Hdead as [[err Herr] Hdead]. simpl in Herr, Hord. destruct Hord as [Hnow Hord].
  rewrite -Ht -Hb in Herr. destruct (cache_keys_dead c slot now net err Hs Herr) as [Hb' [[Hsl Hn]|Hfetch]];
    simpl in *.
  - rewrite -Hn. apply (IH Hdead _ slot); [by rewrite Hsl|done|congruence|done|]. eapply ordered_earlier; [|done]. lia.
  - destruct Hfetch as (_ & Hn & slot' & Hs' & Ht' & Hf').
    etrans; [apply (dead_after_failure until calls _ slot' now); try done; [congruence..|lia]|].
    rewrite Hn. assert ((until - now) / FAILURE_BACKOFF_MS ≤ (until - from) / FAILURE_BACKOFF_MS)%Z; [|lia].
    apply Z.div_le_mono; unfold FAILURE_BACKOFF_MS; lia.
Qed.
End outage.

(** *** A concrete issuer *)

Module JwksExample.

Definition key1 : IssuerJwk := mkIssuerJwk "RSA" (Some "k1") None None None None None None None.

#[export] Instance plain_sdk : JwksSdk := {
  policy_check_url := λ _, true;
  url_is_https := λ _, true;
  discovery_from_slice := λ _, Some ("https://idp.test", "https://idp.test/jwks");
  jwks_from_slice := λ _, Some [VNull];
  issuer_jwk_from_value := λ _, Some key1
}.

Definition cfg1 : KeylessConfig :=
  mkKeylessConfig true 600 [mkOidcIssuer "https://idp.test" None] [] 300 600 5000 65536 10 30.

Definition up : Net := λ _, NetResponse 200 (Some "max-age=90") (Some [123%Z]).
Definition down : Net := λ _, NetFailed.
Definition idp : KeySource := SourceOidc "https://idp.test".

Definition warm : JwksCache := (cache_keys up 1000 idp (JwksCache_new cfg1)).2.

(** Served from a stale copy during an outage, and no longer than the window. *)
Example outage_serves_stale :
  map (λ now, (cache_keys down now idp warm).1) [2000; 91000; 690999; 691000; 900000]%Z =
    [Ok [key1]; Ok [key1]; Ok [key1]; Err tt; Err tt].
Proof. vm_compute. reflexivity. Qed.

Lemma jwks_answers_are_recent_witness :
  (cache_keys down 91000 idp warm).1 = Ok [key1] ∧
  served_at cfg1 [(91000%Z, down); (1000%Z, up)] idp [key1] 91000.
Proof.
  assert ((cache_keys down 91000 idp warm).1 = Ok [key1]) as Hserved by (vm_compute; reflexivity).
  split; [exact Hserved|].
  destruct (jwks_answers_are_recent cfg1 ltac:(simpl; lia) ltac:(simpl; lia) [(1000%Z, up)] warm idp 91000 down)
    as [Hkeys _].
  - apply cr_keys, cr_new.
  - intros t n Hin. apply list_elem_of_singleton in Hin. injection Hin as -> ->. lia.
  - exact (Hkeys [key1] Hserved).
Defined.
End JwksExample.
