(* ===== verification/KeylessToken.v ===== *)
(** * Workload tokens

    [acdp-registry-core/src/keyless/token.rs]: whether a workload token is one this
    registry accepts, for an identity, this registry and a key: the configured issuers,
    the JOSE header, the issuer's key, the signature, and the claims, in this order. The
    decoders of [jsonwebtoken], [base64] and [serde_json] and the SDK's descriptors are
    the class [TokenSdk]; the keys come from the cache of [Jwks]. *)

From S2P Require Import Prelude Text Errors RateLimit ContextTypes KeyAttestations EventReceipts SqliteStore Handlers KeylessPublish Jwks.

Open Scope registry_scope.
Open Scope handler_scope.

Definition CLOCK_SKEW_SECONDS : Z := 60.
Definition MIN_RSA_MODULUS_BYTES : nat := 256.

Definition OIDC_ALGS : list string := ["RS256"; "PS256"; "ES256"; "ES384"; "EdDSA"].

Definition SPIFFE_ALGS : list string :=
  ["RS256"; "RS384"; "RS512"; "PS256"; "PS384"; "PS512"; "ES256"; "ES384"].

(** [jsonwebtoken::Algorithm], the ones in the lists. *)
Inductive TokenAlgorithm : Type := RS256 | RS384 | RS512 | PS256 | PS384 | PS512 | ES256 | ES384 | EdDSA.

Definition algorithm (name : string) : TokenAlgorithm :=
  if bool_decide (name = "RS256") then RS256
  else if bool_decide (name = "RS384") then RS384
  else if bool_decide (name = "RS512") then RS512
  else if bool_decide (name = "PS256") then PS256
  else if bool_decide (name = "PS384") then PS384
  else if bool_decide (name = "PS512") then PS512
  else if bool_decide (name = "ES256") then ES256
  else if bool_decide (name = "ES384") then ES384
  else EdDSA.

Record VerifiedToken : Type := mkVerifiedToken { vt_exp : Z; vt_token_hash : string }.

Inductive Kind : Type := KindOidc | KindSpiffe.

#[export] Instance Kind_eq_dec : EqDecision Kind.
Proof. solve_decision. Defined.

(** [acdp::types::keyless::IdentityDescriptor]; [svid_type] is the SPIFFE document's. *)
Inductive IdentityDescriptor : Type :=
  | DescOidc (issuer subject token : string)
  | DescSpiffe (subject svid_type token : string).

Definition desc_token (d : IdentityDescriptor) : string :=
  match d with DescOidc _ _ t | DescSpiffe _ _ t => t end.

Definition desc_identity (d : IdentityDescriptor) : WorkloadIdentity :=
  match d with DescOidc i s _ => Oidc i s | DescSpiffe s _ _ => Spiffe s end.

Class TokenSdk : Type := {
  desc_validate : IdentityDescriptor → result unit string;
  spiffe_trust_domain : string → option string;
  token_hash : string → string;
  jwk_thumbprint : Jwk → result string string;
  token_b64_decode : string → option (list Z);
  (** A JSON object with its members. *)
  object_from_slice : list Z → option (list (string * Value));
  (** [Number::as_i64], and the floor of a finite [as_f64], saturated to [i64]. *)
  number_as_i64 : string → option Z;
  number_floor : string → option Z;
  DecodingKey : Type;
  from_rsa_components : string → string → option DecodingKey;
  from_ec_components : string → string → option DecodingKey;
  from_ed_components : string → option DecodingKey;
  (** The claims of a token whose signature verifies under the key and algorithm; no
      claim is checked. *)
  jwt_claims : string → DecodingKey → TokenAlgorithm → option (list (string * Value))
}.

(** A token's JOSE header, after its rules. *)
Record Header : Type := mkHeader { hd_alg : TokenAlgorithm; hd_alg_name : string; hd_kid : option string }.

Section token.
Context `{!TokenSdk}.

Definition member (m : list (string * Value)) (key : string) : option Value := value_get (VObject m) key.

(** ** The header *)

Definition malformed_header : KeylessRefusal := KR_TokenInvalid "malformed JOSE header".

Definition svid_header_rules (h : list (string * Value)) (kid : option string) : result unit KeylessRefusal :=
  if existsb (λ m, negb (bool_decide (m.1 ∈ ["alg"; "kid"; "typ"]))) h then
    Err (KR_TokenInvalid "JWT-SVID header holds more than alg, kid and typ")
  else if bool_decide (kid = None) then Err (KR_TokenInvalid "JWT-SVID has no kid")
  else match member h "typ" with
       | None => Ok tt
       | Some (VString t) =>
           if bool_decide (t = "JWT") || bool_decide (t = "JOSE") then Ok tt
           else Err (KR_TokenInvalid "JWT-SVID typ not JWT or JOSE")
       | Some _ => Err (KR_TokenInvalid "JWT-SVID typ not JWT or JOSE")
       end.

Definition allowed_algs (kind : Kind) : list string :=
  match kind with KindOidc => OIDC_ALGS | KindSpiffe => SPIFFE_ALGS end.

(** [Header::parse]. *)
Definition header_parse (token : string) (kind : Kind) : result Header KeylessRefusal :=
  let? b64 := ok_or (hd_error (split_char (Ascii.ascii_of_nat 46) token)) malformed_header in
  let? raw := ok_or (token_b64_decode b64) malformed_header in
  let? h := ok_or (object_from_slice raw) malformed_header in
  if bool_decide (is_Some (member h "crit")) then Err (KR_TokenInvalid "crit header not understood")
  else
    let? alg := match member h "alg" with Some (VString a) => Ok a | _ => Err malformed_header end in
    let? alg_name := ok_or (List.find (λ a, bool_decide (a = alg)) (allowed_algs kind))
                       (KR_TokenInvalid "alg not accepted") in
    let? kid := match member h "kid" with
                | None => Ok None
                | Some (VString k) => Ok (Some k)
                | Some _ => Err malformed_header
                end in
    let? _ := match kind with KindSpiffe => svid_header_rules h kid | KindOidc => Ok tt end in
    Ok (mkHeader (algorithm alg_name) alg_name kid).

(** ** The key *)

Inductive Selected : Type := SelectedOne (key : IssuerJwk) | SelectedNone | SelectedAmbiguous.

Definition is_candidate (kind : Kind) (k : IssuerJwk) : bool :=
  negb (bool_decide (ij_kty k = "oct")) &&
  match kind with
  | KindOidc => match ij_use k with None => true | Some u => bool_decide (u = "sig") end
  | KindSpiffe => bool_decide (ij_use k = Some "jwt-svid")
  end.

Definition select_key (keys : KeySet) (header : Header) (kind : Kind) : Selected :=
  let candidates := List.filter (is_candidate kind) keys in
  let matching := match hd_kid header with
                  | Some kid => List.filter (λ k, bool_decide (ij_kid k = Some kid)) candidates
                  | None => candidates
                  end in
  match matching with
  | [] => SelectedNone
  | [k] => SelectedOne k
  | _ => if bool_decide (is_Some (hd_kid header)) then SelectedAmbiguous else SelectedNone
  end.

Definition misfit : KeylessRefusal := KR_TokenInvalid "key does not fit alg".

Fixpoint skip_zeros (l : list Z) : list Z :=
  match l with b :: l' => if (b =? 0)%Z then skip_zeros l' else l | [] => [] end.

Definition zip_options {A B} (a : option A) (b : option B) : option (A * B) :=
  match a, b with Some a, Some b => Some (a, b) | _, _ => None end.

Definition ec_key (key : IssuerJwk) : result (option DecodingKey) KeylessRefusal :=
  let? xy := ok_or (zip_options (ij_x key) (ij_y key)) misfit in
  Ok (from_ec_components xy.1 xy.2).

Definition rsa_key (key : IssuerJwk) : result (option DecodingKey) KeylessRefusal :=
  let? ne := ok_or (zip_options (ij_n key) (ij_e key)) misfit in
  let? modulus := ok_or (token_b64_decode ne.1) misfit in
  if (length (skip_zeros modulus) <? MIN_RSA_MODULUS_BYTES)%nat then
    Err (KR_TokenInvalid "RSA key shorter than 2048 bits")
  else Ok (from_rsa_components ne.1 ne.2).

Definition is_rsa_alg (name : string) : bool :=
  bool_decide (name ∈ ["RS256"; "RS384"; "RS512"; "PS256"; "PS384"; "PS512"]).

Definition decoding_key (key : IssuerJwk) (header : Header) : result DecodingKey KeylessRefusal :=
  if match ij_alg key with Some a => negb (bool_decide (a = hd_alg_name header)) | None => false end then
    Err misfit
  else
    let crv := ij_crv key in
    let alg := hd_alg_name header in
    let kty := ij_kty key in
    let? got :=
      if is_rsa_alg alg && bool_decide (kty = "RSA") then rsa_key key
      else if bool_decide (alg = "ES256") && bool_decide (kty = "EC") && bool_decide (crv = Some "P-256")
      then ec_key key
      else if bool_decide (alg = "ES384") && bool_decide (kty = "EC") && bool_decide (crv = Some "P-384")
      then ec_key key
      else if bool_decide (alg = "EdDSA") && bool_decide (kty = "OKP") && bool_decide (crv = Some "Ed25519")
      then (let? x := ok_or (ij_x key) misfit in Ok (from_ed_components x))
      else Err misfit in
    ok_or got misfit.

(** ** The claims *)

Definition numeric (v : option Value) : option Z :=
  match v with
  | Some (VNumber n) => match number_as_i64 n with Some z => Some z | None => number_floor n end
  | _ => None
  end.

Definition not_ahead (claims : list (string * Value)) (now : Z) (name why : string) : result unit KeylessRefusal :=
  match member claims name with
  | None => Ok tt
  | Some v =>
      match numeric (Some v) with
      | Some t => if (t <=? i64_saturating_add now CLOCK_SKEW_SECONDS)%Z then Ok tt else Err (KR_TokenInvalid why)
      | None => Err (KR_TokenInvalid "iat or nbf is not a NumericDate")
      end
  end.

Definition is_text (v : option Value) (s : string) : bool :=
  match v with Some (VString t) => bool_decide (t = s) | _ => false end.

Definition audience_ok (claims : list (string * Value)) (registry_did : string) : bool :=
  match member claims "aud" with
  | Some (VString a) => bool_decide (a = registry_did)
  | Some (VArray l) => existsb (λ v, is_text (Some v) registry_did) l
  | _ => false
  end.

Definition confirmation (claims : list (string * Value)) (jwk : Jwk) : result unit KeylessRefusal :=
  match member claims "cnf" with
  | None => Ok tt
  | Some (VObject cnf) =>
      match member cnf "jkt" with
      | None => Ok tt
      | Some (VString jkt) =>
          let? thumb := map_err KR_SchemaViolation (jwk_thumbprint jwk) in
          if bool_decide (jkt = thumb) then Ok tt else Err KR_ConfirmationMismatch
      | Some _ => Err KR_ConfirmationMismatch
      end
  | Some _ => Err KR_ConfirmationMismatch
  end.

Definition check_claims (claims : list (string * Value)) (expected_iss : option string) (subject registry_did : string)
    (jwk : Jwk) (now : Z) : result Z KeylessRefusal :=
  let? exp := ok_or (numeric (member claims "exp")) (KR_TokenInvalid "exp missing") in
  if (exp <=? now)%Z then Err (KR_TokenInvalid "expired")
  else
    let? _ := not_ahead claims now "iat" "iat in the future" in
    let? _ := not_ahead claims now "nbf" "nbf in the future" in
    let? _ := match expected_iss with
              | Some iss => if is_text (member claims "iss") iss then Ok tt
                            else Err (KR_TokenInvalid "iss mismatch")
              | None => Ok tt
              end in
    if negb (is_text (member claims "sub") subject) then Err (KR_TokenInvalid "sub mismatch")
    else if negb (audience_ok claims registry_did) then Err KR_AudienceMismatch
    else
      let? _ := confirmation claims jwk in
      Ok exp.

(** ** The verifier *)

(** Who may have signed a token: its kind, where the keys are, the [iss] it must carry and
    its subject. *)
Record Acceptance : Type := mkAcceptance {
  ac_kind : Kind;
  ac_source : KeySource;
  ac_expected_iss : option string;
  ac_subject : string
}.

Definition accept_issuer (cfg : KeylessConfig) (identity : IdentityDescriptor) : result Acceptance KeylessRefusal :=
  match identity with
  | DescOidc issuer subject _ =>
      let? o := ok_or (List.find (λ o, bool_decide (oi_issuer o = issuer)) (kc_oidc_issuers cfg))
                  KR_IssuerNotAccepted in
      Ok (mkAcceptance KindOidc (SourceOidc (oi_issuer o)) (Some (oi_issuer o)) subject)
  | DescSpiffe subject _ _ =>
      let? domain := ok_or (spiffe_trust_domain subject)
                       (KR_SchemaViolation "identity.subject is not a SPIFFE ID") in
      let? d := ok_or (List.find (λ d, bool_decide (sd_trust_domain d = domain)) (kc_spiffe_trust_domains cfg))
                  KR_IssuerNotAccepted in
      Ok (mkAcceptance KindSpiffe (SourceSpiffe (sd_trust_domain d)) (sd_jwt_issuer d) subject)
  end.

Definition one_key (s : Selected) (none : string) : result IssuerJwk KeylessRefusal :=
  match s with
  | SelectedOne k => Ok k
  | SelectedAmbiguous => Err (KR_TokenInvalid "kid matches more than one key")
  | SelectedNone => Err (KR_TokenInvalid none)
  end.
End token.

(** A shared state that holds the process's cache. *)
Class HasJwks (S : Type) : Type := {
  jwks_of : S → JwksCache;
  set_jwks : JwksCache → S → S
}.

(** The clock and the network at the two calls of the cache. *)
Record VerifyEnv : Type := mkVerifyEnv {
  ve_keys_ms : Z;
  ve_keys_net : Net;
  ve_refresh_ms : Z;
  ve_refresh_net : Net
}.

Section verify.
Context {S : Type} `{!HasJwks S} `{!TokenSdk} `{!JwksSdk}.

(** A refusal in front of a rest: the handler maps every one by [into_error]. *)
Definition refusing {T} (r : result T KeylessRefusal) : H S T := hlift (map_err refusal_into_error r).

(** A call of the cache, whose error is [IssuerUnreachable]. *)
Definition cached {T} (f : JwksCache → result T unit * JwksCache) : H S T :=
  hasync (λ h, let '(r, c) := f (jwks_of (hs_store h)) in
               (Done (map_err (λ _, refusal_into_error KR_IssuerUnreachable) r),
                with_store (set_jwks c (hs_store h)) h)).

(** The issuer's key for a header, with one forced refetch for an unknown [kid]. *)
Definition issuer_key (env : VerifyEnv) (acc : Acceptance) (header : Header) : H S IssuerJwk :=
  let! keys := cached (cache_keys (ve_keys_net env) (ve_keys_ms env) (ac_source acc)) in
  match select_key keys header (ac_kind acc) with
  | SelectedNone =>
      if bool_decide (is_Some (hd_kid header)) then
        let! refreshed :=
          cached (refresh_for_unknown_kid (ve_refresh_net env) (ve_refresh_ms env) (ac_source acc)) in
        let! keys := refusing (ok_or refreshed (KR_TokenInvalid "unknown kid")) in
        refusing (one_key (select_key keys header (ac_kind acc)) "unknown kid")
      else refusing (Err (KR_TokenInvalid "no kid and not exactly one usable key"))
  | s => refusing (one_key s "unknown kid")
  end.

(** [verify], with its refusals as the errors the handler makes of them. *)
Definition verify (cfg : KeylessConfig) (env : VerifyEnv) (identity : IdentityDescriptor) (registry_did : string)
    (jwk : Jwk) (now : Z) : H S VerifiedToken :=
  let! _ := refusing (map_err KR_SchemaViolation (desc_validate identity)) in
  let! acc := refusing (accept_issuer cfg identity) in
  let token := desc_token identity in
  let! header := refusing (header_parse token (ac_kind acc)) in
  let! key := issuer_key env acc header in
  let! decoding := refusing (decoding_key key header) in
  let! claims := refusing (ok_or (jwt_claims token decoding (hd_alg header))
                             (KR_TokenInvalid "signature does not verify")) in
  let! exp := refusing (check_claims claims (ac_expected_iss acc) (ac_subject acc) registry_did jwk now) in
  hret (mkVerifiedToken exp (token_hash token)).
End verify.

(** ** What a verified token is *)

Section token_facts.
Context `{!TokenSdk}.

(** The key type an algorithm needs. *)
Definition key_fits (key : IssuerJwk) (alg : string) : Prop :=
  (ij_alg key = None ∨ ij_alg key = Some alg) ∧
  (is_rsa_alg alg = true ∧ ij_kty key = "RSA" ∧
     (∃ n modulus, ij_n key = Some n ∧ token_b64_decode n = Some modulus ∧
        (MIN_RSA_MODULUS_BYTES ≤ length (skip_zeros modulus))%nat) ∨
   alg = "ES256" ∧ ij_kty key = "EC" ∧ ij_crv key = Some "P-256" ∨
   alg = "ES384" ∧ ij_kty key = "EC" ∧ ij_crv key = Some "P-384" ∨
   alg = "EdDSA" ∧ ij_kty key = "OKP" ∧ ij_crv key = Some "Ed25519").

Lemma zip_options_ok {A B} (a : option A) (b : option B) p :
  zip_options a b = Some p → a = Some p.1 ∧ b = Some p.2.
Proof. destruct a, b; intros [= <-]; done. Qed.

Lemma decoding_key_fits key header dk :
  decoding_key key header = Ok dk → key_fits key (hd_alg_name header).
Proof.
  unfold decoding_key, key_fits.
  destruct (match ij_alg key with Some _ => _ | None => _ end) eqn:Halg; [done|]. intros Hok. split.
  { destruct (ij_alg key) as [a|]; [|by left]. right. by apply negb_false_iff, bool_decide_eq_true in Halg as ->. }
  destruct (is_rsa_alg _ && _) eqn:H1; bool_to_prop.
  { left. destruct (rsa_key key) as [got|] eqn:Hr; [|done]. unfold rsa_key in Hr.
    destruct (zip_options _ _) as [ne|] eqn:Hz; [|done]. apply zip_options_ok in Hz as [Hn _]. simpl in Hr.
    destruct (token_b64_decode ne.1) as [modulus|] eqn:Hm; [|done]. simpl in Hr.
    destruct (_ <? _)%nat eqn:Hlen; [done|]. apply Nat.ltb_ge in Hlen. split_and!; [naive_solver..|]. eauto. }
  right. destruct (_ && _ && _) eqn:H2; bool_to_prop; [left; naive_solver|]. right.
  destruct (_ && _ && _) eqn:H3; bool_to_prop; [left; naive_solver|]. right.
  destruct (_ && _ && _) eqn:H4; bool_to_prop; [naive_solver|done].
Qed.

Lemma find_in {A} (f : A → bool) l x : List.find f l = Some x → x ∈ l ∧ f x = true.
Proof. intros [Hin Hf]%List.find_some. by rewrite list_elem_of_In. Qed.

Lemma header_parse_allowed token kind header :
  header_parse token kind = Ok header →
  hd_alg_name header ∈ allowed_algs kind ∧ hd_alg header = algorithm (hd_alg_name header) ∧
  (kind = KindSpiffe → is_Some (hd_kid header)).
Proof.
  unfold header_parse. intros Hok. inv_ok. destruct (bool_decide _); [done|]. inv_ok. simpl.
  match goal with H : ok_or (List.find _ _) _ = Ok _ |- _ => apply ok_or_ok, find_in in H as [Hin _] end.
  split_and!; [done..|]. intros ->.
  match goal with H : svid_header_rules _ ?k = Ok _ |- _ => unfold svid_header_rules in H; destruct k; [done|] end.
  destruct (existsb _ _); [done|]. by rewrite bool_decide_true in Heqr5.
Qed.

Lemma select_key_one keys header kind key :
  select_key keys header kind = SelectedOne key →
  key ∈ keys ∧ is_candidate kind key = true ∧ (∀ kid, hd_kid header = Some kid → ij_kid key = Some kid).
Proof.
  unfold select_key. set (cand := List.filter (is_candidate kind) keys).
  set (m := match hd_kid header with Some _ => _ | None => _ end). intros Hsel.
  assert (key ∈ m) as Hin.
  { destruct m as [|k [|k' m']]; [done| |by destruct (bool_decide _)]. injection Hsel as ->. by left. }
  assert (∀ k, k ∈ cand → k ∈ keys ∧ is_candidate kind k = true) as Hcand.
  { intros k. unfold cand. by rewrite !list_elem_of_In filter_In. }
  subst m. destruct (hd_kid header) as [kid|]; [|by destruct (Hcand _ Hin)].
  apply list_elem_of_In, filter_In in Hin as [Hin%list_elem_of_In Hkid%bool_decide_eq_true].
  destruct (Hcand _ Hin). split_and!; [done..|]. congruence.
Qed.

(** The rules on the claims of an accepted token. *)
Record claims_accepted (claims : list (string * Value)) (expected_iss : option string) (subject registry_did : string)
    (jwk : Jwk) (now exp : Z) : Prop := {
  ca_exp : numeric (member claims "exp") = Some exp ∧ (now < exp)%Z;
  ca_not_ahead name v : name = "iat" ∨ name = "nbf" → member claims name = Some v →
    ∃ t, numeric (Some v) = Some t ∧ (t ≤ i64_saturating_add now CLOCK_SKEW_SECONDS)%Z;
  ca_iss iss : expected_iss = Some iss → member claims "iss" = Some (VString iss);
  ca_sub : member claims "sub" = Some (VString subject);
  ca_aud : member claims "aud" = Some (VString registry_did) ∨
    ∃ l, member claims "aud" = Some (VArray l) ∧ VString registry_did ∈ l;
  ca_cnf cnf jkt : member claims "cnf" = Some cnf → value_get cnf "jkt" = Some jkt →
    ∃ thumb, jwk_thumbprint jwk = Ok thumb ∧ jkt = VString thumb
}.

Lemma is_text_ok v t : is_text v t = true → v = Some (VString t).
Proof. destruct v as [[]|]; simpl; try done. by intros ->%bool_decide_eq_true. Qed.

Lemma not_ahead_ok claims now name why u v :
  not_ahead claims now name why = Ok u → member claims name = Some v →
  ∃ t, numeric (Some v) = Some t ∧ (t ≤ i64_saturating_add now CLOCK_SKEW_SECONDS)%Z.
Proof.
  unfold not_ahead. intros Hok Hm. rewrite Hm in Hok. destruct (numeric (Some v)) as [t|]; [|done].
  exists t. split; [done|]. destruct (_ <=? _)%Z eqn:Hle; [lia|done].
Qed.

Lemma check_claims_ok claims iss subject did jwk now exp :
  check_claims claims iss subject did jwk now = Ok exp → claims_accepted claims iss subject did jwk now exp.
Proof.
  unfold check_claims. intros Hok. inv_ok. apply ok_or_ok in Heqr.
  destruct (_ <=? _)%Z eqn:Hexp; [done|]. inv_ok.
  destruct (is_text (member claims "sub") subject) eqn:Hsub; [|done].
  destruct (audience_ok claims did) eqn:Haud; [|done]. simpl in Hok. inv_ok. split.
  - split; [done|lia].
  - intros name v [->| ->]; eapply not_ahead_ok; done.
  - intros i ->. destruct (is_text _ i) eqn:Hi; [|done]. by apply is_text_ok.
  - by apply is_text_ok.
  - unfold audience_ok in Haud. destruct (member claims "aud") as [[]|]; try done.
    + left. by apply bool_decide_eq_true in Haud as ->.
    + right. exists items. split; [done|]. apply existsb_exists in Haud as (v & Hin & [= ->]%is_text_ok).
      by apply list_elem_of_In.
  - intros cnf jkt Hcnf Hjkt. unfold confirmation in *. rewrite Hcnf in Heqr3. destruct cnf; try done.
    unfold member in Heqr3. rewrite Hjkt in Heqr3. destruct jkt; try done. inv_ok.
    apply map_err_ok in Heqr4. case_bool_decide; [|done]. subst. eauto.
Qed.
End token_facts.

Section verified.
Context {S : Type} `{!HasJwks S} `{!TokenSdk} `{!JwksSdk}.
Context (cfg : KeylessConfig) (Httl : (0 ≤ kc_jwks_cache_ttl_seconds cfg)%Z)
  (Hmax_stale : (0 ≤ kc_jwks_max_stale_seconds cfg)%Z).
Context (set_get : ∀ c s, jwks_of (set_jwks c s) = c).

(** [web t net]: the server calls the cache at [t] and meets the network [net]. *)
Context (web : Z → Net → Prop).

Definition heard (hist : list (Z * Net)) : Prop := ∀ t net, (t, net) ∈ hist → (0 ≤ t)%Z ∧ web t net.

(** The cache is one of [cfg]'s, after some of those calls. *)
Definition jwks_ok (s : S) : Prop := ∃ hist, cache_reach cfg hist (jwks_of s) ∧ heard hist.

(** [keys] are what [source]'s configured target answered on a network the server met,
    not longer before [now] than copies are kept. *)
Definition issuer_served (source : KeySource) (keys : KeySet) (now : Z) : Prop :=
  ∃ at_ net slot max_age, web at_ net ∧ jc_slots (JwksCache_new cfg) !! source = Some slot ∧
    fetch_target (jc_max_bytes (JwksCache_new cfg)) net (slot_target slot) = Ok (keys, max_age) ∧
    (now < at_ + max_age_ms cfg)%Z ∧ ((∀ t net', web t net' → t ≤ now)%Z → (at_ ≤ now)%Z).

Lemma heard_clock hist : heard hist → clock_nonneg hist.
Proof. intros Hh t net Hin. by destruct (Hh t net Hin). Qed.

Lemma heard_cons hist now net : (0 ≤ now)%Z → web now net → heard hist → heard ((now, net) :: hist).
Proof. intros Hn Hw Hh t n [[= -> ->]|Hin]%elem_of_cons; [done|by apply Hh]. Qed.

Lemma heard_served hist source keys now :
  heard hist → served_at cfg hist source keys now → issuer_served source keys now.
Proof.
  intros Hh (f & (net & slot & max_age & Hin & Hslot & Hfetch) & Hage & Hord).
  exists f, net, slot, max_age. split_and!; [by apply Hh|done..|].
  intros Hweb. apply Hord. intros t n Ht. by apply (Hweb t n), Hh.
Qed.

(** A token accepted for an identity, with the key that signed it. *)
Definition token_accepted (env : VerifyEnv) (identity : IdentityDescriptor) (registry_did : string) (jwk : Jwk)
    (now : Z) (v : VerifiedToken) : Prop :=
  ∃ acc header keys key dk claims,
    accept_issuer cfg identity = Ok acc ∧
    header_parse (desc_token identity) (ac_kind acc) = Ok header ∧
    hd_alg_name header ∈ allowed_algs (ac_kind acc) ∧
    (issuer_served (ac_source acc) keys (ve_keys_ms env) ∨ issuer_served (ac_source acc) keys (ve_refresh_ms env)) ∧
    key ∈ keys ∧ is_candidate (ac_kind acc) key = true ∧
    (∀ kid, hd_kid header = Some kid → ij_kid key = Some kid) ∧
    key_fits key (hd_alg_name header) ∧ decoding_key key header = Ok dk ∧
    jwt_claims (desc_token identity) dk (hd_alg header) = Some claims ∧
    claims_accepted claims (ac_expected_iss acc) (ac_subject acc) registry_did jwk now (vt_exp v) ∧
    vt_token_hash v = token_hash (desc_token identity).

(** [J] is what else is known of the shared state; the cache is no part of it. *)
Context (J : S → Prop) (J_frame : ∀ c s, J s → J (set_jwks c s)).

Definition token_inv (s : S) : Prop := jwks_ok s ∧ J s.

Notation Inv := (λ h : HState S, token_inv (hs_store h)).

(** A computation that keeps the invariant, with what its answers are. *)
Definition keeps {T} (m : H S T) (Q : T → Prop) : Prop :=
  htriple token_inv Inv m (λ r h, Inv h ∧ ∀ v, r = HOk v → Q v).

Lemma keeps_bind {T U} (m : H S T) (k : T → H S U) P Q :
  keeps m P → (∀ v, P v → keeps (k v) Q) → keeps (hbind m k) Q.
Proof.
  intros Hm Hk. apply (htriple_bind token_inv _ _ _ (λ v h, P v ∧ Inv h)).
  - eapply htriple_weaken; [exact Hm|done|]. intros [] h [Hi HP]; simpl; auto; by split.
  - intros v aw h Haw [Hv Hh]. by apply Hk.
Qed.

Lemma keeps_ret {T} (v : T) (Q : T → Prop) : Q v → keeps (hret v) Q.
Proof. intros HQ. apply htriple_ret. intros h Hh. split; [done|]. by intros ? [= <-]. Qed.

Lemma keeps_refusing {T} (r : result T KeylessRefusal) : keeps (refusing r) (λ v, r = Ok v).
Proof.
  apply htriple_lift. intros h Hh. destruct r; simpl; (split; [done|]); [by intros ? [= <-]|done].
Qed.

Lemma keeps_cached {T} (f : JwksCache → result T unit * JwksCache) now net :
  (∀ hist c, cache_reach cfg hist c → cache_reach cfg ((now, net) :: hist) (f c).2) → (0 ≤ now)%Z → web now net →
  keeps (cached f) (λ v, ∃ hist c, cache_reach cfg hist c ∧ heard hist ∧ (f c).1 = Ok v).
Proof.
  intros Hf Hnow Hweb. apply htriple_awaited. intros o h Ho Hh. apply Ho in Hh as [(hist & Hreach & Hclock) HJ].
  specialize (Hf hist _ Hreach). cbn [hs_store with_store].
  destruct (f (jwks_of (o (hs_store h)))) as [r c] eqn:Hfc. cbn [hs_store with_store].
  assert (token_inv (set_jwks c (o (hs_store h)))) as Hinv.
  { split; [|by apply J_frame]. exists ((now, net) :: hist). rewrite set_get. split; [done|].
    by apply heard_cons. }
  split; [done|]. destruct r as [v|]; simpl; [|done]. split; [done|]. intros ? [= <-].
  exists hist, (jwks_of (o (hs_store h))). by rewrite Hfc.
Qed.

(** The calls of a request are among the server's. *)
Definition calls_in_web (env : VerifyEnv) : Prop :=
  ((0 ≤ ve_keys_ms env)%Z ∧ web (ve_keys_ms env) (ve_keys_net env)) ∧
  ((0 ≤ ve_refresh_ms env)%Z ∧ web (ve_refresh_ms env) (ve_refresh_net env)).

Lemma issuer_key_spec env acc header :
  calls_in_web env →
  keeps (issuer_key env acc header) (λ key, ∃ keys,
    (issuer_served (ac_source acc) keys (ve_keys_ms env) ∨ issuer_served (ac_source acc) keys (ve_refresh_ms env)) ∧
    select_key keys header (ac_kind acc) = SelectedOne key).
Proof.
  intros [[Hk Hkw] [Hr Hrw]]. unfold issuer_key. eapply keeps_bind.
  { eapply (keeps_cached _ (ve_keys_ms env) (ve_keys_net env)); [|done..]. intros. by apply cr_keys. }
  intros keys (hist & c & Hreach & Hclock & Hkeys). cbn beta in Hkeys.
  assert (issuer_served (ac_source acc) keys (ve_keys_ms env)) as Hserved.
  { apply (heard_served ((ve_keys_ms env, ve_keys_net env) :: hist)); [by apply heard_cons|].
    eapply cache_keys_served; try done; [by apply cache_reach_inv|by apply heard_clock]. }
  assert (∀ sel none, select_key keys header (ac_kind acc) = sel →
    keeps (refusing (one_key sel none)) (λ key, ∃ keys,
      (issuer_served (ac_source acc) keys (ve_keys_ms env) ∨ issuer_served (ac_source acc) keys (ve_refresh_ms env)) ∧
      select_key keys header (ac_kind acc) = SelectedOne key)) as Hone.
  { intros sel none Hsel. eapply htriple_weaken; [apply keeps_refusing|done|]. intros r h [Hi Hok].
    split; [done|]. intros key ->. specialize (Hok key eq_refl). exists keys. split; [by left|].
    rewrite Hsel. destruct sel; simpl in Hok; congruence. }
  destruct (select_key keys header (ac_kind acc)) eqn:Hsel; [by apply Hone| |by apply Hone].
  destruct (bool_decide _); cycle 1.
  { eapply htriple_weaken; [apply keeps_refusing|done|]. intros r h [Hi Hok]. split; [done|].
    intros key ->. by specialize (Hok key eq_refl). }
  eapply keeps_bind.
  { eapply (keeps_cached _ (ve_refresh_ms env) (ve_refresh_net env)); [|done..]. intros. by apply cr_refresh. }
  intros refreshed (hist' & c' & Hreach' & Hclock' & Hkeys').
  eapply keeps_bind; [apply keeps_refusing|]. intros keys' Hk'%ok_or_ok. subst refreshed.
  eapply htriple_weaken; [apply keeps_refusing|done|]. intros r h [Hi Hok]. split; [done|].
  intros key ->. specialize (Hok key eq_refl). exists keys'. split.
  - right. apply (heard_served ((ve_refresh_ms env, ve_refresh_net env) :: hist')); [by apply heard_cons|].
    exists (ve_refresh_ms env). split.
    { eapply refresh_served; try done. by apply cache_reach_inv. }
    pose proof (secs_to_ms_nonneg _ Hmax_stale). unfold max_age_ms, MAX_TTL_SECONDS. lia.
  - destruct (select_key keys' header (ac_kind acc)); simpl in Hok; congruence.
Qed.

Lemma verify_spec env identity registry_did jwk now :
  calls_in_web env →
  keeps (verify cfg env identity registry_did jwk now) (token_accepted env identity registry_did jwk now).
Proof.
  intros Hcalls. unfold verify. eapply keeps_bind; [apply keeps_refusing|]. intros _ _.
  eapply keeps_bind; [apply keeps_refusing|]. intros acc Hacc.
  eapply keeps_bind; [apply keeps_refusing|]. intros header Hheader.
  eapply keeps_bind; [by apply issuer_key_spec|]. intros key (keys & Hserved & Hsel).
  eapply keeps_bind; [apply keeps_refusing|]. intros dk Hdk.
  eapply keeps_bind; [apply keeps_refusing|]. intros claims Hclaims%ok_or_ok.
  eapply keeps_bind; [apply keeps_refusing|]. intros exp Hexp%check_claims_ok.
  apply keeps_ret. pose proof (header_parse_allowed _ _ _ Hheader) as (Hallowed & _ & _).
  apply select_key_one in Hsel as (Hin & Hcand & Hkid). pose proof (decoding_key_fits _ _ _ Hdk) as Hfits.
  exists acc, header, keys, key, dk, claims. split_and!; try done; apply Hfits.
Qed.
End verified.
