(* ===== verification/HttpForms.v ===== *)
(** * Requests as they arrive

    [acdp-registry-core/src/extract.rs]: the media types and bodies the handlers accept
    and how a rejection is answered; [accept_encoding.rs]: the content coding offered
    for [GET /changes]. Header values are [None] where they are not visible ASCII. *)

From Stdlib Require Import Permutation.
From S2P Require Import Prelude Text Errors ReadGate Jwks.

Open Scope registry_scope.

(** ** Rejections *)

Record AcdpRejection : Type := mkRejection {
  rj_status : Z;
  rj_code : string;
  rj_message : string
}.

(** [into_response]: the envelope carries no details. *)
Definition rejection_body (r : AcdpRejection) : WireErrorBody := mkWireError (rj_code r) (rj_message r) None.

Definition status_for_code (code : string) (fallback : Z) : Z :=
  if bool_decide (code = "schema_violation") then 400%Z
  else if bool_decide (code = "unsupported_media_type") then 415%Z
  else if bool_decide (code = "payload_too_large") then 413%Z
  else fallback.

(** [axum]'s rejections, with the status each carries. *)
Inductive JsonRejection : Type :=
  | MissingJsonContentType (status : Z)
  | JsonDataError (status : Z)
  | JsonSyntaxError (status : Z)
  | BytesRejection (status : Z)
  | OtherJsonRejection (status : Z).

Definition json_status (r : JsonRejection) : Z :=
  match r with
  | MissingJsonContentType s | JsonDataError s | JsonSyntaxError s | BytesRejection s | OtherJsonRejection s => s
  end.

Definition json_code (r : JsonRejection) : string :=
  match r with
  | MissingJsonContentType _ => "unsupported_media_type"
  | JsonDataError _ | JsonSyntaxError _ => "schema_violation"
  | BytesRejection _ => "payload_too_large"
  | OtherJsonRejection _ => "schema_violation"
  end.

Definition json_message (r : JsonRejection) : string :=
  match r with
  | JsonSyntaxError _ => "request body is not valid JSON"
  | JsonDataError _ => "request body does not match the schema for this endpoint"
  | MissingJsonContentType _ => "Expected request with `Content-Type: application/json`"
  | BytesRejection _ => "request body exceeds the configured limit"
  | OtherJsonRejection _ => "request body could not be read"
  end.

(** [AcdpJson::from_request], over what [axum::Json] answers. *)
Definition acdp_json {T} (r : result T JsonRejection) : result T AcdpRejection :=
  map_err (λ rej, mkRejection (status_for_code (json_code rej) (json_status rej)) (json_code rej) (json_message rej)) r.

(** [AcdpQuery::from_request_parts], over the status of [axum]'s rejection. *)
Definition acdp_query {T} (r : result T Z) : result T AcdpRejection :=
  map_err (λ status, mkRejection status "schema_violation" "invalid query string") r.

(** ** Media types *)

Definition ends_with (s suffix : string) : bool := bool_decide (as_bytes suffix `suffix_of` as_bytes s).

Definition semicolon : Ascii.ascii := Ascii.ascii_of_nat 59.

(** [media_type_accepted], on the first [Content-Type] header. *)
Definition media_type_accepted (content_type : option (option string)) : bool :=
  match content_type with
  | None => true
  | Some None => false
  | Some (Some value) =>
      let essence := to_ascii_lowercase (trim (default "" (hd_error (split_char semicolon value)))) in
      match strip_prefix "application/" essence with
      | None => false
      | Some subtype => bool_decide (subtype = "json") || ends_with subtype "+json"
      end
  end.

Example media_types :
  map (λ v, media_type_accepted (Some (Some v)))
    ["application/json"; "application/acdp+json; charset=utf-8"; "Application/ACDP+JSON"; "text/json"; "application/xml"] =
    [true; true; true; false; false].
Proof. vm_compute. reflexivity. Qed.

(** [AcdpBytes::from_request], over the body [axum] reads or the status it rejects with. *)
Definition acdp_bytes (content_type : option (option string)) (body : result (list Z) Z) :
    result (list Z) AcdpRejection :=
  if negb (media_type_accepted content_type) then
    Err (mkRejection (status_for_code "unsupported_media_type" 415%Z) "unsupported_media_type"
           "Expected request with `Content-Type: application/json`")
  else map_err (λ status, mkRejection (status_for_code "payload_too_large" status) "payload_too_large"
                            "request body exceeds the configured limit") body.

(** A rejected request is answered with a status its code determines:
    whatever status [axum] chose, a [schema_violation] of a body is a 400, a media type a 415,
    a body over the limit a 413, and no other code is sent. *)
Theorem rejections_follow_the_table {T} (j : result T JsonRejection) (content_type : option (option string))
    (body : result (list Z) Z) (r : AcdpRejection) :
  acdp_json j = Err r ∨ acdp_bytes content_type body = Err r →
  (rj_code r, rj_status r) ∈
    [("schema_violation", 400%Z); ("unsupported_media_type", 415%Z); ("payload_too_large", 413%Z)].
Proof.
  intros [Hj|Hb].
  - destruct j as [|[]]; [done|..]; injection Hj as <-; set_solver.
  - unfold acdp_bytes in Hb. destruct (media_type_accepted _); [|injection Hb as <-; set_solver].
    destruct body; [done|]. injection Hb as <-. set_solver.
Qed.

(** ** Content coding *)

Definition dot : Ascii.ascii := Ascii.ascii_of_nat 46.
Definition equals_sign : Ascii.ascii := Ascii.ascii_of_nat 61.

Definition is_ascii_digit (b : Z) : bool := ((48 <=? b) && (b <=? 57))%Z.

(** The fraction in thousandths, by place. *)
Fixpoint thousandths (weights : list Z) (frac : list Z) : Z :=
  match weights, frac with
  | w :: weights, b :: frac => ((b - 48) * w + thousandths weights frac)%Z
  | _, _ => 0%Z
  end.

Definition parse_qvalue (s : string) : option Z :=
  let '(int, frac) := default (s, "") (split_at_char dot s) in
  let digits := as_bytes frac in
  if (3 <? length digits)%nat || negb (forallb is_ascii_digit digits) then None
  else
    let q := thousandths [100; 10; 1]%Z digits in
    if bool_decide (int = "0") then Some q
    else if bool_decide (int = "1") && (q =? 0)%Z then Some 1000%Z
    else None.

Fixpoint parse_params (q : Z) (params : list string) : option Z :=
  match params with
  | [] => Some q
  | p :: params =>
      match split_at_char equals_sign p with
      | None => None
      | Some (name, value) =>
          if eq_ignore_ascii_case (trim name) "q" then
            match parse_qvalue (trim value) with
            | Some q => parse_params q params
            | None => None
            end
          else parse_params q params
      end
  end.

(** [parse_member]: the coding and its weight. *)
Definition parse_member (m : string) : option (string * Z) :=
  match split_char semicolon m with
  | [] => None
  | coding :: params =>
      let coding := trim coding in
      if bool_decide (coding = "") then None
      else (λ q, (coding, q)) <$> parse_params 1000%Z params
  end.

Definition max_seen (slot : option Z) (q : Z) : option Z :=
  Some (match slot with Some seen => Z.max seen q | None => q end).

Definition is_gzip (coding : string) : bool :=
  eq_ignore_ascii_case coding "gzip" || eq_ignore_ascii_case coding "x-gzip".

(** The loop's slots for gzip and [*], one member on. *)
Definition see_member (slots : option Z * option Z) (m : string) : option Z * option Z :=
  match parse_member m with
  | None => slots
  | Some (coding, q) =>
      if is_gzip coding then (max_seen slots.1 q, slots.2)
      else if bool_decide (coding = "*") then (slots.1, max_seen slots.2 q)
      else slots
  end.

(** The members of all header lines; a line that is not visible ASCII is skipped. *)
Definition members_of (lines : list (option string)) : list string :=
  flat_map (λ line, match line with Some v => split_char comma v | None => [] end) lines.

Definition accepts_gzip (lines : list (option string)) : bool :=
  match fold_left see_member (members_of lines) (None, None) with
  | (Some q, _) => (0 <? q)%Z
  | (None, star) => match star with Some q => (0 <? q)%Z | None => false end
  end.

(** [normalize_accept_encoding]: the header lines the compression layer sees. *)
Definition normalize_accept_encoding (lines : list (option string)) : list (option string) :=
  if accepts_gzip lines then [Some "gzip"] else [].

Example accept_encodings :
  map (λ v, accepts_gzip [Some v])
    ["gzip"; "br, GZIP;q=0.5"; "*"; "gzip;q=0, *"; "gzip;q=0, x-gzip;q=0.001"; "gzip;q=2"; "identity;q=0"; ""] =
    [true; true; true; false; true; false; false; false].
Proof. vm_compute. reflexivity. Qed.

(** The weight the header lines give a coding: the highest of its members. *)
Definition weights (sel : string → bool) (members : list string) : list Z :=
  omap (λ m, match parse_member m with Some (c, q) => if sel c then Some q else None | None => None end) members.

Definition best (l : list Z) : option Z := fold_left max_seen l None.

Lemma fold_max_seen l : ∀ slot, fold_left max_seen l slot =
  match slot, best l with
  | Some a, Some b => Some (Z.max a b)
  | Some a, None => Some a
  | None, b => b
  end.
Proof.
  unfold best. induction l as [|q l IH]; intros slot; [by destruct slot|]. simpl. rewrite !(IH (max_seen _ _)).
  destruct slot, (fold_left max_seen l None); simpl; rewrite ?Z.max_assoc; done.
Qed.

Lemma best_cons q l : best (q :: l) = Some (match best l with Some b => Z.max q b | None => q end).
Proof. unfold best at 1. simpl. rewrite fold_max_seen. by destruct (best l). Qed.

Definition is_star (c : string) : bool := negb (is_gzip c) && bool_decide (c = "*").

Lemma fold_see_member ms : ∀ slots, fold_left see_member ms slots =
  (fold_left max_seen (weights is_gzip ms) slots.1, fold_left max_seen (weights is_star ms) slots.2).
Proof.
  induction ms as [|m ms IH]; intros slots; [by destruct slots|]. simpl. rewrite IH.
  unfold see_member, weights, is_star. simpl. destruct (parse_member m) as [[c q]|]; [|done].
  destruct (is_gzip c); simpl; [done|]. by case_bool_decide.
Qed.

Lemma best_perm l l' : Permutation l l' → best l = best l'.
Proof.
  induction 1 as [|q l l' _ IH|q q' l|l l' l'' _ IH _ IH']; [done|by rewrite !best_cons IH| |by rewrite IH].
  rewrite !best_cons. f_equal. destruct (best l); lia.
Qed.

Lemma best_pos l : match best l with Some b => (0 <? b)%Z | None => false end = existsb (λ q, 0 <? q)%Z l.
Proof.
  induction l as [|q l IH]; [done|]. rewrite best_cons /= -IH. destruct (best l) as [b|]; [|by rewrite orb_false_r].
  apply eq_true_iff_eq. rewrite orb_true_iff !Z.ltb_lt. lia.
Qed.

Lemma elem_of_weights sel ms q :
  q ∈ weights sel ms ↔ ∃ m c, m ∈ ms ∧ parse_member m = Some (c, q) ∧ sel c = true.
Proof.
  unfold weights. rewrite list_elem_of_omap. split.
  - intros (m & Hm & Hq). destruct (parse_member m) as [[c q']|] eqn:Hp; [|done].
    destruct (sel c) eqn:Hs; [|done]. injection Hq as ->. by exists m, c.
  - intros (m & c & Hm & Hp & Hs). exists m. by rewrite Hp Hs.
Qed.

Lemma weights_nil sel ms :
  weights sel ms = [] ↔ ∀ m c q, m ∈ ms → parse_member m = Some (c, q) → sel c = false.
Proof.
  split.
  - intros Hnil m c q Hm Hp. destruct (sel c) eqn:Hs; [|done].
    assert (q ∈ weights sel ms) as Hin by (apply elem_of_weights; by exists m, c).
    rewrite Hnil in Hin. by apply elem_of_nil in Hin.
  - intros Hnone. destruct (weights sel ms) as [|q l] eqn:Hl; [done|].
    assert (q ∈ weights sel ms) as Hin by (rewrite Hl; left).
    apply elem_of_weights in Hin as (m & c & Hm & Hp & Hs). by rewrite (Hnone m c q Hm Hp) in Hs.
Qed.

(** Some member of the selected coding has a positive weight. *)
Definition named (sel : string → bool) (ms : list string) : Prop :=
  ∃ m c q, m ∈ ms ∧ parse_member m = Some (c, q) ∧ sel c = true ∧ (0 < q)%Z.

Lemma existsb_weights sel ms : existsb (λ q, 0 <? q)%Z (weights sel ms) = true ↔ named sel ms.
Proof.
  rewrite existsb_exists. setoid_rewrite <-list_elem_of_In. setoid_rewrite elem_of_weights. split.
  - intros (q & (m & c & Hm & Hp & Hs) & Hq). exists m, c, q. split_and!; [done..|lia].
  - intros (m & c & q & Hm & Hp & Hs & Hq). exists q. split; [by exists m, c|lia].
Qed.

Lemma accepts_gzip_weights ls : accepts_gzip ls =
  if weights is_gzip (members_of ls) is [] then existsb (λ q, 0 <? q)%Z (weights is_star (members_of ls))
  else existsb (λ q, 0 <? q)%Z (weights is_gzip (members_of ls)).
Proof.
  unfold accepts_gzip. rewrite fold_see_member. simpl. rewrite -/(best _) -/(best _) -!best_pos.
  destruct (weights is_gzip (members_of ls)) as [|q l]; [done|]. by rewrite best_cons.
Qed.

Lemma existsb_perm {A} (f : A → bool) l l' : Permutation l l' → existsb f l = existsb f l'.
Proof.
  intros Hp. apply eq_true_iff_eq. rewrite !existsb_exists. setoid_rewrite <-list_elem_of_In.
  by setoid_rewrite Hp.
Qed.

(** What the header comes to: gzip is served exactly if a member names gzip
    (or x-gzip) with a positive weight, or none names it at all and a [*] has one. How the
    members are ordered or spread over header lines makes no difference, and the layer
    behind sees the single word [gzip] or no header, never one that rules out identity. *)
Theorem accepts_gzip_spec (lines lines' : list (option string)) :
  (accepts_gzip lines = true ↔
     named is_gzip (members_of lines) ∨
     (∀ m c q, m ∈ members_of lines → parse_member m = Some (c, q) → is_gzip c = false) ∧
     named (λ c, bool_decide (c = "*")) (members_of lines)) ∧
  (Permutation (members_of lines) (members_of lines') → accepts_gzip lines = accepts_gzip lines') ∧
  normalize_accept_encoding lines ∈ [[Some "gzip"]; []].
Proof.
  assert (∀ ms, named is_star ms ↔ named (λ c, bool_decide (c = "*")) ms) as Hstar.
  { intros ms. unfold named, is_star. do 3 (apply exist_proper; intros ?). split.
    - intros (? & ? & Hs & ?). apply andb_true_iff in Hs as [_ Hs]. done.
    - intros (? & ? & Hs & ?). case_bool_decide; [|done]. by subst. }
  split_and!.
  - rewrite accepts_gzip_weights -weights_nil -Hstar -!existsb_weights.
    destruct (weights is_gzip (members_of lines)); simpl; naive_solver.
  - intros Hperm. rewrite !accepts_gzip_weights.
    assert (∀ sel, Permutation (weights sel (members_of lines)) (weights sel (members_of lines'))) as Hwp
      by (intros sel; unfold weights; by apply omap_Permutation).
    rewrite -(existsb_perm _ _ _ (Hwp is_gzip)) -(existsb_perm _ _ _ (Hwp is_star)).
    pose proof (Hwp is_gzip) as Hg.
    destruct (weights is_gzip (members_of lines)), (weights is_gzip (members_of lines')); try done.
    + by apply Permutation_nil in Hg.
    + by apply Permutation_sym, Permutation_nil in Hg.
  - unfold normalize_accept_encoding. destruct (accepts_gzip lines); set_solver.
Qed.
