(* ===== verification/KeylessMint.v ===== *)
(** * Minting key attestations

    [acdp-registry-core/src/keyless/mint.rs] and the [/key-attestations] handlers of
    [acdp-registry-core/src/handlers/keyless.rs]: a workload token is exchanged for an
    attestation of a key, published as a context of the registry's own. The state the
    handler shares with other requests is the store, the JWKS cache of [Jwks] and the two
    budgets of the endpoint. *)

From stdpp Require Import pretty.
From S2P Require Import Prelude Text Errors RateLimit ContextTypes ChangeFeed FeedBackends ClientIp ReadGate KeyAttestations EventReceipts SqliteStore SqliteListing PublishReply Handlers KeylessPublish ReadHandlers Jwks KeylessToken HttpForms.

Open Scope registry_scope.
Open Scope handler_scope.

(** ** Requests, and what the SDK does with them *)

(** [acdp::types::keyless::KeyAttestationRequest]. *)
Record KeyAttestationRequest : Type := mkAttestationRequest {
  ar_controller : string;
  ar_identity : IdentityDescriptor;
  ar_public_key_jwk : Jwk;
  ar_algorithm : string;
  ar_pop : string;
  ar_requested_ttl_seconds : option Z
}.

(** [serde_json::Error]: its text, line and column. *)
Record JsonError : Type := mkJsonError { je_text : string; je_line : Z; je_column : Z }.

(** An entry of a controller's [AcdpKeylessSigning] service. *)
Record ListedIdentity : Type := mkListed { li_identity : WorkloadIdentity; li_org_wide : bool }.

(** What [Producer::publish_request] is given. *)
Record PublishDraft : Type := mkDraft {
  pd_title : string;
  pd_summary : string;
  pd_context_type : ContextType;
  pd_visibility : Visibility;
  pd_metadata : Value;
  pd_schema_uri : string;
  pd_acdp_version : string
}.

Class MintSdk (S Outside : Type) : Type := {
  REQUEST_VERSION : string;
  KEY_ATTESTATION_SCHEMA_URI : string;
  DEFAULT_TTL_SECONDS : Z;
  MAX_WINDOW_SECONDS : Z;
  supported_signature_algorithms : list string;
  request_from_slice : list Z → result KeyAttestationRequest JsonError;
  request_validate : KeyAttestationRequest → result unit AcdpError;
  jwk_algorithm : Jwk → result string AcdpError;
  jwk_fingerprint : Jwk → result string AcdpError;
  (** The request, for a registry. *)
  pop_preimage : KeyAttestationRequest → string → result string AcdpError;
  attestation_to_value : KeyAttestation → result Value AcdpError;
  (** [Producer]: signing key, agent and key id; then the draft. *)
  MintKey : Type;
  producer_build : MintKey → string → string → PublishDraft → result PublishRequest AcdpError;
  (** [resolve_until]: the document of a DID, resolved again past the cache (at most once,
      and as often as its limit allows) when it does not satisfy the test, and whether it
      is newer than the instant. *)
  DidDocument : Type;
  resolve_until : Outside → string → Z → (DidDocument → bool) → Ran (result (DidDocument * bool) AcdpError);
  listed_find : DidDocument → WorkloadIdentity → option ListedIdentity;
  did_web_to_url : string → result string AcdpError;
  (** The store's [key_attestation_token_seen] and [list_key_attestations]. *)
  att_token_seen : string → S → Ran (result bool AcdpError);
  attestations_page : string → KeyAttestationFilter → option string → Z → S →
    Ran (result (Page KeyAttestationListItem) AcdpError)
}.

(** ** [mint.rs] *)

Definition TITLE : string := "Key attestation".
Definition MINT_ACDP_VERSION : string := "0.5.0".

Definition summary (authority algorithm controller : string) : string :=
  authority +:+ " attests an ephemeral " +:+ algorithm +:+ " key for " +:+ controller +:+ " (RFC-ACDP-0021).".

Section mint.
Context {S Outside : Type} `{!KeylessSdk} `{!KeylessServer S Outside} `{!MintSdk S Outside}.

Definition verify_pop (req : KeyAttestationRequest) (registry_did : string) : result string RegistryError :=
  let? alg := map_err RE_Acdp (jwk_algorithm (ar_public_key_jwk req)) in
  let? preimage := map_err RE_Acdp (pop_preimage req registry_did) in
  let? _ := map_err (λ e, RE_WithReason
                (keyless_error (OtherReason "pop_invalid")
                   ("pop does not verify under public_key_jwk: " +:+ kl_display e)) "pop_invalid")
              (jwk_verify (ar_public_key_jwk req) alg (ar_pop req) preimage) in
  Ok alg.

Definition check_algorithm (req : KeyAttestationRequest) (jwk_alg : string) (supported : list string) :
    result unit RegistryError :=
  if negb (bool_decide (ar_algorithm req = jwk_alg)) then
    Err (RE_Acdp (UnsupportedAlgorithm ("algorithm '" +:+ ar_algorithm req +:+
           "' does not match the public_key_jwk key type (" +:+ jwk_alg +:+ ")")))
  else if negb (existsb (λ a, bool_decide (a = jwk_alg)) supported) then
    Err (RE_Acdp (UnsupportedAlgorithm ("algorithm '" +:+ jwk_alg +:+ "' is not supported by this registry")))
  else Ok tt.

(** [window]: [not_before] and [not_after]. *)
Definition window (now_ms : Z) (requested_ttl_seconds : option Z) (max_ttl_seconds token_exp : Z) :
    result (Z * Z) KeylessRefusal :=
  let ttl := Z.min (Z.min (default DEFAULT_TTL_SECONDS requested_ttl_seconds) max_ttl_seconds)
               MAX_WINDOW_SECONDS in
  let not_after_ms := Z.min (i64_saturating_add now_ms (i64_saturating_mul ttl 1000))
                        (i64_saturating_mul token_exp 1000) in
  if (not_after_ms <=? now_ms)%Z then Err (KR_TokenInvalid "expired")
  else
    let at_ ms := ok_or (time_from_millis ms) (KR_TokenInvalid "timestamp out of range") in
    let? not_before := at_ now_ms in
    let? not_after := at_ not_after_ms in
    Ok (not_before, not_after).

Definition attestation (req : KeyAttestationRequest) (alg : string) (entry : ListedIdentity) (w : Z * Z)
    (token_hash : string) : result KeyAttestation AcdpError :=
  let? key_fingerprint := jwk_fingerprint (ar_public_key_jwk req) in
  let? key_id := keyless_key_id (ar_controller req) key_fingerprint in
  Ok (mkKeyAttestation (ar_controller req) (li_identity entry) (li_org_wide entry) key_id alg key_fingerprint
        w.1 w.2 token_hash (ar_public_key_jwk req)).

Definition build (key : MintKey) (key_id authority : string) (att : KeyAttestation) :
    result PublishRequest AcdpError :=
  let? metadata := attestation_to_value att in
  producer_build key (authority_to_did_web authority) key_id
    (mkDraft TITLE (summary authority (ka_algorithm att) (ka_controller att)) (CtCustom KEY_ATTESTATION_TYPE)
       Public metadata KEY_ATTESTATION_SCHEMA_URI MINT_ACDP_VERSION).
End mint.

(** ** The handlers *)

(** What requests share: the store, the cache, and the [KeylessState]'s limiters. *)
Record Shared (S : Type) : Type := mkShared {
  sh_store : S;
  sh_jwks : JwksCache;
  ip_limiter : option AgentRateLimiter;
  identity_limiter : option AgentRateLimiter
}.
Arguments mkShared {S}.
Arguments sh_store {S}.
Arguments sh_jwks {S}.
Arguments ip_limiter {S}.
Arguments identity_limiter {S}.

Section shared.
Context {S : Type}.

Definition set_shared_store (s : S) (sh : Shared S) : Shared S :=
  mkShared s (sh_jwks sh) (ip_limiter sh) (identity_limiter sh).
Definition set_ip_limiter (l : option AgentRateLimiter) (sh : Shared S) : Shared S :=
  mkShared (sh_store sh) (sh_jwks sh) l (identity_limiter sh).
Definition set_identity_limiter (l : option AgentRateLimiter) (sh : Shared S) : Shared S :=
  mkShared (sh_store sh) (sh_jwks sh) (ip_limiter sh) l.

#[export] Instance shared_jwks : HasJwks (Shared S) := {
  jwks_of := sh_jwks;
  set_jwks c sh := mkShared (sh_store sh) c (ip_limiter sh) (identity_limiter sh)
}.
End shared.

(** The constants of [KeylessState] and of the configuration. *)
Record MintState (MintKey : Type) : Type := mkMintState {
  ms_config : KeylessConfig;
  ms_authority : string;
  ms_registry_did : string;
  ms_signing_key : MintKey;
  ms_key_id : string;
  ms_public_key_b64 : string;
  ms_forwarded : ForwardedPolicy
}.
Arguments mkMintState {MintKey}.
Arguments ms_config {MintKey}.
Arguments ms_authority {MintKey}.
Arguments ms_registry_did {MintKey}.
Arguments ms_signing_key {MintKey}.
Arguments ms_key_id {MintKey}.
Arguments ms_public_key_b64 {MintKey}.
Arguments ms_forwarded {MintKey}.

(** The clocks and the outside at each call: the limiters' instants, the start, and the
    keyless clock of steps 3 and 7 in milliseconds. *)
Record MintEnv (Outside : Type) : Type := mkMintEnv {
  me_started : Z;
  me_ip_instant : Z;
  me_peek_instant : Z;
  me_token_ms : Z;
  me_verify : VerifyEnv;
  me_record_instant : Z;
  me_resolve : Outside;
  me_window_ms : Z;
  me_prove : Outside;
  me_commit : Outside
}.
Arguments mkMintEnv {Outside}.
Arguments me_started {Outside}.
Arguments me_ip_instant {Outside}.
Arguments me_peek_instant {Outside}.
Arguments me_token_ms {Outside}.
Arguments me_verify {Outside}.
Arguments me_record_instant {Outside}.
Arguments me_resolve {Outside}.
Arguments me_window_ms {Outside}.
Arguments me_prove {Outside}.
Arguments me_commit {Outside}.

(** A request: the peer, its forwarding headers, its content type, and the body the
    server reads or the status it stops at. *)
Record MintHttp : Type := mkMintHttp {
  mh_peer : option IpAddr;
  mh_forwarded : list (option string);
  mh_content_type : option (option string);
  mh_body : result (list Z) Z
}.

Definition display_ip (ip : IpAddr) : string :=
  match ip with V4 o => display_v4 o | V6 o => display_v6 o end.

Definition identity_key (id : WorkloadIdentity) : string :=
  match id with
  | Oidc issuer subject => "id:oidc|" +:+ issuer +:+ "|" +:+ subject
  | Spiffe subject => "id:spiffe||" +:+ subject
  end.

Section handlers.
Context {S Proven Outside Resolved : Type}.
Context `{HC : ChangeSdk} `{HE : !EventSdk} `{!RegistryServer S Proven Outside} `{!ReadServer S Outside Resolved}.
Context `{!KeylessSdk} `{!KeylessServer S Outside} `{!TokenSdk} `{!JwksSdk} `{!MintSdk S Outside}.

(** A rejection is an answer, not an error. *)
Inductive MintReply : Type :=
  | MintRejected (rejection : AcdpRejection)
  | MintCreated (location : string) (full : FullContext).

(** [parse_error]: a message that quotes the body only where [serde] names a member. *)
Definition parse_error (e : JsonError) : RegistryError :=
  RE_Acdp (SchemaViolation
    (if starts_with (je_text e) "unknown field" || starts_with (je_text e) "missing field" then
       "not an " +:+ REQUEST_VERSION +:+ " body: " +:+ je_text e
     else "not an " +:+ REQUEST_VERSION +:+ " body (line " +:+ pretty (je_line e) +:+ ", column " +:+
          pretty (je_column e) +:+ ")")).

(** Step 1: the per-IP budget. *)
Definition charge_ip (st : MintState MintKey) (env : MintEnv Outside) (http : MintHttp) : H (Shared S) unit :=
  hsync (λ h, match ip_limiter (hs_store h) with
              | None => (Done (Ok tt), h)
              | Some l =>
                  let ip := state_client_ip (ms_forwarded st) (mh_peer http) (mh_forwarded http) in
                  let '(r, l) := check_at l ("ip:" +:+ display_ip ip) (me_ip_instant env) in
                  (Done (map_err RE_RateLimited r), with_store (set_ip_limiter (Some l) (hs_store h)) h)
              end).

Definition peek_identity (key : string) (now : Z) : H (Shared S) unit :=
  hsync (λ h, (Done (match identity_limiter (hs_store h) with
                     | Some l => map_err RE_RateLimited (peek_at l key now)
                     | None => Ok tt
                     end), h)).

Definition record_identity (key : string) (now : Z) : H (Shared S) unit := λ aw h,
  (HOk tt, aw, with_store (set_identity_limiter ((λ l, record_at l key now) <$> identity_limiter (hs_store h))
                             (hs_store h)) h).

(** A read of the store among the shared state. *)
Definition reading_store {T} (f : S → Ran (result T AcdpError)) :
    HState (Shared S) → Ran (result T RegistryError) * HState (Shared S) := reading (λ sh, f (sh_store sh)).

(** The token was not exchanged before. *)
Definition refuse_seen (token_hash : string) : H (Shared S) unit :=
  let! seen := hasync (reading_store (att_token_seen token_hash)) in
  hlift (if seen : bool then Err (RE_WithReason (token_replayed token_hash) "token_replayed") else Ok tt).

(** Step 6. *)
Definition listed_entry (env : MintEnv Outside) (controller : string) (identity : WorkloadIdentity) :
    H (Shared S) ListedIdentity :=
  let! '(doc, fresh) :=
    hasync (reading (λ _, resolve_until (me_resolve env) controller (me_started env)
                            (λ doc, bool_decide (is_Some (listed_find doc identity))))) in
  hlift (match listed_find doc identity with
         | Some entry => Ok entry
         | None =>
             Err (if fresh : bool then
                    RE_WithReason (keyless_error IdentityNotAuthorized (controller +:+
                      " does not list this workload identity in its AcdpKeylessSigning service"))
                      "identity_not_authorized"
                  else RE_Acdp (KeyResolutionUnreachable (controller +:+
                      " does not list this workload identity in a cached DID document, and re-fetching it is rate-limited; retry later")))
         end).

(** Step 8's closure: the registry's own key is pinned, with no idempotency key and no
    tenant. *)
Definition mint_commit (st : MintState MintKey) (env : MintEnv Outside) (publish : PublishRequest) :
    HState (Shared S) → Ran (result PublishResponse RegistryError) * HState (Shared S) := λ h,
  match prove_publish_identity_pinned (me_prove env) publish (ms_public_key_b64 st) "ed25519"
          (sh_store (hs_store h)) with
  | Panic m => (Panic m, h)
  | Done (Err e) => (Done (Err (with_keyless_reason e)), h)
  | Done (Ok proven) =>
      let '(r, s) := commit_proven (me_commit env) proven None None (sh_store (hs_store h)) in
      (match r with
       | Done (Ok o) => Done (Ok (into_response o))
       | Done (Err e) => Done (Err (with_keyless_reason e))
       | Panic m => Panic m
       end, with_store (set_shared_store s (hs_store h)) h)
  end.

(** Steps 4 to 7, on the token step 3 accepted: the attestation and its publish request. *)
Definition attest (st : MintState MintKey) (env : MintEnv Outside) (request : KeyAttestationRequest)
    (verified : VerifiedToken) : H (Shared S) (KeyAttestation * PublishRequest) :=
  let! _ := refuse_seen (vt_token_hash verified) in
  let! alg := hlift (verify_pop request (ms_registry_did st)) in
  let! _ := hlift (check_algorithm request alg supported_signature_algorithms) in
  let! entry := listed_entry env (ar_controller request) (desc_identity (ar_identity request)) in
  let! w := refusing (window (me_window_ms env) (ar_requested_ttl_seconds request)
                        (kc_max_attestation_ttl_seconds (ms_config st)) (vt_exp verified)) in
  let! att := hlift (map_err RE_Acdp (attestation request alg entry w (vt_token_hash verified))) in
  let! publish := hlift (map_err (λ e, RE_Internal ("building the key attestation: " +:+ kl_display e))
                           (build (ms_signing_key st) (ms_key_id st) (ms_authority st) att)) in
  hret (att, publish).

(** The answer: the full retrieval representation of the minted context. *)
Definition minted_reply (ctx_id : string) : H (Shared S) MintReply :=
  let! found := hblocking (reading_store (server_retrieve ctx_id None)) in
  let! full := hlift (ok_or found
                 (RE_Internal ("minted key attestation '" +:+ ctx_id +:+ "' is not retrievable"))) in
  let! location := hlift (map_err (λ e, RE_Internal ("key attestation Location header: " +:+ e))
                            (header_value (location_for ctx_id))) in
  hret (MintCreated location full).

(** Step 8: the publish, and the context read back. *)
Definition publish_attestation (st : MintState MintKey) (env : MintEnv Outside) (publish : PublishRequest) :
    H (Shared S) MintReply :=
  let! response := hblocking (mint_commit st env publish) in
  minted_reply (resp_ctx_id response).

(** [mint_attestation]. *)
Definition mint_attestation (st : MintState MintKey) (env : MintEnv Outside) (http : MintHttp) :
    H (Shared S) MintReply :=
  let! _ := charge_ip st env http in
  let! body := hasync (λ h, (Done (Ok (acdp_bytes (mh_content_type http) (mh_body http))), h)) in
  match body with
  | Err rejection => hret (MintRejected rejection)
  | Ok body =>
      let! request := hlift (map_err parse_error (request_from_slice body)) in
      let! _ := hlift (map_err RE_Acdp (request_validate request)) in
      let id_key := identity_key (desc_identity (ar_identity request)) in
      let! _ := peek_identity id_key (me_peek_instant env) in
      let! verified := verify (ms_config st) (me_verify env) (ar_identity request) (ms_registry_did st)
                         (ar_public_key_jwk request) (me_token_ms env / 1000)%Z in
      let! _ := record_identity id_key (me_record_instant env) in
      let! '(_, publish) := attest st env request verified in
      publish_attestation st env publish
  end.

Definition keyless_not_implemented : RegistryError :=
  RE_Acdp (NotImplemented "this registry does not advertise acdp-registry-keyless (RFC-ACDP-0021: /key-attestations is not implemented)").

(** [create_key_attestation]; [None] is a registry without the profile. *)
Definition create_key_attestation (st : option (MintState MintKey)) (env : MintEnv Outside) (http : MintHttp) :
    H (Shared S) MintReply :=
  match st with
  | None => hlift (Err keyless_not_implemented)
  | Some st => mint_attestation st env http
  end.

(** ** Listing *)

Definition LIST_LIMIT_DEFAULT : Z := 20.
Definition LIST_LIMIT_MAX : Z := 100.

Record ListQuery : Type := mkListQuery {
  lq_controller : option string;
  lq_issuer : option string;
  lq_subject : option string;
  lq_cursor : option string;
  lq_limit : option Z
}.

Definition list_controller (q : ListQuery) : result string RegistryError :=
  let? controller := ok_or (lq_controller q)
                       (RE_Acdp (SchemaViolation "the controller query parameter is required")) in
  if negb (starts_with controller "did:web:") || match did_web_to_url controller with Ok _ => false | Err _ => true end
  then Err (RE_Acdp (SchemaViolation ("controller '" +:+ controller +:+ "' is not a did:web DID")))
  else Ok controller.

(** [list]. *)
Definition list_attestations (q : ListQuery) : H (Shared S) (Page KeyAttestationListItem) :=
  let! controller := hlift (list_controller q) in
  let limit := clamp (default LIST_LIMIT_DEFAULT (lq_limit q)) 1 LIST_LIMIT_MAX in
  hasync (reading_store (attestations_page controller (mkFilter (lq_issuer q) (lq_subject q)) (lq_cursor q) limit)).

(** [list_key_attestations]: the profile is decided before the query string is read. *)
Inductive ListReply : Type :=
  | ListRejected (rejection : AcdpRejection)
  | Listed (page : Page KeyAttestationListItem).

Definition list_key_attestations_handler (profile : bool) (query : result ListQuery Z) : H (Shared S) ListReply :=
  if negb profile then hlift (Err keyless_not_implemented)
  else match acdp_query query with
       | Err rejection => hret (ListRejected rejection)
       | Ok q =>
           let! page := list_attestations q in
           hret (Listed page)
       end.
End handlers.

(** ** What an attestation rests on *)

Section window_facts.
Context {S Outside : Type} `{!KeylessServer S Outside} `{!MintSdk S Outside}.

(** The window opens now, is not empty, and closes by the token's expiry, the requested
    length, the advertised maximum and the protocol's ceiling. *)
Lemma window_ok now_ms requested max_ttl token_exp w :
  (i64_min ≤ now_ms ≤ i64_max)%Z → window now_ms requested max_ttl token_exp = Ok w →
  ∃ end_ms, time_from_millis now_ms = Some w.1 ∧ time_from_millis end_ms = Some w.2 ∧
    (now_ms < end_ms ≤ token_exp * 1000)%Z ∧
    (end_ms ≤ now_ms + Z.min max_ttl MAX_WINDOW_SECONDS * 1000)%Z ∧
    (∀ ttl, requested = Some ttl → end_ms ≤ now_ms + ttl * 1000)%Z.
Proof.
  unfold window. intros Hnow Hok. set (ttl := Z.min (Z.min _ _) _) in Hok. set (e := Z.min _ _) in Hok.
  destruct (e <=? now_ms)%Z eqn:He; [done|]. inv_ok. apply ok_or_ok in Heqr, Heqr0. exists e. simpl.
  assert ((now_ms < e)%Z) as Hlt by lia.
  assert ((e ≤ token_exp * 1000)%Z ∧ (e ≤ now_ms + ttl * 1000)%Z) as [H1 H2].
  { subst e. unfold i64_saturating_add, i64_saturating_mul, i64_max, i64_min in *. lia. }
  split_and!; try done.
  - subst ttl. lia.
  - intros r ->. simpl in *. subst ttl. lia.
Qed.
End window_facts.

(** Computations that only read, run while others keep [I]: they keep it too, where [F]
    says it was still there. *)
Section later.
Context {S : Type} (I : S → Prop) (F : Prop).

Notation Then := (λ h : HState S, F → I (hs_store h)).

Definition later {T} (m : H S T) (Q : T → Prop) : Prop :=
  htriple I Then m (λ r h, Then h ∧ ∀ v, r = HOk v → Q v).

Lemma later_bind {T U} (m : H S T) (k : T → H S U) P Q :
  later m P → (∀ v, P v → later (k v) Q) → later (hbind m k) Q.
Proof.
  intros Hm Hk. apply (htriple_bind I _ _ _ (λ v h, P v ∧ Then h)).
  - eapply htriple_weaken; [exact Hm|done|]. intros [] h [Hi HP]; simpl; auto; by split.
  - intros v aw h Haw [Hv Hh]. by apply Hk.
Qed.

Lemma later_ret {T} (v : T) (Q : T → Prop) : Q v → later (hret v) Q.
Proof. intros HQ. apply htriple_ret. intros h Hh. split; [done|]. by intros ? [= <-]. Qed.

Lemma later_lift {T} (r : result T RegistryError) : later (hlift r) (λ v, r = Ok v).
Proof.
  apply htriple_lift. intros h Hh. destruct r; simpl; (split; [done|]); [by intros ? [= <-]|done].
Qed.

(** A check in front of a rest: what it answered satisfies [Q]. *)
Lemma later_checked {T} (r : result T RegistryError) (Q : T → Prop) :
  (∀ v, r = Ok v → Q v) → later (hlift r) Q.
Proof.
  intros HQ. eapply htriple_weaken; [apply later_lift|done|]. intros r' h [Hi Hr]. split; [done|]. auto.
Qed.

Lemma later_mapped {T E} (f : E → RegistryError) (r : result T E) :
  later (hlift (map_err f r)) (λ v, r = Ok v).
Proof. apply later_checked. intros v. apply map_err_ok. Qed.

Lemma later_reading {T} (on_panic : string → HEnd T) (f : S → Ran (result T AcdpError)) :
  (∀ m v, on_panic m ≠ HOk v) →
  later (hawaited on_panic (reading f)) (λ v, ∃ s, (F → I s) ∧ f s = Done (Ok v)).
Proof.
  intros Hp. apply htriple_reading. intros h s Hh Hs. simpl.
  assert (F → I s) as Hthen by auto.
  destruct (f s) as [[v|e]|m] eqn:Hf; (split; [by split|]); (split; [done|]); try done; try (by intros ? ?%Hp).
  intros ? [= <-]. by exists s.
Qed.
End later.

Section minted.
Context {S Proven Outside Resolved : Type}.
Context `{HC : ChangeSdk} `{HE : !EventSdk} `{!RegistryServer S Proven Outside} `{!ReadServer S Outside Resolved}.
Context `{!KeylessSdk} `{!KeylessServer S Outside} `{!TokenSdk} `{!JwksSdk} `{!MintSdk S Outside}.
Context (st : MintState MintKey) (env : MintEnv Outside) (http : MintHttp) (web : Z → Net → Prop).

(** The request's token, for its identity, this registry and its key. *)
Definition token_of (request : KeyAttestationRequest) (v : VerifiedToken) : Prop :=
  token_accepted (ms_config st) web (me_verify env) (ar_identity request) (ms_registry_did st)
    (ar_public_key_jwk request) (me_token_ms env / 1000)%Z v.

Definition requested (request : KeyAttestationRequest) : Prop :=
  ∃ body, acdp_bytes (mh_content_type http) (mh_body http) = Ok body ∧
    request_from_slice body = Ok request ∧ request_validate request = Ok tt.

(** The holder of the token holds the key, whose algorithm the registry supports. *)
Definition key_proven (request : KeyAttestationRequest) : Prop :=
  ∃ preimage, jwk_algorithm (ar_public_key_jwk request) = Ok (ar_algorithm request) ∧
    pop_preimage request (ms_registry_did st) = Ok preimage ∧
    jwk_verify (ar_public_key_jwk request) (ar_algorithm request) (ar_pop request) preimage = Ok tt ∧
    ar_algorithm request ∈ supported_signature_algorithms.

(** The controller's document lists the identity, as the attestation says. *)
Definition identity_listed (request : KeyAttestationRequest) (att : KeyAttestation) : Prop :=
  ∃ doc fresh entry,
    resolve_until (me_resolve env) (ar_controller request) (me_started env)
      (λ doc, bool_decide (is_Some (listed_find doc (desc_identity (ar_identity request))))) = Done (Ok (doc, fresh)) ∧
    listed_find doc (desc_identity (ar_identity request)) = Some entry ∧
    ka_identity att = li_identity entry ∧ ka_org_wide att = li_org_wide entry.

Definition attested_window (request : KeyAttestationRequest) (v : VerifiedToken) (att : KeyAttestation) : Prop :=
  ∃ end_ms, time_from_millis (me_window_ms env) = Some (ka_not_before att) ∧
    time_from_millis end_ms = Some (ka_not_after att) ∧
    (me_window_ms env < end_ms ≤ vt_exp v * 1000)%Z ∧
    (end_ms ≤ me_window_ms env +
       Z.min (kc_max_attestation_ttl_seconds (ms_config st)) MAX_WINDOW_SECONDS * 1000)%Z ∧
    (∀ ttl, ar_requested_ttl_seconds request = Some ttl → end_ms ≤ me_window_ms env + ttl * 1000)%Z.

Lemma verify_pop_ok request did alg :
  verify_pop request did = Ok alg →
  ∃ preimage, jwk_algorithm (ar_public_key_jwk request) = Ok alg ∧ pop_preimage request did = Ok preimage ∧
    jwk_verify (ar_public_key_jwk request) alg (ar_pop request) preimage = Ok tt.
Proof.
  unfold verify_pop. intros Hok. inv_ok.
  repeat match goal with H : map_err _ _ = Ok _ |- _ => apply map_err_ok in H end.
  repeat match goal with u : unit |- _ => destruct u end. eauto.
Qed.

Lemma check_algorithm_ok request alg supported u :
  check_algorithm request alg supported = Ok u → ar_algorithm request = alg ∧ alg ∈ supported.
Proof.
  unfold check_algorithm. destruct (bool_decide _) eqn:Ha; simpl; [|done].
  destruct (existsb _ _) eqn:He; [|done]. intros _. apply bool_decide_eq_true in Ha. split; [done|].
  apply existsb_exists in He as (a & Hin & ->%bool_decide_eq_true). by apply list_elem_of_In.
Qed.

Lemma attestation_ok request alg entry w hash att :
  attestation request alg entry w hash = Ok att →
  ka_identity att = li_identity entry ∧ ka_org_wide att = li_org_wide entry ∧
  (ka_not_before att, ka_not_after att) = w ∧
  ka_controller att = ar_controller request ∧ ka_algorithm att = alg ∧
  ka_public_key_jwk att = ar_public_key_jwk request ∧ ka_token_hash att = hash ∧
  jwk_fingerprint (ar_public_key_jwk request) = Ok (ka_key_fingerprint att) ∧
  keyless_key_id (ar_controller request) (ka_key_fingerprint att) = Ok (ka_key_id att).
Proof. unfold attestation. intros Hok. inv_ok. destruct w. simpl. split_and!; done. Qed.

Lemma refuse_seen_spec I F hash :
  later I F (refuse_seen hash) (λ _, ∃ sh, (F → I sh) ∧ att_token_seen hash (sh_store sh) = Done (Ok false)).
Proof.
  eapply later_bind; [by apply later_reading|]. intros seen (sh & Hsh & Hseen).
  apply later_checked. intros u Hu. destruct seen; [done|eauto].
Qed.

Lemma listed_entry_spec I F controller identity :
  later I F (listed_entry env controller identity) (λ entry, ∃ doc fresh,
    resolve_until (me_resolve env) controller (me_started env)
      (λ doc, bool_decide (is_Some (listed_find doc identity))) = Done (Ok (doc, fresh)) ∧
    listed_find doc identity = Some entry).
Proof.
  eapply later_bind; [by apply later_reading|]. intros [doc fresh] (_ & _ & Hdoc).
  apply later_checked. intros entry He. destruct (listed_find doc identity) eqn:Hfind; [|done].
  injection He as ->. eauto.
Qed.

Section frame.
(** [J] is what else is known of the state requests share: of all of it but the cache and
    the IP budget, and, where it outlives a charge of the identity's, of all of it but
    the budgets. *)
Context (J : Shared S → Prop).
Context (J_jwks : ∀ c s, J s → J (set_jwks c s)) (J_ip : ∀ l s, J s → J (set_ip_limiter l s)).

Let I : Shared S → Prop := token_inv (ms_config st) web J.

Definition outlives_charge : Prop := ∀ l s, J s → J (set_identity_limiter l s).

(** The shared state as one call of the handler finds it. *)
Definition found (sh : Shared S) : Prop := outlives_charge → token_inv (ms_config st) web J sh.

Record attested (request : KeyAttestationRequest) (v : VerifiedToken) (att : KeyAttestation)
    (publish : PublishRequest) : Prop := {
  at_unseen : ∃ sh, found sh ∧ att_token_seen (vt_token_hash v) (sh_store sh) = Done (Ok false);
  at_key : key_proven request;
  at_listed : identity_listed request att;
  at_window : attested_window request v att;
  at_names : ka_controller att = ar_controller request ∧ ka_algorithm att = ar_algorithm request ∧
    ka_public_key_jwk att = ar_public_key_jwk request ∧ ka_token_hash att = vt_token_hash v ∧
    jwk_fingerprint (ar_public_key_jwk request) = Ok (ka_key_fingerprint att) ∧
    keyless_key_id (ar_controller request) (ka_key_fingerprint att) = Ok (ka_key_id att);
  at_build : build (ms_signing_key st) (ms_key_id st) (ms_authority st) att = Ok publish
}.

Lemma attest_spec request v :
  (i64_min ≤ me_window_ms env ≤ i64_max)%Z →
  later I outlives_charge (attest st env request v) (λ p, attested request v p.1 p.2).
Proof.
  intros Hclock. unfold attest. eapply later_bind; [apply refuse_seen_spec|]. intros [] Hunseen.
  eapply later_bind; [apply later_lift|]. intros alg (preimage & Halg & Hpre & Hpop)%verify_pop_ok.
  eapply later_bind; [apply later_lift|]. intros [] [<- Hsup]%check_algorithm_ok.
  eapply later_bind; [apply listed_entry_spec|]. intros entry (doc & fresh & Hdoc & Hfind).
  eapply later_bind; [apply later_mapped|]. intros w (end_ms & Hw1 & Hw2 & Hw)%window_ok; [|done].
  eapply later_bind; [apply later_mapped|].
  intros att (Hid & Horg & <- & Hctl & Ha & Hjwk & Hhash & Hfp & Hkid)%attestation_ok.
  eapply later_bind; [apply later_mapped|]. intros publish Hbuild.
  apply later_ret. split; simpl; [done|by exists preimage| |by exists end_ms|by split_and!|done].
  by exists doc, fresh, entry.
Qed.

(** The registry's own proof of the attestation's publish held, on the store the commit
    found. *)
Definition publish_proven (publish : PublishRequest) (sh : Shared S) (proven : Proven) : Prop :=
  found sh ∧
  prove_publish_identity_pinned (me_prove env) publish (ms_public_key_b64 st) "ed25519" (sh_store sh) =
    Done (Ok proven).

(** The request is one an attestation is minted for. *)
Definition mintable (v : VerifiedToken) : Prop :=
  ∃ request att publish sh proven, requested request ∧ token_of request v ∧ attested request v att publish ∧
    publish_proven publish sh proven.

(** ... and was committed as [ctx_id]. *)
Definition minted_as (v : VerifiedToken) (ctx_id : string) : Prop :=
  ∃ request att publish sh proven outcome s', requested request ∧ token_of request v ∧
    attested request v att publish ∧ publish_proven publish sh proven ∧
    commit_proven (me_commit env) proven None None (sh_store sh) = (Done (Ok outcome), s') ∧
    ctx_id = resp_ctx_id (into_response outcome).

(** The answer is that context, as the store at the end serves it. *)
Definition created (location : string) (full : FullContext) (h : HState (Shared S)) : Prop :=
  ∃ v ctx_id, minted_as v ctx_id ∧ location = location_for ctx_id ∧
    server_retrieve ctx_id None (sh_store (hs_store h)) = Done (Ok (Some full)).

Context (Httl : (0 ≤ kc_jwks_cache_ttl_seconds (ms_config st))%Z)
  (Hmax_stale : (0 ≤ kc_jwks_max_stale_seconds (ms_config st))%Z).
Context (Hcalls : calls_in_web web (me_verify env)).
Context (Hwindow_ms : (i64_min ≤ me_window_ms env ≤ i64_max)%Z).

(** Nothing but the cache and the IP budget is touched before the token is accepted, and
    the store not before everything else is checked. *)
Definition mint_post (r : HEnd MintReply) (h : HState (Shared S)) : Prop :=
  (I (hs_store h) ∨
   ∃ v, (∃ request, requested request ∧ token_of request v) ∧
     (outlives_charge → I (hs_store h) ∨ mintable v)) ∧
  (∀ location full, r = HOk (MintCreated location full) → created location full h).

Lemma minted_reply_spec ctx_id P :
  htriple I (λ _, P) (minted_reply ctx_id)
    (λ r h, P ∧ ∀ location full, r = HOk (MintCreated location full) →
       location = location_for ctx_id ∧
       server_retrieve ctx_id None (sh_store (hs_store h)) = Done (Ok (Some full))).
Proof.
  apply (htriple_bind I _ _ _ (λ found h, P ∧ server_retrieve ctx_id None (sh_store (hs_store h)) = Done (Ok found))).
  { apply htriple_reading. intros h s HP _. cbn. split; [done|].
    destruct (server_retrieve ctx_id None (sh_store s)) as [[found|e]|m] eqn:Hf; by split. }
  intros found. apply htriple_lift_bind; [by intros e h _ [HP _]; split|]. intros full ->%ok_or_ok.
  apply htriple_lift_bind; [by intros e h _ [HP _]; split|]. intros location Hloc%map_err_ok.
  apply htriple_ret. intros h [HP Hfound]. split; [done|]. intros ? ? [= <- <-]. split; [|done].
  unfold header_value in Hloc. destruct (forallb _ _); [|done]. congruence.
Qed.

Lemma publish_attestation_spec request v att publish :
  requested request → token_of request v → attested request v att publish →
  htriple I (λ h, found (hs_store h)) (publish_attestation st env publish) mint_post.
Proof.
  intros Hreq Htok Hatt.
  assert (∀ (e : HEnd MintReply) h, (∀ l f, e ≠ HOk (MintCreated l f)) →
    ((∃ sh proven, publish_proven publish sh proven) ∨ found (hs_store h)) → mint_post e h) as Hend.
  { intros e h He Hs. split; [|by intros l f ?%He]. right. exists v. split; [by exists request|].
    intros Hf. destruct Hs as [(sh & proven & Hp)|Hs]; [|left; by apply Hs]. right.
    by exists request, att, publish, sh, proven. }
  apply (htriple_bind I _ _ _ (λ response _, minted_as v (resp_ctx_id response))).
  - apply htriple_awaited. intros o h Ho Hh. unfold mint_commit. cbn [hs_store with_store].
    set (sh := o (hs_store h)). assert (found sh) as Hs by (intros Hf; by apply Ho, Hh).
    destruct (prove_publish_identity_pinned _ _ _ _ _) as [[proven|e]|m] eqn:Hp;
      [|split; apply Hend; auto; done..].
    assert (publish_proven publish sh proven) as Hproven by done.
    destruct (commit_proven _ _ _ _ _) as [[[oc|e]|m] s'] eqn:Hc; (split; [apply Hend; eauto; done|]);
      [by exists request, att, publish, sh, proven, oc, s'|apply Hend; eauto; done..].
  - intros response. eapply htriple_weaken;
      [apply (minted_reply_spec _ (minted_as v (resp_ctx_id response)))|done|]. cbn beta.
    intros r h [Hm Hr]. split.
    + right. exists v. split; [by exists request|]. intros _. right.
      destruct Hm as (request' & att' & publish' & sh & proven & oc & s' & ? & ? & ? & ? & _).
      by exists request', att', publish', sh, proven.
    + intros location full ->. destruct (Hr location full eq_refl) as [-> Hfull].
      by exists v, (resp_ctx_id response).
Qed.

(** A computation that keeps [I], in front of a rest. *)
Lemma kept_bind {T} (m : H (Shared S) T) (k : T → H (Shared S) MintReply) P :
  keeps (ms_config st) web J m P →
  (∀ v, P v → htriple I (λ h, I (hs_store h)) (k v) mint_post) →
  htriple I (λ h, I (hs_store h)) (hbind m k) mint_post.
Proof.
  intros Hm Hk. apply (htriple_bind I _ _ _ (λ v h, P v ∧ I (hs_store h))).
  - eapply htriple_weaken; [exact Hm|done|]. intros [] h [Hi HP]; simpl; auto; (split; [by left|done]).
  - intros v aw h Haw [Hv Hh]. by apply Hk.
Qed.

Lemma keeps_lift {T} (r : result T RegistryError) : keeps (ms_config st) web J (hlift r) (λ v, r = Ok v).
Proof.
  apply htriple_lift. intros h Hh. destruct r; simpl; (split; [done|]); [by intros ? [= <-]|done].
Qed.

Lemma charge_ip_spec : keeps (ms_config st) web J (charge_ip st env http) (λ _, True).
Proof.
  apply htriple_sync. intros h Hh. cbn beta zeta. destruct (ip_limiter (hs_store h)) as [l|]; [|by split].
  destruct (check_at _ _ _) as [r l']. destruct Hh as [(hist & Hreach & Hclock) HJ].
  assert (I (set_ip_limiter (Some l') (hs_store h))) as Hi by (split; [by exists hist|by apply J_ip]).
  destruct r; simpl; by split.
Qed.

Lemma peek_identity_spec key now : keeps (ms_config st) web J (peek_identity key now) (λ _, True).
Proof.
  apply htriple_sync. intros h Hh.
  destruct (match identity_limiter _ with Some _ => _ | None => _ end); by split.
Qed.

Lemma mint_attestation_spec : htriple I (λ h, I (hs_store h)) (mint_attestation st env http) mint_post.
Proof.
  eapply kept_bind; [apply charge_ip_spec|]. intros [] _.
  eapply (kept_bind _ _ (λ b, acdp_bytes (mh_content_type http) (mh_body http) = b)).
  { apply htriple_awaited. intros o h Ho Hh. cbn. split; [split; [by apply Ho|done]|].
    split; [by apply Ho|]. by intros ? [= <-]. }
  intros [body|rejection] Hbody; cycle 1.
  { apply htriple_ret. intros h Hh. split; [by left|done]. }
  eapply kept_bind; [apply keeps_lift|]. intros request Hreq%map_err_ok.
  eapply kept_bind; [apply keeps_lift|]. intros [] Hvalid%map_err_ok.
  eapply kept_bind; [apply peek_identity_spec|]. intros [] _.
  eapply kept_bind; [by apply verify_spec|]. intros v Hv.
  assert (requested request) as Hr by by exists body.
  apply (htriple_bind I _ _ _ (λ _ h, found (hs_store h))).
  { intros aw h Haw Hh. split; [done|]. intros Hf. cbn [hs_store with_store].
    destruct Hh as [(hist & Hreach & Hclock) HJ]. split; [by exists hist|by apply Hf]. }
  intros []. apply (htriple_bind I _ _ _ (λ p h, attested request v p.1 p.2 ∧ found (hs_store h))).
  { eapply htriple_weaken; [by apply attest_spec|done|].
    intros [p|e|m|] h [Hi Hp]; simpl; [by split; [apply Hp|]|..];
      (split; [|done]; right; exists v; split; [by exists request|auto]). }
  intros [att publish] aw h Haw [Hatt Hh]. by eapply publish_attestation_spec.
Qed.

End frame.

(** A token the store has as exchanged, with the other requests keeping it so. *)
Definition exchanged (hash : string) (sh : Shared S) : Prop :=
  att_token_seen hash (sh_store sh) = Done (Ok true).

Lemma token_of_request request v : token_of request v → vt_token_hash v = token_hash (desc_token (ar_identity request)).
Proof. by intros (? & ? & ? & ? & ? & ? & Hall); destruct_and! Hall. Qed.

Lemma exchanged_not_minted request v ctx_id :
  requested request → ¬ minted_as (exchanged (token_hash (desc_token (ar_identity request)))) v ctx_id.
Proof.
  intros (body & Hbody & Hreq & _) (request' & att & publish & sh & proven & oc & s' & Hr & Htok & Hatt & _).
  assert (request' = request) as ->.
  { destruct Hr as (body' & Hbody' & Hreq' & _). congruence. }
  destruct (at_unseen _ _ _ _ _ Hatt) as (sh' & Hfound & Hseen).
  rewrite (token_of_request _ _ Htok) in Hseen.
  destruct Hfound as [_ Hex]; [by intros l s|]. unfold exchanged in Hex. congruence.
Qed.

(** C35: an attestation is minted only for a request that earned it: the token is one an
    accepted issuer signed, for the requested identity, this registry and this key, with a
    key the issuer's configured endpoint served on a network this server met ([web]), no
    longer ago than copies are kept, and the store did not have it as exchanged; the caller
    proved possession of the key, whose algorithm is the requested one and supported; the
    controller's document lists the identity; and the attestation says just that, for a
    window that opens now and ends by the token's expiry, the requested length and the
    maxima. The answer is the context that was committed for it, as the store serves it.
    Whatever the request, the other requests and the await it is dropped at: before the
    token is accepted only the cache and the IP budget change ([J] is any fact about the
    rest), and the store, which also outlives a charge of the identity's budget, only with
    all of the above and the registry's own proof. A request whose token the store has as
    exchanged when it arrives, with nobody forgetting it, is never answered with an
    attestation. *)
Theorem attestations_are_earned
    (Httl : (0 ≤ kc_jwks_cache_ttl_seconds (ms_config st))%Z)
    (Hmax_stale : (0 ≤ kc_jwks_max_stale_seconds (ms_config st))%Z)
    (Hcalls : calls_in_web web (me_verify env)) (Hwindow_ms : (i64_min ≤ me_window_ms env ≤ i64_max)%Z)
    (J : Shared S → Prop)
    (J_jwks : ∀ c s, J s → J (set_jwks c s)) (J_ip : ∀ l s, J s → J (set_ip_limiter l s))
    (aw : list (AwaitPoint (Shared S))) (h : HState (Shared S)) :
  others_keep (token_inv (ms_config st) web J) aw → token_inv (ms_config st) web J (hs_store h) →
  let '(r, _, h') := create_key_attestation (Some st) env http aw h in
  (token_inv (ms_config st) web J (hs_store h') ∨
   ∃ v, (∃ request, requested request ∧ token_of request v) ∧
     (outlives_charge J → token_inv (ms_config st) web J (hs_store h') ∨ mintable J v)) ∧
  (∀ location full, r = HOk (MintCreated location full) → created J location full h') ∧
  (∀ request, requested request →
     let hash := token_hash (desc_token (ar_identity request)) in
     others_keep (token_inv (ms_config st) web (exchanged hash)) aw → exchanged hash (hs_store h) →
     ∀ location full, r ≠ HOk (MintCreated location full)).
Proof.
  intros Haw Hh. cbn [create_key_attestation].
  pose proof (mint_attestation_spec J J_jwks J_ip Httl Hmax_stale Hcalls Hwindow_ms aw h Haw Hh) as Hspec.
  assert (∀ hash, others_keep (token_inv (ms_config st) web (exchanged hash)) aw →
    token_inv (ms_config st) web (exchanged hash) (hs_store h) →
    let '(r, _, h') := mint_attestation st env http aw h in
    mint_post (exchanged hash) r h') as Hseen.
  { intros hash Hkept Hstart.
    pose proof (mint_attestation_spec (exchanged hash) (λ _ _ Hs, Hs) (λ _ _ Hs, Hs) Httl Hmax_stale Hcalls Hwindow_ms
      aw h Hkept Hstart) as Hs.
    by destruct (mint_attestation st env http aw h) as [[r aw'] h']; destruct Hs. }
  destruct (mint_attestation st env http aw h) as [[r aw'] h']. destruct Hspec as [_ [Hpost Hcreated]].
  split; [done|]. split; [done|]. intros request Hreq Hkept Hex location full ->.
  destruct (Hseen _ Hkept (conj (proj1 Hh) Hex)) as [_ Hmade].
  destruct (Hmade location full eq_refl) as (v & ctx_id & Hminted & _).
  by apply (exchanged_not_minted request v ctx_id).
Qed.
End minted.
