(* ===== verification/MintExample.v ===== *)
(** * An attestation, minted

    The handler of [KeylessMint] on the SQLite store of [StoreExample] and the cache of
    [Jwks], with an issuer whose tokens are a fixed text; the witness of the theorem on
    minting. *)

From S2P Require Import Prelude Text RateLimit ChallengeStore Revocation AuthService Errors ContextTypes ChangeFeed FeedBackends ClientIp ReadGate KeyAttestations EventReceipts PageCursors SqlTx SqliteStore SqlitePublish SqliteListing StoreExample.
From S2P Require Import Webhook PublishReply Playground Handlers KeylessPublish PublishSqlite PublishExample ReadHandlers HandlerExample Jwks KeylessToken HttpForms KeylessMint.

Open Scope registry_scope.

Module MintExample.
Import EventExample CursorExample StoreExample.StoreExample PublishExample.PublishExample HandlerExample.HandlerExample.

Definition ed_key : IssuerJwk :=
  mkIssuerJwk "OKP" (Some "k1") (Some "EdDSA") None (Some "Ed25519") None None (Some "x") None.

#[export] Instance mint_jwks : JwksSdk := {
  policy_check_url := λ _, true;
  url_is_https := λ _, true;
  discovery_from_slice := λ _, Some ("https://idp.test", "https://idp.test/jwks");
  jwks_from_slice := λ _, Some [VNull];
  issuer_jwk_from_value := λ _, Some ed_key
}.

Definition claims1 : list (string * Value) :=
  [("iss", VString "https://idp.test"); ("sub", VString "repo:a"); ("aud", VString "did:web:reg.test");
   ("exp", VNumber "1000")].

#[export] Instance mint_tokens : TokenSdk := {
  desc_validate := λ _, Ok tt;
  spiffe_trust_domain := λ _, None;
  token_hash := λ t, "sha256:" +:+ t;
  jwk_thumbprint := λ _, Ok "thumb";
  token_b64_decode := λ s, Some (as_bytes s);
  object_from_slice := λ l, if bool_decide (l = as_bytes "h") then Some [("alg", VString "EdDSA"); ("kid", VString "k1")]
                            else None;
  number_as_i64 := λ n, if bool_decide (n = "1000") then Some 1000%Z else None;
  number_floor := λ _, None;
  DecodingKey := unit;
  from_rsa_components := λ _ _, None;
  from_ec_components := λ _ _, None;
  from_ed_components := λ _, Some tt;
  jwt_claims := λ t _ _, if bool_decide (t = "h.p.s") then Some claims1 else None
}.

#[export] Instance mint_sdk : MintSdk SqliteDb CommitCall := {|
  REQUEST_VERSION := "request/1";
  KEY_ATTESTATION_SCHEMA_URI := "https://schemas.test/key-attestation";
  DEFAULT_TTL_SECONDS := 600;
  MAX_WINDOW_SECONDS := 3600;
  supported_signature_algorithms := ["ed25519"];
  request_from_slice l :=
    if bool_decide (l = [97%Z]) then
      Ok (mkAttestationRequest "did:web:ci" (DescOidc "https://idp.test" "repo:a" "h.p.s") (mkJwk "jx" None)
            "ed25519" "AA" (Some 300%Z))
    else Err (mkJsonError "expected value" 1 1);
  request_validate _ := Ok tt;
  jwk_algorithm _ := Ok "ed25519";
  jwk_fingerprint k := Ok ("fp:" +:+ jwk_x k);
  pop_preimage r did := Ok (ar_controller r +:+ did);
  attestation_to_value att :=
    Ok (VObject [("controller", VString (ka_controller att)); ("token", VString (ka_token_hash att))]);
  MintKey := unit;
  producer_build _ agent key_id d :=
    Ok (mkRequest agent 1 None None "h9" (pd_context_type d) (mkSignature "ed25519" key_id "AA") None []
          (pd_visibility d) None None (Some (pd_metadata d)) None (Some (pd_acdp_version d)) []);
  DidDocument := WorkloadIdentity;
  resolve_until _ _ _ _ := Done (Ok (Oidc "https://idp.test" "repo:a", true));
  listed_find doc id := if bool_decide (doc = id) then Some (mkListed id false) else None;
  did_web_to_url s := Ok s;
  att_token_seen hash db := Done (Ok (token_seen hash db));
  attestations_page controller f cursor limit db :=
    Done (list_key_attestations controller f cursor limit 0 db)
|}.

Definition mint_cfg : KeylessConfig :=
  mkKeylessConfig true 600 [mkOidcIssuer "https://idp.test" None] [] 300 600 5000 65536 10 30.

Definition mint_state : MintState MintKey :=
  mkMintState mint_cfg "reg.test" "did:web:reg.test" tt "did:web:reg.test#k1" "pk"
    (mkForwardedPolicy [] FH_TrustedProxies 0).

Definition mint_env : MintEnv CommitCall :=
  let call := mkCommitCall ok_env 7000000 7 9 in
  let up : Net := λ _, NetResponse 200 (Some "max-age=90") (Some [123%Z]) in
  mkMintEnv 1 1 1 500000 (mkVerifyEnv 1000 up 1000 up) 1 call 500000 call call.

Definition mint_http : MintHttp := mkMintHttp None [] (Some (Some "application/json")) (Ok [97%Z]).

Definition shared0 : Shared SqliteDb :=
  mkShared db0 (JwksCache_new mint_cfg) (Some (AgentRateLimiter_new 5 0)) (Some (AgentRateLimiter_new 5 0)).

Definition mint_run (sh : Shared SqliteDb) :=
  create_key_attestation (Proven := PublishRequest) (Resolved := unit) (Some mint_state) mint_env mint_http []
    (initial sh).

Definition shared1 : Shared SqliteDb := hs_store (mint_run shared0).2.

Definition is_created (r : HEnd MintReply) : bool := match r with HOk (MintCreated _ _) => true | _ => false end.

(** The token is exchanged once. *)
Example exchanged_once :
  is_created (mint_run shared0).1.1 = true ∧
  (mint_run shared1).1.1 = HErr (RE_WithReason (token_replayed "sha256:h.p.s") "token_replayed") ∧
  map (λ k, (k_controller k, k_token_hash k)) (key_attestations (sh_store shared1)) =
    [("did:web:ci", "sha256:h.p.s")].
Proof. vm_compute. split_and!; reflexivity. Qed.

(** The network of the run: one call, at which the issuer is up. *)
Definition mint_web (t : Z) (net : Net) : Prop := t = ve_keys_ms (me_verify mint_env) ∧ net = ve_keys_net (me_verify mint_env).

Definition store_is (db : SqliteDb) (sh : Shared SqliteDb) : Prop := sh_store sh = db.

(** The created attestation rests on all that is asked for, of the store the request
    found; sent again, the request mints nothing. *)
Lemma attestations_are_earned_witness :
  is_created (mint_run shared0).1.1 = true ∧
  (∃ v, mintable (S := SqliteDb) (Proven := PublishRequest) mint_state mint_env mint_http mint_web (store_is db0) v) ∧
  is_created (mint_run shared1).1.1 = false.
Proof.
  assert (is_created (mint_run shared0).1.1 = true) as Hok by (vm_compute; reflexivity).
  split; [exact Hok|].
  assert (calls_in_web mint_web (me_verify mint_env)) as Hcalls
    by (split; (split; [simpl; lia|split; reflexivity])).
  assert (∀ c J, others_keep (token_inv c mint_web (J : Shared SqliteDb → Prop)) []) as Haw
    by (intros; apply List.Forall_nil).
  assert (heard mint_web [(ve_keys_ms (me_verify mint_env), ve_keys_net (me_verify mint_env))]) as Hheard.
  { intros t n Hin. apply list_elem_of_singleton in Hin. injection Hin as -> ->. split; [simpl; lia|split; reflexivity]. }
  split.
  - assert (token_inv (ms_config mint_state) mint_web (store_is db0) (hs_store (initial shared0))) as Hinv.
    { split; [|reflexivity]. exists []. split; [apply cr_new|]. intros t n Hin. destruct (not_elem_of_nil _ Hin). }
    pose proof (attestations_are_earned (Proven := PublishRequest) (Resolved := unit) mint_state mint_env mint_http mint_web
      ltac:(simpl; lia) ltac:(simpl; lia) Hcalls ltac:(vm_compute; split; congruence)
      (store_is db0) (λ _ _ Hs, Hs) (λ _ _ Hs, Hs) [] (initial shared0) (Haw _ _) Hinv) as Hthm.
    change (create_key_attestation (Some mint_state) mint_env mint_http [] (initial shared0))
      with (mint_run shared0) in Hthm.
    destruct (mint_run shared0) as [[r aw'] h']. destruct Hthm as (_ & Hcreated & _). simpl in Hok.
    destruct r as [[rej|location full]| | |]; try discriminate Hok.
    destruct (Hcreated location full eq_refl) as (v & ctx_id & Hm & _). exists v.
    destruct Hm as (request & att & publish & sh & proven & oc & s' & Hr & Ht & Ha & Hp & _).
    exists request, att, publish, sh, proven. split; [exact Hr|]. split; [exact Ht|]. split; [exact Ha|exact Hp].
  - assert (sh_jwks shared1 = (cache_keys (ve_keys_net (me_verify mint_env)) (ve_keys_ms (me_verify mint_env))
              (SourceOidc "https://idp.test") (JwksCache_new mint_cfg)).2) as Hcache by (vm_compute; reflexivity).
    assert (exchanged (S := SqliteDb) "sha256:h.p.s" shared1) as Hex by (vm_compute; reflexivity).
    assert (token_inv (ms_config mint_state) mint_web (λ _ : Shared SqliteDb, True) (hs_store (initial shared1))) as Hinv.
    { split; [|exact Logic.I]. eexists. split; [|exact Hheard].
      change (jwks_of (hs_store (initial shared1))) with (sh_jwks shared1). rewrite Hcache. apply cr_keys, cr_new. }
    pose proof (attestations_are_earned (Proven := PublishRequest) (Resolved := unit) mint_state mint_env mint_http mint_web
      ltac:(simpl; lia) ltac:(simpl; lia) Hcalls ltac:(vm_compute; split; congruence)
      (λ _, True) (λ _ _ Hs, Hs) (λ _ _ Hs, Hs) [] (initial shared1) (Haw _ _) Hinv) as Hthm.
    change (create_key_attestation (Some mint_state) mint_env mint_http [] (initial shared1))
      with (mint_run shared1) in Hthm.
    destruct (mint_run shared1) as [[r aw'] h']. destruct Hthm as (_ & _ & Hreplay).
    destruct r as [[rej|location full]| | |]; [reflexivity| |reflexivity..]. exfalso.
    eapply (Hreplay (mkAttestationRequest "did:web:ci" (DescOidc "https://idp.test" "repo:a" "h.p.s") (mkJwk "jx" None)
      "ed25519" "AA" (Some 300%Z))); [|exact (Haw _ _)|exact Hex|reflexivity].
    exists [97%Z]. split; [reflexivity|]. split; reflexivity.
Defined.
End MintExample.
