(* ===== verification/Config.v ===== *)
(** * Configuration

    [acdp-registry-types/src/config.rs]: the sections of the configuration with their
    defaults, the rules of the keyless section, and which profiles may be advertised.
    How files and environment variables are merged into the record is the [config]
    crate's. Paths are strings, times in seconds unless a name says otherwise. *)

From Stdlib Require Import QArith.
From S2P Require Import Prelude Text AuthService ClientIp ReadGate SharedLimit Webhook Playground Jwks.

Open Scope registry_scope.
Open Scope Z_scope.

(** ** Sections *)

Record CorsConfig : Type := mkCors { co_allowed_origins : list string; co_public_reads : bool }.

Record TlsConfig : Type := mkTls {
  tls_enabled : bool;
  tls_cert_path : option string;
  tls_key_path : option string
}.

Record RegistrySection : Type := mkRegistry {
  rg_authority : string;
  rg_port : Z;
  rg_bind : string;
  rg_allow_public_bind : bool;
  rg_profiles : list string;
  rg_tls : TlsConfig;
  rg_cross_registry_resolution : bool;
  rg_cors : CorsConfig;
  rg_base_url : string
}.

Definition slash_char : Ascii.ascii := Ascii.ascii_of_nat 47.

Definition effective_base_url (r : RegistrySection) : string :=
  let raw := if bool_decide (trim (rg_base_url r) = "") then "https://" +:+ rg_authority r
             else trim (rg_base_url r) in
  trim_end_matches slash_char raw.

Definition REGISTRY_ADVERTISABLE_PROFILES : list string :=
  ["acdp-registry-core"; "acdp-registry-discovery"; "acdp-registry-federated"; "acdp-registry-receipts";
   "acdp-registry-head-receipts"; "acdp-registry-transparency-log"; "acdp-registry-lifecycle";
   "acdp-registry-changes"; "acdp-registry-events"; "acdp-registry-keyless"].

Inductive StorageBackend : Type := SB_Postgres | SB_Sqlite | SB_Memory.

#[export] Instance StorageBackend_eq_dec : EqDecision StorageBackend.
Proof. solve_decision. Defined.

Record StorageConfig : Type := mkStorage {
  so_backend : StorageBackend;
  so_postgres_url : option string;
  so_sqlite_path : option string;
  so_max_connections : Z
}.

(** [RevocationFeedConfig], whole. *)
Record RevocationFeedSection : Type := mkRevocationFeed {
  rf_issuer : string;
  rf_feed_url : string;
  rf_admin_token : string;
  rf_poll_seconds : Z
}.

(** [AuthConfig], whole; [auth_service_config] is what the service reads of it. *)
Record AuthSection : Type := mkAuthSection {
  au_enabled : bool;
  au_did_methods : list string;
  au_jwt_secret : string;
  au_token_ttl_seconds : Z;
  au_challenge_ttl_seconds : Z;
  au_token_leeway_seconds : Z;
  au_anonymous_public_reads : bool;
  au_jwt_signing_alg : string;
  au_jwt_private_key_pem : string;
  au_jwt_kid : string;
  au_allow_ephemeral_secret : bool;
  au_revocation_feeds : list RevocationFeedSection;
  au_admin_tokens : list string;
  au_tenant_agents : list TenantAgentBinding;
  au_require_tenant : bool;
  au_tenant_header_trust : option TenantHeaderTrust;
  au_read_tokens : list ReadTokenEntry;
  au_max_read_tokens_per_did : Z
}.

Definition AuthConfig_default : AuthSection :=
  mkAuthSection false ["did:web"] "" 3600 300 30 false "HS256" "" "" false [] [] [] false None [] 5.

Definition auth_service_config (a : AuthSection) : AuthConfig :=
  mkAuthConfig (au_challenge_ttl_seconds a) (au_token_ttl_seconds a) (au_did_methods a) (au_tenant_agents a).

#[export] Instance TenantHeaderTrust_eq_dec : EqDecision TenantHeaderTrust.
Proof. solve_decision. Defined.

Definition effective_tenant_header_trust (a : AuthSection) : TenantHeaderTrust :=
  default TH_None (au_tenant_header_trust a).

Definition WebhookConfig_default : WebhookConfig := mkWebhookConfig false "" "" 5 3 1024%nat.

Record LimitsConfig : Type := mkLimitsConfig {
  lc_max_payload_bytes : Z;
  lc_max_embedded_bytes : Z;
  lc_idempotency_key_ttl_seconds : Z;
  lc_publish_rate_per_minute : Z;
  lc_challenge_rate_per_minute : Z
}.

Definition LimitsConfig_default : LimitsConfig := mkLimitsConfig 1048576 65536 86400 60 60.

Inductive SharedLimitBackendKind : Type := SL_Memory | SL_Postgres.

#[export] Instance SharedLimitBackendKind_eq_dec : EqDecision SharedLimitBackendKind.
Proof. solve_decision. Defined.

Inductive UnavailablePostureConfig : Type := UP_Allow | UP_Deny.

#[export] Instance ForwardedHeaderTrust_eq_dec : EqDecision ForwardedHeaderTrust.
Proof. solve_decision. Defined.

(** [RateLimitConfig], whole; [auth_limit_config] is what the middleware reads of it. *)
Record RateLimitSection : Type := mkRateLimitSection {
  rl_enabled : bool;
  rl_per_ip_per_minute : Z;
  rl_global_per_minute : Z;
  rl_trusted_proxies : list string;
  rl_forwarded_header_trust : ForwardedHeaderTrust;
  rl_forwarded_skip_rightmost : Z;
  rl_backend : SharedLimitBackendKind;
  rl_backend_unavailable : UnavailablePostureConfig;
  rl_backend_timeout_ms : Z;
  rl_backend_prune_seconds : Z
}.

Definition RateLimitConfig_default : RateLimitSection :=
  mkRateLimitSection true 60 6000 [] FH_TrustedProxies 0 SL_Memory UP_Allow 250 300.

Definition auth_limit_config (r : RateLimitSection) : RateLimitConfig :=
  mkRateLimitConfig (rl_per_ip_per_minute r) (rl_global_per_minute r).

Definition forwarded_policy (r : RateLimitSection) : ForwardedPolicy :=
  mkForwardedPolicy (proxies_parse_lossy (rl_trusted_proxies r)) (rl_forwarded_header_trust r)
    (Z.to_nat (rl_forwarded_skip_rightmost r)).

Definition MAX_FORWARDED_SKIP_RIGHTMOST : Z := 4.

Record ReadLimitsConfig : Type := mkReadLimits {
  rd_enabled : bool;
  rd_anonymous_per_minute : Z;
  rd_authenticated_per_minute : Z;
  rd_advertise : bool
}.

Definition ReadLimitsConfig_default : ReadLimitsConfig := mkReadLimits false 600 1200 false.

(** The [f64] values: a finite one is a rational. *)
Inductive F64 : Type := Finite (q : Q) | PosInfinity | NegInfinity | NaN.

Definition f64_is_finite (x : F64) : bool := match x with Finite _ => true | _ => false end.

(** [x <= y]: with a NaN on either side nothing compares. *)
Definition f64_le (x y : F64) : bool :=
  match x, y with
  | NaN, _ | _, NaN => false
  | NegInfinity, _ | _, PosInfinity => true
  | Finite a, Finite b => Qle_bool a b
  | _, _ => false
  end.

Record MetricsConfig : Type := mkMetrics {
  mt_enabled : bool;
  mt_bearer_token : string;
  mt_duration_buckets : list F64
}.

Definition default_duration_buckets : list F64 :=
  map (λ n, Finite (n # 1000)) [1; 5; 10; 25; 50; 100; 250; 500; 1000; 2500; 5000; 10000].

Definition MetricsConfig_default : MetricsConfig := mkMetrics false "" default_duration_buckets.

Record RetiredReceiptKey : Type := mkRetiredKey { rk_public_key_b64 : string; rk_key_id_fragment : string }.

Record ReceiptConfig : Type := mkReceipt {
  rc_signing_key_seed_b64 : string;
  rc_signing_key_path : option string;
  rc_key_id_fragment : string;
  rc_retired_keys : list RetiredReceiptKey;
  rc_head_receipts : bool
}.

Definition ReceiptConfig_default : ReceiptConfig := mkReceipt "" None "receipt-key-1" [] false.

Definition is_configured (r : ReceiptConfig) : bool :=
  negb (bool_decide (trim (rc_signing_key_seed_b64 r) = "")) || bool_decide (is_Some (rc_signing_key_path r)).

Record LifecycleConfig : Type := mkLifecycle { lf_enabled : bool }.

Record LogConfig : Type := mkLog { lg_enabled : bool; lg_instance : string }.

Definition LogConfig_default : LogConfig := mkLog false "1".

Record ChangesConfig : Type := mkChangesConfig {
  ch_enabled : bool;
  ch_key_b64 : string;
  ch_key_path : option string;
  ch_key_id : Z;
  ch_cursor_epoch : Z;
  ch_retention_seconds : Z;
  ch_max_change_filters : Z;
  ch_max_changes_page : Z;
  ch_prune_interval_seconds : Z;
  ch_max_change_bucket_length : option Z
}.

Definition ChangesConfig_default : ChangesConfig :=
  mkChangesConfig false "" None 1 0 2592000 100 100 3600 None.

Record EventsConfig : Type := mkEvents { ev_enabled : bool; ev_max_subscriptions_per_requester : Z }.

Definition EventsConfig_default : EventsConfig := mkEvents false 10.

Definition KeylessConfig_default : KeylessConfig := mkKeylessConfig false 600 [] [] 300 3600 5000 65536 10 30.

Record WitnessConfig : Type := mkWitness { wt_did : string; wt_url : string; wt_poll_seconds : Z }.

Record RegistryConfig : Type := mkRegistryConfig {
  registry : RegistrySection;
  storage : StorageConfig;
  auth : AuthSection;
  webhook : WebhookConfig;
  limits : LimitsConfig;
  rate_limit : RateLimitSection;
  read_limits : ReadLimitsConfig;
  metrics : MetricsConfig;
  playground : PlaygroundConfig;
  receipt : ReceiptConfig;
  lifecycle : LifecycleConfig;
  log : LogConfig;
  feed_config : ChangesConfig;
  events : EventsConfig;
  keyless : KeylessConfig;
  witnesses : list WitnessConfig
}.

(** [RegistryConfig::defaults]. *)
Definition defaults : RegistryConfig :=
  mkRegistryConfig
    (mkRegistry "localhost" 8443 "127.0.0.1" false ["acdp-registry-core"; "acdp-registry-discovery"]
       (mkTls false None None) true (mkCors [] false) "")
    (mkStorage SB_Sqlite None (Some "./data/registry.db") 20)
    AuthConfig_default WebhookConfig_default LimitsConfig_default RateLimitConfig_default
    ReadLimitsConfig_default MetricsConfig_default (mkPlayground false [] false) ReceiptConfig_default
    (mkLifecycle false) LogConfig_default ChangesConfig_default EventsConfig_default KeylessConfig_default [].

(** ** The keyless section *)

Definition MIN_KEYLESS_JWKS_CACHE_TTL_SECONDS : Z := 60.
Definition MAX_KEYLESS_JWKS_CACHE_TTL_SECONDS : Z := 3600.
Definition MAX_KEYLESS_JWKS_STALE_SECONDS : Z := 7 * 24 * 3600.
Definition MIN_KEYLESS_FETCH_TIMEOUT_MS : Z := 100.
Definition MIN_KEYLESS_MAX_FETCH_BYTES : Z := 1024.

(** Why the section is refused. *)
Inductive KeylessFault : Type :=
  | KF_AttestationTtl (v : Z)
  | KF_CacheTtl (v : Z)
  | KF_MaxStale (v : Z)
  | KF_FetchTimeout (v : Z)
  | KF_FetchBytes (v : Z)
  | KF_NoIssuer
  | KF_Issuer (i : nat) (issuer : string)
  | KF_IssuerTwice (i : nat) (issuer : string)
  | KF_JwksUri (i : nat) (uri : string)
  | KF_TrustDomain (i : nat) (domain : string)
  | KF_TrustDomainTwice (i : nat) (domain : string)
  | KF_BundleEndpoint (i : nat) (url : string).

(** [url::Url::parse]: the scheme, and whether there is a host; and the characters of a
    text with which of them are white space. *)
Class ConfigText : Type := {
  url_parts : string → option (string * bool);
  chars_of : string → list Z;
  is_whitespace : Z → bool
}.

Section keyless_rules.
Context `{!ConfigText}.

Definition is_https_url (s : string) : bool :=
  match url_parts s with Some (scheme, host) => bool_decide (scheme = "https") && host | None => false end.

Definition is_advertisable_issuer (s : string) : bool :=
  (length (chars_of s) <=? 512)%nat &&
  match strip_prefix "https://" s with
  | Some rest =>
      negb (bool_decide (rest = "")) &&
      negb (existsb (λ c, is_whitespace c || (c =? 65279) || (c =? 35) || (c =? 63)) (chars_of rest))
  | None => false
  end.

Definition is_domain_byte (b : Z) : bool :=
  (97 <=? b) && (b <=? 122) || (48 <=? b) && (b <=? 57) || bool_decide (b ∈ [46; 95; 45]).

Definition is_advertisable_trust_domain (s : string) : bool :=
  negb (bool_decide (s = "")) && (length (as_bytes s) <=? 255)%nat && forallb is_domain_byte (as_bytes s).

Fixpoint validate_oidc_issuers (i : nat) (seen : list string) (l : list OidcIssuer) : result unit KeylessFault :=
  match l with
  | [] => Ok tt
  | o :: l =>
      if negb (is_advertisable_issuer (oi_issuer o)) then Err (KF_Issuer i (oi_issuer o))
      else if bool_decide (oi_issuer o ∈ seen) then Err (KF_IssuerTwice i (oi_issuer o))
      else match oi_jwks_uri o with
           | Some uri => if negb (is_https_url uri) then Err (KF_JwksUri i uri)
                         else validate_oidc_issuers (S i) (oi_issuer o :: seen) l
           | None => validate_oidc_issuers (S i) (oi_issuer o :: seen) l
           end
  end.

Fixpoint validate_trust_domains (i : nat) (seen : list string) (l : list SpiffeDomain) : result unit KeylessFault :=
  match l with
  | [] => Ok tt
  | d :: l =>
      if negb (is_advertisable_trust_domain (sd_trust_domain d)) then Err (KF_TrustDomain i (sd_trust_domain d))
      else if bool_decide (sd_trust_domain d ∈ seen) then Err (KF_TrustDomainTwice i (sd_trust_domain d))
      else if negb (is_https_url (sd_bundle_endpoint d)) then Err (KF_BundleEndpoint i (sd_bundle_endpoint d))
      else validate_trust_domains (S i) (sd_trust_domain d :: seen) l
  end.

Definition within_range (lo v hi : Z) : bool := (lo <=? v) && (v <=? hi).

(** [KeylessConfig::validate]. *)
Definition keyless_validate (k : KeylessConfig) : result unit KeylessFault :=
  if negb (within_range 60 (kc_max_attestation_ttl_seconds k) 3600) then
    Err (KF_AttestationTtl (kc_max_attestation_ttl_seconds k))
  else if negb (within_range MIN_KEYLESS_JWKS_CACHE_TTL_SECONDS (kc_jwks_cache_ttl_seconds k)
                  MAX_KEYLESS_JWKS_CACHE_TTL_SECONDS) then Err (KF_CacheTtl (kc_jwks_cache_ttl_seconds k))
  else if MAX_KEYLESS_JWKS_STALE_SECONDS <? kc_jwks_max_stale_seconds k then
    Err (KF_MaxStale (kc_jwks_max_stale_seconds k))
  else if kc_fetch_timeout_ms k <? MIN_KEYLESS_FETCH_TIMEOUT_MS then
    Err (KF_FetchTimeout (kc_fetch_timeout_ms k))
  else if kc_max_fetch_bytes k <? MIN_KEYLESS_MAX_FETCH_BYTES then Err (KF_FetchBytes (kc_max_fetch_bytes k))
  else if is_empty (kc_oidc_issuers k) && is_empty (kc_spiffe_trust_domains k) then Err KF_NoIssuer
  else
    let? _ := validate_oidc_issuers 0 [] (kc_oidc_issuers k) in
    validate_trust_domains 0 [] (kc_spiffe_trust_domains k).
End keyless_rules.

(** What [keyless_capabilities] advertises. *)
Record KeylessCapabilities : Type := mkKeylessCapabilities {
  accepted_oidc_issuers : list string;
  accepted_spiffe_trust_domains : list string;
  adv_max_attestation_ttl_seconds : Z
}.

Definition keyless_capabilities (k : KeylessConfig) : KeylessCapabilities :=
  mkKeylessCapabilities (map oi_issuer (kc_oidc_issuers k)) (map sd_trust_domain (kc_spiffe_trust_domains k))
    (kc_max_attestation_ttl_seconds k).

(** [keyless_extensions]: the [keyless] member, if there is one. *)
Definition keyless_extensions (k : KeylessConfig) : option KeylessCapabilities :=
  if kc_enabled k then Some (keyless_capabilities k) else None.
