(* ===== verification/Startup.v ===== *)
(** * Startup: keys and refusals

    What [acdp-registry-server/src/main.rs] checks before it serves ([validate_config] and
    the functions it calls), with [acdp-registry-core/src/receipt.rs] and the loader of
    [changes_key.rs]. A refusal is named by a constructor that carries what its message
    interpolates; the message itself is left out. The file system, base64, URL policy and
    key types are the class [StartupSdk]. *)

From stdpp Require Import pretty.
From S2P Require Import Prelude Text Errors ContextTypes AuthService ClientIp ReadGate SharedLimit Webhook KeyAttestations ChangeBucket ChangesKey Playground PublishHandler Jwks Config.

Open Scope registry_scope.
Open Scope Z_scope.

Class StartupSdk : Type := {
  read_to_string : string → result string string;
  path_exists : string → bool;
  b64_standard_decode : string → result (list Z) string;
  (** [SsrfPolicy::default().check_url]. *)
  ssrf_check_url : string → result unit string;
  (** The keys [JwtSigner::new_eddsa] parses. *)
  parse_ed_pem : string → result unit string;
  parse_log_id : string → result unit string;
  did_web_of : string → string;
  (** The public key of a seed, [ReceiptSigner::new], and [did_key_from_ed25519]. *)
  verifying_key_bytes : list Z → list Z;
  ReceiptSigner : Type;
  receipt_signer_new : list Z → string → string → result ReceiptSigner string;
  did_key_from_ed25519 : list Z → string;
  MIN_CHANGE_RETENTION_SECONDS : Z;
  MIN_ADVERTISED_CHANGE_BUCKET_LENGTH : Z
}.

(** ** Receipt keys: [receipt.rs] *)

Inductive ReceiptFault : Type :=
  | RF_BothSources
  | RF_Unreadable (path e : string)
  | RF_NoKey
  | RF_Base64 (e : string)
  | RF_Length (n : nat)
  | RF_Fragment (what got : string)
  | RF_Signer (e : string)
  | RF_RetiredBase64 (e : string)
  | RF_RetiredLength (n : nat).

Section keys.
Context `{!StartupSdk}.

(** The one configured source of a secret: inline text or a file. *)
Definition key_source {E} (inline : string) (path : option string) (both none : E)
    (unreadable : string → string → E) : result string E :=
  match path, bool_decide (trim inline = "") with
  | Some _, false => Err both
  | Some path, true => let? text := map_err (unreadable path) (read_to_string path) in Ok (trim text)
  | None, false => Ok (trim inline)
  | None, true => Err none
  end.

(** [load_signing_key]: the seed. *)
Definition load_signing_key (cfg : ReceiptConfig) : result (list Z) ReceiptFault :=
  let? seed_b64 := key_source (rc_signing_key_seed_b64 cfg) (rc_signing_key_path cfg) RF_BothSources RF_NoKey
                     RF_Unreadable in
  let? bytes := map_err RF_Base64 (b64_standard_decode seed_b64) in
  if negb (length bytes =? 32)%nat then Err (RF_Length (length bytes)) else Ok bytes.

Definition hash_char : Ascii.ascii := Ascii.ascii_of_nat 35.

Definition validated_fragment (fragment what : string) : result string ReceiptFault :=
  let f := trim fragment in
  if bool_decide (f = "") || bool_decide (hash_char ∈ String.list_ascii_of_string f) then
    Err (RF_Fragment what fragment)
  else Ok f.

Definition build_signer (cfg : ReceiptConfig) (authority : string) : result ReceiptSigner ReceiptFault :=
  let? fragment := validated_fragment (rc_key_id_fragment cfg) "receipt.key_id_fragment" in
  let? key := load_signing_key cfg in
  let registry_did := did_web_of authority in
  map_err RF_Signer (receipt_signer_new key registry_did (registry_did +:+ "#" +:+ fragment)).

Definition event_receipts_gate (cfg : RegistryConfig) (acdp_version : string) : bool :=
  lf_enabled (lifecycle cfg) && is_configured (receipt cfg) && version_at_least acdp_version 0 5.

(** [event_receipt_minter]: a second signer under the publish receipt's key. *)
Definition event_receipt_minter (cfg : RegistryConfig) (acdp_version : string) :
    result (option ReceiptSigner) ReceiptFault :=
  if negb (event_receipts_gate cfg acdp_version) then Ok None
  else let? signer := build_signer (receipt cfg) (rg_authority (registry cfg)) in Ok (Some signer).

(** [ed25519_multibase]: the identifier of the key's [did:key]. *)
Definition ed25519_multibase (public_key : list Z) : string :=
  default "" (strip_prefix "did:key:" (did_key_from_ed25519 public_key)).

Definition verification_method_entry (did key_id : string) (public_key : list Z) : Value :=
  VObject [("id", VString key_id); ("type", VString "Ed25519VerificationKey2020");
           ("controller", VString did); ("publicKeyMultibase", VString (ed25519_multibase public_key))].

(** The entry of a retired key. *)
Definition retired_entry (did : string) (retired : RetiredReceiptKey) : result Value ReceiptFault :=
  let? bytes := map_err RF_RetiredBase64 (b64_standard_decode (trim (rk_public_key_b64 retired))) in
  if negb (length bytes =? 32)%nat then Err (RF_RetiredLength (length bytes))
  else
    let? fragment := validated_fragment (rk_key_id_fragment retired) "receipt.retired_keys.key_id_fragment" in
    Ok (verification_method_entry did (did +:+ "#" +:+ fragment) bytes).

Definition build_did_document (cfg : ReceiptConfig) (authority : string) : result Value ReceiptFault :=
  let? key := load_signing_key cfg in
  let did := did_web_of authority in
  let? active_fragment := validated_fragment (rc_key_id_fragment cfg) "receipt.key_id_fragment" in
  let active_id := did +:+ "#" +:+ active_fragment in
  let? retired := collect_ok (retired_entry did) (rc_retired_keys cfg) in
  Ok (VObject
    [("@context", VArray [VString "https://www.w3.org/ns/did/v1";
                          VString "https://w3id.org/security/suites/ed25519-2020/v1"]);
     ("id", VString did);
     ("verificationMethod", VArray (verification_method_entry did active_id (verifying_key_bytes key) :: retired));
     ("assertionMethod", VArray [VString active_id])]).

(** ** The changes key: [load_changes_key] *)

Inductive ChangesKeyFault : Type :=
  | CF_BothSources
  | CF_Unreadable (path e : string)
  | CF_NoKey
  | CF_Base64 (e : string)
  | CF_EqualsSeed
  | CF_Master (e : ChangesKeyError).

Context `{!ChangesCrypto}.

Definition load_changes_key (cfg : ChangesConfig) (receipt : ReceiptConfig) : result ChangesKey ChangesKeyFault :=
  let? key_b64 := key_source (ch_key_b64 cfg) (ch_key_path cfg) CF_BothSources CF_NoKey CF_Unreadable in
  let? master := map_err CF_Base64 (b64_standard_decode key_b64) in
  if match load_signing_key receipt with Ok seed => ct_eq seed master | Err _ => false end then
    Err CF_EqualsSeed
  else
    let? key := map_err CF_Master (from_master master (ch_key_id cfg)) in
    Ok (with_epoch key (ch_cursor_epoch cfg)).
End keys.
