(* ===== verification/Validate.v ===== *)
(** * Startup: validation and capabilities

    [validate_config] of [acdp-registry-server/src/main.rs], check by check, with what an
    accepted configuration advertises ([build_capabilities]). The lines logged as warnings
    are the value of an accepted configuration. *)

From Stdlib Require Import QArith.
From stdpp Require Import pretty.
From S2P Require Import Prelude Text Errors ContextTypes AuthService ClientIp ReadGate SharedLimit Webhook KeyAttestations ChangeBucket ChangesKey Playground PublishHandler Jwks Config Startup.

Open Scope registry_scope.
Open Scope Z_scope.

(** Why a configuration is refused. *)
Inductive Refusal : Type :=
  | CorsBoth
  | JwtAlg (alg : string)
  | SecretMissing
  | SecretPlaceholder
  | SecretBase64 (e : string)
  | SecretShort (n : nat)
  | PemMissing
  | PemInvalid (e : string)
  | AdminTokenBlank (i : nat)
  | AdminTokenPadded (i : nat)
  | WebhookUrlEmpty
  | WebhookUrlRefused (e : string)
  | WebhookSecretEmpty
  | TenancyNotRequired
  | TenancyOnMemory
  | DidMethodUnsupported (m : string)
  | DidWebMissing
  | PlaygroundRefused (e : string)
  | ReceiptRefused (e : ReceiptFault)
  | ProfileIsWitness
  | ProfileUnknown (p : string)
  | ProfileUnbacked (p : string)
  | HeadReceiptsWithoutKey
  | KeylessRefused (e : KeylessFault)
  | KeylessPrerequisites
  | KeylessWithoutLog
  | RetentionTooShort (n : Z)
  | PruneIntervalZero
  | BucketLengthRange (n : Z)
  | BucketLengthWithoutFeed
  | ChangesPrerequisites
  | ChangesOnMemory
  | ChangesLimit (name : string) (v : Z)
  | ChangesKeyRefused (e : ChangesKeyFault)
  | EventsWithoutChanges
  | EventsWithoutAuth
  | EventsNoSubscriptions
  | LogWithoutReceipt
  | LogOnMemory
  | LogInstance (e : string)
  | WitnessesWithoutLog
  | WitnessDid (did : string)
  | WitnessUrl (url e : string)
  | InsecureBind (bind : string)
  | ProxiesRefused (e : string)
  | MatchAllProxy (entry : string)
  | ProxiesUnused
  | TrustWithoutProxies
  | NoTenantSource
  | ReadBudgetsZero
  | AdvertiseWithoutLimits
  | SkipTooLarge (skip : Z)
  | SkipWithoutEffect (skip : Z)
  | ReadTokensWithoutAuth
  | ReadTokensMax (n : Z)
  | ReadTokenNoId
  | ReadTokenIdTwice (id : string)
  | ReadTokenHash (id : string)
  | ReadTokenHashTwice (id : string)
  | ReadTokenNotAdministered (id : string)
  | ReadTokenMethod (id did : string)
  | ReadTokenTenant (id : string)
  | ReadTokensTooMany (did : string) (n : Z)
  | SharedStorage
  | SharedDisabled
  | SharedGlobalZero
  | SharedTimeoutZero
  | SharedPruneZero
  | MetricsTokenBlank
  | BucketsEmpty
  | BucketsNotPositive
  | BucketsNotIncreasing
  | TlsCertMissing
  | TlsKeyMissing
  | TlsCertAbsent (path : string)
  | TlsKeyAbsent (path : string).

Inductive Warning : Type :=
  | PlaygroundWarning (w : string)
  | BucketLengthAdvertised (n : Z)
  | TenantFromAnyPeer (bind : string)
  | NothingToAdvertise
  | ReadCeilingsAdvertised
  | ForwardedFromAnyPeer (skip : Z)
  | ReadTokenExpired (id : string)
  | SingleReadToken (did : string).

(** [if refused { bail!(r) }]. *)
Definition bail_if (refused : bool) (r : Refusal) : result unit Refusal := if refused then Err r else Ok tt.

Definition blank (s : string) : bool := bool_decide (trim s = "").

Definition on_memory (cfg : RegistryConfig) : bool := bool_decide (so_backend (storage cfg) = SB_Memory).

Definition advertises (cfg : RegistryConfig) (p : string) : bool :=
  existsb (λ q, bool_decide (q = p)) (rg_profiles (registry cfg)).

(** The loops of the checks: each entry in turn. *)
Fixpoint check_each {A} (check : nat → A → result unit Refusal) (i : nat) (l : list A) : result unit Refusal :=
  match l with
  | [] => Ok tt
  | x :: l => let? _ := check i x in check_each check (S i) l
  end.

Section validate.
Context `{!StartupSdk} `{!ChangesCrypto} `{!ConfigText} `{!PinnedCrypto}.

(** ** The claimed version *)

Definition ANCHORS_VERSION_CLAIM : Z * string := (5, "0.5.0").

Definition ladder_claims (cfg : RegistryConfig) : list (Z * string) :=
  omap id
    [if negb (is_empty (witnesses cfg)) then Some (4, "0.4.0") else None;
     if rc_head_receipts (receipt cfg) || lf_enabled (lifecycle cfg) || lg_enabled (log cfg)
     then Some (3, "0.3.0") else None;
     if is_configured (receipt cfg) then Some (2, "0.2.0") else None;
     Some (1, "0.1.0")].

Definition acdp_version_claim (cfg : RegistryConfig) : string :=
  match max_by_key fst (ladder_claims cfg ++ [ANCHORS_VERSION_CLAIM]) with
  | Some c => c.2
  | None => ""
  end.

(** ** Authentication *)

(** [JwtSecret::from_base64]. *)
Definition jwt_secret_from_base64 (b64 : string) : result (list Z) Refusal :=
  let? bytes := map_err SecretBase64 (b64_standard_decode (trim b64)) in
  if (length bytes <? 32)%nat then Err (SecretShort (length bytes)) else Ok bytes.

Definition is_eddsa (a : AuthSection) : bool := bool_decide (au_jwt_signing_alg a = "EdDSA").

Definition check_jwt (a : AuthSection) : result unit Refusal :=
  let? _ := bail_if (au_enabled a && negb (bool_decide (au_jwt_signing_alg a ∈ ["HS256"; ""; "EdDSA"])))
              (JwtAlg (au_jwt_signing_alg a)) in
  let? _ := bail_if (au_enabled a && negb (is_eddsa a) && blank (au_jwt_secret a) &&
                     negb (au_allow_ephemeral_secret a)) SecretMissing in
  let? _ := if negb (is_eddsa a) && negb (bool_decide (au_jwt_secret a = "")) then
              if eq_ignore_ascii_case (trim (au_jwt_secret a)) "changeme" then Err SecretPlaceholder
              else let? _ := jwt_secret_from_base64 (au_jwt_secret a) in Ok tt
            else Ok tt in
  if is_eddsa a then
    let? _ := bail_if (blank (au_jwt_private_key_pem a)) PemMissing in
    map_err PemInvalid (parse_ed_pem (au_jwt_private_key_pem a))
  else Ok tt.

Definition check_admin_token (i : nat) (token : string) : result unit Refusal :=
  let? _ := bail_if (blank token) (AdminTokenBlank i) in
  bail_if (negb (bool_decide (token = trim token))) (AdminTokenPadded i).

Definition check_webhook (w : WebhookConfig) : result unit Refusal :=
  if negb (wh_enabled w) then Ok tt
  else
    let? _ := bail_if (bool_decide (wh_url w = "")) WebhookUrlEmpty in
    let? _ := map_err WebhookUrlRefused (ssrf_check_url (wh_url w)) in
    bail_if (blank (wh_secret w)) WebhookSecretEmpty.

Definition check_tenancy (cfg : RegistryConfig) : result unit Refusal :=
  let a := auth cfg in
  let? _ := bail_if (negb (is_empty (au_tenant_agents a)) && negb (au_require_tenant a)) TenancyNotRequired in
  bail_if ((negb (is_empty (au_tenant_agents a)) || au_require_tenant a) && on_memory cfg) TenancyOnMemory.

Definition check_did_methods (methods : list string) : result unit Refusal :=
  let? _ := check_each (λ _ m, bail_if (negb (bool_decide (m ∈ ["did:web"; "did:key"]))) (DidMethodUnsupported m))
              0%nat methods in
  bail_if (negb (existsb (λ m, bool_decide (m = "did:web")) methods)) DidWebMissing.

(** ** Profiles *)

Definition check_receipt (cfg : RegistryConfig) : result unit Refusal :=
  if is_configured (receipt cfg) then
    let? _ := map_err ReceiptRefused (build_signer (receipt cfg) (rg_authority (registry cfg))) in
    let? _ := map_err ReceiptRefused (build_did_document (receipt cfg) (rg_authority (registry cfg))) in
    Ok tt
  else Ok tt.

Definition check_profile (_ : nat) (p : string) : result unit Refusal :=
  if negb (bool_decide (p ∈ REGISTRY_ADVERTISABLE_PROFILES)) then
    Err (if bool_decide (p = "acdp-log-witness") then ProfileIsWitness else ProfileUnknown p)
  else Ok tt.

(** A profile is not advertised without the feature behind it. *)
Definition check_backed (cfg : RegistryConfig) (p : string) (enabled : bool) : result unit Refusal :=
  bail_if (advertises cfg p && negb enabled) (ProfileUnbacked p).

Definition check_receipt_profiles (cfg : RegistryConfig) : result unit Refusal :=
  let r := receipt cfg in
  let? _ := check_backed cfg "acdp-registry-receipts" (is_configured r) in
  let? _ := bail_if (rc_head_receipts r && negb (is_configured r)) HeadReceiptsWithoutKey in
  let? _ := check_backed cfg "acdp-registry-head-receipts" (rc_head_receipts r) in
  let? _ := check_backed cfg "acdp-registry-lifecycle" (lf_enabled (lifecycle cfg)) in
  check_backed cfg "acdp-registry-changes" (ch_enabled (feed_config cfg)).

(** ** Keyless, change feed and subscriptions *)

Definition validate_keyless_at (cfg : RegistryConfig) (acdp_version : string) : result unit Refusal :=
  let k := keyless cfg in
  let? _ := check_backed cfg "acdp-registry-keyless" (kc_enabled k) in
  if negb (kc_enabled k) then Ok tt
  else
    let? _ := map_err KeylessRefused (keyless_validate k) in
    let? _ := bail_if (negb (event_receipts_gate cfg acdp_version)) KeylessPrerequisites in
    bail_if (negb (lg_enabled (log cfg))) KeylessWithoutLog.

Definition validate_keyless (cfg : RegistryConfig) : result unit Refusal :=
  validate_keyless_at cfg (acdp_version_claim cfg).

Definition validate_changes_retention (c : ChangesConfig) : result unit Refusal :=
  let? _ := bail_if (ch_retention_seconds c <? MIN_CHANGE_RETENTION_SECONDS)
              (RetentionTooShort (ch_retention_seconds c)) in
  bail_if (ch_prune_interval_seconds c =? 0) PruneIntervalZero.

Definition change_bucket_length_checks (cfg : RegistryConfig) : result (list Warning) Refusal :=
  match ch_max_change_bucket_length (feed_config cfg) with
  | None => Ok []
  | Some n =>
      let? _ := bail_if (negb (within_range MIN_ADVERTISED_CHANGE_BUCKET_LENGTH n MAX_CHANGE_BUCKET_LENGTH))
                  (BucketLengthRange n) in
      let? _ := bail_if (negb (ch_enabled (feed_config cfg))) BucketLengthWithoutFeed in
      Ok [BucketLengthAdvertised n]
  end.

Definition CHANGES_LIMIT_CEILING : Z := 1000.

Definition check_feed_limit (_ : nat) (limit : string * Z) : result unit Refusal :=
  bail_if (negb (within_range 100 limit.2 CHANGES_LIMIT_CEILING)) (ChangesLimit limit.1 limit.2).

Definition validate_changes (cfg : RegistryConfig) : result unit Refusal :=
  let c := feed_config cfg in
  let? _ := bail_if (negb (event_receipts_gate cfg (acdp_version_claim cfg))) ChangesPrerequisites in
  let? _ := bail_if (on_memory cfg) ChangesOnMemory in
  let? _ := check_each check_feed_limit 0%nat
              [("max_change_filters", ch_max_change_filters c); ("max_changes_page", ch_max_changes_page c)] in
  let? _ := map_err ChangesKeyRefused (load_changes_key c (receipt cfg)) in
  Ok tt.

Definition validate_events (cfg : RegistryConfig) : result unit Refusal :=
  let e := events cfg in
  let? _ := check_backed cfg "acdp-registry-events" (ev_enabled e) in
  if negb (ev_enabled e) then Ok tt
  else
    let? _ := bail_if (negb (ch_enabled (feed_config cfg))) EventsWithoutChanges in
    let? _ := bail_if (negb (au_enabled (auth cfg))) EventsWithoutAuth in
    bail_if (ev_max_subscriptions_per_requester e =? 0) EventsNoSubscriptions.

(** ** The transparency log and its witnesses *)

Definition validate_log (cfg : RegistryConfig) : result unit Refusal :=
  let l := log cfg in
  let? _ := bail_if (lg_enabled l && negb (is_configured (receipt cfg))) LogWithoutReceipt in
  let? _ := bail_if (lg_enabled l && on_memory cfg) LogOnMemory in
  let? _ := if lg_enabled l then
              map_err LogInstance
                (parse_log_id (did_web_of (rg_authority (registry cfg)) +:+ "/log/" +:+ trim (lg_instance l)))
            else Ok tt in
  check_backed cfg "acdp-registry-transparency-log" (lg_enabled l).

Definition check_witness (_ : nat) (w : WitnessConfig) : result unit Refusal :=
  let? _ := bail_if (negb (starts_with (wt_did w) "did:web:") ||
                     (length (as_bytes (wt_did w)) <=? length (as_bytes "did:web:"))%nat) (WitnessDid (wt_did w)) in
  map_err (WitnessUrl (wt_url w)) (ssrf_check_url (wt_url w)).

Definition validate_witnesses (cfg : RegistryConfig) : result unit Refusal :=
  let? _ := bail_if (negb (is_empty (witnesses cfg)) && negb (lg_enabled (log cfg))) WitnessesWithoutLog in
  check_each check_witness 0%nat (witnesses cfg).

(** ** Addresses, proxies and tenants *)

(** [IpAddr::is_loopback]. *)
Definition ip_is_loopback (ip : IpAddr) : bool :=
  match ip with
  | V4 o => bool_decide (hd_error o = Some 127)
  | V6 o => bool_decide (o = replicate 15 0 ++ [1])
  end.

Definition is_loopback_bind (bind : string) : bool :=
  eq_ignore_ascii_case bind "localhost" ||
  match parse_ip bind with Some ip => ip_is_loopback ip | None => false end.

Definition check_bind (cfg : RegistryConfig) : result unit Refusal :=
  let r := registry cfg in
  bail_if (negb (is_loopback_bind (rg_bind r)) && negb (tls_enabled (rg_tls r)) && negb (au_enabled (auth cfg)) &&
           negb (rg_allow_public_bind r)) (InsecureBind (rg_bind r)).

Definition is_match_all (entry : string) : bool :=
  match split_once_slash (trim entry) with
  | (_, Some p) => bool_decide (parse_u8 p = Some 0)
  | (_, None) => false
  end.

(** [refuse_match_all_trusted_proxies]. *)
Definition refuse_match_all_trusted_proxies (entries : list string) : result unit Refusal :=
  check_each (λ _ e, bail_if (is_match_all e) (MatchAllProxy (trim e))) 0%nat entries.

Definition check_proxies (cfg : RegistryConfig) : result unit Refusal :=
  let proxies := rl_trusted_proxies (rate_limit cfg) in
  let? _ := map_err ProxiesRefused (proxies_parse proxies) in
  let? _ := refuse_match_all_trusted_proxies proxies in
  bail_if (negb (rl_enabled (rate_limit cfg)) && negb (rd_enabled (read_limits cfg)) && negb (is_empty proxies) &&
           negb (bool_decide (effective_tenant_header_trust (auth cfg) = TH_TrustedProxies))) ProxiesUnused.

Definition tenant_header_trust_checks (cfg : RegistryConfig) : result (list Warning) Refusal :=
  let a := auth cfg in
  let mode := effective_tenant_header_trust a in
  let? _ := bail_if (bool_decide (mode = TH_TrustedProxies) && is_empty (rl_trusted_proxies (rate_limit cfg)))
              TrustWithoutProxies in
  let? _ := bail_if (au_require_tenant a && is_empty (au_tenant_agents a) && bool_decide (mode = TH_None))
              NoTenantSource in
  Ok (if bool_decide (mode = TH_AnyPeer) && negb (is_loopback_bind (rg_bind (registry cfg)))
      then [TenantFromAnyPeer (rg_bind (registry cfg))] else []).

(** ** Read limits and read tokens *)

(** The advertised ceilings: [None] where there is nothing to promise. *)
Definition advertised_reads_per_minute (cfg : RegistryConfig) : option Z :=
  let reads := read_limits cfg in
  if rd_advertise reads && rd_enabled reads && au_enabled (auth cfg) && (0 <? rd_authenticated_per_minute reads)
  then Some (rd_authenticated_per_minute reads) else None.

Definition advertised_anonymous_reads_per_minute (cfg : RegistryConfig) : option Z :=
  let reads := read_limits cfg in
  if rd_advertise reads && rd_enabled reads && au_anonymous_public_reads (auth cfg) &&
     (0 <? rd_anonymous_per_minute reads)
  then Some (rd_anonymous_per_minute reads) else None.

Definition read_limit_checks (cfg : RegistryConfig) : result (list Warning) Refusal :=
  let reads := read_limits cfg in
  let limit := rate_limit cfg in
  let skip := rl_forwarded_skip_rightmost limit in
  let? _ := bail_if (rd_enabled reads && (rd_anonymous_per_minute reads =? 0) &&
                     (rd_authenticated_per_minute reads =? 0)) ReadBudgetsZero in
  let? _ := bail_if (rd_advertise reads && negb (rd_enabled reads)) AdvertiseWithoutLimits in
  let? _ := bail_if (MAX_FORWARDED_SKIP_RIGHTMOST <? skip) (SkipTooLarge skip) in
  let? _ := bail_if ((0 <? skip) && bool_decide (rl_forwarded_header_trust limit = FH_TrustedProxies) &&
                     is_empty (rl_trusted_proxies limit)) (SkipWithoutEffect skip) in
  Ok ((if rd_advertise reads then
         match advertised_reads_per_minute cfg, advertised_anonymous_reads_per_minute cfg with
         | None, None => [NothingToAdvertise]
         | _, _ => [ReadCeilingsAdvertised]
         end
       else []) ++
      (if bool_decide (rl_forwarded_header_trust limit = FH_AnyPeer) then [ForwardedFromAnyPeer skip] else [])).

(** Whether a DID is of one of the methods: the method, a colon and something more. *)
Definition of_method (did m : string) : bool :=
  match strip_prefix m did with
  | Some r => (1 <? length (as_bytes r))%nat && starts_with r ":"
  | None => false
  end.

Definition check_read_token (a : AuthSection) (ids hashes : list string) (e : ReadTokenEntry) : result unit Refusal :=
  let id := rte_id e in
  let? _ := bail_if (blank id) ReadTokenNoId in
  let? _ := bail_if (bool_decide (id ∈ ids)) (ReadTokenIdTwice id) in
  let? _ := bail_if (bool_decide (parse_sha256_hex (rte_sha256 e) = None)) (ReadTokenHash id) in
  let? _ := bail_if (bool_decide (rte_sha256 e ∈ hashes)) (ReadTokenHashTwice id) in
  let? _ := bail_if (negb (rte_operator_administered e)) (ReadTokenNotAdministered id) in
  let? _ := bail_if (negb (existsb (of_method (rte_did e)) (au_did_methods a))) (ReadTokenMethod id (rte_did e)) in
  match rte_tenant e with
  | Some t => bail_if (blank t || bool_decide (t = RESERVED_TENANT)) (ReadTokenTenant id)
  | None => Ok tt
  end.

(** The loop over the entries: their warnings and refusals, with the ids and hashes seen. *)
Fixpoint check_read_token_entries (a : AuthSection) (now : Z) (ids hashes : list string) (l : list ReadTokenEntry) :
    result (list Warning) Refusal :=
  match l with
  | [] => Ok []
  | e :: l =>
      let? _ := check_read_token a ids hashes e in
      let? rest := check_read_token_entries a now (rte_id e :: ids) (rte_sha256 e :: hashes) l in
      Ok ((if match rte_expires_at e with Some t => t <=? now | None => false end
           then [ReadTokenExpired (rte_id e)] else []) ++ rest)
  end.

(** The counts per DID, a [BTreeMap] in the order of its keys. *)
Fixpoint count_did (did : string) (m : list (string * Z)) : list (string * Z) :=
  match m with
  | [] => [(did, 1)]
  | (d, n) :: m' =>
      if bool_decide (d = did) then (d, n + 1) :: m'
      else if String.ltb did d then (did, 1) :: m
      else (d, n) :: count_did did m'
  end.

Definition dids_counted (l : list ReadTokenEntry) : list (string * Z) :=
  fold_left (λ m e, count_did (rte_did e) m) l [].

Fixpoint check_did_counts (max : Z) (m : list (string * Z)) : result (list Warning) Refusal :=
  match m with
  | [] => Ok []
  | (did, n) :: m =>
      let? _ := bail_if (max <? n) (ReadTokensTooMany did n) in
      let? rest := check_did_counts max m in
      Ok ((if n =? 1 then [SingleReadToken did] else []) ++ rest)
  end.

(** [read_token_checks], at the clock [now]. *)
Definition read_token_checks (cfg : RegistryConfig) (now : Z) : result (list Warning) Refusal :=
  let a := auth cfg in
  if is_empty (au_read_tokens a) then Ok []
  else
    let? _ := bail_if (negb (au_enabled a)) ReadTokensWithoutAuth in
    let? _ := bail_if (au_max_read_tokens_per_did a <? 2) (ReadTokensMax (au_max_read_tokens_per_did a)) in
    let? expired := check_read_token_entries a now [] [] (au_read_tokens a) in
    let? single := check_did_counts (au_max_read_tokens_per_did a) (dids_counted (au_read_tokens a)) in
    Ok (expired ++ single).

(** ** The shared limiter, metrics and TLS *)

Definition validate_shared_rate_limit (cfg : RegistryConfig) : result unit Refusal :=
  let rl := rate_limit cfg in
  if negb (bool_decide (rl_backend rl = SL_Postgres)) then Ok tt
  else
    let? _ := bail_if (negb (bool_decide (so_backend (storage cfg) = SB_Postgres))) SharedStorage in
    let? _ := bail_if (negb (rl_enabled rl)) SharedDisabled in
    let? _ := bail_if (rl_global_per_minute rl =? 0) SharedGlobalZero in
    let? _ := bail_if (rl_backend_timeout_ms rl =? 0) SharedTimeoutZero in
    bail_if (rl_backend_prune_seconds rl =? 0) SharedPruneZero.

(** Some adjacent pair is not strictly increasing. *)
Fixpoint not_increasing (l : list F64) : bool :=
  match l with
  | x :: (y :: _) as l' => f64_le y x || not_increasing l'
  | _ => false
  end.

Definition check_metrics (m : MetricsConfig) : result unit Refusal :=
  if negb (mt_enabled m) then Ok tt
  else
    let b := mt_duration_buckets m in
    let? _ := bail_if (negb (bool_decide (mt_bearer_token m = "")) && blank (mt_bearer_token m)) MetricsTokenBlank in
    let? _ := bail_if (is_empty b) BucketsEmpty in
    let? _ := bail_if (existsb (λ x, negb (f64_is_finite x) || f64_le x (Finite 0)) b) BucketsNotPositive in
    bail_if (not_increasing b) BucketsNotIncreasing.

Definition check_tls (t : TlsConfig) : result unit Refusal :=
  if negb (tls_enabled t) then Ok tt
  else
    let? cert := ok_or (tls_cert_path t) TlsCertMissing in
    let? key := ok_or (tls_key_path t) TlsKeyMissing in
    let? _ := bail_if (negb (path_exists cert)) (TlsCertAbsent cert) in
    bail_if (negb (path_exists key)) (TlsKeyAbsent key).

(** [validate_config], at the wall clock [now_s] for the pins and [now] for the read
    tokens; [display] renders the error of a pin's decoder. *)
Definition validate_config (display : RegistryError → string) (now_s now : Z) (cfg : RegistryConfig) :
    result (list Warning) Refusal :=
  let cors := rg_cors (registry cfg) in
  let? _ := bail_if (co_public_reads cors && negb (is_empty (co_allowed_origins cors))) CorsBoth in
  let? _ := check_jwt (auth cfg) in
  let? _ := check_each check_admin_token 0%nat (au_admin_tokens (auth cfg)) in
  let? _ := check_webhook (webhook cfg) in
  let? _ := check_tenancy cfg in
  let? _ := check_did_methods (au_did_methods (auth cfg)) in
  let? pins := map_err PlaygroundRefused
                 (validate_playground_config display (playground cfg) (is_configured (receipt cfg)) now_s) in
  let? _ := check_receipt cfg in
  let? _ := check_each check_profile 0%nat (rg_profiles (registry cfg)) in
  let? _ := check_receipt_profiles cfg in
  let? _ := validate_keyless cfg in
  let? _ := validate_changes_retention (feed_config cfg) in
  let? buckets := change_bucket_length_checks cfg in
  let? _ := if ch_enabled (feed_config cfg) then validate_changes cfg else Ok tt in
  let? _ := validate_events cfg in
  let? _ := validate_log cfg in
  let? _ := validate_witnesses cfg in
  let? _ := check_bind cfg in
  let? _ := check_proxies cfg in
  let? tenants := tenant_header_trust_checks cfg in
  let? reads := read_limit_checks cfg in
  let? tokens := read_token_checks cfg now in
  let? _ := validate_shared_rate_limit cfg in
  let? _ := check_metrics (metrics cfg) in
  let? _ := check_tls (rg_tls (registry cfg)) in
  Ok (map PlaygroundWarning pins ++ buckets ++ tenants ++ reads ++ tokens).

(** [lifecycle_state_gate]: state of a disabled feature is not served. *)
Definition lifecycle_state_gate (enabled has_state : bool) : bool := negb (has_state && negb enabled).

(** ** What is advertised *)

(** [Limits] of the capabilities document. *)
Record Limits : Type := mkLimits {
  li_max_payload_bytes : Z;
  li_max_embedded_bytes : Z;
  li_idempotency_key_ttl_seconds : option Z;
  li_max_publish_per_minute : option Z;
  li_change_retention_seconds : option Z;
  li_max_change_filters : option Z;
  li_max_changes_page : option Z;
  li_max_change_bucket_length : option Z;
  li_max_subscriptions_per_requester : option Z;
  li_max_reads_per_minute : option Z;
  li_max_anonymous_reads_per_minute : option Z
}.

Record CapabilitiesDocument : Type := mkCapabilitiesDocument {
  cd_acdp_version : string;
  cd_registry_did : string;
  cd_supported_signature_algorithms : list string;
  cd_supported_did_methods : list string;
  cd_profiles : list string;
  cd_limits : Limits;
  cd_read_authentication_methods : list string;
  cd_anonymous_public_reads : bool;
  cd_supports_idempotency_key : bool;
  cd_keyless : option KeylessCapabilities
}.

Definition advertised_change_bucket_length (cfg : RegistryConfig) : option Z :=
  if ch_enabled (feed_config cfg) then ch_max_change_bucket_length (feed_config cfg) else None.

Definition read_authentication_methods (a : AuthSection) : list string :=
  if negb (au_enabled a) then []
  else "bearer_jwt" ::
    (if is_empty (read_tokens_from_config (au_tenant_agents a) (au_read_tokens a)) then [] else ["bearer_static"]).

(** [profiles.push(p)] where the feature is on and the list does not name it yet. *)
Definition append_profile (enabled : bool) (p : string) (profiles : list string) : list string :=
  if enabled && negb (existsb (λ q, bool_decide (q = p)) profiles) then profiles ++ [p] else profiles.

Definition advertised_profiles (cfg : RegistryConfig) : list string :=
  let profiles := if is_empty (rg_profiles (registry cfg))
                  then ["acdp-registry-core"; "acdp-registry-discovery"] else rg_profiles (registry cfg) in
  let profiles := append_profile (lg_enabled (log cfg)) "acdp-registry-transparency-log" profiles in
  let profiles := append_profile (ch_enabled (feed_config cfg)) "acdp-registry-changes" profiles in
  let profiles := append_profile (ev_enabled (events cfg)) "acdp-registry-events" profiles in
  append_profile (kc_enabled (keyless cfg)) "acdp-registry-keyless" profiles.

Definition then_some {A} (b : bool) (v : A) : option A := if b then Some v else None.

Definition u32_max_value : Z := 4294967295.

Definition build_capabilities (cfg : RegistryConfig) : CapabilitiesDocument :=
  let c := feed_config cfg in
  mkCapabilitiesDocument (acdp_version_claim cfg) (did_web_of (rg_authority (registry cfg)))
    ["ed25519"; "ecdsa-p256"] (au_did_methods (auth cfg)) (advertised_profiles cfg)
    (mkLimits (lc_max_payload_bytes (limits cfg)) (lc_max_embedded_bytes (limits cfg))
       (Some (let ttl := lc_idempotency_key_ttl_seconds (limits cfg) in
              if ttl <=? u32_max_value then ttl else u32_max_value))
       None
       (then_some (ch_enabled c) (ch_retention_seconds c))
       (then_some (ch_enabled c) (ch_max_change_filters c))
       (then_some (ch_enabled c) (ch_max_changes_page c))
       (advertised_change_bucket_length cfg)
       (then_some (ev_enabled (events cfg)) (ev_max_subscriptions_per_requester (events cfg)))
       (advertised_reads_per_minute cfg) (advertised_anonymous_reads_per_minute cfg))
    (read_authentication_methods (auth cfg)) (au_anonymous_public_reads (auth cfg)) true
    (keyless_extensions (keyless cfg)).
End validate.
