(* ===== verification/ValidateTheorems.v ===== *)
(** * What an accepted configuration guarantees

    Facts about [Validate.validate_config]: the advertised profiles are honoured, the
    security posture is closed, and the keyless section is what the cache and the verifier
    of [Jwks] and [KeylessToken] assume. *)

From Stdlib Require Import QArith.
From S2P Require Import Prelude Text Errors ContextTypes AuthService ClientIp ReadGate SharedLimit Webhook KeyAttestations ChangeBucket ChangesKey Playground PublishHandler Jwks Config Startup Validate.

Open Scope registry_scope.
Open Scope Z_scope.

(** The checks behind an accepted result, as facts. *)
Ltac units := repeat match goal with u : unit |- _ => destruct u end.

Lemma bail_if_ok b r u : bail_if b r = Ok u → b = false.
Proof. by destruct b. Qed.

Ltac bails :=
  inv_ok; units;
  repeat match goal with
    | Hb : bail_if _ _ = Ok _ |- _ => apply bail_if_ok in Hb
    | Hm : map_err _ _ = Ok _ |- _ => apply map_err_ok in Hm
    end;
  bool_to_prop.

Section accepted.
Context `{!StartupSdk} `{!ChangesCrypto} `{!ConfigText} `{!PinnedCrypto}.

(** The checks an accepted configuration passed. *)
Record accepted (now_s now : Z) (cfg : RegistryConfig) : Prop := {
  ac_jwt : check_jwt (auth cfg) = Ok tt;
  ac_admin : check_each check_admin_token 0%nat (au_admin_tokens (auth cfg)) = Ok tt;
  ac_tenancy : check_tenancy cfg = Ok tt;
  ac_receipt : check_receipt cfg = Ok tt;
  ac_profiles : check_each check_profile 0%nat (rg_profiles (registry cfg)) = Ok tt;
  ac_backed : check_receipt_profiles cfg = Ok tt;
  ac_keyless : validate_keyless cfg = Ok tt;
  ac_retention : validate_changes_retention (feed_config cfg) = Ok tt;
  ac_buckets : ∃ ws, change_bucket_length_checks cfg = Ok ws;
  ac_changes : ch_enabled (feed_config cfg) = true → validate_changes cfg = Ok tt;
  ac_events : validate_events cfg = Ok tt;
  ac_log : validate_log cfg = Ok tt;
  ac_bind : check_bind cfg = Ok tt;
  ac_proxies : check_proxies cfg = Ok tt;
  ac_tenants : ∃ ws, tenant_header_trust_checks cfg = Ok ws;
  ac_reads : ∃ ws, read_limit_checks cfg = Ok ws;
  ac_tokens : ∃ ws, read_token_checks cfg now = Ok ws
}.

Lemma validate_config_accepted display now_s now cfg ws :
  validate_config display now_s now cfg = Ok ws → accepted now_s now cfg.
Proof.
  unfold validate_config. intros Hok. inv_ok.
  units. split; eauto. intros Hc.
  match goal with Hif : (if ch_enabled _ then _ else _) = _ |- _ => by rewrite Hc in Hif end.
Qed.

(** ** Profiles *)

Lemma acdp_version_claim_always cfg : acdp_version_claim cfg = "0.5.0".
Proof.
  unfold acdp_version_claim, ladder_claims.
  destruct (negb _), (_ || _ || _), (is_configured _); reflexivity.
Qed.

Lemma check_each_ok {A} (check : nat → A → result unit Refusal) l : ∀ i x,
  check_each check i l = Ok tt → x ∈ l → ∃ j, check j x = Ok tt.
Proof.
  induction l as [|y l IH]; intros i x Hok Hin; [by apply elem_of_nil in Hin|]. simpl in Hok. inv_ok. units.
  apply elem_of_cons in Hin as [->|Hin]; [by exists i|]. by eapply IH.
Qed.

Definition durable (cfg : RegistryConfig) : Prop := so_backend (storage cfg) ≠ SB_Memory.

(** Receipts can be signed, and their key resolved. *)
Definition signs_receipts (cfg : RegistryConfig) : Prop :=
  ∃ signer doc, build_signer (receipt cfg) (rg_authority (registry cfg)) = Ok signer ∧
    build_did_document (receipt cfg) (rg_authority (registry cfg)) = Ok doc.

Definition honours_feed (cfg : RegistryConfig) : Prop :=
  ch_enabled (feed_config cfg) = true ∧ lf_enabled (lifecycle cfg) = true ∧ signs_receipts cfg ∧ durable cfg ∧
  (∃ key, load_changes_key (feed_config cfg) (receipt cfg) = Ok key) ∧
  MIN_CHANGE_RETENTION_SECONDS ≤ ch_retention_seconds (feed_config cfg) ∧
  100 ≤ ch_max_changes_page (feed_config cfg) ≤ CHANGES_LIMIT_CEILING ∧
  100 ≤ ch_max_change_filters (feed_config cfg) ≤ CHANGES_LIMIT_CEILING.

Definition honours_log (cfg : RegistryConfig) : Prop :=
  lg_enabled (log cfg) = true ∧ signs_receipts cfg ∧ durable cfg.

(** What a profile commits the registry to. *)
Definition honours (cfg : RegistryConfig) (p : string) : Prop :=
  (p = "acdp-registry-receipts" → signs_receipts cfg) ∧
  (p = "acdp-registry-head-receipts" → rc_head_receipts (receipt cfg) = true ∧ signs_receipts cfg) ∧
  (p = "acdp-registry-lifecycle" → lf_enabled (lifecycle cfg) = true) ∧
  (p = "acdp-registry-transparency-log" → honours_log cfg) ∧
  (p = "acdp-registry-changes" → honours_feed cfg) ∧
  (p = "acdp-registry-events" → ev_enabled (events cfg) = true ∧ au_enabled (auth cfg) = true ∧ honours_feed cfg ∧
     ev_max_subscriptions_per_requester (events cfg) ≠ 0) ∧
  (p = "acdp-registry-keyless" → kc_enabled (keyless cfg) = true ∧ keyless_validate (keyless cfg) = Ok tt ∧
     lf_enabled (lifecycle cfg) = true ∧ honours_log cfg).

Lemma configured_signs cfg : check_receipt cfg = Ok tt → is_configured (receipt cfg) = true → signs_receipts cfg.
Proof.
  unfold check_receipt. intros Hok Hc. rewrite Hc in Hok. bails. by eexists _, _.
Qed.

Lemma gate_open cfg v : event_receipts_gate cfg v = true →
  lf_enabled (lifecycle cfg) = true ∧ is_configured (receipt cfg) = true.
Proof. unfold event_receipts_gate. intros Hg. bool_to_prop. tauto. Qed.

Lemma not_on_memory cfg : on_memory cfg = false → durable cfg.
Proof. unfold on_memory, durable. by intros ?%bool_decide_eq_false. Qed.

Lemma check_backed_ok cfg p enabled u :
  check_backed cfg p enabled = Ok u → p ∈ rg_profiles (registry cfg) → enabled = true.
Proof.
  unfold check_backed, advertises. intros Hb%bail_if_ok Hin. destruct enabled; [done|].
  rewrite andb_true_r in Hb. apply not_true_iff_false in Hb. destruct Hb. apply existsb_exists.
  exists p. rewrite -list_elem_of_In. split; [done|]. by apply bool_decide_eq_true.
Qed.

Lemma check_feed_limit_ok i name v u :
  check_feed_limit i (name, v) = Ok u → 100 ≤ v ≤ CHANGES_LIMIT_CEILING.
Proof. unfold check_feed_limit, within_range. intros Hok. bails. simpl in *. lia. Qed.

Lemma honours_feed_on cfg now_s now :
  accepted now_s now cfg → ch_enabled (feed_config cfg) = true → honours_feed cfg.
Proof.
  intros Hacc Hen. pose proof (ac_changes _ _ _ Hacc Hen) as Hch. unfold validate_changes in Hch.
  pose proof (ac_retention _ _ _ Hacc) as Hret. unfold validate_changes_retention in Hret. bails.
  repeat match goal with Hl : check_feed_limit _ _ = Ok _ |- _ => apply check_feed_limit_ok in Hl end.
  match goal with Hg : event_receipts_gate _ _ = true |- _ => destruct (gate_open _ _ Hg) as [Hl Hr] end.
  unfold honours_feed. split_and!; eauto; try lia; [|by apply not_on_memory].
  by apply configured_signs; [apply (ac_receipt _ _ _ Hacc)|].
Qed.

Lemma honours_log_on cfg now_s now :
  accepted now_s now cfg → lg_enabled (log cfg) = true → honours_log cfg.
Proof.
  intros Hacc Hen. pose proof (ac_log _ _ _ Hacc) as Hlog. unfold validate_log in Hlog. rewrite Hen in Hlog. bails.
  simpl in *. split_and!; [done| |by apply not_on_memory].
  apply configured_signs; [apply (ac_receipt _ _ _ Hacc)|]. destruct (is_configured _); naive_solver.
Qed.

Lemma honours_events_on cfg now_s now :
  accepted now_s now cfg → ev_enabled (events cfg) = true →
  au_enabled (auth cfg) = true ∧ honours_feed cfg ∧ ev_max_subscriptions_per_requester (events cfg) ≠ 0.
Proof.
  intros Hacc Hen. pose proof (ac_events _ _ _ Hacc) as Hev. unfold validate_events in Hev. rewrite Hen in Hev.
  bails. simpl in *. bails. split_and!; [done| |done]. by eapply honours_feed_on.
Qed.

Lemma honours_keyless_on cfg now_s now :
  accepted now_s now cfg → kc_enabled (keyless cfg) = true →
  keyless_validate (keyless cfg) = Ok tt ∧ lf_enabled (lifecycle cfg) = true ∧ honours_log cfg.
Proof.
  intros Hacc Hen. pose proof (ac_keyless _ _ _ Hacc) as Hk. unfold validate_keyless, validate_keyless_at in Hk.
  rewrite Hen in Hk. bails. simpl in *. bails.
  match goal with Hg : event_receipts_gate _ _ = true |- _ => destruct (gate_open _ _ Hg) as [Hl Hr] end.
  split_and!; [done|done|]. by eapply honours_log_on.
Qed.

Lemma elem_of_append_profile enabled p q l :
  p ∈ append_profile enabled q l ↔ p ∈ l ∨ enabled = true ∧ p = q.
Proof.
  unfold append_profile. destruct enabled; simpl; [|naive_solver].
  destruct (existsb _ _) eqn:He; simpl; [|rewrite elem_of_app list_elem_of_singleton; naive_solver].
  apply existsb_exists in He as (x & Hin%list_elem_of_In & ->%bool_decide_eq_true). naive_solver.
Qed.

(** Where an advertised profile comes from. *)
Lemma elem_of_advertised cfg p :
  p ∈ advertised_profiles cfg ↔
    (p ∈ rg_profiles (registry cfg) ∨
     rg_profiles (registry cfg) = [] ∧ p ∈ ["acdp-registry-core"; "acdp-registry-discovery"]) ∨
    (lg_enabled (log cfg) = true ∧ p = "acdp-registry-transparency-log") ∨
    (ch_enabled (feed_config cfg) = true ∧ p = "acdp-registry-changes") ∨
    (ev_enabled (events cfg) = true ∧ p = "acdp-registry-events") ∨
    (kc_enabled (keyless cfg) = true ∧ p = "acdp-registry-keyless").
Proof.
  unfold advertised_profiles. rewrite !elem_of_append_profile.
  destruct (rg_profiles (registry cfg)) as [|q l]; simpl; [rewrite elem_of_nil|]; naive_solver.
Qed.

(** A configured profile has its feature on. *)
Lemma configured_profile_on cfg now_s now p :
  accepted now_s now cfg → p ∈ rg_profiles (registry cfg) →
  (p = "acdp-registry-receipts" → is_configured (receipt cfg) = true) ∧
  (p = "acdp-registry-head-receipts" → rc_head_receipts (receipt cfg) = true ∧ is_configured (receipt cfg) = true) ∧
  (p = "acdp-registry-lifecycle" → lf_enabled (lifecycle cfg) = true) ∧
  (p = "acdp-registry-transparency-log" → lg_enabled (log cfg) = true) ∧
  (p = "acdp-registry-changes" → ch_enabled (feed_config cfg) = true) ∧
  (p = "acdp-registry-events" → ev_enabled (events cfg) = true) ∧
  (p = "acdp-registry-keyless" → kc_enabled (keyless cfg) = true).
Proof.
  intros Hacc Hin. pose proof (ac_backed _ _ _ Hacc) as Hb. unfold check_receipt_profiles in Hb.
  pose proof (ac_log _ _ _ Hacc) as Hl. unfold validate_log in Hl.
  pose proof (ac_events _ _ _ Hacc) as He. unfold validate_events in He.
  pose proof (ac_keyless _ _ _ Hacc) as Hk. unfold validate_keyless, validate_keyless_at in Hk. inv_ok.
  repeat match goal with Hc : check_backed _ _ _ = Ok _ |- _ => pose proof (check_backed_ok _ _ _ _ Hc); clear Hc end.
  repeat match goal with Hc : bail_if _ _ = Ok _ |- _ => apply bail_if_ok in Hc end.
  split_and!; try (intros ->; auto; done). intros ->. split; [by auto|].
  assert (rc_head_receipts (receipt cfg) = true) as Hh by auto.
  match goal with Hx : rc_head_receipts _ && _ = false |- _ => rewrite Hh in Hx end. by destruct (is_configured _).
Qed.

(** An advertised profile is a registry profile with its feature on. *)
Lemma advertised_on cfg now_s now p :
  accepted now_s now cfg → p ∈ advertised_profiles cfg →
  p ∈ REGISTRY_ADVERTISABLE_PROFILES ∧
  (p = "acdp-registry-receipts" → is_configured (receipt cfg) = true) ∧
  (p = "acdp-registry-head-receipts" → rc_head_receipts (receipt cfg) = true ∧ is_configured (receipt cfg) = true) ∧
  (p = "acdp-registry-lifecycle" → lf_enabled (lifecycle cfg) = true) ∧
  (p = "acdp-registry-transparency-log" → lg_enabled (log cfg) = true) ∧
  (p = "acdp-registry-changes" → ch_enabled (feed_config cfg) = true) ∧
  (p = "acdp-registry-events" → ev_enabled (events cfg) = true) ∧
  (p = "acdp-registry-keyless" → kc_enabled (keyless cfg) = true).
Proof.
  intros Hacc Hp. apply elem_of_advertised in Hp as [[Hin|[_ Hin]]|Hp].
  - split; [|by eapply configured_profile_on].
    destruct (check_each_ok _ _ _ _ (ac_profiles _ _ _ Hacc) Hin) as [j Hj].
    unfold check_profile in Hj. by destruct (bool_decide _) eqn:Hb; [apply bool_decide_eq_true in Hb|].
  - rewrite elem_of_cons list_elem_of_singleton in Hin. destruct Hin as [-> | ->];
      (split; [by apply (bool_decide_unpack _)|split_and!; discriminate]).
  - destruct Hp as [[Hf ->]|[[Hf ->]|[[Hf ->]|[Hf ->]]]];
      (split; [by apply (bool_decide_unpack _)|split_and!; first [discriminate | by intros _]]).
Qed.

Lemma advertised_honoured cfg now_s now p :
  accepted now_s now cfg → p ∈ advertised_profiles cfg → p ∈ REGISTRY_ADVERTISABLE_PROFILES ∧ honours cfg p.
Proof.
  intros Hacc Hp. destruct (advertised_on cfg now_s now p Hacc Hp) as (Hreg & H1' & H2' & H3' & H4' & H5' & H6' & H7').
  pose proof (configured_signs cfg (ac_receipt _ _ _ Hacc)) as Hsigns.
  split; [done|]. split_and!; intros Heq.
  - by apply Hsigns, H1'.
  - destruct (H2' Heq). split; [done|by apply Hsigns].
  - by apply H3'.
  - by eapply honours_log_on, H4'.
  - by eapply honours_feed_on, H5'.
  - split; [by apply H6'|]. by eapply honours_events_on, H6'.
  - split; [by apply H7'|]. by eapply honours_keyless_on, H7'.
Qed.

(** A registry that starts honours what it advertises. Every profile in the
    capabilities of an accepted configuration is a registry profile with its feature on and
    all the feature rests on: a receipt key that loads and a DID document that carries it,
    durable storage for the log and the feed, the feed's own key (not the receipt's) and at
    least the minimum retention, authentication for subscriptions, the log for keyless
    signing. Conversely each of these features is advertised when on, with its limits, and
    the claimed version is 0.5.0. *)
Theorem accepted_profiles_are_honoured (display : RegistryError → string) (now_s now : Z) (cfg : RegistryConfig)
    (ws : list Warning) :
  validate_config display now_s now cfg = Ok ws →
  let doc := build_capabilities cfg in
  (∀ p, p ∈ cd_profiles doc → p ∈ REGISTRY_ADVERTISABLE_PROFILES ∧ honours cfg p) ∧
  (lg_enabled (log cfg) = true → "acdp-registry-transparency-log" ∈ cd_profiles doc) ∧
  (ch_enabled (feed_config cfg) = true → "acdp-registry-changes" ∈ cd_profiles doc) ∧
  (ev_enabled (events cfg) = true → "acdp-registry-events" ∈ cd_profiles doc) ∧
  (is_Some (cd_keyless doc) ↔ "acdp-registry-keyless" ∈ cd_profiles doc) ∧
  (∀ n, li_change_retention_seconds (cd_limits doc) = Some n → "acdp-registry-changes" ∈ cd_profiles doc ∧
     MIN_CHANGE_RETENTION_SECONDS ≤ n) ∧
  cd_acdp_version doc = "0.5.0".
Proof.
  intros Hacc%validate_config_accepted doc. simpl.
  pose proof (λ p, advertised_on cfg now_s now p Hacc) as Hon. split_and!.
  - intros p. by eapply advertised_honoured.
  - intros ?. apply elem_of_advertised. auto.
  - intros ?. apply elem_of_advertised. auto.
  - intros ?. apply elem_of_advertised. auto 6.
  - unfold keyless_extensions. split.
    + destruct (kc_enabled _) eqn:Hk; [|by intros [? [=]]]. intros _. apply elem_of_advertised. auto 6.
    + intros Hp%Hon. destruct Hp as (_ & _ & _ & _ & _ & _ & _ & Hk). by rewrite Hk.
  - unfold then_some. destruct (ch_enabled _) eqn:Hc; [|done]. intros n [= <-]. split.
    + apply elem_of_advertised. auto.
    + by apply (honours_feed_on cfg now_s now Hacc Hc).
  - apply acdp_version_claim_always.
Qed.

(** ** Posture *)

Lemma check_jwt_ok a :
  check_jwt a = Ok tt → au_enabled a = true →
  (au_jwt_signing_alg a = "EdDSA" ∧ parse_ed_pem (au_jwt_private_key_pem a) = Ok tt) ∨
  (∃ secret, b64_standard_decode (trim (au_jwt_secret a)) = Ok secret ∧ (32 ≤ length secret)%nat) ∨
  (au_jwt_secret a = "" ∧ au_allow_ephemeral_secret a = true).
Proof.
  unfold check_jwt, is_eddsa. intros Hok Hen. rewrite Hen in Hok. inv_ok. units.
  destruct (bool_decide (au_jwt_signing_alg a = "EdDSA")) eqn:Heddsa.
  { left. apply bool_decide_eq_true in Heddsa. by bails. }
  right. destruct (bool_decide (au_jwt_secret a = "")) eqn:Hempty.
  - right. apply bool_decide_eq_true in Hempty. split; [done|]. unfold blank in *. rewrite Hempty in Heqr0.
    by destruct (au_allow_ephemeral_secret a).
  - left. simpl in *. destruct (eq_ignore_ascii_case _ _); [done|]. inv_ok.
    unfold jwt_secret_from_base64 in *. inv_ok.
    destruct (_ <? _)%nat eqn:Hlen; [done|]. apply Nat.ltb_ge in Hlen. bails. eexists. by split.
Qed.

Lemma admin_token_ok i t : check_admin_token i t = Ok tt → t = trim t ∧ t ≠ "".
Proof.
  unfold check_admin_token, blank. intros Hok. inv_ok.
  repeat match goal with Hb : bail_if _ _ = Ok _ |- _ => apply bail_if_ok in Hb end. bool_to_prop.
  split; [done|]. by intros ->.
Qed.

Lemma read_digits_nonneg radix l : ∀ acc n, 0 ≤ radix → 0 ≤ acc → 0 ≤ (read_digits radix acc n l).1.1.
Proof.
  induction l as [|b l IH]; intros acc n Hr Ha; [done|]. simpl.
  destruct (to_digit radix b) as [d|] eqn:Hd; [|done]. apply to_digit_nonneg in Hd. apply IH; nia.
Qed.

Lemma parse_u8_nonneg s n : parse_u8 s = Some n → 0 ≤ n.
Proof.
  unfold parse_u8, read_number. set (l := match as_bytes s with [] => _ | _ => _ end).
  pose proof (read_digits_nonneg 10 l 0 0%nat ltac:(lia) ltac:(lia)) as Hn.
  destruct (read_digits 10 0 0 l) as [[v count] rest]. destruct (_ || _); [done|].
  destruct (is_empty rest); [|done]. by intros [= <-].
Qed.

(** A listed proxy is a block with a prefix. *)
Lemma proxy_has_prefix e c : cidr_parse e = Ok c → is_match_all e = false → 0 < prefix_len c.
Proof.
  unfold cidr_parse, is_match_all. destruct (split_once_slash (trim e)) as [addr [p|]]; intros Hok Hall; inv_ok.
  - apply ok_or_ok in Heqr0. apply bool_decide_eq_false in Hall. destruct (_ <? _)%Z; [done|]. inv_ok. simpl.
    pose proof (parse_u8_nonneg _ _ Heqr0). rewrite Heqr0 in Hall.
    match goal with |- 0 < ?n => assert (n ≠ 0) by congruence end. lia.
  - destruct (_ <? _)%Z; [done|]. inv_ok. simpl. by case_match.
Qed.

Lemma proxies_have_prefixes es : ∀ cs i,
  proxies_parse es = Ok cs → check_each (λ _ e, bail_if (is_match_all e) (MatchAllProxy (trim e))) i es = Ok tt →
  Forall (λ c, 0 < prefix_len c) cs.
Proof.
  induction es as [|e es IH]; intros cs i Hp Hc; simpl in *; inv_ok; [done|]. units.
  constructor; [|by eapply IH]. eapply proxy_has_prefix; [done|]. by eapply bail_if_ok.
Qed.

(** The read tokens of an accepted configuration: ids and hashes name one entry each, and
    an entry binds a DID the operator administers, of an accepted method, to a real
    tenant or none. *)
Definition token_entry_ok (a : AuthSection) (e : ReadTokenEntry) : Prop :=
  (∃ h, parse_sha256_hex (rte_sha256 e) = Some h) ∧ rte_operator_administered e = true ∧
  (∃ m, m ∈ au_did_methods a ∧ of_method (rte_did e) m = true) ∧
  rte_tenant e ≠ Some RESERVED_TENANT ∧ rte_tenant e ≠ Some "".

Lemma check_read_token_ok a ids hashes e :
  check_read_token a ids hashes e = Ok tt → token_entry_ok a e ∧ rte_id e ∉ ids ∧ rte_sha256 e ∉ hashes.
Proof.
  unfold check_read_token, token_entry_ok, blank. intros Hok. inv_ok.
  repeat match goal with Hb : bail_if _ _ = Ok _ |- _ => apply bail_if_ok in Hb end.
  repeat match goal with Hb : bool_decide _ = false |- _ => apply bool_decide_eq_false in Hb end.
  apply negb_false_iff in Heqr3, Heqr4. apply existsb_exists in Heqr4 as (m & Hm%list_elem_of_In & Hof).
  split_and!; try done.
  - destruct (parse_sha256_hex _); [eauto|done].
  - eauto.
  - intros Ht. rewrite Ht in Hok. by apply bail_if_ok in Hok.
  - intros Ht. rewrite Ht in Hok. by apply bail_if_ok in Hok.
Qed.

Lemma check_entries_ok a now l : ∀ ids hashes ws,
  check_read_token_entries a now ids hashes l = Ok ws →
  Forall (token_entry_ok a) l ∧ NoDup (map rte_id l) ∧ NoDup (map rte_sha256 l) ∧
  (∀ x, x ∈ map rte_id l → x ∉ ids) ∧ (∀ x, x ∈ map rte_sha256 l → x ∉ hashes).
Proof.
  induction l as [|e l IH]; intros ids hashes ws Hok; simpl in *.
  { split_and!; try constructor; intros x Hx; by apply elem_of_nil in Hx. }
  inv_ok. units. apply check_read_token_ok in Heqr as (He & Hid & Hhash).
  apply IH in Heqr0 as (Hall & Hids & Hhashes & Hout & Hout').
  split_and!; [by constructor|constructor; [|done]|constructor; [|done]|..].
  - intros Hin. apply (Hout _ Hin). by left.
  - intros Hin. apply (Hout' _ Hin). by left.
  - intros x [->|Hx]%elem_of_cons; [done|]. pose proof (Hout _ Hx). set_solver.
  - intros x [->|Hx]%elem_of_cons; [done|]. pose proof (Hout' _ Hx). set_solver.
Qed.

(** The read tokens are unambiguous, and there are none while authentication is off. *)
Lemma read_tokens_ok cfg now ws :
  read_token_checks cfg now = Ok ws →
  (au_read_tokens (auth cfg) ≠ [] → au_enabled (auth cfg) = true) ∧
  Forall (token_entry_ok (auth cfg)) (au_read_tokens (auth cfg)) ∧
  NoDup (map rte_id (au_read_tokens (auth cfg))) ∧ NoDup (map rte_sha256 (au_read_tokens (auth cfg))).
Proof.
  unfold read_token_checks. intros Hok. destruct (is_empty (au_read_tokens (auth cfg))) eqn:He.
  { destruct (au_read_tokens (auth cfg)); [|done]. split_and!; try constructor. done. }
  inv_ok. repeat match goal with Hb : bail_if _ _ = Ok _ |- _ => apply bail_if_ok in Hb end.
  apply negb_false_iff in Heqr.
  match goal with Hc : check_read_token_entries _ _ _ _ _ = Ok _ |- _ => apply check_entries_ok in Hc end.
  naive_solver.
Qed.

Lemma tenancy_ok cfg now_s now :
  accepted now_s now cfg →
  (au_tenant_agents (auth cfg) ≠ [] → au_require_tenant (auth cfg) = true) ∧
  (au_require_tenant (auth cfg) = true → durable cfg ∧
     (au_tenant_agents (auth cfg) ≠ [] ∨ effective_tenant_header_trust (auth cfg) ≠ TH_None)) ∧
  (effective_tenant_header_trust (auth cfg) = TH_TrustedProxies → rl_trusted_proxies (rate_limit cfg) ≠ []).
Proof.
  intros Hacc. pose proof (ac_tenancy _ _ _ Hacc) as Ht. unfold check_tenancy in Ht.
  destruct (ac_tenants _ _ _ Hacc) as [ws Hw]. unfold tenant_header_trust_checks in Hw. inv_ok.
  repeat match goal with Hb : bail_if _ _ = Ok _ |- _ => apply bail_if_ok in Hb end. split_and!.
  - intros Hne. destruct (au_tenant_agents (auth cfg)); [done|]. by destruct (au_require_tenant (auth cfg)).
  - intros Hr. rewrite Hr orb_true_r in Ht. split; [by apply not_on_memory|].
    destruct (au_tenant_agents (auth cfg)); [right|by left].
    match goal with Hx : _ && _ && bool_decide (_ = TH_None) = false |- _ => rewrite Hr in Hx; simpl in Hx end.
    by eapply bool_decide_eq_false.
  - intros Hm. match goal with Hx : bool_decide (_ = TH_TrustedProxies) && _ = false |- _ =>
      rewrite Hm bool_decide_true // in Hx end. by destruct (rl_trusted_proxies (rate_limit cfg)).
Qed.

(** C36: a registry that starts is closed by default. An accepted configuration binds a
    public address only with TLS, authentication or an explicit opt-in; signs its bearer
    tokens with a parsed key or a secret of at least 32 bytes (or one made at startup,
    where that is opted into); has no blank or padded admin token; trusts no proxy block
    that covers all addresses; requires a tenant as soon as one is configured, and then
    has a store that keeps tenants and a source they can come from; and its read tokens
    are unambiguous and bind only DIDs the operator administers. *)
Theorem accepted_posture_is_closed (display : RegistryError → string) (now_s now : Z) (cfg : RegistryConfig)
    (ws : list Warning) :
  validate_config display now_s now cfg = Ok ws →
  (is_loopback_bind (rg_bind (registry cfg)) = true ∨ tls_enabled (rg_tls (registry cfg)) = true ∨
   au_enabled (auth cfg) = true ∨ rg_allow_public_bind (registry cfg) = true) ∧
  (au_enabled (auth cfg) = true →
   (au_jwt_signing_alg (auth cfg) = "EdDSA" ∧ parse_ed_pem (au_jwt_private_key_pem (auth cfg)) = Ok tt) ∨
   (∃ secret, b64_standard_decode (trim (au_jwt_secret (auth cfg))) = Ok secret ∧ (32 ≤ length secret)%nat) ∨
   (au_jwt_secret (auth cfg) = "" ∧ au_allow_ephemeral_secret (auth cfg) = true)) ∧
  (∀ t, t ∈ au_admin_tokens (auth cfg) → t = trim t ∧ t ≠ "") ∧
  (∃ cs, proxies_parse (rl_trusted_proxies (rate_limit cfg)) = Ok cs ∧ Forall (λ c, 0 < prefix_len c) cs) ∧
  (au_tenant_agents (auth cfg) ≠ [] → au_require_tenant (auth cfg) = true) ∧
  (au_require_tenant (auth cfg) = true → durable cfg ∧
     (au_tenant_agents (auth cfg) ≠ [] ∨ effective_tenant_header_trust (auth cfg) ≠ TH_None)) ∧
  (au_read_tokens (auth cfg) ≠ [] → au_enabled (auth cfg) = true) ∧
  Forall (token_entry_ok (auth cfg)) (au_read_tokens (auth cfg)) ∧
  NoDup (map rte_sha256 (au_read_tokens (auth cfg))).
Proof.
  intros Hacc%validate_config_accepted.
  destruct (tenancy_ok _ _ _ Hacc) as (Ht1 & Ht2 & _).
  destruct (ac_tokens _ _ _ Hacc) as [tws (Hr1 & Hr2 & _ & Hr3)%read_tokens_ok].
  pose proof (ac_bind _ _ _ Hacc) as Hbind%bail_if_ok.
  pose proof (ac_proxies _ _ _ Hacc) as Hp. unfold check_proxies in Hp. inv_ok. units.
  split_and!; try done.
  - destruct (is_loopback_bind _); [auto|]. destruct (tls_enabled _); [auto|].
    destruct (au_enabled _); [auto|]. destruct (rg_allow_public_bind _); auto.
  - apply check_jwt_ok, (ac_jwt _ _ _ Hacc).
  - intros t Hin. destruct (check_each_ok _ _ _ _ (ac_admin _ _ _ Hacc) Hin) as [j Hj]. by eapply admin_token_ok.
  - match goal with Hc : map_err _ _ = Ok _ |- _ => apply map_err_ok in Hc end.
    eexists. split; [done|]. by eapply proxies_have_prefixes.
Qed.

(** ** The keyless section *)

Lemma validate_oidc_nodup l : ∀ i seen u,
  validate_oidc_issuers i seen l = Ok u →
  NoDup (map oi_issuer l) ∧ ∀ x, x ∈ map oi_issuer l → x ∉ seen.
Proof.
  induction l as [|o l IH]; intros i seen u Hok; simpl in *.
  { split; [constructor|]. intros x Hx. by apply elem_of_nil in Hx. }
  destruct (negb _); [done|]. destruct (bool_decide (oi_issuer o ∈ seen)) eqn:Hs; [done|].
  apply bool_decide_eq_false in Hs.
  assert (∃ j v, validate_oidc_issuers j (oi_issuer o :: seen) l = Ok v) as (j & v & Hrest).
  { destruct (oi_jwks_uri o); [destruct (negb _); [done|]|]; eauto. }
  apply IH in Hrest as [Hnd Hout]. split.
  - constructor; [|done]. intros Hin. apply (Hout _ Hin). by left.
  - intros x [->|Hx]%elem_of_cons; [done|]. pose proof (Hout _ Hx). set_solver.
Qed.

(** The bounds the cache and the verifier work under, and one entry to an issuer. *)
Lemma keyless_section_ok cfg now_s now :
  accepted now_s now cfg → kc_enabled (keyless cfg) = true → 
  60 ≤ kc_max_attestation_ttl_seconds (keyless cfg) ≤ 3600 ∧
  MIN_TTL_SECONDS ≤ kc_jwks_cache_ttl_seconds (keyless cfg) ≤ MAX_TTL_SECONDS ∧
  kc_jwks_max_stale_seconds (keyless cfg) ≤ 7 * 24 * 3600 ∧
  NoDup (map oi_issuer (kc_oidc_issuers (keyless cfg))).
Proof.
  intros Hacc Hen. destruct (honours_keyless_on _ _ _ Hacc Hen) as [Hv _].
  unfold keyless_validate, within_range in Hv.
  repeat match type of Hv with (if ?b then _ else _) = _ => destruct b eqn:?; [done|] end.
  inv_ok. apply validate_oidc_nodup in Heqr as [Hnd _].
  unfold MIN_KEYLESS_JWKS_CACHE_TTL_SECONDS, MAX_KEYLESS_JWKS_CACHE_TTL_SECONDS, MAX_KEYLESS_JWKS_STALE_SECONDS,
    MIN_TTL_SECONDS, MAX_TTL_SECONDS in *. bool_to_prop. split_and!; try done; lia.
Qed.
End accepted.
