(* ===== verification/Retention.v ===== *)
(** * Retention of the change feed

    The pruner of [acdp-registry-server/src/main.rs]: one pass deletes the rows of the feed
    that are older than the retention, in bounded batches, while commits go on appending.
    The store is any backend with the contract of [ChangeFeed.FeedContract]. *)

From S2P Require Import Prelude Text Errors ContextTypes AuthService ClientIp ReadGate SharedLimit Webhook KeyAttestations ChangeBucket ChangeFeed FeedBackends ChangesKey Playground PublishHandler Jwks Config Startup Validate ValidateTheorems.

Open Scope registry_scope.
Open Scope Z_scope.

Definition CHANGES_PRUNE_BATCH : Z := 1000.
Definition CHANGES_PRUNE_SKEW_MARGIN_MS : Z := 3600000.

(** [spawn_changes_pruner]'s window, in milliseconds. *)
Definition retention_ms (c : ChangesConfig) : Z :=
  Z.min (u64_saturating_mul (ch_retention_seconds c) 1000) i64_max.

Definition prune_cutoff (now_ms retention : Z) : Z :=
  i64_saturating_sub (i64_saturating_sub now_ms retention) CHANGES_PRUNE_SKEW_MARGIN_MS.

Section pruner.
Context {S Env : Type} `{HC : ChangeSdk} `{HF : !ChangeFeed S Env}.

(** The loop of [prune_changes_once]; [others i] is what other requests do to the store
    before the [i]-th batch. [None] is a pass still running. *)
Fixpoint prune_batches (fuel i : nat) (others : nat → S → S) (cutoff deleted : Z) (s : S) :
    option (result Z AcdpError * S) :=
  match fuel with
  | O => None
  | Datatypes.S fuel =>
      match prune_changes (others i s) cutoff CHANGES_PRUNE_BATCH with
      | (Err e, s) => Some (Err e, s)
      | (Ok n, s) =>
          let deleted := deleted + n in
          if n <? CHANGES_PRUNE_BATCH then Some (Ok deleted, s)
          else prune_batches fuel (Datatypes.S i) others cutoff deleted s
      end
  end.

Definition prune_changes_once (fuel : nat) (others : nat → S → S) (now_ms retention : Z) (s : S) :
    option (result Z AcdpError * S) :=
  prune_batches fuel 0 others (prune_cutoff now_ms retention) 0 s.

(** ** The pass *)

Context `{HFC : !FeedContract S Env}.

Definition older (cutoff : Z) (r : FeedRow) : bool := appended_at_ms r <? cutoff.

(** Commits append rows of their own time to the end of the feed. *)
Definition commits_later (cutoff : Z) (others : nat → S → S) : Prop :=
  ∀ i s a, feed_rep s a → ∃ new, feed_rep (others i s) (a_append a new) ∧ Forall (λ r, cutoff ≤ appended_at_ms r) new.

Lemma take_while_app_stop {A} (f : A → bool) l k :
  Forall (λ x, f x = false) k → take_while f (l ++ k) = take_while f l.
Proof.
  intros Hk. induction l as [|x l IH]; simpl; [|by rewrite IH].
  destruct Hk as [|y k Hy _]; [done|]. simpl. by rewrite Hy.
Qed.

Lemma length_take_while_take {A} (f : A → bool) n l :
  length (take_while f (take n l)) = Nat.min n (length (take_while f l)).
Proof.
  revert n. induction l as [|x l IH]; intros [|n]; simpl; try done. destruct (f x); simpl; [by rewrite IH|done].
Qed.

Lemma take_while_drop {A} (f : A → bool) n l :
  (n ≤ length (take_while f l))%nat → length (take_while f (drop n l)) = (length (take_while f l) - n)%nat.
Proof.
  revert n. induction l as [|x l IH]; intros [|n] Hn; simpl in *; try lia.
  destruct (f x); simpl in *; [|lia]. rewrite IH; lia.
Qed.

Lemma live_appended a new : afeed_wf (a_append a new) → afeed_wf a → live (a_append a new) = live a ++ new.
Proof.
  intros Hwf Hwf0. unfold live. simpl. rewrite filter_app. f_equal.
  assert (Forall (λ r, mark a < seq r) new) as Hnew.
  { apply Forall_forall. intros r Hr. pose proof (wf_sorted _ Hwf) as Hs. simpl in Hs.
    pose proof (mark_le_top a Hwf0) as Hm. unfold top in Hm. destruct (last (ChangeFeed.log a)) as [l|] eqn:Hl.
    - apply last_Some_elem_of in Hl. pose proof (StronglySorted_app_1_elem_of _ _ _ l r Hs Hl Hr) as Hlt.
      unfold seq_lt in Hlt. lia.
    - assert (r ∈ ChangeFeed.log (a_append a new)) as Hin by (simpl; set_solver).
      pose proof (top_elem _ r Hwf Hin). lia. }
  clear -Hnew. induction Hnew as [|r new Hr _ IH]; [done|]. rewrite filter_cons_True; [by rewrite IH|done].
Qed.

(** The rows a pass deletes: those in front of the first that is not old. *)
Definition doomed (cutoff : Z) (a : AFeed) : list FeedRow := take_while (older cutoff) (live a).

Lemma prune_batches_spec cutoff others : commits_later cutoff others → ∀ fuel i deleted s a,
  feed_rep s a → (length (doomed cutoff a) < fuel)%nat →
  ∃ s' a' new, prune_batches fuel i others cutoff deleted s =
      Some (Ok (deleted + Z.of_nat (length (doomed cutoff a))), s') ∧
    feed_rep s' a' ∧ live a' = drop (length (doomed cutoff a)) (live a) ++ new ∧
    Forall (λ r, cutoff ≤ appended_at_ms r) new.
Proof.
  intros Hothers. induction fuel as [|fuel IH]; intros i deleted s a Hrep Hfuel; [lia|]. simpl.
  destruct (Hothers i s a Hrep) as (new & Hrep1 & Hnew).
  pose proof (live_appended a new (rep_wf _ _ Hrep1) (rep_wf _ _ Hrep)) as Hlive.
  assert (doomed cutoff (a_append a new) = doomed cutoff a) as Hdoomed.
  { unfold doomed. rewrite Hlive. apply take_while_app_stop. eapply Forall_impl; [done|]. unfold older. intros r. lia. }
  destruct (rep_prune _ _ cutoff CHANGES_PRUNE_BATCH Hrep1) as (s2 & -> & Hrep2).
  set (n := length (prunable (a_append a new) cutoff CHANGES_PRUNE_BATCH)).
  assert (n = Nat.min (Z.to_nat CHANGES_PRUNE_BATCH) (length (doomed cutoff a))) as Hn.
  { rewrite -Hdoomed. unfold n, prunable, doomed. fold (older cutoff). rewrite length_take_while_take.
    by rewrite Z.max_l. }
  pose proof (live_prune _ cutoff CHANGES_PRUNE_BATCH (rep_wf _ _ Hrep1)) as Hlive2. fold n in Hlive2.
  unfold CHANGES_PRUNE_BATCH in *. destruct (Z.of_nat n <? 1000) eqn:Hlast; bool_to_prop.
  - assert (n = length (doomed cutoff a)) as Hall by lia.
    exists s2, (a_prune (a_append a new) cutoff 1000), new. split_and!; [by rewrite Hall|done| |done].
    rewrite Hlive2 Hlive -Hall. rewrite drop_app_le; [done|].
    rewrite Hall. apply prefix_length, take_while_prefix.
  - assert (Z.to_nat 1000 ≤ length (doomed cutoff a))%nat as Hle by lia.
    assert (n = Z.to_nat 1000) as Hn' by lia.
    assert (length (doomed cutoff a) ≤ length (live a))%nat as Hlen by apply prefix_length, take_while_prefix.
    assert (length (doomed cutoff (a_prune (a_append a new) cutoff 1000)) = (length (doomed cutoff a) - n)%nat) as Hrest.
    { unfold doomed at 1. rewrite Hlive2 take_while_drop; fold (doomed cutoff (a_append a new)); rewrite Hdoomed; lia. }
    destruct (IH (Datatypes.S i) (deleted + Z.of_nat n) s2 _ Hrep2) as (s3 & a3 & new3 & -> & Hrep3 & Hlive3 & Hnew3);
      [lia|].
    exists s3, a3, (new ++ new3). split_and!; [do 2 f_equal; f_equal; rewrite Hrest; lia|done| |by apply Forall_app].
    rewrite Hlive3 Hrest Hlive2 Hlive drop_drop drop_app_le; [|lia].
    by rewrite -app_assoc (_ : (_ + _)%nat = length (doomed cutoff a)); [|lia].
Qed.

Lemma take_while_stops {A} (f : A → bool) l x : hd_error (drop (length (take_while f l)) l) = Some x → f x = false.
Proof. induction l as [|y l IH]; simpl; [done|]. destruct (f y) eqn:Hy; simpl; [done|]. by intros [= <-]. Qed.

Lemma elem_of_take_while {A} (f : A → bool) l x : x ∈ take_while f l → f x = true.
Proof.
  induction l as [|y l IH]; simpl; [by intros ?%elem_of_nil|]. destruct (f y) eqn:Hy; [|by intros ?%elem_of_nil].
  intros [->|Hin]%elem_of_cons; auto.
Qed.

(** A row that is not old is not doomed. *)
Lemma young_survives cutoff a r :
  r ∈ live a → cutoff ≤ appended_at_ms r → r ∈ drop (length (doomed cutoff a)) (live a).
Proof.
  intros Hr Hyoung. rewrite -{1}(take_drop (length (doomed cutoff a)) (live a)) in Hr.
  apply elem_of_app in Hr as [Hr|]; [|done].
  destruct (take_while_prefix (older cutoff) (live a)) as [k Hk].
  unfold doomed in Hr. rewrite {2}Hk take_app_length in Hr. apply elem_of_take_while in Hr. unfold older in Hr. lia.
Qed.

(** The cutoff is older than the shortest retention allowed. *)
Lemma cutoff_spares cfg now_s now now_ms t `{!StartupSdk} `{!ChangesCrypto} `{!ConfigText} `{!PinnedCrypto} :
  accepted now_s now cfg → MIN_CHANGE_RETENTION_SECONDS = 2592000 → 0 ≤ now_ms ≤ i64_max →
  now_ms - t ≤ 2592000 * 1000 + CHANGES_PRUNE_SKEW_MARGIN_MS → prune_cutoff now_ms (retention_ms (feed_config cfg)) ≤ t.
Proof.
  intros Hacc Hmin Hnow Ht. pose proof (ac_retention _ _ _ Hacc) as Hret. unfold validate_changes_retention in Hret.
  inv_ok. apply bail_if_ok in Heqr. apply Z.ltb_ge in Heqr. rewrite Hmin in Heqr.
  unfold prune_cutoff, retention_ms, i64_saturating_sub, u64_saturating_mul, CHANGES_PRUNE_SKEW_MARGIN_MS, i64_min,
    i64_max, u64_max in *. lia.
Qed.

(** C38: the retention is kept and the pass ends. With an accepted configuration, whatever
    backend holds the feed and while commits append, a pass deletes batch after batch and
    returns; a row appended within the last 30 days, even by a clock an hour behind this
    one, is still served afterwards; and the first row then served is
    within the window, so nothing old is left in front of it. *)
Theorem retention_is_kept `{!StartupSdk} `{!ChangesCrypto} `{!ConfigText} `{!PinnedCrypto}
    (display : RegistryError → string) (now_s now now_ms : Z) (cfg : RegistryConfig) (ws : list Warning)
    (others : nat → S → S) (fuel : nat) (s : S) (a : AFeed) :
  let cutoff := prune_cutoff now_ms (retention_ms (feed_config cfg)) in
  validate_config display now_s now cfg = Ok ws → MIN_CHANGE_RETENTION_SECONDS = 2592000 →
  0 ≤ now_ms ≤ i64_max → commits_later cutoff others → feed_rep s a → (length (live a) < fuel)%nat →
  ∃ n s' a', prune_changes_once fuel others now_ms (retention_ms (feed_config cfg)) s = Some (Ok n, s') ∧
    feed_rep s' a' ∧
    (∀ r, r ∈ live a → now_ms - appended_at_ms r ≤ 2592000 * 1000 + CHANGES_PRUNE_SKEW_MARGIN_MS → r ∈ live a') ∧
    (∀ r, hd_error (live a') = Some r → cutoff ≤ appended_at_ms r).
Proof.
  intros cutoff Hacc%validate_config_accepted Hmin Hnow Hothers Hrep Hfuel.
  assert (length (doomed cutoff a) < fuel)%nat as Hf.
  { eapply Nat.le_lt_trans; [apply prefix_length, take_while_prefix|done]. }
  destruct (prune_batches_spec cutoff others Hothers fuel 0 0 s a Hrep Hf) as (s' & a' & new & Hrun & Hrep' & Hlive & Hnew).
  eexists _, s', a'. split_and!; [exact Hrun|done|..].
  - intros r Hr Hyoung. rewrite Hlive. apply elem_of_app. left. apply young_survives; [done|].
    by eapply cutoff_spares.
  - intros r Hr. rewrite Hlive in Hr. destruct (drop _ (live a)) as [|x k] eqn:Hd.
    + destruct Hnew as [|y new Hy _]; [done|]. by injection Hr as <-.
    + injection Hr as <-. assert (older cutoff x = false) as Hx; [|unfold older in Hx; lia].
      apply (take_while_stops _ (live a)). fold (doomed cutoff a). by rewrite Hd.
Qed.
End pruner.
