(* ===== verification/StartupExample.v ===== *)
(** * A registry with everything on

    A configuration that starts, with all the features of [Validate], and the witnesses of
    the theorems on accepted configurations. *)

From S2P Require Import Prelude Text Errors ContextTypes AuthService ClientIp ReadGate SharedLimit Webhook KeyAttestations ChangeBucket ChangeFeed FeedBackends ChangesKey Playground PublishHandler Jwks Config Startup Validate ValidateTheorems Retention.

Open Scope registry_scope.
Open Scope Z_scope.

Module StartupExample.
Import FeedExample ChangesExample.

#[export] Instance plain_startup : StartupSdk := {|
  read_to_string _ := Err "not found";
  path_exists _ := false;
  b64_standard_decode s := Ok (as_bytes s);
  ssrf_check_url _ := Ok tt;
  parse_ed_pem _ := Err "not a key";
  parse_log_id _ := Ok tt;
  did_web_of a := "did:web:" +:+ a;
  verifying_key_bytes k := k;
  ReceiptSigner := string;
  receipt_signer_new _ did key_id := Ok key_id;
  did_key_from_ed25519 _ := "did:key:z6";
  MIN_CHANGE_RETENTION_SECONDS := 2592000;
  MIN_ADVERTISED_CHANGE_BUCKET_LENGTH := 4
|}.

#[export] Instance plain_config_text : ConfigText := {|
  url_parts s := if starts_with s "https://" then Some ("https", true) else None;
  chars_of := as_bytes;
  is_whitespace b := b =? 32
|}.

#[export] Instance plain_pins : PinnedCrypto := {|
  standard_decode s := Ok (as_bytes s);
  pin_verify_ed25519 _ _ _ := Ok tt;
  pin_verify_ecdsa_p256 _ _ _ := Ok tt
|}.

#[local] Existing Instance toy_sdk.
#[local] Existing Instance toy_crypto.

Definition seed : string := "0123456789abcdef0123456789abcdef".
Definition other_seed : string := "fedcba9876543210fedcba9876543210".

Definition zeros64 : string := from_bytes (replicate 64 48).

Definition full_config : RegistryConfig :=
  mkRegistryConfig
    (mkRegistry "reg.test" 8443 "0.0.0.0" false ["acdp-registry-core"; "acdp-registry-receipts"; "acdp-registry-events"]
       (mkTls false None None) true (mkCors [] false) "")
    (mkStorage SB_Sqlite None (Some "r.db") 20)
    (mkAuthSection true ["did:web"] seed 3600 300 30 true "HS256" "" "" false [] ["tok-a"]
       [mkBinding "did:web:a" "t1"] true None
       [mkReadTokenEntry "t1" "did:web:a" zeros64 None (Some "t1") true] 5)
    WebhookConfig_default LimitsConfig_default
    (mkRateLimitSection true 60 6000 ["10.0.0.0/8"] FH_TrustedProxies 0 SL_Memory UP_Allow 250 300)
    ReadLimitsConfig_default MetricsConfig_default (mkPlayground false [] false)
    (mkReceipt seed None "receipt-key-1" [] true)
    (mkLifecycle true) (mkLog true "1")
    (mkChangesConfig true other_seed None 1 0 2592000 100 100 3600 (Some 8))
    (mkEvents true 10)
    (mkKeylessConfig true 600 [mkOidcIssuer "https://idp.test" None] [] 300 3600 5000 65536 10 30) [].

Definition shown (_ : RegistryError) : string := "".

Example full_config_starts :
  validate_config shown 0 0 full_config = Ok [BucketLengthAdvertised 8; SingleReadToken "did:web:a"].
Proof. vm_compute. reflexivity. Qed.

Example full_config_advertises :
  cd_profiles (build_capabilities full_config) =
    ["acdp-registry-core"; "acdp-registry-receipts"; "acdp-registry-events"; "acdp-registry-transparency-log";
     "acdp-registry-changes"; "acdp-registry-keyless"].
Proof. vm_compute. reflexivity. Qed.

(** The defaults start too. *)
Example defaults_start : validate_config shown 0 0 defaults = Ok [].
Proof. vm_compute. reflexivity. Qed.

Definition with_proxies (l : list string) (cfg : RegistryConfig) : RegistryConfig :=
  mkRegistryConfig (registry cfg) (storage cfg) (auth cfg) (webhook cfg) (limits cfg)
    (mkRateLimitSection true 60 6000 l FH_TrustedProxies 0 SL_Memory UP_Allow 250 300)
    (read_limits cfg) (metrics cfg) (playground cfg) (receipt cfg) (lifecycle cfg) (Config.log cfg) (feed_config cfg)
    (events cfg) (keyless cfg) (witnesses cfg).

Definition with_receipt (r : ReceiptConfig) (cfg : RegistryConfig) : RegistryConfig :=
  mkRegistryConfig (registry cfg) (storage cfg) (auth cfg) (webhook cfg) (limits cfg) (rate_limit cfg)
    (read_limits cfg) (metrics cfg) (playground cfg) r (lifecycle cfg) (Config.log cfg) (feed_config cfg)
    (events cfg) (keyless cfg) (witnesses cfg).

(** Some that are refused. *)
Example refusals :
  map (validate_config shown 0 0)
    [with_proxies ["10.0.0.0/8"; " 0.0.0.0/0 "] full_config; with_proxies ["::/0"] defaults;
     with_receipt ReceiptConfig_default full_config; with_receipt (mkReceipt other_seed None "k" [] true) full_config] =
    [Err (MatchAllProxy "0.0.0.0/0"); Err (MatchAllProxy "::/0"); Err (ProfileUnbacked "acdp-registry-receipts");
     Err (ChangesKeyRefused CF_EqualsSeed)].
Proof. vm_compute. reflexivity. Qed.

Lemma accepted_profiles_are_honoured_witness :
  "acdp-registry-keyless" ∈ cd_profiles (build_capabilities full_config) ∧
  honours full_config "acdp-registry-keyless".
Proof.
  pose proof (accepted_profiles_are_honoured shown 0 0 full_config _ full_config_starts) as [Hall _].
  assert ("acdp-registry-keyless" ∈ cd_profiles (build_capabilities full_config)) as Hin
    by (apply (bool_decide_unpack _); vm_compute; exact Logic.I).
  split; [exact Hin|]. apply Hall. exact Hin.
Defined.

Lemma accepted_posture_is_closed_witness :
  is_loopback_bind (rg_bind (registry full_config)) = false ∧ au_enabled (auth full_config) = true ∧
  Forall (token_entry_ok (auth full_config)) (au_read_tokens (auth full_config)).
Proof.
  pose proof (accepted_posture_is_closed shown 0 0 full_config _ full_config_starts)
    as (_ & _ & _ & _ & _ & _ & _ & Htokens & _).
  split; [vm_compute; reflexivity|]. split; [reflexivity|exact Htokens].
Defined.

(** A feed with a row of the first hour of 1970 and one of a moment ago. *)
Definition today : Z := 1800000000000.
Definition mem2 : MemoryFeed :=
  mkMemoryFeed false (push_one today (feed (mkMemoryFeed false (push_one 5 (feed mem0) append1))) append1).
Definition feed2 : AFeed := a_append (a_append empty_feed [row_of_append 1 5 append1]) [row_of_append 2 today append1].

Lemma mem2_rep : mem_rep mem2 feed2.
Proof.
  apply (mem_rep_push_one today (mkMemoryFeed false (push_one 5 (feed mem0) append1))
           (a_append empty_feed [row_of_append 1 5 append1]) append1).
  - apply (mem_rep_push_one 5 mem0 empty_feed append1 mem0_rep ltac:(vm_compute; discriminate) append1_wf).
  - vm_compute. discriminate.
  - apply append1_wf.
Qed.

Lemma retention_is_kept_witness :
  ∃ s' a', prune_changes_once 3 (λ _ s, s) today (retention_ms (feed_config full_config)) mem2 = Some (Ok 1, s') ∧
    mem_rep s' a' ∧ row_of_append 2 today append1 ∈ live a'.
Proof.
  assert (prune_changes_once 3 (λ _ s, s) today (retention_ms (feed_config full_config)) mem2 =
    Some (Ok 1, mkMemoryFeed false (mkFeed [row_of_append 2 today append1] 2 1
                  (Some (fingerprint (row_of_append 1 5 append1)))))) as Hrun by (vm_compute; reflexivity).
  destruct (retention_is_kept (HFC := memory_feed_contract) shown 0 0 today full_config _ (λ _ s, s) 3 mem2 feed2
    full_config_starts eq_refl ltac:(vm_compute; split; discriminate)) as (n & s' & a' & Hrun' & Hrep & Hkept & _).
  - intros i s a Hrep. exists []. split; [|apply List.Forall_nil].
    destruct a. unfold a_append. simpl. rewrite app_nil_r. exact Hrep.
  - exact mem2_rep.
  - vm_compute. apply le_n.
  - rewrite Hrun in Hrun'. injection Hrun' as <- <-. eexists _, a'. split; [exact Hrun|]. split; [exact Hrep|].
    apply Hkept; [apply list_elem_of_In; right; left; reflexivity|vm_compute; discriminate].
Defined.
End StartupExample.
