(* ===== verification/LogHandlers.v ===== *)
(** * The transparency log over HTTP

    [acdp-registry-core/src/log.rs], the serving state with its cache of the head's root,
    and the three endpoints of [acdp-registry-core/src/handlers/log.rs], as computations
    of [Handlers]: [GET /log/checkpoint], [GET /log/proof] and [GET /log/entries]. The
    store's log reads are the class [LogStore]; Merkle trees, checkpoints and their wire
    forms belong to the [acdp] crate and are the class [LogSdk]. The state requests share
    is the store and the cache, a mutex whose critical sections cannot panic. *)

From stdpp Require Import pretty.
From S2P Require Import Prelude Text Errors RateLimit Revocation ContextTypes ClientIp ReadGate ChangeFeed EventReceipts SqliteStore SqliteLog Handlers ReadHandlers Config Startup.

Open Scope registry_scope.
Open Scope handler_scope.

(** ** Types of the SDK *)

(** [acdp::types::log::LogCheckpoint]; the timestamp and the signature are its own. *)
Record LogCheckpoint : Type := mkCheckpoint {
  cp_log_id : string;
  cp_tree_size : Z;
  cp_root_hash : string;
  cp_timestamp : Z;
  cp_signature : string
}.

Record LogInclusion : Type := mkInclusion {
  in_log_id : string;
  in_leaf_index : Z;
  in_tree_size : Z;
  in_inclusion_path : list string;
  in_log_checkpoint : LogCheckpoint;
  in_leaf : option LogLeaf
}.

Record LogConsistencyProof : Type := mkConsistency {
  co_log_id : string;
  co_first_tree_size : Z;
  co_second_tree_size : Z;
  co_consistency_path : list string;
  co_log_checkpoint : LogCheckpoint
}.

Notation hash := (list Z).

Class LogSdk `{!StartupSdk} : Type := {
  merkle_tree_hash : list hash → hash;
  (** Position, leaves. *)
  inclusion_path : nat → list hash → option (list hash);
  (** First size, leaves. *)
  consistency_proof : nat → list hash → option (list hash);
  encode_sha256_hex : hash → string;
  decode_sha256_hex : string → result hash AcdpError;
  (** Log, size, root, time. *)
  mint_log_checkpoint : ReceiptSigner → string → Z → string → Z → result LogCheckpoint AcdpError;
  leaf_from_value : Value → result LogLeaf AcdpError;
  json_value : string → result Value string;
  checkpoint_to_value : LogCheckpoint → result Value string;
  inclusion_to_value : LogInclusion → result Value string;
  consistency_to_value : LogConsistencyProof → result Value string
}.

(** The store's reads of the log and of the witnesses' signatures. *)
Class LogStore (S : Type) : Type := {
  store_log_tree_size : S → Ran (result Z AcdpError);
  store_log_leaf_hashes : Z → S → Ran (result (list hash) AcdpError);
  store_log_leaf_by_ctx : string → S → Ran (result (option LogEntryRecord) AcdpError);
  store_log_leaf_by_index : Z → S → Ran (result (option LogEntryRecord) AcdpError);
  (** From a position up to another. *)
  store_log_entries : Z → Z → S → Ran (result (list LogEntryRecord) AcdpError);
  (** Ids, requester, tenant, [public_arm_open]. *)
  store_visible_ctx_ids : list string → option string → option string → bool → S →
    Ran (result (gset string) AcdpError);
  (** Log, size, root. *)
  store_witness_cosignatures_for : string → Z → string → S → Ran (result (list Value) AcdpError)
}.

(** ** [log.rs] *)

Section state.
Context `{!StartupSdk}.

Record LogState : Type := mkLogState {
  log_signer : ReceiptSigner;
  log_id : string
}.

Inductive LogFault : Type :=
  | LF_NoReceiptKey
  | LF_Signer (fault : ReceiptFault)
  | LF_Instance (e : string).

(** [LogState::from_config]; the cache starts empty. *)
Definition from_config (cfg : RegistryConfig) : result (option LogState) LogFault :=
  if negb (lg_enabled (log cfg)) then Ok None
  else if negb (is_configured (receipt cfg)) then Err LF_NoReceiptKey
  else
    let? signer := map_err LF_Signer (build_signer (receipt cfg) (rg_authority (registry cfg))) in
    let log_id := did_web_of (rg_authority (registry cfg)) +:+ "/log/" +:+ trim (lg_instance (log cfg)) in
    let? _ := map_err LF_Instance (parse_log_id log_id) in
    Ok (Some (mkLogState signer log_id)).
End state.

Definition RootCache : Type := option (Z * string).

Definition cached_root (tree_size : Z) (cache : RootCache) : option string :=
  match cache with
  | Some (size, root) => if (size =? tree_size)%Z then Some root else None
  | None => None
  end.

Definition cache_root (tree_size : Z) (root : string) (cache : RootCache) : RootCache :=
  match cache with
  | Some (size, _) => if (tree_size <? size)%Z then cache else Some (tree_size, root)
  | None => Some (tree_size, root)
  end.

Definition LOG_ENTRIES_PAGE_CAP : Z := 256.

Definition u64_saturating_add (a b : Z) : Z := Z.min u64_max (a + b).

(** What requests share. *)
Record LogShared (S : Type) : Type := mkLogShared {
  lgs_store : S;
  lgs_cache : RootCache
}.
Arguments mkLogShared {S}.
Arguments lgs_store {S}.
Arguments lgs_cache {S}.

(** The query strings. *)
Record LogProofQuery : Type := mkProofQuery {
  pq_ctx_id : option string;
  pq_leaf_index : option string;
  pq_tree_size : option string;
  pq_first : option string;
  pq_second : option string
}.

Record LogEntriesQuery : Type := mkEntriesQuery { eq_start : option string; eq_end : option string }.

Definition log_schema_violation (m : string) : RegistryError := RE_Acdp (SchemaViolation m).

Definition log_not_found : RegistryError := RE_Acdp (NotFound "context not found in the log").

Definition log_not_implemented : RegistryError := RE_Acdp (NotImplemented
  "this registry does not advertise acdp-registry-transparency-log (RFC-ACDP-0012 §11: the /log/* endpoints are not implemented)").

(** [parse_u64] of the handlers. *)
Definition query_u64 (name raw : string) : result Z RegistryError :=
  map_err (λ _, log_schema_violation ("query parameter '" +:+ name +:+
    "' must be a non-negative integer (got '" +:+ raw +:+ "')")) (parse_u64 raw).

Definition to_usize (n : Z) : result nat RegistryError :=
  if (n <=? usize_max)%Z then Ok (Z.to_nat n)
  else Err (log_schema_violation ("tree position " +:+ pretty n +:+ " exceeds the platform bound")).

(** [attach_witness_signatures]: a sibling of the signed object, never an empty one. *)
Definition attach_witness_signatures (value : Value) (cosigs : list Value) : Value :=
  match cosigs, value with
  | _ :: _, VObject _ => set_member "witness_signatures" (VArray cosigs) value
  | _, _ => value
  end.

Section handlers.
Context {S Proven Outside Resolved : Type}.
Context `{!StartupSdk} `{!LogSdk} `{!LogStore S}.
Context `{HC : ChangeSdk} `{HE : !EventSdk} `{!RegistryServer S Proven Outside} `{!ReadServer S Outside Resolved}.
Context {R : Type} `{!RevocationStore R}.

(** The members of [AppState] the handlers read, and the clock of the checkpoint. *)
Record LogEndpoint : Type := mkLogEndpoint {
  lo_log : option LogState;
  lo_gate : GateState (R := R);
  lo_now : Z
}.

(** [LogEntryRecord::leaf_value] and [leaf]. *)
Definition leaf_value (r : LogEntryRecord) : result Value AcdpError :=
  map_err (λ e, RegistryInternal ("stored log leaf for '" +:+ le_ctx_id r +:+ "' is not valid JSON: " +:+ e))
    (json_value (le_leaf_json r)).

Definition record_leaf (r : LogEntryRecord) : result LogLeaf AcdpError :=
  let? v := leaf_value r in leaf_from_value v.

Definition log_state (st : LogEndpoint) : result LogState RegistryError := ok_or (lo_log st) log_not_implemented.

(** A read of the store among the shared state. *)
Definition log_reading {T} (f : S → Ran (result T AcdpError)) :
    HState (LogShared S) → Ran (result T RegistryError) * HState (LogShared S) :=
  reading (λ sh, f (lgs_store sh)).

Definition requester_can_retrieve (who tenant : option string) (ctx_id : string) : H (LogShared S) bool :=
  match ctx_id_parse ctx_id with
  | Err _ => hret false
  | Ok parsed =>
      let! found := hblocking (log_reading (server_retrieve parsed who)) in
      if negb (bool_decide (is_Some found)) then hret false
      else
        match tenant with
        | None => hret true
        | Some t =>
            let! stored := hasync (log_reading (read_tenant_of_ctx ctx_id)) in
            hret (bool_decide (default "default" stored = t))
        end
  end.

(** The mutex is held for one look or one update. *)
Definition look_up_root (tree_size : Z) : H (LogShared S) (option string) := λ aw h,
  (HOk (cached_root tree_size (lgs_cache (hs_store h))), aw, h).

Definition store_root (tree_size : Z) (root : string) : H (LogShared S) unit := λ aw h,
  (HOk tt, aw, with_store (mkLogShared (lgs_store (hs_store h))
                             (cache_root tree_size root (lgs_cache (hs_store h)))) h).

Definition root_for (tree_size : Z) (hashes : list hash) (current : Z) : H (LogShared S) string :=
  let! cached := look_up_root tree_size in
  match cached with
  | Some root => hret root
  | None =>
      let root := encode_sha256_hex (merkle_tree_hash hashes) in
      let! _ := if (tree_size =? current)%Z then store_root tree_size root else hret tt in
      hret root
  end.

Definition mint_checkpoint (st : LogEndpoint) (log : LogState) (tree_size : Z) (root : string) :
    result LogCheckpoint RegistryError :=
  map_err RE_Acdp (mint_log_checkpoint (log_signer log) (log_id log) tree_size root (lo_now st)).

Definition witness_signatures_for (log : LogState) (cp : LogCheckpoint) : H (LogShared S) (list Value) :=
  hasync (log_reading (store_witness_cosignatures_for (log_id log) (cp_tree_size cp) (cp_root_hash cp))).

(** [serde_json::to_value(x)?]. *)
Definition to_value {A} (f : A → result Value string) (a : A) : result Value RegistryError :=
  map_err log_schema_violation (f a).

(** [GET /log/checkpoint]. The [json!] macro panics where a value does not serialize. *)
Definition log_checkpoint (st : LogEndpoint) : H (LogShared S) Value :=
  let! log := hlift (log_state st) in
  let! tree_size := hasync (log_reading store_log_tree_size) in
  let! cached := look_up_root tree_size in
  let! root := match cached with
               | Some root => hret root
               | None =>
                   let! hashes := hasync (log_reading (store_log_leaf_hashes tree_size)) in
                   root_for tree_size hashes tree_size
               end in
  let! checkpoint := hlift (mint_checkpoint st log tree_size root) in
  let! cosigs := witness_signatures_for log checkpoint in
  match cosigs with
  | [] => hlift (to_value checkpoint_to_value checkpoint)
  | _ => hsync (λ h, (match checkpoint_to_value checkpoint with
                      | Ok v => Done (Ok (VObject [("log_checkpoint", v); ("witness_signatures", VArray cosigs)]))
                      | Err e => Panic e
                      end, h))
  end.

(** The record an inclusion proof is about, and whether its leaf may be echoed. *)
Definition inclusion_record (q : LogProofQuery) (who tenant : option string) (current : Z) :
    H (LogShared S) (LogEntryRecord * bool) :=
  match pq_ctx_id q, pq_leaf_index q with
  | Some _, Some _ => hlift (Err (log_schema_violation
      "supply exactly one of ?ctx_id= or ?leaf_index=, not both (RFC-ACDP-0012 §8.2)"))
  | Some ctx_id, None =>
      let! visible := requester_can_retrieve who tenant ctx_id in
      if negb visible then hlift (Err log_not_found)
      else
        let! found := hasync (log_reading (store_log_leaf_by_ctx ctx_id)) in
        let! record := hlift (ok_or found log_not_found) in
        hret (record, true)
  | None, Some raw =>
      let! leaf_index := hlift (query_u64 "leaf_index" raw) in
      let! found := hasync (log_reading (store_log_leaf_by_index leaf_index)) in
      let! record := hlift (ok_or found (log_schema_violation ("leaf_index " +:+ pretty leaf_index +:+
                       " is not < the current tree size " +:+ pretty current +:+ " (RFC-ACDP-0012 §8.2)"))) in
      let! echo := requester_can_retrieve who tenant (le_ctx_id record) in
      hret (record, echo)
  | None, None => hlift (Err (log_schema_violation
      "inclusion mode requires exactly one of ?ctx_id= or ?leaf_index= (RFC-ACDP-0012 §8.2)"))
  end.

(** The size of the tree the proof is in. *)
Definition inclusion_size (q : LogProofQuery) (record : LogEntryRecord) (current : Z) : result Z RegistryError :=
  match pq_tree_size q with
  | None => Ok current
  | Some raw =>
      let? n := query_u64 "tree_size" raw in
      if negb ((le_index record <? n)%Z && (n <=? current)%Z) then
        Err (log_schema_violation ("tree_size must satisfy leaf_index (" +:+ pretty (le_index record) +:+
               ") < tree_size ≤ current size (" +:+ pretty current +:+ "), got " +:+ pretty n +:+
               " (RFC-ACDP-0012 §8.2)"))
      else Ok n
  end.

Definition no_inclusion_path (leaf_index tree_size : Z) : RegistryError :=
  RE_Internal ("no inclusion path for leaf " +:+ pretty leaf_index +:+ " at size " +:+ pretty tree_size).

Definition inclusion_proof_response (st : LogEndpoint) (log : LogState) (req : ReadRequest)
    (principal : ReadPrincipal) (q : LogProofQuery) : H (LogShared S) Value :=
  let who := requester principal in
  let! tenant := hlift (tenant_for_principal (lo_gate st) req principal) in
  let! current := hasync (log_reading store_log_tree_size) in
  let! '(record, echo_leaf) := inclusion_record q who tenant current in
  let! tree_size := hlift (inclusion_size q record current) in
  let! hashes := hasync (log_reading (store_log_leaf_hashes tree_size)) in
  let! position := hlift (to_usize (le_index record)) in
  let! path := hlift (ok_or (inclusion_path position hashes) (no_inclusion_path (le_index record) tree_size)) in
  let! root := root_for tree_size hashes current in
  let! checkpoint := hlift (mint_checkpoint st log tree_size root) in
  let! leaf := if (echo_leaf : bool) then hlift (map_err RE_Acdp (let? l := record_leaf record in Ok (Some l))) else hret None in
  let inclusion := mkInclusion (log_id log) (le_index record) tree_size (map encode_sha256_hex path)
                     checkpoint leaf in
  let! cosigs := witness_signatures_for log checkpoint in
  let! out := hlift (to_value inclusion_to_value inclusion) in
  hret (attach_witness_signatures out cosigs).

Definition consistency_proof_response (st : LogEndpoint) (log : LogState) (q : LogProofQuery) :
    H (LogShared S) Value :=
  match pq_first q, pq_second q with
  | Some first_raw, Some second_raw =>
      let! first := hlift (query_u64 "first" first_raw) in
      let! second := hlift (query_u64 "second" second_raw) in
      let! current := hasync (log_reading store_log_tree_size) in
      if (first =? 0)%Z || (second <? first)%Z || (current <? second)%Z then
        hlift (Err (log_schema_violation ("consistency mode requires 0 < first ≤ second ≤ current tree size (" +:+
          pretty current +:+ "); got first=" +:+ pretty first +:+ ", second=" +:+ pretty second +:+
          " (RFC-ACDP-0012 §8.2)")))
      else
        let! hashes := hasync (log_reading (store_log_leaf_hashes second)) in
        let! size := hlift (to_usize first) in
        let! path := hlift (ok_or (consistency_proof size hashes)
                       (RE_Internal ("no consistency proof for " +:+ pretty first +:+ " → " +:+ pretty second))) in
        let! root := root_for second hashes current in
        let! checkpoint := hlift (mint_checkpoint st log second root) in
        let proof := mkConsistency (log_id log) first second (map encode_sha256_hex path) checkpoint in
        let! cosigs := witness_signatures_for log checkpoint in
        let! out := hlift (to_value consistency_to_value proof) in
        hret (attach_witness_signatures out cosigs)
  | _, _ => hlift (Err (log_schema_violation
      "consistency mode requires both ?first= and ?second= (RFC-ACDP-0012 §8.2)"))
  end.

Definition is_some_str (o : option string) : bool := bool_decide (is_Some o).

(** [GET /log/proof]. *)
Definition log_proof (st : LogEndpoint) (req : ReadRequest) (principal : ReadPrincipal) (q : LogProofQuery) :
    H (LogShared S) Value :=
  let! log := hlift (log_state st) in
  let inclusion_mode := is_some_str (pq_ctx_id q) || is_some_str (pq_leaf_index q) || is_some_str (pq_tree_size q) in
  let consistency_mode := is_some_str (pq_first q) || is_some_str (pq_second q) in
  if inclusion_mode && consistency_mode then
    hlift (Err (log_schema_violation
      "mixing the inclusion parameters (ctx_id / leaf_index / tree_size) with the consistency parameters (first / second) is not allowed (RFC-ACDP-0012 §8.2)"))
  else if consistency_mode then consistency_proof_response st log q
  else if negb inclusion_mode then
    hlift (Err (log_schema_violation
      "GET /log/proof requires either ?ctx_id= or ?leaf_index= (inclusion mode) or ?first=&second= (consistency mode) (RFC-ACDP-0012 §8.2)"))
  else inclusion_proof_response st log req principal q.

(** One entry of the page: the hash for everyone, the leaf where the context is visible. *)
Definition entry_members (r : LogEntryRecord) : Value :=
  VObject [("leaf_index", VNumber (pretty (le_index r))); ("leaf_hash", VString (le_leaf_hash r))].

Definition entry_of (visible : gset string) (r : LogEntryRecord) : result Value RegistryError :=
  if bool_decide (le_ctx_id r ∈ visible) then
    let? leaf := map_err RE_Acdp (leaf_value r) in Ok (set_member "leaf" leaf (entry_members r))
  else Ok (entry_members r).

(** [GET /log/entries]. *)
Definition log_entries (st : LogEndpoint) (req : ReadRequest) (principal : ReadPrincipal) (q : LogEntriesQuery) :
    H (LogShared S) Value :=
  let! log := hlift (log_state st) in
  match eq_start q, eq_end q with
  | Some start_raw, Some end_raw =>
      let! start := hlift (query_u64 "start" start_raw) in
      let! stop := hlift (query_u64 "end" end_raw) in
      let! current := hasync (log_reading store_log_tree_size) in
      if negb ((start <? stop)%Z && (stop <=? current)%Z) then
        hlift (Err (log_schema_violation ("entries range must satisfy start < end ≤ current tree size (" +:+
          pretty current +:+ "); got start=" +:+ pretty start +:+ ", end=" +:+ pretty stop +:+
          " (RFC-ACDP-0012 §8.3)")))
      else
        let capped_end := Z.min stop (u64_saturating_add start LOG_ENTRIES_PAGE_CAP) in
        let who := requester principal in
        let! tenant := hlift (tenant_for_principal (lo_gate st) req principal) in
        let! records := hasync (log_reading (store_log_entries start capped_end)) in
        let! visible := hasync (log_reading (store_visible_ctx_ids (map le_ctx_id records) who tenant
                                               (cap_anonymous_public_reads capabilities))) in
        let! entries := hlift (collect_ok (entry_of visible) records) in
        hret (VObject [("log_id", VString (log_id log)); ("start", VNumber (pretty start));
                       ("entries", VArray entries)])
  | _, _ => hlift (Err (log_schema_violation
      "GET /log/entries requires both ?start= and ?end= (0-based, start inclusive, end exclusive) (RFC-ACDP-0012 §8.3)"))
  end.
End handlers.
