(* ===== verification/LogTheorems.v ===== *)
(** * What the log endpoints answer

    The handlers of [LogHandlers] are proved against [LogContract], what a store promises
    of its log reads: they answer about one list of records that only grows at its end.
    Assertions about the log are [Stable]: once true they stay true while other requests
    append, so a fact of one read still holds at the next. The cache of the head's root is
    part of the invariant [log_inv]. *)

From S2P Require Import Prelude Text Errors RateLimit Revocation ContextTypes ClientIp ReadGate ChangeFeed EventReceipts SqliteStore SqliteLog Handlers ReadHandlers Config Startup LogHandlers.

Open Scope registry_scope.
Open Scope handler_scope.

(** ** Contracts *)

Section heads.
Context `{!StartupSdk} `{!LogSdk}.

Definition leaf_hashes (l : list LogEntryRecord) : result (list hash) AcdpError :=
  collect_ok (λ r, decode_sha256_hex (le_leaf_hash r)) l.

(** [root] is the root over the first [n] records. *)
Definition head_of (l : list LogEntryRecord) (n : Z) (root : string) : Prop :=
  (0 ≤ n ≤ Z.of_nat (length l))%Z ∧
  ∃ hs, leaf_hashes (take (Z.to_nat n) l) = Ok hs ∧ root = encode_sha256_hex (merkle_tree_hash hs).

Lemma take_prefix {A} n (l l' : list A) :
  l `prefix_of` l' → (0 ≤ n ≤ Z.of_nat (length l))%Z → take (Z.to_nat n) l' = take (Z.to_nat n) l.
Proof. intros [k ->] Hn. by rewrite take_app_le; [|lia]. Qed.

Lemma head_of_unique l l' n root root' :
  l `prefix_of` l' → head_of l n root → head_of l' n root' → root = root'.
Proof.
  intros Hl (Hn & hs & Hh & ->) (_ & hs' & Hh' & ->). rewrite (take_prefix n l) in Hh'; [|done..]. congruence.
Qed.
End heads.

(** What the [acdp] crate documents of its checkpoints and paths. *)
Class LogSdkLaws `{!StartupSdk} `{!LogSdk} : Prop := {
  mint_fields signer id n root now cp :
    mint_log_checkpoint signer id n root now = Ok cp →
    cp_log_id cp = id ∧ cp_tree_size cp = n ∧ cp_root_hash cp = root;
  inclusion_path_in_range i hs p : inclusion_path i hs = Some p → (i < length hs)%nat
}.

Class LogContract (S : Type) `{!StartupSdk} `{!LogSdk} `{!LogStore S} : Type := {
  (** The stores the contract speaks of, and their log. *)
  log_good : S → Prop;
  log_of : S → list LogEntryRecord;
  lc_index s i r : log_good s → log_of s !! i = Some r → le_index r = Z.of_nat i;
  lc_size s n : log_good s → store_log_tree_size s = Done (Ok n) → n = Z.of_nat (length (log_of s));
  lc_hashes s n hs :
    log_good s → (0 ≤ n ≤ Z.of_nat (length (log_of s)))%Z → store_log_leaf_hashes n s = Done (Ok hs) →
    leaf_hashes (take (Z.to_nat n) (log_of s)) = Ok hs;
  lc_by_ctx s id r :
    log_good s → store_log_leaf_by_ctx id s = Done (Ok (Some r)) → r ∈ log_of s ∧ le_ctx_id r = id;
  lc_by_index s i r :
    log_good s → store_log_leaf_by_index i s = Done (Ok (Some r)) → r ∈ log_of s ∧ le_index r = i;
  lc_entries s a b rs :
    log_good s → (0 ≤ a ≤ b)%Z → (b ≤ Z.of_nat (length (log_of s)))%Z → store_log_entries a b s = Done (Ok rs) →
    rs = drop (Z.to_nat a) (take (Z.to_nat b) (log_of s))
}.

(** ** Stable assertions *)

Class Stable (A : list LogEntryRecord → Prop) : Prop := stable l l' : l `prefix_of` l' → A l → A l'.

#[export] Instance stable_const (P : Prop) : Stable (λ _, P).
Proof. by intros l l'. Qed.

#[export] Instance stable_and A B : Stable A → Stable B → Stable (λ l, A l ∧ B l).
Proof. intros HA HB l l' Hl [??]. split; [by eapply HA|by eapply HB]. Qed.

#[export] Instance stable_or A B : Stable A → Stable B → Stable (λ l, A l ∨ B l).
Proof. intros HA HB l l' Hl [?|?]; [left; by eapply HA|right; by eapply HB]. Qed.

#[export] Instance stable_exist {X} (A : X → list LogEntryRecord → Prop) :
  (∀ x, Stable (A x)) → Stable (λ l, ∃ x, A x l).
Proof. intros HA l l' Hl [x Hx]. exists x. by eapply HA. Qed.

#[export] Instance stable_lookup i r : Stable (λ l, l !! i = Some r).
Proof. intros l l' Hl Hi. by eapply prefix_lookup_Some. Qed.

#[export] Instance stable_elem r : Stable (λ l, r ∈ l).
Proof. intros l l' [k ->] Hr. apply elem_of_app. by left. Qed.

#[export] Instance stable_prefix l0 : Stable (λ l, l0 `prefix_of` l).
Proof. intros l l' Hl Hp. by etrans. Qed.

#[export] Instance stable_length n : Stable (λ l, (n ≤ Z.of_nat (length l))%Z).
Proof. intros l l' Hl%prefix_length. lia. Qed.

#[export] Instance stable_head `{!StartupSdk} `{!LogSdk} n root : Stable (λ l, head_of l n root).
Proof.
  intros l l' Hl (Hn & hs & Hh & ->). split; [apply prefix_length in Hl; lia|]. exists hs.
  by rewrite (take_prefix n l).
Qed.

(** The hashes of the first [n] records. *)
Definition hashes_of `{!StartupSdk} `{!LogSdk} (n : Z) (hs : list hash) (l : list LogEntryRecord) : Prop :=
  (0 ≤ n ≤ Z.of_nat (length l))%Z ∧ leaf_hashes (take (Z.to_nat n) l) = Ok hs.

#[export] Instance stable_hashes `{!StartupSdk} `{!LogSdk} n hs : Stable (hashes_of n hs).
Proof.
  intros l l' Hl [Hn Hh]. split; [apply prefix_length in Hl; lia|]. by rewrite (take_prefix n l).
Qed.

(** A range of the log. *)
Definition range_of (a b : Z) (rs l : list LogEntryRecord) : Prop :=
  (0 ≤ a < b)%Z ∧ (b ≤ Z.of_nat (length l))%Z ∧ rs = drop (Z.to_nat a) (take (Z.to_nat b) l).

#[export] Instance stable_range a b rs : Stable (range_of a b rs).
Proof.
  intros l l' Hl (Ha & Hb & Hr). split_and!; [lia..|apply prefix_length in Hl; lia|].
  by rewrite (take_prefix b l); [|done|lia].
Qed.

(** ** Triples over a growing log *)

Section serving.
Context {S Proven Outside Resolved : Type}.
Context `{!StartupSdk} `{!LogSdk} `{!LogSdkLaws} `{!LogStore S} `{!LogContract S}.
Context `{HC : ChangeSdk} `{HE : !EventSdk} `{!RegistryServer S Proven Outside} `{!ReadServer S Outside Resolved}.
Context {R : Type} `{!RevocationStore R}.
(** Anything else that is known of the store and kept, the log at the start, and what was
    set off before. *)
Context (J : S → Prop) (l0 : list LogEntryRecord) (e0 : list Effect).

Definition shared_log (sh : LogShared S) : list LogEntryRecord := log_of (lgs_store sh).

Definition log_inv (sh : LogShared S) : Prop :=
  J (lgs_store sh) ∧ log_good (lgs_store sh) ∧
  ∀ n root, lgs_cache sh = Some (n, root) → head_of (shared_log sh) n root.

(** Other requests keep the invariant and only append. *)
Definition grows (o : LogShared S → LogShared S) : Prop :=
  ∀ sh, log_inv sh → log_inv (o sh) ∧ shared_log sh `prefix_of` shared_log (o sh).

Definition holds (A : list LogEntryRecord → Prop) (h : HState (LogShared S)) : Prop :=
  log_inv (hs_store h) ∧ l0 `prefix_of` shared_log (hs_store h) ∧ hs_effects h = e0 ∧
  A (shared_log (hs_store h)).

(** However [m] ends, the invariant holds, the log has only grown and nothing was set off;
    an answer is as [B] says. *)
Definition log_triple {T} (A : list LogEntryRecord → Prop) (m : H (LogShared S) T)
    (B : T → list LogEntryRecord → Prop) : Prop :=
  gtriple grows (holds A) m (λ r h, holds (λ l, ∀ v, r = HOk v → B v l) h).

Lemma grows_id : grows id.
Proof. by intros sh. Qed.

Lemma lt_ret {T} A (v : T) (B : T → list LogEntryRecord → Prop) :
  (∀ l, A l → B v l) → log_triple A (hret v) B.
Proof.
  intros HB. apply gtriple_ret. intros h (Hi & Hp & He & Ha). split_and!; [done..|].
  intros v' [= <-]. by apply HB.
Qed.

Lemma lt_lift {T} A (r : result T RegistryError) (B : T → list LogEntryRecord → Prop) :
  (∀ v l, r = Ok v → A l → B v l) → log_triple A (hlift r) B.
Proof.
  intros HB. apply gtriple_lift. intros h (Hi & Hp & He & Ha). destruct r; (split_and!; [done..|]).
  - intros ? [= <-]. by apply HB.
  - done.
Qed.

Lemma lt_err {T} A e (B : T → list LogEntryRecord → Prop) : log_triple A (hlift (Err e)) B.
Proof. apply gtriple_lift. intros h (Hi & Hp & He & Ha). by split_and!. Qed.

Lemma lt_bind {T U} A (m : H (LogShared S) T) (k : T → H (LogShared S) U) B (C : U → list LogEntryRecord → Prop) :
  log_triple A m B → (∀ v, log_triple (B v) (k v) C) → log_triple A (hbind m k) C.
Proof.
  intros Hm Hk. apply (gtriple_bind _ _ _ _ (λ v, holds (B v))); [|done].
  eapply gtriple_weaken; [exact Hm|done|]. intros r h (Hi & Hp & He & Hb).
  destruct r; simpl; [split_and!; [done..|by apply Hb]|by split_and!..].
Qed.

Lemma lt_weaken {T} A A' (m : H (LogShared S) T) B B' :
  log_triple A' m B' → (∀ l, A l → A' l) → (∀ v l, B' v l → B v l) → log_triple A m B.
Proof.
  intros Hm HA HB. eapply gtriple_weaken; [exact Hm|..].
  - intros h (Hi & Hp & He & Ha). split_and!; [done..|by apply HA].
  - intros r h (Hi & Hp & He & Hb). split_and!; [done..|]. intros v Hv. by apply HB, Hb.
Qed.

(** The [?] in front of a rest. *)
Lemma lt_lift_bind {T U} A (r : result T RegistryError) (k : T → H (LogShared S) U) C :
  (∀ v, r = Ok v → log_triple A (k v) C) → log_triple A (hbind (hlift r) k) C.
Proof.
  intros Hk. apply (lt_bind _ _ _ (λ v l, r = Ok v ∧ A l)); [by apply lt_lift|].
  intros v aw h Haw (Hi & Hp & He & Hr & Ha).
  apply (Hk v Hr); [done|]. by split_and!.
Qed.

(** A read of the store: what it answers is a fact of a store that satisfies the
    invariant and whose log lies between the logs before and after. *)
Lemma lt_read {T} A (B : T → list LogEntryRecord → Prop) on_panic (f : S → Ran (result T AcdpError)) :
  Stable A → (∀ m v, on_panic m ≠ HOk v) →
  (∀ v s, J s → log_good s → l0 `prefix_of` log_of s → A (log_of s) → f s = Done (Ok v) → B v (log_of s)) →
  log_triple A (hawaited on_panic (log_reading f)) (λ v l, A l ∧ B v l).
Proof.
  intros HA Hp Hf. apply gtriple_awaited; [apply grows_id|]. intros o h Ho (Hi & Hl & He & Ha).
  destruct (Ho _ Hi) as [Hi' Hg]. set (sh := o (hs_store h)) in *.
  assert (∀ C : list LogEntryRecord → Prop, C (shared_log sh) → holds C (with_store sh h)) as Hh.
  { intros C HC'. split_and!; [done|by etrans|done|done]. }
  assert (A (shared_log sh)) as Ha' by by eapply HA.
  unfold log_reading, reading. simpl. fold sh. split; [by apply Hh|].
  destruct (f (lgs_store sh)) as [[v|e]|m] eqn:Hv; [|by apply Hh..|].
  - apply Hh. intros v' [= <-]. split; [done|]. destruct Hi' as (HJ & Hgood & _).
    apply (Hf v (lgs_store sh)); [done..|by etrans|done|done].
  - apply Hh. intros v Hpv. by destruct (Hp m v).
Qed.

Lemma lt_read_bind {T U} A (B : T → list LogEntryRecord → Prop) on_panic (f : S → Ran (result T AcdpError))
    (k : T → H (LogShared S) U) C :
  Stable A → (∀ m v, on_panic m ≠ HOk v) →
  (∀ v s, J s → log_good s → l0 `prefix_of` log_of s → A (log_of s) → f s = Done (Ok v) → B v (log_of s)) →
  (∀ v, log_triple (λ l, A l ∧ B v l) (k v) C) →
  log_triple A (hbind (hawaited on_panic (log_reading f)) k) C.
Proof. intros HA Hp Hf Hk. eapply lt_bind; [by apply lt_read|done]. Qed.

(** ** The pieces *)

(** Some store of this request answered [id] to [who], and one has it in the tenant. *)
Definition could_retrieve (who tenant : option string) (id : string) : Prop :=
  ∃ parsed s ctx, ctx_id_parse id = Ok parsed ∧ J s ∧ server_retrieve parsed who s = Done (Ok (Some ctx)) ∧
    ∀ t, tenant = Some t →
      ∃ s' stored, J s' ∧ read_tenant_of_ctx id s' = Done (Ok stored) ∧ default "default" stored = t.

Lemma can_retrieve_spec A who tenant id :
  Stable A →
  log_triple A (requester_can_retrieve who tenant id) (λ b l, A l ∧ (b = true → could_retrieve who tenant id)).
Proof.
  intros HA. unfold requester_can_retrieve. destruct (ctx_id_parse id) as [parsed|e] eqn:Hparse; [|by apply lt_ret].
  apply (lt_read_bind _ (λ found _, ∃ s, J s ∧ server_retrieve parsed who s = Done (Ok found))); [done..|by eauto|].
  intros found. case_bool_decide as Hsome; simpl; [|by apply lt_ret; intros l [??]].
  destruct Hsome as [ctx ->]. destruct tenant as [t|].
  - apply (lt_read_bind _ (λ stored _, ∃ s, J s ∧ read_tenant_of_ctx id s = Done (Ok stored)));
      [apply _|done|by eauto|].
    intros stored. apply lt_ret. intros l ((Ha & s & Hs & Hr) & s' & Hs' & Ht). split; [done|].
    intros Hd%bool_decide_eq_true. exists parsed, s, ctx. split_and!; [done..|]. intros t' [= <-]. by exists s', stored.
  - apply lt_ret. intros l (Ha & s & Hs & Hr). split; [done|]. intros _. by exists parsed, s, ctx.
Qed.

Lemma look_up_spec A n :
  log_triple A (look_up_root n) (λ cached l, A l ∧ ∀ root, cached = Some root → head_of l n root).
Proof.
  intros aw h Haw (Hi & Hp & He & Ha). split; [done|]. split_and!; [done..|]. intros v [= <-]. split; [done|].
  intros root. unfold cached_root. destruct (lgs_cache _) as [[size r]|] eqn:Hc; [|done].
  destruct (Z.eqb_spec size n) as [->|]; [|done]. intros [= <-]. destruct Hi as (_ & _ & Hi). by apply Hi.
Qed.

Lemma root_for_spec A n hs current :
  Stable A → (∀ l, A l → hashes_of n hs l) →
  log_triple A (root_for n hs current) (λ root l, A l ∧ head_of l n root).
Proof.
  intros HA Hhs. eapply lt_bind; [apply look_up_spec|].
  intros [root|].
  { apply lt_ret. intros l [Ha Hr]. split; [done|]. by apply Hr. }
  eapply lt_weaken with (A' := A) (B' := λ root l, A l ∧ head_of l n root); [|by intros l [??]|done].
  assert (∀ l, A l → head_of l n (encode_sha256_hex (merkle_tree_hash hs))) as Hroot.
  { intros l Ha. destruct (Hhs l Ha) as [Hn Hh]. by split; [|exists hs]. }
  apply (lt_bind _ _ _ (λ _, A)).
  - destruct (Z.eqb n current); [|by apply lt_ret]. apply gtriple_state.
    intros h ((HJ & Hg & Hc) & Hp & He & Ha). split_and!; [|done..|by intros ??]. split_and!; [done..|].
    intros n' root'. simpl. unfold cache_root, shared_log. simpl.
    destruct (lgs_cache (hs_store h)) as [[size r]|].
    + destruct (Z.ltb n size); [by apply Hc|]. intros [= <- <-]. by apply Hroot.
    + intros [= <- <-]. by apply Hroot.
  - intros []. apply lt_ret. intros l Ha. split; [done|]. by apply Hroot.
Qed.

Lemma size_spec A :
  Stable A →
  log_triple A (hasync (log_reading store_log_tree_size)) 
    (λ n l, A l ∧ (Z.of_nat (length l0) ≤ n)%Z ∧ (n ≤ Z.of_nat (length l))%Z).
Proof.
  intros HA. apply lt_read; [done..|]. intros n s HJ Hg Hl%prefix_length Ha Hn. rewrite (lc_size s n Hg Hn). lia.
Qed.

Lemma hashes_spec A n :
  Stable A → (∀ l, A l → (0 ≤ n ≤ Z.of_nat (length l))%Z) →
  log_triple A (hasync (log_reading (store_log_leaf_hashes n))) (λ hs l, A l ∧ hashes_of n hs l).
Proof.
  intros HA Hn. apply lt_read; [done..|]. intros hs s HJ Hg Hl Ha Hh. split; [by apply Hn|].
  apply (lc_hashes s n hs Hg); [by apply Hn|done].
Qed.

(** The signatures beside a checkpoint were read for its log, size and root, from a store
    whose log has that root. *)
Definition cosigned (log : LogState) (cp : LogCheckpoint) (cosigs : list Value) : Prop :=
  ∃ s, J s ∧ log_good s ∧ head_of (log_of s) (cp_tree_size cp) (cp_root_hash cp) ∧
    store_witness_cosignatures_for (log_id log) (cp_tree_size cp) (cp_root_hash cp) s = Done (Ok cosigs).


(** ** The endpoints *)

Definition checkpoint_of (log : LogState) (l : list LogEntryRecord) (n : Z) (cp : LogCheckpoint) : Prop :=
  cp_log_id cp = log_id log ∧ cp_tree_size cp = n ∧ head_of l n (cp_root_hash cp).

#[local] Instance stable_checkpoint log n cp : Stable (λ l, checkpoint_of log l n cp).
Proof. unfold checkpoint_of. apply _. Qed.

Lemma mint_spec A (st : LogEndpoint (R := R)) log n root :
  (∀ l, A l → head_of l n root) →
  log_triple A (hlift (mint_checkpoint st log n root)) (λ cp l, A l ∧ checkpoint_of log l n cp).
Proof.
  intros HA. apply lt_lift. intros cp l Hm%map_err_ok Ha. split; [done|].
  apply mint_fields in Hm as (Hid & Hn & Hroot). unfold checkpoint_of. rewrite Hroot. split_and!; [done..|by apply HA].
Qed.

Lemma cosigs_spec A log n cp :
  Stable A → (∀ l, A l → checkpoint_of log l n cp) →
  log_triple A (witness_signatures_for log cp) (λ cosigs l, A l ∧ cosigned log cp cosigs).
Proof.
  intros HA Hcp. apply lt_read; [done..|]. intros v s HJ Hg Hl Ha Hv. exists s.
  destruct (Hcp _ Ha) as (_ & Hn & Hh). split_and!; [done..|by rewrite Hn|done].
Qed.

(** A checkpoint is of this log, over all that was there when the request came, and
    its signatures were read for it. *)
Definition checkpoint_answer (log : LogState) (v : Value) (l : list LogEntryRecord) : Prop :=
  ∃ cp w cosigs, checkpoint_of log l (cp_tree_size cp) cp ∧ (Z.of_nat (length l0) ≤ cp_tree_size cp)%Z ∧
    cosigned log cp cosigs ∧ checkpoint_to_value cp = Ok w ∧
    v = match cosigs with
        | [] => w
        | _ => VObject [("log_checkpoint", w); ("witness_signatures", VArray cosigs)]
        end.

#[local] Instance stable_checkpoint_answer log v : Stable (checkpoint_answer log v).
Proof. unfold checkpoint_answer. apply _. Qed.

Lemma log_checkpoint_spec (st : LogEndpoint (R := R)) log :
  lo_log st = Some log → log_triple (λ _, True) (log_checkpoint st) (checkpoint_answer log).
Proof.
  intros Hlog. unfold log_checkpoint. apply lt_lift_bind. unfold log_state. rewrite Hlog. intros _ [= <-].
  eapply lt_bind; [apply size_spec, _|]. intros n.
  set (A := λ l : list LogEntryRecord, True ∧ (Z.of_nat (length l0) ≤ n)%Z ∧ (n ≤ Z.of_nat (length l))%Z).
  assert (Stable A) as HA by (unfold A; apply _).
  eapply lt_bind; [apply look_up_spec|].
  intros cached. apply (lt_bind _ _ _ (λ root l, A l ∧ head_of l n root)).
  { destruct cached as [root|].
    { apply lt_ret. intros l [Ha Hr]. split; [done|]. by apply Hr. }
    eapply lt_bind.
    - eapply lt_weaken; [apply (hashes_spec A n); [done|]|by intros l [??]|intros v l; exact id].
      intros l (_ & ? & ?). lia.
    - intros hs. eapply lt_weaken; [apply (root_for_spec (λ l, A l ∧ hashes_of n hs l) n hs n)|done|].
      + apply _.
      + by intros l [_ Hx].
      + by intros root l [[??]?]. }
  intros root. eapply lt_bind; [apply mint_spec; by intros l [_ Hx]|]. intros cp.
  eapply lt_bind; [apply (cosigs_spec _ log n cp); [apply _|by intros l [_ Hx]]|]. intros cosigs.
  destruct cosigs as [|c cosigs].
  - apply lt_lift. intros v l Hv%map_err_ok ((((_ & Hn & _) & _) & Hcp) & Hc).
    exists cp, v, []. pose proof Hcp as (_ & Hsz & _). by rewrite Hsz.
  - apply gtriple_sync. intros h (Hi & Hp & He & ((((_ & Hn & _) & _) & Hcp) & Hc)).
    destruct (checkpoint_to_value cp) as [w|e] eqn:Hw; (split_and!; [done..|]); [|done].
    intros v [= <-]. exists cp, w, (c :: cosigs). pose proof Hcp as (_ & Hsz & _). by rewrite Hsz.
Qed.

(** The record of an inclusion proof is in the log at its index; its leaf is echoed only to
    who could retrieve the context, and an id is answered only then. *)
Definition record_found (q : LogProofQuery) (who tenant : option string) (r : LogEntryRecord) (echo : bool)
    (l : list LogEntryRecord) : Prop :=
  (∃ i, le_index r = Z.of_nat i ∧ l !! i = Some r) ∧
  (echo = true → could_retrieve who tenant (le_ctx_id r)) ∧
  (∀ id, pq_ctx_id q = Some id → le_ctx_id r = id ∧ echo = true).

#[local] Instance stable_record q who tenant r echo : Stable (record_found q who tenant r echo).
Proof. unfold record_found. apply _. Qed.

Lemma elem_of_log s r : log_good s → r ∈ log_of s → ∃ i, le_index r = Z.of_nat i ∧ log_of s !! i = Some r.
Proof. intros Hg [i Hi]%list_elem_of_lookup. exists i. split; [by eapply lc_index|done]. Qed.

Lemma inclusion_record_spec A q who tenant current :
  Stable A →
  log_triple A (inclusion_record q who tenant current) (λ x l, A l ∧ record_found q who tenant x.1 x.2 l).
Proof.
  intros HA. unfold inclusion_record, record_found.
  destruct (pq_ctx_id q) as [id|]; destruct (pq_leaf_index q) as [raw|]; try apply lt_err.
  - eapply lt_bind; [by apply can_retrieve_spec|]. intros [|]; simpl; [|apply lt_err].
    apply (lt_read_bind _ (λ found l, ∀ r, found = Some r →
      (∃ i, le_index r = Z.of_nat i ∧ l !! i = Some r) ∧ le_ctx_id r = id)); [apply _|done|..].
    { intros found s HJ Hg Hl Ha Hf r ->. apply lc_by_ctx in Hf as [Hr Hid]; [|done]. split; [|done].
      by apply elem_of_log. }
    intros found. apply lt_lift_bind. intros r ->%ok_or_ok. apply lt_ret. intros l [[Ha Hc] Hf].
    destruct (Hf r eq_refl) as [Hr <-]. split; [done|]. split_and!; [done|auto|]. by intros ? [= <-].
  - apply lt_lift_bind. intros i Hi.
    apply (lt_read_bind _ (λ found l, ∀ r, found = Some r → ∃ i, le_index r = Z.of_nat i ∧ l !! i = Some r));
      [done..| |].
    { intros found s HJ Hg Hl Ha Hf r ->. apply lc_by_index in Hf as [Hr _]; [|done]. by apply elem_of_log. }
    intros found. apply lt_lift_bind. intros r ->%ok_or_ok.
    eapply lt_weaken with (A' := λ l, A l ∧ ∃ i, le_index r = Z.of_nat i ∧ l !! i = Some r);
      [|intros l [Ha Hr]; split; [done|by apply Hr]|intros v l; exact id].
    eapply lt_bind; [apply can_retrieve_spec, _|]. intros echo. apply lt_ret. by intros l [[Ha Hr] Hc].
Qed.

(** An inclusion proof: the record is below the tree's size, the path is the one of its
    position among the first hashes, and the checkpoint is of that tree. *)
Definition inclusion_answer (log : LogState) (q : LogProofQuery) (who tenant : option string) (v : Value)
    (l : list LogEntryRecord) : Prop :=
  ∃ inc w cosigs r i hs path, inclusion_to_value inc = Ok w ∧ v = attach_witness_signatures w cosigs ∧
    cosigned log (in_log_checkpoint inc) cosigs ∧
    in_log_id inc = log_id log ∧ in_leaf_index inc = Z.of_nat i ∧ l !! i = Some r ∧
    (Z.of_nat i < in_tree_size inc)%Z ∧ hashes_of (in_tree_size inc) hs l ∧
    inclusion_path i hs = Some path ∧ in_inclusion_path inc = map encode_sha256_hex path ∧
    checkpoint_of log l (in_tree_size inc) (in_log_checkpoint inc) ∧
    (∀ leaf, in_leaf inc = Some leaf → record_leaf r = Ok leaf ∧ could_retrieve who tenant (le_ctx_id r)) ∧
    (∀ id, pq_ctx_id q = Some id → le_ctx_id r = id ∧ could_retrieve who tenant id).

#[local] Instance stable_inclusion log q who tenant v : Stable (inclusion_answer log q who tenant v).
Proof. unfold inclusion_answer. apply _. Qed.

Lemma inclusion_size_bound q r current n :
  (0 ≤ current)%Z → (0 ≤ le_index r)%Z → inclusion_size q r current = Ok n → (0 ≤ n ≤ current)%Z.
Proof.
  intros Hc Hi. unfold inclusion_size. destruct (pq_tree_size q) as [raw|]; [|intros [= <-]; lia].
  destruct (query_u64 _ raw) as [m|]; [|done]. simpl.
  destruct (Z.ltb_spec (le_index r) m), (Z.leb_spec m current); simpl; try done. intros [= <-]. lia.
Qed.

Lemma length_leaf_hashes l hs : leaf_hashes l = Ok hs → length hs = length l.
Proof.
  unfold leaf_hashes. revert hs. induction l as [|r l IH]; intros hs; simpl; [by intros [= <-]|].
  destruct (decode_sha256_hex (le_leaf_hash r)); [|done]. simpl. destruct (collect_ok _ l) as [k|] eqn:Hk; [|done].
  intros [= <-]. simpl. f_equal. by apply IH.
Qed.

Lemma length_hashes_of n hs l : hashes_of n hs l → Z.of_nat (length hs) = n.
Proof. intros [Hn Hh]. apply length_leaf_hashes in Hh. rewrite Hh length_take. lia. Qed.

Lemma to_usize_nat i position : to_usize (Z.of_nat i) = Ok position → position = i.
Proof. unfold to_usize. case_match; [|done]. intros [= <-]. lia. Qed.

Lemma inclusion_response_spec (st : LogEndpoint (R := R)) log req principal q :
  log_triple (λ _, True) (inclusion_proof_response st log req principal q)
    (λ v l, ∃ tenant, tenant_for_principal (lo_gate st) req principal = Ok tenant ∧
       inclusion_answer log q (requester principal) tenant v l).
Proof.
  unfold inclusion_proof_response. apply lt_lift_bind. intros tenant Ht.
  eapply lt_bind; [apply size_spec, _|]. intros current.
  eapply lt_bind; [apply inclusion_record_spec, _|]. intros [r echo]. simpl.
  apply lt_lift_bind. intros n Hn. set (who := requester principal).
  set (A := λ l : list LogEntryRecord, (0 ≤ n ≤ Z.of_nat (length l))%Z ∧ record_found q who tenant r echo l).
  assert (Stable A) as HA.
  { intros l l' Hl [Hb Hr]. split; [apply prefix_length in Hl; lia|by eapply stable]. }
  eapply lt_weaken with (A' := A); [| |intros v l; exact id].
  2: { intros l ((_ & Hc & Hcl) & Hr). split; [|done]. destruct Hr as ((i & Hi & _) & _).
       assert (0 ≤ n ≤ current)%Z; [eapply inclusion_size_bound; [..|done]; lia|lia]. }
  eapply lt_bind; [apply (hashes_spec A n); [done|by intros l [? _]]|]. intros hs.
  apply lt_lift_bind. intros position Hpos. apply lt_lift_bind. intros path Hpath%ok_or_ok.
  eapply lt_bind; [apply root_for_spec; [apply _|by intros l [_ Hx]]|]. intros root.
  eapply lt_bind; [apply mint_spec; by intros l [_ Hx]|]. intros cp.
  apply (lt_bind _ _ _ (λ leaf l, (((A l ∧ hashes_of n hs l) ∧ head_of l n root) ∧ checkpoint_of log l n cp) ∧
    ∀ x, leaf = Some x → echo = true ∧ record_leaf r = Ok x)).
  { destruct echo.
    - apply lt_lift. intros leaf l Hl Ha. split; [done|]. intros x ->. split; [done|].
      destruct (record_leaf r); simpl in Hl; congruence.
    - by apply lt_ret. }
  intros leaf. eapply lt_bind; [apply (cosigs_spec _ log n cp); [apply _|by intros l [[_ Hx] _]]|]. intros cosigs. apply lt_lift_bind. intros w Hw%map_err_ok.
  apply lt_ret. intros l ((((((Hb & Hrec) & Hhs) & Hhead) & Hcp) & Hleaf) & Hcos).
  destruct Hrec as ((i & Hi & Hlook) & Hecho & Hid). rewrite Hi in Hpos.
  apply to_usize_nat in Hpos as ->. exists tenant. split; [done|].
  exists (mkInclusion (log_id log) (le_index r) n (map encode_sha256_hex path) cp leaf), w, cosigs, r, i, hs, path.
  pose proof (length_hashes_of _ _ _ Hhs). apply inclusion_path_in_range in Hpath as Hlt.
  split_and!; simpl; try done; [lia|..].
  - intros x Hx. destruct (Hleaf x Hx) as [He Hr]. split; [done|]. by apply Hecho.
  - intros id Hq. destruct (Hid id Hq) as [<- He]. split; [done|]. by apply Hecho.
Qed.

(** A consistency proof between the trees of two sizes. *)
(** The parameter [name] was given and is [n]. *)
Definition asked (name : string) (raw : option string) (n : Z) : Prop :=
  ∃ text, raw = Some text ∧ query_u64 name text = Ok n.

Definition consistency_answer (log : LogState) (q : LogProofQuery) (v : Value) (l : list LogEntryRecord) : Prop :=
  ∃ proof w cosigs hs path, consistency_to_value proof = Ok w ∧ v = attach_witness_signatures w cosigs ∧
    cosigned log (co_log_checkpoint proof) cosigs ∧ co_log_id proof = log_id log ∧
    asked "first" (pq_first q) (co_first_tree_size proof) ∧
    asked "second" (pq_second q) (co_second_tree_size proof) ∧
    (0 < co_first_tree_size proof ≤ co_second_tree_size proof)%Z ∧
    hashes_of (co_second_tree_size proof) hs l ∧
    consistency_proof (Z.to_nat (co_first_tree_size proof)) hs = Some path ∧
    co_consistency_path proof = map encode_sha256_hex path ∧
    checkpoint_of log l (co_second_tree_size proof) (co_log_checkpoint proof).

#[local] Instance stable_consistency log q v : Stable (consistency_answer log q v).
Proof. unfold consistency_answer. apply _. Qed.

Lemma query_u64_range name raw n : query_u64 name raw = Ok n → (0 ≤ n ≤ u64_max)%Z.
Proof. by intros Hn%map_err_ok%parse_u64_range. Qed.

Lemma consistency_response_spec (st : LogEndpoint (R := R)) log q :
  log_triple (λ _, True) (consistency_proof_response st log q) (consistency_answer log q).
Proof.
  unfold consistency_proof_response. destruct (pq_first q) as [a|] eqn:Hpf, (pq_second q) as [b|] eqn:Hps; try apply lt_err.
  apply lt_lift_bind. intros first Hf. apply lt_lift_bind. intros second Hs.
  assert (asked "first" (pq_first q) first ∧ asked "second" (pq_second q) second) as [Hfirst Hsecond]
    by (split; [by exists a|by exists b]).
  apply query_u64_range in Hf, Hs.
  eapply lt_bind; [apply size_spec, _|]. intros current.
  destruct (Z.eqb_spec first 0); [apply lt_err|]. destruct (Z.ltb_spec second first); [apply lt_err|].
  destruct (Z.ltb_spec current second); [apply lt_err|]. cbn [orb].
  eapply lt_bind; [apply (hashes_spec _ second); [apply _|intros l (_ & _ & ?); lia]|]. intros hs.
  apply lt_lift_bind. intros size Hsize. apply lt_lift_bind. intros path Hpath%ok_or_ok.
  eapply lt_bind; [apply root_for_spec; [apply _|by intros l [_ Hx]]|]. intros root.
  eapply lt_bind; [apply mint_spec; by intros l [_ Hx]|]. intros cp.
  eapply lt_bind; [apply (cosigs_spec _ log second cp); [apply _|by intros l [_ Hx]]|]. intros cosigs. apply lt_lift_bind. intros w Hw%map_err_ok.
  apply lt_ret. intros l ((((_ & Hhs) & _) & Hcp) & Hc).
  exists (mkConsistency (log_id log) first second (map encode_sha256_hex path) cp), w, cosigs, hs, path.
  assert (size = Z.to_nat first) as -> by (unfold to_usize in Hsize; case_match; congruence).
  split_and!; simpl; try done; lia.
Qed.

(** A page of entries: the records from the start asked for, at most [LOG_ENTRIES_PAGE_CAP]
    of them and at least one, each with its leaf exactly where the store called its
    context visible. *)
Definition entries_answer (st : LogEndpoint (R := R)) (log : LogState) (req : ReadRequest)
    (principal : ReadPrincipal) (q : LogEntriesQuery) (v : Value) (l : list LogEntryRecord) : Prop :=
  ∃ start last stop rs entries tenant s visible,
    asked "start" (eq_start q) start ∧ asked "end" (eq_end q) last ∧
    stop = Z.min last (u64_saturating_add start LOG_ENTRIES_PAGE_CAP) ∧
    range_of start stop rs l ∧ (stop - start ≤ LOG_ENTRIES_PAGE_CAP)%Z ∧
    tenant_for_principal (lo_gate st) req principal = Ok tenant ∧ J s ∧
    store_visible_ctx_ids (map le_ctx_id rs) (requester principal) tenant
      (cap_anonymous_public_reads capabilities) s = Done (Ok visible) ∧
    Forall2 (λ r e, entry_of visible r = Ok e) rs entries ∧
    v = VObject [("log_id", VString (log_id log)); ("start", VNumber (pretty.pretty start)); ("entries", VArray entries)].

#[local] Instance stable_entries st log req principal q v : Stable (entries_answer st log req principal q v).
Proof. unfold entries_answer. apply _. Qed.

Lemma collect_ok_inv {X Y E} (f : X → result Y E) xs ys : collect_ok f xs = Ok ys → Forall2 (λ x y, f x = Ok y) xs ys.
Proof.
  revert ys. induction xs as [|x xs IH]; intros ys; simpl; [intros [= <-]; constructor|].
  destruct (f x) eqn:Hx; [|done]. simpl. destruct (collect_ok f xs) eqn:Hxs; [|done]. intros [= <-].
  constructor; [done|]. by apply IH.
Qed.

Lemma log_entries_spec (st : LogEndpoint (R := R)) log req principal q :
  lo_log st = Some log →
  log_triple (λ _, True) (log_entries st req principal q) (entries_answer st log req principal q).
Proof.
  intros Hlog. unfold log_entries. apply lt_lift_bind. unfold log_state. rewrite Hlog. intros _ [= <-].
  destruct (eq_start q) as [a|] eqn:Hqs, (eq_end q) as [b|] eqn:Hqe; try apply lt_err.
  apply lt_lift_bind. intros start Ha. apply lt_lift_bind. intros stop Hb.
  assert (asked "start" (eq_start q) start ∧ asked "end" (eq_end q) stop) as [Hstart Hend]
    by (split; [by exists a|by exists b]).
  apply query_u64_range in Ha, Hb.
  eapply lt_bind; [apply size_spec, _|]. intros current.
  destruct (Z.ltb_spec start stop); [|apply lt_err]. destruct (Z.leb_spec stop current); [|apply lt_err]. cbn [andb negb].
  set (capped := Z.min stop _).
  assert (start < capped ≤ stop ∧ capped - start ≤ LOG_ENTRIES_PAGE_CAP)%Z as Hcap
    by (subst capped; unfold u64_saturating_add, LOG_ENTRIES_PAGE_CAP, u64_max in *; lia).
  apply lt_lift_bind. intros tenant Ht.
  apply (lt_read_bind _ (λ rs l, range_of start capped rs l)); [apply _|done|..].
  { intros rs s HJ Hg Hl (_ & _ & Hlen) Hrs. split_and!; [lia..|]. apply (lc_entries s); [done|lia..|done]. }
  intros rs. apply (lt_read_bind _ (λ visible _, ∃ s, J s ∧
    store_visible_ctx_ids (map le_ctx_id rs) (requester principal) tenant
      (cap_anonymous_public_reads capabilities) s = Done (Ok visible))); [apply _|done|by eauto|].
  intros visible. apply lt_lift_bind. intros entries He%collect_ok_inv. apply lt_ret.
  intros l ((_ & Hr) & s & HJ & Hv). exists start, stop, capped, rs, entries, tenant, s, visible. split_and!; try done; lia.
Qed.

(** What [GET /log/proof] answers. *)
Definition proof_answer (st : LogEndpoint (R := R)) (log : LogState) (req : ReadRequest)
    (principal : ReadPrincipal) (q : LogProofQuery) (v : Value) (l : list LogEntryRecord) : Prop :=
  consistency_answer log q v l ∨
  ∃ tenant, tenant_for_principal (lo_gate st) req principal = Ok tenant ∧
    inclusion_answer log q (requester principal) tenant v l.

#[local] Instance stable_proof st log req principal q v : Stable (proof_answer st log req principal q v).
Proof. unfold proof_answer. apply _. Qed.

Lemma log_proof_spec (st : LogEndpoint (R := R)) log req principal q :
  lo_log st = Some log →
  log_triple (λ _, True) (log_proof st req principal q) (proof_answer st log req principal q).
Proof.
  intros Hlog. unfold log_proof. apply lt_lift_bind. unfold log_state. rewrite Hlog. intros _ [= <-].
  destruct (_ && _); [apply lt_err|]. destruct (_ || is_some_str (pq_second q)).
  { eapply lt_weaken; [apply consistency_response_spec|done|]. intros v l Hv. by left. }
  destruct (negb _); [apply lt_err|].
  eapply lt_weaken; [apply inclusion_response_spec|done|]. intros v l Hv. by right.
Qed.

(** However a request ends, the log has only grown, the cache is right and nothing was set
    off; an answer is as [B] says of the log at the end and of every later one. *)
Definition served {T} (B : T → list LogEntryRecord → Prop) (m : H (LogShared S) T) : Prop :=
  ∀ aw h, others_ok grows aw → log_inv (hs_store h) → shared_log (hs_store h) = l0 → hs_effects h = e0 →
  let '(r, _, h') := m aw h in
  log_inv (hs_store h') ∧ l0 `prefix_of` shared_log (hs_store h') ∧ hs_effects h' = e0 ∧
  ∀ v l, r = HOk v → shared_log (hs_store h') `prefix_of` l → B v l.

Lemma log_triple_served {T} (m : H (LogShared S) T) B :
  (∀ v, Stable (B v)) → log_triple (λ _, True) m B → served B m.
Proof.
  intros HB Hm aw h Haw Hi Hl He. specialize (Hm aw h Haw). destruct (m aw h) as [[r aw'] h'].
  destruct Hm as (_ & Hi' & Hp & He' & Ha); [by split_and!; [|rewrite Hl| |]|]. split_and!; [done..|].
  intros v l Hv Hl'. eapply HB; [done|]. by apply Ha.
Qed.
End serving.

Section claim.
Context {S Proven Outside Resolved : Type}.
Context `{!StartupSdk} `{!LogSdk} `{!LogSdkLaws} `{!LogStore S} `{!LogContract S}.
Context `{HC : ChangeSdk} `{HE : !EventSdk} `{!RegistryServer S Proven Outside} `{!ReadServer S Outside Resolved}.
Context {R : Type} `{!RevocationStore R}.

(** C26: the log endpoints describe one append-only log. Whatever other requests append
    between any two reads, and wherever a request is dropped: a checkpoint covers every
    leaf that was there when the request came, and its root, cached or not, is the root
    over the first leaves of the log; an inclusion proof is for a record at its index
    below the tree size, of the context asked for where one is, with that tree's path and
    checkpoint; a consistency proof is for
    the two sizes asked for; a page of entries is the run of records asked for, cut after
    256, and never empty. Each stays true of every later log. A leaf is shown, and an id is
    answered at all, only where the requester could retrieve the context in its tenant;
    signatures of witnesses are those read for the very checkpoint served. *)
Theorem log_answers_describe_one_log (J : S → Prop) (l0 : list LogEntryRecord) (e0 : list Effect)
    (st : LogEndpoint (R := R)) (log : LogState) (req : ReadRequest) (principal : ReadPrincipal)
    (pq : LogProofQuery) (eq : LogEntriesQuery) :
  lo_log st = Some log →
  served J l0 e0 (checkpoint_answer J l0 log) (log_checkpoint st) ∧
  served J l0 e0 (proof_answer J st log req principal pq) (log_proof st req principal pq) ∧
  served J l0 e0 (entries_answer J st log req principal eq) (log_entries st req principal eq).
Proof.
  intros Hlog. split_and!; apply log_triple_served; try apply _.
  - by apply log_checkpoint_spec.
  - by apply log_proof_spec.
  - by apply log_entries_spec.
Qed.
End claim.
