(* ===== verification/Witness.v ===== *)
(** * Witness cosignatures

    [acdp-registry-core/src/witness.rs]: the poller fetches a witness's signatures of this
    registry's checkpoints, verifies each against the registry's own tree of that size, and
    stores those that verify, to be served beside the checkpoint. The fetch is an input of
    a poll; DID resolution and the verification procedure belong to the [acdp] crate and
    are the class [WitnessSdk]. The endless loop around a poll and its client are left
    out. *)

From stdpp Require Import pretty.
From S2P Require Import Prelude Text Errors RateLimit Revocation ContextTypes ClientIp ReadGate ChangeFeed EventReceipts SqliteStore SqliteLog Handlers ReadHandlers Config Startup LogHandlers LogTheorems.

Open Scope registry_scope.
Open Scope handler_scope.

(** [acdp::types::cosignature]. *)
Record WitnessedCheckpoint : Type := mkWitnessed {
  wc_log_id : string;
  wc_tree_size : Z;
  wc_root_hash : string
}.

Record LogCosignature : Type := mkCosignature {
  lc_witness_id : string;
  lc_witnessed_checkpoint : WitnessedCheckpoint
}.

Class WitnessSdk (Outside : Type) : Type := {
  cosignature_from_value : Value → result LogCosignature AcdpError;
  (** Steps 2 to 5 of the procedure, with its clock: signature, document, checkpoint. *)
  verify_witness_cosignature_value : Z → Value → Value → LogCheckpoint → result LogCosignature AcdpError;
  WitnessDocument : Type;
  witness_resolve : Outside → string → Ran (result WitnessDocument AcdpError);
  witness_document_value : WitnessDocument → result Value string;
  value_to_string : Value → result string string
}.

(** A row of [log_witness_cosignatures]; the time it was stored is left out. *)
Record CosigRow : Type := mkCosigRow {
  cr_log_id : string;
  cr_tree_size : Z;
  cr_root_hash : string;
  cr_witness_did : string;
  cr_witnessed_at : string;
  cr_json : string
}.

Class WitnessStore (S : Type) : Type := {
  store_upsert_witness_cosignature : CosigRow → S → Ran (result unit AcdpError) * S
}.

Definition MAX_COSIGNATURES_PER_POLL : nat := 512.

(** What the fetch of a feed came to: an error of the transport, the status of a failure,
    or the body, with the [witness_signatures] it decodes to. *)
Inductive FeedReply : Type :=
  | FeedTransport (e : string)
  | FeedStatus (status : Z)
  | FeedBody (decoded : result (list Value) string).

Inductive PollError : Type :=
  | PE_Transport (e : string)
  | PE_Status (status : Z)
  | PE_Decode (e : string).

Section witness.
Context {S Outside : Type} `{!StartupSdk} `{!LogSdk} `{!LogStore S} `{!WitnessSdk Outside} `{!WitnessStore S}.

(** The clocks and the network at one cosignature. *)
Record WitnessEnv : Type := mkWitnessEnv {
  we_resolve : Outside;
  we_checkpoint_now : Z;
  we_verify_now : Z
}.

(** A [match] on the outcome of a call: its error is a value. *)
Definition hcatch {S T} (m : H S T) : H S (result T RegistryError) := λ aw h,
  match m aw h with
  | (HOk v, aw, h) => (HOk (Ok v), aw, h)
  | (HErr e, aw, h) => (HOk (Err e), aw, h)
  | (HPanic p, aw, h) => (HPanic p, aw, h)
  | (HDropped, aw, h) => (HDropped, aw, h)
  end.

Definition reconstruct_checkpoint (log : LogState) (tree_size now : Z) : H (LogShared S) (option LogCheckpoint) :=
  let! current := hasync (log_reading store_log_tree_size) in
  if (current <? tree_size)%Z then hret None
  else
    let! hashes := hasync (log_reading (store_log_leaf_hashes tree_size)) in
    let root := encode_sha256_hex (merkle_tree_hash hashes) in
    let! checkpoint := hlift (map_err RE_Acdp
                          (mint_log_checkpoint (log_signer log) (log_id log) tree_size root now)) in
    hret (Some checkpoint).

Definition verify_cosignature_against_own_log (log : LogState) (env : WitnessEnv) (doc cosig : Value) :
    H (LogShared S) LogCosignature :=
  let! peek := hlift (map_err RE_Acdp (cosignature_from_value cosig)) in
  let wc := lc_witnessed_checkpoint peek in
  if negb (bool_decide (wc_log_id wc = log_id log)) then
    hlift (Err (RE_Acdp (InvalidWitnessCosignature ("cosignature witnessed_checkpoint.log_id '" +:+ wc_log_id wc +:+
      "' is not this registry's log '" +:+ log_id log +:+ "' (RFC-ACDP-0015 §6.1)"))))
  else
    let! rebuilt := reconstruct_checkpoint log (wc_tree_size wc) (we_checkpoint_now env) in
    match rebuilt with
    | None => hlift (Err (RE_Acdp (InvalidWitnessCosignature ("cosignature witnessed_checkpoint.tree_size " +:+
        pretty (wc_tree_size wc) +:+
        " is beyond this registry's current head — cannot confirm the observed root (RFC-ACDP-0015 §7 step 2)"))))
    | Some checkpoint =>
        hlift (map_err RE_Acdp (verify_witness_cosignature_value (we_verify_now env) cosig doc checkpoint))
    end.

(** [cosig_value.get("witnessed_at").and_then(|v| v.as_str()).unwrap_or_default()]. *)
Definition witnessed_at_of (cosig : Value) : string :=
  match value_get cosig "witnessed_at" with
  | Some (VString s) => s
  | _ => ""
  end.

Definition upserting (row : CosigRow) : HState (LogShared S) → Ran (result unit RegistryError) * HState (LogShared S) :=
  λ h, let '(r, s) := store_upsert_witness_cosignature row (lgs_store (hs_store h)) in
       (match r with Done r => Done (map_err RE_Acdp r) | Panic m => Panic m end,
        with_store (mkLogShared s (lgs_cache (hs_store h))) h).

(** Whether the cosignature was stored. *)
Definition verify_and_store_resolved (log : LogState) (env : WitnessEnv) (doc cosig : Value) : H (LogShared S) bool :=
  let! verified := hcatch (verify_cosignature_against_own_log log env doc cosig) in
  match verified with
  | Err _ => hret false
  | Ok verified =>
      let wc := lc_witnessed_checkpoint verified in
      match value_to_string cosig with
      | Err _ => hret false
      | Ok json =>
          let! stored := hcatch (hasync (upserting
            (mkCosigRow (wc_log_id wc) (wc_tree_size wc) (wc_root_hash wc) (lc_witness_id verified)
               (witnessed_at_of cosig) json))) in
          hret (is_ok stored)
      end
  end.

Definition verify_and_store (log : LogState) (env : WitnessEnv) (witness_did : string) (cosig : Value) :
    H (LogShared S) bool :=
  let! resolved := hcatch (hasync (reading (λ _, witness_resolve (we_resolve env) witness_did))) in
  match resolved with
  | Err _ => hret false
  | Ok doc =>
      match witness_document_value doc with
      | Err _ => hret false
      | Ok doc => verify_and_store_resolved log env doc cosig
      end
  end.

(** The loop over a feed: how many were stored. *)
Fixpoint store_feed (log : LogState) (envs : nat → WitnessEnv) (witness_did : string) (i : nat)
    (cosigs : list Value) (stored : nat) : H (LogShared S) nat :=
  match cosigs with
  | [] => hret stored
  | cosig :: cosigs =>
      let! ok := verify_and_store log (envs i) witness_did cosig in
      store_feed log envs witness_did (Datatypes.S i) cosigs (if (ok : bool) then Datatypes.S stored else stored)
  end.

(** [poll_witness_once] on the reply of the witness: the signatures fetched and stored. *)
Definition poll_witness_once (log : LogState) (envs : nat → WitnessEnv) (witness : WitnessConfig)
    (reply : FeedReply) : H (LogShared S) (result (nat * nat) PollError) :=
  match reply with
  | FeedTransport e => hret (Err (PE_Transport e))
  | FeedStatus status => hret (Err (PE_Status status))
  | FeedBody (Err e) => hret (Err (PE_Decode e))
  | FeedBody (Ok cosigs) =>
      let! stored := store_feed log envs (wt_did witness) 0 (take MAX_COSIGNATURES_PER_POLL cosigs) 0 in
      hret (Ok (length cosigs, stored))
  end.
End witness.

(** ** What is stored, and what is served *)

(** What the crate documents of the procedure: a cosignature that verifies witnesses the
    checkpoint it was verified against (step 4). JSON text reads back as the value. *)
Class WitnessSdkLaws {Outside : Type} `{!StartupSdk} `{!LogSdk} `{!WitnessSdk Outside} : Prop := {
  verified_is_bound now cosig doc cp c :
    verify_witness_cosignature_value now cosig doc cp = Ok c →
    lc_witnessed_checkpoint c = mkWitnessed (cp_log_id cp) (cp_tree_size cp) (cp_root_hash cp);
  cosig_text_reads_back v json : value_to_string v = Ok json → json_value json = Ok v;
  witnessed_size_nonneg v c : cosignature_from_value v = Ok c → (0 ≤ wc_tree_size (lc_witnessed_checkpoint c))%Z
}.

(** What a store promises of the table: an upsert, whether or not its answer arrives,
    writes the one row and leaves the log alone, and a read gives rows of its key. *)
Class WitnessContract (S : Type) `{!StartupSdk} `{!LogSdk} `{!LogStore S} `{!LogContract S} `{!WitnessStore S} : Type := {
  cosig_rows : S → list CosigRow;
  wk_upsert row s r s' :
    log_good s → (0 ≤ cr_tree_size row ≤ Z.of_nat (length (log_of s)))%Z →
    store_upsert_witness_cosignature row s = (r, s') →
    log_good s' ∧ log_of s' = log_of s ∧ ∀ x, x ∈ cosig_rows s' → x = row ∨ x ∈ cosig_rows s;
  wk_read id n root s vs v :
    log_good s → (0 ≤ n ≤ Z.of_nat (length (log_of s)))%Z →
    store_witness_cosignatures_for id n root s = Done (Ok vs) → v ∈ vs →
    ∃ row, row ∈ cosig_rows s ∧ cr_log_id row = id ∧ cr_tree_size row = n ∧ cr_root_hash row = root ∧
      json_value (cr_json row) = Ok v
}.

Section served.
Context {S Outside : Type}.
Context `{!StartupSdk} `{!LogSdk} `{!LogSdkLaws} `{!LogStore S} `{!LogContract S} `{!WitnessStore S} `{!WitnessContract S}.
Context `{!WitnessSdk Outside} `{!WitnessSdkLaws}.

(** The value is a cosignature that verified, under some DID document, against a
    checkpoint with this log, size and root. *)
Definition verified_for (id : string) (n : Z) (root did : string) (v : Value) : Prop :=
  ∃ now doc cp c, verify_witness_cosignature_value now v doc cp = Ok c ∧ lc_witness_id c = did ∧
    cp_log_id cp = id ∧ cp_tree_size cp = n ∧ cp_root_hash cp = root.

(** A row holds a verified cosignature of the registry's own root. *)
Definition row_ok (l : list LogEntryRecord) (row : CosigRow) : Prop :=
  head_of l (cr_tree_size row) (cr_root_hash row) ∧
  ∃ v, value_to_string v = Ok (cr_json row) ∧
    verified_for (cr_log_id row) (cr_tree_size row) (cr_root_hash row) (cr_witness_did row) v.

Definition table_ok (s : S) : Prop := Forall (row_ok (log_of s)) (cosig_rows s).

#[local] Instance stable_row row : Stable (λ l, row_ok l row).
Proof. unfold row_ok. apply _. Qed.

Context (l0 : list LogEntryRecord) (e0 : list Effect).
Notation triple := (log_triple table_ok l0 e0).

Lemma lt_catch {T} A (m : H (LogShared S) T) B :
  triple A m B → triple A (hcatch m) (λ r l, ∀ v, r = Ok v → B v l).
Proof.
  intros Hm aw h Haw Hh. specialize (Hm aw h Haw Hh). unfold hcatch.
  destruct (m aw h) as [[[v|e|p|] aw'] h']; destruct Hm as (Haw' & Hi & Hp & He & Hb);
    (split; [done|]); (split_and!; [done..|]); try done.
  - intros r [= <-] v' [= <-]. by apply Hb.
  - by intros r [= <-].
Qed.

Lemma lt_true {T} A (m : H (LogShared S) T) B : triple A m B → triple A m (λ _ _, True).
Proof. intros Hm. by eapply lt_weaken. Qed.

Lemma reconstruct_spec log n now :
  (0 ≤ n)%Z →
  triple (λ _, True) (reconstruct_checkpoint log n now)
    (λ rebuilt l, ∀ cp, rebuilt = Some cp → checkpoint_of log l n cp).
Proof.
  intros Hn. unfold reconstruct_checkpoint. eapply lt_bind; [apply size_spec, _|]. intros current.
  destruct (Z.ltb_spec current n); [by apply lt_ret|].
  eapply lt_bind; [apply (hashes_spec _ _ _ _ n); [apply _|intros l (_ & _ & ?); lia]|]. intros hs.
  apply lt_lift_bind. intros cp Hcp%map_err_ok. apply lt_ret. intros l (_ & Hb & Hh) ? [= <-].
  apply mint_fields in Hcp as (Hid & Hsz & Hroot). split_and!; [done..|]. rewrite Hroot. by split; [|exists hs].
Qed.

(** The refusal of another root: what verifies is the root of the registry's own tree. *)
Lemma verify_own_spec log env doc cosig :
  triple (λ _, True) (verify_cosignature_against_own_log log env doc cosig)
    (λ c l, let wc := lc_witnessed_checkpoint c in
       head_of l (wc_tree_size wc) (wc_root_hash wc) ∧
       verified_for (wc_log_id wc) (wc_tree_size wc) (wc_root_hash wc) (lc_witness_id c) cosig).
Proof.
  unfold verify_cosignature_against_own_log. apply lt_lift_bind. intros peek Hpeek%map_err_ok.
  case_bool_decide; simpl; [|apply lt_err]. eapply lt_bind; [apply reconstruct_spec; by eapply witnessed_size_nonneg|].
  intros [cp|]; [|apply lt_err]. apply lt_lift. intros c l Hv%map_err_ok Hcp.
  destruct (Hcp cp eq_refl) as (Hid & Hn & Hh). rewrite (verified_is_bound _ _ _ _ _ Hv). simpl.
  split; [by rewrite Hn|]. by exists (we_verify_now env), doc, cp, c.
Qed.

Lemma upsert_spec row :
  triple (λ l, row_ok l row) (hasync (upserting row)) (λ _ _, True).
Proof.
  apply gtriple_awaited; [apply grows_id|]. intros o h Ho (Hi & Hl & He & Hrow).
  destruct (Ho _ Hi) as [(HJ & Hg & Hc) Hpre]. set (sh := o (hs_store h)) in *.
  assert (row_ok (log_of (lgs_store sh)) row) as Hrow' by (by eapply stable_row).
  unfold upserting. simpl. fold sh. destruct (store_upsert_witness_cosignature _ _) as [r s'] eqn:Hup.
  apply wk_upsert in Hup as (Hg' & Hlog & Hrows); [|done|by destruct Hrow' as [[??] _]].
  assert (∀ C : list LogEntryRecord → Prop, C (log_of s') →
    holds table_ok l0 e0 C (with_store (mkLogShared s' (lgs_cache sh)) h)) as Hh.
  { intros C HC'. unfold holds, log_inv, shared_log in *. simpl. rewrite Hlog in HC' |- *.
    split_and!; [|done|done|by etrans|done|done]. unfold table_ok in *. rewrite Hlog. apply Forall_forall.
    intros x [->|Hx]%Hrows; [done|]. by eapply Forall_forall in HJ. }
  split; [by apply Hh|]. destruct r as [[[]|e]|m]; simpl; by apply Hh.
Qed.

Lemma store_one_spec log env did cosig : triple (λ _, True) (verify_and_store log env did cosig) (λ _ _, True).
Proof.
  unfold verify_and_store. eapply lt_bind with (B := λ _ _, True).
  { apply (lt_true _ _ (λ r l, ∀ v : WitnessDocument, r = Ok v → True ∧ True)), lt_catch.
    by apply (lt_read _ _ _ (λ _, True) (λ _ _, True)
                HPanic (λ _, witness_resolve (we_resolve env) did)). }
  intros [doc|e]; [|by apply lt_ret]. destruct (witness_document_value doc) as [dv|]; [|by apply lt_ret].
  unfold verify_and_store_resolved. eapply lt_bind; [apply lt_catch, verify_own_spec|].
  intros [c|e]; [|by apply lt_ret]. destruct (value_to_string cosig) as [json|] eqn:Hjson; [|by apply lt_ret].
  eapply lt_bind with (B := λ _ _, True); [|by intros; apply lt_ret].
  eapply lt_true, lt_catch, lt_weaken; [apply upsert_spec| |intros v l; exact id].
  intros l Hc. destruct (Hc c eq_refl) as [Hh Hv]. by split; [|exists cosig].
Qed.

Lemma store_feed_spec log envs did cosigs : ∀ i stored,
  triple (λ _, True) (store_feed log envs did i cosigs stored)
    (λ n _, (stored ≤ n ≤ stored + length cosigs)%nat).
Proof.
  induction cosigs as [|c cosigs IH]; intros i stored; simpl; [apply lt_ret; lia|].
  eapply lt_bind; [apply store_one_spec|]. intros ok. eapply lt_weaken; [apply IH|done|].
  intros n l. simpl. destruct ok; lia.
Qed.

Lemma poll_spec log envs witness reply :
  triple (λ _, True) (poll_witness_once log envs witness reply)
    (λ r _, ∀ fetched stored, r = Ok (fetched, stored) →
       (∃ cosigs, reply = FeedBody (Ok cosigs) ∧ fetched = length cosigs) ∧
       (stored ≤ fetched ∧ stored ≤ MAX_COSIGNATURES_PER_POLL)%nat).
Proof.
  unfold poll_witness_once. destruct reply as [e|status|[cosigs|e]]; try by apply lt_ret.
  eapply lt_bind; [apply store_feed_spec|]. intros stored. apply lt_ret.
  intros l Hb fetched n [= <- <-]. rewrite length_take in Hb. split; [by exists cosigs|lia].
Qed.
End served.

Section claim.
Context {S Outside : Type}.
Context `{!StartupSdk} `{!LogSdk} `{!LogSdkLaws} `{!LogStore S} `{!LogContract S} `{!WitnessStore S} `{!WitnessContract S}.
Context `{!WitnessSdk Outside} `{!WitnessSdkLaws}.

(** C31: only verified signatures of the registry's own roots are stored and served.
    Whatever a witness answers, a poll, while other requests append and other polls run,
    stores at most 512 rows and leaves each row of the table a cosignature that verified
    against this registry's own checkpoint: its root is the root of the log at that size,
    then and for ever. And what a log endpoint serves beside a checkpoint, read from such a
    table, are cosignatures verified for exactly that log, size and root. *)
Theorem served_cosignatures_are_verified (l0 : list LogEntryRecord) (e0 : list Effect) (log : LogState)
    (envs : nat → WitnessEnv) (witness : WitnessConfig) (reply : FeedReply) :
  served table_ok l0 e0
    (λ r _, ∀ fetched stored, r = Ok (fetched, stored) →
       (∃ cosigs, reply = FeedBody (Ok cosigs) ∧ fetched = length cosigs) ∧
       (stored ≤ fetched ∧ stored ≤ MAX_COSIGNATURES_PER_POLL)%nat)
    (poll_witness_once log envs witness reply) ∧
  ∀ cp cosigs v, cosigned table_ok log cp cosigs → v ∈ cosigs →
    ∃ did, verified_for (log_id log) (cp_tree_size cp) (cp_root_hash cp) did v.
Proof.
  split; [apply log_triple_served, poll_spec; apply _|].
  intros cp cosigs v (s & HJ & Hg & [Hn _] & Hread) Hv.
  destruct (wk_read _ _ _ _ _ _ Hg Hn Hread Hv) as (row & Hrow & Hid & Hsz & Hroot & Hjson).
  eapply Forall_forall in HJ as (_ & v' & Htext & Hver); [|done].
  apply cosig_text_reads_back in Htext. assert (v' = v) as -> by congruence.
  exists (cr_witness_did row). by rewrite Hid Hsz Hroot in Hver.
Qed.
End claim.
