(* ===== verification/LogSqlite.v ===== *)
(** * The log of the SQLite store, behind the endpoints

    The store's side of [LogHandlers] and [Witness] in SQLite
    ([acdp-registry-sqlite/src/store.rs]): the log reads of [SqliteLog], the batched
    visibility of [SqliteListing] and the table [log_witness_cosignatures]. Every well-formed
    store keeps [LogContract] and [WitnessContract], and whatever the server does to it only
    makes the log grow. A driver that is down fails every call. *)

From S2P Require Import Prelude Text Errors RateLimit Revocation ContextTypes ClientIp ReadGate ChangeFeed EventReceipts KeyAttestations SqlTx SqliteStore SqlitePublish SqliteInvariants SqliteLifecycle SqliteReach SqliteReads SqliteListing SqliteLog Handlers ReadHandlers Config Startup LogHandlers LogTheorems Witness.

Open Scope registry_scope.

(** The database, its witness table, and the driver's error while it is down. *)
Record LogDb : Type := mkLogDb {
  ld_db : SqliteDb;
  ld_cosigs : list CosigRow;
  ld_down : option string
}.

Section table.
Context `{!StartupSdk} `{!LogSdk}.

Definition same_key (a b : CosigRow) : bool :=
  bool_decide (cr_log_id a = cr_log_id b) && (cr_tree_size a =? cr_tree_size b)%Z &&
  bool_decide (cr_root_hash a = cr_root_hash b) && bool_decide (cr_witness_did a = cr_witness_did b).

(** [INSERT ... ON CONFLICT ... DO UPDATE] on the key of the table. *)
Definition upsert_row (row : CosigRow) (rows : list CosigRow) : list CosigRow :=
  let row := mkCosigRow (cr_log_id row) (to_i64_or_max (cr_tree_size row)) (cr_root_hash row)
               (cr_witness_did row) (cr_witnessed_at row) (cr_json row) in
  if existsb (same_key row) rows then map (λ x, if same_key row x then row else x) rows
  else rows ++ [row].

(** [ORDER BY witness_did ASC]. *)
Definition did_order (a b : CosigRow) : Prop :=
  bytes_leb (as_bytes (cr_witness_did a)) (as_bytes (cr_witness_did b)) = true.

#[export] Instance did_order_dec : RelDecision did_order.
Proof. intros a b. unfold did_order. apply _. Defined.

Definition select_cosigs (id : string) (n : Z) (root : string) (rows : list CosigRow) : list CosigRow :=
  merge_sort did_order
    (List.filter (λ r, bool_decide (cr_log_id r = id) && (cr_tree_size r =? to_i64_or_max n)%Z &&
                       bool_decide (cr_root_hash r = root)) rows).

Definition witness_cosignatures_for (id : string) (n : Z) (root : string) (rows : list CosigRow) :
    result (list Value) AcdpError :=
  collect_ok (λ r, map_err (λ e, RegistryInternal ("stored cosignature is not JSON: " +:+ e)) (json_value (cr_json r)))
    (select_cosigs id n root rows).

Lemma upsert_row_rows row rows x :
  (cr_tree_size row ≤ i64_max)%Z → x ∈ upsert_row row rows → x = row ∨ x ∈ rows.
Proof.
  intros Hn. unfold upsert_row, to_i64_or_max. rewrite (proj2 (Z.leb_le _ _)); [|done].
  destruct row as [a b c d e f]. simpl. case_match.
  - intros (y & -> & Hy)%list_elem_of_fmap. case_match; auto.
  - intros [Hx| ->%list_elem_of_singleton]%elem_of_app; auto.
Qed.

Lemma select_cosigs_rows id n root rows r :
  (n ≤ i64_max)%Z → r ∈ select_cosigs id n root rows →
  r ∈ rows ∧ cr_log_id r = id ∧ cr_tree_size r = n ∧ cr_root_hash r = root.
Proof.
  intros Hn. unfold select_cosigs. rewrite (merge_sort_Permutation did_order) list_elem_of_In filter_In.
  unfold to_i64_or_max. rewrite (proj2 (Z.leb_le _ _)); [|done]. rewrite -list_elem_of_In.
  intros [Hr Hk]. apply andb_true_iff in Hk as [[Hi Hz]%andb_true_iff Hr'].
  split_and!; [done|by apply bool_decide_eq_true in Hi|by apply Z.eqb_eq|by apply bool_decide_eq_true in Hr'].
Qed.
End table.

Section sqlite.
Context `{HC : ChangeSdk} `{HE : !EventSdk} `{!StoreCodec} `{HP : PublishSdk} `{HK : KeylessSdk}.
Context `{!StartupSdk} `{!LogSdk}.

(** A call through the driver, with the name its error carries. *)
Definition through {T} (what : string) (s : LogDb) (r : result T AcdpError) : Ran (result T AcdpError) :=
  Done (match ld_down s with
        | Some e => Err (RegistryInternal (what +:+ ": " +:+ e))
        | None => r
        end).

#[export] Instance sqlite_log_store : LogStore LogDb := {
  store_log_tree_size s := through "log_tree_size" s (Ok (log_tree_size (ld_db s)));
  store_log_leaf_hashes n s := through "log_leaf_hashes" s (log_leaf_hashes decode_sha256_hex n (ld_db s));
  store_log_leaf_by_ctx id s := through "log_leaf_by_ctx" s (log_leaf_by_ctx id (ld_db s));
  store_log_leaf_by_index i s := through "log_leaf_by_index" s (log_leaf_by_index i (ld_db s));
  store_log_entries a b s := through "log_entries" s (SqliteLog.log_entries a b (ld_db s));
  store_visible_ctx_ids ids who tenant open s :=
    through "visible_ctx_ids" s (Ok (visible_ctx_ids ids who tenant open (ld_db s)));
  store_witness_cosignatures_for id n root s :=
    through "witness_cosignatures_for" s (witness_cosignatures_for id n root (ld_cosigs s))
}.

#[export] Instance sqlite_witness_store : WitnessStore LogDb := {
  store_upsert_witness_cosignature row s :=
    match ld_down s with
    | Some e => (Done (Err (RegistryInternal ("upsert_witness_cosignature: " +:+ e))), s)
    | None => (Done (Ok tt), mkLogDb (ld_db s) (upsert_row row (ld_cosigs s)) None)
    end
}.

Definition leaf_record (l : LeafRow) : LogEntryRecord := mkLogEntry (l_index l) (l_ctx_id l) (l_hash l) (l_json l).

Definition good_log (s : LogDb) : Prop := store_wf (ld_db s) ∧ (log_tree_size (ld_db s) ≤ i64_max)%Z.

Lemma through_ok {T} what s (r : result T AcdpError) v : through what s r = Done (Ok v) → r = Ok v.
Proof. unfold through. destruct (ld_down s); [done|]. by intros [= ->]. Qed.

Lemma row_record l r : log_row_to_record l = Ok r → r = leaf_record l.
Proof. unfold log_row_to_record. case_match; [done|]. by intros [= <-]. Qed.

Lemma collect_records rows rs : collect_ok log_row_to_record rows = Ok rs → rs = map leaf_record rows.
Proof.
  intros Hrs%collect_ok_inv. induction Hrs as [|l r rows rs Hr _ IH]; [done|].
  simpl. by rewrite IH (row_record l r).
Qed.

Lemma dense_above k l n :
  dense_from k l → List.filter (λ x, (k + Z.of_nat n <=? l_index x)%Z) l = drop n l.
Proof.
  revert k n. induction l as [|x l IH]; intros k n Hd; [by destruct n|]. apply dense_cons in Hd as [Hx Hd].
  cbn. destruct n as [|n]; cbn.
  - rewrite (proj2 (Z.leb_le _ _)); [|lia]. f_equal. rewrite -{2}(drop_0 l) -(IH (k + 1)%Z 0%nat Hd).
    apply List.filter_ext_in. intros y Hy. apply list_elem_of_In, list_elem_of_lookup in Hy as [i Hi].
    specialize (Hd i y Hi). rewrite !(proj2 (Z.leb_le _ _)); [done|lia|lia].
  - rewrite (proj2 (Z.leb_gt _ _)); [|lia]. rewrite -(IH (k + 1)%Z n Hd).
    apply filter_ext. intros y. f_equal. lia.
Qed.

Lemma dense_range l a b :
  dense_from 0 l →
  List.filter (λ x, (Z.of_nat a <=? l_index x)%Z && (l_index x <? Z.of_nat b)%Z) l = drop a (take b l).
Proof.
  intros Hd. rewrite -(dense_above 0 (take b l) a); [|by apply dense_take].
  rewrite -(dense_below 0 l b Hd). clear Hd. rewrite !Z.add_0_l.
  induction l as [|x l IH]; [done|]. simpl. destruct (Z.ltb (l_index x) (Z.of_nat b)); simpl.
  - rewrite andb_true_r. by destruct (Z.leb _ _); rewrite IH.
  - by rewrite andb_false_r.
Qed.

Lemma dense_drop k l n : dense_from k l → dense_from (k + Z.of_nat n) (drop n l).
Proof. intros Hd i x Hi. rewrite lookup_drop in Hi. specialize (Hd _ _ Hi). lia. Qed.

Lemma good_dense s : good_log s → dense_from 0 (log_leaves (ld_db s)).
Proof. intros [Hwf _]. by apply log_dense. Qed.

Lemma sqlite_entries s a b rs :
  good_log s → (0 ≤ a ≤ b)%Z → (b ≤ Z.of_nat (length (log_leaves (ld_db s))))%Z →
  SqliteLog.log_entries a b (ld_db s) = Ok rs →
  rs = map leaf_record (drop (Z.to_nat a) (take (Z.to_nat b) (log_leaves (ld_db s)))).
Proof.
  intros Hg Ha Hb Hrs%collect_records. pose proof (good_dense s Hg) as Hd. rewrite Hrs. f_equal.
  destruct Hg as [_ Hmax]. unfold log_tree_size in Hmax. unfold to_i64_or_max.
  rewrite !(proj2 (Z.leb_le _ _)); [|lia|lia].
  pose proof (dense_range _ (Z.to_nat a) (Z.to_nat b) Hd) as Hf. rewrite !Z2Nat.id in Hf; [|lia|lia].
  rewrite Hf. eapply dense_merge_sort. apply dense_drop, dense_take, Hd.
Qed.

Section laws.
Context `{!StoreCodecLaws} `{!PublishSdkLaws} `{!EventSdkLaws}.

#[export] Program Instance sqlite_log_contract : LogContract LogDb := {
  log_good := good_log;
  log_of s := map leaf_record (log_leaves (ld_db s))
}.
Next Obligation.
  intros s i r Hg Hi. rewrite list_lookup_fmap in Hi. apply fmap_Some in Hi as (l & Hl & ->). simpl.
  rewrite (good_dense s Hg i l Hl). lia.
Qed.
Next Obligation.
  intros s n Hg Hn%through_ok. injection Hn as <-. rewrite length_map. unfold log_tree_size. lia.
Qed.
Next Obligation.
  intros s n hs [Hwf Hmax] Hn Hh%through_ok. rewrite length_map in Hn.
  rewrite log_leaf_hashes_ok in Hh; [|done|unfold log_tree_size in *; lia..]. rewrite -Hh take_map.
  unfold leaf_hashes. clear. induction (take _ _) as [|l k IH]; [done|]. simpl. by rewrite IH.
Qed.
Next Obligation.
  intros s id r Hg Hr%through_ok. revert Hr. unfold log_leaf_by_ctx.
  destruct (List.find _ _) as [l|] eqn:Hf; [|done]. apply List.find_some in Hf as [Hl Hid%bool_decide_eq_true].
  destruct (log_row_to_record l) as [r'|] eqn:Hr; [|done]. intros [= <-]. apply row_record in Hr as ->.
  split; [|done]. apply list_elem_of_fmap. exists l. split; [done|]. by apply list_elem_of_In.
Qed.
Next Obligation.
  intros s i r Hg Hr%through_ok. revert Hr. unfold log_leaf_by_index. case_match; [done|].
  destruct (List.find _ _) as [l|] eqn:Hf; [|done]. apply List.find_some in Hf as [Hl Hid%Z.eqb_eq].
  destruct (log_row_to_record l) as [r'|] eqn:Hr; [|done]. intros [= <-]. apply row_record in Hr as ->.
  split; [|done]. apply list_elem_of_fmap. exists l. split; [done|]. by apply list_elem_of_In.
Qed.
Next Obligation.
  intros s a b rs Hg Ha Hb Hrs%through_ok. rewrite length_map in Hb.
  rewrite take_map -fmap_drop. by eapply sqlite_entries.
Qed.

#[export] Program Instance sqlite_witness_contract : WitnessContract LogDb := { cosig_rows := ld_cosigs }.
Next Obligation.
  intros row s r s' Hg Hn. simpl. destruct (ld_down s); intros [= <- <-]; simpl.
  { split_and!; auto. }
  split_and!; [done..|]. intros x Hx. eapply upsert_row_rows; [|done].
  destruct Hg as [_ Hmax]. unfold log_tree_size in Hmax. rewrite length_map in Hn. lia.
Qed.
Next Obligation.
  intros id n root s vs v [_ Hmax] Hn Hvs%through_ok Hv. simpl in *. rewrite length_map in Hn.
  apply collect_ok_inv in Hvs. apply list_elem_of_lookup in Hv as [i Hi].
  destruct (Forall2_lookup_r _ _ _ _ _ Hvs Hi) as (row & Hrow & Hjson%map_err_ok).
  apply list_elem_of_lookup_2, select_cosigs_rows in Hrow as (Hr & Hid & Hsz & Hroot);
    [|unfold log_tree_size in Hmax; lia]. by exists row.
Qed.

(** What the server does to the database only makes the log grow. *)
Lemma shared_log_grows (J : LogDb → Prop) P db' sh :
  log_inv J sh → store_run P (ld_db (lgs_store sh)) db' → (log_tree_size db' ≤ i64_max)%Z →
  (∀ down, J (mkLogDb db' (ld_cosigs (lgs_store sh)) down)) →
  ∀ down, let sh' := mkLogShared (mkLogDb db' (ld_cosigs (lgs_store sh)) down) (lgs_cache sh) in
  log_inv J sh' ∧ shared_log sh `prefix_of` shared_log sh'.
Proof.
  intros (HJ & [Hwf Hmax] & Hc) Hrun Hmax' HJ' down sh'.
  destruct (store_run_log _ _ _ Hwf Hrun) as (new & Hnew).
  assert (shared_log sh `prefix_of` shared_log sh') as Hp.
  { unfold shared_log. simpl. rewrite Hnew map_app. by eexists. }
  split; [|done]. split_and!; [apply HJ'|split; [by eapply store_run_wf|done]|].
  intros n root Hn. apply (stable_head n root (shared_log sh)); [done|by apply Hc].
Qed.
End laws.
End sqlite.
