(* ===== verification/LogExample.v ===== *)
(** * The log endpoints, run

    The handlers of [LogHandlers] and the poller of [Witness] on the SQLite store of
    [StoreExample], with a tree whose root is its hashes in a row, and the witnesses of
    their theorems. *)

From stdpp Require Import pretty.
From S2P Require Import Prelude Text RateLimit ChallengeStore Revocation AuthService Errors ContextTypes ChangeFeed FeedBackends ClientIp ReadGate KeyAttestations EventReceipts SqlTx SqliteStore SqlitePublish SqliteInvariants SqliteReach SqliteTheorems SqliteListing SqliteLog StoreExample.
From S2P Require Import Webhook PublishReply Playground Handlers KeylessPublish PublishSqlite PublishExample ReadHandlers HandlerExample Config Startup StartupExample LogHandlers LogTheorems Witness LogSqlite.

Module LogExample.
Import EventExample StoreExample.StoreExample PublishExample.PublishExample HandlerExample.HandlerExample.

#[local] Existing Instance StartupExample.StartupExample.plain_startup.

#[export] Instance row_log : LogSdk := {
  merkle_tree_hash hs := concat hs;
  inclusion_path i hs := if (i <? length hs)%nat then Some (firstn i hs) else None;
  consistency_proof n hs := if (n <=? length hs)%nat then Some (skipn n hs) else None;
  encode_sha256_hex := from_bytes;
  decode_sha256_hex h := Ok (as_bytes h);
  mint_log_checkpoint _ id n root now := Ok (mkCheckpoint id n root now "sig");
  leaf_from_value _ := Ok (mkLogLeaf "" "" "" 0 "" "" "");
  json_value := value_parse;
  checkpoint_to_value cp := Ok (VObject [("tree_size", VNumber (pretty (cp_tree_size cp)));
                                         ("root_hash", VString (cp_root_hash cp))]);
  inclusion_to_value inc := Ok (VObject [("leaf_index", VNumber (pretty (in_leaf_index inc)));
                                         ("tree_size", VNumber (pretty (in_tree_size inc)))]);
  consistency_to_value co := Ok (VObject [("second", VNumber (pretty (co_second_tree_size co)))])
}.

#[export] Instance row_log_laws : LogSdkLaws.
Proof.
  split.
  - intros signer id n root now cp. cbn. by intros [= <-].
  - intros i hs p. unfold inclusion_path, row_log. destruct (Nat.ltb_spec i (length hs)); [done|discriminate].
Qed.

(** The server over the database beside the witnesses' table. *)
#[export] Instance log_server : RegistryServer LogDb PublishRequest CommitCall := {|
  capabilities := capabilities;
  prove_publish_identity out req s := prove_publish_identity out req (ld_db s);
  prove_publish_identity_did_key out req s := prove_publish_identity_did_key out req (ld_db s);
  prove_publish_identity_pinned out req k alg s := prove_publish_identity_pinned out req k alg (ld_db s);
  key_fingerprint := key_fingerprint;
  commit_proven out p key tenant s :=
    let '(r, db) := commit_proven out p key tenant (ld_db s) in (r, mkLogDb db (ld_cosigs s) (ld_down s));
  publish_unverified_for_tests out req s :=
    let '(r, db) := publish_unverified_for_tests out req (ld_db s) in (r, mkLogDb db (ld_cosigs s) (ld_down s))
|}.

#[export] Instance log_reads : ReadServer LogDb CommitCall unit := {|
  server_retrieve id who s := server_retrieve id who (ld_db s);
  server_retrieve_body id who s := server_retrieve_body id who (ld_db s);
  server_lineage id who s := server_lineage id who (ld_db s);
  server_current id who s := server_current id who (ld_db s);
  server_search p who s := server_search p who (ld_db s);
  search_in_tenant p who open tenant s := search_in_tenant p who open tenant (ld_db s);
  read_tenant_of_ctx id s := read_tenant_of_ctx id (ld_db s);
  read_tenants_of_ctxs ids s := read_tenants_of_ctxs ids (ld_db s);
  ctx_id_parse := ctx_id_parse;
  ctx_id_authority := ctx_id_authority;
  resolve_foreign := resolve_foreign;
  resolved_body := resolved_body;
  resolved_state := resolved_state;
  resolved_receipt := resolved_receipt;
  resolved_raw_body := resolved_raw_body;
  context_to_value := context_to_value
|}.

Definition log1 : LogState := mkLogState "did:web:reg.test#receipt-1" "did:web:reg.test/log/1".

Definition endpoint1 : LogEndpoint := mkLogEndpoint (Some log1) gate0 9.

(** A store that was at one publish and may go on to the second. *)
Definition at_db (db : SqliteDb) : LogShared LogDb := mkLogShared (mkLogDb db [] None) None.

Definition known (s : LogDb) : Prop := (ld_db s = db1 ∨ ld_db s = db2) ∧ ld_cosigs s = [].

Definition to_db2 (sh : LogShared LogDb) : LogShared LogDb := mkLogShared (mkLogDb db2 [] None) (lgs_cache sh).

Lemma run12 : store_run (λ _, True) db1 db2.
Proof. apply step_publish_at. exact I. Qed.

Lemma to_db2_grows : grows known to_db2.
Proof.
  intros [[db cosigs down] cache] Hi. pose proof Hi as ([Hdb Hcos] & _). simpl in Hdb, Hcos. subst cosigs.
  assert (store_run (λ _, True) db db2) as Hrun by (destruct Hdb as [->| ->]; [exact run12|constructor]).
  apply (shared_log_grows known (λ _, True) db2 _ Hi Hrun); [vm_compute; discriminate|].
  intros d. split; [by right|done].
Qed.

Lemma inv_db1 : log_inv known (at_db db1).
Proof.
  split_and!; [by split; [left|]|split; [apply reachable_wf, reachable_db1|vm_compute; discriminate]|done].
Qed.

Definition by_index (i : string) : LogProofQuery := mkProofQuery None (Some i) None None None.

(** The second publish lands after the size of the tree was read. *)
Definition racing : list (AwaitPoint (LogShared LogDb)) := [mkAwait id false; mkAwait to_db2 false].

Definition proof_run (q : LogProofQuery) :=
  log_proof endpoint1 read_req tenant_reader q racing (initial (at_db db1)).

(** Its leaf is then found, in a tree it is not in yet. *)
Example proof_of_a_leaf_just_appended :
  (proof_run (by_index "1")).1.1 = HErr (no_inclusion_path 1 1) ∧
  (log_proof endpoint1 read_req tenant_reader (by_index "1") [] (initial (at_db db2))).1.1 =
    HOk (VObject [("leaf_index", VNumber "1"); ("tree_size", VNumber "2")]).
Proof. split; vm_compute; reflexivity. Qed.

Lemma racing_ok : others_ok (grows known) racing.
Proof. apply Forall_cons_2; [by intros sh|]. apply Forall_cons_2; [apply to_db2_grows|by apply Forall_nil]. Qed.

(** The proof of the first leaf in a tree of one, while the log grows to two. *)
Lemma log_answers_describe_one_log_witness :
  ∃ v h', (proof_run (by_index "0")).1.1 = HOk v ∧ (proof_run (by_index "0")).2 = h' ∧
    length (shared_log (hs_store h')) = 2%nat ∧
    proof_answer known endpoint1 log1 read_req tenant_reader (by_index "0") v (shared_log (hs_store h')).
Proof.
  destruct (log_answers_describe_one_log known (shared_log (at_db db1)) [] endpoint1 log1 read_req tenant_reader
              (by_index "0") (mkEntriesQuery None None) eq_refl) as (_ & Hproof & _).
  specialize (Hproof racing (initial (at_db db1)) racing_ok inv_db1 eq_refl eq_refl).
  assert (match (proof_run (by_index "0")).1.1 with HOk _ => true | _ => false end = true) as Hok
    by (vm_compute; reflexivity).
  assert (length (shared_log (hs_store (proof_run (by_index "0")).2)) = 2%nat) as Hlen by (vm_compute; reflexivity).
  unfold proof_run in *. destruct (log_proof endpoint1 read_req tenant_reader (by_index "0") racing _) as [[r aw] h'].
  destruct r as [v|e|m|]; [|discriminate..]. destruct Hproof as (_ & _ & _ & Hv).
  exists v, h'. split_and!; [reflexivity|reflexivity|exact Hlen|]. exact (Hv v _ eq_refl (reflexivity _)).
Defined.

(** ** Witnesses *)

(** A cosignature names the log, the size and the root; one over another root fails. *)
Definition cosig (size root at_ : string) : Value :=
  VObject [("tree_size", VNumber size); ("root_hash", VString root); ("witnessed_at", VString at_)].

Definition cosig_fields (v : Value) : option (Z * string) :=
  match value_get v "tree_size", value_get v "root_hash" with
  | Some (VNumber n), Some (VString r) => match parse_u64 n with Ok z => Some (z, r) | Err _ => None end
  | _, _ => None
  end.

Lemma cosig_fields_nonneg v n r : cosig_fields v = Some (n, r) → (0 ≤ n)%Z.
Proof.
  unfold cosig_fields. destruct (value_get v "tree_size") as [[]|]; try discriminate.
  destruct (value_get v "root_hash") as [[]|]; try discriminate.
  destruct (parse_u64 text) as [z|] eqn:Hz; [|discriminate]. intros [= <- <-]. by apply parse_u64_range in Hz as [? _].
Qed.

#[export] Instance row_witness : WitnessSdk unit := {|
  cosignature_from_value v :=
    match cosig_fields v with
    | Some (n, r) => Ok (mkCosignature "did:web:w" (mkWitnessed "did:web:reg.test/log/1" n r))
    | None => Err (InvalidWitnessCosignature "shape")
    end;
  verify_witness_cosignature_value now v doc cp :=
    match cosig_fields v with
    | Some (n, r) =>
        if (n =? cp_tree_size cp)%Z && bool_decide (r = cp_root_hash cp)
        then Ok (mkCosignature "did:web:w" (mkWitnessed (cp_log_id cp) n r))
        else Err (InvalidWitnessCosignature "root_hash")
    | None => Err (InvalidWitnessCosignature "shape")
    end;
  WitnessDocument := unit;
  witness_resolve _ _ := Done (Ok tt);
  witness_document_value _ := Ok VNull;
  value_to_string v := Ok (value_text v)
|}.

#[export] Instance row_witness_laws : WitnessSdkLaws.
Proof.
  split.
  - intros now v doc cp c. cbn. destruct (cosig_fields v) as [[n r]|]; [|discriminate].
    destruct (Z.eqb_spec n (cp_tree_size cp)) as [->|]; [|discriminate]. case_bool_decide; [|discriminate].
    subst r. by intros [= <-].
  - intros v json. cbn. intros [= <-]. apply parse_as_inverse. cbn. by rewrite tree_value_inverse.
  - intros v c. cbn. destruct (cosig_fields v) as [[n r]|] eqn:Hf; [|discriminate]. intros [= <-]. cbn.
    by eapply cosig_fields_nonneg.
Qed.

Definition root1 : string := from_bytes (concat (map (λ l, as_bytes (l_hash l)) (log_leaves db1))).

Definition witness1 : WitnessConfig := mkWitness "did:web:w" "https://w/log/witness" 60.

(** Two observations of the registry's root, the newer one first, and one of another root. *)
Definition feed1 : list Value := [cosig "1" root1 "12:02"; cosig "1" "sha256:other" "12:03"; cosig "1" root1 "12:01"].

Definition poll_run :=
  poll_witness_once log1 (λ _, mkWitnessEnv tt 9 9) witness1 (FeedBody (Ok feed1)) [] (initial (at_db db1)).

(** The forged root is not stored, and the older observation replaces the newer one. *)
Example older_observation_replaces_newer :
  poll_run.1.1 = HOk (Ok (3%nat, 2%nat)) ∧
  map cr_witnessed_at (ld_cosigs (lgs_store (hs_store poll_run.2))) = ["12:01"] ∧
  map cr_root_hash (ld_cosigs (lgs_store (hs_store poll_run.2))) = [root1].
Proof. split_and!; vm_compute; reflexivity. Qed.

Lemma inv_empty_table : log_inv table_ok (at_db db1).
Proof.
  split_and!; [apply Forall_nil_2|split; [apply reachable_wf, reachable_db1|vm_compute; discriminate]|done].
Qed.

(** The checkpoint over the first leaf is served with the one signature that verified. *)
Lemma served_cosignatures_are_verified_witness :
  ∃ v, store_witness_cosignatures_for (log_id log1) 1 root1 (lgs_store (hs_store poll_run.2)) = Done (Ok [v]) ∧
    v = cosig "1" root1 "12:01" ∧ ∃ did, verified_for (log_id log1) 1 root1 did v.
Proof.
  destruct (served_cosignatures_are_verified (shared_log (at_db db1)) [] log1 (λ _, mkWitnessEnv tt 9 9) witness1
              (FeedBody (Ok feed1))) as [Hpoll Hserve].
  specialize (Hpoll [] (initial (at_db db1)) (Forall_nil_2 _) inv_empty_table eq_refl eq_refl).
  fold poll_run in Hpoll.
  assert (store_witness_cosignatures_for (log_id log1) 1 root1 (lgs_store (hs_store poll_run.2)) =
            Done (Ok [cosig "1" root1 "12:01"])) as Hread by (vm_compute; reflexivity).
  assert (log_leaves (ld_db (lgs_store (hs_store poll_run.2))) = log_leaves db1) as Hleaves
    by (vm_compute; reflexivity).
  exists (cosig "1" root1 "12:01"). split; [exact Hread|]. split; [reflexivity|].
  destruct poll_run as [[r aw] h']. destruct Hpoll as ((HJ & Hg & _) & _).
  apply (Hserve (mkCheckpoint "did:web:reg.test/log/1" 1 root1 9 "sig") [cosig "1" root1 "12:01"]);
    [|apply list_elem_of_here].
  exists (lgs_store (hs_store h')). split; [exact HJ|]. split; [exact Hg|]. split; [|exact Hread].
  unfold head_of, log_of, sqlite_log_contract. simpl in Hleaves |- *. rewrite Hleaves.
  split; [vm_compute; split; discriminate|]. eexists. split; vm_compute; reflexivity.
Defined.
End LogExample.
