(* ===== verification/SubscriptionHandlers.v ===== *)
(** * Subscriptions over HTTP

    [acdp-registry-core/src/handlers/subscriptions.rs]: [POST], [GET] and [DELETE] of
    [/subscriptions], with the callback checks of [acdp-registry-core/src/callback.rs] and
    [SubscriptionRecord::to_subscription] of [acdp-registry-store/src/subscriptions.rs],
    on the subscription store of [Subscriptions] and the sealed secrets of [ChangesKey].
    The request types and the URL policy of the [acdp] crate, JSON, base64 and DNS are the
    class [SubscriptionSdk]. *)

From stdpp Require Import pretty.
From S2P Require Import Prelude Text RateLimit ChallengeStore Revocation AuthService Errors ContextTypes ChangeBucket ChangeFeed FeedBackends Changes ChangesKey Subscriptions ClientIp ReadGate EventReceipts KeyAttestations SqliteStore Handlers KeylessPublish ReadHandlers LifecycleHandler.

Open Scope registry_scope.
Open Scope handler_scope.

(** ** Types of the SDK *)

Record SubscriptionRequest : Type := mkSubscriptionRequest {
  sr_filter : WatchFilter;
  sr_callback_url : string
}.

(** [acdp::types::change::Subscription]. *)
Record SubscriptionView : Type := mkSubscriptionView {
  sv_id : string;
  sv_filter : WatchFilter;
  sv_callback_url : string;
  sv_created_at : Z;
  sv_status : SubscriptionStatus;
  sv_secret : option string
}.

(** What a lookup came to within its bound. *)
Inductive Lookup : Type :=
  | LookupTimedOut
  | LookupAnswered (answer : result (list IpAddr) AcdpError).

Class SubscriptionSdk (Outside : Type) : Type := {
  sub_acdp_display : AcdpError → string;
  sub_json : list Z → result Value string;
  filter_from_value : Value → result WatchFilter string;
  (** Filter, [max_change_filters]. *)
  validate_for_subscription : WatchFilter → Z → result unit AcdpError;
  subscription_request_from_value : Value → result SubscriptionRequest AcdpError;
  subscription_request_validate : SubscriptionRequest → Z → result unit AcdpError;
  subscription_validate : SubscriptionView → result unit AcdpError;
  subscription_to_vec : SubscriptionView → result (list Z) string;
  (** [SsrfPolicy::check_url] and [reject_if_any_forbidden] of the host's addresses. *)
  callback_check_url : string → result unit AcdpError;
  reject_if_any_forbidden : string → list IpAddr → result unit AcdpError;
  (** [Url::parse]: the host and the port or the scheme's default. *)
  callback_url_parse : string → result (option string * option Z) string;
  callback_lookup : Outside → string → Z → Lookup;
  b64_standard : list Z → string;
  sub_from_timestamp_millis : Z → option Z
}.

(** The store's subscriptions and the head of its feed. *)
Class SubscriptionHost (S : Type) : Type := {
  host_dialect : Dialect;
  host_subs : S → SubStore;
  host_set_subs : SubStore → S → S;
  host_changes_head : S → Ran (result Z AcdpError)
}.

(** ** [callback.rs] *)

Section callback.
Context {Outside : Type} `{!SubscriptionSdk Outside}.

(** [resolve_allowed]: the whole answer is refused if it is empty or one address is
    forbidden. *)
Definition resolve_allowed (out : Outside) (host : string) (port : Z) : result (list IpAddr) string :=
  match callback_lookup out host port with
  | LookupTimedOut => Err ("DNS lookup for '" +:+ host +:+ "' timed out")
  | LookupAnswered answer =>
      let? addrs := map_err sub_acdp_display answer in
      if is_empty addrs then Err ("'" +:+ host +:+ "' does not resolve")
      else
        let? _ := map_err sub_acdp_display (reject_if_any_forbidden host addrs) in
        Ok addrs
  end.

(** [StaticResolver]: a table of hosts, for tests. *)
Definition static_with (host : string) (addrs : list IpAddr) (entries : gmap string (list IpAddr)) :
    gmap string (list IpAddr) := <[to_ascii_lowercase host := addrs]> entries.

Definition static_lookup (entries : gmap string (list IpAddr)) (host : string) : result (list IpAddr) AcdpError :=
  ok_or (entries !! to_ascii_lowercase host)
    (AcdpOther ("DNS lookup for '" +:+ host +:+ "' failed: no such host")).
End callback.

(** ** The handlers *)

Definition SECRET_BYTES : nat := 32.
Definition LIMIT_FIELD : string := "limits.max_subscriptions_per_requester".
Definition UNRESOLVABLE : string := "its host must resolve, and resolve only to public unicast addresses".

Definition events_not_implemented : RegistryError := RE_Acdp (NotImplemented
  "this registry does not advertise acdp-registry-events (RFC-ACDP-0018 §8: /subscriptions is not implemented)").
Definition subscription_not_found : RegistryError := RE_Acdp (NotFound "subscription not found").

(** [refuse] of [check_callback]. *)
Definition refuse_callback (why : string) : RegistryError :=
  RE_FieldViolation "callback_url" ("callback_url refused: " +:+ why).

(** An empty member of the filter, in the order of the object. *)
Fixpoint empty_member (members : list (string * Value)) : option string :=
  match members with
  | [] => None
  | (k, VArray []) :: _ => Some k
  | _ :: members => empty_member members
  end.

Section handlers.
Context {S Outside : Type} `{!ChangesCrypto} `{!SubscriptionSdk Outside} `{!SubscriptionHost S}.
Context (jwt_decode : Validation → Z → string → result BearerClaims string).
Context {R : Type} `{!RevocationStore R}.

(** The members of [AppState] the handlers read. *)
Record SubscriptionState : Type := mkSubscriptionState {
  ss_gate : GateState (R := R);
  ss_events_enabled : bool;
  ss_changes_key : option ChangesKey;
  ss_max_change_filters : Z;
  ss_max_per_requester : Z
}.

(** The clocks, the random source and the network of a request. *)
Record SubscriptionEnv : Type := mkSubscriptionEnv {
  se_gate : GateEnv;
  se_lookup : Outside;
  se_uuid : string;
  se_secret : option (list Z);
  se_nonce : option (list Z);
  se_now : Z
}.

(** [AppState::events_key]. *)
Definition events_key (st : SubscriptionState) : option ChangesKey :=
  if ss_events_enabled st then ss_changes_key st else None.

Definition owner (st : SubscriptionState) (env : SubscriptionEnv) (req : ReadRequest) : result string RegistryError :=
  let? caller := caller_from_headers jwt_decode (ss_gate st) (se_gate env) req in
  ok_or caller (RE_Acdp (NotAuthorized
    "subscriptions require an authenticated requester (RFC-ACDP-0018 §8.1)")).

(** The refusal of the closed schema: one that mentions the callback names it. *)
Definition schema_refusal (e : AcdpError) : RegistryError :=
  match e with
  | SchemaViolation m => if contains_str "callback_url" m then RE_FieldViolation "callback_url" m else RE_Acdp e
  | _ => RE_Acdp e
  end.

Definition parse_subscription_request (body : list Z) (max_change_filters : Z) :
    result SubscriptionRequest RegistryError :=
  let? value := map_err (λ e, RE_Acdp (SchemaViolation ("subscription request is not JSON: " +:+ e))) (sub_json body) in
  let? _ := ok_or (match value with VObject m => Some m | _ => None end)
              (RE_Acdp (SchemaViolation "subscription request is not a JSON object")) in
  let? filter := ok_or (value_get value "filter") (RE_FieldViolation "filter" "filter is required") in
  let? _ := match (match filter with VObject m => empty_member m | _ => None end) with
            | Some k => Err (RE_FieldViolation "filter" ("filter." +:+ k +:+ " is empty (minItems 1)"))
            | None => Ok tt
            end in
  let? parsed := map_err (λ e, RE_FieldViolation "filter" ("filter does not parse: " +:+ e))
                   (filter_from_value filter) in
  let? _ := map_err (λ e, RE_FieldViolation "filter" (sub_acdp_display e))
              (validate_for_subscription parsed max_change_filters) in
  let? url := ok_or (value_get value "callback_url") (RE_FieldViolation "callback_url" "callback_url is required") in
  let? _ := match url with
            | VString _ => Ok tt
            | _ => Err (RE_FieldViolation "callback_url" "callback_url is not a string")
            end in
  let? req := map_err schema_refusal (subscription_request_from_value value) in
  let? _ := map_err (λ e, RE_FieldViolation "callback_url" (sub_acdp_display e))
              (subscription_request_validate req max_change_filters) in
  Ok req.

(** [check_callback]: the shape says why it is refused, the resolution does not. *)
Definition callback_host (url : string) : result (string * Z) RegistryError :=
  let? _ := map_err (λ e, refuse_callback (sub_acdp_display e)) (callback_check_url url) in
  let? '(host, port) := map_err refuse_callback (callback_url_parse url) in
  let? host := ok_or host (refuse_callback "no host") in
  Ok (host, default 443%Z port).

Definition check_callback (env : SubscriptionEnv) (url : string) : H S unit :=
  let! '(host, port) := hlift (callback_host url) in
  hasync (λ h, (Done (match resolve_allowed (se_lookup env) host port with
                      | Ok _ => Ok tt
                      | Err _ => Err (refuse_callback UNRESOLVABLE)
                      end), h)).

Definition new_secret (env : SubscriptionEnv) : result string RegistryError :=
  let? raw := ok_or (se_secret env) (RE_Internal "subscription secret: RNG failure") in
  Ok (b64_standard raw).

(** A call of the subscription store that may write it. *)
Definition on_subs {T} (f : SubStore → result T AcdpError * SubStore) :
    HState S → Ran (result T RegistryError) * HState S :=
  writing (λ s, let '(r, m) := f (host_subs s) in (Done r, host_set_subs m s)).

Definition limit_reached (max : Z) : RegistryError :=
  RE_FieldViolation LIMIT_FIELD ("the requester already holds limits.max_subscriptions_per_requester (" +:+
    pretty max +:+ ") subscriptions (RFC-ACDP-0018 §8.1)").

(** The answer of a creation: [201], [Cache-Control: no-store] and the body. *)
Record CreatedReply : Type := mkCreatedReply { crp_status : Z; crp_cache_control : string; crp_body : list Z }.

Definition create (st : SubscriptionState) (env : SubscriptionEnv) (req : ReadRequest) (body : list Z) :
    H S CreatedReply :=
  let! key := hlift (ok_or (events_key st) events_not_implemented) in
  let! who := hlift (owner st env req) in
  let! tenant := hlift (tenant_for_request jwt_decode (ss_gate st) (se_gate env) req) in
  let! parsed := hlift (parse_subscription_request body (ss_max_change_filters st)) in
  let! _ := check_callback env (sr_callback_url parsed) in
  let! secret := hlift (new_secret env) in
  let! sealed := hlift (map_err (λ _, RE_Internal "subscription secret")
                          (seal_secret key (se_nonce env) (se_uuid env) secret)) in
  let created_at_ms := timestamp_millis (se_now env) in
  let! head := hasync (reading host_changes_head) in
  let new := mkNewSubscription (se_uuid env) who tenant (sr_filter parsed) (sr_callback_url parsed) sealed
               (key_id key) created_at_ms head in
  let! outcome := hasync (on_subs (λ m, create_subscription host_dialect m new (ss_max_per_requester st))) in
  let! _ := hlift (match outcome with
                   | Created => Ok tt
                   | LimitReached => Err (limit_reached (ss_max_per_requester st))
                   end) in
  let sub := mkSubscriptionView (se_uuid env) (sr_filter parsed) (sr_callback_url parsed)
               (default (se_now env) (sub_from_timestamp_millis created_at_ms)) Active (Some secret) in
  let! bytes := hlift (map_err (λ e, RE_Internal ("subscription: " +:+ e)) (subscription_to_vec sub)) in
  hret (mkCreatedReply 201 "no-store" bytes).

(** [SubscriptionRecord::to_subscription]: never with the secret. *)
Definition to_subscription (r : SubscriptionRecord) : result SubscriptionView AcdpError :=
  let corrupt why := RegistryInternal ("stored subscription " +:+ subscription_id r +:+ " is malformed: " +:+ why) in
  let? created_at := ok_or (sub_from_timestamp_millis (created_at_ms r))
                       (corrupt ("created_at_ms " +:+ pretty (created_at_ms r) +:+ " is out of range")) in
  let sub := mkSubscriptionView (subscription_id r) (sub_filter r) (callback_url r) created_at (status r) None in
  let? _ := map_err (λ e, corrupt (sub_acdp_display e)) (subscription_validate sub) in
  Ok sub.

(** [GET /subscriptions/{id}]. *)
Definition get_subscription_handler (st : SubscriptionState) (env : SubscriptionEnv) (req : ReadRequest) (id : string) :
    H S SubscriptionView :=
  let! _ := hlift (ok_or (events_key st) events_not_implemented) in
  let! who := hlift (owner st env req) in
  let! found := hasync (reading (λ s, Done (get_subscription (host_subs s) who id))) in
  let! record := hlift (ok_or found subscription_not_found) in
  hlift (map_err RE_Acdp (to_subscription record)).

(** [DELETE /subscriptions/{id}]: the status of the answer. *)
Definition delete_subscription_handler (st : SubscriptionState) (env : SubscriptionEnv) (req : ReadRequest)
    (id : string) : H S Z :=
  let! _ := hlift (ok_or (events_key st) events_not_implemented) in
  let! who := hlift (owner st env req) in
  let! removed := hasync (on_subs (λ m, delete_subscription m who id)) in
  hlift (if (removed : bool) then Ok 204%Z else Err subscription_not_found).
End handlers.

(** ** Subscriptions belong to their owner

    What [SubscriptionHandlers] guarantees: a subscription is created only for an
    authenticated requester with a checked callback, its secret leaves the registry once
    and is stored sealed, and nobody but the owner sees or removes it or can tell it from
    one that does not exist. *)

Section owned.
Context {S Outside : Type} `{!ChangesCrypto} `{!SubscriptionSdk Outside} `{!SubscriptionHost S}.
Context (jwt_decode : Validation → Z → string → result BearerClaims string).
Context {R : Type} `{!RevocationStore R}.
Implicit Types (st : SubscriptionState (R := R)) (env : SubscriptionEnv (Outside := Outside)) (req : ReadRequest).
(** What is known of the store and kept by the other requests. *)
Context (I : S → Prop).

(** ** What a creation rests on *)

Record creation_earned st env req (body : list Z) (who : string) (new : NewSubscription) (secret : string) : Prop :=
  mkEarned {
    ea_key : ∃ key, events_key st = Some key ∧ ns_secret_key_id new = key_id key ∧
      seal_secret key (se_nonce env) (ns_id new) secret = Ok (ns_secret_ct new);
    ea_secret : ∃ raw, se_secret env = Some raw ∧ secret = b64_standard raw;
    ea_caller : caller_from_headers jwt_decode (ss_gate st) (se_gate env) req = Ok (Some who);
    ea_owner : ns_owner new = who;
    ea_tenant : tenant_for_request jwt_decode (ss_gate st) (se_gate env) req = Ok (ns_tenant new);
    ea_request : parse_subscription_request body (ss_max_change_filters st) =
      Ok (mkSubscriptionRequest (ns_filter new) (ns_callback_url new));
    ea_callback : ∃ host port addrs, callback_host (ns_callback_url new) = Ok (host, port) ∧
      callback_lookup (se_lookup env) host port = LookupAnswered (Ok addrs) ∧ addrs ≠ [] ∧
      reject_if_any_forbidden host addrs = Ok tt;
    ea_head : ∃ s, I s ∧ host_changes_head s = Done (Ok (ns_last_hinted_seq new));
    ea_id : ns_id new = se_uuid env;
    ea_created : ns_created_at_ms new = timestamp_millis (se_now env)
  }.

(** What the requester is told: the subscription with its secret. *)
Definition told env (new : NewSubscription) (secret : string) : SubscriptionView :=
  mkSubscriptionView (ns_id new) (ns_filter new) (ns_callback_url new)
    (default (se_now env) (sub_from_timestamp_millis (ns_created_at_ms new))) Active (Some secret).

Lemma owner_ok st env req who :
  owner jwt_decode st env req = Ok who ↔ caller_from_headers jwt_decode (ss_gate st) (se_gate env) req = Ok (Some who).
Proof.
  unfold owner. destruct (caller_from_headers _ _ _ _) as [[d|]|e]; simpl; split; congruence.
Qed.

Lemma resolve_allowed_ok (out : Outside) host port addrs :
  resolve_allowed out host port = Ok addrs →
  callback_lookup out host port = LookupAnswered (Ok addrs) ∧ addrs ≠ [] ∧ reject_if_any_forbidden host addrs = Ok tt.
Proof.
  unfold resolve_allowed. destruct (callback_lookup out host port) as [|[l|e]]; simpl; try done.
  destruct l as [|a l]; [done|]. simpl. destruct (reject_if_any_forbidden host (a :: l)) as [[]|] eqn:Hr; [|done].
  by intros [= <-].
Qed.

(** ** The pieces *)

(** The request has so far only seen states others left. *)
Definition untouched (h0 h : HState S) : Prop :=
  I (hs_store h) ∧ hs_effects h = hs_effects h0 ∧ hs_charge h = hs_charge h0.

Lemma untouched_store h0 h s : untouched h0 h → I s → untouched h0 (with_store s h).
Proof. by intros (Hi & He & Hc) Hs. Qed.

Lemma check_callback_spec h0 env url :
  htriple I (untouched h0) (check_callback env url)
    (λ r h, untouched h0 h ∧ ∀ u, r = HOk u →
       ∃ host port addrs, callback_host url = Ok (host, port) ∧
         callback_lookup (se_lookup env) host port = LookupAnswered (Ok addrs) ∧ addrs ≠ [] ∧
         reject_if_any_forbidden host addrs = Ok tt).
Proof.
  unfold check_callback. apply htriple_lift_bind; [by intros e h _ Hh|]. intros [host port] Hhost.
  apply htriple_awaited. intros o h Ho Hh.
  assert (untouched h0 (with_store (o (hs_store h)) h)) as Hu by (apply untouched_store; [done|by apply Ho, Hh]).
  split; [by split|]. destruct (resolve_allowed _ _ _) as [addrs|e] eqn:Hr; [|by split].
  split; [done|]. intros u _. exists host, port, addrs. by apply resolve_allowed_ok in Hr.
Qed.

Lemma create_spec h0 st env req body who :
  (∀ s new secret, I s → creation_earned st env req body who new secret →
     I (host_set_subs (create_subscription host_dialect (host_subs s) new (ss_max_per_requester st)).2 s)) →
  owner jwt_decode st env req = Ok who →
  htriple I (untouched h0) (create jwt_decode st env req body)
    (λ r h, untouched h0 h ∧ ∀ reply, r = HOk reply →
       ∃ new secret, creation_earned st env req body who new secret ∧
         (∃ s, I s ∧ (create_subscription host_dialect (host_subs s) new (ss_max_per_requester st)).1 = Ok Created) ∧
         subscription_to_vec (told env new secret) = Ok (crp_body reply) ∧
         crp_status reply = 201%Z ∧ crp_cache_control reply = "no-store").
Proof.
  intros Hkeep Hwho. unfold create. assert (∀ e h, untouched h0 h → untouched h0 h ∧ ∀ reply, HErr e = HOk reply →
    ∃ new secret, creation_earned st env req body who new secret ∧
         (∃ s, I s ∧ (create_subscription host_dialect (host_subs s) new (ss_max_per_requester st)).1 = Ok Created) ∧
         subscription_to_vec (told env new secret) = Ok (crp_body reply) ∧
         crp_status reply = 201%Z ∧ crp_cache_control reply = "no-store") as Herr by done.
  apply htriple_lift_bind; [by intros; apply Herr|]. intros key Hkey%ok_or_ok.
  apply htriple_lift_bind; [by intros; apply Herr|]. rewrite Hwho. intros _ [= <-].
  apply htriple_lift_bind; [by intros; apply Herr|]. intros tenant Htenant.
  apply htriple_lift_bind; [by intros; apply Herr|]. intros [filter url] Hparsed. simpl.
  eapply htriple_bind with (R := λ _ h, untouched h0 h ∧ ∃ host port addrs, callback_host url = Ok (host, port) ∧
         callback_lookup (se_lookup env) host port = LookupAnswered (Ok addrs) ∧ addrs ≠ [] ∧
         reject_if_any_forbidden host addrs = Ok tt).
  { eapply htriple_weaken; [apply check_callback_spec|done|]. intros [u|e|m|] h [Hu Hr]; simpl; try done.
    split; [done|]. by apply (Hr u). }
  intros []. apply htriple_lift_bind; [by intros e h _ [? _]|]. intros secret Hsecret.
  apply htriple_lift_bind; [by intros e h _ [? _]|]. intros sealed Hsealed%map_err_ok.
  eapply htriple_bind with (R := λ head h, untouched h0 h ∧
    creation_earned st env req body who
      (mkNewSubscription (se_uuid env) who tenant filter url sealed (key_id key) (timestamp_millis (se_now env)) head)
      secret).
  { apply htriple_reading. intros h s [Hu Hcb] Hs. simpl.
    assert (I s) as His by by apply Hs, Hu. assert (untouched h0 (with_store s h)) as Hu' by by apply untouched_store.
    split; [done|]. destruct (host_changes_head s) as [[head|e]|m] eqn:Hhead; [|done..]. split; [done|].
    apply owner_ok in Hwho. constructor; simpl; try done; [by exists key|..|by exists s].
    unfold new_secret in Hsecret. destruct (se_secret env) as [raw|]; [|done]. injection Hsecret as <-. by exists raw. }
  intros head. set (new := mkNewSubscription _ _ _ _ _ _ _ _ _).
  eapply htriple_bind with (R := λ outcome h, untouched h0 h ∧ creation_earned st env req body who new secret ∧
    ∃ s, I s ∧ (create_subscription host_dialect (host_subs s) new (ss_max_per_requester st)).1 = Ok outcome).
  { apply htriple_awaited. intros o h Ho [Hu Hearned]. unfold on_subs, writing. simpl.
    set (s := o (hs_store h)). assert (I s) as His by by apply Ho, Hu.
    pose proof (Hkeep s new secret His Hearned) as Hkept.
    destruct (create_subscription _ _ new _) as [r m] eqn:Hc. simpl in Hkept |- *.
    assert (untouched h0 (with_store (host_set_subs m s) (with_store s h))) as Hu' by by apply (untouched_store h0 h).
    split; [done|]. destruct r as [outcome|e]; simpl; [|done]. split_and!; [done..|]. exists s. by rewrite Hc. }
  intros outcome. apply htriple_lift_bind; [by intros e h _ [? _]|]. intros [] Hout.
  destruct outcome; [|done]. apply htriple_lift_bind; [by intros e h _ [? _]|]. intros bytes Hbytes%map_err_ok.
  apply htriple_ret. intros h (Hu & Hearned & Hcreated). split; [done|]. intros reply [= <-].
  by exists new, secret.
Qed.

Lemma get_spec h0 st env req id who :
  owner jwt_decode st env req = Ok who →
  htriple I (untouched h0) (get_subscription_handler jwt_decode st env req id)
    (λ r h, untouched h0 h ∧
       (∀ view, r = HOk view → ∃ s row, I s ∧ subs (host_subs s) !! id = Some row ∧ owner_did row = who ∧
          to_subscription row = Ok view) ∧
       ((∀ s row, I s → subs (host_subs s) !! id = Some row → owner_did row ≠ who) →
        r ∈ [HErr subscription_not_found; HErr (RE_Acdp sub_err); HErr events_not_implemented; HDropped])).
Proof.
  intros Hwho. unfold get_subscription_handler. apply htriple_lift_bind.
  { intros e h He Hh. destruct (events_key st); simpl in He; simplify_eq. split_and!; [done..|set_solver]. }
  intros key _. apply htriple_lift_bind; [by rewrite Hwho|]. rewrite Hwho. intros _ [= <-].
  eapply htriple_bind with (R := λ found h, untouched h0 h ∧ ∃ s, I s ∧ get_subscription (host_subs s) who id = Ok found).
  { apply htriple_reading. intros h s Hu Hs. simpl. assert (I s) as His by by apply Hs, Hu.
    assert (untouched h0 (with_store s h)) as Hu' by by apply untouched_store.
    split; [split_and!; [done..|set_solver]|]. destruct (get_subscription _ _ _) as [found|e] eqn:Hf.
    - split; [done|]. by exists s.
    - split_and!; [done..|]. intros _. assert (e = sub_err) as ->; [|set_solver].
      unfold get_subscription in Hf. by destruct (negb _); simplify_eq. }
  intros found. apply htriple_lift_bind.
  { intros e h He [Hu _]. destruct found; simpl in He; simplify_eq. split_and!; [done..|set_solver]. }
  intros row ->%ok_or_ok. apply htriple_lift. intros h (Hu & s & His & Hget).
  assert (subs (host_subs s) !! id = Some row ∧ owner_did row = who) as [Hrow Howner].
  { unfold get_subscription in Hget. destruct (negb _); [done|]. destruct (subs (host_subs s) !! id) as [r|]; [|done].
    case_bool_decide; by simplify_eq. }
  destruct (to_subscription row) as [view|e] eqn:Hv; simpl; split_and!; try done.
  - intros ? [= <-]. by exists s, row.
  - intros Hno. by destruct (Hno s row).
  - intros Hno. by destruct (Hno s row).
Qed.

Lemma delete_spec h0 st env req id who :
  (∀ s, I s → I (host_set_subs (delete_subscription (host_subs s) who id).2 s)) →
  owner jwt_decode st env req = Ok who →
  htriple I (untouched h0) (delete_subscription_handler jwt_decode st env req id)
    (λ r h, untouched h0 h ∧
       (∀ status, r = HOk status → ∃ s row, I s ∧ subs (host_subs s) !! id = Some row ∧ owner_did row = who) ∧
       ((∀ s row, I s → subs (host_subs s) !! id = Some row → owner_did row ≠ who) →
        r ∈ [HErr subscription_not_found; HErr (RE_Acdp sub_err); HErr events_not_implemented; HDropped])).
Proof.
  intros Hkeep Hwho. unfold delete_subscription_handler. apply htriple_lift_bind.
  { intros e h He Hh. destruct (events_key st); simpl in He; simplify_eq. split_and!; [done..|set_solver]. }
  intros key _. apply htriple_lift_bind; [by rewrite Hwho|]. rewrite Hwho. intros _ [= <-].
  eapply htriple_bind with (R := λ removed h, untouched h0 h ∧
    (removed = true → ∃ s row, I s ∧ subs (host_subs s) !! id = Some row ∧ owner_did row = who)).
  { apply htriple_awaited. intros o h Ho Hu. unfold on_subs, writing. simpl.
    set (s := o (hs_store h)). assert (I s) as His by by apply Ho, Hu. pose proof (Hkeep s His) as Hkept.
    destruct (delete_subscription (host_subs s) who id) as [r m] eqn:Hd. simpl in Hkept |- *.
    assert (untouched h0 (with_store (host_set_subs m s) (with_store s h))) as Hu' by by apply (untouched_store h0 h).
    split; [split_and!; [done..|set_solver]|]. unfold delete_subscription in Hd.
    destruct (negb _); simplify_eq; simpl; [split_and!; [done..|set_solver]|].
    destruct (subs (host_subs s) !! id) as [row|] eqn:Hrow; simplify_eq; [|done].
    case_bool_decide; simplify_eq; simpl; [|done]. split; [done|]. intros _. by exists s, row. }
  intros removed. apply htriple_lift. intros h [Hu Hr]. destruct removed; simpl.
  - destruct (Hr eq_refl) as (s & row & His & Hrow & Ho). split_and!; [done| |].
    + intros status _. by exists s, row.
    + intros Hno. by destruct (Hno s row).
  - split_and!; [done..|set_solver].
Qed.

(** Without a requester nothing is looked at and nothing is written. *)
Lemma unowned_spec st env req body id e :
  owner jwt_decode st env req = Err e →
  let refused := match events_key st with Some _ => e | None => events_not_implemented end in
  ∀ (aw : list (AwaitPoint S)) (h : HState S),
    create jwt_decode st env req body aw h = (HErr refused, aw, h) ∧
    get_subscription_handler jwt_decode st env req id aw h = (HErr refused, aw, h) ∧
    delete_subscription_handler jwt_decode st env req id aw h = (HErr refused, aw, h).
Proof.
  intros He refused aw h. unfold create, get_subscription_handler, delete_subscription_handler, hbind, hlift, refused.
  destruct (events_key st); simpl; rewrite ?He; done.
Qed.
End owned.

(** ** Everyone's share *)

Section claim.
Context {S Outside : Type} `{!ChangesCrypto} `{!SubscriptionSdk Outside} `{!SubscriptionHost S}.
Context (jwt_decode : Validation → Z → string → result BearerClaims string).
Context {R : Type} `{!RevocationStore R}.
Context (Hlens : ∀ m s, host_subs (host_set_subs m s) = m).

(** No owner holds more than the limit. *)
Definition within_limit (max : Z) (s : S) : Prop :=
  ∀ o, (Z.of_nat (owned_count o (subs (host_subs s))) ≤ max)%Z.

Lemma create_within_limit d m new max :
  (∀ o, (Z.of_nat (owned_count o (subs m)) ≤ max)%Z) →
  ∀ o, (Z.of_nat (owned_count o (subs (create_subscription d m new max).2)) ≤ max)%Z.
Proof.
  intros Hmax. destruct (sub_reachable m) eqn:Hup; [|unfold create_subscription; by rewrite Hup].
  destruct (subscriptions_are_owner_scoped d m max Hup Hmax) as [_ Hc].
  destruct (create_subscription d m new max) as [r m'] eqn:Hr. by apply (Hc new r m').
Qed.

(** C27: subscriptions are their owner's. Whatever other requests do in between and
    wherever a request is dropped. A creation is answered [201] only to an authenticated
    requester whose request is valid, in a tenant vouched for, with a callback of allowed
    shape that resolves, and only to allowed addresses; the row it stores belongs to that
    requester, starts at a head of the feed, and holds the secret it was told only sealed
    under its own id; and nothing but such a row is ever written ([I] is any fact of the
    store the others and such a row keep). A read answers only the owner, without the
    secret, and a removal takes only the owner's; to anyone else a subscription answers as
    one that does not exist does. Without a requester nothing is read or written; and no
    owner exceeds the limit. *)
Theorem subscriptions_are_the_owners (I : S → Prop) (st : SubscriptionState (R := R))
    (env : SubscriptionEnv (Outside := Outside)) (req : ReadRequest) (body : list Z) (id : string)
    (aw : list (AwaitPoint S)) (h : HState S) :
  others_keep I aw → I (hs_store h) →
  match owner jwt_decode st env req with
  | Ok who =>
      ((∀ s new secret, I s → creation_earned jwt_decode I st env req body who new secret →
          I (host_set_subs (create_subscription host_dialect (host_subs s) new (ss_max_per_requester st)).2 s)) →
       let '(r, _, h') := create jwt_decode st env req body aw h in
       untouched I h h' ∧ ∀ reply, r = HOk reply →
         ∃ new secret, creation_earned jwt_decode I st env req body who new secret ∧
           (∃ s, I s ∧ (create_subscription host_dialect (host_subs s) new (ss_max_per_requester st)).1 = Ok Created) ∧
           subscription_to_vec (told env new secret) = Ok (crp_body reply) ∧
           crp_status reply = 201%Z ∧ crp_cache_control reply = "no-store") ∧
      (let '(r, _, h') := get_subscription_handler jwt_decode st env req id aw h in
       untouched I h h' ∧
       (∀ view, r = HOk view → ∃ s row, I s ∧ subs (host_subs s) !! id = Some row ∧ owner_did row = who ∧
          to_subscription row = Ok view ∧ sv_secret view = None) ∧
       ((∀ s row, I s → subs (host_subs s) !! id = Some row → owner_did row ≠ who) →
        r ∈ [HErr subscription_not_found; HErr (RE_Acdp sub_err); HErr events_not_implemented; HDropped])) ∧
      ((∀ s, I s → I (host_set_subs (delete_subscription (host_subs s) who id).2 s)) →
       let '(r, _, h') := delete_subscription_handler jwt_decode st env req id aw h in
       untouched I h h' ∧
       (∀ status, r = HOk status → ∃ s row, I s ∧ subs (host_subs s) !! id = Some row ∧ owner_did row = who) ∧
       ((∀ s row, I s → subs (host_subs s) !! id = Some row → owner_did row ≠ who) →
        r ∈ [HErr subscription_not_found; HErr (RE_Acdp sub_err); HErr events_not_implemented; HDropped]))
  | Err e =>
      let refused := match events_key st with Some _ => e | None => events_not_implemented end in
      create jwt_decode st env req body aw h = (HErr refused, aw, h) ∧
      get_subscription_handler jwt_decode st env req id aw h = (HErr refused, aw, h) ∧
      delete_subscription_handler jwt_decode st env req id aw h = (HErr refused, aw, h)
  end ∧
  (others_keep (within_limit (ss_max_per_requester st)) aw → within_limit (ss_max_per_requester st) (hs_store h) →
   within_limit (ss_max_per_requester st) (hs_store (create jwt_decode st env req body aw h).2)).
Proof.
  intros Haw Hh. assert (∀ J : S → Prop, J (hs_store h) → untouched J h h) as Hu by done. split.
  - destruct (owner jwt_decode st env req) as [who|e] eqn:Hwho; [|by apply unowned_spec]. split_and!.
    + intros Hkeep. pose proof (create_spec jwt_decode I h st env req body who Hkeep Hwho aw h Haw (Hu I Hh)) as Hc.
      destruct (create jwt_decode st env req body aw h) as [[r aw'] h']. by destruct Hc as [_ Hc].
    + pose proof (get_spec jwt_decode I h st env req id who Hwho aw h Haw (Hu I Hh)) as Hg.
      destruct (get_subscription_handler jwt_decode st env req id aw h) as [[r aw'] h'].
      destruct Hg as (_ & Hun & Hv & Hno). split_and!; [done| |done]. intros view Hr.
      destruct (Hv view Hr) as (s & row & ? & ? & ? & Hto). exists s, row. split_and!; try done.
      revert Hto. unfold to_subscription. repeat (destruct (ok_or _ _); [|done]). simpl.
      destruct (map_err _ _); [|done]. by intros [= <-].
    + intros Hkeep. pose proof (delete_spec jwt_decode I h st env req id who Hkeep Hwho aw h Haw (Hu I Hh)) as Hd.
      destruct (delete_subscription_handler jwt_decode st env req id aw h) as [[r aw'] h']. by destruct Hd as [_ Hd].
  - intros Hlim Hw. destruct (owner jwt_decode st env req) as [who|e] eqn:Hwho.
    + pose proof (create_spec jwt_decode (within_limit (ss_max_per_requester st)) h st env req body who) as Hc.
      specialize (Hc ltac:(intros s new secret Hs _ o; rewrite Hlens; by apply create_within_limit) Hwho aw h Hlim (Hu _ Hw)).
      destruct (create jwt_decode st env req body aw h) as [[r aw'] h']. by destruct Hc as (_ & (Hi & _) & _).
    + destruct (unowned_spec jwt_decode st env req body id e Hwho aw h) as (-> & _). done.
Qed.
End claim.
