(* ===== verification/SubscriptionExample.v ===== *)
(** * Subscriptions over HTTP, run

    The handlers of [SubscriptionHandlers] on the in-memory subscription store, with a
    token that names its bearer, and the witness of their theorem. *)

From S2P Require Import Prelude Text RateLimit ChallengeStore Revocation AuthService Errors ContextTypes ChangeBucket ChangeFeed FeedBackends Changes ChangesKey Subscriptions ClientIp ReadGate EventReceipts KeyAttestations SqliteStore Handlers KeylessPublish ReadHandlers LifecycleHandler SubscriptionHandlers.

Module SubscriptionExample.
Import ChangesExample LeaseExample.

#[local] Existing Instance toy_crypto.

Definition hook : string := "https://o.example/hook".

#[local] Instance plain_subscriptions : SubscriptionSdk unit := {|
  sub_acdp_display _ := "";
  sub_json _ := Ok (VObject [("filter", VObject [("kind", VArray [VString "context.published"])]);
                             ("callback_url", VString hook)]);
  filter_from_value _ := Ok filter0;
  validate_for_subscription _ _ := Ok tt;
  subscription_request_from_value _ := Ok (mkSubscriptionRequest filter0 hook);
  subscription_request_validate _ _ := Ok tt;
  subscription_validate _ := Ok tt;
  subscription_to_vec v := Ok (as_bytes (sv_id v) ++ as_bytes (default "" (sv_secret v)));
  callback_check_url u := if starts_with u "https://" then Ok tt else Err (SchemaViolation "https");
  reject_if_any_forbidden _ addrs :=
    if existsb (λ a, match a with V4 (127%Z :: _) => true | _ => false end) addrs
    then Err (AcdpOther "loopback") else Ok tt;
  callback_url_parse _ := Ok (Some "o.example", None);
  callback_lookup _ _ _ := LookupAnswered (Ok [V4 [203; 0; 113; 7]%Z]);
  b64_standard := from_bytes;
  sub_from_timestamp_millis ms := Some (ms * ns_per_ms)%Z
|}.

#[local] Instance memory_subscriptions : SubscriptionHost SubStore := {|
  host_dialect := memory_dialect;
  host_subs s := s;
  host_set_subs m _ := m;
  host_changes_head _ := Done (Ok 41%Z)
|}.

Lemma host_lens (m s : SubStore) : host_subs (host_set_subs m s) = m.
Proof. reflexivity. Qed.

Definition naming_jwt : Validation → Z → string → result BearerClaims string :=
  λ _ _ token, Ok (mkClaims "iss" token "aud" "j1" 0 900 (mkAcdpClaims "reg.test" "k") (Some "acme")).

Definition sub_gate : GateState (R := InMemoryRevocationStore) :=
  mkGateState true false [] [] (mkSigner HS256 "k" "iss" "reg.test" 60 true) (mkMemRevocations false ∅ false ∅)
    (mkForwardedPolicy [] FH_TrustedProxies 0) TH_None [].

Definition sub_state : SubscriptionState := mkSubscriptionState sub_gate true (Some toy_key) 8 2.

Definition sub_env : SubscriptionEnv (Outside := unit) :=
  mkSubscriptionEnv (mkGateEnv (mkCallEnv 500 DbOk) 7) tt "sub-9" (Some (replicate 32 65%Z)) (Some (replicate 12 4%Z))
    5000000.

Definition as_ (who : string) : ReadRequest := mkReadRequest true [] None [Some ("Bearer " +:+ who)] [] None.

Definition none_yet : SubStore := mkSubStore true ∅.

Definition created := create naming_jwt sub_state sub_env (as_ "did:web:o") [] [] (initial none_yet).

Definition after_create : SubStore := hs_store created.2.

(** The owner reads it back without the secret; another requester finds nothing. *)
Example owner_and_stranger :
  (get_subscription_handler naming_jwt sub_state sub_env (as_ "did:web:o") "sub-9" [] (initial after_create)).1.1 =
    HOk (mkSubscriptionView "sub-9" filter0 hook 5000000 Active None) ∧
  (get_subscription_handler naming_jwt sub_state sub_env (as_ "did:web:x") "sub-9" [] (initial after_create)).1.1 =
    HErr subscription_not_found ∧
  (get_subscription_handler naming_jwt sub_state sub_env (as_ "did:web:x") "none" [] (initial after_create)).1.1 =
    HErr subscription_not_found.
Proof. split_and!; vm_compute; reflexivity. Qed.

Lemma subscriptions_are_the_owners_witness :
  ∃ new, subs after_create !! "sub-9" = Some (Subscriptions.new_row memory_dialect new) ∧ ns_owner new = "did:web:o" ∧
    ns_tenant new = Some "acme" ∧ open_secret toy_key "sub-9" 3 (ns_secret_ct new) = Ok (from_bytes (replicate 32 65%Z)) ∧
    ∃ secret, creation_earned naming_jwt (λ _ : SubStore, True) sub_state sub_env (as_ "did:web:o") [] "did:web:o" new secret.
Proof.
  destruct (subscriptions_are_the_owners naming_jwt host_lens (λ _, True) sub_state sub_env (as_ "did:web:o") []
              "sub-9" [] (initial none_yet) (Forall_nil_2 _) I) as [Howner _].
  change (owner naming_jwt sub_state sub_env (as_ "did:web:o")) with (Ok (T := string) (E := RegistryError) "did:web:o") in Howner.
  cbv iota in Howner. destruct Howner as (Hcreate & _). specialize (Hcreate (λ _ _ _ _ _, I)). fold created in Hcreate.
  assert (match created.1.1 with HOk _ => true | _ => false end = true) as Hok by (vm_compute; reflexivity).
  unfold after_create. destruct created as [[r aw] h'] eqn:Hrun. simpl in Hok. destruct r as [reply|e|m|]; [|discriminate..].
  destruct Hcreate as [_ Hreply]. destruct (Hreply reply eq_refl) as (new & secret & Hearned & _).
  exists new. pose proof Hearned as [Hkey Hsecret _ Hown Hten Hreq _ Hhead Hid Hcr].
  destruct Hkey as (key & [= <-] & Hkid & Hseal). destruct Hsecret as (raw & [= <-] & ->).
  destruct Hhead as (s & _ & [= Hhead]). revert Hten Hreq Hseal.
  vm_compute in Hrun. injection Hrun as <- <- <-.
  intros [= Hten] [= Hf Hurl] [= Hseal]. split_and!; [|exact Hown|by rewrite -Hten| |].
  - destruct new as [a b c d e f g i j]. simpl in *. subst. vm_compute. reflexivity.
  - rewrite -Hseal. vm_compute. reflexivity.
  - eexists. exact Hearned.
Defined.
End SubscriptionExample.
