(* ===== verification/AdminHandlers.v ===== *)
(** * The admin endpoints

    [acdp-registry-core/src/handlers/admin.rs]: the bearer gate of [/admin/*], the
    listing and the reload of pinned keys (playground builds), the status snapshot, the
    lineage audit, and the lifecycle events the registry records in its own name. The
    admin errors are a type of their own and are answers of the computations of
    [Handlers]; protocol errors end them as they end the other handlers. *)

From stdpp Require Import pretty.
From S2P Require Import Prelude Text RateLimit ChallengeStore Revocation AuthService Errors ContextTypes ClientIp ChangesKey ReadGate ChangeFeed KeyAttestations EventReceipts SqliteStore SqliteListing Webhook Playground Handlers ReadHandlers LifecycleHandler Config Startup.

Open Scope registry_scope.
Open Scope handler_scope.

(** ** The gate *)

Inductive AdminAuthError : Type :=
  | Forbidden
  | ConfigReload (m : string)
  | AdminInternal (m : string)
  | InvalidConfig (m : string).

(** [IntoResponse for AdminAuthError]: the status and the [error] member. *)
Definition admin_auth_response (e : AdminAuthError) : Z * string :=
  match e with
  | Forbidden => (403%Z, "admin-only")
  | ConfigReload m => (500%Z, "config reload failed: " +:+ m)
  | AdminInternal m => (500%Z, "internal error: " +:+ m)
  | InvalidConfig m =>
      (400%Z, "rejected: the on-disk playground config is invalid and was NOT applied; the running configuration is unchanged. " +:+ m)
  end.

(** [require_admin_bearer]; [authorization] is every value of the header, [None] for one
    that is not visible ASCII. *)
Definition require_admin_bearer (admin_tokens : list string) (authorization : list (option string)) :
    result unit AdminAuthError :=
  if is_empty admin_tokens then Err Forbidden
  else
    let? header := ok_or (mjoin (hd_error authorization)) Forbidden in
    let? token := ok_or (strip_prefix "Bearer " header) Forbidden in
    let matched := fold_left (λ m t, m || ct_eq (as_bytes t) (as_bytes token)) admin_tokens false in
    if matched then Ok tt else Err Forbidden.

(** A handler behind the gate. *)
Definition admin_only {S T} (admin_tokens : list string) (req : ReadRequest)
    (k : H S (result T AdminAuthError)) : H S (result T AdminAuthError) :=
  match require_admin_bearer admin_tokens (rq_authorization req) with
  | Err e => hret (Err e)
  | Ok _ => k
  end.

(** ** Listing contexts *)

(** The store's operations the admin endpoints call. *)
Class AdminStore (S : Type) `{EventSdk} : Type := {
  (** Limit, cursor, requester, tenant, [public_arm_open]; the clock of the cursors. *)
  admin_list_contexts : Z → Z → option string → option string → option string → bool → S →
    Ran (result (Page FullContext) AcdpError);
  store_lineage : string → S → Ran (result (list FullContext) AcdpError);
  store_health : S → Ran (result unit AcdpError);
  count_idempotency_records : S → Ran (result (option Z) AcdpError)
}.

Section gated.
Context {S : Type} `{EventSdk} `{!AdminStore S}.
Context (jwt_decode : Validation → Z → string → result BearerClaims string).
Context {R : Type} `{!RevocationStore R}.

Definition ADMIN_LIST_LIMIT : Z := 50.

(** The tenant of a listing: a header from any peer, since the caller is an admin. *)
Definition admin_tenant (gate : GateState (R := R)) (env : GateEnv) (req : ReadRequest) :
    result (option string) RegistryError :=
  let header := tenant_from_headers (rq_tenant_id req) in
  let? _ := reject_reserved_tenant header in
  match header with
  | Some t => Ok (Some t)
  | None => tenant_for_request jwt_decode gate env req
  end.

(** [admin_list]. *)
Definition admin_list (admin_tokens : list string) (gate : GateState (R := R)) (env : GateEnv) (now : Z)
    (req : ReadRequest) (limit : option Z) (cursor : option string) :
    H S (result (Page FullContext) AdminAuthError) :=
  admin_only admin_tokens req (
    let! tenant := hlift (admin_tenant gate env req) in
    let! page := hasync (reading (admin_list_contexts now (default ADMIN_LIST_LIMIT limit) cursor None tenant true)) in
    hret (Ok page)).

(** ** The status snapshot *)

Record WebhookStatus : Type := mkWebhookStatus {
  ws_enabled : bool;
  ws_queue_in_flight : option nat;
  ws_queue_capacity : option nat
}.

Definition webhook_status (emitter : option Emitter) : WebhookStatus :=
  match emitter with
  | Some e => let '(in_flight, capacity) := queue_status e in mkWebhookStatus true (Some in_flight) (Some capacity)
  | None => mkWebhookStatus false None None
  end.

(** [build_commit] and [build_version] of [handlers/meta.rs]; the injected commit and the
    package version are compile-time inputs. *)
Definition build_commit (injected : option string) : option string :=
  match injected with Some sha => if bool_decide (sha = "") then None else Some sha | None => None end.

Definition build_version (package : string) (injected : option string) : string :=
  match build_commit injected with Some sha => package +:+ "+g" +:+ sha | None => package end.

Record AdminStatusResponse : Type := mkAdminStatus {
  as_version : string;
  as_commit : option string;
  as_healthy : bool;
  as_idempotency_records : option Z;
  as_webhook : WebhookStatus;
  as_configured_feeds : nat;
  as_backend : StorageBackend;
  as_require_tenant : bool;
  as_tenant_header_trust : string;
  as_tenant_header_trust_configured : bool;
  as_trusted_proxies : nat
}.

(** [f().await] whose result, an error included, is a value. *)
Definition hattempt {T} (f : S → Ran (result T AcdpError)) : H S (result T AcdpError) :=
  hasync (λ h, (match f (hs_store h) with Done r => Done (Ok r) | Panic m => Panic m end, h)).

(** [admin_status]. *)
Definition admin_status (cfg : RegistryConfig) (trust : TenantHeaderTrust) (emitter : option Emitter)
    (package : string) (injected : option string) (req : ReadRequest) : H S (result AdminStatusResponse AdminAuthError) :=
  admin_only (au_admin_tokens (auth cfg)) req (
    let! healthy := hattempt store_health in
    let! records := hattempt count_idempotency_records in
    hret (Ok (mkAdminStatus (build_version package injected) (build_commit injected)
      (is_ok healthy) (match records with Ok r => r | Err _ => None end) (webhook_status emitter)
      (length (au_revocation_feeds (auth cfg))) (so_backend (storage cfg))
      (au_require_tenant (auth cfg)) (mode_as_str trust)
      (bool_decide (is_Some (au_tenant_header_trust (auth cfg))))
      (length (rl_trusted_proxies (rate_limit cfg)))))).
End gated.

(** ** Reloading the pinned keys *)

Section reload.
Context `{!PinnedCrypto} (display : RegistryError → string).

(** What a reload takes from its surroundings: the configuration it read, or why it could
    not, and the clock. *)
Record ReloadEnv : Type := mkReloadEnv {
  re_loaded : result RegistryConfig string;
  re_now : Z
}.

(** [reload_pinned_keys]: the answer (the number of keys) and the section in force. *)
Definition reload_pinned_keys (cfg : RegistryConfig) (env : ReloadEnv) (authorization : list (option string))
    (in_force : PlaygroundConfig) : result nat AdminAuthError * PlaygroundConfig :=
  match
    (let? _ := require_admin_bearer (au_admin_tokens (auth cfg)) authorization in
     let? fresh := map_err ConfigReload (re_loaded env) in
     let? _ := map_err InvalidConfig
                 (validate_playground_config display (playground fresh) (is_configured (receipt cfg)) (re_now env)) in
     Ok (playground fresh))
  with
  | Ok fresh => (Ok (length (pg_pinned_keys fresh)), fresh)
  | Err e => (Err e, in_force)
  end.
End reload.

(** ** The lineage audit *)

Record LineageAuditResponse : Type := mkAudit {
  la_lineage_id : string;
  la_versions : nat;
  la_ok : bool;
  la_issues : list string;
  la_receiptless_contexts : nat
}.

Section audit.
Context `{EventSdk} `{!PublishSdk}.

(** [i as u32]. *)
Definition as_u32 (i : nat) : Z := (Z.of_nat i mod 2 ^ 32)%Z.

Definition version_issue (i : nat) (ctx : FullContext) : list string :=
  let expected := as_u32 (i + 1) in
  if (body_version (fc_body ctx) =? expected)%Z then []
  else ["version gap: position " +:+ pretty i +:+ " holds version " +:+ pretty (body_version (fc_body ctx)) +:+
        " (expected " +:+ pretty expected +:+ ")"].

Definition derivation_issue (requested : string) (first : FullContext) : list string :=
  let derived := lineage_of (body_ctx_id (fc_body first)) in
  if bool_decide (derived = requested) then []
  else ["lineage_id mismatch: derive_lineage_id(v1) = '" +:+ derived +:+ "' ≠ stored '" +:+ requested +:+ "'"].

Definition member_issue (requested : string) (ctx : FullContext) : list string :=
  if bool_decide (body_lineage_id (fc_body ctx) = requested) then []
  else ["context '" +:+ body_ctx_id (fc_body ctx) +:+ "' carries lineage_id '" +:+ body_lineage_id (fc_body ctx) +:+
        "' ≠ '" +:+ requested +:+ "'"].

Definition root_issue (first : FullContext) : list string :=
  match body_supersedes (fc_body first) with
  | Some prev => ["v1 '" +:+ body_ctx_id (fc_body first) +:+ "' declares supersedes '" +:+ prev +:+
                  "' (a lineage root must not)"]
  | None => []
  end.

Definition link_issue (prev next : FullContext) : list string :=
  match body_supersedes (fc_body next) with
  | Some s =>
      if bool_decide (s = body_ctx_id (fc_body prev)) then []
      else ["broken link: v" +:+ pretty (body_version (fc_body next)) +:+ " supersedes '" +:+ s +:+
            "' ≠ predecessor '" +:+ body_ctx_id (fc_body prev) +:+ "'"]
  | None => ["broken link: v" +:+ pretty (body_version (fc_body next)) +:+ " '" +:+ body_ctx_id (fc_body next) +:+
             "' declares no supersedes"]
  end.

Definition continuity_issue (prev next : FullContext) : list string :=
  if bool_decide (body_agent_id (fc_body next) = body_agent_id (fc_body prev))
     || bool_decide (body_agent_id (fc_body next) ∈ body_contributors (fc_body prev)) then []
  else ["producer discontinuity: v" +:+ pretty (body_version (fc_body next)) +:+ " published by '" +:+
        body_agent_id (fc_body next) +:+ "' which is neither v" +:+ pretty (body_version (fc_body prev)) +:+
        "'s producer nor contributor"].

(** [items.windows(2)]. *)
Fixpoint windows2 {A B} (f : A → A → list B) (l : list A) : list B :=
  match l with
  | prev :: (next :: _) as rest => f prev next ++ windows2 f rest
  | _ => []
  end.

Definition is_superseded (ctx : FullContext) : bool := bool_decide (st_status (fc_state ctx) = SupersededStatus).

Definition tip_count (items : list FullContext) : nat := length (List.filter (λ c, negb (is_superseded c)) items).

Definition tip_issue (tips : nat) : list string :=
  if (tips =? 1)%nat then [] else ["expected exactly 1 non-superseded tip, found " +:+ pretty tips].

Definition end_issue (items : list FullContext) : list string :=
  match last items with
  | Some c => if is_superseded c
              then ["highest version v" +:+ pretty (body_version (fc_body c)) +:+
                    " is marked superseded — the chain points past its end"]
              else []
  | None => []
  end.

(** [audit_lineage] of the contexts [first :: rest]. *)
Definition audit_lineage (requested : string) (first : FullContext) (rest : list FullContext) : LineageAuditResponse :=
  let items := first :: rest in
  let issues :=
    concat (imap version_issue items)
    ++ derivation_issue requested first
    ++ flat_map (member_issue requested) items
    ++ root_issue first
    ++ windows2 (λ prev next, link_issue prev next ++ continuity_issue prev next) items
    ++ tip_issue (tip_count items)
    ++ end_issue items in
  mkAudit requested (length items) (is_empty issues) issues
    (length (List.filter (λ c, bool_decide (fc_registry_receipt c = None)) items)).

Context {S : Type} `{!AdminStore S} (acdp_display : AcdpError → string).

(** [lineage_audit]: [Ok None] is the 404. *)
Definition lineage_audit (admin_tokens : list string) (req : ReadRequest) (lineage_id : string) :
    H S (result (option LineageAuditResponse) AdminAuthError) :=
  admin_only admin_tokens req (
    let! items :=
      hawaited (λ m, HOk (Err (AdminInternal ("join: " +:+ m))))
        (λ h, (match store_lineage lineage_id (hs_store h) with
               | Done r => Done (Ok (map_err (λ e, AdminInternal ("lineage read: " +:+ acdp_display e)) r))
               | Panic m => Panic m
               end, h)) in
    hret (let? items := items in
          Ok (match items with
              | [] => None
              | first :: rest => Some (audit_lineage lineage_id first rest)
              end))).
End audit.

(** ** Events in the registry's name *)

(** The SDK's lifecycle events made by a registry: [LifecycleEvent::new] (id, context,
    type, time, actor, reason), [sign_with] under a seed and a key id, and the closed
    [{reason?}] body. *)
Class AdminEventSdk `{StoreCodec} : Type := {
  lifecycle_event_new : string → string → LifecycleEventType → Z → string → option string →
    result LifecycleEvent AcdpError;
  event_sign_with : list Z → string → LifecycleEvent → result LifecycleEvent AcdpError;
  (** The key id of an event's signature. *)
  signed_under : LifecycleEvent → option string;
  admin_body_from_slice : list Z → result (option string) string
}.

(** An event has the members it is made of, signing adds the signature. *)
Class AdminEventLaws `{AdminEventSdk} : Prop := {
  made_event id ctx ty at_ actor reason e :
    lifecycle_event_new id ctx ty at_ actor reason = Ok e →
    event_id e = id ∧ event_ctx_id e = ctx ∧ event_type e = ty ∧ event_actor e = actor ∧
    event_reason e = reason ∧ signed_under e = None;
  signed_event seed key e e' :
    event_sign_with seed key e = Ok e' →
    event_id e' = event_id e ∧ event_ctx_id e' = event_ctx_id e ∧ event_type e' = event_type e ∧
    event_actor e' = event_actor e ∧ event_reason e' = event_reason e ∧ signed_under e' = Some key
}.

Class AdminServer (S Outside : Type) `{StoreCodec} : Type := {
  record_registry_lifecycle_event : Outside → LifecycleEvent → S → Ran (result FullContext AcdpError) * S
}.

Section transition.
Context {S Outside Resolved : Type} `{StoreCodec} `{!ReadServer S Outside Resolved} `{!AdminEventSdk} `{!AdminServer S Outside}.
Context `{!StartupSdk} (fault_text : ReceiptFault → string).

(** The request's event id and clocks, and the surroundings of the commit. *)
Record AdminEnv : Type := mkAdminEnv {
  ae_uuid : string;
  ae_now : Z;
  ae_at : Z;
  ae_commit_call : Outside
}.

Definition admin_reason (body : list Z) : result (option string) RegistryError :=
  if is_empty body then Ok None
  else map_err (λ e, RE_Acdp (SchemaViolation e)) (admin_body_from_slice body).

(** Signed under the receipt key where there is one. *)
Definition sign_registry_event (cfg : RegistryConfig) (event : LifecycleEvent) : result LifecycleEvent RegistryError :=
  if is_configured (receipt cfg) then
    let? key := map_err (λ e, RE_Acdp (RegistryInternal (fault_text e))) (load_signing_key (receipt cfg)) in
    let fragment := trim (rc_key_id_fragment (receipt cfg)) in
    let key_id := did_web_of (rg_authority (registry cfg)) +:+ "#" +:+ fragment in
    map_err RE_Acdp (event_sign_with key key_id event)
  else Ok event.

(** Steps 2 to 5: the event to record. *)
Definition mint_registry_event (cfg : RegistryConfig) (env : AdminEnv) (ctx_id : string) (body : list Z)
    (event_type : LifecycleEventType) : result (string * LifecycleEvent) RegistryError :=
  let? _ := (if lf_enabled (lifecycle cfg) then Ok tt
             else Err (RE_Acdp (NotImplemented
               "this registry does not advertise acdp-registry-lifecycle (RFC-ACDP-0013 §6: lifecycle endpoints are not implemented)"))) in
  let? reason := admin_reason body in
  let? path_ctx := map_err RE_Acdp (ReadHandlers.ctx_id_parse ctx_id) in
  let? event := map_err RE_Acdp (lifecycle_event_new (ae_uuid env) path_ctx event_type (ae_now env)
                                   (did_web_of (rg_authority (registry cfg))) reason) in
  let? event := sign_registry_event cfg event in
  Ok (path_ctx, event).

Definition admin_webhook (cfg : RegistryConfig) (env : AdminEnv) (ty : LifecycleEventType)
    (event : LifecycleEvent) (ctx : FullContext) : WebhookEvent :=
  match ty with
  | RetractedEvent =>
      ContextRetracted (rg_authority (registry cfg)) (body_ctx_id (fc_body ctx)) (body_lineage_id (fc_body ctx))
        (event_actor event) (event_id event) (event_reason event) (ae_at env)
  | _ =>
      ContextRepublished (rg_authority (registry cfg)) (body_ctx_id (fc_body ctx)) (body_lineage_id (fc_body ctx))
        (event_actor event) (event_id event) (event_reason event) (ae_at env)
  end.

(** Step 7, where a webhook is configured; a tenant that cannot be read is no tenant. *)
Definition announce_admin (cfg : RegistryConfig) (env : AdminEnv) (webhook_on : bool) (path_ctx : string)
    (ty : LifecycleEventType) (event : LifecycleEvent) (ctx : FullContext) : H S unit :=
  if webhook_on then
    let! stored := hattempt (read_tenant_of_ctx path_ctx) in
    heffect (EmitWebhook (admin_webhook cfg env ty event ctx)
               (webhook_tenant (match stored with Ok t => t | Err _ => None end)))
  else hret tt.

(** [admin_lifecycle_transition]. *)
Definition admin_lifecycle_transition (cfg : RegistryConfig) (env : AdminEnv) (webhook_on : bool)
    (req : ReadRequest) (ctx_id : string) (body : list Z) (event_type : LifecycleEventType) :
    H S (result FullContext AdminAuthError) :=
  admin_only (au_admin_tokens (auth cfg)) req (
    let! '(path_ctx, event) := hlift (mint_registry_event cfg env ctx_id body event_type) in
    let! ctx := hblocking (writing (record_registry_lifecycle_event (ae_commit_call env) event)) in
    let! _ := heffect NotifyHints in
    let! _ := announce_admin cfg env webhook_on path_ctx event_type event ctx in
    hret (Ok ctx)).

Definition admin_retract (cfg : RegistryConfig) (env : AdminEnv) (webhook_on : bool) (req : ReadRequest)
    (ctx_id : string) (body : list Z) := admin_lifecycle_transition cfg env webhook_on req ctx_id body RetractedEvent.

Definition admin_republish (cfg : RegistryConfig) (env : AdminEnv) (webhook_on : bool) (req : ReadRequest)
    (ctx_id : string) (body : list Z) := admin_lifecycle_transition cfg env webhook_on req ctx_id body RepublishedEvent.
End transition.
