(* ===== verification/AdminTheorems.v ===== *)
(** * The admin endpoints: theorems

    Who passes the gate of [/admin/*], what an admin lifecycle event is and what it sets
    off, and which pinned keys can come into force. *)

From S2P Require Import Prelude Text RateLimit ChallengeStore Revocation AuthService Errors ContextTypes ClientIp ChangesKey ReadGate ChangeFeed KeyAttestations EventReceipts SqliteStore Webhook Playground Handlers ReadHandlers LifecycleHandler Config Startup AdminHandlers.

Open Scope registry_scope.

(** ** The gate *)

(** The caller's first [Authorization] value is [Bearer] and one of the tokens, exactly. *)
Definition admin_caller (admin_tokens : list string) (authorization : list (option string)) : Prop :=
  ∃ t rest, authorization = Some ("Bearer " +:+ t) :: rest ∧ t ∈ admin_tokens.

Lemma strip_prefix_Some p : ∀ s t, strip_prefix p s = Some t ↔ s = p +:+ t.
Proof.
  induction p as [|a p IH]; intros s t; simpl; [split; [by intros [= ->]|by intros ->]|].
  destruct s as [|b s]; simpl; [done|]. case_bool_decide as Hab; [subst b; rewrite IH|].
  - split; [by intros ->|by intros [= ->]].
  - split; [done|by intros [= ? _]].
Qed.

(** The fold compares with every token and finds the one. *)
Lemma matched_any token tokens : ∀ b,
  fold_left (λ m t, m || ct_eq (as_bytes t) (as_bytes token)) tokens b = b || bool_decide (token ∈ tokens).
Proof.
  induction tokens as [|t tokens IH]; intros b; cbn [fold_left].
  { rewrite bool_decide_false; [by rewrite orb_false_r|by apply not_elem_of_nil]. }
  rewrite IH ct_eq_spec -orb_assoc. f_equal.
  rewrite (bool_decide_ext (as_bytes t = as_bytes token) (token = t)); [|split; [by intros ->%(inj as_bytes)|by intros ->]].
  rewrite -bool_decide_or. apply bool_decide_ext. by rewrite elem_of_cons.
Qed.

Lemma require_admin_bearer_spec tokens authorization :
  match require_admin_bearer tokens authorization with
  | Ok _ => admin_caller tokens authorization
  | Err e => e = Forbidden ∧ ¬ admin_caller tokens authorization
  end.
Proof.
  unfold require_admin_bearer, admin_caller. destruct (is_empty tokens) eqn:Hempty.
  { split; [done|]. intros (t & rest & _ & Ht). by destruct tokens; [apply not_elem_of_nil in Ht|]. }
  destruct authorization as [|[v|] rest]; cbn [hd_error mjoin option_join ok_or and_then]; [by split; [|intros (? & ? & ? & _)]| |
                                                  by split; [|intros (? & ? & ? & _)]].
  destruct (strip_prefix "Bearer " v) as [token|] eqn:Hp; cbn [ok_or and_then].
  - apply strip_prefix_Some in Hp. rewrite matched_any orb_false_l. case_bool_decide as Hin.
    + exists token, rest. by rewrite Hp.
    + split; [done|]. intros (t & rest' & [= Ht _] & Hin'). apply Hin.
      rewrite Hp in Ht. by simplify_eq/=.
  - split; [done|]. intros (t & rest' & [= Ht _] & _). rewrite Ht in Hp.
    assert (strip_prefix "Bearer " ("Bearer " +:+ t) = Some t) by by apply strip_prefix_Some. congruence.
Qed.

(** Behind the gate, or away. *)
Lemma admin_only_spec {S T} (G : (S → S) → Prop) tokens req (k : H S (result T AdminAuthError)) P Q :
  (¬ admin_caller tokens (rq_authorization req) → ∀ h, P h → Q (HOk (Err Forbidden)) h) →
  (admin_caller tokens (rq_authorization req) → gtriple G P k Q) →
  gtriple G P (admin_only tokens req k) Q.
Proof.
  intros Haway Hk. unfold admin_only.
  pose proof (require_admin_bearer_spec tokens (rq_authorization req)) as Hspec.
  destruct (require_admin_bearer _ _); [by apply Hk|]. destruct Hspec as [-> Hno].
  apply gtriple_ret. by apply Haway.
Qed.

(** ** Events in the registry's name *)

Section transition.
Context {S Outside Resolved : Type} `{StoreCodec} `{!ReadServer S Outside Resolved}.
Context `{!AdminEventSdk} `{!AdminEventLaws} `{!AdminServer S Outside}.
Context `{!StartupSdk} (fault_text : ReceiptFault → string).
Context (I : S → Prop).

Implicit Types (env : AdminEnv (Outside := Outside)) (cfg : RegistryConfig).

(** The event an admin request asks for: of this type and id, for the context the path
    names, by the registry, with the reason given, signed under the receipt key exactly
    where one is configured. *)
Record registry_event cfg env (ctx_id : string) (body : list Z) (ty : LifecycleEventType)
    (e : LifecycleEvent) : Prop := {
  re_enabled : lf_enabled (lifecycle cfg) = true;
  re_id : event_id e = ae_uuid env;
  re_ctx : ReadHandlers.ctx_id_parse ctx_id = Ok (event_ctx_id e);
  re_type : event_type e = ty;
  re_actor : event_actor e = did_web_of (rg_authority (registry cfg));
  re_reason : admin_reason body = Ok (event_reason e);
  re_signed : signed_under e =
    if is_configured (receipt cfg)
    then Some (did_web_of (rg_authority (registry cfg)) +:+ "#" +:+ trim (rc_key_id_fragment (receipt cfg)))
    else None
}.

Lemma mint_registry_event_spec cfg env ctx_id body ty p e :
  mint_registry_event fault_text cfg env ctx_id body ty = Ok (p, e) →
  registry_event cfg env ctx_id body ty e ∧ p = event_ctx_id e.
Proof.
  unfold mint_registry_event. intros Hm. inv_ok.
  rename select (map_err _ (ReadHandlers.ctx_id_parse _) = _) into Hp. apply map_err_ok in Hp.
  rename select (map_err _ (lifecycle_event_new _ _ _ _ _ _) = _) into Hn. apply map_err_ok in Hn.
  apply made_event in Hn as (Hid & Hctx & Hty & Hact & Hreason & Hsig).
  rename select (sign_registry_event _ _ _ = _) into Hs. unfold sign_registry_event in Hs.
  destruct (lf_enabled (lifecycle cfg)) eqn:Hen; [|done].
  destruct (is_configured (receipt cfg)) eqn:Hc.
  - inv_ok. apply map_err_ok in Hs. apply signed_event in Hs as (? & ? & ? & ? & ? & ?).
    split; [|congruence]. split; try congruence; by rewrite Hc.
  - injection Hs as ->. split; [|done]. split; try congruence; by rewrite Hc.
Qed.

Definition admin_announced cfg env (webhook_on : bool) (ty : LifecycleEventType) (event : LifecycleEvent)
    (ctx : FullContext) (tenant : option string) : list Effect :=
  NotifyHints ::
  (if webhook_on then [EmitWebhook (admin_webhook cfg env ty event ctx) (webhook_tenant tenant)] else []).

(** The commit of [event] ran, on a store the others left, and answered [ctx]. *)
Definition committed env (event : LifecycleEvent) (ctx : FullContext) : Prop :=
  ∃ s s', I s ∧ record_registry_lifecycle_event (ae_commit_call env) event s = (Done (Ok ctx), s').

(** How an admin request ends. *)
Definition admin_post cfg env (webhook_on : bool) (req : ReadRequest) (ctx_id : string) (body : list Z)
    (ty : LifecycleEventType) (r : HEnd (result FullContext AdminAuthError)) (store' : S) (effects : list Effect) : Prop :=
  match r with
  | HOk (Ok ctx) =>
      admin_caller (au_admin_tokens (auth cfg)) (rq_authorization req) ∧
      ∃ event tenant, registry_event cfg env ctx_id body ty event ∧ committed env event ctx ∧
        effects = admin_announced cfg env webhook_on ty event ctx tenant ∧
        (webhook_on = true → ∃ stored, read_tenant_of_ctx (event_ctx_id event) store' = Done stored ∧
           tenant = match stored with Ok t => t | Err _ => None end)
  | HOk (Err e) =>
      e = Forbidden ∧ ¬ admin_caller (au_admin_tokens (auth cfg)) (rq_authorization req) ∧
      effects = [] ∧ I store'
  | _ =>
      admin_caller (au_admin_tokens (auth cfg)) (rq_authorization req) ∧
      (effects = [] ∧ I store' ∨
       ∃ event, registry_event cfg env ctx_id body ty event ∧
         (effects = [] ∨ effects = [NotifyHints] ∧ ∃ ctx, committed env event ctx))
  end.

(** From the commit on. *)
Lemma admin_tail_spec cfg env webhook_on req ctx_id body ty event :
  admin_caller (au_admin_tokens (auth cfg)) (rq_authorization req) →
  registry_event cfg env ctx_id body ty event →
  htriple I (λ h, hs_effects h = [] ∧ I (hs_store h))
    (hbind (hblocking (writing (record_registry_lifecycle_event (ae_commit_call env) event))) (λ ctx,
     hbind (heffect NotifyHints) (λ _,
     hbind (announce_admin cfg env webhook_on (event_ctx_id event) ty event ctx) (λ _, hret (Ok ctx)))))
    (λ r h, admin_post cfg env webhook_on req ctx_id body ty r (hs_store h) (hs_effects h)).
Proof.
  intros Hadm Hev.
  apply (htriple_bind I _ _ _ (λ ctx h, hs_effects h = [] ∧ committed env event ctx)).
  { apply htriple_awaited. intros o h Ho [He Hi]. unfold writing. cbn [hs_store with_store].
    destruct (record_registry_lifecycle_event _ _ _) as [r s'] eqn:Hr.
    split; [split; [done|right; exists event; split; [done|by left]]|].
    destruct r as [[ctx|err]|m]; cbn [map_err].
    - split; [done|]. exists (o (hs_store h)), s'. split; [by apply Ho|done].
    - split; [done|right; exists event; split; [done|by left]].
    - split; [done|right; exists event; split; [done|by left]]. }
  intros ctx. apply (htriple_bind I _ _ _ (λ _ h, hs_effects h = [NotifyHints] ∧ committed env event ctx)).
  { apply htriple_state. intros h [He Hc]. simpl. by rewrite He. }
  intros []. apply (htriple_bind I _ _ _ (λ _ h, committed env event ctx ∧
    ∃ tenant, hs_effects h = admin_announced cfg env webhook_on ty event ctx tenant ∧
      (webhook_on = true → ∃ stored, read_tenant_of_ctx (event_ctx_id event) (hs_store h) = Done stored ∧
         tenant = match stored with Ok t => t | Err _ => None end))).
  2:{ intros []. apply htriple_ret. intros h (Hc & tenant & He & Ht). split; [done|]. by exists event, tenant. }
  unfold announce_admin, admin_announced. destruct webhook_on; [|apply htriple_ret; intros h [He Hc]; split; [done|]; by exists None].
  apply (htriple_bind I _ _ _ (λ stored h, (hs_effects h = [NotifyHints] ∧ committed env event ctx) ∧
    read_tenant_of_ctx (event_ctx_id event) (hs_store h) = Done stored)).
  - apply htriple_awaited. intros o h Ho [He Hc]. cbn [hs_store with_store].
    assert (∀ r : HEnd (result FullContext AdminAuthError), (∀ v, r ≠ HOk v) →
      admin_post cfg env true req ctx_id body ty r (o (hs_store h)) [NotifyHints]) as Hend.
    { intros r Hr. destruct r; [by destruct (Hr v)|..]; (split; [done|right; exists event; split; [done|right; eauto]]). }
    cbn [hs_effects with_store passes]. rewrite He. split; [by apply Hend|].
    destruct (read_tenant_of_ctx _ _) as [r|m] eqn:Hr; [done|by apply Hend].
  - intros stored. apply htriple_state. intros h [[He Hc] Hr]. simpl. rewrite He. split; [done|].
    eexists. split; [done|]. intros _. by exists stored.
Qed.

(** C28: a takedown is the registry's own, asked for by an admin. However
    [POST /admin/contexts/{ctx_id}/retract] or [republish] ends, whatever other requests
    do meanwhile and wherever it is dropped: it is answered with a context only for a
    caller whose bearer is exactly one of the configured tokens and only where the
    profile is on, and then an event of this type, for the context the path names, in
    the registry's name, signed under its receipt key exactly where it has one, was
    committed, the hint worker was woken and the webhook got it once, for the tenant the
    store then has of the context (no tenant if it cannot say). Without such a
    bearer the answer is the 403 and nothing happens: what the others keep of the store,
    [I], still holds. Any other end announces nothing, but for the wake-up of a request
    dropped between its commit and its webhook. *)
Theorem admin_events_are_the_registrys cfg env (webhook_on : bool) (req : ReadRequest) (ctx_id : string)
    (body : list Z) (ty : LifecycleEventType) (awaits : list (AwaitPoint S)) (store : S)
    (Hstore : I store) (Hothers : others_keep I awaits) :
  let '(r, _, h) := admin_lifecycle_transition fault_text cfg env webhook_on req ctx_id body ty awaits (initial store) in
  admin_post cfg env webhook_on req ctx_id body ty r (hs_store h) (hs_effects h).
Proof.
  assert (htriple I (λ h, hs_effects h = [] ∧ I (hs_store h))
    (admin_lifecycle_transition fault_text cfg env webhook_on req ctx_id body ty)
    (λ r h, admin_post cfg env webhook_on req ctx_id body ty r (hs_store h) (hs_effects h))) as Hspec.
  { apply admin_only_spec; [by intros Hno h [? ?]|]. intros Hadm.
    apply htriple_lift_bind; [intros e h _ [He Hi]; split; [done|by left]|].
    intros [p event] (Hev & ->)%mint_registry_event_spec. by apply admin_tail_spec. }
  specialize (Hspec awaits (initial store) Hothers (conj eq_refl Hstore)).
  destruct (admin_lifecycle_transition _ _ _ _ _ _ _ _ _ _) as [[r aw] h]. by destruct Hspec.
Qed.
End transition.

(** ** The pins in force *)

Section pins.
Context `{!PinnedCrypto} (display : RegistryError → string).

(** What startup and reload admit. *)
Definition admitted (cfg : RegistryConfig) (p : PlaygroundConfig) : Prop :=
  ∃ now warnings, validate_playground_config display p (is_configured (receipt cfg)) now = Ok warnings.

(** One after the other, the requests of [POST /admin/pinned-keys/reload]. *)
Definition reloads (cfg : RegistryConfig) (calls : list (ReloadEnv * list (option string)))
    (in_force : PlaygroundConfig) : PlaygroundConfig :=
  fold_left (λ p call, (reload_pinned_keys display cfg call.1 call.2 p).2) calls in_force.

Lemma admitted_sound cfg p :
  admitted cfg p →
  Forall pin_usable (pg_pinned_keys p) ∧
  (is_configured (receipt cfg) = true → pg_enabled p = true → pg_pinned_only p = true) ∧
  (pg_enabled p = true → pg_pinned_only p = true → pg_pinned_keys p ≠ []).
Proof.
  intros (now & w & Hv). unfold validate_playground_config in Hv. inv_ok.
  rename select (validate_pins _ _ _ = _) into Hpins. split; [by eapply validate_pins_usable|].
  destruct (is_configured _ && pg_enabled p && negb (pg_pinned_only p)) eqn:Hr; [done|].
  destruct (pg_enabled p && pg_pinned_only p && is_empty _) eqn:He; [done|]. split.
  - intros Hc Hen. rewrite Hc Hen in Hr. by destruct (pg_pinned_only p).
  - intros Hen Hpo Hnil. by rewrite Hen Hpo Hnil in He.
Qed.

(** What one reload does. *)
Lemma reload_spec cfg env authorization p :
  match reload_pinned_keys display cfg env authorization p with
  | (Ok n, p') => admin_caller (au_admin_tokens (auth cfg)) authorization ∧ admitted cfg p' ∧
                  (∃ fresh, re_loaded env = Ok fresh ∧ p' = playground fresh) ∧ n = length (pg_pinned_keys p')
  | (Err e, p') => p' = p ∧
      match e with
      | Forbidden => ¬ admin_caller (au_admin_tokens (auth cfg)) authorization
      | ConfigReload m => re_loaded env = Err m
      | InvalidConfig m => ∃ fresh, re_loaded env = Ok fresh ∧
          validate_playground_config display (playground fresh) (is_configured (receipt cfg)) (re_now env) = Err m
      | AdminInternal _ => False
      end
  end.
Proof.
  unfold reload_pinned_keys.
  pose proof (require_admin_bearer_spec (au_admin_tokens (auth cfg)) authorization) as Hadm.
  destruct (require_admin_bearer _ _); cbn [and_then]; [|by destruct Hadm as [-> ?]].
  destruct (re_loaded env) as [fresh|e]; cbn [map_err and_then]; [|done].
  destruct (validate_playground_config _ _ _ _) as [w|e] eqn:Hv; cbn [map_err and_then].
  - split; [done|]. split; [by exists (re_now env), w|]. split; [by exists fresh|done].
  - split; [done|]. by exists fresh.
Qed.

Lemma reloads_spec cfg calls p0 :
  admitted cfg p0 →
  let p := reloads cfg calls p0 in
  admitted cfg p ∧
  (p = p0 ∨ ∃ call fresh, call ∈ calls ∧ admin_caller (au_admin_tokens (auth cfg)) call.2 ∧
              re_loaded call.1 = Ok fresh ∧ p = playground fresh).
Proof.
  intros Hp0. cbv zeta. induction calls as [|call calls [IH1 IH2]] using rev_ind; [by split; [|left]|].
  unfold reloads. rewrite fold_left_app. cbn [fold_left]. fold (reloads cfg calls p0).
  pose proof (reload_spec cfg call.1 call.2 (reloads cfg calls p0)) as Hr.
  destruct (reload_pinned_keys _ _ _ _ _) as [[n|e] p']; cbn [snd].
  - destruct Hr as (Ha & Hadm & (fresh & Hf & ->) & _). split; [done|]. right. exists call, fresh. set_solver.
  - destruct Hr as [-> _]. split; [done|]. destruct IH2 as [?|(c & fresh & Hc & Hrest)]; [by left|right].
    exists c, fresh. set_solver.
Qed.

(** A reload never brings pinned keys into force that startup would refuse. Whoever
    calls [POST /admin/pinned-keys/reload] how often and whatever is on disk by then: the
    section in force is the one from startup or one that an admin's request found on
    disk, every pinned key in it decodes under its algorithm, and a registry with a
    receipt key has no unverified playground. A request without an admin's bearer, with
    an unreadable file or with a refused section leaves it as it was, and says so. *)
Theorem pins_in_force_are_validated (cfg : RegistryConfig) (calls : list (ReloadEnv * list (option string)))
    (Hstart : admitted cfg (playground cfg)) :
  let p := reloads cfg calls (playground cfg) in
  (Forall pin_usable (pg_pinned_keys p) ∧
   (is_configured (receipt cfg) = true → pg_enabled p = true → pg_pinned_only p = true) ∧
   (pg_enabled p = true → pg_pinned_only p = true → pg_pinned_keys p ≠ [])) ∧
  (p = playground cfg ∨
   ∃ call fresh, call ∈ calls ∧ admin_caller (au_admin_tokens (auth cfg)) call.2 ∧
     re_loaded call.1 = Ok fresh ∧ p = playground fresh) ∧
  ∀ env authorization,
    match reload_pinned_keys display cfg env authorization p with
    | (Ok n, p') => admin_caller (au_admin_tokens (auth cfg)) authorization ∧
                    (∃ fresh, re_loaded env = Ok fresh ∧ p' = playground fresh) ∧ n = length (pg_pinned_keys p')
    | (Err e, p') => p' = p ∧
        match e with
        | Forbidden => ¬ admin_caller (au_admin_tokens (auth cfg)) authorization
        | ConfigReload m => re_loaded env = Err m
        | InvalidConfig m => ∃ fresh, re_loaded env = Ok fresh ∧
            validate_playground_config display (playground fresh) (is_configured (receipt cfg)) (re_now env) = Err m
        | AdminInternal _ => False
        end
    end.
Proof.
  destruct (reloads_spec cfg calls (playground cfg) Hstart) as [Hadm Hfrom]. cbv zeta.
  split; [by apply admitted_sound|]. split; [done|]. intros env authorization.
  pose proof (reload_spec cfg env authorization (reloads cfg calls (playground cfg))) as Hr.
  destruct (reload_pinned_keys _ _ _ _ _) as [[n|e] p']; [by destruct Hr as (? & _ & ?)|done].
Qed.
End pins.
