(* ===== verification/AdminAudit.v ===== *)
(** * The lineage audit and the listing over the SQLite store

    What [GET /admin/lineages/{lineage_id}/audit] can find in a store the server itself
    has written: the rows of a lineage are a chain of consecutive versions, so the walk
    finds nothing, except that it takes a withdrawn older version for a second tip. And
    what [GET /admin/contexts] discloses. *)

From stdpp Require Import pretty.
From S2P Require Import Prelude Text RateLimit ChallengeStore Revocation AuthService Errors ContextTypes ChangeBucket ChangeFeed FeedBackends ClientIp ReadGate.
From S2P Require Import PageCursors EventReceipts KeyAttestations SqlTx SqliteStore SqlitePublish SqliteInvariants SqliteLifecycle SqliteReach SqliteReads SqliteListing.
From S2P Require Import Handlers AdminHandlers AdminTheorems.

Open Scope registry_scope.

(** ** Chains of rows *)

Lemma StronglySorted_strict {A} (R R' : A → A → Prop) l :
  StronglySorted R l → NoDup l → (∀ x y, x ∈ l → y ∈ l → R x y → x ≠ y → R' x y) → StronglySorted R' l.
Proof.
  induction 1 as [|x l Hs IH Hall]; intros Hnd Himp; constructor; apply NoDup_cons in Hnd as [Hx Hnd].
  - apply IH; [done|]. intros y z Hy Hz. apply Himp; set_solver.
  - apply Forall_forall. intros y Hy. rewrite Forall_forall in Hall. apply Himp; [set_solver..|by apply Hall|].
    intros ->. done.
Qed.

Lemma StronglySorted_lookup {A} (R : A → A → Prop) l i j x y :
  StronglySorted R l → l !! i = Some x → l !! j = Some y → (i < j)%nat → R x y.
Proof.
  intros Hs. revert i j. induction Hs as [|z l Hs IH Hall]; intros i j Hi Hj Hlt; [done|].
  destruct j as [|j]; [lia|]. destruct i as [|i]; simpl in *.
  - injection Hi as ->. rewrite Forall_forall in Hall. apply Hall. by eapply list_elem_of_lookup_2.
  - eapply IH; [done|done|lia].
Qed.

Section chains.
Context `{StoreCodec} `{PublishSdk} `{KeylessSdk}.
Context `{!StoreCodecLaws} `{!PublishSdkLaws} `{!EventSdkLaws}.

(** [r] is the next version after [q], by its producer or a contributor. *)
Definition linked (q r : CtxRow) : Prop :=
  c_supersedes r = Some (c_ctx_id q) ∧ c_version r = (c_version q + 1)%Z ∧
  ∃ cs, strings_parse (c_contributors q) = Ok cs ∧ (c_agent_id q = c_agent_id r ∨ c_agent_id r ∈ cs).

Lemma select_lineage_strict lin db :
  published (contexts db) →
  StronglySorted (λ r s, (c_version r < c_version s)%Z) (select_lineage lin db).
Proof.
  intros Hp. apply (StronglySorted_strict version_order).
  - apply StronglySorted_merge_sort; apply _.
  - eapply NoDup_fmap_1. apply (select_lineage_ids lin db Hp).
  - intros r s [Hrl Hr]%elem_of_select_lineage [Hsl Hs]%elem_of_select_lineage Hle Hne.
    assert (c_version r ≠ c_version s) as Hv
      by (intros Heq; apply Hne, (published_version_unique (contexts db)); congruence).
    destruct Hle as [?|[? _]]; lia.
Qed.

(** The rows of a lineage, in the order of their versions, are a chain from its founder. *)
Lemma lineage_chain lin db f rest :
  published (contexts db) → select_lineage lin db = f :: rest →
  c_supersedes f = None ∧ lin = lineage_of (c_ctx_id f) ∧
  ∀ i r s, (f :: rest) !! i = Some r → (f :: rest) !! Datatypes.S i = Some s → linked r s.
Proof.
  intros Hp Hsel. pose proof (select_lineage_strict lin db Hp) as Hsort. rewrite Hsel in Hsort.
  assert (∀ x, x ∈ f :: rest ↔ c_lineage_id x = lin ∧ x ∈ contexts db) as Hmem
    by (intros x; rewrite -Hsel; apply elem_of_select_lineage).
  destruct (proj1 (Hmem f)) as [Hfl Hf]; [set_solver|].
  destruct (published_root _ f Hp Hf) as (g & Hg & Hgs & Hgl & Hgo & Hgv & Hge).
  assert (g ∈ f :: rest) as Hgin by (apply Hmem; split; [congruence|done]).
  assert (f = g) as <-.
  { apply elem_of_cons in Hgin as [->|Hgin]; [done|].
    apply StronglySorted_inv in Hsort as [_ Hall]. rewrite Forall_forall in Hall. specialize (Hall g Hgin). lia. }
  split; [done|]. split; [congruence|]. intros i r s Hi Hj.
  destruct (proj1 (Hmem r)) as [Hrl Hr]; [by eapply list_elem_of_lookup_2|].
  destruct (proj1 (Hmem s)) as [Hsl Hs]; [by eapply list_elem_of_lookup_2|].
  pose proof (StronglySorted_lookup _ _ _ _ _ _ Hsort Hi Hj ltac:(lia)) as Hlt. simpl in Hlt.
  assert (c_version f ≤ c_version r)%Z as Hfr.
  { destruct i as [|i]; [injection Hi as ->; lia|].
    pose proof (StronglySorted_lookup _ _ 0 (Datatypes.S i) f r Hsort eq_refl Hi ltac:(lia)) as Hl. simpl in Hl. lia. }
  destruct (c_supersedes s) as [p|] eqn:Hsp.
  2:{ assert (s = f) as -> by (apply (published_one_root (contexts db)); congruence). lia. }
  destruct (published_successor _ s p Hp Hs Hsp) as (q & Hq & Hqp & Hql & Hqv & Hcs).
  assert (q ∈ f :: rest) as [j Hqj]%list_elem_of_lookup by (apply Hmem; split; [congruence|done]).
  assert (q = r) as ->.
  { apply (published_version_unique (contexts db)); [done..|congruence|].
    destruct (decide (j = i)) as [->|Hne]; [congruence|].
    destruct (decide (j < i)%nat).
    - pose proof (StronglySorted_lookup _ _ _ _ _ _ Hsort Hqj Hi ltac:(lia)) as Hl. simpl in Hl. lia.
    - destruct (decide (j = Datatypes.S i)) as [->|]; [rewrite Hj in Hqj; injection Hqj as ->; lia|].
      pose proof (StronglySorted_lookup _ _ _ _ _ _ Hsort Hj Hqj ltac:(lia)) as Hl. simpl in Hl. lia. }
  split; [by rewrite Hsp Hqp|]. done.
Qed.

Lemma chain_versions f rest : (∀ i r s, (f :: rest) !! i = Some r → (f :: rest) !! Datatypes.S i = Some s → linked r s) →
  ∀ i r, (f :: rest) !! i = Some r → c_version r = (c_version f + Z.of_nat i)%Z.
Proof.
  intros Hl i. induction i as [|i IH]; intros r Hi; [injection Hi as ->; lia|].
  destruct (lookup_lt_is_Some_2 (f :: rest) i) as [q Hq]; [apply lookup_lt_Some in Hi; lia|].
  destruct (Hl i q r Hq Hi) as (_ & -> & _). rewrite (IH q Hq). lia.
Qed.
End chains.

(** ** Contexts as they are served *)

Lemma concat_nil {A} (ll : list (list A)) : Forall (λ l, l = []) ll → concat ll = [].
Proof. induction 1 as [|l ll -> _ IH]; [done|]. simpl. done. Qed.

Lemma flat_map_nil {A B} (f : A → list B) l : (∀ x, x ∈ l → f x = []) → flat_map f l = [].
Proof. intros Hf. rewrite flat_map_concat_map. apply concat_nil, Forall_fmap, Forall_forall. done. Qed.

Lemma windows2_nil {A B} (f : A → A → list B) l :
  (∀ i x y, l !! i = Some x → l !! S i = Some y → f x y = []) → windows2 f l = [].
Proof.
  induction l as [|x l IH]; [done|]. intros Hf. destruct l as [|y l]; [done|].
  cbn [windows2]. rewrite (Hf 0%nat x y) //. apply IH. intros i a b Ha Hb. by apply (Hf (S i)).
Qed.

Lemma count_Forall2 {A B} (P : A → B → Prop) (p : A → bool) (q : B → bool) l k :
  Forall2 P l k → (∀ x y, x ∈ l → P x y → q y = p x) →
  length (List.filter q k) = length (List.filter p l).
Proof.
  induction 1 as [|x y l k Hxy Hall IH]; intros Heq; [done|]. cbn. rewrite (Heq x y); [|set_solver|done].
  destruct (p x); cbn; rewrite IH //; intros; apply Heq; set_solver.
Qed.

Section audit.
Context `{StoreCodec} `{PublishSdk} `{KeylessSdk}.
Context `{!StoreCodecLaws} `{!PublishSdkLaws} `{!EventSdkLaws}.
Context (st : SqliteStore) (now : Z) (db db' : SqliteDb).
Context (Hwf : store_wf db) (Hwf' : store_wf db') (Hgrows : grows db db').

(** The context stands retracted in the tables. *)
Definition taken_down (tables : SqliteDb) (ctx_id : string) : bool :=
  existsb (λ c, bool_decide (c_ctx_id c = ctx_id) && negb (c_retracted c =? 0)%Z) (contexts tables).

(** A superseded version that was retracted, by its row or by the events read after
    it. *)
Definition withdrawn (events : SqliteDb) (r : CtxRow) : bool :=
  bool_decide (c_status r = "superseded") && (negb (c_retracted r =? 0)%Z || taken_down events (c_ctx_id r)).

(** Its flag follows its events. *)
Lemma taken_down_events r slots :
  r ∈ contexts db → slots_from_rows 0 (select_events (c_ctx_id r) db') = Ok slots →
  taken_down db' (c_ctx_id r) = retraction_state (map fst slots).
Proof.
  intros Hr Hsl. destruct (Hgrows r Hr) as (r' & Hr' & Hcore). injection Hcore as Hid _ _ _ _ _ _ _ _ _ _ _.
  destruct (events_readable db' (c_ctx_id r) Hwf') as (slots0 & Hsl0 & _ & Hflag).
  rewrite Hsl in Hsl0. injection Hsl0 as <-. rewrite -(Hflag r' Hr' Hid). unfold taken_down.
  destruct (negb (c_retracted r' =? 0)%Z) eqn:Hret.
  - apply existsb_exists. exists r'. rewrite bool_decide_true // Hret. split; [by apply list_elem_of_In|done].
  - apply not_true_iff_false. rewrite existsb_exists. intros (c & Hc%list_elem_of_In & [Hc' Hn]%andb_true_iff).
    apply bool_decide_eq_true in Hc'. rewrite (Hflag c Hc Hc') -(Hflag r' Hr' Hid) Hret in Hn. done.
Qed.

Lemma served_superseded r full :
  r ∈ contexts db → served_row st now db' r full →
  is_superseded full = bool_decide (c_status r = "superseded") && negb (withdrawn db' r).
Proof.
  intros Hr (b & receipt & slots & Hd & Hsl & _ & ->). unfold is_superseded, withdrawn.
  rewrite serve_status. cbn [fc_state full_context st_status fc_body].
  rewrite (taken_down_events r slots Hr Hsl). unfold reconcile_retraction, row_status.
  destruct (c_retracted r =? 0)%Z; cbn [negb orb]; [|by rewrite andb_true_r andb_negb_r].
  destruct (retraction_state _); [by rewrite orb_true_r andb_true_r andb_negb_r|].
  rewrite orb_false_r andb_false_r andb_true_r.
  destruct (wf_status _ Hwf r Hr) as [[-> _]|[-> _]]; [done|].
  change (parse_status "active") with Active. rewrite (bool_decide_false (Active = Retracted)) //.
  cbn [orb project_status_inline]. destruct (body_expires_at b); by case_ifs.
Qed.

Lemma served_body r full : served_row st now db' r full → decodes r (fc_body full).
Proof. intros (b & receipt & slots & Hd & _ & _ & ->). by rewrite serve_body. Qed.

Lemma served_receipt r full :
  served_row st now db' r full →
  bool_decide (fc_registry_receipt full = None) = bool_decide (c_registry_receipt r = None).
Proof.
  intros (b & receipt & slots & Hd & _ & Hc & ->). rewrite serve_receipt. cbn [full_context fc_registry_receipt].
  unfold row_to_context, decode_body in Hc. rewrite (dec_body _ _ Hd) in Hc. cbn [map_err and_then] in Hc.
  destruct (c_registry_receipt r) as [t|] eqn:Hrc.
  - destruct (dec_receipt _ _ Hd t Hrc) as (v & Hv). rewrite Hv in Hc. cbn in Hc. by injection Hc as <-.
  - by injection Hc as <-.
Qed.

(** Exactly one tip, and one more for every withdrawn version. *)
Lemma served_tips lin f rest all :
  select_lineage lin db = f :: rest → Forall2 (served_row st now db') (f :: rest) all →
  tip_count all = S (length (List.filter (withdrawn db') (f :: rest))) ∧ end_issue all = [].
Proof.
  intros Hsel Hall.
  assert (∀ x, x ∈ f :: rest ↔ c_lineage_id x = lin ∧ x ∈ contexts db) as Hmem
    by (intros x; rewrite -Hsel; apply elem_of_select_lineage).
  destruct (proj1 (Hmem f)) as [Hfl Hf]; [set_solver|].
  destruct (lineage_head db f Hwf Hf) as (older & h & Hrows & Hh & Hold). rewrite Hfl Hsel in Hrows.
  rewrite Hrows in Hmem, Hall |- *.
  apply Forall2_app_inv_l in Hall as (all' & last' & Hall' & Hlast & ->).
  apply Forall2_cons_inv_l in Hlast as (full & nil & Hfull & Hnil & ->).
  apply Forall2_nil_inv_l in Hnil as ->.
  assert (is_superseded full = false) as Hend.
  { rewrite (served_superseded h full) //; [by rewrite Hh|]. apply Hmem. set_solver. }
  split.
  - unfold tip_count. rewrite !List.filter_app !length_app. cbn [List.filter]. rewrite Hend. cbn [negb].
    unfold withdrawn at 2. rewrite Hh. cbn. rewrite Nat.add_0_r Nat.add_comm. cbn. f_equal.
    eapply count_Forall2; [done|]. intros r c Hr Hrc. rewrite Forall_forall in Hold.
    destruct (Hold r Hr) as [Hst _]. rewrite (served_superseded r c) //; [|apply Hmem; set_solver].
    unfold withdrawn. rewrite Hst. cbn. by rewrite negb_involutive.
  - unfold end_issue. by rewrite last_snoc Hend.
Qed.

(** The issues the walk finds in the lineage [lin]. *)
Lemma audit_issues lin f rest first others :
  (∀ r, r ∈ contexts db → c_supersedes r = None → c_version r = 1%Z) →
  (Z.of_nat (length (f :: rest)) < 2 ^ 32)%Z →
  select_lineage lin db = f :: rest → Forall2 (served_row st now db') (f :: rest) (first :: others) →
  la_issues (audit_lineage lin first others) = tip_issue (S (length (List.filter (withdrawn db') (f :: rest)))).
Proof.
  intros Hone Hlen Hsel Hall. pose proof (wf_published _ Hwf) as Hp.
  destruct (lineage_chain lin db f rest Hp Hsel) as (Hroot & Hlin & Hlink).
  destruct (served_tips lin f rest _ Hsel Hall) as [Htips Hend].
  assert (∀ x, x ∈ f :: rest ↔ c_lineage_id x = lin ∧ x ∈ contexts db) as Hmem
    by (intros x; rewrite -Hsel; apply elem_of_select_lineage).
  assert (∀ i c, (first :: others) !! i = Some c → ∃ r, (f :: rest) !! i = Some r ∧ decodes r (fc_body c)) as Hrow.
  { intros i c Hc. destruct (Forall2_lookup_r _ _ _ _ _ Hall Hc) as (r & Hr & Hs). exists r.
    split; [done|by apply served_body]. }
  destruct (Hrow 0%nat first eq_refl) as (? & [= <-] & Hfirst).
  unfold audit_lineage. cbn [la_issues]. rewrite Htips Hend app_nil_r.
  rewrite (concat_nil (imap version_issue (first :: others))).
  2:{ apply Forall_lookup. intros i l Hl. rewrite list_lookup_imap in Hl.
      destruct ((first :: others) !! i) as [c|] eqn:Hc; [|done]. injection Hl as <-.
      destruct (Hrow i c Hc) as (r & Hr & Hd). unfold version_issue. rewrite (dec_version _ _ Hd).
      rewrite (chain_versions f rest Hlink i r Hr) Hone //; [|apply Hmem; set_solver].
      apply lookup_lt_Some in Hr. unfold as_u32. rewrite Z.mod_small; [|lia].
      rewrite (proj2 (Z.eqb_eq _ _)); [done|lia]. }
  unfold derivation_issue. rewrite (dec_ctx_id _ _ Hfirst) bool_decide_true //.
  rewrite (flat_map_nil (member_issue lin)).
  2:{ intros c [i Hc]%list_elem_of_lookup. destruct (Hrow i c Hc) as (r & Hr & Hd). unfold member_issue.
      rewrite (dec_lineage_id _ _ Hd) bool_decide_true //. apply Hmem. by eapply list_elem_of_lookup_2. }
  unfold root_issue. rewrite (dec_supersedes _ _ Hfirst) Hroot.
  rewrite windows2_nil; [done|]. intros i c d Hc Hd.
  destruct (Hrow i c Hc) as (r & Hr & Hdr). destruct (Hrow _ d Hd) as (s & Hs & Hds).
  destruct (Hlink i r s Hr Hs) as (Hsup & _ & cs & Hcs & Hown).
  rewrite (dec_contributors _ _ Hdr) in Hcs. injection Hcs as <-.
  unfold link_issue, continuity_issue.
  rewrite (dec_supersedes _ _ Hds) Hsup (dec_ctx_id _ _ Hdr) bool_decide_true // (dec_agent_id _ _ Hds).
  destruct Hown as [Ho|Ho].
  - by rewrite (bool_decide_true (c_agent_id s = _)) //; rewrite (dec_agent_id _ _ Hdr).
  - by rewrite (bool_decide_true (_ ∈ _)) // orb_true_r.
Qed.
End audit.

(** ** The endpoint *)

Section endpoint.
Context `{StoreCodec} `{PublishSdk} `{KeylessSdk} `{!CursorText} `{!PaginateSdk}.
Context `{!StoreCodecLaws} `{!PublishSdkLaws} `{!EventSdkLaws}.
Context (acdp_display : AcdpError → string) (st : SqliteStore) (clock : Z)
  (between : SqliteDb → SqliteDb).

(** The admin endpoints over SQLite; [clock] is the one of the status projection. A
    lineage is two reads with no transaction around them: its rows,
    and then its events, from the tables that [between] leaves of those the rows were
    read from. *)
#[export] Instance sqlite_admin : AdminStore SqliteDb := {|
  admin_list_contexts now limit cursor requester tenant open db :=
    Done (list_contexts limit cursor requester tenant open now db);
  store_lineage id db := Done (lineage st id clock db (between db));
  store_health _ := Done (Ok tt);
  count_idempotency_records db := Done (Ok (Some (Z.of_nat (size (idempotency_records db)))))
|}.

(** A store the server has written, whose lineages start at version 1 as the SDK has
    it. *)
Definition audited (db : SqliteDb) : Prop :=
  reachable db ∧ (∀ r, r ∈ contexts db → c_supersedes r = None → c_version r = 1%Z) ∧
  (Z.of_nat (length (contexts db)) < 2 ^ 32)%Z.

(** The report on a lineage of such a store, its rows read from [db] and its events
    from [db']. *)
Definition expected_report (lin : string) (db db' : SqliteDb) : LineageAuditResponse :=
  let rows := select_lineage lin db in
  let withdrawn := length (List.filter (withdrawn db') rows) in
  mkAudit lin (length rows) (withdrawn =? 0)%nat (tip_issue (S withdrawn))
    (length (List.filter (λ r, bool_decide (c_registry_receipt r = None)) rows)).

Lemma audit_reports lin db db' first others :
  audited db → store_wf db' → grows db db' → lineage st lin clock db db' = Ok (first :: others) →
  audit_lineage lin first others = expected_report lin db db'.
Proof.
  intros (Hreach & Hone & Hlen) Hwf' Hgrows Hlin. pose proof (reachable_wf _ Hreach) as Hwf.
  destruct (lineage_serves st lin clock db db' Hwf Hwf' Hgrows) as (all & Hlin' & Hall).
  rewrite Hlin in Hlin'. injection Hlin' as <-. unfold expected_report.
  destruct (select_lineage lin db) as [|f rest] eqn:Hsel; [by inversion Hall|].
  assert (length (f :: rest) ≤ length (contexts db))%nat as Hle.
  { rewrite -Hsel. unfold select_lineage. rewrite (merge_sort_Permutation version_order). apply length_filter. }
  pose proof (audit_issues st clock db db' Hwf Hwf' Hgrows lin f rest first others Hone ltac:(lia) Hsel Hall) as Hiss.
  unfold audit_lineage in Hiss |- *. cbn [la_issues] in Hiss. rewrite Hiss. f_equal.
  - by apply Forall2_length in Hall.
  - unfold tip_issue. by destruct (length (List.filter (withdrawn db') (f :: rest))).
  - eapply count_Forall2; [done|]. intros r c _ Hs. by eapply served_receipt.
Qed.

(** What the two reads of a lineage come to: the answer of the handler. *)
Lemma lineage_answer lin db db' :
  audited db → store_run (λ _, True) db db' →
  ∃ all, lineage st lin clock db db' = Ok all ∧
    match all with [] => None | first :: rest => Some (audit_lineage lin first rest) end =
    if is_empty (select_lineage lin db) then None else Some (expected_report lin db db').
Proof.
  intros Hdb Hrun. pose proof (reachable_wf _ (proj1 Hdb)) as Hwf.
  pose proof (store_run_wf _ _ _ Hrun Hwf) as Hwf'. pose proof (store_run_grows _ _ _ Hwf Hrun) as Hgrows.
  destruct (lineage_serves st lin clock db db' Hwf Hwf' Hgrows) as (all & Hlin & Hall). exists all. split; [done|].
  destruct all as [|first others]; [by apply Forall2_nil_inv_r in Hall as ->|].
  rewrite (audit_reports lin db db') //. by destruct (select_lineage lin db); [inversion Hall|].
Qed.

(** C32: an audit of a store the server wrote finds no broken chain. Let [db1] be the
    tables when the rows of the lineage are read, after whatever other requests did
    before, and [db2] those its events are read from, after whatever they commit between
    the two reads. To an admin, [GET /admin/lineages/{lineage_id}/audit] answers 404
    exactly when [db1] has no row of the lineage, and else the number of the versions
    [db1] has, of those without a receipt, and no issue: not one gap, wrong derivation,
    broken link or discontinuity. There is one exception: every superseded version that
    [db1] or [db2] has as retracted counts as a second tip, so a lineage with one is
    reported as corrupt. Anybody else is refused with 403 before the store is read, and
    nothing is written. *)
Theorem audit_reports_the_store (tokens : list string) (req : ReadRequest) (lin : string)
    (awaits : list (AwaitPoint SqliteDb)) (db : SqliteDb)
    (Hdb : audited db) (Hothers : others_keep audited awaits)
    (Hbetween : store_run (λ _, True) (others_at 0 awaits db) (between (others_at 0 awaits db))) :
  let db1 := others_at 0 awaits db in
  let db2 := between db1 in
  let '(r, _, h) := lineage_audit acdp_display tokens req lin awaits (initial db) in
  hs_effects h = [] ∧
  (¬ admin_caller tokens (rq_authorization req) → r = HOk (Err Forbidden) ∧ hs_store h = db) ∧
  (admin_caller tokens (rq_authorization req) →
     hs_store h = db1 ∧
     r = if dropped_at 0 awaits then HDropped
         else HOk (Ok (if is_empty (select_lineage lin db1) then None
                       else Some (expected_report lin db1 db2)))).
Proof.
  cbv zeta. destruct (lineage_answer lin _ _ (others_at_keep audited 0 awaits db Hothers Hdb) Hbetween)
    as (all & Hlin & Hans).
  unfold lineage_audit, admin_only.
  pose proof (require_admin_bearer_spec tokens (rq_authorization req)) as Hspec.
  destruct (require_admin_bearer tokens (rq_authorization req)); [|by destruct Hspec as [-> Hno]].
  unfold hbind, hawaited. cbn [store_lineage sqlite_admin with_store initial hs_store].
  replace (ap_others match awaits with a :: _ => a | [] => mkAwait id false end db)
    with (others_at 0 awaits db) by by destruct awaits.
  rewrite Hlin -Hans. cbn [map_err].
  replace (ap_dropped match awaits with a :: _ => a | [] => mkAwait id false end)
    with (dropped_at 0 awaits) by by destruct awaits.
  by destruct (dropped_at 0 awaits).
Qed.

(** ** The listing *)

Context `{!PaginateSdkLaws}.
Context (jwt_decode : Validation → Z → string → result BearerClaims string).
Context {R : Type} `{!RevocationStore R}.

(** A page of a listing for no requester has public rows of its tenant only. *)
Lemma list_contexts_public limit cursor tenant now db page :
  store_wf db → list_contexts limit cursor None tenant true now db = Ok page →
  (length (page_items page) ≤ clamp_limit 200 limit)%nat ∧
  Forall (λ c, body_visibility (fc_body c) = Public ∧
               ∃ r, r ∈ contexts db ∧ c_ctx_id r = body_ctx_id (fc_body c) ∧ in_tenant tenant r = true)
    (page_items page).
Proof.
  intros Hwf Hok.
  destruct (decode_anchor now cursor) as [anchor|e] eqn:Ha; [|by unfold list_contexts in Hok; rewrite Ha in Hok].
  rewrite list_contexts_scan in Hok.
  pose proof (scan_page_keyset created_key (newest_first text_ltb) text_anchor row_to_context (λ _, true)
    (clamp_limit 200 limit) cursor now _ anchor (λ r, listed_decodes None tenant true db r Hwf) Ha) as Hk.
  unfold keyset_page in Hk. cbv zeta in Hk. set (rows := keyset_rows _ _ _ _ _) in Hk.
  destruct Hk as (full & Hfull & Hall). rewrite Hfull filter_true in Hok. injection Hok as <-. cbn [page_items]. split.
  - apply Forall2_length in Hall. rewrite -Hall length_take. lia.
  - apply Forall_lookup. intros i c Hc. destruct (Forall2_lookup_r _ _ _ _ _ Hall Hc) as (r & Hr & Hrow).
    apply list_elem_of_lookup_2, subseteq_take in Hr. unfold rows, keyset_rows in Hr. apply subseteq_take in Hr.
    rewrite (merge_sort_Permutation (key_order created_key (newest_first text_ltb))) in Hr.
    apply list_elem_of_filter in Hr as [_ Hr]. unfold visible_rows in Hr.
    apply list_elem_of_In, filter_In in Hr as [Hr%list_elem_of_In [Hvis Hten]%andb_true_iff].
    destruct (wf_rows _ Hwf r Hr) as (b & _ & Hd & _). rewrite (row_to_context_decodes _ _ _ Hd Hrow). split.
    + unfold LIST_VISIBILITY_SQLITE in Hvis. cbn [is_some andb orb] in Hvis. rewrite andb_true_r orb_false_r in Hvis.
      apply bool_decide_eq_true in Hvis. rewrite (dec_visibility _ _ Hd) in Hvis. by destruct (body_visibility b).
    + exists r. by rewrite (dec_ctx_id _ _ Hd).
Qed.

(** The admin listing discloses no restricted context. Whatever other requests do
    meanwhile, [GET /admin/contexts] answers a page only to an admin; all of it is
    public, at most 200 contexts and at most the limit asked for, all of the tenant the
    request selects where it selects one: the one its header names, whoever sent it, and
    else the one every other request of this caller is scoped to. It writes nothing. *)
Theorem admin_listing_is_public (tokens : list string) (gate : GateState (R := R)) (env : GateEnv) (now : Z)
    (req : ReadRequest) (limit : option Z) (cursor : option string)
    (awaits : list (AwaitPoint SqliteDb)) (db : SqliteDb)
    (Hdb : reachable db) (Hothers : others_keep reachable awaits) :
  let '(r, _, h) := admin_list jwt_decode tokens gate env now req limit cursor awaits (initial db) in
  hs_effects h = [] ∧ reachable (hs_store h) ∧
  match r with
  | HOk (Ok page) =>
      admin_caller tokens (rq_authorization req) ∧
      ∃ tenant db', reachable db' ∧
        match tenant_from_headers (rq_tenant_id req) with
        | Some t => tenant = Some t ∧ t ≠ RESERVED_TENANT
        | None => tenant_for_request jwt_decode gate env req = Ok tenant
        end ∧
        (length (page_items page) ≤ clamp_limit 200 (default ADMIN_LIST_LIMIT limit))%nat ∧
        Forall (λ c, body_visibility (fc_body c) = Public ∧
          ∃ row, row ∈ contexts db' ∧ c_ctx_id row = body_ctx_id (fc_body c) ∧ in_tenant tenant row = true)
          (page_items page)
  | HOk (Err e) => e = Forbidden ∧ ¬ admin_caller tokens (rq_authorization req)
  | _ => admin_caller tokens (rq_authorization req)
  end.
Proof.
  assert (htriple reachable (λ h, hs_effects h = [] ∧ reachable (hs_store h))
    (admin_list jwt_decode tokens gate env now req limit cursor)
    (λ r h, hs_effects h = [] ∧ reachable (hs_store h) ∧
      match r with
      | HOk (Ok page) =>
          admin_caller tokens (rq_authorization req) ∧
          ∃ tenant db', reachable db' ∧ admin_tenant jwt_decode gate env req = Ok tenant ∧
            list_contexts (default ADMIN_LIST_LIMIT limit) cursor None tenant true now db' = Ok page
      | HOk (Err e) => e = Forbidden ∧ ¬ admin_caller tokens (rq_authorization req)
      | _ => admin_caller tokens (rq_authorization req)
      end)) as Hspec.
  { apply admin_only_spec; [by intros Hno h [? ?]|]. intros Hadm.
    apply htriple_lift_bind; [by intros e h _ [? ?]|]. intros tenant Ht.
    apply (htriple_bind reachable _ _ _ (λ page h, hs_effects h = [] ∧ reachable (hs_store h) ∧
      ∃ db', reachable db' ∧
        list_contexts (default ADMIN_LIST_LIMIT limit) cursor None tenant true now db' = Ok page)).
    - apply htriple_reading. intros h s [He Hr] Hs. cbn [hs_effects hs_store with_store admin_list_contexts sqlite_admin passes].
      split; [by split_and!; [|apply Hs|]|].
      destruct (list_contexts _ _ _ _ _ _ _) as [page|e] eqn:Hp; [|by split_and!; [|apply Hs|]].
      split_and!; [done|by apply Hs|]. exists s. split; [by apply Hs|done].
    - intros page. apply htriple_ret. intros h (He & Hr & db' & Hdb' & Hp). split_and!; [done..|]. by exists tenant, db'. }
  specialize (Hspec awaits (initial db) Hothers (conj eq_refl Hdb)).
  destruct (admin_list _ _ _ _ _ _ _ _ _ _) as [[r aw] h]. destruct Hspec as (_ & He & Hst & Hspec).
  split; [done|]. split; [done|]. destruct r as [[page|e]|e|m|]; [|done..].
  destruct Hspec as (Hadm & tenant & db' & Hdb' & Ht & Hp). split; [done|]. exists tenant, db'. split; [done|].
  split; [|by apply (list_contexts_public _ _ _ _ _ _ (reachable_wf _ Hdb') Hp)].
  unfold admin_tenant in Ht. destruct (reject_reserved_tenant _) eqn:Hres; [|done]. cbn [and_then] in Ht.
  apply reject_reserved_ok in Hres. destruct (tenant_from_headers _) as [t|]; [|done]. injection Ht as <-.
  split; [done|]. congruence.
Qed.
End endpoint.
