(* ===== verification/AdminExample.v ===== *)
(** * The admin endpoints, run

    A takedown of an older version of the lineage of [StoreExample], signed under the
    receipt key of [StartupExample], the audit that then takes the lineage for corrupt,
    a listing and a reload; and the witnesses of the theorems of [AdminTheorems] and
    [AdminAudit]. *)

From S2P Require Import Prelude Text RateLimit ChallengeStore Revocation AuthService Errors ContextTypes ChangeFeed FeedBackends ClientIp ReadGate KeyAttestations EventReceipts SqlTx SqliteStore SqlitePublish SqliteInvariants SqliteReach SqliteReads PageCursors SqliteListing StoreExample.
From S2P Require Import Webhook Playground Handlers PublishSqlite PublishExample ReadHandlers LifecycleHandler HandlerExample Config Startup StartupExample AdminHandlers AdminTheorems AdminAudit.

Open Scope registry_scope.

Module AdminExample.
Import EventExample StoreExample.StoreExample PublishExample.PublishExample HandlerExample.HandlerExample.
Import CursorExample StartupExample.StartupExample.

#[export] Instance ledger_admin_events : AdminEventSdk := {|
  lifecycle_event_new id ctx ty _ actor reason := Ok (mkEvent id ctx ty actor reason None);
  event_sign_with _ key e := Ok (mkEvent (ev_id e) (ev_ctx e) (ev_type e) (ev_actor e) (ev_reason e) (Some key));
  signed_under := ev_key;
  admin_body_from_slice _ := Ok (Some "takedown")
|}.

#[export] Instance ledger_admin_laws : AdminEventLaws.
Proof. split; [by intros id ctx ty at_ actor reason e [= <-]|by intros seed key e e' [= <-]]. Qed.

#[export] Instance ledger_admin : AdminServer SqliteDb CommitCall := {|
  record_registry_lifecycle_event out event db :=
    let '(r, db') := commit_lifecycle_event store1 (cc_env out) event (cc_now out) db in
    (Done (let? _ := r in
           let? ctx := get store1 (ev_ctx event) (cc_now out) db' db' in
           ok_or ctx (NotFound "context not found")), db')
|}.

Definition admin_req : ReadRequest := mkReadRequest false [] None [Some "Bearer tok-a"] [] None.
Definition stranger : ReadRequest := mkReadRequest false [] None [Some "Bearer tok-"] [] None.
Definition admin_env : AdminEnv := mkAdminEnv "u1" 7000000 7000001 (mkCommitCall ok_env 7000000 7 0).
Definition fault_text (_ : ReceiptFault) : string := "receipt key".

(** ** A takedown of the first version *)

Definition takedown := admin_retract fault_text full_config admin_env true admin_req id1 [] [] (initial db2).
Definition db5 : SqliteDb := hs_store takedown.2.

Lemma admin_events_are_the_registrys_witness :
  ∃ ctx event tenant, takedown.1.1 = HOk (Ok ctx) ∧ event_ctx_id event = id1 ∧
    event_actor event = "did:web:reg.test" ∧ signed_under event = Some "did:web:reg.test#receipt-key-1" ∧
    hs_effects takedown.2 =
      [NotifyHints; EmitWebhook (admin_webhook full_config admin_env RetractedEvent event ctx) (webhook_tenant tenant)].
Proof.
  pose proof (admin_events_are_the_registrys fault_text (λ _ : SqliteDb, True) full_config admin_env true
                admin_req id1 [] RetractedEvent [] db2 Logic.I (List.Forall_nil _)) as Hthm.
  change (admin_lifecycle_transition fault_text full_config admin_env true admin_req id1 [] RetractedEvent []
            (initial db2)) with takedown in Hthm.
  assert (match takedown.1.1 with HOk (Ok _) => True | _ => False end) as Hok by (vm_compute; exact Logic.I).
  destruct takedown as [[r aw] h]. simpl in Hok, Hthm |- *.
  destruct r as [[ctx|e]|e|m|]; simpl in Hok; [|destruct Hok..].
  destruct Hthm as (_ & event & tenant & Hev & _ & He & _). exists ctx, event, tenant.
  split; [reflexivity|]. split; [|split; [|split; [|exact He]]].
  - pose proof (re_ctx _ _ _ _ _ _ Hev) as Hc. injection Hc as Hc. symmetry. exact Hc.
  - exact (re_actor _ _ _ _ _ _ Hev).
  - etransitivity; [exact (re_signed _ _ _ _ _ _ Hev)|vm_compute; reflexivity].
Defined.

Example strangers_are_refused :
  (admin_retract fault_text full_config admin_env true stranger id1 [] [] (initial db2)).1.1 = HOk (Err Forbidden).
Proof. vm_compute. reflexivity. Qed.

(** ** The audit after it *)

#[export] Instance ledger_admin_store : AdminStore SqliteDb := sqlite_admin store1 8000000 id.

Definition shown_error (_ : AcdpError) : string := "error".
Definition lin1 : string := c_lineage_id (row_of db2 0).
Definition audit_of (db : SqliteDb) := (lineage_audit shown_error ["tok-a"] admin_req lin1 [] (initial db)).1.1.

Definition report_of (r : HEnd (result (option LineageAuditResponse) AdminAuthError)) : LineageAuditResponse :=
  match r with HOk (Ok (Some a)) => a | _ => mkAudit "" 0 false [] 0 end.

(** Before the takedown nothing is wrong, after it the audit sees two tips. *)
Example audit_takes_a_takedown_for_corruption :
  (la_ok (report_of (audit_of db2)), la_versions (report_of (audit_of db2)), la_issues (report_of (audit_of db2))) =
    (true, 2%nat, []) ∧
  (la_ok (report_of (audit_of db5)), la_issues (report_of (audit_of db5))) =
    (false, ["expected exactly 1 non-superseded tip, found 2"]).
Proof. vm_compute. split; reflexivity. Qed.

Definition founders_first (db : SqliteDb) : bool :=
  forallb (λ r, bool_decide (c_supersedes r ≠ None) || (c_version r =? 1)%Z) (contexts db).

Lemma audited_of db :
  reachable db → founders_first db = true → (Z.of_nat (length (contexts db)) <? 2 ^ 32)%Z = true → audited db.
Proof.
  intros Hr Hf Hl. split; [done|]. split; [|by apply Z.ltb_lt]. intros r Hin Hs.
  unfold founders_first in Hf. rewrite forallb_forall in Hf. specialize (Hf r (proj1 (list_elem_of_In _ _) Hin)).
  rewrite Hs in Hf. simpl in Hf. lia.
Qed.

(** The takedown is one transaction of the store. *)
Lemma db2_db5 : store_run (λ _, True) db2 db5.
Proof.
  assert (db5 = (commit_lifecycle_event store1 ok_env
            (mkEvent "u1" id1 RetractedEvent "did:web:reg.test" None (Some "did:web:reg.test#receipt-key-1"))
            7000000 db2).2) as -> by (vm_compute; reflexivity).
  eapply rtc_steps_step; [|apply rtc_steps_refl].
  exists 7000000%Z. split; [done|]. apply step_lifecycle, store1_signs.
Qed.

(** The takedown lands between the two reads of an audit: the rows of [db2] are healthy,
    the events of [db5] make the first version a second tip. *)
Definition racing_takedown (_ : SqliteDb) : SqliteDb := db5.

Definition raced_audit :=
  lineage_audit (AdminStore0 := sqlite_admin store1 8000000 racing_takedown) shown_error ["tok-a"] admin_req lin1 [] (initial db2).

Lemma audit_reports_the_store_witness :
  raced_audit.1.1 = HOk (Ok (Some (expected_report lin1 db2 db5))) ∧ hs_store raced_audit.2 = db2 ∧
  la_ok (expected_report lin1 db2 db5) = false ∧ la_versions (expected_report lin1 db2 db5) = 2%nat.
Proof.
  assert (audited db2) as Hdb
    by (apply audited_of; [exact reachable_db2|vm_compute; reflexivity|vm_compute; reflexivity]).
  pose proof (audit_reports_the_store shown_error store1 8000000 racing_takedown ["tok-a"] admin_req lin1 [] db2
                Hdb (List.Forall_nil _) db2_db5) as Hthm.
  assert (is_empty (select_lineage lin1 db2) = false) as Hsome by (vm_compute; reflexivity).
  fold raced_audit in Hthm. destruct raced_audit as [[r aw] h].
  cbn [fst snd] in *. destruct Hthm as (_ & _ & Hthm).
  destruct Hthm as [Hst Hr]; [exists "tok-a", []; split; [reflexivity|by apply list_elem_of_here]|].
  unfold others_at, dropped_at in Hst, Hr. cbn [lookup list_lookup id racing_takedown] in Hst, Hr.
  rewrite Hsome in Hr. split; [exact Hr|]. split; [exact Hst|]. split; vm_compute; reflexivity.
Defined.

(** ** A listing *)

Definition listing :=
  (admin_list no_jwt ["tok-a"] gate0 (mkGateEnv (mkCallEnv 8 DbOk) 8) 8000000 admin_req None None [] (initial db2)).

Lemma admin_listing_is_public_witness :
  ∃ page, listing.1.1 = HOk (Ok page) ∧ length (page_items page) = 2%nat ∧
    Forall (λ c, body_visibility (fc_body c) = Public) (page_items page).
Proof.
  pose proof (admin_listing_is_public store1 8000000 id no_jwt ["tok-a"] gate0 (mkGateEnv (mkCallEnv 8 DbOk) 8) 8000000
                admin_req None None [] db2 reachable_db2 (List.Forall_nil _)) as Hthm.
  assert (match listing.1.1 with HOk (Ok page) => length (page_items page) = 2%nat | _ => False end) as Hok
    by (vm_compute; reflexivity).
  unfold listing in *. change ledger_admin_store with (sqlite_admin store1 8000000 id) in *.
  destruct (admin_list _ _ _ _ _ _ _ _ _ _) as [[r aw] h]. cbn [fst snd] in *.
  destruct Hthm as (_ & _ & Hthm). destruct r as [[page|e]|e|m|]; [|destruct Hok..].
  destruct Hthm as (_ & tenant & db' & _ & _ & _ & Hall). exists page. split; [reflexivity|]. split; [exact Hok|].
  eapply Forall_impl; [exact Hall|]. intros c [Hc _]. exact Hc.
Defined.

(** ** A reload *)

Definition with_playground (p : PlaygroundConfig) (cfg : RegistryConfig) : RegistryConfig :=
  mkRegistryConfig (registry cfg) (storage cfg) (auth cfg) (webhook cfg) (limits cfg) (rate_limit cfg)
    (read_limits cfg) (metrics cfg) p (receipt cfg) (lifecycle cfg) (log cfg) (feed_config cfg) (events cfg)
    (keyless cfg) (witnesses cfg).

Definition rotated : PlaygroundConfig := PlaygroundExample.rotation.
Definition unverified : PlaygroundConfig := mkPlayground true [] false.

(** A stranger's reload and one of a refused section change nothing, an admin's does. *)
Definition calls : list (ReloadEnv * list (option string)) :=
  [(mkReloadEnv (Ok (with_playground rotated full_config)) 0, [Some "Bearer tok-"]);
   (mkReloadEnv (Ok (with_playground rotated full_config)) 0, [Some "Bearer tok-a"]);
   (mkReloadEnv (Ok (with_playground unverified full_config)) 0, [Some "Bearer tok-a"])].

Lemma pins_in_force_are_validated_witness :
  reloads shown full_config calls (playground full_config) = rotated ∧
  Forall pin_usable (pg_pinned_keys rotated).
Proof.
  assert (admitted shown full_config (playground full_config)) as Hstart
    by (exists 0%Z, []; vm_compute; reflexivity).
  destruct (pins_in_force_are_validated shown full_config calls Hstart) as [[Hpins _] _].
  assert (reloads shown full_config calls (playground full_config) = rotated) as Heq by (vm_compute; reflexivity).
  rewrite Heq in Hpins. split; [exact Heq|exact Hpins].
Defined.
End AdminExample.
