(* ===== verification/AuthHandlers.v ===== *)
(** * Signing in over HTTP

    [issue_challenge], [issue_token] and [revoke_token] of
    [acdp-registry-core/src/handlers/auth.rs] over the [AuthService] of [AuthService],
    the challenge limiter [AppState::try_new] builds, and what they bound: how many
    challenges a flood can make the registry store, and whose tokens a caller can
    revoke. *)

From S2P Require Import Prelude Text RateLimit ChallengeStore Revocation AuthService Errors ContextTypes ClientIp ReadGate Handlers.

Open Scope registry_scope.
Open Scope handler_scope.
Open Scope Z_scope.

(** What the requests share: the service with its stores, and the challenge limiter. *)
Record AuthApp (C R : Type) : Type := mkAuthApp {
  aa_service : AuthService C R;
  aa_challenge_limiter : option AgentRateLimiter
}.
Arguments mkAuthApp {C R}.
Arguments aa_service {C R}.
Arguments aa_challenge_limiter {C R}.

(** [try_new]: no limiter for 0, else the budget with a ceiling of 64 times it. *)
Definition challenge_limiter_of (challenge_rate_per_minute start : Z) : option AgentRateLimiter :=
  if challenge_rate_per_minute =? 0 then None
  else Some (with_global_ceiling challenge_rate_per_minute
               (Z.min u32_max (challenge_rate_per_minute * 64)) start).

Section handlers.
Context (sdk : Sdk) (jwt_decode : Validation → Z → string → result BearerClaims string).
Context {C R : Type} `{!ChallengeStore C} `{!RevocationStore R}.

Notation App := (AuthApp C R).

Definition set_service (s : AuthService C R) (a : App) : App := mkAuthApp s (aa_challenge_limiter a).

(** A charge of the limiter, where there is one. *)
Definition charge_limiter (charge : AgentRateLimiter → result unit Z * AgentRateLimiter) : H App unit :=
  hsync (λ h,
    match aa_challenge_limiter (hs_store h) with
    | None => (Done (Ok tt), h)
    | Some l => let '(r, l) := charge l in
                (Done (map_err RE_RateLimited r), with_store (mkAuthApp (aa_service (hs_store h)) (Some l)) h)
    end).

(** A call of the service. *)
Definition serving {T} (f : AuthService C R → result T AuthError * AuthService C R) :
    HState App → Ran (result T RegistryError) * HState App := λ h,
  let '(r, s) := f (aa_service (hs_store h)) in
  (Done (map_err from_auth_error r), with_store (set_service s (hs_store h)) h).

(** The clocks of the two charges and what the service takes from its surroundings. *)
Record ChallengeEnv : Type := mkChallengeEnv {
  ce_global : Z;
  ce_agent : Z;
  ce_nonce : string;
  ce_now : Z;
  ce_put : CallEnv
}.

(** [issue_challenge]. *)
Definition issue_challenge_handler (env : ChallengeEnv) (agent_id : string) : H App AuthChallenge :=
  let! _ := charge_limiter (λ l, check_global_at l (ce_global env)) in
  let! _ := charge_limiter (λ l, check_at l agent_id (ce_agent env)) in
  hasync (serving (λ s, issue_challenge s agent_id (ce_nonce env) (ce_now env) (ce_put env))).

(** [issue_token]. *)
Definition issue_token_handler (env : TokenEnv) (req : TokenRequest) : H App TokenResponse :=
  hasync (serving (λ s, issue_token sdk s req env)).

(** The bearer of the request's first [Authorization] value. *)
Definition first_bearer (req : ReadRequest) : option string :=
  match rq_authorization req with Some v :: _ => extract_bearer v | _ => None end.

Record RevokeEnv : Type := mkRevokeEnv {
  rv_validate : CallEnv;
  rv_read : CallEnv;
  rv_write : CallEnv
}.

(** [validate_bearer]: the signer consults the index where it has one. *)
Definition validate_bearer (s : AuthService C R) (env : CallEnv) (rev : R) (token : string) :
    result string RegistryError :=
  let? claims := map_err from_auth_error (JwtSigner_validate jwt_decode (signer s) rev env token) in
  Ok (cl_sub claims).

(** [revoke_token]: the 204. *)
Definition revoke_token_handler (env : RevokeEnv) (req : ReadRequest) (jti : string) : H App unit :=
  if match first_bearer req with Some t => is_read_token t | None => false end then
    hlift (Err (RE_AuthToken "a bearer_static read token cannot authorize this operation"))
  else
    let! caller := hsync (λ h,
      (Done (match revocations (aa_service (hs_store h)) with
             | None => Err (RE_Acdp (NotImplemented "token revocation is not configured on this registry"))
             | Some rev =>
                 let? bearer := ok_or (first_bearer req) (RE_AuthToken "bearer token required for revocation") in
                 validate_bearer (aa_service (hs_store h)) (rv_validate env) rev bearer
             end), h)) in
    let! owner := hasync (serving (λ s, (revoke_owner s jti caller (rv_read env), s))) in
    hasync (serving (λ s, revoke_row s jti owner (rv_write env))).
End handlers.

(** ** A flood of challenges *)

Section flood.
Context {C R : Type} `{!ChallengeStore C} `{!ChallengeContract C} `{!RevocationStore R}.

Notation App := (AuthApp C R).

(** One request of [POST /auth/challenge], with what happens at its [await]. *)
Record ChallengeCall : Type := mkChallengeCall {
  cc_agent : string;
  cc_env : ChallengeEnv;
  cc_awaits : list (AwaitPoint App)
}.

(** The requests in the order of their charges, with their ends. *)
Fixpoint challenge_run (calls : list ChallengeCall) (a : App) : list (ChallengeCall * HEnd AuthChallenge) * App :=
  match calls with
  | [] => ([], a)
  | c :: calls =>
      let '(r, _, h) := issue_challenge_handler (cc_env c) (cc_agent c) (cc_awaits c) (initial a) in
      let '(out, a) := challenge_run calls (hs_store h) in
      ((c, r) :: out, a)
  end.

(** Neither budget refused the request: it reached the nonce store. *)
Definition reached {T} (r : HEnd T) : bool :=
  match r with HErr (RE_RateLimited _) => false | _ => true end.

Definition verdict {T} (r : HEnd T) : result unit Z := if reached r then Ok tt else Err 0.

Definition global_verdicts (out : list (ChallengeCall * HEnd AuthChallenge)) : list (Z * result unit Z) :=
  map (λ p, (ce_global (cc_env p.1), verdict p.2)) out.

Definition agent_verdicts (agent : string) (out : list (ChallengeCall * HEnd AuthChallenge)) :
    list (Z * result unit Z) :=
  map (λ p, (ce_agent (cc_env p.1), verdict p.2)) (filter (λ p, cc_agent p.1 = agent) out).

(** The number of nonces held. *)
Definition nonces (a : App) : nat := size (holds (challenges (aa_service a))).

(** What others do at an [await] here: they charge nobody's challenge, and store none. *)
Definition quiet_others (o : App → App) : Prop :=
  ∀ a, aa_challenge_limiter (o a) = aa_challenge_limiter a ∧ (nonces (o a) ≤ nonces a)%nat.

Lemma check_global_buckets l now :
  buckets (check_global_at l now).2 = buckets l ∧ limit (check_global_at l now).2 = limit l ∧
  global_limit (check_global_at l now).2 = global_limit l.
Proof. unfold check_global_at. by repeat case_if. Qed.

Lemma check_at_global l a now :
  global (check_at l a now).2 = global l ∧ global_limit (check_at l a now).2 = global_limit l.
Proof. unfold check_at, prune_if_due. by repeat case_if. Qed.

Lemma from_auth_not_limited e : reached (T := AuthChallenge) (HErr (from_auth_error e)) = true.
Proof. by destruct e. Qed.

(** One call: a charge of the global budget, of the agent's, and at most one nonce. *)
Lemma challenge_call_spec (c : ChallengeCall) (a : App) l :
  aa_challenge_limiter a = Some l → others_ok quiet_others (cc_awaits c) →
  let '(r, _, h) := issue_challenge_handler (cc_env c) (cc_agent c) (cc_awaits c) (initial a) in
  let '(dg, l1) := check_global_at l (ce_global (cc_env c)) in
  match dg with
  | Err _ => reached r = false ∧ hs_store h = mkAuthApp (aa_service a) (Some l1)
  | Ok _ =>
      let '(da, l2) := check_at l1 (cc_agent c) (ce_agent (cc_env c)) in
      match da with
      | Err _ => reached r = false ∧ hs_store h = mkAuthApp (aa_service a) (Some l2)
      | Ok _ => reached r = true ∧ aa_challenge_limiter (hs_store h) = Some l2 ∧
                (nonces (hs_store h) ≤ S (nonces a))%nat
      end
  end.
Proof.
  intros Hl Haw. unfold issue_challenge_handler, hbind, charge_limiter, hsync. cbn [initial hs_store]. rewrite Hl.
  destruct (check_global_at l _) as [[[]|e] l1]; cbn [map_err with_store hs_store aa_challenge_limiter];
    [|by split].
  destruct (check_at l1 _ _) as [[[]|e] l2]; cbn [map_err with_store hs_store aa_service]; [|by split].
  unfold hasync, hawaited, serving. cbn [with_store hs_store].
  set (here := match cc_awaits c with x :: _ => x | [] => mkAwait id false end).
  assert (quiet_others (ap_others here)) as Hq.
  { subst here. destruct (cc_awaits c) as [|x aw]; [by intros b|]. by apply Forall_cons_1 in Haw as [? _]. }
  destruct (Hq (mkAuthApp (aa_service a) (Some l2))) as [Hlim Hn].
  set (a1 := ap_others here _) in *. clearbody a1.
  destruct (issue_challenge (aa_service a1) _ _ _ _) as [r s'] eqn:Hi. cbn [with_store hs_store hs_charge hs_effects].
  assert (nonces (set_service s' a1) ≤ S (nonces a1))%nat as Hgrow.
  { unfold issue_challenge in Hi. unfold nonces. cbn [aa_service set_service].
    destruct (_ || _); [injection Hi as _ <-; lia|].
    destruct (put _ _ _) as [o ch] eqn:Hp. injection Hi as _ <-. cbn [challenges set_challenges].
    apply put_spec in Hp. destruct o as [?|?].
    - destruct Hp as (Hnone & e & -> & _). rewrite map_size_insert_None //.
    - destruct Hp as [->|(Hnone & e & ->)]; [lia|]. rewrite map_size_insert_None //. }
  assert ((nonces (set_service s' a1) ≤ S (nonces a))%nat) as Hle by (unfold nonces in *; simpl in *; lia).
  destruct (ap_dropped here); cbn [hs_store with_store]; [by split_and!|].
  destruct r as [ch|e]; cbn [map_err]; [by split_and!|]. split_and!; [apply from_auth_not_limited|done..].
Qed.

(** The calls, their awaits quiet. *)
Definition quiet_calls (calls : list ChallengeCall) : Prop := Forall (λ c, others_ok quiet_others (cc_awaits c)) calls.

Lemma global_verdicts_cons c r out lo hi :
  admitted_in lo hi (global_verdicts ((c, r) :: out)) =
    (if reached r && (lo <=? ce_global (cc_env c)) && (ce_global (cc_env c) <? hi) then 1 else 0)
    + admitted_in lo hi (global_verdicts out).
Proof. cbn [global_verdicts map fst snd]. rewrite admitted_in_cons. unfold verdict. by destruct (reached r). Qed.

Lemma run_global_bound lo hi calls : ∀ a l,
  quiet_calls calls → aa_challenge_limiter a = Some l → global_limit l ≠ u32_max →
  admitted_in lo hi (global_verdicts (challenge_run calls a).1) ≤
    admitted_in lo hi (hits (global_limit l) (Some (global l)) (map (λ c, ce_global (cc_env c)) calls)).
Proof.
  induction calls as [|c calls IH]; intros a l Hq Hl Hne; [done|]. apply Forall_cons in Hq as [Hc Hq].
  pose proof (challenge_call_spec c a l Hl Hc) as Hspec. cbn [challenge_run map hits].
  destruct (issue_challenge_handler _ _ _ _) as [[r aw] h].
  rewrite check_global_at_hit // in Hspec. destruct (hit _ _ _) as [dg b]. cbn [fst snd] in Hspec.
  assert (∃ l', aa_challenge_limiter (hs_store h) = Some l' ∧ global_limit l' = global_limit l ∧ global l' = b ∧
    (reached r = true → is_ok dg = true)) as (l' & Hl' & Hgl & Hb & Hr).
  { destruct dg as [[]|e].
    - destruct (check_at_global (set_global l b) (cc_agent c) (ce_agent (cc_env c))) as [Hg1 Hg2].
      destruct (check_at _ _ _) as [da l2]. exists l2.
      destruct da as [[]|e]; [destruct Hspec as (_ & ? & _)|destruct Hspec as (_ & ->)]; by split_and!.
    - destruct Hspec as [Hf ->]. eexists. split_and!; [done..|]. congruence. }
  destruct (challenge_run calls (hs_store h)) as [out a'] eqn:Hrun. cbn [fst].
  specialize (IH (hs_store h) l' Hq Hl' ltac:(congruence)). rewrite Hrun Hgl Hb in IH. cbn [fst] in IH.
  rewrite global_verdicts_cons admitted_in_cons.
  destruct (reached r); [rewrite (Hr eq_refl); lia|]. rewrite !andb_false_l. destruct (is_ok dg && _ && _); lia.
Qed.

Lemma same_slot_trans now p q f : same_slot now p q → same_slot now q f → same_slot now p f.
Proof. intros [->|(-> & b & -> & Hb)] Hqf; [done|]. destruct Hqf as [<-|(? & _)]; [right; eauto|done]. Qed.

Lemma agent_verdicts_cons agent c r out lo hi :
  admitted_in lo hi (agent_verdicts agent ((c, r) :: out)) =
    (if bool_decide (cc_agent c = agent) && reached r && (lo <=? ce_agent (cc_env c)) && (ce_agent (cc_env c) <? hi)
     then 1 else 0) + admitted_in lo hi (agent_verdicts agent out).
Proof.
  unfold agent_verdicts. rewrite filter_cons. cbn [fst]. case_decide as Ha.
  - cbn [map fst snd]. rewrite admitted_in_cons bool_decide_true // andb_true_l. unfold verdict. by destruct (reached r).
  - by rewrite bool_decide_false.
Qed.

Lemma run_agent_bound lo hi agent calls : ∀ a l t0 full,
  quiet_calls calls → aa_challenge_limiter a = Some l →
  ascending t0 (map (λ c, ce_agent (cc_env c)) calls) → same_slot t0 (buckets l !! agent) full →
  ∃ ts, ascending t0 ts ∧
    admitted_in lo hi (agent_verdicts agent (challenge_run calls a).1) ≤ admitted_in lo hi (hits (limit l) full ts).
Proof.
  induction calls as [|c calls IH]; intros a l t0 full Hq Hl Hasc Hslot; [by exists []|].
  apply Forall_cons in Hq as [Hc Hq]. destruct Hasc as [Ht Hasc].
  pose proof (challenge_call_spec c a l Hl Hc) as Hspec. cbn [challenge_run].
  destruct (issue_challenge_handler _ _ _ _) as [[r aw] h].
  destruct (challenge_run calls (hs_store h)) as [out a'] eqn:Hrun. cbn [fst]. rewrite agent_verdicts_cons.
  destruct (check_global_buckets l (ce_global (cc_env c))) as (Hb1 & Hlim1 & _).
  destruct (check_global_at l _) as [dg l1]. cbn [snd] in Hb1, Hlim1.
  set (t := ce_agent (cc_env c)) in *.
  assert (same_slot t (buckets l1 !! agent) full) as Hslot1 by (rewrite Hb1; by eapply same_slot_mono).
  assert (∀ l' full', aa_challenge_limiter (hs_store h) = Some l' → limit l' = limit l →
    same_slot t (buckets l' !! agent) full' →
    ∃ ts, ascending t ts ∧ admitted_in lo hi (agent_verdicts agent out) ≤ admitted_in lo hi (hits (limit l) full' ts)) as Hrest.
  { intros l' full' Hl' Hll Hs. destruct (IH (hs_store h) l' t full' Hq Hl' Hasc Hs) as (ts & Hts & Hle).
    rewrite Hrun Hll in Hle. by exists ts. }
  destruct dg as [[]|e].
  2:{ destruct Hspec as [-> Hh]. rewrite andb_false_r. simpl.
      destruct (Hrest l1 full) as (ts & Hts & Hle); [by rewrite Hh|done|done|].
      exists ts. split; [by eapply ascending_weaken|done]. }
  pose proof (check_at_limit l1 (cc_agent c) t) as Hl2.
  destruct (decide (cc_agent c = agent)) as [Heq|Hne].
  - destruct (check_at_hit l1 agent t) as [Hd Hb]. rewrite Heq in Hspec, Hl2 |- *. destruct (check_at l1 agent t) as [da l2].
    cbn [fst snd] in *. rewrite (hit_same_slot _ t t _ full) // Hlim1 in Hd, Hb.
    destruct (hit (limit l) full t) as [d b] eqn:Hhit. cbn [fst snd] in *. subst d.
    destruct (Hrest l2 (Some b)) as (ts & Hts & Hle); [|congruence|by left|].
    { destruct da as [[]|e]; [by destruct Hspec as (_ & ? & _)|by destruct Hspec as [_ ->]]. }
    exists (t :: ts). split; [done|]. cbn [hits]. rewrite Hhit admitted_in_cons bool_decide_true // andb_true_l.
    destruct da as [[]|e]; [destruct Hspec as (-> & _)|destruct Hspec as (-> & _)]; simpl; lia.
  - rewrite bool_decide_false // !andb_false_l. pose proof (check_at_other l1 (cc_agent c) agent t Hne) as Ho.
    destruct (check_at l1 _ t) as [da l2]. cbn [fst snd] in *.
    destruct (Hrest l2 full) as (ts & Hts & Hle); [|congruence|by eapply same_slot_trans|].
    { destruct da as [[]|e]; [by destruct Hspec as (_ & ? & _)|by destruct Hspec as [_ ->]]. }
    exists ts. split; [by eapply ascending_weaken|lia].
Qed.

Lemma run_nonces calls : ∀ a l,
  quiet_calls calls → aa_challenge_limiter a = Some l →
  (nonces (challenge_run calls a).2 ≤
   nonces a + length (filter (λ p, reached p.2 = true) (challenge_run calls a).1))%nat.
Proof.
  induction calls as [|c calls IH]; intros a l Hq Hl; [simpl; lia|]. apply Forall_cons in Hq as [Hc Hq].
  pose proof (challenge_call_spec c a l Hl Hc) as Hspec. cbn [challenge_run].
  destruct (issue_challenge_handler _ _ _ _) as [[r aw] h].
  assert (∃ l', aa_challenge_limiter (hs_store h) = Some l' ∧
    (nonces (hs_store h) ≤ nonces a + if reached r then 1 else 0)%nat) as (l' & Hl' & Hn).
  { destruct (check_global_at l _) as [[[]|e] l1]; [destruct (check_at l1 _ _) as [[[]|e] l2]|].
    - exists l2. destruct Hspec as (-> & ? & ?). split; [done|lia].
    - exists l2. destruct Hspec as (-> & ->). split; [done|]. unfold nonces. simpl. lia.
    - exists l1. destruct Hspec as (-> & ->). split; [done|]. unfold nonces. simpl. lia. }
  specialize (IH (hs_store h) l' Hq Hl'). destruct (challenge_run calls (hs_store h)) as [out a']. cbn [fst snd] in *.
  rewrite filter_cons. cbn [snd]. case_decide as Hd; destruct (reached r); try done; simpl in *; lia.
Qed.

(** A flood of [POST /auth/challenge] is bounded, whoever it claims to come from.
    With [challenge_rate_per_minute = n], in any interval of one minute at most [128 n]
    requests pass the global ceiling and reach the nonce store, whatever agent ids they
    rotate through, and at most [2 n] of them for one agent; and the store has grown by
    no more nonces than requests reached it. *)
Theorem challenge_floods_are_bounded (n start x : Z) (agent : string) (calls : list ChallengeCall) (a : App)
    (Hn : 0 < n ∧ n * 64 < u32_max)
    (Hl : aa_challenge_limiter a = challenge_limiter_of n start)
    (Hglobal : ascending start (map (λ c, ce_global (cc_env c)) calls))
    (Hagent : ascending start (map (λ c, ce_agent (cc_env c)) calls))
    (Hothers : quiet_calls calls) :
  let '(out, a') := challenge_run calls a in
  admitted_in x (x + WINDOW) (global_verdicts out) ≤ 128 * n ∧
  admitted_in x (x + WINDOW) (agent_verdicts agent out) ≤ 2 * n ∧
  (nonces a' ≤ nonces a + length (filter (λ p, reached p.2 = true) out))%nat.
Proof.
  unfold challenge_limiter_of in Hl. rewrite (proj2 (Z.eqb_neq n 0)) in Hl; [|lia].
  set (l := with_global_ceiling n (Z.min u32_max (n * 64)) start) in Hl.
  assert (global_limit l = n * 64 ∧ limit l = n) as [Hgl Hlim] by (subst l; simpl; lia).
  pose proof (run_global_bound x (x + WINDOW) calls a l Hothers Hl ltac:(lia)) as Hg.
  destruct (run_agent_bound x (x + WINDOW) agent calls a l start None Hothers Hl Hagent) as (ts & Hts & Ha); [by left|].
  pose proof (run_nonces calls a l Hothers Hl) as Hs.
  destruct (challenge_run calls a) as [out a']. cbn [fst snd] in *. split; [|split; [|done]].
  - etrans; [exact Hg|]. rewrite Hgl. etrans; [apply (hits_two_windows _ _ _ _ start); [lia| |done]|lia].
    subst l. simpl. lia.
  - etrans; [exact Ha|]. rewrite Hlim. apply (hits_two_windows _ _ _ _ start); [lia|done|done].
Qed.
End flood.

(** ** Revoking a token *)

Section revoking.
Context (jwt_decode : Validation → Z → string → result BearerClaims string).
Context {C R : Type} `{!ChallengeStore C} `{!RevocationStore R} `{!RevocationContract R}.
(** The caller's bearer is a token of this registry that is not revoked, and not a
    static read token. *)
Definition revoking_caller (a : AuthApp C R) (env : RevokeEnv) (req : ReadRequest) (did : string) : Prop :=
  ∃ bearer rev claims, first_bearer req = Some bearer ∧ is_read_token bearer = false ∧
    revocations (aa_service a) = Some rev ∧
    JwtSigner_validate jwt_decode (signer (aa_service a)) rev (rv_validate env) bearer = Ok claims ∧
    cl_sub claims = did.

(** [jti] is a token of [did] in the index. *)
Definition owned_token (a : AuthApp C R) (jti did : string) (row : IssuedRow) : Prop :=
  ∃ rev, revocations (aa_service a) = Some rev ∧ rows rev !! jti = Some row ∧ it_agent_did row = did.

(** A call that only reads the service. *)
Lemma serving_read {T} (f : AuthService C R → result T AuthError) awaits h :
  hasync (serving (λ s, (f s, s))) awaits h =
    let a1 := others_at 0 awaits (hs_store h) in
    (if match awaits with x :: _ => ap_dropped x | [] => false end then HDropped
     else match f (aa_service a1) with Ok v => HOk v | Err e => HErr (from_auth_error e) end,
     tail awaits, with_store a1 h).
Proof.
  unfold hasync, hawaited, serving, others_at.
  destruct awaits as [|x aw]; cbn.
  - destruct (hs_store h) as [s l]. cbn. by destruct (f s).
  - destruct (ap_others x (hs_store h)) as [s l] eqn:E. cbn.
    by destruct (ap_dropped x), (f s).
Qed.

(** C29: an agent revokes its own tokens and no others. Let other requests do what they
    will before the owner is read (which leaves [a1]) and before the tombstone is
    written (which leaves [a2]). Unless the caller's bearer is a valid, unrevoked token,
    not a static read token, of the agent [a1]'s index has as the owner of [jti],
    [POST /auth/token/revoke] is not answered with the 204 and has written nothing. If it is, then however
    the request ends no other token's row has changed, and with the 204 the token is
    revoked in the index, with the owner and expiry [a2] has it with. *)
Theorem revocations_are_the_owners (env : RevokeEnv) (req : ReadRequest) (jti : string)
    (awaits : list (AwaitPoint (AuthApp C R))) (a : AuthApp C R) :
  let a1 := others_at 0 awaits a in
  let a2 := others_at 1 awaits a1 in
  let '(r, _, h) := revoke_token_handler jwt_decode env req jti awaits (initial a) in
  (∀ u, r ≠ HOk u) ∧ (hs_store h = a ∨ hs_store h = a1 ∨ hs_store h = a2) ∨
  ∃ did row, revoking_caller a env req did ∧ owned_token a1 jti did row ∧
    ∃ rev2 rev', revocations (aa_service a2) = Some rev2 ∧
      revocations (aa_service (hs_store h)) = Some rev' ∧
      (∀ j, j ≠ jti → rows rev' !! j = rows rev2 !! j) ∧
      (r = HOk tt → ∃ row', rows rev' !! jti = Some row' ∧ it_revoked row' = true ∧
         ∀ row2, rows rev2 !! jti = Some row2 →
           it_agent_did row' = it_agent_did row2 ∧ it_expires_at row' = it_expires_at row2).
Proof.
  unfold revoke_token_handler. destruct (match first_bearer req with Some t => _ | None => _ end) eqn:Hrt.
  { by left; split; [|left]. }
  unfold hbind, hsync. cbn [initial hs_store].
  destruct (revocations (aa_service a)) as [rev|] eqn:Hrev; cbn [map_err]; [|by left; split; [|left]].
  destruct (first_bearer req) as [bearer|] eqn:Hb; cbn [ok_or and_then]; [|by left; split; [|left]].
  unfold validate_bearer.
  destruct (JwtSigner_validate _ _ _ _ _) as [claims|e] eqn:Hv; cbn [map_err and_then]; [|by left; split; [|left]].
  rewrite serving_read. cbn [initial with_store hs_store].
  set (a1 := others_at 0 awaits a). destruct (match awaits with x :: _ => _ | [] => _ end).
  { left. split; [done|]. by right; left. }
  destruct (revoke_owner (aa_service a1) jti _ _) as [owner|e] eqn:Ho; [|left; split; [done|by right; left]].
  apply revoke_owner_ok in Ho as (-> & rev1 & row & Hrev1 & Hrow & Hown).
  unfold hasync, hawaited, serving. cbn [with_store hs_store].
  set (here := match tail awaits with x :: _ => x | [] => mkAwait id false end).
  assert (ap_others here a1 = others_at 1 awaits a1) as Hhere.
  { subst here. unfold others_at. by destruct awaits as [|x [|y aw]]. }
  rewrite Hhere. set (a2 := others_at 1 awaits a1). clearbody here.
  destruct (revoke_row (aa_service a2) jti _ _) as [r s'] eqn:Hr.
  destruct (revocations (aa_service a2)) as [rev2|] eqn:Hrev2.
  - destruct (revoke_row_spec _ _ _ _ _ _ rev2 Hrev2 Hr) as (rev' & Hrev' & Hothers & Hok).
    destruct (ap_dropped here); [|destruct r as [[]|e]]; cbn; right; exists (cl_sub claims), row;
      (split; [by exists bearer, rev, claims|]); (split; [by exists rev1|]);
      exists rev2, rev'; (split_and!; [done..|]); try done. intros _. by apply Hok.
  - unfold revoke_row in Hr. rewrite Hrev2 in Hr. injection Hr as <- <-.
    destruct (ap_dropped here); cbn; left; (split; [done|]); right; right; by destruct a2.
Qed.
End revoking.

(** ** An example *)

Module AuthHttpExample.
Import Example.

(** Two challenges a minute for an agent, and a flood of four requests. *)
Definition app0 : AuthApp PgChallengeStore PgRevocationStore :=
  mkAuthApp service0 (challenge_limiter_of 2 0).

Definition asks (i : Z) (agent : string) : ChallengeCall (C := PgChallengeStore) (R := PgRevocationStore) :=
  mkChallengeCall agent
    (mkChallengeEnv i i ("n" +:+ pretty.pretty i) (i + 1000000000) (example_env 1)) [].

Definition flood : list ChallengeCall :=
  [asks 1 "did:web:a"; asks 2 "did:web:a"; asks 3 "did:web:b"; asks 4 "did:web:a"].

Example flood_is_cut :
  map (λ p, reached p.2) (challenge_run flood app0).1 = [true; true; true; false] ∧
  nonces (challenge_run flood app0).2 = 3%nat.
Proof. vm_compute. split; reflexivity. Qed.

Lemma challenge_floods_are_bounded_witness :
  admitted_in 0 WINDOW (agent_verdicts "did:web:a" (challenge_run flood app0).1) <= 4 ∧
  (nonces (challenge_run flood app0).2 <= 3)%nat.
Proof.
  pose proof (challenge_floods_are_bounded 2 0 0 "did:web:a" flood app0) as Hthm.
  assert (length (filter (λ p, reached p.2 = true) (challenge_run flood app0).1) = 3%nat) as Hlen
    by (vm_compute; reflexivity).
  assert (nonces app0 = 0%nat) as Hn0 by (vm_compute; reflexivity).
  destruct (challenge_run flood app0) as [out a'].
  destruct Hthm as (_ & Ha & Hn).
  - split; [lia|unfold u32_max; lia].
  - vm_compute. reflexivity.
  - vm_compute. repeat split; discriminate.
  - vm_compute. repeat split; discriminate.
  - repeat (apply List.Forall_cons; [apply List.Forall_nil|]). apply List.Forall_nil.
  - cbn [fst snd] in *. split; [exact Ha|]. rewrite Hn0 Hlen in Hn. exact Hn.
Defined.

(** The agent of [Example] revokes its token, and then it is no bearer any more. *)
Definition app2 : AuthApp PgChallengeStore PgRevocationStore := mkAuthApp service2 None.
Definition bearer_req : ReadRequest := mkReadRequest false [] None [Some "Bearer tok"] [] None.
Definition renv : RevokeEnv := mkRevokeEnv (example_env 2000000000) (example_env 2000000000) (example_env 2000000001).
Definition revoke_run := revoke_token_handler decode renv bearer_req "j1" [] (initial app2).

Example revoked_once :
  revoke_run.1.1 = HOk tt ∧
  (revoke_token_handler decode renv bearer_req "j1" [] (initial (hs_store revoke_run.2))).1.1 =
    HErr (RE_AuthToken "token jti 'j1' has been revoked").
Proof. vm_compute. split; reflexivity. Qed.

Example revoked_by_its_owner :
  (λ h, it_revoked <$> (revocations (aa_service (hs_store h)) ≫= λ rev, rows rev !! "j1")) revoke_run.2 = Some true.
Proof. vm_compute. reflexivity. Qed.
End AuthHttpExample.
