(* ===== verification/Router.v ===== *)
(** * The router

    [build_router_shared], [admin_router] and [envelope_payload_too_large] of
    [acdp-registry-core/src/lib.rs]: the routes and their groups, the layers around each
    group and around the whole, in the order the code puts them. Routing belongs to
    [axum] and the layers to [tower-http]; they are the class [HttpStack], with what
    their documentation says of them as [HttpStackLaws]. The theorem says which
    responses can be cached by whom, that a response always has a media type and a
    request id, and that a handler behind a gate is only reached through it. *)

From stdpp Require Import pretty.
From S2P Require Import Prelude Text Errors ContextTypes Config.

Open Scope registry_scope.

(** ** Requests and responses *)

(** Header names are in lower case. *)
Record HttpRequest : Type := mkHttpRequest {
  hq_method : string;
  hq_path : string;
  hq_headers : list (string * string);
  hq_body : list Z
}.

Record HttpResponse : Type := mkHttpResponse {
  hp_status : Z;
  hp_headers : list (string * string);
  hp_body : list Z
}.

Definition Service : Type := HttpRequest → HttpResponse.

(** All values of a header. *)
Definition values (name : string) (headers : list (string * string)) : list string :=
  (filter (λ h, h.1 = name) headers).*2.

Definition header (name : string) (r : HttpResponse) : list string := values name (hp_headers r).

(** [HeaderMap::insert] and [remove]. *)
Definition without_header (name : string) (r : HttpResponse) : HttpResponse :=
  mkHttpResponse (hp_status r) (filter (λ h, h.1 ≠ name) (hp_headers r)) (hp_body r).

Definition insert_header (name value : string) (r : HttpResponse) : HttpResponse :=
  let r := without_header name r in
  mkHttpResponse (hp_status r) (hp_headers r ++ [(name, value)]) (hp_body r).

(** ** The stack *)

(** The policies [build_cors_layer] chooses between. *)
Inductive CorsPolicy : Type :=
  | CorsNone
  | CorsPublicReads
  | CorsOrigins (allowed : list string).

Class HttpStack : Type := {
  (** The three modes of [SetResponseHeaderLayer]. *)
  set_overriding : string → string → HttpResponse → HttpResponse;
  set_if_not_present : string → string → HttpResponse → HttpResponse;
  set_appending : string → string → HttpResponse → HttpResponse;
  (** [RequestBodyLimitLayer], [TimeoutLayer] (status, seconds), [CorsLayer] and the two
      request-id layers, around a service. *)
  body_limit_layer : Z → Service → Service;
  timeout_layer : Z → Z → Service → Service;
  cors_layer : CorsPolicy → Service → Service;
  propagate_request_id : Service → Service;
  set_request_id : Service → Service;
  (** The route of [axum]'s router a request's path matches. *)
  axum_match : list string → HttpRequest → option string;
  (** [HeaderValue::from_str] accepts it. *)
  valid_header_value : string → bool;
  (** [to_bytes] with a cap, [serde_json::from_slice], and the text of an error body. *)
  body_to_bytes : Z → list Z → option (list Z);
  body_json : list Z → option Value;
  error_bytes : WireErrorBody → list Z
}.

(** A response with other headers; the names of [touched] are the only ones that differ. *)
Definition keeps_response (touched : list string) (r r' : HttpResponse) : Prop :=
  hp_status r' = hp_status r ∧ hp_body r' = hp_body r ∧
  ∀ n, n ∉ touched → header n r' = header n r.

Definition CORS_HEADERS : list string :=
  ["access-control-allow-origin"; "access-control-allow-methods"; "access-control-allow-headers";
   "access-control-expose-headers"; "access-control-max-age"; "vary"].

Class HttpStackLaws `{HttpStack} : Prop := {
  overriding_value n v r : header n (set_overriding n v r) = [v];
  overriding_keeps n v r : keeps_response [n] r (set_overriding n v r);
  if_not_present_value n v r :
    header n (set_if_not_present n v r) = if is_empty (header n r) then [v] else header n r;
  if_not_present_keeps n v r : keeps_response [n] r (set_if_not_present n v r);
  appending_value n v r : header n (set_appending n v r) = header n r ++ [v];
  appending_keeps n v r : keeps_response [n] r (set_appending n v r);
  (** The limit answers 413 itself, or passes the request on with its body capped. *)
  body_limit_law n req :
    (∃ r, hp_status r = 413%Z ∧ ∀ s, body_limit_layer n s req = r) ∨
    ∃ body, ∀ s, body_limit_layer n s req = s (mkHttpRequest (hq_method req) (hq_path req) (hq_headers req) body);
  timeout_law st secs s req : hp_status (timeout_layer st secs s req) = st ∨ timeout_layer st secs s req = s req;
  (** CORS answers preflights, and else adds its headers, [Vary] behind the others. *)
  cors_law p s req :
    hq_method req ≠ "OPTIONS" →
    keeps_response CORS_HEADERS (s req) (cors_layer p s req) ∧
    ∃ vary, header "vary" (cors_layer p s req) = header "vary" (s req) ++ vary;
  (** The id of the request is put on the response, where it has none. *)
  propagate_law s req id rest :
    values "x-request-id" (hq_headers req) = id :: rest →
    keeps_response ["x-request-id"] (s req) (propagate_request_id s req) ∧
    header "x-request-id" (propagate_request_id s req) ≠ [];
  (** A request without an id gets one. *)
  set_request_id_law req :
    ∃ req', (∀ s, set_request_id s req = s req') ∧ hq_method req' = hq_method req ∧ hq_path req' = hq_path req ∧
      values "x-request-id" (hq_headers req') ≠ [] ∧ hq_body req' = hq_body req ∧
      ∀ n, n ≠ "x-request-id" → values n (hq_headers req') = values n (hq_headers req);
  (** Routing looks at the path. *)
  axum_match_path ps req req' : hq_path req = hq_path req' → axum_match ps req = axum_match ps req';
  (** The body of an error is its envelope. *)
  error_bytes_json w : ∃ v e, body_json (error_bytes w) = Some v ∧ value_get v "error" = Some e ∧
    value_get e "code" = Some (VString (we_code w))
}.

(** ** Routes *)

(** The groups of [build_router_shared]. *)
Inductive Group : Type :=
  | DataPlane
  | CapabilitiesDocument
  | AuthEndpoints
  | WellKnown
  | AdminOps
  | MetricsEndpoint.

Record Route : Type := mkRoute { ro_group : Group; ro_path : string; ro_methods : list string }.

#[export] Instance Group_eq_dec : EqDecision Group.
Proof. solve_decision. Defined.

#[export] Instance Route_eq_dec : EqDecision Route.
Proof. solve_decision. Defined.

Definition data_routes : list Route :=
  map (λ p, mkRoute DataPlane p.1 p.2)
    [("/contexts", ["POST"]);
     ("/contexts/search", ["GET"]);
     ("/contexts/{ctx_id}", ["GET"]);
     ("/contexts/{ctx_id}/body", ["GET"]);
     ("/contexts/{ctx_id}/retract", ["POST"]);
     ("/contexts/{ctx_id}/republish", ["POST"]);
     ("/lineages/{lineage_id}", ["GET"]);
     ("/lineages/{lineage_id}/current", ["GET"]);
     ("/log/checkpoint", ["GET"]);
     ("/log/proof", ["GET"]);
     ("/log/entries", ["GET"]);
     ("/changes", ["GET"]);
     ("/subscriptions", ["POST"]);
     ("/subscriptions/{subscription_id}", ["GET"; "DELETE"]);
     ("/key-attestations", ["GET"; "POST"])].

Definition auth_routes : list Route :=
  map (λ p, mkRoute AuthEndpoints p ["POST"]) ["/auth/challenge"; "/auth/token"; "/auth/token/revoke"].

Definition aux_routes : list Route :=
  map (λ p, mkRoute WellKnown p ["GET"])
    ["/.well-known/jwks.json"; "/.well-known/did.json"; "/healthz"; "/livez"].

Definition admin_ops_routes : list Route :=
  [mkRoute AdminOps "/admin/status" ["GET"];
   mkRoute AdminOps "/admin/lineages/{lineage_id}/audit" ["GET"];
   mkRoute AdminOps "/admin/contexts/{ctx_id}/retract" ["POST"];
   mkRoute AdminOps "/admin/contexts/{ctx_id}/republish" ["POST"]].

(** [admin_router]: empty without the playground feature. *)
Definition admin_routes (playground : bool) : list Route :=
  if playground
  then [mkRoute AdminOps "/admin/contexts" ["GET"]; mkRoute AdminOps "/admin/pinned-keys/reload" ["POST"]]
  else [].

Record RouterFlags : Type := mkFlags {
  rf_auth_enabled : bool;
  rf_metrics_enabled : bool;
  rf_playground : bool
}.

Definition routes (f : RouterFlags) : list Route :=
  [mkRoute CapabilitiesDocument "/.well-known/acdp.json" ["GET"]]
  ++ data_routes
  ++ (if rf_auth_enabled f then auth_routes else [])
  ++ aux_routes
  ++ admin_ops_routes
  ++ (if rf_metrics_enabled f then [mkRoute MetricsEndpoint "/metrics" ["GET"]] else [])
  ++ admin_routes (rf_playground f).

(** ** The layers *)

Section router.
Context `{!HttpStack} (acdp_display : AcdpError → string).

Definition ACDP_JSON : string := "application/acdp+json".

(** A middleware that answers itself or runs the rest. *)
Definition gated (gate : HttpRequest → option HttpResponse) (s : Service) : Service := λ req,
  match gate req with Some r => r | None => s req end.

Definition after (f : HttpResponse → HttpResponse) (s : Service) : Service := λ req, f (s req).

(** The [data] group: the read gate innermost. *)
Definition data_layers (read_gate : HttpRequest → option HttpResponse) (s : Service) : Service :=
  after (set_appending "vary" "authorization, x-tenant-id")
    (after (set_if_not_present "cache-control" "private") (gated read_gate s)).

(** The [auth] group: the limiter inside [no-store]. *)
Definition auth_layers (auth_rate_limit : HttpRequest → option HttpResponse) (s : Service) : Service :=
  after (set_overriding "cache-control" "no-store") (gated auth_rate_limit s).

Definition no_store_layer (s : Service) : Service := after (set_overriding "cache-control" "no-store") s.

(** The media type of every [acdp] response. *)
Definition acdp_layer (s : Service) : Service := after (set_overriding "content-type" ACDP_JSON) s.

Definition endpoint (read_gate auth_rate_limit : HttpRequest → option HttpResponse) (g : Group) (s : Service) : Service :=
  match g with
  | DataPlane => acdp_layer (data_layers read_gate s)
  | CapabilitiesDocument => acdp_layer s
  | AuthEndpoints => acdp_layer (auth_layers auth_rate_limit s)
  | WellKnown => s
  | AdminOps | MetricsEndpoint => no_store_layer s
  end.

Definition route_of (f : RouterFlags) (req : HttpRequest) : option Route :=
  axum_match (map ro_path (routes f)) req ≫= λ p, List.find (λ r, bool_decide (ro_path r = p)) (routes f).

(** [build_cors_layer]. *)
Definition build_cors_layer (cfg : CorsConfig) : CorsPolicy :=
  if co_public_reads cfg then CorsPublicReads
  else if is_empty (co_allowed_origins cfg) then CorsNone
  else CorsOrigins (List.filter valid_header_value (co_allowed_origins cfg)).

Definition ENVELOPE_CAP : Z := 64 * 1024.

Definition is_envelope (bytes : list Z) : bool :=
  match body_json bytes with
  | Some v => match value_get v "error" with
              | Some e => match value_get e "code" with Some (VString _) => true | _ => false end
              | None => false
              end
  | None => false
  end.

(** The envelope of a body that is too large. *)
Definition too_large : ErrorResponse :=
  Errors.into_response acdp_display pretty (RE_Acdp (PayloadTooLarge "request body exceeds the configured limit")).

Definition envelope_payload_too_large (r : HttpResponse) : HttpResponse :=
  if negb (hp_status r =? 413)%Z then r
  else
    match body_to_bytes ENVELOPE_CAP (hp_body r) with
    | None =>
        let r := without_header "content-length" r in mkHttpResponse (hp_status r) (hp_headers r) []
    | Some bytes =>
        if is_envelope bytes then mkHttpResponse (hp_status r) (hp_headers r) bytes
        else
          let r := without_header "content-length" (insert_header "content-type" (er_content_type too_large) r) in
          mkHttpResponse (er_status too_large) (hp_headers r) (error_bytes (er_body too_large))
    end.

(** [build_router_shared]; the layers that change no response (tracing, metrics, the peer
    stamp) are left out. [fallback] answers a path with no route. *)
Definition build_router (cfg : RegistryConfig) (f : RouterFlags)
    (read_gate auth_rate_limit : HttpRequest → option HttpResponse) (handler : Route → Service) (fallback : Service) :
    Service :=
  let app : Service := λ req,
    match route_of f req with
    | Some r => endpoint read_gate auth_rate_limit (ro_group r) (handler r) req
    | None => fallback req
    end in
  after (set_if_not_present "content-type" ACDP_JSON)
    (set_request_id
       (propagate_request_id
          (after envelope_payload_too_large
             (cors_layer (build_cors_layer (rg_cors (registry cfg)))
                (body_limit_layer (lc_max_payload_bytes (limits cfg)) (timeout_layer 408 30 app)))))).
End router.

(** ** Postures *)

Section postures.
Context `{!HttpStack} `{!HttpStackLaws} (acdp_display : AcdpError → string).
Context (cfg : RegistryConfig) (f : RouterFlags) (read_gate auth_rate_limit : HttpRequest → option HttpResponse).

(** The posture a path is to have, whatever group its route is put in: credentials,
    operations and metrics are never stored, the discovery documents and probes keep
    their own, and everything else depends on who asks. *)
Definition group_of_path (path : string) : Group :=
  if starts_with path "/auth/" then AuthEndpoints
  else if starts_with path "/admin/" then AdminOps
  else if bool_decide (path = "/metrics") then MetricsEndpoint
  else if bool_decide (path = "/.well-known/acdp.json") then CapabilitiesDocument
  else if starts_with path "/.well-known/" || bool_decide (path ∈ ["/healthz"; "/livez"]) then WellKnown
  else DataPlane.

(** Every route is in the group of its path. *)
Lemma routes_grouped r : r ∈ routes f → ro_group r = group_of_path (ro_path r).
Proof.
  intros Hr. assert (Forall (λ r, ro_group r = group_of_path (ro_path r)) (routes f)) as Hall; [|by eapply Forall_forall in Hall].
  destruct f as [[] [] []]; repeat (apply List.Forall_cons; [vm_compute; reflexivity|]); apply List.Forall_nil.
Qed.

Lemma route_of_in req r : route_of f req = Some r → r ∈ routes f.
Proof.
  unfold route_of. destruct (axum_match _ req) as [p|]; [|done]. intros Hf. apply List.find_some in Hf as [Hin _].
  by apply list_elem_of_In.
Qed.

(** What the route's gate, or behind it its handler, answered. *)
Definition answered (handler : Route → Service) (r : Route) (req : HttpRequest) : HttpResponse :=
  match group_of_path (ro_path r) with
  | DataPlane => gated read_gate (handler r) req
  | AuthEndpoints => gated auth_rate_limit (handler r) req
  | _ => handler r req
  end.

(** Who may cache the response of a route, and its media type. *)
Definition posture (g : Group) (answer resp : HttpResponse) : Prop :=
  match g with
  | DataPlane =>
      header "cache-control" resp =
        (if is_empty (header "cache-control" answer) then ["private"] else header "cache-control" answer) ∧
      (∃ others, header "vary" resp = header "vary" answer ++ "authorization, x-tenant-id" :: others) ∧
      header "content-type" resp = [ACDP_JSON]
  | CapabilitiesDocument =>
      header "cache-control" resp = header "cache-control" answer ∧ header "content-type" resp = [ACDP_JSON]
  | AuthEndpoints => header "cache-control" resp = ["no-store"] ∧ header "content-type" resp = [ACDP_JSON]
  | WellKnown => header "cache-control" resp = header "cache-control" answer
  | AdminOps | MetricsEndpoint => header "cache-control" resp = ["no-store"]
  end.

Lemma keeps_header n touched r r' : keeps_response touched r r' → n ∉ touched → header n r' = header n r.
Proof. intros (_ & _ & Hk). apply Hk. Qed.

Ltac not_touched := apply not_elem_of_cons; split; [discriminate|]; apply not_elem_of_nil.

(** A posture only depends on the headers it names, with [Vary] open at the end. *)
Lemma posture_mono g answer r r' :
  posture g answer r →
  header "cache-control" r' = header "cache-control" r →
  header "content-type" r' = header "content-type" r ∨ header "content-type" r' = [ACDP_JSON] →
  (∃ more, header "vary" r' = header "vary" r ++ more) → posture g answer r'.
Proof.
  intros Hp Hc Ht [more Hv].
  assert (header "content-type" r = [ACDP_JSON] → header "content-type" r' = [ACDP_JSON]) as Ht'
    by (destruct Ht as [->| ->]; done).
  destruct g; simpl in *; rewrite ?Hc; try (destruct Hp; by auto).
  destruct Hp as (? & (others & Ho) & ?). split; [done|]. split; [|by apply Ht'].
  exists (others ++ more). by rewrite Hv Ho -app_assoc.
Qed.

Lemma endpoint_posture g answer (s : Service) req :
  answer = match g with
           | DataPlane => gated read_gate s req
           | AuthEndpoints => gated auth_rate_limit s req
           | _ => s req
           end →
  posture g answer (endpoint read_gate auth_rate_limit g s req).
Proof.
  intros ->. destruct g; cbn [endpoint posture].
  - unfold acdp_layer, data_layers, after. set (a := gated read_gate s req).
    rewrite overriding_value !(keeps_header _ ["content-type"] _ _ (overriding_keeps _ _ _)); [|not_touched..].
    rewrite appending_value (keeps_header "cache-control" ["vary"] _ _ (appending_keeps _ _ _)); [|not_touched].
    rewrite if_not_present_value (keeps_header "vary" ["cache-control"] _ _ (if_not_present_keeps _ _ _)); [|not_touched].
    split; [done|]. split; [by exists []|done].
  - unfold acdp_layer, after. rewrite overriding_value.
    rewrite (keeps_header _ ["content-type"] _ _ (overriding_keeps _ _ _)); [done|not_touched].
  - unfold acdp_layer, auth_layers, after. rewrite overriding_value.
    rewrite (keeps_header _ ["content-type"] _ _ (overriding_keeps _ _ _)); [|not_touched].
    by rewrite overriding_value.
  - done.
  - unfold no_store_layer, after. apply overriding_value.
  - unfold no_store_layer, after. apply overriding_value.
Qed.

Lemma header_without n m r :
  header m (without_header n r) = if bool_decide (m = n) then [] else header m r.
Proof.
  unfold header, values, without_header. cbn [hp_headers]. induction (hp_headers r) as [|[k v] l IH]; [by case_bool_decide|].
  rewrite !filter_cons. cbn [fst]. case_decide as Hk; case_decide as Hm; rewrite ?filter_cons; cbn [fst];
    repeat case_decide; subst; try done; cbn; rewrite ?IH; by case_bool_decide.
Qed.

Lemma header_insert n m v r :
  header m (insert_header n v r) = if bool_decide (m = n) then [v] else header m r.
Proof.
  unfold insert_header. cbv zeta. unfold header at 1, values. cbn [hp_headers]. rewrite filter_app fmap_app.
  change ((filter (λ h, h.1 = m) (hp_headers (without_header n r))).*2) with (header m (without_header n r)).
  rewrite header_without filter_cons filter_nil. cbn [fst]. case_bool_decide; case_decide; subst; try done.
  by rewrite app_nil_r.
Qed.

(** What [envelope_payload_too_large] makes of a body. *)
Definition enveloped (r r' : HttpResponse) : Prop :=
  (hp_status r ≠ 413%Z → hp_body r' = hp_body r) ∧
  (hp_status r = 413%Z →
   match body_to_bytes ENVELOPE_CAP (hp_body r) with
   | Some bytes => is_envelope (hp_body r') = true ∧ (is_envelope bytes = true → hp_body r' = bytes)
   | None => hp_body r' = []
   end).

(** The 413 keeps its headers but for the media type, and has an envelope. *)
Lemma envelope_spec r :
  let r' := envelope_payload_too_large acdp_display r in
  hp_status r' = hp_status r ∧
  (∀ n, n ∉ ["content-type"; "content-length"] → header n r' = header n r) ∧
  (header "content-type" r' = header "content-type" r ∨ header "content-type" r' = [ACDP_JSON]) ∧
  enveloped r r'.
Proof.
  cbv zeta. unfold envelope_payload_too_large, enveloped. destruct (hp_status r =? 413)%Z eqn:Hs; cbn [negb].
  2:{ apply Z.eqb_neq in Hs. split; [done|]. split; [done|]. split; [by left|done]. }
  apply Z.eqb_eq in Hs. rewrite Hs.
  assert (∀ st hs b n, header n (mkHttpResponse st hs b) = values n hs) as Hh by done.
  destruct (body_to_bytes _ _) as [bytes|]; [destruct (is_envelope bytes) eqn:He|].
  - split; [done|]. split; [done|]. split; [by left|]. split; [done|]. intros _. by rewrite He.
  - split; [done|]. split; [|split].
    + intros n [Hn1 Hn2]%not_elem_of_cons. apply not_elem_of_cons in Hn2 as [Hn2 _]. rewrite Hh.
      change (values n (hp_headers (without_header "content-length" (insert_header "content-type" (er_content_type (too_large acdp_display)) r))))
        with (header n (without_header "content-length" (insert_header "content-type" (er_content_type (too_large acdp_display)) r))).
      by rewrite header_without header_insert !bool_decide_false.
    + right. rewrite Hh.
      change (values "content-type" (hp_headers (without_header "content-length" (insert_header "content-type" (er_content_type (too_large acdp_display)) r))))
        with (header "content-type" (without_header "content-length" (insert_header "content-type" (er_content_type (too_large acdp_display)) r))).
      by rewrite header_without header_insert.
    + split; [done|]. intros _. split; [|done]. cbn [hp_body]. destruct (error_bytes_json (er_body (too_large acdp_display))) as (v & e & Hv & Hve & Hc).
      unfold is_envelope. by rewrite Hv Hve Hc.
  - split; [done|]. split; [|split; [|done]].
    + intros n [_ Hn2]%not_elem_of_cons. apply not_elem_of_cons in Hn2 as [Hn2 _]. rewrite Hh.
      change (values n (hp_headers (without_header "content-length" r))) with (header n (without_header "content-length" r)).
      by rewrite header_without bool_decide_false.
    + left. rewrite Hh.
      change (values "content-type" (hp_headers (without_header "content-length" r))) with (header "content-type" (without_header "content-length" r)).
      by rewrite header_without.
Qed.

(** The routed service under the limit and the timeout. *)
Definition limited (handler : Route → Service) (fallback : Service) : Service :=
  body_limit_layer (lc_max_payload_bytes (limits cfg)) (timeout_layer 408 30
    (λ req, match route_of f req with
            | Some r => endpoint read_gate auth_rate_limit (ro_group r) (handler r) req
            | None => fallback req
            end)).

(** The outer layers add headers, complete a 413 and change nothing else. *)
Lemma outer_layers (handler : Route → Service) (fallback : Service) req req' :
  (∀ s, set_request_id s req = s req') → hq_method req' ≠ "OPTIONS" →
  values "x-request-id" (hq_headers req') ≠ [] →
  let inner := limited handler fallback req' in
  let resp := build_router acdp_display cfg f read_gate auth_rate_limit handler fallback req in
  hp_status resp = hp_status inner ∧ enveloped inner resp ∧
  ∀ g answer, posture g answer inner → posture g answer resp.
Proof.
  intros Hset Hopt Hid. cbv zeta. set (cors := cors_layer (build_cors_layer (rg_cors (registry cfg))) (limited handler fallback)).
  assert (build_router acdp_display cfg f read_gate auth_rate_limit handler fallback req =
    set_if_not_present "content-type" ACDP_JSON
      (propagate_request_id (after (envelope_payload_too_large acdp_display) cors) req')) as ->
    by (unfold build_router, after; rewrite Hset; done).
  destruct (values "x-request-id" (hq_headers req')) as [|id rest] eqn:Hv; [done|].
  destruct (propagate_law (after (envelope_payload_too_large acdp_display) cors) req' id rest Hv) as [Hprop Hxid].
  set (resp1 := propagate_request_id _ req') in *.
  destruct (cors_law (build_cors_layer (rg_cors (registry cfg))) (limited handler fallback) req' Hopt) as [Hcors [vary Hvary]].
  fold cors in Hcors, Hvary. destruct (envelope_spec (cors req')) as (Hes & Heh & Het & Heb).
  change (after (envelope_payload_too_large acdp_display) cors req') with (envelope_payload_too_large acdp_display (cors req')) in Hprop.
  set (resp0 := envelope_payload_too_large acdp_display (cors req')) in *.
  destruct (if_not_present_keeps "content-type" ACDP_JSON resp1) as (Hs & Hb & Hh).
  destruct Hprop as (Hs1 & Hb1 & Hh1). destruct Hcors as (Hs0 & Hb0 & Hh0).
  split; [congruence|].
  split; [unfold enveloped in *; by rewrite Hb Hb1 -Hs0 -Hb0|].
  assert (header "content-type" (set_if_not_present "content-type" ACDP_JSON resp1) =
            if is_empty (header "content-type" resp1) then [ACDP_JSON] else header "content-type" resp1) as Hct
    by apply if_not_present_value.
  intros g answer Hp. apply (posture_mono g answer (limited handler fallback req') _ Hp).
  - rewrite Hh; [|not_touched]. rewrite Hh1; [|not_touched]. rewrite Heh; [|set_solver]. apply Hh0. set_solver.
  - rewrite Hct. destruct (is_empty (header "content-type" resp1)); [by right|].
    rewrite Hh1; [|not_touched]. rewrite -(Hh0 "content-type"); [done|set_solver].
  - rewrite Hh; [|not_touched]. rewrite Hh1; [|not_touched]. rewrite Heh; [|set_solver]. by exists vary.
Qed.

(** The body limit answers [req] itself, whatever service it is in front of. *)
Definition unread (req : HttpRequest) : Prop :=
  ∃ own, hp_status own = 413%Z ∧ ∀ s, body_limit_layer (lc_max_payload_bytes (limits cfg)) s req = own.

(** The layers outermost of all add an id and a media type to whatever they get. *)
Lemma outermost_layers (handler : Route → Service) (fallback : Service) req :
  let resp := build_router acdp_display cfg f read_gate auth_rate_limit handler fallback req in
  header "x-request-id" resp ≠ [] ∧ header "content-type" resp ≠ [].
Proof.
  destruct (set_request_id_law req) as (req' & Hset & _ & _ & Hid & _).
  cbv zeta. unfold build_router, after. rewrite Hset.
  destruct (values "x-request-id" (hq_headers req')) as [|id rest] eqn:Hv; [done|].
  match goal with |- context [propagate_request_id ?s req'] => destruct (propagate_law s req' id rest Hv) as [_ Hx]; set (r := propagate_request_id s req') in * end.
  destruct (if_not_present_keeps "content-type" ACDP_JSON r) as (_ & _ & Hh). split.
  - rewrite Hh; [done|not_touched].
  - rewrite if_not_present_value. by destruct (header "content-type" r).
Qed.

(** C30: no response leaves without its posture. Every answer, those the outer layers
    make themselves and preflights included, has a request id and a media type. For a
    request that is not [OPTIONS], the answer has the status of the routed service under
    the body limit and the timeout, and its body, except that a 413 whose body can be read
    has an error envelope, its own or the registry's, and one that cannot is empty. Where a
    route matched, the answer is its gate's or its handler's, with the posture of the route's path:
    [/auth/*], [/admin/*] and [/metrics] are [no-store] whoever answered, limiter refusals
    included; the discovery documents and probes keep what their handler set; every
    other path is private unless its handler said otherwise and varies on the
    credential and the tenant; all but operations, keys, probes and metrics are ACDP JSON. Only
    the timeout and a body over the limit, which no handler has seen, answer without. *)
Theorem responses_have_their_posture (handler : Route → Service) (fallback : Service) (req : HttpRequest) :
  let resp := build_router acdp_display cfg f read_gate auth_rate_limit handler fallback req in
  header "x-request-id" resp ≠ [] ∧ header "content-type" resp ≠ [] ∧
  (hq_method req ≠ "OPTIONS" →
   ∃ req', hq_method req' = hq_method req ∧ hq_path req' = hq_path req ∧ hq_body req' = hq_body req ∧
     (∀ n, n ≠ "x-request-id" → values n (hq_headers req') = values n (hq_headers req)) ∧
     let inner := limited handler fallback req' in
     hp_status resp = hp_status inner ∧ enveloped inner resp ∧
     ∀ r, route_of f req = Some r →
       hp_status resp = 408%Z ∨
       (hp_status resp = 413%Z ∧ unread req') ∨
       ∃ body, posture (group_of_path (ro_path r))
         (answered handler r (mkHttpRequest (hq_method req') (hq_path req') (hq_headers req') body)) resp).
Proof.
  destruct (outermost_layers handler fallback req) as [Hx Hc]. cbv zeta. split; [done|]. split; [done|]. intros Hopt.
  destruct (set_request_id_law req) as (req' & Hset & Hm & Hp & Hid & Hbd & Hhd).
  assert (hq_method req' ≠ "OPTIONS") as Hopt' by congruence.
  destruct (outer_layers handler fallback req req' Hset Hopt' Hid) as (Hs & He & Hpost).
  exists req'. do 6 (split; [done|]). intros r Hr.
  destruct (body_limit_law (lc_max_payload_bytes (limits cfg)) req') as [(own & Hown & Hall)|(body & Hall)].
  { right; left. split; [rewrite Hs; unfold limited; by rewrite Hall|]. by exists own. }
  unfold limited in Hs, Hpost. rewrite Hall in Hs, Hpost.
  match type of Hs with hp_status _ = hp_status (timeout_layer 408 30 ?s ?q) =>
    destruct (timeout_law 408 30 s q) as [Ht|Ht] end; [left; congruence|right; right].
  exists body. rewrite Ht in Hpost. apply Hpost. clear Hpost Hs Ht He Hc Hx.
  assert (route_of f (mkHttpRequest (hq_method req') (hq_path req') (hq_headers req') body) = Some r) as ->.
  { unfold route_of in *. erewrite axum_match_path; [exact Hr|done]. }
  rewrite (routes_grouped r (route_of_in _ _ Hr)).
  apply endpoint_posture. unfold answered. by destruct (group_of_path (ro_path r)).
Qed.
End postures.

(** ** An example *)

Module RouterExample.

Definition capped (r : HttpRequest) (n : Z) : bool := (n <? Z.of_nat (length (hq_body r)))%Z.

Definition add_header (n v : string) (r : HttpResponse) : HttpResponse :=
  mkHttpResponse (hp_status r) (hp_headers r ++ [(n, v)]) (hp_body r).

Definition if_absent (n v : string) (r : HttpResponse) : HttpResponse :=
  if is_empty (header n r) then insert_header n v r else r.

(** A stack: no request is slow, CORS is permissive, an error body is its code behind a
    brace, routes are fixed paths. *)
#[export] Instance plain_stack : HttpStack := {|
  set_overriding := insert_header;
  set_if_not_present := if_absent;
  set_appending := add_header;
  body_limit_layer n s req :=
    if capped req n then mkHttpResponse 413 [("content-type", "text/plain")] [0%Z] else s req;
  timeout_layer _ _ s req := s req;
  cors_layer _ s req :=
    if bool_decide (hq_method req = "OPTIONS") then mkHttpResponse 200 [] []
    else add_header "vary" "origin" (s req);
  propagate_request_id s req :=
    match values "x-request-id" (hq_headers req) with
    | id :: _ => if_absent "x-request-id" id (s req)
    | [] => s req
    end;
  set_request_id s req :=
    if is_empty (values "x-request-id" (hq_headers req))
    then s (mkHttpRequest (hq_method req) (hq_path req) (hq_headers req ++ [("x-request-id", "r1")]) (hq_body req))
    else s req;
  axum_match ps req := List.find (λ p, bool_decide (p = hq_path req)) ps;
  valid_header_value _ := true;
  body_to_bytes cap b := if (Z.of_nat (length b) <=? cap)%Z then Some b else None;
  body_json b := match b with
                 | 123%Z :: code => Some (VObject [("error", VObject [("code", VString (from_bytes code))])])
                 | _ => None
                 end;
  error_bytes w := 123%Z :: as_bytes (we_code w)
|}.

Lemma header_add n m v r : header m (add_header n v r) = header m r ++ if bool_decide (m = n) then [v] else [].
Proof.
  unfold header, values, add_header. cbn [hp_headers]. rewrite filter_app fmap_app filter_cons filter_nil. cbn [fst].
  case_decide; case_bool_decide; subst; done.
Qed.

Lemma header_if_absent n m v r :
  header m (if_absent n v r) = if bool_decide (m = n) && is_empty (header n r) then [v] else header m r.
Proof.
  unfold if_absent. destruct (is_empty (header n r)); [|by rewrite andb_false_r]. rewrite header_insert.
  by case_bool_decide.
Qed.

Lemma keeps_insert n v r : keeps_response [n] r (insert_header n v r).
Proof. split; [done|]. split; [done|]. intros m Hm. rewrite header_insert bool_decide_false //. set_solver. Qed.

Lemma keeps_if_absent n v r : keeps_response [n] r (if_absent n v r).
Proof. unfold if_absent. case_match; [apply keeps_insert|done]. Qed.

#[export] Instance plain_stack_laws : HttpStackLaws.
Proof.
  split.
  - intros n v r. change (header n (insert_header n v r) = [v]). by rewrite header_insert bool_decide_true.
  - apply keeps_insert.
  - intros n v r. change (header n (if_absent n v r) = if is_empty (header n r) then [v] else header n r).
    by rewrite header_if_absent bool_decide_true.
  - apply keeps_if_absent.
  - intros n v r. change (header n (add_header n v r) = header n r ++ [v]). by rewrite header_add bool_decide_true.
  - intros n v r. split; [done|]. split; [done|]. intros m Hm.
    change (header m (add_header n v r) = header m r). rewrite header_add bool_decide_false ?app_nil_r //. set_solver.
  - intros n req. cbn. destruct (capped req n); [left|right].
    + by exists (mkHttpResponse 413 [("content-type", "text/plain")] [0%Z]).
    + exists (hq_body req). intros s. by destruct req.
  - by right.
  - intros p s req Hm. assert (cors_layer p s req = add_header "vary" "origin" (s req)) as ->
      by (unfold cors_layer, plain_stack; by rewrite bool_decide_false).
    split.
    + split; [done|]. split; [done|]. intros m Hn. rewrite header_add bool_decide_false ?app_nil_r //. set_solver.
    + rewrite header_add bool_decide_true //. by exists ["origin"].
  - intros s req id rest Hv. assert (propagate_request_id s req = if_absent "x-request-id" id (s req)) as ->
      by (unfold propagate_request_id, plain_stack; by rewrite Hv).
    split; [apply keeps_if_absent|].
    rewrite header_if_absent bool_decide_true // andb_true_l. by destruct (header "x-request-id" (s req)).
  - intros req. cbn. destruct (values "x-request-id" (hq_headers req)) as [|v l] eqn:Hv; cbn [is_empty].
    + eexists. split; [done|]. cbn. split_and!; [done..| |done|].
      * unfold values. rewrite filter_app fmap_app. by destruct ((filter _ (hq_headers req)).*2).
      * intros n Hn. unfold values. rewrite filter_app fmap_app filter_cons filter_nil. cbn [fst].
        rewrite decide_False //. by rewrite app_nil_r.
    + exists req. split_and!; [done..|congruence|done|done].
  - intros ps req req' Hp. cbn. by rewrite Hp.
  - intros w. cbn. eexists _, _. split; [done|]. split; [done|]. cbn. by rewrite from_bytes_as_bytes.
Qed.

Definition flags : RouterFlags := mkFlags true true true.

(** The limiter refuses everybody, the read gate nobody. *)
Definition refuse_all (_ : HttpRequest) : option HttpResponse := Some (mkHttpResponse 429 [("retry-after", "1")] []).
Definition pass_all (_ : HttpRequest) : option HttpResponse := None.

Definition run (path : string) (body : list Z) : HttpResponse :=
  build_router (λ _, "") defaults flags pass_all refuse_all (λ _ _, mkHttpResponse 200 [] []) (λ _, mkHttpResponse 404 [] [])
    (mkHttpRequest "POST" path [] body).

Example refusals_are_not_stored :
  (hp_status (run "/auth/token" []), header "cache-control" (run "/auth/token" [])) = (429%Z, ["no-store"]) ∧
  header "vary" (run "/contexts" []) = ["authorization, x-tenant-id"; "origin"] ∧
  header "content-type" (run "/nowhere" []) = [ACDP_JSON].
Proof. vm_compute. split_and!; reflexivity. Qed.

Lemma responses_have_their_posture_witness :
  route_of flags (mkHttpRequest "POST" "/auth/token" [] []) = Some (mkRoute AuthEndpoints "/auth/token" ["POST"]) ∧
  header "cache-control" (run "/auth/token" []) = ["no-store"].
Proof.
  assert (route_of flags (mkHttpRequest "POST" "/auth/token" [] []) = Some (mkRoute AuthEndpoints "/auth/token" ["POST"]))
    as Hr by (vm_compute; reflexivity).
  destruct (responses_have_their_posture (λ _, "") defaults flags pass_all refuse_all (λ _ _, mkHttpResponse 200 [] [])
              (λ _, mkHttpResponse 404 [] []) (mkHttpRequest "POST" "/auth/token" [] [])) as (_ & _ & Hp).
  destruct (Hp ltac:(discriminate)) as (req' & _ & _ & _ & _ & _ & _ & Hroute).
  destruct (Hroute _ Hr) as [H408|[[H413 _]|(body & Hcc & _)]].
  - exfalso. revert H408. vm_compute. discriminate.
  - exfalso. revert H413. vm_compute. discriminate.
  - split; [exact Hr|exact Hcc].
Defined.
End RouterExample.
