(* ===== verification/MetaHandlers.v ===== *)
(** * Health, keys and metrics

    The unauthenticated endpoints of [acdp-registry-core/src/handlers/meta.rs], the key
    set of [JwtSigner] they publish, and the gate of [GET /metrics]
    ([acdp-registry-core/src/metrics.rs]), as responses of [Router]. *)

From S2P Require Import Prelude Text RateLimit ChallengeStore Revocation AuthService Errors ContextTypes ClientIp ChangesKey ReadGate ChangeFeed EventReceipts SqliteStore Handlers ReadHandlers LifecycleHandler Config Startup AdminHandlers AdminTheorems Router.

Open Scope registry_scope.

Section meta.
Context (json_bytes : Value → list Z).

(** [Json] with the [Cache-Control] a handler sets. *)
Definition json_response (status : Z) (cache content_type : string) (v : Value) : HttpResponse :=
  mkHttpResponse status [("cache-control", cache); ("content-type", content_type)] (json_bytes v).

Definition PUBLIC_FIVE_MINUTES : string := "public, max-age=300".

(** [capabilities]: the document, or an empty object when it has no JSON. *)
Definition capabilities_response (document : option Value) : HttpResponse :=
  json_response 200 PUBLIC_FIVE_MINUTES "application/json" (default (VObject []) document).

(** [registry_did_document]. *)
Definition registry_did_document_response (document : option Value) : HttpResponse :=
  match document with
  | Some doc => json_response 200 PUBLIC_FIVE_MINUTES "application/json" doc
  | None => json_response 404 "no-store" "application/json"
      (VObject [("error", VString "not_found");
                ("message", VString "this registry serves no DID document (no receipt signing key configured)")])
  end.

(** [JwtSigner::jwks] from the public JWK of its material; a symmetric secret has none. *)
Definition signer_jwks (public_jwk : option Value) : Value :=
  VObject [("keys", VArray (match public_jwk with Some jwk => [jwk] | None => [] end))].

Definition jwks_response (public_jwk : option Value) : HttpResponse :=
  json_response 200 PUBLIC_FIVE_MINUTES "application/jwk-set+json" (signer_jwks public_jwk).

(** [livez]. *)
Definition livez_response (version : string) : HttpResponse :=
  json_response 200 "no-store" "application/json"
    (VObject [("status", VString "ok"); ("version", VString version)]).

(** [health], of the store's answer. *)
Definition health_response (storage_ok : bool) (version : string) : HttpResponse :=
  json_response (if storage_ok then 200 else 503) "no-store" "application/json"
    (VObject [("status", VString (if storage_ok then "ok" else "degraded"));
              ("storage", VBool storage_ok); ("version", VString version)]).

Definition health {S : Type} `{EventSdk} `{!AdminStore S} (version : string) : H S HttpResponse :=
  hbind (hattempt store_health) (λ r, hret (health_response (is_ok r) version)).

(** [metrics_endpoint]; [rendered] is the recorder's text, where one is installed. *)
Definition metrics_endpoint (bearer_token : string) (rendered : option (list Z))
    (authorization : list (option string)) : HttpResponse :=
  match rendered with
  | None => mkHttpResponse 404 [] (as_bytes "metrics disabled")
  | Some text =>
      let token := trim bearer_token in
      let presented := trim <$> (mjoin (hd_error authorization) ≫= strip_prefix "Bearer ") in
      let authorized :=
        bool_decide (token = "")
        || match presented with Some p => ct_eq (as_bytes p) (as_bytes token) | None => false end in
      if authorized
      then mkHttpResponse 200 [("content-type", "text/plain; version=0.0.4; charset=utf-8")] text
      else mkHttpResponse 401 [("www-authenticate", "Bearer realm=" +:+ quote +:+ "metrics" +:+ quote)] (as_bytes "unauthorized")
  end.

(** The metrics are shown to everybody exactly when no token is configured, and else to a
    caller whose first [Authorization] value is that token. *)
Lemma metrics_gate bearer_token text authorization :
  hp_status (metrics_endpoint bearer_token (Some text) authorization) = 200%Z ↔
  trim bearer_token = "" ∨
  ∃ t rest, authorization = Some ("Bearer " +:+ t) :: rest ∧ trim t = trim bearer_token.
Proof.
  unfold metrics_endpoint. case_bool_decide as Ht; [split; [by left|done]|]. cbn [orb].
  destruct authorization as [|[v|] rest]; cbn [hd_error mjoin option_join mbind option_bind fmap option_fmap option_map];
    [split; [done|by intros [?|(? & ? & ? & _)]]| |split; [done|by intros [?|(? & ? & ? & _)]]].
  destruct (strip_prefix "Bearer " v) as [t|] eqn:Hp; cbn [fmap option_fmap option_map].
  - apply strip_prefix_Some in Hp as ->. rewrite ct_eq_spec. case_bool_decide as He; split.
    + intros _. right. exists t, rest. split; [done|]. by apply (inj as_bytes).
    + done.
    + done.
    + intros [?|(t' & rest' & [= Heq _] & Htr)]; [done|]. destruct He. simplify_eq/=. by rewrite Htr.
  - split; [done|]. intros [?|(t & rest' & [= Heq _] & _)]; [done|].
    assert (strip_prefix "Bearer " v = Some t) by by apply strip_prefix_Some. congruence.
Qed.
End meta.
