(* ===== verification/MemoryStore.v ===== *)
(** * The in-memory store

    [MemoryStore] of [acdp-registry-server/src/memory_ext.rs]: the SDK's
    [InMemoryStore] with what the registry adds beside it under one mutex: the receipts
    of lifecycle events, the change feed and the index of key attestations. (The feed's
    own operations are in [FeedBackends], the subscriptions in [Subscriptions].) The
    SDK's store is the class [InMemoryStore]; the keyless checks reach it as closures
    over values read before its commit. *)

From S2P Require Import Prelude Errors ContextTypes ChangeBucket ChangeFeed FeedBackends PageCursors.
From S2P Require Import EventReceipts KeyAttestations SqlTx SqliteStore SqliteListing StoreExample.

Open Scope registry_scope.

Section memory.
Context `{StoreCodec} `{PublishSdk} `{KeylessSdk} `{CursorText}.

(** [acdp::registry::InMemoryStore]. A publish takes the clock and a draw. *)
Class InMemoryStore (I : Type) : Type := {
  inner_get : string → Z → I → result (option FullContext) AcdpError;
  inner_lineage : string → Z → I → result (list FullContext) AcdpError;
  inner_current : string → Z → I → result (option FullContext) AcdpError;
  inner_first_version : string → I → result (option string) AcdpError;
  inner_idempotency_lookup : string → string → I → result (option IdempotencyRecord) AcdpError;
  inner_commit_publish : PublishCommit → Z → Z → I → result PublishCommitOutcome AcdpError * I;
  inner_commit_event : LifecycleEvent → Z → I → result LifecycleCommitOutcome AcdpError * I;
  inner_idempotency_record : string → string → string → PublishResponse → Z → I → result unit AcdpError * I;
  inner_idempotency_evict : Z → I → result unit AcdpError * I
}.

Context {I : Type} `{!InMemoryStore I}.

Record MemState : Type := mkMemState {
  ms_receipts : gmap string (gmap string EventReceipt);
  ms_feed : Feed;
  ms_attestations : gmap string KeyAttestationIndexRow;
  ms_tokens : gset string
}.

(** The mutex is poisoned once a holder panicked. *)
Record MemDb : Type := mkMemDb {
  mem_poisoned : bool;
  mem_inner : I;
  mem_state : MemState
}.

Definition set_receipts (m : gmap string (gmap string EventReceipt)) (st : MemState) : MemState :=
  mkMemState m (ms_feed st) (ms_attestations st) (ms_tokens st).
Definition push_rows (now_ms : Z) (rows : list FeedAppend) (st : MemState) : MemState :=
  mkMemState (ms_receipts st) (push now_ms rows (ms_feed st)) (ms_attestations st) (ms_tokens st).
Definition index_attested (row : KeyAttestationIndexRow) (st : MemState) : MemState :=
  mkMemState (ms_receipts st) (ms_feed st) (<[ir_ctx_id row := row]> (ms_attestations st))
    ({[ir_token_hash row]} ∪ ms_tokens st).

(** ** Receipts *)

Definition stored_slot (stored : gmap string EventReceipt) (i : nat) (e : LifecycleEvent) : Slot :=
  (e, match stored !! event_id e with
      | None => RNull
      | Some r => if (receipt_index r =? Z.of_nat i)%Z then RValid r else RCorrupt
      end).

Definition slots_of (receipts : gmap string (gmap string EventReceipt)) (ctx_id : string)
    (events : list LifecycleEvent) : list Slot :=
  imap (stored_slot (default ∅ (receipts !! ctx_id))) events.

Definition events_of (ctx : FullContext) : list LifecycleEvent := default [] (st_lifecycle_events (fc_state ctx)).

Definition slots (receipts : gmap string (gmap string EventReceipt)) (ctx : FullContext) : list Slot :=
  slots_of receipts (body_ctx_id (fc_body ctx)) (events_of ctx).

Definition overlay (minting : bool) (receipts : gmap string (gmap string EventReceipt)) (ctx : FullContext) :
    FullContext :=
  attach_event_receipts (map (λ s : Slot, into_option s.2) (slots receipts ctx)) minting ctx.

Definition overlay_outcome (minting : bool) (receipts : gmap string (gmap string EventReceipt))
    (o : LifecycleCommitOutcome) : LifecycleCommitOutcome :=
  match o with
  | LcApplied c => LcApplied (overlay minting receipts c)
  | LcReplay c => LcReplay (overlay minting receipts c)
  end.

(** The inserts of a plan: the filled receipts, then the new one. *)
Definition insert_receipt (m : gmap string EventReceipt) (r : EventReceipt) : gmap string EventReceipt :=
  <[receipt_event_id r := r]> m.
Definition insert_plan (plan : ReceiptPlan) (m : gmap string EventReceipt) : gmap string EventReceipt :=
  insert_receipt (fold_left insert_receipt (map snd (plan_fills plan)) m) (plan_new plan).

Definition delegate_event (event : LifecycleEvent) (now : Z) (db : MemDb) :
    result LifecycleCommitOutcome AcdpError * MemDb :=
  let '(r, i) := inner_commit_event event now (mem_inner db) in (r, mkMemDb (mem_poisoned db) i (mem_state db)).

(** Minting comes before the inner commit, which cannot be undone. *)
Definition commit_with_receipts (mint : Minter) (event : LifecycleEvent) (now now_ms : Z) (db : MemDb) :
    result LifecycleCommitOutcome AcdpError * MemDb :=
  let st := mem_state db in
  let receipts := ms_receipts st in
  match inner_get (event_ctx_id event) now (mem_inner db) with
  | Err e => (Err e, db)
  | Ok None => delegate_event event now db
  | Ok (Some ctx) =>
      let prior := slots receipts ctx in
      if existsb (λ s : Slot, bool_decide (event_id s.1 = event_id event)) prior then
        let '(r, db) := delegate_event event now db in
        (let? o := r in Ok (overlay_outcome true receipts o), db)
      else
        let planned :=
          let? plan := plan_event_receipts mint (event_ctx_id event) (body_created_at (fc_body ctx)) prior event now in
          let? value := receipt_value (plan_new plan) in
          let? row := lifecycle_append event (fc_body ctx) (Some value) in
          Ok (plan, row) in
        match planned with
        | Err e => (Err e, db)
        | Ok (plan, row) =>
            match inner_commit_event event now (mem_inner db) with
            | (Err e, i) => (Err e, mkMemDb (mem_poisoned db) i st)
            | (Ok (LcApplied c), i) =>
                let entry := insert_plan plan (default ∅ (receipts !! event_ctx_id event)) in
                let receipts := <[event_ctx_id event := entry]> receipts in
                (Ok (overlay_outcome true receipts (LcApplied c)),
                 mkMemDb (mem_poisoned db) i
                   (push_rows now_ms (match row with Some r => [r] | None => [] end) (set_receipts receipts st)))
            | (Ok o, i) => (Ok (overlay_outcome true receipts o), mkMemDb (mem_poisoned db) i st)
            end
        end
  end.

(** A clone without a minter commits under the same lock. *)
Definition mem_commit_lifecycle_event (mint : option Minter) (event : LifecycleEvent) (now now_ms : Z) (db : MemDb) :
    result LifecycleCommitOutcome AcdpError * MemDb :=
  if mem_poisoned db then (Err lock_error, db)
  else match mint with
       | Some mint => commit_with_receipts mint event now now_ms db
       | None => delegate_event event now db
       end.

(** ** Publishing *)

Definition PLACEHOLDER_ID (authority : string) : string :=
  "acdp://" +:+ authority +:+ "/00000000-0000-4000-8000-000000000000".

Definition index_row_for_request (req : PublishRequest) (authority : string) (now : Z) :
    result (option KeyAttestationIndexRow) AcdpError :=
  if negb (is_minted_attestation (req_context_type req) (req_agent_id req) authority) then Ok None
  else
    let placeholder := PLACEHOLDER_ID authority in
    index_row_for (from_publish_request req placeholder placeholder authority now) authority.

Definition successor_snapshot (st : MemState) (att : string) (now : Z) (i : I) :
    result (option SuccessorAttestation) AcdpError :=
  match ms_attestations st !! att with
  | None => Ok None
  | Some row =>
      let? ctx := inner_get att now i in
      let withdrawn := match ctx with Some c => bool_decide (st_status (fc_state c) = Retracted) | None => false end in
      Ok (Some (mkSuccessor row withdrawn))
  end.

(** The index row of the predecessor's attestation. *)
Definition predecessor_snapshot (st : MemState) (prev : string) (now : Z) (i : I) :
    result (option KeyAttestationIndexRow) AcdpError :=
  let? p := inner_get prev now i in
  Ok (p ≫= λ p, match predecessor_attestation (fc_body p) with
                | Ok (Some att) => ms_attestations st !! att
                | _ => None
                end).

Definition keyless_admission (req : PublishRequest) (found : option SuccessorAttestation)
    (predecessor_row : option KeyAttestationIndexRow) (admission : option (Body → result unit AcdpError))
    (pred : Body) : result unit AcdpError :=
  let? _ :=
    match keyless_successor req with
    | None => Ok tt
    | Some att =>
        let? found := admit_successor req att found in
        let? pred_att := predecessor_attestation pred in
        let row := predecessor_row ≫= λ r, if bool_decide (pred_att = Some (ir_ctx_id r)) then Some r else None in
        let? signer := predecessor_signer pred_att row in
        check_supersession signer found
    end in
  match admission with Some adm => adm pred | None => Ok tt end.

Definition keyless_minter (req : PublishRequest) (authority : string) (found : option SuccessorAttestation)
    (used : option string) (mint : Body → result Value AcdpError) (body : Body) : result Value AcdpError :=
  let? _ :=
    match keyless_successor req with
    | None => Ok tt
    | Some att => let? found := admit_successor req att found in check_window found (body_created_at body)
    end in
  let? row := index_row_for body authority in
  match row, used with
  | Some _, Some token => Err (token_replayed token)
  | _, _ => mint body
  end.

(** Without a receipt minter there is no later point to refuse at. *)
Definition decide_without_minter (req : PublishRequest) (mint : result (option KeyAttestationIndexRow) AcdpError)
    (used : option string) : result unit AcdpError :=
  if is_some (keyless_successor req)
  then Err (RegistryInternal "a keyless publish needs a receipt minter on the memory backend")
  else
    let? _ := mint in
    match used with Some token => Err (token_replayed token) | None => Ok tt end.

Definition predecessor_of (supersedes : option string) (now : Z) (i : I) : result (option Predecessor) AcdpError :=
  match supersedes with
  | None => Ok None
  | Some prev =>
      let? c := inner_get prev now i in
      Ok ((λ c, mkPredecessor prev (body_agent_id (fc_body c))) <$> c)
  end.

(** What follows an insert: the index row, then the feed rows. What was written stays
    when a later step fails. *)
Definition record_published (req : PublishRequest) (authority : string) (is_mint : bool) (resp : PublishResponse)
    (now now_ms : Z) (i : I) (st : MemState) : result unit AcdpError * MemState :=
  if negb (is_some (resp_registry_receipt resp) || is_mint) then (Ok tt, st)
  else
    match inner_get (resp_ctx_id resp) now i with
    | Err e => (Err e, st)
    | Ok None => (Err (RegistryInternal "published context vanished"), st)
    | Ok (Some c) =>
        match index_row_for (fc_body c) authority with
        | Err e => (Err e, st)
        | Ok row =>
            let st := match row with Some row => index_attested row st | None => st end in
            if negb (is_some (resp_registry_receipt resp)) then (Ok tt, st)
            else
              match (let? pred := predecessor_of (req_supersedes req) now i in
                     feed_appends_for_publish (fc_body c) (resp_registry_receipt resp) pred) with
              | Err e => (Err e, st)
              | Ok rows => (Ok tt, push_rows now_ms rows st)
              end
        end
    end.

Definition mem_commit_publish (commit : PublishCommit) (now draw now_ms : Z) (db : MemDb) :
    result PublishCommitOutcome AcdpError * MemDb :=
  if mem_poisoned db then (Err lock_error, db)
  else
    let st := mem_state db in
    let req := pc_req commit in
    let authority := pc_authority commit in
    let mint := index_row_for_request req authority now in
    let is_mint := match mint with Ok None => false | _ => true end in
    let used := match mint with
                | Ok (Some row) => if bool_decide (ir_token_hash row ∈ ms_tokens st) then Some (ir_token_hash row) else None
                | _ => None
                end in
    let successor := keyless_successor req in
    let prepared :=
      let? found := match successor with
                    | Some att => successor_snapshot st att now (mem_inner db)
                    | None => Ok None
                    end in
      let? row := match successor, req_supersedes req with
                  | Some _, Some prev => predecessor_snapshot st prev now (mem_inner db)
                  | _, _ => Ok None
                  end in
      let? _ := match pc_receipt_minter commit with
                | None => decide_without_minter req mint used
                | Some _ => Ok tt
                end in
      Ok (found, row) in
    match prepared with
    | Err e => (Err e, db)
    | Ok (found, row) =>
        let minter :=
          match pc_receipt_minter commit with
          | Some m => if is_some successor || is_mint then Some (keyless_minter req authority found used m) else Some m
          | None => None
          end in
        let admission :=
          if is_some successor && is_some (req_supersedes req)
          then Some (keyless_admission req found row (pc_predecessor_admission commit))
          else pc_predecessor_admission commit in
        match inner_commit_publish
                (mkPublishCommit req authority (pc_idempotency commit) (pc_tenant commit) minter admission)
                now draw (mem_inner db) with
        | (Ok (Inserted resp), i) =>
            let '(r, st) := record_published req authority is_mint resp now now_ms i st in
            (let? _ := r in Ok (Inserted resp), mkMemDb false i st)
        | (r, i) => (r, mkMemDb false i st)
        end
    end.

(** ** Reads *)

Definition mem_get (minting : bool) (ctx_id : string) (now : Z) (db : MemDb) : result (option FullContext) AcdpError :=
  if mem_poisoned db then Err lock_error
  else
    let? c := inner_get ctx_id now (mem_inner db) in
    Ok (overlay minting (ms_receipts (mem_state db)) <$> c).

Definition mem_lineage (minting : bool) (lineage_id : string) (now : Z) (db : MemDb) :
    result (list FullContext) AcdpError :=
  if mem_poisoned db then Err lock_error
  else
    let? l := inner_lineage lineage_id now (mem_inner db) in
    Ok (map (overlay minting (ms_receipts (mem_state db))) l).

Definition mem_current (minting : bool) (lineage_id : string) (now : Z) (db : MemDb) :
    result (option FullContext) AcdpError :=
  if mem_poisoned db then Err lock_error
  else
    let? c := inner_current lineage_id now (mem_inner db) in
    Ok (overlay minting (ms_receipts (mem_state db)) <$> c).

Definition vanished (ctx_id : string) : AcdpError :=
  RegistryInternal ("indexed key attestation '" +:+ ctx_id +:+ "' vanished").

Definition mem_key_attestation (ctx_id : string) (now : Z) (db : MemDb) :
    result (option KeyAttestationRecord) AcdpError :=
  if mem_poisoned db then Err lock_error
  else
    match ms_attestations (mem_state db) !! ctx_id with
    | None => Ok None
    | Some row =>
        let? ctx := inner_get ctx_id now (mem_inner db) in
        let? ctx := ok_or ctx (vanished ctx_id) in
        let? r := record_from_parts ctx_id (body_content_hash (fc_body ctx)) (st_status (fc_state ctx))
                    (ir_created_at_ms row) (fc_body ctx) in
        Ok (Some r)
    end.

Definition mem_token_seen (token_hash : string) (db : MemDb) : result bool AcdpError :=
  if mem_poisoned db then Err lock_error
  else Ok (bool_decide (token_hash ∈ ms_tokens (mem_state db))).

Definition mem_att_key (r : KeyAttestationIndexRow) : Z * string := (ir_created_at_ms r, ir_ctx_id r).

Definition mem_att_item (now : Z) (i : I) (row : KeyAttestationIndexRow) : result KeyAttestationListItem AcdpError :=
  let? ctx := inner_get (ir_ctx_id row) now i in
  let? ctx := ok_or ctx (vanished (ir_ctx_id row)) in
  list_item (ir_ctx_id row) (body_content_hash (fc_body ctx)) (fc_body ctx).

Definition mem_list_key_attestations (controller : string) (f : KeyAttestationFilter) (cursor : option string)
    (limit now : Z) (db : MemDb) : result (Page KeyAttestationListItem) AcdpError :=
  let limit := clamp_limit MAX_LIST_LIMIT limit in
  let? anchor := decode_anchor now cursor in
  if mem_poisoned db then Err lock_error
  else
    let anchor := (λ a : Z * string, (timestamp_millis a.1, a.2)) <$> anchor in
    let rows :=
      merge_sort (key_order mem_att_key (newest_first Z.ltb))
        (filter (after mem_att_key (newest_first Z.ltb) anchor)
           (List.filter (λ r, bool_decide (ir_controller r = controller) && filter_matches f r)
              (map snd (map_to_list (ms_attestations (mem_state db)))))) in
    let? items := collect_ok (mem_att_item now (mem_inner db)) (take limit rows) in
    Ok (mkPage items
          (if (limit <? length rows)%nat
           then (λ r, encode_cursor now (ir_created_at_ms r) (ir_ctx_id r)) <$> rows !! (limit - 1)%nat
           else None)).

(** [list_contexts]: the SDK's store does not show its map. *)
Definition mem_list_contexts : result (Page FullContext) AcdpError :=
  Err (RegistryInternal "list_contexts is not supported by the memory backend; use SQLite or Postgres").
End memory.

(** ** What the wrapper relies on *)

Section laws.
Context `{StoreCodec} `{PublishSdk} `{KeylessSdk} `{CursorText}.
Context `{!EventSdkLaws} `{!PublishSdkLaws}.
Context {I : Type} `{!InMemoryStore I}.

(** The documented behaviour of the SDK's store: it holds bodies and their events by id;
    a publish is inserted under a fresh id after the caller's admission of the
    predecessor and with the receipt the caller's minter gives for the new body, or
    changes nothing; an event whose id is new is appended to its context's, or nothing
    changes. And a token's attestation is read from the members of the request. *)
Class InMemoryStoreLaws : Type := {
  inner_view : I → gmap string (Body * list LifecycleEvent);
  inner_get_view id now i :
    match inner_view i !! id with
    | None => inner_get id now i = Ok None
    | Some (b, evs) => ∃ c, inner_get id now i = Ok (Some c) ∧ fc_body c = b ∧ events_of c = evs ∧
        body_ctx_id b = id ∧ (st_status (fc_state c) = Retracted ↔ retraction_state evs = true)
    end;
  inner_publish commit now draw i r i' :
    inner_commit_publish commit now draw i = (r, i') →
    match r with
    | Ok (Inserted resp) =>
        ∃ l t, let b := from_publish_request (pc_req commit) (resp_ctx_id resp) l (pc_authority commit) t in
        inner_view i !! resp_ctx_id resp = None ∧
        inner_view i' = <[resp_ctx_id resp := (b, [])]> (inner_view i) ∧
        resp_created_at resp = t ∧
        (match pc_receipt_minter commit with
         | Some m => ∃ rc, m b = Ok rc ∧ resp_registry_receipt resp = Some rc
         | None => resp_registry_receipt resp = None
         end) ∧
        ∀ prev, req_supersedes (pc_req commit) = Some prev →
          ∃ pb evs, inner_view i !! prev = Some (pb, evs) ∧
            ∀ adm, pc_predecessor_admission commit = Some adm → adm pb = Ok tt
    | _ => inner_view i' = inner_view i
    end;
  inner_event e now i r i' :
    inner_commit_event e now i = (r, i') →
    match r with
    | Ok (LcApplied c) =>
        ∃ b evs, inner_view i !! event_ctx_id e = Some (b, evs) ∧ event_id e ∉ map event_id evs ∧
          inner_view i' = <[event_ctx_id e := (b, evs ++ [e])]> (inner_view i) ∧
          fc_body c = b ∧ events_of c = evs ++ [e]
    | _ => inner_view i' = inner_view i
    end;
  inner_record a k h resp t i : inner_view (inner_idempotency_record a k h resp t i).2 = inner_view i;
  inner_evict now i : inner_view (inner_idempotency_evict now i).2 = inner_view i;
  built_context_type req c l a t :
    body_context_type (from_publish_request req c l a t) = req_context_type req;
  attestation_of_request req c l a t c' l' t' :
    attestation_from_body (from_publish_request req c l a t) = attestation_from_body (from_publish_request req c' l' a t')
}.

Context `{!InMemoryStoreLaws}.

(** ** The invariant *)

Record mem_inv (db : MemDb) : Prop := {
  (** Every event's slot is its own, in order, without a gap before a receipt. *)
  mi_slots id b evs :
    inner_view (mem_inner db) !! id = Some (b, evs) →
    slots_ok id (body_created_at b) (slots_of (ms_receipts (mem_state db)) id evs) ∧
    slots_have_hole (slots_of (ms_receipts (mem_state db)) id evs) = false ∧ NoDup (map event_id evs);
  (** A receipt is kept only of an event its context has. *)
  mi_receipts id stored eid r :
    ms_receipts (mem_state db) !! id = Some stored → stored !! eid = Some r →
    ∃ b evs, inner_view (mem_inner db) !! id = Some (b, evs) ∧ eid ∈ map event_id evs;
  (** Index rows are those of published attestations. *)
  mi_rows id row :
    ms_attestations (mem_state db) !! id = Some row →
    ir_token_hash row ∈ ms_tokens (mem_state db) ∧
    ∃ b evs authority, inner_view (mem_inner db) !! id = Some (b, evs) ∧ index_row_for b authority = Ok (Some row);
  (** A token mints one attestation. *)
  mi_tokens t :
    t ∈ ms_tokens (mem_state db) → ∃ id row, ms_attestations (mem_state db) !! id = Some row ∧ ir_token_hash row = t;
  mi_once id id' row row' :
    ms_attestations (mem_state db) !! id = Some row → ms_attestations (mem_state db) !! id' = Some row' →
    ir_token_hash row = ir_token_hash row' → id = id'
}.

Lemma mem_inv_same p p' i i' st feed :
  inner_view i' = inner_view i → mem_inv (mkMemDb p i st) →
  mem_inv (mkMemDb p' i' (mkMemState (ms_receipts st) feed (ms_attestations st) (ms_tokens st))).
Proof. intros Hv [Hs Hr Ha Ht Ho]. split; simpl in *; rewrite ?Hv; done. Qed.

Lemma mem_inv_view p i i' st : inner_view i' = inner_view i → mem_inv (mkMemDb p i st) → mem_inv (mkMemDb p i' st).
Proof. intros Hv Hi. pose proof (mem_inv_same p p i i' st (ms_feed st) Hv Hi) as Hsame. by destruct st. Qed.

(** *** Slots *)

Lemma slots_events receipts id evs : map fst (slots_of receipts id evs) = evs.
Proof.
  unfold slots_of. generalize (default ∅ (receipts !! id)) as m. intros m.
  apply list_eq. intros j. rewrite list_lookup_fmap list_lookup_imap. by destruct (evs !! j).
Qed.

Lemma imap_stored_insert m r evs j e :
  NoDup (map event_id evs) → evs !! j = Some e → receipt_event_id r = event_id e → receipt_index r = Z.of_nat j →
  imap (stored_slot (insert_receipt m r)) evs = alter (λ s : Slot, (s.1, RValid r)) j (imap (stored_slot m) evs).
Proof.
  intros Hnd Hj Hid Hidx. apply list_eq. intros k. rewrite list_lookup_imap.
  destruct (decide (k = j)) as [->|Hne].
  - rewrite list_lookup_alter list_lookup_imap Hj. simpl. unfold stored_slot, insert_receipt.
    by rewrite Hid lookup_insert_eq Hidx Z.eqb_refl decide_True.
  - rewrite list_lookup_alter_ne; [|done]. rewrite list_lookup_imap. destruct (evs !! k) as [e'|] eqn:Hk; [|done]. simpl.
    unfold stored_slot, insert_receipt. rewrite lookup_insert_ne; [done|]. rewrite Hid. intros Heq. apply Hne.
    eapply (NoDup_lookup (map event_id evs)); [done| |]; rewrite list_lookup_fmap; [by rewrite Hk|]. by rewrite Hj /= Heq.
Qed.

(** A receipt planned for a slot is for that slot's event and position. *)
Definition fits (evs : list LifecycleEvent) (f : nat * EventReceipt) : Prop :=
  ∃ e, evs !! f.1 = Some e ∧ receipt_event_id f.2 = event_id e ∧ receipt_index f.2 = Z.of_nat f.1.

Lemma imap_stored_fills evs fills : NoDup (map event_id evs) → Forall (fits evs) fills → ∀ m,
  imap (stored_slot (fold_left insert_receipt (map snd fills) m)) evs = fill_slots fills (imap (stored_slot m) evs).
Proof.
  intros Hnd. induction 1 as [|[j r] fills (e & Hj & Hid & Hidx) _ IH]; intros m; [done|]. simpl. rewrite IH.
  unfold fill_slots. simpl. by rewrite (imap_stored_insert m r evs j e).
Qed.

Lemma fills_fit mint ctx created now prior : minter_signs mint → ∀ i prev fills prev',
  fill_nulls_from mint ctx created now i prior prev = Ok (fills, prev') →
  Forall (λ f, ∃ s, prior !! (f.1 - i) = Some s ∧ i ≤ f.1 ∧ receipt_event_id f.2 = event_id s.1 ∧
               receipt_index f.2 = Z.of_nat f.1) fills.
Proof.
  intros Hm. induction prior as [|[e s] prior IH]; intros i prev fills prev' Hf; simpl in Hf.
  { injection Hf as <- _. constructor. }
  assert (∀ p q fs, fill_nulls_from mint ctx created now (S i) prior p = Ok (fs, q) →
    Forall (λ f, ∃ s0, ((e, s) :: prior) !! (f.1 - i) = Some s0 ∧ i ≤ f.1 ∧ receipt_event_id f.2 = event_id s0.1 ∧
                 receipt_index f.2 = Z.of_nat f.1) fs) as Hrest.
  { intros p q fs Hfs. eapply Forall_impl; [by eapply IH|]. intros f (s0 & Hs0 & Hle & Hid & Hidx). exists s0.
    rewrite (_ : f.1 - i = S (f.1 - S i)); [|lia]. split; [done|]. split; [lia|done]. }
  destruct s; [|by eapply Hrest..].
  destruct (event_value e) as [v|] eqn:Hv; [|done]. cbn [and_then] in Hf.
  destruct (mint _ _ _ _) as [r|] eqn:Hr; [|done]. cbn [and_then] in Hf.
  destruct (fill_nulls_from _ _ _ _ (S i) _ _) as [[fs q]|] eqn:Hfs; [|done]. injection Hf as <- _.
  constructor; [|by eapply Hrest]. destruct (Hm _ _ _ _ _ _ (event_value_ok _ _ Hv) Hr) as (Hid & _ & Hidx & _).
  exists (e, RNull). simpl. rewrite Nat.sub_diag. split; [done|]. split; [lia|done].
Qed.

(** What a plan inserts makes of the slots what the plan says. *)
Lemma slots_planned mint ctx created receipts evs event now plan :
  minter_signs mint → NoDup (map event_id evs) → event_id event ∉ map event_id evs →
  plan_event_receipts mint ctx created (slots_of receipts ctx evs) event now = Ok plan →
  slots_of (<[ctx := insert_plan plan (default ∅ (receipts !! ctx))]> receipts) ctx (evs ++ [event]) =
    appended (slots_of receipts ctx evs) event plan ∧
  receipt_event_id (plan_new plan) = event_id event ∧ Forall (fits evs) (plan_fills plan).
Proof.
  intros Hm Hnd Hnew Hplan. unfold plan_event_receipts in Hplan.
  destruct (if slots_have_hole _ then _ else _) as [[fills prev]|] eqn:Hf; [|done]. cbn [and_then] in Hplan.
  destruct (event_value event) as [v|] eqn:Hv; [|done]. cbn [and_then] in Hplan.
  destruct (mint _ _ _ _) as [r|] eqn:Hr; [|done]. injection Hplan as <-.
  destruct (Hm _ _ _ _ _ _ (event_value_ok _ _ Hv) Hr) as (Hid & _ & Hidx & _).
  assert (Forall (fits evs) fills) as Hfits.
  { destruct (slots_have_hole _); [by injection Hf as <- _|]. apply (fills_fit _ _ _ _ _ Hm) in Hf.
    eapply Forall_impl; [exact Hf|]. intros f (s & Hs & _ & He & Hi). rewrite Nat.sub_0_r in Hs. exists s.1.
    split; [|done]. rewrite -(slots_events receipts ctx evs) list_lookup_fmap Hs. done. }
  split; [|done]. unfold slots_of, appended. rewrite lookup_insert_eq. cbn [default plan_fills plan_new].
  rewrite imap_app. f_equal.
  - rewrite -imap_stored_fills //. unfold insert_plan. simpl. apply imap_ext. intros j e Hj. unfold stored_slot, insert_receipt.
    rewrite lookup_insert_ne; [done|]. rewrite Hid. intros Heq. apply Hnew. rewrite Heq.
    apply list_elem_of_fmap_2. by eapply list_elem_of_lookup_2.
  - simpl. unfold stored_slot, insert_plan, insert_receipt. simpl. rewrite Hid lookup_insert_eq Nat.add_0_r.
    unfold slots_of in Hidx. rewrite length_imap in Hidx. by rewrite Hidx Z.eqb_refl.
Qed.
Lemma slots_unminted receipts ctx evs e :
  (∀ stored r, receipts !! ctx = Some stored → stored !! event_id e = Some r → False) →
  slots_of receipts ctx (evs ++ [e]) = slots_of receipts ctx evs ++ [(e, RNull)].
Proof.
  intros Hnone. unfold slots_of. rewrite imap_app. f_equal. simpl. unfold stored_slot. f_equal. f_equal.
  destruct (receipts !! ctx) as [stored|]; simpl; [|by rewrite lookup_empty].
  destruct (stored !! event_id e) as [r|] eqn:Hr; [|done]. by destruct (Hnone stored r eq_refl Hr).
Qed.

(** *** Lifecycle events *)

Lemma mem_inv_event p i i' st receipts feed ctx b evs e :
  mem_inv (mkMemDb p i st) → inner_view i !! ctx = Some (b, evs) → event_id e ∉ map event_id evs →
  inner_view i' = <[ctx := (b, evs ++ [e])]> (inner_view i) →
  (∀ id, id ≠ ctx → receipts !! id = ms_receipts st !! id) →
  slots_ok ctx (body_created_at b) (slots_of receipts ctx (evs ++ [e])) →
  slots_have_hole (slots_of receipts ctx (evs ++ [e])) = false →
  (∀ stored eid r, receipts !! ctx = Some stored → stored !! eid = Some r → eid ∈ map event_id (evs ++ [e])) →
  mem_inv (mkMemDb p i' (mkMemState receipts feed (ms_attestations st) (ms_tokens st))).
Proof.
  intros [Hs Hr Ha Ht Ho] Hctx Hnew Hview Hother Hok Hhole Hkeys. simpl in *. split; simpl; try done; rewrite Hview.
  - intros id b' evs'. destruct (decide (id = ctx)) as [->|Hne].
    + rewrite lookup_insert_eq. intros [= <- <-]. split; [done|]. split; [done|]. rewrite map_app. apply NoDup_app.
      destruct (Hs ctx b evs Hctx) as (_ & _ & Hnd). split; [done|]. split; [|simpl; apply NoDup_singleton].
      intros x Hx Hx'. apply list_elem_of_singleton in Hx'. by subst.
    + rewrite lookup_insert_ne; [|done]. intros Hid. unfold slots_of. rewrite Hother; [|done]. by apply Hs.
  - intros id stored eid r Hid Hr'. destruct (decide (id = ctx)) as [->|Hne].
    + rewrite lookup_insert_eq. exists b, (evs ++ [e]). split; [done|]. by eapply Hkeys.
    + rewrite lookup_insert_ne; [|done]. rewrite Hother in Hid; [|done]. by eapply Hr.
  - intros id row Hrow. destruct (Ha id row Hrow) as (Htok & b' & evs' & authority & Hid & Hrow'). split; [done|].
    destruct (decide (id = ctx)) as [->|Hne]; [|exists b', evs', authority; by rewrite lookup_insert_ne].
    rewrite lookup_insert_eq. rewrite Hctx in Hid. injection Hid as <- <-. by exists b, (evs ++ [e]), authority.
Qed.

Lemma delegate_inv event now db r db' :
  mem_inv db → delegate_event event now db = (r, db') → mem_inv db'.
Proof.
  intros Hinv Hd. unfold delegate_event in Hd. destruct (inner_commit_event event now (mem_inner db)) as [o i'] eqn:Hc.
  injection Hd as <- <-. apply inner_event in Hc. destruct db as [p i st]. simpl in *.
  destruct o as [[c|c]|]; [|by eapply mem_inv_view..].
  destruct Hc as (b & evs & Hctx & Hnew & Hview & _). pose proof Hinv as Hall. destruct Hall as [Hs Hr _ _ _]. simpl in *.
  assert (∀ stored r, ms_receipts st !! event_ctx_id event = Some stored → stored !! event_id event = Some r → False) as Hno.
  { intros stored rc Hst Hrc. destruct (Hr _ _ _ _ Hst Hrc) as (b' & evs' & Hv & Hin). rewrite Hctx in Hv. by injection Hv as <- <-. }
  destruct (Hs _ _ _ Hctx) as (Hok & Hhole & _).
  pose proof (mem_inv_event p i i' st (ms_receipts st) (ms_feed st) _ b evs event Hinv Hctx Hnew Hview (λ _ _, eq_refl)) as Hgo.
  rewrite (slots_unminted _ _ _ _ Hno) in Hgo. destruct st. apply Hgo; [by apply slots_ok_snoc_null|by apply no_hole_snoc_null|].
  intros stored eid rc Hst Hrc. destruct (Hr _ _ _ _ Hst Hrc) as (b' & evs' & Hv & Hin). rewrite Hctx in Hv. injection Hv as <- <-.
  rewrite map_app elem_of_app. by left.
Qed.

(** The receipts a plan inserts are of the context's events. *)
Lemma insert_plan_keys plan evs event m eid r :
  Forall (fits evs) (plan_fills plan) → receipt_event_id (plan_new plan) = event_id event →
  insert_plan plan m !! eid = Some r → eid ∈ map event_id (evs ++ [event]) ∨ m !! eid = Some r.
Proof.
  intros Hfits Hnew. unfold insert_plan, insert_receipt at 1. rewrite lookup_insert_Some Hnew map_app elem_of_app.
  intros [[<- _]|[_ Hf]]; [left; right; by apply list_elem_of_singleton|]. clear Hnew. revert m Hf.
  induction Hfits as [|[j rc] fills (e & Hj & Hid & _) _ IH]; intros m Hf; [by right|]. simpl in Hf.
  destruct (IH _ Hf) as [?|Hm]; [by left|]. unfold insert_receipt in Hm. apply lookup_insert_Some in Hm as [[<- _]|[_ ?]]; [|by right].
  left. left. simpl in Hid. rewrite Hid. apply list_elem_of_fmap_2. by eapply list_elem_of_lookup_2.
Qed.

Lemma slots_ids receipts id evs eid :
  existsb (λ s : Slot, bool_decide (event_id s.1 = eid)) (slots_of receipts id evs) = bool_decide (eid ∈ map event_id evs).
Proof.
  apply eq_iff_eq_true. rewrite bool_decide_eq_true existsb_exists -{2}(slots_events receipts id evs). split.
  - intros (s & Hs & <-%bool_decide_eq_true). apply list_elem_of_fmap_2, list_elem_of_fmap_2. by apply list_elem_of_In.
  - intros (e & -> & (s & -> & Hs)%list_elem_of_fmap)%list_elem_of_fmap. exists s.
    split; [by apply list_elem_of_In|by apply bool_decide_eq_true].
Qed.

Lemma commit_with_receipts_inv mint event now now_ms db r db' :
  minter_signs mint → mem_inv db → commit_with_receipts mint event now now_ms db = (r, db') → mem_inv db'.
Proof.
  intros Hm Hinv. unfold commit_with_receipts. pose proof (inner_get_view (event_ctx_id event) now (mem_inner db)) as Hget.
  destruct (inner_view (mem_inner db) !! event_ctx_id event) as [[b evs]|] eqn:Hctx;
    [|rewrite Hget; intros Hd; by eapply delegate_inv].
  destruct Hget as (c & -> & Hb & Hevs & Hid & _). unfold slots. rewrite Hb Hid Hevs slots_ids.
  case_bool_decide as Hold.
  { destruct (delegate_event event now db) as [o db1] eqn:Hd. intros [= _ <-]. by eapply delegate_inv. }
  destruct (plan_event_receipts _ _ _ _ _ _) as [plan|] eqn:Hplan; [|by intros [= _ <-]]. cbn [and_then].
  destruct (receipt_value (plan_new plan)) as [v|]; [|by intros [= _ <-]]. cbn [and_then].
  destruct (lifecycle_append event b (Some v)) as [row|]; [|by intros [= _ <-]]. cbn [and_then].
  destruct (inner_commit_event event now (mem_inner db)) as [o i'] eqn:Hc. apply inner_event in Hc. destruct db as [p i st]. simpl in *.
  destruct o as [[c'|c']|]; [|intros [= _ <-]; by eapply mem_inv_view..]. intros [= _ <-].
  destruct Hc as (b' & evs' & Hctx' & Hnew & Hview & _). rewrite Hctx in Hctx'. injection Hctx' as <- <-.
  pose proof Hinv as [Hs Hr _ _ _]. simpl in *. destruct (Hs _ _ _ Hctx) as (Hok & Hhole & Hnd).
  destruct (slots_planned mint _ _ _ _ _ _ _ Hm Hnd Hnew Hplan) as (Hslots & Hnewid & Hfits).
  destruct (slot_step_invariant mint _ _ Hm _ _ (conj Hok Hhole) (step_minted mint _ _ _ _ _ _ Hplan)) as [Hok' Hhole'].
  rewrite -Hslots in Hok', Hhole'.
  eapply (mem_inv_event p i i' st _ _ (event_ctx_id event) b evs event Hinv Hctx Hnew Hview); [|exact Hok'|exact Hhole'|].
  - intros id Hne. by rewrite lookup_insert_ne.
  - intros stored eid rc. rewrite lookup_insert_eq. intros [= <-] Hrc.
    destruct (insert_plan_keys _ evs event _ _ _ Hfits Hnewid Hrc) as [?|Hin]; [done|].
    destruct (ms_receipts st !! event_ctx_id event) as [m|] eqn:Hstored; [|by rewrite lookup_empty in Hin].
    destruct (Hr _ _ _ _ Hstored Hin) as (b' & evs' & Hv & Hmem). rewrite Hctx in Hv. injection Hv as <- <-.
    rewrite map_app elem_of_app. by left.
Qed.
(** *** Publishing *)

(** What is decided of the request is what the published body has. *)
Lemma request_row req authority now c l t :
  match index_row_for_request req authority now with
  | Ok None => index_row_for (from_publish_request req c l authority t) authority = Ok None
  | Ok (Some row0) => ∃ row, index_row_for (from_publish_request req c l authority t) authority = Ok (Some row) ∧
      ir_token_hash row = ir_token_hash row0
  | Err _ => is_ok (index_row_for (from_publish_request req c l authority t) authority) = false
  end.
Proof.
  unfold index_row_for_request, index_row_for. rewrite !built_context_type !built_agent_id.
  destruct (is_minted_attestation _ _ _); [|done]. cbn [negb].
  rewrite (attestation_of_request req c l authority t (PLACEHOLDER_ID authority) (PLACEHOLDER_ID authority) now).
  destruct (attestation_from_body _) as [att|e]; [|done]. cbn. by eexists.
Qed.

(** The signer of a stored body, by the index. *)
Definition signer_of (st : MemState) (b : Body) : result KeylessSigner AcdpError :=
  let? att := predecessor_attestation b in
  predecessor_signer att (att ≫= λ a, ms_attestations st !! a).

(** What a keyless publish at [t] rests on. *)
Definition attested (db : MemDb) (req : PublishRequest) (att : string) (t : Z) : Prop :=
  ∃ row b evs, ms_attestations (mem_state db) !! att = Some row ∧ inner_view (mem_inner db) !! att = Some (b, evs) ∧
    retraction_state evs = false ∧ ir_controller row = req_agent_id req ∧ ir_key_id row = sig_key_id (req_signature req) ∧
    ir_algorithm row = sig_algorithm (req_signature req) ∧ window_contains row t = true ∧
    ∀ prev, req_supersedes req = Some prev → ∃ pb pevs s, inner_view (mem_inner db) !! prev = Some (pb, pevs) ∧
      signer_of (mem_state db) pb = Ok s ∧ may_supersede s (signer row) = Ok tt.

Lemma index_ids db id row : mem_inv db → ms_attestations (mem_state db) !! id = Some row → ir_ctx_id row = id.
Proof.
  intros Hinv Hrow. destruct (mi_rows _ Hinv _ _ Hrow) as (_ & b & evs & authority & Hview & Hidx).
  apply index_row_for_ok in Hidx as (-> & _). pose proof (inner_get_view id 0 (mem_inner db)) as Hg. rewrite Hview in Hg.
  by destruct Hg as (c & _ & _ & _ & Hid & _).
Qed.

(** The closures check the attestation as the index has it. *)
Lemma closures_attest db req att authority used found row mint b rc now :
  mem_inv db → keyless_successor req = Some att →
  successor_snapshot (mem_state db) att now (mem_inner db) = Ok found →
  (∀ prev, req_supersedes req = Some prev → predecessor_snapshot (mem_state db) prev now (mem_inner db) = Ok row) →
  keyless_minter req authority found used mint b = Ok rc →
  (∀ prev, req_supersedes req = Some prev → ∃ pb pevs, inner_view (mem_inner db) !! prev = Some (pb, pevs) ∧
     ∃ admission, keyless_admission req found row admission pb = Ok tt) →
  attested db req att (body_created_at b).
Proof.
  intros Hinv Hk Hsnap Hprow Hmint Hadm. unfold keyless_minter in Hmint. rewrite Hk in Hmint.
  destruct (admit_successor req att found) as [f|] eqn:Hf; [|done]. cbn [and_then] in Hmint.
  destruct (check_window f (body_created_at b)) as [[]|] eqn:Hw; [|done]. unfold check_window in Hw.
  destruct (window_contains _ _) eqn:Hwin; [|done].
  destruct (admit_successor_ok _ _ _ _ Hf) as (-> & Hwd & Hag & Hkid & Halg & _).
  unfold successor_snapshot in Hsnap. destruct (ms_attestations (mem_state db) !! att) as [r|] eqn:Hr; [|done].
  destruct (mi_rows _ Hinv _ _ Hr) as (_ & ab & aevs & a' & Hview & _).
  pose proof (inner_get_view att now (mem_inner db)) as Hg. rewrite Hview in Hg. destruct Hg as (c & Hget & _ & _ & _ & Hret).
  rewrite Hget in Hsnap. injection Hsnap as <-. cbn [sa_row sa_withdrawn] in *. apply bool_decide_eq_false in Hwd.
  exists r, ab, aevs. do 2 (split; [done|]). split. { destruct (retraction_state aevs); [|done]. by destruct Hwd; apply Hret. }
  do 4 (split; [done|]). intros prev Hprev. destruct (Hadm prev Hprev) as (pb & pevs & Hpv & admission & Had).
  exists pb, pevs. unfold keyless_admission in Had. rewrite Hk Hf in Had. cbn [and_then] in Had. unfold signer_of.
  destruct (predecessor_attestation pb) as [patt|] eqn:Hpa; [|done]. cbn [and_then] in Had |- *.
  specialize (Hprow prev Hprev). unfold predecessor_snapshot in Hprow. pose proof (inner_get_view prev now (mem_inner db)) as Hgp.
  rewrite Hpv in Hgp. destruct Hgp as (pc & Hgp & Hpb & _). rewrite Hgp in Hprow. injection Hprow as <-. cbn in Had. rewrite Hpb Hpa in Had.
  assert ((match patt with Some att0 => ms_attestations (mem_state db) !! att0 | None => None end
           ≫= λ r0, if bool_decide (patt = Some (ir_ctx_id r0)) then Some r0 else None) =
          (patt ≫= λ a, ms_attestations (mem_state db) !! a)) as Heq.
  { destruct patt as [a|]; [|done]. simpl. destruct (ms_attestations (mem_state db) !! a) as [r0|] eqn:Hr0; [|done]. simpl.
    by rewrite (index_ids db a r0 Hinv Hr0) bool_decide_true. }
  rewrite Heq in Had. destruct (predecessor_signer _ _) as [s|]; [|done]. cbn [and_then] in Had. exists s. split; [done|]. split; [done|].
  unfold check_supersession in Had. cbn [sa_row] in Had. destruct (may_supersede s (signer r)) as [[]|]; [done|]. done.
Qed.
Lemma push_rows_nil now_ms st : push_rows now_ms [] st = st.
Proof. by destruct st as [? [] ? ?]. Qed.

(** The predecessor a request names. *)
Definition predecessor_in (view : gmap string (Body * list LifecycleEvent)) (supersedes : option string) : option Predecessor :=
  supersedes ≫= λ prev, (λ c : Body * list LifecycleEvent, mkPredecessor prev (body_agent_id c.1)) <$> view !! prev.

Lemma predecessor_of_view supersedes now i :
  predecessor_of supersedes now i = Ok (predecessor_in (inner_view i) supersedes).
Proof.
  unfold predecessor_of, predecessor_in. destruct supersedes as [prev|]; [|done]. simpl.
  pose proof (inner_get_view prev now i) as Hg. destruct (inner_view i !! prev) as [[b evs]|]; [|by rewrite Hg].
  by destruct Hg as (c & -> & <- & _).
Qed.

(** The effect of an inserted publish on the side tables. *)
Definition recorded (r : result PublishCommitOutcome AcdpError) (resp : PublishResponse) (b : Body)
    (row : option KeyAttestationIndexRow) (pred : option Predecessor) (now_ms : Z) (st st' : MemState) : Prop :=
  let st := match row with Some row => index_attested row st | None => st end in
  match r with
  | Ok o => o = Inserted resp ∧ ∃ rows, feed_appends_for_publish b (resp_registry_receipt resp) pred = Ok rows ∧
      st' = push_rows now_ms rows st
  | Err e => feed_appends_for_publish b (resp_registry_receipt resp) pred = Err e ∧ st' = st
  end.

Lemma record_published_effect req authority is_mint resp now now_ms i st r st' b evs row :
  inner_view i !! resp_ctx_id resp = Some (b, evs) → index_row_for b authority = Ok row →
  (is_mint = false → row = None) →
  record_published req authority is_mint resp now now_ms i st = (r, st') →
  recorded (let? _ := r in Ok (Inserted resp)) resp b row (predecessor_in (inner_view i) (req_supersedes req)) now_ms st st'.
Proof.
  intros Hview Hrow Hmint. unfold record_published, recorded. pose proof (inner_get_view (resp_ctx_id resp) now i) as Hg.
  rewrite Hview in Hg. destruct Hg as (c & Hget & Hb & _). rewrite Hget Hb Hrow predecessor_of_view. cbn [and_then].
  destruct (resp_registry_receipt resp) as [rc|] eqn:Hrc; cbn [is_some orb negb].
  - destruct (feed_appends_for_publish b (Some rc) _) as [rows|e] eqn:Hf; intros [= <- <-]; cbn; [|done]. by eauto.
  - destruct is_mint; intros [= <- <-]; cbn; (split; [done|]); exists []; (split; [done|]); rewrite push_rows_nil; [done|].
    by rewrite (Hmint eq_refl).
Qed.

Definition inserted (commit : PublishCommit) (r : result PublishCommitOutcome AcdpError) (now_ms : Z) (db db' : MemDb) : Prop :=
  ∃ resp l row,
    let t := resp_created_at resp in
    let b := from_publish_request (pc_req commit) (resp_ctx_id resp) l (pc_authority commit) t in
    inner_view (mem_inner db) !! resp_ctx_id resp = None ∧
    inner_view (mem_inner db') = <[resp_ctx_id resp := (b, [])]> (inner_view (mem_inner db)) ∧
    index_row_for b (pc_authority commit) = Ok row ∧
    (∀ k, row = Some k → ir_token_hash k ∉ ms_tokens (mem_state db)) ∧
    (∀ att, keyless_successor (pc_req commit) = Some att → attested db (pc_req commit) att t) ∧
    recorded r resp b row (predecessor_in (inner_view (mem_inner db)) (req_supersedes (pc_req commit))) now_ms
      (mem_state db) (mem_state db').

(** A token that was used before is refused by the minter, or before the commit. *)
Lemma used_refused req authority now st found mint b c l t rc row :
  b = from_publish_request req c l authority t →
  index_row_for b authority = Ok (Some row) → ir_token_hash row ∈ ms_tokens st →
  keyless_minter req authority found
    (match index_row_for_request req authority now with
     | Ok (Some k) => if bool_decide (ir_token_hash k ∈ ms_tokens st) then Some (ir_token_hash k) else None
     | _ => None
     end) mint b = Ok rc → False.
Proof.
  intros -> Hrow Htok. unfold keyless_minter. pose proof (request_row req authority now c l t) as Hreq.
  destruct (match keyless_successor req with Some _ => _ | None => _ end) as [[]|]; [|done]. cbn [and_then]. rewrite Hrow. cbn [and_then].
  destruct (index_row_for_request req authority now) as [[k|]|]; [|congruence|by rewrite Hrow in Hreq].
  destruct Hreq as (row' & Hrow' & Heq). rewrite Hrow in Hrow'. injection Hrow' as <-. by rewrite -Heq bool_decide_true.
Qed.
Lemma predecessor_kept view id c supersedes :
  view !! id = None → (∀ prev, supersedes = Some prev → is_Some (view !! prev)) →
  predecessor_in (<[id := c]> view) supersedes = predecessor_in view supersedes.
Proof.
  intros Hnew Hprev. destruct supersedes as [prev|]; [|done]. unfold predecessor_in. simpl.
  rewrite lookup_insert_ne; [done|]. intros ->. destruct (Hprev prev eq_refl). congruence.
Qed.

(** What the SDK's store was given to call, and what it called it with. *)
Definition wrapped_minter (commit : PublishCommit) (is_mint : bool) (found : option SuccessorAttestation) (used : option string) :=
  match pc_receipt_minter commit with
  | Some m => if is_some (keyless_successor (pc_req commit)) || is_mint
              then Some (keyless_minter (pc_req commit) (pc_authority commit) found used m) else Some m
  | None => None
  end.

Lemma inserted_row commit now st found b c l t :
  let req := pc_req commit in
  let mint := index_row_for_request req (pc_authority commit) now in
  let is_mint := match mint with Ok None => false | _ => true end in
  let used := match mint with
              | Ok (Some k) => if bool_decide (ir_token_hash k ∈ ms_tokens st) then Some (ir_token_hash k) else None
              | _ => None
              end in
  b = from_publish_request req c l (pc_authority commit) t →
  match pc_receipt_minter commit with None => decide_without_minter req mint used = Ok tt | Some _ => True end →
  (∀ m, wrapped_minter commit is_mint found used = Some m → ∃ rc, m b = Ok rc) →
  ∃ row, index_row_for b (pc_authority commit) = Ok row ∧ (is_mint = false → row = None) ∧
    ∀ k, row = Some k → ir_token_hash k ∉ ms_tokens st.
Proof.
  intros req mint is_mint used Hb Hdec Hmint. pose proof (request_row req (pc_authority commit) now c l t) as Hreq. rewrite -Hb in Hreq.
  assert (∀ m rc row, index_row_for b (pc_authority commit) = Ok (Some row) → ir_token_hash row ∈ ms_tokens st →
            keyless_minter req (pc_authority commit) found used m b = Ok rc → False) as Hused.
  { intros m rc row Hrow Htok Hrc. exact (used_refused req (pc_authority commit) now st found m b c l t rc row Hb Hrow Htok Hrc). }
  fold mint in Hreq. unfold wrapped_minter in Hmint. destruct (pc_receipt_minter commit) as [m|].
  - destruct mint as [[k|]|e].
    + destruct Hreq as (row & Hrow & Heq). exists (Some row). split; [done|]. split; [done|]. intros k' [= <-] Htok.
      rewrite orb_true_r in Hmint. destruct (Hmint _ eq_refl) as (rc & Hrc). exact (Hused m rc row Hrow Htok Hrc).
    + exists None. by split_and!.
    + rewrite orb_true_r in Hmint. destruct (Hmint _ eq_refl) as (rc & Hrc). unfold keyless_minter in Hrc.
      destruct (match keyless_successor _ with Some _ => _ | None => _ end) as [[]|]; [|done]. cbn [and_then] in Hrc.
      destruct (index_row_for b (pc_authority commit)); done.
  - unfold decide_without_minter in Hdec. destruct (is_some (keyless_successor req)); [done|].
    destruct mint as [[k|]|e]; [|exists None; by split_and!|done]. destruct Hreq as (row & Hrow & Heq). exists (Some row).
    split; [done|]. split; [done|]. intros k' [= <-] Htok. rewrite Heq in Htok. unfold used in Hdec. by rewrite bool_decide_true in Hdec.
Qed.

Lemma mem_publish_cases commit now draw now_ms db r db' :
  mem_inv db → mem_commit_publish commit now draw now_ms db = (r, db') →
  (inner_view (mem_inner db') = inner_view (mem_inner db) ∧ mem_state db' = mem_state db ∧ ∀ resp, r ≠ Ok (Inserted resp)) ∨
  inserted commit r now_ms db db'.
Proof.
  intros Hinv. unfold mem_commit_publish. destruct (mem_poisoned db); [intros [= <- <-]; by left|].
  set (req := pc_req commit). set (authority := pc_authority commit). set (mint := index_row_for_request req authority now).
  set (is_mint := match mint with Ok None => false | _ => true end).
  set (used := match mint with Ok (Some k) => if bool_decide (ir_token_hash k ∈ ms_tokens (mem_state db)) then Some (ir_token_hash k) else None | _ => None end).
  destruct (match keyless_successor req with Some att => successor_snapshot _ att now _ | None => Ok None end) as [found|e] eqn:Hfound;
    [|intros [= <- <-]; by left]. cbn [and_then].
  destruct (match keyless_successor req, req_supersedes req with
            | Some _, Some prev => predecessor_snapshot (mem_state db) prev now (mem_inner db)
            | _, _ => Ok None
            end) as [row|e] eqn:Hprow;
    [|intros [= <- <-]; by left]. cbn [and_then].
  destruct (match pc_receipt_minter commit with Some _ => Ok tt | None => decide_without_minter req mint used end) as [[]|e] eqn:Hdec;
    [|intros [= <- <-]; by left]. cbn [and_then].
  destruct (inner_commit_publish _ _ _ _) as [o i'] eqn:Hc. apply inner_publish in Hc. cbn in Hc.
  destruct o as [[resp|resp]|e]; [|intros [= <- <-]; by left..].
  destruct Hc as (l & t & Hnew & Hview & <- & Hm & Hprev). fold req authority in Hnew, Hview, Hm, Hprev |- *.
  set (b := from_publish_request req (resp_ctx_id resp) l authority (resp_created_at resp)) in *.
  assert (match wrapped_minter commit is_mint found used with
          | Some m => ∃ rc, m b = Ok rc ∧ resp_registry_receipt resp = Some rc
          | None => resp_registry_receipt resp = None
          end) as Hw by exact Hm. clear Hm.
  destruct (inserted_row commit now (mem_state db) found b (resp_ctx_id resp) l (resp_created_at resp)) as (krow & Hkrow & Hnot & Htok);
    [done|by destruct (pc_receipt_minter commit)| |].
  { intros m Hwm. change (wrapped_minter commit is_mint found used = Some m) in Hwm. rewrite Hwm in Hw. destruct Hw as (rc & Hrc & _). by exists rc. }
  fold req authority mint is_mint in Hnot, Hkrow.
  destruct (record_published req authority is_mint resp now now_ms i' (mem_state db)) as [rr st'] eqn:Hrec. intros [= <- <-]. right.
  eapply (record_published_effect _ _ _ _ _ _ _ _ _ _ b []) in Hrec; [|by rewrite Hview lookup_insert_eq|exact Hkrow|exact Hnot].
  rewrite Hview predecessor_kept // in Hrec; [|intros prev Hp; destruct (Hprev prev Hp) as (pb & evs & -> & _); by eexists].
  exists resp, l, krow. cbn. do 4 (split; [done|]). split; [|done].
  intros att Hatt. fold req. unfold wrapped_minter in Hw. fold req in Hw. fold req in Hatt. rewrite Hatt in Hfound, Hprow, Hprev, Hw.
  destruct (pc_receipt_minter commit) as [m|] eqn:Hpm.
  2:{ unfold decide_without_minter in Hdec. fold req in Hdec. by rewrite Hatt in Hdec. }
  cbn [is_some orb] in Hw. destruct Hw as (rc & Hrc & _).
  rewrite -(built_created_at req (resp_ctx_id resp) l authority (resp_created_at resp)). fold b.
  eapply (closures_attest db req att authority used found row m b rc now Hinv Hatt Hfound); [|exact Hrc|].
  - intros prev Hp. fold req in Hp. by rewrite Hp in Hprow.
  - intros prev Hp. destruct (Hprev prev Hp) as (pb & evs & Hpv & Hadm). exists pb, evs. split; [done|]. eexists. apply Hadm.
    fold req in Hp. by rewrite Hp.
Qed.
(** A new context, and perhaps its index row. *)
Lemma mem_inv_publish p p' i i' st st' feed id b row authority :
  mem_inv (mkMemDb p i st) → inner_view i !! id = None → inner_view i' = <[id := (b, [])]> (inner_view i) →
  body_ctx_id b = id → index_row_for b authority = Ok row → (∀ k, row = Some k → ir_token_hash k ∉ ms_tokens st) →
  st' = (match row with Some k => index_attested k st | None => st end) →
  mem_inv (mkMemDb p' i' (mkMemState (ms_receipts st') feed (ms_attestations st') (ms_tokens st'))).
Proof.
  intros [Hs Hr Ha Ht Ho] Hnew Hview Hid Hrow Htok Hst. simpl in *.
  assert (ms_receipts st' = ms_receipts st) as Hrec by (rewrite Hst; by destruct row).
  assert (∀ k c, inner_view i !! k = Some c → inner_view i' !! k = Some c) as Hkeep.
  { intros k c Hk. rewrite Hview lookup_insert_ne; [done|]. intros ->. congruence. }
  assert (∀ j k, ms_attestations st' !! j = Some k → ms_attestations st !! j = Some k ∨ (row = Some k ∧ j = id)) as Hatt.
  { intros j k. rewrite Hst. destruct row as [k'|]; [|by left]. simpl. apply index_row_for_ok in Hrow as (Hk' & _).
    rewrite lookup_insert_Some. intros [[<- <-]|[_ ?]]; [right|by left]. split; [done|]. by rewrite Hk' Hid. }
  assert (∀ t, t ∈ ms_tokens st → t ∈ ms_tokens st') as Htokens by (rewrite Hst; destruct row; simpl; set_solver).
  split; simpl; rewrite ?Hrec.
  - intros j b' evs. rewrite Hview. destruct (decide (j = id)) as [->|Hne]; [|rewrite lookup_insert_ne; [by apply Hs|done]].
    rewrite lookup_insert_eq. intros [= <- <-]. simpl. split; [split; [done|constructor|constructor]|]. by split; [|constructor].
  - intros j stored eid rc Hj Hrc. destruct (Hr _ _ _ _ Hj Hrc) as (b' & evs & Hv & Hin). exists b', evs. split; [by apply Hkeep|done].
  - intros j k Hj. destruct (Hatt j k Hj) as [Hold|[-> ->]].
    + destruct (Ha j k Hold) as (Hk & b' & evs & a & Hv & Hi). split; [by apply Htokens|]. exists b', evs, a. split; [by apply Hkeep|done].
    + split; [rewrite Hst; simpl; set_solver|]. exists b, [], authority. by rewrite Hview lookup_insert_eq.
  - intros t Hin. rewrite Hst in Hin |- *. destruct row as [k|]; [|by apply Ht]. simpl in *.
    apply index_row_for_ok in Hrow as (Hk & _). apply elem_of_union in Hin as [->%elem_of_singleton|Hin].
    + exists (ir_ctx_id k), k. by rewrite lookup_insert_eq.
    + destruct (Ht t Hin) as (j & k' & Hj & Hk'). exists j, k'. split; [|done]. rewrite lookup_insert_ne; [done|].
      intros <-. destruct (Ha _ _ Hj) as (_ & b' & evs & a & Hv & _). rewrite Hk Hid in Hv. congruence.
  - intros j j' k k' Hj Hj' Heq. destruct (Hatt j k Hj) as [Hold|[Hk ->]], (Hatt j' k' Hj') as [Hold'|[Hk' ->]]; [by eapply Ho| | |done].
    + destruct (Ha j k Hold) as (Hin & _). rewrite Heq in Hin. by destruct (Htok k' Hk').
    + destruct (Ha j' k' Hold') as (Hin & _). rewrite -Heq in Hin. by destruct (Htok k Hk).
Qed.

Lemma inserted_inv commit r now_ms db db' : mem_inv db → inserted commit r now_ms db db' → mem_inv db'.
Proof.
  intros Hinv (resp & l & row & Hnew & Hview & Hrow & Htok & _ & Hrec). cbn in *. destruct db as [p i st], db' as [p' i' st'].
  cbn in *. set (st1 := match row with Some k => index_attested k st | None => st end) in *.
  assert (∃ feed, st' = mkMemState (ms_receipts st1) feed (ms_attestations st1) (ms_tokens st1)) as (feed & ->).
  { unfold recorded in Hrec. fold st1 in Hrec. destruct r as [o|e].
    - destruct Hrec as (_ & rows & _ & ->). by eexists.
    - destruct Hrec as [_ ->]. exists (ms_feed st1). by destruct st1. }
  eapply mem_inv_publish; [exact Hinv|exact Hnew|exact Hview|by rewrite built_ctx_id|exact Hrow|exact Htok|done].
Qed.

(** ** Runs *)

Definition mem_empty (i : I) : MemDb := mkMemDb false i (mkMemState ∅ (mkFeed [] 0 0 None) ∅ ∅).

(** What the server does to the store, and clones of it with and without a minter. *)
Inductive mem_step : MemDb → MemDb → Prop :=
  | step_publish commit now draw now_ms db r db' :
      mem_commit_publish commit now draw now_ms db = (r, db') → mem_step db db'
  | step_event mint event now now_ms db r db' :
      (∀ m, mint = Some m → minter_signs m) →
      mem_commit_lifecycle_event mint event now now_ms db = (r, db') → mem_step db db'
  | step_prune_feed cut batch p i st r f :
      mem_prune_changes (mkMemoryFeed p (ms_feed st)) cut batch = (r, f) →
      mem_step (mkMemDb p i st)
        (mkMemDb p i (mkMemState (ms_receipts st) (feed f) (ms_attestations st) (ms_tokens st)))
  | step_record agent key hash resp expires p i st :
      mem_step (mkMemDb p i st) (mkMemDb p (inner_idempotency_record agent key hash resp expires i).2 st)
  | step_evict_keys now p i st : mem_step (mkMemDb p i st) (mkMemDb p (inner_idempotency_evict now i).2 st)
  | step_poison i st : mem_step (mkMemDb false i st) (mkMemDb true i st).

Lemma mem_step_inv db db' : mem_inv db → mem_step db db' → mem_inv db'.
Proof.
  intros Hinv Hstep. destruct Hstep as [commit now draw now_ms db r db' Hp|mint event now now_ms db r db' Hm He|cut batch p i st r f _|
    agent key hash resp expires p i st|now p i st|i st].
  - destruct (mem_publish_cases _ _ _ _ _ _ _ Hinv Hp) as [(Hv & Hst & _)|Hins]; [|by eapply inserted_inv].
    destruct db as [p i st], db' as [p' i' st']. cbn in *. subst st'.
    pose proof (mem_inv_same p p' i i' st (ms_feed st) Hv Hinv) as Hsame. by destruct st.
  - unfold mem_commit_lifecycle_event in He. destruct (mem_poisoned db); [by injection He as _ <-|].
    destruct mint as [m|]; [|by eapply delegate_inv]. by eapply commit_with_receipts_inv; [apply Hm|..].
  - by apply (mem_inv_same p p i i).
  - exact (mem_inv_view p i _ st (inner_record _ _ _ _ _ _) Hinv).
  - exact (mem_inv_view p i _ st (inner_evict _ _) Hinv).
  - pose proof (mem_inv_same false true i i st (ms_feed st) eq_refl Hinv) as Hsame. by destruct st.
Qed.

Definition mem_reachable (db : MemDb) : Prop :=
  ∃ i, inner_view i = ∅ ∧ rtc_steps mem_step (mem_empty i) db.

Lemma mem_reachable_inv db : mem_reachable db → mem_inv db.
Proof.
  intros (i & Hi & Hrun). apply (rtc_steps_invariant mem_step mem_inv (λ s s' Hs Hst, mem_step_inv s s' Hs Hst) _ _ Hrun).
  split; simpl; rewrite ?Hi; intros; set_solver.
Qed.

(** C14: The in-memory store keeps its side tables in step with the contexts of the SDK's
    store. In every state a server can bring it to, with clones that mint event receipts
    and clones that do not: the receipt beside an event is for that event, context and
    position, receipts never run backwards or precede the context and leave no gap before
    one; an index row is a published attestation's, and each token has minted one. And a
    publish, however its keyless checks are threaded through the SDK's commit, either
    leaves contexts and side tables as they were, or inserts one new context: then a
    keyless one rests on an attestation in the index that is not retracted, is for its
    agent, key and algorithm, contains its instant and may supersede its predecessor's
    signer; a token it mints with was not used before; and exactly its index row and its
    feed rows are added (the feed rows are missing only when they could not be derived,
    which the answer then says). *)
Theorem memory_tables_keep_step (db : MemDb) :
  mem_reachable db →
  mem_inv db ∧
  ∀ commit now draw now_ms r db', mem_commit_publish commit now draw now_ms db = (r, db') →
    (inner_view (mem_inner db') = inner_view (mem_inner db) ∧ mem_state db' = mem_state db ∧
       ∀ resp, r ≠ Ok (Inserted resp)) ∨
    inserted commit r now_ms db db'.
Proof.
  intros Hreach%mem_reachable_inv. split; [done|]. intros commit now draw now_ms r db'. by apply mem_publish_cases.
Qed.
End laws.

(** ** A concrete store *)

Module MemoryExample.
Import EventExample CursorExample StoreExample.StoreExample.

(** What was published under an id, and its events. *)
Record Kept : Type := mkKept {
  kept_req : PublishRequest;
  kept_authority : string;
  kept_at : Z;
  kept_events : list Ev
}.

Definition kept_body (id : string) (k : Kept) : Body :=
  from_publish_request (kept_req k) id ("lin:" +:+ id) (kept_authority k) (kept_at k).

Definition kept_context (id : string) (k : Kept) : FullContext :=
  mkFullContext (kept_body id k)
    (mkState (if retraction_state (kept_events k) then Retracted else Active)
       (match kept_events k with [] => None | l => Some l end) None) None.

Definition admitted (commit : PublishCommit) (i : gmap string Kept) : result unit AcdpError :=
  match req_supersedes (pc_req commit) with
  | None => Ok tt
  | Some prev =>
      let? k := ok_or (i !! prev) (SchemaViolation "no predecessor") in
      match pc_predecessor_admission commit with Some adm => adm (kept_body prev k) | None => Ok tt end
  end.

Definition ledger_publish_inner (commit : PublishCommit) (now draw : Z) (i : gmap string Kept) :
    result PublishCommitOutcome AcdpError * gmap string Kept :=
  let id := "ctx" +:+ tree_text (leaf_z draw) in
  let k := mkKept (pc_req commit) (pc_authority commit) now [] in
  match (let? _ := match i !! id with Some _ => Err (SchemaViolation "taken") | None => Ok tt end in
         let? _ := admitted commit i in
         match pc_receipt_minter commit with
         | Some m => let? rc := m (kept_body id k) in Ok (Some rc)
         | None => Ok None
         end) with
  | Ok rc => (Ok (Inserted (mkResponse id ("lin:" +:+ id) (req_version (pc_req commit)) now Active rc)), <[id := k]> i)
  | Err e => (Err e, i)
  end.

Definition ledger_event_inner (e : Ev) (now : Z) (i : gmap string Kept) :
    result LifecycleCommitOutcome AcdpError * gmap string Kept :=
  match i !! event_ctx_id e with
  | None => (Err (SchemaViolation "no context"), i)
  | Some k =>
      if bool_decide (event_id e ∈ map event_id (kept_events k)) then (Ok (LcReplay (kept_context (event_ctx_id e) k)), i)
      else
        let k := mkKept (kept_req k) (kept_authority k) (kept_at k) (kept_events k ++ [e]) in
        (Ok (LcApplied (kept_context (event_ctx_id e) k)), <[event_ctx_id e := k]> i)
  end.

#[export] Instance ledger_inner : InMemoryStore (gmap string Kept) := {|
  inner_get id now i := Ok (kept_context id <$> i !! id);
  inner_lineage l now i := Ok [];
  inner_current l now i := Ok None;
  inner_first_version l i := Ok None;
  inner_idempotency_lookup a k i := Ok None;
  inner_commit_publish := ledger_publish_inner;
  inner_commit_event := ledger_event_inner;
  inner_idempotency_record a k h r t i := (Ok tt, i);
  inner_idempotency_evict now i := (Ok tt, i)
|}.

Definition kept_view (i : gmap string Kept) : gmap string (Body * list LifecycleEvent) :=
  map_imap (λ id k, Some (kept_body id k, kept_events k)) i.

Lemma kept_view_lookup i id : kept_view i !! id = (λ k, (kept_body id k, kept_events k)) <$> i !! id.
Proof. unfold kept_view. rewrite map_lookup_imap. by destruct (i !! id). Qed.

Lemma kept_view_insert i id k : kept_view (<[id := k]> i) = <[id := (kept_body id k, kept_events k)]> (kept_view i).
Proof.
  apply map_eq. intros j. rewrite kept_view_lookup. destruct (decide (j = id)) as [->|Hne].
  - by rewrite !lookup_insert_eq.
  - by rewrite !lookup_insert_ne // kept_view_lookup.
Qed.

Lemma kept_events_of id k : events_of (kept_context id k) = kept_events k.
Proof. unfold events_of, kept_context. simpl. by destruct (kept_events k). Qed.

Lemma ledger_publish_spec commit now draw i r i' :
  ledger_publish_inner commit now draw i = (r, i') →
  match r with
  | Ok (Inserted resp) =>
      ∃ l t, let b := from_publish_request (pc_req commit) (resp_ctx_id resp) l (pc_authority commit) t in
      kept_view i !! resp_ctx_id resp = None ∧
      kept_view i' = <[resp_ctx_id resp := (b, [])]> (kept_view i) ∧ resp_created_at resp = t ∧
      (match pc_receipt_minter commit with
       | Some m => ∃ rc, m b = Ok rc ∧ resp_registry_receipt resp = Some rc
       | None => resp_registry_receipt resp = None
       end) ∧
      ∀ prev, req_supersedes (pc_req commit) = Some prev →
        ∃ pb evs, kept_view i !! prev = Some (pb, evs) ∧
          ∀ adm, pc_predecessor_admission commit = Some adm → adm pb = Ok tt
  | _ => kept_view i' = kept_view i
  end.
Proof.
  unfold ledger_publish_inner. set (id := "ctx" +:+ tree_text (leaf_z draw)). set (k := mkKept _ _ _ _).
  destruct (i !! id) as [?|] eqn:Hid; [by intros [= <- <-]|]. cbn [and_then].
  destruct (admitted commit i) as [[]|] eqn:Hadm; [|by intros [= <- <-]]. cbn [and_then].
  assert (∀ prev, req_supersedes (pc_req commit) = Some prev → ∃ pb evs, kept_view i !! prev = Some (pb, evs) ∧
            ∀ adm, pc_predecessor_admission commit = Some adm → adm pb = Ok tt) as Hprev.
  { intros prev Hp. unfold admitted in Hadm. rewrite Hp in Hadm. rewrite kept_view_lookup.
    destruct (i !! prev) as [pk|]; [|done]. simpl in *. do 2 eexists. split; [done|]. intros adm Ha. by rewrite Ha in Hadm. }
  destruct (match pc_receipt_minter commit with Some _ => _ | None => _ end) as [rc|] eqn:Hm; [|by intros [= <- <-]].
  intros [= <- <-]. exists ("lin:" +:+ id), now. rewrite kept_view_insert kept_view_lookup Hid. do 3 (split; [done|]). split; [|exact Hprev].
  destruct (pc_receipt_minter commit) as [m|]; [|by injection Hm as <-]. destruct (m _) as [v|] eqn:Hv; [|done]. injection Hm as <-.
  by exists v.
Qed.

#[export] Instance ledger_inner_laws : InMemoryStoreLaws.
Proof.
  refine {| inner_view := kept_view |}.
  - intros id now i. rewrite kept_view_lookup. simpl. destruct (i !! id) as [k|]; [|done]. simpl.
    exists (kept_context id k). do 2 (split; [done|]). split; [apply kept_events_of|]. split; [done|]. simpl.
    by case_match.
  - intros commit now draw i r i'. exact (ledger_publish_spec commit now draw i r i').
  - intros e now i r i'. cbn [inner_commit_event ledger_inner]. unfold ledger_event_inner.
    destruct (i !! event_ctx_id e) as [k|] eqn:Hk; [|by intros [= <- <-]]. case_bool_decide as Hin; [by intros [= <- <-]|].
    intros [= <- <-]. exists (kept_body (event_ctx_id e) k), (kept_events k). rewrite kept_view_lookup Hk kept_view_insert.
    do 4 (split; [done|]). apply (kept_events_of (event_ctx_id e) (mkKept _ _ _ _)).
  - done.
  - done.
  - done.
  - done.
Defined.

(** An attestation is minted, its context retracted and republished by clones, and its
    agent publishes with the attested key. *)
Definition mem0 : MemDb := mem_empty (∅ : gmap string Kept).
Definition mem1 : MemDb := (mem_commit_publish (commit_of mint_request None None) 5000000 1 5 mem0).2.
Definition mem2 : MemDb := (mem_commit_lifecycle_event None (mkEv "e1" id1 RetractedEvent) 5000000 5 mem1).2.
Definition mem3 : MemDb := (mem_commit_lifecycle_event (Some ledger_mint) (mkEv "e2" id1 RepublishedEvent) 5500000 5 mem2).2.
Definition keyless_at (db : MemDb) := mem_commit_publish (commit_of keyless_request None None) 6000000 2 6 db.

Lemma mem3_reachable : mem_reachable mem3.
Proof.
  exists ∅. split; [apply map_eq; intros j; exact (kept_view_lookup ∅ j)|].
  apply (rtc_steps_step _ _ mem1); [exact (step_publish _ _ _ _ mem0 _ mem1 (surjective_pairing _))|].
  apply (rtc_steps_step _ _ mem2); [refine (step_event None _ _ _ mem1 _ mem2 _ (surjective_pairing _)); done|].
  apply (rtc_steps_step _ _ mem3); [|apply rtc_steps_refl].
  refine (step_event (Some ledger_mint) _ _ _ mem2 _ mem3 _ (surjective_pairing _)). intros m [= <-]. exact ledger_mint_signs.
Qed.

(** While the attestation is retracted, the publish is refused. *)
Example withdrawn_refused : is_ok (keyless_at mem2).1 = false.
Proof. vm_compute. reflexivity. Qed.

Lemma memory_tables_keep_step_witness :
  is_ok (keyless_at mem3).1 = true ∧
  attested mem3 keyless_request id1 6000000 ∧
  mem_inv mem3.
Proof.
  assert (is_ok (keyless_at mem3).1 = true) as Hok by (vm_compute; reflexivity). split; [exact Hok|].
  destruct (memory_tables_keep_step mem3 mem3_reachable) as [Hinv Hpub]. split; [|exact Hinv].
  destruct (keyless_at mem3) as [r db'] eqn:Hat. simpl in Hok.
  assert (match (keyless_at mem3).1 with Ok (Inserted resp) => resp_created_at resp = 6000000%Z | _ => False end) as Htime
    by (vm_compute; reflexivity). rewrite Hat in Htime. simpl in Htime.
  destruct (Hpub (commit_of keyless_request None None) 6000000%Z 2%Z 6%Z r db' Hat) as [(_ & _ & Hno)|(resp & l & row & _ & _ & _ & _ & Hatt & Hrec)].
  - destruct r as [[resp|resp]|e]; [by destruct (Hno resp)|destruct Htime|destruct Htime].
  - destruct r as [o|e]; [|destruct Htime]. destruct Hrec as [-> _]. rewrite -Htime. apply Hatt. reflexivity.
Defined.
End MemoryExample.
