(* ===== verification/PgTx.v ===== *)
(** * Transactions under READ COMMITTED

    Postgres as the stores use it through [sqlx]: many sessions at once, each running
    a transaction statement by statement at the default isolation level. A statement
    takes a snapshot of what is committed when it starts and may then wait; it acts
    when the rows it locks, and the keys its writes make unique, are held by no other
    session, and sees what is committed by then of the rows it waited for. Its writes
    are its own until the commit; locks are kept until the transaction ends. Every
    statement, every commit and every reply to one may fail, which also covers the
    deadlocks the database breaks. What a session has to wait for is kept to what its
    writes and row locks conflict with, so the model allows at least the
    interleavings the database does.

    The second half is a logic for such programs: [wp] is a rely-guarantee
    precondition, and [commits_are_serial] is what it is for: a transaction that
    commits has done what it would have done alone on the tables it committed to. *)

From S2P Require Import Prelude Errors SqlTx.

Declare Scope pg_scope.
Delimit Scope pg_scope with pg.

Section engine.
Context {Db Lock Write : Type}.
Context (apply : Write → Db → Db) (lock_of : Write → list Lock).

(** What a session sees: a state with its own writes on top. *)
Definition view (ws : list Write) (db : Db) : Db := fold_left (λ d w, apply w d) ws db.

(** A statement: the rows it locks and what it answers and writes, from the views of
    its snapshot and of what is committed when it acts. *)
Record Stmt (A : Type) : Type := mkStmt {
  st_locks : Db → Db → list Lock;
  st_run : Db → Db → result (A * list Write) string
}.
Arguments mkStmt {A}.
Arguments st_locks {A}.
Arguments st_run {A}.

(** A transaction's program. [Exec] is a statement with the caller's [map_err];
    [Peek] one that reads rows nobody locks and whose answer may be out of date by
    the commit. *)
Inductive Prog (A : Type) : Type :=
  | Ret (a : A)
  | Abort (e : AcdpError)
  | Exec {B : Type} (wrap : string → AcdpError) (s : Stmt B) (k : B → Prog A)
  | Peek {B : Type} (wrap : string → AcdpError) (q : Db → B) (k : B → Prog A).
Arguments Ret {A}.
Arguments Abort {A}.
Arguments Exec {A B}.
Arguments Peek {A B}.

Fixpoint pbind {A B} (p : Prog A) (f : A → Prog B) : Prog B :=
  match p with
  | Ret a => f a
  | Abort e => Abort e
  | Exec wrap s k => Exec wrap s (λ b, pbind (k b) f)
  | Peek wrap q k => Peek wrap q (λ b, pbind (k b) f)
  end.

Definition plift {A} (r : result A AcdpError) : Prog A :=
  match r with Ok a => Ret a | Err e => Abort e end.

Definition pexec {A} (wrap : string → AcdpError) (s : Stmt A) : Prog A := Exec wrap s Ret.
Definition ppeek {A} (wrap : string → AcdpError) (q : Db → A) : Prog A := Peek wrap q Ret.

(** ** Sessions *)

(** A session: the program it began with, what is left of it, the writes and locks
    of the transaction, the snapshot of the statement under way, and the states its
    peeks read. *)
Record Session (A : Type) : Type := mkSession {
  ss_origin : Prog (TxEnd Db A);
  ss_prog : Prog (TxEnd Db A);
  ss_writes : list Write;
  ss_locks : list Lock;
  ss_snap : option Db;
  ss_peeks : list Db
}.
Arguments mkSession {A}.
Arguments ss_origin {A}.
Arguments ss_prog {A}.
Arguments ss_writes {A}.
Arguments ss_locks {A}.
Arguments ss_snap {A}.
Arguments ss_peeks {A}.

Record System (A : Type) : Type := mkSystem {
  committed : Db;
  sessions : gmap nat (Session A)
}.
Arguments mkSystem {A}.
Arguments committed {A}.
Arguments sessions {A}.

Section steps.
Context {A : Type} (admitted : Prog (TxEnd Db A) → Prop).

Definition started (p : Prog (TxEnd Db A)) : Session A := mkSession p p [] [] None [].

Definition with_session (i : nat) (s : Session A) (sys : System A) : System A :=
  mkSystem (committed sys) (<[i := s]> (sessions sys)).

Definition without_session (i : nat) (sys : System A) : System A :=
  mkSystem (committed sys) (delete i (sessions sys)).

Definition left_with (p : Prog (TxEnd Db A)) (s : Session A) : Session A :=
  mkSession (ss_origin s) p (ss_writes s) (ss_locks s) None (ss_peeks s).

(** No other session holds one of the locks. *)
Definition free (i : nat) (ls : list Lock) (sys : System A) : Prop :=
  ∀ j s l, j ≠ i → sessions sys !! j = Some s → l ∈ ls → l ∉ ss_locks s.

(** What a step shows of itself: a commit with its program, its peeks and the state
    it left behind, or an answer. *)
Inductive Event : Type :=
  | Silent
  | Committed (i : nat) (origin : Prog (TxEnd Db A)) (peeks : list Db) (a : A)
  | Answered (i : nat) (r : result A AcdpError).

Inductive step (sys : System A) : Event → System A → Prop :=
  | step_begin i p :
      sessions sys !! i = None → admitted p → step sys Silent (with_session i (started p) sys)
  | step_snapshot i s B wrap (st : Stmt B) k :
      sessions sys !! i = Some s → ss_prog s = Exec wrap st k → ss_snap s = None →
      step sys Silent (with_session i
        (mkSession (ss_origin s) (ss_prog s) (ss_writes s) (ss_locks s) (Some (committed sys)) (ss_peeks s)) sys)
  | step_exec i s B wrap (st : Stmt B) k snap b ws :
      sessions sys !! i = Some s → ss_prog s = Exec wrap st k → ss_snap s = Some snap →
      let vs := view (ss_writes s) snap in
      let vc := view (ss_writes s) (committed sys) in
      let need := st_locks st vs vc ++ concat (map lock_of ws) in
      st_run st vs vc = Ok (b, ws) → free i need sys →
      step sys Silent (with_session i
        (mkSession (ss_origin s) (k b) (ss_writes s ++ ws) (ss_locks s ++ need) None (ss_peeks s)) sys)
  | step_refused i s B wrap (st : Stmt B) k snap m :
      sessions sys !! i = Some s → ss_prog s = Exec wrap st k → ss_snap s = Some snap →
      st_run st (view (ss_writes s) snap) (view (ss_writes s) (committed sys)) = Err m →
      step sys Silent (with_session i (left_with (Abort (wrap m)) s) sys)
  | step_peek i s B wrap (q : Db → B) k :
      sessions sys !! i = Some s → ss_prog s = Peek wrap q k →
      step sys Silent (with_session i
        (mkSession (ss_origin s) (k (q (view (ss_writes s) (committed sys)))) (ss_writes s) (ss_locks s) None
           (ss_peeks s ++ [committed sys])) sys)
  | step_fault i s B wrap (st : Stmt B) k m :
      sessions sys !! i = Some s → ss_prog s = Exec wrap st k →
      step sys Silent (with_session i (left_with (Abort (wrap m)) s) sys)
  | step_peek_fault i s B wrap (q : Db → B) k m :
      sessions sys !! i = Some s → ss_prog s = Peek wrap q k →
      step sys Silent (with_session i (left_with (Abort (wrap m)) s) sys)
  | step_abort i s e :
      sessions sys !! i = Some s → ss_prog s = Abort e →
      step sys (Answered i (Err e)) (without_session i sys)
  | step_commit i s a :
      sessions sys !! i = Some s → ss_prog s = Ret (Commit a) →
      step sys (Committed i (ss_origin s) (ss_peeks s) a)
        (mkSystem (view (ss_writes s) (committed sys)) (delete i (sessions sys)))
  | step_commit_failed i s a m :
      sessions sys !! i = Some s → ss_prog s = Ret (Commit a) →
      step sys (Answered i (Err (RegistryInternal m))) (without_session i sys)
  | step_rollback i s k :
      sessions sys !! i = Some s → ss_prog s = Ret (RollbackRead k) →
      step sys Silent (with_session i (mkSession (ss_origin s) (ss_prog s) [] [] None (ss_peeks s)) sys)
  | step_read_back i s k :
      sessions sys !! i = Some s → ss_prog s = Ret (RollbackRead k) → ss_locks s = [] →
      step sys (Answered i (k (committed sys))) (without_session i sys).

(** A run, with the commits it made. *)
Inductive run (sys : System A) : list Event → System A → Prop :=
  | run_nil : run sys [] sys
  | run_step evs sys' ev sys'' : run sys evs sys' → step sys' ev sys'' → run sys (evs ++ [ev]) sys''.
End steps.

(** ** A schedule, executed *)

Section schedule.
Context `{EqDecision Lock} {A T : Type} (program : T → Prog (TxEnd Db A)).

(** The turn of a session. *)
Inductive Turn : Type :=
  | TBegin (t : T)
  | TSnapshot
  | TAct
  | TFault (m : string)
  | TEnd
  | TCommitFails (m : string).

Definition is_free (i : nat) (ls : list Lock) (sys : System A) : bool :=
  forallb (λ js : nat * Session A, bool_decide (js.1 = i) || forallb (λ l, bool_decide (l ∉ ss_locks js.2)) ls)
    (map_to_list (sessions sys)).

Definition turn (i : nat) (a : Turn) (sys : System A) : option (Event * System A) :=
  match a, sessions sys !! i with
  | TBegin t, None => Some (Silent, with_session i (started (program t)) sys)
  | TSnapshot, Some s =>
      match ss_prog s, ss_snap s with
      | Exec _ _ _, None =>
          Some (Silent, with_session i (mkSession (ss_origin s) (ss_prog s) (ss_writes s) (ss_locks s)
                                          (Some (committed sys)) (ss_peeks s)) sys)
      | _, _ => None
      end
  | TAct, Some s =>
      match ss_prog s, ss_snap s with
      | Exec wrap st k, Some snap =>
          let vs := view (ss_writes s) snap in
          let vc := view (ss_writes s) (committed sys) in
          match st_run st vs vc with
          | Ok (b, ws) =>
              let need := st_locks st vs vc ++ concat (map lock_of ws) in
              if is_free i need sys
              then Some (Silent, with_session i (mkSession (ss_origin s) (k b) (ss_writes s ++ ws)
                                                   (ss_locks s ++ need) None (ss_peeks s)) sys)
              else None
          | Err m => Some (Silent, with_session i (left_with (Abort (wrap m)) s) sys)
          end
      | Peek wrap q k, _ =>
          Some (Silent, with_session i (mkSession (ss_origin s) (k (q (view (ss_writes s) (committed sys))))
                                          (ss_writes s) (ss_locks s) None (ss_peeks s ++ [committed sys])) sys)
      | Ret (RollbackRead k), _ =>
          Some (Silent, with_session i (mkSession (ss_origin s) (ss_prog s) [] [] None (ss_peeks s)) sys)
      | _, _ => None
      end
  | TFault m, Some s =>
      match ss_prog s with
      | Exec wrap _ _ | Peek wrap _ _ => Some (Silent, with_session i (left_with (Abort (wrap m)) s) sys)
      | _ => None
      end
  | TEnd, Some s =>
      match ss_prog s with
      | Abort e => Some (Answered i (Err e), without_session i sys)
      | Ret (Commit a) => Some (Committed i (ss_origin s) (ss_peeks s) a,
                                mkSystem (view (ss_writes s) (committed sys)) (delete i (sessions sys)))
      | Ret (RollbackRead k) =>
          match ss_locks s with
          | [] => Some (Answered i (k (committed sys)), without_session i sys)
          | _ => None
          end
      | _ => None
      end
  | TCommitFails m, Some s =>
      match ss_prog s with
      | Ret (Commit _) => Some (Answered i (Err (RegistryInternal m)), without_session i sys)
      | _ => None
      end
  | _, _ => None
  end.

Fixpoint follow (turns : list (nat * Turn)) (evs : list Event) (sys : System A) : option (list Event * System A) :=
  match turns with
  | [] => Some (evs, sys)
  | (i, a) :: turns =>
      match turn i a sys with
      | Some (ev, sys') => follow turns (evs ++ [ev]) sys'
      | None => None
      end
  end.

Lemma is_free_sound i ls sys : is_free i ls sys = true → free i ls sys.
Proof.
  unfold is_free. rewrite forallb_forall. intros Hall j s l Hj Hs Hl.
  assert ((j, s) ∈ map_to_list (sessions sys)) as Hin by (by apply elem_of_map_to_list).
  apply list_elem_of_In in Hin. specialize (Hall _ Hin). simpl in Hall. rewrite bool_decide_eq_false_2 // in Hall.
  apply forallb_forall with (x := l) in Hall; [by apply bool_decide_eq_true in Hall|by apply list_elem_of_In].
Qed.

(** The transactions a schedule begins. *)
Definition begins (ok : T → Prop) (a : Turn) : Prop := match a with TBegin t => ok t | _ => True end.

Lemma turn_sound ok i a sys ev sys' :
  begins ok a → turn i a sys = Some (ev, sys') → step (λ p, ∃ t, ok t ∧ p = program t) sys ev sys'.
Proof.
  intros Hok. destruct a as [t| | |m| |m]; cbn [turn]; destruct (sessions sys !! i) as [s|] eqn:Hs; try done.
  - intros [= <- <-]. apply step_begin; [done|]. by exists t.
  - destruct (ss_prog s) eqn:Hp; [done|done| |done]. destruct (ss_snap s) eqn:Hsn; [done|]. intros [= <- <-].
    rewrite -Hp. by eapply step_snapshot.
  - destruct (ss_prog s) as [[b|k]|e|B wrap st k|B wrap q k] eqn:Hp; [done| |done| |].
    + intros [= <- <-]. rewrite -Hp. by eapply step_rollback.
    + destruct (ss_snap s) as [snap|] eqn:Hsn; [|done].
      destruct (st_run st _ _) as [[b ws]|m] eqn:Hr; [|intros [= <- <-]; by eapply step_refused].
      destruct (is_free _ _ _) eqn:Hf; [|done]. intros [= <- <-].
      eapply step_exec; [done|exact Hp|exact Hsn|exact Hr|]. by apply is_free_sound.
    + intros [= <- <-]. by eapply step_peek.
  - destruct (ss_prog s) eqn:Hp; [done|done| |]; intros [= <- <-]; [by eapply step_fault|by eapply step_peek_fault].
  - destruct (ss_prog s) as [[b|k]|e|B wrap st k|B wrap q k] eqn:Hp; try done.
    + intros [= <- <-]. by eapply step_commit.
    + destruct (ss_locks s) eqn:Hl; [|done]. intros [= <- <-]. by eapply step_read_back.
    + intros [= <- <-]. by eapply step_abort.
  - destruct (ss_prog s) as [[b|k]|e|B wrap st k|B wrap q k] eqn:Hp; try done.
    intros [= <- <-]. by eapply step_commit_failed.
Qed.

(** A schedule that can be followed is a run. *)
Lemma follow_sound ok turns sys0 : Forall (λ ia, begins ok ia.2) turns → ∀ evs sys evs' sys',
  run (λ p, ∃ t, ok t ∧ p = program t) sys0 evs sys → follow turns evs sys = Some (evs', sys') →
  run (λ p, ∃ t, ok t ∧ p = program t) sys0 evs' sys'.
Proof.
  induction turns as [|[i a] turns IH]; intros Hok evs sys evs' sys' Hrun; cbn [follow]; [by intros [= <- <-]|].
  apply Forall_cons in Hok as [Ha Hok].
  destruct (turn i a sys) as [[ev sys1]|] eqn:Ht; [|done]. apply (IH Hok). eapply run_step; [done|]. by eapply turn_sound.
Qed.
End schedule.

(** ** Alone *)

(** The program run alone on [db]: every statement sees [db] with the writes so far;
    a peek sees the next state of [olds], and [db] itself when there is none. *)
Fixpoint serial {A} (p : Prog A) (olds : list Db) (ws : list Write) (db : Db) :
    result (A * list Write) AcdpError :=
  match p with
  | Ret a => Ok (a, ws)
  | Abort e => Err e
  | Exec wrap s k =>
      match st_run s (view ws db) (view ws db) with
      | Ok (b, ws') => serial (k b) olds (ws ++ ws') db
      | Err m => Err (wrap m)
      end
  | Peek wrap q k => serial (k (q (view ws (default db (hd_error olds))))) (tail olds) ws db
  end.

(** It commits with the answer [a] and leaves [db']. *)
Definition commits_alone {A} (p : Prog (TxEnd Db A)) (olds : list Db) (db : Db) (a : A) (db' : Db) : Prop :=
  ∃ ws, serial p olds [] db = Ok (Commit a, ws) ∧ db' = view ws db.

Lemma view_app ws ws' db : view (ws ++ ws') db = view ws' (view ws db).
Proof. apply fold_left_app. Qed.

(** A serial history: the commits one after the other, each the program alone on what
    the one before left, its peeks any of the states there were. The states are listed
    newest first. *)
Inductive serial_history {A} (db0 : Db) : list (@Event A) → list Db → Prop :=
  | history_start : serial_history db0 [] [db0]
  | history_still evs states ev :
      serial_history db0 evs states → (∀ i p peeks a, ev ≠ Committed i p peeks a) →
      serial_history db0 (evs ++ [ev]) states
  | history_commit evs cur olds i p peeks a cur' :
      serial_history db0 evs (cur :: olds) → (∀ o, o ∈ peeks → o ∈ cur :: olds) →
      commits_alone p peeks cur a cur' →
      serial_history db0 (evs ++ [Committed i p peeks a]) (cur' :: cur :: olds).

(** A program whose statements keep [P] of the tables they see. *)
Fixpoint keeping {A} (P : Db → Prop) (p : Prog A) : Prop :=
  match p with
  | Ret _ | Abort _ => True
  | Exec _ s k => (∀ d b ws, P d → st_run s d d = Ok (b, ws) → P (view ws d)) ∧ ∀ b, keeping P (k b)
  | Peek _ _ k => ∀ b, keeping P (k b)
  end.

Lemma keeping_bind {A B} P (p : Prog A) (f : A → Prog B) :
  keeping P p → (∀ a, keeping P (f a)) → keeping P (pbind p f).
Proof. intros Hp Hf. induction p as [a|e|T wrap s k IH|T wrap q k IH]; simpl in *; [done|done| |by auto]. destruct Hp; auto. Qed.

Lemma keeping_serial {A} P (p : Prog A) db : keeping P p → ∀ olds ws a ws',
  P (view ws db) → serial p olds ws db = Ok (a, ws') → P (view ws' db).
Proof.
  induction p as [a|e|T wrap s k IH|T wrap q k IH]; intros Hp olds ws a' ws' Hd; simpl in *; [|done| |].
  - by intros [= _ <-].
  - destruct Hp as [Hs Hk]. destruct (st_run s _ _) as [[b w]|] eqn:Hr; [|done].
    apply IH; [done|]. rewrite view_app. by eapply Hs.
  - by apply IH.
Qed.

Lemma keeping_alone {A} P (p : Prog (TxEnd Db A)) olds db a db' :
  keeping P p → P db → commits_alone p olds db a db' → P db'.
Proof. intros Hp Hd (ws & Hs & ->). by eapply (keeping_serial P p db Hp olds []). Qed.

(** What a program run alone from the tables [db] ends with. *)
Fixpoint alone_wp {A} (p : Prog A) (Q : A → Db → Prop) (db : Db) : Prop :=
  match p with
  | Ret a => Q a db
  | Abort _ => True
  | Exec _ s k => ∀ b ws, st_run s db db = Ok (b, ws) → alone_wp (k b) Q (view ws db)
  | Peek _ _ k => ∀ b, alone_wp (k b) Q db
  end.

Lemma alone_wp_mono {A} (p : Prog A) (Q Q' : A → Db → Prop) :
  (∀ a d, Q a d → Q' a d) → ∀ d, alone_wp p Q d → alone_wp p Q' d.
Proof. intros HQ. induction p as [a|e|T wrap s k IH|T wrap q k IH]; simpl; eauto. Qed.

Lemma alone_wp_bind {A B} (p : Prog A) (f : A → Prog B) Q : ∀ d,
  alone_wp p (λ a d, alone_wp (f a) Q d) d → alone_wp (pbind p f) Q d.
Proof. induction p as [a|e|T wrap s k IH|T wrap q k IH]; simpl; eauto. Qed.

Lemma alone_wp_keeping {A} P (p : Prog A) : keeping P p → ∀ d, P d → alone_wp p (λ _ d, P d) d.
Proof.
  induction p as [a|e|T wrap s k IH|T wrap q k IH]; simpl; [done|done| |eauto].
  intros [Hs Hk] d Hd b ws Hr. apply IH; [done|]. by eapply Hs.
Qed.

Lemma alone_wp_serial {A} (p : Prog A) Q db : ∀ olds ws a ws',
  alone_wp p Q (view ws db) → serial p olds ws db = Ok (a, ws') → Q a (view ws' db).
Proof.
  induction p as [a|e|T wrap s k IH|T wrap q k IH]; intros olds ws a' ws' Hp; simpl in *; [|done| |].
  - by intros [= <- <-].
  - destruct (st_run s _ _) as [[b w]|] eqn:Hr; [|done]. apply IH. rewrite view_app. by apply Hp.
  - by apply IH.
Qed.

(** A program without peeks has no use for older states. *)
Fixpoint peekless {A} (p : Prog A) : Prop :=
  match p with
  | Ret _ | Abort _ => True
  | Exec _ _ k => ∀ b, peekless (k b)
  | Peek _ _ _ => False
  end.

Lemma peekless_bind {A B} (p : Prog A) (f : A → Prog B) : peekless p → (∀ a, peekless (f a)) → peekless (pbind p f).
Proof. intros Hp Hf. induction p as [a|e|T wrap s k IH|T wrap q k IH]; simpl in *; by auto. Qed.

Lemma peekless_serial {A} (p : Prog A) olds db : peekless p → ∀ ws, serial p olds ws db = serial p [] ws db.
Proof.
  induction p as [a|e|T wrap s k IH|T wrap q k IH]; intros Hp ws; simpl in *; [done|done| |done].
  destruct (st_run s _ _) as [[b w]|]; [|done]. by apply IH.
Qed.

(** ** A logic for programs *)

Section logic.
(** The rows and keys a write changes must be under these locks of its session, by
    the protocol the programs follow. *)
Context (guard : Write → list Lock).
(** Two states agree on what a lock protects. *)
Context (same_at : Lock → Db → Db → Prop).
(** What every commit keeps, beyond the locks. *)
Context (advance : Db → Db → Prop).

(** What the commits of others can do to the tables while these locks are held. *)
Definition rely (ls : list Lock) (d d' : Db) : Prop :=
  (∀ l, l ∈ ls → same_at l d' d) ∧ advance d d'.

Definition stable (ls : list Lock) (H : Db → Prop) : Prop := ∀ d d', H d → rely ls d d' → H d'.

Lemma stable_more ls ls' H : stable ls H → stable (ls ++ ls') H.
Proof. intros Hs d d' Hd [Hl Ha]. apply (Hs d); [done|]. split; [|done]. intros l ?. apply Hl. set_solver. Qed.

(** Where a program stands: the writes and locks of the session, what is true of the
    committed tables whatever others do, and what must be shown of them by the commit
    for the reads so far to be as they were. *)
Record Point : Type := mkPoint {
  pt_writes : list Write;
  pt_locks : list Lock;
  pt_holds : Db → Prop;
  pt_owes : Db → Prop
}.

(** [s] answers [b] and writes [ws'] when it runs alone on [db]. *)
Definition repeats {B} (s : Stmt B) (ws : list Write) (b : B) (ws' : list Write) (db : Db) : Prop :=
  st_run s (view ws db) (view ws db) = Ok (b, ws').

(** The precondition of a program for [Q]. *)
Fixpoint wp {A} (p : Prog A) (Q : A → Point → Prop) (pt : Point) : Prop :=
  match p with
  | Ret a => Q a pt
  | Abort _ => True
  | Exec wrap s k =>
      stable (pt_locks pt) (pt_holds pt) →
      ∀ snap cur b ws', pt_holds pt snap → pt_holds pt cur →
        (∀ l, l ∈ pt_locks pt → same_at l cur snap) →
        let vs := view (pt_writes pt) snap in
        let vc := view (pt_writes pt) cur in
        st_run s vs vc = Ok (b, ws') →
        let ls := pt_locks pt ++ st_locks s vs vc ++ concat (map lock_of ws') in
        (∀ w l, w ∈ ws' → l ∈ guard w → l ∈ ls) ∧
        ∃ H C, H cur ∧ stable ls H ∧
          (∀ db, H db → pt_holds pt db) ∧
          (∀ db, H db → C db → pt_owes pt db ∧ repeats s (pt_writes pt) b ws' db) ∧
          wp (k b) Q (mkPoint (pt_writes pt ++ ws') ls H C)
  | Peek wrap q k =>
      ∀ old, pt_holds pt old → wp (k (q (view (pt_writes pt) old))) Q pt
  end.

(** A program that may run beside others: it owes nothing when it commits, and its
    commit keeps what all commits keep. *)
Definition settled {A} (e : TxEnd Db A) (pt : Point) : Prop :=
  match e with
  | Commit _ => (∀ db, pt_holds pt db → pt_owes pt db) ∧
                (∀ db, pt_holds pt db → advance db (view (pt_writes pt) db))
  | RollbackRead _ => True
  end.

Definition disciplined {A} (I : Db → Prop) (p : Prog (TxEnd Db A)) : Prop :=
  wp p settled (mkPoint [] [] I (λ _, True)).

Lemma wp_bind {A B} (p : Prog A) (f : A → Prog B) Q : ∀ pt,
  wp p (λ a, wp (f a) Q) pt → wp (pbind p f) Q pt.
Proof.
  induction p as [a|e|T wrap s k IH|T wrap q k IH]; intros pt Hp; simpl in *; [done|done| |].
  - intros Hst snap cur b ws' Hs Hc Hl Hr. destruct (Hp Hst snap cur b ws' Hs Hc Hl Hr) as (Hg & H & C & H1 & H2 & H3 & H4 & Hk).
    split; [done|]. exists H, C. by eauto 10.
  - intros old Ho. by apply IH, Hp.
Qed.

Lemma wp_mono {A} (p : Prog A) (Q Q' : A → Point → Prop) :
  (∀ a pt, Q a pt → Q' a pt) → ∀ pt, wp p Q pt → wp p Q' pt.
Proof.
  intros HQ. induction p as [a|e|T wrap s k IH|T wrap q k IH]; intros pt Hp; simpl in *; [by apply HQ|done| |].
  - intros Hst snap cur b ws' Hs Hc Hl Hr. destruct (Hp Hst snap cur b ws' Hs Hc Hl Hr) as (Hg & H & C & H1 & H2 & H3 & H4 & Hk).
    split; [done|]. exists H, C. by eauto 10.
  - intros old Ho. by apply IH, Hp.
Qed.

Lemma wp_lift {A B} (r : result A AcdpError) (f : A → Prog B) Q pt :
  (∀ a, r = Ok a → wp (f a) Q pt) → wp (pbind (plift r) f) Q pt.
Proof. intros Hr. destruct r as [a|e]; simpl; [by apply Hr|done]. Qed.

(** The state of a statement that has acted: the locks it has then. *)
Definition held {B} (s : Stmt B) (pt : Point) (snap cur : Db) (ws' : list Write) : list Lock :=
  pt_locks pt ++ st_locks s (view (pt_writes pt) snap) (view (pt_writes pt) cur) ++ concat (map lock_of ws').

Lemma wp_pexec {B} wrap (s : Stmt B) Q pt :
  (stable (pt_locks pt) (pt_holds pt) →
   ∀ snap cur b ws', pt_holds pt snap → pt_holds pt cur →
     (∀ l, l ∈ pt_locks pt → same_at l cur snap) →
     st_run s (view (pt_writes pt) snap) (view (pt_writes pt) cur) = Ok (b, ws') →
     let ls := held s pt snap cur ws' in
     (∀ w l, w ∈ ws' → l ∈ guard w → l ∈ ls) ∧
     ∃ H C, H cur ∧ stable ls H ∧ (∀ db, H db → pt_holds pt db) ∧
       (∀ db, H db → C db → pt_owes pt db ∧ repeats s (pt_writes pt) b ws' db) ∧
       Q b (mkPoint (pt_writes pt ++ ws') ls H C)) →
  wp (pexec wrap s) Q pt.
Proof. exact id. Qed.

(** A statement whose answer follows from a fact [F] that the locks keep true. *)
Lemma wp_exec_fact {A B} wrap (s : Stmt B) (k : B → Prog A) Q pt (F : Db → B → list Write → Db → Prop) :
  (∀ snap cur b ws', pt_holds pt snap → pt_holds pt cur →
     (∀ l, l ∈ pt_locks pt → same_at l cur snap) →
     st_run s (view (pt_writes pt) snap) (view (pt_writes pt) cur) = Ok (b, ws') →
     let ls := held s pt snap cur ws' in
     (∀ w l, w ∈ ws' → l ∈ guard w → l ∈ ls) ∧
     F cur b ws' cur ∧
     (∀ d d', pt_holds pt d → F cur b ws' d → rely ls d d' → F cur b ws' d') ∧
     (∀ d, pt_holds pt d → F cur b ws' d → repeats s (pt_writes pt) b ws' d) ∧
     wp (k b) Q (mkPoint (pt_writes pt ++ ws') ls (λ d, pt_holds pt d ∧ F cur b ws' d) (pt_owes pt))) →
  wp (Exec wrap s k) Q pt.
Proof.
  intros Hf Hst snap cur b ws' Hs Hc Hl vs vc Hr ls.
  destruct (Hf snap cur b ws' Hs Hc Hl Hr) as (Hg & Hcur & Hstab & Hrep & Hk).
  split; [done|]. eexists _, _. split; [|split; [|split; [|split; [|exact Hk]]]].
  - done.
  - intros d d' [Hd HF] Hrel. split; [|by eapply Hstab].
    eapply (stable_more _ _ _ Hst); [exact Hd|exact Hrel].
  - by intros d [? _].
  - intros d [Hd HF] Ho. split; [done|]. by apply Hrep.
Qed.

(** One whose answer is owed: it must be shown by the commit. *)
Lemma wp_exec_owed {A B} wrap (s : Stmt B) (k : B → Prog A) Q pt :
  (∀ snap cur b ws', pt_holds pt snap → pt_holds pt cur →
     (∀ l, l ∈ pt_locks pt → same_at l cur snap) →
     st_run s (view (pt_writes pt) snap) (view (pt_writes pt) cur) = Ok (b, ws') →
     let ls := held s pt snap cur ws' in
     (∀ w l, w ∈ ws' → l ∈ guard w → l ∈ ls) ∧
     wp (k b) Q (mkPoint (pt_writes pt ++ ws') ls (pt_holds pt)
                   (λ d, pt_owes pt d ∧ repeats s (pt_writes pt) b ws' d))) →
  wp (Exec wrap s k) Q pt.
Proof.
  intros Hf Hst snap cur b ws' Hs Hc Hl vs vc Hr ls.
  destruct (Hf snap cur b ws' Hs Hc Hl Hr) as (Hg & Hk).
  split; [done|]. eexists _, _. split; [|split; [|split; [|split; [|exact Hk]]]]; [done| |done|done].
  by apply stable_more.
Qed.

(** ** Every commit is serial *)

Context {same_at_equiv : ∀ l, Equivalence (same_at l)}.
Context (apply_cong : ∀ l w d d', same_at l d d' → same_at l (apply w d) (apply w d')).
Context (apply_other : ∀ l w d, l ∉ guard w → same_at l (apply w d) d).

Lemma view_cong l ws : ∀ d d', same_at l d d' → same_at l (view ws d) (view ws d').
Proof. induction ws as [|w ws IH]; intros d d' Hd; [done|]. by apply IH, apply_cong. Qed.

Lemma view_other l ws : ∀ d, (∀ w, w ∈ ws → l ∉ guard w) → same_at l (view ws d) d.
Proof.
  induction ws as [|w ws IH]; intros d Hw; [reflexivity|]. simpl.
  etrans; [apply IH|apply apply_other]; [intros w' ?|]; apply Hw; set_solver.
Qed.


Section sound.
Context {A : Type} (I : Db → Prop).
Context (admitted : Prog (TxEnd Db A) → Prop).
Context (advance_keeps : ∀ d d', I d → advance d d' → I d').
Context (admitted_disciplined : ∀ p, admitted p → disciplined I p).

Record session_ok (cur : Db) (s : Session A) : Prop := mkSessionOk {
  so_admitted : admitted (ss_origin s);
  so_guarded : ∀ w l, w ∈ ss_writes s → l ∈ guard w → l ∈ ss_locks s;
  so_peeks : Forall (λ o, I o ∧ rtc advance o cur) (ss_peeks s);
  so_point : ∃ H C, H cur ∧ stable (ss_locks s) H ∧
    wp (ss_prog s) settled (mkPoint (ss_writes s) (ss_locks s) H C) ∧
    (∀ db rest, H db → C db →
       serial (ss_origin s) (ss_peeks s ++ rest) [] db = serial (ss_prog s) rest (ss_writes s) db) ∧
    (∀ snap, ss_snap s = Some snap → H snap ∧ ∀ l, l ∈ ss_locks s → same_at l cur snap)
}.

Record system_ok (sys : System A) : Prop := mkSystemOk {
  sys_inv : I (committed sys);
  sys_apart : ∀ i j s s' l, i ≠ j → sessions sys !! i = Some s → sessions sys !! j = Some s' →
    l ∈ ss_locks s → l ∉ ss_locks s';
  sys_sessions : ∀ i s, sessions sys !! i = Some s → session_ok (committed sys) s
}.

(** A session that will not commit. *)
Lemma session_ok_doomed cur s p ws ls :
  session_ok cur s → (∀ pt, wp p settled pt) → (∀ w l, w ∈ ws → l ∈ guard w → l ∈ ls) →
  session_ok cur (mkSession (ss_origin s) p ws ls None (ss_peeks s)).
Proof.
  intros [Ha Hg Hp _] Hwp Hw. split; [done|done|done|].
  exists (λ _, True), (λ _, False). simpl. by split_and!.
Qed.

(** The commit of another session. *)
Lemma session_ok_rely cur cur' s :
  rely (ss_locks s) cur cur' → session_ok cur s → session_ok cur' s.
Proof.
  intros Hr [Ha Hg Hp (H & C & Hc & Hs & Hwp & Hser & Hsnap)]. split; [done|done| |].
  - eapply Forall_impl; [exact Hp|]. intros o [Ho Hadv]. split; [done|].
    eapply rtc_r; [exact Hadv|]. apply Hr.
  - exists H, C. split; [by eapply Hs|]. split; [done|]. split; [done|]. split; [done|].
    intros snap Hsn. destruct (Hsnap snap Hsn) as [? Hl]. split; [done|].
    intros l Hin. etrans; [by apply Hr|by apply Hl].
Qed.

Lemma system_ok_session sys i s s' :
  system_ok sys → sessions sys !! i = Some s → session_ok (committed sys) s' →
  (∀ j t l, j ≠ i → sessions sys !! j = Some t → l ∈ ss_locks s' → l ∉ ss_locks t) →
  system_ok (with_session i s' sys).
Proof.
  intros [Hi Hap Hss] His Hs' Hfree. split; [done| |].
  - intros j k t t' l Hjk. simpl. rewrite !lookup_insert_Some.
    intros [[-> ->]|[Hj Ht]] [[-> ->]|[Hk Ht']] Hin; [done|by eapply (Hfree k)| |by eapply (Hap j k)].
    intros Hin'. by eapply (Hfree j t).
  - intros j t. simpl. rewrite lookup_insert_Some. intros [[<- <-]|[Hj Ht]]; [done|by eapply Hss].
Qed.

Lemma system_ok_without sys i : system_ok sys → system_ok (without_session i sys).
Proof.
  intros [Hi Hap Hss]. split; [done| |].
  - intros j k t t' l Hjk. simpl. rewrite !lookup_delete_Some. intros [_ Ht] [_ Ht']. by eapply Hap.
  - intros j t. simpl. rewrite lookup_delete_Some. intros [_ Ht]. by eapply Hss.
Qed.

Lemma started_ok cur p : I cur → admitted p → session_ok cur (started p).
Proof.
  intros Hi Hp. split; [done|set_solver|constructor|]. exists I, (λ _, True). simpl.
  split; [done|]. split; [intros d d' Hd [_ Hadv]; by eapply advance_keeps|].
  split; [by apply admitted_disciplined|]. by split.
Qed.

Lemma exec_ok cur s T wrap (st : Stmt T) k snap b ws :
  session_ok cur s → ss_prog s = Exec wrap st k → ss_snap s = Some snap →
  let vs := view (ss_writes s) snap in
  let vc := view (ss_writes s) cur in
  let need := st_locks st vs vc ++ concat (map lock_of ws) in
  st_run st vs vc = Ok (b, ws) →
  session_ok cur (mkSession (ss_origin s) (k b) (ss_writes s ++ ws) (ss_locks s ++ need) None (ss_peeks s)).
Proof.
  intros [Ha Hg Hp (H & C & Hc & Hs & Hwp & Hser & Hsnap)] Hprog Hsn vs vc need Hrun.
  destruct (Hsnap _ Hsn) as [Hsh Hsl]. rewrite Hprog in Hwp. simpl in Hwp.
  destruct (Hwp Hs snap cur b ws Hsh Hc Hsl Hrun) as (Hgw & H' & C' & Hc' & Hst' & Hhh & Hrep & Hk).
  split; [done| |done|].
  - simpl. intros w l [Hw|Hw]%elem_of_app Hin; [|by apply (Hgw w)].
    apply elem_of_app. left. by eapply Hg.
  - exists H', C'. simpl. split_and!; [done|done|done| |done].
    intros db rest Hd Hcd. destruct (Hrep db Hd Hcd) as [Hcdb Hr].
    rewrite (Hser db rest (Hhh db Hd) Hcdb) Hprog. simpl. by rewrite Hr.
Qed.

Lemma peek_ok cur s T wrap (q : Db → T) k :
  I cur → session_ok cur s → ss_prog s = Peek wrap q k →
  session_ok cur (mkSession (ss_origin s) (k (q (view (ss_writes s) cur))) (ss_writes s) (ss_locks s) None
                    (ss_peeks s ++ [cur])).
Proof.
  intros Hi [Ha Hg Hp (H & C & Hc & Hs & Hwp & Hser & Hsnap)] Hprog.
  rewrite Hprog in Hwp. split; [done|done| |].
  - simpl. apply Forall_app. split; [done|]. by repeat constructor.
  - exists H, C. simpl. split; [done|]. split; [done|]. split; [by apply Hwp|]. split; [|done].
    intros db rest Hd Hcd. rewrite -app_assoc /= (Hser db (cur :: rest) Hd Hcd) Hprog. done.
Qed.

(** A commit does to the tables what its program does alone. *)
Lemma commit_ok cur s a :
  session_ok cur s → ss_prog s = Ret (Commit a) →
  commits_alone (ss_origin s) (ss_peeks s) cur a (view (ss_writes s) cur) ∧
  advance cur (view (ss_writes s) cur).
Proof.
  intros [Ha Hg Hp (H & C & Hc & Hs & Hwp & Hser & Hsnap)] Hprog.
  rewrite Hprog in Hwp. destruct Hwp as [Hcc Hadv]. simpl in *. split; [|by apply Hadv].
  exists (ss_writes s). split; [|done]. specialize (Hser cur [] Hc (Hcc cur Hc)). rewrite app_nil_r in Hser.
  by rewrite Hser Hprog.
Qed.

Lemma system_ok_commit sys i s a :
  system_ok sys → sessions sys !! i = Some s → ss_prog s = Ret (Commit a) →
  system_ok (mkSystem (view (ss_writes s) (committed sys)) (delete i (sessions sys))).
Proof.
  intros [Hi Hap Hss] His Hprog. pose proof (Hss i s His) as Hs.
  destruct (commit_ok _ _ _ Hs Hprog) as [_ Hadv].
  split; [by eapply advance_keeps| |].
  - intros j k t t' l Hjk. simpl. rewrite !lookup_delete_Some. intros [_ Ht] [_ Ht']. by eapply Hap.
  - intros j t. simpl. rewrite lookup_delete_Some. intros [Hij Ht]. eapply session_ok_rely; [|by eapply Hss].
    split; [|done]. intros l Hl. apply view_other. intros w Hw Hin.
    eapply (Hap i j); [done|exact His|exact Ht| |exact Hl]. by eapply so_guarded.
Qed.

Lemma step_ok sys ev sys' : system_ok sys → step admitted sys ev sys' → system_ok sys'.
Proof.
  intros Hsys Hstep. pose proof Hsys as [Hi Hap Hss].
  destruct Hstep as [i p Hn Hp|i s T wrap st k Hs Hprog Hsn|i s T wrap st k snap b ws Hs Hprog Hsn vs vc need Hrun Hfree
    |i s T wrap st k snap m Hs Hprog Hsn Hrun|i s T wrap q k Hs Hprog|i s T wrap st k m Hs Hprog
    |i s T wrap q k m Hs Hprog|i s e Hs Hprog|i s a Hs Hprog|i s a m Hs Hprog|i s k Hs Hprog|i s k Hs Hprog Hl].
  - split; [done| |].
    + intros j k t t' l Hjk. simpl. rewrite !lookup_insert_Some.
      intros [[-> <-]|[Hj Ht]] [[-> <-]|[Hk Ht']] Hin; simpl in *; [done|set_solver|set_solver|by eapply (Hap j k)].
    + intros j t. simpl. rewrite lookup_insert_Some. intros [[<- <-]|[Hj Ht]]; [by apply started_ok|by eapply Hss].
  - eapply system_ok_session; [done|done| |]; simpl.
    + destruct (Hss i s Hs) as [Ha Hg Hpk (H & C & Hc & Hst & Hwp & Hser & Hsnap)]. split; [done|done|done|].
      exists H, C. simpl. split_and!; try done. intros ? [= <-]. split; [done|]. intros l _. reflexivity.
    + intros j t l Hj Ht Hl Hl'. by eapply (Hap i j).
  - eapply system_ok_session; [done|done|by eapply exec_ok; eauto|]. simpl.
    intros j t l Hj Ht [Hl|Hl]%elem_of_app Hl'; [by eapply (Hap i j)|by eapply Hfree].
  - eapply system_ok_session; [done|done| |]; simpl.
    + apply session_ok_doomed; [by eapply Hss|done|by eapply so_guarded, Hss].
    + intros j t l Hj Ht Hl Hl'. by eapply (Hap i j).
  - eapply system_ok_session; [done|done|by apply peek_ok with wrap; eauto|]; simpl.
    intros j t l Hj Ht Hl Hl'. by eapply (Hap i j).
  - eapply system_ok_session; [done|done| |]; simpl.
    + apply session_ok_doomed; [by eapply Hss|done|by eapply so_guarded, Hss].
    + intros j t l Hj Ht Hl Hl'. by eapply (Hap i j).
  - eapply system_ok_session; [done|done| |]; simpl.
    + apply session_ok_doomed; [by eapply Hss|done|by eapply so_guarded, Hss].
    + intros j t l Hj Ht Hl Hl'. by eapply (Hap i j).
  - by apply system_ok_without.
  - by eapply system_ok_commit.
  - by apply system_ok_without.
  - eapply system_ok_session; [done|done| |]; simpl; [|set_solver].
    apply session_ok_doomed; [by eapply Hss| |set_solver]. rewrite Hprog. done.
  - by apply system_ok_without.
Qed.

Lemma run_ok sys evs sys' : system_ok sys → run admitted sys evs sys' → system_ok sys'.
Proof. intros Hsys Hrun. induction Hrun as [|evs sys1 ev sys2 _ IH Hstep]; [done|]. by eapply step_ok. Qed.

Lemma initial_ok db : I db → system_ok (mkSystem db ∅).
Proof. intros Hi. by split; simpl. Qed.

(** Only a commit changes the tables, and it does what its program does alone. *)
Lemma commits_are_serial sys ev sys' :
  system_ok sys → step admitted sys ev sys' →
  match ev with
  | Committed i p peeks a =>
      admitted p ∧ Forall (λ o, I o ∧ rtc advance o (committed sys)) peeks ∧
      commits_alone p peeks (committed sys) a (committed sys')
  | _ => committed sys' = committed sys
  end.
Proof.
  intros Hsys Hstep. destruct Hstep; try done.
  pose proof (sys_sessions _ Hsys _ _ ltac:(eassumption)) as Hs.
  split; [by apply Hs|]. split; [by apply Hs|]. by eapply commit_ok.
Qed.

(** The states the sessions have peeked at. *)
Definition peeked (states : list Db) (sys : System A) : Prop :=
  ∀ i s o, sessions sys !! i = Some s → o ∈ ss_peeks s → o ∈ states.

Lemma peeked_session states sys i s s' :
  peeked states sys → sessions sys !! i = Some s → (∀ o, o ∈ ss_peeks s' → o ∈ ss_peeks s ∨ o ∈ states) →
  peeked states (with_session i s' sys).
Proof.
  intros Hp Hs Hs' j t o. simpl. rewrite lookup_insert_Some. intros [[<- <-]|[_ Ht]] Ho; [|by eapply Hp].
  destruct (Hs' o Ho); [by eapply Hp|done].
Qed.

Lemma peeked_without states sys sys' i :
  peeked states sys → sessions sys' = delete i (sessions sys) → peeked states sys'.
Proof. intros Hp Hs j t o. rewrite Hs lookup_delete_Some. intros [_ Ht]. by apply (Hp j). Qed.

Lemma step_peeked states sys ev sys' :
  committed sys ∈ states → peeked states sys → step admitted sys ev sys' → peeked states sys'.
Proof.
  intros Hc Hp Hstep. destruct Hstep; try (by eapply peeked_without);
    try (by eapply peeked_session; [done|eassumption|intros o Ho; left]).
  - intros j t o. simpl. rewrite lookup_insert_Some. intros [[<- <-]|[_ Ht]] Ho; [by apply elem_of_nil in Ho|by eapply Hp].
  - eapply peeked_session; [done|eassumption|]. simpl. intros o [Ho|Ho%list_elem_of_singleton]%elem_of_app; [by left|].
    subst. by right.
Qed.

(** Every run is a serial history. *)
Lemma run_serial db evs sys :
  I db → run admitted (mkSystem db ∅) evs sys →
  ∃ olds, serial_history db evs (committed sys :: olds) ∧ peeked (committed sys :: olds) sys.
Proof.
  intros Hi Hrun. pose proof (initial_ok db Hi) as Hok0.
  induction Hrun as [|evs sys1 ev sys2 Hrun IH Hstep].
  { exists []. split; [constructor|]. by intros i s o. }
  destruct IH as (olds & Hh & Hp). pose proof (run_ok _ _ _ Hok0 Hrun) as Hok.
  pose proof (commits_are_serial _ _ _ Hok Hstep) as Hcommit.
  assert (peeked (committed sys1 :: olds) sys2) as Hp2 by (eapply step_peeked; [by left|done..]).
  destruct ev as [|i p peeks a|i r].
  - rewrite Hcommit. exists olds. split; [|done]. by apply history_still.
  - destruct Hcommit as (_ & _ & Halone). exists (committed sys1 :: olds). split.
    + apply history_commit; [done| |done]. intros o Ho. inversion Hstep; subst. by eapply Hp.
    + intros j t o Ht Ho. right. by eapply Hp2.
  - rewrite Hcommit. exists olds. split; [|done]. by apply history_still.
Qed.

Lemma run_admitted db evs sys :
  I db → run admitted (mkSystem db ∅) evs sys →
  ∀ i p peeks a, Committed i p peeks a ∈ evs → admitted p.
Proof.
  intros Hi Hrun. pose proof (initial_ok db Hi) as Hok0.
  induction Hrun as [|evs sys1 ev sys2 Hrun IH Hstep]; intros i p peeks a; [by intros ?%elem_of_nil|].
  intros [Hin|Hin%list_elem_of_singleton]%elem_of_app; [by eapply IH|]. subst ev.
  by apply (commits_are_serial _ _ _ (run_ok _ _ _ Hok0 Hrun) Hstep).
Qed.

(** What every admitted program keeps when it runs alone and commits holds in every run. *)
Lemma run_alone (P : Db → Prop) db evs sys :
  (∀ p olds d a d', admitted p → P d → commits_alone p olds d a d' → P d') →
  I db → P db → run admitted (mkSystem db ∅) evs sys → P (committed sys).
Proof.
  intros HP Hi Hd Hrun. pose proof (initial_ok db Hi) as Hok0.
  induction Hrun as [|evs sys1 ev sys2 Hrun IH Hstep]; [done|].
  pose proof (commits_are_serial _ _ _ (run_ok _ _ _ Hok0 Hrun) Hstep) as Hcommit.
  destruct ev as [|i p peeks a|i r]; [by rewrite Hcommit| |by rewrite Hcommit].
  destruct Hcommit as (Hadm & _ & Halone). by eapply HP.
Qed.

Lemma run_keeping P db evs sys :
  (∀ p, admitted p → keeping P p) → I db → P db → run admitted (mkSystem db ∅) evs sys → P (committed sys).
Proof. intros HP. apply run_alone. intros p olds d a d' Hp. apply keeping_alone. by apply HP. Qed.

Lemma run_alone_wp (P : Db → Prop) db evs sys :
  (∀ p d, admitted p → P d → alone_wp p (λ e d', ∀ a, e = Commit a → P d') d) →
  I db → P db → run admitted (mkSystem db ∅) evs sys → P (committed sys).
Proof.
  intros HP. apply run_alone. intros p olds d a d' Hp Hd (ws & Hs & ->).
  eapply (alone_wp_serial p _ d olds [] _ _ (HP p d Hp Hd) Hs). done.
Qed.
End sound.
End logic.
End engine.

Arguments Stmt : clear implicits.
Arguments Prog : clear implicits.
Arguments Session : clear implicits.
Arguments System : clear implicits.
Arguments Event : clear implicits.
Arguments Turn : clear implicits.
Arguments TBegin {T}.
Arguments TSnapshot {T}.
Arguments TAct {T}.
Arguments TFault {T}.
Arguments TEnd {T}.
Arguments TCommitFails {T}.
Arguments Point : clear implicits.
Arguments mkPoint {Db Lock Write}.
Arguments pt_writes {Db Lock Write}.
Arguments pt_locks {Db Lock Write}.
Arguments pt_holds {Db Lock Write}.
Arguments pt_owes {Db Lock Write}.
Arguments mkStmt {Db Lock Write A}.
Arguments st_locks {Db Lock Write A}.
Arguments st_run {Db Lock Write A}.
Arguments Ret {Db Lock Write A}.
Arguments Abort {Db Lock Write A}.
Arguments Exec {Db Lock Write A B}.
Arguments Peek {Db Lock Write A B}.
Arguments mkSession {Db Lock Write A}.
Arguments ss_origin {Db Lock Write A}.
Arguments ss_prog {Db Lock Write A}.
Arguments ss_writes {Db Lock Write A}.
Arguments ss_locks {Db Lock Write A}.
Arguments ss_snap {Db Lock Write A}.
Arguments ss_peeks {Db Lock Write A}.
Arguments mkSystem {Db Lock Write A}.
Arguments committed {Db Lock Write A}.
Arguments sessions {Db Lock Write A}.
Arguments Silent {Db Lock Write A}.
Arguments Committed {Db Lock Write A}.
Arguments Answered {Db Lock Write A}.

Notation "'let*' x := c 'in' k" := (pbind c (λ x, k))
  (at level 10, x name, k at level 200) : pg_scope.
Notation "'let*' ' p := c 'in' k" := (pbind c (λ p, k))
  (at level 10, p strict pattern, k at level 200) : pg_scope.
