(* ===== verification/PgStore.v ===== *)
(** * The Postgres context store

    [acdp-registry-pg/src/store.rs], [keyless.rs] and the appends of [changes.rs]:
    the tables, every SQL statement of the write transactions as a [Stmt] of [PgTx],
    and the transactions as programs: publishing, lifecycle events, the receipt sweep
    of a context, the eviction of idempotency records and the tenant stamp.

    JSONB columns hold [Jsonb]; [serde_json]'s conversions are the class [PgCodec].
    Times are nanoseconds, cut to microseconds by the driver. [put] and [mark_superseded] are fixtures of
    the tests and are left out as well. *)

From stdpp Require Import pretty.
From S2P Require Import Prelude Text Errors ContextTypes ChangeBucket ChangeFeed FeedBackends.
From S2P Require Import EventReceipts KeyAttestations SqlTx SqliteStore PgTx.

Open Scope registry_scope.
Open Scope pg_scope.

Class PgCodec `{EventSdk} : Type := {
  Jsonb : Type;
  #[global] Jsonb_eq_dec :: EqDecision Jsonb;
  to_jsonb : Value → Jsonb;
  from_jsonb : Jsonb → Value;
  (** [serde_json::to_value] and [from_value]. *)
  body_to_value : Body → result Value string;
  body_from_value : Value → result Body string;
  response_to_value : PublishResponse → result Value string;
  response_from_value : Value → result PublishResponse string;
  signature_to_value : LifecycleEvent → result (option Value) string
}.

(** A [TIMESTAMPTZ]. *)
Definition pg_time (t : Z) : Z := (t / 1000 * 1000)%Z.

(** ** Tables *)

Section tables.
Context `{PgCodec}.

Record PgCtxRow : Type := mkPgCtxRow {
  p_ctx_id : string;
  p_lineage_id : string;
  p_agent_id : string;
  p_contributors : list string;
  p_origin_registry : string;
  p_created_at : Z;
  p_status : string;
  p_visibility : string;
  p_context_type : string;
  p_version : Z;
  p_supersedes : option string;
  p_search : SearchColumns (list string);
  p_expires_at : option Z;
  p_content_hash : string;
  p_body_json : Jsonb;
  p_tenant_id : string;
  p_registry_receipt : option Jsonb;
  p_retracted : bool
}.

Record PgEventRow : Type := mkPgEventRow {
  pe_ctx_id : string;
  pe_event_id : string;
  pe_event_type : string;
  pe_occurred_at : string;
  pe_actor : string;
  pe_reason : option string;
  pe_signature : option Jsonb;
  pe_tenant_id : string;
  pe_receipt : option Jsonb
}.

Record PgIdemRow : Type := mkPgIdemRow {
  pi_content_hash : string;
  pi_response_json : Jsonb;
  pi_expires_at : Z
}.

#[export] Instance PgIdemRow_eq_dec : EqDecision PgIdemRow.
Proof. solve_decision. Defined.

Record PgAttRow : Type := mkPgAttRow {
  pk_ctx_id : string;
  pk_controller : string;
  pk_identity_type : string;
  pk_issuer : option string;
  pk_subject : string;
  pk_org_wide : bool;
  pk_key_id : string;
  pk_algorithm : string;
  pk_key_fingerprint : string;
  pk_not_before_ms : Z;
  pk_not_after_ms : Z;
  pk_token_hash : string;
  pk_created_at_ms : Z
}.

Record PgDb : Type := mkPgDb {
  pg_contexts : list PgCtxRow;
  pg_lifecycle_events : list PgEventRow;
  pg_idempotency_records : gmap (string * string) PgIdemRow;
  pg_key_attestations : list PgAttRow;
  pg_log_leaves : list LeafRow;
  pg_changes : ChangesDb Jsonb
}.

Definition pg_set_status (s : string) (r : PgCtxRow) : PgCtxRow :=
  mkPgCtxRow (p_ctx_id r) (p_lineage_id r) (p_agent_id r) (p_contributors r) (p_origin_registry r)
    (p_created_at r) s (p_visibility r) (p_context_type r) (p_version r) (p_supersedes r) (p_search r) (p_expires_at r)
    (p_content_hash r) (p_body_json r) (p_tenant_id r) (p_registry_receipt r) (p_retracted r).
Definition pg_set_tenant (t : string) (r : PgCtxRow) : PgCtxRow :=
  mkPgCtxRow (p_ctx_id r) (p_lineage_id r) (p_agent_id r) (p_contributors r) (p_origin_registry r)
    (p_created_at r) (p_status r) (p_visibility r) (p_context_type r) (p_version r) (p_supersedes r) (p_search r) (p_expires_at r)
    (p_content_hash r) (p_body_json r) t (p_registry_receipt r) (p_retracted r).
Definition pg_set_retracted (b : bool) (r : PgCtxRow) : PgCtxRow :=
  mkPgCtxRow (p_ctx_id r) (p_lineage_id r) (p_agent_id r) (p_contributors r) (p_origin_registry r)
    (p_created_at r) (p_status r) (p_visibility r) (p_context_type r) (p_version r) (p_supersedes r) (p_search r) (p_expires_at r)
    (p_content_hash r) (p_body_json r) (p_tenant_id r) (p_registry_receipt r) b.
Definition pg_set_receipt (j : Jsonb) (r : PgEventRow) : PgEventRow :=
  mkPgEventRow (pe_ctx_id r) (pe_event_id r) (pe_event_type r) (pe_occurred_at r) (pe_actor r) (pe_reason r)
    (pe_signature r) (pe_tenant_id r) (Some j).

(** What a statement writes. *)
Inductive PgWrite : Type :=
  | WInsertCtx (r : PgCtxRow)
  | WSetStatus (ctx_id status : string)
  | WSetTenant (ctx_id tenant_id : string)
  | WSetRetracted (ctx_id : string) (b : bool)
  | WInsertEvent (r : PgEventRow)
  | WSetReceipt (ctx_id event_id : string) (j : Jsonb)
  | WDeleteKey (k : string * string)
  | WPutKey (k : string * string) (r : PgIdemRow)
  | WInsertAttestation (r : PgAttRow)
  | WInsertLeaf (r : LeafRow)
  (** The gap in the identity values and the database's clock. *)
  | WInsertChange (gap now_ms : Z) (a : FeedAppend).

Definition update_rows {T} (p : T → bool) (f : T → T) (l : list T) : list T :=
  map (λ r, if p r then f r else r) l.

Definition is_ctx (ctx_id : string) (r : PgCtxRow) : bool := bool_decide (p_ctx_id r = ctx_id).

Definition fill_here (ctx_id event_id : string) (r : PgEventRow) : bool :=
  bool_decide (pe_ctx_id r = ctx_id) && bool_decide (pe_event_id r = event_id)
  && negb (bool_decide (is_Some (pe_receipt r))).

Definition on_contexts (f : list PgCtxRow → list PgCtxRow) (db : PgDb) : PgDb :=
  mkPgDb (f (pg_contexts db)) (pg_lifecycle_events db) (pg_idempotency_records db) (pg_key_attestations db)
    (pg_log_leaves db) (pg_changes db).
Definition on_events (f : list PgEventRow → list PgEventRow) (db : PgDb) : PgDb :=
  mkPgDb (pg_contexts db) (f (pg_lifecycle_events db)) (pg_idempotency_records db) (pg_key_attestations db)
    (pg_log_leaves db) (pg_changes db).
Definition on_keys (f : gmap (string * string) PgIdemRow → gmap (string * string) PgIdemRow) (db : PgDb) : PgDb :=
  mkPgDb (pg_contexts db) (pg_lifecycle_events db) (f (pg_idempotency_records db)) (pg_key_attestations db)
    (pg_log_leaves db) (pg_changes db).
Definition on_attestations (f : list PgAttRow → list PgAttRow) (db : PgDb) : PgDb :=
  mkPgDb (pg_contexts db) (pg_lifecycle_events db) (pg_idempotency_records db) (f (pg_key_attestations db))
    (pg_log_leaves db) (pg_changes db).
Definition on_leaves (f : list LeafRow → list LeafRow) (db : PgDb) : PgDb :=
  mkPgDb (pg_contexts db) (pg_lifecycle_events db) (pg_idempotency_records db) (pg_key_attestations db)
    (f (pg_log_leaves db)) (pg_changes db).
Definition on_changes (f : ChangesDb Jsonb → ChangesDb Jsonb) (db : PgDb) : PgDb :=
  mkPgDb (pg_contexts db) (pg_lifecycle_events db) (pg_idempotency_records db) (pg_key_attestations db)
    (pg_log_leaves db) (f (pg_changes db)).

Definition pg_apply (w : PgWrite) (db : PgDb) : PgDb :=
  match w with
  | WInsertCtx r => on_contexts (λ l, l ++ [r]) db
  | WSetStatus c s => on_contexts (update_rows (is_ctx c) (pg_set_status s)) db
  | WSetTenant c t => on_contexts (update_rows (is_ctx c) (pg_set_tenant t)) db
  | WSetRetracted c b => on_contexts (update_rows (is_ctx c) (pg_set_retracted b)) db
  | WInsertEvent r => on_events (λ l, l ++ [r]) db
  | WSetReceipt c e j => on_events (update_rows (fill_here c e) (pg_set_receipt j)) db
  | WDeleteKey k => on_keys (delete k) db
  | WPutKey k r => on_keys (insert k r) db
  | WInsertAttestation r => on_attestations (λ l, l ++ [r]) db
  | WInsertLeaf r => on_leaves (λ l, l ++ [r]) db
  | WInsertChange gap now_ms a => on_changes (λ c, changes_insert to_jsonb c gap now_ms a) db
  end.

(** Row locks, the entries of unique indexes, and the two advisory locks
    [LOG_APPEND_LOCK_KEY] and [FEED_APPEND_LOCK_KEY]. *)
Inductive PgLock : Type :=
  | LRow (ctx_id : string)
  | LEvent (ctx_id event_id : string)
  | LKey (k : string * string)
  | LToken (token_hash : string)
  | LAttestation (ctx_id : string)
  | LLeaf (leaf_index : Z)
  | LLeafCtx (ctx_id : string)
  | LLogAppend
  | LFeedAppend.

(** What a write conflicts with in the database: the row or index entries it makes
    or changes. *)
Definition pg_lock_of (w : PgWrite) : list PgLock :=
  match w with
  | WInsertCtx r => [LRow (p_ctx_id r)]
  | WSetStatus c _ | WSetTenant c _ | WSetRetracted c _ => [LRow c]
  | WInsertEvent r => [LEvent (pe_ctx_id r) (pe_event_id r)]
  | WSetReceipt c e _ => [LEvent c e]
  | WDeleteKey k | WPutKey k _ => [LKey k]
  | WInsertAttestation r => [LToken (pk_token_hash r); LAttestation (pk_ctx_id r)]
  | WInsertLeaf r => [LLeaf (l_index r); LLeafCtx (l_ctx_id r)]
  | WInsertChange _ _ _ => []
  end.

(** ** Statements *)

Definition PgStmt : Type → Type := Stmt PgDb PgLock PgWrite.
Definition PgProg : Type → Type := Prog PgDb PgLock PgWrite.

(** [SELECT] of committed rows. *)
Definition select {A} (q : PgDb → A) : PgStmt A :=
  mkStmt (λ _ _, []) (λ snap _, Ok (q snap, [])).

(** [SELECT ... FOR UPDATE] of one row by its key: a row the snapshot has is waited
    for and answered as it is then. *)
Definition select_for_update {A} (lock : PgLock) (q : PgDb → option A) : PgStmt (option A) :=
  mkStmt (λ snap cur, match q snap, q cur with Some _, Some _ => [lock] | _, _ => [] end)
         (λ snap cur, Ok (match q snap with Some _ => q cur | None => None end, [])).

(** [SELECT pg_advisory_xact_lock($1)]. *)
Definition advisory_lock (lock : PgLock) : PgStmt unit :=
  mkStmt (λ _ _, [lock]) (λ _ _, Ok (tt, [])).

Definition pg_select_ctx (ctx_id : string) (db : PgDb) : option PgCtxRow :=
  List.find (is_ctx ctx_id) (pg_contexts db).

(** [SELECT ... FROM lifecycle_events WHERE ctx_id = $1 ORDER BY seq ASC]. *)
Definition pg_select_events (ctx_id : string) (db : PgDb) : list PgEventRow :=
  filter (λ r, pe_ctx_id r = ctx_id) (pg_lifecycle_events db).

(** [ORDER BY version ASC, created_at ASC]. *)
Definition pg_version_order (r1 r2 : PgCtxRow) : Prop :=
  (p_version r1 < p_version r2)%Z ∨ (p_version r1 = p_version r2 ∧ (p_created_at r1 ≤ p_created_at r2)%Z).

#[export] Instance pg_version_order_dec : RelDecision pg_version_order.
Proof. unfold pg_version_order. solve_decision. Defined.

Definition pg_select_lineage (lineage_id : string) (db : PgDb) : list PgCtxRow :=
  merge_sort pg_version_order (filter (λ r, p_lineage_id r = lineage_id) (pg_contexts db)).

Definition first_of (lineage_id : string) (db : PgDb) : option string :=
  p_ctx_id <$> hd_error (pg_select_lineage lineage_id db).

(** [UPDATE contexts SET ... WHERE ctx_id = $1]. *)
Definition update_context (ctx_id : string) (w : PgWrite) : PgStmt unit :=
  mkStmt (λ _ _, []) (λ snap cur,
    match pg_select_ctx ctx_id snap, pg_select_ctx ctx_id cur with
    | Some _, Some _ => Ok (tt, [w])
    | _, _ => Ok (tt, [])
    end).

Definition expired_at (now : Z) (r : PgIdemRow) : bool := (pi_expires_at r <=? pg_time now)%Z.

(** A row the snapshot found expired is deleted as it is after the wait; one that was
    deleted and inserted again meanwhile is another row, one that was updated is the
    same and looked at again: [again] says which. *)
Definition still_expired (now : Z) (again : bool) (k : string * string) (snap cur : PgDb) : bool :=
  match pg_idempotency_records snap !! k, pg_idempotency_records cur !! k with
  | Some r, Some r' => expired_at now r && expired_at now r' && (bool_decide (r = r') || again)
  | _, _ => false
  end.

(** [DELETE FROM idempotency_records WHERE agent_id = $1 AND key = $2 AND expires_at <= $3]. *)
Definition delete_expired_key (k : string * string) (now : Z) (again : bool) : PgStmt unit :=
  mkStmt (λ _ _, []) (λ snap cur,
    Ok (tt, if still_expired now again k snap cur then [WDeleteKey k] else [])).

(** [DELETE FROM idempotency_records WHERE expires_at <= $1], after its scan: the rows
    [found] expired are locked and deleted, except those [missed], which other
    transactions took away before the scan got to them. A guess of [missed] the tables
    do not bear out is refused, which is one more way for a statement to fail. *)
Definition delete_found_keys (now : Z) (found missed : list (string * string)) : PgStmt unit :=
  mkStmt (λ _ _, []) (λ _ cur,
    let ks := filter (λ k, k ∉ missed) found in
    if forallb (λ k, match pg_idempotency_records cur !! k with Some r => expired_at now r | None => false end) ks
    then Ok (tt, map WDeleteKey ks)
    else Err "no row").

Definition expired_keys (now : Z) (db : PgDb) : list (string * string) :=
  map fst (List.filter (λ kr, expired_at now kr.2) (map_to_list (pg_idempotency_records db))).

(** [UPDATE contexts SET ... WHERE ctx_id = $1], after its scan has found the row:
    contexts are never deleted. *)
Definition update_found_context (ctx_id : string) (w : PgWrite) : PgStmt unit :=
  mkStmt (λ _ _, []) (λ _ cur,
    match pg_select_ctx ctx_id cur with
    | Some _ => Ok (tt, [w])
    | None => Err "no row"
    end).

(** [INSERT INTO idempotency_records ... ON CONFLICT DO NOTHING]; the answer is
    whether a row was inserted. *)
Definition insert_key (k : string * string) (r : PgIdemRow) : PgStmt bool :=
  mkStmt (λ _ _, []) (λ _ cur,
    match pg_idempotency_records cur !! k with
    | Some _ => Ok (false, [])
    | None => Ok (true, [WPutKey k r])
    end).

(** [INSERT INTO idempotency_records ... ON CONFLICT DO UPDATE]. *)
Definition upsert_key (k : string * string) (r : PgIdemRow) : PgStmt unit :=
  mkStmt (λ _ _, []) (λ _ _, Ok (tt, [WPutKey k r])).

(** [INSERT INTO contexts]. *)
Definition insert_context (r : PgCtxRow) : PgStmt unit :=
  mkStmt (λ _ _, []) (λ _ cur,
    match pg_select_ctx (p_ctx_id r) cur with
    | Some _ => Err "duplicate key value violates unique constraint"
    | None => Ok (tt, [WInsertCtx r])
    end).

Definition has_token (h : string) (db : PgDb) : bool :=
  existsb (λ k, bool_decide (pk_token_hash k = h)) (pg_key_attestations db).
Definition has_attestation (c : string) (db : PgDb) : bool :=
  existsb (λ k, bool_decide (pk_ctx_id k = c)) (pg_key_attestations db).

(** [INSERT INTO key_attestations ... ON CONFLICT (token_hash) DO NOTHING], with
    [rows_affected]. *)
Definition insert_key_attestation (r : PgAttRow) : PgStmt nat :=
  mkStmt (λ _ _, []) (λ _ cur,
    if has_token (pk_token_hash r) cur then Ok (0, [])
    else if has_attestation (pk_ctx_id r) cur then Err "duplicate key value violates unique constraint"
    else if negb (pk_not_before_ms r <? pk_not_after_ms r)%Z then Err "new row violates check constraint"
    else Ok (1, [WInsertAttestation r])).

(** [INSERT INTO log_leaves VALUES ((SELECT COUNT( * ) FROM log_leaves), ...)]: the
    count is the snapshot's, the unique indexes are the committed ones. *)
Definition insert_log_leaf (ctx_id leaf_json leaf_hash : string) : PgStmt unit :=
  mkStmt (λ _ _, []) (λ snap cur,
    let leaf_index := Z.of_nat (length (pg_log_leaves snap)) in
    if existsb (λ l, (l_index l =? leaf_index)%Z) (pg_log_leaves cur)
    then Err "duplicate key value violates unique constraint"
    else if existsb (λ l, bool_decide (l_ctx_id l = ctx_id)) (pg_log_leaves cur)
    then Err "duplicate key value violates unique constraint"
    else Ok (tt, [WInsertLeaf (mkLeafRow leaf_index ctx_id leaf_json leaf_hash)])).

Definition event_at (c e : string) (r : PgEventRow) : bool :=
  bool_decide (pe_ctx_id r = c) && bool_decide (pe_event_id r = e).

(** [INSERT INTO lifecycle_events], [UNIQUE (ctx_id, event_id)] and the foreign key. *)
Definition insert_event_row (r : PgEventRow) : PgStmt unit :=
  mkStmt (λ _ _, []) (λ _ cur,
    if existsb (event_at (pe_ctx_id r) (pe_event_id r)) (pg_select_events (pe_ctx_id r) cur)
    then Err "duplicate key value violates unique constraint"
    else match pg_select_ctx (pe_ctx_id r) cur with
         | None => Err "insert or update violates foreign key constraint"
         | Some _ => Ok (tt, [WInsertEvent r])
         end).

(** [UPDATE lifecycle_events SET receipt = $1 WHERE ctx_id = $2 AND event_id = $3 AND
    receipt IS NULL], with [rows_affected]. *)
Definition fill_receipt (c e : string) (j : Jsonb) : PgStmt nat :=
  mkStmt (λ _ _, []) (λ snap cur,
    let rows d := List.filter (fill_here c e) (pg_select_events c d) in
    if is_empty (rows snap) || is_empty (rows cur) then Ok (0, [])
    else Ok (length (rows cur), [WSetReceipt c e j])).

(** [INSERT INTO changes]. *)
Definition insert_change (gap now_ms : Z) (a : FeedAppend) : PgStmt unit :=
  mkStmt (λ _ _, []) (λ _ _, Ok (tt, [WInsertChange gap now_ms a])).
End tables.

(** ** Rows and values *)

Section store.
Context `{StoreCodec} `{!PgCodec} `{PublishSdk} `{KeylessSdk}.

Record PgStore : Type := mkPgStore {
  pg_log_enabled : bool;
  pg_event_receipt_minter : option Minter
}.

Definition pg_minting (st : PgStore) : bool := bool_decide (is_Some (pg_event_receipt_minter st)).

(** [map_sqlx_err]. *)
Definition pg_err (m : string) : AcdpError := RegistryInternal ("postgres: " +:+ m).

Definition pg_decode_body (j : Jsonb) : result Body AcdpError :=
  map_err (λ e, RegistryInternal ("decode body: " +:+ e)) (body_from_value (from_jsonb j)).

Definition pg_decode_response (j : Jsonb) : result PublishResponse AcdpError :=
  map_err (λ e, RegistryInternal ("decode response: " +:+ e)) (response_from_value (from_jsonb j)).

Definition pg_row_to_context (r : PgCtxRow) : result FullContext AcdpError :=
  let? body := pg_decode_body (p_body_json r) in
  let status := if p_retracted r then Retracted else parse_status (p_status r) in
  Ok (full_context body status (from_jsonb <$> p_registry_receipt r)).

Definition pg_event_from_row (r : PgEventRow) : result LifecycleEvent AcdpError :=
  event_from_value (VObject
    ([("event_id", VString (pe_event_id r)); ("ctx_id", VString (pe_ctx_id r));
      ("event_type", VString (pe_event_type r)); ("occurred_at", VString (pe_occurred_at r));
      ("actor", VString (pe_actor r))]
     ++ (match pe_reason r with Some s => [("reason", VString s)] | None => [] end)
     ++ (match pe_signature r with Some j => [("signature", from_jsonb j)] | None => [] end))).

Definition pg_slot_from_row (r : PgEventRow) (index : nat) : result Slot AcdpError :=
  let? event := pg_event_from_row r in
  Ok (event, decode_receipt (from_jsonb <$> pe_receipt r) event (Z.of_nat index)).

Fixpoint pg_slots_from_rows (i : nat) (rows : list PgEventRow) : result (list Slot) AcdpError :=
  match rows with
  | [] => Ok []
  | r :: rows =>
      let? s := pg_slot_from_row r i in
      let? l := pg_slots_from_rows (S i) rows in
      Ok (s :: l)
  end.

Definition pg_index_row (r : PgAttRow) : result KeyAttestationIndexRow AcdpError :=
  let? identity := identity_from_columns (pk_identity_type r) (pk_issuer r) (pk_subject r) in
  Ok (mkIndexRow (pk_ctx_id r) (pk_controller r) identity (pk_org_wide r) (pk_key_id r) (pk_algorithm r)
        (pk_key_fingerprint r) (pk_not_before_ms r) (pk_not_after_ms r) (pk_token_hash r) (pk_created_at_ms r)).

Definition pg_att_row (r : KeyAttestationIndexRow) : PgAttRow :=
  mkPgAttRow (ir_ctx_id r) (ir_controller r) (identity_type r) (issuer r) (subject r) (ir_org_wide r) (ir_key_id r)
    (ir_algorithm r) (ir_key_fingerprint r) (ir_not_before_ms r) (ir_not_after_ms r) (ir_token_hash r)
    (ir_created_at_ms r).

(** ** The parts of a publish *)

(** The columns [insert_body] binds. *)
Definition pg_new_row (body : Body) (status : Status) (tenant : option string) (receipt : option Value)
    (body_json : Value) : PgCtxRow :=
  mkPgCtxRow (body_ctx_id body) (body_lineage_id body) (body_agent_id body) (body_contributors body)
    (body_origin_registry body) (pg_time (body_created_at body)) (status_str status)
    (visibility_str (body_visibility body)) (context_type_str (body_context_type body)) (body_version body)
    (body_supersedes body) (search_columns body (default [] (body_tags body))) (pg_time <$> body_expires_at body) (body_content_hash body) (to_jsonb body_json)
    (default "default" tenant) (to_jsonb <$> receipt) false.

Definition pg_insert_body (body : Body) (status : Status) (tenant : option string) (receipt : option Value) :
    PgProg unit :=
  let* body_json := plift (map_err (λ e, RegistryInternal ("encode body: " +:+ e)) (body_to_value body)) in
  pexec pg_err (insert_context (pg_new_row body status tenant receipt body_json)).

(** [successor] of [keyless.rs]: nothing locks the rows it joins. *)
Definition pg_successor (ctx_id : string) : PgProg (option SuccessorAttestation) :=
  let* row := ppeek (attestations_err "read") (λ db,
    match List.find (λ k, bool_decide (pk_ctx_id k = ctx_id)) (pg_key_attestations db), pg_select_ctx ctx_id db with
    | Some k, Some c => Some (k, p_retracted c)
    | _, _ => None
    end) in
  match row with
  | None => Ret None
  | Some (k, retracted) =>
      let* r := plift (pg_index_row k) in
      Ret (Some (mkSuccessor r retracted))
  end.

Definition pg_supersession_gate (req : PublishRequest) (predecessor : PgCtxRow) : PgProg unit :=
  match keyless_successor req with
  | None => Ret tt
  | Some att_ctx =>
      let* found := pg_successor att_ctx in
      let* succ := plift (admit_successor req att_ctx found) in
      let* body := plift (pg_decode_body (p_body_json predecessor)) in
      let* att := plift (predecessor_attestation body) in
      let* row := match att with
                  | Some c => let* s := pg_successor c in Ret (sa_row <$> s)
                  | None => Ret None
                  end in
      let* signer := plift (predecessor_signer att row) in
      plift (check_supersession signer succ)
  end.

Definition pg_window_gate (req : PublishRequest) (created_at : Z) : PgProg unit :=
  match keyless_successor req with
  | None => Ret tt
  | Some att_ctx =>
      let* found := pg_successor att_ctx in
      let* succ := plift (admit_successor req att_ctx found) in
      plift (check_window succ created_at)
  end.

Definition pg_index_attestation (body : Body) (authority : string) : PgProg unit :=
  let* row := plift (index_row_for body authority) in
  match row with
  | None => Ret tt
  | Some row =>
      let* inserted := pexec (attestations_err "insert") (insert_key_attestation (pg_att_row row)) in
      if (inserted =? 0)%nat then Abort (token_replayed (ir_token_hash row)) else Ret tt
  end.

(** [insert_all] of [changes.rs]; [draws] are the gaps in the identity values and the
    database's clock at each insert. *)
Fixpoint pg_insert_changes (draws : list (Z * Z)) (l : list FeedAppend) : PgProg unit :=
  match l with
  | [] => Ret tt
  | a :: l =>
      let '(gap, now_ms) := default (0, 0)%Z (hd_error draws) in
      let* _ := pexec (feed_err "append") (insert_change gap now_ms a) in
      pg_insert_changes (tail draws) l
  end.

Definition pg_insert_all (draws : list (Z * Z)) (l : list FeedAppend) : PgProg unit :=
  if is_empty l then Ret tt
  else
    let* _ := pexec (feed_err "lock") (advisory_lock LFeedAppend) in
    pg_insert_changes draws l.

Definition pg_append_publish (draws : list (Z * Z)) (body : Body) (receipt : option Value)
    (supersedes : option string) : PgProg unit :=
  match receipt with
  | None => Ret tt
  | Some _ =>
      let* predecessor :=
        match supersedes with
        | Some prev =>
            let* row := pexec (feed_err "predecessor") (select (pg_select_ctx prev)) in
            match row with
            | Some r => Ret (Some (mkPredecessor prev (p_agent_id r)))
            | None => Abort (feed_err "predecessor" "no rows returned by a query that expected to return at least one row")
            end
        | None => Ret None
        end in
      let* rows := plift (feed_appends_for_publish body receipt predecessor) in
      pg_insert_all draws rows
  end.

Definition pg_append_lifecycle (draws : list (Z * Z)) (event : LifecycleEvent) (body : Body)
    (receipt : option EventReceipt) : PgProg unit :=
  let* receipt := plift match receipt with
                        | Some r => let? v := receipt_value r in Ok (Some v)
                        | None => Ok None
                        end in
  let* row := plift (lifecycle_append event body receipt) in
  pg_insert_all draws (match row with Some a => [a] | None => [] end).

(** ** Publishing *)

(** The clock at entry, the random bits of the new id, what a delete finds of a row
    that was replaced under it, and the draws of the feed. *)
Record PgPublishEnv : Type := mkPgPublishEnv {
  pv_now : Z;
  pv_draw : Z;
  pv_again : bool;
  pv_feed : list (Z * Z)
}.

(** Step 1. *)
Definition pg_idempotency_step (env : PgPublishEnv) (req : PublishRequest) (key : string) :
    PgProg (option PublishResponse) :=
  let k := (req_agent_id req, key) in
  let* _ := pexec pg_err (delete_expired_key k (pv_now env) (pv_again env)) in
  let* row := pexec pg_err (select_for_update (LKey k) (λ db, pg_idempotency_records db !! k)) in
  match row with
  | None => Ret None
  | Some row =>
      if (pv_now env <? pi_expires_at row)%Z then
        if bool_decide (pi_content_hash row = req_content_hash req) then
          let* response := plift (pg_decode_response (pi_response_json row)) in
          Ret (Some response)
        else Abort (duplicate_publish key (req_agent_id req))
      else Ret None
  end.

(** [committed_idempotent_response]. *)
Definition committed_idempotent_response (req : PublishRequest) (key : string) (now : Z) :
    PgProg (option PublishResponse) :=
  let* row := pexec pg_err (select (λ db, pg_idempotency_records db !! (req_agent_id req, key))) in
  match row with
  | None => Ret None
  | Some row =>
      if negb (pg_time now <? pi_expires_at row)%Z then Ret None
      else if negb (bool_decide (pi_content_hash row = req_content_hash req))
      then Abort (duplicate_publish key (req_agent_id req))
      else let* response := plift (pg_decode_response (pi_response_json row)) in Ret (Some response)
  end.

(** Step 2: the answer is the lineage's first context, or the response to replay. *)
Definition pg_supersession_step (env : PgPublishEnv) (commit : PublishCommit) (prev : string) :
    PgProg (option string + PublishResponse) :=
  let req := pc_req commit in
  let* row := pexec pg_err (select_for_update (LRow prev) (pg_select_ctx prev)) in
  match row with
  | None => Abort (not_found prev)
  | Some row =>
      if (match pc_tenant commit with
          | Some t => negb (bool_decide (p_tenant_id row = t))
          | None => false
          end)
      then Abort (not_found prev)
      else if negb (bool_decide (p_agent_id row = req_agent_id req)
                    || bool_decide (req_agent_id req ∈ p_contributors row))
      then Abort (not_found prev)
      else if (match req_lineage_id req with
               | Some declared => negb (bool_decide (declared = p_lineage_id row))
               | None => false
               end)
      then Abort (SupersededTarget SR_LineageMismatch
                    ("declared lineage_id '" +:+ default EmptyString (req_lineage_id req) +:+
                     "' ≠ predecessor's '" +:+ p_lineage_id row +:+ "'"))
      else if negb (req_version req =? p_version row + 1)%Z
      then Abort (SupersededTarget SR_VersionMismatch
                    ("version " +:+ pretty (req_version req) +:+
                     " ≠ predecessor.version + 1 (" +:+ pretty (p_version row + 1)%Z +:+ ")"))
      else if bool_decide (p_status row = "superseded")
      then
        let* winner := match pc_idempotency commit with
                       | Some (key, _) => committed_idempotent_response req key (pv_now env)
                       | None => Ret None
                       end in
        match winner with
        | Some winner => Ret (inr winner)
        | None => Abort (SupersededTarget SR_AlreadySuperseded
                           ("supersedes target '" +:+ prev +:+ "' has already been superseded"))
        end
      else
        let* _ := pg_supersession_gate req row in
        let* _ := match pc_predecessor_admission commit with
                  | Some admission =>
                      let* body := plift (pg_decode_body (p_body_json row)) in
                      plift (admission body)
                  | None => Ret tt
                  end in
        let* first := pexec pg_err (select (first_of (p_lineage_id row))) in
        Ret (inl first)
  end.

(** Steps 3 and 4. *)
Definition pg_build_step (env : PgPublishEnv) (commit : PublishCommit) (first_v1 : option string) :
    PgProg (Body * option Value) :=
  let req := pc_req commit in
  let* '(ctx_id, lineage_id) :=
    plift (assign_identifiers (pc_authority commit) (req_supersedes req) first_v1 (pv_draw env)) in
  let created_at := trunc_ms (pv_now env) in
  let body := from_publish_request req ctx_id lineage_id (pc_authority commit) created_at in
  let* _ := pg_window_gate req created_at in
  let* receipt := plift match pc_receipt_minter commit with
                        | Some mint => let? v := mint body in Ok (Some v)
                        | None => Ok None
                        end in
  Ret (body, receipt).

(** Step 5.5: the advisory lock is a statement of its own before the insert. *)
Definition pg_log_step (st : PgStore) (body : Body) (receipt : option Value) : PgProg unit :=
  if pg_log_enabled st then
    match receipt with
    | None => Abort (RegistryInternal
        ("transparency log is enabled but no receipt was minted for this publish — the log " +:+
         "profile's prerequisite is the receipts profile (RFC-ACDP-0012 §11) and there is no " +:+
         "degraded mode (§7.1); aborting the publish"))
    | Some receipt =>
        let* '(leaf_json, leaf_hash) := plift (build_leaf_record body receipt) in
        let* _ := pexec pg_err (advisory_lock LLogAppend) in
        pexec pg_err (insert_log_leaf (body_ctx_id body) leaf_json leaf_hash)
    end
  else Ret tt.

(** The read back of a key another publish has claimed, after the rollback. *)
Definition pg_claimed_response (req : PublishRequest) (key : string) (db : PgDb) :
    result PublishCommitOutcome AcdpError :=
  match pg_idempotency_records db !! (req_agent_id req, key) with
  | None => Err (RegistryInternal
      "idempotency key claimed by a concurrent publish but its record could not be read back")
  | Some row =>
      if negb (bool_decide (pi_content_hash row = req_content_hash req))
      then Err (duplicate_publish key (req_agent_id req))
      else
        let? winner := pg_decode_response (pi_response_json row) in
        Ok (IdempotentReplay winner)
  end.

(** Step 7. *)
Definition pg_claim_step (env : PgPublishEnv) (req : PublishRequest) (key : string) (ttl : Z)
    (response : PublishResponse) : PgProg bool :=
  let* response_json := plift (map_err (λ e, RegistryInternal ("encode response: " +:+ e))
                                 (response_to_value response)) in
  pexec pg_err (insert_key (req_agent_id req, key)
    (mkPgIdemRow (req_content_hash req) (to_jsonb response_json) (pg_time (pv_now env + ttl)))).

Definition pg_write_step (st : PgStore) (env : PgPublishEnv) (commit : PublishCommit) (first_v1 : option string) :
    PgProg (TxEnd PgDb PublishCommitOutcome) :=
  let req := pc_req commit in
  let* '(body, receipt) := pg_build_step env commit first_v1 in
  let* _ := pg_insert_body body Active (pc_tenant commit) receipt in
  let* _ := pg_index_attestation body (pc_authority commit) in
  let* _ := pg_log_step st body receipt in
  let* _ := match req_supersedes req with
            | Some prev => pexec pg_err (update_context prev (WSetStatus prev "superseded"))
            | None => Ret tt
            end in
  let response := publish_response req body (pv_now env) receipt in
  let* claimed := match pc_idempotency commit with
                  | Some (key, ttl) => pg_claim_step env req key ttl response
                  | None => Ret true
                  end in
  if negb claimed then
    Ret (RollbackRead match pc_idempotency commit with
                      | Some (key, _) => pg_claimed_response req key
                      | None => λ _, Ok (Inserted response)
                      end)
  else
    let* _ := pg_append_publish (pv_feed env) body receipt (req_supersedes req) in
    Ret (Commit (Inserted response)).

(** [commit_publish]. *)
Definition pg_commit_publish (st : PgStore) (env : PgPublishEnv) (commit : PublishCommit) :
    PgProg (TxEnd PgDb PublishCommitOutcome) :=
  let req := pc_req commit in
  let* replay := match pc_idempotency commit with
                 | Some (key, _) => pg_idempotency_step env req key
                 | None => Ret None
                 end in
  match replay with
  | Some response => Ret (Rollback (IdempotentReplay response))
  | None =>
      let* first_v1 := match req_supersedes req with
                       | Some prev => pg_supersession_step env commit prev
                       | None => Ret (inl None)
                       end in
      match first_v1 with
      | inr winner => Ret (Rollback (IdempotentReplay winner))
      | inl first_v1 => pg_write_step st env commit first_v1
      end
  end.

(** ** Lifecycle events *)

(** The row a lifecycle commit inserts. *)
Definition pg_event_row (event : LifecycleEvent) (signature : option Value) (tenant_id : string)
    (receipt : option Value) : PgEventRow :=
  mkPgEventRow (event_ctx_id event) (event_id event) (event_type_text event) (event_occurred_text event)
    (event_actor event) (event_reason event) (to_jsonb <$> signature) tenant_id (to_jsonb <$> receipt).

Fixpoint pg_write_fills (what ctx_id : string) (slots : list Slot) (fills : list (nat * EventReceipt)) : PgProg unit :=
  match fills with
  | [] => Ret tt
  | (i, r) :: fills =>
      let* value := plift (receipt_value r) in
      let* slot := plift (ok_or (slots !! i) (RegistryInternal "index out of bounds")) in
      let* done := pexec pg_err (fill_receipt ctx_id (event_id slot.1) (to_jsonb value)) in
      if negb (done =? 1)%nat
      then Abort (RegistryInternal (what +:+ " for '" +:+ event_id slot.1 +:+ "' matched " +:+ pretty done +:+ " rows"))
      else pg_write_fills what ctx_id slots fills
  end.

(** Step 5. *)
Definition pg_append_event_step (st : PgStore) (event : LifecycleEvent) (row : PgCtxRow) (ctx : FullContext)
    (slots : list Slot) (now : Z) (draws : list (Z * Z)) : PgProg (option ReceiptPlan) :=
  let* plan :=
    plift match pg_event_receipt_minter st with
          | Some m =>
              let? p := plan_event_receipts m (event_ctx_id event) (body_created_at (fc_body ctx)) slots event now in
              Ok (Some p)
          | None => Ok None
          end in
  let* _ := match plan with
            | Some p => pg_write_fills "event receipt fill" (event_ctx_id event) slots (plan_fills p)
            | None => Ret tt
            end in
  let* receipt_json := plift match plan with
                             | Some p => let? v := receipt_value (plan_new p) in Ok (Some v)
                             | None => Ok None
                             end in
  let* signature_json := plift (map_err (λ e, RegistryInternal ("encode signature: " +:+ e)) (signature_to_value event)) in
  let* _ := pexec pg_err (insert_event_row (pg_event_row event signature_json (p_tenant_id row) receipt_json)) in
  let* _ := pexec pg_err (update_context (event_ctx_id event)
                            (WSetRetracted (event_ctx_id event) (is_retraction event))) in
  let* _ := pg_append_lifecycle draws event (fc_body ctx) (plan_new <$> plan) in
  Ret plan.

(** [commit_lifecycle_event]; [now] is the clock once the row is locked. *)
Definition pg_commit_lifecycle_event (st : PgStore) (event : LifecycleEvent) (now : Z) (draws : list (Z * Z)) :
    PgProg (TxEnd PgDb LifecycleCommitOutcome) :=
  let* row := pexec pg_err (select_for_update (LRow (event_ctx_id event)) (pg_select_ctx (event_ctx_id event))) in
  match row with
  | None => Abort (NotFound ("context '" +:+ event_ctx_id event +:+ "' not found in this registry"))
  | Some row =>
      let* ctx := plift (pg_row_to_context row) in
      let* rows := pexec pg_err (select (pg_select_events (event_ctx_id event))) in
      let* slots := plift (pg_slots_from_rows 0 rows) in
      match List.find (λ s : Slot, bool_decide (event_id s.1 = event_id event)) slots with
      | Some (prior, _) =>
          if bool_decide (prior = event) then
            let '(events, receipts) := split_slots slots in
            Ret (Rollback (LcReplay (project_context (attach_events ctx events receipts (pg_minting st)) now)))
          else
            Abort (event_id_taken event)
      | None =>
          let* _ := plift (transition_step event (retraction_state (map fst slots))) in
          let* plan := pg_append_event_step st event row ctx slots now draws in
          let slots := match plan with
                       | Some plan => appended slots event plan
                       | None => slots ++ [(event, RNull)]
                       end in
          let '(events, receipts) := split_slots slots in
          let ctx := attach_events ctx events receipts (pg_minting st) in
          let status :=
            if is_retraction event then Retracted
            else project_status_inline (parse_status (p_status row)) (body_expires_at (fc_body ctx)) now in
          Ret (Commit (LcApplied (set_fc_status status ctx)))
      end
  end.

(** [backfill_ctx]. *)
Definition pg_end_sweep (report : SweepReport) (rollback : option string) : TxEnd PgDb SweepReport :=
  RollbackRead (λ _, match rollback with
                     | None => Ok report
                     | Some m => Err (RegistryInternal ("tx rollback: " +:+ m))
                     end).

Definition pg_backfill_ctx (mint : Minter) (ctx_id : string) (report : SweepReport) (now : Z)
    (rollback : option string) : PgProg (TxEnd PgDb SweepReport) :=
  let* row := pexec pg_err (select_for_update (LRow ctx_id) (pg_select_ctx ctx_id)) in
  match row with
  | None => Ret (pg_end_sweep (record_skipped report) rollback)
  | Some row =>
      let* rows := pexec pg_err (select (pg_select_events ctx_id)) in
      match (let? ctx := pg_row_to_context row in
             let? slots := pg_slots_from_rows 0 rows in
             Ok (ctx, slots)) with
      | Err _ => Ret (pg_end_sweep (record_skipped report) rollback)
      | Ok (ctx, slots) =>
          let* plan := plift (plan_backfill mint (body_ctx_id (fc_body ctx)) (body_created_at (fc_body ctx)) slots now) in
          match plan with
          | BComplete => Ret (pg_end_sweep report rollback)
          | BHole => Ret (pg_end_sweep (record_skipped report) rollback)
          | BFill fills =>
              let* _ := pg_write_fills "event receipt sweep fill" ctx_id slots fills in
              Ret (Commit (record_filled (length fills) report))
          end
      end
  end.

(** [idempotency_record]. *)
Definition pg_idempotency_record (agent_id key hash : string) (response : PublishResponse) (expires_at : Z) :
    PgProg (TxEnd PgDb unit) :=
  let* response_json := plift (map_err (λ e, RegistryInternal ("encode response: " +:+ e))
                                 (response_to_value response)) in
  let* _ := pexec pg_err (upsert_key (agent_id, key)
              (mkPgIdemRow hash (to_jsonb response_json) (pg_time expires_at))) in
  Ret (Commit tt).

(** [evict_idempotency_inner] and [set_tenant_of_ctx]: one statement each, committed
    at once. What its scan finds is a peek; then it locks and changes those rows. *)
Definition pg_evict_idempotency (now : Z) (missed : list (string * string)) : PgProg (TxEnd PgDb unit) :=
  let* found := ppeek pg_err (expired_keys now) in
  let* _ := pexec pg_err (delete_found_keys now found missed) in
  Ret (Commit tt).

Definition pg_set_tenant_of_ctx (ctx_id tenant_id : string) : PgProg (TxEnd PgDb unit) :=
  if bool_decide (tenant_id = "default") then Ret (Commit tt)
  else
    let wrap m := RegistryInternal ("set_tenant_of_ctx: " +:+ m) in
    let* found := ppeek wrap (pg_select_ctx ctx_id) in
    match found with
    | None => Ret (Commit tt)
    | Some _ =>
        let* _ := pexec wrap (update_found_context ctx_id (WSetTenant ctx_id tenant_id)) in
        Ret (Commit tt)
    end.

(** ** What the server runs *)

Inductive PgAnswer : Type :=
  | PgPublished (o : PublishCommitOutcome)
  | PgLifecycle (o : LifecycleCommitOutcome)
  | PgSwept (r : SweepReport)
  | PgDone.

Definition map_end {A B} (f : A → B) (e : TxEnd PgDb A) : TxEnd PgDb B :=
  match e with
  | Commit a => Commit (f a)
  | RollbackRead k => RollbackRead (λ db, let? a := k db in Ok (f a))
  end.

Definition answering {A B} (f : A → B) (p : PgProg (TxEnd PgDb A)) : PgProg (TxEnd PgDb B) :=
  let* e := p in Ret (map_end f e).

(** A write transaction of the server. *)
Inductive PgTransaction : Type :=
  | TxPublish (env : PgPublishEnv) (commit : PublishCommit)
  | TxLifecycle (event : LifecycleEvent) (now : Z) (draws : list (Z * Z))
  | TxSweep (mint : Minter) (ctx_id : string) (report : SweepReport) (now : Z) (rollback : option string)
  | TxRecord (agent_id key hash : string) (response : PublishResponse) (expires_at : Z)
  | TxEvict (now : Z) (missed : list (string * string))
  | TxTenant (ctx_id tenant_id : string).

Definition pg_program (st : PgStore) (t : PgTransaction) : PgProg (TxEnd PgDb PgAnswer) :=
  match t with
  | TxPublish env commit => answering PgPublished (pg_commit_publish st env commit)
  | TxLifecycle event now draws => answering PgLifecycle (pg_commit_lifecycle_event st event now draws)
  | TxSweep mint c report now rb => answering PgSwept (pg_backfill_ctx mint c report now rb)
  | TxRecord agent key hash response e => answering (λ _, PgDone) (pg_idempotency_record agent key hash response e)
  | TxEvict now missed => answering (λ _, PgDone) (pg_evict_idempotency now missed)
  | TxTenant c t => answering (λ _, PgDone) (pg_set_tenant_of_ctx c t)
  end.
End store.
