(* ===== verification/PgSerial.v ===== *)
(** * Postgres transactions are serial

    The programs of [PgStore] follow a protocol: context rows and what belongs to them
    are written under the row's lock, idempotency keys and attestations under their
    index entries, log leaves and feed rows under the two advisory locks. What they
    read without a lock either cannot change (the first version of a lineage), or is
    decided again by a write of the same transaction (whether an idempotency key is
    free), or is a peek of the keyless gates. Hence under READ COMMITTED every
    interleaving of them is a serial history. *)

From S2P Require Import Prelude Text Errors ContextTypes ChangeBucket ChangeFeed FeedBackends.
From S2P Require Import EventReceipts KeyAttestations SqlTx SqliteStore SqliteLog PgTx PgStore.

Open Scope registry_scope.

Section protocol.
Context `{PgCodec} `{PublishSdk}.

(** The locks a session holds for each of its writes. *)
Definition pg_guard (w : PgWrite) : list PgLock :=
  match w with
  | WInsertCtx r => [LRow (p_ctx_id r)]
  | WSetStatus c _ | WSetTenant c _ | WSetRetracted c _ | WSetReceipt c _ _ => [LRow c]
  | WInsertEvent r => [LRow (pe_ctx_id r)]
  | WDeleteKey k | WPutKey k _ => [LKey k]
  | WInsertAttestation r => [LToken (pk_token_hash r); LAttestation (pk_ctx_id r)]
  | WInsertLeaf _ => [LLogAppend]
  | WInsertChange _ _ _ => [LFeedAppend]
  end.

(** What a lock protects. *)
Definition pg_same_at (l : PgLock) (d d' : PgDb) : Prop :=
  match l with
  | LRow c => pg_select_ctx c d = pg_select_ctx c d' ∧ pg_select_events c d = pg_select_events c d'
  | LKey k => pg_idempotency_records d !! k = pg_idempotency_records d' !! k
  | LToken h => has_token h d = has_token h d'
  | LAttestation c => has_attestation c d = has_attestation c d'
  | LLogAppend => pg_log_leaves d = pg_log_leaves d'
  | LEvent _ _ | LLeaf _ | LLeafCtx _ | LFeedAppend => True
  end.

#[export] Instance pg_same_at_equiv l : Equivalence (pg_same_at l).
Proof.
  split; unfold Reflexive, Symmetric, Transitive; destruct l; cbn [pg_same_at]; intros; destruct_and?; try split; try done; congruence.
Qed.

Definition keeps_id (f : PgCtxRow → PgCtxRow) : Prop := ∀ r, p_ctx_id (f r) = p_ctx_id r.

Lemma find_update c c' f l : keeps_id f →
  List.find (is_ctx c) (update_rows (is_ctx c') f l) =
  (if bool_decide (c' = c) then f else id) <$> List.find (is_ctx c) l.
Proof.
  intros Hf. unfold update_rows. induction l as [|r l IH]; simpl; [done|].
  unfold is_ctx in *.
  destruct (decide (p_ctx_id r = c')) as [Heq|Hne].
  - rewrite (bool_decide_eq_true_2 _ Heq) Hf. destruct (decide (p_ctx_id r = c)) as [Hc|Hc].
    + rewrite (bool_decide_eq_true_2 _ Hc) bool_decide_eq_true_2; [done|congruence].
    + by rewrite (bool_decide_eq_false_2 _ Hc).
  - rewrite (bool_decide_eq_false_2 _ Hne). destruct (decide (p_ctx_id r = c)) as [Hc|Hc].
    + rewrite (bool_decide_eq_true_2 _ Hc) bool_decide_eq_false_2; [done|congruence].
    + by rewrite (bool_decide_eq_false_2 _ Hc).
Qed.

Lemma find_snoc {T} (p : T → bool) l x :
  List.find p (l ++ [x]) = match List.find p l with Some y => Some y | None => if p x then Some x else None end.
Proof. induction l as [|y l IH]; simpl; [done|]. by destruct (p y). Qed.

Lemma filter_update_events c c' e j l :
  filter (λ r, pe_ctx_id r = c) (update_rows (fill_here c' e) (pg_set_receipt j) l) =
  update_rows (fill_here c' e) (pg_set_receipt j) (filter (λ r, pe_ctx_id r = c) l).
Proof.
  unfold update_rows. induction l as [|r l IH]; [done|]. cbn [map]. rewrite !filter_cons.
  replace (pe_ctx_id (if fill_here c' e r then pg_set_receipt j r else r)) with (pe_ctx_id r)
    by (by destruct (fill_here c' e r)).
  destruct (decide (pe_ctx_id r = c)); simpl; by rewrite IH.
Qed.

Lemma update_events_other c c' e j l :
  c ≠ c' → update_rows (fill_here c' e) (pg_set_receipt j) (filter (λ r, pe_ctx_id r = c) l) =
           filter (λ r, pe_ctx_id r = c) l.
Proof.
  intros Hne. unfold update_rows. rewrite -{2}(map_id (filter _ l)). apply map_ext_in.
  intros r Hr. apply list_elem_of_In, list_elem_of_filter in Hr as [Hc _].
  unfold fill_here. rewrite bool_decide_eq_false_2; [done|congruence].
Qed.

Lemma existsb_snoc {T} (p : T → bool) l x : existsb p (l ++ [x]) = existsb p l || p x.
Proof. rewrite existsb_app /=. by rewrite orb_false_r. Qed.

Lemma pg_apply_cong l w d d' : pg_same_at l d d' → pg_same_at l (pg_apply w d) (pg_apply w d').
Proof.
  destruct l as [c|c e|k|h|c|i|c| |]; simpl; try done.
  - intros [Hc He]. unfold pg_select_ctx, pg_select_events in *.
    destruct w; simpl; try done; (split; [|]); rewrite ?filter_app ?filter_update_events ?find_snoc ?He //;
      rewrite ?find_update ?Hc //.
  - intros Hk. destruct w as [| | | | | |k'|k' r'| | |]; simpl; try done;
      destruct (decide (k' = k)) as [->|Hne]; by simplify_map_eq.
  - intros Hh. destruct w; simpl; try done. unfold has_token in *. simpl. by rewrite !existsb_snoc Hh.
  - intros Hh. destruct w; simpl; try done. unfold has_attestation in *. simpl. by rewrite !existsb_snoc Hh.
  - intros Hh. destruct w; simpl; try done. by rewrite Hh.
Qed.

Lemma pg_apply_other l w d : l ∉ pg_guard w → pg_same_at l (pg_apply w d) d.
Proof.
  destruct l as [c|c e|k|h|c|i|c| |]; simpl; try done.
  - intros Hl. unfold pg_select_ctx, pg_select_events.
    assert (∀ c' : string, LRow c ∉ [LRow c'] → c ≠ c') as Hne by set_solver.
    destruct w as [r|c' s|c' t|c' b|r|c' e j|k|k r|r|r|g n a]; simpl in *; try done; apply Hne in Hl || idtac;
      (split; [|]); rewrite ?find_update ?bool_decide_eq_false_2 ?option_fmap_id //.
    + rewrite find_snoc. destruct (List.find _ _); [done|]. unfold is_ctx. by rewrite bool_decide_eq_false_2.
    + rewrite filter_app filter_cons_False; [|done]. by rewrite filter_nil app_nil_r.
    + by rewrite filter_update_events update_events_other.
  - intros Hl. destruct w as [| | | | | |k'|k' r'| | |]; simpl in *; try done;
      (assert (k' ≠ k) by set_solver); by simplify_map_eq.
  - intros Hl. destruct w as [| | | | | | | |r| |]; simpl in *; try done. unfold has_token. simpl.
    rewrite existsb_snoc bool_decide_eq_false_2; [by rewrite orb_false_r|set_solver].
  - intros Hl. destruct w as [| | | | | | | |r| |]; simpl in *; try done. unfold has_attestation. simpl.
    rewrite existsb_snoc bool_decide_eq_false_2; [by rewrite orb_false_r|set_solver].
  - intros Hl. destruct w; simpl in *; try done. set_solver.
Qed.
End protocol.

(** ** What every commit keeps *)

Section invariant.
Context `{PgCodec} `{PublishSdk}.

(** [f] is the first version of [r]'s lineage. *)
Definition founds (f r : PgCtxRow) : Prop :=
  p_lineage_id r = lineage_of (p_ctx_id f) ∧ p_lineage_id f = p_lineage_id r ∧
  (p_version f ≤ p_version r)%Z ∧ (p_version r = p_version f → r = f).

(** Ids are unique, and every row has the first version of its lineage. *)
Definition pg_inv (db : PgDb) : Prop :=
  NoDup (map p_ctx_id (pg_contexts db)) ∧
  ∀ r, r ∈ pg_contexts db → ∃ f, f ∈ pg_contexts db ∧ founds f r.

Definition pg_advance (d d' : PgDb) : Prop := pg_inv d → pg_inv d'.

#[local] Instance pg_version_order_trans : Transitive pg_version_order.
Proof. intros a b c. unfold pg_version_order. lia. Qed.

#[local] Instance pg_version_order_total : Total pg_version_order.
Proof. intros a b. unfold pg_version_order. lia. Qed.

Lemma pg_same_id db r s :
  pg_inv db → r ∈ pg_contexts db → s ∈ pg_contexts db → p_ctx_id r = p_ctx_id s → r = s.
Proof.
  intros [Hnd _] Hr Hs Heq.
  apply list_elem_of_lookup in Hr as [i Hi]. apply list_elem_of_lookup in Hs as [j Hj].
  assert (i = j) as <-; [|congruence].
  eapply NoDup_lookup; [exact Hnd| |]; rewrite list_lookup_fmap; [by rewrite Hi|by rewrite Hj /= Heq].
Qed.

Lemma pg_select_ctx_in c db r : pg_select_ctx c db = Some r → r ∈ pg_contexts db ∧ p_ctx_id r = c.
Proof.
  intros Hf. apply List.find_some in Hf as [Hin Hc]. split; [by apply list_elem_of_In|].
  by apply bool_decide_eq_true in Hc.
Qed.

Lemma pg_select_ctx_none c db : pg_select_ctx c db = None → c ∉ map p_ctx_id (pg_contexts db).
Proof.
  intros Hf (r & Hc & Hr)%list_elem_of_fmap. apply list_elem_of_In in Hr.
  pose proof (List.find_none _ _ Hf r Hr) as Hn. unfold is_ctx in Hn. by apply bool_decide_eq_false in Hn.
Qed.

(** The query for the first version of a lineage finds it. *)
Lemma first_of_founder `{!PublishSdkLaws} db r :
  pg_inv db → r ∈ pg_contexts db →
  ∃ c, first_of (p_lineage_id r) db = Some c ∧ p_lineage_id r = lineage_of c.
Proof.
  intros Hi Hr. pose proof Hi as [Hnd Hf].
  destruct (Hf r Hr) as (f & Hfin & Hl & Hfl & Hv & Huniq).
  unfold first_of, pg_select_lineage.
  pose proof (StronglySorted_merge_sort pg_version_order (filter (λ r0, p_lineage_id r0 = p_lineage_id r) (pg_contexts db))) as Hsort.
  pose proof (merge_sort_Permutation pg_version_order (filter (λ r0, p_lineage_id r0 = p_lineage_id r) (pg_contexts db))) as Hperm.
  assert (f ∈ merge_sort pg_version_order (filter (λ r0, p_lineage_id r0 = p_lineage_id r) (pg_contexts db))) as Hfm.
  { rewrite Hperm. by apply list_elem_of_filter. }
  destruct (merge_sort _ _) as [|h t]; [by apply elem_of_nil in Hfm|]. simpl.
  assert (h ∈ filter (λ r0, p_lineage_id r0 = p_lineage_id r) (pg_contexts db)) as Hh by (rewrite -Hperm; set_solver).
  apply list_elem_of_filter in Hh as [Hhl Hhin].
  destruct (Hf h Hhin) as (f' & Hf'in & Hl' & Hfl' & Hv' & Huniq').
  assert (f' = f) as ->.
  { apply (pg_same_id db); [done..|]. apply (inj lineage_of). congruence. }
  assert (h = f) as ->.
  { apply elem_of_cons in Hfm as [->|Hft]; [done|]. apply Huniq'.
    inversion Hsort as [|? ? _ Hall]; subst. rewrite Forall_forall in Hall.
    specialize (Hall f Hft). unfold pg_version_order in Hall. lia. }
  exists (p_ctx_id f). by rewrite Hl.
Qed.

Lemma pg_inv_update p f db :
  (∀ r, p_ctx_id (f r) = p_ctx_id r ∧ p_lineage_id (f r) = p_lineage_id r ∧ p_version (f r) = p_version r) →
  pg_inv db → pg_inv (on_contexts (update_rows p f) db).
Proof.
  intros Hk [Hnd Hf]. unfold update_rows. set (g r := if p r then f r else r).
  assert (∀ r, p_ctx_id (g r) = p_ctx_id r ∧ p_lineage_id (g r) = p_lineage_id r ∧ p_version (g r) = p_version r) as Hg.
  { intros r. unfold g. by destruct (p r). }
  split; simpl.
  - rewrite map_map. erewrite map_ext; [exact Hnd|]. intros r. apply Hg.
  - intros r' (r & -> & Hr)%list_elem_of_fmap. destruct (Hf r Hr) as (f0 & Hf0 & Hl & Hfl & Hv & Hu).
    exists (g f0). split; [by apply list_elem_of_fmap_2|].
    destruct (Hg r) as (Hr1 & Hr2 & Hr3), (Hg f0) as (Hf1 & Hf2 & Hf3).
    unfold founds. rewrite Hr2 Hf1 Hf2 Hr3 Hf3. split_and!; [done|done|done|]. by intros ->%Hu.
Qed.

Lemma pg_inv_insert row db :
  pg_inv db → pg_select_ctx (p_ctx_id row) db = None →
  (p_lineage_id row = lineage_of (p_ctx_id row) ∨
   ∃ q, q ∈ pg_contexts db ∧ p_lineage_id row = p_lineage_id q ∧ p_version row = (p_version q + 1)%Z) →
  pg_inv (on_contexts (λ l, l ++ [row]) db).
Proof.
  intros [Hnd Hf] Hnew Hcase. apply pg_select_ctx_none in Hnew. split; simpl.
  - rewrite map_app. apply NoDup_app. split; [done|]. split; [set_solver|apply NoDup_singleton].
  - intros r [Hr|Hr%list_elem_of_singleton]%elem_of_app.
    + destruct (Hf r Hr) as (f & Hfin & Hfr). exists f. split; [set_solver|done].
    + subst r. destruct Hcase as [Hl|(q & Hq & Hl & Hv)].
      * exists row. split; [set_solver|]. unfold founds. split_and!; [done|done|lia|done].
      * destruct (Hf q Hq) as (f & Hfin & Hfl & Hflq & Hfv & _). exists f. split; [set_solver|].
        unfold founds. rewrite Hl Hv. split_and!; [done|done|lia|lia].
Qed.

(** A write that inserts no context. *)
Definition quiet (w : PgWrite) : Prop := match w with WInsertCtx _ => False | _ => True end.

Lemma pg_inv_quiet w db : quiet w → pg_inv db → pg_inv (pg_apply w db).
Proof. destruct w; simpl; try done; intros _; by apply pg_inv_update. Qed.

Lemma pg_inv_quiets ws : ∀ db, Forall quiet ws → pg_inv db → pg_inv (view pg_apply ws db).
Proof.
  induction ws as [|w ws IH]; intros db Hq Hdb; [done|]. apply Forall_cons in Hq as [Hw Hq].
  apply IH; [done|]. by apply pg_inv_quiet.
Qed.
End invariant.

(** ** The programs follow the protocol *)

Section discipline.
Context `{StoreCodec} `{!PgCodec} `{PublishSdk} `{KeylessSdk} `{!PublishSdkLaws}.

Notation Pt := (Point PgDb PgLock PgWrite).
Notation pwp := (wp pg_apply pg_lock_of pg_guard pg_same_at pg_advance).
Notation held := (held pg_apply pg_lock_of).
Notation view := (view pg_apply).

(** The invariant holds of what a session would commit. *)
Definition sound (pt : Pt) : Prop := ∀ d, pt_holds pt d → pg_inv (view (pt_writes pt) d).

(** A write that inserts no context and touches no idempotency key. *)
Definition plain (w : PgWrite) : Prop :=
  match w with WInsertCtx _ | WDeleteKey _ | WPutKey _ _ => False | _ => True end.

Lemma plain_quiet ws : Forall plain ws → Forall quiet ws.
Proof. intros Hw. eapply Forall_impl; [exact Hw|]. by intros []. Qed.

Lemma plain_keys ws : ∀ d, Forall plain ws → pg_idempotency_records (view ws d) = pg_idempotency_records d.
Proof.
  induction ws as [|w ws IH]; intros d Hw; [done|]. apply Forall_cons in Hw as [Hw Hws].
  cbn. rewrite IH //. by destruct w.
Qed.

(** [pt'] is further on: with more locks, more known, and no more owed. *)
Record follows (pt pt' : Pt) : Prop := mkFollows {
  fo_locks : ∀ l, l ∈ pt_locks pt → l ∈ pt_locks pt';
  fo_holds : ∀ d, pt_holds pt' d → pt_holds pt d;
  fo_owes : ∀ d, pt_owes pt' d ↔ pt_owes pt d;
  fo_sound : sound pt → sound pt';
  fo_keys : ∀ d, pg_idempotency_records (view (pt_writes pt') d) = pg_idempotency_records (view (pt_writes pt) d)
}.

#[local] Instance follows_preorder : PreOrder follows.
Proof.
  split.
  - intros pt. by split.
  - intros p1 p2 p3 [? ? Ho1 ? Hk1] [? ? Ho2 ? Hk2]. split; auto; intros d; [by rewrite Ho2|by rewrite Hk2].
Qed.

(** A statement that inserts no context and whose answer the locks keep. *)
Lemma stmt_wp {A} wrap (s : PgStmt A) (Q : A → Pt → Prop) pt (F : PgDb → A → list PgWrite → PgDb → Prop) :
  (∀ snap cur b ws', pt_holds pt snap → pt_holds pt cur →
     (∀ l, l ∈ pt_locks pt → pg_same_at l cur snap) →
     st_run s (view (pt_writes pt) snap) (view (pt_writes pt) cur) = Ok (b, ws') →
     let ls := held s pt snap cur ws' in
     (∀ w l, w ∈ ws' → l ∈ pg_guard w → l ∈ ls) ∧
     F cur b ws' cur ∧
     (∀ d d', pt_holds pt d → F cur b ws' d → rely pg_same_at pg_advance ls d d' → F cur b ws' d') ∧
     (∀ d, pt_holds pt d → F cur b ws' d → repeats pg_apply s (pt_writes pt) b ws' d) ∧
     Forall plain ws' ∧
     (∀ pt', follows pt pt' → pt_writes pt' = pt_writes pt ++ ws' → pt_locks pt' = ls →
             (∀ d, pt_holds pt' d → F cur b ws' d) → Q b pt')) →
  pwp (pexec wrap s) Q pt.
Proof.
  intros Hs. unfold pexec. eapply wp_exec_fact with (F := F).
  intros snap cur b ws' Hsn Hc Hl Hr ls. destruct (Hs snap cur b ws' Hsn Hc Hl Hr) as (Hg1 & Hg2 & Hg3 & Hg4 & Hq & HQ).
  split; [done|]. split; [done|]. split; [done|]. split; [done|]. simpl. apply HQ; [|done|done|by intros d [_ ?]].
  split; simpl; [| |done| |].
  - intros l Hin. unfold ls, PgTx.held. set_solver.
  - by intros d [? _].
  - intros Hso d [Hd _]. simpl in *. rewrite view_app. by apply pg_inv_quiets, Hso; [apply plain_quiet|].
  - intros d. rewrite view_app. by apply plain_keys.
Qed.

Lemma held_old {A} (s : PgStmt A) pt snap cur ws' l : l ∈ pt_locks pt → l ∈ held s pt snap cur ws'.
Proof. intros. unfold PgTx.held. set_solver. Qed.

(** The locks of the writes of a statement. *)
Lemma guard_none (ls : list PgLock) : ∀ w l, w ∈ [] → l ∈ pg_guard w → l ∈ ls.
Proof. intros w l Hw. by apply elem_of_nil in Hw. Qed.

Lemma guard_one (ls : list PgLock) v : (∀ l, l ∈ pg_guard v → l ∈ ls) → ∀ w l, w ∈ [v] → l ∈ pg_guard w → l ∈ ls.
Proof. intros Hv w l Hw. apply list_elem_of_singleton in Hw as ->. apply Hv. Qed.

Lemma guard_lock (ls : list PgLock) v lock :
  pg_guard v = [lock] → lock ∈ ls → ∀ w l, w ∈ [v] → l ∈ pg_guard w → l ∈ ls.
Proof. intros Hv Hl. apply guard_one. by intros l; rewrite Hv => /list_elem_of_singleton ->. Qed.

Lemma held_write {A} (s : PgStmt A) pt snap cur ws' w l :
  w ∈ ws' → l ∈ pg_lock_of w → l ∈ held s pt snap cur ws'.
Proof.
  intros Hw Hl. unfold PgTx.held. apply elem_of_app. right. apply elem_of_app. right.
  apply list_elem_of_In, in_concat. exists (pg_lock_of w). split; [|by apply list_elem_of_In].
  apply in_map. by apply list_elem_of_In.
Qed.

(** Answers that follow from one lock the session holds. *)
Lemma same_in_view l ws d d' : pg_same_at l d d' → pg_same_at l (view ws d) (view ws d').
Proof. apply (view_cong pg_apply pg_same_at pg_apply_cong). Qed.

Lemma same_kept l ls d d' ws : l ∈ ls → rely pg_same_at pg_advance ls d d' → pg_same_at l (view ws d') (view ws d).
Proof. intros Hl [Hr _]. by apply same_in_view, Hr. Qed.

Lemma advisory_wp wrap lock (Q : unit → Pt → Prop) pt :
  (∀ pt', follows pt pt' → pt_writes pt' = pt_writes pt → lock ∈ pt_locks pt' → Q tt pt') →
  pwp (pexec wrap (advisory_lock lock)) Q pt.
Proof.
  intros HQ. apply stmt_wp with (F := λ _ _ _ _, True).
  intros snap cur [] ws' Hs Hc Hl [= <-] ls. split; [set_solver|]. split; [done|]. split; [done|]. split; [done|].
  split; [done|]. intros pt' Hf Hw Hlk _. rewrite app_nil_r in Hw. apply HQ; [done|done|].
  rewrite Hlk. unfold ls, PgTx.held. simpl. set_solver.
Qed.

(** A plain read of what a held lock protects. *)
Lemma select_wp {A} wrap (q : PgDb → A) l (Q : A → Pt → Prop) pt :
  l ∈ pt_locks pt → (∀ d d', pg_same_at l d d' → q d = q d') →
  (∀ b pt', follows pt pt' → pt_writes pt' = pt_writes pt →
            (∀ d, pt_holds pt' d → q (view (pt_writes pt) d) = b) → Q b pt') →
  pwp (pexec wrap (select q)) Q pt.
Proof.
  intros Hin Hq HQ. apply stmt_wp with (F := λ _ b _ d, q (view (pt_writes pt) d) = b).
  intros snap cur b ws' Hs Hc Hl [= <- <-] ls. split; [set_solver|].
  assert (q (view (pt_writes pt) cur) = q (view (pt_writes pt) snap)) as Heq by (by apply Hq, same_in_view, Hl).
  split; [done|]. split.
  { intros d d' _ <- Hrel. apply Hq. eapply same_kept; [|exact Hrel]. by apply held_old. }
  split; [by intros d _ <-|]. split; [done|]. intros pt' Hf Hw _ Hh. rewrite app_nil_r in Hw. by apply HQ.
Qed.

(** A row that is locked, or that the caller gives up on. *)
Lemma select_ctx_wp {A} wrap c (k : option PgCtxRow → PgProg A) (Q : A → Pt → Prop) pt :
  (∀ row pt', follows pt pt' → pt_writes pt' = pt_writes pt → LRow c ∈ pt_locks pt' →
     (∀ d, pt_holds pt' d → pg_select_ctx c (view (pt_writes pt) d) = Some row) → pwp (k (Some row)) Q pt') →
  (∀ pt', pwp (k None) Q pt') →
  pwp (pbind (pexec wrap (select_for_update (LRow c) (pg_select_ctx c))) k) Q pt.
Proof.
  intros Hk Hnone. apply wp_bind. simpl. intros Hst snap cur b ws' Hs Hc Hl. simpl.
  destruct (pg_select_ctx c (view (pt_writes pt) snap)) as [row0|] eqn:Hsnap.
  - intros [= <- <-]. destruct (pg_select_ctx c (view (pt_writes pt) cur)) as [row|] eqn:Hcur; simpl.
    + split; [set_solver|].
      exists (λ d, pt_holds pt d ∧ pg_select_ctx c (view (pt_writes pt) d) = Some row), (pt_owes pt).
      split; [done|]. split.
      { intros d d' [Hd Hrow] Hrel. split; [eapply (stable_more _ _ _ _ _ Hst); [exact Hd|exact Hrel]|].
        rewrite -Hrow. eapply (same_kept (LRow c)); [|exact Hrel]. set_solver. }
      split; [by intros d [? _]|]. split.
      { intros d [_ Hrow] Ho. split; [done|]. unfold repeats. simpl. by rewrite Hrow. }
      apply Hk; [split; simpl|by rewrite app_nil_r|simpl; set_solver|by intros d [_ ?]].
      * set_solver.
      * by intros d [? _].
      * done.
      * intros Hso d [Hd _]. simpl. rewrite app_nil_r. by apply Hso.
      * intros d. by rewrite app_nil_r.
    + split; [set_solver|]. exists (pt_holds pt), (λ _, False).
      split; [done|]. split; [by apply stable_more|]. split; [done|]. split; [done|]. apply Hnone.
  - intros [= <- <-]. split; [set_solver|]. exists (pt_holds pt), (λ _, False).
    split; [done|]. split; [by apply stable_more|]. split; [done|]. split; [done|]. apply Hnone.
Qed.

Lemma select_persists c ws : ∀ d, is_Some (pg_select_ctx c d) → is_Some (pg_select_ctx c (view ws d)).
Proof.
  induction ws as [|w ws IH]; intros d Hd; [done|]. apply IH. destruct Hd as [row Hd].
  unfold pg_select_ctx in *. destruct w; simpl; try (by eexists); rewrite ?find_snoc ?find_update // Hd //=; by eexists.
Qed.

(** *** Peeks *)

Lemma successor_wp c (Q : option SuccessorAttestation → Pt → Prop) pt :
  (∀ b, Q b pt) → pwp (pg_successor c) Q pt.
Proof.
  intros HQ. unfold pg_successor. apply wp_bind. intros old _. simpl.
  destruct (match List.find _ _ with Some _ => _ | None => _ end) as [[k r]|]; [|apply HQ].
  apply wp_lift. intros row _. apply HQ.
Qed.

Lemma supersession_gate_wp req row (Q : unit → Pt → Prop) pt :
  Q tt pt → pwp (pg_supersession_gate req row) Q pt.
Proof.
  intros HQ. unfold pg_supersession_gate. destruct (keyless_successor req) as [att|]; [|done].
  apply wp_bind, successor_wp. intros found. apply wp_lift. intros succ _. apply wp_lift. intros body _.
  apply wp_lift. intros c _. apply wp_bind.
  assert (∀ r, pwp (pbind (plift (predecessor_signer c r)) (λ signer, plift (check_supersession signer succ))) Q pt) as Hrest.
  { intros r. apply wp_lift. intros signer _. by destruct (check_supersession signer succ) as [[]|]. }
  destruct c as [c|]; [|apply Hrest]. apply wp_bind, successor_wp. intros b. apply Hrest.
Qed.

Lemma window_gate_wp req t (Q : unit → Pt → Prop) pt : Q tt pt → pwp (pg_window_gate req t) Q pt.
Proof.
  intros HQ. unfold pg_window_gate. destruct (keyless_successor req) as [att|]; [|done].
  apply wp_bind, successor_wp. intros found. apply wp_lift. intros succ _. by destruct (check_window succ t) as [[]|].
Qed.

(** *** The idempotency key *)

(** The reads so far hold of any tables in which the key is free. *)
Definition key_decides (k : string * string) (pt : Pt) : Prop :=
  ∀ d, pt_holds pt d → pg_idempotency_records (view (pt_writes pt) d) !! k = None → pt_owes pt d.

Lemma still_expired_same now again k d :
  still_expired now again k d d = match pg_idempotency_records d !! k with Some r => expired_at now r | None => false end.
Proof.
  unfold still_expired. destruct (_ !! k) as [r|]; [|done].
  rewrite (bool_decide_eq_true_2 (r = r)) //. by destruct (expired_at now r).
Qed.

Lemma idempotency_wp env req key (Q : option PublishResponse → Pt → Prop) pt :
  pt_writes pt = [] → (∀ d, pt_owes pt d) →
  (∀ r pt', Q (Some r) pt') →
  (∀ pt', (∀ l, l ∈ pt_locks pt → l ∈ pt_locks pt') → (∀ d, pt_holds pt' d → pt_holds pt d) →
          Forall quiet (pt_writes pt') → key_decides (req_agent_id req, key) pt' → Q None pt') →
  pwp (pg_idempotency_step env req key) Q pt.
Proof.
  destruct pt as [ws L P0 C0]. cbn [pt_writes pt_owes pt_locks pt_holds]. intros -> Howes Hsome Hnone.
  set (k := (req_agent_id req, key)) in *. unfold pg_idempotency_step. fold k.
  apply wp_bind, wp_pexec. intros Hst snap cur [] ws' Hs Hc Hl Hrun ls. simpl in Hst, Hs, Hc, Hl, Hrun.
  injection Hrun as <-. cbn [pt_writes pt_owes pt_locks pt_holds app].
  destruct (still_expired (pv_now env) (pv_again env) k snap cur) eqn:Hexp.
  - (* the expired record is deleted *)
    assert (∃ r, pg_idempotency_records cur !! k = Some r ∧ expired_at (pv_now env) r = true) as (r & Hr & Hre).
    { unfold still_expired in Hexp. destruct (pg_idempotency_records snap !! k); [|done].
      destruct (pg_idempotency_records cur !! k) as [r|]; [|done]. exists r. split; [done|].
      by apply andb_true_iff in Hexp as [[_ ?]%andb_true_iff _]. }
    assert (LKey k ∈ ls) as Hls by (apply (held_write _ _ _ _ _ (WDeleteKey k)); by apply list_elem_of_singleton).
    split; [by eapply guard_lock|]. exists (λ d, P0 d ∧ pg_idempotency_records d !! k = Some r), C0.
    split; [done|]. split.
    { intros d d' [Hd Hk] Hrel. split; [eapply (stable_more _ _ _ _ _ Hst); [exact Hd|exact Hrel]|].
      rewrite -Hk. by eapply (same_kept (LKey k) _ _ _ []). }
    split; [by intros d [? _]|]. split.
    { intros d [_ Hk] _. split; [done|]. unfold repeats. simpl. rewrite still_expired_same Hk Hre. done. }
    apply wp_bind, wp_pexec. intros Hst2 snap2 cur2 b2 ws2 Hs2 Hc2 Hl2 Hrun ls2.
    simpl in Hst2, Hs2, Hc2, Hl2, Hrun. cbn [pt_writes pt_owes pt_locks pt_holds app]. rewrite lookup_delete_eq in Hrun. injection Hrun as <- <-. split; [apply guard_none|].
    exists (λ d, P0 d ∧ pg_idempotency_records d !! k = Some r), C0.
    split; [done|]. split; [by apply stable_more|]. split; [done|]. split.
    { intros d _ Ho. split; [done|]. unfold repeats. simpl. by rewrite lookup_delete_eq. }
    apply Hnone; cbn [pt_writes pt_owes pt_locks pt_holds app];
      [intros l ?; apply held_old; by apply held_old|by intros d [? _]|by repeat constructor|]. intros d _ _. apply Howes.
  - split; [apply guard_none|].
    exists P0, (λ d, repeats pg_apply (delete_expired_key k (pv_now env) (pv_again env)) [] tt [] d).
    split; [done|]. split; [by apply stable_more|]. split; [done|]. split; [done|].
    apply wp_bind, wp_pexec. intros Hst2 snap2 cur2 b2 ws2 Hs2 Hc2 Hl2 Hrun ls2.
    simpl in Hst2, Hs2, Hc2, Hl2, Hrun. injection Hrun as <- <-. cbn [pt_writes pt_owes pt_locks pt_holds app].
    destruct (pg_idempotency_records snap2 !! k) as [r0|] eqn:Hk0;
      [destruct (pg_idempotency_records cur2 !! k) as [r|] eqn:Hk|].
    2, 3: (split; [apply guard_none|];
      exists P0, (λ d, repeats pg_apply (delete_expired_key k (pv_now env) (pv_again env)) [] tt [] d ∧
                      repeats pg_apply (select_for_update (LKey k) (λ db, pg_idempotency_records db !! k)) [] None [] d);
      split; [done|]; split; [by apply stable_more|]; split; [done|]; split; [done|];
      apply Hnone; cbn [pt_writes pt_owes pt_locks pt_holds app];
        [intros l ?; apply held_old; by apply held_old|done|constructor|];
      intros d _ Hn; simpl in Hn; unfold repeats; simpl; by rewrite still_expired_same Hn).
    assert (LKey k ∈ ls2) as Hls2 by (unfold ls2, PgTx.held; simpl; rewrite Hk0 Hk; apply elem_of_app; right; by apply list_elem_of_singleton).
    split; [apply guard_none|]. exists (λ d, P0 d ∧ pg_idempotency_records d !! k = Some r), (λ _, False).
    split; [done|]. split.
    { intros d d' [Hd Hkd] Hrel. split; [eapply (stable_more _ _ _ _ _ Hst2); [exact Hd|exact Hrel]|].
      rewrite -Hkd. by eapply (same_kept (LKey k) _ _ _ []). }
    split; [by intros d [? _]|]. split; [done|].
    destruct (pv_now env <? pi_expires_at r)%Z.
    + case_bool_decide; [|done]. apply wp_lift. intros resp _. apply Hsome.
    + apply Hnone; cbn [pt_writes pt_owes pt_locks pt_holds app];
        [intros l ?; apply held_old; by apply held_old|by intros d [? _]|constructor|].
      intros d [_ Hkd] Hn. simpl in Hn. congruence.
Qed.

(** *** The predecessor *)

(** What step 2 finds out about a predecessor, whatever others do. *)
Definition continues (req : PublishRequest) (prev : string) (first : option string) (ws : list PgWrite) (pt : Pt) : Prop :=
  LRow prev ∈ pt_locks pt ∧
  ∃ row c, first = Some c ∧ p_lineage_id row = lineage_of c ∧ req_version req = (p_version row + 1)%Z ∧
    ∀ d, pt_holds pt d → pg_select_ctx prev (view ws d) = Some row.

Lemma first_of_wp wrap prev row (Q : option string → Pt → Prop) pt :
  sound pt → (∀ d, pt_holds pt d → pg_select_ctx prev (view (pt_writes pt) d) = Some row) →
  (∀ c pt', follows pt pt' → pt_writes pt' = pt_writes pt → p_lineage_id row = lineage_of c → Q (Some c) pt') →
  pwp (pexec wrap (select (first_of (p_lineage_id row)))) Q pt.
Proof.
  intros Hso Hrow HQ.
  assert (∀ d, pt_holds pt d → ∃ c, first_of (p_lineage_id row) (view (pt_writes pt) d) = Some c ∧
                                    p_lineage_id row = lineage_of c) as Hfirst.
  { intros d Hd. apply first_of_founder; [by apply Hso|]. by eapply pg_select_ctx_in, Hrow. }
  apply stmt_wp with (F := λ _ _ _ _, True).
  intros snap cur b ws' Hs Hc Hl Hrun ls. simpl in Hrun. injection Hrun as <- <-.
  destruct (Hfirst snap Hs) as (c & Hc1 & Hc2). rewrite Hc1.
  split; [apply guard_none|]. split; [done|]. split; [done|]. split.
  { intros d Hd _. unfold repeats. simpl. destruct (Hfirst d Hd) as (c' & Hc1' & Hc2'). rewrite Hc1'.
    assert (c = c') as -> by (apply (inj lineage_of); congruence). done. }
  split; [done|]. intros pt' Hf Hw _ _. rewrite app_nil_r in Hw. by apply HQ.
Qed.

(** A read whose answer only decides how a transaction ends that does not commit. *)
Lemma doomed_select_wp {A} wrap (q : PgDb → A) (Q : A → Pt → Prop) pt :
  (∀ b pt', Q b pt') → pwp (pexec wrap (select q)) Q pt.
Proof.
  intros HQ. apply wp_pexec. intros Hst snap cur b ws' Hs Hc Hl Hrun ls. simpl in Hrun. injection Hrun as <- <-.
  split; [apply guard_none|]. exists (pt_holds pt), (λ _, False). split; [done|].
  split; [by apply stable_more|]. split; [done|]. split; [done|]. apply HQ.
Qed.

Lemma committed_idempotent_wp req key now (Q : option PublishResponse → Pt → Prop) pt :
  (∀ b pt', Q b pt') → pwp (committed_idempotent_response req key now) Q pt.
Proof.
  intros HQ. unfold committed_idempotent_response. apply wp_bind, doomed_select_wp.
  intros [r|] pt'; [|apply HQ]. destruct (negb _); [apply HQ|]. destruct (negb _); [done|].
  apply wp_lift. intros resp _. apply HQ.
Qed.

Lemma supersession_wp env commit prev (Q : option string + PublishResponse → Pt → Prop) pt :
  sound pt →
  (∀ r pt', Q (inr r) pt') →
  (∀ first pt', follows pt pt' → pt_writes pt' = pt_writes pt →
     continues (pc_req commit) prev first (pt_writes pt) pt' → Q (inl first) pt') →
  pwp (pg_supersession_step env commit prev) Q pt.
Proof.
  intros Hso Hinr Hinl. unfold pg_supersession_step. apply select_ctx_wp; [|done].
  intros row pt1 Hf1 Hw1 Hl1 Hrow. set (req := pc_req commit) in *.
  destruct (match pc_tenant commit with Some _ => _ | None => _ end); [done|].
  destruct (negb (bool_decide (p_agent_id row = _) || _)); [done|].
  destruct (match req_lineage_id req with Some _ => _ | None => _ end); [done|].
  destruct (req_version req =? p_version row + 1)%Z eqn:Hver; [|done]. apply Z.eqb_eq in Hver. cbn [negb].
  case_bool_decide.
  - apply wp_bind. destruct (pc_idempotency commit) as [[key ttl]|]; [|done].
    apply committed_idempotent_wp. intros [w|] pt'; [apply Hinr|done].
  - apply wp_bind, supersession_gate_wp. apply wp_bind.
    assert (pwp (let* first := pexec pg_err (select (first_of (p_lineage_id row))) in Ret (inl first))%pg Q pt1) as Hlast.
    { apply wp_bind, first_of_wp with (prev := prev); [by apply Hf1|by rewrite Hw1|].
      intros c pt2 Hf2 Hw2 Hlin. apply Hinl; [by etrans|congruence|].
      split; [by apply Hf2|]. exists row, c. split_and!; [done|done|done|].
      intros d Hd. by apply Hrow, Hf2. }
    destruct (pc_predecessor_admission commit) as [admission|]; [|done].
    apply wp_lift. intros body _. by destruct (admission body) as [[]|].
Qed.

(** *** Writing *)

Lemma insert_body_wp body tenant receipt (Q : unit → Pt → Prop) pt :
  (∀ d, pt_holds pt d → body_lineage_id body = lineage_of (body_ctx_id body) ∨
     ∃ q, q ∈ pg_contexts (view (pt_writes pt) d) ∧ body_lineage_id body = p_lineage_id q ∧
          body_version body = (p_version q + 1)%Z) →
  (∀ pt', follows pt pt' → (∃ w, pt_writes pt' = pt_writes pt ++ [w]) → Q tt pt') →
  pwp (pg_insert_body body Active tenant receipt) Q pt.
Proof.
  intros Hlin HQ. unfold pg_insert_body. apply wp_lift. intros json _. set (row := pg_new_row _ _ _ _ _).
  apply wp_pexec. intros Hst snap cur [] ws' Hs Hc Hl Hrun ls. simpl in Hrun.
  destruct (pg_select_ctx (body_ctx_id body) (view (pt_writes pt) cur)) eqn:Hnew; [done|]. injection Hrun as <-.
  assert (LRow (p_ctx_id row) ∈ ls) as Hls by (apply (held_write _ _ _ _ _ (WInsertCtx row)); by apply list_elem_of_singleton).
  split; [by eapply guard_lock|].
  exists (λ d, pt_holds pt d ∧ pg_select_ctx (p_ctx_id row) (view (pt_writes pt) d) = None), (pt_owes pt).
  split; [done|]. split.
  { intros d d' [Hd Hn] Hrel. split; [eapply (stable_more _ _ _ _ _ Hst); [exact Hd|exact Hrel]|].
    rewrite -Hn. by eapply (same_kept (LRow (p_ctx_id row))). }
  split; [by intros d [? _]|]. split.
  { intros d [_ Hn] Ho. split; [done|]. unfold repeats. simpl. simpl in Hn. by rewrite Hn. }
  apply HQ; [|by eexists]. split; simpl; [by apply held_old|by intros d [? _]|done| |].
  - intros Hso d [Hd Hn]. simpl in *. rewrite view_app. apply (pg_inv_insert row); [by apply Hso|done|]. by apply Hlin.
  - intros d. by rewrite view_app.
Qed.

Lemma index_attestation_wp body authority (Q : unit → Pt → Prop) pt :
  (∀ pt', follows pt pt' → (∃ more, pt_writes pt' = pt_writes pt ++ more) → Q tt pt') →
  pwp (pg_index_attestation body authority) Q pt.
Proof.
  intros HQ. unfold pg_index_attestation. apply wp_lift. intros [row|] _; [|apply HQ; [done|by exists []; rewrite app_nil_r]].
  set (r := pg_att_row row). apply wp_bind, wp_pexec. intros Hst snap cur b ws' Hs Hc Hl Hrun ls. simpl in Hrun.
  destruct (has_token _ _) eqn:Ht; [|destruct (has_attestation _ _) eqn:Ha; [done|destruct (negb _) eqn:Hchk; [done|]]];
    injection Hrun as <- <-.
  { split; [apply guard_none|]. exists (pt_holds pt), (λ _, False). by split_and!; [|apply stable_more|..]. }
  assert (∀ l, l ∈ pg_guard (WInsertAttestation r) → l ∈ ls) as Hls.
  { intros l Hin. by apply (held_write _ _ _ _ _ (WInsertAttestation r)); [apply list_elem_of_singleton|]. }
  split; [by apply guard_one|].
  exists (λ d, pt_holds pt d ∧ has_token (pk_token_hash r) (view (pt_writes pt) d) = false ∧
               has_attestation (pk_ctx_id r) (view (pt_writes pt) d) = false), (pt_owes pt).
  split; [done|]. split.
  { intros d d' (Hd & Htd & Had) Hrel. split; [eapply (stable_more _ _ _ _ _ Hst); [exact Hd|exact Hrel]|].
    split; [rewrite -Htd; eapply (same_kept (LToken (pk_token_hash r)))
           |rewrite -Had; eapply (same_kept (LAttestation (pk_ctx_id r)))];
      try exact Hrel; apply Hls; simpl; set_solver. }
  split; [by intros d [? _]|]. split.
  { intros d (_ & Htd & Had) Ho. split; [done|]. unfold repeats. cbn [st_run insert_key_attestation].
    rewrite Htd Had Hchk. done. }
  apply HQ; [|by eexists]. split; simpl; [by apply held_old|by intros d [? _]|done| |].
  - intros Hso d [Hd _]. simpl in *. rewrite view_app. by apply pg_inv_quiets, Hso; [repeat constructor|].
  - intros d. by rewrite view_app.
Qed.

Lemma log_wp st body receipt (Q : unit → Pt → Prop) pt :
  (∀ pt', follows pt pt' → (∃ more, pt_writes pt' = pt_writes pt ++ more) → Q tt pt') →
  pwp (pg_log_step st body receipt) Q pt.
Proof.
  intros HQ. unfold pg_log_step. destruct (pg_log_enabled st); [|apply HQ; [done|by exists []; rewrite app_nil_r]].
  destruct receipt as [receipt|]; [|done]. apply wp_lift. intros [json hash] _. apply wp_bind, advisory_wp.
  intros pt1 Hf1 Hw1 Hl1.
  apply stmt_wp with (F := λ cur _ _ d, pg_log_leaves (view (pt_writes pt1) d) = pg_log_leaves (view (pt_writes pt1) cur)).
  intros snap cur [] ws' Hs Hc Hl Hrun ls. cbn [st_run insert_log_leaf] in Hrun.
  rewrite -(same_in_view LLogAppend (pt_writes pt1) cur snap (Hl _ Hl1)) in Hrun.
  assert (LLogAppend ∈ ls) as Hls by (by apply held_old).
  assert (Forall plain ws' ∧ ∀ w l, w ∈ ws' → l ∈ pg_guard w → l ∈ ls) as [Hq Hg].
  { revert Hrun. repeat case_match; intros [= <-]. split; [by repeat constructor|]. by eapply guard_lock. }
  split; [done|]. split; [done|]. split.
  { intros d d' _ <- Hrel. by eapply (same_kept LLogAppend). }
  split; [intros d _ Heq; unfold repeats; cbn [st_run insert_log_leaf]; by rewrite Heq|]. split; [done|].
  intros pt2 Hf2 Hw2 _ _. apply HQ; [by etrans|]. rewrite Hw2 Hw1. by eexists.
Qed.

(** The update of a row the session has locked. *)
Lemma update_wp wrap c w (Q : unit → Pt → Prop) pt :
  plain w → pg_guard w = [LRow c] → LRow c ∈ pt_locks pt →
  (∀ d, pt_holds pt d → is_Some (pg_select_ctx c (view (pt_writes pt) d))) →
  (∀ pt', follows pt pt' → pt_writes pt' = pt_writes pt ++ [w] → Q tt pt') →
  pwp (pexec wrap (update_context c w)) Q pt.
Proof.
  intros Hq Hg Hlk Hrow HQ. apply stmt_wp with (F := λ _ _ _ _, True).
  intros snap cur [] ws' Hs Hc Hl Hrun ls. simpl in Hrun.
  destruct (Hrow snap Hs) as [rs Hrs]. destruct (Hrow cur Hc) as [rc Hrc]. rewrite Hrs Hrc in Hrun. injection Hrun as <-.
  split; [eapply guard_lock; [done|by apply held_old]|]. split; [done|]. split; [done|]. split.
  { intros d Hd _. unfold repeats. simpl. destruct (Hrow d Hd) as [r Hr]. by rewrite Hr. }
  split; [by repeat constructor|]. intros pt' Hf Hw _ _. by apply HQ.
Qed.

Lemma insert_changes_wp l : ∀ draws (Q : unit → Pt → Prop) pt,
  LFeedAppend ∈ pt_locks pt → (∀ pt', follows pt pt' → Q tt pt') → pwp (pg_insert_changes draws l) Q pt.
Proof.
  induction l as [|a l IH]; intros draws Q pt Hlk HQ; [by apply HQ|].
  cbn [pg_insert_changes]. destruct (default _ _) as [gap now_ms]. apply wp_bind.
  apply stmt_wp with (F := λ _ _ _ _, True).
  intros snap cur [] ws' Hs Hc Hl Hrun ls. simpl in Hrun. injection Hrun as <-.
  split; [eapply guard_lock; [done|by apply held_old]|]. split; [done|]. split; [done|]. split; [done|].
  split; [by repeat constructor|]. intros pt' Hf _ _ _. apply IH; [by apply Hf|].
  intros pt'' Hf'. apply HQ. by etrans.
Qed.

Lemma insert_all_wp draws l (Q : unit → Pt → Prop) pt :
  (∀ pt', follows pt pt' → Q tt pt') → pwp (pg_insert_all draws l) Q pt.
Proof.
  intros HQ. unfold pg_insert_all. destruct (is_empty l); [by apply HQ|]. apply wp_bind, advisory_wp.
  intros pt1 Hf1 _ Hl1. apply insert_changes_wp; [done|]. intros pt2 Hf2. apply HQ. by etrans.
Qed.

Lemma append_publish_wp draws body receipt supersedes (Q : unit → Pt → Prop) pt :
  (∀ prev, supersedes = Some prev → LRow prev ∈ pt_locks pt) →
  (∀ pt', follows pt pt' → Q tt pt') → pwp (pg_append_publish draws body receipt supersedes) Q pt.
Proof.
  intros Hlk HQ. unfold pg_append_publish. destruct receipt as [receipt|]; [|by apply HQ].
  apply wp_bind.
  assert (∀ pred pt', follows pt pt' → pwp (let* rows := plift (feed_appends_for_publish body (Some receipt) pred) in
                                            pg_insert_all draws rows)%pg Q pt') as Hrest.
  { intros pred pt' Hf. apply wp_lift. intros rows _. apply insert_all_wp. intros pt'' Hf'. apply HQ. by etrans. }
  destruct supersedes as [prev|]; [|by apply Hrest].
  apply wp_bind, select_wp with (l := LRow prev); [by apply Hlk|by intros d d' [? _]|].
  intros [r|] pt' Hf _ _; [by apply Hrest|done].
Qed.

Lemma key_decides_follows k pt pt' : follows pt pt' → key_decides k pt → key_decides k pt'.
Proof.
  intros Hf Hk d Hd Hn. apply (fo_owes _ _ Hf), Hk; [by apply Hf|]. by rewrite -(fo_keys _ _ Hf).
Qed.

(** The key is claimed: nothing is owed any more. *)
Lemma claim_wp env req key ttl response (Q : bool → Pt → Prop) pt :
  key_decides (req_agent_id req, key) pt → sound pt →
  (∀ pt', Q false pt') →
  (∀ pt', (∀ l, l ∈ pt_locks pt → l ∈ pt_locks pt') → (∀ d, pt_holds pt' d → pt_holds pt d) → sound pt' →
          (∀ d, pt_holds pt' d → pt_owes pt' d) → Q true pt') →
  pwp (pg_claim_step env req key ttl response) Q pt.
Proof.
  intros Hk Hso Hfalse Htrue. set (k := (req_agent_id req, key)) in *. unfold pg_claim_step. fold k.
  apply wp_lift. intros json _. set (r := mkPgIdemRow _ _ _). apply wp_pexec.
  intros Hst snap cur b ws' Hs Hc Hl Hrun ls. simpl in Hrun.
  destruct (pg_idempotency_records (view (pt_writes pt) cur) !! k) eqn:Hcur; injection Hrun as <- <-.
  { split; [apply guard_none|]. exists (pt_holds pt), (λ _, False). by split_and!; [|apply stable_more|..]. }
  assert (LKey k ∈ ls) as Hls by (apply (held_write _ _ _ _ _ (WPutKey k r)); by apply list_elem_of_singleton).
  split; [by eapply guard_lock|].
  exists (λ d, pt_holds pt d ∧ pg_idempotency_records (view (pt_writes pt) d) !! k = None), (pt_owes pt).
  split; [done|]. split.
  { intros d d' [Hd Hn] Hrel. split; [eapply (stable_more _ _ _ _ _ Hst); [exact Hd|exact Hrel]|].
    rewrite -Hn. by eapply (same_kept (LKey k)). }
  split; [by intros d [? _]|]. split.
  { intros d [_ Hn] Ho. split; [done|]. unfold repeats. simpl. by rewrite Hn. }
  apply Htrue; simpl; [by apply held_old|by intros d [? _]| |].
  - intros d [Hd _]. simpl. rewrite view_app. by apply pg_inv_quiets, Hso; [repeat constructor|].
  - intros d [Hd Hn]. by apply Hk.
Qed.

(** ** The transactions *)

Lemma settled_commit {A} (a : A) pt :
  sound pt → (∀ d, pt_holds pt d → pt_owes pt d) → settled pg_apply pg_advance (Commit a) pt.
Proof. intros Hso Ho. split; [done|]. intros d Hd _. by apply Hso. Qed.

Notation settled := (settled pg_apply pg_advance).

Lemma build_wp env commit first (Q : Body * option Value → Pt → Prop) pt :
  (∀ ctx_id lineage_id receipt,
     assign_identifiers (pc_authority commit) (req_supersedes (pc_req commit)) first (pv_draw env) = Ok (ctx_id, lineage_id) →
     Q (from_publish_request (pc_req commit) ctx_id lineage_id (pc_authority commit) (trunc_ms (pv_now env)), receipt) pt) →
  pwp (pg_build_step env commit first) Q pt.
Proof.
  intros HQ. unfold pg_build_step. apply wp_lift. intros [ctx_id lineage_id] Hassign.
  apply wp_bind, window_gate_wp. apply wp_lift. intros receipt _. by apply HQ.
Qed.

(** The steps after the predecessor is known. *)
Lemma write_step_wp st env commit first pt :
  sound pt →
  match req_supersedes (pc_req commit) with
  | None => first = None
  | Some prev => continues (pc_req commit) prev first (pt_writes pt) pt
  end →
  match pc_idempotency commit with
  | Some (key, _) => key_decides (req_agent_id (pc_req commit), key) pt
  | None => ∀ d, pt_holds pt d → pt_owes pt d
  end →
  pwp (pg_write_step st env commit first) settled pt.
Proof.
  set (req := pc_req commit). intros Hso Hsup Hkey. unfold pg_write_step. fold req.
  apply wp_bind, build_wp. fold req. intros ctx_id lineage_id receipt Hassign.
  set (body := from_publish_request _ _ _ _ _). apply wp_bind, insert_body_wp.
  { intros d Hd. unfold body. rewrite built_lineage_id built_ctx_id built_version.
    destruct (req_supersedes req) as [prev|].
    - right. destruct Hsup as (_ & row & c & -> & Hlin & Hver & Hrow). exists row.
      split; [by eapply pg_select_ctx_in, Hrow|]. split; [|done]. rewrite Hlin. by eapply assigned_successor.
    - left. subst first. by eapply assigned_first. }
  intros pt1 Hf1 [w1 Hw1]. apply wp_bind, index_attestation_wp. intros pt2 Hf2 [w2 Hw2].
  apply wp_bind, log_wp. intros pt3 Hf3 [w3 Hw3]. apply wp_bind.
  assert (follows pt pt3) as Hf by (by etrans; [exact Hf1|etrans]).
  assert (∀ pt4, follows pt pt4 → pwp (let response := publish_response req body (pv_now env) receipt in
    let* claimed := match pc_idempotency commit with
                    | Some (key, ttl) => pg_claim_step env req key ttl response
                    | None => Ret true
                    end in
    if negb claimed then
      Ret (RollbackRead match pc_idempotency commit with
                        | Some (key, _) => pg_claimed_response req key
                        | None => λ _, Ok (Inserted response)
                        end)
    else
      let* _ := pg_append_publish (pv_feed env) body receipt (req_supersedes req) in
      Ret (Commit (Inserted response)))%pg settled pt4) as Hrest.
  { intros pt4 Hf4. cbv zeta.
    assert (∀ prev, req_supersedes req = Some prev → LRow prev ∈ pt_locks pt4) as Hlk.
    { intros prev Hprev. rewrite Hprev in Hsup. apply Hf4, Hsup. }
    assert (∀ pt5, (∀ l, l ∈ pt_locks pt4 → l ∈ pt_locks pt5) → sound pt5 → (∀ d, pt_holds pt5 d → pt_owes pt5 d) →
              pwp (let* _ := pg_append_publish (pv_feed env) body receipt (req_supersedes req) in
                   Ret (Commit (Inserted (publish_response req body (pv_now env) receipt))))%pg settled pt5) as Hend.
    { intros pt5 Hl5 Hs5 Ho5. apply wp_bind, append_publish_wp; [by eauto|]. intros pt6 Hf6.
      apply settled_commit; [by apply Hf6|]. intros d Hd. by apply (fo_owes _ _ Hf6), Ho5, Hf6. }
    apply wp_bind. destruct (pc_idempotency commit) as [[key ttl]|].
    - apply claim_wp; [by eapply key_decides_follows|by apply Hf4|done|]. intros pt5 Hl5 _ Hs5 Ho5. by apply Hend.
    - apply Hend; [done|by apply Hf4|]. intros d Hd. by apply (fo_owes _ _ Hf4), Hkey, Hf4. }
  destruct (req_supersedes req) as [prev|]; [|by apply Hrest].
  destruct Hsup as (Hlk & row & c & _ & _ & _ & Hrow).
  apply update_wp; [done|done|by apply Hf| |].
  - intros d Hd. rewrite Hw3 Hw2 Hw1 -!app_assoc view_app. apply select_persists. exists row.
    by apply Hrow, Hf.
  - intros pt4 Hf4 _. apply Hrest. by etrans.
Qed.

Lemma commit_publish_disciplined st env commit : pwp (pg_commit_publish st env commit) settled (mkPoint [] [] pg_inv (λ _, True)).
Proof.
  unfold pg_commit_publish. apply wp_bind. set (req := pc_req commit). set (pt0 := mkPoint _ _ _ _).
  assert (∀ pt, sound pt →
    match pc_idempotency commit with
    | Some (key, _) => key_decides (req_agent_id req, key) pt
    | None => ∀ d, pt_holds pt d → pt_owes pt d
    end →
    pwp (let* first_v1 := match req_supersedes req with
                          | Some prev => pg_supersession_step env commit prev
                          | None => Ret (inl None)
                          end in
         match first_v1 with
         | inr winner => Ret (Rollback (IdempotentReplay winner))
         | inl first_v1 => pg_write_step st env commit first_v1
         end)%pg settled pt) as Hrest.
  { intros pt Hso Hkey. apply wp_bind. destruct (req_supersedes req) as [prev|] eqn:Hprev.
    - apply supersession_wp; [done|done|]. intros first pt' Hf Hw Hcont. fold req in Hcont.
      apply write_step_wp; fold req; [by apply Hf|rewrite Hprev Hw; exact Hcont|].
      destruct (pc_idempotency commit) as [[key ttl]|]; [by eapply key_decides_follows|].
      intros d Hd. by apply (fo_owes _ _ Hf), Hkey, Hf.
    - apply write_step_wp; fold req; [done|by rewrite Hprev|done]. }
  destruct (pc_idempotency commit) as [[key ttl]|] eqn:Hidem; [|by apply Hrest; [intros d|]].
  apply idempotency_wp; [done|done|done|]. intros pt' Hl Hh Hq Hk. apply Hrest; [|done].
  intros d Hd. apply pg_inv_quiets; [done|]. by apply Hh in Hd.
Qed.

(** A statement that only looks at a row the session has locked, and its events. *)
Lemma row_stmt_wp {A} wrap (s : PgStmt A) c (Q : A → Pt → Prop) pt :
  LRow c ∈ pt_locks pt →
  (∀ d1 d1' d2 d2', pg_same_at (LRow c) d1 d1' → pg_same_at (LRow c) d2 d2' → st_run s d1 d2 = st_run s d1' d2') →
  (∀ d b ws', st_run s d d = Ok (b, ws') → ∀ w, w ∈ ws' → plain w ∧ pg_guard w = [LRow c]) →
  (∀ b pt', follows pt pt' → Q b pt') →
  pwp (pexec wrap s) Q pt.
Proof.
  intros Hlk Hlocal Hws HQ.
  apply stmt_wp with (F := λ _ b ws' d, st_run s (view (pt_writes pt) d) (view (pt_writes pt) d) = Ok (b, ws')).
  intros snap cur b ws' Hs Hc Hl Hrun ls.
  rewrite (Hlocal _ (view (pt_writes pt) cur) _ (view (pt_writes pt) cur)) in Hrun;
    [|symmetry; by apply same_in_view, Hl|done].
  split.
  { intros w l Hw Hin. destruct (Hws _ _ _ Hrun w Hw) as [_ Hg]. rewrite Hg in Hin.
    apply list_elem_of_singleton in Hin as ->. by apply held_old. }
  split; [done|]. split.
  { intros d d' _ HF Hrel. rewrite -HF. apply Hlocal; (eapply same_kept; [|exact Hrel]; by apply held_old). }
  split; [done|]. split; [|intros pt' Hf _ _ _; by apply HQ].
  apply Forall_forall. intros w Hw. by apply (Hws _ _ _ Hrun w Hw).
Qed.

Lemma fill_receipt_wp wrap c e j (Q : nat → Pt → Prop) pt :
  LRow c ∈ pt_locks pt → (∀ b pt', follows pt pt' → Q b pt') → pwp (pexec wrap (fill_receipt c e j)) Q pt.
Proof.
  intros Hlk HQ. apply row_stmt_wp with (c := c); [done| | |done].
  - intros d1 d1' d2 d2' [_ He1] [_ He2]. simpl. by rewrite He1 He2.
  - intros d b ws'. simpl. case_match; intros [= _ <-] w Hw; [by apply elem_of_nil in Hw|].
    by apply list_elem_of_singleton in Hw as ->.
Qed.

Lemma insert_event_wp wrap r (Q : unit → Pt → Prop) pt :
  LRow (pe_ctx_id r) ∈ pt_locks pt → (∀ pt', follows pt pt' → Q tt pt') → pwp (pexec wrap (insert_event_row r)) Q pt.
Proof.
  intros Hlk HQ. apply row_stmt_wp with (c := pe_ctx_id r); [done| | |by intros []].
  - intros d1 d1' d2 d2' _ [Hc He]. simpl. by rewrite Hc He.
  - intros d b ws'. simpl. repeat case_match; intros [= _ <-] w Hw. by apply list_elem_of_singleton in Hw as ->.
Qed.

Lemma write_fills_wp what c slots fills : ∀ (Q : unit → Pt → Prop) pt,
  LRow c ∈ pt_locks pt → (∀ pt', follows pt pt' → Q tt pt') → pwp (pg_write_fills what c slots fills) Q pt.
Proof.
  induction fills as [|[i r] fills IH]; intros Q pt Hlk HQ; [by apply HQ|]. cbn [pg_write_fills].
  apply wp_lift. intros v _. apply wp_lift. intros slot _. apply wp_bind, fill_receipt_wp; [done|].
  intros n pt' Hf. destruct (negb _); [done|]. apply IH; [by apply Hf|]. intros pt'' Hf'. apply HQ. by etrans.
Qed.

Lemma append_event_wp st event row ctx slots now draws (Q : option ReceiptPlan → Pt → Prop) pt :
  LRow (event_ctx_id event) ∈ pt_locks pt →
  (∀ d, pt_holds pt d → is_Some (pg_select_ctx (event_ctx_id event) d)) →
  (∀ plan pt', follows pt pt' → Q plan pt') →
  pwp (pg_append_event_step st event row ctx slots now draws) Q pt.
Proof.
  intros Hlk Hrow HQ. unfold pg_append_event_step. apply wp_lift. intros plan _. apply wp_bind.
  assert (∀ pt1, follows pt pt1 → pwp (
    let* receipt_json := plift match plan with
                               | Some p => let? v := receipt_value (plan_new p) in Ok (Some v)
                               | None => Ok None
                               end in
    let* signature_json := plift (map_err (λ e, RegistryInternal ("encode signature: " +:+ e)) (signature_to_value event)) in
    let* _ := pexec pg_err (insert_event_row (pg_event_row event signature_json (p_tenant_id row) receipt_json)) in
    let* _ := pexec pg_err (update_context (event_ctx_id event)
                              (WSetRetracted (event_ctx_id event) (is_retraction event))) in
    let* _ := pg_append_lifecycle draws event (fc_body ctx) (plan_new <$> plan) in
    Ret plan)%pg Q pt1) as Hrest.
  { intros pt1 Hf1. apply wp_lift. intros receipt _. apply wp_lift. intros signature _.
    apply wp_bind, insert_event_wp; [by apply Hf1|]. intros pt2 Hf2.
    apply wp_bind, update_wp; [done|done|by apply Hf2, Hf1| |].
    { intros d Hd. by apply select_persists, Hrow, Hf1, Hf2. }
    intros pt3 Hf3 _. apply wp_bind. unfold pg_append_lifecycle. apply wp_lift. intros v _.
    apply wp_lift. intros a _. apply insert_all_wp. intros pt4 Hf4. apply HQ.
    etrans; [exact Hf1|]. etrans; [exact Hf2|]. by etrans. }
  destruct plan as [plan|]; [|by apply Hrest]. by apply write_fills_wp.
Qed.

Lemma commit_lifecycle_disciplined st event now draws :
  pwp (pg_commit_lifecycle_event st event now draws) settled (mkPoint [] [] pg_inv (λ _, True)).
Proof.
  unfold pg_commit_lifecycle_event. set (c := event_ctx_id event). apply select_ctx_wp; [|done].
  intros row pt1 Hf1 Hw1 Hl1 Hrow. apply wp_lift. intros ctx _.
  apply wp_bind, select_wp with (l := LRow c); [done|by intros d d' [_ ?]|]. intros rows pt2 Hf2 Hw2 _.
  apply wp_lift. intros slots _. destruct (List.find _ slots) as [[prior s]|].
  { case_bool_decide; [|done]. by destruct (split_slots slots). }
  apply wp_lift. intros [] _. assert (follows (mkPoint [] [] pg_inv (λ _, True)) pt2) as Hf by (by etrans).
  apply wp_bind, append_event_wp; [by apply Hf2| |].
  { intros d Hd. apply Hf2 in Hd. eexists. by apply Hrow. }
  intros plan pt3 Hf3. assert (follows (mkPoint [] [] pg_inv (λ _, True)) pt3) as Hf' by (by etrans).
  destruct (split_slots _) as [events receipts]. apply settled_commit; [by apply Hf'; intros d|].
  intros d Hd. by apply (fo_owes _ _ Hf').
Qed.

Lemma backfill_disciplined mint c report now rollback :
  pwp (pg_backfill_ctx mint c report now rollback) settled (mkPoint [] [] pg_inv (λ _, True)).
Proof.
  unfold pg_backfill_ctx. apply select_ctx_wp; [|done]. intros row pt1 Hf1 Hw1 Hl1 Hrow.
  apply wp_bind, select_wp with (l := LRow c); [done|by intros d d' [_ ?]|]. intros rows pt2 Hf2 Hw2 _.
  destruct (pg_row_to_context row) as [ctx|]; [|done]. destruct (pg_slots_from_rows 0 rows) as [slots|]; [|done].
  apply wp_lift. intros [|fills|] _; [done| |done].
  apply wp_bind, write_fills_wp; [by apply Hf2|]. intros pt3 Hf3.
  assert (follows (mkPoint [] [] pg_inv (λ _, True)) pt3) as Hf' by (etrans; [exact Hf1|by etrans]).
  apply settled_commit; [by apply Hf'; intros d|]. intros d Hd. by apply (fo_owes _ _ Hf').
Qed.

Lemma delete_found_wp wrap now found missed (Q : unit → Pt → Prop) pt :
  pt_writes pt = [] → sound pt → (∀ d, pt_holds pt d → pt_owes pt d) →
  (∀ pt', sound pt' → (∀ d, pt_holds pt' d → pt_owes pt' d) → Q tt pt') →
  pwp (pexec wrap (delete_found_keys now found missed)) Q pt.
Proof.
  destruct pt as [ws L P0 C0]. cbn [pt_writes pt_owes pt_locks pt_holds]. intros -> Hso Howes HQ.
  apply wp_pexec. intros Hst snap cur [] ws' Hs Hc Hl Hrun ls. cbn [st_run delete_found_keys pt_writes] in *.
  set (ks := filter (λ k, k ∉ missed) found) in *.
  set (bad d := forallb (λ k, match pg_idempotency_records d !! k with Some r => expired_at now r | None => false end) ks).
  fold (bad (view [] cur)) in Hrun. destruct (bad (view [] cur)) eqn:Hbad; [|done]. injection Hrun as <-.
  assert (∀ k, k ∈ ks → LKey k ∈ ls) as Hls.
  { intros k Hk. apply (held_write _ _ _ _ _ (WDeleteKey k)); [by apply list_elem_of_fmap_2|]. by apply list_elem_of_singleton. }
  split. { intros w l (k & -> & Hk)%list_elem_of_fmap Hin. apply list_elem_of_singleton in Hin as ->. by apply Hls. }
  exists (λ d, P0 d ∧ bad d = true), C0. split; [done|]. split.
  { intros d d' [Hd Hb] Hrel. split; [eapply (stable_more _ _ _ _ _ Hst); [exact Hd|exact Hrel]|].
    apply forallb_forall. intros k Hk. pose proof (proj1 (forallb_forall _ _) Hb k Hk) as Hkb.
    apply list_elem_of_In in Hk. simpl in Hkb. pose proof (same_kept (LKey k) _ _ _ [] (Hls k Hk) Hrel) as Hkk.
    simpl in Hkk. by rewrite Hkk. }
  split; [by intros d [? _]|]. split.
  { intros d [_ Hb] Ho. split; [done|]. unfold repeats. cbn [st_run delete_found_keys]. fold ks. fold (bad (view [] d)).
    by rewrite Hb. }
  apply HQ; cbn [pt_writes pt_owes pt_locks pt_holds app].
  - intros d [Hd _]. cbn [pt_writes pt_holds]. apply pg_inv_quiets; [|by apply Hso in Hd].
    apply Forall_forall. by intros w (k & -> & _)%list_elem_of_fmap.
  - intros d [Hd _]. by apply Howes.
Qed.

Lemma evict_disciplined now missed :
  pwp (pg_evict_idempotency now missed) settled (mkPoint [] [] pg_inv (λ _, True)).
Proof.
  unfold pg_evict_idempotency. apply wp_bind. intros old _. apply wp_bind, delete_found_wp; [done|by intros d|done|].
  intros pt Hso Ho. by apply settled_commit.
Qed.

Lemma record_disciplined agent key hash response e :
  pwp (pg_idempotency_record agent key hash response e) settled (mkPoint [] [] pg_inv (λ _, True)).
Proof.
  unfold pg_idempotency_record. apply wp_lift. intros json _. apply wp_bind, wp_pexec.
  intros Hst snap cur [] ws' Hs Hc Hl Hrun ls. simpl in Hrun. injection Hrun as <-.
  set (w := WPutKey _ _). split.
  { eapply guard_lock; [done|]. by apply (held_write _ _ _ _ _ w); apply list_elem_of_singleton. }
  exists pg_inv, (λ _, True). split; [done|]. split; [by apply stable_more|]. split; [done|]. split; [done|].
  apply settled_commit; [|done]. intros d Hd. apply pg_inv_quiets; [by repeat constructor|done].
Qed.

Lemma set_tenant_disciplined c t :
  pwp (pg_set_tenant_of_ctx c t) settled (mkPoint [] [] pg_inv (λ _, True)).
Proof.
  unfold pg_set_tenant_of_ctx. case_bool_decide; [by apply settled_commit; [intros d|]|].
  apply wp_bind. intros old _. destruct (pg_select_ctx c _); [|by apply settled_commit; [intros d|]].
  apply wp_bind, stmt_wp with (F := λ _ _ _ d, is_Some (pg_select_ctx c d)).
  intros snap cur [] ws' Hs Hc Hl Hrun ls. simpl in Hrun.
  destruct (pg_select_ctx c cur) as [row|] eqn:Hrow; [|done]. injection Hrun as <-.
  assert (LRow c ∈ ls) as Hls by (apply (held_write _ _ _ _ _ (WSetTenant c t)); by apply list_elem_of_singleton).
  split; [by eapply guard_lock|]. split; [by eexists|]. split.
  { intros d d' _ Hd Hrel. destruct (same_kept (LRow c) _ _ _ [] Hls Hrel) as [Hsel _]. simpl in Hsel. by rewrite Hsel. }
  split. { intros d _ [r Hr]. unfold repeats. simpl. by rewrite Hr. }
  split; [by repeat constructor|]. intros pt' Hf _ _ _.
  apply settled_commit; [by apply Hf; intros d|]. intros d Hd. by apply (fo_owes _ _ Hf).
Qed.

Lemma answering_wp {A B} (f : A → B) (p : PgProg (TxEnd PgDb A)) pt :
  pwp p settled pt → pwp (answering f p) settled pt.
Proof.
  intros Hp. unfold answering. apply wp_bind. eapply wp_mono; [|exact Hp]. intros [a|k] pt' Ha; done.
Qed.

(** Every transaction of the store follows the protocol. *)
Lemma pg_program_disciplined st t :
  disciplined pg_apply pg_lock_of pg_guard pg_same_at pg_advance pg_inv (pg_program st t).
Proof.
  destruct t; cbn [pg_program]; apply answering_wp.
  - apply commit_publish_disciplined.
  - apply commit_lifecycle_disciplined.
  - apply backfill_disciplined.
  - apply record_disciplined.
  - apply evict_disciplined.
  - apply set_tenant_disciplined.
Qed.

End discipline.

(** ** Lineages without forks *)

Section forks.
Context `{StoreCodec} `{!PgCodec} `{PublishSdk} `{KeylessSdk} `{!PublishSdkLaws}.

(** No two rows supersede the same context, which is there, and a row is superseded
    exactly when one supersedes it. *)
Record unforked (l : list PgCtxRow) : Prop := mkUnforked {
  uf_ids : NoDup (map p_ctx_id l);
  uf_one r s p : r ∈ l → s ∈ l → p_supersedes r = Some p → p_supersedes s = Some p → r = s;
  uf_status r : r ∈ l → p_status r = "superseded" ↔ ∃ s, s ∈ l ∧ p_supersedes s = Some (p_ctx_id r);
  uf_target r p : r ∈ l → p_supersedes r = Some p → ∃ s, s ∈ l ∧ p_ctx_id s = p
}.

Lemma unforked_nil : unforked [].
Proof. split; [apply NoDup_nil_2|..]; intros; by match goal with Hx : _ ∈ [] |- _ => apply elem_of_nil in Hx end. Qed.

(** An update of other columns. *)
Lemma unforked_update p f l :
  (∀ r, p_ctx_id (f r) = p_ctx_id r ∧ p_supersedes (f r) = p_supersedes r ∧ p_status (f r) = p_status r) →
  unforked l → unforked (update_rows p f l).
Proof.
  intros Hf [Hids Hone Hst Htg]. unfold update_rows. set (g r := if p r then f r else r).
  assert (∀ r, p_ctx_id (g r) = p_ctx_id r ∧ p_supersedes (g r) = p_supersedes r ∧ p_status (g r) = p_status r) as Hg.
  { intros r. unfold g. by destruct (p r). }
  split.
  - rewrite map_map. erewrite map_ext; [exact Hids|]. intros r. apply Hg.
  - intros ? ? x (r & -> & Hr)%list_elem_of_fmap (s & -> & Hs)%list_elem_of_fmap.
    destruct (Hg r) as (_ & -> & _), (Hg s) as (_ & -> & _). intros Hrx Hsx. f_equal. by eapply Hone.
  - intros ? (r & -> & Hr)%list_elem_of_fmap. destruct (Hg r) as (-> & _ & ->). rewrite Hst //.
    split; [intros (s & Hs & Hsr)|intros (? & (s & -> & Hs)%list_elem_of_fmap & Hsr)].
    + exists (g s). split; [by apply list_elem_of_fmap_2|]. by destruct (Hg s) as (_ & -> & _).
    + exists s. split; [done|]. by destruct (Hg s) as (_ & <- & _).
  - intros ? x (r & -> & Hr)%list_elem_of_fmap. destruct (Hg r) as (_ & -> & _). intros (s & Hs & Hsx)%Htg; [|done].
    exists (g s). split; [by apply list_elem_of_fmap_2|]. by destruct (Hg s) as (-> & _).
Qed.

(** The contexts after a publish of [row]. *)
Definition with_published (row : PgCtxRow) (l : list PgCtxRow) : list PgCtxRow :=
  match p_supersedes row with
  | Some prev => update_rows (is_ctx prev) (pg_set_status "superseded") (l ++ [row])
  | None => l ++ [row]
  end.

(** What the locked predecessor was found to be. *)
Definition replaceable (prev : option string) (l : list PgCtxRow) : Prop :=
  ∀ c, prev = Some c → ∃ q, q ∈ l ∧ p_ctx_id q = c ∧ p_status q ≠ "superseded".

Lemma unforked_publish row l :
  unforked l → p_ctx_id row ∉ map p_ctx_id l → p_status row ≠ "superseded" → replaceable (p_supersedes row) l →
  unforked (with_published row l).
Proof.
  intros [Hids Hone Hst Htg] Hnew Hact Hprev. unfold with_published.
  assert (NoDup (map p_ctx_id (l ++ [row]))) as Hids'.
  { rewrite map_app. apply NoDup_app. split; [done|]. split; [set_solver|apply NoDup_singleton]. }
  assert (∀ s, s ∈ l → p_supersedes s ≠ Some (p_ctx_id row)) as Hnone.
  { intros s Hs Hsr. destruct (Htg s _ Hs Hsr) as (q & Hq & Hqr). apply Hnew. rewrite -Hqr. by apply list_elem_of_fmap_2. }
  destruct (p_supersedes row) as [prev|] eqn:Hp.
  - destruct (Hprev prev eq_refl) as (q & Hq & Hqid & Hqst).
    assert (∀ s, s ∈ l → p_supersedes s ≠ Some prev) as Hfree.
    { intros s Hs Hsp. apply Hqst, Hst; [done|]. exists s. by rewrite Hqid. }
    assert (prev ≠ p_ctx_id row) as Hne.
    { intros ->. apply Hnew. rewrite -Hqid. by apply list_elem_of_fmap_2. }
    unfold update_rows. set (g r := if is_ctx prev r then pg_set_status "superseded" r else r).
    assert (∀ r, p_ctx_id (g r) = p_ctx_id r ∧ p_supersedes (g r) = p_supersedes r) as Hg.
    { intros r. unfold g. by destruct (is_ctx prev r). }
    assert (∀ r, p_status (g r) = if is_ctx prev r then "superseded" else p_status r) as Hgs.
    { intros r. unfold g. by destruct (is_ctx prev r). }
    split.
    + rewrite map_map. erewrite map_ext; [exact Hids'|]. intros r. apply Hg.
    + intros ? ? x (r & -> & Hr)%list_elem_of_fmap (s & -> & Hs)%list_elem_of_fmap.
      destruct (Hg r) as [_ ->], (Hg s) as [_ ->]. intros Hrx Hsx. f_equal.
      apply elem_of_app in Hr as [Hr|Hr%list_elem_of_singleton]; apply elem_of_app in Hs as [Hs|Hs%list_elem_of_singleton];
        [by eapply Hone|subst s|subst r|by subst].
      * rewrite Hp in Hsx. injection Hsx as <-. by destruct (Hfree r Hr).
      * rewrite Hp in Hrx. injection Hrx as <-. by destruct (Hfree s Hs).
    + intros ? (r & -> & Hr)%list_elem_of_fmap. destruct (Hg r) as [-> _]. rewrite Hgs.
      assert ((∃ s, s ∈ map g (l ++ [row]) ∧ p_supersedes s = Some (p_ctx_id r)) ↔
              ∃ s, s ∈ l ++ [row] ∧ p_supersedes s = Some (p_ctx_id r)) as ->.
      { split; [intros (? & (s & -> & Hs)%list_elem_of_fmap & Hsr)|intros (s & Hs & Hsr)].
        - exists s. split; [done|]. by destruct (Hg s) as [_ <-].
        - exists (g s). split; [by apply list_elem_of_fmap_2|]. by destruct (Hg s) as [_ ->]. }
      unfold is_ctx. case_bool_decide as Hrp.
      { split; [|done]. intros _. exists row. split; [set_solver|]. by rewrite Hrp. }
      apply elem_of_app in Hr as [Hr|Hr%list_elem_of_singleton].
      * rewrite Hst //. split; intros (s & Hs & Hsr); exists s; [set_solver|].
        apply elem_of_app in Hs as [Hs|Hs%list_elem_of_singleton]; [done|]. subst s. congruence.
      * subst r. split; [done|]. intros (s & Hs & Hsr).
        apply elem_of_app in Hs as [Hs|Hs%list_elem_of_singleton]; [by destruct (Hnone s Hs)|]. subst s. congruence.
    + intros ? x (r & -> & Hr)%list_elem_of_fmap. destruct (Hg r) as [_ ->]. intros Hx.
      assert (∃ s, s ∈ l ∧ p_ctx_id s = x) as (s & Hs & Hsx).
      { apply elem_of_app in Hr as [Hr|Hr%list_elem_of_singleton]; [by eapply Htg|]. subst r.
        rewrite Hp in Hx. injection Hx as <-. by exists q. }
      exists (g s). split; [apply list_elem_of_fmap_2; set_solver|]. by destruct (Hg s) as [-> _].
  - split; [done|..].
    + intros r s x Hr Hs Hrx Hsx.
      apply elem_of_app in Hr as [Hr|Hr%list_elem_of_singleton]; apply elem_of_app in Hs as [Hs|Hs%list_elem_of_singleton];
        [by eapply Hone|by subst; congruence..].
    + intros r Hr. apply elem_of_app in Hr as [Hr|Hr%list_elem_of_singleton].
      * rewrite Hst //. split; intros (s & Hs & Hsr); exists s; [set_solver|].
        apply elem_of_app in Hs as [Hs|Hs%list_elem_of_singleton]; [done|]. subst s. congruence.
      * subst r. split; [done|]. intros (s & Hs & Hsr).
        apply elem_of_app in Hs as [Hs|Hs%list_elem_of_singleton]; [by destruct (Hnone s Hs)|]. subst s. congruence.
    + intros r x Hr Hx. apply elem_of_app in Hr as [Hr|Hr%list_elem_of_singleton]; [|by subst; congruence].
      destruct (Htg r x Hr Hx) as (s & Hs & Hsx). exists s. split; [set_solver|done].
Qed.

(** Programs that leave the contexts alone. *)
Notation at_rest l := (keeping pg_apply (λ d, pg_contexts d = l)).

Lemma at_rest_stmt {A} l wrap (s : PgStmt A) :
  (∀ d b ws, st_run s d d = Ok (b, ws) → pg_contexts (view pg_apply ws d) = pg_contexts d) → at_rest l (pexec wrap s).
Proof. intros Hs. split; [|done]. intros d b ws Hd Hr. by rewrite (Hs d b ws Hr). Qed.

Lemma at_rest_plift {A} l (r : result A AcdpError) : at_rest l (plift r : PgProg A).
Proof. by destruct r. Qed.

Ltac rest_stmt := apply at_rest_stmt; intros ? ? ? Hrun; simpl in Hrun; repeat case_match; simplify_eq; done.

Ltac rest_program :=
  repeat first
    [ done
    | apply at_rest_plift
    | apply keeping_bind; [|intros ?]
    | case_match
    | progress intros
    | rest_stmt ].

Lemma insert_changes_rest x l : ∀ draws, at_rest x (pg_insert_changes draws l).
Proof.
  induction l as [|a l IH]; intros draws; [done|]. cbn [pg_insert_changes].
  destruct (default _ _). apply keeping_bind; [rest_stmt|]. intros _. apply IH.
Qed.

Lemma insert_all_rest x draws l : at_rest x (pg_insert_all draws l).
Proof.
  unfold pg_insert_all. destruct (is_empty l); [done|].
  apply keeping_bind; [rest_stmt|]. intros _. apply insert_changes_rest.
Qed.

Lemma write_fills_rest x what c slots fills : at_rest x (pg_write_fills what c slots fills).
Proof. induction fills as [|[i r] fills IH]; [done|]. cbn [pg_write_fills]. rest_program. Qed.

Lemma contexts_deleted ks : ∀ d, pg_contexts (view pg_apply (map WDeleteKey ks) d) = pg_contexts d.
Proof. induction ks as [|k ks IH]; intros d; [done|]. cbn [map]. by etrans; [apply IH|]. Qed.

Notation awp := (alone_wp pg_apply).

(** A part that leaves the contexts alone, in front of a rest. *)
Lemma rest_bind_wp {A B} l (p : PgProg A) (k : A → PgProg B) Q d :
  at_rest l p → pg_contexts d = l → (∀ a d', pg_contexts d' = l → awp (k a) Q d') → awp (pbind p k) Q d.
Proof.
  intros Hp Hd Hk. apply alone_wp_bind. eapply alone_wp_mono; [|by apply (alone_wp_keeping _ _ _ Hp)]. cbv beta. auto.
Qed.

Lemma supersession_awp env commit prev d :
  awp (pg_supersession_step env commit prev)
    (λ o d', pg_contexts d' = pg_contexts d ∧ ((∃ first, o = inl first) → replaceable (Some prev) (pg_contexts d))) d.
Proof.
  unfold pg_supersession_step. apply alone_wp_bind. intros b ws [= <- <-]. cbn [alone_wp view fold_left].
  destruct (pg_select_ctx prev d) as [row|] eqn:Hsel; [|done].
  do 4 (match goal with |- context [if ?b then Abort _ else _] => destruct b; [done|] end).
  case_bool_decide as Hst.
  - apply (rest_bind_wp (pg_contexts d)); [|done|].
    { unfold committed_idempotent_response. rest_program. }
    intros [w|] d' Hd'; [|done]. cbn. split; [done|]. by intros [first ?].
  - apply (rest_bind_wp (pg_contexts d)); [|done|].
    { unfold pg_supersession_gate, pg_successor. rest_program. }
    intros [] d1 Hd1. apply (rest_bind_wp (pg_contexts d)); [rest_program|done|].
    intros [] d2 Hd2. apply (rest_bind_wp (pg_contexts d)); [rest_stmt|done|].
    intros first d3 Hd3. cbn. split; [done|]. intros _ c [= <-].
    destruct (pg_select_ctx_in _ _ _ Hsel). by exists row.
Qed.

Lemma build_awp env commit first d :
  awp (pg_build_step env commit first)
    (λ '(body, _) d', pg_contexts d' = pg_contexts d ∧ body_supersedes body = req_supersedes (pc_req commit)) d.
Proof.
  unfold pg_build_step. apply alone_wp_bind. destruct (assign_identifiers _ _ _ _) as [[c l]|]; [|done]. cbn.
  apply (rest_bind_wp (pg_contexts d)); [|done|].
  { unfold pg_window_gate, pg_successor. rest_program. }
  intros [] d1 Hd1. apply (rest_bind_wp (pg_contexts d)); [apply at_rest_plift|done|].
  intros receipt d2 Hd2. cbn. by rewrite built_supersedes.
Qed.

Lemma write_awp st env commit first d :
  unforked (pg_contexts d) → replaceable (req_supersedes (pc_req commit)) (pg_contexts d) →
  awp (pg_write_step st env commit first) (λ e d', ∀ a, e = Commit a → unforked (pg_contexts d')) d.
Proof.
  intros Huf Hrep. unfold pg_write_step. apply alone_wp_bind. eapply alone_wp_mono; [|apply build_awp].
  intros [body receipt] d1 [Hd1 Hsup]. unfold pg_insert_body. rewrite -Hd1 in Huf Hrep. clear Hd1 d.
  apply alone_wp_bind, alone_wp_bind. destruct (body_to_value body) as [v|]; [|done]. intros b ws.
  cbn [st_run insert_context]. set (row := pg_new_row body Active (pc_tenant commit) receipt v).
  destruct (pg_select_ctx (p_ctx_id row) d1) eqn:Hnew; [done|]. intros [= <- <-]. cbn [view fold_left pg_apply alone_wp].
  set (d2 := on_contexts _ d1). apply pg_select_ctx_none in Hnew.
  assert (unforked (with_published row (pg_contexts d1))) as Huf'.
  { apply unforked_publish; [done|done|done|]. cbn. by rewrite Hsup. }
  apply (rest_bind_wp (pg_contexts d2)); [|done|].
  { unfold pg_index_attestation. rest_program. }
  intros [] d3 Hd3. apply (rest_bind_wp (pg_contexts d2)); [|done|].
  { unfold pg_log_step. rest_program. }
  intros [] d4 Hd4. apply alone_wp_bind.
  eapply (alone_wp_mono _ _ (λ _ d, pg_contexts d = with_published row (pg_contexts d1))).
  2:{ unfold with_published. replace (p_supersedes row) with (req_supersedes (pc_req commit)) by (rewrite -Hsup; done).
      destruct (req_supersedes (pc_req commit)) as [prev|]; [|by rewrite /= Hd4].
      intros b ws. cbn [st_run update_context]. destruct (Hrep prev eq_refl) as (q & Hq & Hqid & _).
      destruct (pg_select_ctx prev d4) eqn:Hsel.
      - intros [= <- <-]. cbn. by rewrite Hd4.
      - apply pg_select_ctx_none in Hsel. rewrite Hd4 in Hsel. destruct Hsel. subst d2. cbn. rewrite map_app -Hqid.
        apply elem_of_app. left. by apply list_elem_of_fmap_2. }
  intros [] d5 Hd5. apply (rest_bind_wp (pg_contexts d5)); [|done|].
  { unfold pg_claim_step. rest_program. }
  intros claimed d6 Hd6. destruct claimed; [|done]. cbn [negb]. apply (rest_bind_wp (pg_contexts d5)); [|done|].
  { unfold pg_append_publish. rest_program; apply insert_all_rest. }
  intros [] d7 Hd7. intros a _. by rewrite Hd7 Hd5.
Qed.

Lemma publish_awp st env commit d :
  unforked (pg_contexts d) →
  awp (pg_commit_publish st env commit) (λ e d', ∀ a, e = Commit a → unforked (pg_contexts d')) d.
Proof.
  intros Huf. unfold pg_commit_publish. apply (rest_bind_wp (pg_contexts d)); [|done|].
  { unfold pg_idempotency_step. rest_program. }
  intros [r|] d1 Hd1; [done|]. apply alone_wp_bind.
  eapply (alone_wp_mono _ _ (λ o d', pg_contexts d' = pg_contexts d ∧
    ((∃ first, o = inl first) → replaceable (req_supersedes (pc_req commit)) (pg_contexts d)))).
  2:{ destruct (req_supersedes (pc_req commit)) as [prev|]; [|by split].
      rewrite -Hd1. apply supersession_awp. }
  intros [first|w] d2 [Hd2 Hr]; [|done]. apply write_awp; rewrite Hd2; [done|]. apply Hr. by exists first.
Qed.

Notation keeps_unforked := (keeping pg_apply (λ d, unforked (pg_contexts d))).

Lemma unforked_rest {A} (p : PgProg A) : (∀ l, at_rest l p) → keeps_unforked p.
Proof.
  induction p as [a|e|T wrap s k IH|T wrap q k IH]; intros Hp; [done|done| |].
  - split; [|intros b; apply IH; intros l; apply (Hp l)].
    intros d b ws Hd Hr. destruct (Hp (pg_contexts d)) as [Hs _]. by rewrite (Hs d b ws eq_refl Hr).
  - intros b. apply IH. intros l. apply (Hp l).
Qed.

Lemma update_keeps_unforked wrap c w f :
  (∀ d, pg_apply w d = on_contexts (update_rows (is_ctx c) f) d) →
  (∀ r, p_ctx_id (f r) = p_ctx_id r ∧ p_supersedes (f r) = p_supersedes r ∧ p_status (f r) = p_status r) →
  keeps_unforked (pexec wrap (update_context c w)) ∧ keeps_unforked (pexec wrap (update_found_context c w)).
Proof.
  intros Hw Hf. split; (split; [|done]); intros d b ws Hd; cbn [st_run update_context update_found_context];
    repeat case_match; try done; intros [= _ <-]; try done; cbn [view fold_left]; rewrite Hw; by apply unforked_update.
Qed.

Lemma lifecycle_keeps_unforked st event now draws : keeps_unforked (pg_commit_lifecycle_event st event now draws).
Proof.
  unfold pg_commit_lifecycle_event, pg_append_event_step, pg_append_lifecycle.
  repeat first
    [ done
    | apply keeping_bind; [|intros ?]
    | case_match
    | apply unforked_rest; intros ?; first [apply write_fills_rest|apply insert_all_rest|apply insert_changes_rest|rest_program; fail]
    | eapply update_keeps_unforked; [by intros|by intros] ].
Qed.

Lemma pg_program_awp st t d :
  unforked (pg_contexts d) →
  awp (pg_program st t) (λ e d', ∀ a, e = Commit a → unforked (pg_contexts d')) d.
Proof.
  intros Hd.
  assert (∀ A (f : A → PgAnswer) (p : PgProg (TxEnd PgDb A)),
    awp p (λ e d', ∀ a, e = Commit a → unforked (pg_contexts d')) d →
    awp (answering f p) (λ e d', ∀ a, e = Commit a → unforked (pg_contexts d')) d) as Hans.
  { intros A f p Hp. apply alone_wp_bind. eapply alone_wp_mono; [|exact Hp]. intros [a|k] d' Hd'; cbn; [|done].
    intros b _. by apply (Hd' a). }
  assert (∀ A (p : PgProg (TxEnd PgDb A)), keeps_unforked p →
    awp p (λ e d', ∀ a, e = Commit a → unforked (pg_contexts d')) d) as Hkeep.
  { intros A p Hp. eapply alone_wp_mono; [|by apply (alone_wp_keeping _ _ _ Hp)]. by intros e d' Hd' a _. }
  destruct t as [env commit|event now draws|mint c report now rb|agent key hash response e|now missed|c t]; cbn [pg_program]; apply Hans.
  - by apply publish_awp.
  - apply Hkeep, lifecycle_keeps_unforked.
  - apply Hkeep, unforked_rest. intros l. unfold pg_backfill_ctx. rest_program; apply write_fills_rest.
  - apply Hkeep, unforked_rest. intros l. unfold pg_idempotency_record. rest_program.
  - apply Hkeep, unforked_rest. intros l. unfold pg_evict_idempotency. rest_program. apply at_rest_stmt. intros d0 b ws.
    cbn [st_run delete_found_keys]. case_match; intros [= _ <-]. apply contexts_deleted.
  - apply Hkeep. unfold pg_set_tenant_of_ctx. case_match; [done|]. apply keeping_bind; [done|]. intros [found|]; [|done].
    apply keeping_bind; [|done]. eapply update_keeps_unforked; by intros.
Qed.
End forks.

(** ** Every run is a serial history *)

Section theorems.
Context `{StoreCodec} `{!PgCodec} `{PublishSdk} `{KeylessSdk} `{!PublishSdkLaws}.

(** Sessions that run transactions of the store, those that are [ok], from the tables
    [db]. *)
Definition pg_runs (ok : PgTransaction → Prop) (st : PgStore) (db : PgDb) (evs : list (Event PgDb PgLock PgWrite PgAnswer))
    (sys : System PgDb PgLock PgWrite PgAnswer) : Prop :=
  run pg_apply pg_lock_of (λ p, ∃ t, ok t ∧ p = pg_program st t) (mkSystem db ∅) evs sys.

(** The leaves are numbered from zero without a gap, one for a context. *)
Definition log_dense (db : PgDb) : Prop :=
  dense_from 0 (pg_log_leaves db) ∧ NoDup (map l_ctx_id (pg_log_leaves db)).

Notation keeps := (keeping pg_apply log_dense).

Lemma keeps_leaves {A} wrap (s : PgStmt A) :
  (∀ d b ws, st_run s d d = Ok (b, ws) → pg_log_leaves (view pg_apply ws d) = pg_log_leaves d) → keeps (pexec wrap s).
Proof. intros Hs. split; [|done]. intros d b ws Hd Hr. unfold log_dense. by rewrite (Hs d b ws Hr). Qed.

Lemma leaves_deleted ks : ∀ d, pg_log_leaves (view pg_apply (map WDeleteKey ks) d) = pg_log_leaves d.
Proof. induction ks as [|k ks IH]; intros d; [done|]. cbn [map]. by etrans; [apply IH|]. Qed.

Lemma insert_leaf_keeps wrap c json hash : keeps (pexec wrap (insert_log_leaf c json hash)).
Proof.
  split; [|done]. intros d b ws [Hd Hn]. cbn [st_run insert_log_leaf].
  destruct (existsb (λ l, (l_index l =? _)%Z) _); [done|].
  destruct (existsb (λ l, bool_decide (l_ctx_id l = c)) _) eqn:Hc; [done|]. intros [= _ <-]. split; simpl.
  - intros i l [Hi|[Hlen Hi]]%lookup_app_Some; [by apply Hd|].
    apply list_lookup_singleton_Some in Hi as [Hi <-]. simpl. lia.
  - rewrite map_app. apply NoDup_app. split; [done|]. split; [|apply NoDup_singleton].
    intros x (l & -> & Hl)%list_elem_of_fmap Hx%list_elem_of_singleton.
    assert (existsb (λ l, bool_decide (l_ctx_id l = c)) (pg_log_leaves d) = true) as Ht; [|congruence].
    apply existsb_exists. exists l. split; [by apply list_elem_of_In|by apply bool_decide_eq_true].
Qed.

Lemma keeps_plift {A} (r : result A AcdpError) : keeps (plift r : PgProg A).
Proof. by destruct r. Qed.

Ltac plain_stmt :=
  apply keeps_leaves; intros ? ? ? Hrun; simpl in Hrun; repeat case_match; simplify_eq; done.

Ltac keep_program :=
  repeat first
    [ done
    | apply keeps_plift
    | apply insert_leaf_keeps
    | apply keeping_bind; [|intros ?]
    | case_match
    | progress intros
    | plain_stmt ].

Lemma insert_changes_keeps l : ∀ draws, keeps (pg_insert_changes draws l).
Proof.
  induction l as [|a l IH]; intros draws; [done|]. cbn [pg_insert_changes].
  destruct (default _ _). apply keeping_bind; [plain_stmt|]. intros _. apply IH.
Qed.

Lemma insert_all_keeps draws l : keeps (pg_insert_all draws l).
Proof.
  unfold pg_insert_all. destruct (is_empty l); [done|].
  apply keeping_bind; [plain_stmt|]. intros _. apply insert_changes_keeps.
Qed.

Lemma write_fills_keeps what c slots fills : keeps (pg_write_fills what c slots fills).
Proof. induction fills as [|[i r] fills IH]; [done|]. cbn [pg_write_fills]. keep_program. Qed.

Lemma commit_publish_keeps st env commit : keeps (pg_commit_publish st env commit).
Proof.
  unfold pg_commit_publish, pg_idempotency_step, pg_supersession_step, pg_write_step, pg_build_step,
    committed_idempotent_response, pg_supersession_gate, pg_window_gate, pg_successor, pg_insert_body,
    pg_index_attestation, pg_log_step, pg_claim_step, pg_append_publish.
  keep_program; apply insert_all_keeps.
Qed.

Lemma commit_lifecycle_keeps st event now draws : keeps (pg_commit_lifecycle_event st event now draws).
Proof.
  unfold pg_commit_lifecycle_event, pg_append_event_step, pg_append_lifecycle.
  keep_program; first [apply insert_changes_keeps|apply write_fills_keeps].
Qed.

Lemma pg_program_keeps st t : keeps (pg_program st t).
Proof.
  destruct t as [env commit|event now draws|mint c report now rb|agent key hash response e|now missed|c t]; cbn [pg_program]; unfold answering;
    apply keeping_bind; try done.
  - apply commit_publish_keeps.
  - apply commit_lifecycle_keeps.
  - unfold pg_backfill_ctx. keep_program; apply write_fills_keeps.
  - unfold pg_idempotency_record. keep_program.
  - unfold pg_evict_idempotency. keep_program. apply keeps_leaves. intros d b ws. cbn [st_run delete_found_keys].
    case_match; intros [= _ <-]. apply leaves_deleted.
  - unfold pg_set_tenant_of_ctx. keep_program.
Qed.

(** C8: Under READ COMMITTED every run of the Postgres store's write transactions
    (publishes, lifecycle events, receipt sweeps, idempotency records, evictions and
    tenant stamps, any number at once, interleaved statement by statement, with any statement, commit or
    reply failing) is a serial history: in the order of the commits, each transaction
    leaves the tables as it would running alone on what the one before left, and
    answers the same; the only reads that may be older are the unlocked ones of the
    keyless gates and the scans of the one-statement transactions, and those saw a
    state of the history. Along the way context ids stay unique and every lineage keeps
    its first version. *)
Theorem pg_runs_are_serial ok st db evs sys :
  pg_inv db → pg_runs ok st db evs sys →
  (∃ olds, serial_history pg_apply db evs (committed sys :: olds)) ∧
  (∀ i p peeks a, Committed i p peeks a ∈ evs → ∃ t, ok t ∧ p = pg_program st t) ∧
  pg_inv (committed sys).
Proof.
  intros Hi Hrun.
  assert (∀ d d', pg_inv d → pg_advance d d' → pg_inv d') as Hkeep by (intros d d' Hd Hadv; by apply Hadv).
  assert (∀ p, (∃ t, ok t ∧ p = pg_program st t) → disciplined pg_apply pg_lock_of pg_guard pg_same_at pg_advance pg_inv p) as Hdisc.
  { intros p (t & _ & ->). apply pg_program_disciplined. }
  split_and!.
  - destruct (run_serial pg_apply pg_lock_of pg_guard pg_same_at pg_advance pg_apply_cong pg_apply_other pg_inv _ Hkeep Hdisc db evs sys Hi Hrun)
      as (olds & Hh & _). by exists olds.
  - exact (run_admitted pg_apply pg_lock_of pg_guard pg_same_at pg_advance pg_apply_cong pg_apply_other pg_inv _ Hkeep Hdisc db evs sys Hi Hrun).
  - eapply sys_inv, (run_ok pg_apply pg_lock_of pg_guard pg_same_at pg_advance pg_apply_cong pg_apply_other pg_inv _ Hkeep Hdisc _ evs);
      [by apply initial_ok|exact Hrun].
Qed.

(** C11: In every run of the Postgres store's write transactions the transparency log
    stays dense: its leaves are numbered from zero without a gap in the order they
    were committed, and no context has two, whatever the interleaving and whatever
    fails. The count that numbers a leaf is read without locking a row; the advisory
    lock taken a statement earlier makes it right. *)
Theorem pg_log_stays_dense ok st db evs sys :
  pg_inv db → log_dense db → pg_runs ok st db evs sys → log_dense (committed sys).
Proof.
  intros Hi Hd Hrun.
  eapply (run_keeping pg_apply pg_lock_of pg_guard pg_same_at pg_advance pg_apply_cong pg_apply_other pg_inv); [..|exact Hrun]; try done.
  - intros d d' Hdd Hadv. by apply Hadv.
  - intros p (t & _ & ->). apply pg_program_disciplined.
  - intros p (t & _ & ->). apply pg_program_keeps.
Qed.

(** C10: Concurrent publishes on Postgres never fork a lineage. From tables whose
    lineages are not forked (such as those without contexts), whatever number of
    sessions run any of the store's write transactions at once, keyless publishes
    included, at whatever clocks, however their statements interleave and whichever of
    them fail: no two contexts supersede the same one, the context one supersedes is there, and
    a context has status superseded exactly when some context supersedes it. *)
Theorem pg_lineages_never_fork ok st db evs sys :
  pg_inv db → unforked (pg_contexts db) → pg_runs ok st db evs sys →
  (∀ r s p, r ∈ pg_contexts (committed sys) → s ∈ pg_contexts (committed sys) →
     p_supersedes r = Some p → p_supersedes s = Some p → r = s) ∧
  (∀ r, r ∈ pg_contexts (committed sys) →
     p_status r = "superseded" ↔ ∃ s, s ∈ pg_contexts (committed sys) ∧ p_supersedes s = Some (p_ctx_id r)) ∧
  (∀ r p, r ∈ pg_contexts (committed sys) → p_supersedes r = Some p →
     ∃ s, s ∈ pg_contexts (committed sys) ∧ p_ctx_id s = p).
Proof.
  intros Hi Hu Hrun. assert (unforked (pg_contexts (committed sys))) as [_ Hone Hst Htg]; [|done].
  eapply (run_alone_wp pg_apply pg_lock_of pg_guard pg_same_at pg_advance pg_apply_cong pg_apply_other pg_inv); [..|exact Hi| |exact Hrun].
  - intros d d' Hdd Hadv. by apply Hadv.
  - intros p (t & _ & ->). apply pg_program_disciplined.
  - intros p d (t & _ & ->). apply pg_program_awp.
  - exact Hu.
Qed.
End theorems.
