(* ===== verification/PgParity.v ===== *)
(** * The Postgres store refines the SQLite store

    The two backends keep the same contexts, events, keys, attestations, leaves and
    feed rows in their own columns: [rep] relates tables written from the same data.
    A transaction of the Postgres store that commits alone does on such tables what the
    SQLite store's transaction does, and answers the same; with [PgSerial] every run of
    the Postgres store under READ COMMITTED is then a run of the SQLite store, so what
    is proved of the stores the SQLite code can reach holds of the Postgres tables.

    Left out: publishes signed with keyless keys, whose gates may read an older state,
    and the one-statement transactions. Clocks and times to live are whole
    milliseconds, which is what SQLite keeps of them. *)

From S2P Require Import Prelude Text Errors ContextTypes ChangeBucket ChangeFeed FeedBackends.
From S2P Require Import EventReceipts KeyAttestations SqlTx SqliteStore SqlitePublish SqliteInvariants.
From S2P Require Import SqliteLifecycle SqliteReach SqliteLog PgTx PgStore PgSerial.

Open Scope registry_scope.

(** What [serde_json] documents of the types, and Postgres of JSONB: a document that
    is written and read back holds the same data, whatever became of the order of its
    members; a type has one serializer, so it fails for both forms or for neither; a
    list of strings is always written. *)
Class PgCodecLaws `{StoreCodec} `{!PgCodec} : Prop := {
  pg_body_inverse b v : body_to_value b = Ok v → body_from_value (from_jsonb (to_jsonb v)) = Ok b;
  pg_response_inverse r v : response_to_value r = Ok v → response_from_value (from_jsonb (to_jsonb v)) = Ok r;
  pg_receipt_inverse r v :
    event_receipt_to_value r = Ok v → event_receipt_from_value (from_jsonb (to_jsonb v)) = Ok r;
  pg_event_inverse e sig tenant rc :
    signature_to_value e = Ok sig → pg_event_from_row (pg_event_row e sig tenant rc) = Ok e;
  body_both b : is_ok (body_to_value b) = is_ok (body_text b);
  response_both r : is_ok (response_to_value r) = is_ok (response_text r);
  signature_both e : is_ok (signature_to_value e) = is_ok (event_signature_text e);
  strings_written l : is_ok (strings_text l) = true
}.

Section rep.
Context `{StoreCodec} `{!PgCodec} `{PublishSdk} `{KeylessSdk}.

(** ** Tables written from the same data *)

(** One context, with what can change of it. *)
Definition ctx_rep (p : PgCtxRow) (c : CtxRow) : Prop :=
  ∃ b receipt v t cs ts status tenant (retracted : bool),
    body_to_value b = Ok v ∧ body_text b = Ok t ∧ strings_text (body_contributors b) = Ok cs ∧
    strings_text (default [] (body_tags b)) = Ok ts ∧
    p = pg_set_status status (pg_set_tenant tenant (pg_set_retracted retracted (pg_new_row b Active None receipt v))) ∧
    c = set_status status (set_tenant tenant (set_retracted (if retracted then 1 else 0)%Z
          (new_row b Active None receipt t cs ts))).

(** The receipt column of an event. *)
Definition receipt_rep (p : option Jsonb) (c : option string) : Prop :=
  (p = None ∧ c = None) ∨
  ∃ r v, event_receipt_to_value r = Ok v ∧ p = Some (to_jsonb v) ∧ c = Some (value_text v).

Definition event_rep (p : PgEventRow) (c : EventRow) : Prop :=
  ∃ e sig sigt tenant rc rct,
    signature_to_value e = Ok sig ∧ event_signature_text e = Ok sigt ∧ receipt_rep rc rct ∧
    p = mkPgEventRow (event_ctx_id e) (event_id e) (event_type_text e) (event_occurred_text e) (event_actor e)
          (event_reason e) (to_jsonb <$> sig) tenant rc ∧
    c = event_row e sigt tenant rct.

Definition whole_ms (t : Z) : Prop := (t mod ns_per_ms = 0)%Z.

(** The expiry of a record at a whole millisecond: Postgres keeps microseconds of it and
    SQLite milliseconds, so a finer one is not the same instant in both. *)
Definition key_rep (p : PgIdemRow) (c : IdemRow) : Prop :=
  ∃ r v t time, response_to_value r = Ok v ∧ response_text r = Ok t ∧ whole_ms time ∧
    pi_content_hash p = i_content_hash c ∧ pi_response_json p = to_jsonb v ∧ i_response_json c = t ∧
    pi_expires_at p = pg_time time ∧ i_expires_at_ms c = timestamp_millis time.

Definition att_rep (p : PgAttRow) (c : AttRow) : Prop := ∃ r, p = pg_att_row r ∧ c = att_row r.

(** Sequence numbers and the times of the feed are each backend's own. *)
Definition feed_rep (p : ChangesRow Jsonb) (c : ChangesRow string) : Prop :=
  ∃ a s n s' n', p = insert_row to_jsonb s n a ∧ c = insert_row value_text s' n' a.

Record rep (d : PgDb) (s : SqliteDb) : Prop := mkRep {
  rep_contexts : Forall2 ctx_rep (pg_contexts d) (contexts s);
  rep_events : Forall2 event_rep (pg_lifecycle_events d) (lifecycle_events s);
  rep_keys : ∀ k, option_Forall2 key_rep (pg_idempotency_records d !! k) (idempotency_records s !! k);
  rep_attestations : Forall2 att_rep (pg_key_attestations d) (key_attestations s);
  rep_leaves : pg_log_leaves d = log_leaves s;
  rep_changes : Forall2 feed_rep (changes (pg_changes d)) (changes (changes_db s))
}.

(** What a row shows is the same in both. *)
Lemma ctx_rep_columns p c : ctx_rep p c →
  p_ctx_id p = c_ctx_id c ∧ p_lineage_id p = c_lineage_id c ∧ p_agent_id p = c_agent_id c ∧
  p_version p = c_version c ∧ p_status p = c_status c ∧ p_tenant_id p = c_tenant_id c ∧
  negb (c_retracted c =? 0)%Z = p_retracted p.
Proof.
  intros (b & receipt & v & t & cs & ts & status & tenant & retracted & _ & _ & _ & _ & -> & ->). simpl.
  split_and!; try done. by destruct retracted.
Qed.

Lemma ctx_rep_id p c : ctx_rep p c → p_ctx_id p = c_ctx_id c.
Proof. intros Hp%ctx_rep_columns. apply Hp. Qed.

Lemma ctx_rep_status s p c : ctx_rep p c → ctx_rep (pg_set_status s p) (set_status s c).
Proof.
  intros (b & receipt & v & t & cs & ts & status & tenant & retracted & Hv & Ht & Hcs & Hts & -> & ->).
  by exists b, receipt, v, t, cs, ts, s, tenant, retracted.
Qed.

Lemma ctx_rep_retracted (r : bool) p c :
  ctx_rep p c → ctx_rep (pg_set_retracted r p) (set_retracted (if r then 1 else 0)%Z c).
Proof.
  intros (b & receipt & v & t & cs & ts & status & tenant & retracted & Hv & Ht & Hcs & Hts & -> & ->).
  by exists b, receipt, v, t, cs, ts, status, tenant, r.
Qed.

(** Finding a row. *)
Lemma select_rep c d s : rep d s → option_Forall2 ctx_rep (pg_select_ctx c d) (select_ctx c s).
Proof.
  intros Hrep. unfold pg_select_ctx, select_ctx.
  induction (rep_contexts _ _ Hrep) as [|p r ps rs Hpr _ IH]; simpl; [constructor|].
  unfold is_ctx at 1. rewrite (ctx_rep_id _ _ Hpr). case_bool_decide; [by constructor|done].
Qed.

Lemma update_rep c f g d s :
  (∀ p r, ctx_rep p r → ctx_rep (f p) (g r)) → rep d s →
  rep (on_contexts (update_rows (is_ctx c) f) d) (update_ctx c g s).
Proof.
  intros Hfg [Hc He Hk Ha Hl Hf]. split; simpl; try done. unfold update_rows. clear -Hfg Hc.
  induction Hc as [|p r ps rs Hpr _ IH]; simpl; [constructor|]. constructor; [|done].
  unfold is_ctx. rewrite (ctx_rep_id _ _ Hpr). case_bool_decide; by auto.
Qed.

Lemma Forall2_snoc {A B} (R : A → B → Prop) l k x y : Forall2 R l k → R x y → Forall2 R (l ++ [x]) (k ++ [y]).
Proof. intros. apply Forall2_app; [done|]. by repeat constructor. Qed.

Lemma event_rep_ctx p c : event_rep p c → pe_ctx_id p = e_ctx_id c ∧ pe_event_id p = e_event_id c.
Proof. by intros (e & sig & sigt & tenant & rc & rct & _ & _ & _ & -> & ->). Qed.

Lemma event_rep_receipt p c : event_rep p c → is_Some (pe_receipt p) ↔ is_Some (e_receipt c).
Proof.
  intros (e & sig & sigt & tenant & rc & rct & _ & _ & Hrc & -> & ->). simpl.
  destruct Hrc as [[-> ->]|(r & v & _ & -> & ->)]; by split; intros [? ?]; eauto.
Qed.

Lemma select_events_rep c d s : rep d s → Forall2 event_rep (pg_select_events c d) (select_events c s).
Proof.
  intros Hrep. unfold pg_select_events, select_events.
  induction (rep_events _ _ Hrep) as [|p r ps rs Hpr _ IH]; [constructor|].
  rewrite !filter_cons. destruct (event_rep_ctx _ _ Hpr) as [-> _]. case_decide; [by constructor|done].
Qed.

(** The same as a body, and as the slots of its events. *)
Lemma decode_body_rep `{!StoreCodecLaws} `{!PgCodecLaws} p c :
  ctx_rep p c → ∃ b, pg_decode_body (p_body_json p) = Ok b ∧ decode_body (c_body_json c) = Ok b ∧
    p_contributors p = body_contributors b ∧ strings_parse (c_contributors c) = Ok (body_contributors b).
Proof.
  intros (b & receipt & v & t & cs & ts & status & tenant & retracted & Hv & Ht & Hcs & Hts & -> & ->). exists b.
  unfold pg_decode_body, decode_body. simpl.
  rewrite (pg_body_inverse _ _ Hv) (body_inverse _ _ Ht) (strings_inverse _ _ Hcs). done.
Qed.

(** A context as the two backends serve it: Postgres answers with what JSONB made of
    the registry receipt. *)
Definition same_ctx (f g : FullContext) : Prop :=
  fc_body f = fc_body g ∧ fc_state f = fc_state g ∧
  fc_registry_receipt f = (λ v, from_jsonb (to_jsonb v)) <$> fc_registry_receipt g.

Section decoding.
Context `{!StoreCodecLaws} `{!EventSdkLaws} `{!PgCodecLaws}.

Lemma row_to_context_rep p c :
  ctx_rep p c → ∃ f g, pg_row_to_context p = Ok f ∧ row_to_context c = Ok g ∧ same_ctx f g.
Proof.
  intros (b & receipt & v & t & cs & ts & status & tenant & retracted & Hv & Ht & Hcs & Hts & -> & ->).
  unfold pg_row_to_context, row_to_context, pg_decode_body, decode_body. simpl.
  rewrite (pg_body_inverse _ _ Hv) (body_inverse _ _ Ht). simpl.
  destruct receipt as [r|]; simpl; [rewrite value_inverse; simpl|]; eexists _, _; (split; [done|]; split; [done|]);
    by destruct retracted.
Qed.

Lemma slot_from_row_rep p c i : event_rep p c → pg_slot_from_row p i = slot_from_row c i.
Proof.
  intros (e & sig & sigt & tenant & rc & rct & Hsig & Hsigt & Hrc & -> & ->).
  unfold pg_slot_from_row, slot_from_row.
  pose proof (pg_event_inverse e sig tenant None Hsig) as Hp. unfold pg_event_row in Hp.
  change (pg_event_from_row _) with (pg_event_from_row (mkPgEventRow (event_ctx_id e) (event_id e) (event_type_text e)
    (event_occurred_text e) (event_actor e) (event_reason e) (to_jsonb <$> sig) tenant (to_jsonb <$> None))).
  rewrite Hp (event_row_inverse e sigt tenant rct Hsigt). simpl. f_equal. f_equal.
  destruct Hrc as [[-> ->]|(r & v & Hv & -> & ->)]; [done|]. simpl. rewrite value_inverse.
  by rewrite (pg_receipt_inverse _ _ Hv) (receipt_value_inverse _ _ Hv).
Qed.

Lemma slots_from_rows_rep ps rs : Forall2 event_rep ps rs → ∀ i, pg_slots_from_rows i ps = slots_from_rows i rs.
Proof.
  induction 1 as [|p c ps rs Hpc _ IH]; intros i; simpl; [done|]. by rewrite (slot_from_row_rep _ _ _ Hpc) IH.
Qed.
End decoding.
End rep.

(** ** Simulation *)

Section simulation.
Context `{StoreCodec} `{!PgCodec} `{PublishSdk} `{KeylessSdk}.

Notation view := (view pg_apply).
Notation serial := (serial pg_apply).

(** [p] alone on the tables does what [t] does on those it represents, unless its
    answer is one of [D]; [P] holds before and [R] of the answers and tables after. *)
Definition sim {A B} (D : A → Prop) (P : PgDb → Prop) (p : PgProg A) (t : STx B) (R : A → B → PgDb → Prop) : Prop :=
  ∀ ws db sdb a ws', P (view ws db) → rep (view ws db) sdb → serial p [] ws db = Ok (a, ws') →
    D a ∨ ∃ b sdb', t [] sdb = Ok (b, [], sdb') ∧ R a b (view ws' db) ∧ rep (view ws' db) sdb'.

Definition never {A} (_ : A) : Prop := False.

Lemma sim_ret {A B} D P (a : A) (b : B) (R : A → B → PgDb → Prop) :
  (∀ d, P d → R a b d) → sim D P (Ret a) (tx_ret b) R.
Proof. intros HR ws db sdb a' ws' HP Hrep [= <- <-]. right. exists b, sdb. by split_and!; [|apply HR|]. Qed.

Lemma sim_doomed {A B} (D : A → Prop) P a (t : STx B) R : D a → sim D P (Ret a) t R.
Proof. intros HD ws db sdb a' ws' _ _ [= <- <-]. by left. Qed.

Lemma sim_abort {A B} D P e (t : STx B) (R : A → B → PgDb → Prop) : sim D P (Abort e) t R.
Proof. done. Qed.

Lemma serial_bind {A B} (p : PgProg A) (k : A → PgProg B) db : ∀ ws b ws',
  serial (pbind p k) [] ws db = Ok (b, ws') →
  ∃ a ws1, serial p [] ws db = Ok (a, ws1) ∧ serial (k a) [] ws1 db = Ok (b, ws').
Proof.
  induction p as [a|e|T wrap s k' IH|T wrap q k' IH]; intros ws b ws'; simpl; [by eauto|done| |by apply IH].
  destruct (st_run s _ _) as [[x w]|]; [|done]. apply IH.
Qed.

Lemma sim_bind {A A' B B'} (D : A → Prop) (E : B → Prop) P (p : PgProg A) (t : STx A') (k : A → PgProg B) (k' : A' → STx B') R Q :
  sim D P p t R →
  (∀ a ws db b ws', D a → serial (k a) [] ws db = Ok (b, ws') → E b) →
  (∀ a a', sim E (R a a') (k a) (k' a') Q) →
  sim E P (pbind p k) (tx_bind t k') Q.
Proof.
  intros Hp HD Hk ws db sdb b ws' HP Hrep (a & ws1 & Ha & Hb)%serial_bind.
  destruct (Hp ws db sdb a ws1 HP Hrep Ha) as [Hd|(a' & sdb1 & Ht & HR & Hrep1)].
  { left. by eapply HD. }
  destruct (Hk a a' ws1 db sdb1 b ws' HR Hrep1 Hb) as [He|(b' & sdb2 & Ht2 & HQ & Hrep2)]; [by left|].
  right. exists b', sdb2. split_and!; [|done|done]. unfold tx_bind. by rewrite Ht.
Qed.

(** The usual case: the first part always agrees. *)
Lemma sim_then {A A' B B'} (E : B → Prop) P (p : PgProg A) (t : STx A') (k : A → PgProg B) (k' : A' → STx B') R Q :
  sim never P p t R → (∀ a a', sim E (R a a') (k a) (k' a') Q) → sim E P (pbind p k) (tx_bind t k') Q.
Proof. intros Hp Hk. eapply sim_bind; [exact Hp|done|exact Hk]. Qed.

Lemma sim_lift {A B} D P (r : result A AcdpError) (r' : result B AcdpError) (R : A → B → PgDb → Prop) :
  (∀ a, r = Ok a → ∃ b, r' = Ok b ∧ ∀ d, P d → R a b d) → sim D P (plift r) (tx_lift r') R.
Proof.
  intros Hr ws db sdb a ws' HP Hrep. destruct r as [a0|]; simpl; [|done]. intros [= <- <-].
  destruct (Hr a0 eq_refl) as (b & -> & HR). right. exists b, sdb. by split_and!; [|apply HR|].
Qed.

Lemma sim_lift_eq {A} P (r : result A AcdpError) :
  sim never P (plift r) (tx_lift r) (λ a b d, a = b ∧ r = Ok a ∧ P d).
Proof. apply sim_lift. intros a ->. by exists a. Qed.

Lemma sim_stmt {A B} D P wrap wrap' (s : PgStmt A) (f : SqliteDb → result (B * SqliteDb) string) (R : A → B → PgDb → Prop) :
  (∀ d sd a ws, P d → rep d sd → st_run s d d = Ok (a, ws) →
     ∃ b sd', f sd = Ok (b, sd') ∧ R a b (view ws d) ∧ rep (view ws d) sd') →
  sim D P (pexec wrap s) (stmt wrap' f) R.
Proof.
  intros Hs ws db sdb a ws' HP Hrep. simpl. destruct (st_run s _ _) as [[b w]|] eqn:Hr; [|done]. intros [= <- <-].
  destruct (Hs _ _ _ _ HP Hrep Hr) as (b' & sd' & Hf & HR & Hrep'). right. exists b', sd'.
  rewrite view_app. split_and!; [|done|done]. unfold stmt. by rewrite Hf.
Qed.

(** A lock that only Postgres takes. *)
Lemma sim_lock {A B} D P wrap lock (q : PgProg A) (t : STx B) R :
  sim D P q t R → sim D P (pbind (pexec wrap (advisory_lock lock)) (λ _, q)) t R.
Proof. intros Hq ws db sdb a ws' HP Hrep. simpl. rewrite app_nil_r. by apply Hq. Qed.

Lemma sim_pre {A B} D (P P' : PgDb → Prop) (p : PgProg A) (t : STx B) R :
  (∀ d, P' d → P d) → sim D P p t R → sim D P' p t R.
Proof. intros HP Hp ws db sdb a ws' HP' Hrep Hs. by eapply Hp; [apply HP| |]. Qed.

Lemma sim_post {A B} D P (p : PgProg A) (t : STx B) (R R' : A → B → PgDb → Prop) :
  (∀ a b d, R a b d → R' a b d) → sim D P p t R → sim D P p t R'.
Proof.
  intros HR Hp ws db sdb a ws' HP Hrep Hs. destruct (Hp ws db sdb a ws' HP Hrep Hs) as [Hd|(b & sdb' & Ht & Hab & Hrep')]; [by left|].
  right. exists b, sdb'. by auto.
Qed.

(** A fact that does not speak of the tables. *)
Lemma sim_pure {A B} D (F : Prop) P (p : PgProg A) (t : STx B) R :
  (F → sim D P p t R) → sim D (λ d, F ∧ P d) p t R.
Proof. intros Hp ws db sdb a ws' [HF HP]. by apply Hp. Qed.
End simulation.

(** ** The steps of a publish *)

Section publish.
Context `{StoreCodec} `{!PgCodec} `{PublishSdk} `{KeylessSdk}.
Context `{!StoreCodecLaws} `{!PublishSdkLaws} `{!EventSdkLaws} `{!PgCodecLaws}.

Notation view := (view pg_apply).

Lemma whole_pg_time t : whole_ms t → pg_time t = t.
Proof. unfold whole_ms, pg_time, ns_per_ms. intros. Z.div_mod_to_equations. lia. Qed.

Lemma whole_order t u : whole_ms t → whole_ms u → (timestamp_millis t <=? timestamp_millis u)%Z = (t <=? u)%Z.
Proof.
  unfold whole_ms, timestamp_millis, ns_per_ms. intros Ht Hu. apply eq_true_iff_eq. rewrite !Z.leb_le.
  Z.div_mod_to_equations. lia.
Qed.

(** Keys. *)
Lemma rep_on_keys f g d s :
  (∀ k, option_Forall2 key_rep (f (pg_idempotency_records d) !! k) (g (idempotency_records s) !! k)) →
  rep d s → rep (on_keys f d) (with_idempotency g s).
Proof. intros Hk [Hc He _ Ha Hl Hf]. by split. Qed.

Lemma idempotency_step_free req key now sdb :
  let k := (req_agent_id req, key) in
  match idempotency_records sdb !! k with Some r => (i_expires_at_ms r <=? timestamp_millis now)%Z = true | None => True end →
  idempotency_step req key now [] sdb = Ok (None, [], with_idempotency (delete k) sdb).
Proof.
  intros k Hk. unfold idempotency_step, tx_bind, execute, query, stmt. fold k. cbn [tail]. unfold with_idempotency. simpl.
  assert (match idempotency_records sdb !! k with
          | Some r => if (i_expires_at_ms r <=? timestamp_millis now)%Z then delete k (idempotency_records sdb)
                      else idempotency_records sdb
          | None => idempotency_records sdb
          end = delete k (idempotency_records sdb)) as ->.
  { destruct (idempotency_records sdb !! k) eqn:Hl; [by rewrite Hk|]. by rewrite delete_id. }
  by rewrite lookup_delete_eq.
Qed.

Lemma rep_delete_key k f d s :
  f (pg_idempotency_records d) = delete k (pg_idempotency_records d) → rep d s → rep (on_keys f d) (with_idempotency (delete k) s).
Proof.
  intros Hf Hrep. apply rep_on_keys; [|done]. intros k'. rewrite Hf. destruct (decide (k = k')) as [<-|Hne].
  - rewrite !lookup_delete_eq. constructor.
  - rewrite !lookup_delete_ne //. apply Hrep.
Qed.

Lemma idempotency_sim env req key :
  whole_ms (pv_now env) →
  sim (λ r, is_Some r) pg_inv (pg_idempotency_step env req key) (idempotency_step req key (pv_now env))
    (λ r r' d, r = None ∧ r' = None ∧ pg_inv d).
Proof.
  intros Hnow ws db sdb a ws' Hinv Hrep. set (k := (req_agent_id req, key)).
  unfold pg_idempotency_step. fold k. simpl. rewrite still_expired_same.
  set (d := view ws db) in *. pose proof (rep_keys _ _ Hrep k) as Hk.
  destruct (pg_idempotency_records d !! k) as [p|] eqn:Hp; inversion Hk as [? c Hkey Hpc Hc|Hpc Hc]; subst; clear Hk.
  - destruct Hkey as (r & v & t & time & _ & _ & Htime & _ & _ & _ & Hpe & Hce).
    unfold expired_at. rewrite Hpe !whole_pg_time //.
    destruct (time <=? pv_now env)%Z eqn:Hle.
    + rewrite view_app. fold d. simpl. rewrite lookup_delete_eq. simpl. rewrite app_nil_r. intros [= <- <-]. right.
      rewrite idempotency_step_free; [|fold k; by rewrite -Hc Hce whole_order].
      eexists _, _. split; [done|]. rewrite view_app. fold d. simpl. split; [done|]. by apply rep_delete_key.
    + rewrite app_nil_r. fold d. rewrite Hp. rewrite Hpe whole_pg_time //.
      assert ((pv_now env <? time)%Z = true) as -> by (apply Z.ltb_lt; apply Z.leb_gt in Hle; lia).
      case_bool_decide; [|done]. destruct (pg_decode_response _); [|done]. intros [= <- <-]. left. by eexists.
  - rewrite !app_nil_r. fold d. rewrite Hp. simpl. intros [= <- <-]. right.
    rewrite idempotency_step_free; [|fold k; by rewrite -Hc]. eexists _, _. split; [done|]. fold d. split; [done|].
    replace d with (on_keys id d) by (by destruct d). apply rep_delete_key; [by rewrite delete_id|done].
Qed.

(** The first version of a lineage is the same in both. *)
Lemma first_rep d s p c :
  pg_inv d → rep d s → p ∈ pg_contexts d → ctx_rep p c →
  first_of (p_lineage_id p) d = c_ctx_id <$> hd_error (select_lineage (c_lineage_id c) s).
Proof.
  intros Hi Hrep Hp Hpc.
  destruct (first_of_founder d p Hi Hp) as (x & -> & Hx).
  destruct Hi as [Hnd Hfound]. destruct (Hfound p Hp) as (f & Hf & Hfl & Hflp & Hfv & _).
  assert (x = p_ctx_id f) as -> by (apply (inj lineage_of); congruence).
  assert (∀ r, r ∈ contexts s → ∃ q, q ∈ pg_contexts d ∧ ctx_rep q r) as Hback.
  { intros r Hr. apply list_elem_of_lookup in Hr as [i Hi]. destruct (Forall2_lookup_r _ _ _ _ _ (rep_contexts _ _ Hrep) Hi) as (q & Hq & ?).
    exists q. split; [|done]. by eapply list_elem_of_lookup_2. }
  assert (∃ g, g ∈ contexts s ∧ ctx_rep f g) as (g & Hg & Hfg).
  { apply list_elem_of_lookup in Hf as [i Hi]. destruct (Forall2_lookup_l _ _ _ _ _ (rep_contexts _ _ Hrep) Hi) as (g & Hg & ?).
    exists g. split; [|done]. by eapply list_elem_of_lookup_2. }
  destruct (ctx_rep_columns _ _ Hpc) as (_ & Hpl & _). destruct (ctx_rep_columns _ _ Hfg) as (Hgid & Hgl & _ & Hgv & _).
  set (rows := filter (λ r, c_lineage_id r = c_lineage_id c) (contexts s)).
  assert (g ∈ rows) as Hgr by (apply list_elem_of_filter; split; [congruence|done]).
  unfold select_lineage. fold rows.
  pose proof (StronglySorted_merge_sort version_order rows) as Hsort.
  pose proof (merge_sort_Permutation version_order rows) as Hperm.
  assert (g ∈ merge_sort version_order rows) as Hgm by (by rewrite Hperm).
  destruct (merge_sort version_order rows) as [|h tl]; [by apply elem_of_nil in Hgm|]. simpl. f_equal.
  assert (h ∈ rows) as Hh by (rewrite -Hperm; by left).
  apply list_elem_of_filter in Hh as [Hhl Hhin]. destruct (Hback h Hhin) as (q & Hq & Hqh).
  destruct (ctx_rep_columns _ _ Hqh) as (Hqid & Hql & _ & Hqv & _).
  destruct (Hfound q Hq) as (f' & Hf' & Hfl' & Hflq & Hfv' & Huniq).
  assert (f' = f) as ->.
  { apply (pg_same_id d); [by split|done|done|]. apply (inj lineage_of). congruence. }
  apply elem_of_cons in Hgm as [->|Hgt]; [congruence|].
  inversion Hsort as [|? ? _ Hall]; subst. rewrite Forall_forall in Hall. specialize (Hall g Hgt).
  rewrite -Hqid -(Huniq ltac:(unfold version_order in Hall; lia)). done.
Qed.

(** The check of the predecessor; a Postgres publish may still be a replay there. *)
Lemma supersession_sim env commit prev :
  keyless_successor (pc_req commit) = None →
  sim (λ r, ∃ w, r = inr w) pg_inv (pg_supersession_step env commit prev) (supersession_step commit prev)
    (λ r first d, r = inl first ∧ pg_inv d).
Proof.
  intros Hkeyless. unfold pg_supersession_step, supersession_step, pg_supersession_gate, supersession_gate.
  set (req := pc_req commit) in *. rewrite Hkeyless.
  apply sim_then with (R := λ p c d, option_Forall2 ctx_rep p c ∧
                                     (match p with Some r => r ∈ pg_contexts d | None => True end) ∧ pg_inv d).
  { unfold query. apply sim_stmt. intros d sd p ws Hi Hrep Hrun. simpl in Hrun.
    exists (select_ctx prev sd), sd. split; [done|].
    assert (p = pg_select_ctx prev d ∧ ws = []) as [-> ->].
    { by destruct (pg_select_ctx prev d); injection Hrun as <- <-. }
    simpl. split; [|done]. split; [by apply select_rep|]. split; [|done].
    destruct (pg_select_ctx prev d) eqn:Hs; [|done]. by eapply pg_select_ctx_in. }
  intros p c. apply sim_pure. intros Hpc. destruct p as [p|]; [|apply sim_abort].
  inversion Hpc as [? r Hpr|]; subst. clear Hpc.
  destruct (decode_body_rep p r Hpr) as (b & Hb & Hb' & Hcontrib & Hcs).
  destruct (ctx_rep_columns p r Hpr) as (Hid & Hlin & Hag & Hver & Hst & Hten & _).
  rewrite Hcs. cbn [map_err]. unfold tx_bind at 1, tx_lift at 1. rewrite -Hten -Hag -Hcontrib -Hlin -Hver -Hst.
  destruct (match pc_tenant commit with Some _ => _ | None => _ end); [apply sim_abort|].
  destruct (negb (bool_decide (p_agent_id p = _) || _)); [apply sim_abort|].
  destruct (match req_lineage_id req with Some _ => _ | None => _ end); [apply sim_abort|].
  destruct (negb (req_version req =? p_version p + 1)%Z); [apply sim_abort|].
  case_bool_decide.
  { intros ws db sdb a ws' HP Hrep (w & ws1 & Hw & Hrest)%serial_bind. left.
    destruct w as [w|]; [|done]. injection Hrest as <- <-. by eexists. }
  cbn [pbind]. unfold tx_ret at 1, tx_bind at 1.
  eapply sim_then with (R := λ _ _ d, p ∈ pg_contexts d ∧ pg_inv d).
  { destruct (pc_predecessor_admission commit) as [admission|]; [|by apply sim_ret].
    rewrite Hb Hb'. cbn [plift pbind]. unfold tx_lift at 1, tx_bind at 1.
    eapply sim_post; [|apply (sim_lift_eq (λ d, p ∈ pg_contexts d ∧ pg_inv d))]. by intros a b0 d (_ & _ & ?). }
  intros [] []. intros ws db sdb a ws' [Hin Hi] Hrep. simpl. rewrite app_nil_r. intros [= <- <-]. right.
  unfold query, stmt. simpl. eexists _, _. split; [done|]. split; [|done]. split; [|done]. f_equal.
  by rewrite (first_rep _ sdb p r) // -Hlin.
Qed.

Lemma build_sim env commit first :
  keyless_successor (pc_req commit) = None →
  sim never (λ _, True) (pg_build_step env commit first) (build_step commit first (pv_now env) (pv_draw env))
    (λ a b _, a = b).
Proof.
  intros Hkeyless. unfold pg_build_step, build_step, pg_window_gate, window_gate. rewrite Hkeyless.
  eapply sim_then; [apply sim_lift_eq|]. intros [ctx lin] [ctx' lin']. apply sim_pure. intros [= <- <-].
  cbn [pbind]. unfold tx_bind at 1, tx_ret at 1.
  eapply sim_then; [apply sim_lift_eq|]. intros rc rc'. apply sim_pure. intros <-. by apply sim_ret.
Qed.

Lemma insert_body_sim body tenant receipt :
  sim never (λ _, True) (pg_insert_body body Active tenant receipt) (insert_body body Active tenant receipt) (λ _ _ _, True).
Proof.
  unfold pg_insert_body, insert_body.
  eapply sim_then with (R := λ v t _, body_to_value body = Ok v ∧ body_text body = Ok t).
  { apply sim_lift. intros v Hv. pose proof (body_both body) as Hboth.
    destruct (body_to_value body) as [v'|]; [|done]. destruct (body_text body) as [t|]; [|done].
    injection Hv as <-. by exists t. }
  intros v t. pose proof (strings_written (body_contributors body)) as Hcs.
  destruct (strings_text (body_contributors body)) as [cs|] eqn:Hstr; [|done].
  pose proof (strings_written (default [] (body_tags body))) as Hts.
  destruct (strings_text (default [] (body_tags body))) as [ts|] eqn:Htags; [|done].
  unfold tx_bind, tx_lift. cbn [map_err]. apply sim_stmt. intros d sd [] ws [Hv Ht] Hrep. simpl.
  pose proof (select_rep (body_ctx_id body) _ _ Hrep) as Hsel.
  destruct (pg_select_ctx (body_ctx_id body) d); [done|]. inversion Hsel. intros [= <-].
  eexists tt, _. split; [done|]. split; [done|]. destruct Hrep as [Hc He Hk Ha Hl Hf]. split; simpl; try done.
  apply Forall2_snoc; [done|].
  by exists body, receipt, v, t, cs, ts, (status_str Active), (default "default" tenant), false.
Qed.

Lemma has_token_rep h d s : rep d s → has_token h d = existsb (λ k, bool_decide (k_token_hash k = h)) (key_attestations s).
Proof.
  intros Hrep. unfold has_token. induction (rep_attestations _ _ Hrep) as [|p c ps cs (r & -> & ->) _ IH]; [done|].
  simpl. by rewrite IH.
Qed.

Lemma has_attestation_rep x d s : rep d s → has_attestation x d = existsb (λ k, bool_decide (k_ctx_id k = x)) (key_attestations s).
Proof.
  intros Hrep. unfold has_attestation. induction (rep_attestations _ _ Hrep) as [|p c ps cs (r & -> & ->) _ IH]; [done|].
  simpl. by rewrite IH.
Qed.

Lemma index_attestation_sim body authority :
  sim never (λ _, True) (pg_index_attestation body authority) (index_attestation body authority) (λ _ _ _, True).
Proof.
  unfold pg_index_attestation, index_attestation.
  eapply sim_then; [apply sim_lift_eq|]. intros row row'. apply sim_pure. intros <-. destruct row as [row|]; [|by apply sim_ret].
  eapply sim_then with (R := λ n n' _, n = n' ∧ True).
  { apply sim_stmt. intros d sd n ws _ Hrep. cbn [st_run insert_key_attestation]. unfold insert_attestation.
    rewrite (has_token_rep _ _ _ Hrep) (has_attestation_rep _ _ _ Hrep). cbn [pk_token_hash pk_ctx_id pk_not_before_ms pk_not_after_ms pg_att_row
                            k_token_hash k_ctx_id k_not_before_ms k_not_after_ms att_row].
    destruct (existsb _ _); [intros [= <- <-]; by exists 0, sd|]. destruct (existsb _ _); [done|].
    destruct (negb _); [done|]. intros [= <- <-]. eexists _, _. split; [done|]. split; [done|].
    destruct Hrep as [Hc He Hk Ha Hl Hf]. split; simpl; try done. apply Forall2_snoc; [done|]. by exists row. }
  intros n n'. apply sim_pure. intros <-. destruct (n =? 0)%nat; [apply sim_abort|by apply sim_ret].
Qed.

(** The SQLite store of the same configuration. *)
Definition sqlite_of (st : PgStore) : SqliteStore := mkStore (pg_log_enabled st) (pg_event_receipt_minter st).

Lemma log_sim st body receipt :
  sim never (λ _, True) (pg_log_step st body receipt) (log_step (sqlite_of st) body receipt) (λ _ _ _, True).
Proof.
  unfold pg_log_step, log_step. cbn [sqlite_of log_enabled]. destruct (pg_log_enabled st); [|by apply sim_ret].
  destruct receipt as [v|]; [|apply sim_abort].
  eapply sim_then; [apply sim_lift_eq|]. intros [json hash] [json' hash']. apply sim_pure. intros [= <- <-].
  apply sim_lock, sim_stmt. intros d sd [] ws _ Hrep. cbn [st_run insert_log_leaf]. unfold insert_leaf.
  rewrite (rep_leaves _ _ Hrep). destruct (existsb _ _); [done|]. destruct (existsb _ _); [done|]. intros [= <-].
  eexists _, _. split; [done|]. split; [done|]. destruct Hrep as [Hc He Hk Ha Hl Hf]. split; simpl; try done. by rewrite Hl.
Qed.

(** The update of a row: where there is none, SQLite's changes nothing. *)
Lemma update_absent c g d s : rep d s → pg_select_ctx c d = None → rep d (update_ctx c g s).
Proof.
  intros Hrep Hnone. assert (update_ctx c g s = s) as ->; [|done].
  pose proof (select_rep c _ _ Hrep) as Hsel. rewrite Hnone in Hsel. inversion Hsel as [|Hx Hs]; subst. clear -Hs.
  unfold update_ctx, with_contexts. destruct s as [rows ev ids atts lv ch]. unfold select_ctx in Hs. simpl in *. f_equal.
  induction rows as [|r rows IH]; [done|]. simpl in *. destruct (bool_decide (c_ctx_id r = c)) eqn:Hr; [done|]. by rewrite IH.
Qed.

Lemma update_sim wrap wrap' c w f g :
  (∀ d, pg_apply w d = on_contexts (update_rows (is_ctx c) f) d) → (∀ p r, ctx_rep p r → ctx_rep (f p) (g r)) →
  sim never (λ _, True) (pexec wrap (update_context c w)) (execute wrap' (update_ctx c g)) (λ _ _ _, True).
Proof.
  intros Hw Hfg. apply sim_stmt. intros d sd [] ws _ Hrep. simpl.
  destruct (pg_select_ctx c d) eqn:Hs; intros [= <-]; eexists _, _; (split; [done|]; split; [done|]); simpl.
  - rewrite Hw. by apply update_rep.
  - by apply update_absent.
Qed.

Lemma claim_sim env req key ttl response :
  whole_ms (pv_now env + ttl) →
  sim never (λ _, True) (pg_claim_step env req key ttl response) (claim_step req key ttl (pv_now env) response)
    (λ b b' _, b = b' ∧ True).
Proof.
  intros Hwhole. unfold pg_claim_step, claim_step. set (k := (req_agent_id req, key)).
  eapply sim_then with (R := λ v t _, response_to_value response = Ok v ∧ response_text response = Ok t).
  { apply sim_lift. intros v Hv. pose proof (response_both response) as Hboth.
    destruct (response_to_value response) as [v'|]; [|done]. destruct (response_text response) as [t|]; [|done].
    injection Hv as <-. by exists t. }
  intros v t. apply sim_stmt. intros d sd b ws [Hv Ht] Hrep. simpl. pose proof (rep_keys _ _ Hrep k) as Hk.
  destruct (pg_idempotency_records d !! k); inversion Hk as [? c Hkey Hpc Hc|Hpc Hc]; subst; intros [= <- <-];
    eexists _, _; (split; [done|]; split; [done|]); simpl; [done|].
  apply rep_on_keys; [|done]. intros k'. destruct (decide (k = k')) as [<-|Hne].
  - rewrite !lookup_insert_eq. constructor. by exists response, v, t, (pv_now env + ttl)%Z.
  - rewrite !lookup_insert_ne //. apply Hrep.
Qed.

Lemma insert_changes_sim now_ms l : ∀ draws,
  sim never (λ _, True) (pg_insert_changes draws l) (insert_changes now_ms l) (λ _ _ _, True).
Proof.
  induction l as [|a l IH]; intros draws; [by apply sim_ret|]. cbn [pg_insert_changes insert_changes].
  destruct (default _ _) as [gap ms].
  eapply sim_then with (R := λ _ _ _, True); [|intros _ _; apply IH].
  apply sim_stmt. intros d sd [] ws _ Hrep. simpl. intros [= <-]. eexists _, _. split; [done|]. split; [done|].
  destruct Hrep as [Hc He Hk Ha Hl Hf]. split; simpl; try done. apply Forall2_snoc; [done|]. by eexists a, _, _, _, _.
Qed.

Lemma insert_all_sim now_ms l draws :
  sim never (λ _, True) (pg_insert_all draws l) (insert_changes now_ms l) (λ _ _ _, True).
Proof.
  unfold pg_insert_all. destruct l as [|a l]; [by apply sim_ret|]. apply sim_lock, insert_changes_sim.
Qed.

Lemma append_publish_sim draws now_ms body receipt supersedes :
  sim never (λ _, True) (pg_append_publish draws body receipt supersedes) (append_publish body receipt supersedes now_ms)
    (λ _ _ _, True).
Proof.
  unfold pg_append_publish, append_publish. destruct receipt as [receipt|]; [|by apply sim_ret].
  eapply sim_then with (R := λ a b _, a = b ∧ True).
  - destruct supersedes as [prev|]; [|by apply sim_ret].
    intros ws db sdb a ws' _ Hrep. simpl. rewrite app_nil_r. pose proof (select_rep prev _ _ Hrep) as Hsel.
    unfold tx_bind, stmt. destruct (pg_select_ctx prev _) as [p|]; [|done].
    inversion Hsel as [? r Hpr|]; subst. intros [= <- <-]. right. eexists _, _. split; [done|]. split; [|done].
    destruct (ctx_rep_columns _ _ Hpr) as (_ & _ & -> & _). done.
  - intros pred pred'. apply sim_pure. intros <-. eapply sim_then; [apply sim_lift_eq|].
    intros rows rows'. apply sim_pure. intros <-. eapply sim_pre; [|apply insert_all_sim]. done.
Qed.

(** ** A publish *)

Definition rolled_back {A} (e : TxEnd PgDb A) : Prop := ∃ k, e = RollbackRead k.
Definition same_commit {A B} (R : A → B → Prop) (e : TxEnd PgDb A) (e' : TxEnd SqliteDb B) (_ : PgDb) : Prop :=
  ∃ a b, e = Commit a ∧ e' = Commit b ∧ R a b.

(** The request is not keyless, and its times are whole milliseconds. *)
Definition plain_publish (env : PgPublishEnv) (commit : PublishCommit) : Prop :=
  keyless_successor (pc_req commit) = None ∧ whole_ms (pv_now env) ∧
  match pc_idempotency commit with Some (_, ttl) => whole_ms (pv_now env + ttl) | None => True end.

Lemma write_sim st env commit first now_ms :
  plain_publish env commit →
  sim rolled_back (λ _, True) (pg_write_step st env commit first)
    (write_step (sqlite_of st) commit first (pv_now env) now_ms (pv_draw env)) (same_commit eq).
Proof.
  intros (Hkeyless & Hnow & Httl). unfold pg_write_step, write_step. set (req := pc_req commit) in *.
  eapply sim_then; [by apply build_sim|]. intros [body receipt] [body' receipt'].
  eapply sim_pre with (P := λ d, (body, receipt) = (body', receipt') ∧ True); [done|]. apply sim_pure. intros [= <- <-].
  eapply sim_then; [apply insert_body_sim|]. intros [] []. eapply sim_then; [apply index_attestation_sim|]. intros [] [].
  eapply sim_then; [apply log_sim|]. intros [] [].
  eapply sim_then with (R := λ _ _ _, True).
  { destruct (req_supersedes req) as [prev|]; [|by apply sim_ret].
    eapply update_sim; [done|]. intros p r. apply ctx_rep_status. }
  intros [] []. cbv zeta. eapply sim_then with (R := λ b b' _, b = b' ∧ True).
  { destruct (pc_idempotency commit) as [[key ttl]|]; [by apply claim_sim|by apply sim_ret]. }
  intros claimed claimed'. apply sim_pure. intros <-. destruct claimed; cbn [negb].
  - eapply sim_then; [apply append_publish_sim|]. intros [] []. apply sim_ret. intros d _. by eexists _, _.
  - apply sim_doomed. by eexists.
Qed.

Lemma publish_sim st env commit now_ms :
  plain_publish env commit →
  sim rolled_back pg_inv (pg_commit_publish st env commit)
    (publish_body (sqlite_of st) commit (pv_now env) now_ms (pv_draw env)) (same_commit eq).
Proof.
  intros Hplain. pose proof Hplain as (Hkeyless & Hnow & _). unfold pg_commit_publish, publish_body.
  eapply sim_bind with (D := λ r, is_Some r) (R := λ r r' d, (r = None ∧ r' = None) ∧ pg_inv d).
  - destruct (pc_idempotency commit) as [[key ttl]|]; [|by apply sim_ret].
    eapply sim_post; [|by apply idempotency_sim]. naive_solver.
  - intros r ws db b ws' [resp ->]. simpl. intros [= <- <-]. by eexists.
  - intros r r'. apply sim_pure. intros [-> ->].
    eapply sim_bind with (D := λ r, ∃ w, r = inr w) (R := λ r first d, r = inl first ∧ pg_inv d).
    + destruct (req_supersedes (pc_req commit)) as [prev|]; [by apply supersession_sim|by apply sim_ret].
    + intros r ws db b ws' [w ->]. simpl. intros [= <- <-]. by eexists.
    + intros r first. apply sim_pure. intros ->. eapply sim_pre; [|by apply write_sim]. done.
Qed.
End publish.

(** ** Lifecycle events and the sweep *)

Section lifecycle.
Context `{StoreCodec} `{!PgCodec} `{PublishSdk} `{KeylessSdk}.
Context `{!StoreCodecLaws} `{!PublishSdkLaws} `{!EventSdkLaws} `{!PgCodecLaws}.

Notation view := (view pg_apply).

Lemma fill_here_rep c e p r : event_rep p r → fill_here c e p = fill_matches c e r.
Proof.
  intros Hpr. unfold fill_here, fill_matches. destruct (event_rep_ctx _ _ Hpr) as [-> ->].
  do 2 f_equal. apply bool_decide_ext. by apply event_rep_receipt.
Qed.

Lemma fills_in_ctx c e l :
  List.filter (fill_here c e) (filter (λ r, pe_ctx_id r = c) l) = List.filter (fill_here c e) l.
Proof.
  induction l as [|r l IH]; [done|]. rewrite filter_cons. cbn [List.filter]. case_decide as Hc; cbn [List.filter]; rewrite IH //.
  unfold fill_here. by rewrite (bool_decide_eq_false_2 _ Hc).
Qed.

Lemma fills_rep c e d s : rep d s →
  length (List.filter (fill_here c e) (pg_select_events c d)) = length (List.filter (fill_matches c e) (lifecycle_events s)).
Proof.
  intros Hrep. unfold pg_select_events. rewrite fills_in_ctx.
  induction (rep_events _ _ Hrep) as [|p r ps rs Hpr _ IH]; [done|]. cbn [List.filter].
  rewrite (fill_here_rep _ _ _ _ Hpr). destruct (fill_matches c e r); simpl; by rewrite IH.
Qed.

Lemma event_rep_fill r v p c :
  event_receipt_to_value r = Ok v → event_rep p c → event_rep (pg_set_receipt (to_jsonb v) p) (set_receipt (value_text v) c).
Proof.
  intros Hv (e & sig & sigt & tenant & rc & rct & Hsig & Hsigt & _ & -> & ->).
  exists e, sig, sigt, tenant, (Some (to_jsonb v)), (Some (value_text v)). split_and!; try done. right. by exists r, v.
Qed.

Lemma fill_sim wrap wrap' c e r v :
  event_receipt_to_value r = Ok v →
  sim never (λ _, True) (pexec wrap (fill_receipt c e (to_jsonb v)))
    (stmt wrap' (λ db, Ok (update_receipt c e (value_text v) db))) (λ n n' _, n = n' ∧ True).
Proof.
  intros Hv. apply sim_stmt. intros d sd n ws _ Hrep. cbn [st_run fill_receipt]. unfold update_receipt.
  pose proof (fills_rep c e _ _ Hrep) as Hlen. set (rows := List.filter (fill_here c e) (pg_select_events c d)) in *.
  assert (Forall2 event_rep (update_rows (fill_here c e) (pg_set_receipt (to_jsonb v)) (pg_lifecycle_events d))
            (map (λ r, if fill_matches c e r then set_receipt (value_text v) r else r) (lifecycle_events sd))) as Hev.
  { unfold update_rows. clear -Hrep Hv. induction (rep_events _ _ Hrep) as [|p x ps rs Hpr _ IH]; [constructor|]. simpl. constructor; [|done].
    rewrite (fill_here_rep _ _ _ _ Hpr). destruct (fill_matches c e x); [|done]. by eapply event_rep_fill. }
  rewrite orb_diag. destruct rows as [|x rest] eqn:Hrows; cbn [is_empty]; intros [= <- <-]; eexists _, _;
    (split; [done|]); (split; [by rewrite -Hlen|]); simpl.
  - destruct Hrep as [Hc He Hk Ha Hl Hf]. split; simpl; try done.
    assert (update_rows (fill_here c e) (pg_set_receipt (to_jsonb v)) (pg_lifecycle_events d) = pg_lifecycle_events d) as Hsame;
      [|by rewrite Hsame in Hev].
    unfold rows, pg_select_events in Hrows. rewrite fills_in_ctx in Hrows. clear -Hrows. unfold update_rows.
    induction (pg_lifecycle_events d) as [|y l IH]; [done|]. simpl in *. destruct (fill_here c e y); [done|]. by rewrite IH.
  - by destruct Hrep.
Qed.

Lemma receipt_value_ok r v : receipt_value r = Ok v → event_receipt_to_value r = Ok v.
Proof. unfold receipt_value. destruct (event_receipt_to_value r); [|done]. by intros [= ->]. Qed.

Lemma write_fills_sim what c slots fills :
  sim never (λ _, True) (pg_write_fills what c slots fills) (write_fills what c slots fills) (λ _ _ _, True).
Proof.
  induction fills as [|[i r] fills IH]; [by apply sim_ret|]. cbn [pg_write_fills write_fills].
  eapply sim_then; [apply sim_lift_eq|]. intros v v'. apply sim_pure. intros <-. apply sim_pure. intros Hv.
  eapply sim_then; [apply sim_lift_eq|]. intros slot slot'. apply sim_pure. intros <-.
  eapply sim_pre with (P := λ _, True); [done|].
  eapply sim_then; [by eapply fill_sim, receipt_value_ok|]. intros n n'. apply sim_pure. intros <-.
  destruct (negb _); [apply sim_abort|exact IH].
Qed.

Lemma insert_event_sim wrap wrap' e sig sigt tenant rc rct :
  signature_to_value e = Ok sig → event_signature_text e = Ok sigt → receipt_rep (to_jsonb <$> rc) rct →
  sim never (λ _, True) (pexec wrap (insert_event_row (pg_event_row e sig tenant rc)))
    (stmt wrap' (insert_event (event_row e sigt tenant rct))) (λ _ _ _, True).
Proof.
  intros Hsig Hsigt Hrc. apply sim_stmt. intros d sd [] ws _ Hrep. cbn [st_run insert_event_row]. unfold insert_event.
  set (q := pg_event_row e sig tenant rc). set (y := event_row e sigt tenant rct).
  assert (existsb (event_at (pe_ctx_id q) (pe_event_id q)) (pg_select_events (pe_ctx_id q) d) =
          existsb (λ x, bool_decide (e_ctx_id x = e_ctx_id y) && bool_decide (e_event_id x = e_event_id y)) (lifecycle_events sd)) as Hex.
  { unfold pg_select_events. induction (rep_events _ _ Hrep) as [|p x ps rs Hpr _ IH]; [done|]. rewrite filter_cons. cbn [existsb].
    destruct (event_rep_ctx _ _ Hpr) as [Hc Hid]. rewrite -Hc -Hid. case_decide as Hd; cbn [existsb].
    - unfold event_at at 1. by rewrite IH.
    - by rewrite (bool_decide_eq_false_2 _ Hd) IH. }
  rewrite Hex. destruct (existsb _ (lifecycle_events sd)); [done|]. change (e_ctx_id y) with (pe_ctx_id q).
  pose proof (select_rep (pe_ctx_id q) _ _ Hrep) as Hsel. destruct (pg_select_ctx (pe_ctx_id q) d); [|done].
  destruct (select_ctx (pe_ctx_id q) sd); [|by inversion Hsel]. intros [= <-]. eexists _, _. split; [done|]. split; [done|].
  destruct Hrep as [Hc He Hk Ha Hl Hf]. split; simpl; try done. apply Forall2_snoc; [done|].
  by exists e, sig, sigt, tenant, (to_jsonb <$> rc), rct.
Qed.

Lemma append_event_sim st event row row' ctx ctx' slots now draws :
  ctx_rep row row' → same_ctx ctx ctx' →
  sim never (λ _, True) (pg_append_event_step st event row ctx slots now draws)
    (append_event_step (sqlite_of st) event row' ctx' slots now) (λ p p' _, p = p' ∧ True).
Proof.
  intros Hrow (Hb & _ & _). unfold pg_append_event_step, append_event_step.
  destruct (ctx_rep_columns _ _ Hrow) as (_ & _ & _ & _ & _ & Hten & _). rewrite -Hten -Hb.
  eapply sim_then; [apply sim_lift_eq|]. intros plan plan'. apply sim_pure. intros <-.
  eapply sim_pre with (P := λ _, True); [done|].
  eapply sim_then with (R := λ _ _ _, True).
  { destruct plan as [p|]; [apply write_fills_sim|by apply sim_ret]. }
  intros [] []. eapply sim_then with (R := λ a b _, receipt_rep (to_jsonb <$> a) b ∧ True).
  { apply sim_lift. intros a Ha. destruct plan as [p|]; simpl in *.
    - destruct (receipt_value (plan_new p)) as [v|] eqn:Hv; [|done]. injection Ha as <-. eexists. split; [done|].
      intros _ _. split; [|done]. right. exists (plan_new p), v. split; [by apply receipt_value_ok|done].
    - injection Ha as <-. exists None. split; [done|]. intros _ _. split; [by left|done]. }
  intros rc rct. apply sim_pure. intros Hrc.
  eapply sim_then with (R := λ a b _, (signature_to_value event = Ok a ∧ event_signature_text event = Ok b) ∧ True).
  { apply sim_lift. intros a Ha. pose proof (signature_both event) as Hboth.
    destruct (signature_to_value event) as [v|]; [|done]. destruct (event_signature_text event) as [t|]; [|done].
    injection Ha as <-. by exists t. }
  intros sig sigt. apply sim_pure. intros [Hsig Hsigt].
  eapply sim_then; [by apply insert_event_sim|]. intros [] [].
  eapply sim_then; [eapply update_sim; [done|]; intros p r; apply ctx_rep_retracted|]. intros [] [].
  eapply sim_then with (R := λ _ _ _, True).
  - unfold pg_append_lifecycle, append_lifecycle.
    eapply sim_then; [apply sim_lift_eq|]. intros v v'. apply sim_pure. intros <-.
    eapply sim_then; [apply sim_lift_eq|]. intros a a'. apply sim_pure. intros <-.
    eapply sim_pre with (P := λ _, True); [done|]. destruct a as [a|]; [apply insert_all_sim|by apply sim_ret].
  - intros [] []. by apply sim_ret.
Qed.

(** Reading a row, and its events. *)
Lemma select_ctx_sim wrap wrap' c :
  sim never (λ _, True) (pexec wrap (select_for_update (LRow c) (pg_select_ctx c))) (query wrap' (select_ctx c))
    (λ p r _, option_Forall2 ctx_rep p r ∧ True).
Proof.
  apply sim_stmt. intros d sd p ws _ Hrep Hrun. simpl in Hrun. exists (select_ctx c sd), sd. split; [done|].
  assert (p = pg_select_ctx c d ∧ ws = []) as [-> ->] by (by destruct (pg_select_ctx c d); injection Hrun as <- <-).
  split; [|done]. split; [by apply select_rep|done].
Qed.

Lemma select_events_sim wrap wrap' c :
  sim never (λ _, True) (pexec wrap (select (pg_select_events c))) (query wrap' (select_events c))
    (λ p r _, Forall2 event_rep p r ∧ True).
Proof.
  apply sim_stmt. intros d sd p ws _ Hrep [= <- <-]. exists (select_events c sd), sd. split; [done|].
  split; [|done]. split; [by apply select_events_rep|done].
Qed.

Definition same_outcome (o o' : LifecycleCommitOutcome) : Prop :=
  match o, o' with
  | LcApplied f, LcApplied g | LcReplay f, LcReplay g => same_ctx f g
  | _, _ => False
  end.

Lemma same_ctx_attach f g events receipts minting status :
  same_ctx f g →
  same_ctx (set_fc_status status (attach_events f events receipts minting))
           (set_fc_status status (attach_events g events receipts minting)).
Proof.
  intros (Hb & Hs & Hr). unfold set_fc_status, attach_events, attach_event_receipts. destruct minting; simpl;
    unfold same_ctx; simpl; by rewrite Hb ?Hs.
Qed.

Lemma lifecycle_sim st event now draws :
  sim rolled_back (λ _, True) (pg_commit_lifecycle_event st event now draws) (lifecycle_body (sqlite_of st) event now)
    (same_commit same_outcome).
Proof.
  unfold pg_commit_lifecycle_event, lifecycle_body.
  eapply sim_then; [apply select_ctx_sim|]. intros row row'. apply sim_pure. intros Hrow.
  destruct row as [row|]; [|apply sim_abort]. inversion Hrow as [? r Hpr|]; subst. clear Hrow.
  destruct (row_to_context_rep row r Hpr) as (f & g & -> & -> & Hfg). cbn [plift pbind]. unfold tx_bind at 1, tx_lift at 1.
  eapply sim_then; [apply select_events_sim|]. intros rows rows'. apply sim_pure. intros Hrows.
  rewrite (slots_from_rows_rep _ _ Hrows).
  eapply sim_then; [apply sim_lift_eq|]. intros slots slots'. apply sim_pure. intros <-.
  destruct (List.find _ slots) as [[prior x]|].
  { case_bool_decide; [|apply sim_abort]. destruct (split_slots slots). apply sim_doomed. by eexists. }
  eapply sim_then; [apply sim_lift_eq|]. intros [] []. eapply sim_pre with (P := λ _, True); [done|].
  eapply sim_then; [by apply append_event_sim|]. intros plan plan'. apply sim_pure. intros <-. cbv zeta.
  destruct (split_slots _) as [events receipts]. apply sim_ret. intros d _.
  eexists _, _. split; [done|]. split; [done|]. simpl.
  destruct (ctx_rep_columns _ _ Hpr) as (_ & _ & _ & _ & Hst & _). rewrite -Hst.
  pose proof Hfg as (Hb & _ & _).
  assert (∀ m, fc_body (attach_events f events receipts m) = fc_body (attach_events g events receipts m)) as Hbody.
  { intros m. unfold attach_events, attach_event_receipts. by destruct m. }
  rewrite Hbody. by apply same_ctx_attach.
Qed.

Lemma sweep_sim mint c report now rb :
  sim rolled_back (λ _, True) (pg_backfill_ctx mint c report now rb) (backfill_body None mint c report now) (same_commit eq).
Proof.
  unfold pg_backfill_ctx, backfill_body.
  eapply sim_then; [apply select_ctx_sim|]. intros row row'. apply sim_pure. intros Hrow.
  destruct row as [row|]; [|apply sim_doomed; by eexists]. inversion Hrow as [? r Hpr|]; subst. clear Hrow.
  eapply sim_then; [apply select_events_sim|]. intros rows rows'. apply sim_pure. intros Hrows.
  destruct (row_to_context_rep row r Hpr) as (f & g & -> & -> & (Hb & _ & _)). cbn [and_then].
  rewrite (slots_from_rows_rep _ _ Hrows). destruct (slots_from_rows 0 rows') as [slots|]; cbn [and_then]; [|apply sim_doomed; by eexists].
  rewrite Hb. eapply sim_then; [apply sim_lift_eq|]. intros plan plan'. apply sim_pure. intros <-.
  destruct plan as [|fills|]; [apply sim_doomed; by eexists| |apply sim_doomed; by eexists].
  eapply sim_pre with (P := λ _, True); [done|].
  eapply sim_then; [apply write_fills_sim|]. intros [] []. apply sim_ret. intros d _. by eexists _, _.
Qed.
End lifecycle.

(** ** Runs *)

Section refinement.
Context `{StoreCodec} `{!PgCodec} `{PublishSdk} `{KeylessSdk}.
Context `{!StoreCodecLaws} `{!PublishSdkLaws} `{!EventSdkLaws} `{!PgCodecLaws}.

Definition quiet_env : TxEnv := mkTxEnv None [] CommitDone None.

(** The SQLite store's transaction for one of the Postgres store's, with nothing
    failing. *)
Definition sqlite_tx (st : PgStore) (t : PgTransaction) (db : SqliteDb) : result PgAnswer AcdpError * SqliteDb :=
  let answer {A} (f : A → PgAnswer) (x : result A AcdpError * SqliteDb) := (let? a := x.1 in Ok (f a), x.2) in
  match t with
  | TxPublish env commit =>
      answer PgPublished (commit_publish (sqlite_of st) quiet_env commit (pv_now env) (timestamp_millis (pv_now env)) (pv_draw env) db)
  | TxLifecycle event now _ => answer PgLifecycle (commit_lifecycle_event (sqlite_of st) quiet_env event now db)
  | TxSweep mint c report now _ => answer PgSwept (backfill_ctx quiet_env mint c report now db)
  | TxRecord agent key hash response e => answer (λ _, PgDone) (idempotency_record agent key hash response e db)
  | TxEvict now _ => (Ok PgDone, idempotency_evict now db)
  | TxTenant c tenant => (Ok PgDone, set_tenant_of_ctx c tenant db)
  end.

Definition mirrored (t : PgTransaction) : Prop :=
  match t with
  | TxPublish env commit => plain_publish env commit
  | TxLifecycle _ _ _ => True
  | TxSweep mint _ _ _ _ => minter_signs mint
  | _ => False
  end.

Definition same_answer (a b : PgAnswer) : Prop :=
  match a, b with
  | PgLifecycle o, PgLifecycle o' => same_outcome o o'
  | _, _ => a = b
  end.

Lemma sim_transaction {A B} P (p : PgProg (TxEnd PgDb A)) (body : STx (TxEnd SqliteDb B)) R wrap db sdb a ws :
  sim rolled_back P p body (same_commit R) → P db → rep db sdb → serial pg_apply p [] [] db = Ok (Commit a, ws) →
  ∃ b sdb', transaction quiet_env wrap body sdb = (Ok b, sdb') ∧ R a b ∧ rep (view pg_apply ws db) sdb'.
Proof.
  intros Hsim HP Hrep Hs. destruct (Hsim [] db sdb _ _ HP Hrep Hs) as [[k Hk]|(e & sdb' & Ht & (x & b & Hx & -> & Hab) & Hrep')]; [done|].
  injection Hx as <-. exists b, sdb'. split; [|done]. unfold transaction. simpl. by rewrite Ht.
Qed.

Lemma serial_answering {A B} (f : A → B) (p : PgProg (TxEnd PgDb A)) db b ws :
  serial pg_apply (answering f p) [] [] db = Ok (Commit b, ws) →
  ∃ a, serial pg_apply p [] [] db = Ok (Commit a, ws) ∧ b = f a.
Proof. intros ([a|k] & ws1 & Hp & Hr)%serial_bind; [|done]. injection Hr as <- <-. by exists a. Qed.

(** A commit is SQLite's. *)
Lemma mirrored_commit st t db sdb a ws :
  mirrored t → pg_inv db → rep db sdb → serial pg_apply (pg_program st t) [] [] db = Ok (Commit a, ws) →
  ∃ b sdb', sqlite_tx st t sdb = (Ok b, sdb') ∧ same_answer a b ∧ rep (view pg_apply ws db) sdb'.
Proof.
  destruct t as [env commit|event now draws|mint c report now rb| | |]; try done; cbn [mirrored pg_program sqlite_tx];
    intros Hm Hi Hrep (x & Hs & ->)%serial_answering.
  - destruct (sim_transaction _ _ _ _ commit_err _ _ _ _ (publish_sim st env commit (timestamp_millis (pv_now env)) Hm) Hi Hrep Hs)
      as (b & sdb' & Ht & <- & Hrep'). unfold commit_publish. rewrite Ht. by eexists _, _.
  - destruct (sim_transaction _ _ _ _ commit_err _ _ _ _ (lifecycle_sim st event now draws) Logic.I Hrep Hs) as (b & sdb' & Ht & Hab & Hrep').
    unfold commit_lifecycle_event. rewrite Ht. by eexists _, _.
  - destruct (sim_transaction _ _ _ _ commit_err _ _ _ _ (sweep_sim mint c report now rb) Logic.I Hrep Hs) as (b & sdb' & Ht & <- & Hrep').
    unfold backfill_ctx. rewrite Ht. by eexists _, _.
Qed.

Lemma mirrored_step st t sdb :
  minters_sign (sqlite_of st) → mirrored t → ∃ now, store_step now sdb (sqlite_tx st t sdb).2.
Proof.
  intros Hmint. destruct t as [env commit|event now draws|mint c report now rb| | |]; try done; intros Hm; simpl.
  - eexists. apply step_publish.
  - eexists. by apply step_lifecycle.
  - eexists. by apply step_backfill.
Qed.

Ltac peekless_program :=
  repeat first
    [ done
    | match goal with |- peekless (plift ?r) => by destruct r end
    | apply peekless_bind; [|intros ?]
    | case_match
    | progress intros
    | progress simpl ].

Lemma insert_all_peekless l : ∀ draws, peekless (pg_insert_all draws l).
Proof.
  intros draws. unfold pg_insert_all. destruct (is_empty l); [done|]. apply peekless_bind; [done|]. intros _.
  revert draws. induction l as [|a l IH]; intros draws; [done|]. cbn [pg_insert_changes]. destruct (default _ _).
  apply peekless_bind; [done|]. intros _. apply IH.
Qed.

Lemma write_fills_peekless what c slots fills : peekless (pg_write_fills what c slots fills).
Proof.
  induction fills as [|[i r] fills IH]; [done|]. cbn [pg_write_fills]. peekless_program.
Qed.

Lemma mirrored_peekless st t : mirrored t → peekless (pg_program st t).
Proof.
  destruct t as [env commit|event now draws|mint c report now rb| | |]; try done; cbn [mirrored pg_program];
    intros Hm; unfold answering; apply peekless_bind; try done.
  - destruct Hm as (Hk & _ & _). unfold pg_commit_publish, pg_idempotency_step, pg_supersession_step, pg_write_step, pg_build_step,
      committed_idempotent_response, pg_supersession_gate, pg_window_gate, pg_insert_body,
      pg_index_attestation, pg_log_step, pg_claim_step, pg_append_publish. rewrite Hk.
    peekless_program; apply insert_all_peekless.
  - unfold pg_commit_lifecycle_event, pg_append_event_step, pg_append_lifecycle.
    peekless_program; first [apply insert_all_peekless|apply write_fills_peekless].
  - unfold pg_backfill_ctx. peekless_program; apply write_fills_peekless.
Qed.

(** The commits of a run as SQLite transactions, one after the other, each with the
    answer SQLite gives. *)
Inductive sqlite_history (st : PgStore) (s0 : SqliteDb) : list (Event PgDb PgLock PgWrite PgAnswer) → SqliteDb → Prop :=
  | sqlite_start : sqlite_history st s0 [] s0
  | sqlite_still evs s ev :
      sqlite_history st s0 evs s → (∀ i p peeks a, ev ≠ Committed i p peeks a) → sqlite_history st s0 (evs ++ [ev]) s
  | sqlite_commit evs s i t peeks a b s' :
      sqlite_history st s0 evs s → sqlite_tx st t s = (Ok b, s') → same_answer a b →
      sqlite_history st s0 (evs ++ [Committed i (pg_program st t) peeks a]) s'.

Lemma pg_run_mirrored st db sdb evs sys :
  minters_sign (sqlite_of st) → pg_inv db → rep db sdb → pg_runs mirrored st db evs sys →
  ∃ sdb', sqlite_history st sdb evs sdb' ∧ rep (committed sys) sdb' ∧ store_run (λ _, True) sdb sdb'.
Proof.
  intros Hmint Hi Hrep Hrun. unfold pg_runs in Hrun.
  assert (∀ d d', pg_inv d → pg_advance d d' → pg_inv d') as Hkeep by (intros d d' Hd Hadv; by apply Hadv).
  assert (∀ p, (∃ t, mirrored t ∧ p = pg_program st t) → disciplined pg_apply pg_lock_of pg_guard pg_same_at pg_advance pg_inv p) as Hdisc.
  { intros p (t & _ & ->). apply pg_program_disciplined. }
  pose proof (initial_ok pg_apply pg_lock_of pg_guard pg_same_at pg_advance pg_inv (λ p, ∃ t, mirrored t ∧ p = pg_program st t) db Hi) as Hok0.
  induction Hrun as [|evs sys1 ev sys2 Hrun IH Hstep].
  { exists sdb. split; [constructor|]. split; [done|apply rtc_steps_refl]. }
  destruct IH as (s & Hh & Hrep1 & Hst).
  pose proof (run_ok pg_apply pg_lock_of pg_guard pg_same_at pg_advance pg_apply_cong pg_apply_other pg_inv _ Hkeep Hdisc _ _ _ Hok0 Hrun) as Hok.
  pose proof (commits_are_serial pg_apply pg_lock_of pg_guard pg_same_at pg_advance pg_inv _ _ _ _ Hok Hstep) as Hcommit.
  destruct ev as [|i p peeks a|i r].
  - rewrite Hcommit. exists s. split; [by apply sqlite_still|done].
  - destruct Hcommit as ((t & Ht & ->) & _ & ws & Hs & ->).
    rewrite peekless_serial in Hs; [|by apply mirrored_peekless].
    destruct (mirrored_commit st t _ s a ws Ht (sys_inv _ _ _ _ _ _ _ _ Hok) Hrep1 Hs) as (b & s' & Hsq & Hab & Hrep2).
    exists s'. split; [by eapply sqlite_commit|]. split; [done|].
    destruct (mirrored_step st t s Hmint Ht) as (now & Hnow). rewrite Hsq in Hnow.
    eapply rtc_steps_trans; [exact Hst|]. eapply rtc_steps_step; [by exists now|apply rtc_steps_refl].
  - rewrite Hcommit. exists s. split; [by apply sqlite_still|done].
Qed.

(** C9: The Postgres store refines the SQLite store. Take tables of the two backends
    written from the same data, and any run of the Postgres store under READ COMMITTED
    whose transactions are publishes signed with ordinary keys at
    millisecond clocks, lifecycle events and receipt sweeps. Then the commits, in their
    order, are SQLite transactions that all commit, each answering the same up to what
    JSONB does to a registry receipt; at the end the tables of the two are again
    written from the same data, and the SQLite tables are ones its store can reach. *)
Theorem pg_refines_sqlite st db sdb evs sys :
  minters_sign (sqlite_of st) → pg_inv db → rep db sdb → pg_runs mirrored st db evs sys →
  ∃ sdb', sqlite_history st sdb evs sdb' ∧ rep (committed sys) sdb' ∧ store_run (λ _, True) sdb sdb'.
Proof. apply pg_run_mirrored. Qed.

Definition pg_empty (c : ChangesDb Jsonb) : PgDb := mkPgDb [] [] ∅ [] [] c.

Lemma rep_empty c c' : changes c = [] → changes c' = [] → rep (pg_empty c) (empty_db c').
Proof.
  intros Hc Hc'. split; simpl; rewrite ?Hc ?Hc'; try done; try apply Forall2_nil. intros k. rewrite !lookup_empty. constructor.
Qed.

Lemma rep_lookup d s p i : rep d s → pg_contexts d !! i = Some p → ∃ c, contexts s !! i = Some c ∧ ctx_rep p c.
Proof. intros Hrep Hp. by apply (Forall2_lookup_l _ _ _ _ _ (rep_contexts _ _ Hrep) Hp). Qed.

Lemma pg_inv_empty c : pg_inv (pg_empty c).
Proof. split; [constructor|]. by intros r ?%elem_of_nil. Qed.
End refinement.
