(* ===== verification/PgReads.v ===== *)
(** * The reads of the Postgres store

    [acdp-registry-pg/src/store.rs] and [keyless.rs]: retrieval, lineages, listings,
    batch lookups, idempotency records, attestations and the transparency log. On
    tables written from the same data ([rep]) every one of them answers what the SQLite
    store's does, up to what JSONB does to a registry receipt; a listing may order
    contexts of one instant by the database's collation instead of by bytes. *)

From stdpp Require Import pretty.
From S2P Require Import Prelude Text Errors ContextTypes ChangeBucket ChangeFeed FeedBackends PageCursors.
From S2P Require Import EventReceipts KeyAttestations SqlTx SqliteStore SqlitePublish SqliteInvariants.
From S2P Require Import SqliteLifecycle SqliteReach SqliteReads SqliteListing SqliteLog PgTx PgStore PgSerial PgParity.

Open Scope registry_scope.

(** The order of text in the database: its collation, a total order on distinct
    strings. *)
Class Collation : Type := collate_ltb : string → string → bool.

Class CollationLaws `{Collation} : Prop := {
  collate_irrefl a : collate_ltb a a = false;
  collate_trans a b c : collate_ltb a b = true → collate_ltb b c = true → collate_ltb a c = true;
  collate_total a b : collate_ltb a b = true ∨ a = b ∨ collate_ltb b a = true
}.

Section reads.
Context `{StoreCodec} `{!PgCodec} `{PublishSdk} `{KeylessSdk} `{CursorText} `{PaginateSdk} `{Collation}.
(** [acdp::types::log::decode_sha256_hex]. *)
Context (decode_sha256_hex : string → result (list Z) AcdpError).

(** ** One context and one lineage *)

(** [get]: two reads, of [db] and of the tables [db'] the events query finds. *)
Definition pg_get (st : PgStore) (ctx_id : string) (now : Z) (db db' : PgDb) :
    result (option FullContext) AcdpError :=
  match pg_select_ctx ctx_id db with
  | None => Ok None
  | Some row =>
      let? ctx := pg_row_to_context row in
      let? slots := pg_slots_from_rows 0 (pg_select_events ctx_id db') in
      let '(events, receipts) := split_slots slots in
      let ctx := set_fc_status (reconcile_retraction (st_status (fc_state ctx)) events) ctx in
      Ok (Some (project_context (attach_events ctx events receipts (pg_minting st)) now))
  end.

Fixpoint pg_group_slots (rows : list PgEventRow) (grouped : gmap string (list Slot)) :
    result (gmap string (list Slot)) AcdpError :=
  match rows with
  | [] => Ok grouped
  | r :: rows =>
      let group := default [] (grouped !! pe_ctx_id r) in
      let? slot := pg_slot_from_row r (length group) in
      pg_group_slots rows (<[pe_ctx_id r := group ++ [slot]]> grouped)
  end.

Definition pg_events_for_lineage (lineage_id : string) (db : PgDb) :
    result (gmap string (list Slot)) AcdpError :=
  pg_group_slots
    (List.filter (λ e, existsb (λ c, bool_decide (p_ctx_id c = pe_ctx_id e)
                                     && bool_decide (p_lineage_id c = lineage_id)) (pg_contexts db))
       (pg_lifecycle_events db)) ∅.

Fixpoint pg_lineage_contexts (st : PgStore) (now : Z) (rows : list PgCtxRow)
    (events_by_ctx : gmap string (list Slot)) : result (list FullContext) AcdpError :=
  match rows with
  | [] => Ok []
  | r :: rows =>
      let? ctx := pg_row_to_context r in
      let id := body_ctx_id (fc_body ctx) in
      let ctx :=
        match events_by_ctx !! id with
        | Some slots =>
            let '(events, receipts) := split_slots slots in
            attach_events
              (set_fc_status (reconcile_retraction (st_status (fc_state ctx)) events) ctx)
              events receipts (pg_minting st)
        | None => ctx
        end in
      let? rest := pg_lineage_contexts st now rows (delete id events_by_ctx) in
      Ok (project_context ctx now :: rest)
  end.

Definition pg_lineage (st : PgStore) (lineage_id : string) (now : Z) (db db' : PgDb) :
    result (list FullContext) AcdpError :=
  let? events_by_ctx := pg_events_for_lineage lineage_id db' in
  pg_lineage_contexts st now (pg_select_lineage lineage_id db) events_by_ctx.

Definition pg_current (st : PgStore) (lineage_id : string) (now : Z) (db db' : PgDb) :
    result (option FullContext) AcdpError :=
  let? all := pg_lineage st lineage_id now db db' in
  Ok (List.find serves_as_head (rev all)).

Definition pg_first_version_ctx_id (lineage_id : string) (db : PgDb) : option string :=
  p_ctx_id <$> hd_error (pg_select_lineage lineage_id db).

Definition pg_lifecycle_events_of_ctx (ctx_id : string) (db : PgDb) : result (list LifecycleEvent) AcdpError :=
  let? slots := pg_slots_from_rows 0 (pg_select_events ctx_id db) in
  Ok (map fst slots).

Definition pg_has_lifecycle_state (db : PgDb) : bool :=
  negb (is_empty (pg_lifecycle_events db)) || existsb p_retracted (pg_contexts db).

(** ** Tenants, producers and disclosure *)

Definition pg_tenant_of_ctx (ctx_id : string) (db : PgDb) : option string :=
  p_tenant_id <$> pg_select_ctx ctx_id db.

(** [WHERE ctx_id = ANY($1)], collected into a map. *)
Definition pg_batch {T} (f : PgCtxRow → T) (ctx_ids : list string) (db : PgDb) : gmap string T :=
  if is_empty ctx_ids then ∅
  else list_to_map (map (λ r, (p_ctx_id r, f r))
         (List.filter (λ r, bool_decide (p_ctx_id r ∈ ctx_ids)) (pg_contexts db))).

Definition pg_tenants_of_ctxs : list string → PgDb → gmap string string := pg_batch p_tenant_id.
Definition pg_producers_of : list string → PgDb → gmap string string := pg_batch p_agent_id.

(** [body_json -> 'audience']: the audience of the stored document. *)
Definition pg_audience (body_json : Jsonb) : list string :=
  match body_from_value (from_jsonb body_json) with
  | Ok b => default [] (body_audience b)
  | Err _ => []
  end.

Definition LIST_VISIBILITY_PG (req : option string) (open : bool) (r : PgCtxRow) : bool :=
  (bool_decide (p_visibility r = "public") && (is_some req || open))
  || (is_some req && (sql_eq (p_agent_id r) req
                      || existsb (λ v, sql_eq v req) (pg_audience (p_body_json r)))).

Definition pg_in_tenant (tenant : option string) (r : PgCtxRow) : bool :=
  match tenant with Some t => bool_decide (p_tenant_id r = t) | None => true end.

Definition pg_visible_ctx_ids (ctx_ids : list string) (requester tenant : option string)
    (public_arm_open : bool) (db : PgDb) : gset string :=
  if is_empty ctx_ids then ∅
  else list_to_set (map p_ctx_id
         (List.filter (λ r, bool_decide (p_ctx_id r ∈ ctx_ids) && LIST_VISIBILITY_PG requester public_arm_open r
                            && pg_in_tenant tenant r) (pg_contexts db))).

(** ** Listing contexts *)

Definition pg_created_key (r : PgCtxRow) : Z * string := (p_created_at r, p_ctx_id r).

Definition pg_anchor (a : Z * string) : Z * string := (pg_time a.1, a.2).

Definition pg_visible_rows (requester tenant : option string) (public_arm_open : bool) (db : PgDb) :
    list PgCtxRow :=
  List.filter (λ r, LIST_VISIBILITY_PG requester public_arm_open r && pg_in_tenant tenant r) (pg_contexts db).

Definition pg_list_contexts (limit : Z) (cursor requester tenant : option string)
    (public_arm_open : bool) (now : Z) (db : PgDb) : result (Page FullContext) AcdpError :=
  let limit := clamp_limit 200 limit in
  let? anchor := decode_anchor now cursor in
  let rows := keyset_rows pg_created_key (newest_by Z.ltb collate_ltb) limit (pg_anchor <$> anchor)
                (pg_visible_rows requester tenant public_arm_open db) in
  let? page := try_paginate_rows rows limit pg_row_to_context (λ _, true) (ctx_cursor now) in
  Ok (mkPage page.1 page.2).

(** ** Idempotency records *)

Definition pg_idempotency_lookup (agent_id key : string) (db : PgDb) :
    result (option IdempotencyRecord) AcdpError :=
  match pg_idempotency_records db !! (agent_id, key) with
  | None => Ok None
  | Some row =>
      let? response := pg_decode_response (pi_response_json row) in
      Ok (Some (mkIdempotencyRecord (pi_content_hash row) response (pi_expires_at row)))
  end.

Definition pg_count_idempotency_records (db : PgDb) : option Z :=
  Some (Z.max 0 (Z.of_nat (size (pg_idempotency_records db)))).

(** ** Key attestations *)

Definition pg_attestation_record (ctx_id : string) (db : PgDb) :
    result (option KeyAttestationRecord) AcdpError :=
  match List.find (λ k, bool_decide (pk_ctx_id k = ctx_id)) (pg_key_attestations db), pg_select_ctx ctx_id db with
  | Some k, Some c =>
      let? body := pg_decode_body (p_body_json c) in
      let? r := record_from_parts ctx_id (p_content_hash c) (stored_status (p_status c) (p_retracted c))
                  (pk_created_at_ms k) body in
      Ok (Some r)
  | _, _ => Ok None
  end.

Definition pg_token_seen (token_hash : string) (db : PgDb) : bool :=
  (0 <? Z.of_nat (length (List.filter (λ k, bool_decide (pk_token_hash k = token_hash))
                            (pg_key_attestations db))))%Z.

Definition pg_att_key (k : PgAttRow) : Z * string := (pk_created_at_ms k, pk_ctx_id k).

Definition pg_attestation_rows (controller : string) (f : KeyAttestationFilter) (db : PgDb) : list PgAttRow :=
  List.filter (λ k, is_some (pg_select_ctx (pk_ctx_id k) db)
                    && bool_decide (pk_controller k = controller)
                    && (match filter_issuer f with
                        | Some i => match pk_issuer k with Some x => bool_decide (x = i) | None => false end
                        | None => true
                        end)
                    && (match filter_subject f with
                        | Some s => bool_decide (pk_subject k = s)
                        | None => true
                        end))
    (pg_key_attestations db).

Definition pg_attestation_item (db : PgDb) (k : PgAttRow) : result KeyAttestationListItem AcdpError :=
  let? c := ok_or (pg_select_ctx (pk_ctx_id k) db) (RegistryInternal "no joined row") in
  let? body := pg_decode_body (p_body_json c) in
  list_item (pk_ctx_id k) (p_content_hash c) body.

Definition pg_list_key_attestations (controller : string) (f : KeyAttestationFilter)
    (cursor : option string) (limit now : Z) (db : PgDb) : result (Page KeyAttestationListItem) AcdpError :=
  let limit := clamp_limit MAX_LIST_LIMIT limit in
  let? anchor := decode_anchor now cursor in
  let rows := keyset_rows pg_att_key (newest_by Z.ltb collate_ltb) limit
                ((λ a : Z * string, (timestamp_millis a.1, a.2)) <$> anchor)
                (pg_attestation_rows controller f db) in
  let? items := collect_ok (pg_attestation_item db) (take limit rows) in
  Ok (mkPage items
        (if (limit <? length rows)%nat
         then (λ k, encode_cursor now (pk_created_at_ms k) (pk_ctx_id k)) <$> last (take limit rows)
         else None)).

(** ** The transparency log *)

Definition pg_log_tree_size (db : PgDb) : Z := Z.max 0 (Z.of_nat (length (pg_log_leaves db))).

Definition pg_log_leaf_hashes (up_to : Z) (db : PgDb) : result (list (list Z)) AcdpError :=
  let rows := merge_sort leaf_order
                (List.filter (λ l, (l_index l <? to_i64_or_max up_to)%Z) (pg_log_leaves db)) in
  if negb (Z.of_nat (length rows) =? up_to)%Z then Err (not_dense (length rows) up_to)
  else collect_ok (λ l, decode_sha256_hex (l_hash l)) rows.

Definition pg_log_leaf_by_ctx (ctx_id : string) (db : PgDb) : result (option LogEntryRecord) AcdpError :=
  match List.find (λ l, bool_decide (l_ctx_id l = ctx_id)) (pg_log_leaves db) with
  | None => Ok None
  | Some l => let? r := log_row_to_record l in Ok (Some r)
  end.

Definition pg_log_leaf_by_index (leaf_index : Z) (db : PgDb) : result (option LogEntryRecord) AcdpError :=
  if (i64_max <? leaf_index)%Z then Ok None
  else
    match List.find (λ l, (l_index l =? leaf_index)%Z) (pg_log_leaves db) with
    | None => Ok None
    | Some l => let? r := log_row_to_record l in Ok (Some r)
    end.

Definition pg_log_entries (start stop : Z) (db : PgDb) : result (list LogEntryRecord) AcdpError :=
  collect_ok log_row_to_record
    (merge_sort leaf_order
       (List.filter (λ l, (to_i64_or_max start <=? l_index l)%Z && (l_index l <? to_i64_or_max stop)%Z)
          (pg_log_leaves db))).
End reads.

(** ** The reads agree with SQLite's *)

(** Two answers: both the same error, or related values. *)
Definition same_result {A B E} (R : A → B → Prop) (x : result A E) (y : result B E) : Prop :=
  match x, y with
  | Ok a, Ok b => R a b
  | Err e, Err f => e = f
  | _, _ => False
  end.

Section agreement.
Context `{StoreCodec} `{!PgCodec} `{PublishSdk} `{KeylessSdk} `{CursorText} `{PaginateSdk} `{Collation}.
Context `{!StoreCodecLaws} `{!PublishSdkLaws} `{!EventSdkLaws} `{!PgCodecLaws}.
Context (decode_sha256_hex : string → result (list Z) AcdpError).

Lemma minting_rep st : minting (sqlite_of st) = pg_minting st.
Proof. done. Qed.

(** What is done to a decoded row is the same. *)
Lemma same_ctx_events f g events receipts m :
  same_ctx f g →
  same_ctx (attach_events (set_fc_status (reconcile_retraction (st_status (fc_state f)) events) f) events receipts m)
    (attach_events (set_fc_status (reconcile_retraction (st_status (fc_state g)) events) g) events receipts m).
Proof.
  destruct f as [b s r], g as [b' s' r']. unfold same_ctx. simpl. intros (-> & -> & ->).
  unfold attach_events, attach_event_receipts. by destruct m.
Qed.

Lemma same_ctx_project f g now : same_ctx f g → same_ctx (project_context f now) (project_context g now).
Proof. destruct f as [b s r], g as [b' s' r']. unfold same_ctx. simpl. by intros (-> & -> & ->). Qed.

Lemma get_rep st id now d d' s s' :
  rep d s → rep d' s' →
  same_result (option_Forall2 same_ctx) (pg_get st id now d d') (get (sqlite_of st) id now s s').
Proof.
  intros Hrep Hrep'. unfold pg_get, get. rewrite minting_rep. destruct (select_rep id _ _ Hrep) as [p c Hpc|]; [|by constructor].
  destruct (row_to_context_rep p c Hpc) as (f & g & -> & -> & Hfg). cbn [and_then].
  rewrite (slots_from_rows_rep _ _ (select_events_rep id _ _ Hrep')).
  destruct (slots_from_rows _ _) as [slots|]; [|done]. cbn [and_then]. destruct (split_slots slots) as [events receipts].
  constructor. by apply same_ctx_project, same_ctx_events.
Qed.

Lemma group_slots_rep ps rs : Forall2 event_rep ps rs → ∀ g, pg_group_slots ps g = group_slots rs g.
Proof.
  induction 1 as [|p c ps rs Hpc _ IH]; intros g; simpl; [done|].
  destruct (event_rep_ctx _ _ Hpc) as [-> _]. rewrite (slot_from_row_rep _ _ _ Hpc).
  destruct (slot_from_row _ _); simpl; [apply IH|done].
Qed.

Lemma Forall2_filter {A B} (T : A → B → Prop) (f : A → bool) (g : B → bool) l k :
  (∀ a b, T a b → f a = g b) → Forall2 T l k → Forall2 T (List.filter f l) (List.filter g k).
Proof.
  intros Hfg. induction 1 as [|a b l k Hab _ IH]; simpl; [constructor|].
  rewrite (Hfg _ _ Hab). destruct (g b); [by constructor|done].
Qed.

Lemma existsb_rep {A B} (T : A → B → Prop) (f : A → bool) (g : B → bool) l k :
  (∀ a b, T a b → f a = g b) → Forall2 T l k → existsb f l = existsb g k.
Proof. intros Hfg. induction 1 as [|a b l k Hab _ IH]; simpl; [done|]. by rewrite (Hfg _ _ Hab) IH. Qed.

Lemma events_for_lineage_rep lin d s : rep d s → pg_events_for_lineage lin d = events_for_lineage lin s.
Proof.
  intros Hrep. apply group_slots_rep. apply Forall2_filter; [|apply Hrep]. intros p c Hpc.
  eapply existsb_rep; [|apply Hrep]. intros q r Hqr.
  destruct (event_rep_ctx _ _ Hpc) as [-> _]. by destruct (ctx_rep_columns _ _ Hqr) as (-> & -> & _).
Qed.

(** Rows of a lineage come in the same order: no two share a version. *)
Lemma rep_ids d s : rep d s → map p_ctx_id (pg_contexts d) = map c_ctx_id (contexts s).
Proof.
  intros Hrep. induction (rep_contexts _ _ Hrep) as [|p c ps cs Hpc _ IH]; [done|]. simpl.
  by rewrite (ctx_rep_id _ _ Hpc) IH.
Qed.

Lemma rep_same_id d s p q :
  rep d s → published (contexts s) → p ∈ pg_contexts d → q ∈ pg_contexts d → p_ctx_id p = p_ctx_id q → p = q.
Proof.
  intros Hrep Hp%published_ids Hi Hj Hid. rewrite -(rep_ids _ _ Hrep) in Hp.
  apply list_elem_of_lookup in Hi as [i Hi]. apply list_elem_of_lookup in Hj as [j Hj].
  assert (i = j) as <-; [|congruence]. eapply NoDup_lookup; [exact Hp| |]; rewrite list_lookup_fmap; [by rewrite Hi|].
  by rewrite Hj /= Hid.
Qed.

Lemma select_lineage_rep lin d s :
  rep d s → published (contexts s) → Forall2 ctx_rep (pg_select_lineage lin d) (select_lineage lin s).
Proof.
  intros Hrep Hpub. unfold pg_select_lineage, select_lineage.
  set (T := λ p c, ctx_rep p c ∧ p ∈ pg_contexts d ∧ p_lineage_id p = lin ∧ c ∈ contexts s).
  assert (Forall2 T (filter (λ r, p_lineage_id r = lin) (pg_contexts d)) (filter (λ r, c_lineage_id r = lin) (contexts s))) as HT.
  { assert (Forall2 (λ p c, ctx_rep p c ∧ p ∈ pg_contexts d ∧ c ∈ contexts s) (pg_contexts d) (contexts s)) as Hall.
    { apply Forall2_same_length_lookup_2; [by eapply Forall2_length, Hrep|]. intros i p c Hp Hc.
      split; [by eapply (Forall2_lookup_lr _ _ _ _ _ _ (rep_contexts _ _ Hrep))|].
      split; by eapply list_elem_of_lookup_2. }
    induction Hall as [|p c ps cs (Hpc & Hp & Hc) _ IH]; [constructor|]. rewrite !filter_cons.
    destruct (ctx_rep_columns _ _ Hpc) as (_ & Hl & _). rewrite -Hl. case_decide; [|done]. by constructor. }
  eapply Forall2_impl; [eapply (merge_sort_Forall2 _ _ T); [|exact HT]|by intros p c (? & _)].
  intros p c q r (Hpc & Hp & Hpl & Hc) (Hqr & Hq & Hql & Hr). unfold pg_version_order, version_order.
  destruct (ctx_rep_columns _ _ Hpc) as (Hpi & Hpl' & _ & Hpv & _). destruct (ctx_rep_columns _ _ Hqr) as (Hqi & Hql' & _ & Hqv & _).
  rewrite Hpv Hqv. destruct (decide (c_version c = c_version r)) as [Hv|Hv]; [|naive_solver lia].
  assert (c = r) as -> by (apply (published_version_unique (contexts s)); congruence).
  assert (p = q) as -> by (apply (rep_same_id d s); congruence).
  assert (text_leb (c_created_at r) (c_created_at r) = true) as ->.
  { unfold text_leb. apply bytes_leb_spec. by left. }
  split; intros _; right; (split; [done|]); [done|lia].
Qed.

Lemma first_version_rep lin d s :
  rep d s → published (contexts s) → pg_first_version_ctx_id lin d = first_version_ctx_id lin s.
Proof.
  intros Hrep Hpub. unfold pg_first_version_ctx_id, first_version_ctx_id.
  destruct (select_lineage_rep lin d s Hrep Hpub) as [|p c ps cs Hpc _]; [done|]. simpl. by destruct (ctx_rep_columns _ _ Hpc) as [-> _].
Qed.

Lemma lineage_contexts_rep st now rows rows' : Forall2 ctx_rep rows rows' → ∀ g,
  same_result (Forall2 same_ctx) (pg_lineage_contexts st now rows g) (lineage_contexts (sqlite_of st) now rows' g).
Proof.
  induction 1 as [|p c rows rows' Hpc _ IH]; intros g; simpl; [constructor|].
  destruct (row_to_context_rep p c Hpc) as (f & f' & -> & -> & Hff). cbn [and_then].
  pose proof Hff as (Hb & _ & _). rewrite Hb. specialize (IH (delete (body_ctx_id (fc_body f')) g)).
  destruct (pg_lineage_contexts _ _ _ _) as [rest|], (lineage_contexts _ _ _ _) as [rest'|]; simpl in *; try done.
  constructor; [|done]. apply same_ctx_project. destruct (g !! _) as [slots|]; [|done].
  destruct (split_slots slots) as [events receipts]. rewrite minting_rep. by apply same_ctx_events.
Qed.

Lemma lineage_rep st lin now d d' s s' :
  rep d s → rep d' s' → published (contexts s) →
  same_result (Forall2 same_ctx) (pg_lineage st lin now d d') (lineage (sqlite_of st) lin now s s').
Proof.
  intros Hrep Hrep' Hpub. unfold pg_lineage, lineage. rewrite (events_for_lineage_rep _ _ _ Hrep').
  destruct (events_for_lineage _ _); [|done]. cbn [and_then]. by apply lineage_contexts_rep, select_lineage_rep.
Qed.

Lemma head_rep l k : Forall2 same_ctx l k → option_Forall2 same_ctx (List.find serves_as_head l) (List.find serves_as_head k).
Proof.
  induction 1 as [|f g l k Hfg _ IH]; simpl; [constructor|].
  assert (serves_as_head f = serves_as_head g) as -> by (unfold serves_as_head; by destruct Hfg as (_ & -> & _)).
  destruct (serves_as_head g); [by constructor|done].
Qed.

Lemma Forall2_rev_both {A B} (T : A → B → Prop) l k : Forall2 T l k → Forall2 T (rev l) (rev k).
Proof. induction 1; simpl; [constructor|]. by apply Forall2_snoc. Qed.

Lemma current_rep st lin now d d' s s' :
  rep d s → rep d' s' → published (contexts s) →
  same_result (option_Forall2 same_ctx) (pg_current st lin now d d') (current (sqlite_of st) lin now s s').
Proof.
  intros Hrep Hrep' Hpub. unfold pg_current, current. pose proof (lineage_rep st lin now d d' s s' Hrep Hrep' Hpub) as Hl.
  destruct (pg_lineage _ _ _ _ _) as [all|], (lineage _ _ _ _ _) as [all'|]; simpl in *; try done.
  apply head_rep. by apply Forall2_rev_both.
Qed.
(** The other columns. *)
Lemma ctx_rep_body p c :
  ctx_rep p c → ∃ b, body_from_value (from_jsonb (p_body_json p)) = Ok b ∧ body_parse (c_body_json c) = Ok b ∧
    p_visibility p = c_visibility c ∧ p_content_hash p = c_content_hash c ∧
    p_created_at p = pg_time (body_created_at b) ∧ p_ctx_id p = body_ctx_id b.
Proof.
  intros (b & receipt & v & t & cs & ts & status & tenant & retracted & Hv & Ht & Hcs & Hts & -> & ->). exists b. simpl.
  by rewrite (pg_body_inverse _ _ Hv) (body_inverse _ _ Ht).
Qed.

Lemma visibility_rep req open p c : ctx_rep p c → LIST_VISIBILITY_PG req open p = LIST_VISIBILITY_SQLITE req open c.
Proof.
  intros Hpc. destruct (ctx_rep_body p c Hpc) as (b & Hb & Hb' & Hvis & _). destruct (ctx_rep_columns _ _ Hpc) as (_ & _ & Hag & _).
  unfold LIST_VISIBILITY_PG, LIST_VISIBILITY_SQLITE, pg_audience, audience_values. by rewrite Hb Hb' Hvis Hag.
Qed.

Lemma tenant_rep tenant p c : ctx_rep p c → pg_in_tenant tenant p = in_tenant tenant c.
Proof. intros Hpc. destruct (ctx_rep_columns _ _ Hpc) as (_ & _ & _ & _ & _ & Ht & _). unfold pg_in_tenant, in_tenant. by rewrite Ht. Qed.

Lemma visible_rows_rep requester tenant open d s :
  rep d s → Forall2 ctx_rep (pg_visible_rows requester tenant open d) (visible_rows requester tenant open s).
Proof.
  intros Hrep. apply Forall2_filter; [|apply Hrep]. intros p c Hpc. by rewrite (visibility_rep _ _ _ _ Hpc) (tenant_rep _ _ _ Hpc).
Qed.

Lemma visible_ctx_ids_rep ids requester tenant open d s :
  rep d s → pg_visible_ctx_ids ids requester tenant open d = visible_ctx_ids ids requester tenant open s.
Proof.
  intros Hrep. apply set_eq. intros id. rewrite elem_of_visible_ctx_ids. unfold pg_visible_ctx_ids.
  destruct ids as [|i ids]; simpl is_empty; cbv iota; [split; [set_solver|by intros [?%elem_of_nil _]]|].
  rewrite elem_of_list_to_set list_elem_of_fmap. split.
  - intros (p & -> & Hp). apply list_elem_of_In, filter_In in Hp as [Hp%list_elem_of_In [[Hin Hv]%andb_true_iff Ht]%andb_true_iff].
    apply bool_decide_eq_true in Hin. split; [done|]. apply list_elem_of_lookup in Hp as [k Hk].
    destruct (rep_lookup _ _ _ _ Hrep Hk) as (c & Hc & Hpc). exists c. split; [by eapply list_elem_of_lookup_2|].
    by rewrite -(ctx_rep_id _ _ Hpc) -(visibility_rep _ _ _ _ Hpc) -(tenant_rep _ _ _ Hpc).
  - intros (Hin & c & Hc & <- & Hv & Ht). apply list_elem_of_lookup in Hc as [k Hk].
    destruct (Forall2_lookup_r _ _ _ _ _ (rep_contexts _ _ Hrep) Hk) as (p & Hp & Hpc). exists p.
    split; [by rewrite (ctx_rep_id _ _ Hpc)|]. apply list_elem_of_In, filter_In.
    split; [by eapply list_elem_of_In, list_elem_of_lookup_2|].
    rewrite (visibility_rep _ _ _ _ Hpc) (tenant_rep _ _ _ Hpc) Hv Ht bool_decide_true; [done|]. by rewrite (ctx_rep_id _ _ Hpc).
Qed.

Lemma tenant_of_ctx_rep id d s : rep d s → pg_tenant_of_ctx id d = tenant_of_ctx id s.
Proof.
  intros Hrep. unfold pg_tenant_of_ctx, tenant_of_ctx. destruct (select_rep id _ _ Hrep) as [p c Hpc|]; [|done]. simpl.
  by destruct (ctx_rep_columns _ _ Hpc) as (_ & _ & _ & _ & _ & -> & _).
Qed.

Lemma tenants_of_ctxs_rep ids d s : rep d s → pg_tenants_of_ctxs ids d = tenants_of_ctxs ids s.
Proof.
  intros Hrep. unfold pg_tenants_of_ctxs, pg_batch, tenants_of_ctxs. destruct (is_empty ids); [done|]. f_equal.
  assert (Forall2 ctx_rep (List.filter (λ r, bool_decide (p_ctx_id r ∈ ids)) (pg_contexts d))
            (List.filter (λ r, bool_decide (c_ctx_id r ∈ ids)) (contexts s))) as Hall.
  { apply Forall2_filter; [|apply Hrep]. intros p c Hpc. by rewrite (ctx_rep_id _ _ Hpc). }
  induction Hall as [|p c ps cs Hpc _ IH]; [done|]. simpl.
  by destruct (ctx_rep_columns _ _ Hpc) as (-> & _ & _ & _ & _ & -> & _); rewrite IH.
Qed.

Lemma has_lifecycle_state_rep d s : rep d s → pg_has_lifecycle_state d = has_lifecycle_state s.
Proof.
  intros Hrep. unfold pg_has_lifecycle_state, has_lifecycle_state. f_equal.
  - by destruct (rep_events _ _ Hrep).
  - eapply existsb_rep; [|apply Hrep]. intros p c Hpc. by destruct (ctx_rep_columns _ _ Hpc) as (_ & _ & _ & _ & _ & _ & ->).
Qed.

(** A record SQLite can still show the expiry of. *)
Lemma idempotency_lookup_rep agent key d s :
  rep d s →
  (∀ row, idempotency_records s !! (agent, key) = Some row → is_Some (from_timestamp_millis (i_expires_at_ms row))) →
  pg_idempotency_lookup agent key d = idempotency_lookup agent key s.
Proof.
  intros Hrep Hrange. unfold pg_idempotency_lookup, idempotency_lookup.
  destruct (rep_keys _ _ Hrep (agent, key)) as [p c Hk|]; [|done].
  destruct (Hrange c eq_refl) as (t & Ht). rewrite Ht.
  destruct Hk as (r & v & txt & time & Hv & Htxt & Hms & Hh & -> & -> & -> & He).
  unfold pg_decode_response. rewrite (pg_response_inverse _ _ Hv) (response_inverse _ _ Htxt). simpl. rewrite Hh.
  do 3 f_equal. rewrite whole_pg_time //. rewrite He in Ht. apply millis_inverse in Ht as ->.
  unfold whole_ms, timestamp_millis, ns_per_ms in *. Z.div_mod_to_equations. lia.
Qed.

Lemma attestation_record_rep id d s : rep d s → pg_attestation_record id d = attestation_record id s.
Proof.
  intros Hrep. unfold pg_attestation_record, attestation_record.
  assert (option_Forall2 att_rep (List.find (λ k, bool_decide (pk_ctx_id k = id)) (pg_key_attestations d))
            (List.find (λ k, bool_decide (k_ctx_id k = id)) (key_attestations s))) as Hk.
  { induction (rep_attestations _ _ Hrep) as [|p c ps cs Hpc _ IH]; simpl; [constructor|].
    pose proof Hpc as (r & -> & ->). simpl. case_bool_decide; [by constructor|done]. }
  destruct Hk as [pk k (r & -> & ->)|]; [|done]. destruct (select_rep id _ _ Hrep) as [p c Hpc|]; [|done].
  destruct (ctx_rep_body p c Hpc) as (b & Hb & Hb' & _ & Hh & _). unfold pg_decode_body, decode_body.
  destruct (ctx_rep_columns _ _ Hpc) as (_ & _ & _ & _ & -> & _ & ->). rewrite Hb Hb' Hh. done.
Qed.

Lemma token_seen_rep h d s : rep d s → pg_token_seen h d = token_seen h s.
Proof.
  intros Hrep. unfold pg_token_seen, token_seen. 
  assert (Forall2 att_rep (List.filter (λ k, bool_decide (pk_token_hash k = h)) (pg_key_attestations d))
            (List.filter (λ k, bool_decide (k_token_hash k = h)) (key_attestations s))) as Hall.
  { apply Forall2_filter; [|apply Hrep]. by intros p c (r & -> & ->). }
  by rewrite (Forall2_length _ _ _ Hall).
Qed.
(** The producers: one query here, one for each chunk of ids there. *)
Lemma fold_insert_rows rows : ∀ (out : gmap string string) id,
  NoDup (map c_ctx_id rows) →
  fold_left (λ out r, <[c_ctx_id r := c_agent_id r]> out) rows out !! id =
  match List.find (λ r, bool_decide (c_ctx_id r = id)) rows with Some r => Some (c_agent_id r) | None => out !! id end.
Proof.
  induction rows as [|r rows IH]; intros out id Hnd; simpl; [done|]. cbn in Hnd. apply NoDup_cons in Hnd as [Hn Hnd].
  rewrite IH //. case_bool_decide as Hid.
  - destruct (List.find _ rows) as [x|] eqn:Hf; [|by rewrite -Hid lookup_insert_eq].
    apply List.find_some in Hf as [Hx%list_elem_of_In Hxid%bool_decide_eq_true]. destruct Hn. rewrite Hid -Hxid.
    by apply list_elem_of_fmap_2.
  - destruct (List.find _ rows); [done|]. by rewrite lookup_insert_ne.
Qed.

Lemma find_filter_rows id (ids : list string) db :
  List.find (λ r, bool_decide (c_ctx_id r = id)) (List.filter (λ r, bool_decide (c_ctx_id r ∈ ids)) (contexts db)) =
  if bool_decide (id ∈ ids) then select_ctx id db else None.
Proof.
  unfold select_ctx. induction (contexts db) as [|r l IH]; simpl; [by case_bool_decide|].
  destruct (bool_decide (c_ctx_id r ∈ ids)) eqn:Hin; simpl; rewrite IH; bool_to_prop.
  - destruct (bool_decide (c_ctx_id r = id)) eqn:Hid; [|done]. bool_to_prop. subst. by rewrite bool_decide_true.
  - destruct (bool_decide (c_ctx_id r = id)) eqn:Hid; [|done]. bool_to_prop. subst. by rewrite bool_decide_false.
Qed.

Lemma producers_of_lookup ids db id :
  published (contexts db) →
  producers_of ids db !! id = if bool_decide (id ∈ ids) then c_agent_id <$> select_ctx id db else None.
Proof.
  intros Hp. unfold producers_of.
  assert (∀ cs (out : gmap string string),
    fold_left (λ out chunk, fold_left (λ out r, <[c_ctx_id r := c_agent_id r]> out)
      (List.filter (λ r, bool_decide (c_ctx_id r ∈ chunk)) (contexts db)) out) cs out !! id =
    if bool_decide (id ∈ concat cs) then match select_ctx id db with Some r => Some (c_agent_id r) | None => out !! id end
    else out !! id) as Hfold.
  { induction cs as [|c cs IH]; intros out; simpl; [done|].
    rewrite IH fold_insert_rows; [|by apply NoDup_map_List_filter, published_ids]. rewrite find_filter_rows.
    destruct (bool_decide (id ∈ concat cs)) eqn:Hcs, (bool_decide (id ∈ c)) eqn:Hc; bool_to_prop.
    - rewrite bool_decide_true; [|set_solver]. by destruct (select_ctx id db).
    - rewrite bool_decide_true; [|set_solver]. done.
    - rewrite bool_decide_true; [|set_solver]. done.
    - rewrite bool_decide_false; [|set_solver]. done. }
  rewrite Hfold concat_chunks; [|unfold VISIBLE_CTX_IDS_CHUNK; lia|done]. case_bool_decide; [|done].
  by destruct (select_ctx id db).
Qed.

Lemma producers_of_rep ids d s : rep d s → published (contexts s) → pg_producers_of ids d = producers_of ids s.
Proof.
  intros Hrep Hp. apply map_eq. intros id. rewrite producers_of_lookup //. unfold pg_producers_of, pg_batch.
  destruct ids as [|i ids]; simpl is_empty; cbv iota; [rewrite lookup_empty bool_decide_false; [done|by intros ?%elem_of_nil]|].
  pose proof (published_ids _ Hp) as Hnd. set (l := i :: ids) in *.
  assert (Forall2 ctx_rep (List.filter (λ r, bool_decide (p_ctx_id r ∈ l)) (pg_contexts d))
            (List.filter (λ r, bool_decide (c_ctx_id r ∈ l)) (contexts s))) as Hall.
  { apply Forall2_filter; [|apply Hrep]. intros p c Hpc. by rewrite (ctx_rep_id _ _ Hpc). }
  transitivity (c_agent_id <$> List.find (λ r, bool_decide (c_ctx_id r = id)) (List.filter (λ r, bool_decide (c_ctx_id r ∈ l)) (contexts s))).
  - clear Hnd. induction Hall as [|p c ps cs Hpc _ IH]; [done|]. simpl.
    destruct (ctx_rep_columns _ _ Hpc) as (-> & _ & -> & _). case_bool_decide as Hid; [by rewrite Hid lookup_insert_eq|].
    by rewrite lookup_insert_ne.
  - rewrite find_filter_rows. by case_bool_decide.
Qed.
(** Key attestations, where the collation is the order of bytes. *)
Lemma attestation_rows_rep controller f d s :
  rep d s → Forall2 att_rep (pg_attestation_rows controller f d) (attestation_rows controller f s).
Proof.
  intros Hrep. apply Forall2_filter; [|apply Hrep]. intros p c (r & -> & ->). simpl.
  by destruct (select_rep (ir_ctx_id r) _ _ Hrep).
Qed.

Lemma attestation_item_rep d s p c : rep d s → att_rep p c → pg_attestation_item d p = attestation_item s c.
Proof.
  intros Hrep (r & -> & ->). unfold pg_attestation_item, attestation_item. simpl.
  destruct (select_rep (ir_ctx_id r) _ _ Hrep) as [p c Hpc|]; [|done]. simpl.
  destruct (ctx_rep_body p c Hpc) as (b & Hb & Hb' & _ & Hh & _). unfold pg_decode_body, decode_body. by rewrite Hb Hb' Hh.
Qed.

Lemma collect_ok_rep {A B C E} (T : A → B → Prop) (f : A → result C E) (g : B → result C E) l k :
  (∀ a b, T a b → f a = g b) → Forall2 T l k → collect_ok f l = collect_ok g k.
Proof. intros Hfg. induction 1 as [|a b l k Hab _ IH]; simpl; [done|]. by rewrite (Hfg _ _ Hab) IH. Qed.

Lemma list_key_attestations_rep controller f cursor limit now d s :
  (∀ a b, collate_ltb a b = text_ltb a b) → rep d s →
  pg_list_key_attestations controller f cursor limit now d = list_key_attestations controller f cursor limit now s.
Proof.
  intros Hbytes Hrep. unfold pg_list_key_attestations, list_key_attestations.
  destruct (decode_anchor now cursor) as [anchor|]; [|done]. cbn [and_then].
  set (rows := keyset_rows _ (newest_by Z.ltb collate_ltb) _ _ _). set (rows' := keyset_rows _ (newest_first Z.ltb) _ _ _).
  assert (∀ a b, newest_by Z.ltb collate_ltb a b ↔ newest_first Z.ltb a b) as Hlt by (intros a b; unfold newest_by; by rewrite Hbytes).
  assert (Forall2 att_rep rows rows') as Hall.
  { apply Forall2_take. eapply merge_sort_Forall2.
    - intros a b a' b' (r & -> & ->) (r' & -> & ->). unfold key_order. rewrite Hlt. done.
    - pose proof (attestation_rows_rep controller f _ _ Hrep) as Hrows.
      induction Hrows as [|a b l k Hab _ IH]; [constructor|]. rewrite !filter_cons.
      pose proof Hab as (r & -> & ->). destruct anchor as [x|]; cbn [fmap option_fmap option_map after].
      + destruct (decide (newest_by Z.ltb collate_ltb _ _)) as [Hd|Hd], (decide (newest_first Z.ltb _ _)) as [Hd'|Hd'];
          [by constructor|by destruct Hd'; apply Hlt|by destruct Hd; apply Hlt|done].
      + by constructor. }
  pose proof (Forall2_take _ _ _ (clamp_limit MAX_LIST_LIMIT limit) Hall) as Htake.
  rewrite (collect_ok_rep att_rep _ (attestation_item s) _ _ (λ a b, attestation_item_rep d s a b Hrep) Htake).
  destruct (collect_ok _ _); [|done]. cbn [and_then]. do 2 f_equal. rewrite (Forall2_length _ _ _ Hall).
  destruct (_ <? _)%nat; [|done].
  assert (option_Forall2 att_rep (last (take (clamp_limit MAX_LIST_LIMIT limit) rows)) (last (take (clamp_limit MAX_LIST_LIMIT limit) rows'))) as Hlast
    by (by apply Forall2_last).
  by destruct Hlast as [x y (r & -> & ->)|].
Qed.

(** ** Listings *)

Section listing.
Context `{!CollationLaws} `{!CursorTextLaws} `{!PaginateSdkLaws}.

#[local] Instance collated_strict : StrictOrder (newest_by Z.ltb collate_ltb).
Proof. apply newest_by_strict; [apply Z.ltb_irrefl|apply collate_irrefl|apply ms_ltb_trans|apply collate_trans]. Qed.

#[local] Instance collated_trichotomy : TrichotomyT (newest_by Z.ltb collate_ltb) :=
  newest_by_trichotomy _ _ ms_ltb_total collate_total.

Definition pg_list_walk (fuel : nat) (limit : Z) (requester tenant : option string) (open : bool)
    (clock : nat → Z) (db : PgDb) : option (result (list FullContext) AcdpError) :=
  page_walk fuel (λ i c, pg_list_contexts limit c requester tenant open (clock i) db) 0 None.

Lemma pg_list_walk_scan fuel limit requester tenant open clock db :
  pg_list_walk fuel limit requester tenant open clock db =
  scan_walk pg_created_key (newest_by Z.ltb collate_ltb) pg_anchor pg_row_to_context (λ _, true) fuel (clamp_limit 200 limit) clock
    (λ _, pg_visible_rows requester tenant open db) 0 None.
Proof.
  apply page_walk_ext. intros i c. unfold pg_list_contexts, scan_page. by destruct (decode_anchor _ _).
Qed.

Lemma pg_row_readable d s p :
  rep d s → store_wf s → times_ok s → p ∈ pg_contexts d → row_readable pg_created_key pg_anchor pg_row_to_context p.
Proof.
  intros Hrep Hwf Hts Hp. apply list_elem_of_lookup in Hp as [i Hi]. destruct (rep_lookup _ _ _ _ Hrep Hi) as (c & Hc & Hpc).
  apply list_elem_of_lookup_2 in Hc. destruct (wf_rows _ Hwf c Hc) as (b & _ & Hd & _).
  destruct (row_to_context_rep p c Hpc) as (f & g & Hf & Hg & (Hb & _ & _)). exists f. split; [done|].
  rewrite Hb (row_to_context_decodes _ _ _ Hd Hg). split; [by eapply Hts|].
  destruct (ctx_rep_body p c Hpc) as (b' & _ & Hb' & _ & _ & Hcr & Hid). rewrite (dec_body _ _ Hd) in Hb'. injection Hb' as <-.
  unfold pg_anchor, pg_created_key. simpl. by rewrite Hcr Hid.
Qed.

Lemma pg_keys_unique d s (f : PgCtxRow → bool) :
  rep d s → published (contexts s) → NoDup (map pg_created_key (List.filter f (pg_contexts d))).
Proof.
  intros Hrep Hp%published_ids. apply NoDup_map_List_filter. rewrite -(rep_ids _ _ Hrep) in Hp.
  apply (NoDup_fmap_1 snd). change (NoDup (snd <$> (pg_created_key <$> pg_contexts d))).
  by rewrite -list_fmap_compose.
Qed.

Lemma Permutation_Forall2_l {A B} (T : A → B → Prop) l l' k :
  l ≡ₚ l' → Forall2 T l k → ∃ k', k ≡ₚ k' ∧ Forall2 T l' k'.
Proof.
  intros Hp. revert k. induction Hp as [|x l l' _ IH|x y l|l1 l2 l3 _ IH1 _ IH2]; intros k Hk.
  - by exists k.
  - apply Forall2_cons_inv_l in Hk as (b & k0 & Hb & Hk & ->). destruct (IH k0 Hk) as (k' & Hperm & Hk').
    exists (b :: k'). split; [by constructor|by constructor].
  - apply Forall2_cons_inv_l in Hk as (b & k0 & Hb & Hk & ->). apply Forall2_cons_inv_l in Hk as (b' & k1 & Hb' & Hk & ->).
    exists (b' :: b :: k1). split; [constructor|by repeat constructor].
  - destruct (IH1 k Hk) as (k2 & Hp2 & Hk2). destruct (IH2 k2 Hk2) as (k3 & Hp3 & Hk3). exists k3. split; [by etrans|done].
Qed.

(** Rows in any order, decoded: the same contexts. *)
Lemma decoded_rep ps cs out out' full full' :
  Forall2 ctx_rep ps cs → out ≡ₚ ps → out' ≡ₚ cs →
  Forall2 (λ r c, pg_row_to_context r = Ok c) out full → Forall2 (λ r c, row_to_context r = Ok c) out' full' →
  ∃ full'', full' ≡ₚ full'' ∧ Forall2 same_ctx full full''.
Proof.
  intros Hall Hout Hout' Hfull Hfull'. symmetry in Hout.
  destruct (Permutation_Forall2_l ctx_rep ps out cs Hout Hall) as (cs' & Hcs & Hall').
  destruct (Permutation_Forall2_l (λ r c, row_to_context r = Ok c) out' cs' full') as (full'' & Hperm & Hfull'');
    [by rewrite Hout'|done|].
  exists full''. split; [done|]. clear Hcs Hperm Hall Hout Hout' Hfull'. revert cs' full'' Hall' Hfull''.
  induction Hfull as [|r f out full Hr _ IH]; intros cs' full'' Hall' Hfull''.
  - apply Forall2_nil_inv_l in Hall' as ->. apply Forall2_nil_inv_l in Hfull'' as ->. constructor.
  - apply Forall2_cons_inv_l in Hall' as (c & cs0 & Hrc & Hall' & ->).
    apply Forall2_cons_inv_l in Hfull'' as (g & full0 & Hg & Hfull'' & ->). constructor; cycle 1. { by apply (IH cs0). }
    destruct (row_to_context_rep r c Hrc) as (f' & g' & Hf' & Hg' & Hsame).
    rewrite Hr in Hf'. rewrite Hg in Hg'. injection Hf' as ->. by injection Hg' as ->.
Qed.

Lemma listing_rep fuel limit requester tenant open clock d s :
  rep d s → reachable s → times_ok s → in_time clock → (length (contexts s) < fuel)%nat →
  ∃ full full' full'', pg_list_walk fuel limit requester tenant open clock d = Some (Ok full) ∧
    list_walk fuel limit requester tenant open clock (λ _, s) 0 None = Some (Ok full') ∧
    full' ≡ₚ full'' ∧ Forall2 same_ctx full full''.
Proof.
  intros Hrep Hreach Hts Hclock Hfuel. pose proof (reachable_wf _ Hreach) as Hwf.
  pose proof (visible_rows_rep requester tenant open d s Hrep) as Hrows.
  destruct (scan_ends pg_created_key (newest_by Z.ltb collate_ltb) pg_anchor pg_row_to_context (λ _, true) fuel
    (clamp_limit 200 limit) clock (pg_visible_rows requester tenant open d)) as (out & full & Hw & Hperm & _ & Hall).
  - by apply clamp_limit_pos.
  - by eapply pg_keys_unique, wf_published.
  - intros p Hp. eapply pg_row_readable; [done..|]. unfold pg_visible_rows in Hp. apply list_elem_of_In, filter_In in Hp as [Hp _].
    by apply list_elem_of_In.
  - done.
  - rewrite (Forall2_length _ _ _ Hrows). eapply Nat.le_lt_trans; [apply filter_length_le|exact Hfuel].
  - rewrite filter_true in Hw.
    destruct (scan_ends created_key (newest_first text_ltb) text_anchor row_to_context (λ _, true) fuel
      (clamp_limit 200 limit) clock (visible_rows requester tenant open s)) as (out' & full' & Hw' & Hperm' & _ & Hall').
    + by apply clamp_limit_pos.
    + by apply created_keys_unique.
    + intros r. by apply listed_readable.
    + done.
    + eapply Nat.le_lt_trans; [apply filter_length_le|exact Hfuel].
    + rewrite filter_true in Hw'. destruct (decoded_rep _ _ _ _ _ _ Hrows Hperm Hperm' Hall Hall') as (full'' & ? & ?).
      exists full, full', full''. by rewrite pg_list_walk_scan list_walk_scan Hw Hw'.
Qed.
End listing.
(** Every read of the Postgres store answers what SQLite's does; reads of two states
    find their rows in [d] and [s] and their events in [d'] and [s']. *)
Record reads_agree (st : PgStore) (d d' : PgDb) (s s' : SqliteDb) : Prop := {
  ra_get id now : same_result (option_Forall2 same_ctx) (pg_get st id now d d') (get (sqlite_of st) id now s s');
  ra_lineage lin now :
    same_result (Forall2 same_ctx) (pg_lineage st lin now d d') (lineage (sqlite_of st) lin now s s');
  ra_current lin now :
    same_result (option_Forall2 same_ctx) (pg_current st lin now d d') (current (sqlite_of st) lin now s s');
  ra_first lin : pg_first_version_ctx_id lin d = first_version_ctx_id lin s;
  ra_tenant id : pg_tenant_of_ctx id d = tenant_of_ctx id s;
  ra_tenants ids : pg_tenants_of_ctxs ids d = tenants_of_ctxs ids s;
  ra_producers ids : pg_producers_of ids d = producers_of ids s;
  ra_visible ids requester tenant open :
    pg_visible_ctx_ids ids requester tenant open d = visible_ctx_ids ids requester tenant open s;
  ra_listing `{!CollationLaws} `{!CursorTextLaws} `{!PaginateSdkLaws} fuel limit requester tenant open clock :
    times_ok s → in_time clock → (length (contexts s) < fuel)%nat →
    ∃ full full' full'', pg_list_walk fuel limit requester tenant open clock d = Some (Ok full) ∧
      list_walk fuel limit requester tenant open clock (λ _, s) 0 None = Some (Ok full') ∧
      full' ≡ₚ full'' ∧ Forall2 same_ctx full full'';
  ra_lifecycle : pg_has_lifecycle_state d = has_lifecycle_state s;
  ra_idempotency agent key :
    (∀ row, idempotency_records s !! (agent, key) = Some row → is_Some (from_timestamp_millis (i_expires_at_ms row))) →
    pg_idempotency_lookup agent key d = idempotency_lookup agent key s;
  ra_attestation id : pg_attestation_record id d = attestation_record id s;
  ra_token h : pg_token_seen h d = token_seen h s;
  ra_attestations controller f cursor limit now :
    (∀ a b, collate_ltb a b = text_ltb a b) →
    pg_list_key_attestations controller f cursor limit now d = list_key_attestations controller f cursor limit now s;
  ra_log_size : pg_log_tree_size d = log_tree_size s;
  ra_log_hashes n : pg_log_leaf_hashes decode_sha256_hex n d = log_leaf_hashes decode_sha256_hex n s;
  ra_log_by_ctx id : pg_log_leaf_by_ctx id d = log_leaf_by_ctx id s;
  ra_log_by_index n : pg_log_leaf_by_index n d = log_leaf_by_index n s;
  ra_log_entries start stop : pg_log_entries start stop d = log_entries start stop s
}.

(** C12: The reads of the Postgres store are those of the SQLite store. Take SQLite
    tables its server can reach, those a second read finds, and Postgres tables written
    from the same data as each (idempotency records then expire at whole milliseconds).
    Retrieval, lineages, heads, tenants, producers, batch disclosure, attestation records,
    seen tokens and the transparency log, the events read later than the row or not,
    answer what the SQLite store answers, the same values and errors, up to what JSONB
    does to a registry receipt. So does the lookup of an idempotency record whose expiry
    chrono can represent, and the listing of key attestations where the database collates
    by bytes. A listing of contexts walked to its end, each page within the hour of its
    cursor and all instants of four-digit years, finds the same contexts, in whatever
    order. *)
Theorem pg_reads_agree (st : PgStore) (d d' : PgDb) (s s' : SqliteDb) :
  reachable s → rep d s → rep d' s' → reads_agree st d d' s s'.
Proof.
  intros Hreach Hrep Hrep'. pose proof (wf_published _ (reachable_wf _ Hreach)) as Hpub. split.
  - intros. by apply get_rep.
  - intros. by apply lineage_rep.
  - intros. by apply current_rep.
  - intros. by apply first_version_rep.
  - intros. by apply tenant_of_ctx_rep.
  - intros. by apply tenants_of_ctxs_rep.
  - intros. by apply producers_of_rep.
  - intros. by apply visible_ctx_ids_rep.
  - intros. by apply listing_rep.
  - by apply has_lifecycle_state_rep.
  - intros. by apply idempotency_lookup_rep.
  - intros. by apply attestation_record_rep.
  - intros. by apply token_seen_rep.
  - intros. by apply list_key_attestations_rep.
  - unfold pg_log_tree_size, log_tree_size. by rewrite (rep_leaves _ _ Hrep).
  - intros. unfold pg_log_leaf_hashes, log_leaf_hashes. by rewrite (rep_leaves _ _ Hrep).
  - intros. unfold pg_log_leaf_by_ctx, log_leaf_by_ctx. by rewrite (rep_leaves _ _ Hrep).
  - intros. unfold pg_log_leaf_by_index, log_leaf_by_index. by rewrite (rep_leaves _ _ Hrep).
  - intros. unfold pg_log_entries, log_entries. by rewrite (rep_leaves _ _ Hrep).
Qed.
End agreement.
