(* ===== verification/Search.v ===== *)
(** * Search

    [search_inner] of both SQL stores ([acdp-registry-sqlite/src/store.rs],
    [acdp-registry-pg/src/store.rs]) with the full-text helpers of
    [acdp-registry-store/src/fulltext.rs]: the filters and the disclosure predicate each
    backend pushes into its WHERE clause, what it still checks of the decoded rows, the
    total and the cursor. Both are proved to find the contexts a plain predicate on
    bodies selects.

    The full-text engines, SQLite's [unixepoch] and chrono's texts are parameters
    ([FullText], [TimeText]). A search takes two clocks: [now], which decides what has
    expired, and the clock of the cursors. *)

From stdpp Require Import pretty.
From S2P Require Import Prelude Text RateLimit Errors ContextTypes ChangeBucket ChangeFeed FeedBackends ReadGate PageCursors EventReceipts KeyAttestations SqlTx.
From S2P Require Import SqliteStore SqlitePublish SqliteInvariants SqliteLifecycle SqliteReach SqliteReads SqliteListing ReadHandlers.
From S2P Require Import PgTx PgStore PgSerial PgParity PgReads.

Open Scope registry_scope.

(** ** White space and words *)

(** How many bytes of UTF-8 the white space character at the front takes; 0 when there
    is none. These are the characters of [char::is_whitespace]. *)
Definition ws_len (s : string) : nat :=
  match as_bytes s with
  | a :: l =>
      if ((a =? 32) || ((9 <=? a) && (a <=? 13)))%Z then 1%nat
      else match l with
           | b :: m =>
               if ((a =? 194) && ((b =? 133) || (b =? 160)))%Z then 2%nat
               else match m with
                    | c :: _ =>
                        if (((a =? 225) && (b =? 154) && (c =? 128))
                            || ((a =? 227) && (b =? 128) && (c =? 128))
                            || ((a =? 226) && (b =? 129) && (c =? 159))
                            || ((a =? 226) && (b =? 128) && (((128 <=? c) && (c <=? 138))
                                  || (c =? 168) || (c =? 169) || (c =? 175))))%Z
                        then 3%nat else 0%nat
                    | [] => 0%nat
                    end
           | [] => 0%nat
           end
  | [] => 0%nat
  end.

(** [str::split_whitespace]; [skip] bytes belong to a separator, [word] is the word so
    far. *)
Fixpoint words_from (skip : nat) (word s : string) : list string :=
  match s with
  | EmptyString => [word]
  | String.String c s' =>
      match skip with
      | S skip => words_from skip word s'
      | O => match ws_len s with
             | O => words_from 0%nat (word +:+ String.String c EmptyString) s'
             | S n => word :: words_from n EmptyString s'
             end
      end
  end.

Definition split_whitespace (s : string) : list string :=
  List.filter (λ w, negb (bool_decide (w = EmptyString))) (words_from 0%nat EmptyString s).

(** [str::trim]. *)
Fixpoint blank_from (skip : nat) (s : string) : bool :=
  match s with
  | EmptyString => true
  | String.String _ s' =>
      match skip with
      | S skip => blank_from skip s'
      | O => match ws_len s with O => false | S n => blank_from n s' end
      end
  end.

Fixpoint trim_left (skip : nat) (s : string) : string :=
  match s with
  | EmptyString => EmptyString
  | String.String _ s' =>
      match skip with
      | S skip => trim_left skip s'
      | O => match ws_len s with O => s | S n => trim_left n s' end
      end
  end.

Fixpoint trim_right (s : string) : string :=
  if blank_from 0%nat s then EmptyString
  else match s with
       | EmptyString => EmptyString
       | String.String c s' => String.String c (trim_right s')
       end.

Definition str_trim (s : string) : string := trim_right (trim_left 0%nat s).

(** ** Full-text queries *)

Definition PG_ENGLISH_STOPWORDS : list string :=
  ["i"; "me"; "my"; "myself"; "we"; "our"; "ours"; "ourselves"; "you"; "your"; "yours";
   "yourself"; "yourselves"; "he"; "him"; "his"; "himself"; "she"; "her"; "hers"; "herself"; "it";
   "its"; "itself"; "they"; "them"; "their"; "theirs"; "themselves"; "what"; "which"; "who";
   "whom"; "this"; "that"; "these"; "those"; "am"; "is"; "are"; "was"; "were"; "be"; "been";
   "being"; "have"; "has"; "had"; "having"; "do"; "does"; "did"; "doing"; "a"; "an"; "the"; "and";
   "but"; "if"; "or"; "because"; "as"; "until"; "while"; "of"; "at"; "by"; "for"; "with"; "about";
   "against"; "between"; "into"; "through"; "during"; "before"; "after"; "above"; "below"; "to";
   "from"; "up"; "down"; "in"; "out"; "on"; "off"; "over"; "under"; "again"; "further"; "then";
   "once"; "here"; "there"; "when"; "where"; "why"; "how"; "all"; "any"; "both"; "each"; "few";
   "more"; "most"; "other"; "some"; "such"; "no"; "nor"; "not"; "only"; "own"; "same"; "so";
   "than"; "too"; "very"; "s"; "t"; "can"; "will"; "just"; "don"; "should"; "now"].

(** [str::to_lowercase], as far as the list can tell: of the characters outside ASCII
    only the Kelvin sign becomes an ASCII letter. *)
Fixpoint fold_case (s : string) : string :=
  match s with
  | String.String a (String.String b (String.String c rest) as s1) =>
      if bool_decide (as_bytes (String.String a (String.String b (String.String c EmptyString))) = [226; 132; 170]%Z)
      then String.String (Ascii.ascii_of_nat 107) (fold_case rest)
      else String.String (ascii_lower a) (fold_case s1)
  | String.String a s1 => String.String (ascii_lower a) (fold_case s1)
  | EmptyString => EmptyString
  end.

Definition is_pg_english_stopword (token : string) : bool :=
  bool_decide (fold_case token ∈ PG_ENGLISH_STOPWORDS).

Definition quote : Ascii.ascii := Ascii.ascii_of_nat 34.

(** [t.replace] of a double quote by two. *)
Fixpoint double_quotes (s : string) : string :=
  match s with
  | EmptyString => EmptyString
  | String.String c s =>
      if bool_decide (c = quote) then String.String quote (String.String quote (double_quotes s))
      else String.String c (double_quotes s)
  end.

(** A token as an FTS5 string. *)
Definition fts5_string (t : string) : string :=
  String.String quote (double_quotes t +:+ String.String quote EmptyString).

Definition query_terms (q : string) : list string :=
  List.filter (λ t, negb (is_pg_english_stopword t))
    (List.filter (λ t, negb (bool_decide (t = EmptyString))) (split_whitespace q)).

Definition EMPTY_QUERY : string := "__acdp_empty_query__".

Definition fts5_escape (q : string) : string :=
  match map fts5_string (query_terms q) with
  | [] => fts5_string EMPTY_QUERY
  | tokens => String.concat " " tokens
  end.

(** ** The engines *)

(** What the triggers index of a row. *)
Record SearchDocument : Type := mkDocument {
  doc_title : string;
  doc_summary : string;
  doc_description : string;
  doc_domain : string;
  doc_tags : string;
  doc_agent_id : string
}.

(** [contexts_fts MATCH ?], and [search_vector @@ plainto_tsquery('english', $n)]. *)
Class FullText : Type := {
  fts5_match : string → SearchDocument → bool;
  tsquery_match : string → SearchDocument → bool
}.

(** [DateTime::parse_from_rfc3339], SQLite's [unixepoch(_, 'subsec')] in nanoseconds, and
    the text of a [data_period] member in the stored document. *)
Class TimeText : Type := {
  parse_from_rfc3339 : string → result Z string;
  unixepoch : string → option Z;
  period_text : Z → string
}.

(** Years of four digits, outside which RFC 3339 has no text. *)
Definition four_digit_year (t : Z) : Prop :=
  (- 62167219200 * ns_per_sec ≤ t < 253402300800 * ns_per_sec)%Z.

(** An instant every backend keeps whole. *)
Definition plain_time (t : Z) : Prop := whole_ms t ∧ four_digit_year t.

(** Texts of [to_rfc3339] order like their instants, and [unixepoch] reads them to the
    millisecond. *)
Class TimeTextLaws `{StoreCodec} `{!TimeText} : Prop := {
  rfc3339_order t u : four_digit_year t → four_digit_year u → text_leb (rfc3339 t) (rfc3339 u) = (t <=? u)%Z;
  unixepoch_rfc3339 t : plain_time t → unixepoch (rfc3339 t) = Some t;
  unixepoch_period t : plain_time t → unixepoch (period_text t) = Some t
}.

(** ** Parameters *)

Record SearchTimes : Type := mkSearchTimes {
  ts_created_after : option Z;
  ts_created_before : option Z;
  ts_expires_after : option Z;
  ts_expires_before : option Z;
  ts_period_start_after : option Z;
  ts_period_end_before : option Z
}.

Section search.
Context `{StoreCodec} `{!PgCodec} `{PublishSdk} `{KeylessSdk} `{CursorText} `{PaginateSdk} `{Collation}.
Context `{!FullText} `{!TimeText}.

Definition parse_opt_rfc3339 (s : option string) : result (option Z) AcdpError :=
  match s with
  | None => Ok None
  | Some raw =>
      let? dt := map_err (λ e, SchemaViolation ("malformed datetime '" +:+ raw +:+ "': " +:+ e))
                   (parse_from_rfc3339 raw) in
      Ok (Some dt)
  end.

Definition parse_times (p : SearchParams) : result SearchTimes AcdpError :=
  let? created_after := parse_opt_rfc3339 (sp_created_after p) in
  let? created_before := parse_opt_rfc3339 (sp_created_before p) in
  let? expires_after := parse_opt_rfc3339 (sp_expires_after p) in
  let? expires_before := parse_opt_rfc3339 (sp_expires_before p) in
  let? start_after := parse_opt_rfc3339 (sp_data_period_start_after p) in
  let? end_before := parse_opt_rfc3339 (sp_data_period_end_before p) in
  Ok (mkSearchTimes created_after created_before expires_after expires_before start_after end_before).

Definition wanted_tags (tags : string) : list string :=
  List.filter (λ t, negb (bool_decide (t = EmptyString))) (map str_trim (split_char comma tags)).

Definition want_status (p : SearchParams) : string := default "active" (sp_status p).

Definition search_limit (p : SearchParams) : nat := Z.to_nat (Z.min (default 50%Z (sp_limit p)) 100).

(** A filter that is only there when its parameter is. *)
Definition clause {A} (o : option A) (f : A → bool) : bool :=
  match o with Some a => f a | None => true end.

(** A comparison with a value that may be NULL. *)
Definition sql_le (a b : option Z) : bool :=
  match a, b with Some x, Some y => (x <=? y)%Z | _, _ => false end.
Definition sql_lt (a b : option Z) : bool :=
  match a, b with Some x, Some y => (x <? y)%Z | _, _ => false end.

(** What both backends check of a decoded row: the status it is served with and the
    context it derives from. *)
Definition derives (p : SearchParams) (b : Body) : bool :=
  clause (sp_derived_from p) (λ df, bool_decide (df ∈ body_derived_from b)).

Definition has_tags (p : SearchParams) (b : Body) : bool :=
  clause (sp_tags p) (λ t, forallb (λ w, bool_decide (w ∈ default [] (body_tags b))) (wanted_tags t)).

Definition search_result (ctx : FullContext) : SearchResult :=
  let b := fc_body ctx in
  mkSearchResult (body_ctx_id b) (body_lineage_id b) (body_agent_id b) (body_title b) (body_summary b)
    (body_context_type b) (body_domain b) (body_created_at b) (st_status (fc_state ctx)) (Some (body_visibility b)).

(** ** SQLite *)

Definition fts_document (r : CtxRow) : SearchDocument :=
  let s := c_search r in
  mkDocument (col_title s) (default EmptyString (col_summary s)) (default EmptyString (col_description s))
    (default EmptyString (col_domain s)) (col_tags s) (c_agent_id r).

(** [json_extract(body_json, ...)]. *)
Definition json_member {T} (f : Body → option T) (body_json : string) : option T :=
  match body_parse body_json with Ok b => f b | Err _ => None end.

Definition SEARCH_RETRACTED_SQLITE (r : CtxRow) : bool := negb (c_retracted r =? 0)%Z.
Definition SEARCH_ACTIVE_SQLITE (now : Z) (r : CtxRow) : bool :=
  (c_retracted r =? 0)%Z && bool_decide (c_status r = "active")
  && match c_expires_at r with
     | None => true
     | Some e => sql_lt (unixepoch (rfc3339 now)) (unixepoch e)
     end.
Definition SEARCH_EXPIRED_SQLITE (now : Z) (r : CtxRow) : bool :=
  (c_retracted r =? 0)%Z
  && (bool_decide (c_status r = "expired")
      || (bool_decide (c_status r = "active")
          && match c_expires_at r with
             | None => false
             | Some e => sql_le (unixepoch e) (unixepoch (rfc3339 now))
             end)).
Definition SEARCH_STATUS_SQLITE (want : string) (r : CtxRow) : bool :=
  (c_retracted r =? 0)%Z && bool_decide (c_status r = want).

Definition sqlite_status_clause (want : string) (now : Z) (r : CtxRow) : bool :=
  if bool_decide (want = "retracted") then SEARCH_RETRACTED_SQLITE r
  else if bool_decide (want = "active") then SEARCH_ACTIVE_SQLITE now r
  else if bool_decide (want = "expired") then SEARCH_EXPIRED_SQLITE now r
  else SEARCH_STATUS_SQLITE want r.

Definition sqlite_search_where (p : SearchParams) (ts : SearchTimes) (requester : option string) (open : bool)
    (tenant : option string) (now : Z) (r : CtxRow) : bool :=
  SEARCH_VISIBILITY_SQLITE requester open r
  && in_tenant tenant r
  && clause (sp_q p) (λ q, fts5_match (fts5_escape q) (fts_document r))
  && clause (sp_domain p) (λ d, bool_decide (col_domain (c_search r) = Some d))
  && clause (sp_agent_id p) (λ a, bool_decide (c_agent_id r = a))
  && clause (sp_context_type p) (λ t, bool_decide (c_context_type r = t))
  && clause (sp_schema_uri p) (λ s, bool_decide (json_member body_schema_uri (c_body_json r) = Some s))
  && clause (ts_created_after ts) (λ t, text_leb (rfc3339 t) (c_created_at r))
  && clause (ts_created_before ts) (λ t, text_leb (c_created_at r) (rfc3339 t))
  && clause (ts_expires_after ts) (λ t, match c_expires_at r with Some e => text_leb (rfc3339 t) e | None => false end)
  && clause (ts_expires_before ts) (λ t, match c_expires_at r with Some e => text_leb e (rfc3339 t) | None => false end)
  && clause (ts_period_start_after ts) (λ t,
       sql_le (unixepoch (rfc3339 t))
         (json_member body_data_period (c_body_json r) ≫= λ dp, unixepoch (period_text dp.1)))
  && clause (ts_period_end_before ts) (λ t,
       sql_le (json_member body_data_period (c_body_json r) ≫= λ dp, unixepoch (period_text dp.2))
         (unixepoch (rfc3339 t)))
  && sqlite_status_clause (want_status p) now r.

Definition sqlite_search_context (now : Z) (r : CtxRow) : result FullContext AcdpError :=
  let? body := decode_body (c_body_json r) in
  let stored := if negb (c_retracted r =? 0)%Z then Retracted else parse_status (c_status r) in
  Ok (project_context (full_context body stored None) now).

Definition sqlite_search_keep (p : SearchParams) (ctx : FullContext) : bool :=
  bool_decide (status_str (st_status (fc_state ctx)) = want_status p) && has_tags p (fc_body ctx) && derives p (fc_body ctx).

(** [COUNT( * ) OVER ()] of the rows the query found. *)
Definition total_rows {R} (rows all : list R) : option Z :=
  Some (if is_empty rows then 0 else Z.max 0 (Z.of_nat (length all)))%Z.

Definition sqlite_search (p : SearchParams) (requester : option string) (open : bool) (tenant : option string)
    (now tick : Z) (db : SqliteDb) : result SearchResponse AcdpError :=
  let? ts := parse_times p in
  let? anchor := decode_anchor tick (sp_cursor p) in
  let limit := search_limit p in
  let found := List.filter (sqlite_search_where p ts requester open tenant now) (contexts db) in
  let rows := keyset_rows created_key (newest_first text_ltb) limit (text_anchor <$> anchor) found in
  let total := total_rows rows (filter (after created_key (newest_first text_ltb) (text_anchor <$> anchor)) found) in
  let? page := try_paginate_rows rows limit (sqlite_search_context now) (sqlite_search_keep p) (ctx_cursor tick) in
  Ok (mkSearchResponse (map search_result page.1) total page.2).

(** ** Postgres *)

Definition ts_document (r : PgCtxRow) : SearchDocument :=
  let s := p_search r in
  mkDocument (col_title s) (default EmptyString (col_summary s)) (default EmptyString (col_description s))
    (default EmptyString (col_domain s)) (String.concat " " (col_tags s)) (p_agent_id r).

Definition SEARCH_VISIBILITY_PG (req : option string) (open : bool) (r : PgCtxRow) : bool :=
  (bool_decide (p_visibility r = "public") && (is_some req || open))
  || (bool_decide (p_visibility r = "restricted") && is_some req
      && (sql_eq (p_agent_id r) req || existsb (λ v, sql_eq v req) (pg_audience (p_body_json r))))
  || (bool_decide (p_visibility r = "private") && is_some req && sql_eq (p_agent_id r) req).

(** [body_json ->> ...] and [body_json #>> ...]. *)
Definition jsonb_member {T} (f : Body → option T) (body_json : Jsonb) : option T :=
  match body_from_value (from_jsonb body_json) with Ok b => f b | Err _ => None end.

Definition pg_status_clause (want : string) (now : Z) (r : PgCtxRow) : bool :=
  if bool_decide (want = "retracted") then p_retracted r
  else if bool_decide (want = "active") then
    negb (p_retracted r) && bool_decide (p_status r = "active")
    && match p_expires_at r with None => true | Some e => (pg_time now <? e)%Z end
  else if bool_decide (want = "expired") then
    negb (p_retracted r)
    && (bool_decide (p_status r = "expired")
        || (bool_decide (p_status r = "active")
            && match p_expires_at r with None => false | Some e => (e <=? pg_time now)%Z end))
  else negb (p_retracted r) && bool_decide (p_status r = want).

(** [tags @> $n], when there are tags to want. *)
Definition pg_tags_clause (p : SearchParams) (r : PgCtxRow) : bool :=
  clause (sp_tags p) (λ t,
    let want := wanted_tags t in
    if is_empty want then true else forallb (λ w, bool_decide (w ∈ col_tags (p_search r))) want).

Definition pg_search_where (p : SearchParams) (ts : SearchTimes) (requester : option string) (open : bool)
    (tenant : option string) (now : Z) (r : PgCtxRow) : bool :=
  SEARCH_VISIBILITY_PG requester open r
  && pg_in_tenant tenant r
  && clause (sp_q p) (λ q, tsquery_match q (ts_document r))
  && clause (sp_domain p) (λ d, bool_decide (col_domain (p_search r) = Some d))
  && clause (sp_agent_id p) (λ a, bool_decide (p_agent_id r = a))
  && clause (sp_context_type p) (λ t, bool_decide (p_context_type r = t))
  && clause (sp_schema_uri p) (λ s, bool_decide (jsonb_member body_schema_uri (p_body_json r) = Some s))
  && pg_tags_clause p r
  && clause (ts_created_after ts) (λ t, (pg_time t <=? p_created_at r)%Z)
  && clause (ts_created_before ts) (λ t, (p_created_at r <=? pg_time t)%Z)
  && clause (ts_expires_after ts) (λ t, match p_expires_at r with Some e => (pg_time t <=? e)%Z | None => false end)
  && clause (ts_expires_before ts) (λ t, match p_expires_at r with Some e => (e <=? pg_time t)%Z | None => false end)
  && clause (ts_period_start_after ts) (λ t,
       sql_le (Some (pg_time t)) ((λ dp, pg_time dp.1) <$> jsonb_member body_data_period (p_body_json r)))
  && clause (ts_period_end_before ts) (λ t,
       sql_le ((λ dp, pg_time dp.2) <$> jsonb_member body_data_period (p_body_json r)) (Some (pg_time t)))
  && pg_status_clause (want_status p) now r.

Definition pg_search_context (now : Z) (r : PgCtxRow) : result FullContext AcdpError :=
  let? body := pg_decode_body (p_body_json r) in
  let stored := if p_retracted r then Retracted else parse_status (p_status r) in
  Ok (project_context (full_context body stored None) now).

Definition pg_search_keep (p : SearchParams) (ctx : FullContext) : bool :=
  bool_decide (status_str (st_status (fc_state ctx)) = want_status p) && derives p (fc_body ctx).

Definition pg_search (p : SearchParams) (requester : option string) (open : bool) (tenant : option string)
    (now tick : Z) (db : PgDb) : result SearchResponse AcdpError :=
  let? ts := parse_times p in
  let? anchor := decode_anchor tick (sp_cursor p) in
  let limit := search_limit p in
  let found := List.filter (pg_search_where p ts requester open tenant now) (pg_contexts db) in
  let rows := keyset_rows pg_created_key (newest_by Z.ltb collate_ltb) limit (pg_anchor <$> anchor) found in
  let total := total_rows rows (filter (after pg_created_key (newest_by Z.ltb collate_ltb) (pg_anchor <$> anchor)) found) in
  let? page := try_paginate_rows rows limit (pg_search_context now) (pg_search_keep p) (ctx_cursor tick) in
  Ok (mkSearchResponse (map search_result page.1) total page.2).

(** ** What a search is for *)

(** The disclosure rule of searches: a private context is its producer's alone. *)
Definition search_visible (b : Body) (requester : option string) (open : bool) : bool :=
  match body_visibility b with
  | Public => open || bool_decide (is_Some requester)
  | Restricted =>
      match requester with
      | None => false
      | Some r => bool_decide (r = body_agent_id b) || bool_decide (r ∈ default [] (body_audience b))
      end
  | Private => bool_decide (requester = Some (body_agent_id b))
  end.

(** The filters, on a body. *)
Definition matches_filters (p : SearchParams) (ts : SearchTimes) (b : Body) : bool :=
  clause (sp_domain p) (λ d, bool_decide (body_domain b = Some d))
  && clause (sp_agent_id p) (λ a, bool_decide (body_agent_id b = a))
  && clause (sp_context_type p) (λ t, bool_decide (context_type_str (body_context_type b) = t))
  && clause (sp_schema_uri p) (λ s, bool_decide (body_schema_uri b = Some s))
  && clause (ts_created_after ts) (λ t, (t <=? body_created_at b)%Z)
  && clause (ts_created_before ts) (λ t, (body_created_at b <=? t)%Z)
  && clause (ts_expires_after ts) (λ t, sql_le (Some t) (body_expires_at b))
  && clause (ts_expires_before ts) (λ t, sql_le (body_expires_at b) (Some t))
  && clause (ts_period_start_after ts) (λ t, sql_le (Some t) (fst <$> body_data_period b))
  && clause (ts_period_end_before ts) (λ t, sql_le (snd <$> body_data_period b) (Some t))
  && has_tags p b && derives p b.

(** The status a row is served with. *)
Definition served_status (status : string) (retracted : bool) (b : Body) (now : Z) : Status :=
  project_status_inline (stored_status status retracted) (body_expires_at b) now.

(** Whether a row is to be found; [hit] is what the full-text engine says of it. *)
Definition search_spec (p : SearchParams) (ts : SearchTimes) (requester : option string) (open : bool)
    (tenant : option string) (now : Z) (hit : string → bool) (b : Body) (row_tenant status : string)
    (retracted : bool) : bool :=
  search_visible b requester open
  && clause tenant (λ t, bool_decide (row_tenant = t))
  && clause (sp_q p) hit
  && matches_filters p ts b
  && bool_decide (status_str (served_status status retracted b now) = want_status p).
End search.

(** ** The WHERE clauses say what the rule says *)

Section exact.
Context `{StoreCodec} `{!PgCodec} `{PublishSdk} `{KeylessSdk} `{CursorText} `{PaginateSdk} `{Collation}.
Context `{!FullText} `{!TimeText}.
Context `{!StoreCodecLaws} `{!PublishSdkLaws} `{!EventSdkLaws} `{!PgCodecLaws} `{!TimeTextLaws}.

(** Bodies and filters whose instants every backend keeps whole. *)
Definition plain_option (o : option Z) : Prop := ∀ t, o = Some t → plain_time t.

Definition plain_body (b : Body) : Prop :=
  plain_time (body_created_at b) ∧ plain_option (body_expires_at b) ∧
  plain_option (fst <$> body_data_period b) ∧ plain_option (snd <$> body_data_period b).

Definition plain_filters (ts : SearchTimes) : Prop :=
  Forall plain_option [ts_created_after ts; ts_created_before ts; ts_expires_after ts; ts_expires_before ts;
                       ts_period_start_after ts; ts_period_end_before ts].

(** The statuses a stored row has. *)
Definition known_status (s : string) : Prop := s = "active" ∨ s = "superseded".

Lemma clause_ext {A} (o : option A) f g : (∀ a, o = Some a → f a = g a) → clause o f = clause o g.
Proof. destruct o; simpl; auto. Qed.

Lemma existsb_member (v : string) (l : list string) : existsb (λ x, sql_eq x (Some v)) l = bool_decide (v ∈ l).
Proof.
  induction l as [|x l IH]; [done|]. cbn. rewrite IH. repeat case_bool_decide; try done; set_solver.
Qed.

Lemma search_visibility_rule (vis agent : string) (audience : list string) b req open :
  vis = visibility_str (body_visibility b) → agent = body_agent_id b → audience = default [] (body_audience b) →
  (bool_decide (vis = "public") && (is_some req || open))
  || (bool_decide (vis = "restricted") && is_some req && (sql_eq agent req || existsb (λ v, sql_eq v req) audience))
  || (bool_decide (vis = "private") && is_some req && sql_eq agent req) = search_visible b req open.
Proof.
  intros -> -> ->. unfold search_visible. destruct req as [q|].
  - rewrite existsb_member. cbn [is_some sql_eq].
    rewrite (bool_decide_ext (body_agent_id b = q) (q = body_agent_id b)); [|done].
    rewrite (bool_decide_ext (Some q = Some (body_agent_id b)) (q = body_agent_id b)); [|naive_solver].
    destruct (body_visibility b); cbn; [by rewrite orb_true_r|by rewrite orb_false_r|done].
  - cbn [is_some sql_eq]. destruct (body_visibility b); cbn; [by rewrite !orb_false_r|done|done].
Qed.

(** A search shows nothing a retrieval would not. *)
Lemma search_visible_retrieves b req open : search_visible b req open = true → retrieve_visible b req open = true.
Proof.
  unfold search_visible, retrieve_visible. destruct (body_visibility b), req as [q|]; cbn; try done.
  - by destruct (body_audience b).
  - rewrite bool_decide_eq_true. intros [= ->]. by rewrite bool_decide_true.
Qed.

(** What the status clause selects, the check of the decoded row confirms; and it loses
    nothing the check would keep. *)
Lemma status_rule want status (retracted : bool) expires b now sel :
  known_status status → expires = body_expires_at b →
  (∀ e, expires = Some e → sel = (now <? e)%Z) → (expires = None → sel = true) →
  let clause :=
    if bool_decide (want = "retracted") then retracted
    else if bool_decide (want = "active") then negb retracted && bool_decide (status = "active") && sel
    else if bool_decide (want = "expired") then
      negb retracted && (bool_decide (status = "expired") || (bool_decide (status = "active") && negb sel))
    else negb retracted && bool_decide (status = want) in
  bool_decide (status_str (served_status status retracted b now) = want) = true → clause = true.
Proof.
  intros Hst -> Hsel Hnone clause. rewrite bool_decide_eq_true. intros <-. unfold clause, served_status, stored_status.
  destruct retracted; [done|]. destruct Hst as [->| ->]; [|done]. change (parse_status "active") with Active.
  cbn [project_status_inline]. destruct (body_expires_at b) as [e|]; [|by rewrite (Hnone eq_refl)].
  specialize (Hsel e eq_refl). destruct (e <=? now)%Z eqn:Hle; cbn; rewrite Hsel; cbn.
  - apply Z.leb_le in Hle. by rewrite (proj2 (Z.ltb_ge _ _)).
  - apply Z.leb_gt in Hle. by rewrite (proj2 (Z.ltb_lt _ _)).
Qed.

(** *** SQLite *)

Lemma sqlite_status_rule want now r b :
  known_status (c_status r) → decodes r b → plain_body b → plain_time now →
  bool_decide (status_str (served_status (c_status r) (negb (c_retracted r =? 0)%Z) b now) = want) = true →
  sqlite_status_clause want now r = true.
Proof.
  intros Hst Hd (_ & Hexp & _) Hnow Hserved.
  set (sel := match body_expires_at b with Some e => (now <? e)%Z | None => true end).
  assert (sqlite_status_clause want now r =
    if bool_decide (want = "retracted") then negb (c_retracted r =? 0)%Z
    else if bool_decide (want = "active") then negb (negb (c_retracted r =? 0)%Z) && bool_decide (c_status r = "active") && sel
    else if bool_decide (want = "expired") then
      negb (negb (c_retracted r =? 0)%Z) && (bool_decide (c_status r = "expired") || (bool_decide (c_status r = "active") && negb sel))
    else negb (negb (c_retracted r =? 0)%Z) && bool_decide (c_status r = want)) as ->.
  { unfold sqlite_status_clause, SEARCH_RETRACTED_SQLITE, SEARCH_ACTIVE_SQLITE, SEARCH_EXPIRED_SQLITE, SEARCH_STATUS_SQLITE.
    rewrite negb_involutive (dec_expires_at _ _ Hd). unfold sel. destruct (body_expires_at b) as [e|]; [|done]. cbn.
    rewrite (unixepoch_rfc3339 e (Hexp e eq_refl)) (unixepoch_rfc3339 now Hnow). cbn. by rewrite Z.ltb_antisym negb_involutive. }
  eapply status_rule; [done|done| |intros Hn; unfold sel; by rewrite Hn|done].
  intros e He. unfold sel. by rewrite He.
Qed.

Lemma text_at_least t u : plain_time t → plain_time u → text_leb (rfc3339 t) (rfc3339 u) = (t <=? u)%Z.
Proof. intros [_ Ht] [_ Hu]. by apply rfc3339_order. Qed.

Lemma plain_filters_each ts :
  plain_filters ts →
  plain_option (ts_created_after ts) ∧ plain_option (ts_created_before ts) ∧ plain_option (ts_expires_after ts) ∧
  plain_option (ts_expires_before ts) ∧ plain_option (ts_period_start_after ts) ∧ plain_option (ts_period_end_before ts).
Proof. unfold plain_filters. rewrite !Forall_cons. tauto. Qed.

(** The order of the checks does not matter. *)
Lemma sqlite_conjunction (v t q d a c s ca cb ea eb ps pe sc st tg df : bool) :
  (st = true → sc = true) →
  v && t && q && d && a && c && s && ca && cb && ea && eb && ps && pe && sc && (st && tg && df) =
  v && t && q && (d && a && c && s && ca && cb && ea && eb && ps && pe && tg && df) && st.
Proof.
  intros Hst. destruct v; [|done]. destruct t; [|done]. destruct q; [|done]. destruct d; [|done]. destruct a; [|done].
  destruct c; [|done]. destruct s; [|done]. destruct ca; [|done]. destruct cb; [|done]. destruct ea; [|done].
  destruct eb; [|done]. destruct ps; [|done]. destruct pe; [|done]. simpl.
  destruct st; [|by rewrite andb_false_r andb_false_r]. rewrite Hst //. by rewrite andb_true_r.
Qed.

Lemma sqlite_where_rule p ts req open tenant now r b :
  decodes r b → known_status (c_status r) → plain_body b → plain_filters ts → plain_time now →
  sqlite_search_where p ts req open tenant now r
  && (bool_decide (status_str (served_status (c_status r) (negb (c_retracted r =? 0)%Z) b now) = want_status p)
      && has_tags p b && derives p b) =
  search_spec p ts req open tenant now (λ q, fts5_match (fts5_escape q) (fts_document r)) b (c_tenant_id r)
    (c_status r) (negb (c_retracted r =? 0)%Z).
Proof.
  intros Hd Hst Hb Hts Hnow. pose proof (sqlite_status_rule (want_status p) now r b Hst Hd Hb Hnow) as Hstat.
  apply plain_filters_each in Hts as (? & ? & ? & ? & ? & ?). destruct Hb as (Hcr & Hex & Hps & Hpe). destruct (dec_search _ _ Hd) as (tags & _ & Hcols).
  unfold sqlite_search_where, search_spec, matches_filters, SEARCH_VISIBILITY_SQLITE.
  rewrite (search_visibility_rule _ _ _ b req open (dec_visibility _ _ Hd) (eq_sym (dec_agent_id _ _ Hd)));
    [|unfold audience_values; by rewrite (dec_body _ _ Hd)].
  rewrite -(dec_agent_id _ _ Hd) (dec_context_type _ _ Hd) Hcols (dec_created_at _ _ Hd) (dec_expires_at _ _ Hd).
  unfold json_member. rewrite (dec_body _ _ Hd). cbn [search_columns col_domain].
  rewrite (clause_ext (ts_created_after ts) _ (λ t, (t <=? body_created_at b)%Z)); [|intros t Ht; apply text_at_least; auto].
  rewrite (clause_ext (ts_created_before ts) _ (λ t, (body_created_at b <=? t)%Z)); [|intros t Ht; apply text_at_least; auto].
  rewrite (clause_ext (ts_expires_after ts) _ (λ t, sql_le (Some t) (body_expires_at b)));
    [|intros t Ht; destruct (body_expires_at b) as [e|]; [apply text_at_least; auto|done]].
  rewrite (clause_ext (ts_expires_before ts) _ (λ t, sql_le (body_expires_at b) (Some t)));
    [|intros t Ht; destruct (body_expires_at b) as [e|]; [apply text_at_least; auto|done]].
  rewrite (clause_ext (ts_period_start_after ts) _ (λ t, sql_le (Some t) (fst <$> body_data_period b)));
    [|intros t Ht; rewrite unixepoch_rfc3339; [|auto]; destruct (body_data_period b) as [[x y]|]; [|done]; cbn;
      rewrite unixepoch_period; [done|by apply Hps]].
  rewrite (clause_ext (ts_period_end_before ts) _ (λ t, sql_le (snd <$> body_data_period b) (Some t)));
    [|intros t Ht; rewrite unixepoch_rfc3339; [|auto]; destruct (body_data_period b) as [[x y]|]; [|done]; cbn;
      rewrite unixepoch_period; [done|by apply Hpe]].
  by apply (sqlite_conjunction _ (clause tenant _)).
Qed.

(** *** Postgres *)

Lemma pg_row_body p c :
  ctx_rep p c → ∃ b, body_from_value (from_jsonb (p_body_json p)) = Ok b ∧ body_parse (c_body_json c) = Ok b ∧
    p_visibility p = visibility_str (body_visibility b) ∧ p_agent_id p = body_agent_id b ∧
    p_context_type p = context_type_str (body_context_type b) ∧
    p_search p = search_columns b (default [] (body_tags b)) ∧
    p_created_at p = pg_time (body_created_at b) ∧ p_expires_at p = pg_time <$> body_expires_at b.
Proof.
  intros (b & receipt & v & t & cs & ts & status & tenant & retracted & Hv & Ht & Hcs & Hts & -> & ->). exists b. simpl.
  by rewrite (pg_body_inverse _ _ Hv) (body_inverse _ _ Ht).
Qed.

Lemma plain_pg_time t : plain_time t → pg_time t = t.
Proof. intros [Hms _]. by apply whole_pg_time. Qed.

Lemma plain_fmap (o : option Z) : plain_option o → pg_time <$> o = o.
Proof. destruct o as [t|]; [|done]. intros Ho. simpl. by rewrite plain_pg_time; [|apply Ho]. Qed.

Lemma pg_status_rule want now p b :
  known_status (p_status p) → p_expires_at p = body_expires_at b → plain_time now →
  bool_decide (status_str (served_status (p_status p) (p_retracted p) b now) = want) = true →
  pg_status_clause want now p = true.
Proof.
  intros Hst Hexp Hnow Hserved.
  set (sel := match body_expires_at b with Some e => (now <? e)%Z | None => true end).
  assert (pg_status_clause want now p =
    if bool_decide (want = "retracted") then p_retracted p
    else if bool_decide (want = "active") then negb (p_retracted p) && bool_decide (p_status p = "active") && sel
    else if bool_decide (want = "expired") then
      negb (p_retracted p) && (bool_decide (p_status p = "expired") || (bool_decide (p_status p = "active") && negb sel))
    else negb (p_retracted p) && bool_decide (p_status p = want)) as ->.
  { unfold pg_status_clause. rewrite Hexp (plain_pg_time now Hnow). unfold sel. destruct (body_expires_at b) as [e|]; [|done].
    by rewrite Z.ltb_antisym negb_involutive. }
  eapply (status_rule _ _ _ (body_expires_at b)); [done|done| |intros Hn; unfold sel; by rewrite Hn|done].
  intros e He. unfold sel. by rewrite He.
Qed.

Lemma pg_conjunction (v t q d a c s tg ca cb ea eb ps pe sc st df : bool) :
  (st = true → sc = true) →
  v && t && q && d && a && c && s && tg && ca && cb && ea && eb && ps && pe && sc && (st && df) =
  v && t && q && (d && a && c && s && ca && cb && ea && eb && ps && pe && tg && df) && st.
Proof.
  intros Hst. destruct v; [|done]. destruct t; [|done]. destruct q; [|done]. destruct d; [|done]. destruct a; [|done].
  destruct c; [|done]. destruct s; [|done]. destruct tg; [|simpl; by rewrite !andb_false_r].
  destruct ca; [|done]. destruct cb; [|done]. destruct ea; [|done].
  destruct eb; [|done]. destruct ps; [|done]. destruct pe; [|done]. simpl.
  destruct st; [|by rewrite andb_false_r andb_false_r]. rewrite Hst //. by rewrite andb_true_r.
Qed.

Lemma pg_where_rule params ts req open tenant now p c b :
  ctx_rep p c → body_parse (c_body_json c) = Ok b → known_status (p_status p) →
  plain_body b → plain_filters ts → plain_time now →
  pg_search_where params ts req open tenant now p
  && (bool_decide (status_str (served_status (p_status p) (p_retracted p) b now) = want_status params) && derives params b) =
  search_spec params ts req open tenant now (λ q, tsquery_match q (ts_document p)) b (p_tenant_id p) (p_status p) (p_retracted p).
Proof.
  intros Hpc Hbody Hst Hb Hts Hnow. destruct (pg_row_body p c Hpc) as (b' & Hfrom & Hp & Hvis & Hag & Hct & Hsc & Hcr & Hex).
  rewrite Hbody in Hp. injection Hp as <-. destruct Hb as (Hbc & Hbe & Hps & Hpe). rewrite (plain_fmap _ Hbe) in Hex.
  rewrite (plain_pg_time _ Hbc) in Hcr. pose proof (pg_status_rule (want_status params) now p b Hst Hex Hnow) as Hstat.
  apply plain_filters_each in Hts as (Hf1 & Hf2 & Hf3 & Hf4 & Hf5 & Hf6).
  unfold pg_search_where, search_spec, matches_filters, SEARCH_VISIBILITY_PG.
  rewrite (search_visibility_rule _ _ _ b req open Hvis Hag); [|unfold pg_audience; by rewrite Hfrom].
  assert (pg_tags_clause params p = has_tags params b) as ->.
  { unfold pg_tags_clause, has_tags. apply clause_ext. intros t _. rewrite Hsc. cbn [search_columns col_tags].
    by destruct (wanted_tags t). }
  rewrite Hag Hct Hsc Hcr Hex. unfold jsonb_member. rewrite Hfrom. cbn [search_columns col_domain].
  rewrite (clause_ext (ts_created_after ts) _ (λ t, (t <=? body_created_at b)%Z)); [|intros t Ht; by rewrite plain_pg_time; [|apply Hf1]].
  rewrite (clause_ext (ts_created_before ts) _ (λ t, (body_created_at b <=? t)%Z)); [|intros t Ht; by rewrite plain_pg_time; [|apply Hf2]].
  rewrite (clause_ext (ts_expires_after ts) _ (λ t, sql_le (Some t) (body_expires_at b))); [|intros t Ht; by rewrite plain_pg_time; [|apply Hf3]].
  rewrite (clause_ext (ts_expires_before ts) _ (λ t, sql_le (body_expires_at b) (Some t))); [|intros t Ht; by rewrite plain_pg_time; [|apply Hf4]].
  rewrite (clause_ext (ts_period_start_after ts) _ (λ t, sql_le (Some t) (fst <$> body_data_period b)));
    [|intros t Ht; rewrite plain_pg_time; [|by apply Hf5]; destruct (body_data_period b) as [[x y]|]; [|done]; cbn;
      by rewrite plain_pg_time; [|apply Hps]].
  rewrite (clause_ext (ts_period_end_before ts) _ (λ t, sql_le (snd <$> body_data_period b) (Some t)));
    [|intros t Ht; rewrite plain_pg_time; [|by apply Hf6]; destruct (body_data_period b) as [[x y]|]; [|done]; cbn;
      by rewrite plain_pg_time; [|apply Hpe]].
  by apply (pg_conjunction _ (clause tenant _)).
Qed.

(** ** Whole searches *)

(** What a row contributes to a search. *)
Definition found_row {R} (decode : R → result FullContext AcdpError) (keep : FullContext → bool) (r : R) :
    option SearchResult :=
  match decode r with Ok ctx => if keep ctx then Some (search_result ctx) else None | Err _ => None end.

Lemma found_rows {R} (decode : R → result FullContext AcdpError) keep out full :
  Forall2 (λ r c, decode r = Ok c) out full →
  map search_result (List.filter keep full) = omap (found_row decode keep) out.
Proof.
  induction 1 as [|r c out full Hr _ IH]; [done|]. cbn. unfold found_row at 1. rewrite Hr. destruct (keep c); cbn; by rewrite IH.
Qed.

Lemma omap_perm {A B} (f : A → option B) l k : l ≡ₚ k → omap f l ≡ₚ omap f k.
Proof.
  induction 1 as [|x l k _ IH|x y l|l1 l2 l3 _ IH1 _ IH2]; cbn; [done| | |by etrans].
  - destruct (f x); [by constructor|done].
  - destruct (f x), (f y); try done. constructor.
Qed.

Lemma omap_filter {A B} (f : A → option B) (w : A → bool) l :
  omap f (List.filter w l) = omap (λ r, if w r then f r else None) l.
Proof. induction l as [|x l IH]; [done|]. cbn. destruct (w x); cbn; by rewrite IH. Qed.

Lemma omap_Forall2 {A B C} (f : A → option C) (g : B → option C) l k :
  Forall2 (λ a b, f a = g b) l k → omap f l = omap g k.
Proof. induction 1 as [|a b l k Hab _ IH]; [done|]. cbn. by rewrite Hab IH. Qed.

Definition newer (x y : SearchResult) : Prop := (sr_created_at y ≤ sr_created_at x)%Z.

Lemma found_in_order {R} (decode : R → result FullContext AcdpError) keep (lt : R → R → Prop) (at_ : R → Z) out :
  StronglySorted lt out →
  (∀ r s, r ∈ out → s ∈ out → lt r s → (at_ s ≤ at_ r)%Z) →
  (∀ r x, r ∈ out → found_row decode keep r = Some x → sr_created_at x = at_ r) →
  StronglySorted newer (omap (found_row decode keep) out).
Proof.
  induction 1 as [|r l _ IH Hlt]; intros Hord Hat; [constructor|]. cbn.
  assert (StronglySorted newer (omap (found_row decode keep) l)) as Hl
    by (apply IH; [intros; apply Hord; set_solver|intros; apply Hat; set_solver]).
  destruct (found_row decode keep r) as [x|] eqn:Hx; [|done]. constructor; [done|].
  apply Forall_forall. intros y (s & Hs & Hy)%list_elem_of_omap. rewrite Forall_forall in Hlt. unfold newer.
  rewrite (Hat r x) // ?(Hat s y) //; [|set_solver..]. apply Hord; [set_solver|set_solver|by apply Hlt].
Qed.

(** A client that follows the cursors of a search: page [i] is asked for at [clock i], and
    [now] decides what has expired. *)
Definition search_walk (search : SearchParams → Z → result SearchResponse AcdpError) (fuel : nat) (p : SearchParams)
    (clock : nat → Z) : option (result (list SearchResult) AcdpError) :=
  page_walk fuel (λ i c,
    let? resp := search (set_cursor c p) (clock i) in Ok (mkPage (matches resp) (next_cursor resp))) 0%nat None.

Lemma page_walk_map {A B} (f : A → B) fuel (page : nat → option string → result (Page A) AcdpError) : ∀ i c,
  page_walk fuel (λ i c, let? p := page i c in Ok (mkPage (map f (page_items p)) (page_next_cursor p))) i c =
  (λ r, let? l := r in Ok (map f l)) <$> page_walk fuel page i c.
Proof.
  induction fuel as [|fuel IH]; intros i c; [done|]. cbn [page_walk]. destruct (page i c) as [p|e]; [|done]. cbn.
  destruct (page_next_cursor p) as [c'|]; [|done]. rewrite IH. destruct (page_walk fuel page (S i) (Some c')) as [[l|e]|]; [|done|done].
  cbn. by rewrite map_app.
Qed.

Section walk.
Context `{!CursorTextLaws} `{!PaginateSdkLaws}.
Context {R K : Type} (key : R → K) (lt : K → K → Prop).
Context `{!StrictOrder lt} `{!RelDecision lt} `{!TrichotomyT lt}.
Context (anchor_key : Z * string → K) (decode : R → result FullContext AcdpError) (keep : FullContext → bool).
Context (search : SearchParams → Z → result SearchResponse AcdpError).
Context (p : SearchParams) (limit : nat) (rows : list R) (total : option string → Z → option Z).

(** A search whose pages are those of a scan finds what the rows of the scan contribute. *)
Hypothesis search_scan : ∀ c tick,
  search (set_cursor c p) tick =
  let? page := scan_page key lt anchor_key decode keep limit c tick rows in
  Ok (mkSearchResponse (map search_result page.1) (total c tick) page.2).

Lemma search_walk_scan fuel clock :
  search_walk search fuel p clock =
  (λ r, let? l := r in Ok (map search_result l)) <$>
    scan_walk key lt anchor_key decode keep fuel limit clock (λ _, rows) 0 None.
Proof.
  unfold search_walk, scan_walk. rewrite -page_walk_map. apply page_walk_ext. intros i c. rewrite search_scan.
  by destruct (scan_page _ _ _ _ _ _ _ _ _).
Qed.

Lemma search_walk_ends fuel clock (at_ : R → Z) :
  (0 < limit)%nat → NoDup (map key rows) → (∀ r, r ∈ rows → row_readable key anchor_key decode r) → in_time clock →
  (length rows < fuel)%nat →
  (∀ r s, r ∈ rows → s ∈ rows → lt (key r) (key s) → (at_ s ≤ at_ r)%Z) →
  (∀ r ctx, r ∈ rows → decode r = Ok ctx → body_created_at (fc_body ctx) = at_ r) →
  ∃ found, search_walk search fuel p clock = Some (Ok found) ∧
    found ≡ₚ omap (found_row decode keep) rows ∧ StronglySorted newer found.
Proof.
  intros Hpos Hnd Hread Hclock Hfuel Hord Hat.
  destruct (scan_ends key lt anchor_key decode keep fuel limit clock rows Hpos Hnd Hread Hclock Hfuel)
    as (out & full & Hwalk & Hperm & Hsort & Hfull).
  exists (map search_result (List.filter keep full)). split; [by rewrite search_walk_scan Hwalk|].
  rewrite (found_rows decode keep out full Hfull). split; [by apply omap_perm|].
  apply (found_in_order decode keep (λ r s, lt (key r) (key s)) at_); [done| |].
  - intros r s. rewrite !Hperm. apply Hord.
  - intros r x. rewrite Hperm. intros Hr Hx. unfold found_row in Hx. destruct (decode r) as [ctx|] eqn:Hd; [|done].
    rewrite -(Hat r ctx Hr Hd). destruct (keep ctx); [|done]. by injection Hx as <-.
Qed.
End walk.

(** The contexts a search is to find. *)
Definition search_expected (p : SearchParams) (ts : SearchTimes) (requester : option string) (open : bool)
    (tenant : option string) (now : Z) (r : CtxRow) : option SearchResult :=
  match body_parse (c_body_json r) with
  | Err _ => None
  | Ok b =>
      let retracted := negb (c_retracted r =? 0)%Z in
      if search_spec p ts requester open tenant now (λ q, fts5_match (fts5_escape q) (fts_document r)) b (c_tenant_id r)
           (c_status r) retracted
      then Some (search_result (project_context (full_context b (stored_status (c_status r) retracted) None) now))
      else None
  end.

Lemma andb_if {A} (a b : bool) (x : A) : (if a then if b then Some x else None else None) = if a && b then Some x else None.
Proof. by destruct a. Qed.

Lemma sqlite_found p ts requester open tenant now r b :
  decodes r b → known_status (c_status r) → plain_body b → plain_filters ts → plain_time now →
  (if sqlite_search_where p ts requester open tenant now r
   then found_row (sqlite_search_context now) (sqlite_search_keep p) r else None) =
  search_expected p ts requester open tenant now r.
Proof.
  intros Hd Hst Hb Hts Hnow. unfold found_row, search_expected, sqlite_search_context, decode_body.
  rewrite (dec_body _ _ Hd). cbn. rewrite andb_if. by rewrite -(sqlite_where_rule p ts requester open tenant now r b).
Qed.

Lemma pg_found p ts requester open tenant now q r b :
  ctx_rep q r → decodes r b → known_status (c_status r) → plain_body b → plain_filters ts → plain_time now →
  (∀ text, sp_q p = Some text → tsquery_match text (ts_document q) = fts5_match (fts5_escape text) (fts_document r)) →
  (if pg_search_where p ts requester open tenant now q
   then found_row (pg_search_context now) (pg_search_keep p) q else None) =
  search_expected p ts requester open tenant now r.
Proof.
  intros Hqr Hd Hst Hb Hts Hnow Hhit. destruct (pg_row_body q r Hqr) as (b' & Hfrom & Hp & _).
  rewrite (dec_body _ _ Hd) in Hp. injection Hp as <-.
  assert (p_status q = c_status r ∧ p_tenant_id q = c_tenant_id r ∧ p_retracted q = negb (c_retracted r =? 0)%Z) as (Hs & Ht & Hr).
  { destruct Hqr as (? & ? & ? & ? & ? & ? & ? & ? & [] & _ & _ & _ & _ & -> & ->); done. }
  unfold found_row, search_expected, pg_search_context, pg_decode_body. rewrite Hfrom (dec_body _ _ Hd). cbn.
  rewrite andb_if. pose proof (pg_where_rule p ts requester open tenant now q r b Hqr (dec_body _ _ Hd)) as Hrule.
  rewrite Hs Hr Ht in Hrule. rewrite Hs Hr Hrule //. unfold search_spec. by rewrite (clause_ext (sp_q p) _ _ Hhit).
Qed.

Context `{!CollationLaws} `{!CursorTextLaws} `{!PaginateSdkLaws}.

#[local] Instance search_collated_strict : StrictOrder (newest_by Z.ltb collate_ltb).
Proof. apply newest_by_strict; [apply Z.ltb_irrefl|apply collate_irrefl|apply ms_ltb_trans|apply collate_trans]. Qed.

#[local] Instance search_collated_trichotomy : TrichotomyT (newest_by Z.ltb collate_ltb) :=
  newest_by_trichotomy _ _ ms_ltb_total collate_total.

(** Tables whose instants every backend keeps whole and a cursor can name. *)
Definition searchable (s : SqliteDb) : Prop :=
  ∀ r b, r ∈ contexts s → decodes r b → plain_body b ∧ representable (body_created_at b).

(** The full-text engines agree on the rows, for the text that is searched. *)
Definition engines_agree (p : SearchParams) (d : PgDb) (s : SqliteDb) : Prop :=
  ∀ text, sp_q p = Some text →
    Forall2 (λ q r, tsquery_match text (ts_document q) = fts5_match (fts5_escape text) (fts_document r))
      (pg_contexts d) (contexts s).

Lemma stored_known s r : store_wf s → r ∈ contexts s → known_status (c_status r).
Proof. intros Hwf Hr. destruct (wf_status _ Hwf r Hr) as [[? _]|[? _]]; [by right|by left]. Qed.

Lemma filter_sub {A} (f : A → bool) l r : r ∈ List.filter f l → r ∈ l.
Proof. rewrite !list_elem_of_In filter_In. tauto. Qed.

Lemma text_newest_leb (a b : string * string) : newest_first text_ltb a b → text_leb b.1 a.1 = true.
Proof. unfold text_leb. rewrite bytes_leb_spec. intros [Hlt|[-> _]]; [by right|by left]. Qed.

(** The instant of a row. *)
Definition row_time (r : CtxRow) : Z :=
  match body_parse (c_body_json r) with Ok b => body_created_at b | Err _ => 0%Z end.

Lemma sqlite_search_ends s p ts requester open tenant now fuel clock :
  reachable s → parse_times p = Ok ts → plain_filters ts → plain_time now → searchable s →
  (0 < search_limit p)%nat → in_time clock → (length (contexts s) < fuel)%nat →
  ∃ found, search_walk (λ p tick, sqlite_search p requester open tenant now tick s) fuel p clock = Some (Ok found) ∧
    found ≡ₚ omap (search_expected p ts requester open tenant now) (contexts s) ∧ StronglySorted newer found.
Proof.
  intros Hreach%reachable_wf Hts Hplain Hnow Hs Hpos Hclock Hfuel.
  set (rows := List.filter (sqlite_search_where p ts requester open tenant now) (contexts s)).
  assert (∀ r, r ∈ contexts s → ∃ b, decodes r b ∧ plain_body b ∧ representable (body_created_at b) ∧
            row_time r = body_created_at b) as Hrow.
  { intros r Hr. destruct (wf_rows _ Hreach r Hr) as (b & _ & Hd & _). destruct (Hs r b Hr Hd). exists b.
    unfold row_time. by rewrite (dec_body _ _ Hd). }
  destruct (search_walk_ends created_key (newest_first text_ltb) text_anchor (sqlite_search_context now) (sqlite_search_keep p)
    (λ p tick, sqlite_search p requester open tenant now tick s) p (search_limit p) rows
    (λ c tick, match decode_anchor tick c with
               | Ok a => total_rows (keyset_rows created_key (newest_first text_ltb) (search_limit p) (text_anchor <$> a) rows)
                           (filter (after created_key (newest_first text_ltb) (text_anchor <$> a)) rows)
               | Err _ => None end)) with (fuel := fuel) (clock := clock) (at_ := row_time) as (found & Hw & Hperm & Hsort).
  - intros c tick. unfold sqlite_search, scan_page. change (parse_times (set_cursor c p)) with (parse_times p).
    rewrite Hts. cbn [and_then]. change (sp_cursor (set_cursor c p)) with c. by destruct (decode_anchor tick c).
  - done.
  - apply NoDup_map_List_filter, (NoDup_fmap_1 snd). change (NoDup (snd <$> (created_key <$> contexts s))).
    rewrite -list_fmap_compose. exact (published_ids _ (wf_published _ Hreach)).
  - intros r Hr%filter_sub. destruct (Hrow r Hr) as (b & Hd & _ & Hrep & _). eexists. unfold sqlite_search_context, decode_body.
    rewrite (dec_body _ _ Hd). split; [done|]. split; [done|]. unfold text_anchor, created_key. cbn.
    by rewrite (dec_ctx_id _ _ Hd) (dec_created_at _ _ Hd).
  - done.
  - eapply Nat.le_lt_trans; [apply filter_length_le|exact Hfuel].
  - intros r r' Hr%filter_sub Hr'%filter_sub Hlt. destruct (Hrow r Hr) as (b & Hd & [Hb _] & _ & ->).
    destruct (Hrow r' Hr') as (b' & Hd' & [Hb' _] & _ & ->). unfold created_key in Hlt.
    rewrite (dec_created_at _ _ Hd) (dec_created_at _ _ Hd') in Hlt. apply Z.leb_le. rewrite -(text_at_least _ _ Hb' Hb).
    exact (text_newest_leb _ _ Hlt).
  - intros r ctx Hr%filter_sub Hc. unfold sqlite_search_context, decode_body in Hc. unfold row_time.
    destruct (body_parse (c_body_json r)); [|done]. by injection Hc as <-.
  - exists found. split; [done|]. split; [|done]. rewrite Hperm. unfold rows. rewrite omap_filter.
    rewrite (omap_Forall2 _ (search_expected p ts requester open tenant now) _ (contexts s)); [done|].
    apply Forall_Forall2_diag, Forall_forall. intros r Hr.
    destruct (Hrow r Hr) as (b & Hd & Hb & _). apply (sqlite_found p ts requester open tenant now r b); auto. by eapply stored_known.
Qed.

(** What a Postgres row holds is what its SQLite row decodes to. *)
Lemma pg_search_row d s now :
  rep d s → store_wf s → searchable s → ∀ q, q ∈ pg_contexts d →
  ∃ b, pg_search_context now q =
      Ok (project_context (full_context b (if p_retracted q then Retracted else parse_status (p_status q)) None) now) ∧
    representable (body_created_at b) ∧ plain_time (body_created_at b) ∧
    p_created_at q = body_created_at b ∧ p_ctx_id q = body_ctx_id b.
Proof.
  intros Hrep Hwf Hs q Hq. apply list_elem_of_lookup in Hq as [i Hi]. destruct (rep_lookup _ _ _ _ Hrep Hi) as (r & Hr & Hqr).
  apply list_elem_of_lookup_2 in Hr. destruct (wf_rows _ Hwf r Hr) as (b & _ & Hd & _). destruct (Hs r b Hr Hd) as [[Hb _] Hre].
  destruct (ctx_rep_body q r Hqr) as (b' & Hfrom & Hb' & _ & _ & Hcr & Hid). rewrite (dec_body _ _ Hd) in Hb'. injection Hb' as <-.
  rewrite (plain_pg_time _ Hb) in Hcr. exists b. unfold pg_search_context, pg_decode_body. by rewrite Hfrom.
Qed.

Lemma pg_search_ends d s p ts requester open tenant now fuel clock :
  reachable s → rep d s → parse_times p = Ok ts → plain_filters ts → plain_time now → searchable s → engines_agree p d s →
  (0 < search_limit p)%nat → in_time clock → (length (contexts s) < fuel)%nat →
  ∃ found, search_walk (λ p tick, pg_search p requester open tenant now tick d) fuel p clock = Some (Ok found) ∧
    found ≡ₚ omap (search_expected p ts requester open tenant now) (contexts s) ∧ StronglySorted newer found.
Proof.
  intros Hreach%reachable_wf Hrep Hts Hplain Hnow Hs Heng Hpos Hclock Hfuel.
  set (rows := List.filter (pg_search_where p ts requester open tenant now) (pg_contexts d)).
  pose proof (pg_search_row d s now Hrep Hreach Hs) as Hrow.
  destruct (search_walk_ends pg_created_key (newest_by Z.ltb collate_ltb) pg_anchor (pg_search_context now) (pg_search_keep p)
    (λ p tick, pg_search p requester open tenant now tick d) p (search_limit p) rows
    (λ c tick, match decode_anchor tick c with
               | Ok a => total_rows (keyset_rows pg_created_key (newest_by Z.ltb collate_ltb) (search_limit p) (pg_anchor <$> a) rows)
                           (filter (after pg_created_key (newest_by Z.ltb collate_ltb) (pg_anchor <$> a)) rows)
               | Err _ => None end)) with (fuel := fuel) (clock := clock) (at_ := p_created_at) as (found & Hw & Hperm & Hsort).
  - intros c tick. unfold pg_search, scan_page. change (parse_times (set_cursor c p)) with (parse_times p).
    rewrite Hts. cbn [and_then]. change (sp_cursor (set_cursor c p)) with c. by destruct (decode_anchor tick c).
  - done.
  - by eapply pg_keys_unique, wf_published.
  - intros q Hq%filter_sub. destruct (Hrow q Hq) as (b & Hd & Hre & Hb & Hcr & Hid). eexists. split; [exact Hd|].
    split; [done|]. unfold pg_anchor, pg_created_key. cbn. by rewrite Hcr Hid plain_pg_time.
  - done.
  - eapply Nat.le_lt_trans; [apply filter_length_le|]. rewrite (Forall2_length _ _ _ (rep_contexts _ _ Hrep)). exact Hfuel.
  - intros q q' _ _ [Hlt|[Heq _]]; cbn in *; [by apply Z.ltb_lt, Z.lt_le_incl in Hlt|by rewrite Heq].
  - intros q ctx Hq%filter_sub Hc. destruct (Hrow q Hq) as (b & Hd & _ & _ & Hcr & _). rewrite Hd in Hc. injection Hc as <-. by rewrite Hcr.
  - exists found. split; [done|]. split; [|done]. rewrite Hperm. unfold rows. rewrite omap_filter.
    rewrite (omap_Forall2 _ (search_expected p ts requester open tenant now) _ (contexts s)); [done|].
    apply Forall2_same_length_lookup_2. { by eapply Forall2_length, rep_contexts. }
    intros i q r Hq Hr. pose proof (Forall2_lookup_lr _ _ _ _ _ _ (rep_contexts _ _ Hrep) Hq Hr) as Hqr.
    pose proof Hr as Hin. apply list_elem_of_lookup_2 in Hin. destruct (wf_rows _ Hreach r Hin) as (b & _ & Hd & _).
    destruct (Hs r b Hin Hd) as [Hb _]. apply (pg_found p ts requester open tenant now q r b); auto; [by eapply stored_known|].
    intros text Ht. exact (Forall2_lookup_lr _ _ _ _ _ _ (Heng text Ht) Hq Hr).
Qed.

(** C13: A search finds the contexts it is asked for, and the two backends find the same.
    Follow the cursors of a search to its end, on tables the SQLite server can reach, at
    rest during the walk, each page within the hour its cursor lives, with one status
    clock, that clock, the stored instants and the time filters being whole milliseconds
    of four-digit years. Then the walk ends without an error, and has found exactly the
    contexts of the tenant that a search may
    disclose to the requester, that match every filter and whose status, expiry
    included, is the one asked for: each once, the newest first. What is found is what a
    retrieval would show the same requester too. On Postgres tables written from the same
    data, where the full-text engines agree on the text that is searched, the walk ends
    without an error too, newest first, with the same results. *)
Theorem search_finds_the_matches (p : SearchParams) (ts : SearchTimes) (requester : option string) (open : bool)
    (tenant : option string) (now : Z) (s : SqliteDb) (fuel : nat) (clock : nat → Z) :
  reachable s → parse_times p = Ok ts → plain_filters ts → plain_time now → searchable s →
  (0 < search_limit p)%nat → in_time clock → (length (contexts s) < fuel)%nat →
  ∃ found,
    search_walk (λ p tick, sqlite_search p requester open tenant now tick s) fuel p clock = Some (Ok found) ∧
    found ≡ₚ omap (search_expected p ts requester open tenant now) (contexts s) ∧
    StronglySorted newer found ∧
    (∀ x, x ∈ found → ∃ r b, r ∈ contexts s ∧ body_parse (c_body_json r) = Ok b ∧ sr_ctx_id x = body_ctx_id b ∧
       retrieve_visible b requester open = true) ∧
    ∀ d, rep d s → engines_agree p d s → ∃ found',
      search_walk (λ p tick, pg_search p requester open tenant now tick d) fuel p clock = Some (Ok found') ∧
      found' ≡ₚ found ∧ StronglySorted newer found'.
Proof.
  intros Hreach Hts Hplain Hnow Hs Hpos Hclock Hfuel.
  destruct (sqlite_search_ends s p ts requester open tenant now fuel clock) as (found & Hw & Hperm & Hsort); [done..|].
  exists found. do 3 (split; [done|]). split.
  - intros x. rewrite Hperm. intros (r & Hr & Hx)%list_elem_of_omap. unfold search_expected in Hx.
    destruct (body_parse (c_body_json r)) as [b|] eqn:Hb; [|done]. exists r, b. do 2 (split; [done|]).
    destruct (search_spec _ _ _ _ _ _ _ _ _ _ _) eqn:Hspec; [|done]. injection Hx as <-. split; [done|].
    apply search_visible_retrieves. unfold search_spec in Hspec. by destruct (search_visible b requester open).
  - intros d Hrep Heng.
    destruct (pg_search_ends d s p ts requester open tenant now fuel clock) as (found' & Hw' & Hperm' & Hsort'); [done..|].
    exists found'. split; [done|]. split; [by rewrite Hperm'|done].
Qed.
End exact.
