(* ===== verification/PgExample.v ===== *)
(** * Two publishers on Postgres

    A JSONB codec over the texts of [StoreExample], and a schedule in which a publish
    and the publish that would supersede the same context wait for each other on the
    row, one of them commits and the other finds the context superseded; a third
    publishes beside them. The theorems of [PgSerial], [PgParity], [PgReads] and [Search]
    are applied to its run. *)

From S2P Require Import Prelude Text Errors ContextTypes ChangeBucket ChangeFeed FeedBackends ReadGate PageCursors ReadHandlers.
From S2P Require Import EventReceipts KeyAttestations SqlTx SqliteStore SqlitePublish SqliteInvariants SqliteLifecycle SqliteReach SqliteLog PgTx PgStore PgSerial PgParity StoreExample SqliteReads SqliteListing PgReads Search.

Open Scope registry_scope.

Module PgExample.
Import EventExample CursorExample StoreExample.StoreExample.

(** A JSONB column holds the text of a value; a body is the string of its text. *)
Definition text_value {A} (parse : string → result A string) (v : Value) : result A string :=
  match v with VString s => parse s | _ => Err "expected a string" end.

#[export] Instance ledger_pg : PgCodec := {|
  Jsonb := string;
  to_jsonb := λ v, tree_text (value_tree v);
  from_jsonb := λ j, default VNull (tree_value <$> tree_parse j);
  body_to_value := λ b, Ok (VString (tree_text (body_tree b)));
  body_from_value := text_value (parse_as "body" tree_body);
  response_to_value := λ r, Ok (VString (tree_text (response_tree r)));
  response_from_value := text_value (parse_as "response" tree_response);
  signature_to_value := λ e, Ok (VString <$> ev_key e)
|}.

Lemma jsonb_inverse (v : Value) : from_jsonb (to_jsonb v) = v.
Proof. simpl. rewrite tree_inverse. simpl. apply tree_value_inverse. Qed.

#[export] Instance ledger_pg_laws : PgCodecLaws.
Proof.
  constructor.
  - intros b v [= <-]. rewrite jsonb_inverse. apply parse_as_inverse, tree_body_inverse.
  - intros r v [= <-]. rewrite jsonb_inverse. apply parse_as_inverse, tree_response_inverse.
  - intros r v Hv. rewrite jsonb_inverse. by apply receipt_value_inverse.
  - intros [i c t a r k] sig tenant rc [= <-]. unfold pg_event_from_row, pg_event_row. cbn [pe_signature].
    destruct k as [k|]; cbn [fmap option_fmap option_map ev_key]; [rewrite jsonb_inverse|]; by destruct t, r.
  - done.
  - done.
  - done.
  - done.
Qed.

#[export] Instance PgLock_eq_dec : EqDecision PgLock.
Proof. solve_decision. Defined.

Definition feed0 : ChangesDb Jsonb := mkChangesDb true [] 0 0 None.
Definition pg0 : PgDb := pg_empty feed0.
Definition pg_store1 : PgStore := mkPgStore true (Some ledger_mint).

Definition publish_at (now draw : Z) (commit : PublishCommit) : PgTransaction :=
  TxPublish (mkPgPublishEnv now draw false []) commit.

(** A statement: its snapshot, then its act. *)
Definition stmts (i n : nat) : list (nat * Turn PgTransaction) :=
  concat (replicate n [(i, TSnapshot); (i, TAct)]).
Definition third : PublishCommit := commit_of (request "did:web:a" 2 (Some id1) "h3") None (Some "t1").
Definition apart : PublishCommit := commit_of (request "did:web:b" 1 None "h4") (Some ("key-2", hour)) (Some "t1").

(** The first version is published. Then two publishes that supersede it take the
    snapshots of their locking reads, the first of them gets the row and publishes
    beside an unrelated publish as far as the log's lock allows; when it has committed,
    the second gets the row and finds it superseded, and the unrelated one goes on. *)
Definition turns : list (nat * Turn PgTransaction) :=
  (0, TBegin (publish_at 5000000 1 first)) :: stmts 0 6 ++ [(0, TEnd)] ++
  [(1, TBegin (publish_at 6000000 2 second)); (2, TBegin (publish_at 6000000 3 third)); (3, TBegin (publish_at 6000000 4 apart));
   (1, TSnapshot); (2, TSnapshot); (1, TAct)] ++ stmts 3 3 ++ stmts 1 3 ++ [(3, TSnapshot)] ++ stmts 1 5.
Definition rest : list (nat * Turn PgTransaction) :=
  [(1, TEnd); (2, TAct); (2, TEnd); (3, TAct)] ++ stmts 3 2 ++ [(3, TEnd)].

Definition outcome (l : list (nat * Turn PgTransaction)) :=
  follow pg_apply pg_lock_of (pg_program pg_store1) l [] (mkSystem pg0 ∅).

(** Neither the row nor the log's lock can be had before the commit. *)
Example both_wait :
  map (λ l, match outcome l with Some _ => true | None => false end) [turns; turns ++ [(2, TAct)]; turns ++ [(3, TAct)]] =
    [true; false; false].
Proof. vm_compute. reflexivity. Qed.

Definition is_commit (ev : Event PgDb PgLock PgWrite PgAnswer) : bool :=
  match ev with Committed _ _ _ _ => true | _ => false end.

Lemma outcome_runs (ok : PgTransaction → Prop) l evs sys :
  Forall (λ ia, begins ok ia.2) l → outcome l = Some (evs, sys) → pg_runs ok pg_store1 pg0 evs sys.
Proof. intros Hok. apply follow_sound; [exact Hok|constructor]. Qed.

Definition any (_ : PgTransaction) : Prop := True.

Lemma turns_any : Forall (λ ia, begins any ia.2) (turns ++ rest).
Proof. apply Forall_forall. by intros [i []] _. Qed.

Lemma pg0_inv : pg_inv pg0.
Proof. apply pg_inv_empty. Qed.

Lemma pg0_dense : log_dense pg0.
Proof. split; [|constructor]. by intros i l. Qed.

Lemma pg_runs_are_serial_witness :
  match outcome (turns ++ rest) with
  | Some (evs, sys) =>
      length (List.filter is_commit evs) = 3 ∧
      map p_status (pg_contexts (committed sys)) = ["superseded"; "active"; "active"] ∧
      ∃ olds, serial_history pg_apply pg0 evs (committed sys :: olds)
  | None => False
  end.
Proof.
  assert (match outcome (turns ++ rest) with
          | Some (evs, sys) => length (List.filter is_commit evs) = 3 ∧
                               map p_status (pg_contexts (committed sys)) = ["superseded"; "active"; "active"]
          | None => False
          end) as Hrun by (vm_compute; split; reflexivity).
  destruct (outcome (turns ++ rest)) as [[evs sys]|] eqn:Hout; [|destruct Hrun]. destruct Hrun as [Hlen Hst]. split; [exact Hlen|]. split; [exact Hst|].
  apply (pg_runs_are_serial any pg_store1 pg0 evs sys pg0_inv (outcome_runs any _ _ _ turns_any Hout)).
Defined.

Lemma pg_log_stays_dense_witness :
  match outcome (turns ++ rest) with
  | Some (evs, sys) => length (pg_log_leaves (committed sys)) = 3 ∧ log_dense (committed sys)
  | None => False
  end.
Proof.
  assert (match outcome (turns ++ rest) with
          | Some (evs, sys) => length (pg_log_leaves (committed sys)) = 3
          | None => False
          end) as Hrun by (vm_compute; reflexivity).
  destruct (outcome (turns ++ rest)) as [[evs sys]|] eqn:Hout; [|destruct Hrun]. split; [exact Hrun|].
  exact (pg_log_stays_dense any pg_store1 pg0 evs sys pg0_inv pg0_dense (outcome_runs any _ _ _ turns_any Hout)).
Defined.

Lemma whole_times t : (t mod ns_per_ms =? 0)%Z = true → whole_ms t.
Proof. apply Z.eqb_eq. Qed.

Lemma turns_mirrored : Forall (λ ia, begins mirrored ia.2) (turns ++ rest).
Proof.
  assert (∀ commit now draw, keyless_successor (pc_req commit) = None → whole_ms now →
            (match pc_idempotency commit with Some (_, ttl) => whole_ms (now + ttl) | None => True end) →
            mirrored (publish_at now draw commit)) as Hm by (intros; by split_and!).
  repeat (apply Forall_cons; split; [first [exact I | apply Hm; [reflexivity|by apply whole_times|
    first [exact I|by apply whole_times]]]|]). constructor.
Qed.

Lemma pg_refines_sqlite_witness :
  match outcome (turns ++ rest) with
  | Some (evs, sys) =>
      length (List.filter is_commit evs) = 3 ∧
      ∃ sdb, sqlite_history pg_store1 db0 evs sdb ∧ rep (committed sys) sdb
  | None => False
  end.
Proof.
  assert (match outcome (turns ++ rest) with
          | Some (evs, sys) => length (List.filter is_commit evs) = 3
          | None => False
          end) as Hrun by (vm_compute; reflexivity).
  destruct (outcome (turns ++ rest)) as [[evs sys]|] eqn:Hout; [|destruct Hrun]. split; [exact Hrun|].
  destruct (pg_refines_sqlite pg_store1 pg0 db0 evs sys store1_signs pg0_inv
              (rep_empty feed0 (mkChangesDb true [] 0 0 None) eq_refl eq_refl)
              (outcome_runs mirrored _ _ _ turns_mirrored Hout)) as (sdb & Hh & Hrep & _).
  exists sdb. split; [exact Hh|exact Hrep].
Defined.

Lemma pg_lineages_never_fork_witness :
  match outcome (turns ++ rest) with
  | Some (evs, sys) =>
      map p_supersedes (pg_contexts (committed sys)) = [None; Some id1; None] ∧
      ∀ r, r ∈ pg_contexts (committed sys) →
        p_status r = "superseded" ↔ ∃ s, s ∈ pg_contexts (committed sys) ∧ p_supersedes s = Some (p_ctx_id r)
  | None => False
  end.
Proof.
  assert (match outcome (turns ++ rest) with
          | Some (evs, sys) => map p_supersedes (pg_contexts (committed sys)) = [None; Some id1; None]
          | None => False
          end) as Hrun by (vm_compute; reflexivity).
  destruct (outcome (turns ++ rest)) as [[evs sys]|] eqn:Hout; [|destruct Hrun]. split; [exact Hrun|].
  exact (proj1 (proj2 (pg_lineages_never_fork any pg_store1 pg0 evs sys pg0_inv unforked_nil
                         (outcome_runs any _ _ _ turns_any Hout)))).
Defined.

(** ** Reads and searches *)

(** Bytes of one length order like the numbers they are. *)
Lemma be_bytes_order l : ∀ k, length l = length k → Forall is_byte l → Forall is_byte k →
  bytes_ltb l k = (from_be_bytes l <? from_be_bytes k)%Z.
Proof.
  induction l as [|x l IH]; intros [|y k] Hlen Hl Hk; try done. injection Hlen as Hlen.
  apply Forall_cons in Hl as [Hx Hl]. apply Forall_cons in Hk as [Hy Hk].
  pose proof (from_be_bytes_bounds l Hl) as Bl. pose proof (from_be_bytes_bounds k Hk) as Bk. rewrite Hlen in Bl.
  rewrite !from_be_bytes_cons Hlen. cbn [bytes_ltb]. rewrite (IH k Hlen Hl Hk).
  set (m := (256 ^ Z.of_nat (length k))%Z) in *. apply eq_iff_eq_true. rewrite orb_true_iff andb_true_iff !Z.ltb_lt Z.eqb_eq.
  split; [intros [?|[-> ?]]; [|lia]; nia|]. intros Hlt. destruct (Z.lt_trichotomy x y) as [?|[->|?]]; [by left|right; lia|nia].
Qed.

Definition fixed_width (t : Z) : string := from_bytes (to_be_bytes 16 (t + 2 ^ 100)).

Lemma fixed_width_bytes t : as_bytes (fixed_width t) = to_be_bytes 16 (t + 2 ^ 100).
Proof. apply as_bytes_from_bytes, to_be_bytes_is_byte. Qed.

Lemma fixed_width_value t : four_digit_year t → from_be_bytes (as_bytes (fixed_width t)) = (t + 2 ^ 100)%Z.
Proof.
  intros Ht. rewrite fixed_width_bytes. apply from_be_bytes_to_be_bytes. unfold four_digit_year, ns_per_sec in Ht.
  change (256 ^ Z.of_nat 16)%Z with (2 ^ 128)%Z. lia.
Qed.

#[export] Instance ledger_times : TimeText := {|
  parse_from_rfc3339 s := if (length (as_bytes s) =? 16)%nat then Ok (from_be_bytes (as_bytes s) - 2 ^ 100)%Z else Err "invalid";
  unixepoch s := Some (from_be_bytes (as_bytes s) - 2 ^ 100)%Z;
  period_text := fixed_width
|}.

#[export] Instance ledger_time_laws : TimeTextLaws.
Proof.
  assert (∀ t, plain_time t → unixepoch (fixed_width t) = Some t) as Hu.
  { intros t [_ Ht]. change (Some (from_be_bytes (as_bytes (fixed_width t)) - 2 ^ 100)%Z = Some t). rewrite fixed_width_value //. f_equal. lia. }
  split; [|exact Hu|exact Hu].
  intros t u Ht Hu'. change (text_leb (fixed_width t) (fixed_width u) = (t <=? u)%Z). unfold text_leb, bytes_leb.
  rewrite be_bytes_order ?fixed_width_value //; [|rewrite fixed_width_bytes; apply to_be_bytes_is_byte..].
  rewrite -Z.leb_antisym. apply eq_iff_eq_true. rewrite !Z.leb_le. lia.
Qed.

#[export] Instance ledger_collation : Collation := text_ltb.

#[export] Instance ledger_collation_laws : CollationLaws.
Proof. split; [apply text_ltb_irrefl|apply text_ltb_trans|apply text_ltb_total]. Qed.

(** Engines that look for every word in the title. *)
Definition in_title (words : list string) (doc : SearchDocument) : bool :=
  forallb (λ w, bool_decide (w ∈ split_whitespace (doc_title doc))) words.

Fixpoint unquoted (s : string) : string :=
  match s with
  | EmptyString => EmptyString
  | String.String c s => if bool_decide (c = quote) then unquoted s else String.String c (unquoted s)
  end.

#[export] Instance ledger_text : FullText := {|
  fts5_match query doc := in_title (split_whitespace (unquoted query)) doc;
  tsquery_match q doc := match query_terms q with [] => false | words => in_title words doc end
|}.

(** The run of above in both stores. *)
Lemma run_tables :
  match outcome (turns ++ rest) with
  | Some (evs, sys) => ∃ sdb, reachable sdb ∧ rep (committed sys) sdb
  | None => True
  end.
Proof.
  destruct (outcome (turns ++ rest)) as [[evs sys]|] eqn:Hout; [|exact I].
  destruct (pg_run_mirrored pg_store1 pg0 db0 evs sys store1_signs pg0_inv
              (rep_empty feed0 (mkChangesDb true [] 0 0 None) eq_refl eq_refl)
              (outcome_runs mirrored _ _ _ turns_mirrored Hout)) as (sdb & _ & Hrep & Hrun).
  exists sdb. split; [by exists (mkChangesDb true [] 0 0 None)|exact Hrep].
Qed.

Definition no_hex (s : string) : result (list Z) AcdpError := Err (SchemaViolation s).

Lemma pg_reads_agree_witness :
  match outcome (turns ++ rest) with
  | Some (evs, sys) =>
      is_Some (pg_tenant_of_ctx id1 (committed sys)) ∧
      ∃ sdb, reads_agree no_hex pg_store1 (committed sys) (committed sys) sdb sdb
  | None => False
  end.
Proof.
  assert (match outcome (turns ++ rest) with
          | Some (evs, sys) => pg_tenant_of_ctx id1 (committed sys) = Some "t1"
          | None => False
          end) as Hrun by (vm_compute; reflexivity).
  pose proof run_tables as Htab.
  destruct (outcome (turns ++ rest)) as [[evs sys]|]; [|destruct Hrun]. split; [by rewrite Hrun|].
  destruct Htab as (sdb & Hreach & Hrep). exists sdb.
  exact (pg_reads_agree no_hex pg_store1 (committed sys) (committed sys) sdb sdb Hreach Hrep Hrep).
Defined.

Definition plain_timeb (t : Z) : bool :=
  (t mod ns_per_ms =? 0)%Z && (- 62167219200 * ns_per_sec <=? t)%Z && (t <? 253402300800 * ns_per_sec)%Z.

Lemma plain_timeb_plain t : plain_timeb t = true → plain_time t.
Proof. unfold plain_timeb. rewrite !andb_true_iff Z.eqb_eq Z.leb_le Z.ltb_lt. intros [[? ?] ?]. by repeat split. Qed.

(** Rows without expiry and data period, of a whole millisecond. *)
Definition plain_row (q : PgCtxRow) : bool :=
  match body_from_value (from_jsonb (p_body_json q)) with
  | Ok b => plain_timeb (body_created_at b) && is_i64 (timestamp_millis (body_created_at b))
            && (timestamp_millis (body_created_at b) * ns_per_ms =? body_created_at b)%Z
            && bool_decide (body_expires_at b = None) && bool_decide (body_data_period b = None)
  | Err _ => false
  end.

Lemma searchable_of d s : rep d s → forallb plain_row (pg_contexts d) = true → searchable s.
Proof.
  intros Hrep Hall r b Hr Hd. apply list_elem_of_lookup in Hr as [i Hi].
  destruct (Forall2_lookup_r _ _ _ _ _ (rep_contexts _ _ Hrep) Hi) as (q & Hq & Hqr).
  rewrite forallb_forall in Hall. apply list_elem_of_lookup_2, list_elem_of_In in Hq. specialize (Hall q Hq).
  destruct (ctx_rep_body q r Hqr) as (b' & Hfrom & Hb' & _). rewrite (dec_body _ _ Hd) in Hb'. injection Hb' as <-.
  unfold plain_row in Hall. rewrite Hfrom in Hall. do 4 (apply andb_prop in Hall as [Hall ?Hc]).
  apply bool_decide_eq_true in Hc, Hc0. apply Z.eqb_eq in Hc1. unfold plain_body. rewrite Hc Hc0. split.
  - split; [by apply plain_timeb_plain|]. by split_and!; intros t.
  - split; [done|]. cbn. by rewrite Hc1.
Qed.

(** Reports that are active and carry two tags, a page at a time. *)
Definition rain : SearchParams :=
  mkSearchParams (Some "The report") None (Some "weather") (Some " rain,daily,, ") None None None None None None None None None None
    (Some 1%Z) None.
Definition rain_times : SearchTimes := mkSearchTimes None None None None None None.
Definition seven_ms : Z := 7000000.

Lemma rain_engines d s : rep d s → engines_agree rain d s.
Proof.
  intros Hrep text Ht. injection Ht as <-. eapply Forall2_impl; [exact (rep_contexts _ _ Hrep)|].
  intros q r (b & receipt & v & t & cs & ts & status & tenant & retracted & _ & _ & _ & _ & -> & ->).
  assert (split_whitespace (unquoted (fts5_escape "The report")) = ["report"]) as Hread by (vm_compute; reflexivity).
  assert (query_terms "The report" = ["report"]) as Hterms by (vm_compute; reflexivity).
  unfold fts5_match, tsquery_match, ledger_text. by rewrite Hread Hterms.
Qed.

Lemma search_finds_the_matches_witness :
  match outcome (turns ++ rest) with
  | Some (evs, sys) =>
      map (λ q, p_status q) (pg_contexts (committed sys)) = ["superseded"; "active"; "active"] ∧
      ∃ sdb found found',
        search_walk (λ p tick, sqlite_search p None true (Some "t1") seven_ms tick sdb) 5 rain (λ _, seven_ms) = Some (Ok found) ∧
        search_walk (λ p tick, pg_search p None true (Some "t1") seven_ms tick (committed sys)) 5 rain (λ _, seven_ms) = Some (Ok found') ∧
        found' ≡ₚ found ∧ length found' = 2
  | None => False
  end.
Proof.
  assert (match outcome (turns ++ rest) with
          | Some (evs, sys) =>
              map (λ q, p_status q) (pg_contexts (committed sys)) = ["superseded"; "active"; "active"] ∧
              forallb plain_row (pg_contexts (committed sys)) = true ∧
              match search_walk (λ p tick, pg_search p None true (Some "t1") seven_ms tick (committed sys)) 5 rain (λ _, seven_ms) with
              | Some (Ok l) => length l = 2
              | _ => False
              end
          | None => False
          end) as Hrun by (vm_compute; repeat split; reflexivity).
  pose proof run_tables as Htab.
  destruct (outcome (turns ++ rest)) as [[evs sys]|]; [|destruct Hrun]. destruct Hrun as (Hst & Hrows & Hlen). split; [exact Hst|].
  destruct Htab as (sdb & Hreach & Hrep). exists sdb.
  assert (length (contexts sdb) = 3) as Hsize.
  { rewrite -(Forall2_length _ _ _ (rep_contexts _ _ Hrep)) -(length_map (λ q, p_status q)) Hst. reflexivity. }
  destruct (search_finds_the_matches rain rain_times None true (Some "t1") seven_ms sdb 5 (λ _, seven_ms))
    as (found & Hw & _ & _ & _ & Hpg).
  - exact Hreach.
  - reflexivity.
  - apply Forall_forall. intros o Ho t ->. set_solver.
  - apply plain_timeb_plain. vm_compute. reflexivity.
  - by apply (searchable_of (committed sys)).
  - vm_compute. lia.
  - intros i. split; [reflexivity|vm_compute; split; discriminate].
  - rewrite Hsize. lia.
  - destruct (Hpg (committed sys) Hrep (rain_engines _ _ Hrep)) as (found' & Hw' & Hsame & _).
    exists found, found'. rewrite Hw' in Hlen. repeat (split; [assumption|]). exact Hlen.
Defined.
End PgExample.
